(* ===== verification/_CoqProject ===== *)
-Q . S2P
Prelude.v
Serialize.v
BetTx.v
Flushable.v
Params.v
BetDB.v
Double.v
FieldOdds.v
BetKeys.v
Transaction.v
TxCodec.v
Coins.v
CoinsUndo.v
BetView.v
BetCommon.v
CheckTx.v
ProcessTx.v
UndoTx.v
UndoProofs.v
Payouts.v
PayoutProofs.v
Dice.v
GamePayouts.v
FieldPayouts.v
GameProofs.v
Block.v
BlockProofs.v
BlockUndo.v
TokenGroups.v
AddressIndex.v
TokenDesc.v
TxVerify.v
TxVerifyProofs.v
Arith256.v
Chain.v
ChainProofs.v
Pow.v
Kernel.v
KernelProofs.v
ScriptNum.v
Headers.v
ChainSelect.v
ChainSelectProofs.v
ActivateProofs.v
CoinsStore.v
HashStream.v
Sha2.v
Sha512.v
Sha2Proofs.v
Sha1.v
Hash160.v
Merkle.v
MerkleProofs.v
HeadersWire.v
Standard.v
Script.v
ScriptProofs.v
ScriptSpend.v
SigHash.v
BlockCheck.v
BlockCheckProofs.v
Compress.v
BlockFiles.v
CuckooCache.v
CheckQueue.v
InputCheck.v
Rewards.v
TokenManager.v
TokenProofs.v
TokenCheck.v
TokenCheckProofs.v
BetMint.v
Witnesses.v
TokenWitnesses.v
CoinsWitnesses.v
NodeWitnesses.v
SelectWitnesses.v
HashWitnesses.v
ScriptWitnesses.v
