(* ===== verification/Prelude.v ===== *)
(** * A verification of the consensus core of Wagerr

    Wagerr is a proof-of-stake chain with betting built into its consensus.
    Bets, events and results are payloads of OP_RETURN outputs; every node
    keeps the open events and bets in fourteen tables; the results found in one
    block decide the payouts that the coinstake of the next block has to make.
    Tokens are outputs with a group in front of their script.  Nodes agree only
    if they compute the same tables, coins, tokens and payouts for a block, choose
    the same chain, and come back to the same state when a block is disconnected.
    This library models that core, from the hash functions to the processing of a
    new block, and proves what it promises.

    ** The parts of the program and the files that model them

    Paths are below src/src.  A file [XProofs] has theorems about the file [X]; where
    there is none, they follow the definitions.

    Foundations
    - [Prelude]: machine integers (a value is a [Z], the wrap-around of an
      expression of a given width is [u8] ... [i64]), record update, the order
      of serialized keys ([KeySeq], [kle]), the entries of a map in that order
      ([sorted_entries]), the hint database [wagerr] and generic lemmas.
    - [Serialize] (serialize.h): codecs, i.e. a writer, a reader and the values
      that fit ([codec], [CodecLaws]).
    - [Double]: the operations on IEEE doubles that the code uses.
    - [Arith256] (arith_uint256.h, .cpp): 256-bit integers as limbs.
    - [HashStream], [Sha2], [Sha512], [Sha2Proofs], [Sha1], [Hash160]
      (crypto/sha256.cpp, sha512.cpp, sha1.cpp, ripemd160.cpp, hmac_sha256.cpp,
      hmac_sha512.cpp, hash.h): hash functions.
    - [Params] (consensus/params.h, amount.h, primitives/transaction.h): the
      parameters, amounts and outpoints of betting.

    Betting (betting/)
    - [BetTx] (bet_tx.h, .cpp): the 21 betting transactions, how they are
      written to a script and parsed from it.
    - [Flushable] (flushablestorage/flushablestorage.h): key-value storage as
      an interface ([StorageKV]) with its contract ([StorageKVLaws]), and the cache
      with its merging iterator as an implementation over any other one.
    - [BetDB], [BetKeys], [BetView] (bet_common.h, bet_db.h, .cpp): the records,
      their keys and values as bytes, the fourteen tables and their caches.
    - [FieldOdds] (bet_db.cpp): the odds of field events, in double precision.
    - [BetCommon] (bet_common.cpp, oracles.cpp): oracles, results, odds of a bet.
    - [CheckTx], [ProcessTx], [UndoTx], [UndoProofs] (bet.cpp): which betting
      transactions a block may contain, what they do to the tables, the way back.
    - [Payouts], [PayoutProofs], [Dice], [GamePayouts], [FieldPayouts],
      [GameProofs] (bet_v3.cpp, bet_v2.cpp, bet_v4.cpp, quickgames/): the
      settlement of peerless bets, quick games, lotto and field bets.
    - [Block], [BlockProofs], [BlockUndo] (bet.cpp, miner.cpp, validation.cpp):
      the payouts a block has to make, the betting steps of connecting and
      disconnecting a block.

    Transactions and coins
    - [Transaction], [TxCodec] (primitives/transaction.h, .cpp), [TxVerify],
      [TxVerifyProofs] (consensus/tx_check.cpp, tx_verify.cpp).
    - [Coins] (coins.h, .cpp, txdb.cpp): the cache of unspent coins over an
      interface ([CCoinsView], [CCoinsViewLaws]), the database with its batches.
    - [CoinsUndo] (validation.cpp): the coins of a block in both directions.
    - [AddressIndex] (spentindex.h, txdb.cpp, validation.cpp): the address, unspent
      and spent indices.

    Scripts (script/)
    - [ScriptNum] (script.h, script.cpp): numbers in scripts.
    - [Standard] (standard.cpp, pos/blocksignature.cpp): standard scripts, the
      signature of a block.
    - [Script] (interpreter.h, interpreter.cpp): the interpreter, EvalScript and
      VerifyScript, over a checker of signatures ([BaseSignatureChecker]).
      [ScriptProofs]: the flags, the limits, the encodings of signatures;
      [ScriptSpend]: who can spend an output.
    - [SigHash] (sigcommon.cpp): what a signature signs, the checker of a transaction.
    - [InputCheck] (validation.cpp, invalid.cpp, sigcache.cpp): CheckInputs, which runs
      the scripts of a transaction or hands the checks out, over any cache of what was
      verified ([ValidityCache]).
    - [CuckooCache] (cuckoocache.h): that interface and the cache that implements it.
    - [CheckQueue] (checkqueue.h): the threads that run checks.

    Tokens (tokens/, consensus/tokengroups.cpp)
    - [TokenGroups], [TokenDesc]: groups in scripts, descriptions of groups.
    - [TokenManager], [TokenProofs]: the groups of the chain, the database.
    - [TokenCheck], [TokenCheckProofs]: balances.
    - [BetMint] (betting/mint.cpp, events.cpp): tokens that are minted for bets.

    The chain
    - [Chain], [ChainProofs] (chain.h, .cpp): the tree of headers with its skip
      list, the active chain, locators.
    - [Pow] (pow.cpp), [Kernel], [KernelProofs] (pos/kernel.cpp, pos/stakeinput.cpp),
      [Rewards] (pos/rewards.cpp, masternode/payments.cpp): difficulty, stakes, what a
      block may pay.
    - [Headers] (validation.cpp): accepting headers.
    - [HeadersWire] (primitives/block.h, .cpp, net_processing.cpp): headers as they
      are sent, whole and compressed.
    - [Merkle], [MerkleProofs] (consensus/merkle.cpp, merkleblock.h, .cpp): roots and
      partial trees.
    - [BlockCheck], [BlockCheckProofs] (validation.cpp): CheckBlock,
      ContextualCheckBlock, AcceptBlock, ProcessNewBlock.
    - [ChainSelect], [ChainSelectProofs], [ActivateProofs] (validation.cpp): the
      candidates and ActivateBestChain over any store of blocks ([BlockStore],
      [BlockStoreLaws]); [CoinsStore]: the coins are such a store.

    Files
    - [Compress] (compressor.h, .cpp, coins.h, undo.h, serialize.h): coins and undo data
      as they are stored.
    - [BlockFiles] (flatfile.h, .cpp, validation.cpp): the files of blocks and undo
      data.  What the system does, also when it fails, is an argument ([Io]).

    [Witnesses], [TokenWitnesses], [CoinsWitnesses], [NodeWitnesses],
    [SelectWitnesses], [HashWitnesses] and [ScriptWitnesses] have concrete networks,
    transactions, trees and blocks on which the hypotheses of the theorems hold.

    ** How the parts interact

    ProcessNewBlock ([BlockCheck]) checks a block against its own header and
    signature ([Merkle], [Standard], [TxVerify]), enters the header into the tree
    ([Headers], [Pow], [Chain]), stores the transactions and activates the best chain
    ([ChainSelect]), which connects and disconnects blocks in the store.  What is
    connected is modelled part by part: the scripts of the inputs ([InputCheck] over
    [Script] and [SigHash], run by the threads of [CheckQueue], remembered in a
    [CuckooCache]), the coins ([CoinsUndo]), the indices
    ([AddressIndex]), the bets ([Block], [BlockUndo]) with the caches below them
    ([BetView], [Flushable]), the tokens ([TokenManager], [TokenCheck], [BetMint]),
    the stake ([Kernel]) and the rewards ([Rewards]).

    ** How code becomes definitions

    One function of the code is one definition of the same name; a large switch
    has one definition per case (ProcessPeerlessBet is the case plBetTxType of
    ProcessBettingTx) and a definition that dispatches.  State is passed and
    returned explicitly.  A boolean result is a [bool], a rejection with a reason a
    value of an inductive type; [None] is an abort or undefined behaviour: an
    assertion, an exception, an access out of bounds, a null pointer, a division by
    zero.  A table is a [gmap] from key to value, traversed in the order of the
    serialized keys; that the bytes behave like this is what [Flushable], [BetKeys]
    and [BetView] establish.  [ProcessBettingTx] reads some events from the global
    view instead of the cache, which is why it has two views.  A pointer to an entry
    of the block index is the hash it is found under.  Threads ([CheckQueue]) are
    steps: a critical section under the mutex is one step of one thread, and every
    order of the steps is considered.

    Loops over data are structural.  Loops along the chain or over a byte string
    have fuel: the height of the entry they start from, the number of candidates or
    unlinked blocks, the length of the string or script, the number of block files,
    and (n + 2)^2 for the loops of ActivateBestChain, n being the number of entries
    of the block index.  That it is enough is part of the theorems, which state that the result is there:
    [CFlushableStorageKV_refines], [GetAncestor_skiplist], [active_chain_spec],
    [FindMostWorkChain_best], [ActivateBestChain_best], [SaveBlockToDisk_total],
    [ComputeNextStakeModifier_total], [ComputeMerkleRoot_spec],
    [ExtractMatches_complete].  An instruction of a script takes at least one byte
    ([one_step_shorter]), so the fuel of Step is never used up.  The loop of a dice
    bet ([count_win_cases]) folds over the numbers between its bounds, and is [None]
    for the one bound it does not terminate for.

    What lies outside the sources or outside the parts above is a field of a record
    ([ChainEnv] for betting, [Governance] for rewards) or an argument: transactions
    found by their hash, the text of an address, elliptic curve and BLS signatures,
    zerocoin spends, pow of the C library, chain locks, the time.  In [Kernel],
    [Headers] and [ChainSelect] the hash of a header or of bytes is an argument too,
    in [Kernel] also the verification of a script; [HeadersWire], [Sha2] and [Script]
    define them.  A theorem that needs something of them has it
    as a hypothesis, and its witness has a concrete function for it.

    ** What is proved

    - Bets: disconnecting a block brings back the tables
      ([undo_ConnectBlock_process], [UndoPLBetPayouts_restores]); a bet is paid once
      ([GetPLBetPayoutsV3_idempotent]); a block is valid exactly when it pays the
      expected payouts, and what the miner builds is valid
      ([IsBlockPayoutsValid_spec], [IsBlockPayoutsValid_miner]); the mint is their sum
      ([GetBettingPayouts_mint]); a bet is paid at most its stake times its odds
      ([settle_bet_single]); events are stored under their ids
      ([ProcessBettingTx_wf]); parsing inverts encoding ([ParseBettingTx_Encode]);
      field odds fit their type ([CalcOdds_spec]).
    - Storage: both caches implement the contract of the level below
      ([CFlushableStorageKV_refines], [CCoinsViewCache_refines]); a batch that is cut
      off by a crash is noticed ([BatchWrite_crash]).
    - Files: a block and undo data that were given a position are read back there,
      whatever is stored later and whichever write fails
      ([SaveBlockToDisk_durable], [WriteUndoDataForBlock_durable]); storing a block ends
      ([SaveBlockToDisk_total]).
    - Coins: an accepted transaction pays out no more than it spends
      ([CheckTxInputs_conserves]); disconnecting a block restores the coins
      ([DisconnectBlock_restores]) and the indices ([disconnect_index_restores]).
    - Tokens: amounts and authorities are conserved
      ([CheckTokenGroups_conservation]); undo ([UndoBlock_restores]); betting tokens
      cannot be minted, and parlay tokens by anyone ([connect_tokens_no_bets],
      [parlay_minted_freely]).
    - Chain: the tree keeps its invariant and marks only what failed
      ([AcceptBlockHeader_wf], [AcceptBlockHeader_sound], [AcceptBlock_sound]); the
      skip list finds the ancestors ([GetAncestor_skiplist]); the node ends on the
      best valid chain ([FindMostWorkChain_best], [ActivateBestChain_best]), except
      after an error that is not a verdict ([ConnectError_stuck]).
    - Scripts: an output to the hash of a key is spent exactly with that key and a
      valid signature ([VerifyScript_p2pkh]), which signs the whole transaction
      ([SignatureHash_binds]) and is encoded in DER
      ([IsValidSignatureEncoding_spec]); a script stays within its limits
      ([EvalScript_limits]); flags only reject ([VerifyScript_softfork]), so that what
      the memory pool accepts is valid in a block ([CScriptCheck_policy]); a node can
      be made to abort ([VerifyScript_aborts]).
    - Checking inputs: a transaction that is accepted has scripts that verify, with
      and without a cache ([CheckInputs_sound]); the cache holds nothing that was not
      put in ([CuckooCache_sound]); the threads give the right answer in every
      interleaving ([CCheckQueue_Wait]), and give it ([CCheckQueue_terminates]).
    - Proof of work, stake and rewards: [GetNextWorkRequired_v2],
      [CheckProofOfStake_block_sound], [ComputeNextStakeModifier_total],
      [CheckBlockSignature_key], [IsBlockValueValid_bounds].
    - Hashes, trees and numbers: hashing in pieces and HMAC ([hashers_refine]), the
      optimised double hash ([TransformD64_equiv]), the header determines the
      transactions ([CheckBlock_binds]), partial trees ([ExtractMatches_complete]),
      compressed headers ([HEADERS2_roundtrip]), limbs compute modulo 2^256
      ([arith_uint256_refines]), compact form ([GetCompact_SetCompact]).

    ** What is not modelled

    The old result scan of bet_v2.cpp (GetBetPayoutsV2, which no code calls and
    which GetPLBetPayoutsV3 replaced) and the legacy order of payouts in miner.cpp;
    the mempool, pruning, notifications and the start of the node; the wallet
    and signing, the network apart from compressed headers; masternodes, LLMQ and
    governance (inherited from Dash) beyond the records that the rewards read;
    zerocoin; RPC and the user interface; LevelDB, secp256k1 and BLS, which are
    libraries.  ConnectBlock is modelled in its parts, not as one
    function, because it also runs masternode code. *)

From Stdlib Require Export ZArith Lia.
From stdpp Require Export base decidable countable strings sorting option list gmap.

#[export] Set Default Goal Selector "!".

Open Scope Z_scope.

(** ** Machine integers

    Values of C++ integer types are kept in [Z]; [u8], [u16], [u32], [u64],
    [i32] and [i64] are the conversions to those types, i.e. the wrap-around
    of an expression of that width. *)
Definition wrapU (w x : Z) : Z := x `mod` 2 ^ w.

Definition wrapS (w x : Z) : Z := (x + 2 ^ (w - 1)) `mod` 2 ^ w - 2 ^ (w - 1).

Abbreviation u8 := (wrapU 8).
Abbreviation u16 := (wrapU 16).
Abbreviation u32 := (wrapU 32).
Abbreviation u64 := (wrapU 64).
Abbreviation i16 := (wrapS 16).
Abbreviation i32 := (wrapS 32).
Abbreviation i64 := (wrapS 64).

(** Being representable in a [w]-bit unsigned or signed type. *)
Definition inU (w x : Z) : Prop := 0 <= x < 2 ^ w.

Definition inS (w x : Z) : Prop := - 2 ^ (w - 1) <= x < 2 ^ (w - 1).

(** ** Record update

    [r <| f := v |>] is [r] with field [f] replaced; the setter is computed
    from the eta-expansion that a [Settable] instance of the record gives. *)
Class Settable (R : Type) := settable_eta : R -> R.

Class Setter {R T : Type} (proj : R -> T) := set_field : (T -> T) -> R -> R.

Global Arguments set_field {R T} proj {_} _ _ /.

Ltac term_head t := lazymatch t with ?f _ => term_head f | _ => t end.

Ltac solve_setter :=
  lazymatch goal with
  | |- @Setter ?R ?T ?proj =>
      let eta := eval unfold settable_eta in (@settable_eta R _) in
      let eta := match eta with
                 | (fun x => _) => eta
                 | _ => let h := term_head eta in eval unfold h in eta
                 end in
      lazymatch eval pattern proj in eta with
      | ?F _ => let s := eval cbv beta in (fun f : T -> T => F (fun r => f (proj r))) in
                exact s
      end
  end.

#[global] Hint Extern 1 (Setter _) => solve_setter : typeclass_instances.

Declare Scope record_scope.
Delimit Scope record_scope with rec.

#[warnings="-postfix-notation-not-level-1"]
Notation "r <| f := v |>" := (set_field f (fun _ => v) r)
  (at level 12, left associativity, f at next level, v at level 200) : record_scope.

#[warnings="-postfix-notation-not-level-1"]
Notation "r <| f ::= g |>" := (set_field f g r)
  (at level 12, left associativity, f at next level, g at level 200) : record_scope.

Open Scope record_scope.

(** ** Ordered keys

    Keys of the ordered containers (std::map, the databases) are compared as
    sequences of integers, in lexicographic order. *)
Fixpoint lex_le (a b : list Z) : Prop :=
  match a, b with
  | [], _ => True
  | _ :: _, [] => False
  | x :: a, y :: b => x < y \/ x = y /\ lex_le a b
  end.

#[export] Instance lex_le_dec : RelDecision lex_le.
Proof.
  refine (fix go a b :=
    match a, b with
    | [], _ => left I
    | _ :: _, [] => right (fun f => f)
    | x :: a, y :: b =>
        match Z.compare x y as c return Z.compare x y = c -> _ with
        | Lt => fun E => left _
        | Eq => fun E => cast_if (go a b)
        | Gt => fun E => right _
        end eq_refl
    end); abstract (first [apply Z.compare_eq in E | rewrite Z.compare_lt_iff in E
                         | rewrite Z.compare_gt_iff in E]; simpl; intuition lia).
Defined.

Class KeySeq (K : Type) := key_seq : K -> list Z.

Class KeySeqInj (K : Type) `{KeySeq K} := key_seq_inj :: Inj (=) (=) (key_seq (K := K)).

#[export] Instance Z_key_seq : KeySeq Z := fun z => [z].

#[export] Instance Z_key_seq_inj : KeySeqInj Z.
Proof. by intros x y [=]. Qed.

(** Byte strings compare like std::string and std::vector. *)
#[export] Instance string_key_seq : KeySeq (list Z) := fun s => s.

#[export] Instance string_key_seq_inj : KeySeqInj (list Z).
Proof. by intros a b. Qed.

Definition kle `{KeySeq K} (a b : K) : Prop := lex_le (key_seq a) (key_seq b).
Definition klt `{KeySeq K} (a b : K) : Prop := kle a b /\ a <> b.

#[export] Instance kle_dec `{KeySeq K} : RelDecision kle.
Proof. intros a b. unfold kle. apply _. Defined.

(** The entries of a map in ascending key order, as an ordered container
    iterates over them. *)
Definition entry_le `{KeySeq K} {V} (p q : K * V) : Prop := kle p.1 q.1.

#[export] Instance entry_le_dec `{KeySeq K} {V} : RelDecision (entry_le (K := K) (V := V)).
Proof. intros p q. unfold entry_le. apply _. Defined.

Definition sorted_entries `{Countable K, KeySeq K} {V} (m : gmap K V) : list (K * V) :=
  merge_sort entry_le (map_to_list m).

(** ** The error monad of fallible code: [option], with stdpp's [mbind]. *)

(** A boolean test as a guard of the option monad. *)
Definition check (b : bool) : option unit := if b then Some tt else None.

(** ** Lemmas on machine integers *)
Lemma wrapU_small w x : inU w x -> wrapU w x = x.
Proof. intros H. apply Z.mod_small, H. Qed.

Lemma wrapU_range w x : 0 <= w -> inU w (wrapU w x).
Proof. intros H. apply Z.mod_pos_bound. lia. Qed.

Lemma wrapS_small w x : 0 < w -> inS w x -> wrapS w x = x.
Proof.
  unfold wrapS, inS. intros Hw Hx.
  assert (2 ^ w = 2 * 2 ^ (w - 1)) as E.
  { rewrite <- Z.pow_succ_r by lia. f_equal. lia. }
  rewrite Z.mod_small; lia.
Qed.

Lemma wrapS_range w x : 0 < w -> inS w (wrapS w x).
Proof.
  unfold wrapS, inS. intros Hw.
  assert (2 ^ w = 2 * 2 ^ (w - 1)) as E.
  { rewrite <- Z.pow_succ_r by lia. f_equal. lia. }
  pose proof (Z.mod_pos_bound (x + 2 ^ (w - 1)) (2 ^ w)). lia.
Qed.

(** Powers of two that occur as type bounds, as literals for [lia]. *)
Ltac pow2_lits :=
  change (8 * Z.of_nat 1) with 8 in *; change (8 * Z.of_nat 2) with 16 in *;
  change (8 * Z.of_nat 4) with 32 in *; change (8 * Z.of_nat 8) with 64 in *;
  change (2 ^ 8) with 256 in *; change (2 ^ 16) with 65536 in *;
  change (2 ^ 32) with 4294967296 in *; change (2 ^ 64) with 18446744073709551616 in *;
  change (2 ^ (8 - 1)) with 128 in *; change (2 ^ (16 - 1)) with 32768 in *;
  change (2 ^ (32 - 1)) with 2147483648 in *;
  change (2 ^ (64 - 1)) with 9223372036854775808 in *.

(** Range goals: unfold the predicate and call [lia] on the literal bounds. *)
Ltac range := unfold inU, inS in *; pow2_lits; lia.

(** Case analysis on every test and match of the goal or a hypothesis. *)
Ltac case_matches :=
  repeat match goal with
  | H : context [match ?x with _ => _ end] |- _ =>
      lazymatch x with context [match _ with _ => _ end] => fail | _ => destruct x eqn:? end
  | |- context [match ?x with _ => _ end] =>
      lazymatch x with context [match _ with _ => _ end] => fail | _ => destruct x eqn:? end
  end.

(** ** Lemmas on lists *)
Lemma forallb_Forall {A} (f : A -> bool) (P : A -> Prop) l :
  (forall x, f x = true <-> P x) -> forallb f l = true <-> Forall P l.
Proof.
  intros Hf. induction l as [|x l IH]; simpl; [naive_solver|].
  rewrite andb_true_iff, Forall_cons, Hf, IH. done.
Qed.

Lemma existsb_false_forall {A} (f : A -> bool) l :
  (forall x, x ∈ l -> f x = false) -> existsb f l = false.
Proof.
  induction l as [|x l IH]; intros H; simpl; [done|].
  rewrite H by apply list_elem_of_here. apply IH. intros y ?. apply H. by apply elem_of_cons; right.
Qed.

(** ** Lemmas on ordered keys *)
Lemma lex_le_refl a : lex_le a a.
Proof. induction a; simpl; auto. Qed.

Lemma lex_le_trans a b c : lex_le a b -> lex_le b c -> lex_le a c.
Proof.
  revert b c. induction a as [|x a IH]; intros [|y b] [|z c]; simpl; try done.
  intros [?|[-> ?]] [?|[-> ?]]; eauto with lia.
Qed.

Lemma lex_le_antisym a b : lex_le a b -> lex_le b a -> a = b.
Proof.
  revert b. induction a as [|x a IH]; intros [|y b]; simpl; try done.
  intros [?|[-> ?]] [?|[? ?]]; try lia. f_equal. auto.
Qed.

Lemma lex_le_total a b : lex_le a b \/ lex_le b a.
Proof.
  revert b. induction a as [|x a IH]; intros [|y b]; simpl; auto.
  destruct (Z.lt_trichotomy x y) as [?|[->|?]]; auto. destruct (IH b); auto.
Qed.

Section KeyOrder.
Context `{KeySeqInj K}.

#[export] Instance kle_partial_order : PartialOrder (kle (K := K)).
Proof.
  split; [split|].
  - intros a. apply lex_le_refl.
  - intros a b c. apply lex_le_trans.
  - intros a b ??. by apply key_seq_inj, lex_le_antisym.
Qed.

#[export] Instance kle_total : Total (kle (K := K)).
Proof. intros a b. apply lex_le_total. Qed.

Lemma klt_nge (a b : K) : klt a b <-> ~ kle b a.
Proof.
  split.
  - intros [? Hne] ?. apply Hne. by apply (anti_symm kle).
  - intros Hn. split; [destruct (total kle a b); done|intros ->]. by apply Hn.
Qed.

Lemma klt_trans (a b c : K) : klt a b -> klt b c -> klt a c.
Proof.
  intros [? ?] [? ?]. split; [by etrans|intros ->].
  assert (c = b) by (by apply (anti_symm kle)). congruence.
Qed.

Lemma klt_trichotomy (a b : K) : klt a b \/ a = b \/ klt b a.
Proof. rewrite !klt_nge. destruct (decide (kle a b)), (decide (kle b a)); auto.
  right. left. by apply (anti_symm kle). Qed.

Lemma kle_klt_trans (a b c : K) : kle a b -> klt b c -> klt a c.
Proof.
  intros ? [? ?]. split; [by etrans|intros ->].
  assert (c = b) by (by apply (anti_symm kle)). congruence.
Qed.

Lemma klt_irrefl (a : K) : ~ klt a a.
Proof. by intros []. Qed.

(** Lists of entries in strictly ascending key order. *)
Definition entries_sorted {V} (l : list (K * V)) : Prop :=
  StronglySorted (fun p q => klt p.1 q.1) l.

Lemma entries_sorted_ext {V} (l1 l2 : list (K * V)) :
  entries_sorted l1 -> entries_sorted l2 -> (forall e, e ∈ l1 <-> e ∈ l2) -> l1 = l2.
Proof.
  intros H1. revert l2. induction H1 as [|e1 l1 Hs1 IH Hf1]; intros l2 H2 Hin.
  - destruct l2 as [|e2 l2]; [done|]. exfalso.
    apply (not_elem_of_nil e2), Hin, list_elem_of_here.
  - destruct H2 as [|e2 l2 Hs2 Hf2].
    { exfalso. apply (not_elem_of_nil e1), Hin, list_elem_of_here. }
    rewrite Forall_forall in Hf1, Hf2.
    assert (e1 = e2) as ->.
    { assert (e1 ∈ e2 :: l2) as E1 by apply Hin, list_elem_of_here.
      assert (e2 ∈ e1 :: l1) as E2 by apply Hin, list_elem_of_here.
      apply elem_of_cons in E1 as [?|E1], E2 as [?|E2]; auto.
      exfalso. apply (klt_irrefl e1.1), (klt_trans _ e2.1); auto. }
    f_equal. apply IH; [done|]. intros e. specialize (Hin e).
    rewrite !elem_of_cons in Hin. split; intros He.
    + destruct (proj1 Hin) as [->|?]; auto. destruct (klt_irrefl e2.1). by apply Hf1.
    + destruct (proj2 Hin) as [->|?]; auto. destruct (klt_irrefl e2.1). by apply Hf2.
Qed.

Lemma entries_sorted_filter {V} (P : K * V -> Prop) `{!forall e, Decision (P e)} l :
  entries_sorted l -> entries_sorted (filter P l).
Proof.
  induction 1 as [|e l Hs IH Hf]; [constructor|].
  rewrite filter_cons. case_decide; [|done]. constructor; [done|].
  rewrite Forall_forall in *. intros e' He'. apply Hf. by apply list_elem_of_filter in He' as [].
Qed.

Context `{Countable K}.

Lemma sorted_entries_perm {V} (m : gmap K V) : sorted_entries m ≡ₚ map_to_list m.
Proof. apply merge_sort_Permutation. Qed.

Lemma elem_of_sorted_entries {V} (m : gmap K V) k v :
  (k, v) ∈ sorted_entries m <-> m !! k = Some v.
Proof. rewrite sorted_entries_perm. apply elem_of_map_to_list. Qed.

#[local] Instance entry_le_trans {V} : Transitive (entry_le (K := K) (V := V)).
Proof. intros p q r. unfold entry_le. apply transitivity. Qed.

#[local] Instance entry_le_total {V} : Total (entry_le (K := K) (V := V)).
Proof. intros p q. apply (total kle). Qed.

Lemma sorted_entries_sorted {V} (m : gmap K V) : entries_sorted (sorted_entries m).
Proof.
  assert (StronglySorted entry_le (sorted_entries m)) as Hs.
  { apply Sorted_StronglySorted; [apply _|]. apply (Sorted_merge_sort _). }
  assert (NoDup (sorted_entries m).*1) as Hnd.
  { rewrite sorted_entries_perm. apply NoDup_fst_map_to_list. }
  unfold entries_sorted. induction Hs as [|e l Hs IH Hf]; [constructor|].
  csimpl in Hnd. apply NoDup_cons in Hnd as [Hn Hnd]. constructor; [by apply IH|].
  rewrite Forall_forall in *. intros e' He'. split; [by apply Hf|].
  intros E. apply Hn. rewrite E. by apply list_elem_of_fmap_2.
Qed.

Lemma NoDup_fst_sorted_entries {V} (m : gmap K V) : NoDup (sorted_entries m).*1.
Proof. rewrite sorted_entries_perm. apply NoDup_fst_map_to_list. Qed.

Lemma sorted_entries_fmap {V W} (f : V -> W) (m : gmap K V) :
  sorted_entries (f <$> m) = prod_map id f <$> sorted_entries m.
Proof.
  apply entries_sorted_ext.
  - apply sorted_entries_sorted.
  - pose proof (sorted_entries_sorted m) as Hs. unfold entries_sorted in *.
    induction Hs as [|e l Hs IH Hf]; csimpl; constructor; [done|].
    apply Forall_fmap. by eapply Forall_impl; [exact Hf|].
  - intros [k w]. rewrite elem_of_sorted_entries, lookup_fmap, fmap_Some, list_elem_of_fmap. split.
    + intros (x & Hx & ->). exists (k, x). by rewrite elem_of_sorted_entries.
    + intros ([k' x] & [= -> ->] & Hx). exists x. by rewrite elem_of_sorted_entries in Hx.
Qed.
End KeyOrder.

(** A loop that appends to its accumulator. *)
Lemma foldl_append {A B} (step : list B -> A -> list B) (g : A -> list B) acc l :
  (forall acc x, step acc x = acc ++ g x) -> foldl step acc l = acc ++ (l ≫= g).
Proof.
  intros Hstep. revert acc. induction l as [|x l IH]; intros acc; csimpl; [by rewrite app_nil_r|].
  by rewrite IH, Hstep, app_assoc.
Qed.

(** ** Hints shared by the components *)
Create HintDb wagerr.

#[export] Hint Resolve wrapU_range wrapS_range : wagerr.
#[export] Hint Extern 1 (_ <= _) => lia : wagerr.
#[export] Hint Extern 1 (_ < _) => lia : wagerr.
