(* ===== verification/Serialize.v ===== *)
(** * Serialization (src/src/serialize.h, streams of bytes)

    Byte strings are [list Z] with every element in [0, 256).  A stream that
    is being read is the byte string still to be consumed; a read past the
    end throws in the source and is [None] here.  A [codec] is the pair of
    functions a SERIALIZE_METHODS block gives, with the predicate that says
    which values fit the widths written; [CodecLaws] is the interface the
    other components use: what was written is read back. *)

From S2P Require Import Prelude.

Definition byte (b : Z) : Prop := inU 8 b.

(** Little-endian bytes of an integer, and their value. *)
Fixpoint le_bytes (n : nat) (x : Z) : list Z :=
  match n with
  | O => []
  | S n => x `mod` 256 :: le_bytes n (x `div` 256)
  end.

Fixpoint le_value (l : list Z) : Z :=
  match l with
  | [] => 0
  | b :: l => b + 256 * le_value l
  end.

(** [s.read(p, n)]: the first [n] bytes, or a failure. *)
Definition read_bytes (n : nat) (s : list Z) : option (list Z * list Z) :=
  if decide (n <= length s)%nat then Some (take n s, drop n s) else None.

(** ser_writedata8/16/32/64 and ser_readdata8/16/32/64. *)
Definition ser_writedata8 (x : Z) : list Z := le_bytes 1 x.
Definition ser_writedata16 (x : Z) : list Z := le_bytes 2 x.
Definition ser_writedata32 (x : Z) : list Z := le_bytes 4 x.
Definition ser_writedata64 (x : Z) : list Z := le_bytes 8 x.

Definition ser_readdata (n : nat) (s : list Z) : option (Z * list Z) :=
  '(bs, s) ← read_bytes n s; Some (le_value bs, s).

Definition ser_readdata8 := ser_readdata 1.
Definition ser_readdata16 := ser_readdata 2.
Definition ser_readdata32 := ser_readdata 4.
Definition ser_readdata64 := ser_readdata 8.

(** htonl: the 32-bit integer with its bytes reversed. *)
Definition htonl (x : Z) : Z := le_value (reverse (le_bytes 4 x)).

Definition MAX_SIZE : Z := 33554432.

Definition WriteCompactSize (nSize : Z) : list Z :=
  if nSize <? 253 then ser_writedata8 nSize
  else if nSize <=? 65535 then ser_writedata8 253 ++ ser_writedata16 nSize
  else if nSize <=? 4294967295 then ser_writedata8 254 ++ ser_writedata32 nSize
  else ser_writedata8 255 ++ ser_writedata64 nSize.

Definition ReadCompactSize (s : list Z) : option (Z * list Z) :=
  '(chSize, s) ← ser_readdata8 s;
  '(nSizeRet, s) ←
    (if chSize <? 253 then Some (chSize, s)
     else if chSize =? 253 then
       '(n, s) ← ser_readdata16 s;
       if n <? 253 then None else Some (n, s)
     else if chSize =? 254 then
       '(n, s) ← ser_readdata32 s;
       if n <? 65536 then None else Some (n, s)
     else
       '(n, s) ← ser_readdata64 s;
       if n <? 4294967296 then None else Some (n, s));
  if MAX_SIZE <? nSizeRet then None else Some (nSizeRet, s).

Record codec (A : Type) := Codec {
  Serialize : A -> list Z;
  Unserialize : list Z -> option (A * list Z);
  SerOk : A -> Prop;
}.
Arguments Codec {A} _ _ _.
Arguments Serialize {A} _ _.
Arguments Unserialize {A} _ _.
Arguments SerOk {A} _ _.

(** The promise of a codec to its users. *)
Class CodecLaws {A : Type} (c : codec A) := {
  ser_bytes x : SerOk c x -> Forall byte (Serialize c x);
  unser_ser x rest : SerOk c x -> Unserialize c (Serialize c x ++ rest) = Some (x, rest);
}.

(** Integers of [n] bytes, unsigned and signed, and bool. *)
Definition uintc (n : nat) : codec Z :=
  Codec (le_bytes n) (ser_readdata n) (inU (8 * Z.of_nat n)).

Definition u8c : codec Z := uintc 1.
Definition u16c : codec Z := uintc 2.
Definition u32c : codec Z := uintc 4.
Definition u64c : codec Z := uintc 8.

Definition sintc (n : nat) : codec Z :=
  Codec (fun x => le_bytes n (wrapU (8 * Z.of_nat n) x))
        (fun s => '(x, s) ← ser_readdata n s; Some (wrapS (8 * Z.of_nat n) x, s))
        (inS (8 * Z.of_nat n)).

Definition i16c : codec Z := sintc 2.
Definition i32c : codec Z := sintc 4.
Definition i64c : codec Z := sintc 8.

Definition boolc : codec bool :=
  Codec (fun b : bool => ser_writedata8 (if b then 1 else 0))
        (fun s => '(f, s) ← ser_readdata8 s; Some (negb (f =? 0), s))
        (fun _ => True).

(** Two READWRITE statements in sequence. *)
Definition pairc {A B} (a : codec A) (b : codec B) : codec (A * B) :=
  Codec (fun p => Serialize a p.1 ++ Serialize b p.2)
        (fun s => '(x, s) ← Unserialize a s; '(y, s) ← Unserialize b s; Some ((x, y), s))
        (fun p => SerOk a p.1 /\ SerOk b p.2).

Infix "⊗" := pairc (at level 45, right associativity).

(** A class read and written through its tuple of fields. *)
Definition isoc {A B} (to : B -> A) (from : A -> B) (a : codec A) : codec B :=
  Codec (fun y => Serialize a (to y))
        (fun s => '(x, s) ← Unserialize a s; Some (from x, s))
        (fun y => SerOk a (to y)).

(** [n] elements read one after the other. *)
Fixpoint unser_n {A} (c : codec A) (n : nat) (s : list Z) : option (list A * list Z) :=
  match n with
  | O => Some ([], s)
  | S n => '(x, s) ← Unserialize c s; '(xs, s) ← unser_n c n s; Some (x :: xs, s)
  end.

Definition vecc {A} (c : codec A) : codec (list A) :=
  Codec (fun v => WriteCompactSize (Z.of_nat (length v)) ++ concat (Serialize c <$> v))
        (fun s => '(n, s) ← ReadCompactSize s; unser_n c (Z.to_nat n) s)
        (fun v => Z.of_nat (length v) <= MAX_SIZE /\ Forall (SerOk c) v).

(** vector<unsigned char> and std::string: the same layout, one block of bytes. *)
Definition bytesc : codec (list Z) :=
  Codec (fun v => WriteCompactSize (Z.of_nat (length v)) ++ v)
        (fun s => '(n, s) ← ReadCompactSize s; read_bytes (Z.to_nat n) s)
        (fun v => Z.of_nat (length v) <= MAX_SIZE /\ Forall byte v).

(** std::map with 32-bit keys: written in ascending key order; on reading,
    [insert] keeps the first entry of a repeated key. *)
Definition map_insert_new {V} (m : gmap Z V) (item : Z * V) : gmap Z V :=
  match m !! item.1 with
  | Some _ => m
  | None => <[item.1 := item.2]> m
  end.

Definition mapc {V} (k : codec Z) (c : codec V) : codec (gmap Z V) :=
  Codec (fun m => Serialize (vecc (k ⊗ c)) (sorted_entries m))
        (fun s => '(items, s) ← Unserialize (vecc (k ⊗ c)) s;
                  Some (foldl map_insert_new ∅ items, s))
        (fun m => SerOk (vecc (k ⊗ c)) (sorted_entries m)).

(** ** Laws *)
Lemma length_le_bytes n x : length (le_bytes n x) = n.
Proof. revert x. induction n; intros; simpl; auto. Qed.

Lemma le_bytes_byte n x : Forall byte (le_bytes n x).
Proof.
  revert x. induction n; intros; simpl; constructor; auto.
  apply (wrapU_range 8). lia.
Qed.

Lemma le_value_bytes n x : le_value (le_bytes n x) = wrapU (8 * Z.of_nat n) x.
Proof.
  unfold wrapU. revert x. induction n as [|n IH]; intros x.
  - simpl. by rewrite Z.mod_1_r.
  - cbn [le_bytes le_value]. rewrite IH.
    replace (8 * Z.of_nat (S n)) with (8 + 8 * Z.of_nat n) by lia.
    rewrite Z.pow_add_r by lia. change (2 ^ 8) with 256.
    rewrite Z.rem_mul_r by lia. done.
Qed.

Lemma le_bytes_value l : Forall byte l -> le_bytes (length l) (le_value l) = l.
Proof.
  induction 1 as [|b l Hb Hl IH]; [done|]. cbn [le_value length le_bytes].
  unfold byte in Hb. assert (0 <= b < 256) by range.
  rewrite (Z.mul_comm 256), Z.mod_add, Z.mod_small by lia.
  rewrite Z.div_add, Z.div_small by lia. by rewrite Z.add_0_l, IH.
Qed.

Lemma le_value_inU l : Forall byte l -> inU (8 * Z.of_nat (length l)) (le_value l).
Proof.
  intros H. rewrite <- (le_bytes_value l H) at 2. rewrite le_value_bytes.
  apply wrapU_range. lia.
Qed.

Lemma read_bytes_app l s : read_bytes (length l) (l ++ s) = Some (l, s).
Proof.
  unfold read_bytes. rewrite decide_True by (rewrite length_app; lia).
  by rewrite take_app_length, drop_app_length.
Qed.

Lemma ser_readdata_app n x s :
  ser_readdata n (le_bytes n x ++ s) = Some (wrapU (8 * Z.of_nat n) x, s).
Proof.
  unfold ser_readdata.
  rewrite <- (length_le_bytes n x) at 1. rewrite read_bytes_app. simpl.
  by rewrite le_value_bytes.
Qed.

Lemma ser_readdata_small n x s :
  inU (8 * Z.of_nat n) x -> ser_readdata n (le_bytes n x ++ s) = Some (x, s).
Proof. intros H. by rewrite ser_readdata_app, wrapU_small. Qed.

#[export] Instance uintc_laws n : CodecLaws (uintc n).
Proof.
  split; simpl.
  - intros x _. apply le_bytes_byte.
  - intros x rest H. by apply ser_readdata_small.
Qed.

Lemma wrapS_wrapU w x : 0 < w -> wrapS w (wrapU w x) = wrapS w x.
Proof.
  intros Hw. unfold wrapS, wrapU. f_equal.
  by rewrite Zplus_mod_idemp_l.
Qed.

#[export] Instance sintc_laws n : (0 < n)%nat -> CodecLaws (sintc n).
Proof.
  intros Hn. split; simpl.
  - intros x _. apply le_bytes_byte.
  - intros x rest H. rewrite ser_readdata_small by (apply wrapU_range; lia). simpl.
    rewrite wrapS_wrapU, wrapS_small by (done || lia). done.
Qed.

#[export] Instance i16c_laws : CodecLaws i16c.
Proof. apply sintc_laws. lia. Qed.

#[export] Instance i32c_laws : CodecLaws i32c.
Proof. apply sintc_laws. lia. Qed.

#[export] Instance i64c_laws : CodecLaws i64c.
Proof. apply sintc_laws. lia. Qed.

#[export] Instance boolc_laws : CodecLaws boolc.
Proof. split; [intros x _; apply le_bytes_byte|by intros []]. Qed.

#[export] Instance pairc_laws {A B} (a : codec A) (b : codec B) :
  CodecLaws a -> CodecLaws b -> CodecLaws (a ⊗ b).
Proof.
  intros La Lb. split; simpl.
  - intros x [Ha Hb]. apply Forall_app. split; by apply ser_bytes.
  - intros [x y] rest [Ha Hb]. simpl in *. rewrite <- app_assoc.
    rewrite unser_ser by done. simpl. by rewrite unser_ser by done.
Qed.

Lemma isoc_laws {A B} (to : B -> A) (from : A -> B) (a : codec A) :
  CodecLaws a -> (forall y, from (to y) = y) -> CodecLaws (isoc to from a).
Proof.
  intros La Hft. split; simpl.
  - intros y Hy. by apply ser_bytes.
  - intros y rest Hy. rewrite unser_ser by done. simpl. by rewrite Hft.
Qed.

Lemma ReadCompactSize_Write n s :
  0 <= n <= MAX_SIZE -> ReadCompactSize (WriteCompactSize n ++ s) = Some (n, s).
Proof.
  unfold MAX_SIZE. intros Hn.
  unfold WriteCompactSize, ReadCompactSize, ser_readdata8, ser_readdata16, ser_readdata32,
    ser_writedata8, ser_writedata16, ser_writedata32.
  assert ((MAX_SIZE <? n) = false) as Hmax by (apply Z.ltb_ge; unfold MAX_SIZE; lia).
  destruct (n <? 253) eqn:E1; [|destruct (n <=? 65535) eqn:E2; [|destruct (n <=? 4294967295) eqn:E3]].
  - rewrite (ser_readdata_small 1) by range. cbn [mbind option_bind]. rewrite E1. cbn. by rewrite Hmax.
  - rewrite <- app_assoc, (ser_readdata_small 1) by range. cbn [mbind option_bind Z.ltb Z.eqb].
    change (253 <? 253) with false. change (253 =? 253) with true. cbn [mbind option_bind].
    rewrite (ser_readdata_small 2) by range. cbn [mbind option_bind]. rewrite E1. cbn. by rewrite Hmax.
  - rewrite <- app_assoc, (ser_readdata_small 1) by range. cbn [mbind option_bind Z.ltb Z.eqb].
    change (254 <? 253) with false. change (254 =? 253) with false. change (254 =? 254) with true.
    cbn [mbind option_bind].
    rewrite (ser_readdata_small 4) by range. cbn [mbind option_bind].
    replace (n <? 65536) with false by lia. cbn. by rewrite Hmax.
  - lia.
Qed.

Lemma WriteCompactSize_byte n : Forall byte (WriteCompactSize n).
Proof.
  unfold WriteCompactSize, ser_writedata8, ser_writedata16, ser_writedata32, ser_writedata64.
  repeat case_match; rewrite ?Forall_app; repeat split; apply le_bytes_byte.
Qed.

Lemma unser_n_ser {A} (c : codec A) `{!CodecLaws c} v rest :
  Forall (SerOk c) v ->
  unser_n c (length v) (concat (Serialize c <$> v) ++ rest) = Some (v, rest).
Proof.
  induction 1 as [|x v Hx Hv IH]; [done|]. csimpl.
  rewrite <- app_assoc, unser_ser by done. simpl. by rewrite IH.
Qed.

#[export] Instance vecc_laws {A} (c : codec A) : CodecLaws c -> CodecLaws (vecc c).
Proof.
  intros L. split; simpl.
  - intros v [_ Hv]. apply Forall_app. split; [apply WriteCompactSize_byte|].
    induction Hv; simpl; [done|]. apply Forall_app. split; [by apply ser_bytes|done].
  - intros v rest [Hlen Hv]. rewrite <- app_assoc, ReadCompactSize_Write by lia. simpl.
    by rewrite Nat2Z.id, unser_n_ser.
Qed.

#[export] Instance bytesc_laws : CodecLaws bytesc.
Proof.
  split; simpl.
  - intros v [_ Hv]. apply Forall_app. split; [apply WriteCompactSize_byte|done].
  - intros v rest [Hlen Hv]. rewrite <- app_assoc, ReadCompactSize_Write by lia. simpl.
    by rewrite Nat2Z.id, read_bytes_app.
Qed.

Lemma foldl_insert_new {V} (l : list (Z * V)) (m : gmap Z V) :
  NoDup l.*1 -> (forall k, k ∈ l.*1 -> m !! k = None) ->
  foldl map_insert_new m l = list_to_map l ∪ m.
Proof.
  revert m. induction l as [|[k v] l IH]; intros m Hnd Hm; simpl in *.
  - by rewrite (left_id_L ∅ (∪)).
  - apply NoDup_cons in Hnd as [Hk Hnd].
    unfold map_insert_new at 2. simpl. rewrite Hm by set_solver.
    rewrite IH; [|done|].
    + rewrite <- insert_union_l, <- insert_union_r; [done|].
      by apply not_elem_of_list_to_map.
    + intros k' Hk'. rewrite lookup_insert_ne by (intros ->; done).
      apply Hm. by apply elem_of_cons; right.
Qed.

Lemma foldl_sorted_entries {V} (m : gmap Z V) : foldl map_insert_new ∅ (sorted_entries m) = m.
Proof.
  assert (NoDup (sorted_entries m).*1) as Hnd.
  { rewrite sorted_entries_perm. apply NoDup_fst_map_to_list. }
  rewrite foldl_insert_new by (done || (intros; apply lookup_empty)).
  rewrite (right_id_L ∅ (∪)).
  rewrite <- (list_to_map_to_list m) at 2.
  apply list_to_map_proper; [done|]. apply sorted_entries_perm.
Qed.

#[export] Instance mapc_laws {V} (k : codec Z) (c : codec V) :
  CodecLaws k -> CodecLaws c -> CodecLaws (mapc k c).
Proof.
  intros Lk Lc. split.
  - intros m Hm. simpl in Hm. by apply (ser_bytes (c := vecc (k ⊗ c))).
  - intros m rest Hm. unfold mapc. cbn [Serialize Unserialize SerOk] in *.
    rewrite (unser_ser (c := vecc (k ⊗ c))) by done. simpl.
    by rewrite foldl_sorted_entries.
Qed.

Lemma le_bytes_1 b : byte b -> le_bytes 1 b = [b].
Proof. intros Hb. simpl. by rewrite Z.mod_small. Qed.

#[global] Arguments le_bytes : simpl never.
