(* ===== verification/BetTx.v ===== *)
(** * Betting transactions (src/src/betting/bet_tx.h, bet_tx.cpp)

    The classes derived from CBettingTx with their serialization, the parser
    of an OP_RETURN output, and the encoder the wallet uses.  A betting
    transaction is the payload of the first push after OP_RETURN: a three-byte
    header (prefix, version, type) followed by the serialized class. *)

From S2P Require Import Prelude Serialize.

(** ** Transaction types and header *)
Inductive BetTxTypes :=
  | mappingTxType | plEventTxType | plBetTxType | plResultTxType | plUpdateOddsTxType
  | cgEventTxType | cgBetTxType | cgResultTxType | plSpreadsEventTxType | plTotalsEventTxType
  | plEventPatchTxType | plParlayBetTxType | qgBetTxType | plEventZeroingOddsTxType
  | fEventTxType | fUpdateOddsTxType | fZeroingOddsTxType | fResultTxType | fBetTxType
  | fParlayBetTxType | fUpdateMarginTxType | fUpdateModifiersTxType | unknownBetTxType.

#[export] Instance BetTxTypes_eq_dec : EqDecision BetTxTypes.
Proof. solve_decision. Defined.

(** The enumerators' values. *)
Definition BetTxTypes_value (t : BetTxTypes) : Z :=
  match t with
  | mappingTxType => 0x01 | plEventTxType => 0x02 | plBetTxType => 0x03
  | plResultTxType => 0x04 | plUpdateOddsTxType => 0x05 | cgEventTxType => 0x06
  | cgBetTxType => 0x07 | cgResultTxType => 0x08 | plSpreadsEventTxType => 0x09
  | plTotalsEventTxType => 0x0a | plEventPatchTxType => 0x0b | plParlayBetTxType => 0x0c
  | qgBetTxType => 0x0d | plEventZeroingOddsTxType => 0x0e | fEventTxType => 0x0f
  | fUpdateOddsTxType => 0x10 | fZeroingOddsTxType => 0x11 | fResultTxType => 0x12
  | fBetTxType => 0x13 | fParlayBetTxType => 0x14 | fUpdateMarginTxType => 0x15
  | fUpdateModifiersTxType => 0x16 | unknownBetTxType => 0xff
  end.

Definition BTX_PREFIX : Z := 66.
Definition BetTxVersion4 : Z := 1.
Definition BetTxVersion5 : Z := 2.
Definition BetTxVersion_CURRENT : Z := BetTxVersion4.

Record CBettingTxHeader := {
  hd_prefix : Z; hd_version : Z; hd_txType : Z }.

Definition CBettingTxHeader_codec : codec CBettingTxHeader :=
  isoc (fun h => (hd_prefix h, (hd_version h, hd_txType h)))
       (fun '(p, (v, t)) => {| hd_prefix := p; hd_version := v; hd_txType := t |})
       (u8c ⊗ u8c ⊗ u8c).

(** ** The transaction classes *)
Record CMappingTx := { map_nMType : Z; map_nId : Z; map_sName : list Z }.

Record CPeerlessEventTx := {
  pe_nEventId : Z; pe_nStartTime : Z; pe_nSport : Z; pe_nTournament : Z; pe_nStage : Z;
  pe_nHomeTeam : Z; pe_nAwayTeam : Z; pe_nHomeOdds : Z; pe_nAwayOdds : Z; pe_nDrawOdds : Z }.

Record CFieldEventTx := {
  fe_nEventId : Z; fe_nStartTime : Z; fe_nSport : Z; fe_nTournament : Z; fe_nStage : Z;
  fe_nGroupType : Z; fe_nMarketType : Z; fe_nMarginPercent : Z;
  fe_mContendersInputOdds : gmap Z Z }.

Record CFieldUpdateOddsTx := { fuo_nEventId : Z; fuo_mContendersInputOdds : gmap Z Z }.

Record CFieldUpdateModifiersTx := { fum_nEventId : Z; fum_mContendersModifires : gmap Z Z }.

Record CFieldUpdateMarginTx := { fumg_nEventId : Z; fumg_nMarginPercent : Z }.

Record CFieldZeroingOddsTx := { fz_nEventId : Z }.

Record CFieldResultTx := {
  fr_nEventId : Z; fr_nResultType : Z; fr_contendersResults : gmap Z Z }.

Record CFieldBetTx := { fb_nEventId : Z; fb_nOutcome : Z; fb_nContenderId : Z }.

Record CFieldParlayBetTx := { fpb_legs : list CFieldBetTx }.

Record CPeerlessBetTx := { pb_nEventId : Z; pb_nOutcome : Z }.

Record CPeerlessResultTx := {
  pr_nEventId : Z; pr_nResultType : Z; pr_nHomeScore : Z; pr_nAwayScore : Z }.

Record CPeerlessUpdateOddsTx := {
  puo_nEventId : Z; puo_nHomeOdds : Z; puo_nAwayOdds : Z; puo_nDrawOdds : Z }.

Record CPeerlessSpreadsEventTx := {
  pse_nEventId : Z; pse_nPoints : Z; pse_nHomeOdds : Z; pse_nAwayOdds : Z }.

Record CPeerlessTotalsEventTx := {
  pte_nEventId : Z; pte_nPoints : Z; pte_nOverOdds : Z; pte_nUnderOdds : Z }.

Record CPeerlessEventPatchTx := { pep_nEventId : Z; pep_nStartTime : Z }.

Record CPeerlessParlayBetTx := { ppb_legs : list CPeerlessBetTx }.

Record CChainGamesEventTx := { cge_nEventId : Z; cge_nEntryFee : Z }.

Record CChainGamesBetTx := { cgb_nEventId : Z }.

Record CChainGamesResultTx := { cgr_nEventId : Z }.

Record CQuickGamesBetTx := { qg_gameType : Z; qg_vBetInfo : list Z }.

Record CPeerlessEventZeroingOddsTx := { pez_vEventIds : list Z }.

(** The pointer to a CBettingTx that the parser returns. *)
Inductive CBettingTx :=
  | MappingTx (t : CMappingTx)
  | PeerlessEventTx (t : CPeerlessEventTx)
  | FieldEventTx (t : CFieldEventTx)
  | FieldUpdateOddsTx (t : CFieldUpdateOddsTx)
  | FieldUpdateModifiersTx (t : CFieldUpdateModifiersTx)
  | FieldUpdateMarginTx (t : CFieldUpdateMarginTx)
  | FieldZeroingOddsTx (t : CFieldZeroingOddsTx)
  | FieldResultTx (t : CFieldResultTx)
  | FieldBetTx (t : CFieldBetTx)
  | FieldParlayBetTx (t : CFieldParlayBetTx)
  | PeerlessBetTx (t : CPeerlessBetTx)
  | PeerlessResultTx (t : CPeerlessResultTx)
  | PeerlessUpdateOddsTx (t : CPeerlessUpdateOddsTx)
  | PeerlessSpreadsEventTx (t : CPeerlessSpreadsEventTx)
  | PeerlessTotalsEventTx (t : CPeerlessTotalsEventTx)
  | PeerlessEventPatchTx (t : CPeerlessEventPatchTx)
  | PeerlessParlayBetTx (t : CPeerlessParlayBetTx)
  | ChainGamesEventTx (t : CChainGamesEventTx)
  | ChainGamesBetTx (t : CChainGamesBetTx)
  | ChainGamesResultTx (t : CChainGamesResultTx)
  | QuickGamesBetTx (t : CQuickGamesBetTx)
  | PeerlessEventZeroingOddsTx (t : CPeerlessEventZeroingOddsTx).

Definition GetTxType (tx : CBettingTx) : BetTxTypes :=
  match tx with
  | MappingTx _ => mappingTxType
  | PeerlessEventTx _ => plEventTxType
  | FieldEventTx _ => fEventTxType
  | FieldUpdateOddsTx _ => fUpdateOddsTxType
  | FieldUpdateModifiersTx _ => fUpdateModifiersTxType
  | FieldUpdateMarginTx _ => fUpdateMarginTxType
  | FieldZeroingOddsTx _ => fZeroingOddsTxType
  | FieldResultTx _ => fResultTxType
  | FieldBetTx _ => fBetTxType
  | FieldParlayBetTx _ => fParlayBetTxType
  | PeerlessBetTx _ => plBetTxType
  | PeerlessResultTx _ => plResultTxType
  | PeerlessUpdateOddsTx _ => plUpdateOddsTxType
  | PeerlessSpreadsEventTx _ => plSpreadsEventTxType
  | PeerlessTotalsEventTx _ => plTotalsEventTxType
  | PeerlessEventPatchTx _ => plEventPatchTxType
  | PeerlessParlayBetTx _ => plParlayBetTxType
  | ChainGamesEventTx _ => cgEventTxType
  | ChainGamesBetTx _ => cgBetTxType
  | ChainGamesResultTx _ => cgResultTxType
  | QuickGamesBetTx _ => qgBetTxType
  | PeerlessEventZeroingOddsTx _ => plEventZeroingOddsTxType
  end.

(** ** Serialization of the classes *)

(** CMappingTx writes its id on 4 bytes for team and contender mappings and on
    2 bytes otherwise, and its name takes the rest of the stream. *)
Definition CMappingTx_wide (nMType : Z) : bool := (nMType =? 0x03) || (nMType =? 0x06).

Definition CMappingTx_Serialize (t : CMappingTx) : list Z :=
  ser_writedata8 (map_nMType t) ++
  (if CMappingTx_wide (map_nMType t)
   then ser_writedata32 (map_nId t) else ser_writedata16 (map_nId t)) ++
  concat (ser_writedata8 <$> map_sName t).

Definition CMappingTx_Unserialize (s : list Z) : option (CMappingTx * list Z) :=
  '(nMType, s) ← ser_readdata8 s;
  '(nId, s) ← (if CMappingTx_wide nMType then ser_readdata32 s else ser_readdata16 s);
  Some ({| map_nMType := nMType; map_nId := nId; map_sName := s |}, []).

Definition CMappingTx_codec : codec CMappingTx :=
  Codec CMappingTx_Serialize CMappingTx_Unserialize
    (fun t => inU 8 (map_nMType t) /\
              inU (if CMappingTx_wide (map_nMType t) then 32 else 16) (map_nId t) /\
              Forall byte (map_sName t)).

Definition CPeerlessEventTx_codec : codec CPeerlessEventTx :=
  isoc (fun t => (pe_nEventId t, (pe_nStartTime t, (pe_nSport t, (pe_nTournament t, (pe_nStage t,
         (pe_nHomeTeam t, (pe_nAwayTeam t, (pe_nHomeOdds t, (pe_nAwayOdds t, pe_nDrawOdds t))))))))))
       (fun '(a, (b, (c, (d, (e, (f, (g, (h, (i, j))))))))) => Build_CPeerlessEventTx a b c d e f g h i j)
       (u32c ⊗ u32c ⊗ u16c ⊗ u16c ⊗ u16c ⊗ u32c ⊗ u32c ⊗ u32c ⊗ u32c ⊗ u32c).

Definition CFieldEventTx_codec : codec CFieldEventTx :=
  isoc (fun t => (fe_nEventId t, (fe_nStartTime t, (fe_nSport t, (fe_nTournament t, (fe_nStage t,
         (fe_nGroupType t, (fe_nMarketType t, (fe_nMarginPercent t, fe_mContendersInputOdds t)))))))))
       (fun '(a, (b, (c, (d, (e, (f, (g, (h, i)))))))) => Build_CFieldEventTx a b c d e f g h i)
       (u32c ⊗ u32c ⊗ u16c ⊗ u16c ⊗ u16c ⊗ u8c ⊗ u8c ⊗ u32c ⊗ mapc u32c u32c).

Definition CFieldUpdateOddsTx_codec : codec CFieldUpdateOddsTx :=
  isoc (fun t => (fuo_nEventId t, fuo_mContendersInputOdds t))
       (fun '(a, b) => Build_CFieldUpdateOddsTx a b) (u32c ⊗ mapc u32c u32c).

Definition CFieldUpdateModifiersTx_codec : codec CFieldUpdateModifiersTx :=
  isoc (fun t => (fum_nEventId t, fum_mContendersModifires t))
       (fun '(a, b) => Build_CFieldUpdateModifiersTx a b) (u32c ⊗ mapc u32c u32c).

Definition CFieldUpdateMarginTx_codec : codec CFieldUpdateMarginTx :=
  isoc (fun t => (fumg_nEventId t, fumg_nMarginPercent t))
       (fun '(a, b) => Build_CFieldUpdateMarginTx a b) (u32c ⊗ u32c).

Definition CFieldZeroingOddsTx_codec : codec CFieldZeroingOddsTx :=
  isoc fz_nEventId Build_CFieldZeroingOddsTx u32c.

Definition CFieldResultTx_codec : codec CFieldResultTx :=
  isoc (fun t => (fr_nEventId t, (fr_nResultType t, fr_contendersResults t)))
       (fun '(a, (b, c)) => Build_CFieldResultTx a b c) (u32c ⊗ u8c ⊗ mapc u32c u8c).

Definition CFieldBetTx_codec : codec CFieldBetTx :=
  isoc (fun t => (fb_nEventId t, (fb_nOutcome t, fb_nContenderId t)))
       (fun '(a, (b, c)) => Build_CFieldBetTx a b c) (u32c ⊗ u8c ⊗ u32c).

Definition CFieldParlayBetTx_codec : codec CFieldParlayBetTx :=
  isoc fpb_legs Build_CFieldParlayBetTx (vecc CFieldBetTx_codec).

Definition CPeerlessBetTx_codec : codec CPeerlessBetTx :=
  isoc (fun t => (pb_nEventId t, pb_nOutcome t)) (fun '(a, b) => Build_CPeerlessBetTx a b)
       (u32c ⊗ u8c).

Definition CPeerlessResultTx_codec : codec CPeerlessResultTx :=
  isoc (fun t => (pr_nEventId t, (pr_nResultType t, (pr_nHomeScore t, pr_nAwayScore t))))
       (fun '(a, (b, (c, d))) => Build_CPeerlessResultTx a b c d) (u32c ⊗ u8c ⊗ u16c ⊗ u16c).

Definition CPeerlessUpdateOddsTx_codec : codec CPeerlessUpdateOddsTx :=
  isoc (fun t => (puo_nEventId t, (puo_nHomeOdds t, (puo_nAwayOdds t, puo_nDrawOdds t))))
       (fun '(a, (b, (c, d))) => Build_CPeerlessUpdateOddsTx a b c d) (u32c ⊗ u32c ⊗ u32c ⊗ u32c).

Definition CPeerlessSpreadsEventTx_codec : codec CPeerlessSpreadsEventTx :=
  isoc (fun t => (pse_nEventId t, (pse_nPoints t, (pse_nHomeOdds t, pse_nAwayOdds t))))
       (fun '(a, (b, (c, d))) => Build_CPeerlessSpreadsEventTx a b c d) (u32c ⊗ i16c ⊗ u32c ⊗ u32c).

Definition CPeerlessTotalsEventTx_codec : codec CPeerlessTotalsEventTx :=
  isoc (fun t => (pte_nEventId t, (pte_nPoints t, (pte_nOverOdds t, pte_nUnderOdds t))))
       (fun '(a, (b, (c, d))) => Build_CPeerlessTotalsEventTx a b c d) (u32c ⊗ u16c ⊗ u32c ⊗ u32c).

Definition CPeerlessEventPatchTx_codec : codec CPeerlessEventPatchTx :=
  isoc (fun t => (pep_nEventId t, pep_nStartTime t))
       (fun '(a, b) => Build_CPeerlessEventPatchTx a b) (u32c ⊗ u32c).

Definition CPeerlessParlayBetTx_codec : codec CPeerlessParlayBetTx :=
  isoc ppb_legs Build_CPeerlessParlayBetTx (vecc CPeerlessBetTx_codec).

Definition CChainGamesEventTx_codec : codec CChainGamesEventTx :=
  isoc (fun t => (cge_nEventId t, cge_nEntryFee t))
       (fun '(a, b) => Build_CChainGamesEventTx a b) (u16c ⊗ u16c).

Definition CChainGamesBetTx_codec : codec CChainGamesBetTx :=
  isoc cgb_nEventId Build_CChainGamesBetTx u16c.

Definition CChainGamesResultTx_codec : codec CChainGamesResultTx :=
  isoc cgr_nEventId Build_CChainGamesResultTx u16c.

Definition CQuickGamesBetTx_codec : codec CQuickGamesBetTx :=
  isoc (fun t => (qg_gameType t, qg_vBetInfo t)) (fun '(a, b) => Build_CQuickGamesBetTx a b)
       (u8c ⊗ bytesc).

Definition CPeerlessEventZeroingOddsTx_codec : codec CPeerlessEventZeroingOddsTx :=
  isoc pez_vEventIds Build_CPeerlessEventZeroingOddsTx (vecc u32c).

(** ** Parsing *)

(** DeserializeBettingTx<T>: an exception or left-over bytes give nullptr. *)
Definition DeserializeBettingTx {A} (c : codec A) (ss : list Z) : option A :=
  match Unserialize c ss with
  | Some (bettingTx, []) => Some bettingTx
  | _ => None
  end.

Definition DeserializeBettingTxFromType (ss : list Z) (type : Z) : option CBettingTx :=
  if type =? BetTxTypes_value mappingTxType then
    MappingTx <$> DeserializeBettingTx CMappingTx_codec ss
  else if type =? BetTxTypes_value plEventTxType then
    PeerlessEventTx <$> DeserializeBettingTx CPeerlessEventTx_codec ss
  else if type =? BetTxTypes_value fEventTxType then
    FieldEventTx <$> DeserializeBettingTx CFieldEventTx_codec ss
  else if type =? BetTxTypes_value fUpdateOddsTxType then
    FieldUpdateOddsTx <$> DeserializeBettingTx CFieldUpdateOddsTx_codec ss
  else if type =? BetTxTypes_value fUpdateMarginTxType then
    FieldUpdateMarginTx <$> DeserializeBettingTx CFieldUpdateMarginTx_codec ss
  else if type =? BetTxTypes_value fZeroingOddsTxType then
    FieldZeroingOddsTx <$> DeserializeBettingTx CFieldZeroingOddsTx_codec ss
  else if type =? BetTxTypes_value fResultTxType then
    FieldResultTx <$> DeserializeBettingTx CFieldResultTx_codec ss
  else if type =? BetTxTypes_value fBetTxType then
    FieldBetTx <$> DeserializeBettingTx CFieldBetTx_codec ss
  else if type =? BetTxTypes_value fParlayBetTxType then
    FieldParlayBetTx <$> DeserializeBettingTx CFieldParlayBetTx_codec ss
  else if type =? BetTxTypes_value plBetTxType then
    PeerlessBetTx <$> DeserializeBettingTx CPeerlessBetTx_codec ss
  else if type =? BetTxTypes_value plResultTxType then
    PeerlessResultTx <$> DeserializeBettingTx CPeerlessResultTx_codec ss
  else if type =? BetTxTypes_value plUpdateOddsTxType then
    PeerlessUpdateOddsTx <$> DeserializeBettingTx CPeerlessUpdateOddsTx_codec ss
  else if type =? BetTxTypes_value cgEventTxType then
    ChainGamesEventTx <$> DeserializeBettingTx CChainGamesEventTx_codec ss
  else if type =? BetTxTypes_value cgBetTxType then
    ChainGamesBetTx <$> DeserializeBettingTx CChainGamesBetTx_codec ss
  else if type =? BetTxTypes_value cgResultTxType then
    ChainGamesResultTx <$> DeserializeBettingTx CChainGamesResultTx_codec ss
  else if type =? BetTxTypes_value plSpreadsEventTxType then
    PeerlessSpreadsEventTx <$> DeserializeBettingTx CPeerlessSpreadsEventTx_codec ss
  else if type =? BetTxTypes_value plTotalsEventTxType then
    PeerlessTotalsEventTx <$> DeserializeBettingTx CPeerlessTotalsEventTx_codec ss
  else if type =? BetTxTypes_value plEventPatchTxType then
    PeerlessEventPatchTx <$> DeserializeBettingTx CPeerlessEventPatchTx_codec ss
  else if type =? BetTxTypes_value plParlayBetTxType then
    PeerlessParlayBetTx <$> DeserializeBettingTx CPeerlessParlayBetTx_codec ss
  else if type =? BetTxTypes_value qgBetTxType then
    QuickGamesBetTx <$> DeserializeBettingTx CQuickGamesBetTx_codec ss
  else if type =? BetTxTypes_value plEventZeroingOddsTxType then
    PeerlessEventZeroingOddsTx <$> DeserializeBettingTx CPeerlessEventZeroingOddsTx_codec ss
  else None.

(** Scripts are byte strings.  One instruction of a script: its opcode, the
    bytes it pushes and the rest of the script. *)
Definition OP_PUSHDATA1 : Z := 76.
Definition OP_PUSHDATA2 : Z := 77.
Definition OP_PUSHDATA4 : Z := 78.
Definition OP_RETURN : Z := 106.

Definition GetScriptOp (pc : list Z) : option (Z * list Z * list Z) :=
  match pc with
  | [] => None
  | opcode :: pc =>
      if opcode <=? OP_PUSHDATA4 then
        '(nSize, pc) ←
          (if opcode <? OP_PUSHDATA1 then Some (opcode, pc)
           else if opcode =? OP_PUSHDATA1 then ser_readdata8 pc
           else if opcode =? OP_PUSHDATA2 then ser_readdata16 pc
           else ser_readdata32 pc);
        '(data, pc) ← read_bytes (Z.to_nat nSize) pc;
        Some (opcode, data, pc)
      else Some (opcode, [], pc)
  end.

(** CScript::operator<<(vector): a push of a byte string. *)
Definition script_push (b : list Z) : list Z :=
  let n := Z.of_nat (length b) in
  (if n <? OP_PUSHDATA1 then [n]
   else if n <=? 0xff then [OP_PUSHDATA1; n]
   else if n <=? 0xffff then OP_PUSHDATA2 :: le_bytes 2 n
   else OP_PUSHDATA4 :: le_bytes 4 n) ++ b.

Definition HasOpReturnOutput (vout : list (list Z)) : bool :=
  existsb (fun script => match script with b :: _ => b =? OP_RETURN | [] => false end) vout.

Definition ParseBettingTx (script : list Z) : option CBettingTx :=
  '(opcode, _, pc) ← GetScriptOp script;
  _ ← check (opcode =? OP_RETURN);
  '(opcode, opcodeData, _) ← GetScriptOp pc;
  _ ← check (negb ((OP_PUSHDATA1 <? opcode) && negb (opcode =? OP_PUSHDATA2)
                     && negb (opcode =? OP_PUSHDATA4)));
  _ ← check (negb (Z.of_nat (length opcodeData) <? 3));
  '(header, ss) ← Unserialize CBettingTxHeader_codec opcodeData;
  _ ← check (negb (negb (hd_prefix header =? BTX_PREFIX)
                    || negb (hd_version header =? BetTxVersion_CURRENT)));
  DeserializeBettingTxFromType ss (hd_txType header).

(** The bytes of a transaction's class and the widths they fit. *)
Definition SerializeTx (tx : CBettingTx) : list Z :=
  match tx with
  | MappingTx t => Serialize CMappingTx_codec t
  | PeerlessEventTx t => Serialize CPeerlessEventTx_codec t
  | FieldEventTx t => Serialize CFieldEventTx_codec t
  | FieldUpdateOddsTx t => Serialize CFieldUpdateOddsTx_codec t
  | FieldUpdateModifiersTx t => Serialize CFieldUpdateModifiersTx_codec t
  | FieldUpdateMarginTx t => Serialize CFieldUpdateMarginTx_codec t
  | FieldZeroingOddsTx t => Serialize CFieldZeroingOddsTx_codec t
  | FieldResultTx t => Serialize CFieldResultTx_codec t
  | FieldBetTx t => Serialize CFieldBetTx_codec t
  | FieldParlayBetTx t => Serialize CFieldParlayBetTx_codec t
  | PeerlessBetTx t => Serialize CPeerlessBetTx_codec t
  | PeerlessResultTx t => Serialize CPeerlessResultTx_codec t
  | PeerlessUpdateOddsTx t => Serialize CPeerlessUpdateOddsTx_codec t
  | PeerlessSpreadsEventTx t => Serialize CPeerlessSpreadsEventTx_codec t
  | PeerlessTotalsEventTx t => Serialize CPeerlessTotalsEventTx_codec t
  | PeerlessEventPatchTx t => Serialize CPeerlessEventPatchTx_codec t
  | PeerlessParlayBetTx t => Serialize CPeerlessParlayBetTx_codec t
  | ChainGamesEventTx t => Serialize CChainGamesEventTx_codec t
  | ChainGamesBetTx t => Serialize CChainGamesBetTx_codec t
  | ChainGamesResultTx t => Serialize CChainGamesResultTx_codec t
  | QuickGamesBetTx t => Serialize CQuickGamesBetTx_codec t
  | PeerlessEventZeroingOddsTx t => Serialize CPeerlessEventZeroingOddsTx_codec t
  end.

Definition SerOkTx (tx : CBettingTx) : Prop :=
  match tx with
  | MappingTx t => SerOk CMappingTx_codec t
  | PeerlessEventTx t => SerOk CPeerlessEventTx_codec t
  | FieldEventTx t => SerOk CFieldEventTx_codec t
  | FieldUpdateOddsTx t => SerOk CFieldUpdateOddsTx_codec t
  | FieldUpdateModifiersTx t => SerOk CFieldUpdateModifiersTx_codec t
  | FieldUpdateMarginTx t => SerOk CFieldUpdateMarginTx_codec t
  | FieldZeroingOddsTx t => SerOk CFieldZeroingOddsTx_codec t
  | FieldResultTx t => SerOk CFieldResultTx_codec t
  | FieldBetTx t => SerOk CFieldBetTx_codec t
  | FieldParlayBetTx t => SerOk CFieldParlayBetTx_codec t
  | PeerlessBetTx t => SerOk CPeerlessBetTx_codec t
  | PeerlessResultTx t => SerOk CPeerlessResultTx_codec t
  | PeerlessUpdateOddsTx t => SerOk CPeerlessUpdateOddsTx_codec t
  | PeerlessSpreadsEventTx t => SerOk CPeerlessSpreadsEventTx_codec t
  | PeerlessTotalsEventTx t => SerOk CPeerlessTotalsEventTx_codec t
  | PeerlessEventPatchTx t => SerOk CPeerlessEventPatchTx_codec t
  | PeerlessParlayBetTx t => SerOk CPeerlessParlayBetTx_codec t
  | ChainGamesEventTx t => SerOk CChainGamesEventTx_codec t
  | ChainGamesBetTx t => SerOk CChainGamesBetTx_codec t
  | ChainGamesResultTx t => SerOk CChainGamesResultTx_codec t
  | QuickGamesBetTx t => SerOk CQuickGamesBetTx_codec t
  | PeerlessEventZeroingOddsTx t => SerOk CPeerlessEventZeroingOddsTx_codec t
  end.

Definition EncodeBettingTxPayload (header : CBettingTxHeader) (bettingTx : CBettingTx) :
    option (list Z) :=
  if hd_version header =? BetTxVersion4 then
    Some (ser_writedata8 BTX_PREFIX ++ ser_writedata8 (hd_version header) ++
          ser_writedata8 (hd_txType header) ++ SerializeTx bettingTx)
  else if hd_version header =? BetTxVersion5 then Some (SerializeTx bettingTx)
  else None.

(** ** Codec laws of the classes *)
Ltac iso_laws := apply isoc_laws; [apply _ | by intros []].

#[export] Instance CBettingTxHeader_laws : CodecLaws CBettingTxHeader_codec.
Proof. iso_laws. Qed.

#[export] Instance CPeerlessEventTx_laws : CodecLaws CPeerlessEventTx_codec.
Proof. iso_laws. Qed.

#[export] Instance CFieldEventTx_laws : CodecLaws CFieldEventTx_codec.
Proof. iso_laws. Qed.

#[export] Instance CFieldUpdateOddsTx_laws : CodecLaws CFieldUpdateOddsTx_codec.
Proof. iso_laws. Qed.

#[export] Instance CFieldUpdateModifiersTx_laws : CodecLaws CFieldUpdateModifiersTx_codec.
Proof. iso_laws. Qed.

#[export] Instance CFieldUpdateMarginTx_laws : CodecLaws CFieldUpdateMarginTx_codec.
Proof. iso_laws. Qed.

#[export] Instance CFieldZeroingOddsTx_laws : CodecLaws CFieldZeroingOddsTx_codec.
Proof. iso_laws. Qed.

#[export] Instance CFieldResultTx_laws : CodecLaws CFieldResultTx_codec.
Proof. iso_laws. Qed.

#[export] Instance CFieldBetTx_laws : CodecLaws CFieldBetTx_codec.
Proof. iso_laws. Qed.

#[export] Instance CFieldParlayBetTx_laws : CodecLaws CFieldParlayBetTx_codec.
Proof. iso_laws. Qed.

#[export] Instance CPeerlessBetTx_laws : CodecLaws CPeerlessBetTx_codec.
Proof. iso_laws. Qed.

#[export] Instance CPeerlessResultTx_laws : CodecLaws CPeerlessResultTx_codec.
Proof. iso_laws. Qed.

#[export] Instance CPeerlessUpdateOddsTx_laws : CodecLaws CPeerlessUpdateOddsTx_codec.
Proof. iso_laws. Qed.

#[export] Instance CPeerlessSpreadsEventTx_laws : CodecLaws CPeerlessSpreadsEventTx_codec.
Proof. iso_laws. Qed.

#[export] Instance CPeerlessTotalsEventTx_laws : CodecLaws CPeerlessTotalsEventTx_codec.
Proof. iso_laws. Qed.

#[export] Instance CPeerlessEventPatchTx_laws : CodecLaws CPeerlessEventPatchTx_codec.
Proof. iso_laws. Qed.

#[export] Instance CPeerlessParlayBetTx_laws : CodecLaws CPeerlessParlayBetTx_codec.
Proof. iso_laws. Qed.

#[export] Instance CChainGamesEventTx_laws : CodecLaws CChainGamesEventTx_codec.
Proof. iso_laws. Qed.

#[export] Instance CChainGamesBetTx_laws : CodecLaws CChainGamesBetTx_codec.
Proof. iso_laws. Qed.

#[export] Instance CChainGamesResultTx_laws : CodecLaws CChainGamesResultTx_codec.
Proof. iso_laws. Qed.

#[export] Instance CQuickGamesBetTx_laws : CodecLaws CQuickGamesBetTx_codec.
Proof. iso_laws. Qed.

#[export] Instance CPeerlessEventZeroingOddsTx_laws : CodecLaws CPeerlessEventZeroingOddsTx_codec.
Proof. iso_laws. Qed.

(** ** Parsing what was encoded *)
Lemma concat_writedata8 l : Forall byte l -> concat (ser_writedata8 <$> l) = l.
Proof.
  induction 1 as [|b l Hb Hl IH]; [done|]. csimpl. rewrite IH.
  by rewrite Z.mod_small.
Qed.

Lemma CMappingTx_roundtrip t :
  SerOk CMappingTx_codec t ->
  Unserialize CMappingTx_codec (Serialize CMappingTx_codec t) = Some (t, []).
Proof.
  destruct t as [ty id name]. simpl. intros (Hty & Hid & Hname).
  unfold CMappingTx_Serialize, CMappingTx_Unserialize, ser_readdata8, ser_readdata16, ser_readdata32,
    ser_writedata8 at 1, ser_writedata16, ser_writedata32. simpl map_nMType. simpl map_nId. simpl map_sName.
  rewrite (ser_readdata_small 1) by range. cbn [mbind option_bind].
  destruct (CMappingTx_wide ty);
    rewrite ?(ser_readdata_small 2), ?(ser_readdata_small 4) by range;
    cbn [mbind option_bind]; by rewrite concat_writedata8.
Qed.

Lemma DeserializeBettingTx_ser {A} (c : codec A) `{!CodecLaws c} x :
  SerOk c x -> DeserializeBettingTx c (Serialize c x) = Some x.
Proof.
  intros H. unfold DeserializeBettingTx.
  rewrite <- (app_nil_r (Serialize c x)). by rewrite unser_ser.
Qed.

(** The dispatch on the type byte picks the class that was written, for every
    class but CFieldUpdateModifiersTx. *)
Lemma DeserializeBettingTxFromType_ser tx :
  SerOkTx tx -> GetTxType tx <> fUpdateModifiersTxType ->
  DeserializeBettingTxFromType (SerializeTx tx) (BetTxTypes_value (GetTxType tx)) = Some tx.
Proof.
  intros Hok Hty.
  destruct tx; unfold SerOkTx in Hok; try (by contradiction Hty);
    cbv [DeserializeBettingTxFromType GetTxType BetTxTypes_value Z.eqb Pos.eqb];
    [|unfold SerializeTx; rewrite DeserializeBettingTx_ser by (done || apply _); done ..].
  unfold DeserializeBettingTx, SerializeTx. by rewrite CMappingTx_roundtrip.
Qed.

Lemma GetScriptOp_push b rest :
  Forall byte b -> Z.of_nat (length b) < 2 ^ 32 ->
  exists opcode, GetScriptOp (script_push b ++ rest) = Some (opcode, b, rest) /\ opcode <= OP_PUSHDATA4
    /\ 0 <= opcode.
Proof.
  intros Hb Hlen. pow2_lits. unfold script_push, OP_PUSHDATA1, OP_PUSHDATA2, OP_PUSHDATA4.
  set (n := Z.of_nat (length b)) in *.
  assert (forall pre, read_bytes (Z.to_nat n) (b ++ pre) = Some (b, pre)) as Hrd.
  { intros pre. unfold n. rewrite Nat2Z.id. apply read_bytes_app. }
  destruct (n <? 76) eqn:E1; [|destruct (n <=? 255) eqn:E2; [|destruct (n <=? 65535) eqn:E3]].
  - exists n. split; [|lia]. simpl. unfold OP_PUSHDATA4, OP_PUSHDATA1.
    replace (n <=? 78) with true by lia. rewrite E1. simpl. by rewrite Hrd.
  - exists 76. split; [|lia]. change ([76; n] ++ b) with (76 :: [n] ++ b).
    rewrite <- app_comm_cons, <- app_assoc, <- le_bytes_1 by (unfold byte; range).
    cbn [GetScriptOp].
    change (76 <=? OP_PUSHDATA4) with true. change (76 <? OP_PUSHDATA1) with false.
    change (76 =? OP_PUSHDATA1) with true. cbn [mbind option_bind]. unfold ser_readdata8.
    rewrite (ser_readdata_small 1) by range. cbn [mbind option_bind]. by rewrite Hrd.
  - exists 77. split; [|lia]. rewrite <- app_assoc, <- app_comm_cons. cbn [GetScriptOp].
    change (77 <=? OP_PUSHDATA4) with true. change (77 <? OP_PUSHDATA1) with false.
    change (77 =? OP_PUSHDATA1) with false. change (77 =? OP_PUSHDATA2) with true.
    cbn [mbind option_bind]. unfold ser_readdata16.
    rewrite (ser_readdata_small 2) by range. cbn [mbind option_bind]. by rewrite Hrd.
  - exists 78. split; [|lia]. rewrite <- app_assoc, <- app_comm_cons. cbn [GetScriptOp].
    change (78 <=? OP_PUSHDATA4) with true. change (78 <? OP_PUSHDATA1) with false.
    change (78 =? OP_PUSHDATA1) with false. change (78 =? OP_PUSHDATA2) with false.
    cbn [mbind option_bind]. unfold ser_readdata32.
    rewrite (ser_readdata_small 4) by range. cbn [mbind option_bind]. by rewrite Hrd.
Qed.

Lemma SerializeTx_byte tx : SerOkTx tx -> Forall byte (SerializeTx tx).
Proof.
  intros Hok. destruct tx; unfold SerOkTx in Hok; unfold SerializeTx; [|by apply ser_bytes ..].
  destruct Hok as (Hty & Hid & Hname). simpl. unfold CMappingTx_Serialize.
  apply Forall_app. split; [apply le_bytes_byte|]. apply Forall_app. split.
  - case_match; apply le_bytes_byte.
  - by rewrite concat_writedata8.
Qed.

(** The parser of an output is the continuation on the pushed payload. *)
Lemma ParseBettingTx_script data :
  Forall byte data -> Z.of_nat (length data) < 2 ^ 32 ->
  ParseBettingTx (OP_RETURN :: script_push data) =
    (_ ← check (negb (Z.of_nat (length data) <? 3));
     '(header, ss) ← Unserialize CBettingTxHeader_codec data;
     _ ← check (negb (negb (hd_prefix header =? BTX_PREFIX)
                       || negb (hd_version header =? BetTxVersion_CURRENT)));
     DeserializeBettingTxFromType ss (hd_txType header)).
Proof.
  intros Hb Hlen. unfold ParseBettingTx at 1.
  change (GetScriptOp (OP_RETURN :: script_push data)) with (Some (OP_RETURN, @nil Z, script_push data)).
  cbn [mbind option_bind]. change (check (OP_RETURN =? OP_RETURN)) with (Some tt).
  cbn [mbind option_bind].
  destruct (GetScriptOp_push data [] Hb Hlen) as (op & Hop & Hle & Hge).
  rewrite app_nil_r in Hop. rewrite Hop. cbn [mbind option_bind].
  unfold OP_PUSHDATA1, OP_PUSHDATA2, OP_PUSHDATA4 in *.
  replace (negb ((76 <? op) && negb (op =? 77) && negb (op =? 78))) with true; [done|].
  destruct (76 <? op) eqn:E1, (op =? 77) eqn:E2, (op =? 78) eqn:E3; simpl; lia || done.
Qed.

(** The header of a transaction of the current version. *)
Definition tx_header (tx : CBettingTx) : CBettingTxHeader :=
  {| hd_prefix := BTX_PREFIX; hd_version := BetTxVersion_CURRENT;
     hd_txType := BetTxTypes_value (GetTxType tx) |}.

Lemma tx_header_ok tx : SerOk CBettingTxHeader_codec (tx_header tx).
Proof. simpl. unfold inU. repeat split; destruct tx; vm_compute; (discriminate || reflexivity). Qed.

(** The payload is well formed and starts with its header. *)
Lemma EncodeBettingTxPayload_shape tx data :
  SerOkTx tx -> EncodeBettingTxPayload (tx_header tx) tx = Some data ->
  data = Serialize CBettingTxHeader_codec (tx_header tx) ++ SerializeTx tx /\ Forall byte data.
Proof.
  intros Hok Henc.
  assert (data = Serialize CBettingTxHeader_codec (tx_header tx) ++ SerializeTx tx) as ->
    by by injection Henc.
  split; [done|]. apply Forall_app. split.
  - apply ser_bytes, tx_header_ok.
  - by apply SerializeTx_byte.
Qed.

(** An output that carries the payload of a transaction parses to the class
    its type byte selects. *)
Lemma ParseBettingTx_payload tx data :
  SerOkTx tx -> EncodeBettingTxPayload (tx_header tx) tx = Some data ->
  Z.of_nat (length data) < 2 ^ 32 ->
  ParseBettingTx (OP_RETURN :: script_push data) =
    DeserializeBettingTxFromType (SerializeTx tx) (BetTxTypes_value (GetTxType tx)).
Proof.
  intros Hok Henc Hlen.
  destruct (EncodeBettingTxPayload_shape tx data Hok Henc) as [Hdata Hbytes].
  rewrite ParseBettingTx_script by done.
  assert ((Z.of_nat (length data) <? 3) = false) as ->.
  { rewrite Hdata, length_app, Nat2Z.inj_add. apply Z.ltb_ge. simpl. lia. }
  rewrite Hdata, unser_ser by apply tx_header_ok. done.
Qed.

(** C39: decoding inverts encoding.  For every betting transaction whose fields
    fit their widths, other than a field-modifiers update, the output script
    OP_RETURN <push payload> built from EncodeBettingTxPayload parses back to
    exactly that transaction. *)
Theorem ParseBettingTx_Encode tx data :
  SerOkTx tx -> GetTxType tx <> fUpdateModifiersTxType ->
  EncodeBettingTxPayload (tx_header tx) tx = Some data ->
  Z.of_nat (length data) < 2 ^ 32 ->
  ParseBettingTx (OP_RETURN :: script_push data) = Some tx.
Proof.
  intros Hok Hty Henc Hlen.
  rewrite (ParseBettingTx_payload tx data) by done. by apply DeserializeBettingTxFromType_ser.
Qed.

(** A field-modifiers update never takes effect.  Its type has no case in
    the dispatch on the transaction type, so that no script at all parses to
    such a transaction, its own encoding included. *)
Theorem ParseBettingTx_no_modifiers script t : ParseBettingTx script <> Some (FieldUpdateModifiersTx t).
Proof.
  unfold ParseBettingTx. intros H. repeat (apply bind_Some in H as (? & _ & H); repeat case_match).
  unfold DeserializeBettingTxFromType in H.
  repeat (case_match; [apply fmap_Some in H as (? & _ & [=])|]). done.
Qed.
