(* ===== verification/Flushable.v ===== *)
(** * Flushable key-value storage
    (src/src/flushablestorage/flushablestorage.h and the CBettingDB wrapper of
    src/src/betting/bet_db.h)

    [StorageKV] is the interface CStorageKV; [StorageKVLaws] is its contract:
    every operation acts on the map [view] as the operation of finite maps.
    [CFlushableStorageKV] is a write-back cache over any parent storage that
    keeps the contract; the theorems of this file show that it keeps the
    contract itself, so that caches can be stacked, that a flush moves the
    view into the parent, and that its merging iterator visits exactly the
    entries of the view from the sought key on, in key order.

    Keys and values are typed; the source stores their serialized bytes.  The
    empty vector that the iterator uses for "no previous key" is [None]. *)

From S2P Require Import Prelude.

(** ** The interface *)
Class StorageKV (St K V : Type) := {
  sExists : St -> K -> bool;
  sRead : St -> K -> option V;
  sWrite : St -> K -> V -> St * bool;
  sErase : St -> K -> St * bool;
  sIterate : St -> K -> list (K * V);
}.

(** What is left of an ordered traversal that starts at the first key not
    below [k]. *)
Definition seek_entries `{KeySeq K} {V} (k : K) (l : list (K * V)) : list (K * V) :=
  filter (fun e => kle k e.1) l.

Class StorageKVLaws (St K V : Type) `{Countable K, KeySeq K, StorageKV St K V} := {
  view : St -> gmap K V;
  sRead_view s k : sRead s k = view s !! k;
  sExists_view s k : sExists s k = bool_decide (is_Some (view s !! k));
  sWrite_view s k v s' b : sWrite s k v = (s', b) -> b = true /\ view s' = <[k := v]> (view s);
  sErase_view s k s' b : sErase s k = (s', b) -> b = true /\ view s' = delete k (view s);
  sIterate_view s k : sIterate s k = seek_entries k (sorted_entries (view s));
}.

(** The bottom of the stack: LevelDB as an ordered map. *)
#[export] Instance gmap_StorageKV `{Countable K, KeySeq K} {V} : StorageKV (gmap K V) K V := {
  sExists m k := bool_decide (is_Some (m !! k));
  sRead m k := m !! k;
  sWrite m k v := (<[k := v]> m, true);
  sErase m k := (delete k m, true);
  sIterate m k := seek_entries k (sorted_entries m);
}.

#[export] Instance gmap_StorageKVLaws `{Countable K, KeySeq K} {V} : StorageKVLaws (gmap K V) K V.
Proof.
  refine {| view m := m |}; simpl; try done.
  - by intros ???? ? [= <- <-].
  - by intros ???? [= <- <-].
Defined.

(** ** The cache *)
Section Flushable.
Context {St K V : Type} `{Countable K, !KeySeq K, !StorageKV St K V}.

Record CFlushableStorageKV := {
  fs_db : St;
  fs_changed : gmap K (option V);
}.

Implicit Types s : CFlushableStorageKV.

Definition fsExists s (key : K) : bool :=
  match fs_changed s !! key with
  | Some v => match v with Some _ => true | None => false end
  | None => sExists (fs_db s) key
  end.

Definition fsWrite s (key : K) (value : V) : CFlushableStorageKV * bool :=
  ({| fs_db := fs_db s; fs_changed := <[key := Some value]> (fs_changed s) |}, true).

Definition fsErase s (key : K) : CFlushableStorageKV * bool :=
  ({| fs_db := fs_db s; fs_changed := <[key := None]> (fs_changed s) |}, true).

Definition fsRead s (key : K) : option V :=
  match fs_changed s !! key with
  | None => sRead (fs_db s) key
  | Some v => v
  end.

(** Flush: the changed entries in key order; the first failure stops it. *)
Fixpoint flush_entries (db : St) (l : list (K * option V)) : St * bool :=
  match l with
  | [] => (db, true)
  | (k, None) :: l =>
      let '(db, ok) := sErase db k in if ok then flush_entries db l else (db, false)
  | (k, Some v) :: l =>
      let '(db, ok) := sWrite db k v in if ok then flush_entries db l else (db, false)
  end.

Definition fsFlush s : CFlushableStorageKV * bool :=
  let '(db, ok) := flush_entries (fs_db s) (sorted_entries (fs_changed s)) in
  if ok then ({| fs_db := db; fs_changed := ∅ |}, true)
  else ({| fs_db := db; fs_changed := fs_changed s |}, false).

Definition fsGetCacheSize s : nat := size (fs_changed s).

(** The iterator: what is left of the parent's traversal and of the map, and
    the last key passed. *)
Record CFlushableStorageKVIterator := {
  it_parent : list (K * V);
  it_map : list (K * option V);
  it_prevKey : option K;
}.

Definition above_prevKey (prevKey : option K) (k : K) : bool :=
  match prevKey with
  | None => true
  | Some p => bool_decide (klt p k)
  end.

(** Next: returns the entry it stops at, [None] past the end. *)
Fixpoint iterNext (fuel : nat) (it : CFlushableStorageKVIterator) :
    option (K * V) * CFlushableStorageKVIterator :=
  match fuel with
  | O => (None, it)
  | Datatypes.S fuel =>
      match it_map it, it_parent it with
      | [], [] => (None, it)
      | (mk, mv) :: m', p =>
          if match p with [] => true | (pk, _) :: _ => bool_decide (kle mk pk) end then
            match mv with
            | Some v =>
                if above_prevKey (it_prevKey it) mk
                then (Some (mk, v), {| it_parent := p; it_map := m'; it_prevKey := Some mk |})
                else iterNext fuel {| it_parent := p; it_map := m'; it_prevKey := it_prevKey it |}
            | None => iterNext fuel {| it_parent := p; it_map := m'; it_prevKey := Some mk |}
            end
          else
            match p with
            | [] => (None, it)
            | (pk, pv) :: p' =>
                if above_prevKey (it_prevKey it) pk
                then (Some (pk, pv), {| it_parent := p'; it_map := it_map it; it_prevKey := Some pk |})
                else iterNext fuel {| it_parent := p'; it_map := it_map it; it_prevKey := it_prevKey it |}
            end
      | [], (pk, pv) :: p' =>
          if above_prevKey (it_prevKey it) pk
          then (Some (pk, pv), {| it_parent := p'; it_map := []; it_prevKey := Some pk |})
          else iterNext fuel {| it_parent := p'; it_map := []; it_prevKey := it_prevKey it |}
      end
  end.

Definition it_size (it : CFlushableStorageKVIterator) : nat :=
  length (it_parent it) + length (it_map it).

(** Seek, without the Next that ends it. *)
Definition iterSeek s (key : K) : CFlushableStorageKVIterator :=
  {| it_parent := sIterate (fs_db s) key;
     it_map := seek_entries key (sorted_entries (fs_changed s));
     it_prevKey := None |}.

(** for (it->Seek(key); it->Valid(); it->Next()): the entries visited. *)
Fixpoint iterCollect (fuel : nat) (it : CFlushableStorageKVIterator) : list (K * V) :=
  match fuel with
  | O => []
  | Datatypes.S fuel =>
      match iterNext (Datatypes.S (it_size it)) it with
      | (None, _) => []
      | (Some e, it) => e :: iterCollect fuel it
      end
  end.

Definition fsIterate s (key : K) : list (K * V) :=
  let it := iterSeek s key in iterCollect (Datatypes.S (it_size it)) it.

End Flushable.

Arguments CFlushableStorageKV St K V {_ _}.
Arguments CFlushableStorageKVIterator K V : clear implicits.

#[export] Instance flushable_StorageKV {St K V : Type} `{Countable K, KeySeq K, StorageKV St K V} :
    StorageKV (CFlushableStorageKV St K V) K V := {
  sExists := fsExists; sRead := fsRead; sWrite := fsWrite; sErase := fsErase; sIterate := fsIterate }.

(** ** The cache keeps the contract *)
Section FlushableLaws.
Context {St K V : Type} `{Countable K, !KeySeq K, !KeySeqInj K, !StorageKV St K V, !StorageKVLaws St K V}.

Implicit Types s : CFlushableStorageKV St K V.
Implicit Types it : CFlushableStorageKVIterator K V.

(** The map a cache stands for: its changes over the parent's view. *)
Definition overlay (c : option (option V)) (d : option V) : option V :=
  match c with Some v => v | None => d end.

Definition fs_view s : gmap K V := merge overlay (fs_changed s) (view (fs_db s)).

Lemma lookup_fs_view s k : fs_view s !! k = overlay (fs_changed s !! k) (view (fs_db s) !! k).
Proof.
  unfold fs_view. rewrite lookup_merge. by destruct (fs_changed s !! k), (view (fs_db s) !! k).
Qed.

Lemma fs_view_changed s k o :
  fs_view {| fs_db := fs_db s; fs_changed := <[k := o]> (fs_changed s) |} =
    partial_alter (fun _ => o) k (fs_view s).
Proof.
  apply map_eq. intros j. rewrite lookup_fs_view. simpl.
  destruct (decide (k = j)) as [->|Hne].
  - by rewrite lookup_insert_eq, lookup_partial_alter_eq.
  - by rewrite lookup_insert_ne, lookup_partial_alter_ne, lookup_fs_view.
Qed.

Lemma flush_entries_spec (l : list (K * option V)) (db : St) :
  NoDup l.*1 ->
  exists db', flush_entries db l = (db', true) /\
    forall k, view db' !! k = overlay (list_to_map (M := gmap K _) l !! k) (view db !! k).
Proof.
  revert db. induction l as [|[k [v|]] l IH]; intros db Hnd; simpl.
  - exists db. split; [done|]. intros k. by rewrite lookup_empty.
  - destruct (sWrite db k v) as [db1 b] eqn:E.
    apply (sWrite_view (K := K) (V := V)) in E as [-> Hv1].
    csimpl in Hnd. apply NoDup_cons in Hnd as [Hk Hnd].
    destruct (IH db1 Hnd) as (db' & -> & Hdb'). exists db'. split; [done|].
    intros j. rewrite Hdb', Hv1. destruct (decide (k = j)) as [->|Hne].
    + rewrite !lookup_insert_eq. by rewrite not_elem_of_list_to_map_1.
    + by rewrite !lookup_insert_ne.
  - destruct (sErase db k) as [db1 b] eqn:E.
    apply (sErase_view (K := K) (V := V)) in E as [-> Hv1].
    csimpl in Hnd. apply NoDup_cons in Hnd as [Hk Hnd].
    destruct (IH db1 Hnd) as (db' & -> & Hdb'). exists db'. split; [done|].
    intros j. rewrite Hdb', Hv1. destruct (decide (k = j)) as [->|Hne].
    + rewrite lookup_delete_eq, lookup_insert_eq. by rewrite not_elem_of_list_to_map_1.
    + by rewrite lookup_delete_ne, lookup_insert_ne.
Qed.

Lemma list_to_map_sorted_entries {A} (m : gmap K A) : list_to_map (sorted_entries m) = m.
Proof.
  rewrite <- (list_to_map_to_list m) at 2. apply list_to_map_proper; [|apply sorted_entries_perm].
  rewrite sorted_entries_perm. apply NoDup_fst_map_to_list.
Qed.

(** The entries an iterator has still to visit. *)
Definition it_pending it (k : K) (v : V) : Prop :=
  (forall pk, it_prevKey it = Some pk -> klt pk k) /\
  ((k, Some v) ∈ it_map it \/ (k, v) ∈ it_parent it /\ forall o, (k, o) ∉ it_map it).

Record it_inv it : Prop := {
  it_inv_map : entries_sorted (it_map it);
  it_inv_parent : entries_sorted (it_parent it);
  it_inv_prev_map : forall pk e, it_prevKey it = Some pk -> e ∈ it_map it -> klt pk e.1;
  it_inv_prev_parent : forall pk e, it_prevKey it = Some pk -> e ∈ it_parent it -> kle pk e.1;
}.

Lemma entries_sorted_cons {A} (e : K * A) l :
  entries_sorted (e :: l) -> entries_sorted l /\ forall e', e' ∈ l -> klt e.1 e'.1.
Proof. intros Hs. inversion Hs. by rewrite <- Forall_forall. Qed.

(** Passing the head of the map: it is not above the head of the parent. *)
Lemma it_inv_pass_map p mk mv m prev :
  it_inv {| it_parent := p; it_map := (mk, mv) :: m; it_prevKey := prev |} ->
  (forall e, e ∈ p -> kle mk e.1) ->
  it_inv {| it_parent := p; it_map := m; it_prevKey := Some mk |}.
Proof.
  intros [Hm Hp Hpm Hpp] Hle. simpl in *.
  apply entries_sorted_cons in Hm as [Hm Hlt].
  split; simpl; auto; intros pk e [= <-]; auto.
Qed.

Lemma it_pending_pass_map p mk mv m prev k v :
  it_inv {| it_parent := p; it_map := (mk, mv) :: m; it_prevKey := prev |} ->
  (forall e, e ∈ p -> kle mk e.1) ->
  it_pending {| it_parent := p; it_map := (mk, mv) :: m; it_prevKey := prev |} k v <->
    (k = mk /\ mv = Some v) \/
    it_pending {| it_parent := p; it_map := m; it_prevKey := Some mk |} k v.
Proof.
  intros [Hm Hp Hpm Hpp] Hle. simpl in *. unfold it_pending; simpl.
  apply entries_sorted_cons in Hm as [Hm Hlt].
  assert (forall pk, prev = Some pk -> klt pk mk) as Hprev.
  { intros pk E. apply (Hpm pk (mk, mv) E). apply list_elem_of_here. }
  split.
  - intros [_ [Hin|[Hin Hno]]].
    + apply elem_of_cons in Hin as [[= -> ->]|Hin]; [by left|]. right. split; [|by left].
      intros pk [= <-]. by apply (Hlt (k, Some v)).
    + right. assert (k <> mk) by (intros ->; apply (Hno mv), list_elem_of_here). split.
      * intros pk [= <-]. split; [by apply (Hle (k, v))|done].
      * right. split; [done|]. intros o Ho. by apply (Hno o), elem_of_cons; right.
  - intros [[-> ->]|[Hk Hin]]; [split; [done|left; apply list_elem_of_here]|].
    specialize (Hk mk eq_refl). split; [intros pk E; by apply (klt_trans _ mk), Hk; auto|].
    destruct Hin as [Hin|[Hin Hno]]; [left; by apply elem_of_cons; right|]. right. split; [done|].
    intros o Ho. apply elem_of_cons in Ho as [[= -> ->]|Ho]; [by apply klt_irrefl in Hk|by apply (Hno o)].
Qed.

(** Passing the head of the parent: it is below every key of the map. *)
Lemma it_inv_pass_parent pk pv p m prev :
  it_inv {| it_parent := (pk, pv) :: p; it_map := m; it_prevKey := prev |} ->
  (forall e, e ∈ m -> klt pk e.1) ->
  it_inv {| it_parent := p; it_map := m; it_prevKey := Some pk |}.
Proof.
  intros [Hm Hp Hpm Hpp] Hlt'. simpl in *.
  apply entries_sorted_cons in Hp as [Hp Hlt].
  split; simpl; auto; intros ? e [= <-] He; auto. by apply Hlt.
Qed.

Lemma it_pending_pass_parent pk pv p m prev k v :
  it_inv {| it_parent := (pk, pv) :: p; it_map := m; it_prevKey := prev |} ->
  (forall e, e ∈ m -> klt pk e.1) ->
  it_pending {| it_parent := (pk, pv) :: p; it_map := m; it_prevKey := prev |} k v <->
    ((k, v) = (pk, pv) /\ above_prevKey prev pk = true) \/
    it_pending {| it_parent := p; it_map := m; it_prevKey := Some pk |} k v.
Proof.
  intros [Hm Hp Hpm Hpp] Hlt'. simpl in *. unfold it_pending; simpl.
  apply entries_sorted_cons in Hp as [Hp Hlt].
  assert (forall q, prev = Some q -> kle q pk) as Hprev.
  { intros q E. apply (Hpp q (pk, pv) E), list_elem_of_here. }
  assert (above_prevKey prev pk = true <-> forall q, prev = Some q -> klt q pk) as Habove.
  { destruct prev as [q|]; simpl; [rewrite bool_decide_eq_true|]; naive_solver. }
  split.
  - intros [Hk [Hin|[Hin Hno]]].
    + right. split; [intros ? [= <-]; by apply (Hlt' (k, Some v))|by left].
    + apply elem_of_cons in Hin as [[= -> ->]|Hin]; [left; split; [done|by apply Habove]|].
      right. split; [|by right]. intros ? [= <-]. by apply (Hlt (k, v)).
  - intros [[[= -> ->] Ha]|[Hk Hin]].
    + split; [by apply Habove|]. right. split; [apply list_elem_of_here|].
      intros o Ho. apply (klt_irrefl pk). by apply (Hlt' (pk, o)).
    + specialize (Hk pk eq_refl). split.
      { intros q E. apply (kle_klt_trans _ pk); auto. }
      destruct Hin as [Hin|[Hin Hno]]; [by left|]. right. split; [|done]. by apply elem_of_cons; right.
Qed.

(** What one call of Next does, in terms of the entries still to visit. *)
Definition next_ok it (r : option (K * V) * CFlushableStorageKVIterator K V) : Prop :=
  match r with
  | (None, _) => forall k v, ~ it_pending it k v
  | (Some e, it') =>
      it_inv it' /\ it_prevKey it' = Some e.1 /\ (it_size it' < it_size it)%nat /\
      forall k v, it_pending it k v <-> (k, v) = e \/ it_pending it' k v
  end.

(** Skipping a step that leaves the pending entries as they are. *)
Lemma next_ok_skip it it' r :
  (it_size it' < it_size it)%nat -> (forall k v, it_pending it k v <-> it_pending it' k v) ->
  next_ok it' r -> next_ok it r.
Proof.
  intros Hsz Heq. destruct r as [[e|] it'']; simpl.
  - intros (? & ? & ? & Hp). split_and!; [done|done|lia|]. intros k v. rewrite Heq. apply Hp.
  - intros Hn k v. rewrite Heq. apply Hn.
Qed.

Lemma iterNext_map fuel p mk mv m prev :
  (forall it, it_inv it -> (it_size it < fuel)%nat -> next_ok it (iterNext fuel it)) ->
  it_inv {| it_parent := p; it_map := (mk, mv) :: m; it_prevKey := prev |} ->
  (length p + length m < fuel)%nat ->
  (forall e, e ∈ p -> kle mk e.1) ->
  next_ok {| it_parent := p; it_map := (mk, mv) :: m; it_prevKey := prev |}
    match mv with
    | Some v =>
        if above_prevKey prev mk
        then (Some (mk, v), {| it_parent := p; it_map := m; it_prevKey := Some mk |})
        else iterNext fuel {| it_parent := p; it_map := m; it_prevKey := prev |}
    | None => iterNext fuel {| it_parent := p; it_map := m; it_prevKey := Some mk |}
    end.
Proof.
  intros IH Hinv Hfuel Hle.
  pose proof (it_inv_pass_map _ _ _ _ _ Hinv Hle) as Hinv'.
  pose proof (fun k v => it_pending_pass_map _ _ _ _ _ k v Hinv Hle) as Hp.
  destruct mv as [v|].
  - assert (above_prevKey prev mk = true) as ->.
    { destruct prev as [pk|]; [|done]. apply bool_decide_eq_true.
      apply (it_inv_prev_map _ Hinv pk (mk, Some v) eq_refl), list_elem_of_here. }
    simpl. split_and!; [done|done|unfold it_size; simpl; lia|]. intros k v'. rewrite Hp. naive_solver.
  - eapply next_ok_skip; [| |apply IH; [exact Hinv'|unfold it_size; simpl; lia]].
    + unfold it_size; simpl; lia.
    + intros k v. rewrite Hp. naive_solver.
Qed.

Lemma iterNext_parent fuel pk pv p m prev :
  (forall it, it_inv it -> (it_size it < fuel)%nat -> next_ok it (iterNext fuel it)) ->
  it_inv {| it_parent := (pk, pv) :: p; it_map := m; it_prevKey := prev |} ->
  (length p + length m < fuel)%nat ->
  (forall e, e ∈ m -> klt pk e.1) ->
  next_ok {| it_parent := (pk, pv) :: p; it_map := m; it_prevKey := prev |}
    (if above_prevKey prev pk
     then (Some (pk, pv), {| it_parent := p; it_map := m; it_prevKey := Some pk |})
     else iterNext fuel {| it_parent := p; it_map := m; it_prevKey := prev |}).
Proof.
  intros IH Hinv Hfuel Hlt.
  pose proof (it_inv_pass_parent _ _ _ _ _ Hinv Hlt) as Hinv'.
  pose proof (fun k v => it_pending_pass_parent _ _ _ _ _ k v Hinv Hlt) as Hp.
  destruct (above_prevKey prev pk) eqn:Ha.
  - simpl. split_and!; [done|done|unfold it_size; simpl; lia|]. intros k v. rewrite Hp. naive_solver.
  - assert (prev = Some pk) as ->.
    { destruct prev as [q|]; [|done]. apply bool_decide_eq_false in Ha. rewrite klt_nge in Ha.
      f_equal. apply (anti_symm kle); [|by apply dec_stable].
      apply (it_inv_prev_parent _ Hinv q (pk, pv) eq_refl), list_elem_of_here. }
    eapply next_ok_skip; [| |apply IH; [exact Hinv'|unfold it_size; simpl; lia]].
    + unfold it_size; simpl; lia.
    + intros k v. rewrite Hp. naive_solver.
Qed.

Lemma iterNext_spec fuel it : it_inv it -> (it_size it < fuel)%nat -> next_ok it (iterNext fuel it).
Proof.
  revert it. induction fuel as [|fuel IH]; intros [p m prev] Hinv Hsz; [lia|].
  unfold it_size in Hsz. simpl in Hsz.
  destruct m as [|[mk mv] m].
  - destruct p as [|[pk pv] p]; simpl.
    + intros k v [_ [Hin|[Hin _]]]; by apply not_elem_of_nil in Hin.
    + apply iterNext_parent; [done|done|simpl in *; lia|]. intros e He. by apply not_elem_of_nil in He.
  - destruct p as [|[pk pv] p]; cbn [iterNext it_map it_parent it_prevKey].
    + apply iterNext_map; [done|done|simpl in *; lia|]. intros e He. by apply not_elem_of_nil in He.
    + pose proof (entries_sorted_cons _ _ (it_inv_parent _ Hinv)) as [_ Hp].
      pose proof (entries_sorted_cons _ _ (it_inv_map _ Hinv)) as [_ Hm]. simpl in Hp, Hm.
      case_bool_decide as Hle.
      * apply iterNext_map; [done|done|simpl in *; lia|].
        intros e He. apply elem_of_cons in He as [->|He]; [done|]. etrans; [done|]. by apply Hp.
      * apply klt_nge in Hle. apply iterNext_parent; [done|done|simpl in *; lia|].
        intros e He. apply elem_of_cons in He as [->|He]; [done|]. eapply klt_trans; [done|]. by apply Hm.
Qed.

Lemma iterCollect_spec fuel it :
  it_inv it -> (it_size it < fuel)%nat ->
  entries_sorted (iterCollect fuel it) /\
  forall k v, (k, v) ∈ iterCollect fuel it <-> it_pending it k v.
Proof.
  revert it. induction fuel as [|fuel IH]; intros it Hinv Hsz; [lia|]. cbn [iterCollect].
  pose proof (iterNext_spec (Datatypes.S (it_size it)) it Hinv ltac:(lia)) as Hok.
  destruct (iterNext _ it) as [[e|] it']; simpl in Hok.
  - destruct Hok as (Hinv' & Hprev & Hsz' & Hp). destruct (IH it' Hinv' ltac:(lia)) as [Hs Hin].
    split.
    + constructor; [done|]. apply Forall_forall. intros [k v] He. apply Hin in He as [Hk _].
      by apply Hk.
    + intros k v. by rewrite elem_of_cons, Hin, Hp.
  - split; [constructor|]. intros k v. split; [intros He; by apply not_elem_of_nil in He|].
    intros He. by apply Hok in He.
Qed.

Lemma iterSeek_inv s key : it_inv (iterSeek s key).
Proof.
  split; simpl; try done.
  - apply entries_sorted_filter, sorted_entries_sorted.
  - rewrite sIterate_view. apply entries_sorted_filter, sorted_entries_sorted.
Qed.

Lemma iterSeek_pending s key k v :
  it_pending (iterSeek s key) k v <-> kle key k /\ fs_view s !! k = Some v.
Proof.
  unfold it_pending. simpl. rewrite sIterate_view. unfold seek_entries.
  setoid_rewrite list_elem_of_filter. setoid_rewrite elem_of_sorted_entries. simpl.
  rewrite lookup_fs_view. destruct (fs_changed s !! k) as [o|] eqn:E; simpl; naive_solver.
Qed.

Lemma fsIterate_view s key : fsIterate s key = seek_entries key (sorted_entries (fs_view s)).
Proof.
  destruct (iterCollect_spec (Datatypes.S (it_size (iterSeek s key))) (iterSeek s key)) as [Hs Hin];
    [apply iterSeek_inv|lia|].
  apply entries_sorted_ext.
  - exact Hs.
  - apply entries_sorted_filter, sorted_entries_sorted.
  - intros [k v]. unfold seek_entries. rewrite list_elem_of_filter, elem_of_sorted_entries.
    etrans; [apply Hin|]. apply iterSeek_pending.
Qed.

Lemma fsRead_view s k : fsRead s k = fs_view s !! k.
Proof.
  rewrite lookup_fs_view. unfold fsRead. by destruct (fs_changed s !! k); [|rewrite sRead_view].
Qed.

Lemma fsExists_view s k : fsExists s k = bool_decide (is_Some (fs_view s !! k)).
Proof.
  rewrite lookup_fs_view. unfold fsExists.
  destruct (fs_changed s !! k) as [[|]|]; simpl; [done..|by rewrite sExists_view].
Qed.

Lemma fsWrite_view s k v : fs_view (fsWrite s k v).1 = <[k := v]> (fs_view s).
Proof. apply fs_view_changed. Qed.

Lemma fsErase_view s k : fs_view (fsErase s k).1 = delete k (fs_view s).
Proof. apply fs_view_changed. Qed.

(** Caches can be stacked: the cache of a storage that keeps the contract
    keeps it too. *)
#[export] Instance flushable_StorageKVLaws : StorageKVLaws (CFlushableStorageKV St K V) K V.
Proof.
  refine {| view := fs_view |}.
  - apply fsRead_view.
  - apply fsExists_view.
  - intros s k v s' b [= <- <-]. split; [done|]. apply fs_view_changed.
  - intros s k s' b [= <- <-]. split; [done|]. apply fs_view_changed.
  - apply fsIterate_view.
Defined.

(** C8: refinement of the storage contract.  A CFlushableStorageKV over any
    storage that keeps the contract answers Read and Exists as the map
    "changes over parent", Write and Erase update that map and always report
    success, and the Seek/Next iterator visits exactly the entries of the map
    whose key is not below the sought key, once each, in ascending key order
    (deleted entries of the parent skipped, overwritten ones shown once). *)
Theorem CFlushableStorageKV_refines s k v :
  fsRead s k = fs_view s !! k /\
  fsExists s k = bool_decide (is_Some (fs_view s !! k)) /\
  (fsWrite s k v).2 = true /\ fs_view (fsWrite s k v).1 = <[k := v]> (fs_view s) /\
  (fsErase s k).2 = true /\ fs_view (fsErase s k).1 = delete k (fs_view s) /\
  fsIterate s k = seek_entries k (sorted_entries (fs_view s)).
Proof.
  split_and!; auto using fsRead_view, fsExists_view, fsWrite_view, fsErase_view, fsIterate_view.
Qed.

(** Flush always succeeds over such a storage, empties the cache and
    leaves the parent with exactly the view the cache had; the view itself is
    unchanged. *)
Theorem CFlushableStorageKV_Flush s :
  exists s', fsFlush s = (s', true) /\ fs_changed s' = ∅ /\
    view (fs_db s') = fs_view s /\ fs_view s' = fs_view s.
Proof.
  unfold fsFlush.
  destruct (flush_entries_spec (sorted_entries (fs_changed s)) (fs_db s)) as (db' & -> & Hdb').
  { rewrite sorted_entries_perm. apply NoDup_fst_map_to_list. }
  rewrite list_to_map_sorted_entries in Hdb'.
  assert (view db' = fs_view s) as Hv.
  { apply map_eq. intros k. by rewrite Hdb', lookup_fs_view. }
  eexists. split_and!; [done|done|done|]. apply map_eq. intros k.
  rewrite lookup_fs_view. simpl. by rewrite lookup_empty, Hv.
Qed.
End FlushableLaws.
