(* ===== verification/Params.v ===== *)
(** * Consensus parameters, amounts and the transaction data
    (src/src/consensus/params.h, src/src/amount.h,
    src/src/primitives/transaction.h, src/src/script/standard.h)

    The getters of Consensus::Params that betting uses, with the field each
    of them reads, and the parts of the transaction classes betting looks at.
    A uint256 is the integer its 32 bytes spell most significant byte first,
    so that the comparison of integers is memcmp. *)

From S2P Require Import Prelude.

(** ** Amounts (amount.h) *)
Definition COIN : Z := 100000000.

Definition MAX_MONEY : Z := 398360470 * COIN.

Definition MoneyRange (nValue : Z) : bool := (0 <=? nValue) && (nValue <=? MAX_MONEY).

(** ** Consensus::Params: the fields of the betting protocol *)
Record ConsensusParams := {
  nWagerrProtocolV1StartHeight : Z;
  nWagerrProtocolV2StartHeight : Z;
  nWagerrProtocolV3StartHeight : Z;
  nWagerrProtocolV4StartHeight : Z;
  nWagerrProtocolV5StartHeight : Z;
  nQuickGamesEndHeight : Z;
  nBetBlocksIndexTimespanV2 : Z;
  nBetBlocksIndexTimespanV3 : Z;
  nOMNORewardPermille : Z;
  nDevRewardPermille : Z;
  nMinBetPayoutRange : Z;
  nMaxBetPayoutRange : Z;
  nMaxParlayBetPayoutRange : Z;
  nBetPlaceTimeoutBlocks : Z;
  nMaxParlayLegs : Z;
}.

Definition BetBlocksIndexTimespanV2 (p : ConsensusParams) : Z := nBetBlocksIndexTimespanV2 p.
Definition BetBlocksIndexTimespanV3 (p : ConsensusParams) : Z := nBetBlocksIndexTimespanV3 p.
Definition OMNORewardPermille (p : ConsensusParams) : Z := nOMNORewardPermille p.
Definition DevRewardPermille (p : ConsensusParams) : Z := nDevRewardPermille p.
Definition MaxBetPayoutRange (p : ConsensusParams) : Z := nMaxBetPayoutRange p.
Definition MinBetPayoutRange (p : ConsensusParams) : Z := nMinBetPayoutRange p.

(** The getter reads nMaxBetPayoutRange, not nMaxParlayBetPayoutRange. *)
Definition MaxParlayBetPayoutRange (p : ConsensusParams) : Z := nMaxBetPayoutRange p.

Definition BetPlaceTimeoutBlocks (p : ConsensusParams) : Z := nBetPlaceTimeoutBlocks p.
Definition MaxParlayLegs (p : ConsensusParams) : Z := nMaxParlayLegs p.
Definition WagerrProtocolV2StartHeight (p : ConsensusParams) : Z := nWagerrProtocolV2StartHeight p.
Definition WagerrProtocolV3StartHeight (p : ConsensusParams) : Z := nWagerrProtocolV3StartHeight p.
Definition WagerrProtocolV4StartHeight (p : ConsensusParams) : Z := nWagerrProtocolV4StartHeight p.
Definition QuickGamesEndHeight (p : ConsensusParams) : Z := nQuickGamesEndHeight p.

Definition GetWBPVersion (p : ConsensusParams) (nHeight : Z) : Z :=
  if nWagerrProtocolV5StartHeight p <=? nHeight then 5
  else if nWagerrProtocolV4StartHeight p <=? nHeight then 4
  else if nWagerrProtocolV3StartHeight p <=? nHeight then 3
  else if nWagerrProtocolV2StartHeight p <=? nHeight then 2
  else if nWagerrProtocolV1StartHeight p <=? nHeight then 1 else 0.

(** The main network's values (chainparams.cpp, CMainParams); the activation
    height of v5 is V18DeploymentHeight. *)
Definition main_params (V18DeploymentHeight : Z) : ConsensusParams := {|
  nWagerrProtocolV1StartHeight := 298386;
  nWagerrProtocolV2StartHeight := 763350;
  nWagerrProtocolV3StartHeight := 1501000;
  nWagerrProtocolV4StartHeight := 2147483647;
  nWagerrProtocolV5StartHeight := V18DeploymentHeight;
  nQuickGamesEndHeight := 1501000;
  nBetBlocksIndexTimespanV2 := 23040;
  nBetBlocksIndexTimespanV3 := 90050;
  nOMNORewardPermille := 24;
  nDevRewardPermille := 6;
  nMinBetPayoutRange := 25;
  nMaxBetPayoutRange := 10000;
  nMaxParlayBetPayoutRange := 4000;
  nBetPlaceTimeoutBlocks := 120;
  nMaxParlayLegs := 5;
|}.

(** ** Transactions *)
Definition uint256 : Type := Z.

Record COutPoint := { op_hash : uint256; op_n : Z }.

Definition NULL_INDEX : Z := 4294967295.

(** The default constructor: a zero hash and the null index. *)
Definition COutPoint_null : COutPoint := {| op_hash := 0; op_n := NULL_INDEX |}.

(** The type of a transaction that is not special. *)
Definition TRANSACTION_NORMAL : Z := 0.

Record CTxOut := { nValue : Z; scriptPubKey : list Z }.

Record CTransaction := {
  tx_hash : uint256;
  tx_vin : list COutPoint;
  tx_vout : list CTxOut;
}.

Inductive CTxDestination :=
  | CNoDestination
  | CKeyID (h : Z)
  | CScriptID (h : Z).

#[export] Instance COutPoint_eq_dec : EqDecision COutPoint.
Proof. solve_decision. Defined.

#[export] Instance COutPoint_countable : Countable COutPoint.
Proof.
  refine (inj_countable' (fun o => (op_hash o, op_n o))
            (fun '(h, n) => {| op_hash := h; op_n := n |}) _).
  by intros [].
Defined.

#[export] Instance CTxOut_eq_dec : EqDecision CTxOut.
Proof. solve_decision. Defined.

#[export] Instance CTxDestination_eq_dec : EqDecision CTxDestination.
Proof. solve_decision. Defined.
