(* ===== verification/BetDB.v ===== *)
(** * The records of the betting databases
    (src/src/betting/bet_common.h, src/src/betting/bet_db.h and the
    CFieldEventDB and CMappingDB methods of src/src/betting/bet_db.cpp)

    Enumerations whose values come from the wire by a cast ((OutcomeType) x)
    are kept as integers and decoded by an [_of] function where the source
    switches on them: [None] is the switch's default.  The calculation of the
    odds of field events (CalcOdds) has its own file, [FieldOdds]. *)

From S2P Require Import Prelude Params BetTx.

(** ** Enumerations and constants of bet_common.h *)
Definition BET_ODDSDIVISOR : Z := 10000.
Definition BET_MAXODDS : Z := 99 * BET_ODDSDIVISOR.
Definition BET_MINODDS : Z := BET_ODDSDIVISOR.
Definition BET_BURNXPERMILLE : Z := 60.

Inductive OutcomeType :=
  | moneyLineHomeWin | moneyLineAwayWin | moneyLineDraw
  | spreadHome | spreadAway | totalOver | totalUnder.

Definition OutcomeType_of (z : Z) : option OutcomeType :=
  match z with
  | 0x01 => Some moneyLineHomeWin
  | 0x02 => Some moneyLineAwayWin
  | 0x03 => Some moneyLineDraw
  | 0x04 => Some spreadHome
  | 0x05 => Some spreadAway
  | 0x06 => Some totalOver
  | 0x07 => Some totalUnder
  | _ => None
  end.

Inductive ResultType :=
  | standardResult | eventRefund | mlRefund | spreadsRefund | totalsRefund | eventClosed.

Definition ResultType_value (t : ResultType) : Z :=
  match t with
  | standardResult => 0x01
  | eventRefund => 0x02
  | mlRefund => 0x03
  | spreadsRefund => 0x04
  | totalsRefund => 0x05
  | eventClosed => 0x06
  end.

Inductive ContenderResult := DNF | place1 | place2 | place3 | DNR.

Definition ContenderResult_value (r : ContenderResult) : Z :=
  match r with DNF => 0 | place1 => 1 | place2 => 2 | place3 => 3 | DNR => 101 end.

Inductive FieldBetOutcomeType := outright | place | show.

Definition FieldBetOutcomeType_value (t : FieldBetOutcomeType) : Z :=
  match t with outright => 1 | place => 2 | show => 3 end.

Definition FieldBetOutcomeType_of (z : Z) : option FieldBetOutcomeType :=
  match z with
  | 0x01 => Some outright
  | 0x02 => Some place
  | 0x03 => Some show
  | _ => None
  end.

Inductive MappingType :=
  | sportMapping | roundMapping | teamMapping | tournamentMapping
  | individualSportMapping | contenderMapping.

Definition MappingType_value (t : MappingType) : Z :=
  match t with
  | sportMapping => 0x01
  | roundMapping => 0x02
  | teamMapping => 0x03
  | tournamentMapping => 0x04
  | individualSportMapping => 0x05
  | contenderMapping => 0x06
  end.

Inductive FieldEventGroupType := other | animalRacing.

Definition FieldEventGroupType_value (t : FieldEventGroupType) : Z :=
  match t with other => 0x01 | animalRacing => 0x02 end.

Inductive FieldEventMarketType := all_markets | outrightOnly.

Definition FieldEventMarketType_value (t : FieldEventMarketType) : Z :=
  match t with all_markets => 0x01 | outrightOnly => 0x02 end.

Inductive PayoutType :=
  | bettingPayout | bettingRefund | bettingReward
  | chainGamesPayout | chainGamesRefund | chainGamesReward
  | quickGamesPayout | quickGamesRefund | quickGamesReward.

Definition PayoutType_value (t : PayoutType) : Z :=
  match t with
  | bettingPayout => 0x01
  | bettingRefund => 0x02
  | bettingReward => 0x03
  | chainGamesPayout => 0x04
  | chainGamesRefund => 0x05
  | chainGamesReward => 0x06
  | quickGamesPayout => 0x07
  | quickGamesRefund => 0x08
  | quickGamesReward => 0x09
  end.

Inductive BetResultType :=
  | betResultUnknown | betResultWin | betResultLose
  | betResultRefund | betResultPartialWin | betResultPartialLose.

Definition BetResultType_value (t : BetResultType) : Z :=
  match t with
  | betResultUnknown => 0x00
  | betResultWin => 0x01
  | betResultLose => 0x02
  | betResultRefund => 0x03
  | betResultPartialWin => 0x04
  | betResultPartialLose => 0x05
  end.

#[export] Instance OutcomeType_eq_dec : EqDecision OutcomeType.
Proof. solve_decision. Defined.
#[export] Instance PayoutType_eq_dec : EqDecision PayoutType.
Proof. solve_decision. Defined.
#[export] Instance BetResultType_eq_dec : EqDecision BetResultType.
Proof. solve_decision. Defined.

(** ** Mappings *)
Record MappingKey := { mk_nMType : Z; mk_nId : Z }.

#[export] Instance MappingKey_eq_dec : EqDecision MappingKey.
Proof. solve_decision. Defined.

#[export] Instance MappingKey_countable : Countable MappingKey.
Proof.
  refine (inj_countable' (fun k => (mk_nMType k, mk_nId k)) (fun '(t, i) => Build_MappingKey t i) _).
  by intros [].
Defined.

#[export] Instance MappingKey_key_seq : KeySeq MappingKey := fun k => [mk_nMType k; mk_nId k].

#[export] Instance MappingKey_key_seq_inj : KeySeqInj MappingKey.
Proof. by intros [] [] [=-> ->]. Qed.

Record CMappingDB := { mdb_sName : list Z }.

Definition ToTypeName (type : Z) : string :=
  match type with
  | 0x01 => "sports"
  | 0x02 => "rounds"
  | 0x03 => "teamnames"
  | 0x04 => "tournaments"
  | 0x05 => "individualSports"
  | 0x06 => "contenders"
  | _ => ""
  end.

Definition FromTypeName (name : string) : Z :=
  if String.eqb name (ToTypeName (MappingType_value sportMapping)) then 0x01
  else if String.eqb name (ToTypeName (MappingType_value roundMapping)) then 0x02
  else if String.eqb name (ToTypeName (MappingType_value teamMapping)) then 0x03
  else if String.eqb name (ToTypeName (MappingType_value tournamentMapping)) then 0x04
  else if String.eqb name (ToTypeName (MappingType_value individualSportMapping)) then 0x05
  else if String.eqb name (ToTypeName (MappingType_value contenderMapping)) then 0x06
  else -1.

(** ** Peerless events and results *)
Record CPeerlessBaseEventDB := {
  be_nEventId : Z;
  be_nStartTime : Z;
  be_nSport : Z;
  be_nTournament : Z;
  be_nStage : Z;
  be_nHomeTeam : Z;
  be_nAwayTeam : Z;
  be_nHomeOdds : Z;
  be_nAwayOdds : Z;
  be_nDrawOdds : Z;
  be_nSpreadPoints : Z;
  be_nSpreadHomeOdds : Z;
  be_nSpreadAwayOdds : Z;
  be_nTotalPoints : Z;
  be_nTotalOverOdds : Z;
  be_nTotalUnderOdds : Z;
  be_nEventCreationHeight : Z;
  be_fLegacyInitialHomeFavorite : bool;
}.

#[export] Instance CPeerlessBaseEventDB_eta : Settable CPeerlessBaseEventDB := fun r =>
  Build_CPeerlessBaseEventDB (be_nEventId r) (be_nStartTime r) (be_nSport r) (be_nTournament r)
    (be_nStage r) (be_nHomeTeam r) (be_nAwayTeam r) (be_nHomeOdds r) (be_nAwayOdds r)
    (be_nDrawOdds r) (be_nSpreadPoints r) (be_nSpreadHomeOdds r) (be_nSpreadAwayOdds r)
    (be_nTotalPoints r) (be_nTotalOverOdds r) (be_nTotalUnderOdds r)
    (be_nEventCreationHeight r) (be_fLegacyInitialHomeFavorite r).

Definition CPeerlessBaseEventDB_init : CPeerlessBaseEventDB :=
  Build_CPeerlessBaseEventDB 0 0 0 0 0 0 0 0 0 0 0 0 0 0 0 0 0 true.

Record CPeerlessExtendedEventDB := {
  ee_base :> CPeerlessBaseEventDB;
  ee_nMoneyLineHomePotentialLiability : Z;
  ee_nMoneyLineAwayPotentialLiability : Z;
  ee_nMoneyLineDrawPotentialLiability : Z;
  ee_nSpreadHomePotentialLiability : Z;
  ee_nSpreadAwayPotentialLiability : Z;
  ee_nSpreadPushPotentialLiability : Z;
  ee_nTotalOverPotentialLiability : Z;
  ee_nTotalUnderPotentialLiability : Z;
  ee_nTotalPushPotentialLiability : Z;
  ee_nMoneyLineHomeBets : Z;
  ee_nMoneyLineAwayBets : Z;
  ee_nMoneyLineDrawBets : Z;
  ee_nSpreadHomeBets : Z;
  ee_nSpreadAwayBets : Z;
  ee_nSpreadPushBets : Z;
  ee_nTotalOverBets : Z;
  ee_nTotalUnderBets : Z;
  ee_nTotalPushBets : Z;
}.

#[export] Instance CPeerlessExtendedEventDB_eta : Settable CPeerlessExtendedEventDB := fun r =>
  Build_CPeerlessExtendedEventDB (ee_base r)
    (ee_nMoneyLineHomePotentialLiability r) (ee_nMoneyLineAwayPotentialLiability r)
    (ee_nMoneyLineDrawPotentialLiability r) (ee_nSpreadHomePotentialLiability r)
    (ee_nSpreadAwayPotentialLiability r) (ee_nSpreadPushPotentialLiability r)
    (ee_nTotalOverPotentialLiability r) (ee_nTotalUnderPotentialLiability r)
    (ee_nTotalPushPotentialLiability r)
    (ee_nMoneyLineHomeBets r) (ee_nMoneyLineAwayBets r) (ee_nMoneyLineDrawBets r)
    (ee_nSpreadHomeBets r) (ee_nSpreadAwayBets r) (ee_nSpreadPushBets r)
    (ee_nTotalOverBets r) (ee_nTotalUnderBets r) (ee_nTotalPushBets r).

Definition CPeerlessExtendedEventDB_init : CPeerlessExtendedEventDB :=
  Build_CPeerlessExtendedEventDB CPeerlessBaseEventDB_init 0 0 0 0 0 0 0 0 0 0 0 0 0 0 0 0 0 0.

(** The five overloads of ExtractDataFromTx. *)
Definition ExtractEvent (e : CPeerlessBaseEventDB) (tx : CPeerlessEventTx) : CPeerlessBaseEventDB :=
  e <| be_nEventId := pe_nEventId tx |>
    <| be_nStartTime := pe_nStartTime tx |>
    <| be_nSport := pe_nSport tx |>
    <| be_nTournament := pe_nTournament tx |>
    <| be_nStage := pe_nStage tx |>
    <| be_nHomeTeam := pe_nHomeTeam tx |>
    <| be_nAwayTeam := pe_nAwayTeam tx |>
    <| be_nHomeOdds := pe_nHomeOdds tx |>
    <| be_nAwayOdds := pe_nAwayOdds tx |>
    <| be_nDrawOdds := pe_nDrawOdds tx |>.

Definition ExtractUpdateOdds (e : CPeerlessBaseEventDB) (tx : CPeerlessUpdateOddsTx) :
    CPeerlessBaseEventDB :=
  e <| be_nHomeOdds := puo_nHomeOdds tx |>
    <| be_nAwayOdds := puo_nAwayOdds tx |>
    <| be_nDrawOdds := puo_nDrawOdds tx |>.

Definition ExtractSpreads (e : CPeerlessBaseEventDB) (tx : CPeerlessSpreadsEventTx) :
    CPeerlessBaseEventDB :=
  e <| be_nSpreadPoints := pse_nPoints tx |>
    <| be_nSpreadHomeOdds := pse_nHomeOdds tx |>
    <| be_nSpreadAwayOdds := pse_nAwayOdds tx |>.

Definition ExtractTotals (e : CPeerlessBaseEventDB) (tx : CPeerlessTotalsEventTx) :
    CPeerlessBaseEventDB :=
  e <| be_nTotalPoints := pte_nPoints tx |>
    <| be_nTotalOverOdds := pte_nOverOdds tx |>
    <| be_nTotalUnderOdds := pte_nUnderOdds tx |>.

Definition ExtractPatch (e : CPeerlessBaseEventDB) (tx : CPeerlessEventPatchTx) :
    CPeerlessBaseEventDB :=
  e <| be_nStartTime := pep_nStartTime tx |>.

Record CPeerlessResultDB := {
  rs_nEventId : Z; rs_nResultType : Z; rs_nHomeScore : Z; rs_nAwayScore : Z }.

(** ** Field events and results *)
Record ContenderInfo := {
  ci_nInputOdds : Z;
  ci_nOutrightOdds : Z;
  ci_nOutrightBets : Z;
  ci_nOutrightPotentialLiability : Z;
  ci_nPlaceOdds : Z;
  ci_nPlaceBets : Z;
  ci_nPlacePotentialLiability : Z;
  ci_nShowOdds : Z;
  ci_nShowBets : Z;
  ci_nShowPotentialLiability : Z;
  ci_nModifier : Z;
}.

#[export] Instance ContenderInfo_eta : Settable ContenderInfo := fun r =>
  Build_ContenderInfo (ci_nInputOdds r) (ci_nOutrightOdds r) (ci_nOutrightBets r)
    (ci_nOutrightPotentialLiability r) (ci_nPlaceOdds r) (ci_nPlaceBets r)
    (ci_nPlacePotentialLiability r) (ci_nShowOdds r) (ci_nShowBets r)
    (ci_nShowPotentialLiability r) (ci_nModifier r).

Definition ContenderInfo_init : ContenderInfo := Build_ContenderInfo 0 0 0 0 0 0 0 0 0 0 0.

Definition ContenderInfo_new (inputOdds outrightOdds placeOdds showOdds modifier : Z) : ContenderInfo :=
  Build_ContenderInfo inputOdds outrightOdds 0 0 placeOdds 0 0 showOdds 0 0 modifier.

Record CFieldEventDB := {
  fev_nEventId : Z;
  fev_nStartTime : Z;
  fev_nGroupType : Z;
  fev_nMarketType : Z;
  fev_nSport : Z;
  fev_nTournament : Z;
  fev_nStage : Z;
  fev_nMarginPercent : Z;
  fev_contenders : gmap Z ContenderInfo;
}.

#[export] Instance CFieldEventDB_eta : Settable CFieldEventDB := fun r =>
  Build_CFieldEventDB (fev_nEventId r) (fev_nStartTime r) (fev_nGroupType r) (fev_nMarketType r)
    (fev_nSport r) (fev_nTournament r) (fev_nStage r) (fev_nMarginPercent r) (fev_contenders r).

Definition CFieldEventDB_init : CFieldEventDB := Build_CFieldEventDB 0 0 0 0 0 0 0 0 ∅.

(** contenders[id] of std::map: a default value is inserted when absent. *)
Definition contender (m : gmap Z ContenderInfo) (id : Z) : ContenderInfo :=
  default ContenderInfo_init (m !! id).

Definition upd_contender (f : ContenderInfo -> ContenderInfo) (id : Z) (e : CFieldEventDB) :
    CFieldEventDB :=
  e <| fev_contenders ::= fun m => <[id := f (contender m id)]> m |>.

Definition NoneZeroOddsContendersCount (e : CFieldEventDB) : Z :=
  u32 (foldl (fun n c => if ci_nInputOdds (c.2) =? 0 then n else n + 1) 0
         (sorted_entries (fev_contenders e))).

Definition IsMarketOpen (e : CFieldEventDB) (type : Z) : bool :=
  let contendersCount := NoneZeroOddsContendersCount e in
  match FieldBetOutcomeType_of type with
  | Some outright => true
  | Some show =>
      negb ((fev_nMarketType e =? FieldEventMarketType_value outrightOnly) || (contendersCount <? 8))
  | Some place =>
      negb ((fev_nMarketType e =? FieldEventMarketType_value outrightOnly) || (contendersCount <? 5))
  | None => false
  end.

(** The four overloads of CFieldEventDB::ExtractDataFromTx. *)
Definition ExtractFieldEvent (e : CFieldEventDB) (tx : CFieldEventTx) : CFieldEventDB :=
  foldl (fun e '(id, odds) =>
           e <| fev_contenders ::= <[id := ContenderInfo_new odds 0 0 0 0]> |>)
    (e <| fev_nEventId := fe_nEventId tx |>
       <| fev_nStartTime := fe_nStartTime tx |>
       <| fev_nSport := fe_nSport tx |>
       <| fev_nTournament := fe_nTournament tx |>
       <| fev_nStage := fe_nStage tx |>
       <| fev_nGroupType := fe_nGroupType tx |>
       <| fev_nMarketType := fe_nMarketType tx |>
       <| fev_nMarginPercent := fe_nMarginPercent tx |>)
    (sorted_entries (fe_mContendersInputOdds tx)).

Definition ExtractFieldUpdateOdds (e : CFieldEventDB) (tx : CFieldUpdateOddsTx) : CFieldEventDB :=
  foldl (fun e '(id, odds) =>
           upd_contender (fun c => c <| ci_nInputOdds := odds |> <| ci_nOutrightOdds := 0 |>
                                     <| ci_nPlaceOdds := 0 |> <| ci_nShowOdds := 0 |>) id e)
    e (sorted_entries (fuo_mContendersInputOdds tx)).

Definition ExtractFieldUpdateMargin (e : CFieldEventDB) (tx : CFieldUpdateMarginTx) : CFieldEventDB :=
  e <| fev_nMarginPercent := fumg_nMarginPercent tx |>.

Definition ExtractFieldUpdateModifiers (e : CFieldEventDB) (tx : CFieldUpdateModifiersTx) :
    CFieldEventDB :=
  foldl (fun e '(id, m) => upd_contender (fun c => c <| ci_nModifier := m |>) id e)
    e (sorted_entries (fum_mContendersModifires tx)).

Record CFieldResultDB := {
  frs_nEventId : Z; frs_nResultType : Z; frs_contendersResults : gmap Z Z }.

(** ** Bets *)
Record PeerlessBetKey := { bk_blockHeight : Z; bk_outPoint : COutPoint }.

#[export] Instance PeerlessBetKey_eq_dec : EqDecision PeerlessBetKey.
Proof. solve_decision. Defined.

#[export] Instance PeerlessBetKey_countable : Countable PeerlessBetKey.
Proof.
  refine (inj_countable' (fun k => (bk_blockHeight k, bk_outPoint k))
            (fun '(h, o) => Build_PeerlessBetKey h o) _).
  by intros [].
Defined.

Record CPeerlessLegDB := { leg_nEventId : Z; leg_nOutcome : Z }.

Record CPeerlessBetDB := {
  bet_betAmount : Z;
  bet_playerAddress : CTxDestination;
  bet_legs : list CPeerlessLegDB;
  bet_lockedEvents : list CPeerlessBaseEventDB;
  bet_betTime : Z;
  bet_completed : bool;
  bet_resultType : BetResultType;
  bet_payout : Z;
  bet_payoutHeight : Z;
}.

#[export] Instance CPeerlessBetDB_eta : Settable CPeerlessBetDB := fun r =>
  Build_CPeerlessBetDB (bet_betAmount r) (bet_playerAddress r) (bet_legs r) (bet_lockedEvents r)
    (bet_betTime r) (bet_completed r) (bet_resultType r) (bet_payout r) (bet_payoutHeight r).

Definition CPeerlessBetDB_new (amount : Z) (address : CTxDestination) (vLegs : list CPeerlessLegDB)
    (vEvents : list CPeerlessBaseEventDB) (time : Z) : CPeerlessBetDB :=
  Build_CPeerlessBetDB amount address vLegs vEvents time false betResultUnknown 0 0.

Record CFieldLegDB := { fleg_nEventId : Z; fleg_nOutcome : Z; fleg_nContenderId : Z }.

Record CFieldBetDB := {
  fbet_betAmount : Z;
  fbet_playerAddress : CTxDestination;
  fbet_legs : list CFieldLegDB;
  fbet_lockedEvents : list CFieldEventDB;
  fbet_betTime : Z;
  fbet_completed : bool;
  fbet_resultType : BetResultType;
  fbet_payout : Z;
  fbet_payoutHeight : Z;
}.

#[export] Instance CFieldBetDB_eta : Settable CFieldBetDB := fun r =>
  Build_CFieldBetDB (fbet_betAmount r) (fbet_playerAddress r) (fbet_legs r) (fbet_lockedEvents r)
    (fbet_betTime r) (fbet_completed r) (fbet_resultType r) (fbet_payout r) (fbet_payoutHeight r).

Definition CFieldBetDB_new (amount : Z) (address : CTxDestination) (vLegs : list CFieldLegDB)
    (vEvents : list CFieldEventDB) (time : Z) : CFieldBetDB :=
  Build_CFieldBetDB amount address vLegs vEvents time false betResultUnknown 0 0.

(** ** Chain games and quick games *)
Record CChainGamesEventDB := { cgev_nEventId : Z; cgev_nEntryFee : Z }.

Record CChainGamesBetDB := {
  cgbet_nEventId : Z;
  cgbet_betAmount : Z;
  cgbet_playerAddress : CTxDestination;
  cgbet_betTime : Z;
  cgbet_completed : bool;
  cgbet_payout : Z;
  cgbet_payoutHeight : Z;
}.

#[export] Instance CChainGamesBetDB_eta : Settable CChainGamesBetDB := fun r =>
  Build_CChainGamesBetDB (cgbet_nEventId r) (cgbet_betAmount r) (cgbet_playerAddress r)
    (cgbet_betTime r) (cgbet_completed r) (cgbet_payout r) (cgbet_payoutHeight r).

Definition CChainGamesBetDB_new (eventId amount : Z) (address : CTxDestination) (time : Z) :
    CChainGamesBetDB :=
  Build_CChainGamesBetDB eventId amount address time false 0 0.

Record CChainGamesResultDB := { cgres_nEventId : Z }.

Record CQuickGamesBetDB := {
  qgbet_gameType : Z;
  qgbet_vBetInfo : list Z;
  qgbet_betAmount : Z;
  qgbet_playerAddress : CTxDestination;
  qgbet_betTime : Z;
  qgbet_resultType : BetResultType;
  qgbet_payout : Z;
  qgbet_completed : bool;
}.

#[export] Instance CQuickGamesBetDB_eta : Settable CQuickGamesBetDB := fun r =>
  Build_CQuickGamesBetDB (qgbet_gameType r) (qgbet_vBetInfo r) (qgbet_betAmount r)
    (qgbet_playerAddress r) (qgbet_betTime r) (qgbet_resultType r) (qgbet_payout r)
    (qgbet_completed r).

Definition CQuickGamesBetDB_new (gameType : Z) (vBetInfo : list Z) (betAmount : Z)
    (playerAddress : CTxDestination) (betTime : Z) : CQuickGamesBetDB :=
  Build_CQuickGamesBetDB gameType vBetInfo betAmount playerAddress betTime betResultUnknown 0 false.

(** ** Undo and payout information *)
Inductive BettingUndoVariant :=
  | UndoPeerlessEvent (event : CPeerlessExtendedEventDB)
  | UndoFieldEvent (event : CFieldEventDB).

Record CBettingUndoDB := { undo_variant : BettingUndoVariant; undo_height : Z }.

Record CPayoutInfoDB := { pi_betKey : PeerlessBetKey; pi_payoutType : PayoutType }.

#[export] Instance CPayoutInfoDB_eq_dec : EqDecision CPayoutInfoDB.
Proof. solve_decision. Defined.

(** COutPoint::operator<. *)
Definition COutPoint_lt (a b : COutPoint) : bool :=
  (op_hash a <? op_hash b) || ((op_hash a =? op_hash b) && (op_n a <? op_n b)).

Definition CPayoutInfoDB_CompareTo (l r : CPayoutInfoDB) : Z :=
  if bk_blockHeight (pi_betKey l) <? bk_blockHeight (pi_betKey r) then -1
  else if bk_blockHeight (pi_betKey r) <? bk_blockHeight (pi_betKey l) then 1
  else if COutPoint_lt (bk_outPoint (pi_betKey l)) (bk_outPoint (pi_betKey r)) then -1
  else if negb (bool_decide (bk_outPoint (pi_betKey l) = bk_outPoint (pi_betKey r))) then 1
  else if PayoutType_value (pi_payoutType l) <? PayoutType_value (pi_payoutType r) then -1
  else if PayoutType_value (pi_payoutType r) <? PayoutType_value (pi_payoutType l) then 1
  else 0.
