(* ===== verification/Double.v ===== *)
(** * Double precision arithmetic

    The type double of the source: IEEE 754 binary64, every operation rounded
    to nearest, ties to even (no extended precision, no contraction).  The
    operations are those of the Standard Library's SpecFloat, which compute;
    [dround] is C's round (half away from zero) and [dtrunc] the truncation of
    a conversion to an integer type. *)

From S2P Require Import Prelude.
From Stdlib Require Import SpecFloat.

Abbreviation double := spec_float.

Definition dadd : double -> double -> double := SFadd 53 1024.
Definition dsub : double -> double -> double := SFsub 53 1024.
Definition dmul : double -> double -> double := SFmul 53 1024.
Definition ddiv : double -> double -> double := SFdiv 53 1024.

(** The conversion of an integer. *)
Definition dZ (n : Z) : double := binary_normalize 53 1024 n 0 false.

(** The literal n / 10^k: both are exact, so the quotient is the nearest
    double. *)
Definition dlit (n : Z) (k : Z) : double := ddiv (dZ n) (dZ (10 ^ k)).

Declare Scope double_scope.
Delimit Scope double_scope with double.
Infix "+" := dadd : double_scope.
Infix "-" := dsub : double_scope.
Infix "*" := dmul : double_scope.
Infix "/" := ddiv : double_scope.
Infix "<?" := SFltb : double_scope.
Infix "=?" := SFeqb : double_scope.

(** The integer part of m * 2^e, and the nearest integer to it. *)
Definition trunc_mag (m : positive) (e : Z) : Z :=
  if 0 <=? e then Zpos m * 2 ^ e else Zpos m `div` 2 ^ (- e).

Definition round_mag (m : positive) (e : Z) : Z :=
  if 0 <=? e then Zpos m * 2 ^ e else (Zpos m + 2 ^ (- e - 1)) `div` 2 ^ (- e).

Definition dround (x : double) : double :=
  match x with
  | S754_finite s m e => binary_normalize 53 1024 (if s then - round_mag m e else round_mag m e) 0 s
  | _ => x
  end.

(** The value of a conversion to an integer type, before its range is looked
    at; [None] for infinities and NaN. *)
Definition dtrunc (x : double) : option Z :=
  match x with
  | S754_zero _ => Some 0
  | S754_finite s m e => Some (if s then - trunc_mag m e else trunc_mag m e)
  | _ => None
  end.

(** Conversions.  The language leaves the value open when the truncated number
    is not in the range of the type: [open_cast] is what the platform does. *)
Definition double_to_uint32 (open_cast : double -> Z) (x : double) : Z :=
  match dtrunc x with
  | Some n => if (0 <=? n) && (n <? 2 ^ 32) then n else u32 (open_cast x)
  | None => u32 (open_cast x)
  end.

Definition double_to_int64 (open_cast : double -> Z) (x : double) : Z :=
  match dtrunc x with
  | Some n => if (- 2 ^ 63 <=? n) && (n <? 2 ^ 63) then n else i64 (open_cast x)
  | None => i64 (open_cast x)
  end.

Lemma double_to_uint32_range oc x : inU 32 (double_to_uint32 oc x).
Proof.
  unfold double_to_uint32. destruct (dtrunc x) as [n|]; [|apply wrapU_range; lia].
  case_match; [|apply wrapU_range; lia]. unfold inU. lia.
Qed.

(** The literals of the source are the doubles the compiler reads. *)
Example dlit_099 : dlit 99 2 = S754_finite false 8917127262193582 (-53).
Proof. reflexivity. Qed.

Example dround_half : dround (ddiv (dZ 5) (dZ 2)) = dZ 3 /\ dround (ddiv (dZ (-5)) (dZ 2)) = dZ (-3).
Proof. split; reflexivity. Qed.
