(* ===== verification/FieldOdds.v ===== *)
(** * The odds of field events
    (CFieldEventDB::CalcOdds and what it uses, src/src/betting/bet_db.cpp)

    From the input odds of the contenders: fair odds without a margin, outright
    odds with the event's margin, and odds for the place and show markets, all
    in double precision ([Double]).  [pow] is the function of the C library,
    [open_cast] the conversion of values outside of an integer type's range.
    A std::map is traversed in the order of its keys; the maps of odds have the
    keys of the contenders, so that at() finds every key it is called with. *)

From S2P Require Import Prelude BetDB Double.
From Stdlib Require Import SpecFloat.

Definition MODIFIER_DIVISOR : Z := 100.
Definition MARGIN_DIVISOR : Z := 100.

Definition DOUBLE_ODDS (odds : Z) : double := (dZ odds / dZ BET_ODDSDIVISOR)%double.
Definition DOUBLE_MODIFIER (mod_ : Z) : double := (dZ mod_ / dZ MODIFIER_DIVISOR)%double.
Definition DOUBLE_MARGIN (mrg : Z) : double := (dZ mrg / dZ MARGIN_DIVISOR / dZ 100)%double.

Section CalcOdds.
Context (pow : double -> double -> double) (open_cast : double -> Z).

Let to_uint32 := double_to_uint32 open_cast.

(** at() of a std::map. *)
Definition odds_at (m : gmap Z Z) (id : Z) : Z := default 0 (m !! id).

(** ** Fair odds *)

(** The sum of a step of the search, over the contenders with odds. *)
Definition fair_margin (contenders : list (Z * ContenderInfo)) (X : double) : double :=
  foldl (fun stepMargin contender =>
           if ci_nInputOdds (contender.2) =? 0 then stepMargin
           else
             let delim := (DOUBLE_ODDS (ci_nInputOdds (contender.2)) - dZ 1 + X)%double in
             if (delim =? dZ 0)%double then stepMargin else (stepMargin + X / delim)%double)
    (dZ 0) contenders.

(** The next X, cut off at zero. *)
Definition step_X (X delta : double) : double :=
  if (X + delta <? dZ 0)%double then dZ 0 else (X + delta)%double.

(** The step of the search: [up] when the margin is too low, [down] when it
    is too high, nothing when it is equal at five decimals. *)
Definition step_delta (excess down up : double) : double :=
  if (dZ 0 <? excess)%double then down
  else if (dround (excess * dZ 100000) / dZ 100000 =? dZ 0)%double then dZ 0
  else up.

(** The do-while loop: [n] is the number of steps left, 199 from it = 1. *)
Fixpoint search_X (margin : double -> double) (delta : double -> Z -> double) (n : nat) (it : Z) (X : double) : double :=
  match n with
  | O => X
  | Datatypes.S n =>
      let d := delta (margin X) it in
      let X := step_X X d in
      if (d =? dZ 0)%double then X else search_X margin delta n (it + 1) X
  end.

Definition fair_delta (stepMargin : double) (it : Z) : double :=
  (step_delta (stepMargin - dZ 1) (dlit (-99) 2 / dZ it) (dlit 99 2 / dZ it))%double.

Definition fair_X (contenders : list (Z * ContenderInfo)) : double :=
  search_X (fair_margin contenders) fair_delta 199 1 (dZ 1).

Definition fair_odds (X : double) (c : ContenderInfo) : Z :=
  if ci_nInputOdds c =? 0 then 0
  else
    let fairOdds := (dZ 1 / (X / (X + DOUBLE_ODDS (ci_nInputOdds c) - dZ 1)))%double in
    to_uint32 (dround (fairOdds * dZ BET_ODDSDIVISOR)%double).

Definition CalculateFairOdds (e : CFieldEventDB) : gmap Z Z :=
  fair_odds (fair_X (sorted_entries (fev_contenders e))) <$> fev_contenders e.

(** ** Outright odds *)
Definition outright_margin (mContendersFairOdds : gmap Z Z) (contenders : list (Z * ContenderInfo)) (X : double) : double :=
  foldl (fun stepMargin contender =>
           if ci_nInputOdds (contender.2) =? 0 then stepMargin
           else
             let modifier := DOUBLE_MODIFIER (ci_nModifier (contender.2)) in
             let fairOdds := DOUBLE_ODDS (odds_at mContendersFairOdds (contender.1)) in
             let delim := (dZ 1 + (fairOdds - dZ 1) * (X + modifier))%double in
             if (delim =? dZ 0)%double then stepMargin else (stepMargin + dZ 1 / delim)%double)
    (dZ 0) contenders.

Definition outright_delta (margin stepMargin : double) (it : Z) : double :=
  (step_delta (stepMargin - margin) (dlit 99 2 / dZ it) (dlit (-99) 2 / dZ it))%double.

Definition outright_X (e : CFieldEventDB) (mContendersFairOdds : gmap Z Z) : double :=
  search_X (outright_margin mContendersFairOdds (sorted_entries (fev_contenders e)))
    (outright_delta (DOUBLE_MARGIN (fev_nMarginPercent e))) 199 1 (dZ 1).

Definition outright_odds (mContendersFairOdds : gmap Z Z) (X : double) (id : Z) (c : ContenderInfo) : Z :=
  if ci_nInputOdds c =? 0 then 0
  else
    let modifier := DOUBLE_MODIFIER (ci_nModifier c) in
    let fairOdds := DOUBLE_ODDS (odds_at mContendersFairOdds id) in
    let outrightOdds := (dZ 1 + (fairOdds - dZ 1) * (X + modifier))%double in
    to_uint32 (dround (outrightOdds * dZ BET_ODDSDIVISOR)%double).

Definition CalculateOutrightOdds (e : CFieldEventDB) (mContendersFairOdds : gmap Z Z) : gmap Z Z :=
  let X := outright_X e mContendersFairOdds in
  map_imap (fun id c => Some (outright_odds mContendersFairOdds X id c)) (fev_contenders e).

(** ** Place and show, animal racing *)
Definition GetLambda (ContendersSize : Z) : double :=
  match ContendersSize with
  | 3 => dlit 6667 4 | 4 => dlit 6996 4 | 5 => dlit 7207 4 | 6 => dlit 7359 4
  | 7 => dlit 7475 4 | 8 => dlit 7569 4 | 9 => dlit 7648 4 | 10 => dlit 7714 4
  | 11 => dlit 7771 4 | 12 => dlit 7822 4 | 13 => dlit 7867 4 | 14 => dlit 7907 4
  | _ => dlit 76 2
  end.

Definition GetRHO (ContendersSize : Z) : double :=
  match ContendersSize with
  | 4 => dlit 5336 4 | 5 => dlit 5703 4 | 6 => dlit 5952 4 | 7 => dlit 6138 4
  | 8 => dlit 6285 4 | 9 => dlit 6406 4 | 10 => dlit 6508 4 | 11 => dlit 6596 4
  | 12 => dlit 6672 4 | 13 => dlit 6741 4 | 14 => dlit 6802 4
  | _ => dlit 62 2
  end.

Definition prob_of (odds : Z) : double := (dZ 1 / DOUBLE_ODDS odds)%double.

(** The sums of the denominators: the powers of the probabilities of the
    contenders that are not left out. *)
Definition pow_sum (skip : list Z) (exponent : double) (l : list (Z * Z)) : double :=
  foldl (fun den it =>
           if (it.2 =? 0) || bool_decide (it.1 ∈ skip) then den
           else (den + pow (prob_of (it.2)) exponent)%double)
    (dZ 0) l.

Definition CalculateAnimalPlaceOdds (idx : Z) (lambda : double) (mContendersFairOdds : gmap Z Z) : Z :=
  let l := sorted_entries mContendersFairOdds in
  let p i := prob_of (odds_at mContendersFairOdds i) in
  let resultProb :=
    foldl (fun resultProb contender =>
             if (contender.2 =? 0) || (contender.1 =? idx) then resultProb
             else
               let den := pow_sum [contender.1] lambda l in
               (resultProb + p (contender.1) * pow (p idx) lambda / den)%double)
      (p idx) l in
  to_uint32 (dZ 1 / resultProb * dZ BET_ODDSDIVISOR)%double.

Definition CalculateAnimalShowOdds (idx : Z) (lambda rho : double) (mContendersFairOdds : gmap Z Z) : Z :=
  let l := sorted_entries mContendersFairOdds in
  let p i := prob_of (odds_at mContendersFairOdds i) in
  let resultProb :=
    foldl (fun resultProb it_i =>
             if (it_i.2 =? 0) || (it_i.1 =? idx) then resultProb
             else
               foldl (fun resultProb it_j =>
                        if (it_j.2 =? 0) || (it_j.1 =? idx) || (it_j.1 =? it_i.1) then resultProb
                        else
                          let den1 := pow_sum [it_i.1] lambda l in
                          let den2 := pow_sum [it_i.1; it_j.1] rho l in
                          (resultProb + p (it_i.1) * pow (p (it_j.1)) lambda * pow (p idx) rho / (den1 * den2))%double)
                 resultProb l)
      (prob_of (CalculateAnimalPlaceOdds idx lambda mContendersFairOdds)) l in
  to_uint32 (dZ 1 / resultProb * dZ BET_ODDSDIVISOR)%double.

(** ** Place and show, other events *)
Definition Permutations2 (mContendersOdds : gmap Z Z) : list (list Z) :=
  let l := sorted_entries mContendersOdds in
  foldl (fun perms i =>
           if i.2 =? 0 then perms
           else foldl (fun perms j =>
                         if (j.2 =? 0) || (i.1 =? j.1) then perms
                         else perms ++ [[i.1; j.1]]) perms l)
    [] l.

Definition Permutations3 (mContendersOdds : gmap Z Z) : list (list Z) :=
  let l := sorted_entries mContendersOdds in
  foldl (fun perms i =>
           if i.2 =? 0 then perms
           else foldl (fun perms j =>
                         if (j.2 =? 0) || (i.1 =? j.1) then perms
                         else foldl (fun perms k =>
                                       if (k.2 =? 0) || (k.1 =? i.1) || (k.1 =? j.1) then perms
                                       else perms ++ [[i.1; j.1; k.1]]) perms l) perms l)
    [] l.

(** 1 - the probabilities of the places before, multiplied over the places. *)
Fixpoint order_den (q : double) (den : double) (probs : list double) : double :=
  match probs with
  | [] => den
  | prob :: probs => order_den (q - prob)%double (den * q)%double probs
  end.

Definition CalculateOddsInFirstN (idx : Z) (permutations : list (list Z)) (mContendersFairOdds : gmap Z Z) : Z :=
  let resultProb :=
    foldl (fun resultProb perm =>
             if negb (bool_decide (idx ∈ perm)) then resultProb
             else
               let currentProbs := (fun id => prob_of (odds_at mContendersFairOdds id)) <$> perm in
               let evalExactOrder := foldl dmul (dZ 1) currentProbs in
               let den := order_den (dZ 1) (dZ 1) currentProbs in
               (resultProb + evalExactOrder / den)%double)
      (dZ 0) permutations in
  to_uint32 (dZ 1 / resultProb * dZ BET_ODDSDIVISOR)%double.

(** ** The margin of a market: one Newton step per contender with odds *)
Definition newton_h : double := dlit 1 6.

(** f, fd and fs of a step; [term] is the summand of a contender. *)
Definition newton_sum (term : double -> double -> double -> double) (v : list (Z * Z))
    (realMarginIn X : double) : double :=
  (foldl (fun f cont =>
            let fairOdds := DOUBLE_ODDS (cont.1) in
            let modifier := DOUBLE_MODIFIER (cont.2) in
            if (fairOdds =? dZ 0)%double then f else (f + term X fairOdds modifier)%double)
     (dZ 0) v - realMarginIn)%double.

Definition newton (term : double -> double -> double -> double) (v : list (Z * Z)) (realMarginIn : double) : double :=
  foldl (fun X cont =>
           if cont.1 =? 0 then X
           else
             let f := newton_sum term v realMarginIn X in
             let fd := newton_sum term v realMarginIn (X + newton_h)%double in
             let fs := newton_sum term v realMarginIn (X - newton_h)%double in
             let der := ((fd - fs) / newton_h)%double in
             (X - f / der)%double)
    (dZ 1) v.

Definition CalculateX (v : list (Z * Z)) (realMarginIn : double) : double :=
  newton (fun X fairOdds modifier => dZ 1 / (dZ 1 + (X + modifier) * (fairOdds - dZ 1)))%double v realMarginIn.

Definition CalculateM (v : list (Z * Z)) (realMarginIn : double) : double :=
  newton (fun m fairOdds modifier => pow (dZ 1 / fairOdds) (m + modifier))%double v realMarginIn.

(** The modifier is a 16-bit integer here, and not scaled. *)
Definition CalculateMarketOdds (X m : double) (oddsMods modifier : Z) : Z :=
  if oddsMods =? 0 then 0
  else
    let o := DOUBLE_ODDS oddsMods in
    let oddsX := (dZ 1 + (X + dZ modifier) * (o - dZ 1))%double in
    let oddsM := pow (dZ 1 / o)%double (SFopp m - dZ modifier)%double in
    to_uint32 ((oddsM + oddsX) / dZ 2 * dZ BET_ODDSDIVISOR)%double.

(** ** CalcOdds *)

(** The odds and modifiers of a market, in the order of the contenders.  For a
    group type other than the two (which CheckBettingTx rejects) the vector of
    the source is empty. *)
Definition market_odds_mods (e : CFieldEventDB) (mContendersFairOdds : gmap Z Z)
    (animal other_ : Z -> Z) : list (Z * Z) :=
  let each (f : Z -> Z) :=
    (fun cont : Z * Z =>
       if cont.2 =? 0 then (0, 0)
       else (f (cont.1), ci_nModifier (contender (fev_contenders e) (cont.1))))
      <$> sorted_entries mContendersFairOdds in
  if fev_nGroupType e =? FieldEventGroupType_value animalRacing then each animal
  else if fev_nGroupType e =? FieldEventGroupType_value other then each other_
  else [].

Definition place_odds_mods (e : CFieldEventDB) (mContendersFairOdds : gmap Z Z) : list (Z * Z) :=
  let lambda := GetLambda (NoneZeroOddsContendersCount e) in
  let perms := Permutations2 mContendersFairOdds in
  market_odds_mods e mContendersFairOdds
    (fun id => CalculateAnimalPlaceOdds id lambda mContendersFairOdds)
    (fun id => CalculateOddsInFirstN id perms mContendersFairOdds).

Definition show_odds_mods (e : CFieldEventDB) (mContendersFairOdds : gmap Z Z) : list (Z * Z) :=
  let lambda := GetLambda (NoneZeroOddsContendersCount e) in
  let rho := GetRHO (NoneZeroOddsContendersCount e) in
  let perms := Permutations3 mContendersFairOdds in
  market_odds_mods e mContendersFairOdds
    (fun id => CalculateAnimalShowOdds id lambda rho mContendersFairOdds)
    (fun id => CalculateOddsInFirstN id perms mContendersFairOdds).

(** The last loop for one market: the odds of the contenders, by id.  The vector
    has an entry for every contender unless the group type is unknown; the source
    would then read past its end, which is left as a pair of zeros here, but
    CheckBettingTx rejects such an event before it is stored (bet.cpp, fEventTxType). *)
Definition market_odds (open : bool) (v : list (Z * Z)) (realMarginIn : double)
    (contenders : list (Z * ContenderInfo)) : gmap Z Z :=
  let m := CalculateM v realMarginIn in
  let X := CalculateX v realMarginIn in
  list_to_map (imap (fun i '(id, c) =>
    (id, if open then CalculateMarketOdds X m (default (0, 0) (v !! i)).1 (u16 (ci_nModifier c)) else 0))
    contenders).

Definition CFieldEventDB_CalcOdds (e : CFieldEventDB) : CFieldEventDB :=
  let mContendersFairOdds := CalculateFairOdds e in
  let mContendersOutrightOdds := CalculateOutrightOdds e mContendersFairOdds in
  let isPlaceOpen := IsMarketOpen e (FieldBetOutcomeType_value place) in
  let isShowOpen := IsMarketOpen e (FieldBetOutcomeType_value show) in
  let l := sorted_entries (fev_contenders e) in
  let margin := DOUBLE_MARGIN (fev_nMarginPercent e) in
  let placeOdds := market_odds isPlaceOpen (if isPlaceOpen then place_odds_mods e mContendersFairOdds else [])
                     (margin * dZ 2)%double l in
  let showOdds := market_odds isShowOpen (if isShowOpen then show_odds_mods e mContendersFairOdds else [])
                    (margin * dZ 3)%double l in
  e <| fev_contenders ::= map_imap (fun id c => Some (c
         <| ci_nOutrightOdds := odds_at mContendersOutrightOdds id |>
         <| ci_nPlaceOdds := odds_at placeOdds id |>
         <| ci_nShowOdds := odds_at showOdds id |>)) |>.
End CalcOdds.

(** ** What CalcOdds changes, and what it leaves closed *)
#[local] Opaque search_X newton dZ dlit.

Lemma odds_at_fmap (m : gmap Z ContenderInfo) f id c :
  m !! id = Some c -> odds_at (f <$> m) id = f c.
Proof. intros H. unfold odds_at. by rewrite lookup_fmap, H. Qed.

Lemma sorted_entries_index (m : gmap Z ContenderInfo) id c :
  m !! id = Some c -> exists i, sorted_entries m !! i = Some (id, c).
Proof. intros H. by apply list_elem_of_lookup, elem_of_sorted_entries. Qed.

Lemma market_odds_at pow oc open v margin (m : gmap Z ContenderInfo) id c :
  m !! id = Some c ->
  exists i, sorted_entries m !! i = Some (id, c) /\
    odds_at (market_odds pow oc open v margin (sorted_entries m)) id =
      if open then CalculateMarketOdds pow oc (CalculateX v margin) (CalculateM pow v margin)
                     (default (0, 0) (v !! i)).1 (u16 (ci_nModifier c)) else 0.
Proof.
  intros Hc. destruct (sorted_entries_index m id c Hc) as [i Hi]. exists i. split; [done|].
  unfold odds_at, market_odds. erewrite (elem_of_list_to_map_1 _ id); [reflexivity| |].
  - assert (forall (l : list (Z * ContenderInfo)) (h : nat -> Z * ContenderInfo -> Z * Z),
      (forall i x, (h i x).1 = x.1) -> (imap h l).*1 = l.*1) as E.
    { induction l as [|x l IH]; intros h Hh; csimpl; [done|]. rewrite Hh. f_equal. apply IH. intros. apply Hh. }
    rewrite E; [apply NoDup_fst_sorted_entries|]. by intros ? [].
  - apply list_elem_of_lookup. exists i. rewrite list_lookup_imap, Hi. reflexivity.
Qed.

Lemma CalculateMarketOdds_range pow oc X m o modifier : inU 32 (CalculateMarketOdds pow oc X m o modifier).
Proof. unfold CalculateMarketOdds. case_match; [unfold inU; lia|apply double_to_uint32_range]. Qed.

Lemma outright_odds_range oc m X id c : inU 32 (outright_odds oc m X id c).
Proof. unfold outright_odds. case_match; [unfold inU; lia|apply double_to_uint32_range]. Qed.

(** A contender without input odds is left out of every market. *)
Lemma market_odds_mods_zero e m animal other_ i id :
  sorted_entries m !! i = Some (id, 0) -> (default (0, 0) (market_odds_mods e m animal other_ !! i)).1 = 0.
Proof. intros Hi. unfold market_odds_mods. repeat case_match; rewrite ?list_lookup_fmap, ?Hi; done. Qed.

Lemma fair_entry_zero oc e i id c :
  sorted_entries (fev_contenders e) !! i = Some (id, c) -> ci_nInputOdds c = 0 ->
  sorted_entries (CalculateFairOdds oc e) !! i = Some (id, 0).
Proof.
  intros Hi Hc. unfold CalculateFairOdds. rewrite sorted_entries_fmap, list_lookup_fmap, Hi.
  cbn [fmap option_fmap option_map prod_map fst snd]. unfold fair_odds. by rewrite Hc.
Qed.

Lemma market_odds_zero pow oc open v margin e id c :
  fev_contenders e !! id = Some c ->
  (forall i, sorted_entries (CalculateFairOdds oc e) !! i = Some (id, 0) -> (default (0, 0) (v !! i)).1 = 0) ->
  let odds := odds_at (market_odds pow oc open (if open then v else []) margin (sorted_entries (fev_contenders e))) id in
  inU 32 odds /\ (ci_nInputOdds c = 0 -> odds = 0) /\ (open = false -> odds = 0).
Proof.
  intros Hc Hv. cbv zeta.
  destruct (market_odds_at pow oc open (if open then v else []) margin _ id c Hc) as (i & Hi & ->).
  destruct open; [|split_and!; [unfold inU; lia|done|done]].
  split_and!; [apply CalculateMarketOdds_range| |done]. intros Hz.
  by rewrite Hv by (by eapply fair_entry_zero).
Qed.

Lemma CalcOdds_id pow oc e : fev_nEventId (CFieldEventDB_CalcOdds pow oc e) = fev_nEventId e.
Proof. by destruct e. Qed.

(** C40: What the calculation of the odds changes.  Only the three odds of
    the contenders: every other field of the event and of a contender stays,
    and no contender is added or dropped.  The odds are 32-bit numbers; a
    contender without input odds gets none in any market, and in a market that
    is not open nobody gets odds. *)
Theorem CalcOdds_spec pow oc e :
  let e' := CFieldEventDB_CalcOdds pow oc e in
  e' = e <| fev_contenders := fev_contenders e' |> /\
  forall id,
    match fev_contenders e !! id, fev_contenders e' !! id with
    | Some c, Some c' =>
        c' = c <| ci_nOutrightOdds := ci_nOutrightOdds c' |> <| ci_nPlaceOdds := ci_nPlaceOdds c' |>
               <| ci_nShowOdds := ci_nShowOdds c' |> /\
        inU 32 (ci_nOutrightOdds c') /\ inU 32 (ci_nPlaceOdds c') /\ inU 32 (ci_nShowOdds c') /\
        (ci_nInputOdds c = 0 -> ci_nOutrightOdds c' = 0 /\ ci_nPlaceOdds c' = 0 /\ ci_nShowOdds c' = 0) /\
        (IsMarketOpen e (FieldBetOutcomeType_value place) = false -> ci_nPlaceOdds c' = 0) /\
        (IsMarketOpen e (FieldBetOutcomeType_value show) = false -> ci_nShowOdds c' = 0)
    | None, None => True
    | _, _ => False
    end.
Proof.
  cbv zeta. split; [by destruct e|]. intros id. unfold CFieldEventDB_CalcOdds. cbv zeta.
  cbn [set_field fev_contenders]. rewrite map_lookup_imap.
  destruct (fev_contenders e !! id) as [c|] eqn:Hc; cbn [mbind option_bind]; [|done].
  set (fair := CalculateFairOdds oc e).
  assert (odds_at (CalculateOutrightOdds oc e fair) id = outright_odds oc fair (outright_X e fair) id c) as Ho.
  { unfold odds_at, CalculateOutrightOdds. by rewrite map_lookup_imap, Hc. }
  rewrite Ho.
  pose proof (outright_odds_range oc fair (outright_X e fair) id c) as Hor.
  assert (ci_nInputOdds c = 0 -> outright_odds oc fair (outright_X e fair) id c = 0) as Hoz.
  { intros Hz. unfold outright_odds. by rewrite Hz. }
  destruct (market_odds_zero pow oc (IsMarketOpen e (FieldBetOutcomeType_value place)) (place_odds_mods pow oc e fair)
    (DOUBLE_MARGIN (fev_nMarginPercent e) * dZ 2)%double e id c Hc) as (Hpr & Hpz & Hpc).
  { intros i Hi. by apply (market_odds_mods_zero _ _ _ _ i id). }
  destruct (market_odds_zero pow oc (IsMarketOpen e (FieldBetOutcomeType_value show)) (show_odds_mods pow oc e fair)
    (DOUBLE_MARGIN (fev_nMarginPercent e) * dZ 3)%double e id c Hc) as (Hsr & Hsz & Hsc).
  { intros i Hi. by apply (market_odds_mods_zero _ _ _ _ i id). }
  clear Ho. revert Hor Hoz Hpr Hpz Hpc Hsr Hsz Hsc.
  generalize (outright_odds oc fair (outright_X e fair) id c). intros o.
  generalize (odds_at (market_odds pow oc (IsMarketOpen e (FieldBetOutcomeType_value place)) 
    (if IsMarketOpen e (FieldBetOutcomeType_value place) then place_odds_mods pow oc e fair else [])
    (DOUBLE_MARGIN (fev_nMarginPercent e) * dZ 2)%double (sorted_entries (fev_contenders e))) id). intros p.
  generalize (odds_at (market_odds pow oc (IsMarketOpen e (FieldBetOutcomeType_value show)) 
    (if IsMarketOpen e (FieldBetOutcomeType_value show) then show_odds_mods pow oc e fair else [])
    (DOUBLE_MARGIN (fev_nMarginPercent e) * dZ 3)%double (sorted_entries (fev_contenders e))) id). intros s.
  intros. split_and!; [by destruct c|exact Hor|exact Hpr|exact Hsr|auto|exact Hpc|exact Hsc].
Qed.

(** ** Permutations *)

(** The contenders that have odds. *)
Definition has_odds (m : gmap Z Z) (id : Z) : Prop := exists odds, m !! id = Some odds /\ odds <> 0.

(** The loop over the contenders with odds outside of [skip]. *)
Definition active_ids (m : gmap Z Z) (skip : list Z) : list Z :=
  filter (fun id => id ∉ skip) (filter (fun c => c.2 <> 0) (sorted_entries m)).*1.

Lemma elem_of_active_ids m skip id : id ∈ active_ids m skip <-> has_odds m id /\ id ∉ skip.
Proof.
  unfold active_ids, has_odds. rewrite list_elem_of_filter, list_elem_of_fmap. split.
  - intros (Hs & [k o] & -> & H). apply list_elem_of_filter in H as [Ho H].
    rewrite elem_of_sorted_entries in H. eauto.
  - intros ((o & H & Ho) & Hs). split; [done|]. exists (id, o).
    by rewrite list_elem_of_filter, elem_of_sorted_entries.
Qed.

Lemma NoDup_active_ids m skip : NoDup (active_ids m skip).
Proof.
  apply NoDup_filter. eapply sublist_NoDup; [apply (NoDup_fst_sorted_entries m)|].
  apply fmap_sublist, sublist_filter.
Qed.

(** A loop over the map that skips the entries without odds and those of
    [skip] is a loop over [active_ids]. *)
Lemma foldl_active {B} m skip (c : Z * Z -> bool) (g : Z -> list B) acc :
  (forall x, c x = true <-> x.2 = 0 \/ x.1 ∈ skip) ->
  foldl (fun acc x => if c x then acc else acc ++ g x.1) acc (sorted_entries m) = acc ++ (active_ids m skip ≫= g).
Proof.
  intros Hc. rewrite (foldl_append _ (fun x => if c x then [] else g x.1)).
  2: { intros a x. case_match; [by rewrite app_nil_r|done]. }
  f_equal. unfold active_ids. induction (sorted_entries m) as [|x l IH]; csimpl; [done|].
  rewrite filter_cons. destruct (c x) eqn:E.
  - apply Hc in E. rewrite IH. case_decide; [|done]. csimpl. rewrite filter_cons, decide_False; [done|].
    destruct E as [E|E]; [done|]. by intros [].
  - assert (x.2 <> 0 /\ x.1 ∉ skip) as [H1 H2].
    { split; intros H; rewrite (proj2 (Hc x)) in E; auto; done. }
    rewrite decide_True by done. csimpl. rewrite filter_cons, decide_True by done. csimpl. by rewrite IH.
Qed.

Lemma foldl_ext_step {A B} (f g : A -> B -> A) a l :
  (forall a x, f a x = g a x) -> foldl f a l = foldl g a l.
Proof. intros H. revert a. induction l as [|x l IH]; intros a; simpl; [done|]. by rewrite H, IH. Qed.

Lemma Permutations2_active m :
  Permutations2 m = active_ids m [] ≫= fun i => active_ids m [i] ≫= fun j => [[i; j]].
Proof.
  unfold Permutations2. cbv zeta. rewrite <- (app_nil_l (_ ≫= _)).
  rewrite <- (foldl_active m [] (fun x => x.2 =? 0)).
  2: { intros x. rewrite Z.eqb_eq. split; [by left|]. by intros [?|?%not_elem_of_nil]. }
  apply foldl_ext_step. intros acc x. case_match; [done|].
  rewrite <- (foldl_active m [x.1] (fun y => (y.2 =? 0) || (x.1 =? y.1)) (fun j => [[x.1; j]])); [done|].
  intros y. rewrite orb_true_iff, !Z.eqb_eq, list_elem_of_singleton. intuition congruence.
Qed.

Lemma Permutations3_active m :
  Permutations3 m =
    active_ids m [] ≫= fun i => active_ids m [i] ≫= fun j => active_ids m [i; j] ≫= fun k => [[i; j; k]].
Proof.
  unfold Permutations3. cbv zeta. rewrite <- (app_nil_l (_ ≫= _)).
  rewrite <- (foldl_active m [] (fun x => x.2 =? 0)).
  2: { intros x. rewrite Z.eqb_eq. split; [by left|]. by intros [?|?%not_elem_of_nil]. }
  apply foldl_ext_step. intros acc x. case_match; [done|].
  rewrite <- (foldl_active m [x.1] (fun y => (y.2 =? 0) || (x.1 =? y.1))
    (fun j => active_ids m [x.1; j] ≫= fun k => [[x.1; j; k]])).
  2: { intros y. rewrite orb_true_iff, !Z.eqb_eq, list_elem_of_singleton. intuition congruence. }
  apply foldl_ext_step. intros acc' y. case_match; [done|].
  rewrite <- (foldl_active m [x.1; y.1] (fun z => (z.2 =? 0) || (z.1 =? x.1) || (z.1 =? y.1)) (fun k => [[x.1; y.1; k]])); [done|].
  intros z. rewrite !orb_true_iff, !Z.eqb_eq, elem_of_cons, list_elem_of_singleton. tauto.
Qed.

Ltac ids_solver :=
  repeat match goal with
  | H : _ /\ _ |- _ => destruct H
  | H : _ ∉ _ :: _ |- _ => apply not_elem_of_cons in H
  | |- _ /\ _ => split
  | |- _ ∉ _ :: _ => apply not_elem_of_cons
  end;
  first [done | apply not_elem_of_nil | constructor | by apply list_elem_of_singleton | congruence].

(** Selections that start with different contenders are different. *)
Ltac perm_solver :=
  repeat match goal with
  | |- _ ∈ _ ≫= _ -> _ => let i := fresh in intros (i & ? & _)%list_elem_of_bind
  | H : _ ∈ _ ≫= _ |- _ => let i := fresh in apply list_elem_of_bind in H as (i & ? & _)
  | H : _ ∈ [_] |- _ => apply list_elem_of_singleton in H
  | |- _ -> _ => intros ?
  end; congruence.

(** The permutations of the place and show markets.  Permutations2 and
    Permutations3 list exactly the ordered selections of two and of three
    different contenders with odds, each of them once. *)
Theorem Permutations_spec m :
  (forall p, p ∈ Permutations2 m <-> length p = 2%nat /\ NoDup p /\ Forall (has_odds m) p) /\
  NoDup (Permutations2 m) /\
  (forall p, p ∈ Permutations3 m <-> length p = 3%nat /\ NoDup p /\ Forall (has_odds m) p) /\
  NoDup (Permutations3 m).
Proof.
  rewrite Permutations2_active, Permutations3_active. split_and!.
  - intros p. rewrite list_elem_of_bind. split.
    + intros (i & Hp & Hi). apply list_elem_of_bind in Hp as (j & Hp & Hj). rewrite elem_of_active_ids in *.
      apply list_elem_of_singleton in Hp as ->. split; [done|]. rewrite !NoDup_cons, !Forall_cons. ids_solver.
    + destruct p as [|i [|j [|]]]; try by intros [? _]. rewrite !NoDup_cons, !Forall_cons.
      intros (_ & (Hij & _) & Hi & Hj & _). exists i. rewrite elem_of_active_ids, list_elem_of_bind.
      split; [|ids_solver]. exists j. rewrite elem_of_active_ids. ids_solver.
  - apply NoDup_bind; [|intros; apply NoDup_bind|apply NoDup_active_ids];
      [|..|intros; apply NoDup_singleton|apply NoDup_active_ids];
      intros *; perm_solver.
  - intros p. rewrite list_elem_of_bind. split.
    + intros (i & Hp & Hi). apply list_elem_of_bind in Hp as (j & Hp & Hj).
      apply list_elem_of_bind in Hp as (k & Hp & Hk). rewrite elem_of_active_ids in *.
      apply list_elem_of_singleton in Hp as ->. split; [done|]. rewrite !NoDup_cons, !Forall_cons. ids_solver.
    + destruct p as [|i [|j [|k [|]]]]; try by intros [? _]. rewrite !NoDup_cons, !Forall_cons.
      intros (_ & (Hij & Hjk & _) & Hi & Hj & Hk & _). exists i. rewrite elem_of_active_ids, list_elem_of_bind.
      split; [|ids_solver]. exists j. rewrite elem_of_active_ids, list_elem_of_bind.
      split; [|ids_solver]. exists k. rewrite elem_of_active_ids. ids_solver.
  - apply NoDup_bind; [|intros; apply NoDup_bind; [|intros; apply NoDup_bind|]|]; try apply NoDup_active_ids;
      try (intros; apply NoDup_singleton); intros *; perm_solver.
Qed.
