(* ===== verification/BetKeys.v ===== *)
(** * Keys and values of the betting databases as bytes
    (the SERIALIZE_METHODS blocks of src/src/betting/bet_db.h,
    CBettingDB::DbTypeToBytes and BytesToDbType)

    The databases compare keys as byte strings.  The key classes therefore
    write heights and identifiers in network byte order; the theorems below
    show what that gives: the order of the typed keys used by the other files
    is the order of the bytes, and a Seek to the first key of a height finds
    all keys from that height on. *)

From S2P Require Import Prelude Serialize Params BetTx BetDB Flushable.

(** ** Codecs *)

(** A 32-bit integer in network byte order. *)
Definition be32c : codec Z :=
  Codec (fun x => ser_writedata32 (htonl x))
        (fun s => '(be_val, s) ← ser_readdata32 s; Some (htonl be_val, s))
        (inU 32).

(** A uint256 is its 32 bytes. *)
Definition uint256c : codec uint256 :=
  Codec (fun h => reverse (le_bytes 32 h))
        (fun s => '(bs, s) ← read_bytes 32 s; Some (le_value (reverse bs), s))
        (inU 256).

Definition COutPoint_codec : codec COutPoint :=
  isoc (fun o => (op_hash o, op_n o)) (fun '(h, n) => Build_COutPoint h n) (uint256c ⊗ u32c).

Definition EventKey_codec : codec Z := be32c.

Definition MappingKey_codec : codec MappingKey :=
  isoc (fun k => (mk_nMType k, mk_nId k)) (fun '(t, i) => Build_MappingKey t i) (be32c ⊗ be32c).

Definition PeerlessBetKey_codec : codec PeerlessBetKey :=
  isoc (fun k => (bk_blockHeight k, bk_outPoint k)) (fun '(h, o) => Build_PeerlessBetKey h o)
       (be32c ⊗ COutPoint_codec).

(** A field that is written only under a condition on the fields before it;
    otherwise the value of a default-constructed object is kept. *)
Definition condc {A B} (a : codec A) (p : A -> bool) (b : codec B) (dflt : B) : codec (A * B) :=
  Codec (fun x => Serialize a x.1 ++ if p x.1 then Serialize b x.2 else [])
        (fun s => '(x, s) ← Unserialize a s;
                  if p x then '(y, s) ← Unserialize b s; Some ((x, y), s)
                  else Some ((x, dflt), s))
        (fun x => SerOk a x.1 /\ if p x.1 then SerOk b x.2 else x.2 = dflt).

(** An enumeration written as one byte. *)
Definition enumc {E} (to : E -> Z) (from : Z -> E) : codec E := isoc to from u8c.

Definition PayoutType_of (z : Z) : PayoutType :=
  match z with
  | 0x02 => bettingRefund
  | 0x03 => bettingReward
  | 0x04 => chainGamesPayout
  | 0x05 => chainGamesRefund
  | 0x06 => chainGamesReward
  | 0x07 => quickGamesPayout
  | 0x08 => quickGamesRefund
  | 0x09 => quickGamesReward
  | _ => bettingPayout
  end.

Definition BetResultType_of (z : Z) : BetResultType :=
  match z with
  | 0x01 => betResultWin
  | 0x02 => betResultLose
  | 0x03 => betResultRefund
  | 0x04 => betResultPartialWin
  | 0x05 => betResultPartialLose
  | _ => betResultUnknown
  end.

Definition CMappingDB_codec : codec CMappingDB := isoc mdb_sName Build_CMappingDB bytesc.

(** The odds block that the base and the extended event both write. *)
Definition event_head_codec :=
  u32c ⊗ u64c ⊗ u32c ⊗ u32c ⊗ u32c ⊗ u32c ⊗ u32c ⊗ u32c ⊗ u32c ⊗ u32c ⊗
  i32c ⊗ u32c ⊗ u32c ⊗ u32c ⊗ u32c ⊗ u32c.

Definition event_head (e : CPeerlessBaseEventDB) :=
  (be_nEventId e, (be_nStartTime e, (be_nSport e, (be_nTournament e, (be_nStage e,
  (be_nHomeTeam e, (be_nAwayTeam e, (be_nHomeOdds e, (be_nAwayOdds e, (be_nDrawOdds e,
  (be_nSpreadPoints e, (be_nSpreadHomeOdds e, (be_nSpreadAwayOdds e, (be_nTotalPoints e,
  (be_nTotalOverOdds e, be_nTotalUnderOdds e))))))))))))))).

Definition CPeerlessBaseEventDB_codec (p : ConsensusParams) : codec CPeerlessBaseEventDB :=
  isoc (fun e => ((event_head e, be_nEventCreationHeight e), be_fLegacyInitialHomeFavorite e))
       (fun '(((a, (b, (c, (d, (e, (f, (g, (h, (i, (j, (k, (l, (m, (n, (o, q))))))))))))))), ch), fl) =>
          Build_CPeerlessBaseEventDB a b c d e f g h i j k l m n o q ch fl)
       (condc (event_head_codec ⊗ i32c)
          (fun x => x.2 <? WagerrProtocolV3StartHeight p) boolc true).

(** The 18 liabilities and bet counters of the extended event. *)
Definition event_stats_codec :=
  u32c ⊗ u32c ⊗ u32c ⊗ u32c ⊗ u32c ⊗ u32c ⊗ u32c ⊗ u32c ⊗ u32c ⊗
  u32c ⊗ u32c ⊗ u32c ⊗ u32c ⊗ u32c ⊗ u32c ⊗ u32c ⊗ u32c ⊗ u32c.

Definition event_stats (e : CPeerlessExtendedEventDB) :=
  (ee_nMoneyLineHomePotentialLiability e, (ee_nMoneyLineAwayPotentialLiability e,
  (ee_nMoneyLineDrawPotentialLiability e, (ee_nSpreadHomePotentialLiability e,
  (ee_nSpreadAwayPotentialLiability e, (ee_nSpreadPushPotentialLiability e,
  (ee_nTotalOverPotentialLiability e, (ee_nTotalUnderPotentialLiability e,
  (ee_nTotalPushPotentialLiability e, (ee_nMoneyLineHomeBets e, (ee_nMoneyLineAwayBets e,
  (ee_nMoneyLineDrawBets e, (ee_nSpreadHomeBets e, (ee_nSpreadAwayBets e, (ee_nSpreadPushBets e,
  (ee_nTotalOverBets e, (ee_nTotalUnderBets e, ee_nTotalPushBets e))))))))))))))))).

Definition CPeerlessExtendedEventDB_codec (p : ConsensusParams) : codec CPeerlessExtendedEventDB :=
  isoc (fun e : CPeerlessExtendedEventDB => ((event_head e, (event_stats e, be_nEventCreationHeight e)),
                  be_fLegacyInitialHomeFavorite e))
       (fun '(((a, (b, (c, (d, (e, (f, (g, (h, (i, (j, (k, (l, (m, (n, (o, q))))))))))))))),
               ((s1, (s2, (s3, (s4, (s5, (s6, (s7, (s8, (s9, (s10, (s11, (s12, (s13, (s14, (s15,
                 (s16, (s17, s18))))))))))))))))), ch)), fl) =>
          Build_CPeerlessExtendedEventDB (Build_CPeerlessBaseEventDB a b c d e f g h i j k l m n o q ch fl)
            s1 s2 s3 s4 s5 s6 s7 s8 s9 s10 s11 s12 s13 s14 s15 s16 s17 s18)
       (condc (event_head_codec ⊗ event_stats_codec ⊗ i32c)
          (fun x => x.2.2 <? WagerrProtocolV3StartHeight p) boolc true).

Definition CPeerlessResultDB_codec : codec CPeerlessResultDB :=
  isoc (fun r => (rs_nEventId r, (rs_nResultType r, (rs_nHomeScore r, rs_nAwayScore r))))
       (fun '(a, (b, (c, d))) => Build_CPeerlessResultDB a b c d) (u32c ⊗ u32c ⊗ u32c ⊗ u32c).

Definition ContenderInfo_codec : codec ContenderInfo :=
  isoc (fun c => (ci_nInputOdds c, (ci_nOutrightOdds c, (ci_nOutrightBets c,
         (ci_nOutrightPotentialLiability c, (ci_nPlaceOdds c, (ci_nPlaceBets c,
         (ci_nPlacePotentialLiability c, (ci_nShowOdds c, (ci_nShowBets c,
         (ci_nShowPotentialLiability c, ci_nModifier c)))))))))))
       (fun '(a, (b, (c, (d, (e, (f, (g, (h, (i, (j, k)))))))))) =>
          Build_ContenderInfo a b c d e f g h i j k)
       (u32c ⊗ u32c ⊗ u32c ⊗ u32c ⊗ u32c ⊗ u32c ⊗ u32c ⊗ u32c ⊗ u32c ⊗ u32c ⊗ u32c).

Definition CFieldEventDB_codec : codec CFieldEventDB :=
  isoc (fun e => (fev_nEventId e, (fev_nStartTime e, (fev_nGroupType e, (fev_nMarketType e,
         (fev_nSport e, (fev_nTournament e, (fev_nStage e, (fev_nMarginPercent e,
          fev_contenders e)))))))))
       (fun '(a, (b, (c, (d, (e, (f, (g, (h, i)))))))) => Build_CFieldEventDB a b c d e f g h i)
       (u32c ⊗ u64c ⊗ u8c ⊗ u8c ⊗ u32c ⊗ u32c ⊗ u32c ⊗ u32c ⊗ mapc u32c ContenderInfo_codec).

Definition CFieldResultDB_codec : codec CFieldResultDB :=
  isoc (fun r => (frs_nEventId r, (frs_nResultType r, frs_contendersResults r)))
       (fun '(a, (b, c)) => Build_CFieldResultDB a b c) (u32c ⊗ u8c ⊗ mapc u32c u8c).

Definition CPeerlessLegDB_codec : codec CPeerlessLegDB :=
  isoc (fun l => (leg_nEventId l, leg_nOutcome l)) (fun '(a, b) => Build_CPeerlessLegDB a b)
       (u32c ⊗ u8c).

Definition CFieldLegDB_codec : codec CFieldLegDB :=
  isoc (fun l => (fleg_nEventId l, (fleg_nOutcome l, fleg_nContenderId l)))
       (fun '(a, (b, c)) => Build_CFieldLegDB a b c) (u32c ⊗ u8c ⊗ u32c).

Definition CChainGamesEventDB_codec : codec CChainGamesEventDB :=
  isoc (fun e => (cgev_nEventId e, cgev_nEntryFee e)) (fun '(a, b) => Build_CChainGamesEventDB a b)
       (u32c ⊗ u32c).

Definition CChainGamesResultDB_codec : codec CChainGamesResultDB :=
  isoc cgres_nEventId Build_CChainGamesResultDB u16c.

Definition CPayoutInfoDB_codec : codec CPayoutInfoDB :=
  isoc (fun i => (pi_betKey i, pi_payoutType i)) (fun '(k, t) => Build_CPayoutInfoDB k t)
       (PeerlessBetKey_codec ⊗ enumc PayoutType_value PayoutType_of).

(** The undo record: its height, the index of the variant's alternative as an
    int, and the event. *)
Definition BettingUndoVariant_codec (p : ConsensusParams) : codec BettingUndoVariant :=
  Codec (fun v => match v with
                  | UndoPeerlessEvent e => Serialize i32c 0 ++ Serialize (CPeerlessExtendedEventDB_codec p) e
                  | UndoFieldEvent e => Serialize i32c 1 ++ Serialize CFieldEventDB_codec e
                  end)
        (fun s => '(undoType, s) ← Unserialize i32c s;
                  if undoType =? 0 then
                    '(e, s) ← Unserialize (CPeerlessExtendedEventDB_codec p) s;
                    Some (UndoPeerlessEvent e, s)
                  else if undoType =? 1 then
                    '(e, s) ← Unserialize CFieldEventDB_codec s; Some (UndoFieldEvent e, s)
                  else Some (UndoPeerlessEvent CPeerlessExtendedEventDB_init, s))
        (fun v => match v with
                  | UndoPeerlessEvent e => SerOk (CPeerlessExtendedEventDB_codec p) e
                  | UndoFieldEvent e => SerOk CFieldEventDB_codec e
                  end).

Definition CBettingUndoDB_codec (p : ConsensusParams) : codec CBettingUndoDB :=
  isoc (fun u => (undo_height u, undo_variant u)) (fun '(h, v) => Build_CBettingUndoDB v h)
       (u32c ⊗ BettingUndoVariant_codec p).

(** Bets keep the player's address as the string EncodeDestination gives. *)
Section Bets.
Context (p : ConsensusParams).
Context (EncodeDestination : CTxDestination -> list Z).
Context (DecodeDestination : list Z -> CTxDestination).

Definition addressc : codec CTxDestination :=
  Codec (fun a => Serialize bytesc (EncodeDestination a))
        (fun s => '(address_str, s) ← Unserialize bytesc s; Some (DecodeDestination address_str, s))
        (fun a => SerOk bytesc (EncodeDestination a) /\ DecodeDestination (EncodeDestination a) = a).

Definition CPeerlessBetDB_codec : codec CPeerlessBetDB :=
  isoc (fun b => (bet_betAmount b, (bet_playerAddress b, (bet_legs b, (bet_lockedEvents b,
         (bet_betTime b, (bet_completed b, (bet_resultType b, (bet_payout b, bet_payoutHeight b)))))))))
       (fun '(a, (b, (c, (d, (e, (f, (g, (h, i)))))))) => Build_CPeerlessBetDB a b c d e f g h i)
       (i64c ⊗ addressc ⊗ vecc CPeerlessLegDB_codec ⊗ vecc (CPeerlessBaseEventDB_codec p) ⊗
        i64c ⊗ boolc ⊗ enumc BetResultType_value BetResultType_of ⊗ i64c ⊗ u32c).

Definition CFieldBetDB_codec : codec CFieldBetDB :=
  isoc (fun b => (fbet_betAmount b, (fbet_playerAddress b, (fbet_legs b, (fbet_lockedEvents b,
         (fbet_betTime b, (fbet_completed b, (fbet_resultType b, (fbet_payout b,
          fbet_payoutHeight b)))))))))
       (fun '(a, (b, (c, (d, (e, (f, (g, (h, i)))))))) => Build_CFieldBetDB a b c d e f g h i)
       (i64c ⊗ addressc ⊗ vecc CFieldLegDB_codec ⊗ vecc CFieldEventDB_codec ⊗
        i64c ⊗ boolc ⊗ enumc BetResultType_value BetResultType_of ⊗ i64c ⊗ u32c).

Definition CChainGamesBetDB_codec : codec CChainGamesBetDB :=
  isoc (fun b => (cgbet_nEventId b, (cgbet_completed b, (cgbet_betAmount b, (cgbet_playerAddress b,
         (cgbet_betTime b, (cgbet_payout b, cgbet_payoutHeight b)))))))
       (fun '(a, (b, (c, (d, (e, (f, g)))))) => Build_CChainGamesBetDB a c d e b f g)
       (u32c ⊗ boolc ⊗ i64c ⊗ addressc ⊗ i64c ⊗ i64c ⊗ u32c).

Definition CQuickGamesBetDB_codec : codec CQuickGamesBetDB :=
  isoc (fun b => (qgbet_gameType b, (qgbet_vBetInfo b, (qgbet_betAmount b, (qgbet_playerAddress b,
         (qgbet_betTime b, (qgbet_resultType b, (qgbet_payout b, qgbet_completed b))))))))
       (fun '(a, (b, (c, (d, (e, (f, (g, h))))))) => Build_CQuickGamesBetDB a b c d e f g h)
       (u8c ⊗ bytesc ⊗ i64c ⊗ addressc ⊗ i64c ⊗ enumc BetResultType_value BetResultType_of ⊗
        i64c ⊗ boolc).
End Bets.

(** DbTypeToBytes; BytesToDbType asserts that nothing is left. *)
Definition DbTypeToBytes {A} (c : codec A) (value : A) : list Z := Serialize c value.

Definition BytesToDbType {A} (c : codec A) (bytes : list Z) : option A :=
  '(value, s) ← Unserialize c bytes; if decide (s = []) then Some value else None.

(** The order of bet keys: height, hash, index as it is written. *)
#[export] Instance PeerlessBetKey_key_seq : KeySeq PeerlessBetKey := fun k =>
  [bk_blockHeight k; op_hash (bk_outPoint k); htonl (op_n (bk_outPoint k)); op_n (bk_outPoint k)].

#[export] Instance PeerlessBetKey_key_seq_inj : KeySeqInj PeerlessBetKey.
Proof. intros [h [hh n]] [h' [hh' n']] [= -> -> _ ->]. done. Qed.

(** ** Laws *)
Lemma htonl_inU x : inU 32 (htonl x).
Proof.
  unfold htonl. pose proof (le_value_inU (reverse (le_bytes 4 x))) as H.
  rewrite length_reverse, length_le_bytes in H. apply H.
  rewrite Forall_reverse. apply le_bytes_byte.
Qed.

Lemma le_bytes_htonl x : le_bytes 4 (htonl x) = reverse (le_bytes 4 x).
Proof.
  unfold htonl. replace 4%nat with (length (reverse (le_bytes 4 x))) at 1
    by (by rewrite length_reverse, length_le_bytes).
  apply le_bytes_value. rewrite Forall_reverse. apply le_bytes_byte.
Qed.

Lemma htonl_htonl x : inU 32 x -> htonl (htonl x) = x.
Proof.
  intros Hx. unfold htonl at 1. rewrite le_bytes_htonl, reverse_involutive, le_value_bytes.
  by apply wrapU_small.
Qed.

#[export] Instance be32c_laws : CodecLaws be32c.
Proof.
  split; unfold be32c; cbn [Serialize Unserialize SerOk].
  - intros x _. apply le_bytes_byte.
  - intros x rest Hx. unfold ser_writedata32, ser_readdata32.
    rewrite ser_readdata_small by apply htonl_inU. cbn [mbind option_bind]. by rewrite htonl_htonl.
Qed.

#[export] Instance uint256c_laws : CodecLaws uint256c.
Proof.
  split; unfold uint256c; cbn [Serialize Unserialize SerOk].
  - intros x _. rewrite Forall_reverse. apply le_bytes_byte.
  - intros x rest Hx.
    replace 32%nat with (length (reverse (le_bytes 32 x))) at 1
      by (by rewrite length_reverse, length_le_bytes).
    rewrite read_bytes_app. cbn [mbind option_bind]. rewrite reverse_involutive, le_value_bytes.
    by rewrite wrapU_small.
Qed.

#[export] Instance condc_laws {A B} (a : codec A) p (b : codec B) dflt :
  CodecLaws a -> CodecLaws b -> CodecLaws (condc a p b dflt).
Proof.
  intros La Lb. split; simpl.
  - intros [x y] [Hx Hy]. simpl in *. apply Forall_app. split; [by apply ser_bytes|].
    destruct (p x); [by apply ser_bytes|done].
  - intros [x y] rest [Hx Hy]. simpl in *. rewrite <- app_assoc, unser_ser by done. simpl.
    destruct (p x); [by rewrite unser_ser|by rewrite Hy].
Qed.

#[export] Instance addressc_laws E D : CodecLaws (addressc E D).
Proof.
  split.
  - intros a [Ha _]. by apply (ser_bytes (c := bytesc)).
  - intros a rest [Ha Hd]. unfold addressc. cbn [Serialize Unserialize].
    rewrite (unser_ser (c := bytesc)) by done. simpl. by rewrite Hd.
Qed.

#[export] Instance PayoutType_codec_laws : CodecLaws (enumc PayoutType_value PayoutType_of).
Proof. apply isoc_laws; [apply _|by intros []]. Qed.

#[export] Instance BetResultType_codec_laws :
  CodecLaws (enumc BetResultType_value BetResultType_of).
Proof. apply isoc_laws; [apply _|by intros []]. Qed.


#[export] Instance COutPoint_laws : CodecLaws COutPoint_codec.
Proof. apply isoc_laws; [apply _|by intros []]. Qed.
#[export] Instance MappingKey_laws : CodecLaws MappingKey_codec.
Proof. apply isoc_laws; [apply _|by intros []]. Qed.
#[export] Instance PeerlessBetKey_laws : CodecLaws PeerlessBetKey_codec.
Proof. apply isoc_laws; [apply _|by intros []]. Qed.
#[export] Instance CMappingDB_laws : CodecLaws CMappingDB_codec.
Proof. apply isoc_laws; [apply _|by intros []]. Qed.
#[export] Instance event_head_laws : CodecLaws event_head_codec.
Proof. unfold event_head_codec. apply _. Qed.
#[export] Instance event_stats_laws : CodecLaws event_stats_codec.
Proof. unfold event_stats_codec. apply _. Qed.
#[export] Instance CPeerlessBaseEventDB_laws p : CodecLaws (CPeerlessBaseEventDB_codec p).
Proof. apply isoc_laws; [apply _|by intros []]. Qed.
#[export] Instance CPeerlessExtendedEventDB_laws p : CodecLaws (CPeerlessExtendedEventDB_codec p).
Proof. apply isoc_laws; [apply _|by intros [[]]]. Qed.
#[export] Instance CPeerlessResultDB_laws : CodecLaws CPeerlessResultDB_codec.
Proof. apply isoc_laws; [apply _|by intros []]. Qed.
#[export] Instance ContenderInfo_laws : CodecLaws ContenderInfo_codec.
Proof. apply isoc_laws; [apply _|by intros []]. Qed.
#[export] Instance CFieldEventDB_laws : CodecLaws CFieldEventDB_codec.
Proof. apply isoc_laws; [apply _|by intros []]. Qed.
#[export] Instance CFieldResultDB_laws : CodecLaws CFieldResultDB_codec.
Proof. apply isoc_laws; [apply _|by intros []]. Qed.
#[export] Instance CPeerlessLegDB_laws : CodecLaws CPeerlessLegDB_codec.
Proof. apply isoc_laws; [apply _|by intros []]. Qed.
#[export] Instance CFieldLegDB_laws : CodecLaws CFieldLegDB_codec.
Proof. apply isoc_laws; [apply _|by intros []]. Qed.
#[export] Instance CChainGamesEventDB_laws : CodecLaws CChainGamesEventDB_codec.
Proof. apply isoc_laws; [apply _|by intros []]. Qed.
#[export] Instance CChainGamesResultDB_laws : CodecLaws CChainGamesResultDB_codec.
Proof. apply isoc_laws; [apply _|by intros []]. Qed.
#[export] Instance CPayoutInfoDB_laws : CodecLaws CPayoutInfoDB_codec.
Proof. apply isoc_laws; [apply _|by intros []]. Qed.

#[export] Instance BettingUndoVariant_laws p : CodecLaws (BettingUndoVariant_codec p).
Proof.
  split.
  - intros [e|e] He; unfold BettingUndoVariant_codec; cbn [Serialize SerOk] in *;
      apply Forall_app; (split; [apply le_bytes_byte|by apply ser_bytes]).
  - intros [e|e] rest He; unfold BettingUndoVariant_codec; cbn [Serialize Unserialize SerOk] in *;
      rewrite <- app_assoc, (unser_ser (c := i32c)) by (simpl; range); cbn [mbind option_bind];
      [change (0 =? 0) with true|change (1 =? 0) with false; change (1 =? 1) with true];
      cbv beta iota; by rewrite unser_ser by done.
Qed.

#[export] Instance CBettingUndoDB_laws p : CodecLaws (CBettingUndoDB_codec p).
Proof. apply isoc_laws; [apply _|by intros []]. Qed.
#[export] Instance CPeerlessBetDB_laws p E D : CodecLaws (CPeerlessBetDB_codec p E D).
Proof. apply isoc_laws; [apply _|by intros []]. Qed.
#[export] Instance CFieldBetDB_laws E D : CodecLaws (CFieldBetDB_codec E D).
Proof. apply isoc_laws; [apply _|by intros []]. Qed.
#[export] Instance CChainGamesBetDB_laws E D : CodecLaws (CChainGamesBetDB_codec E D).
Proof. apply isoc_laws; [apply _|by intros []]. Qed.
#[export] Instance CQuickGamesBetDB_laws E D : CodecLaws (CQuickGamesBetDB_codec E D).
Proof. apply isoc_laws; [apply _|by intros []]. Qed.

Lemma BytesToDbType_DbTypeToBytes {A} (c : codec A) `{!CodecLaws c} v :
  SerOk c v -> BytesToDbType c (DbTypeToBytes c v) = Some v.
Proof.
  intros Hv. unfold BytesToDbType, DbTypeToBytes.
  rewrite <- (app_nil_r (Serialize c v)), unser_ser by done. done.
Qed.

(** ** Byte order and key order *)

(** Comparing strings of bytes of equal length compares what they spell most
    significant byte first. *)
Lemma lex_le_be n a b s t :
  inU (8 * Z.of_nat n) a -> inU (8 * Z.of_nat n) b ->
  lex_le (reverse (le_bytes n a) ++ s) (reverse (le_bytes n b) ++ t) <->
  a < b \/ a = b /\ lex_le s t.
Proof.
  revert a b s t. induction n as [|n IH]; intros a b s t Ha Hb.
  - change (8 * Z.of_nat 0) with 0 in *. unfold inU in *. change (2 ^ 0) with 1 in *.
    assert (a = 0) as -> by lia. assert (b = 0) as -> by lia.
    change (lex_le s t <-> 0 < 0 \/ 0 = 0 /\ lex_le s t). naive_solver lia.
  - change (le_bytes (S n) a) with (a `mod` 256 :: le_bytes n (a `div` 256)).
    change (le_bytes (S n) b) with (b `mod` 256 :: le_bytes n (b `div` 256)).
    rewrite !reverse_cons, <- !app_assoc.
    assert (2 ^ (8 * Z.of_nat (S n)) = 256 * 2 ^ (8 * Z.of_nat n)) as E.
    { replace (8 * Z.of_nat (S n)) with (8 + 8 * Z.of_nat n) by lia.
      rewrite Z.pow_add_r by lia. done. }
    assert (forall x, inU (8 * Z.of_nat (S n)) x -> inU (8 * Z.of_nat n) (x `div` 256)) as Hdiv.
    { intros x. unfold inU. rewrite E. intros. split; [apply Z.div_pos; lia|].
      apply Z.div_lt_upper_bound; lia. }
    rewrite IH by auto. simpl.
    pose proof (Z.div_mod a 256). pose proof (Z.div_mod b 256).
    pose proof (Z.mod_pos_bound a 256). pose proof (Z.mod_pos_bound b 256).
    split.
    + intros [?|[? [?|[? ?]]]]; [left; lia|left; lia|right; split; [lia|done]].
    + intros [?|[-> ?]]; [|right; auto].
      destruct (decide (a `div` 256 = b `div` 256)); [right; split; [done|left; lia]|left; lia].
Qed.

(** The keys betting writes: heights, hashes and indexes in their width. *)
Definition PeerlessBetKey_ok (k : PeerlessBetKey) : Prop := SerOk PeerlessBetKey_codec k.

Lemma be32_bytes x : ser_writedata32 (htonl x) = reverse (le_bytes 4 x).
Proof. apply le_bytes_htonl. Qed.

Lemma le_bytes_be x : inU 32 x -> le_bytes 4 x = reverse (le_bytes 4 (htonl x)).
Proof. intros Hx. by rewrite le_bytes_htonl, reverse_involutive. Qed.

Lemma PeerlessBetKey_bytes k : PeerlessBetKey_ok k ->
  DbTypeToBytes PeerlessBetKey_codec k =
    reverse (le_bytes 4 (bk_blockHeight k)) ++ reverse (le_bytes 32 (op_hash (bk_outPoint k))) ++
    reverse (le_bytes 4 (htonl (op_n (bk_outPoint k)))) ++ [].
Proof.
  intros (? & ? & Hn). unfold DbTypeToBytes, PeerlessBetKey_codec, COutPoint_codec, isoc, pairc,
    be32c, uint256c, u32c, uintc. cbn [Serialize fst snd].
  rewrite be32_bytes, app_nil_r. by rewrite <- le_bytes_be.
Qed.

(** The order of bet keys.  For keys whose fields fit their width, the
    byte order of the serialized keys is the order by height, then hash, then
    index (as its bytes are written), and the bytes determine the key. *)
Theorem PeerlessBetKey_order k1 k2 :
  PeerlessBetKey_ok k1 -> PeerlessBetKey_ok k2 ->
  (lex_le (DbTypeToBytes PeerlessBetKey_codec k1) (DbTypeToBytes PeerlessBetKey_codec k2) <-> kle k1 k2) /\
  (DbTypeToBytes PeerlessBetKey_codec k1 = DbTypeToBytes PeerlessBetKey_codec k2 -> k1 = k2).
Proof.
  intros H1 H2. rewrite (PeerlessBetKey_bytes k1 H1), (PeerlessBetKey_bytes k2 H2). split.
  - destruct H1 as (? & ? & ?), H2 as (? & ? & ?).
    rewrite !lex_le_be by (done || apply htonl_inU).
    destruct k1 as [h1 [x1 n1]], k2 as [h2 [x2 n2]].
    unfold kle, key_seq, PeerlessBetKey_key_seq.
    cbn [lex_le bk_blockHeight bk_outPoint op_hash op_n fst snd] in *.
    split; [|naive_solver lia].
    intros [?|[-> [?|[-> [?|[Hn _]]]]]]; auto 10. right; split; [done|]. right; split; [done|].
    right. split; [done|]. right. split; [|done].
    by rewrite <- (htonl_htonl n1), <- (htonl_htonl n2), Hn.
  - rewrite <- (PeerlessBetKey_bytes k1 H1), <- (PeerlessBetKey_bytes k2 H2). intros E.
    apply (f_equal (BytesToDbType PeerlessBetKey_codec)) in E.
    rewrite !BytesToDbType_DbTypeToBytes in E by (done || apply _). congruence.
Qed.

(** The key the iterations over a table of bets start from. *)
Definition seek_height (height : Z) : PeerlessBetKey :=
  {| bk_blockHeight := height; bk_outPoint := COutPoint_null |}.

Lemma seek_height_kle h k : 0 < op_hash (bk_outPoint k) ->
  kle (seek_height h) k <-> h <= bk_blockHeight k.
Proof.
  intros Hh. unfold kle, key_seq, PeerlessBetKey_key_seq. cbn [lex_le].
  cbn [seek_height bk_blockHeight bk_outPoint COutPoint_null op_hash]. lia.
Qed.

(** What a Seek to a height finds.  In a table of bets whose outpoints
    have a non-zero transaction hash, iterating a cache from
    PeerlessBetKey{height, COutPoint()} visits exactly the bets of that and
    later heights, each once, in ascending order of the serialized keys. *)
Theorem seek_height_entries {V} (s : CFlushableStorageKV (gmap PeerlessBetKey V) PeerlessBetKey V) height :
  (forall k v, fs_view s !! k = Some v -> 0 < op_hash (bk_outPoint k)) ->
  entries_sorted (fsIterate s (seek_height height)) /\
  forall k v, (k, v) ∈ fsIterate s (seek_height height) <->
    fs_view s !! k = Some v /\ height <= bk_blockHeight k.
Proof.
  intros Hh. rewrite fsIterate_view. split.
  - apply entries_sorted_filter, sorted_entries_sorted.
  - intros k v. unfold seek_entries. rewrite list_elem_of_filter, elem_of_sorted_entries. simpl.
    split; intros [H1 H2]; (split; [|]); try done; eapply seek_height_kle; eauto.
Qed.

(** The values of the betting tables round-trip.  A bet, a field bet, a
    chain game bet, a quick game bet, the undo vector of a transaction, an
    event and a payout record are read back from the bytes they were written
    as, provided their fields fit the widths written, the address codec
    inverts itself on the player's address, and an event created at or above
    the v3 height has the default favourite flag (which is not written). *)
Theorem DbTypes_roundtrip p E D b f c q u e pi :
  SerOk (CPeerlessBetDB_codec p E D) b -> SerOk (CFieldBetDB_codec E D) f ->
  SerOk (CChainGamesBetDB_codec E D) c -> SerOk (CQuickGamesBetDB_codec E D) q ->
  SerOk (vecc (CBettingUndoDB_codec p)) u -> SerOk (CPeerlessExtendedEventDB_codec p) e ->
  SerOk CPayoutInfoDB_codec pi ->
  BytesToDbType (CPeerlessBetDB_codec p E D) (DbTypeToBytes (CPeerlessBetDB_codec p E D) b) = Some b /\
  BytesToDbType (CFieldBetDB_codec E D) (DbTypeToBytes (CFieldBetDB_codec E D) f) = Some f /\
  BytesToDbType (CChainGamesBetDB_codec E D) (DbTypeToBytes (CChainGamesBetDB_codec E D) c) = Some c /\
  BytesToDbType (CQuickGamesBetDB_codec E D) (DbTypeToBytes (CQuickGamesBetDB_codec E D) q) = Some q /\
  BytesToDbType (vecc (CBettingUndoDB_codec p)) (DbTypeToBytes (vecc (CBettingUndoDB_codec p)) u) = Some u /\
  BytesToDbType (CPeerlessExtendedEventDB_codec p)
    (DbTypeToBytes (CPeerlessExtendedEventDB_codec p) e) = Some e /\
  BytesToDbType CPayoutInfoDB_codec (DbTypeToBytes CPayoutInfoDB_codec pi) = Some pi.
Proof. intros. split_and!; by apply BytesToDbType_DbTypeToBytes; try apply _. Qed.
