(* ===== verification/Transaction.v ===== *)
(** * Transactions (src/src/primitives/transaction.h, .cpp, the tests of scripts
    they use in src/src/script/script.h, .cpp)

    A transaction with all its fields.  Its hash is the field of the same name:
    the code computes it once, when the object is made.  [None] stands for an
    exception or a failed assertion. *)

From S2P Require Import Prelude Serialize BetTx Params.

(** ** Scripts *)
Definition OP_ZEROCOINMINT : Z := 0xc1.
Definition OP_ZEROCOINSPEND : Z := 0xc2.
Definition OP_ZEROCOINPUBLICSPEND : Z := 0xc3.
Definition MAX_SCRIPT_SIZE : Z := 10000.

Definition StartsWithOpcode (opcode : Z) (script : list Z) : bool :=
  match script with b :: _ => b =? opcode | [] => false end.

Definition IsUnspendable (script : list Z) : bool :=
  StartsWithOpcode OP_RETURN script || (MAX_SCRIPT_SIZE <? Z.of_nat (length script)).

(** ** Inputs and outputs *)
Definition COutPoint_IsNull (o : COutPoint) : bool := (op_hash o =? 0) && (op_n o =? NULL_INDEX).

Record CTxIn := { txin_prevout : COutPoint; txin_scriptSig : list Z; txin_nSequence : Z }.

Definition SEQUENCE_FINAL : Z := 0xffffffff.
Definition SEQUENCE_LOCKTIME_DISABLE_FLAG : Z := 2 ^ 31.
Definition SEQUENCE_LOCKTIME_TYPE_FLAG : Z := 2 ^ 22.
Definition SEQUENCE_LOCKTIME_MASK : Z := 0x0000ffff.
Definition SEQUENCE_LOCKTIME_GRANULARITY : Z := 9.

Definition CTxIn_IsZerocoinSpend (i : CTxIn) : bool :=
  (op_hash (txin_prevout i) =? 0) && StartsWithOpcode OP_ZEROCOINSPEND (txin_scriptSig i).

Definition CTxIn_IsZerocoinPublicSpend (i : CTxIn) : bool := StartsWithOpcode OP_ZEROCOINPUBLICSPEND (txin_scriptSig i).

Definition CTxOut_null : CTxOut := {| nValue := -1; scriptPubKey := [] |}.
Definition CTxOut_IsNull (o : CTxOut) : bool := nValue o =? -1.
Definition CTxOut_IsEmpty (o : CTxOut) : bool := (nValue o =? 0) && bool_decide (scriptPubKey o = []).
Definition CTxOut_IsZerocoinMint (o : CTxOut) : bool := StartsWithOpcode OP_ZEROCOINMINT (scriptPubKey o).

(** ** Transactions *)
Record CTx := {
  ctx_hash : uint256;
  ctx_nVersion : Z;
  ctx_nType : Z;
  ctx_vin : list CTxIn;
  ctx_vout : list CTxOut;
  ctx_nLockTime : Z;
  ctx_vExtraPayload : list Z;
}.

(** What betting and tokens see of it. *)
Definition tx_of (tx : CTx) : CTransaction :=
  {| tx_hash := ctx_hash tx; tx_vin := txin_prevout <$> ctx_vin tx; tx_vout := ctx_vout tx |}.

Definition HasZerocoinSpendInputs_tx (tx : CTx) : bool :=
  existsb (fun i => CTxIn_IsZerocoinSpend i || CTxIn_IsZerocoinPublicSpend i) (ctx_vin tx).

Definition HasZerocoinMintOutputs (tx : CTx) : bool := existsb CTxOut_IsZerocoinMint (ctx_vout tx).

Definition HasZerocoinPublicSpendInputs (tx : CTx) : bool := existsb CTxIn_IsZerocoinPublicSpend (ctx_vin tx).

Definition ContainsZerocoins (tx : CTx) : bool :=
  HasZerocoinSpendInputs_tx tx || HasZerocoinPublicSpendInputs tx || HasZerocoinMintOutputs tx.

Definition IsCoinBase (tx : CTx) : bool :=
  match ctx_vin tx with
  | [i] => COutPoint_IsNull (txin_prevout i) && negb (ContainsZerocoins tx)
  | _ => false
  end.

Definition IsCoinStake (tx : CTx) : bool :=
  match ctx_vin tx with
  | [] => false
  | i :: _ =>
      let fAllowNull := CTxIn_IsZerocoinSpend i in
      if COutPoint_IsNull (txin_prevout i) && negb fAllowNull then false
      else (2 <=? length (ctx_vout tx))%nat && match ctx_vout tx with o :: _ => CTxOut_IsEmpty o | [] => false end
  end.

Definition IsGenerated_tx (tx : CTx) : bool := IsCoinBase tx || IsCoinStake tx.

(** ** Values *)
Fixpoint value_out (vout : list CTxOut) (nValueOut : Z) : option Z :=
  match vout with
  | [] => Some nValueOut
  | o :: vout =>
      if negb (MoneyRange (nValue o)) || negb (MoneyRange (i64 (nValueOut + nValue o))) then None
      else value_out vout (i64 (nValueOut + nValue o))
  end.

Definition GetValueOut (tx : CTx) : option Z :=
  nValueOut ← value_out (ctx_vout tx) 0;
  if MoneyRange nValueOut then Some nValueOut else None.

(** {nValueOut, nValueBurned}; the tests for a wrap are made on the wrapped sum. *)
Fixpoint AddVoutValues (vout : list CTxOut) (nValueOut nValueBurned : Z) : option (Z * Z) :=
  match vout with
  | [] => Some (nValueOut, nValueBurned)
  | o :: vout =>
      if nValue o <? 0 then None
      else if i64 (nValueOut + nValue o) <? nValueOut then None
      else
        nValueBurned ←
          (if IsUnspendable (scriptPubKey o) then
             if i64 (nValueBurned + nValue o) <? nValueBurned then None else Some (i64 (nValueBurned + nValue o))
           else Some nValueBurned);
        AddVoutValues vout (i64 (nValueOut + nValue o)) nValueBurned
  end.

Fixpoint value_burned (vout : list CTxOut) (nValueBurned : Z) : option Z :=
  match vout with
  | [] => Some nValueBurned
  | o :: vout =>
      if IsUnspendable (scriptPubKey o) then
        if nValue o <? 0 then None
        else if i64 (nValueBurned + nValue o) <? nValueBurned then None
        else value_burned vout (i64 (nValueBurned + nValue o))
      else value_burned vout nValueBurned
  end.

Definition GetValueBurned (tx : CTx) : option Z := value_burned (ctx_vout tx) 0.

Definition GetZerocoinSpent (tx : CTx) : Z :=
  foldl (fun v i => if CTxIn_IsZerocoinSpend i then i64 (v + txin_nSequence i * COIN) else v) 0 (ctx_vin tx).

(** ** Properties *)
Definition sum_values (vout : list CTxOut) : Z := foldr (fun o acc => nValue o + acc) 0 vout.
Definition sum_burned (vout : list CTxOut) : Z :=
  foldr (fun o acc => (if IsUnspendable (scriptPubKey o) then nValue o else 0) + acc) 0 vout.

Lemma MoneyRange_bounds v : MoneyRange v = true <-> 0 <= v <= MAX_MONEY.
Proof. unfold MoneyRange. rewrite andb_true_iff, !Z.leb_le. done. Qed.

Lemma i64_small z : inS 64 z -> i64 z = z.
Proof. intros. by apply wrapS_small. Qed.
