(* ===== verification/TxCodec.v ===== *)
(** * Transactions as bytes (the serialization of CTxIn, CTxOut, CTransaction and
    CMutableTransaction in src/src/primitives/transaction.h)

    Version and type share one 32-bit integer; the extra payload is there only
    for version 3 and a special type.  The hash of a transaction is computed when
    the object is made. *)

From S2P Require Import Prelude Serialize Params BetTx BetKeys Transaction.

Definition CTxIn_codec : codec CTxIn :=
  isoc (fun i => (txin_prevout i, (txin_scriptSig i, txin_nSequence i))) (fun '(p, (s, n)) => Build_CTxIn p s n)
       (COutPoint_codec ⊗ bytesc ⊗ u32c).

Definition CTxOut_codec : codec CTxOut :=
  isoc (fun o => (nValue o, scriptPubKey o)) (fun '(v, s) => Build_CTxOut v s) (i64c ⊗ bytesc).

(** nVersion | (nType << 16), and back. *)
Definition n32bitVersion (nVersion nType : Z) : Z := i32 (Z.lor nVersion (Z.shiftl nType 16)).
Definition version_of (n : Z) : Z := wrapS 16 (Z.land n 0xffff).
Definition type_of (n : Z) : Z := u16 (Z.land (Z.shiftr n 16) 0xffff).

Definition has_payload (nVersion nType : Z) : bool := (nVersion =? 3) && negb (nType =? TRANSACTION_NORMAL).

(** {n32bitVersion, vin, vout, nLockTime} and the payload. *)
Definition tx_fields_codec : codec ((Z * (list CTxIn * (list CTxOut * Z))) * list Z) :=
  condc (i32c ⊗ vecc CTxIn_codec ⊗ vecc CTxOut_codec ⊗ u32c) (fun f => has_payload (version_of (f.1)) (type_of (f.1))) bytesc [].

Definition tx_fields (tx : CTx) : (Z * (list CTxIn * (list CTxOut * Z))) * list Z :=
  ((n32bitVersion (ctx_nVersion tx) (ctx_nType tx), (ctx_vin tx, (ctx_vout tx, ctx_nLockTime tx))), ctx_vExtraPayload tx).

(** CTransaction::Serialize; the condition is on the object here. *)
Definition Serialize_tx (tx : CTx) : list Z :=
  Serialize i32c (n32bitVersion (ctx_nVersion tx) (ctx_nType tx)) ++ Serialize (vecc CTxIn_codec) (ctx_vin tx) ++
  Serialize (vecc CTxOut_codec) (ctx_vout tx) ++ Serialize u32c (ctx_nLockTime tx) ++
  (if has_payload (ctx_nVersion tx) (ctx_nType tx) then Serialize bytesc (ctx_vExtraPayload tx) else []).

Section Hashing.
Context (Hash : list Z -> uint256).

Definition ComputeHash (tx : CTx) : uint256 := Hash (Serialize_tx tx).

Definition make_tx (f : (Z * (list CTxIn * (list CTxOut * Z))) * list Z) : CTx :=
  let '((n, (vin, (vout, nLockTime))), vExtraPayload) := f in
  let tx := {| ctx_hash := 0; ctx_nVersion := version_of n; ctx_nType := type_of n; ctx_vin := vin; ctx_vout := vout;
               ctx_nLockTime := nLockTime; ctx_vExtraPayload := vExtraPayload |} in
  {| ctx_hash := ComputeHash tx; ctx_nVersion := version_of n; ctx_nType := type_of n; ctx_vin := vin; ctx_vout := vout;
     ctx_nLockTime := nLockTime; ctx_vExtraPayload := vExtraPayload |}.

Definition Unserialize_tx (s : list Z) : option (CTx * list Z) :=
  '(f, s) ← Unserialize tx_fields_codec s; Some (make_tx f, s).
End Hashing.

Definition GetSerializeSize (tx : CTx) : Z := Z.of_nat (length (Serialize_tx tx)).

(** ** Round trip *)
#[export] Instance CTxIn_laws : CodecLaws CTxIn_codec.
Proof. apply isoc_laws; [apply _|by intros []]. Qed.
#[export] Instance CTxOut_laws : CodecLaws CTxOut_codec.
Proof. apply isoc_laws; [apply _|by intros []]. Qed.

Lemma tx_fields_laws : CodecLaws tx_fields_codec.
Proof. unfold tx_fields_codec. apply _. Qed.

(** A version that is not negative keeps its bits apart from those of the type. *)
Lemma lor_shiftl16 v t : 0 <= v < 2 ^ 16 -> Z.lor v (Z.shiftl t 16) = v + t * 2 ^ 16.
Proof.
  intros Hv. rewrite <- (Z.shiftl_mul_pow2 t 16) by lia.
  assert (Z.land v (Z.shiftl t 16) = 0) as H0.
  { apply Z.bits_inj'. intros i Hi. rewrite Z.land_spec, Z.bits_0.
    destruct (Z_lt_le_dec i 16); [rewrite Z.shiftl_spec_low by done; apply andb_false_r|].
    rewrite (Z.bits_above_log2 v i); [done|lia|]. destruct (Z.eq_dec v 0) as [->|]; [cbn; lia|].
    apply Z.log2_lt_pow2; [lia|]. eapply Z.lt_le_trans; [apply Hv|]. apply Z.pow_le_mono_r; lia. }
  rewrite <- Z.lxor_lor by done. by rewrite Z.add_nocarry_lxor.
Qed.

Lemma version_type_split v t :
  0 <= v < 2 ^ 15 -> inU 16 t -> version_of (n32bitVersion v t) = v /\ type_of (n32bitVersion v t) = t.
Proof.
  intros Hv Ht. unfold n32bitVersion, version_of, type_of. rewrite lor_shiftl16 by lia.
  change 0xffff with (Z.ones 16). rewrite !Z.land_ones by lia. rewrite Z.shiftr_div_pow2 by lia.
  unfold wrapS, wrapU, inU in *. change (2 ^ (16 - 1)) with 32768. change (2 ^ (32 - 1)) with 2147483648.
  change (2 ^ 16) with 65536 in *. change (2 ^ 32) with 4294967296 in *. change (2 ^ 15) with 32768 in *. split; Z.div_mod_to_equations; lia.
Qed.

(** The values that fit. *)
Definition TxOk (tx : CTx) : Prop :=
  0 <= ctx_nVersion tx < 2 ^ 15 /\ inU 16 (ctx_nType tx) /\ SerOk (vecc CTxIn_codec) (ctx_vin tx) /\
  SerOk (vecc CTxOut_codec) (ctx_vout tx) /\ inU 32 (ctx_nLockTime tx) /\
  (if has_payload (ctx_nVersion tx) (ctx_nType tx) then SerOk bytesc (ctx_vExtraPayload tx) else ctx_vExtraPayload tx = []).

Lemma Serialize_tx_fields tx : TxOk tx -> Serialize_tx tx = Serialize tx_fields_codec (tx_fields tx) /\ SerOk tx_fields_codec (tx_fields tx).
Proof.
  intros (Hv & Ht & Hi & Ho & Hl & Hp). destruct (version_type_split _ _ Hv Ht) as [Ev Et].
  unfold Serialize_tx, tx_fields_codec, tx_fields, condc, pairc. cbn [Serialize SerOk fst snd]. rewrite Ev, Et.
  rewrite <- !app_assoc. split; [done|]. split; [|by destruct (has_payload _ _)]. split; [|done].
  apply wrapS_range. lia.
Qed.

(** Reading a transaction that was written gives it back, with the rest of the
    stream; versions are not negative, and the hash is that of the bytes. *)
Theorem Unserialize_Serialize_tx Hash tx rest :
  TxOk tx -> ctx_hash tx = ComputeHash Hash tx ->
  Unserialize_tx Hash (Serialize_tx tx ++ rest) = Some (tx, rest).
Proof.
  intros Hok Hh. destruct (Serialize_tx_fields tx Hok) as [Es Hs]. unfold Unserialize_tx. rewrite Es.
  pose proof tx_fields_laws. rewrite unser_ser by done. cbn [mbind option_bind]. destruct Hok as (Hv & Ht & _).
  destruct (version_type_split _ _ Hv Ht) as [Ev Et]. unfold make_tx, tx_fields. cbn -[ComputeHash]. rewrite Ev, Et.
  destruct tx as [h v t vin vout l p]. cbn -[ComputeHash] in *. rewrite Hh. done.
Qed.

(** A negative version swallows the type: the same bytes for any two types. *)
Theorem Serialize_tx_negative_version tx tx' :
  - 2 ^ 15 <= ctx_nVersion tx < 0 -> inU 16 (ctx_nType tx) -> inU 16 (ctx_nType tx') ->
  tx' = {| ctx_hash := ctx_hash tx; ctx_nVersion := ctx_nVersion tx; ctx_nType := ctx_nType tx'; ctx_vin := ctx_vin tx;
           ctx_vout := ctx_vout tx; ctx_nLockTime := ctx_nLockTime tx; ctx_vExtraPayload := ctx_vExtraPayload tx |} ->
  Serialize_tx tx' = Serialize_tx tx.
Proof.
  intros Hv Ht Ht' E. assert (forall t, inU 16 t -> n32bitVersion (ctx_nVersion tx) t = ctx_nVersion tx) as Hn.
  { intros t Hr. unfold n32bitVersion. replace (Z.lor (ctx_nVersion tx) (Z.shiftl t 16)) with
      (Z.lor (ctx_nVersion tx mod 2 ^ 16) (Z.shiftl (Z.lor (ctx_nVersion tx / 2 ^ 16) t) 16)).
    - rewrite lor_shiftl16 by (apply Z.mod_pos_bound; lia).
      replace (ctx_nVersion tx / 2 ^ 16) with (-1) by (change (2 ^ 16) with 65536; Z.div_mod_to_equations; lia).
      rewrite Z.lor_m1_l. unfold wrapS. change (2 ^ (32 - 1)) with 2147483648. change (2 ^ 32) with 4294967296.
      change (2 ^ 16) with 65536. Z.div_mod_to_equations. lia.
    - rewrite Z.shiftl_lor, Z.lor_assoc. f_equal. rewrite lor_shiftl16 by (apply Z.mod_pos_bound; lia).
      pose proof (Z.div_mod (ctx_nVersion tx) (2 ^ 16) ltac:(lia)). lia. }
  unfold Serialize_tx. rewrite E. cbn [ctx_nVersion ctx_nType ctx_vin ctx_vout ctx_nLockTime ctx_vExtraPayload]. rewrite !Hn by done.
  unfold has_payload. by rewrite (proj2 (Z.eqb_neq (ctx_nVersion tx) 3)) by lia.
Qed.
