(* ===== verification/Coins.v ===== *)
(** * Unspent coins (src/src/coins.h, src/src/coins.cpp, CCoinsViewDB of
    src/src/txdb.cpp)

    A view of the coins is a database or a cache on top of another view; caches
    are stacked.  The interface is the class [CCoinsView]: its operations may
    change the state even when the code calls them const, because a cache keeps
    what it reads.  What a view promises to the cache above it is
    [CCoinsViewLaws]: an abstract map of the coins that are not spent, and what
    a batch of entries does to it.  The database and the cache over any lawful
    view are instances, so that all stacks are.

    [None] stands for a failed assertion or an exception. *)

From S2P Require Import Prelude Serialize BetTx Params Transaction.

(** ** Coins *)
Record Coin := {
  coin_out : CTxOut;
  coin_fCoinBase : bool;
  coin_fCoinStake : bool;
  coin_nHeight : Z;
}.

#[export] Instance Coin_eq_dec : EqDecision Coin.
Proof. solve_decision. Defined.

Definition Coin_init : Coin :=
  {| coin_out := CTxOut_null; coin_fCoinBase := false; coin_fCoinStake := false; coin_nHeight := 0 |}.

(** nHeight has 30 bits. *)
Definition Coin_of (out : CTxOut) (nHeight : Z) (fCoinBase fCoinStake : bool) : Coin :=
  {| coin_out := out; coin_fCoinBase := fCoinBase; coin_fCoinStake := fCoinStake; coin_nHeight := wrapU 30 nHeight |}.

Definition Coin_Clear (c : Coin) : Coin := Coin_init.

Definition Coin_IsGenerated (c : Coin) : bool := coin_fCoinBase c || coin_fCoinStake c.

Definition IsSpent (c : Coin) : bool := CTxOut_IsNull (coin_out c).

(** An entry of a cache; its flags are two bits. *)
Record CCoinsCacheEntry := { ce_coin : Coin; ce_DIRTY : bool; ce_FRESH : bool }.

Abbreviation CCoinsMap := (gmap COutPoint CCoinsCacheEntry).

(** ** The interface of a view *)
Class CCoinsView (S : Type) := {
  GetCoin : S -> COutPoint -> S * option Coin;
  GetBestBlock : S -> S * uint256;
  BatchWrite : S -> list (COutPoint * CCoinsCacheEntry) -> uint256 -> option (S * bool);
}.

(** What an entry may be over a view: it is dirty or agrees with the view, and
    a fresh one is not in the view. *)
Definition entry_ok (v : gmap COutPoint Coin) (p : COutPoint) (e : CCoinsCacheEntry) : Prop :=
  (ce_DIRTY e = false -> v !! p = if IsSpent (ce_coin e) then None else Some (ce_coin e)) /\
  (ce_FRESH e = true -> v !! p = None).

(** What writing an entry does to the coins. *)
Definition write_entry (v : gmap COutPoint Coin) (pe : COutPoint * CCoinsCacheEntry) : gmap COutPoint Coin :=
  if ce_DIRTY (pe.2)
  then if IsSpent (ce_coin (pe.2)) then delete (pe.1) v else <[pe.1 := ce_coin (pe.2)]> v
  else v.

Class CCoinsViewLaws (S : Type) `{!CCoinsView S} := {
  view_of : S -> gmap COutPoint Coin;
  view_inv : S -> Prop;
  view_unspent s p c : view_inv s -> view_of s !! p = Some c -> IsSpent c = false;
  GetCoin_law s p : view_inv s ->
    view_inv (GetCoin s p).1 /\ view_of (GetCoin s p).1 = view_of s /\ (GetCoin s p).2 = view_of s !! p;
  GetBestBlock_law s : view_inv s -> view_inv (GetBestBlock s).1 /\ view_of (GetBestBlock s).1 = view_of s;
  BatchWrite_law s l h :
    view_inv s -> h <> 0 -> NoDup l.*1 -> Forall (fun pe => entry_ok (view_of s) (pe.1) (pe.2)) l ->
    exists s', BatchWrite s l h = Some (s', true) /\ view_inv s' /\ view_of s' = foldl write_entry (view_of s) l /\
               (GetBestBlock s').2 = h;
}.

Lemma write_entry_ne v pe q : q <> pe.1 -> write_entry v pe !! q = v !! q.
Proof.
  intros H. unfold write_entry. destruct (ce_DIRTY _); [|done].
  destruct (IsSpent _); [by rewrite lookup_delete_ne|by rewrite lookup_insert_ne].
Qed.

Lemma write_entry_eq v pe :
  entry_ok v (pe.1) (pe.2) ->
  write_entry v pe !! pe.1 = if IsSpent (ce_coin (pe.2)) then None else Some (ce_coin (pe.2)).
Proof.
  intros [H _]. unfold write_entry. destruct (ce_DIRTY (pe.2)); [|by apply H].
  destruct (IsSpent _); [by rewrite lookup_delete_eq|by rewrite lookup_insert_eq].
Qed.

Lemma foldl_write_entry_unspent v l :
  map_Forall (fun _ c => IsSpent c = false) v -> map_Forall (fun _ c => IsSpent c = false) (foldl write_entry v l).
Proof.
  revert v. induction l as [|pe l IH]; intros v Hv; [done|]. cbn. apply IH. unfold write_entry.
  destruct (ce_DIRTY _); [|done]. destruct (IsSpent _) eqn:E; [by apply map_Forall_delete|by apply map_Forall_insert_2].
Qed.

(** The coins after a batch: an entry decides for its own outpoint. *)
Lemma foldl_write_entry_lookup v l q :
  NoDup l.*1 -> Forall (fun pe => entry_ok v (pe.1) (pe.2)) l ->
  foldl write_entry v l !! q =
    match list_to_map (M := CCoinsMap) l !! q with
    | Some e => if IsSpent (ce_coin e) then None else Some (ce_coin e)
    | None => v !! q
    end.
Proof.
  revert v. induction l as [|[p e] l IH]; intros v Hnd Hok; [done|]. csimpl in *.
  apply NoDup_cons in Hnd as [Hp Hnd]. apply Forall_cons in Hok as [He Hok]. cbn [fst snd] in *.
  assert (Forall (fun pe => entry_ok (write_entry v (p, e)) (pe.1) (pe.2)) l) as Hok'.
  { apply Forall_forall. intros [p' e'] Hin. rewrite Forall_forall in Hok. specialize (Hok _ Hin). cbn [fst snd] in *.
    unfold entry_ok in *. rewrite write_entry_ne; [done|]. cbn. intros ->. apply Hp.
    apply list_elem_of_fmap. by exists (p, e'). }
  rewrite IH by done. destruct (decide (q = p)) as [->|Hne].
  - rewrite lookup_insert_eq. rewrite not_elem_of_list_to_map_1 by done.
    exact (write_entry_eq v (p, e) He).
  - rewrite lookup_insert_ne by done. destruct (list_to_map l !! q); [done|]. by rewrite write_entry_ne.
Qed.

(** ** The cache *)
Record CCoinsViewCache (S : Type) := {
  cv_base : S;
  cv_hashBlock : uint256;
  cv_cacheCoins : CCoinsMap;
}.
Arguments cv_base {S} _.
Arguments cv_hashBlock {S} _.
Arguments cv_cacheCoins {S} _.
#[export] Instance CCoinsViewCache_eta S : Settable (CCoinsViewCache S) := fun c =>
  {| cv_base := cv_base c; cv_hashBlock := cv_hashBlock c; cv_cacheCoins := cv_cacheCoins c |}.

Section Cache.
Context {S : Type} `{!CCoinsView S}.
Implicit Types c : CCoinsViewCache S.

Definition CCoinsViewCache_of (base : S) : CCoinsViewCache S :=
  {| cv_base := base; cv_hashBlock := 0; cv_cacheCoins := ∅ |}.

Definition FetchCoin c (outpoint : COutPoint) : CCoinsViewCache S * option CCoinsCacheEntry :=
  match cv_cacheCoins c !! outpoint with
  | Some e => (c, Some e)
  | None =>
      let '(base, tmp) := GetCoin (cv_base c) outpoint in
      match tmp with
      | None => (c <| cv_base := base |>, None)
      | Some tmp =>
          let e := {| ce_coin := tmp; ce_DIRTY := false; ce_FRESH := IsSpent tmp |} in
          (c <| cv_base := base |> <| cv_cacheCoins := <[outpoint := e]> (cv_cacheCoins c) |>, Some e)
      end
  end.

Definition cacheGetCoin c (outpoint : COutPoint) : CCoinsViewCache S * option Coin :=
  let '(c, it) := FetchCoin c outpoint in
  match it with
  | Some e => (c, if IsSpent (ce_coin e) then None else Some (ce_coin e))
  | None => (c, None)
  end.

Definition HaveCoin c (outpoint : COutPoint) : CCoinsViewCache S * bool :=
  let '(c, it) := FetchCoin c outpoint in
  (c, match it with Some e => negb (IsSpent (ce_coin e)) | None => false end).

Definition HaveCoinInCache c (outpoint : COutPoint) : bool :=
  match cv_cacheCoins c !! outpoint with Some e => negb (IsSpent (ce_coin e)) | None => false end.

Definition AccessCoin c (outpoint : COutPoint) : CCoinsViewCache S * Coin :=
  let '(c, it) := FetchCoin c outpoint in
  (c, match it with Some e => ce_coin e | None => Coin_init end).

Definition AddCoin c (outpoint : COutPoint) (coin : Coin) (possible_overwrite : bool) : option (CCoinsViewCache S) :=
  if IsSpent coin then None
  else if IsUnspendable (scriptPubKey (coin_out coin)) then Some c
  else
    let e := default {| ce_coin := Coin_init; ce_DIRTY := false; ce_FRESH := false |} (cv_cacheCoins c !! outpoint) in
    if negb possible_overwrite && negb (IsSpent (ce_coin e)) then None
    else
      let fresh := if possible_overwrite then false else negb (ce_DIRTY e) in
      Some (c <| cv_cacheCoins := <[outpoint := {| ce_coin := coin; ce_DIRTY := true; ce_FRESH := ce_FRESH e || fresh |}]>
                                    (cv_cacheCoins c) |>).

(** {the cache, what is moved out, the result} *)
Definition SpendCoin c (outpoint : COutPoint) : CCoinsViewCache S * option Coin :=
  let '(c, it) := FetchCoin c outpoint in
  match it with
  | None => (c, None)
  | Some e =>
      (c <| cv_cacheCoins :=
              if ce_FRESH e then delete outpoint (cv_cacheCoins c)
              else <[outpoint := {| ce_coin := Coin_Clear (ce_coin e); ce_DIRTY := true; ce_FRESH := false |}]>
                     (cv_cacheCoins c) |>, Some (ce_coin e))
  end.

Definition cacheGetBestBlock c : CCoinsViewCache S * uint256 :=
  if cv_hashBlock c =? 0 then
    let '(base, h) := GetBestBlock (cv_base c) in (c <| cv_base := base |> <| cv_hashBlock := h |>, h)
  else (c, cv_hashBlock c).

Definition SetBestBlock c (hashBlockIn : uint256) : CCoinsViewCache S := c <| cv_hashBlock := hashBlockIn |>.

(** One entry of the loop of BatchWrite. *)
Definition batch_entry (cacheCoins : CCoinsMap) (pe : COutPoint * CCoinsCacheEntry) : option CCoinsMap :=
  let '(p, it) := pe in
  if negb (ce_DIRTY it) then Some cacheCoins
  else
    match cacheCoins !! p with
    | None =>
        if ce_FRESH it && IsSpent (ce_coin it) then Some cacheCoins
        else Some (<[p := {| ce_coin := ce_coin it; ce_DIRTY := true; ce_FRESH := ce_FRESH it |}]> cacheCoins)
    | Some itUs =>
        if ce_FRESH it && negb (IsSpent (ce_coin itUs)) then None
        else if ce_FRESH itUs && IsSpent (ce_coin it) then Some (delete p cacheCoins)
        else Some (<[p := {| ce_coin := ce_coin it; ce_DIRTY := true; ce_FRESH := ce_FRESH itUs |}]> cacheCoins)
    end.

Fixpoint batch_entries (cacheCoins : CCoinsMap) (l : list (COutPoint * CCoinsCacheEntry)) : option CCoinsMap :=
  match l with
  | [] => Some cacheCoins
  | pe :: l => cacheCoins ← batch_entry cacheCoins pe; batch_entries cacheCoins l
  end.

Definition cacheBatchWrite c (mapCoins : list (COutPoint * CCoinsCacheEntry)) (hashBlockIn : uint256) :
    option (CCoinsViewCache S * bool) :=
  cacheCoins ← batch_entries (cv_cacheCoins c) mapCoins;
  Some (c <| cv_cacheCoins := cacheCoins |> <| cv_hashBlock := hashBlockIn |>, true).

(** [order]: the order in which the unordered map is walked. *)
Definition Flush (order : CCoinsMap -> list (COutPoint * CCoinsCacheEntry)) c : option (CCoinsViewCache S * bool) :=
  '(base, fOk) ← BatchWrite (cv_base c) (order (cv_cacheCoins c)) (cv_hashBlock c);
  Some (c <| cv_base := base |> <| cv_cacheCoins := ∅ |>, fOk).

Definition Uncache c (outpoint : COutPoint) : CCoinsViewCache S :=
  match cv_cacheCoins c !! outpoint with
  | Some e => if negb (ce_DIRTY e) && negb (ce_FRESH e)
              then c <| cv_cacheCoins := delete outpoint (cv_cacheCoins c) |> else c
  | None => c
  end.

Definition GetCacheSize c : nat := size (cv_cacheCoins c).

(** ** Functions over the cache *)
Definition GetValueIn c (tx : CTx) : CCoinsViewCache S * Z :=
  if IsCoinBase tx then (c, 0)
  else if HasZerocoinSpendInputs_tx tx then (c, GetZerocoinSpent tx)
  else foldl (fun '(c, nResult) i => let '(c, coin) := AccessCoin c (txin_prevout i) in
                                     (c, i64 (nResult + nValue (coin_out coin)))) (c, 0) (ctx_vin tx).

Fixpoint have_inputs c (vin : list CTxIn) : CCoinsViewCache S * bool :=
  match vin with
  | [] => (c, true)
  | i :: vin => let '(c, b) := HaveCoin c (txin_prevout i) in if b then have_inputs c vin else (c, false)
  end.

Definition HaveInputs_cache c (tx : CTx) : CCoinsViewCache S * bool :=
  if IsCoinBase tx then (c, true) else have_inputs c (ctx_vin tx).

(** MaxBlockSize over the size of an empty output. *)
Definition MAX_OUTPUTS_PER_BLOCK : Z := 2000000 `div` 9.

Fixpoint access_by_txid (fuel : nat) c (txid : uint256) (n : Z) : CCoinsViewCache S * Coin :=
  match fuel with
  | O => (c, Coin_init)
  | Datatypes.S fuel =>
      let '(c, alternate) := AccessCoin c {| op_hash := txid; op_n := n |} in
      if IsSpent alternate then access_by_txid fuel c txid (n + 1) else (c, alternate)
  end.

Definition AccessByTxid c (txid : uint256) : CCoinsViewCache S * Coin :=
  access_by_txid (Z.to_nat MAX_OUTPUTS_PER_BLOCK) c txid 0.

(** The loop of AddCoins, from output [i] on. *)
Fixpoint add_coins c (txid : uint256) (nHeight : Z) (fCoinbase fCoinstake check_for_overwrite : bool)
    (i : Z) (vout : list CTxOut) : option (CCoinsViewCache S) :=
  match vout with
  | [] => Some c
  | o :: vout =>
      let p := {| op_hash := txid; op_n := i |} in
      let '(c, overwrite) := if check_for_overwrite then HaveCoin c p else (c, fCoinbase) in
      c ← AddCoin c p (Coin_of o nHeight fCoinbase fCoinstake) overwrite;
      add_coins c txid nHeight fCoinbase fCoinstake check_for_overwrite (i + 1) vout
  end.

Definition AddCoins c (tx : CTx) (nHeight : Z) (check_for_overwrite : bool) : option (CCoinsViewCache S) :=
  add_coins c (ctx_hash tx) nHeight (IsCoinBase tx) (IsCoinStake tx) check_for_overwrite 0 (ctx_vout tx).
End Cache.

#[export] Instance CCoinsViewCache_view S `{!CCoinsView S} : CCoinsView (CCoinsViewCache S) := {|
  GetCoin := cacheGetCoin;
  GetBestBlock := cacheGetBestBlock;
  BatchWrite := cacheBatchWrite;
|}.

(** ** The database *)

(** The coins and the two markers of what the database represents. *)
Record CCoinsViewDB := {
  db_coins : gmap COutPoint Coin;
  db_best_block : option uint256;
  db_head_blocks : option (list uint256);
}.
#[export] Instance CCoinsViewDB_eta : Settable CCoinsViewDB := fun d =>
  {| db_coins := db_coins d; db_best_block := db_best_block d; db_head_blocks := db_head_blocks d |}.

(** The operations of a batch. *)
Inductive CDBBatchOp :=
  | EraseBest
  | WriteBest (h : uint256)
  | EraseHeads
  | WriteHeads (l : list uint256)
  | EraseCoin (p : COutPoint)
  | WriteCoin (p : COutPoint) (c : Coin).

Definition apply_op (d : CCoinsViewDB) (op : CDBBatchOp) : CCoinsViewDB :=
  match op with
  | EraseBest => d <| db_best_block := None |>
  | WriteBest h => d <| db_best_block := Some h |>
  | EraseHeads => d <| db_head_blocks := None |>
  | WriteHeads l => d <| db_head_blocks := Some l |>
  | EraseCoin p => d <| db_coins := delete p (db_coins d) |>
  | WriteCoin p c => d <| db_coins := <[p := c]> (db_coins d) |>
  end.

(** WriteBatch: all operations of a batch or none. *)
Definition WriteBatch (d : CCoinsViewDB) (batch : list CDBBatchOp) : CCoinsViewDB := foldl apply_op d batch.

Section DB.
(** batch.SizeEstimate() > batch_size: when a partial batch is written. *)
Context (big : list CDBBatchOp -> bool).

Definition dbGetCoin (d : CCoinsViewDB) (outpoint : COutPoint) : CCoinsViewDB * option Coin := (d, db_coins d !! outpoint).

Definition dbGetBestBlock (d : CCoinsViewDB) : CCoinsViewDB * uint256 := (d, default 0 (db_best_block d)).

Definition GetHeadBlocks (d : CCoinsViewDB) : list uint256 := default [] (db_head_blocks d).

Definition entry_ops (pe : COutPoint * CCoinsCacheEntry) : list CDBBatchOp :=
  if ce_DIRTY (pe.2)
  then [if IsSpent (ce_coin (pe.2)) then EraseCoin (pe.1) else WriteCoin (pe.1) (ce_coin (pe.2))]
  else [].

(** The batches the loop writes, and the batch it leaves. *)
Fixpoint db_batches (batch : list CDBBatchOp) (mapCoins : list (COutPoint * CCoinsCacheEntry)) :
    list (list CDBBatchOp) * list CDBBatchOp :=
  match mapCoins with
  | [] => ([], batch)
  | pe :: mapCoins =>
      let batch := batch ++ entry_ops pe in
      if big batch then let '(l, b) := db_batches [] mapCoins in (batch :: l, b)
      else db_batches batch mapCoins
  end.

Definition old_tip (d : CCoinsViewDB) (hashBlock : uint256) : option uint256 :=
  let tip := (dbGetBestBlock d).2 in
  if tip =? 0 then
    match GetHeadBlocks d with
    | [h0; h1] => if h0 =? hashBlock then Some h1 else None
    | _ => Some tip
    end
  else Some tip.

(** All batches of BatchWrite, in the order they are written. *)
Definition write_batches (mapCoins : list (COutPoint * CCoinsCacheEntry)) (hashBlock tip : uint256) :
    list (list CDBBatchOp) :=
  let '(partial, batch) := db_batches [EraseBest; WriteHeads [hashBlock; tip]] mapCoins in
  partial ++ [batch ++ [EraseHeads; WriteBest hashBlock]].

Definition dbBatchWrite (d : CCoinsViewDB) (mapCoins : list (COutPoint * CCoinsCacheEntry)) (hashBlock : uint256) :
    option (CCoinsViewDB * bool) :=
  if hashBlock =? 0 then None
  else
    tip ← old_tip d hashBlock;
    Some (foldl WriteBatch d (write_batches mapCoins hashBlock tip), true).

#[export] Instance CCoinsViewDB_view : CCoinsView CCoinsViewDB := {|
  GetCoin := dbGetCoin;
  GetBestBlock := dbGetBestBlock;
  BatchWrite := dbBatchWrite;
|}.

(** *** The database keeps the promise *)
Lemma db_batches_ops batch l :
  concat (db_batches batch l).1 ++ (db_batches batch l).2 = batch ++ concat (entry_ops <$> l).
Proof.
  revert batch. induction l as [|pe l IH]; intros batch; cbn [db_batches]; [cbn; by rewrite app_nil_r|].
  cbv zeta. destruct (big (batch ++ entry_ops pe)).
  - specialize (IH []). destruct (db_batches [] l) as [bs b]. cbn in *. rewrite <- !app_assoc, IH. done.
  - rewrite IH. cbn. by rewrite <- app_assoc.
Qed.

Lemma foldl_WriteBatch d bs : foldl WriteBatch d bs = foldl apply_op d (concat bs).
Proof. revert d. induction bs as [|b bs IH]; intros d; [done|]. cbn. by rewrite IH, foldl_app. Qed.

Lemma foldl_entry_ops d l :
  foldl apply_op d (concat (entry_ops <$> l)) = d <| db_coins := foldl write_entry (db_coins d) l |>.
Proof.
  revert d. induction l as [|pe l IH]; intros d; [by destruct d|]. csimpl. rewrite foldl_app, IH.
  unfold entry_ops, write_entry. destruct (ce_DIRTY _); [|done]. by destruct (IsSpent _).
Qed.

Lemma dbBatchWrite_spec d l h tip :
  foldl WriteBatch d (write_batches l h tip) =
  {| db_coins := foldl write_entry (db_coins d) l; db_best_block := Some h; db_head_blocks := None |}.
Proof.
  unfold write_batches. pose proof (db_batches_ops [EraseBest; WriteHeads [h; tip]] l) as H.
  destruct (db_batches _ l) as [partial batch]. cbn in H. rewrite foldl_WriteBatch, concat_app. cbn [concat].
  rewrite app_nil_r, app_assoc, H, !foldl_app. cbn [foldl app]. rewrite foldl_entry_ops. done.
Qed.

(** *** A crash between two batches *)

(** What the first [k] partial batches are: the entries up to some point. *)
Lemma db_batches_take batch l k :
  (k <= length (db_batches batch l).1)%nat -> k <> 0%nat ->
  exists j, concat (take k (db_batches batch l).1) = batch ++ concat (entry_ops <$> take j l).
Proof.
  revert batch k. induction l as [|pe l IH]; intros batch k Hk H0; cbn [db_batches] in *; [cbn in Hk; lia|].
  cbv zeta in *. destruct (big (batch ++ entry_ops pe)).
  - destruct (db_batches [] l) as [bs b] eqn:E. cbn [fst] in *. destruct k as [|k]; [done|]. cbn [take concat].
    destruct (decide (k = 0%nat)) as [->|Hk0].
    + exists 1%nat. cbn. by rewrite !app_nil_r.
    + destruct (IH [] k) as [j Hj]; rewrite ?E in *; cbn in *; [lia|done|]. exists (S j). cbn.
      by rewrite Hj, <- app_assoc.
  - destruct (IH _ k Hk H0) as [j Hj]. exists (S j). cbn. by rewrite Hj, <- app_assoc.
Qed.

(** An entry list decides a coin, or does not touch it. *)
Lemma foldl_write_entry_decides l q :
  (forall v, foldl write_entry v l !! q = v !! q) /\ (forall j v, foldl write_entry v (take j l) !! q = v !! q) \/
  (exists r, forall v, foldl write_entry v l !! q = r).
Proof.
  induction l as [|pe l [[IH1 IH2]|[r IH]]]; [left; split; [done|by intros [|j] v]| |right; exists r; intros v; apply IH].
  destruct (decide (q = pe.1)) as [->|Hne].
  2: { left. split; [|intros [|j]]; intros; cbn; rewrite ?IH1, ?IH2; by rewrite ?write_entry_ne. }
  destruct (ce_DIRTY (pe.2)) eqn:Ed.
  - right. exists (if IsSpent (ce_coin (pe.2)) then None else Some (ce_coin (pe.2))). intros v. cbn. rewrite IH1.
    unfold write_entry. rewrite Ed. destruct (IsSpent _); [apply lookup_delete_eq|apply lookup_insert_eq].
  - left. assert (forall v, write_entry v pe = v) as Hw by (intros; unfold write_entry; by rewrite Ed).
    split; [|intros [|j]]; intros; cbn; by rewrite ?Hw, ?IH1, ?IH2.
Qed.

Lemma foldl_write_entry_again v l j :
  foldl write_entry (foldl write_entry v (take j l)) l = foldl write_entry v l.
Proof.
  apply map_eq. intros q. destruct (foldl_write_entry_decides l q) as [[H1 H2]|[r H]]; [by rewrite !H1, H2|by rewrite !H].
Qed.

(** A crash while the coins are written can be repaired.  Between two of the
    batches the database has no best block and names the two blocks it is
    between, the new and the old one; and from whatever batch the writing
    stopped at, before the first or after the last one included, writing the
    same entries again succeeds and gives the database the uninterrupted write
    would have given. *)
Theorem BatchWrite_crash d l h tip k :
  h <> 0 -> old_tip d h = Some tip ->
  let bs := write_batches l h tip in
  let crashed := foldl WriteBatch d (take k bs) in
  ((0 < k < length bs)%nat -> (dbGetBestBlock crashed).2 = 0 /\ GetHeadBlocks crashed = [h; tip]) /\
  exists d', dbBatchWrite d l h = Some (d', true) /\ dbBatchWrite crashed l h = Some (d', true) /\
             (dbGetBestBlock d').2 = h /\ GetHeadBlocks d' = [].
Proof.
  intros Hh Ht bs crashed.
  assert ((0 < k < length bs)%nat -> exists j, crashed =
    {| db_coins := foldl write_entry (db_coins d) (take j l); db_best_block := None; db_head_blocks := Some [h; tip] |}) as Hmid.
  { intros Hk. subst crashed bs. unfold write_batches in *.
    pose proof (db_batches_take [EraseBest; WriteHeads [h; tip]] l k) as Htk.
    destruct (db_batches _ l) as [partial batch]. cbn [fst] in *. rewrite length_app in Hk. cbn in Hk.
    destruct Htk as [j Hj]; [lia..|]. exists j. rewrite take_app_le by lia. rewrite foldl_WriteBatch, Hj, foldl_app, foldl_entry_ops. done. }
  split; [intros Hk; by destruct (Hmid Hk) as [j ->]|].
  unfold dbBatchWrite. rewrite (proj2 (Z.eqb_neq h 0) Hh), Ht. cbn [mbind option_bind].
  eexists. split; [done|]. rewrite dbBatchWrite_spec. split; [|done].
  destruct (decide (k = 0%nat)) as [->|H0].
  { subst crashed. rewrite take_0. cbn [foldl]. rewrite Ht. cbn [mbind option_bind]. by rewrite dbBatchWrite_spec. }
  destruct (decide (k < length bs)%nat) as [Hlt|Hge].
  - destruct Hmid as [j ->]; [lia|]. unfold old_tip. cbn. rewrite Z.eqb_refl. cbn. rewrite dbBatchWrite_spec. cbn.
    by rewrite foldl_write_entry_again.
  - subst crashed. rewrite take_ge by lia. subst bs. rewrite dbBatchWrite_spec. unfold old_tip. cbn.
    rewrite (proj2 (Z.eqb_neq h 0) Hh). cbn. rewrite dbBatchWrite_spec. cbn.
    by rewrite <- (firstn_all l) at 1; rewrite foldl_write_entry_again.
Qed.

#[export] Program Instance CCoinsViewDB_laws : CCoinsViewLaws CCoinsViewDB := {|
  view_of := db_coins;
  view_inv d := map_Forall (fun _ c => IsSpent c = false) (db_coins d) /\ db_head_blocks d = None;
|}.
Next Obligation. intros d p c [H _] Hc. by apply (H p). Qed.
Next Obligation. done. Qed.
Next Obligation. done. Qed.
Next Obligation.
  intros d l h [Hd Hn] Hh _ _. cbn [BatchWrite CCoinsViewDB_view]. unfold dbBatchWrite.
  rewrite (proj2 (Z.eqb_neq h 0)) by done. unfold old_tip, GetHeadBlocks. rewrite Hn. cbn [default].
  set (tip := (dbGetBestBlock d).2). exists (foldl WriteBatch d (write_batches l h tip)).
  split; [by destruct (tip =? 0)|]. rewrite dbBatchWrite_spec. split_and!; [|done..].
  by apply foldl_write_entry_unspent.
Qed.
End DB.

(** ** The cache keeps the promise, over any view that does *)
Section CacheLaws.
Context {S : Type} `{!CCoinsView S, !CCoinsViewLaws S}.
Implicit Types c : CCoinsViewCache S.

(** The coins of a cache: an entry decides; the view below for the rest. *)
Definition entry_view (e : CCoinsCacheEntry) : option Coin := if IsSpent (ce_coin e) then None else Some (ce_coin e).

Definition cache_view c : gmap COutPoint Coin :=
  merge (fun e b => match e with Some e => entry_view e | None => b end) (cv_cacheCoins c) (view_of (cv_base c)).

#[local] Arguments cache_view : simpl never.

Definition cache_inv c : Prop :=
  view_inv (cv_base c) /\ map_Forall (entry_ok (view_of (cv_base c))) (cv_cacheCoins c).

Lemma cache_view_lookup c p :
  cache_view c !! p = match cv_cacheCoins c !! p with Some e => entry_view e | None => view_of (cv_base c) !! p end.
Proof.
  unfold cache_view. rewrite lookup_merge. destruct (cv_cacheCoins c !! p), (view_of (cv_base c) !! p); done.
Qed.

Lemma cache_view_unspent c p coin : cache_inv c -> cache_view c !! p = Some coin -> IsSpent coin = false.
Proof.
  intros [Hb _]. rewrite cache_view_lookup. destruct (cv_cacheCoins c !! p) as [e|]; [|by apply view_unspent].
  unfold entry_view. destruct (IsSpent (ce_coin e)) eqn:E; [done|]. by intros [= <-].
Qed.

(** Reading keeps the coins and gives the entry of the outpoint. *)
Lemma FetchCoin_spec c p :
  cache_inv c ->
  let c' := (FetchCoin c p).1 in
  cache_inv c' /\ cache_view c' = cache_view c /\ (FetchCoin c p).2 = cv_cacheCoins c' !! p /\
  ((FetchCoin c p).2 = None -> cache_view c !! p = None).
Proof.
  intros [Hb He]. unfold FetchCoin. cbv zeta. destruct (cv_cacheCoins c !! p) as [e|] eqn:E; [cbn; by rewrite E|].
  destruct (GetCoin_law (cv_base c) p Hb) as (Hb' & Hv & Hr). destruct (GetCoin (cv_base c) p) as [b' r]. cbn [fst snd] in *.
  destruct r as [tmp|]; cbn [fst snd].
  - assert (IsSpent tmp = false) as Ht by (apply (view_unspent (cv_base c) p tmp Hb); done).
    split_and!; cbn; [|apply map_eq; intros q|by rewrite lookup_insert_eq|done].
    + split; [done|]. cbn. rewrite Hv. apply map_Forall_insert_2; [|done]. split; cbn; [by rewrite Ht|by rewrite Ht].
    + rewrite !cache_view_lookup. cbn. rewrite Hv. destruct (decide (q = p)) as [->|].
      * rewrite lookup_insert_eq, E. unfold entry_view. cbn. by rewrite Ht.
      * by rewrite lookup_insert_ne.
  - split_and!; cbn; [|apply map_eq; intros q|by rewrite E|].
    + split; [done|]. cbn. by rewrite Hv.
    + by rewrite !cache_view_lookup; cbn; rewrite Hv.
    + intros _. by rewrite cache_view_lookup, E.
Qed.

(** The entry that reading gives is what the cache says of the outpoint. *)
Lemma FetchCoin_view c p :
  cache_inv c -> (FetchCoin c p).2 ≫= entry_view = cache_view c !! p.
Proof.
  intros Hc. destruct (FetchCoin_spec c p Hc) as (Hc' & Hv & Hr & Hn). rewrite <- Hv, cache_view_lookup, <- Hr.
  destruct (FetchCoin c p).2 as [e|]; [done|]. cbn. specialize (Hn eq_refl).
  rewrite <- Hv, cache_view_lookup, <- Hr in Hn. done.
Qed.

Lemma batch_entry_spec c p e :
  cache_inv c -> entry_ok (cache_view c) p e ->
  exists m, batch_entry (cv_cacheCoins c) (p, e) = Some m /\
    cache_inv (c <| cv_cacheCoins := m |>) /\
    cache_view (c <| cv_cacheCoins := m |>) = write_entry (cache_view c) (p, e).
Proof.
  intros [Hb He] [Hd Hf]. unfold batch_entry. destruct (ce_DIRTY e) eqn:Ed; cbn [negb].
  2: { exists (cv_cacheCoins c). split; [done|]. unfold write_entry. cbn. rewrite Ed. by destruct c. }
  assert (forall m, (forall q, q <> p -> m !! q = cv_cacheCoins c !! q) ->
    (match m !! p with Some e => entry_view e | None => view_of (cv_base c) !! p end = entry_view e) ->
    cache_view (c <| cv_cacheCoins := m |>) = write_entry (cache_view c) (p, e)) as Hview.
  { intros m Hq Hp. apply map_eq. intros q. destruct (decide (q = p)) as [->|Hne].
    - rewrite cache_view_lookup. cbn. rewrite Hp. unfold write_entry. cbn. rewrite Ed. unfold entry_view.
      destruct (IsSpent _); [by rewrite lookup_delete_eq|by rewrite lookup_insert_eq].
    - rewrite write_entry_ne by done. rewrite !cache_view_lookup. cbn. by rewrite Hq. }
  assert (forall fr, (fr = true -> view_of (cv_base c) !! p = None) ->
    cache_inv (c <| cv_cacheCoins := <[p := {| ce_coin := ce_coin e; ce_DIRTY := true; ce_FRESH := fr |}]> (cv_cacheCoins c) |>)) as Hins.
  { intros fr Hfr. split; [done|]. cbn. apply map_Forall_insert_2; [|done]. split; [done|exact Hfr]. }
  pose proof (cache_view_lookup c p) as Hl. destruct (cv_cacheCoins c !! p) as [us|] eqn:Eu.
  - destruct (He p us Eu) as [_ Hus].
    assert (ce_FRESH e && negb (IsSpent (ce_coin us)) = false) as ->.
    { destruct (ce_FRESH e); [|done]. specialize (Hf eq_refl). rewrite Hf in Hl. unfold entry_view in Hl.
      by destruct (IsSpent (ce_coin us)). }
    destruct (ce_FRESH us && IsSpent (ce_coin e)) eqn:Efs.
    + apply andb_true_iff in Efs as [Ef Es]. eexists. split; [done|]. split.
      * split; [done|]. cbn. by apply map_Forall_delete.
      * apply Hview; [intros; by apply lookup_delete_ne|]. rewrite lookup_delete_eq. unfold entry_view. rewrite Es. by apply Hus.
    + eexists. split; [done|]. split; [by apply Hins|].
      apply Hview; [intros; by apply lookup_insert_ne|]. by rewrite lookup_insert_eq.
  - destruct (ce_FRESH e && IsSpent (ce_coin e)) eqn:Efs.
    + apply andb_true_iff in Efs as [Ef Es]. eexists. split; [done|]. split; [by destruct c|].
      apply Hview; [done|]. rewrite Eu. unfold entry_view. rewrite Es. rewrite <- Hl. by apply Hf.
    + eexists. split; [done|]. split; [apply Hins; intros Hfr; rewrite <- Hl; by apply Hf|].
      apply Hview; [intros; by apply lookup_insert_ne|]. by rewrite lookup_insert_eq.
Qed.

Lemma batch_entries_spec c l :
  cache_inv c -> NoDup l.*1 -> Forall (fun pe => entry_ok (cache_view c) (pe.1) (pe.2)) l ->
  exists m, batch_entries (cv_cacheCoins c) l = Some m /\ cache_inv (c <| cv_cacheCoins := m |>) /\
    cache_view (c <| cv_cacheCoins := m |>) = foldl write_entry (cache_view c) l.
Proof.
  revert c. induction l as [|[p e] l IH]; intros c Hc Hnd Hok.
  { exists (cv_cacheCoins c). by destruct c. }
  rewrite fmap_cons in Hnd. cbn [batch_entries foldl fst] in *. apply NoDup_cons in Hnd as [Hp Hnd]. apply Forall_cons in Hok as [He Hok]. cbn [fst snd] in *.
  destruct (batch_entry_spec c p e Hc He) as (m1 & E1 & Hc1 & Hv1). rewrite E1. cbn [mbind option_bind].
  destruct (IH (c <| cv_cacheCoins := m1 |>) Hc1 Hnd) as (m2 & E2 & Hc2 & Hv2).
  { rewrite Hv1. apply Forall_forall. intros [p' e'] Hin. rewrite Forall_forall in Hok. specialize (Hok _ Hin). cbn [fst snd] in *.
    unfold entry_ok in *. rewrite write_entry_ne; [done|]. cbn. intros ->. apply Hp.
    apply list_elem_of_fmap. by exists (p, e'). }
  exists m2. split; [done|]. split; [done|]. rewrite <- Hv1. done.
Qed.

#[export] Program Instance CCoinsViewCache_laws : CCoinsViewLaws (CCoinsViewCache S) := {|
  view_of := cache_view;
  view_inv := cache_inv;
|}.
Next Obligation. intros. by eapply cache_view_unspent. Qed.
Next Obligation.
  intros c p Hc. cbn [GetCoin CCoinsViewCache_view]. unfold cacheGetCoin.
  pose proof (FetchCoin_spec c p Hc) as (Hc' & Hv & _). pose proof (FetchCoin_view c p Hc) as Hr.
  destruct (FetchCoin c p) as [c' [e|]]; cbn in *; by rewrite <- Hr.
Qed.
Next Obligation.
  intros c [Hb He]. cbn [GetBestBlock CCoinsViewCache_view]. unfold cacheGetBestBlock. destruct (_ =? 0); [|done].
  destruct (GetBestBlock_law (cv_base c) Hb) as [Hb' Hv]. destruct (GetBestBlock (cv_base c)) as [b h]. cbn in *.
  split; [split; [done|]; cbn; by rewrite Hv|]. apply map_eq. intros q. rewrite !cache_view_lookup. cbn. by rewrite Hv.
Qed.
Next Obligation.
  intros c l h Hc Hh Hnd Hok. cbn [BatchWrite CCoinsViewCache_view]. unfold cacheBatchWrite.
  destruct (batch_entries_spec c l Hc Hnd Hok) as (m & Em & Hc' & Hv). rewrite Em. cbn [mbind option_bind].
  eexists. split; [done|]. split; [done|]. split; [done|]. cbn [GetBestBlock CCoinsViewCache_view].
  unfold cacheGetBestBlock. cbn. by rewrite (proj2 (Z.eqb_neq h 0)).
Qed.

(** *** The operations of a cache, on its coins *)
Lemma HaveCoin_spec c p :
  cache_inv c -> cache_inv (HaveCoin c p).1 /\ cache_view (HaveCoin c p).1 = cache_view c /\
  (HaveCoin c p).2 = bool_decide (is_Some (cache_view c !! p)).
Proof.
  intros Hc. unfold HaveCoin. pose proof (FetchCoin_spec c p Hc) as (Hc' & Hv & _). pose proof (FetchCoin_view c p Hc) as Hr.
  destruct (FetchCoin c p) as [c' [e|]]; cbn in *; rewrite <- Hr; split_and!; try done.
  unfold entry_view. by destruct (IsSpent (ce_coin e)).
Qed.

Lemma AccessCoin_spec c p :
  cache_inv c -> cache_inv (AccessCoin c p).1 /\ cache_view (AccessCoin c p).1 = cache_view c /\
  (if IsSpent (AccessCoin c p).2 then None else Some (AccessCoin c p).2) = cache_view c !! p.
Proof.
  intros Hc. unfold AccessCoin. pose proof (FetchCoin_spec c p Hc) as (Hc' & Hv & _). pose proof (FetchCoin_view c p Hc) as Hr.
  destruct (FetchCoin c p) as [c' [e|]]; cbn in *; rewrite <- Hr; by split_and!.
Qed.

Lemma cache_insert_spec c p e :
  cache_inv c -> entry_ok (view_of (cv_base c)) p e -> IsSpent (ce_coin e) = false ->
  let c' := c <| cv_cacheCoins := <[p := e]> (cv_cacheCoins c) |> in
  cache_inv c' /\ cache_view c' = <[p := ce_coin e]> (cache_view c).
Proof.
  intros [Hb He] Hok Hs. cbv zeta. split; [split; [done|]; cbn; by apply map_Forall_insert_2|].
  apply map_eq. intros q. rewrite cache_view_lookup. cbn. destruct (decide (q = p)) as [->|].
  - rewrite !lookup_insert_eq. unfold entry_view. by rewrite Hs.
  - rewrite !lookup_insert_ne by done. by rewrite cache_view_lookup.
Qed.

Lemma AddCoin_spec c p coin overwrite :
  cache_inv c -> IsSpent coin = false -> IsUnspendable (scriptPubKey (coin_out coin)) = false ->
  (overwrite = false -> cache_view c !! p = None) ->
  exists c', AddCoin c p coin overwrite = Some c' /\ cache_inv c' /\ cache_view c' = <[p := coin]> (cache_view c).
Proof.
  intros Hc Hs Hu Ho. unfold AddCoin. rewrite Hs, Hu. cbv zeta. pose proof (cache_view_lookup c p) as Hl.
  destruct (cv_cacheCoins c !! p) as [e|] eqn:E; cbn [from_option id ce_coin ce_DIRTY ce_FRESH].
  - destruct (proj2 Hc p e E) as [Hd Hf].
    assert (negb overwrite && negb (IsSpent (ce_coin e)) = false) as ->.
    { destruct overwrite; [done|]. rewrite Ho in Hl by done. unfold entry_view in Hl. by destruct (IsSpent (ce_coin e)). }
    eexists. split; [done|]. apply (cache_insert_spec c p {| ce_coin := coin; ce_DIRTY := true; ce_FRESH := _ |}); [done| |done].
    split; [done|]. cbn. intros [Hfr|Hfr]%orb_true_iff; [by apply Hf|]. destruct overwrite; [done|].
    apply negb_true_iff in Hfr. specialize (Hd Hfr). rewrite Ho in Hl by done. unfold entry_view in Hl.
    by destruct (IsSpent (ce_coin e)).
  - change (IsSpent Coin_init) with true. rewrite andb_false_r.
    eexists. split; [done|]. apply (cache_insert_spec c p {| ce_coin := coin; ce_DIRTY := true; ce_FRESH := _ |}); [done| |done].
    split; [done|]. cbn. destruct overwrite; [done|]. intros _. rewrite <- Hl. by apply Ho.
Qed.

Lemma AddCoin_unspendable c p coin overwrite :
  IsSpent coin = false -> IsUnspendable (scriptPubKey (coin_out coin)) = true -> AddCoin c p coin overwrite = Some c.
Proof. intros Hs Hu. unfold AddCoin. by rewrite Hs, Hu. Qed.

Lemma SpendCoin_spec c p :
  cache_inv c ->
  cache_inv (SpendCoin c p).1 /\ cache_view (SpendCoin c p).1 = delete p (cache_view c) /\
  (forall k, cache_view c !! p = Some k -> (SpendCoin c p).2 = Some k).
Proof.
  intros Hc. unfold SpendCoin. pose proof (FetchCoin_spec c p Hc) as (Hc' & Hv & Hr & Hn).
  pose proof (FetchCoin_view c p Hc) as Hk. destruct (FetchCoin c p) as [c' [e|]]; cbn [fst snd] in *.
  - rewrite <- Hv. clear Hn. split_and!.
    + split; [apply Hc'|]. cbn. destruct (ce_FRESH e); [apply map_Forall_delete, Hc'|].
      apply map_Forall_insert_2; [|apply Hc']. by split.
    + apply map_eq. intros q. rewrite cache_view_lookup. cbn. destruct (decide (q = p)) as [->|Hne].
      * rewrite lookup_delete_eq. destruct (ce_FRESH e) eqn:Ef.
        -- rewrite lookup_delete_eq. destruct (proj2 Hc' p e (eq_sym Hr)) as [_ Hf]. by apply Hf.
        -- by rewrite lookup_insert_eq.
      * rewrite lookup_delete_ne by done. rewrite cache_view_lookup.
        destruct (ce_FRESH e); [by rewrite lookup_delete_ne|by rewrite lookup_insert_ne].
    + intros k. rewrite Hv. rewrite <- Hk. cbn. unfold entry_view. destruct (IsSpent (ce_coin e)); [done|]. congruence.
  - specialize (Hn eq_refl). rewrite Hv, delete_id by done. split_and!; [done..|]. intros k. by rewrite Hn.
Qed.

Lemma Uncache_spec c p : cache_inv c -> cache_inv (Uncache c p) /\ cache_view (Uncache c p) = cache_view c.
Proof.
  intros Hc. unfold Uncache. destruct (cv_cacheCoins c !! p) as [e|] eqn:E; [|done].
  destruct (ce_DIRTY e) eqn:Ed, (ce_FRESH e) eqn:Ef; cbn [negb andb]; try done.
  split; [split; [apply Hc|]; cbn; apply map_Forall_delete, Hc|].
  apply map_eq. intros q. rewrite !cache_view_lookup. cbn. destruct (decide (q = p)) as [->|].
  - rewrite lookup_delete_eq, E. destruct (proj2 Hc p e E) as [Hd _]. by apply Hd.
  - by rewrite lookup_delete_ne.
Qed.

Lemma Flush_spec order c :
  cache_inv c -> cv_hashBlock c <> 0 -> (forall m, order m ≡ₚ map_to_list m) ->
  exists c', Flush order c = Some (c', true) /\ cache_inv c' /\ cache_view c' = cache_view c /\
    view_of (cv_base c') = cache_view c /\ (GetBestBlock (cv_base c')).2 = cv_hashBlock c.
Proof.
  intros [Hb He] Hh Ho. unfold Flush.
  assert (NoDup (order (cv_cacheCoins c)).*1) as Hnd by (rewrite Ho; apply NoDup_fst_map_to_list).
  assert (Forall (fun pe => entry_ok (view_of (cv_base c)) (pe.1) (pe.2)) (order (cv_cacheCoins c))) as Hok.
  { rewrite Ho. apply Forall_forall. intros [p e] Hin. apply elem_of_map_to_list in Hin. by apply He. }
  destruct (BatchWrite_law (cv_base c) (order (cv_cacheCoins c)) (cv_hashBlock c)) as (b & -> & Hb' & Hv & Hg); [done..|].
  cbn [mbind option_bind]. eexists. split; [done|].
  assert (view_of b = cache_view c) as Hbv.
  { apply map_eq. intros q. rewrite Hv, foldl_write_entry_lookup by done. rewrite cache_view_lookup.
    replace (list_to_map (order (cv_cacheCoins c))) with (cv_cacheCoins c); [done|].
    rewrite <- (list_to_map_to_list (cv_cacheCoins c)) at 1. by apply list_to_map_proper; [apply NoDup_fst_map_to_list|rewrite Ho]. }
  split_and!; [split; [done|apply map_Forall_empty]| |done|done].
  apply map_eq. intros q. rewrite cache_view_lookup. cbn. by rewrite lookup_empty, Hbv.
Qed.

Lemma cacheGetCoin_spec c p :
  cache_inv c -> cache_inv (cacheGetCoin c p).1 /\ cache_view (cacheGetCoin c p).1 = cache_view c /\
  (cacheGetCoin c p).2 = cache_view c !! p.
Proof.
  intros Hc. unfold cacheGetCoin. pose proof (FetchCoin_spec c p Hc) as (Hc' & Hv & _). pose proof (FetchCoin_view c p Hc) as Hr.
  destruct (FetchCoin c p) as [c' [e|]]; cbn in *; rewrite <- Hr; by split_and!.
Qed.

(** An attempt to add over an unspent entry of the cache. *)
Lemma AddCoin_overwrite c p coin e :
  cv_cacheCoins c !! p = Some e -> IsSpent (ce_coin e) = false ->
  IsUnspendable (scriptPubKey (coin_out coin)) = false -> AddCoin c p coin false = None.
Proof. intros He Hs Hu. unfold AddCoin. rewrite Hu, He. cbv zeta. cbn. rewrite Hs. by destruct (IsSpent coin). Qed.

(** C9: a stack of caches is a map of unspent coins.  Over any view that keeps
    its promise (the database, or another cache), with entries that are
    consistent with it: GetCoin gives the coin of the map, HaveCoin whether
    there is one, AccessCoin the coin or a spent one, and none of them changes
    the map.  AddCoin aborts on a spent coin; it leaves an unspendable script
    out; any other coin it inserts, if overwriting was allowed or the map has
    none there, and without leave to overwrite it throws over an unspent coin
    of the cache (over one that only the view below has it does not notice;
    the callers exclude that).  SpendCoin removes the coin and gives it back.
    Flush, once a best block is set, succeeds in whatever order the entries
    are walked, leaves the map as it is and makes it that of the view below,
    with its best block.  Uncache loses nothing. *)
Theorem CCoinsViewCache_refines c p :
  cache_inv c ->
  (cache_inv (cacheGetCoin c p).1 /\ cache_view (cacheGetCoin c p).1 = cache_view c /\
   (cacheGetCoin c p).2 = cache_view c !! p) /\
  (cache_inv (HaveCoin c p).1 /\ cache_view (HaveCoin c p).1 = cache_view c /\
   (HaveCoin c p).2 = bool_decide (is_Some (cache_view c !! p))) /\
  (cache_inv (AccessCoin c p).1 /\ cache_view (AccessCoin c p).1 = cache_view c /\
   (if IsSpent (AccessCoin c p).2 then None else Some (AccessCoin c p).2) = cache_view c !! p) /\
  (forall coin overwrite,
   (IsSpent coin = true -> AddCoin c p coin overwrite = None) /\
   (IsSpent coin = false -> IsUnspendable (scriptPubKey (coin_out coin)) = true ->
    AddCoin c p coin overwrite = Some c) /\
   (IsSpent coin = false -> IsUnspendable (scriptPubKey (coin_out coin)) = false ->
    overwrite = true \/ cache_view c !! p = None ->
    exists c', AddCoin c p coin overwrite = Some c' /\ cache_inv c' /\ cache_view c' = <[p := coin]> (cache_view c)) /\
   (IsUnspendable (scriptPubKey (coin_out coin)) = false -> overwrite = false ->
    HaveCoinInCache c p = true -> AddCoin c p coin overwrite = None)) /\
  (cache_inv (SpendCoin c p).1 /\ cache_view (SpendCoin c p).1 = delete p (cache_view c) /\
   forall k, cache_view c !! p = Some k -> (SpendCoin c p).2 = Some k) /\
  (forall order, cv_hashBlock c <> 0 -> (forall m, order m ≡ₚ map_to_list m) ->
   exists c', Flush order c = Some (c', true) /\ cache_inv c' /\ cache_view c' = cache_view c /\
     view_of (cv_base c') = cache_view c /\ (GetBestBlock (cv_base c')).2 = cv_hashBlock c) /\
  (cache_inv (Uncache c p) /\ cache_view (Uncache c p) = cache_view c).
Proof.
  intros Hc. split_and!; try by (apply cacheGetCoin_spec || apply HaveCoin_spec || apply AccessCoin_spec ||
    apply SpendCoin_spec || apply Uncache_spec).
  - intros coin overwrite. split_and!.
    + intros Hs. unfold AddCoin. by rewrite Hs.
    + intros. by apply AddCoin_unspendable.
    + intros Hs Hu Ho. apply AddCoin_spec; [done..|]. intros ->. by destruct Ho.
    + intros Hu -> Hin. unfold HaveCoinInCache in Hin. destruct (cv_cacheCoins c !! p) as [e|] eqn:E; [|done].
      apply negb_true_iff in Hin. by eapply AddCoin_overwrite.
  - intros order Hh Ho. by apply Flush_spec.
Qed.
End CacheLaws.
