(* ===== verification/CoinsUndo.v ===== *)
(** * Connecting and disconnecting the coins of a block
    (UpdateCoins, ApplyTxInUndo and the loops over the coins of ConnectBlock and
    DisconnectBlock in src/src/validation.cpp)

    The address, unspent and spent indices, which these loops also fill, are in
    [AddressIndex]. *)

From S2P Require Import Prelude Serialize BetTx Params Transaction Coins.

Inductive DisconnectResult := DISCONNECT_OK | DISCONNECT_UNCLEAN | DISCONNECT_FAILED.

Section Undo.
Context {S : Type} `{!CCoinsView S}.
Implicit Types c : CCoinsViewCache S.

(** The loop over the inputs; the assertion that the coin was there. *)
Fixpoint spend_inputs c (vin : list CTxIn) : option (CCoinsViewCache S * list Coin) :=
  match vin with
  | [] => Some (c, [])
  | txin :: vin =>
      let '(c, r) := SpendCoin c (txin_prevout txin) in
      coin ← r;
      '(c, vprevout) ← spend_inputs c vin;
      Some (c, coin :: vprevout)
  end.

(** {inputs, txundo.vprevout} *)
Definition UpdateCoins (tx : CTx) (inputs : CCoinsViewCache S) (nHeight : Z) : option (CCoinsViewCache S * list Coin) :=
  '(inputs, vprevout) ← (if negb (IsCoinBase tx) && negb (HasZerocoinSpendInputs_tx tx)
                         then spend_inputs inputs (ctx_vin tx) else Some (inputs, []));
  inputs ← AddCoins inputs tx nHeight false;
  Some (inputs, vprevout).

(** The coins of ConnectBlock: the undo data of every transaction. *)
Fixpoint update_coins_all c (vtx : list CTx) (nHeight : Z) : option (CCoinsViewCache S * list (list Coin)) :=
  match vtx with
  | [] => Some (c, [])
  | tx :: vtx =>
      '(c, undo) ← UpdateCoins tx c nHeight;
      '(c, undos) ← update_coins_all c vtx nHeight;
      Some (c, undo :: undos)
  end.

(** blockundo has no entry for the first transaction. *)
Definition connect_coins c (vtx : list CTx) (nHeight : Z) : option (CCoinsViewCache S * list (list Coin)) :=
  '(c, undos) ← update_coins_all c vtx nHeight; Some (c, tail undos).

Definition ApplyTxInUndo (undo : Coin) (view : CCoinsViewCache S) (out : COutPoint) :
    option (CCoinsViewCache S * DisconnectResult) :=
  let '(view, have) := HaveCoin view out in
  let fClean := negb have in
  let '(view, undo) :=
    if coin_nHeight undo =? 0 then
      let '(view, alternate) := AccessByTxid view (op_hash out) in
      if IsSpent alternate then (view, None)
      else (view, Some {| coin_out := coin_out undo; coin_fCoinBase := coin_fCoinBase alternate;
                          coin_fCoinStake := coin_fCoinStake alternate; coin_nHeight := coin_nHeight alternate |})
    else (view, Some undo) in
  match undo with
  | None => Some (view, DISCONNECT_FAILED)
  | Some undo =>
      view ← AddCoin view out undo (negb fClean);
      Some (view, if fClean then DISCONNECT_OK else DISCONNECT_UNCLEAN)
  end.

(** The loop over the outputs, from output [o] on: {view, fClean}. *)
Fixpoint disconnect_outputs (view : CCoinsViewCache S) (hash : uint256) (nHeight : Z) (is_coinbase is_coinstake : bool)
    (o : Z) (vout : list CTxOut) (fClean : bool) : CCoinsViewCache S * bool :=
  match vout with
  | [] => (view, fClean)
  | out :: vout =>
      let '(view, fClean) :=
        if IsUnspendable (scriptPubKey out) then (view, fClean)
        else
          let '(view, moved) := SpendCoin view {| op_hash := hash; op_n := o |} in
          let coin := default Coin_init moved in
          (view, if bool_decide (moved = None) || negb (bool_decide (out = coin_out coin)) || negb (nHeight =? coin_nHeight coin) ||
                    negb (eqb is_coinbase (coin_fCoinBase coin)) || negb (eqb is_coinstake (coin_fCoinStake coin))
                 then false else fClean) in
      disconnect_outputs view hash nHeight is_coinbase is_coinstake (o + 1) vout fClean
  end.

(** The loop over the inputs, which are given last first. *)
Fixpoint restore_inputs (view : CCoinsViewCache S) (l : list (COutPoint * Coin)) (fClean : bool) :
    option (CCoinsViewCache S * DisconnectResult) :=
  match l with
  | [] => Some (view, if fClean then DISCONNECT_OK else DISCONNECT_UNCLEAN)
  | (out, undo) :: l =>
      '(view, res) ← ApplyTxInUndo undo view out;
      match res with
      | DISCONNECT_FAILED => Some (view, DISCONNECT_FAILED)
      | DISCONNECT_UNCLEAN => restore_inputs view l false
      | DISCONNECT_OK => restore_inputs view l fClean
      end
  end.

(** One transaction; [undo] is [None] for the first one of the block. *)
Definition disconnect_tx (view : CCoinsViewCache S) (tx : CTx) (undo : option (list Coin)) (nHeight : Z) (fClean : bool) :
    option (CCoinsViewCache S * DisconnectResult) :=
  let '(view, fClean) :=
    disconnect_outputs view (ctx_hash tx) nHeight (IsCoinBase tx) (IsCoinStake tx) 0 (ctx_vout tx) fClean in
  let done := Some (view, if fClean then DISCONNECT_OK else DISCONNECT_UNCLEAN) in
  match undo with
  | None => done
  | Some vprevout =>
      if HasZerocoinSpendInputs_tx tx then done
      else if negb (length vprevout =? length (ctx_vin tx))%nat then Some (view, DISCONNECT_FAILED)
      else restore_inputs view (reverse (zip (txin_prevout <$> ctx_vin tx) vprevout)) fClean
  end.

(** The transactions, last first. *)
Fixpoint disconnect_txs (view : CCoinsViewCache S) (l : list (CTx * option (list Coin))) (nHeight : Z) (fClean : bool) :
    option (CCoinsViewCache S * DisconnectResult) :=
  match l with
  | [] => Some (view, if fClean then DISCONNECT_OK else DISCONNECT_UNCLEAN)
  | (tx, undo) :: l =>
      '(view, res) ← disconnect_tx view tx undo nHeight fClean;
      match res with
      | DISCONNECT_FAILED => Some (view, DISCONNECT_FAILED)
      | DISCONNECT_UNCLEAN => disconnect_txs view l nHeight false
      | DISCONNECT_OK => disconnect_txs view l nHeight true
      end
  end.

Definition with_undo (vtx : list CTx) (vtxundo : list (list Coin)) : list (CTx * option (list Coin)) :=
  zip vtx (None :: (Some <$> vtxundo)).

Definition DisconnectBlock_coins (view : CCoinsViewCache S) (vtx : list CTx) (vtxundo : list (list Coin)) (nHeight : Z) :
    option (CCoinsViewCache S * DisconnectResult) :=
  if negb (length vtxundo + 1 =? length vtx)%nat then Some (view, DISCONNECT_FAILED)
  else disconnect_txs view (reverse (with_undo vtx vtxundo)) nHeight true.
End Undo.

(** ** Connecting, on the coins *)

(** The coins the outputs of a transaction add, from output [i] on. *)
Fixpoint outputs_of (txid : uint256) (nHeight : Z) (cb cs : bool) (i : Z) (vout : list CTxOut) : gmap COutPoint Coin :=
  match vout with
  | [] => ∅
  | o :: vout =>
      let rest := outputs_of txid nHeight cb cs (i + 1) vout in
      if IsUnspendable (scriptPubKey o) then rest
      else <[{| op_hash := txid; op_n := i |} := Coin_of o nHeight cb cs]> rest
  end.

Definition tx_outputs (tx : CTx) (nHeight : Z) : gmap COutPoint Coin :=
  outputs_of (ctx_hash tx) nHeight (IsCoinBase tx) (IsCoinStake tx) 0 (ctx_vout tx).

(** The coins it spends. *)
Definition tx_inputs (tx : CTx) : list COutPoint :=
  if negb (IsCoinBase tx) && negb (HasZerocoinSpendInputs_tx tx) then txin_prevout <$> ctx_vin tx else [].

Definition tx_view (v : gmap COutPoint Coin) (tx : CTx) (nHeight : Z) : gmap COutPoint Coin :=
  tx_outputs tx nHeight ∪ foldl (fun v p => delete p v) v (tx_inputs tx).

(** A transaction that can be connected: its inputs are there, each once, and
    its outputs are new and not null. *)
Definition tx_ok (v : gmap COutPoint Coin) (tx : CTx) (nHeight : Z) : Prop :=
  NoDup (tx_inputs tx) /\ Forall (fun p => is_Some (v !! p)) (tx_inputs tx) /\
  Forall (fun o => nValue o <> -1) (ctx_vout tx) /\
  tx_outputs tx nHeight ##ₘ v.

Fixpoint block_ok (v : gmap COutPoint Coin) (vtx : list CTx) (nHeight : Z) : Prop :=
  match vtx with
  | [] => True
  | tx :: vtx => tx_ok v tx nHeight /\ block_ok (tx_view v tx nHeight) vtx nHeight
  end.

(** Coins that are restored with their own height, and are restored at all. *)
Definition coins_sane (v : gmap COutPoint Coin) : Prop :=
  map_Forall (fun _ k => coin_nHeight k <> 0 /\ IsUnspendable (scriptPubKey (coin_out k)) = false) v.

#[export] Instance coins_disjoint_dec (m1 m2 : gmap COutPoint Coin) : Decision (m1 ##ₘ m2).
Proof.
  destruct (decide ((dom m1 : gset COutPoint) ## dom m2)) as [H|H]; [left; by apply map_disjoint_dom|right; intros H'; by apply H, map_disjoint_dom].
Defined.

#[export] Instance tx_ok_dec v tx h : Decision (tx_ok v tx h).
Proof. unfold tx_ok. apply _. Defined.

#[export] Instance block_ok_dec v vtx h : Decision (block_ok v vtx h).
Proof. revert v. induction vtx as [|tx vtx IH]; intros v; cbn; [apply _|]. apply and_dec; [apply _|apply IH]. Defined.

#[export] Instance coins_sane_dec v : Decision (coins_sane v).
Proof. unfold coins_sane. apply _. Defined.

Lemma outputs_of_above txid h cb cs i vout q : op_n q < i -> outputs_of txid h cb cs i vout !! q = None.
Proof.
  revert i. induction vout as [|o vout IH]; intros i Hq; [done|]. cbn. destruct (IsUnspendable _); [apply IH; lia|].
  rewrite lookup_insert_ne; [apply IH; lia|]. intros <-. cbn in Hq. lia.
Qed.

Lemma outputs_of_sane txid h cb cs i vout : 0 < h < 2 ^ 30 -> coins_sane (outputs_of txid h cb cs i vout).
Proof.
  intros Hh. revert i. induction vout as [|o vout IH]; intros i; [apply map_Forall_empty|]. cbn.
  destruct (IsUnspendable _) eqn:Eu; [apply IH|]. apply map_Forall_insert_2; [|apply IH]. split; [|done].
  cbn. rewrite wrapU_small; range.
Qed.

Lemma foldl_delete_lookup {V} (v : gmap COutPoint V) l q :
  foldl (fun v p => delete p v) v l !! q = if bool_decide (q ∈ l) then None else v !! q.
Proof.
  revert v. induction l as [|p l IH]; intros v; [done|]. cbn. rewrite IH.
  destruct (decide (q = p)) as [->|Hne].
  - rewrite (bool_decide_eq_true_2 (p ∈ p :: l)) by (apply elem_of_cons; by left).
    rewrite lookup_delete_eq. by destruct (bool_decide _).
  - rewrite (bool_decide_ext (q ∈ p :: l) (q ∈ l)) by (rewrite elem_of_cons; naive_solver).
    by rewrite lookup_delete_ne.
Qed.

Lemma tx_view_sane v tx h : 0 < h < 2 ^ 30 -> coins_sane v -> coins_sane (tx_view v tx h).
Proof.
  intros Hh Hv. apply map_Forall_union_2; [by apply outputs_of_sane|]. intros q k. rewrite foldl_delete_lookup.
  case_bool_decide; [done|]. apply Hv.
Qed.

Section Laws.
Context {S : Type} `{!CCoinsView S, !CCoinsViewLaws S}.
Implicit Types c : CCoinsViewCache S.

Lemma spend_inputs_spec c vin :
  cache_inv c -> NoDup (txin_prevout <$> vin) -> Forall (fun p => is_Some (cache_view c !! p)) (txin_prevout <$> vin) ->
  exists c' ks, spend_inputs c vin = Some (c', ks) /\ cache_inv c' /\
    cache_view c' = foldl (fun v p => delete p v) (cache_view c) (txin_prevout <$> vin) /\
    Forall2 (fun p k => cache_view c !! p = Some k) (txin_prevout <$> vin) ks.
Proof.
  revert c. induction vin as [|i vin IH]; intros c Hc Hnd HF; [by exists c, []|].
  rewrite fmap_cons in *. apply NoDup_cons in Hnd as [Hp Hnd]. apply Forall_cons in HF as [[k Hk] HF].
  cbn [spend_inputs]. destruct (SpendCoin_spec c (txin_prevout i) Hc) as (Hc1 & Hv1 & Hr).
  specialize (Hr k Hk). destruct (SpendCoin c (txin_prevout i)) as [c1 r]. cbn [fst snd] in *. subst r. cbn [mbind option_bind].
  assert (forall p, p ∈ txin_prevout <$> vin -> cache_view c1 !! p = cache_view c !! p) as Hsame.
  { intros p Hin. rewrite Hv1, lookup_delete_ne; [done|]. by intros <-. }
  destruct (IH c1) as (c2 & ks & -> & Hc2 & Hv2 & HF2); [done..| |].
  { apply Forall_forall. intros p Hin. rewrite Hsame by done. by eapply Forall_forall in HF. }
  cbn [mbind option_bind]. exists c2, (k :: ks). split; [done|]. split; [done|]. split; [by rewrite Hv2, Hv1|].
  constructor; [done|]. eapply Forall2_impl; [exact HF2|]. cbn. intros p k'. rewrite Hv1. by intros [_ ?]%lookup_delete_Some.
Qed.

Lemma add_coins_spec c txid h cb cs i vout :
  cache_inv c -> Forall (fun o => nValue o <> -1) vout -> outputs_of txid h cb cs i vout ##ₘ cache_view c ->
  exists c', add_coins c txid h cb cs false i vout = Some c' /\ cache_inv c' /\
    cache_view c' = outputs_of txid h cb cs i vout ∪ cache_view c.
Proof.
  revert c i. induction vout as [|o vout IH]; intros c i Hc Hn Hd; cbn [add_coins outputs_of] in *.
  { exists c. split; [done|]. split; [done|]. by rewrite (left_id_L ∅ (∪)). }
  apply Forall_cons in Hn as [Ho Hn]. set (p := {| op_hash := txid; op_n := i |}) in *.
  assert (IsSpent (Coin_of o h cb cs) = false) as Hs by (by apply Z.eqb_neq).
  destruct (IsUnspendable (scriptPubKey o)) eqn:Eu.
  - rewrite AddCoin_unspendable by done. cbn [mbind option_bind]. by apply IH.
  - apply map_disjoint_insert_l in Hd as [Hp Hd].
    destruct (AddCoin_spec c p (Coin_of o h cb cs) cb Hc Hs Eu ltac:(done)) as (c1 & -> & Hc1 & Hv1).
    cbn [mbind option_bind]. destruct (IH c1 (i + 1) Hc1 Hn) as (c2 & -> & Hc2 & Hv2).
    { rewrite Hv1. apply map_disjoint_insert_r_2; [|done]. apply outputs_of_above. cbn. lia. }
    exists c2. split; [done|]. split; [done|]. rewrite Hv2, Hv1.
    rewrite <- insert_union_r by (apply outputs_of_above; cbn; lia). by rewrite insert_union_l.
Qed.

Lemma UpdateCoins_spec c tx h :
  cache_inv c -> tx_ok (cache_view c) tx h ->
  exists c' ks, UpdateCoins tx c h = Some (c', ks) /\ cache_inv c' /\ cache_view c' = tx_view (cache_view c) tx h /\
    Forall2 (fun p k => cache_view c !! p = Some k) (tx_inputs tx) ks.
Proof.
  intros Hc (Hnd & HF & Hn & Hd). unfold UpdateCoins, tx_view, AddCoins, tx_inputs in *. fold (tx_inputs tx).
  assert (exists c1 ks, (if negb (IsCoinBase tx) && negb (HasZerocoinSpendInputs_tx tx) then spend_inputs c (ctx_vin tx)
      else Some (c, [])) = Some (c1, ks) /\ cache_inv c1 /\
      cache_view c1 = foldl (fun v p => delete p v) (cache_view c) (tx_inputs tx) /\
      Forall2 (fun p k => cache_view c !! p = Some k) (tx_inputs tx) ks) as (c1 & ks & -> & Hc1 & Hv1 & HF1).
  { unfold tx_inputs. destruct (_ && _); [by apply spend_inputs_spec|]. by exists c, []. }
  cbn [mbind option_bind].
  destruct (add_coins_spec c1 (ctx_hash tx) h (IsCoinBase tx) (IsCoinStake tx) 0 (ctx_vout tx)) as (c2 & -> & Hc2 & Hv2); [done..| |].
  { rewrite Hv1. apply map_disjoint_spec. intros q k1 k2 H1. rewrite foldl_delete_lookup. case_bool_decide; [done|].
    intros H2. by eapply (map_disjoint_spec (tx_outputs tx h)) in Hd. }
  cbn [mbind option_bind]. exists c2, ks. rewrite Hv2, Hv1. done.
Qed.

(** ** Disconnecting, on the coins *)
Lemma disconnect_outputs_spec c txid h cb cs i vout w :
  cache_inv c -> 0 < h < 2 ^ 30 -> cache_view c = outputs_of txid h cb cs i vout ∪ w ->
  outputs_of txid h cb cs i vout ##ₘ w ->
  let r := disconnect_outputs c txid h cb cs i vout true in
  cache_inv r.1 /\ cache_view r.1 = w /\ r.2 = true.
Proof.
  intros Hc Hh. revert c i w Hc. induction vout as [|o vout IH]; intros c i w Hc Hv Hd; cbn [disconnect_outputs outputs_of] in *.
  { split_and!; [done| |done]. cbn. rewrite Hv. by rewrite (left_id_L ∅ (∪)). }
  set (p := {| op_hash := txid; op_n := i |}) in *. destruct (IsUnspendable (scriptPubKey o)) eqn:Eu; [by apply IH|].
  apply map_disjoint_insert_l in Hd as [Hp Hd]. rewrite <- insert_union_l in Hv.
  assert (outputs_of txid h cb cs (i + 1) vout !! p = None) as Ho by (apply outputs_of_above; cbn; lia).
  destruct (SpendCoin_spec c p Hc) as (Hc1 & Hv1 & Hr). specialize (Hr (Coin_of o h cb cs)).
  rewrite Hv, lookup_insert_eq in Hr. specialize (Hr eq_refl).
  destruct (SpendCoin c p) as [c1 r]. cbn [fst snd] in *. subst r. cbn [from_option id].
  rewrite (bool_decide_eq_false_2 (Some _ = None)) by done. rewrite bool_decide_eq_true_2 by done. cbn [coin_nHeight Coin_of coin_fCoinBase coin_fCoinStake].
  rewrite wrapU_small by range. rewrite Z.eqb_refl, !eqb_reflx. cbn [negb orb].
  apply IH; [done| |done]. rewrite Hv1, Hv. rewrite delete_insert_id; [done|]. by apply lookup_union_None.
Qed.

Lemma restore_one c p k :
  cache_inv c -> cache_view c !! p = None -> IsSpent k = false -> coin_nHeight k <> 0 ->
  IsUnspendable (scriptPubKey (coin_out k)) = false ->
  exists c', ApplyTxInUndo k c p = Some (c', DISCONNECT_OK) /\ cache_inv c' /\ cache_view c' = <[p := k]> (cache_view c).
Proof.
  intros Hc Hp Hs Hh Hu. unfold ApplyTxInUndo. destruct (HaveCoin_spec c p Hc) as (Hc1 & Hv1 & Hb).
  destruct (HaveCoin c p) as [c1 b]. cbn [fst snd] in *. rewrite Hp in Hb. rewrite bool_decide_eq_false_2 in Hb by (by intros []).
  subst b. cbn [negb]. rewrite (proj2 (Z.eqb_neq _ _) Hh).
  destruct (AddCoin_spec c1 p k false Hc1 Hs Hu) as (c2 & -> & Hc2 & Hv2); [by rewrite Hv1|].
  cbn [mbind option_bind]. exists c2. by rewrite Hv2, Hv1.
Qed.

Lemma restore_inputs_unclean c l c' : restore_inputs c l false <> Some (c', DISCONNECT_OK).
Proof.
  revert c. induction l as [|[p k] l IH]; intros c; cbn [restore_inputs]; [done|].
  destruct (ApplyTxInUndo k c p) as [[c1 []]|]; cbn [mbind option_bind]; [apply IH|apply IH|done|done].
Qed.

Lemma restore_inputs_app c l1 l2 c1 :
  restore_inputs c l1 true = Some (c1, DISCONNECT_OK) -> restore_inputs c (l1 ++ l2) true = restore_inputs c1 l2 true.
Proof.
  revert c. induction l1 as [|[p k] l1 IH]; intros c H; cbn [restore_inputs app] in *; [by simplify_eq|].
  destruct (ApplyTxInUndo k c p) as [[c' []]|]; cbn [mbind option_bind] in *; [by apply IH| |done|done].
  by apply restore_inputs_unclean in H.
Qed.

Lemma Forall2_delete (v : gmap COutPoint Coin) p ps ks :
  p ∉ ps -> Forall2 (fun q k => v !! q = Some k) ps ks -> Forall2 (fun q k => delete p v !! q = Some k) ps ks.
Proof.
  intros Hp. induction 1 as [|q k ps ks Hk HF IH]; constructor.
  - rewrite lookup_delete_ne; [done|]. intros ->. apply Hp, elem_of_cons. by left.
  - apply IH. intros Hin. apply Hp, elem_of_cons. by right.
Qed.

Lemma restore_inputs_spec c v ps ks :
  cache_inv c -> coins_sane v -> (forall p k, v !! p = Some k -> IsSpent k = false) ->
  NoDup ps -> Forall2 (fun p k => v !! p = Some k) ps ks ->
  cache_view c = foldl (fun v p => delete p v) v ps ->
  exists c', restore_inputs c (reverse (zip ps ks)) true = Some (c', DISCONNECT_OK) /\ cache_inv c' /\ cache_view c' = v.
Proof.
  intros Hc Hsane Hun Hnd HF. revert c v Hc Hsane Hun HF. revert ks. induction Hnd as [|p ps Hp Hnd IH]; intros ks c v Hc Hsane Hun HF Hv.
  { apply Forall2_nil_inv_l in HF as ->. exists c. done. }
  apply Forall2_cons_inv_l in HF as (k & ks' & Hk & HF & ->). cbn [zip_with zip foldl] in *. rewrite reverse_cons.
  destruct (IH ks' c (delete p v)) as (c1 & E1 & Hc1 & Hv1); [done| | | |done|].
  - by apply map_Forall_delete.
  - intros q k' [_ Hq]%lookup_delete_Some. by eapply Hun.
  - by apply Forall2_delete.
  - rewrite (restore_inputs_app _ _ _ _ E1). cbn [restore_inputs].
    destruct (Hsane p k Hk) as [Hh Hu].
    destruct (restore_one c1 p k Hc1) as (c2 & -> & Hc2 & Hv2); [by rewrite Hv1, lookup_delete_eq|by eapply Hun|done..|].
    cbn [mbind option_bind]. exists c2. split; [done|]. split; [done|]. rewrite Hv2, Hv1. by apply insert_delete_id.
Qed.

Lemma disconnect_tx_spec c v tx h ks :
  cache_inv c -> coins_sane v -> (forall p k, v !! p = Some k -> IsSpent k = false) -> 0 < h < 2 ^ 30 ->
  IsCoinBase tx = false -> tx_ok v tx h -> Forall2 (fun p k => v !! p = Some k) (tx_inputs tx) ks ->
  cache_view c = tx_view v tx h ->
  exists c', disconnect_tx c tx (Some ks) h true = Some (c', DISCONNECT_OK) /\ cache_inv c' /\ cache_view c' = v.
Proof.
  intros Hc Hsane Hun Hh Hcb (Hnd & HF & Hn & Hd) HK Hv. unfold disconnect_tx.
  destruct (disconnect_outputs_spec c (ctx_hash tx) h (IsCoinBase tx) (IsCoinStake tx) 0 (ctx_vout tx)
    (foldl (fun v p => delete p v) v (tx_inputs tx)) Hc Hh Hv) as (Hc1 & Hv1 & Hr).
  { apply map_disjoint_spec. intros q k1 k2 H1. rewrite foldl_delete_lookup. case_bool_decide; [done|].
    intros H2. by eapply (map_disjoint_spec (tx_outputs tx h)) in Hd. }
  destruct (disconnect_outputs _ _ _ _ _ _ _ _) as [c1 fClean]. cbn [fst snd] in *. subst fClean.
  unfold tx_inputs in *. rewrite Hcb in *. cbn [negb andb] in *.
  destruct (HasZerocoinSpendInputs_tx tx) eqn:Ez; cbn [negb] in *.
  { exists c1. split; [done|]. split; [done|]. done. }
  pose proof (Forall2_length _ _ _ HK) as Hl. rewrite length_fmap in Hl.
  rewrite (proj2 (Nat.eqb_eq _ _)) by done. cbn [negb]. by apply restore_inputs_spec.
Qed.

(** The first transaction: nothing was spent. *)
Lemma disconnect_coinbase_spec c v tx h :
  cache_inv c -> 0 < h < 2 ^ 30 -> IsCoinBase tx = true -> tx_ok v tx h -> cache_view c = tx_view v tx h ->
  exists c', disconnect_tx c tx None h true = Some (c', DISCONNECT_OK) /\ cache_inv c' /\ cache_view c' = v.
Proof.
  intros Hc Hh Hcb (_ & _ & _ & Hd) Hv. unfold disconnect_tx. unfold tx_view, tx_inputs in Hv. rewrite Hcb in Hv. cbn [negb andb foldl] in Hv.
  destruct (disconnect_outputs_spec c (ctx_hash tx) h (IsCoinBase tx) (IsCoinStake tx) 0 (ctx_vout tx) v Hc Hh) as (Hc1 & Hv1 & Hr);
    [by rewrite Hv; unfold tx_outputs; rewrite Hcb|done|].
  destruct (disconnect_outputs _ _ _ _ _ _ _ _) as [c1 fClean]. cbn [fst snd] in *. subst fClean. by exists c1.
Qed.

Lemma disconnect_tx_unclean c tx u h c' : disconnect_tx c tx u h false <> Some (c', DISCONNECT_OK).
Proof.
  assert (forall vout c i, (disconnect_outputs c (ctx_hash tx) h (IsCoinBase tx) (IsCoinStake tx) i vout false).2 = false) as Ho.
  { induction vout as [|o vout IH]; intros c0 i; cbn [disconnect_outputs]; [done|].
    destruct (IsUnspendable _); [apply IH|]. destruct (SpendCoin _ _) as [c1 r]. destruct (_ || _); apply IH. }
  specialize (Ho (ctx_vout tx) c 0). unfold disconnect_tx. destruct (disconnect_outputs _ _ _ _ _ _ _ _) as [c1 f]. cbn in Ho. subst f.
  destruct u as [ks|]; [|done]. destruct (HasZerocoinSpendInputs_tx tx); [done|]. destruct (negb _); [done|].
  apply restore_inputs_unclean.
Qed.

Lemma disconnect_txs_unclean c l h c' : disconnect_txs c l h false <> Some (c', DISCONNECT_OK).
Proof.
  revert c. induction l as [|[tx u] l IH]; intros c; cbn [disconnect_txs]; [done|].
  pose proof (disconnect_tx_unclean c tx u h) as Hu.
  destruct (disconnect_tx c tx u h false) as [[c1 []]|]; cbn [mbind option_bind]; [by specialize (Hu c1)|apply IH|done|done].
Qed.

Lemma disconnect_txs_app c l1 l2 h c1 :
  disconnect_txs c l1 h true = Some (c1, DISCONNECT_OK) -> disconnect_txs c (l1 ++ l2) h true = disconnect_txs c1 l2 h true.
Proof.
  revert c. induction l1 as [|[tx u] l1 IH]; intros c H; cbn [disconnect_txs app] in *; [by simplify_eq|].
  destruct (disconnect_tx c tx u h true) as [[c' []]|]; cbn [mbind option_bind] in *; [by apply IH| |done|done].
  by apply disconnect_txs_unclean in H.
Qed.

Lemma txs_roundtrip c txs h :
  cache_inv c -> coins_sane (cache_view c) -> 0 < h < 2 ^ 30 -> Forall (fun tx => IsCoinBase tx = false) txs ->
  block_ok (cache_view c) txs h ->
  exists c' undos, update_coins_all c txs h = Some (c', undos) /\ cache_inv c' /\ length undos = length txs /\
    forall c2, cache_inv c2 -> cache_view c2 = cache_view c' ->
      exists c3, disconnect_txs c2 (reverse (zip txs (Some <$> undos))) h true = Some (c3, DISCONNECT_OK) /\
        cache_inv c3 /\ cache_view c3 = cache_view c.
Proof.
  revert c. induction txs as [|tx txs IH]; intros c Hc Hsane Hh Hcb Hok.
  { exists c, []. split_and!; [done..|]. intros c2 Hc2 Hv. by exists c2. }
  apply Forall_cons in Hcb as [Htx Hcb]. destruct Hok as [Hok1 Hok2]. cbn [update_coins_all].
  destruct (UpdateCoins_spec c tx h Hc Hok1) as (c1 & ks & -> & Hc1 & Hv1 & HF). cbn [mbind option_bind].
  destruct (IH c1 Hc1) as (c' & undos & -> & Hc' & Hl & Hdis); [rewrite Hv1; by apply tx_view_sane|done|done|by rewrite Hv1|].
  cbn [mbind option_bind]. exists c', (ks :: undos). split; [done|]. split; [done|]. split; [cbn; by rewrite Hl|].
  intros c2 Hc2 Hv2. destruct (Hdis c2 Hc2 Hv2) as (c3 & E3 & Hc3 & Hv3).
  rewrite fmap_cons. cbn [zip zip_with]. rewrite reverse_cons, (disconnect_txs_app _ _ _ _ _ E3). cbn [disconnect_txs].
  destruct (disconnect_tx_spec c3 (cache_view c) tx h ks) as (c4 & -> & Hc4 & Hv4); [done|done| |done..|by rewrite Hv3, Hv1|].
  { intros p k. by apply cache_view_unspent. }
  cbn [mbind option_bind]. by exists c4.
Qed.

Lemma block_roundtrip c coinbase txs h :
  cache_inv c -> coins_sane (cache_view c) -> 0 < h < 2 ^ 30 ->
  IsCoinBase coinbase = true -> Forall (fun tx => IsCoinBase tx = false) txs ->
  block_ok (cache_view c) (coinbase :: txs) h ->
  exists c' vtxundo, connect_coins c (coinbase :: txs) h = Some (c', vtxundo) /\ cache_inv c' /\
    forall c2, cache_inv c2 -> cache_view c2 = cache_view c' ->
      exists c3, DisconnectBlock_coins c2 (coinbase :: txs) vtxundo h = Some (c3, DISCONNECT_OK) /\
        cache_inv c3 /\ cache_view c3 = cache_view c.
Proof.
  intros Hc Hsane Hh Hcb Htxs [Hok1 Hok2]. unfold connect_coins. cbn [update_coins_all].
  destruct (UpdateCoins_spec c coinbase h Hc Hok1) as (c1 & ks & -> & Hc1 & Hv1 & HF). cbn [mbind option_bind].
  destruct (txs_roundtrip c1 txs h Hc1) as (c' & undos & -> & Hc' & Hl & Hdis);
    [rewrite Hv1; by apply tx_view_sane|done|done|by rewrite Hv1|].
  cbn [mbind option_bind tail]. exists c', undos. split; [done|]. split; [done|]. intros c2 Hc2 Hv2.
  unfold DisconnectBlock_coins. rewrite (proj2 (Nat.eqb_eq _ _)) by (cbn; lia). cbn [negb].
  unfold with_undo. cbn [zip zip_with]. rewrite reverse_cons.
  destruct (Hdis c2 Hc2 Hv2) as (c3 & E3 & Hc3 & Hv3). rewrite (disconnect_txs_app _ _ _ _ _ E3). cbn [disconnect_txs].
  destruct (disconnect_coinbase_spec c3 (cache_view c) coinbase h) as (c4 & -> & Hc4 & Hv4); [done..|by rewrite Hv3, Hv1|].
  cbn [mbind option_bind]. by exists c4.
Qed.

(** Connecting leaves coins that are sane. *)
Lemma update_coins_sane txs h : forall c c' undos, 0 < h < 2 ^ 30 -> cache_inv c -> coins_sane (cache_view c) -> block_ok (cache_view c) txs h ->
  update_coins_all c txs h = Some (c', undos) -> coins_sane (cache_view c').
Proof.
  induction txs as [|tx txs IH]; intros c c' undos Hh Hc Hs Hok E; cbn [update_coins_all] in E; [by injection E as <- _|].
  destruct Hok as [Hok1 Hok2]. destruct (UpdateCoins_spec c tx h Hc Hok1) as (c1 & ks & E1 & Hc1 & Hv1 & _). rewrite E1 in E. cbn [mbind option_bind] in E.
  destruct (update_coins_all c1 txs h) as [[c2 us]|] eqn:E2; [|done]. injection E as <- _.
  apply (IH c1 c2 us Hh Hc1); [rewrite Hv1; by apply tx_view_sane|by rewrite Hv1|done].
Qed.

(** C7: Disconnecting a block undoes it.  For any stack of caches: when every
    transaction of the block spends coins that are there, each once, and makes
    outputs that are new, connecting the block succeeds, and disconnecting it
    with the undo data it left is clean and gives back the same coins, whatever
    the block spends of its own outputs and whichever entries of the caches
    were read, flushed or dropped in between. *)
Theorem DisconnectBlock_restores c coinbase txs h :
  cache_inv c -> coins_sane (cache_view c) -> 0 < h < 2 ^ 30 ->
  IsCoinBase coinbase = true -> Forall (fun tx => IsCoinBase tx = false) txs ->
  block_ok (cache_view c) (coinbase :: txs) h ->
  exists c' vtxundo, connect_coins c (coinbase :: txs) h = Some (c', vtxundo) /\ cache_inv c' /\
    forall c2, cache_inv c2 -> cache_view c2 = cache_view c' ->
      exists c3, DisconnectBlock_coins c2 (coinbase :: txs) vtxundo h = Some (c3, DISCONNECT_OK) /\
        cache_inv c3 /\ cache_view c3 = cache_view c.
Proof. exact (block_roundtrip c coinbase txs h). Qed.
End Laws.
