(* ===== verification/BetView.v ===== *)
(** * The betting view (CBettingDB and CBettingsView of src/src/betting/bet_db.h
    and src/src/betting/bet_db.cpp)

    The operations of CBettingDB are defined over any storage that keeps the
    contract of Flushable.v; the theorems relate them to finite maps.  The
    handlers of the other files work on [CBettingsView], the record of the
    tables' maps.  A cache level, as the copy constructor of CBettingsView
    makes it, is [CBettingsViewCache]: its tables are flushable storages over
    the tables of the level below. *)

From S2P Require Import Prelude Params BetDB BetKeys Flushable.

(** ** CBettingDB *)
Section CBettingDB.
Context {St K V : Type} `{StorageKV St K V}.

Definition dbExists (db : St) (key : K) : bool := sExists db key.

Definition dbRead (db : St) (key : K) : option V := sRead db key.

(** Write refuses an existing key, Update and Erase a missing one. *)
Definition dbWrite (db : St) (key : K) (value : V) : St * bool :=
  if sExists db key then (db, false) else sWrite db key value.

Definition dbUpdate (db : St) (key : K) (value : V) : St * bool :=
  if negb (sExists db key) then (db, false) else sWrite db key value.

Definition dbErase (db : St) (key : K) : St * bool :=
  if negb (sExists db key) then (db, false) else sErase db key.
End CBettingDB.

(** The entries an iterator shows from a key on. *)
Definition dbIterate `{StorageKV St K V} (db : St) (key : K) : list (K * V) := sIterate db key.

(** ** The undo table: undo vectors under the hash of an outpoint, and the
    last connected height under a string key. *)
Inductive UndosKey := UndoTxKey (key : uint256) | LastHeightKey.

Inductive UndosValue := UndoVector (vUndos : list CBettingUndoDB) | LastHeightValue (height : Z).

#[export] Instance UndosKey_eq_dec : EqDecision UndosKey.
Proof. solve_decision. Defined.

#[export] Instance UndosKey_countable : Countable UndosKey.
Proof.
  refine (inj_countable' (fun k => match k with UndoTxKey h => Some h | LastHeightKey => None end)
            (fun o => match o with Some h => UndoTxKey h | None => LastHeightKey end) _).
  by intros [].
Defined.

(** The bytes of the serialized string, as the first bytes of a uint256. *)
Definition LastHeight_prefix : Z := 0x0A4C617374486569676874 * 2 ^ (256 - 88).

#[export] Instance UndosKey_key_seq : KeySeq UndosKey := fun k =>
  match k with UndoTxKey h => [h; 1] | LastHeightKey => [LastHeight_prefix; 0] end.

#[export] Instance UndosKey_key_seq_inj : KeySeqInj UndosKey.
Proof. intros [] [] [=]; congruence. Qed.

(** ** CBettingsView *)
Record CBettingsView := {
  mappings : gmap MappingKey CMappingDB;
  results : gmap Z CPeerlessResultDB;
  events : gmap Z CPeerlessExtendedEventDB;
  bets : gmap PeerlessBetKey CPeerlessBetDB;
  undos : gmap UndosKey UndosValue;
  payoutsInfo : gmap PeerlessBetKey CPayoutInfoDB;
  quickGamesBets : gmap PeerlessBetKey CQuickGamesBetDB;
  chainGamesLottoEvents : gmap Z CChainGamesEventDB;
  chainGamesLottoBets : gmap PeerlessBetKey CChainGamesBetDB;
  chainGamesLottoResults : gmap Z CChainGamesResultDB;
  failedBettingTxs : gmap uint256 Z;
  fieldEvents : gmap Z CFieldEventDB;
  fieldResults : gmap Z CFieldResultDB;
  fieldBets : gmap PeerlessBetKey CFieldBetDB;
}.

#[export] Instance CBettingsView_eta : Settable CBettingsView := fun v =>
  Build_CBettingsView (mappings v) (results v) (events v) (bets v) (undos v) (payoutsInfo v)
    (quickGamesBets v) (chainGamesLottoEvents v) (chainGamesLottoBets v)
    (chainGamesLottoResults v) (failedBettingTxs v) (fieldEvents v) (fieldResults v) (fieldBets v).

Definition CBettingsView_empty : CBettingsView :=
  Build_CBettingsView ∅ ∅ ∅ ∅ ∅ ∅ ∅ ∅ ∅ ∅ ∅ ∅ ∅ ∅.

Definition SetLastHeight (v : CBettingsView) (height : Z) : CBettingsView :=
  if negb (dbExists (undos v) LastHeightKey)
  then v <| undos := (dbWrite (undos v) LastHeightKey (LastHeightValue height)).1 |>
  else v <| undos := (dbUpdate (undos v) LastHeightKey (LastHeightValue height)).1 |>.

Definition GetLastHeight (v : CBettingsView) : Z :=
  match dbRead (undos v) LastHeightKey with
  | Some (LastHeightValue height) => height
  | _ => 0
  end.

(** assert(!undos->Exists(key)): [None] stands for the abort. *)
Definition SaveBettingUndo (v : CBettingsView) (key : uint256) (vUndos : list CBettingUndoDB) :
    option CBettingsView :=
  if dbExists (undos v) (UndoTxKey key) then None
  else Some (v <| undos := (dbWrite (undos v) (UndoTxKey key) (UndoVector vUndos)).1 |>).

Definition EraseBettingUndo (v : CBettingsView) (key : uint256) : CBettingsView * bool :=
  let '(u, ok) := dbErase (undos v) (UndoTxKey key) in (v <| undos := u |>, ok).

Definition GetBettingUndo (v : CBettingsView) (key : uint256) : list CBettingUndoDB :=
  match dbRead (undos v) (UndoTxKey key) with
  | Some (UndoVector vUndos) => vUndos
  | _ => []
  end.

Definition ExistsBettingUndo (v : CBettingsView) (key : uint256) : bool :=
  dbExists (undos v) (UndoTxKey key).

(** The keys PruneOlderUndos collects; [vUndos[0]] of an empty vector is
    undefined behaviour, [None] here. *)
Fixpoint undos_to_delete (height : Z) (l : list (UndosKey * UndosValue)) : option (list uint256) :=
  match l with
  | [] => Some []
  | (LastHeightKey, _) :: l => undos_to_delete height l
  | (UndoTxKey key, UndoVector (u :: _)) :: l =>
      ks ← undos_to_delete height l;
      Some (if undo_height u <? height then key :: ks else ks)
  | (UndoTxKey _, _) :: _ => None
  end.

Definition PruneOlderUndos (v : CBettingsView) (height : Z) : option CBettingsView :=
  vKeysToDelete ← undos_to_delete height (sorted_entries (undos v));
  Some (v <| undos := foldl (fun u key => (dbErase u (UndoTxKey key)).1) (undos v) vKeysToDelete |>).

Definition SaveFailedTx (v : CBettingsView) (key : uint256) : option CBettingsView :=
  if dbExists (failedBettingTxs v) key then None
  else Some (v <| failedBettingTxs := (dbWrite (failedBettingTxs v) key 0).1 |>).

Definition ExistFailedTx (v : CBettingsView) (key : uint256) : bool :=
  dbExists (failedBettingTxs v) key.

Definition EraseFailedTx (v : CBettingsView) (key : uint256) : CBettingsView * bool :=
  let '(t, ok) := dbErase (failedBettingTxs v) key in (v <| failedBettingTxs := t |>, ok).

(** ** A cache level *)
Abbreviation table K V := (CFlushableStorageKV (gmap K V) K V).

Record CBettingsViewCache := {
  c_mappings : table MappingKey CMappingDB;
  c_results : table Z CPeerlessResultDB;
  c_events : table Z CPeerlessExtendedEventDB;
  c_bets : table PeerlessBetKey CPeerlessBetDB;
  c_undos : table UndosKey UndosValue;
  c_payoutsInfo : table PeerlessBetKey CPayoutInfoDB;
  c_quickGamesBets : table PeerlessBetKey CQuickGamesBetDB;
  c_chainGamesLottoEvents : table Z CChainGamesEventDB;
  c_chainGamesLottoBets : table PeerlessBetKey CChainGamesBetDB;
  c_chainGamesLottoResults : table Z CChainGamesResultDB;
  c_failedBettingTxs : table uint256 Z;
  c_fieldEvents : table Z CFieldEventDB;
  c_fieldResults : table Z CFieldResultDB;
  c_fieldBets : table PeerlessBetKey CFieldBetDB;
}.

#[export] Instance CBettingsViewCache_eta : Settable CBettingsViewCache := fun c =>
  Build_CBettingsViewCache (c_mappings c) (c_results c) (c_events c) (c_bets c) (c_undos c)
    (c_payoutsInfo c) (c_quickGamesBets c) (c_chainGamesLottoEvents c) (c_chainGamesLottoBets c)
    (c_chainGamesLottoResults c) (c_failedBettingTxs c) (c_fieldEvents c) (c_fieldResults c)
    (c_fieldBets c).

(** The copy constructor: every table starts as an empty cache. *)
Definition fresh {K V} `{Countable K} (m : gmap K V) : table K V :=
  {| fs_db := m; fs_changed := ∅ |}.

Definition CBettingsView_copy (phr : CBettingsView) : CBettingsViewCache := {|
  c_mappings := fresh (mappings phr);
  c_results := fresh (results phr);
  c_events := fresh (events phr);
  c_bets := fresh (bets phr);
  c_fieldEvents := fresh (fieldEvents phr);
  c_fieldResults := fresh (fieldResults phr);
  c_fieldBets := fresh (fieldBets phr);
  c_undos := fresh (undos phr);
  c_payoutsInfo := fresh (payoutsInfo phr);
  c_quickGamesBets := fresh (quickGamesBets phr);
  c_chainGamesLottoEvents := fresh (chainGamesLottoEvents phr);
  c_chainGamesLottoBets := fresh (chainGamesLottoBets phr);
  c_chainGamesLottoResults := fresh (chainGamesLottoResults phr);
  c_failedBettingTxs := fresh (failedBettingTxs phr);
|}.

(** Flush: a conjunction that stops at the first table that fails; the flush
    of failedBettingTxs follows the return statement. *)
Definition flush_table {K V} `{Countable K, KeySeq K} (proj : CBettingsViewCache -> table K V)
    `{!Setter proj} (r : CBettingsViewCache * bool) : CBettingsViewCache * bool :=
  let '(c, ok) := r in
  if ok then let '(t, ok) := fsFlush (proj c) in (c <| proj := t |>, ok) else (c, false).

Definition CBettingsView_Flush (c : CBettingsViewCache) : CBettingsViewCache * bool :=
  flush_table c_chainGamesLottoResults
  (flush_table c_chainGamesLottoBets
  (flush_table c_chainGamesLottoEvents
  (flush_table c_quickGamesBets
  (flush_table c_payoutsInfo
  (flush_table c_undos
  (flush_table c_fieldBets
  (flush_table c_fieldResults
  (flush_table c_fieldEvents
  (flush_table c_bets
  (flush_table c_events
  (flush_table c_results
  (flush_table c_mappings (c, true))))))))))))).

Definition CBettingsView_GetCacheSize (c : CBettingsViewCache) : Z :=
  u32 (Z.of_nat (
    fsGetCacheSize (c_mappings c) + fsGetCacheSize (c_results c) + fsGetCacheSize (c_events c) +
    fsGetCacheSize (c_bets c) + fsGetCacheSize (c_fieldEvents c) + fsGetCacheSize (c_fieldResults c) +
    fsGetCacheSize (c_fieldBets c) + fsGetCacheSize (c_undos c) + fsGetCacheSize (c_payoutsInfo c) +
    fsGetCacheSize (c_quickGamesBets c) + fsGetCacheSize (c_chainGamesLottoEvents c) +
    fsGetCacheSize (c_chainGamesLottoBets c) + fsGetCacheSize (c_chainGamesLottoResults c) +
    fsGetCacheSize (c_failedBettingTxs c))).

(** What a cache level shows, and the level below it. *)
Definition cache_view (c : CBettingsViewCache) : CBettingsView := {|
  mappings := fs_view (c_mappings c);
  results := fs_view (c_results c);
  events := fs_view (c_events c);
  bets := fs_view (c_bets c);
  undos := fs_view (c_undos c);
  payoutsInfo := fs_view (c_payoutsInfo c);
  quickGamesBets := fs_view (c_quickGamesBets c);
  chainGamesLottoEvents := fs_view (c_chainGamesLottoEvents c);
  chainGamesLottoBets := fs_view (c_chainGamesLottoBets c);
  chainGamesLottoResults := fs_view (c_chainGamesLottoResults c);
  failedBettingTxs := fs_view (c_failedBettingTxs c);
  fieldEvents := fs_view (c_fieldEvents c);
  fieldResults := fs_view (c_fieldResults c);
  fieldBets := fs_view (c_fieldBets c);
|}.

Definition cache_parent (c : CBettingsViewCache) : CBettingsView := {|
  mappings := fs_db (c_mappings c);
  results := fs_db (c_results c);
  events := fs_db (c_events c);
  bets := fs_db (c_bets c);
  undos := fs_db (c_undos c);
  payoutsInfo := fs_db (c_payoutsInfo c);
  quickGamesBets := fs_db (c_quickGamesBets c);
  chainGamesLottoEvents := fs_db (c_chainGamesLottoEvents c);
  chainGamesLottoBets := fs_db (c_chainGamesLottoBets c);
  chainGamesLottoResults := fs_db (c_chainGamesLottoResults c);
  failedBettingTxs := fs_db (c_failedBettingTxs c);
  fieldEvents := fs_db (c_fieldEvents c);
  fieldResults := fs_db (c_fieldResults c);
  fieldBets := fs_db (c_fieldBets c);
|}.

(** ** Lemmas: CBettingDB over a map *)
Section Maps.
Context `{Countable K, !KeySeq K} {V : Type}.
Implicit Types (m : gmap K V) (k : K) (v : V).

Lemma dbExists_Some m k v : m !! k = Some v -> dbExists (V := V) m k = true.
Proof. intros E. apply bool_decide_eq_true. by rewrite E. Qed.

Lemma dbExists_None m k : m !! k = None -> dbExists (V := V) m k = false.
Proof. intros E. apply bool_decide_eq_false. rewrite E. by intros []. Qed.

Lemma dbExists_true m k : dbExists (V := V) m k = true <-> is_Some (m !! k).
Proof. apply bool_decide_eq_true. Qed.

Lemma dbExists_false m k : dbExists (V := V) m k = false <-> m !! k = None.
Proof. rewrite eq_None_not_Some. apply bool_decide_eq_false. Qed.

Lemma dbWrite_None m k v : m !! k = None -> dbWrite m k v = (<[k := v]> m, true).
Proof. intros E. unfold dbWrite. by rewrite (dbExists_None m k E : sExists m k = false). Qed.

Lemma dbWrite_Some m k v v' : m !! k = Some v' -> dbWrite m k v = (m, false).
Proof. intros E. unfold dbWrite. by rewrite (dbExists_Some m k v' E : sExists m k = true). Qed.

Lemma dbUpdate_Some m k v v' : m !! k = Some v' -> dbUpdate m k v = (<[k := v]> m, true).
Proof. intros E. unfold dbUpdate. by rewrite (dbExists_Some m k v' E : sExists m k = true). Qed.

Lemma dbUpdate_None m k v : m !! k = None -> dbUpdate m k v = (m, false).
Proof. intros E. unfold dbUpdate. by rewrite (dbExists_None m k E : sExists m k = false). Qed.

Lemma dbErase_Some m k v : m !! k = Some v -> dbErase (V := V) m k = (delete k m, true).
Proof. intros E. unfold dbErase. by rewrite (dbExists_Some m k v E : sExists m k = true). Qed.

Lemma dbErase_None m k : m !! k = None -> dbErase (V := V) m k = (m, false).
Proof. intros E. unfold dbErase. by rewrite (dbExists_None m k E : sExists m k = false). Qed.

Lemma dbWrite_fst m k v :
  (dbWrite m k v).1 = match m !! k with Some _ => m | None => <[k := v]> m end.
Proof. destruct (m !! k) eqn:E; [by erewrite dbWrite_Some|by rewrite dbWrite_None]. Qed.

Lemma dbWrite_other m k v k' : k' <> k -> (dbWrite m k v).1 !! k' = m !! k'.
Proof. intros. rewrite dbWrite_fst. case_match; [done|]. by rewrite lookup_insert_ne. Qed.

Lemma dbUpdate_fst m k v :
  (dbUpdate m k v).1 = match m !! k with Some _ => <[k := v]> m | None => m end.
Proof. destruct (m !! k) eqn:E; [by erewrite dbUpdate_Some|by rewrite dbUpdate_None]. Qed.

Lemma dbErase_fst m k : (dbErase (V := V) m k).1 = delete k m.
Proof.
  destruct (m !! k) eqn:E; [by erewrite dbErase_Some|]. rewrite dbErase_None by done.
  by rewrite delete_id.
Qed.
End Maps.

(** ** CBettingDB over a storage that keeps the contract *)

(** CBettingDB over any storage that keeps the contract (in particular
    any stack of caches).  Write adds an entry and reports success only when
    the key is absent, Update replaces only when it is present, Erase deletes
    only when it is present; when they refuse, nothing changes; Exists tells
    which of the two holds. *)
Theorem CBettingDB_ops `{StorageKVLaws St K V} (db : St) (k : K) (v : V) :
  (view db !! k = None ->
     dbExists db k = false /\
     (dbWrite db k v).2 = true /\ view (dbWrite db k v).1 = <[k := v]> (view db) /\
     dbUpdate db k v = (db, false) /\ dbErase db k = (db, false)) /\
  (is_Some (view db !! k) ->
     dbExists db k = true /\ dbWrite db k v = (db, false) /\
     (dbUpdate db k v).2 = true /\ view (dbUpdate db k v).1 = <[k := v]> (view db) /\
     (dbErase db k).2 = true /\ view (dbErase db k).1 = delete k (view db)).
Proof.
  pose proof (sExists_view db k) as Ex. unfold dbExists, dbWrite, dbUpdate, dbErase.
  destruct (sWrite db k v) as [dw bw] eqn:Ew. apply sWrite_view in Ew as [-> Hw].
  destruct (sErase db k) as [de be] eqn:Ee. apply sErase_view in Ee as [-> He].
  split; intros Hk; rewrite Ex.
  - rewrite Hk, bool_decide_eq_false_2 by (by intros []). auto.
  - rewrite bool_decide_eq_true_2 by done. simpl. auto 10.
Qed.

(** ** Flush *)
Lemma fsFlush_gmap `{Countable K, !KeySeq K, !KeySeqInj K} {V} (t : table K V) :
  fsFlush t = ({| fs_db := fs_view t; fs_changed := ∅ |}, true).
Proof.
  unfold fsFlush.
  destruct (flush_entries_spec (sorted_entries (fs_changed t)) (fs_db t)) as (db' & -> & Hdb').
  { rewrite sorted_entries_perm. apply NoDup_fst_map_to_list. }
  rewrite list_to_map_sorted_entries in Hdb'. do 2 f_equal.
  apply map_eq. intros k. rewrite lookup_fs_view. apply (Hdb' k).
Qed.

Lemma fs_view_fresh `{Countable K, !KeySeq K} {V} (m : gmap K V) : fs_view (fresh m) = m.
Proof. apply map_eq. intros k. rewrite lookup_fs_view. simpl. by rewrite lookup_empty. Qed.

Lemma fs_view_flushed `{Countable K, !KeySeq K} {V} (m : gmap K V) :
  fs_view {| fs_db := m; fs_changed := ∅ |} = m.
Proof. apply fs_view_fresh. Qed.

(** Connecting a block through a cache.  A fresh cache shows what is
    below it; Flush reports success and leaves the level below with what the
    cache showed in thirteen of the fourteen tables, with empty caches.  The
    table of failed transactions is left out: below it nothing has changed
    and its pending changes stay in the cache. *)
Theorem CBettingsView_Flush_spec (v : CBettingsView) (c : CBettingsViewCache) :
  cache_view (CBettingsView_copy v) = v /\ cache_parent (CBettingsView_copy v) = v /\
  exists c', CBettingsView_Flush c = (c', true) /\
    cache_parent c' = (cache_view c) <| failedBettingTxs := failedBettingTxs (cache_parent c) |> /\
    c_failedBettingTxs c' = c_failedBettingTxs c /\
    cache_view c' = cache_view c.
Proof.
  split_and!.
  - destruct v. unfold cache_view, CBettingsView_copy. simpl. by rewrite !fs_view_fresh.
  - by destruct v.
  - eexists. split_and!.
    + unfold CBettingsView_Flush. unfold flush_table. rewrite fsFlush_gmap. simpl.
      repeat (rewrite fsFlush_gmap; simpl). reflexivity.
    + done.
    + done.
    + unfold cache_view. simpl. by rewrite !fs_view_flushed.
Qed.

(** ** Pruning *)
Definition undo_vectors_nonempty (v : CBettingsView) : Prop :=
  forall k val, undos v !! UndoTxKey k = Some val -> exists u us, val = UndoVector (u :: us).

Definition undo_is_older (height : Z) (val : UndosValue) : bool :=
  match val with UndoVector (u :: _) => undo_height u <? height | _ => false end.

Lemma undos_to_delete_spec height l :
  (forall k val, (UndoTxKey k, val) ∈ l -> exists u us, val = UndoVector (u :: us)) ->
  exists ks, undos_to_delete height l = Some ks /\
    forall k, k ∈ ks <-> exists val, (UndoTxKey k, val) ∈ l /\ undo_is_older height val = true.
Proof.
  induction l as [|[[k|] val] l IH]; intros Hne.
  - exists []. split; [done|]. intros k. split; [intros Hk; by apply not_elem_of_nil in Hk|].
    intros (? & Hk & _). by apply not_elem_of_nil in Hk.
  - destruct IH as (ks & Hks & Hin); [intros; eapply Hne; by apply elem_of_cons; right|].
    destruct (Hne k val) as (u & us & ->); [apply list_elem_of_here|].
    simpl. rewrite Hks. simpl. eexists. split; [done|]. intros k'.
    assert (k' ∈ (if undo_height u <? height then k :: ks else ks) <->
      (k' = k /\ (undo_height u <? height) = true) \/ k' ∈ ks) as ->.
    { destruct (undo_height u <? height); rewrite ?elem_of_cons; naive_solver. }
    rewrite Hin. setoid_rewrite elem_of_cons. split.
    + intros [[-> ?]|(val & ? & ?)]; eauto.
    + intros (val & [[= -> ->]|?] & ?); eauto.
  - destruct IH as (ks & Hks & Hin); [intros; eapply Hne; by apply elem_of_cons; right|].
    exists ks. split; [done|]. intros k. rewrite Hin. setoid_rewrite elem_of_cons. naive_solver.
Qed.

Lemma foldl_dbErase_lookup (ks : list uint256) (u : gmap UndosKey UndosValue) j :
  foldl (fun u key => (dbErase u (UndoTxKey key)).1) u ks !! j =
  match j with UndoTxKey k => if decide (k ∈ ks) then None else u !! j | LastHeightKey => u !! j end.
Proof.
  revert u. induction ks as [|k ks IH]; intros u; cbn [foldl].
  - destruct j; [|done]. rewrite decide_False by (apply not_elem_of_nil). done.
  - rewrite IH, dbErase_fst. destruct j as [k'|]; [|by rewrite lookup_delete_ne].
    destruct (decide (k' ∈ ks)).
    + by rewrite decide_True by (by apply elem_of_cons; right).
    + destruct (decide (k' = k)) as [->|].
      * rewrite decide_True by apply list_elem_of_here. by rewrite lookup_delete_eq.
      * rewrite decide_False by (rewrite elem_of_cons; naive_solver).
        rewrite lookup_delete_ne by congruence. done.
Qed.

Lemma undos_to_delete_empty height l k :
  (UndoTxKey k, UndoVector []) ∈ l -> undos_to_delete height l = None.
Proof.
  induction l as [|[[k'|] val] l IH]; intros Hin.
  - by apply not_elem_of_nil in Hin.
  - apply elem_of_cons in Hin as [[= <- <-]|Hin]; [done|].
    destruct val as [[|u us]|]; simpl; [done| |done]. by rewrite IH.
  - apply elem_of_cons in Hin as [?|Hin]; [done|]. simpl. auto.
Qed.

(** Pruning old undo records.  When every stored undo vector has an
    element, PruneOlderUndos removes exactly the vectors whose first record
    is below the given height and keeps every other one, the last height
    included, whatever the order of the keys; other tables are untouched.
    When some stored vector is empty, it reads past the end of a vector. *)
Theorem PruneOlderUndos_spec v height :
  (undo_vectors_nonempty v ->
   exists v', PruneOlderUndos v height = Some v' /\
     v' = v <| undos := undos v' |> /\
     GetLastHeight v' = GetLastHeight v /\
     forall j, undos v' !! j =
       match undos v !! j with
       | Some val => if undo_is_older height val then
                       match j with UndoTxKey _ => None | LastHeightKey => Some val end
                     else Some val
       | None => None
       end) /\
  (forall k, undos v !! UndoTxKey k = Some (UndoVector []) -> PruneOlderUndos v height = None).
Proof.
  split.
  - intros Hne. unfold PruneOlderUndos.
    destruct (undos_to_delete_spec height (sorted_entries (undos v))) as (ks & -> & Hks).
    { intros k val Hin. apply elem_of_sorted_entries in Hin. by eapply Hne. }
    simpl. eexists. split; [done|].
    assert (forall k, k ∈ ks <->
      exists val, undos v !! UndoTxKey k = Some val /\ undo_is_older height val = true) as Hks'.
    { intros k. rewrite Hks. by setoid_rewrite elem_of_sorted_entries. }
    split_and!; [done| |].
    + unfold GetLastHeight, dbRead. simpl. by rewrite foldl_dbErase_lookup.
    + intros j. simpl. rewrite foldl_dbErase_lookup. destruct j as [k|]; [|by repeat case_match].
      specialize (Hks' k). destruct (decide (k ∈ ks)) as [Hin|Hin].
      * apply Hks' in Hin as (val & -> & ->). done.
      * destruct (undos v !! UndoTxKey k) as [val|] eqn:E; [|done].
        destruct (undo_is_older height val) eqn:E'; [|done].
        destruct Hin. apply Hks'. eauto.
  - intros k Hk. unfold PruneOlderUndos. rewrite (undos_to_delete_empty height _ k); [done|].
    by apply elem_of_sorted_entries.
Qed.
