(* ===== verification/BetCommon.v ===== *)
(** * Oracles, odds and payouts shared by the betting protocol versions
    (src/src/betting/bet_common.cpp, src/src/betting/oracles.cpp)

    [ChainEnv] gathers what betting takes from the rest of the node: the
    consensus parameters, the oracles of the chain parameters, the address and
    script functions, the transaction index, the coins view, pow of the C
    library and the conversion of out-of-range doubles.  Odds are 32-bit
    unsigned integers scaled by BET_ODDSDIVISOR. *)

From S2P Require Import Prelude Params BetTx BetDB BetKeys Flushable BetView Double FieldOdds.

(** ** Oracles (oracles.h, oracles.cpp) *)
Record COracle := {
  strAddress : list Z;
  strDevPayoutAddress : list Z;
  strOMNOPayoutAddress : list Z;
  nStartHeight : Z;
  nEndHeight : Z;
}.

Definition IsActive (o : COracle) (nHeight : Z) : bool :=
  (nStartHeight o <=? nHeight) && (nHeight <? nEndHeight o).

Definition IsMyOracleTx (o : COracle) (txAddress : list Z) (nTxHeight : Z) : bool :=
  if negb (IsActive o nTxHeight) then false else bool_decide (txAddress = strAddress o).

(** ** What betting uses of the node *)
Record ChainEnv := {
  Params : ConsensusParams;
  Oracles : list COracle;
  EncodeDestination : CTxDestination -> list Z;
  DecodeDestination : list Z -> CTxDestination;
  ExtractDestination : list Z -> option CTxDestination;
  ExtractDestinations : list Z -> option (list CTxDestination);
  GetScriptForDestination : CTxDestination -> list Z;
  GetTransaction : uint256 -> option CTransaction;
  GetTransactionInView : uint256 -> option CTransaction;
  IsGenerated : CTransaction -> bool;
  AccessCoin : COutPoint -> CTxOut;
  SerializeHash : COutPoint -> uint256;
  ChainActiveHeight : Z;
  Spork20 : Z;
  c_pow : double -> double -> double;
  open_cast : double -> Z;
}.

(** CFieldEventDB::CalcOdds with the platform's pow and conversions. *)
Definition CalcOdds (env : ChainEnv) : CFieldEventDB -> CFieldEventDB :=
  CFieldEventDB_CalcOdds (c_pow env) (open_cast env).

Lemma CalcOdds_nEventId env e : fev_nEventId (CalcOdds env e) = fev_nEventId e.
Proof. unfold CalcOdds. exact (CalcOdds_id (c_pow env) (open_cast env) e). Qed.

Definition V3 (env : ChainEnv) : Z := WagerrProtocolV3StartHeight (Params env).
Definition V4 (env : ChainEnv) : Z := WagerrProtocolV4StartHeight (Params env).

Fixpoint GetFeePayoutScripts_in (env : ChainEnv) (os : list COracle) (nHeight : Z) :
    option (list Z * list Z) :=
  match os with
  | [] => None
  | oracle :: os =>
      if IsActive oracle nHeight then
        Some (GetScriptForDestination env (DecodeDestination env (strDevPayoutAddress oracle)),
              GetScriptForDestination env (DecodeDestination env (strOMNOPayoutAddress oracle)))
      else GetFeePayoutScripts_in env os nHeight
  end.

(** {DevPayoutScript, OMNOPayoutScript} of the first active oracle. *)
Definition GetFeePayoutScripts (env : ChainEnv) (nHeight : Z) : option (list Z * list Z) :=
  GetFeePayoutScripts_in env (Oracles env) nHeight.

Fixpoint GetFeePayoutAddresses_in (os : list COracle) (nHeight : Z) : option (list Z * list Z) :=
  match os with
  | [] => None
  | oracle :: os =>
      if IsActive oracle nHeight
      then Some (strDevPayoutAddress oracle, strOMNOPayoutAddress oracle)
      else GetFeePayoutAddresses_in os nHeight
  end.

Definition GetFeePayoutAddresses (env : ChainEnv) (nHeight : Z) : option (list Z * list Z) :=
  GetFeePayoutAddresses_in (Oracles env) nHeight.

Definition IsValidOraclePrevTxOut (env : ChainEnv) (prevTxOut : CTxOut) (nHeight : Z) : bool :=
  match ExtractDestinations env (scriptPubKey prevTxOut) with
  | Some prevAddrs =>
      existsb (fun prevAddr =>
        existsb (fun oracle => IsMyOracleTx oracle (EncodeDestination env prevAddr) nHeight)
          (Oracles env)) prevAddrs
  | None => false
  end.

(** [vout[n]]; [None] is an access past the end. *)
Definition prevout_of (txPrev : CTransaction) (prevout : COutPoint) : option CTxOut :=
  tx_vout txPrev !! Z.to_nat (op_n prevout).

Definition IsValidOracleTxIn (env : ChainEnv) (prevout : COutPoint) (nHeight : Z) : option bool :=
  match GetTransaction env (op_hash prevout) with
  | Some txPrev => prevTxOut ← prevout_of txPrev prevout;
                   Some (IsValidOraclePrevTxOut env prevTxOut nHeight)
  | None => Some false
  end.

(** [None]: the transaction has no input, or a previous output is accessed
    past the end. *)
Definition IsValidOracleTx (env : ChainEnv) (tx : CTransaction) (nHeight : Z) : option bool :=
  if IsGenerated env tx then Some false
  else
    txin ← head (tx_vin tx);
    match GetTransactionInView env (op_hash txin) with
    | Some txPrev => prevTxOut ← prevout_of txPrev txin;
                     Some (IsValidOraclePrevTxOut env prevTxOut nHeight)
    | None => IsValidOracleTxIn env txin nHeight
    end.

(** ** Payouts of the old protocol: {result, nPayout, nBurn}.

    CBigNum division truncates; getuint256 keeps the magnitude. *)
Definition CalculatePayoutBurnAmounts (betAmount odds : Z) : bool * Z * Z :=
  if odds =? 0 then (false, 0, 0)
  else if (0 <? odds) && (odds <=? BET_ODDSDIVISOR) then
    (true, Z.quot (i64 (betAmount * odds)) BET_ODDSDIVISOR, 0)
  else
    let bBetAmount := u64 betAmount in
    let bWinningsT := bBetAmount * odds in
    let bPayout :=
      Z.quot (bWinningsT - Z.quot (bWinningsT - bBetAmount * BET_ODDSDIVISOR) 1000 * 60) BET_ODDSDIVISOR in
    let bBurn := bPayout - Z.quot bWinningsT BET_ODDSDIVISOR in
    (true, i64 (u64 (Z.abs bPayout)), i64 (u64 (Z.abs bBurn))).

(** ** Odds *)
Definition CalculateEffectiveOdds (onChainOdds : Z) : Z :=
  if (onChainOdds =? 0) || (onChainOdds =? Z.quot BET_ODDSDIVISOR 2) || (onChainOdds =? BET_ODDSDIVISOR)
  then onChainOdds
  else u32 (u64 (u64 (u64 (onChainOdds - BET_ODDSDIVISOR) * 9400) `div` BET_ODDSDIVISOR + BET_ODDSDIVISOR)).

(** One of the two handicaps of an Asian spread: {on-chain, effective}. *)
Definition asian_half (sp difference odds : Z) : Z * Z :=
  if i32 (sp + difference) =? 0 then (BET_ODDSDIVISOR, BET_ODDSDIVISOR)
  else if 0 <? i32 (sp + difference) then (odds, CalculateEffectiveOdds odds)
  else (0, 0).

Definition CalculateAsianSpreadOdds (lockedEvent : CPeerlessBaseEventDB) (difference : Z)
    (spreadHomeOutcome : bool) : Z * Z :=
  let sp := be_nSpreadPoints lockedEvent in
  let sign := if sp <? 0 then -1 else 1 in
  let sp1 := i32 (Z.abs (Z.quot sp 50) * 50 * sign) in
  let sp2 := i32 ((Z.abs (Z.quot sp 50) + 1) * 50 * sign) in
  let sp1 := if spreadHomeOutcome then sp1 else i32 (- sp1) in
  let sp2 := if spreadHomeOutcome then sp2 else i32 (- sp2) in
  let odds := if spreadHomeOutcome then be_nSpreadHomeOdds lockedEvent
              else be_nSpreadAwayOdds lockedEvent in
  let '(oc_odd1, eff_odd1) := asian_half sp1 difference odds in
  let '(oc_odd2, eff_odd2) := asian_half sp2 difference odds in
  let half x := u32 (Z.quot BET_ODDSDIVISOR 2 * x) `div` BET_ODDSDIVISOR in
  (u32 (half oc_odd1 + half oc_odd2), u32 (half eff_odd1 + half eff_odd2)).

(** A win at the given odds: {on-chain odds, effective odds}. *)
Definition win_odds (odds : Z) : Z * Z := (odds, CalculateEffectiveOdds odds).

Definition refund_odds : Z * Z := (BET_ODDSDIVISOR, BET_ODDSDIVISOR).

Definition lose_odds : Z * Z := (0, 0).

Definition is_result (result : CPeerlessResultDB) (t : ResultType) : bool :=
  rs_nResultType result =? ResultType_value t.

Definition GetBetOdds (bet : CPeerlessLegDB) (lockedEvent : CPeerlessBaseEventDB)
    (result : CPeerlessResultDB) (fWagerrProtocolV3 : bool) : Z * Z :=
  let fLegacyInitialHomeFavorite := be_fLegacyInitialHomeFavorite lockedEvent in
  let home := rs_nHomeScore result in
  let away := rs_nAwayScore result in
  let legacySpreadDiff := i32 (if fLegacyInitialHomeFavorite then home - away else away - home) in
  let totalPoints := u32 (home + away) in
  let sp := be_nSpreadPoints lockedEvent in
  if is_result result eventRefund then refund_odds
  else
    match OutcomeType_of (leg_nOutcome bet) with
    | Some moneyLineHomeWin =>
        if is_result result mlRefund || ((be_nHomeOdds lockedEvent =? 0) && fWagerrProtocolV3) then refund_odds
        else if away <? home then win_odds (be_nHomeOdds lockedEvent)
        else lose_odds
    | Some moneyLineAwayWin =>
        if is_result result mlRefund || ((be_nAwayOdds lockedEvent =? 0) && fWagerrProtocolV3) then refund_odds
        else if home <? away then win_odds (be_nAwayOdds lockedEvent)
        else lose_odds
    | Some moneyLineDraw =>
        if is_result result mlRefund || ((be_nDrawOdds lockedEvent =? 0) && fWagerrProtocolV3) then refund_odds
        else if home =? away then win_odds (be_nDrawOdds lockedEvent)
        else lose_odds
    | Some spreadHome =>
        if is_result result spreadsRefund || ((be_nSpreadHomeOdds lockedEvent =? 0) && fWagerrProtocolV3) then refund_odds
        else if negb fWagerrProtocolV3 then
          if legacySpreadDiff =? sp then refund_odds
          else if fLegacyInitialHomeFavorite then
            if sp <? legacySpreadDiff then win_odds (be_nSpreadHomeOdds lockedEvent) else lose_odds
          else
            if legacySpreadDiff <? sp then win_odds (be_nSpreadHomeOdds lockedEvent) else lose_odds
        else
          let difference := i32 (home - away) in
          if Z.rem sp 50 =? 0 then
            if i32 (sp + difference) =? 0 then refund_odds
            else if 0 <? i32 (sp + difference) then win_odds (be_nSpreadHomeOdds lockedEvent)
            else lose_odds
          else if Z.rem sp 25 =? 0 then CalculateAsianSpreadOdds lockedEvent difference true
          else lose_odds
    | Some spreadAway =>
        if is_result result spreadsRefund || ((be_nSpreadAwayOdds lockedEvent =? 0) && fWagerrProtocolV3) then refund_odds
        else if negb fWagerrProtocolV3 then
          if legacySpreadDiff =? sp then refund_odds
          else if fLegacyInitialHomeFavorite then
            if legacySpreadDiff <? sp then win_odds (be_nSpreadAwayOdds lockedEvent) else lose_odds
          else
            if sp <? legacySpreadDiff then win_odds (be_nSpreadAwayOdds lockedEvent) else lose_odds
        else
          let difference := i32 (away - home) in
          if Z.rem sp 50 =? 0 then
            if i32 (i32 (sp * (-1)) + difference) =? 0 then refund_odds
            else if 0 <? i32 (i32 (sp * (-1)) + difference) then win_odds (be_nSpreadAwayOdds lockedEvent)
            else lose_odds
          else if Z.rem sp 25 =? 0 then CalculateAsianSpreadOdds lockedEvent difference false
          else lose_odds
    | Some totalOver =>
        if is_result result totalsRefund || ((be_nTotalOverOdds lockedEvent =? 0) && fWagerrProtocolV3) then refund_odds
        else if totalPoints =? be_nTotalPoints lockedEvent then refund_odds
        else if be_nTotalPoints lockedEvent <? totalPoints then win_odds (be_nTotalOverOdds lockedEvent)
        else lose_odds
    | Some totalUnder =>
        if is_result result totalsRefund || ((be_nTotalUnderOdds lockedEvent =? 0) && fWagerrProtocolV3) then refund_odds
        else if totalPoints =? be_nTotalPoints lockedEvent then refund_odds
        else if totalPoints <? be_nTotalPoints lockedEvent then win_odds (be_nTotalUnderOdds lockedEvent)
        else lose_odds
    | None => lose_odds
    end.

(** The overload for field bets (its protocol argument is unused). *)
Definition GetBetOdds_field (bet : CFieldLegDB) (lockedEvent : CFieldEventDB) (result : CFieldResultDB) :
    Z * Z :=
  if frs_nResultType result =? ResultType_value eventRefund then refund_odds
  else
    let contederResult :=
      default (ContenderResult_value DNF) (frs_contendersResults result !! fleg_nContenderId bet) in
    let contenderInfo := contender (fev_contenders lockedEvent) (fleg_nContenderId bet) in
    let at_place r := contederResult =? ContenderResult_value r in
    match FieldBetOutcomeType_of (fleg_nOutcome bet) with
    | Some outright =>
        if at_place place1 then win_odds (ci_nOutrightOdds contenderInfo) else lose_odds
    | Some place =>
        if at_place place1 || at_place place2 then win_odds (ci_nPlaceOdds contenderInfo) else lose_odds
    | Some show =>
        if at_place place1 || at_place place2 || at_place place3
        then win_odds (ci_nShowOdds contenderInfo) else lose_odds
    | None => lose_odds
    end.

Definition GetBetPotentialOdds (bet : CPeerlessLegDB) (lockedEvent : CPeerlessBaseEventDB) : Z :=
  match OutcomeType_of (leg_nOutcome bet) with
  | Some moneyLineHomeWin => be_nHomeOdds lockedEvent
  | Some moneyLineAwayWin => be_nAwayOdds lockedEvent
  | Some moneyLineDraw => be_nDrawOdds lockedEvent
  | Some spreadHome => be_nSpreadHomeOdds lockedEvent
  | Some spreadAway => be_nSpreadAwayOdds lockedEvent
  | Some totalOver => be_nTotalOverOdds lockedEvent
  | Some totalUnder => be_nTotalUnderOdds lockedEvent
  | None => 0
  end.

Definition GetBetPotentialOdds_field (bet : CFieldLegDB) (lockedEvent : CFieldEventDB) : Z :=
  match fev_contenders lockedEvent !! fleg_nContenderId bet with
  | None => 0
  | Some c =>
      match FieldBetOutcomeType_of (fleg_nOutcome bet) with
      | Some outright => ci_nOutrightOdds c
      | Some place => ci_nPlaceOdds c
      | Some show => ci_nShowOdds c
      | None => 0
      end
  end.

(** ** Results of a block *)
Record CBlockIndex := { nHeight : Z; vResultIDs : list Z }.

(** The loop of the two functions below: ids without a result are skipped;
    before v3 the first result ends it. *)
Fixpoint results_from_db {R} (table : gmap Z R) (fMultipleResultsAllowed : bool) (ids : list Z) : list R :=
  match ids with
  | [] => []
  | nEventId :: ids =>
      match dbRead table nEventId with
      | None => results_from_db table fMultipleResultsAllowed ids
      | Some res =>
          if fMultipleResultsAllowed then res :: results_from_db table fMultipleResultsAllowed ids
          else [res]
      end
  end.

Definition GetPLResultsFromDB (env : ChainEnv) (v : CBettingsView) (pindexPrev : option CBlockIndex) :
    option (list CPeerlessResultDB) :=
  pindexPrev ← pindexPrev;
  Some (results_from_db (results v) (V3 env <=? nHeight pindexPrev) (vResultIDs pindexPrev)).

Definition GetFieldResultsFromDB (env : ChainEnv) (v : CBettingsView) (pindexPrev : option CBlockIndex) :
    option (list CFieldResultDB) :=
  pindexPrev ← pindexPrev;
  Some (results_from_db (fieldResults v) (V3 env <=? nHeight pindexPrev) (vResultIDs pindexPrev)).

(** The chain game results of a block: transactions of at most two outputs
    sent by an oracle. *)
Fixpoint cg_results_of_vouts (env : ChainEnv) (nLastBlockHeight : Z) (tx : CTransaction)
    (vout : list CTxOut) : option (list CChainGamesResultDB) :=
  match vout with
  | [] => Some []
  | txOut :: vout =>
      match ParseBettingTx (scriptPubKey txOut) with
      | Some (ChainGamesResultTx resultTx) =>
          valid ← IsValidOracleTx env tx nLastBlockHeight;
          rest ← cg_results_of_vouts env nLastBlockHeight tx vout;
          Some (if valid : bool then {| cgres_nEventId := cgr_nEventId resultTx |} :: rest else rest)
      | _ => cg_results_of_vouts env nLastBlockHeight tx vout
      end
  end.

Fixpoint GetCGLottoEventResults (env : ChainEnv) (nLastBlockHeight : Z) (vtx : list CTransaction) :
    option (list CChainGamesResultDB) :=
  match vtx with
  | [] => Some []
  | tx :: vtx =>
      if (2 <? length (tx_vout tx))%nat then GetCGLottoEventResults env nLastBlockHeight vtx
      else
        rs ← cg_results_of_vouts env nLastBlockHeight tx (tx_vout tx);
        rest ← GetCGLottoEventResults env nLastBlockHeight vtx;
        Some (rs ++ rest)
  end.

(** ** Lemmas on odds *)

(** Odds as an oracle sets them: closed (0) or at least even money. *)
Definition odds_ok (odds : Z) : Prop := odds = 0 \/ BET_ODDSDIVISOR <= odds < 2 ^ 32.

Lemma CalculateEffectiveOdds_ge odds :
  BET_ODDSDIVISOR <= odds < 2 ^ 32 ->
  CalculateEffectiveOdds odds = BET_ODDSDIVISOR + ((odds - BET_ODDSDIVISOR) * 94) `div` 100.
Proof.
  unfold CalculateEffectiveOdds, BET_ODDSDIVISOR. pow2_lits. intros Ho.
  change (Z.quot 10000 2) with 5000.
  destruct (Z.eqb_spec odds 0); [lia|]. destruct (Z.eqb_spec odds 5000); [lia|].
  destruct (Z.eqb_spec odds 10000) as [->|]; [done|]. simpl orb. cbv iota.
  rewrite (wrapU_small 64 (odds - 10000)) by range.
  rewrite (wrapU_small 64 (_ * 9400)) by range.
  rewrite (wrapU_small 64) by (unfold inU; pow2_lits; Z.to_euclidean_division_equations; lia).
  rewrite (wrapU_small 32) by (unfold inU; pow2_lits; Z.to_euclidean_division_equations; lia).
  Z.to_euclidean_division_equations; lia.
Qed.

Lemma CalculateEffectiveOdds_zero : CalculateEffectiveOdds 0 = 0.
Proof. done. Qed.

Lemma CalculateEffectiveOdds_bounds odds :
  odds_ok odds -> 0 <= CalculateEffectiveOdds odds <= odds.
Proof.
  intros [->|Ho]; [done|]. rewrite CalculateEffectiveOdds_ge by done.
  unfold BET_ODDSDIVISOR in *. Z.to_euclidean_division_equations; lia.
Qed.

(** The 6% commission.  For odds of at least even money the effective
    odds are the even money plus 94% of the rest, rounded down: never below
    even money, never above the on-chain odds, and monotone in them. *)
Theorem CalculateEffectiveOdds_spec o1 o2 :
  BET_ODDSDIVISOR <= o1 -> o1 <= o2 -> o2 < 2 ^ 32 ->
  CalculateEffectiveOdds o1 = BET_ODDSDIVISOR + ((o1 - BET_ODDSDIVISOR) * 94) `div` 100 /\
  BET_ODDSDIVISOR <= CalculateEffectiveOdds o1 <= o1 /\
  CalculateEffectiveOdds o1 <= CalculateEffectiveOdds o2.
Proof.
  intros H1 H2 H3. rewrite !CalculateEffectiveOdds_ge by lia. unfold BET_ODDSDIVISOR in *.
  Z.to_euclidean_division_equations; lia.
Qed.

(** Below even money the subtraction wraps around.  For every odds in
    (0, 10000) other than 5000 the effective odds are not a commission on the
    odds but a 32-bit remainder above the highest odds betting knows. *)
Theorem CalculateEffectiveOdds_underflow odds :
  0 < odds < BET_ODDSDIVISOR -> odds <> 5000 ->
  BET_MAXODDS < CalculateEffectiveOdds odds.
Proof.
  unfold CalculateEffectiveOdds, BET_MAXODDS, BET_ODDSDIVISOR. intros Ho Hne.
  change (Z.quot 10000 2) with 5000.
  destruct (Z.eqb_spec odds 0); [lia|]. destruct (Z.eqb_spec odds 5000); [lia|].
  destruct (Z.eqb_spec odds 10000); [lia|]. simpl orb. cbv iota.
  unfold wrapU. pow2_lits. Z.to_euclidean_division_equations; lia.
Qed.

(** Payout and burn of the old protocol.  For an amount in the money
    range and odds above even money and within the allowed maximum, payout
    and burn add up to the gross winnings; the payout is at least the stake,
    and the burn is at most 6% of the profit, rounded. *)
Theorem CalculatePayoutBurnAmounts_conserves betAmount odds :
  MoneyRange betAmount = true -> BET_ODDSDIVISOR < odds <= BET_MAXODDS ->
  exists payout burn, CalculatePayoutBurnAmounts betAmount odds = (true, payout, burn) /\
    payout + burn = (betAmount * odds) `div` BET_ODDSDIVISOR /\
    betAmount <= payout /\ 0 <= burn /\
    burn * (1000 * BET_ODDSDIVISOR) <= betAmount * (odds - BET_ODDSDIVISOR) * 60 + 1000 * BET_ODDSDIVISOR.
Proof.
  unfold MoneyRange, MAX_MONEY, COIN, BET_MAXODDS, CalculatePayoutBurnAmounts, BET_ODDSDIVISOR.
  intros [Hb1 Hb2]%andb_prop Ho. apply Z.leb_le in Hb1, Hb2.
  assert (exists w, w = betAmount * odds /\ betAmount * 10000 <= w <= 4 * 10 ^ 22) as (w & Hw & Hwb).
  { exists (betAmount * odds). split; [done|]. nia. }
  destruct (Z.eqb_spec odds 0); [lia|]. replace (odds <=? 10000) with false by lia.
  rewrite andb_false_r. cbv zeta. rewrite (wrapU_small 64 betAmount) by range. rewrite <- Hw.
  replace (betAmount * (odds - 10000)) with (w - betAmount * 10000) by lia.
  set (q := Z.quot (w - betAmount * 10000) 1000). set (pay := Z.quot (w - q * 60) 10000).
  set (gross := Z.quot w 10000).
  assert (0 <= q /\ 1000 * q <= w - betAmount * 10000 < 1000 * q + 1000) as Hq
    by (unfold q; Z.to_euclidean_division_equations; lia).
  assert (0 <= pay /\ 10000 * pay <= w - q * 60 < 10000 * pay + 10000) as Hp
    by (unfold pay; Z.to_euclidean_division_equations; lia).
  assert (10000 * gross <= w < 10000 * gross + 10000) as Hg
    by (unfold gross; Z.to_euclidean_division_equations; lia).
  clearbody q pay gross. clear Hw. change (4 * 10 ^ 22) with 40000000000000000000000 in Hwb.
  exists pay, (gross - pay). rewrite (Z.abs_eq pay), (Z.abs_neq (pay - gross)) by lia.
  rewrite !(wrapU_small 64) by range. rewrite !(wrapS_small 64) by range.
  replace (- (pay - gross)) with (gross - pay) by lia.
  split_and!; [done| |lia|lia|lia]. Z.to_euclidean_division_equations; lia.
Qed.

(** ** The outcome of a leg *)

(** The largest odds whose half-stake product still fits 32 bits. *)
Definition asian_max : Z := 858993.

Definition event_odds_ok (e : CPeerlessBaseEventDB) : Prop :=
  odds_ok (be_nHomeOdds e) /\ odds_ok (be_nAwayOdds e) /\ odds_ok (be_nDrawOdds e) /\
  odds_ok (be_nSpreadHomeOdds e) /\ odds_ok (be_nSpreadAwayOdds e) /\
  odds_ok (be_nTotalOverOdds e) /\ odds_ok (be_nTotalUnderOdds e) /\
  be_nSpreadHomeOdds e <= asian_max /\ be_nSpreadAwayOdds e <= asian_max.

(** {on-chain, effective} odds within a bound. *)
Definition pair_ok (m : Z) (r : Z * Z) : Prop := 0 <= r.2 <= r.1 /\ r.1 <= Z.max BET_ODDSDIVISOR m.

Lemma win_odds_pair_ok odds : odds_ok odds -> pair_ok odds (win_odds odds).
Proof. intros H. pose proof (CalculateEffectiveOdds_bounds _ H). unfold pair_ok. simpl. lia. Qed.

Lemma refund_odds_pair_ok m : pair_ok m refund_odds.
Proof. unfold pair_ok, refund_odds, BET_ODDSDIVISOR. simpl. lia. Qed.

Lemma lose_odds_pair_ok m : pair_ok m lose_odds.
Proof. unfold pair_ok, lose_odds, BET_ODDSDIVISOR. simpl. lia. Qed.

Lemma asian_half_pair_ok sp d odds : odds_ok odds -> pair_ok odds (asian_half sp d odds).
Proof.
  intros H. unfold asian_half. repeat case_match;
    [apply refund_odds_pair_ok|by apply win_odds_pair_ok|apply lose_odds_pair_ok].
Qed.

(** Half a stake: the 32-bit product of the source is exact up to [asian_max]. *)
Lemma asian_half_stake x : 0 <= x <= asian_max ->
  u32 (Z.quot BET_ODDSDIVISOR 2 * x) `div` BET_ODDSDIVISOR = x `div` 2.
Proof.
  unfold asian_max, BET_ODDSDIVISOR. intros H. change (Z.quot 10000 2) with 5000.
  rewrite (wrapU_small 32) by range. Z.to_euclidean_division_equations; lia.
Qed.

(** The average of two bets of half a stake each. *)
Definition half_half (r1 r2 : Z * Z) : Z * Z :=
  (r1.1 `div` 2 + r2.1 `div` 2, r1.2 `div` 2 + r2.2 `div` 2).

Lemma half_half_pair_ok m r1 r2 : pair_ok m r1 -> pair_ok m r2 -> pair_ok m (half_half r1 r2).
Proof.
  unfold pair_ok, half_half, BET_ODDSDIVISOR. simpl. intros. Z.to_euclidean_division_equations; lia.
Qed.

(** The two handicaps of an Asian spread: the multiples of 50 around it,
    towards and away from zero, seen from the side of the bet. *)
Definition asian_sp (sp : Z) (away_from_zero home : bool) : Z :=
  let sign := if sp <? 0 then -1 else 1 in
  let s := i32 ((Z.abs (Z.quot sp 50) + if away_from_zero then 1 else 0) * 50 * sign) in
  if home then s else i32 (- s).

Lemma CalculateAsianSpreadOdds_halves e d (home : bool) :
  let odds := if home then be_nSpreadHomeOdds e else be_nSpreadAwayOdds e in
  odds_ok odds -> odds <= asian_max ->
  CalculateAsianSpreadOdds e d home =
    half_half (asian_half (asian_sp (be_nSpreadPoints e) false home) d odds)
              (asian_half (asian_sp (be_nSpreadPoints e) true home) d odds).
Proof.
  intros odds Hok Hmax. unfold CalculateAsianSpreadOdds. fold odds.
  pose proof (asian_half_pair_ok (asian_sp (be_nSpreadPoints e) false home) d odds Hok) as H1.
  pose proof (asian_half_pair_ok (asian_sp (be_nSpreadPoints e) true home) d odds Hok) as H2.
  unfold asian_sp in *. rewrite Z.add_0_r in *.
  destruct (asian_half _ d odds) as [o1 f1] eqn:E1. destruct (asian_half _ d odds) as [o2 f2] eqn:E2 in |- *.
  rewrite E2 in H2. unfold pair_ok, asian_max, BET_ODDSDIVISOR in H1, H2, Hmax. simpl in H1, H2.
  unfold half_half. simpl. rewrite !asian_half_stake by (unfold asian_max; lia).
  rewrite !(wrapU_small 32) by (unfold inU; pow2_lits; Z.to_euclidean_division_equations; lia).
  done.
Qed.

Lemma CalculateAsianSpreadOdds_pair_ok e d (home : bool) :
  let odds := if home then be_nSpreadHomeOdds e else be_nSpreadAwayOdds e in
  odds_ok odds -> odds <= asian_max -> pair_ok odds (CalculateAsianSpreadOdds e d home).
Proof.
  intros odds Hok Hmax. rewrite CalculateAsianSpreadOdds_halves by done.
  apply half_half_pair_ok; by apply asian_half_pair_ok.
Qed.

#[export] Hint Resolve win_odds_pair_ok refund_odds_pair_ok lose_odds_pair_ok : wagerr.

(** The odds of a settled leg.  Whatever the result, the effective odds
    lie between 0 and the on-chain odds, and the on-chain odds exceed neither
    the odds locked when the bet was placed nor, for refunds, even money. *)
Lemma GetBetOdds_pair_ok leg e r v3 :
  event_odds_ok e -> pair_ok (GetBetPotentialOdds leg e) (GetBetOdds leg e r v3).
Proof.
  intros (?&?&?&?&?&?&?&?&?). unfold GetBetOdds, GetBetPotentialOdds. cbv zeta.
  destruct (is_result r eventRefund); [auto with wagerr|].
  destruct (OutcomeType_of (leg_nOutcome leg)) as [[]|];
    repeat case_match; auto with wagerr;
    first [by apply (CalculateAsianSpreadOdds_pair_ok e _ true)
          |by apply (CalculateAsianSpreadOdds_pair_ok e _ false)].
Qed.

(** From v3 on, a bet of a known type on a market whose locked odds are
    zero is refunded, whatever the result. *)
Theorem GetBetOdds_closed_market leg e r :
  OutcomeType_of (leg_nOutcome leg) <> None -> GetBetPotentialOdds leg e = 0 ->
  GetBetOdds leg e r true = refund_odds.
Proof.
  intros Hty Hz. unfold GetBetOdds, GetBetPotentialOdds in *. cbv zeta.
  destruct (is_result r eventRefund); [done|].
  destruct (OutcomeType_of (leg_nOutcome leg)) as [[]|]; [..|done];
    rewrite Hz; by rewrite orb_true_r.
Qed.

(** The leg of a bet on an outcome, by the outcome's number. *)
Definition leg_on (e : CPeerlessBaseEventDB) (outcome : Z) : CPeerlessLegDB :=
  {| leg_nEventId := be_nEventId e; leg_nOutcome := outcome |}.

(** An open event with a standard result and scores within range. *)
Record open_and_settled (e : CPeerlessBaseEventDB) (r : CPeerlessResultDB) : Prop := {
  os_standard : rs_nResultType r = ResultType_value standardResult;
  os_home : 0 <= rs_nHomeScore r < 2 ^ 30;
  os_away : 0 <= rs_nAwayScore r < 2 ^ 30;
  os_spread : - 2 ^ 30 <= be_nSpreadPoints e <= 2 ^ 30;
  os_odds : be_nHomeOdds e <> 0 /\ be_nAwayOdds e <> 0 /\ be_nDrawOdds e <> 0 /\
    be_nSpreadHomeOdds e <> 0 /\ be_nSpreadAwayOdds e <> 0 /\
    be_nTotalOverOdds e <> 0 /\ be_nTotalUnderOdds e <> 0;
}.

Lemma open_and_settled_no_refund e r t :
  open_and_settled e r -> t <> standardResult -> is_result r t = false.
Proof.
  intros [Hs _ _ _ _] Ht. unfold is_result. rewrite Hs. by destruct t.
Qed.

Lemma nonzero_eqb x : x <> 0 -> (x =? 0) = false.
Proof. apply Z.eqb_neq. Qed.

Lemma i32_small x : - 2 ^ 31 <= x < 2 ^ 31 -> i32 x = x.
Proof. intros. apply wrapS_small; range. Qed.

Ltac settle H :=
  unfold GetBetOdds; cbv zeta; cbn [leg_on leg_nOutcome OutcomeType_of];
  rewrite !(open_and_settled_no_refund _ _ _ H) by done;
  destruct (os_odds _ _ H) as (?&?&?&?&?&?&?);
  rewrite nonzero_eqb by done; cbn [orb andb negb].

Lemma settle_moneyline e r : open_and_settled e r ->
  GetBetOdds (leg_on e 1) e r true =
    (if rs_nAwayScore r <? rs_nHomeScore r then win_odds (be_nHomeOdds e) else lose_odds) /\
  GetBetOdds (leg_on e 2) e r true =
    (if rs_nHomeScore r <? rs_nAwayScore r then win_odds (be_nAwayOdds e) else lose_odds) /\
  GetBetOdds (leg_on e 3) e r true =
    (if rs_nHomeScore r =? rs_nAwayScore r then win_odds (be_nDrawOdds e) else lose_odds).
Proof. intros H. split_and!; settle H; done. Qed.

Lemma settle_spread e r : open_and_settled e r -> Z.rem (be_nSpreadPoints e) 50 = 0 ->
  let margin := be_nSpreadPoints e + rs_nHomeScore r - rs_nAwayScore r in
  GetBetOdds (leg_on e 4) e r true =
    (if margin =? 0 then refund_odds else if 0 <? margin then win_odds (be_nSpreadHomeOdds e) else lose_odds) /\
  GetBetOdds (leg_on e 5) e r true =
    (if margin =? 0 then refund_odds else if margin <? 0 then win_odds (be_nSpreadAwayOdds e) else lose_odds).
Proof.
  intros H Hrem margin. pose proof (os_home _ _ H). pose proof (os_away _ _ H).
  pose proof (os_spread _ _ H). change (2 ^ 30) with 1073741824 in *.
  split; settle H; rewrite Hrem; change (0 =? 0) with true; cbv iota;
    rewrite !i32_small by (unfold margin; change (2 ^ 31) with 2147483648; rewrite ?i32_small; lia);
    unfold margin; repeat case_match; try done; lia.
Qed.

Lemma settle_totals e r : open_and_settled e r ->
  let total := rs_nHomeScore r + rs_nAwayScore r in
  GetBetOdds (leg_on e 6) e r true =
    (if total =? be_nTotalPoints e then refund_odds
     else if be_nTotalPoints e <? total then win_odds (be_nTotalOverOdds e) else lose_odds) /\
  GetBetOdds (leg_on e 7) e r true =
    (if total =? be_nTotalPoints e then refund_odds
     else if total <? be_nTotalPoints e then win_odds (be_nTotalUnderOdds e) else lose_odds).
Proof.
  intros H total. pose proof (os_home _ _ H). pose proof (os_away _ _ H).
  change (2 ^ 30) with 1073741824 in *.
  split; settle H; rewrite !(wrapU_small 32) by range; done.
Qed.

(** Markets are complementary.  For an open event with a standard result
    under v3: of the three money line bets exactly the one on the actual
    outcome wins; the two spread bets (at a handicap that is a multiple of
    50) are both refunded when the handicapped score is even, and otherwise
    one wins and the other loses; the same for over and under. *)
Theorem GetBetOdds_complementary e r :
  open_and_settled e r -> Z.rem (be_nSpreadPoints e) 50 = 0 ->
  let outcome o := GetBetOdds (leg_on e o) e r true in
  ((outcome 1, outcome 2, outcome 3) = (win_odds (be_nHomeOdds e), lose_odds, lose_odds) \/
   (outcome 1, outcome 2, outcome 3) = (lose_odds, win_odds (be_nAwayOdds e), lose_odds) \/
   (outcome 1, outcome 2, outcome 3) = (lose_odds, lose_odds, win_odds (be_nDrawOdds e))) /\
  ((outcome 4, outcome 5) = (refund_odds, refund_odds) \/
   (outcome 4, outcome 5) = (win_odds (be_nSpreadHomeOdds e), lose_odds) \/
   (outcome 4, outcome 5) = (lose_odds, win_odds (be_nSpreadAwayOdds e))) /\
  ((outcome 6, outcome 7) = (refund_odds, refund_odds) \/
   (outcome 6, outcome 7) = (win_odds (be_nTotalOverOdds e), lose_odds) \/
   (outcome 6, outcome 7) = (lose_odds, win_odds (be_nTotalUnderOdds e))).
Proof.
  intros H Hrem outcome. unfold outcome.
  destruct (settle_moneyline e r H) as (-> & -> & ->).
  destruct (settle_spread e r H Hrem) as (-> & ->).
  destruct (settle_totals e r H) as (-> & ->).
  split_and!; repeat case_match; auto; lia.
Qed.

(** ** Asian handicaps *)
Definition with_spread (e : CPeerlessBaseEventDB) (sp : Z) : CPeerlessBaseEventDB :=
  e <| be_nSpreadPoints := sp |>.

Definition toward_zero (sp : Z) : Z := Z.quot sp 50 * 50.
Definition from_zero (sp : Z) : Z := toward_zero sp + if sp <? 0 then -50 else 50.

Lemma asian_sp_small sp b home :
  - 2 ^ 30 <= sp <= 2 ^ 30 -> Z.rem sp 25 = 0 -> Z.rem sp 50 <> 0 ->
  let s := if b : bool then from_zero sp else toward_zero sp in
  asian_sp sp b home = (if home then s else - s) /\ - 2 ^ 30 <= s <= 2 ^ 30 /\ Z.rem s 50 = 0.
Proof.
  change (2 ^ 30) with 1073741824. intros Hsp H25 H50. cbv zeta.
  assert (forall s, s = (if b then from_zero sp else toward_zero sp) ->
    (Z.abs (Z.quot sp 50) + (if b then 1 else 0)) * 50 * (if sp <? 0 then -1 else 1) = s /\
    -1073741824 <= s <= 1073741824 /\ Z.rem s 50 = 0) as Hs.
  { intros s ->. unfold from_zero, toward_zero.
    destruct b; destruct (Z.ltb_spec sp 0); Z.to_euclidean_division_equations; lia. }
  destruct (Hs _ eq_refl) as (E & Hb & Hr). split; [|done]. unfold asian_sp. rewrite E.
  rewrite !i32_small by (rewrite ?i32_small; change (2 ^ 31) with 2147483648; lia). done.
Qed.

Lemma asian_half_margin s d odds : - 2 ^ 31 <= s + d < 2 ^ 31 ->
  asian_half s d odds =
    if s + d =? 0 then refund_odds else if 0 <? s + d then win_odds odds else lose_odds.
Proof. intros H. unfold asian_half. by rewrite i32_small. Qed.

Lemma open_and_settled_with_spread e r sp :
  open_and_settled e r -> - 2 ^ 30 <= sp <= 2 ^ 30 -> open_and_settled (with_spread e sp) r.
Proof. intros [] ?. by split. Qed.

(** Asian handicaps.  At a handicap of a quarter or three quarters
    (a multiple of 25 but not of 50) a spread bet is settled as two bets of
    half the stake at the neighbouring half-point handicaps, for both sides
    of the spread, on-chain and effective odds alike. *)
Theorem GetBetOdds_asian e r :
  open_and_settled e r -> event_odds_ok e ->
  Z.rem (be_nSpreadPoints e) 25 = 0 -> Z.rem (be_nSpreadPoints e) 50 <> 0 ->
  forall o, o = 4 \/ o = 5 ->
  GetBetOdds (leg_on e o) e r true =
    half_half (GetBetOdds (leg_on e o) (with_spread e (toward_zero (be_nSpreadPoints e))) r true)
              (GetBetOdds (leg_on e o) (with_spread e (from_zero (be_nSpreadPoints e))) r true).
Proof.
  intros H (_ & _ & _ & Hh & Ha & _ & _ & Hhm & Ham) H25 H50 o Ho.
  pose proof (asian_sp_small _ false true (os_spread _ _ H) H25 H50) as (Eh1 & Hb1 & Hr1).
  pose proof (asian_sp_small _ true true (os_spread _ _ H) H25 H50) as (Eh2 & Hb2 & Hr2).
  pose proof (asian_sp_small _ false false (os_spread _ _ H) H25 H50) as (Ea1 & _ & _).
  pose proof (asian_sp_small _ true false (os_spread _ _ H) H25 H50) as (Ea2 & _ & _).
  destruct (settle_spread _ r (open_and_settled_with_spread _ _ _ H Hb1) Hr1) as [S1h S1a].
  destruct (settle_spread _ r (open_and_settled_with_spread _ _ _ H Hb2) Hr2) as [S2h S2a].
  change (leg_on (with_spread e ?x) ?y) with (leg_on e y) in *. simpl be_nSpreadPoints in *.
  change (be_nSpreadHomeOdds (with_spread e ?x)) with (be_nSpreadHomeOdds e) in *.
  change (be_nSpreadAwayOdds (with_spread e ?x)) with (be_nSpreadAwayOdds e) in *.
  pose proof (os_home _ _ H). pose proof (os_away _ _ H).
  change (2 ^ 30) with 1073741824 in *.
  destruct Ho as [-> | ->].
  - rewrite S1h, S2h. settle H. rewrite H25, nonzero_eqb by done. change (0 =? 0) with true. cbv iota.
    rewrite (CalculateAsianSpreadOdds_halves e _ true Hh Hhm), Eh1, Eh2.
    rewrite i32_small by (change (2 ^ 31) with 2147483648; lia).
    rewrite !asian_half_margin by (change (2 ^ 31) with 2147483648; lia).
    by rewrite !Z.add_sub_assoc.
  - rewrite S1a, S2a. settle H. rewrite H25, nonzero_eqb by done. change (0 =? 0) with true. cbv iota.
    rewrite (CalculateAsianSpreadOdds_halves e _ false Ha Ham), Ea1, Ea2.
    rewrite i32_small by (change (2 ^ 31) with 2147483648; lia).
    rewrite !asian_half_margin by (change (2 ^ 31) with 2147483648; lia).
    f_equal; repeat case_match; try done; lia.
Qed.

(** The 32-bit product of the half stake.  For spread odds above
    858993, which the maximum odds of 990000 allow, a bet that wins both
    halves of an Asian handicap is settled below half of its odds. *)
Theorem CalculateAsianSpreadOdds_overflow e odds d :
  asian_max < odds <= BET_MAXODDS -> 0 <= be_nSpreadPoints e <= 2 ^ 30 -> 0 < d < 2 ^ 29 ->
  (CalculateAsianSpreadOdds (e <| be_nSpreadHomeOdds := odds |>) d true).1 < odds `div` 2.
Proof.
  unfold asian_max, BET_MAXODDS, BET_ODDSDIVISOR. intros Ho Hsp Hd.
  change (2 ^ 30) with 1073741824 in *. change (2 ^ 29) with 536870912 in *.
  unfold CalculateAsianSpreadOdds. cbn [set_field be_nSpreadPoints be_nSpreadHomeOdds]. cbv zeta.
  replace (be_nSpreadPoints e <? 0) with false by lia.
  assert (0 <= Z.quot (be_nSpreadPoints e) 50 <= 21474836) as Hq
    by (Z.to_euclidean_division_equations; lia).
  rewrite (Z.abs_eq (Z.quot _ _)) by lia.
  rewrite !(i32_small (_ * 50 * 1)) by (change (2 ^ 31) with 2147483648; lia).
  assert (forall s, 0 <= s <= 1073741850 -> asian_half s d odds = win_odds odds) as Hwin.
  { intros s Hs. rewrite asian_half_margin by (change (2 ^ 31) with 2147483648; lia).
    destruct (Z.eqb_spec (s + d) 0); [lia|]. by replace (0 <? s + d) with true by lia. }
  rewrite !Hwin by lia. unfold win_odds. cbn [fst].
  unfold BET_ODDSDIVISOR. change (Z.quot 10000 2) with 5000. unfold wrapU. pow2_lits.
  Z.to_euclidean_division_equations; lia.
Qed.

(** ** Field bets *)

(** Field markets are nested.  Unless the event is refunded, a winning
    outright bet on a contender implies that the place bet wins, and a
    winning place bet that the show bet wins; each pays the odds of its own
    market locked for that contender, and a contender without a result has
    lost. *)
Theorem GetBetOdds_field_nested leg e r :
  frs_nResultType r <> ResultType_value eventRefund ->
  let c := contender (fev_contenders e) (fleg_nContenderId leg) in
  let bet o := GetBetOdds_field {| fleg_nEventId := fleg_nEventId leg; fleg_nOutcome := o;
                                   fleg_nContenderId := fleg_nContenderId leg |} e r in
  (bet 1, bet 2, bet 3) ∈
    [(lose_odds, lose_odds, lose_odds);
     (lose_odds, lose_odds, win_odds (ci_nShowOdds c));
     (lose_odds, win_odds (ci_nPlaceOdds c), win_odds (ci_nShowOdds c));
     (win_odds (ci_nOutrightOdds c), win_odds (ci_nPlaceOdds c), win_odds (ci_nShowOdds c))] /\
  (frs_contendersResults r !! fleg_nContenderId leg = None ->
   (bet 1, bet 2, bet 3) = (lose_odds, lose_odds, lose_odds)).
Proof.
  intros Hr c bet. unfold bet, GetBetOdds_field. rewrite (proj2 (Z.eqb_neq _ _) Hr). cbv zeta.
  cbn [fleg_nOutcome fleg_nContenderId FieldBetOutcomeType_of]. fold c. split.
  - destruct (default _ _ =? _) eqn:E1; [apply list_elem_of_In; simpl; auto 10|].
    destruct (default _ _ =? ContenderResult_value place2) eqn:E2;
      [apply list_elem_of_In; simpl; auto 10|].
    destruct (default _ _ =? ContenderResult_value place3) eqn:E3;
      apply list_elem_of_In; simpl; auto 10.
  - intros ->. done.
Qed.
