(* ===== verification/CheckTx.v ===== *)
(** * Validation of betting transactions
    (CheckBettingTx, src/src/betting/bet.cpp 143-741)

    One definition per transaction type; [CheckBettingTx] is the overload on a
    parsed transaction and dispatches to them, [CheckBettingTx_tx] the one on
    a whole transaction, with the oracle check of its first input.  Errors are
    logged and turned into [false]. *)

From S2P Require Import Prelude Params BetTx BetDB BetKeys Flushable BetView BetCommon.

Section Check.
Context (env : ChainEnv) (v : CBettingsView).

Definition v4_active : bool := V4 env <=? ChainActiveHeight env.

(** Between the minimum and the maximum of the payout range, in coins. *)
Definition amount_in_range (betAmount maxRange : Z) : bool :=
  negb ((betAmount <? MinBetPayoutRange (Params env) * COIN) || (maxRange * COIN <? betAmount)).

(** ** Bets *)
Definition CheckPeerlessBet (t : CPeerlessBetTx) (betAmount : Z) : bool :=
  let plBet := {| leg_nEventId := pb_nEventId t; leg_nOutcome := pb_nOutcome t |} in
  amount_in_range betAmount (MaxBetPayoutRange (Params env)) &&
  match dbRead (events v) (leg_nEventId plBet) with
  | Some plEvent =>
      negb (dbExists (results v) (leg_nEventId plBet)) &&
      negb (v4_active && (GetBetPotentialOdds plBet (ee_base plEvent) =? 0))
  | None => false
  end.

(** No identifier occurs twice: the std::set loop. *)
Fixpoint distinct_ids (ids : gset Z) (l : list Z) : bool :=
  match l with
  | [] => true
  | id :: l => if bool_decide (id ∈ ids) then false else distinct_ids ({[id]} ∪ ids) l
  end.

Definition CheckParlayLeg (leg : CPeerlessBetTx) : bool :=
  match dbRead (events v) (pb_nEventId leg) with
  | Some plEvent =>
      negb (dbExists (results v) (pb_nEventId leg)) &&
      (negb v4_active ||
       (negb (GetBetPotentialOdds {| leg_nEventId := pb_nEventId leg; leg_nOutcome := pb_nOutcome leg |}
                (ee_base plEvent) =? 0) &&
        negb (negb (be_nStage plEvent =? 0))))
  | None => false
  end.

Definition CheckPeerlessParlayBet (t : CPeerlessParlayBetTx) (betAmount : Z) : bool :=
  let legs := ppb_legs t in
  negb (MaxParlayLegs (Params env) <? Z.of_nat (length legs)) &&
  amount_in_range betAmount (MaxParlayBetPayoutRange (Params env)) &&
  distinct_ids ∅ (pb_nEventId <$> legs) &&
  forallb CheckParlayLeg legs.

(** The checks of a field bet on its event. *)
Definition CheckFieldLeg (t : CFieldBetTx) : bool :=
  match dbRead (fieldEvents v) (fb_nEventId t) with
  | None => false
  | Some fEvent =>
      negb (dbExists (fieldResults v) (fb_nEventId t)) &&
      IsMarketOpen fEvent (fb_nOutcome t) &&
      bool_decide (is_Some (fev_contenders fEvent !! fb_nContenderId t)) &&
      negb (GetBetPotentialOdds_field
              {| fleg_nEventId := fb_nEventId t; fleg_nOutcome := fb_nOutcome t;
                 fleg_nContenderId := fb_nContenderId t |} fEvent =? 0)
  end.

Definition CheckFieldBet (t : CFieldBetTx) (betAmount : Z) : bool :=
  v4_active &&
  amount_in_range betAmount (MaxBetPayoutRange (Params env)) &&
  CheckFieldLeg t.

Definition CheckFieldParlayLeg (leg : CFieldBetTx) : bool :=
  CheckFieldLeg leg &&
  match dbRead (fieldEvents v) (fb_nEventId leg) with
  | None => false
  | Some fEvent => negb (negb (fev_nStage fEvent =? 0))
  end.

Definition CheckFieldParlayBet (t : CFieldParlayBetTx) (betAmount : Z) : bool :=
  v4_active &&
  amount_in_range betAmount (MaxBetPayoutRange (Params env)) &&
  let legs := fpb_legs t in
  negb (MaxParlayLegs (Params env) <? Z.of_nat (length legs)) &&
  distinct_ids ∅ (fb_nEventId <$> legs) &&
  forallb CheckFieldParlayLeg legs.

Definition CheckChainGamesBet (t : CChainGamesBetTx) (betAmount height : Z) : bool :=
  if QuickGamesEndHeight (Params env) <=? height then false
  else
    match dbRead (chainGamesLottoEvents v) (cgb_nEventId t) with
    | None => false
    | Some cgEvent =>
        negb (dbExists (chainGamesLottoResults v) (cgb_nEventId t)) &&
        (betAmount =? cgev_nEntryFee cgEvent * COIN)
    end.

Definition qgDice : Z := 0x00.

Definition CheckQuickGamesBet (t : CQuickGamesBetTx) (betAmount height : Z) : bool :=
  if QuickGamesEndHeight (Params env) <=? height then false
  else (qg_gameType t =? qgDice) && amount_in_range betAmount (MaxBetPayoutRange (Params env)).

(** ** Oracle transactions *)
Definition has_mapping (type : MappingType) (id : Z) : bool :=
  dbExists (mappings v) {| mk_nMType := MappingType_value type; mk_nId := id |}.

Definition v4_mapping (nMType : Z) : bool :=
  (nMType =? MappingType_value individualSportMapping) || (nMType =? MappingType_value contenderMapping).

Definition CheckMapping (t : CMappingTx) (validOracleTx : bool) : bool :=
  validOracleTx &&
  negb (negb v4_active && v4_mapping (map_nMType t)) &&
  negb (dbExists (mappings v) {| mk_nMType := map_nMType t; mk_nId := map_nId t |}).

Definition CheckPeerlessEvent (t : CPeerlessEventTx) (validOracleTx : bool) : bool :=
  validOracleTx &&
  negb (dbExists (events v) (pe_nEventId t)) &&
  has_mapping sportMapping (pe_nSport t) &&
  has_mapping tournamentMapping (pe_nTournament t) &&
  has_mapping roundMapping (pe_nStage t) &&
  has_mapping teamMapping (pe_nHomeTeam t) &&
  has_mapping teamMapping (pe_nAwayTeam t).

Definition known_contenders {A} (m : gmap Z A) : bool :=
  forallb (fun c => has_mapping contenderMapping c.1) (sorted_entries m).

Definition CheckFieldEvent (t : CFieldEventTx) (validOracleTx : bool) : bool :=
  v4_active && validOracleTx &&
  negb (dbExists (fieldEvents v) (fe_nEventId t)) &&
  negb ((fe_nGroupType t <? FieldEventGroupType_value other) ||
        (FieldEventGroupType_value animalRacing <? fe_nGroupType t)) &&
  negb ((fe_nMarketType t <? FieldEventMarketType_value all_markets) ||
        (FieldEventMarketType_value outrightOnly <? fe_nMarketType t)) &&
  has_mapping individualSportMapping (fe_nSport t) &&
  has_mapping tournamentMapping (fe_nTournament t) &&
  has_mapping roundMapping (fe_nStage t) &&
  known_contenders (fe_mContendersInputOdds t).

Definition CheckFieldUpdateOdds (t : CFieldUpdateOddsTx) (validOracleTx : bool) : bool :=
  v4_active && validOracleTx && dbExists (fieldEvents v) (fuo_nEventId t) &&
  known_contenders (fuo_mContendersInputOdds t).

Definition CheckFieldUpdateModifiers (t : CFieldUpdateModifiersTx) (validOracleTx : bool) : bool :=
  v4_active && validOracleTx && dbExists (fieldEvents v) (fum_nEventId t) &&
  known_contenders (fum_mContendersModifires t).

Definition CheckFieldUpdateMargin (t : CFieldUpdateMarginTx) (validOracleTx : bool) : bool :=
  v4_active && validOracleTx && dbExists (fieldEvents v) (fumg_nEventId t).

Definition CheckFieldZeroingOdds (t : CFieldZeroingOddsTx) (validOracleTx : bool) : bool :=
  v4_active && validOracleTx && dbExists (fieldEvents v) (fz_nEventId t).

Definition field_result_type_ok (nResultType : Z) : bool :=
  (nResultType =? ResultType_value standardResult) ||
  (nResultType =? ResultType_value eventRefund) ||
  (nResultType =? ResultType_value eventClosed).

Definition contender_result_ok (r : Z) : bool :=
  (r =? ContenderResult_value place1) || (r =? ContenderResult_value place2) ||
  (r =? ContenderResult_value place3) || (r =? ContenderResult_value DNF) ||
  (r =? ContenderResult_value DNR).

Definition CheckFieldResult (t : CFieldResultTx) (validOracleTx : bool) : bool :=
  v4_active && validOracleTx &&
  field_result_type_ok (fr_nResultType t) &&
  dbExists (fieldEvents v) (fr_nEventId t) &&
  negb (dbExists (fieldResults v) (fr_nEventId t)) &&
  match dbRead (fieldEvents v) (fr_nEventId t) with
  | None => false
  | Some fEvent =>
      forallb (fun result =>
        has_mapping contenderMapping result.1 &&
        bool_decide (is_Some (fev_contenders fEvent !! result.1)) &&
        contender_result_ok result.2) (sorted_entries (fr_contendersResults t))
  end.

Definition CheckPeerlessResult (t : CPeerlessResultTx) (validOracleTx : bool) : bool :=
  validOracleTx && dbExists (events v) (pr_nEventId t) &&
  negb (dbExists (results v) (pr_nEventId t)).

Definition CheckChainGamesEvent (t : CChainGamesEventTx) (validOracleTx : bool) (height : Z) : bool :=
  if QuickGamesEndHeight (Params env) <=? height then false
  else validOracleTx && negb (dbExists (chainGamesLottoEvents v) (cge_nEventId t)).

Definition CheckChainGamesResult (t : CChainGamesResultTx) (validOracleTx : bool) (height : Z) : bool :=
  if QuickGamesEndHeight (Params env) <=? height then false
  else validOracleTx && dbExists (chainGamesLottoEvents v) (cgr_nEventId t) &&
       negb (dbExists (chainGamesLottoResults v) (cgr_nEventId t)).

(** Update odds, spreads, totals and patch: the event exists. *)
Definition CheckEventUpdate (nEventId : Z) (validOracleTx : bool) : bool :=
  validOracleTx && dbExists (events v) nEventId.

Definition CheckEventZeroingOdds (t : CPeerlessEventZeroingOddsTx) (validOracleTx : bool) : bool :=
  v4_active && validOracleTx &&
  forallb (fun eventId => dbExists (events v) eventId) (pez_vEventIds t).

(** ** The switch *)
Definition CheckBettingTx (bettingTx : option CBettingTx) (betAmount : Z) (validOracleTx : bool)
    (height : Z) : bool :=
  if height <? V3 env then true
  else
    match bettingTx with
    | None => false
    | Some bettingTx =>
        if Spork20 env <=? height then false
        else
          match bettingTx with
          | PeerlessBetTx t => CheckPeerlessBet t betAmount
          | PeerlessParlayBetTx t => CheckPeerlessParlayBet t betAmount
          | FieldBetTx t => CheckFieldBet t betAmount
          | FieldParlayBetTx t => CheckFieldParlayBet t betAmount
          | ChainGamesBetTx t => CheckChainGamesBet t betAmount height
          | QuickGamesBetTx t => CheckQuickGamesBet t betAmount height
          | MappingTx t => CheckMapping t validOracleTx
          | PeerlessEventTx t => CheckPeerlessEvent t validOracleTx
          | FieldEventTx t => CheckFieldEvent t validOracleTx
          | FieldUpdateOddsTx t => CheckFieldUpdateOdds t validOracleTx
          | FieldUpdateModifiersTx t => CheckFieldUpdateModifiers t validOracleTx
          | FieldUpdateMarginTx t => CheckFieldUpdateMargin t validOracleTx
          | FieldZeroingOddsTx t => CheckFieldZeroingOdds t validOracleTx
          | FieldResultTx t => CheckFieldResult t validOracleTx
          | PeerlessResultTx t => CheckPeerlessResult t validOracleTx
          | PeerlessUpdateOddsTx t => CheckEventUpdate (puo_nEventId t) validOracleTx
          | ChainGamesEventTx t => CheckChainGamesEvent t validOracleTx height
          | ChainGamesResultTx t => CheckChainGamesResult t validOracleTx height
          | PeerlessSpreadsEventTx t => CheckEventUpdate (pse_nEventId t) validOracleTx
          | PeerlessTotalsEventTx t => CheckEventUpdate (pte_nEventId t) validOracleTx
          | PeerlessEventPatchTx t => CheckEventUpdate (pep_nEventId t) validOracleTx
          | PeerlessEventZeroingOddsTx t => CheckEventZeroingOdds t validOracleTx
          end
    end.

(** The transaction types an oracle sends. *)
Definition is_oracle_tx (t : BetTxTypes) : bool :=
  match t with
  | plBetTxType | plParlayBetTxType | fBetTxType | fParlayBetTxType | cgBetTxType | qgBetTxType => false
  | _ => true
  end.

(** The oracle check of the first input.  Outer [None]: an access past the
    end of vin or vout; inner [None]: the address cannot be extracted. *)
Definition first_input_oracle (tx : CTransaction) (height : Z) : option (option bool) :=
  txin ← head (tx_vin tx);
  match GetTransaction env (op_hash txin) with
  | Some txPrev =>
      out ← prevout_of txPrev txin;
      match ExtractDestination env (scriptPubKey out) with
      | None => Some None
      | Some _ => Some (Some (IsValidOraclePrevTxOut env out height))
      end
  | None => Some (Some (IsValidOraclePrevTxOut env (AccessCoin env txin) height))
  end.

Fixpoint check_vouts (tx : CTransaction) (height : Z) (vout : list CTxOut) : option bool :=
  match vout with
  | [] => Some true
  | txOut :: vout =>
      match ParseBettingTx (scriptPubKey txOut) with
      | None => check_vouts tx height vout
      | Some bettingTx =>
          if is_oracle_tx (GetTxType bettingTx) then
            r ← first_input_oracle tx height;
            match r with
            | None => Some false
            | Some fValidOracle => Some (CheckBettingTx (Some bettingTx) (nValue txOut) fValidOracle height)
            end
          else Some (CheckBettingTx (Some bettingTx) (nValue txOut) false height)
      end
  end.

Definition CheckBettingTx_tx (tx : CTransaction) (height : Z) : option bool :=
  if height <? V3 env then Some true
  else if negb (HasOpReturnOutput (scriptPubKey <$> tx_vout tx)) then Some true
  else check_vouts tx height (tx_vout tx).
End Check.

(** ** Lemmas *)
Lemma amount_in_range_spec env amount maxRange :
  amount_in_range env amount maxRange = true <->
  MinBetPayoutRange (Params env) * COIN <= amount <= maxRange * COIN.
Proof. unfold amount_in_range. rewrite negb_true_iff, orb_false_iff, !Z.ltb_ge. lia. Qed.

Lemma distinct_ids_spec ids l :
  distinct_ids ids l = true <-> NoDup l /\ forall x, x ∈ l -> x ∉ ids.
Proof.
  revert ids. induction l as [|x l IH]; intros ids; simpl.
  - split; [|done]. split; [constructor|]. intros x Hx. by apply not_elem_of_nil in Hx.
  - case_bool_decide as Hx.
    + split; [done|]. intros [_ H]. destruct (H x); [apply list_elem_of_here|done].
    + rewrite IH, NoDup_cons. split.
      * intros [Hnd H]. split_and!; [|done|].
        { intros Hin. apply (H x Hin). set_solver. }
        { intros y Hy. apply elem_of_cons in Hy as [->|Hy]; [done|]. specialize (H y Hy). set_solver. }
      * intros [[Hx' Hnd] H]. split; [done|]. intros y Hy.
        assert (y <> x) by (by intros ->).
        assert (y ∉ ids) by (apply H; by apply elem_of_cons; right). set_solver.
Qed.

Lemma distinct_ids_empty l : distinct_ids ∅ l = true <-> NoDup l.
Proof. rewrite distinct_ids_spec. split; [by intros []|]. intros H. split; [done|set_solver]. Qed.

Lemma dbRead_Some `{Countable K, !KeySeq K} {V} (m : gmap K V) k v : dbRead m k = Some v <-> m !! k = Some v.
Proof. done. Qed.

(** Boolean tests of the checks as propositions. *)
Lemma negb_exists `{Countable K, !KeySeq K} {V} (m : gmap K V) k :
  negb (dbExists (V := V) m k) = true <-> m !! k = None.
Proof. rewrite negb_true_iff. apply dbExists_false. Qed.

Lemma v4_odds_test env x y :
  negb (v4_active env && (x =? y)) = true <-> (v4_active env = true -> x <> y).
Proof.
  destruct (v4_active env); simpl; [|naive_solver].
  rewrite negb_true_iff, Z.eqb_neq. naive_solver.
Qed.

(** A transaction is looked at from v3 on, outside of the maintenance mode. *)
Lemma CheckBettingTx_active env v tx amount oracle h :
  V3 env <= h -> CheckBettingTx env v (Some tx) amount oracle h = true -> h < Spork20 env.
Proof.
  intros Hv3. unfold CheckBettingTx. replace (h <? V3 env) with false by lia.
  destruct (Z.leb_spec (Spork20 env) h); [done|lia].
Qed.

(** What a leg of a peerless bet has to satisfy. *)
Definition leg_open env v (t : CPeerlessBetTx) (parlay : bool) : Prop :=
  exists e, events v !! pb_nEventId t = Some e /\ results v !! pb_nEventId t = None /\
    (v4_active env = true ->
     GetBetPotentialOdds {| leg_nEventId := pb_nEventId t; leg_nOutcome := pb_nOutcome t |} (ee_base e) <> 0 /\
     (parlay = true -> be_nStage e = 0)).

Lemma CheckPeerlessBet_spec env v t amount :
  CheckPeerlessBet env v t amount = true <->
  MinBetPayoutRange (Params env) * COIN <= amount <= MaxBetPayoutRange (Params env) * COIN /\
  leg_open env v t false.
Proof.
  unfold CheckPeerlessBet, leg_open. cbv zeta. cbn [leg_nEventId].
  rewrite andb_true_iff, amount_in_range_spec. change (dbRead (events v) ?k) with (events v !! k).
  destruct (events v !! pb_nEventId t) as [e|] eqn:E.
  - rewrite andb_true_iff, negb_exists, v4_odds_test. naive_solver.
  - naive_solver.
Qed.

Lemma CheckParlayLeg_spec env v t : CheckParlayLeg env v t = true <-> leg_open env v t true.
Proof.
  unfold CheckParlayLeg, leg_open. change (dbRead (events v) ?k) with (events v !! k).
  destruct (events v !! pb_nEventId t) as [e|] eqn:E; [|naive_solver].
  rewrite andb_true_iff, negb_exists, negb_involutive. destruct (v4_active env); simpl.
  - rewrite andb_true_iff, negb_true_iff, Z.eqb_neq, Z.eqb_eq. naive_solver.
  - naive_solver.
Qed.

(** Which single bets are accepted.  From v3 on a peerless bet passes
    exactly when betting is not in maintenance, the amount is within the
    range, the event exists and has no result, and, from v4 on, the odds of
    the chosen outcome are not zero. *)
Theorem CheckBettingTx_bet env v t amount oracle h :
  V3 env <= h ->
  CheckBettingTx env v (Some (PeerlessBetTx t)) amount oracle h = true <->
  h < Spork20 env /\
  MinBetPayoutRange (Params env) * COIN <= amount <= MaxBetPayoutRange (Params env) * COIN /\
  leg_open env v t false.
Proof.
  intros Hh. unfold CheckBettingTx. replace (h <? V3 env) with false by lia.
  destruct (Z.leb_spec (Spork20 env) h); [naive_solver lia|].
  rewrite CheckPeerlessBet_spec. naive_solver lia.
Qed.

(** Which parlay bets are accepted: at most the maximum number of legs,
    all on different events, each open (and, from v4 on, on an event of stage
    0).  The upper limit of the amount is the one of single bets, whatever
    the limit configured for parlays. *)
Theorem CheckBettingTx_parlay env v t amount oracle h :
  V3 env <= h ->
  CheckBettingTx env v (Some (PeerlessParlayBetTx t)) amount oracle h = true <->
  h < Spork20 env /\
  Z.of_nat (length (ppb_legs t)) <= MaxParlayLegs (Params env) /\
  MinBetPayoutRange (Params env) * COIN <= amount <= nMaxBetPayoutRange (Params env) * COIN /\
  NoDup (pb_nEventId <$> ppb_legs t) /\
  Forall (fun leg => leg_open env v leg true) (ppb_legs t).
Proof.
  intros Hh. unfold CheckBettingTx. replace (h <? V3 env) with false by lia.
  destruct (Z.leb_spec (Spork20 env) h); [naive_solver lia|].
  unfold CheckPeerlessParlayBet. cbv zeta.
  rewrite !andb_true_iff, negb_true_iff, Z.ltb_ge, amount_in_range_spec, distinct_ids_empty.
  rewrite (forallb_Forall _ _ _ (CheckParlayLeg_spec env v)).
  unfold MaxParlayBetPayoutRange. naive_solver lia.
Qed.

(** What a leg of a field bet has to satisfy. *)
Definition field_leg_open v (t : CFieldBetTx) (parlay : bool) : Prop :=
  exists e c, fieldEvents v !! fb_nEventId t = Some e /\ fieldResults v !! fb_nEventId t = None /\
    IsMarketOpen e (fb_nOutcome t) = true /\
    fev_contenders e !! fb_nContenderId t = Some c /\
    GetBetPotentialOdds_field {| fleg_nEventId := fb_nEventId t; fleg_nOutcome := fb_nOutcome t;
                                 fleg_nContenderId := fb_nContenderId t |} e <> 0 /\
    (parlay = true -> fev_nStage e = 0).

Lemma CheckFieldLeg_spec v t : CheckFieldLeg v t = true <-> field_leg_open v t false.
Proof.
  unfold CheckFieldLeg, field_leg_open. change (dbRead (fieldEvents v) ?k) with (fieldEvents v !! k).
  destruct (fieldEvents v !! fb_nEventId t) as [e|] eqn:E; [|naive_solver].
  rewrite !andb_true_iff, negb_exists, bool_decide_eq_true, negb_true_iff, Z.eqb_neq.
  split; [intros (((?&?)&[c ?])&?); exists e, c; naive_solver|].
  intros (e' & c & [= <-] & ? & ? & ? & ? & _). split_and!; eauto.
Qed.

Lemma CheckFieldParlayLeg_spec v t : CheckFieldParlayLeg v t = true <-> field_leg_open v t true.
Proof.
  unfold CheckFieldParlayLeg. rewrite andb_true_iff, CheckFieldLeg_spec. unfold field_leg_open.
  change (dbRead (fieldEvents v) ?k) with (fieldEvents v !! k).
  destruct (fieldEvents v !! fb_nEventId t) as [e|] eqn:E; [|naive_solver].
  rewrite negb_involutive, Z.eqb_eq. naive_solver.
Qed.

(** Which field bets are accepted.  Only from v4 on; the amount is in
    the range of single bets (parlays too), parlays have at most the maximum
    number of legs on different events, and every leg is on an event without
    a result, in a market that is open, on a contender of the event whose
    odds in that market are not zero (parlays: of stage 0). *)
Theorem CheckBettingTx_field env v t ts amount oracle h :
  V3 env <= h ->
  (CheckBettingTx env v (Some (FieldBetTx t)) amount oracle h = true <->
   h < Spork20 env /\ v4_active env = true /\
   MinBetPayoutRange (Params env) * COIN <= amount <= MaxBetPayoutRange (Params env) * COIN /\
   field_leg_open v t false) /\
  (CheckBettingTx env v (Some (FieldParlayBetTx ts)) amount oracle h = true <->
   h < Spork20 env /\ v4_active env = true /\
   MinBetPayoutRange (Params env) * COIN <= amount <= MaxBetPayoutRange (Params env) * COIN /\
   Z.of_nat (length (fpb_legs ts)) <= MaxParlayLegs (Params env) /\
   NoDup (fb_nEventId <$> fpb_legs ts) /\
   Forall (fun leg => field_leg_open v leg true) (fpb_legs ts)).
Proof.
  intros Hh. unfold CheckBettingTx. replace (h <? V3 env) with false by lia.
  destruct (Z.leb_spec (Spork20 env) h); [split; naive_solver lia|].
  split.
  - unfold CheckFieldBet. rewrite !andb_true_iff, amount_in_range_spec, CheckFieldLeg_spec.
    naive_solver lia.
  - unfold CheckFieldParlayBet. cbv zeta.
    rewrite !andb_true_iff, amount_in_range_spec, negb_true_iff, Z.ltb_ge, distinct_ids_empty.
    rewrite (forallb_Forall _ _ _ (CheckFieldParlayLeg_spec v)).
    naive_solver lia.
Qed.

Lemma CheckBettingTx_not_oracle env v tx amount h :
  V3 env <= h -> is_oracle_tx (GetTxType tx) = true ->
  CheckBettingTx env v (Some tx) amount false h = false.
Proof.
  intros Hh Ht. unfold CheckBettingTx. replace (h <? V3 env) with false by lia.
  case_match; [done|]. destruct tx; try done; cbn;
    unfold CheckFieldEvent, CheckFieldUpdateOdds, CheckFieldUpdateModifiers, CheckFieldUpdateMargin,
      CheckFieldZeroingOdds, CheckFieldResult, CheckEventZeroingOdds, CheckChainGamesEvent,
      CheckChainGamesResult;
    rewrite ?andb_false_r; by repeat case_match.
Qed.

Lemma CheckBettingTx_needs_oracle env v tx amount valid h :
  V3 env <= h -> CheckBettingTx env v (Some tx) amount valid h = true ->
  is_oracle_tx (GetTxType tx) = true -> valid = true.
Proof. intros Hh Hc Ht. destruct valid; [done|]. by rewrite CheckBettingTx_not_oracle in Hc. Qed.

(** Oracle transactions need an oracle.  From v3 on, every transaction
    that is not a bet is rejected when its first input is not an oracle's. *)
Theorem CheckBettingTx_oracle_only env v tx amount h :
  V3 env <= h -> is_oracle_tx (GetTxType tx) = true ->
  CheckBettingTx env v (Some tx) amount false h = false.
Proof. apply CheckBettingTx_not_oracle. Qed.

(** Accepted oracle transactions create only new entries.  An accepted
    mapping, event, field event, result, field result, chain game event or
    chain game result has no entry under its key yet, and a result is for an
    existing event. *)
Theorem CheckBettingTx_creates env v tx amount oracle h :
  V3 env <= h -> CheckBettingTx env v (Some tx) amount oracle h = true ->
  match tx with
  | MappingTx t => mappings v !! {| mk_nMType := map_nMType t; mk_nId := map_nId t |} = None
  | PeerlessEventTx t => events v !! pe_nEventId t = None
  | FieldEventTx t => fieldEvents v !! fe_nEventId t = None
  | PeerlessResultTx t => is_Some (events v !! pr_nEventId t) /\ results v !! pr_nEventId t = None
  | FieldResultTx t => is_Some (fieldEvents v !! fr_nEventId t) /\ fieldResults v !! fr_nEventId t = None
  | ChainGamesEventTx t => chainGamesLottoEvents v !! cge_nEventId t = None
  | ChainGamesResultTx t => is_Some (chainGamesLottoEvents v !! cgr_nEventId t) /\
      chainGamesLottoResults v !! cgr_nEventId t = None
  | _ => True
  end.
Proof.
  intros Hh. unfold CheckBettingTx. replace (h <? V3 env) with false by lia.
  destruct (Spork20 env <=? h); [done|].
  destruct tx; try done; cbn;
    unfold CheckMapping, CheckPeerlessEvent, CheckFieldEvent, CheckPeerlessResult, CheckFieldResult,
      CheckChainGamesEvent, CheckChainGamesResult;
    try (case_match; [done|]);
    rewrite !andb_true_iff, ?negb_exists, ?dbExists_true; naive_solver.
Qed.

(** ** Whole transactions *)
Lemma check_vouts_first env v tx h pre out post :
  Forall (fun o => ParseBettingTx (scriptPubKey o) = None) pre ->
  is_Some (ParseBettingTx (scriptPubKey out)) ->
  check_vouts env v tx h (pre ++ out :: post) = check_vouts env v tx h [out].
Proof.
  intros Hpre [b Hout]. induction Hpre as [|o pre Ho Hpre IH]; simpl.
  - by rewrite Hout.
  - by rewrite Ho, IH.
Qed.

Lemma first_input_oracle_vin env tx tx' h :
  tx_vin tx = tx_vin tx' -> first_input_oracle env tx h = first_input_oracle env tx' h.
Proof. unfold first_input_oracle. by intros ->. Qed.

(** Only the first betting output is validated.  Two transactions with
    the same inputs and the same outputs up to and including the first one
    that parses get the same verdict, whatever betting data the later outputs
    carry (ProcessBettingTx applies every one of them). *)
Theorem CheckBettingTx_first_output env v tx1 tx2 h pre out post1 post2 :
  tx_vin tx1 = tx_vin tx2 ->
  tx_vout tx1 = pre ++ out :: post1 -> tx_vout tx2 = pre ++ out :: post2 ->
  HasOpReturnOutput (scriptPubKey <$> pre ++ [out]) = true ->
  Forall (fun o => ParseBettingTx (scriptPubKey o) = None) pre ->
  is_Some (ParseBettingTx (scriptPubKey out)) ->
  CheckBettingTx_tx env v tx1 h = CheckBettingTx_tx env v tx2 h.
Proof.
  intros Hin E1 E2 Hop Hpre Hout. unfold CheckBettingTx_tx.
  assert (forall post, HasOpReturnOutput (scriptPubKey <$> pre ++ out :: post) = true) as Hop'.
  { intros post. unfold HasOpReturnOutput in *. rewrite fmap_app, existsb_app in *. csimpl in *.
    rewrite orb_assoc. rewrite orb_false_r in Hop. by rewrite Hop. }
  rewrite E1, E2, !Hop', !check_vouts_first by done. case_match; [done|]. simpl.
  case_match; [|done]. by rewrite (first_input_oracle_vin env tx1 tx2).
Qed.
