(* ===== verification/ProcessTx.v ===== *)
(** * Applying betting transactions
    (ProcessBettingTx, src/src/betting/bet.cpp 743-1656)

    One definition per transaction type, on the cache level [v] with the
    level below it as [bettingsView] (the global view, from which the odds a
    bet locks are read).  [None] stands for an abort: a failed assertion of
    SaveBettingUndo or SaveFailedTx, a null pointer or an access past the end
    of a vector.  [TxCtx] holds what the loop over the outputs computes before
    the switch. *)

From S2P Require Import Prelude Params BetTx BetDB BetKeys Flushable BetView BetCommon CheckTx.

Record TxCtx := {
  cx_height : Z;
  cx_blockTime : Z;
  cx_outPoint : COutPoint;
  cx_bettingTxId : uint256;
  cx_betAmount : Z;
  cx_address : CTxDestination;
  cx_v3 : bool;
}.

Section Process.
Context (env : ChainEnv) (bettingsView : CBettingsView).

Definition bet_key (cx : TxCtx) : PeerlessBetKey :=
  {| bk_blockHeight := u32 (cx_height cx); bk_outPoint := cx_outPoint cx |}.

Definition undo_of (cx : TxCtx) (u : BettingUndoVariant) : CBettingUndoDB :=
  {| undo_variant := u; undo_height := u32 (cx_height cx) |}.

(** x += y on a uint32_t field. *)
Definition add32 (y x : Z) : Z := u32 (x + y).

(** ** Peerless bets *)

(** payout / COIN for a bet at the given odds. *)
Definition liability (betAmount odds : Z) : Z :=
  let '(_, payout, _) := CalculatePayoutBurnAmounts betAmount odds in Z.quot payout COIN.

Definition accumulate_bet (plEvent plCachedEvent : CPeerlessExtendedEventDB) (nOutcome betAmount : Z) :
    CPeerlessExtendedEventDB :=
  let push := Z.quot betAmount COIN in
  match OutcomeType_of nOutcome with
  | Some moneyLineHomeWin =>
      plEvent <| ee_nMoneyLineHomePotentialLiability ::= add32 (liability betAmount (be_nHomeOdds plCachedEvent)) |>
              <| ee_nMoneyLineHomeBets ::= add32 1 |>
  | Some moneyLineAwayWin =>
      plEvent <| ee_nMoneyLineAwayPotentialLiability ::= add32 (liability betAmount (be_nAwayOdds plCachedEvent)) |>
              <| ee_nMoneyLineAwayBets ::= add32 1 |>
  | Some moneyLineDraw =>
      plEvent <| ee_nMoneyLineDrawPotentialLiability ::= add32 (liability betAmount (be_nDrawOdds plCachedEvent)) |>
              <| ee_nMoneyLineDrawBets ::= add32 1 |>
  | Some spreadHome =>
      plEvent <| ee_nSpreadHomePotentialLiability ::= add32 (liability betAmount (be_nSpreadHomeOdds plCachedEvent)) |>
              <| ee_nSpreadPushPotentialLiability ::= add32 push |>
              <| ee_nSpreadHomeBets ::= add32 1 |>
              <| ee_nSpreadPushBets ::= add32 1 |>
  | Some spreadAway =>
      plEvent <| ee_nSpreadAwayPotentialLiability ::= add32 (liability betAmount (be_nSpreadAwayOdds plCachedEvent)) |>
              <| ee_nSpreadPushPotentialLiability ::= add32 push |>
              <| ee_nSpreadAwayBets ::= add32 1 |>
              <| ee_nSpreadPushBets ::= add32 1 |>
  | Some totalOver =>
      plEvent <| ee_nTotalOverPotentialLiability ::= add32 (liability betAmount (be_nTotalOverOdds plCachedEvent)) |>
              <| ee_nTotalPushPotentialLiability ::= add32 push |>
              <| ee_nTotalOverBets ::= add32 1 |>
              <| ee_nTotalPushBets ::= add32 1 |>
  | Some totalUnder =>
      plEvent <| ee_nTotalUnderPotentialLiability ::= add32 (liability betAmount (be_nTotalUnderOdds plCachedEvent)) |>
              <| ee_nTotalPushPotentialLiability ::= add32 push |>
              <| ee_nTotalUnderBets ::= add32 1 |>
              <| ee_nTotalPushBets ::= add32 1 |>
  | None => plEvent
  end.

Definition ProcessPeerlessBet (cx : TxCtx) (v : CBettingsView) (t : CPeerlessBetTx) : option CBettingsView :=
  let plBet := {| leg_nEventId := pb_nEventId t; leg_nOutcome := pb_nOutcome t |} in
  match dbRead (events bettingsView) (pb_nEventId t), dbRead (events v) (pb_nEventId t) with
  | Some plCachedEvent, Some plEvent =>
      v ← SaveBettingUndo v (cx_bettingTxId cx) [undo_of cx (UndoPeerlessEvent plEvent)];
      let '(evs, ok) := dbUpdate (events v) (pb_nEventId t)
                          (accumulate_bet plEvent plCachedEvent (pb_nOutcome t) (cx_betAmount cx)) in
      if ok then
        let v := v <| events := evs |> in
        Some (v <| bets := (dbWrite (bets v) (bet_key cx)
                 (CPeerlessBetDB_new (cx_betAmount cx) (cx_address cx) [plBet] [ee_base plCachedEvent]
                    (cx_blockTime cx))).1 |>)
      else Some v
  | _, _ => Some v
  end.

(** The bet counters of a parlay leg; parlays add no liability. *)
Definition count_parlay_leg (plEvent : CPeerlessExtendedEventDB) (nOutcome : Z) : CPeerlessExtendedEventDB :=
  match OutcomeType_of nOutcome with
  | Some moneyLineHomeWin => plEvent <| ee_nMoneyLineHomeBets ::= add32 1 |>
  | Some moneyLineAwayWin => plEvent <| ee_nMoneyLineAwayBets ::= add32 1 |>
  | Some moneyLineDraw => plEvent <| ee_nMoneyLineDrawBets ::= add32 1 |>
  | Some spreadHome => plEvent <| ee_nSpreadHomeBets ::= add32 1 |> <| ee_nSpreadPushBets ::= add32 1 |>
  | Some spreadAway => plEvent <| ee_nSpreadAwayBets ::= add32 1 |> <| ee_nSpreadPushBets ::= add32 1 |>
  | Some totalOver => plEvent <| ee_nTotalOverBets ::= add32 1 |> <| ee_nTotalPushBets ::= add32 1 |>
  | Some totalUnder => plEvent <| ee_nTotalUnderBets ::= add32 1 |> <| ee_nTotalPushBets ::= add32 1 |>
  | None => plEvent
  end.

(** The loop over the legs: legs whose event is missing from one of the two
    levels are passed over.  Returns the events, the locked events and the
    undo records. *)
Fixpoint parlay_legs (cx : TxCtx) (evs : gmap Z CPeerlessExtendedEventDB) (legs : list CPeerlessLegDB) :
    gmap Z CPeerlessExtendedEventDB * list CPeerlessBaseEventDB * list CBettingUndoDB :=
  match legs with
  | [] => (evs, [], [])
  | leg :: legs =>
      match dbRead (events bettingsView) (leg_nEventId leg), dbRead evs (leg_nEventId leg) with
      | Some plCachedEvent, Some plEvent =>
          let evs := (dbUpdate evs (leg_nEventId leg) (count_parlay_leg plEvent (leg_nOutcome leg))).1 in
          let '(evs, locked, vUndos) := parlay_legs cx evs legs in
          (evs, ee_base plCachedEvent :: locked, undo_of cx (UndoPeerlessEvent plEvent) :: vUndos)
      | _, _ => parlay_legs cx evs legs
      end
  end.

Definition ProcessPeerlessParlayBet (cx : TxCtx) (v : CBettingsView) (t : CPeerlessParlayBetTx) :
    option CBettingsView :=
  if negb (cx_v3 cx) then Some v
  else
    let legs := (fun l => {| leg_nEventId := pb_nEventId l; leg_nOutcome := pb_nOutcome l |}) <$> ppb_legs t in
    let '(evs, lockedEvents, vUndos) := parlay_legs cx (events v) legs in
    let v := v <| events := evs |> in
    match legs with
    | [] => Some v
    | _ :: _ =>
        v ← SaveBettingUndo v (cx_bettingTxId cx) vUndos;
        Some (v <| bets := (dbWrite (bets v) (bet_key cx)
                 (CPeerlessBetDB_new (cx_betAmount cx) (cx_address cx) legs lockedEvents
                    (cx_blockTime cx))).1 |>)
    end.

(** ** Field bets *)

(** payout / COIN at the effective odds. *)
Definition field_liability (betAmount odds : Z) : Z :=
  Z.quot (Z.quot (i64 (betAmount * CalculateEffectiveOdds odds)) BET_ODDSDIVISOR) COIN.

(** The switch on the market: the event and the locked event, in which
    operator[] leaves an entry for the contender. *)
Definition accumulate_field_bet (fEvent fCachedEvent : CFieldEventDB) (nOutcome cid betAmount : Z) :
    CFieldEventDB * CFieldEventDB :=
  let locked := contender (fev_contenders fCachedEvent) cid in
  let fCachedEvent' := upd_contender (fun c => c) cid fCachedEvent in
  match FieldBetOutcomeType_of nOutcome with
  | Some outright =>
      (upd_contender (fun c =>
         c <| ci_nOutrightPotentialLiability ::= add32 (field_liability betAmount (ci_nOutrightOdds locked)) |>
           <| ci_nOutrightBets ::= add32 1 |>) cid fEvent, fCachedEvent')
  | Some place =>
      (upd_contender (fun c =>
         c <| ci_nPlacePotentialLiability ::= add32 (field_liability betAmount (ci_nPlaceOdds locked)) |>
           <| ci_nPlaceBets ::= add32 1 |>) cid fEvent, fCachedEvent')
  | Some show =>
      (upd_contender (fun c =>
         c <| ci_nShowPotentialLiability ::= add32 (field_liability betAmount (ci_nShowOdds locked)) |>
           <| ci_nShowBets ::= add32 1 |>) cid fEvent, fCachedEvent')
  | None => (fEvent, fCachedEvent)
  end.

Definition ProcessFieldBet (cx : TxCtx) (v : CBettingsView) (t : CFieldBetTx) : option CBettingsView :=
  if ChainActiveHeight env <? V4 env then Some v
  else
    match dbRead (fieldEvents bettingsView) (fb_nEventId t) with
    | None => Some v
    | Some fCachedEvent =>
        match dbRead (fieldEvents v) (fb_nEventId t) with
        | None => Some v
        | Some fEvent =>
            v ← SaveBettingUndo v (cx_bettingTxId cx) [undo_of cx (UndoFieldEvent fEvent)];
            let '(fEvent, fCachedEvent) :=
              accumulate_field_bet fEvent fCachedEvent (fb_nOutcome t) (fb_nContenderId t) (cx_betAmount cx) in
            let '(evs, ok) := dbUpdate (fieldEvents v) (fb_nEventId t) fEvent in
            if ok then
              let v := v <| fieldEvents := evs |> in
              let fLeg := {| fleg_nEventId := fb_nEventId t; fleg_nOutcome := fb_nOutcome t;
                             fleg_nContenderId := fb_nContenderId t |} in
              Some (v <| fieldBets := (dbWrite (fieldBets v) (bet_key cx)
                       (CFieldBetDB_new (cx_betAmount cx) (cx_address cx) [fLeg] [fCachedEvent]
                          (cx_blockTime cx))).1 |>)
            else Some v
        end
    end.

Definition count_field_leg (fEvent : CFieldEventDB) (nOutcome cid : Z) : CFieldEventDB :=
  match FieldBetOutcomeType_of nOutcome with
  | Some outright => upd_contender (fun c => c <| ci_nOutrightBets ::= add32 1 |>) cid fEvent
  | Some place => upd_contender (fun c => c <| ci_nPlaceBets ::= add32 1 |>) cid fEvent
  | Some show => upd_contender (fun c => c <| ci_nShowBets ::= add32 1 |>) cid fEvent
  | None => fEvent
  end.

Fixpoint field_parlay_legs (cx : TxCtx) (evs : gmap Z CFieldEventDB) (legs : list CFieldLegDB) :
    gmap Z CFieldEventDB * list CFieldEventDB * list CBettingUndoDB :=
  match legs with
  | [] => (evs, [], [])
  | leg :: legs =>
      match dbRead (fieldEvents bettingsView) (fleg_nEventId leg), dbRead evs (fleg_nEventId leg) with
      | Some fCachedEvent, Some fEvent =>
          let evs := (dbUpdate evs (fleg_nEventId leg)
                        (count_field_leg fEvent (fleg_nOutcome leg) (fleg_nContenderId leg))).1 in
          let '(evs, locked, vUndos) := field_parlay_legs cx evs legs in
          (evs, fCachedEvent :: locked, undo_of cx (UndoFieldEvent fEvent) :: vUndos)
      | _, _ => field_parlay_legs cx evs legs
      end
  end.

Definition ProcessFieldParlayBet (cx : TxCtx) (v : CBettingsView) (t : CFieldParlayBetTx) :
    option CBettingsView :=
  if ChainActiveHeight env <? V4 env then Some v
  else
    let legs := (fun l => {| fleg_nEventId := fb_nEventId l; fleg_nOutcome := fb_nOutcome l;
                             fleg_nContenderId := fb_nContenderId l |}) <$> fpb_legs t in
    let '(evs, lockedEvents, vUndos) := field_parlay_legs cx (fieldEvents v) legs in
    let v := v <| fieldEvents := evs |> in
    match legs with
    | [] => Some v
    | _ :: _ =>
        v ← SaveBettingUndo v (cx_bettingTxId cx) vUndos;
        Some (v <| fieldBets := (dbWrite (fieldBets v) (bet_key cx)
                 (CFieldBetDB_new (cx_betAmount cx) (cx_address cx) legs lockedEvents
                    (cx_blockTime cx))).1 |>)
    end.

(** ** Chain games and quick games bets *)
Definition ProcessChainGamesBet (cx : TxCtx) (v : CBettingsView) (t : CChainGamesBetTx) :
    option CBettingsView :=
  if negb (cx_v3 cx) then Some v
  else if QuickGamesEndHeight (Params env) <=? cx_height cx then Some v
  else if negb (dbExists (chainGamesLottoEvents bettingsView) (cgb_nEventId t)) then Some v
  else Some (v <| chainGamesLottoBets := (dbWrite (chainGamesLottoBets v) (bet_key cx)
               (CChainGamesBetDB_new (cgb_nEventId t) (cx_betAmount cx) (cx_address cx)
                  (cx_blockTime cx))).1 |>).

Definition ProcessQuickGamesBet (cx : TxCtx) (v : CBettingsView) (t : CQuickGamesBetTx) :
    option CBettingsView :=
  if negb (cx_v3 cx) then Some v
  else if QuickGamesEndHeight (Params env) <=? cx_height cx then Some v
  else Some (v <| quickGamesBets := (dbWrite (quickGamesBets v) (bet_key cx)
               (CQuickGamesBetDB_new (qg_gameType t) (qg_vBetInfo t) (cx_betAmount cx) (cx_address cx)
                  (cx_blockTime cx))).1 |>).

(** ** Oracle transactions *)

(** Before v3 a transaction without effect is recorded as failed. *)
Definition save_failed (cx : TxCtx) (v : CBettingsView) : option CBettingsView :=
  if negb (cx_v3 cx) then SaveFailedTx v (cx_bettingTxId cx) else Some v.

Definition ProcessMapping (cx : TxCtx) (v : CBettingsView) (t : CMappingTx) : option CBettingsView :=
  if (ChainActiveHeight env <? V4 env) && v4_mapping (map_nMType t) then Some v
  else
    let '(m, ok) := dbWrite (mappings v) {| mk_nMType := map_nMType t; mk_nId := map_nId t |}
                      {| mdb_sName := map_sName t |} in
    if ok then Some (v <| mappings := m |>) else save_failed cx v.

(** The fields a legacy event transaction overwrites in an existing event. *)
Definition patch_event (old new : CPeerlessBaseEventDB) : CPeerlessBaseEventDB :=
  old <| be_nStartTime := be_nStartTime new |>
      <| be_nSport := be_nSport new |>
      <| be_nTournament := be_nTournament new |>
      <| be_nStage := be_nStage new |>
      <| be_nHomeTeam := be_nHomeTeam new |>
      <| be_nAwayTeam := be_nAwayTeam new |>
      <| be_nHomeOdds := be_nHomeOdds new |>
      <| be_nAwayOdds := be_nAwayOdds new |>
      <| be_nDrawOdds := be_nDrawOdds new |>.

Definition ProcessPeerlessEvent (cx : TxCtx) (v : CBettingsView) (t : CPeerlessEventTx) :
    option CBettingsView :=
  let base := ExtractEvent CPeerlessBaseEventDB_init t in
  let base := if negb (cx_v3 cx)
              then base <| be_nEventCreationHeight := cx_height cx |>
                        <| be_fLegacyInitialHomeFavorite := pe_nHomeOdds t <? pe_nAwayOdds t |>
              else base in
  let plEvent := CPeerlessExtendedEventDB_init <| ee_base := base |> in
  let '(evs, ok) := dbWrite (events v) (be_nEventId plEvent) plEvent in
  if ok then Some (v <| events := evs |>)
  else if cx_v3 cx then Some v
  else
    match dbRead (events v) (be_nEventId plEvent) with
    | Some plEventToPatch =>
        v ← SaveBettingUndo v (cx_bettingTxId cx) [undo_of cx (UndoPeerlessEvent plEventToPatch)];
        Some (v <| events := (dbUpdate (events v) (be_nEventId plEvent)
                 (plEventToPatch <| ee_base ::= fun old => patch_event old base |>)).1 |>)
    | None => save_failed cx v
    end.

Definition ProcessFieldEvent (v : CBettingsView) (t : CFieldEventTx) : option CBettingsView :=
  if ChainActiveHeight env <? V4 env then Some v
  else
    let fEvent := CalcOdds env (ExtractFieldEvent CFieldEventDB_init t) in
    Some (v <| fieldEvents := (dbWrite (fieldEvents v) (fev_nEventId fEvent) fEvent).1 |>).

(** The common shape of the field event updates: save the event for undo,
    change it, write it back. *)
Definition update_field_event (cx : TxCtx) (v : CBettingsView) (nEventId : Z)
    (f : CFieldEventDB -> CFieldEventDB) : option CBettingsView :=
  if ChainActiveHeight env <? V4 env then Some v
  else
    match dbRead (fieldEvents v) nEventId with
    | Some fEvent =>
        v ← SaveBettingUndo v (cx_bettingTxId cx) [undo_of cx (UndoFieldEvent fEvent)];
        Some (v <| fieldEvents := (dbUpdate (fieldEvents v) nEventId (f fEvent)).1 |>)
    | None => Some v
    end.

Definition ProcessFieldUpdateOdds (cx : TxCtx) (v : CBettingsView) (t : CFieldUpdateOddsTx) :=
  update_field_event cx v (fuo_nEventId t) (fun e => CalcOdds env (ExtractFieldUpdateOdds e t)).

Definition ProcessFieldUpdateModifiers (cx : TxCtx) (v : CBettingsView) (t : CFieldUpdateModifiersTx) :=
  update_field_event cx v (fum_nEventId t) (fun e => CalcOdds env (ExtractFieldUpdateModifiers e t)).

Definition ProcessFieldUpdateMargin (cx : TxCtx) (v : CBettingsView) (t : CFieldUpdateMarginTx) :=
  update_field_event cx v (fumg_nEventId t) (fun e => CalcOdds env (ExtractFieldUpdateMargin e t)).

Definition zero_field_odds (e : CFieldEventDB) : CFieldEventDB :=
  e <| fev_contenders ::= fmap (fun c : ContenderInfo =>
         c <| ci_nInputOdds := 0 |> <| ci_nOutrightOdds := 0 |>
           <| ci_nPlaceOdds := 0 |> <| ci_nShowOdds := 0 |>) |>.

Definition ProcessFieldZeroingOdds (cx : TxCtx) (v : CBettingsView) (t : CFieldZeroingOddsTx) :=
  update_field_event cx v (fz_nEventId t) zero_field_odds.

(** Every contender of the event gets a result, DNF when none is given. *)
Definition field_result_of (fieldEvent : CFieldEventDB) (t : CFieldResultTx) : CFieldResultDB := {|
  frs_nEventId := fr_nEventId t;
  frs_nResultType := fr_nResultType t;
  frs_contendersResults :=
    map_imap (fun id _ => Some (default (ContenderResult_value DNF) (fr_contendersResults t !! id)))
      (fev_contenders fieldEvent);
|}.

Definition ProcessFieldResult (v : CBettingsView) (ids : list Z) (t : CFieldResultTx) :
    option (CBettingsView * list Z) :=
  if ChainActiveHeight env <? V4 env then Some (v, ids)
  else
    match dbRead (fieldEvents v) (fr_nEventId t) with
    | None => Some (v, ids)
    | Some fieldEvent =>
        let '(rs, ok) := dbWrite (fieldResults v) (fr_nEventId t) (field_result_of fieldEvent t) in
        if ok then Some (v <| fieldResults := rs |>, ids ++ [fr_nEventId t]) else Some (v, ids)
    end.

Definition ProcessPeerlessResult (cx : TxCtx) (v : CBettingsView) (ids : list Z) (t : CPeerlessResultTx) :
    option (CBettingsView * list Z) :=
  if negb (cx_v3 cx) && (0 <? length ids)%nat then Some (v, ids)
  else
    let plResult := Build_CPeerlessResultDB (pr_nEventId t) (pr_nResultType t) (pr_nHomeScore t) (pr_nAwayScore t) in
    if negb (dbExists (events v) (pr_nEventId t)) then
      v ← save_failed cx v; Some (v, ids)
    else
      let '(rs, ok) := dbWrite (results v) (pr_nEventId t) plResult in
      if ok then Some (v <| results := rs |>, ids ++ [pr_nEventId t])
      else if negb (cx_v3 cx) then
        let v := v <| results := (dbUpdate (results v) (pr_nEventId t) plResult).1 |> in
        v ← SaveFailedTx v (cx_bettingTxId cx);
        Some (v, ids ++ [pr_nEventId t])
      else Some (v, ids).

(** The common shape of the peerless event updates. *)
Definition update_event (cx : TxCtx) (v : CBettingsView) (nEventId : Z)
    (f : CPeerlessBaseEventDB -> CPeerlessBaseEventDB) : option CBettingsView :=
  match dbRead (events v) nEventId with
  | Some plEvent =>
      v ← SaveBettingUndo v (cx_bettingTxId cx) [undo_of cx (UndoPeerlessEvent plEvent)];
      Some (v <| events := (dbUpdate (events v) nEventId (plEvent <| ee_base ::= f |>)).1 |>)
  | None => save_failed cx v
  end.

Definition ProcessPeerlessUpdateOdds (cx : TxCtx) (v : CBettingsView) (t : CPeerlessUpdateOddsTx) :=
  update_event cx v (puo_nEventId t) (fun e => ExtractUpdateOdds e t).

Definition ProcessPeerlessSpreads (cx : TxCtx) (v : CBettingsView) (t : CPeerlessSpreadsEventTx) :=
  update_event cx v (pse_nEventId t) (fun e => ExtractSpreads e t).

Definition ProcessPeerlessTotals (cx : TxCtx) (v : CBettingsView) (t : CPeerlessTotalsEventTx) :=
  update_event cx v (pte_nEventId t) (fun e => ExtractTotals e t).

Definition ProcessPeerlessPatch (cx : TxCtx) (v : CBettingsView) (t : CPeerlessEventPatchTx) :=
  update_event cx v (pep_nEventId t) (fun e => ExtractPatch e t).

Definition ProcessChainGamesEvent (cx : TxCtx) (v : CBettingsView) (t : CChainGamesEventTx) :
    option CBettingsView :=
  if negb (cx_v3 cx) then Some v
  else if QuickGamesEndHeight (Params env) <=? cx_height cx then Some v
  else Some (v <| chainGamesLottoEvents := (dbWrite (chainGamesLottoEvents v) (cge_nEventId t)
               (Build_CChainGamesEventDB (cge_nEventId t) (cge_nEntryFee t))).1 |>).

Definition ProcessChainGamesResult (cx : TxCtx) (v : CBettingsView) (ids : list Z) (t : CChainGamesResultTx) :
    option (CBettingsView * list Z) :=
  if negb (cx_v3 cx) then Some (v, ids)
  else if QuickGamesEndHeight (Params env) <=? cx_height cx then Some (v, ids)
  else if negb (dbExists (chainGamesLottoEvents v) (cgr_nEventId t)) then Some (v, ids)
  else
    let '(rs, ok) := dbWrite (chainGamesLottoResults v) (cgr_nEventId t)
                       {| cgres_nEventId := cgr_nEventId t |} in
    if ok then Some (v <| chainGamesLottoResults := rs |>, ids ++ [cgr_nEventId t]) else Some (v, ids).

Definition zero_event_odds (e : CPeerlessBaseEventDB) : CPeerlessBaseEventDB :=
  e <| be_nHomeOdds := 0 |> <| be_nAwayOdds := 0 |> <| be_nDrawOdds := 0 |>
    <| be_nSpreadHomeOdds := 0 |> <| be_nSpreadAwayOdds := 0 |>
    <| be_nTotalOverOdds := 0 |> <| be_nTotalUnderOdds := 0 |>.

Fixpoint zero_events (cx : TxCtx) (evs : gmap Z CPeerlessExtendedEventDB) (ids : list Z) :
    gmap Z CPeerlessExtendedEventDB * list CBettingUndoDB :=
  match ids with
  | [] => (evs, [])
  | eventId :: ids =>
      match dbRead evs eventId with
      | Some plEvent =>
          let evs := (dbUpdate evs eventId (plEvent <| ee_base ::= zero_event_odds |>)).1 in
          let '(evs, vUndos) := zero_events cx evs ids in
          (evs, undo_of cx (UndoPeerlessEvent plEvent) :: vUndos)
      | None => zero_events cx evs ids
      end
  end.

Definition ProcessEventZeroingOdds (cx : TxCtx) (v : CBettingsView) (t : CPeerlessEventZeroingOddsTx) :
    option CBettingsView :=
  if ChainActiveHeight env <? V4 env then Some v
  else
    let '(evs, vUndos) := zero_events cx (events v) (pez_vEventIds t) in
    let v := v <| events := evs |> in
    match vUndos with
    | [] => Some v
    | _ :: _ => SaveBettingUndo v (cx_bettingTxId cx) vUndos
    end.

(** ** The switch *)
Definition with_ids (ids : list Z) (r : option CBettingsView) : option (CBettingsView * list Z) :=
  v ← r; Some (v, ids).

(** The inner switch, on the types an oracle sends. *)
Definition ProcessOracleTx (cx : TxCtx) (v : CBettingsView) (ids : list Z) (tx : CBettingTx) :
    option (CBettingsView * list Z) :=
  match tx with
  | MappingTx t => with_ids ids (ProcessMapping cx v t)
  | PeerlessEventTx t => with_ids ids (ProcessPeerlessEvent cx v t)
  | FieldEventTx t => with_ids ids (ProcessFieldEvent v t)
  | FieldUpdateOddsTx t => with_ids ids (ProcessFieldUpdateOdds cx v t)
  | FieldUpdateModifiersTx t => with_ids ids (ProcessFieldUpdateModifiers cx v t)
  | FieldUpdateMarginTx t => with_ids ids (ProcessFieldUpdateMargin cx v t)
  | FieldZeroingOddsTx t => with_ids ids (ProcessFieldZeroingOdds cx v t)
  | FieldResultTx t => ProcessFieldResult v ids t
  | PeerlessResultTx t => ProcessPeerlessResult cx v ids t
  | PeerlessUpdateOddsTx t => with_ids ids (ProcessPeerlessUpdateOdds cx v t)
  | ChainGamesEventTx t => with_ids ids (ProcessChainGamesEvent cx v t)
  | ChainGamesResultTx t => ProcessChainGamesResult cx v ids t
  | PeerlessSpreadsEventTx t => with_ids ids (ProcessPeerlessSpreads cx v t)
  | PeerlessTotalsEventTx t => with_ids ids (ProcessPeerlessTotals cx v t)
  | PeerlessEventPatchTx t => with_ids ids (ProcessPeerlessPatch cx v t)
  | PeerlessEventZeroingOddsTx t => with_ids ids (ProcessEventZeroingOdds cx v t)
  | _ => Some (v, ids)
  end.

(** The outer switch; [prevOut] is txPrev->vout[txin.prevout.n], [None] when
    txPrev is a null pointer or the index is out of range. *)
Definition ProcessTxOut (cx : TxCtx) (prevOut : option CTxOut) (v : CBettingsView) (ids : list Z)
    (tx : CBettingTx) : option (CBettingsView * list Z) :=
  match tx with
  | PeerlessBetTx t => with_ids ids (ProcessPeerlessBet cx v t)
  | PeerlessParlayBetTx t => with_ids ids (ProcessPeerlessParlayBet cx v t)
  | FieldBetTx t => with_ids ids (ProcessFieldBet cx v t)
  | FieldParlayBetTx t => with_ids ids (ProcessFieldParlayBet cx v t)
  | ChainGamesBetTx t => with_ids ids (ProcessChainGamesBet cx v t)
  | QuickGamesBetTx t => with_ids ids (ProcessQuickGamesBet cx v t)
  | _ =>
      prevOut ← prevOut;
      if IsValidOraclePrevTxOut env prevOut (cx_height cx)
      then ProcessOracleTx cx v ids tx else Some (v, ids)
  end.

(** ** The loop over the outputs *)

(** The player's address: the destination of the output the first input
    spends, looked up in the transaction index, then in the block, then in
    the coins view.  Outer [None]: an access past the end of vout; inner
    [None]: no address, the function returns.  The second component is the
    output txPrev->vout[n] that the oracle check will read. *)
Definition player_address (vtx : list CTransaction) (txin : COutPoint) :
    option (option (CTxDestination * option CTxOut)) :=
  let in_block txPrev :=
    let txPrev := match list_find (fun b => tx_hash b = op_hash txin) vtx with
                  | Some (_, b) => Some b
                  | None => txPrev
                  end in
    match txPrev with
    | None =>
        match ExtractDestination env (scriptPubKey (AccessCoin env txin)) with
        | None => Some None
        | Some a => Some (Some (a, None))
        end
    | Some txPrev =>
        out ← prevout_of txPrev txin;
        match ExtractDestination env (scriptPubKey out) with
        | None => Some None
        | Some a => Some (Some (a, Some out))
        end
    end in
  match GetTransaction env (op_hash txin) with
  | None => in_block None
  | Some txPrev =>
      out ← prevout_of txPrev txin;
      match ExtractDestination env (scriptPubKey out) with
      | Some a => Some (Some (a, Some out))
      | None => in_block (Some txPrev)
      end
  end.

Record CBlock := { block_time : Z; block_vtx : list CTransaction }.

Fixpoint process_vouts (tx : CTransaction) (height : Z) (block : CBlock) (v3 : bool) (i : Z)
    (vout : list CTxOut) (v : CBettingsView) (ids : list Z) : option (CBettingsView * list Z) :=
  match vout with
  | [] => Some (v, ids)
  | txOut :: vout =>
      match ParseBettingTx (scriptPubKey txOut) with
      | None => process_vouts tx height block v3 (i + 1) vout v ids
      | Some bettingTx =>
          txin ← head (tx_vin tx);
          a ← player_address (block_vtx block) txin;
          match a with
          | None => Some (v, ids)
          | Some (address, prevOut) =>
              let outPoint := {| op_hash := tx_hash tx; op_n := u32 i |} in
              let cx := {| cx_height := height; cx_blockTime := block_time block; cx_outPoint := outPoint;
                           cx_bettingTxId := SerializeHash env outPoint; cx_betAmount := nValue txOut;
                           cx_address := address; cx_v3 := v3 |} in
              '(v, ids) ← ProcessTxOut cx prevOut v ids bettingTx;
              process_vouts tx height block v3 (i + 1) vout v ids
          end
      end
  end.

Definition ProcessBettingTx (v : CBettingsView) (vCurResultIDs : list Z) (tx : CTransaction)
    (height : Z) (block : CBlock) (wagerrProtocolV3 : bool) : option (CBettingsView * list Z) :=
  if negb (HasOpReturnOutput (scriptPubKey <$> tx_vout tx)) then Some (v, vCurResultIDs)
  else process_vouts tx height block wagerrProtocolV3 0 (tx_vout tx) v vCurResultIDs.
End Process.

(** ** What a bet records *)

(** The bet counters of the seven outcomes. *)
Definition outcome_bets (e : CPeerlessExtendedEventDB) : Z :=
  ee_nMoneyLineHomeBets e + ee_nMoneyLineAwayBets e + ee_nMoneyLineDrawBets e +
  ee_nSpreadHomeBets e + ee_nSpreadAwayBets e + ee_nTotalOverBets e + ee_nTotalUnderBets e.

Definition counters_small (e : CPeerlessExtendedEventDB) : Prop :=
  Forall (fun n => 0 <= n < 2 ^ 32 - 1)
    [ee_nMoneyLineHomeBets e; ee_nMoneyLineAwayBets e; ee_nMoneyLineDrawBets e;
     ee_nSpreadHomeBets e; ee_nSpreadAwayBets e; ee_nTotalOverBets e; ee_nTotalUnderBets e].

Lemma add32_1 n : 0 <= n < 2 ^ 32 - 1 -> add32 1 n = n + 1.
Proof. intros. apply wrapU_small. range. Qed.

Lemma accumulate_bet_counts e c o amount :
  counters_small e ->
  ee_base (accumulate_bet e c o amount) = ee_base e /\
  outcome_bets (accumulate_bet e c o amount) =
    outcome_bets e + match OutcomeType_of o with Some _ => 1 | None => 0 end.
Proof.
  unfold counters_small. rewrite !Forall_cons. intros (?&?&?&?&?&?&?&_).
  unfold accumulate_bet, outcome_bets.
  destruct (OutcomeType_of o) as [[]|]; simpl; rewrite ?add32_1 by done; (split; [done|lia]).
Qed.

(** What a single bet records.  When the event is in both levels and the
    keys are fresh, the bet is stored under {height, outpoint} with its stake,
    address, leg, time and the odds of the level below; the event's odds are
    untouched and its bet counters grow by one for a known outcome; the event
    as it was is saved for undo; no other table changes. *)
Theorem ProcessPeerlessBet_records gv cx v t c e :
  events gv !! pb_nEventId t = Some c -> events v !! pb_nEventId t = Some e ->
  counters_small e ->
  undos v !! UndoTxKey (cx_bettingTxId cx) = None -> bets v !! bet_key cx = None ->
  exists e',
    ProcessPeerlessBet gv cx v t = Some
      (v <| undos := <[UndoTxKey (cx_bettingTxId cx) :=
              UndoVector [undo_of cx (UndoPeerlessEvent e)]]> (undos v) |>
         <| events := <[pb_nEventId t := e']> (events v) |>
         <| bets := <[bet_key cx := CPeerlessBetDB_new (cx_betAmount cx) (cx_address cx)
              [{| leg_nEventId := pb_nEventId t; leg_nOutcome := pb_nOutcome t |}]
              [ee_base c] (cx_blockTime cx)]> (bets v) |>) /\
    ee_base e' = ee_base e /\
    outcome_bets e' = outcome_bets e +
      match OutcomeType_of (pb_nOutcome t) with Some _ => 1 | None => 0 end.
Proof.
  intros Hc He Hs Hu Hb. exists (accumulate_bet e c (pb_nOutcome t) (cx_betAmount cx)).
  split; [|by apply accumulate_bet_counts].
  unfold ProcessPeerlessBet. change (dbRead ?m ?k) with (m !! k). rewrite Hc, He.
  unfold SaveBettingUndo. rewrite dbExists_None, dbWrite_None by done. cbn [mbind option_bind fst].
  rewrite (dbUpdate_Some (events _) _ _ e He). simpl. by rewrite dbWrite_None.
Qed.

(** ** What a parlay records *)
Lemma dbUpdate_dom {E} (m : gmap Z E) k e j : is_Some ((dbUpdate m k e).1 !! j) <-> is_Some (m !! j).
Proof.
  rewrite dbUpdate_fst. destruct (m !! k) eqn:Ek; [|done].
  destruct (decide (j = k)) as [->|]; [rewrite lookup_insert_eq, Ek; naive_solver|by rewrite lookup_insert_ne].
Qed.

(** The locked event of a leg: the base event of the level below, when both
    levels have the event. *)
Definition locked_event (gv : CBettingsView) (evs : gmap Z CPeerlessExtendedEventDB) (leg : CPeerlessLegDB) :
    option CPeerlessBaseEventDB :=
  match events gv !! leg_nEventId leg with
  | Some c => if bool_decide (is_Some (evs !! leg_nEventId leg)) then Some (ee_base c) else None
  | None => None
  end.

Lemma locked_event_ext gv evs1 evs2 leg :
  (forall j, is_Some (evs1 !! j) <-> is_Some (evs2 !! j)) ->
  locked_event gv evs1 leg = locked_event gv evs2 leg.
Proof.
  intros H. unfold locked_event. destruct (events gv !! _); [|done].
  by rewrite (bool_decide_ext _ _ (H (leg_nEventId leg))).
Qed.

Lemma parlay_legs_locked gv cx evs legs evs' locked us :
  parlay_legs gv cx evs legs = (evs', locked, us) ->
  locked = omap (locked_event gv evs) legs /\ length us = length locked.
Proof.
  revert evs evs' locked us. induction legs as [|leg legs IH]; intros evs evs' locked us; cbn [parlay_legs].
  { by intros [= _ <- <-]. }
  change (dbRead ?m ?k) with (m !! k). csimpl. unfold locked_event at 1.
  destruct (events gv !! leg_nEventId leg) as [c|]; [|apply IH].
  destruct (evs !! leg_nEventId leg) as [e|] eqn:Ee; [|apply IH].
  destruct (parlay_legs gv cx _ legs) as [[evs1 l1] u1] eqn:E1. intros [= <- <- <-].
  apply IH in E1 as [-> Hlen]. csimpl. split; [|by rewrite Hlen]. f_equal.
  clear. induction legs as [|l legs IH]; csimpl; [done|].
  rewrite IH, (locked_event_ext gv _ evs l); [done|]. intros j. apply dbUpdate_dom.
Qed.

Lemma omap_length_full {A B} (f : A -> option B) l :
  (length (omap f l) <= length l)%nat /\ (length (omap f l) = length l <-> Forall (fun x => is_Some (f x)) l).
Proof.
  induction l as [|x l [Hle IH]]; csimpl; [naive_solver|]. rewrite Forall_cons.
  destruct (f x) as [y|]; csimpl; (split; [lia|]).
  - split; [intros [=E]; split; [eauto|by apply IH]|intros [_ ?]; f_equal; by apply IH].
  - split; [lia|]. intros [[] ?]; congruence.
Qed.

(** What a parlay records.  The stored bet has all legs of the
    transaction, but a locked event only for the legs whose event is in both
    levels, in their order: there are as many locked events as legs exactly
    when every event is in both levels.  Otherwise legs and locked events are
    out of step. *)
Theorem ProcessPeerlessParlayBet_records gv cx v t v' :
  cx_v3 cx = true -> ppb_legs t <> [] -> bets v !! bet_key cx = None ->
  ProcessPeerlessParlayBet gv cx v t = Some v' ->
  exists legs locked,
    bets v' = <[bet_key cx := CPeerlessBetDB_new (cx_betAmount cx) (cx_address cx) legs locked
                                (cx_blockTime cx)]> (bets v) /\
    length legs = length (ppb_legs t) /\
    locked = omap (locked_event gv (events v)) legs /\
    (length locked = length legs <->
     Forall (fun l => is_Some (events gv !! pb_nEventId l) /\ is_Some (events v !! pb_nEventId l)) (ppb_legs t)).
Proof.
  intros Hv3 Hne Hb. unfold ProcessPeerlessParlayBet. rewrite Hv3. cbn [negb]. cbv zeta.
  destruct (ppb_legs t) as [|t0 ts]; [done|].
  set (legs := _ <$> t0 :: ts). destruct (parlay_legs _ _ _ _) as [[evs locked] us] eqn:E.
  apply parlay_legs_locked in E as [Hl _]. intros H. cbn [legs fmap list_fmap] in H.
  apply bind_Some in H as (v1 & HS & [= <-]). unfold SaveBettingUndo in HS. case_match; simplify_eq.
  exists legs, (omap (locked_event gv (events v)) legs). split_and!.
  - simpl. by rewrite dbWrite_None.
  - unfold legs. by rewrite length_fmap.
  - done.
  - rewrite (proj2 (omap_length_full _ _)). unfold legs. rewrite Forall_fmap.
    apply Forall_iff. intros l. unfold compose, locked_event. simpl.
    destruct (events gv !! pb_nEventId l) as [c|]; [|naive_solver].
    case_bool_decide; naive_solver.
Qed.
