(* ===== verification/UndoTx.v ===== *)
(** * Undoing betting transactions
    (UndoEventChanges, UndoBettingTx and UndoPayoutsInfo,
    src/src/betting/bet.cpp 1721-2360)

    One definition per transaction type, each returning the view and the
    success flag ([false] is "Revert failed!" and stops the undo).  The
    theorems relate them to ProcessTx.v: undoing what was just processed
    gives the view back. *)

From S2P Require Import Prelude Params BetTx BetDB BetKeys Flushable BetView BetCommon CheckTx ProcessTx.

(** The errors inside the loop build an exception object without throwing it:
    an update that fails is passed over. *)
Definition undo_one (v : CBettingsView) (undo : CBettingUndoDB) : CBettingsView :=
  match undo_variant undo with
  | UndoPeerlessEvent event => v <| events := (dbUpdate (events v) (be_nEventId event) event).1 |>
  | UndoFieldEvent event => v <| fieldEvents := (dbUpdate (fieldEvents v) (fev_nEventId event) event).1 |>
  end.

Definition UndoEventChanges (v : CBettingsView) (undoKey : uint256) : CBettingsView * bool :=
  let v := foldl undo_one v (GetBettingUndo v undoKey) in
  EraseBettingUndo v undoKey.

Section Undo.
Context (env : ChainEnv) (bettingsView : CBettingsView).

(** The height, the outpoint and the identifier of the undone output. *)
Record UndoCtx := { ux_height : Z; ux_outPoint : COutPoint; ux_bettingTxId : uint256 }.

Definition ux_v3 (ux : UndoCtx) : bool := u32 (V3 env) <=? ux_height ux.
Definition ux_v4 (ux : UndoCtx) : bool := u32 (V4 env) <=? ux_height ux.
Definition ux_key (ux : UndoCtx) : PeerlessBetKey :=
  {| bk_blockHeight := ux_height ux; bk_outPoint := ux_outPoint ux |}.

(** UndoEventChanges followed by the erasure of the bet. *)
Definition UndoPeerlessBet (ux : UndoCtx) (v : CBettingsView) (t : CPeerlessBetTx) : CBettingsView * bool :=
  if dbExists (events v) (pb_nEventId t) then
    let '(v, ok) := UndoEventChanges v (ux_bettingTxId ux) in
    if ok then (v <| bets := (dbErase (bets v) (ux_key ux)).1 |>, true) else (v, false)
  else (v, true).

Definition UndoPeerlessParlayBet (ux : UndoCtx) (v : CBettingsView) (t : CPeerlessParlayBetTx) :
    CBettingsView * bool :=
  if negb (ux_v3 ux) then (v, true)
  else
    let allEventsExist := forallb (fun leg => dbExists (events v) (pb_nEventId leg)) (ppb_legs t) in
    if (0 <? length (ppb_legs t))%nat && allEventsExist then
      let '(v, ok) := UndoEventChanges v (ux_bettingTxId ux) in
      if ok then (v <| bets := (dbErase (bets v) (ux_key ux)).1 |>, true) else (v, false)
    else (v, true).

Definition UndoFieldBet (ux : UndoCtx) (v : CBettingsView) (t : CFieldBetTx) : CBettingsView * bool :=
  if negb (ux_v4 ux) then (v, true)
  else if negb (dbExists (fieldEvents v) (fb_nEventId t)) then (v, true)
  else
    let '(v, ok) := UndoEventChanges v (ux_bettingTxId ux) in
    if ok then (v <| fieldBets := (dbErase (fieldBets v) (ux_key ux)).1 |>, true) else (v, false).

Definition UndoFieldParlayBet (ux : UndoCtx) (v : CBettingsView) (t : CFieldParlayBetTx) :
    CBettingsView * bool :=
  if negb (ux_v4 ux) then (v, true)
  else
    let allEventsExist := forallb (fun leg => dbExists (fieldEvents v) (fb_nEventId leg)) (fpb_legs t) in
    if (0 <? length (fpb_legs t))%nat && allEventsExist then
      let '(v, ok) := UndoEventChanges v (ux_bettingTxId ux) in
      if ok then (v <| fieldBets := (dbErase (fieldBets v) (ux_key ux)).1 |>, true) else (v, false)
    else (v, true).

Definition UndoChainGamesBet (ux : UndoCtx) (v : CBettingsView) (t : CChainGamesBetTx) : CBettingsView * bool :=
  if negb (ux_v3 ux) then (v, true)
  else if negb (dbExists (chainGamesLottoEvents bettingsView) (cgb_nEventId t)) then (v, true)
  else let '(m, ok) := dbErase (chainGamesLottoBets v) (ux_key ux) in
       (v <| chainGamesLottoBets := m |>, ok).

Definition UndoQuickGamesBet (ux : UndoCtx) (v : CBettingsView) : CBettingsView * bool :=
  if negb (ux_v3 ux) then (v, true)
  else let '(m, ok) := dbErase (quickGamesBets v) (ux_key ux) in (v <| quickGamesBets := m |>, ok).

(** ** Oracle transactions *)
Definition UndoMapping (ux : UndoCtx) (v : CBettingsView) (t : CMappingTx) : CBettingsView * bool :=
  if v4_mapping (map_nMType t) && negb (ux_v4 ux) then (v, false)
  else
    let key := {| mk_nMType := map_nMType t; mk_nId := map_nId t |} in
    if dbExists (mappings v) key then
      let '(m, ok) := dbErase (mappings v) key in (v <| mappings := m |>, ok)
    else (v, true).

Definition UndoPeerlessEvent_tx (ux : UndoCtx) (v : CBettingsView) (t : CPeerlessEventTx) :
    CBettingsView * bool :=
  if dbExists (events v) (pe_nEventId t) then
    if negb (ux_v3 ux) && ExistsBettingUndo v (ux_bettingTxId ux) then
      UndoEventChanges v (ux_bettingTxId ux)
    else
      let '(m, ok) := dbErase (events v) (pe_nEventId t) in (v <| events := m |>, ok)
  else (v, true).

Definition UndoFieldEvent_tx (ux : UndoCtx) (v : CBettingsView) (t : CFieldEventTx) : CBettingsView * bool :=
  if negb (ux_v4 ux) then (v, true)
  else if dbExists (fieldEvents v) (fe_nEventId t) then
    let '(m, ok) := dbErase (fieldEvents v) (fe_nEventId t) in (v <| fieldEvents := m |>, ok)
  else (v, true).

(** The four updates of a field event. *)
Definition UndoFieldUpdate (ux : UndoCtx) (v : CBettingsView) (nEventId : Z) : CBettingsView * bool :=
  if negb (ux_v4 ux) then (v, true)
  else if dbExists (fieldEvents v) nEventId then UndoEventChanges v (ux_bettingTxId ux)
  else (v, true).

Definition UndoFieldResult (ux : UndoCtx) (v : CBettingsView) (t : CFieldResultTx) : CBettingsView * bool :=
  if negb (ux_v4 ux) then (v, true)
  else if negb (field_result_type_ok (fr_nResultType t)) then (v, true)
  else if negb (dbExists (fieldEvents v) (fr_nEventId t)) then (v, true)
  else if dbExists (fieldResults v) (fr_nEventId t) then
    let '(m, ok) := dbErase (fieldResults v) (fr_nEventId t) in (v <| fieldResults := m |>, ok)
  else (v, true).

Definition UndoPeerlessResult (v : CBettingsView) (t : CPeerlessResultTx) : CBettingsView * bool :=
  if dbExists (results v) (pr_nEventId t) then
    let '(m, ok) := dbErase (results v) (pr_nEventId t) in (v <| results := m |>, ok)
  else (v, true).

(** The four updates of a peerless event. *)
Definition UndoUpdate (ux : UndoCtx) (v : CBettingsView) (nEventId : Z) : CBettingsView * bool :=
  if dbExists (events v) nEventId then UndoEventChanges v (ux_bettingTxId ux) else (v, true).

Definition UndoChainGamesEvent (ux : UndoCtx) (v : CBettingsView) (t : CChainGamesEventTx) :
    CBettingsView * bool :=
  if negb (ux_v3 ux) then (v, true)
  else let '(m, ok) := dbErase (chainGamesLottoEvents v) (cge_nEventId t) in
       (v <| chainGamesLottoEvents := m |>, ok).

Definition UndoChainGamesResult (ux : UndoCtx) (v : CBettingsView) (t : CChainGamesResultTx) :
    CBettingsView * bool :=
  if negb (ux_v3 ux) then (v, true)
  else let '(m, ok) := dbErase (chainGamesLottoResults v) (cgr_nEventId t) in
       (v <| chainGamesLottoResults := m |>, ok).

Definition UndoEventZeroingOdds (ux : UndoCtx) (v : CBettingsView) (t : CPeerlessEventZeroingOddsTx) :
    CBettingsView * bool :=
  if negb (ux_v4 ux) then (v, true)
  else if forallb (fun eventId => dbExists (events v) eventId) (pez_vEventIds t)
  then UndoEventChanges v (ux_bettingTxId ux)
  else (v, true).

Definition UndoOracleTx (ux : UndoCtx) (v : CBettingsView) (tx : CBettingTx) : CBettingsView * bool :=
  match tx with
  | MappingTx t => UndoMapping ux v t
  | PeerlessEventTx t => UndoPeerlessEvent_tx ux v t
  | FieldEventTx t => UndoFieldEvent_tx ux v t
  | FieldUpdateOddsTx t => UndoFieldUpdate ux v (fuo_nEventId t)
  | FieldUpdateModifiersTx t => UndoFieldUpdate ux v (fum_nEventId t)
  | FieldUpdateMarginTx t => UndoFieldUpdate ux v (fumg_nEventId t)
  | FieldZeroingOddsTx t => UndoFieldUpdate ux v (fz_nEventId t)
  | FieldResultTx t => UndoFieldResult ux v t
  | PeerlessResultTx t => UndoPeerlessResult v t
  | PeerlessUpdateOddsTx t => UndoUpdate ux v (puo_nEventId t)
  | ChainGamesEventTx t => UndoChainGamesEvent ux v t
  | ChainGamesResultTx t => UndoChainGamesResult ux v t
  | PeerlessSpreadsEventTx t => UndoUpdate ux v (pse_nEventId t)
  | PeerlessTotalsEventTx t => UndoUpdate ux v (pte_nEventId t)
  | PeerlessEventPatchTx t => UndoUpdate ux v (pep_nEventId t)
  | PeerlessEventZeroingOddsTx t => UndoEventZeroingOdds ux v t
  | _ => (v, true)
  end.

(** ** The switch; [oracle] is the result of IsValidOracleTx, evaluated for
    oracle transactions only. *)
Definition UndoTxOut (ux : UndoCtx) (oracle : option bool) (v : CBettingsView) (tx : CBettingTx) :
    option (CBettingsView * bool) :=
  match tx with
  | PeerlessBetTx t => Some (UndoPeerlessBet ux v t)
  | PeerlessParlayBetTx t => Some (UndoPeerlessParlayBet ux v t)
  | FieldBetTx t => Some (UndoFieldBet ux v t)
  | FieldParlayBetTx t => Some (UndoFieldParlayBet ux v t)
  | ChainGamesBetTx t => Some (UndoChainGamesBet ux v t)
  | QuickGamesBetTx _ => Some (UndoQuickGamesBet ux v)
  | _ => validOracleTx ← oracle;
         if validOracleTx : bool then Some (UndoOracleTx ux v tx) else Some (v, true)
  end.

(** One output: before v3 a transaction recorded as failed is only removed
    from that record. *)
Definition undo_vout (tx : CTransaction) (height i : Z) (txOut : CTxOut) (v : CBettingsView) :
    option (CBettingsView * bool) :=
  match ParseBettingTx (scriptPubKey txOut) with
  | None => Some (v, true)
  | Some bettingTx =>
      let outPoint := {| op_hash := tx_hash tx; op_n := u32 i |} in
      let ux := {| ux_height := height; ux_outPoint := outPoint; ux_bettingTxId := SerializeHash env outPoint |} in
      if negb (ux_v3 ux) && ExistFailedTx v (ux_bettingTxId ux) then
        Some ((EraseFailedTx v (ux_bettingTxId ux)).1, true)
      else UndoTxOut ux (IsValidOracleTx env tx height) v bettingTx
  end.

(** The outputs from the last to the first. *)
Fixpoint undo_vouts (tx : CTransaction) (height : Z) (i : Z) (vout : list CTxOut) (v : CBettingsView) :
    option (CBettingsView * bool) :=
  match vout with
  | [] => Some (v, true)
  | txOut :: vout =>
      '(v, ok) ← undo_vouts tx height (i + 1) vout v;
      if ok : bool then undo_vout tx height i txOut v else Some (v, false)
  end.

Definition UndoBettingTx (v : CBettingsView) (tx : CTransaction) (height : Z) : option (CBettingsView * bool) :=
  undo_vouts tx height 0 (tx_vout tx) v.
End Undo.

(** ** Payout information *)

(** The keys of the given height, read until the first other height. *)
Fixpoint payouts_to_delete (height : Z) (l : list (PeerlessBetKey * CPayoutInfoDB)) : list PeerlessBetKey :=
  match l with
  | [] => []
  | (key, _) :: l =>
      if negb (bk_blockHeight key =? height) then [] else key :: payouts_to_delete height l
  end.

Fixpoint erase_payouts (m : gmap PeerlessBetKey CPayoutInfoDB) (ks : list PeerlessBetKey) :
    gmap PeerlessBetKey CPayoutInfoDB * bool :=
  match ks with
  | [] => (m, true)
  | k :: ks => let '(m, ok) := dbErase m k in if ok then erase_payouts m ks else (m, false)
  end.

Definition UndoPayoutsInfo (v : CBettingsView) (height : Z) : CBettingsView * bool :=
  let entriesToDelete := payouts_to_delete height (dbIterate (payoutsInfo v) (seek_height (u32 height))) in
  let '(m, ok) := erase_payouts (payoutsInfo v) entriesToDelete in
  (v <| payoutsInfo := m |>, ok).
