(* ===== verification/UndoProofs.v ===== *)
(** * Undo restores: theorems on ProcessTx.v and UndoTx.v

    The main theorem: for every type of transaction, undoing an output that
    was accepted and then processed gives back the view it was processed on.
    The conditions are those the block connection provides (fresh keys, events
    stored under their identifiers) and, for bets, that the event is already
    in the level below; the last theorems show what goes wrong without some of
    them. *)

From S2P Require Import Prelude Params BetTx BetDB BetKeys Flushable BetView BetCommon CheckTx.
From S2P Require Import ProcessTx UndoTx.

(** ** Restoring a table from saved entries *)
Section Restore.
Context {E : Type} (idof : E -> Z).

Definition restore (m : gmap Z E) (l : list E) : gmap Z E :=
  foldl (fun m e => (dbUpdate m (idof e) e).1) m l.

(** [saved m l m']: [m'] comes from [m] by changing entries under distinct
    keys, whose old values are [l] in the order of the changes. *)
Inductive saved : gmap Z E -> list E -> gmap Z E -> Prop :=
  | saved_nil m : saved m [] m
  | saved_cons m k e e' l m' :
      m !! k = Some e -> idof e = k -> k ∉ (idof <$> l) ->
      saved (<[k := e']> m) l m' -> saved m (e :: l) m'.

Lemma restore_insert m l k e :
  k ∉ (idof <$> l) -> restore (<[k := e]> m) l = <[k := e]> (restore m l).
Proof.
  revert m. induction l as [|x l IH]; intros m Hk; [done|].
  csimpl in Hk. apply not_elem_of_cons in Hk as [Hx Hl].
  unfold restore. cbn [foldl]. fold (restore (dbUpdate (<[k:=e]> m) (idof x) x).1 l).
  fold (restore (dbUpdate m (idof x) x).1 l). rewrite <- IH by done. f_equal.
  rewrite !dbUpdate_fst, lookup_insert_ne by done.
  destruct (m !! idof x); [|done]. by apply insert_insert_ne.
Qed.

Lemma saved_lookup m l m' k : saved m l m' -> is_Some (m !! k) -> is_Some (m' !! k).
Proof.
  induction 1 as [|m k' e e' l m' Hm Hid Hk Hs IH]; [done|]. intros Hk'. apply IH.
  destruct (decide (k = k')) as [->|]; [rewrite lookup_insert_eq; eauto|by rewrite lookup_insert_ne].
Qed.

Lemma saved_restore m l m' : saved m l m' -> restore m' l = m.
Proof.
  induction 1 as [|m k e e' l m' Hm Hid Hk Hs IH]; [done|].
  unfold restore. cbn [foldl]. fold (restore (dbUpdate m' (idof e) e).1 l).
  assert (is_Some (m' !! k)) as [x Hx].
  { eapply saved_lookup; [done|]. rewrite lookup_insert_eq. eauto. }
  rewrite Hid, dbUpdate_fst, Hx, restore_insert, IH by done.
  by rewrite insert_insert_eq, insert_id.
Qed.

Lemma saved_one m k e e' : m !! k = Some e -> idof e = k -> saved m [e] (<[k := e']> m).
Proof. intros ? ?. econstructor; [done|done|apply not_elem_of_nil|constructor]. Qed.
End Restore.

(** The identifier of a stored event. *)
Definition ev_id (e : CPeerlessExtendedEventDB) : Z := be_nEventId e.

(** ** Well-formed views: events and results are stored under their ids. *)
Definition keyed {E} (idof : E -> Z) (m : gmap Z E) : Prop :=
  forall id e, m !! id = Some e -> idof e = id.

Record view_wf (v : CBettingsView) : Prop := {
  wf_events : keyed ev_id (events v);
  wf_fieldEvents : keyed fev_nEventId (fieldEvents v);
  wf_results : keyed rs_nEventId (results v);
  wf_fieldResults : keyed frs_nEventId (fieldResults v);
}.

(** A view without the undo record and the bets of an output. *)
Record fresh_for (v : CBettingsView) (ux : UndoCtx) : Prop := {
  fresh_undo : undos v !! UndoTxKey (ux_bettingTxId ux) = None;
  fresh_bet : bets v !! ux_key ux = None;
  fresh_fieldBet : fieldBets v !! ux_key ux = None;
  fresh_cgBet : chainGamesLottoBets v !! ux_key ux = None;
  fresh_qgBet : quickGamesBets v !! ux_key ux = None;
}.

(** ** UndoEventChanges *)
Lemma SaveBettingUndo_fresh v key us :
  undos v !! UndoTxKey key = None ->
  SaveBettingUndo v key us = Some (v <| undos := <[UndoTxKey key := UndoVector us]> (undos v) |>).
Proof. intros H. unfold SaveBettingUndo. by rewrite dbExists_None, dbWrite_None. Qed.

Lemma foldl_undo_peerless cx v es :
  foldl undo_one v ((fun e => undo_of cx (UndoPeerlessEvent e)) <$> es) =
  v <| events := restore ev_id (events v) es |>.
Proof.
  revert v. induction es as [|e es IH]; intros v; [by destruct v|]. csimpl. rewrite IH. done.
Qed.

Lemma foldl_undo_field cx v es :
  foldl undo_one v ((fun e => undo_of cx (UndoFieldEvent e)) <$> es) =
  v <| fieldEvents := restore fev_nEventId (fieldEvents v) es |>.
Proof.
  revert v. induction es as [|e es IH]; intros v; [by destruct v|]. csimpl. rewrite IH. done.
Qed.

Lemma UndoEventChanges_stored v key us (m : gmap UndosKey UndosValue) :
  undos v = <[UndoTxKey key := UndoVector us]> m -> m !! UndoTxKey key = None ->
  (forall v', foldl undo_one v us = v' -> undos v' = undos v) ->
  UndoEventChanges v key = ((foldl undo_one v us) <| undos := m |>, true).
Proof.
  intros Hu Hm Hf. unfold UndoEventChanges, GetBettingUndo, dbRead. simpl sRead.
  rewrite Hu, lookup_insert_eq. unfold EraseBettingUndo.
  rewrite (Hf _ eq_refl), Hu. erewrite dbErase_Some by apply lookup_insert_eq.
  by rewrite delete_insert_id.
Qed.

(** The undo of a handler that saved peerless events [es] under its key. *)
Lemma UndoEventChanges_peerless cx v v' key es :
  undos v !! UndoTxKey key = None ->
  undos v' = <[UndoTxKey key := UndoVector ((fun e => undo_of cx (UndoPeerlessEvent e)) <$> es)]> (undos v) ->
  saved ev_id (events v) es (events v') ->
  UndoEventChanges v' key = (v' <| undos := undos v |> <| events := events v |>, true).
Proof.
  intros Hf Hu Hs. rewrite (UndoEventChanges_stored v' key _ (undos v) Hu Hf).
  - rewrite foldl_undo_peerless. by rewrite (saved_restore _ _ _ _ Hs).
  - intros ? <-. by rewrite foldl_undo_peerless.
Qed.

Lemma UndoEventChanges_field cx v v' key es :
  undos v !! UndoTxKey key = None ->
  undos v' = <[UndoTxKey key := UndoVector ((fun e => undo_of cx (UndoFieldEvent e)) <$> es)]> (undos v) ->
  saved fev_nEventId (fieldEvents v) es (fieldEvents v') ->
  UndoEventChanges v' key = (v' <| undos := undos v |> <| fieldEvents := fieldEvents v |>, true).
Proof.
  intros Hf Hu Hs. rewrite (UndoEventChanges_stored v' key _ (undos v) Hu Hf).
  - rewrite foldl_undo_field. by rewrite (saved_restore _ _ _ _ Hs).
  - intros ? <-. by rewrite foldl_undo_field.
Qed.

(** ** The loops over several events *)
Lemma count_parlay_leg_id e o : ev_id (count_parlay_leg e o) = ev_id e.
Proof. unfold count_parlay_leg. by repeat case_match. Qed.

Lemma accumulate_bet_id e c o a : ev_id (accumulate_bet e c o a) = ev_id e.
Proof. unfold accumulate_bet. by repeat case_match. Qed.

Lemma parlay_legs_saved gv cx evs legs :
  (forall id e, evs !! id = Some e -> ev_id e = id) ->
  NoDup (leg_nEventId <$> legs) ->
  exists evs' locked es,
    parlay_legs gv cx evs legs = (evs', locked, (fun e => undo_of cx (UndoPeerlessEvent e)) <$> es) /\
    saved ev_id evs es evs' /\
    (forall e, e ∈ es -> ev_id e ∈ (leg_nEventId <$> legs)) /\
    (forall id e, evs' !! id = Some e -> ev_id e = id).
Proof.
  revert evs. induction legs as [|leg legs IH]; intros evs Hwf Hnd; cbn [parlay_legs].
  { exists evs, [], []. split_and!; [done|constructor|set_solver|done]. }
  csimpl in Hnd. apply NoDup_cons in Hnd as [Hleg Hnd].
  change (dbRead evs ?k) with (evs !! k).
  destruct (dbRead (events gv) (leg_nEventId leg)) as [c|];
    [destruct (evs !! leg_nEventId leg) as [e|] eqn:Ee|].
  2, 3: destruct (IH evs Hwf Hnd) as (evs' & locked & es & E & Hs & Hin & Hwf');
    exists evs', locked, es; split_and!; [done|done| |done];
    intros e' He'; csimpl; apply elem_of_cons; right; by apply Hin.
  rewrite (dbUpdate_Some evs _ _ e Ee). cbn [fst].
  set (e' := count_parlay_leg e (leg_nOutcome leg)).
  assert (forall id x, <[leg_nEventId leg := e']> evs !! id = Some x -> ev_id x = id) as Hwf1.
  { intros id x. destruct (decide (id = leg_nEventId leg)) as [->|].
    - rewrite lookup_insert_eq. intros [= <-]. unfold e'. rewrite count_parlay_leg_id. by apply Hwf.
    - rewrite lookup_insert_ne by done. apply Hwf. }
  destruct (IH _ Hwf1 Hnd) as (evs' & locked & es & E & Hs & Hin & Hwf').
  rewrite E. eexists evs', _, (e :: es). split_and!; [done| | |done].
  - eapply saved_cons; [done|by apply Hwf| |done]. intros Hk.
    apply list_elem_of_fmap in Hk as (x & Hx & Hxin). apply Hleg. rewrite Hx. by apply Hin.
  - intros x Hx. csimpl. apply elem_of_cons. apply elem_of_cons in Hx as [->|Hx]; [left|right; auto].
    by apply Hwf.
Qed.

Lemma count_field_leg_id e o c : fev_nEventId (count_field_leg e o c) = fev_nEventId e.
Proof. unfold count_field_leg. by repeat case_match. Qed.

Lemma field_parlay_legs_saved gv cx evs legs :
  (forall id e, evs !! id = Some e -> fev_nEventId e = id) ->
  NoDup (fleg_nEventId <$> legs) ->
  exists evs' locked es,
    field_parlay_legs gv cx evs legs = (evs', locked, (fun e => undo_of cx (UndoFieldEvent e)) <$> es) /\
    saved fev_nEventId evs es evs' /\
    (forall e, e ∈ es -> fev_nEventId e ∈ (fleg_nEventId <$> legs)) /\
    (forall id e, evs' !! id = Some e -> fev_nEventId e = id).
Proof.
  revert evs. induction legs as [|leg legs IH]; intros evs Hwf Hnd; cbn [field_parlay_legs].
  { exists evs, [], []. split_and!; [done|constructor|set_solver|done]. }
  csimpl in Hnd. apply NoDup_cons in Hnd as [Hleg Hnd].
  change (dbRead evs ?k) with (evs !! k).
  destruct (dbRead (fieldEvents gv) (fleg_nEventId leg)) as [c|];
    [destruct (evs !! fleg_nEventId leg) as [e|] eqn:Ee|].
  2, 3: destruct (IH evs Hwf Hnd) as (evs' & locked & es & E & Hs & Hin & Hwf');
    exists evs', locked, es; split_and!; [done|done| |done];
    intros e' He'; csimpl; apply elem_of_cons; right; by apply Hin.
  rewrite (dbUpdate_Some evs _ _ e Ee). cbn [fst].
  set (e' := count_field_leg e (fleg_nOutcome leg) (fleg_nContenderId leg)).
  assert (forall id x, <[fleg_nEventId leg := e']> evs !! id = Some x -> fev_nEventId x = id) as Hwf1.
  { intros id x. destruct (decide (id = fleg_nEventId leg)) as [->|].
    - rewrite lookup_insert_eq. intros [= <-]. unfold e'. rewrite count_field_leg_id. by apply Hwf.
    - rewrite lookup_insert_ne by done. apply Hwf. }
  destruct (IH _ Hwf1 Hnd) as (evs' & locked & es & E & Hs & Hin & Hwf').
  rewrite E. eexists evs', _, (e :: es). split_and!; [done| | |done].
  - eapply saved_cons; [done|by apply Hwf| |done]. intros Hk.
    apply list_elem_of_fmap in Hk as (x & Hx & Hxin). apply Hleg. rewrite Hx. by apply Hin.
  - intros x Hx. csimpl. apply elem_of_cons. apply elem_of_cons in Hx as [->|Hx]; [left|right; auto].
    by apply Hwf.
Qed.

Lemma zero_events_saved cx evs ids :
  (forall id e, evs !! id = Some e -> ev_id e = id) ->
  NoDup ids ->
  exists evs' es,
    zero_events cx evs ids = (evs', (fun e => undo_of cx (UndoPeerlessEvent e)) <$> es) /\
    saved ev_id evs es evs' /\
    (forall e, e ∈ es -> ev_id e ∈ ids) /\
    (forall id e, evs' !! id = Some e -> ev_id e = id).
Proof.
  revert evs. induction ids as [|id ids IH]; intros evs Hwf Hnd; cbn [zero_events].
  { exists evs, []. split_and!; [done|constructor|set_solver|done]. }
  apply NoDup_cons in Hnd as [Hid Hnd].
  change (dbRead evs ?k) with (evs !! k). destruct (evs !! id) as [e|] eqn:Ee.
  2: { destruct (IH evs Hwf Hnd) as (evs' & es & E & Hs & Hin & Hwf'). exists evs', es.
       split_and!; [done|done| |done]. intros e' He'. apply elem_of_cons. right. by apply Hin. }
  rewrite (dbUpdate_Some evs _ _ e Ee). cbn [fst].
  assert (forall id' x, <[id := e <| ee_base ::= zero_event_odds |>]> evs !! id' = Some x ->
    ev_id x = id') as Hwf1.
  { intros id' x. destruct (decide (id' = id)) as [->|].
    - rewrite lookup_insert_eq. intros [= <-]. exact (Hwf id e Ee).
    - rewrite lookup_insert_ne by done. apply Hwf. }
  destruct (IH _ Hwf1 Hnd) as (evs' & es & E & Hs & Hin & Hwf').
  rewrite E. eexists evs', (e :: es). split_and!; [done| | |done].
  - eapply saved_cons; [done|by apply Hwf| |done]. intros Hk.
    apply list_elem_of_fmap in Hk as (x & Hx & Hxin). apply Hid. rewrite Hx. by apply Hin.
  - intros x Hx. apply elem_of_cons. apply elem_of_cons in Hx as [->|Hx]; [left|right; auto].
    by apply Hwf.
Qed.

(** ** One output: process, then undo *)

(** The undo context of a processed output. *)
Definition ux_of (cx : TxCtx) : UndoCtx :=
  {| ux_height := u32 (cx_height cx); ux_outPoint := cx_outPoint cx; ux_bettingTxId := cx_bettingTxId cx |}.

Lemma view_eta (v : CBettingsView) :
  v <| undos := undos v |> <| events := events v |> <| bets := bets v |> = v.
Proof. by destruct v. Qed.

Section RoundTrip.
Context (env : ChainEnv) (gv : CBettingsView) (cx : TxCtx) (v : CBettingsView).
Context (Hv3 : cx_v3 cx = true) (Hux3 : ux_v3 env (ux_of cx) = true).
Context (Hux4 : ux_v4 env (ux_of cx) = v4_active env).
Context (Hwf : view_wf v) (Hfresh : fresh_for v (ux_of cx)).

Lemma v4_test : (ChainActiveHeight env <? V4 env) = negb (v4_active env).
Proof. unfold v4_active. by rewrite Z.leb_antisym, negb_involutive. Qed.

Lemma fresh_key : undos v !! UndoTxKey (cx_bettingTxId cx) = None.
Proof. apply (fresh_undo _ _ Hfresh). Qed.

Lemma PeerlessBet_undo t :
  is_Some (events gv !! pb_nEventId t) -> is_Some (events v !! pb_nEventId t) ->
  exists v', ProcessPeerlessBet gv cx v t = Some v' /\ UndoPeerlessBet (ux_of cx) v' t = (v, true).
Proof.
  intros [c Hc] [e He]. unfold ProcessPeerlessBet. change (dbRead ?m ?k) with (m !! k).
  rewrite Hc, He, SaveBettingUndo_fresh by apply fresh_key. cbn [mbind option_bind].
  rewrite (dbUpdate_Some (events _) _ _ e He). cbn [fst].
  eexists. split; [reflexivity|]. unfold UndoPeerlessBet. simpl events.
  rewrite (dbExists_Some _ _ _ (lookup_insert_eq _ _ _)).
  erewrite (UndoEventChanges_peerless cx v _ (cx_bettingTxId cx) [e]);
    [|apply fresh_key|done|by apply saved_one; [|apply (wf_events _ Hwf)]].
  simpl bets. rewrite (dbWrite_None (bets v) (bet_key cx)) by apply (fresh_bet _ _ Hfresh). cbn [fst].
  rewrite dbErase_fst. change (ux_key (ux_of cx)) with (bet_key cx).
  rewrite delete_insert_id by apply (fresh_bet _ _ Hfresh). by destruct v.
Qed.

Lemma forallb_exists {A E} (f : A -> Z) (l : list A) (m m' : gmap Z E) :
  Forall (fun x => is_Some (m !! f x)) l -> (forall k, is_Some (m !! k) -> is_Some (m' !! k)) ->
  forallb (fun x => dbExists m' (f x)) l = true.
Proof.
  intros Hl Hm. apply (forallb_Forall _ (fun x => is_Some (m' !! f x))); [intros; apply dbExists_true|].
  eapply Forall_impl; [exact Hl|]. simpl. auto.
Qed.

Lemma PeerlessParlayBet_undo t :
  NoDup (pb_nEventId <$> ppb_legs t) ->
  Forall (fun leg => is_Some (events v !! pb_nEventId leg)) (ppb_legs t) ->
  exists v', ProcessPeerlessParlayBet gv cx v t = Some v' /\
    UndoPeerlessParlayBet env (ux_of cx) v' t = (v, true).
Proof.
  intros Hnd Hev. unfold ProcessPeerlessParlayBet, UndoPeerlessParlayBet. rewrite Hv3, Hux3. cbn [negb].
  destruct (ppb_legs t) as [|l ls] eqn:El; [eexists; split; [reflexivity|by destruct v]|].
  cbv zeta. set (legs := _ <$> l :: ls).
  assert (NoDup (leg_nEventId <$> legs)) as Hnd'.
  { unfold legs. rewrite <- list_fmap_compose. exact Hnd. }
  destruct (parlay_legs_saved gv cx (events v) legs (wf_events _ Hwf) Hnd')
    as (evs' & locked & es & -> & Hs & _ & _).
  rewrite SaveBettingUndo_fresh by apply fresh_key. cbn [legs fmap list_fmap mbind option_bind].
  eexists. split; [reflexivity|].
  rewrite (forallb_exists _ _ (events v)) by (done || intros k Hk; by eapply saved_lookup).
  cbn [length Nat.ltb Nat.leb andb].
  erewrite (UndoEventChanges_peerless cx v _ (cx_bettingTxId cx) es); [|apply fresh_key|done|done].
  simpl bets. rewrite (dbWrite_None (bets v) (bet_key cx)) by apply (fresh_bet _ _ Hfresh). cbn [fst].
  rewrite dbErase_fst. change (ux_key (ux_of cx)) with (bet_key cx).
  rewrite delete_insert_id by apply (fresh_bet _ _ Hfresh). by destruct v.
Qed.

Lemma FieldBet_undo t :
  is_Some (fieldEvents gv !! fb_nEventId t) -> is_Some (fieldEvents v !! fb_nEventId t) ->
  exists v', ProcessFieldBet env gv cx v t = Some v' /\ UndoFieldBet env (ux_of cx) v' t = (v, true).
Proof.
  intros [c Hc] [e He]. unfold ProcessFieldBet, UndoFieldBet. rewrite v4_test, Hux4.
  destruct (v4_active env); [|by eexists]. cbn [negb].
  change (dbRead ?m ?k) with (m !! k). rewrite Hc, He, SaveBettingUndo_fresh by apply fresh_key.
  cbn [mbind option_bind]. destruct (accumulate_field_bet _ _ _ _ _) as [e' c'].
  rewrite (dbUpdate_Some (fieldEvents _) _ _ e He). cbn [fst].
  eexists. split; [reflexivity|]. simpl fieldEvents.
  rewrite (dbExists_Some _ _ _ (lookup_insert_eq _ _ _)). cbn [negb].
  erewrite (UndoEventChanges_field cx v _ (cx_bettingTxId cx) [e]);
    [|apply fresh_key|done|by apply saved_one; [|apply (wf_fieldEvents _ Hwf)]].
  simpl fieldBets. rewrite (dbWrite_None (fieldBets v) (bet_key cx)) by apply (fresh_fieldBet _ _ Hfresh).
  cbn [fst]. rewrite dbErase_fst. change (ux_key (ux_of cx)) with (bet_key cx).
  rewrite delete_insert_id by apply (fresh_fieldBet _ _ Hfresh). by destruct v.
Qed.

Lemma FieldParlayBet_undo t :
  NoDup (fb_nEventId <$> fpb_legs t) ->
  Forall (fun leg => is_Some (fieldEvents v !! fb_nEventId leg)) (fpb_legs t) ->
  exists v', ProcessFieldParlayBet env gv cx v t = Some v' /\
    UndoFieldParlayBet env (ux_of cx) v' t = (v, true).
Proof.
  intros Hnd Hev. unfold ProcessFieldParlayBet, UndoFieldParlayBet. rewrite v4_test, Hux4.
  destruct (v4_active env); [|by eexists]. cbn [negb].
  destruct (fpb_legs t) as [|l ls] eqn:El; [eexists; split; [reflexivity|by destruct v]|].
  cbv zeta. set (legs := _ <$> l :: ls).
  assert (NoDup (fleg_nEventId <$> legs)) as Hnd'.
  { unfold legs. rewrite <- list_fmap_compose. exact Hnd. }
  destruct (field_parlay_legs_saved gv cx (fieldEvents v) legs (wf_fieldEvents _ Hwf) Hnd')
    as (evs' & locked & es & -> & Hs & _ & _).
  rewrite SaveBettingUndo_fresh by apply fresh_key. cbn [legs fmap list_fmap mbind option_bind].
  eexists. split; [reflexivity|].
  rewrite (forallb_exists _ _ (fieldEvents v)) by (done || intros k Hk; by eapply saved_lookup).
  cbn [length Nat.ltb Nat.leb andb].
  erewrite (UndoEventChanges_field cx v _ (cx_bettingTxId cx) es); [|apply fresh_key|done|done].
  simpl fieldBets. rewrite (dbWrite_None (fieldBets v) (bet_key cx)) by apply (fresh_fieldBet _ _ Hfresh).
  cbn [fst]. rewrite dbErase_fst. change (ux_key (ux_of cx)) with (bet_key cx).
  rewrite delete_insert_id by apply (fresh_fieldBet _ _ Hfresh). by destruct v.
Qed.

Lemma ChainGamesBet_undo t :
  is_Some (chainGamesLottoEvents gv !! cgb_nEventId t) -> cx_height cx < QuickGamesEndHeight (Params env) ->
  exists v', ProcessChainGamesBet env gv cx v t = Some v' /\
    UndoChainGamesBet env gv (ux_of cx) v' t = (v, true).
Proof.
  intros [e He] Hh. unfold ProcessChainGamesBet, UndoChainGamesBet.
  rewrite Hv3, Hux3, (dbExists_Some _ _ e He). cbn [negb].
  replace (QuickGamesEndHeight (Params env) <=? cx_height cx) with false by lia.
  eexists. split; [reflexivity|]. simpl chainGamesLottoBets.
  rewrite (dbWrite_None _ (bet_key cx)) by apply (fresh_cgBet _ _ Hfresh). cbn [fst].
  change (ux_key (ux_of cx)) with (bet_key cx). erewrite dbErase_Some by apply lookup_insert_eq.
  rewrite delete_insert_id by apply (fresh_cgBet _ _ Hfresh). by destruct v.
Qed.

Lemma QuickGamesBet_undo t :
  cx_height cx < QuickGamesEndHeight (Params env) ->
  exists v', ProcessQuickGamesBet env cx v t = Some v' /\ UndoQuickGamesBet env (ux_of cx) v' = (v, true).
Proof.
  intros Hh. unfold ProcessQuickGamesBet, UndoQuickGamesBet. rewrite Hv3, Hux3. cbn [negb].
  replace (QuickGamesEndHeight (Params env) <=? cx_height cx) with false by lia.
  eexists. split; [reflexivity|]. simpl quickGamesBets.
  rewrite (dbWrite_None _ (bet_key cx)) by apply (fresh_qgBet _ _ Hfresh). cbn [fst].
  change (ux_key (ux_of cx)) with (bet_key cx). erewrite dbErase_Some by apply lookup_insert_eq.
  rewrite delete_insert_id by apply (fresh_qgBet _ _ Hfresh). by destruct v.
Qed.

(** *** Oracle transactions *)
Lemma Mapping_undo t :
  (v4_mapping (map_nMType t) = true -> v4_active env = true) ->
  mappings v !! {| mk_nMType := map_nMType t; mk_nId := map_nId t |} = None ->
  exists v', ProcessMapping env cx v t = Some v' /\ UndoMapping env (ux_of cx) v' t = (v, true).
Proof.
  intros H4 Hm. unfold ProcessMapping, UndoMapping. rewrite v4_test, Hux4.
  assert (v4_mapping (map_nMType t) && negb (v4_active env) = false) as E.
  { destruct (v4_mapping _); [|done]. by rewrite H4. }
  rewrite (andb_comm (negb _)), E, dbWrite_None by done.
  eexists. split; [reflexivity|]. simpl mappings.
  rewrite (dbExists_Some _ _ _ (lookup_insert_eq _ _ _)).
  erewrite dbErase_Some by apply lookup_insert_eq. rewrite delete_insert_id by done. by destruct v.
Qed.

Lemma PeerlessEvent_undo t :
  events v !! pe_nEventId t = None ->
  exists v', ProcessPeerlessEvent cx v t = Some v' /\ UndoPeerlessEvent_tx env (ux_of cx) v' t = (v, true).
Proof.
  intros He. unfold ProcessPeerlessEvent, UndoPeerlessEvent_tx. rewrite Hv3, Hux3. cbn [negb andb].
  cbv zeta. change (be_nEventId _) with (pe_nEventId t).
  rewrite dbWrite_None by done. eexists. split; [reflexivity|]. simpl events.
  rewrite (dbExists_Some _ _ _ (lookup_insert_eq _ _ _)).
  erewrite dbErase_Some by apply lookup_insert_eq. rewrite delete_insert_id by done. by destruct v.
Qed.

Lemma ExtractFieldEvent_id e t : fev_nEventId (ExtractFieldEvent e t) = fe_nEventId t.
Proof.
  unfold ExtractFieldEvent. set (e0 := e <| fev_nEventId := _ |> <| fev_nStartTime := _ |> <| fev_nSport := _ |>
    <| fev_nTournament := _ |> <| fev_nStage := _ |> <| fev_nGroupType := _ |> <| fev_nMarketType := _ |>
    <| fev_nMarginPercent := _ |>).
  assert (fev_nEventId e0 = fe_nEventId t) as <- by done. clearbody e0.
  induction (sorted_entries _) as [|[id odds] l IH] in e0 |- *; [done|]. cbn [foldl]. by rewrite IH.
Qed.

Lemma FieldEvent_undo t :
  fieldEvents v !! fe_nEventId t = None ->
  exists v', ProcessFieldEvent env v t = Some v' /\ UndoFieldEvent_tx env (ux_of cx) v' t = (v, true).
Proof.
  intros He. unfold ProcessFieldEvent, UndoFieldEvent_tx. rewrite v4_test, Hux4.
  destruct (v4_active env); [|by eexists]. cbn [negb]. cbv zeta.
  rewrite CalcOdds_nEventId, ExtractFieldEvent_id, dbWrite_None by done. eexists. split; [reflexivity|].
  cbn [fst]. simpl fieldEvents. rewrite (dbExists_Some _ _ _ (lookup_insert_eq _ _ _)).
  erewrite dbErase_Some by apply lookup_insert_eq. rewrite delete_insert_id by done. by destruct v.
Qed.

Lemma FieldUpdate_undo id f :
  exists v', update_field_event env cx v id f = Some v' /\ UndoFieldUpdate env (ux_of cx) v' id = (v, true).
Proof.
  unfold update_field_event, UndoFieldUpdate. rewrite v4_test, Hux4.
  destruct (v4_active env); [|by eexists]. cbn [negb]. change (dbRead ?m ?k) with (m !! k).
  destruct (fieldEvents v !! id) as [e|] eqn:He.
  - rewrite SaveBettingUndo_fresh by apply fresh_key. cbn [mbind option_bind].
    rewrite (dbUpdate_Some (fieldEvents _) _ _ e He). cbn [fst].
    eexists. split; [reflexivity|]. simpl fieldEvents.
    rewrite (dbExists_Some _ _ _ (lookup_insert_eq _ _ _)).
    erewrite (UndoEventChanges_field cx v _ (cx_bettingTxId cx) [e]);
      [|apply fresh_key|done|by apply saved_one; [|apply (wf_fieldEvents _ Hwf)]].
    by destruct v.
  - eexists. split; [reflexivity|]. by rewrite dbExists_None.
Qed.

Lemma Update_undo id f :
  exists v', update_event cx v id f = Some v' /\ UndoUpdate (ux_of cx) v' id = (v, true).
Proof.
  unfold update_event, UndoUpdate, save_failed. rewrite Hv3. change (dbRead ?m ?k) with (m !! k).
  destruct (events v !! id) as [e|] eqn:He.
  - rewrite SaveBettingUndo_fresh by apply fresh_key. cbn [mbind option_bind].
    rewrite (dbUpdate_Some (events _) _ _ e He). cbn [fst].
    eexists. split; [reflexivity|]. simpl events.
    rewrite (dbExists_Some _ _ _ (lookup_insert_eq _ _ _)).
    erewrite (UndoEventChanges_peerless cx v _ (cx_bettingTxId cx) [e]);
      [|apply fresh_key|done|by apply saved_one; [|apply (wf_events _ Hwf)]].
    by destruct v.
  - eexists. split; [reflexivity|]. by rewrite dbExists_None.
Qed.

Lemma FieldResult_undo t ids :
  field_result_type_ok (fr_nResultType t) = true ->
  is_Some (fieldEvents v !! fr_nEventId t) -> fieldResults v !! fr_nEventId t = None ->
  exists v' ids', ProcessFieldResult env v ids t = Some (v', ids') /\
    UndoFieldResult env (ux_of cx) v' t = (v, true).
Proof.
  intros Hty [e He] Hr. unfold ProcessFieldResult, UndoFieldResult. rewrite v4_test, Hux4, Hty.
  destruct (v4_active env); [|by do 2 eexists]. cbn [negb]. change (dbRead ?m ?k) with (m !! k).
  rewrite He, dbWrite_None by done. do 2 eexists. split; [reflexivity|]. simpl fieldEvents. simpl fieldResults.
  rewrite (dbExists_Some _ _ e He), (dbExists_Some _ _ _ (lookup_insert_eq _ _ _)). cbn [negb].
  erewrite dbErase_Some by apply lookup_insert_eq. rewrite delete_insert_id by done. by destruct v.
Qed.

Lemma PeerlessResult_undo t ids :
  is_Some (events v !! pr_nEventId t) -> results v !! pr_nEventId t = None ->
  exists v' ids', ProcessPeerlessResult cx v ids t = Some (v', ids') /\
    UndoPeerlessResult v' t = (v, true).
Proof.
  intros [e He] Hr. unfold ProcessPeerlessResult, UndoPeerlessResult. rewrite Hv3. cbn [negb andb].
  cbv zeta. rewrite (dbExists_Some _ _ e He), dbWrite_None by done. cbn [negb].
  do 2 eexists. split; [reflexivity|]. simpl results.
  rewrite (dbExists_Some _ _ _ (lookup_insert_eq _ _ _)).
  erewrite dbErase_Some by apply lookup_insert_eq. rewrite delete_insert_id by done. by destruct v.
Qed.

Lemma ChainGamesEvent_undo t :
  cx_height cx < QuickGamesEndHeight (Params env) -> chainGamesLottoEvents v !! cge_nEventId t = None ->
  exists v', ProcessChainGamesEvent env cx v t = Some v' /\ UndoChainGamesEvent env (ux_of cx) v' t = (v, true).
Proof.
  intros Hh He. unfold ProcessChainGamesEvent, UndoChainGamesEvent. rewrite Hv3, Hux3. cbn [negb].
  replace (QuickGamesEndHeight (Params env) <=? cx_height cx) with false by lia.
  eexists. split; [reflexivity|]. simpl chainGamesLottoEvents. rewrite dbWrite_None by done. cbn [fst].
  erewrite dbErase_Some by apply lookup_insert_eq. rewrite delete_insert_id by done. by destruct v.
Qed.

Lemma ChainGamesResult_undo t ids :
  cx_height cx < QuickGamesEndHeight (Params env) ->
  is_Some (chainGamesLottoEvents v !! cgr_nEventId t) -> chainGamesLottoResults v !! cgr_nEventId t = None ->
  exists v' ids', ProcessChainGamesResult env cx v ids t = Some (v', ids') /\
    UndoChainGamesResult env (ux_of cx) v' t = (v, true).
Proof.
  intros Hh [e He] Hr. unfold ProcessChainGamesResult, UndoChainGamesResult. rewrite Hv3, Hux3. cbn [negb].
  replace (QuickGamesEndHeight (Params env) <=? cx_height cx) with false by lia.
  rewrite (dbExists_Some _ _ e He), dbWrite_None by done. cbn [negb].
  do 2 eexists. split; [reflexivity|]. simpl chainGamesLottoResults.
  erewrite dbErase_Some by apply lookup_insert_eq. rewrite delete_insert_id by done. by destruct v.
Qed.

Lemma EventZeroingOdds_undo t :
  pez_vEventIds t <> [] -> NoDup (pez_vEventIds t) ->
  Forall (fun id => is_Some (events v !! id)) (pez_vEventIds t) ->
  exists v', ProcessEventZeroingOdds env cx v t = Some v' /\
    UndoEventZeroingOdds env (ux_of cx) v' t = (v, true).
Proof.
  intros Hne Hnd Hev. unfold ProcessEventZeroingOdds, UndoEventZeroingOdds. rewrite v4_test, Hux4.
  destruct (v4_active env); [|by eexists]. cbn [negb].
  destruct (zero_events_saved cx (events v) (pez_vEventIds t) (wf_events _ Hwf) Hnd)
    as (evs' & es & E & Hs & _ & _). rewrite E.
  assert (es <> []) as Hes.
  { destruct (pez_vEventIds t) as [|id ids]; [done|]. cbn [zero_events] in E.
    apply Forall_cons in Hev as [[e He] _]. change (dbRead ?m ?k) with (m !! k) in E.
    rewrite He in E. destruct (zero_events _ _ _). intros ->. simpl in E. congruence. }
  destruct es as [|e0 es0]; [done|]. cbn [fmap list_fmap].
  rewrite SaveBettingUndo_fresh by apply fresh_key. eexists. split; [reflexivity|]. simpl events.
  rewrite (forallb_exists (fun x => x) _ (events v)) by (done || intros k Hk; by eapply saved_lookup).
  erewrite (UndoEventChanges_peerless cx v _ (cx_bettingTxId cx) (e0 :: es0)); [|apply fresh_key|done|done].
  by destruct v.
Qed.
End RoundTrip.

(** What the undo relies on beyond acceptance: the event of a bet is already
    in the level below (it was created in an earlier block), and a zeroing
    transaction names at least one event and none twice. *)
Definition undo_supported (gv : CBettingsView) (tx : CBettingTx) : Prop :=
  match tx with
  | PeerlessBetTx t => is_Some (events gv !! pb_nEventId t)
  | FieldBetTx t => is_Some (fieldEvents gv !! fb_nEventId t)
  | ChainGamesBetTx t => is_Some (chainGamesLottoEvents gv !! cgb_nEventId t)
  | PeerlessEventZeroingOddsTx t => pez_vEventIds t <> [] /\ NoDup (pez_vEventIds t)
  | _ => True
  end.

(** What acceptance gives to the undo of bets and of zeroing transactions. *)
Lemma accepted_parlay env v t amount :
  CheckPeerlessParlayBet env v t amount = true ->
  NoDup (pb_nEventId <$> ppb_legs t) /\
  Forall (fun leg => is_Some (events v !! pb_nEventId leg)) (ppb_legs t).
Proof.
  unfold CheckPeerlessParlayBet. cbv zeta. rewrite !andb_true_iff, distinct_ids_empty.
  rewrite (forallb_Forall _ _ _ (CheckParlayLeg_spec env v)). intros [[_ Hnd] Hl]. split; [done|].
  eapply Forall_impl; [exact Hl|]. intros leg (e & He & _). by exists e.
Qed.

Lemma accepted_field_parlay env v t amount :
  CheckFieldParlayBet env v t amount = true ->
  NoDup (fb_nEventId <$> fpb_legs t) /\
  Forall (fun leg => is_Some (fieldEvents v !! fb_nEventId leg)) (fpb_legs t).
Proof.
  unfold CheckFieldParlayBet. cbv zeta. rewrite !andb_true_iff, distinct_ids_empty.
  rewrite (forallb_Forall _ _ _ (CheckFieldParlayLeg_spec v)). intros [_ [[_ Hnd] Hl]]. split; [done|].
  eapply Forall_impl; [exact Hl|]. intros leg (e & c & He & _). by exists e.
Qed.

Lemma CheckFieldBet_event env v t amount :
  CheckFieldBet env v t amount = true -> is_Some (fieldEvents v !! fb_nEventId t).
Proof.
  unfold CheckFieldBet. rewrite !andb_true_iff, CheckFieldLeg_spec.
  intros [_ (e & c & He & _)]. by exists e.
Qed.

Lemma accepted_height env (b : bool) h :
  (if QuickGamesEndHeight (Params env) <=? h then false else b) = true ->
  h < QuickGamesEndHeight (Params env) /\ b = true.
Proof. destruct (Z.leb_spec (QuickGamesEndHeight (Params env)) h); [done|]. intros. split; [lia|done]. Qed.

(** From a handler's round trip to that of the switch. *)
Lemma undo_handler ids (p : option CBettingsView) (u : CBettingsView -> CBettingsView * bool) v :
  (exists v', p = Some v' /\ u v' = (v, true)) ->
  exists v' ids', with_ids ids p = Some (v', ids') /\ Some (u v') = Some (v, true).
Proof. intros (v' & -> & Hu). exists v', ids. split; [done|]. by rewrite Hu. Qed.

Lemma undo_handler_ids (p : option (CBettingsView * list Z)) (u : CBettingsView -> CBettingsView * bool) v :
  (exists v' ids', p = Some (v', ids') /\ u v' = (v, true)) ->
  exists v' ids', p = Some (v', ids') /\ Some (u v') = Some (v, true).
Proof. intros (v' & ids' & -> & Hu). exists v', ids'. split; [done|]. by rewrite Hu. Qed.

(** The input is an oracle's, where the type needs one. *)
Definition oracle_prevout (env : ChainEnv) (cx : TxCtx) (prevOut : option CTxOut) (tx : CBettingTx) : Prop :=
  is_oracle_tx (GetTxType tx) = true ->
  exists out, prevOut = Some out /\ IsValidOraclePrevTxOut env out (cx_height cx) = true.

(** Undoing an accepted transaction restores the view.  From v3 on, for
    every transaction type: on a well-formed view without the transaction's
    own keys, processing an accepted output succeeds, and undoing it succeeds
    and gives back exactly the view it was processed on, all fourteen tables. *)
Lemma UndoTxOut_ProcessTxOut env gv cx v ids tx valid prevOut :
  V3 env <= cx_height cx -> cx_v3 cx = true ->
  ux_v3 env (ux_of cx) = true -> ux_v4 env (ux_of cx) = v4_active env ->
  view_wf v -> fresh_for v (ux_of cx) ->
  CheckBettingTx env v (Some tx) (cx_betAmount cx) valid (cx_height cx) = true ->
  oracle_prevout env cx prevOut tx ->
  undo_supported gv tx ->
  exists v' ids', ProcessTxOut env gv cx prevOut v ids tx = Some (v', ids') /\
    UndoTxOut env gv (ux_of cx) (Some valid) v' tx = Some (v, true).
Proof.
  intros Hh Hv3 Hux3 Hux4 Hwf Hfresh Hchk Hor Hs.
  pose proof (CheckBettingTx_needs_oracle env v tx (cx_betAmount cx) valid (cx_height cx) Hh Hchk) as Hvalid.
  unfold CheckBettingTx in Hchk.
  replace (cx_height cx <? V3 env) with false in Hchk by lia.
  destruct (Spork20 env <=? cx_height cx); [done|].
  unfold oracle_prevout in Hor. unfold ProcessTxOut, UndoTxOut.
  destruct tx; cbn [GetTxType is_oracle_tx] in Hor, Hvalid;
    try (destruct (Hor eq_refl) as (out & -> & Hout); specialize (Hvalid eq_refl); subst valid);
    cbn [mbind option_bind]; try rewrite Hout; clear Hor;
    unfold ProcessOracleTx, UndoOracleTx;
    (apply undo_handler || apply undo_handler_ids);
    try by (apply FieldUpdate_undo || apply Update_undo).
  - unfold CheckMapping in Hchk. rewrite !andb_true_iff, negb_exists in Hchk.
    destruct Hchk as [[_ Hv4] Hm]. apply Mapping_undo; try done. intros E. rewrite E in Hv4.
    by destruct (v4_active env).
  - apply PeerlessEvent_undo; [done..|]. unfold CheckPeerlessEvent in Hchk.
    rewrite !andb_true_iff, negb_exists in Hchk. naive_solver.
  - apply FieldEvent_undo; [done..|]. unfold CheckFieldEvent in Hchk.
    rewrite !andb_true_iff, negb_exists in Hchk. naive_solver.
  - unfold CheckFieldResult in Hchk. rewrite !andb_true_iff, negb_exists, dbExists_true in Hchk.
    apply FieldResult_undo; naive_solver.
  - apply CheckFieldBet_event in Hchk. by apply FieldBet_undo.
  - apply accepted_field_parlay in Hchk as [? ?]. by apply FieldParlayBet_undo.
  - apply CheckPeerlessBet_spec in Hchk as [_ (e & He & _)]. apply PeerlessBet_undo; [done..|by exists e].
  - unfold CheckPeerlessResult in Hchk. rewrite !andb_true_iff, negb_exists, dbExists_true in Hchk.
    apply PeerlessResult_undo; naive_solver.
  - apply accepted_parlay in Hchk as [? ?]. by apply PeerlessParlayBet_undo.
  - apply accepted_height in Hchk as [? Hchk]. rewrite andb_true_iff, negb_exists in Hchk.
    apply ChainGamesEvent_undo; naive_solver.
  - apply accepted_height in Hchk as [? _]. by apply ChainGamesBet_undo.
  - apply accepted_height in Hchk as [? Hchk]. rewrite !andb_true_iff, negb_exists, dbExists_true in Hchk.
    apply ChainGamesResult_undo; naive_solver.
  - apply accepted_height in Hchk as [? _]. by apply QuickGamesBet_undo.
  - destruct Hs. apply EventZeroingOdds_undo; [done..|]. unfold CheckEventZeroingOdds in Hchk.
    rewrite !andb_true_iff in Hchk. destruct Hchk as [_ Hev].
    by apply (forallb_Forall _ _ _ (fun x => dbExists_true (events v) x)).
Qed.

(** A bet on an event of the same block cannot be undone.  When the
    event is in the cache but not yet in the level below, an accepted bet is
    processed without any effect, while undoing it fails. *)
Theorem UndoPeerlessBet_same_block gv cx v t e :
  events gv !! pb_nEventId t = None -> events v !! pb_nEventId t = Some e ->
  undos v !! UndoTxKey (cx_bettingTxId cx) = None ->
  ProcessPeerlessBet gv cx v t = Some v /\ (UndoPeerlessBet (ux_of cx) v t).2 = false.
Proof.
  intros Hg He Hu. unfold ProcessPeerlessBet, UndoPeerlessBet. change (dbRead ?m ?k) with (m !! k).
  rewrite Hg, (dbExists_Some _ _ e He). split; [done|].
  unfold UndoEventChanges, GetBettingUndo, EraseBettingUndo. change (dbRead ?m ?k) with (m !! k).
  cbn [ux_of ux_bettingTxId]. rewrite Hu. cbn [foldl]. by rewrite dbErase_None.
Qed.

(** Zeroing transactions that cannot be undone.  An accepted zeroing
    transaction that names an event twice leaves the event with zero odds
    after the undo (which reports success); one that names no event makes the
    undo fail. *)
Theorem UndoEventZeroingOdds_gaps env cx v id e :
  v4_active env = true -> ux_v4 env (ux_of cx) = true ->
  events v !! id = Some e -> ev_id e = id -> undos v !! UndoTxKey (cx_bettingTxId cx) = None ->
  (exists v1 v2,
     ProcessEventZeroingOdds env cx v {| pez_vEventIds := [id; id] |} = Some v1 /\
     UndoEventZeroingOdds env (ux_of cx) v1 {| pez_vEventIds := [id; id] |} = (v2, true) /\
     events v2 !! id = Some (e <| ee_base ::= zero_event_odds |>)) /\
  (ProcessEventZeroingOdds env cx v {| pez_vEventIds := [] |} = Some v /\
   (UndoEventZeroingOdds env (ux_of cx) v {| pez_vEventIds := [] |}).2 = false).
Proof.
  intros H4 Hu4 He Hid Hu. unfold ProcessEventZeroingOdds, UndoEventZeroingOdds.
  rewrite v4_test, H4, Hu4. cbn [negb pez_vEventIds zero_events]. split.
  - change (dbRead ?m ?k) with (m !! k). rewrite He, (dbUpdate_Some _ _ _ e He). cbn [fst].
    rewrite lookup_insert_eq, (dbUpdate_Some _ _ _ _ (lookup_insert_eq _ _ _)). cbn [fst].
    rewrite insert_insert_eq, SaveBettingUndo_fresh by done.
    do 2 eexists. split; [reflexivity|]. cbn [forallb]. simpl events.
    rewrite (dbExists_Some _ _ _ (lookup_insert_eq _ _ _)). cbn [andb].
    erewrite (UndoEventChanges_stored _ _ _ (undos v)); [|reflexivity|done|].
    + split; [reflexivity|]. cbn [foldl]. unfold undo_one. simpl events.
      unfold ev_id in Hid. rewrite Hid, !dbUpdate_fst, lookup_insert_eq. simpl.
      rewrite lookup_insert_eq. by rewrite lookup_insert_eq.
    + intros ? <-. done.
  - split; [by destruct v|]. cbn [forallb]. unfold UndoEventChanges, GetBettingUndo, EraseBettingUndo.
    change (dbRead ?m ?k) with (m !! k). cbn [ux_of ux_bettingTxId]. rewrite Hu. cbn [foldl].
    by rewrite dbErase_None.
Qed.

(** ** Processing keeps views well-formed *)
Lemma keyed_insert {E} (idof : E -> Z) m k e :
  keyed idof m -> idof e = k -> keyed idof (<[k := e]> m).
Proof.
  intros Hm He id x. destruct (decide (id = k)) as [->|].
  - rewrite lookup_insert_eq. by intros [= <-].
  - rewrite lookup_insert_ne by done. apply Hm.
Qed.

Lemma keyed_write {E} (idof : E -> Z) m k e : keyed idof m -> idof e = k -> keyed idof (dbWrite m k e).1.
Proof. intros. rewrite dbWrite_fst. case_match; [done|by apply keyed_insert]. Qed.

Lemma keyed_update {E} (idof : E -> Z) m k e : keyed idof m -> idof e = k -> keyed idof (dbUpdate m k e).1.
Proof. intros. rewrite dbUpdate_fst. case_match; [by apply keyed_insert|done]. Qed.

#[export] Hint Resolve keyed_insert keyed_write keyed_update : wagerr.

Lemma wf_set_undos v u : view_wf v -> view_wf (v <| undos := u |>).
Proof. intros []. by split. Qed.

Lemma SaveBettingUndo_wf v k us v' : SaveBettingUndo v k us = Some v' ->
  view_wf v -> view_wf v' /\ events v' = events v /\ fieldEvents v' = fieldEvents v.
Proof. unfold SaveBettingUndo. case_match; intros [= <-] ?. split; [by apply wf_set_undos|done]. Qed.

Lemma save_failed_wf cx v v' : save_failed cx v = Some v' -> view_wf v -> view_wf v'.
Proof.
  unfold save_failed, SaveFailedTx. intros E []. repeat case_match; simplify_eq; by split.
Qed.

Lemma parlay_legs_keyed gv cx evs legs evs' locked us :
  parlay_legs gv cx evs legs = (evs', locked, us) -> keyed ev_id evs -> keyed ev_id evs'.
Proof.
  revert evs evs' locked us. induction legs as [|leg legs IH]; intros evs evs' locked us; cbn [parlay_legs].
  { by intros [= <- _ _]. }
  intros E Hk. change (dbRead evs ?k) with (evs !! k) in E.
  destruct (dbRead _ _) as [c|]; [|by eapply IH]. destruct (evs !! _) as [e|] eqn:Ee; [|by eapply IH].
  destruct (parlay_legs _ _ _ legs) as [[evs1 l1] u1] eqn:E1. simplify_eq. eapply IH; [done|].
  apply keyed_update; [done|]. rewrite count_parlay_leg_id. by apply Hk.
Qed.

Lemma field_parlay_legs_keyed gv cx evs legs evs' locked us :
  field_parlay_legs gv cx evs legs = (evs', locked, us) -> keyed fev_nEventId evs -> keyed fev_nEventId evs'.
Proof.
  revert evs evs' locked us. induction legs as [|leg legs IH]; intros evs evs' locked us;
    cbn [field_parlay_legs]. { by intros [= <- _ _]. }
  intros E Hk. change (dbRead evs ?k) with (evs !! k) in E.
  destruct (dbRead _ _) as [c|]; [|by eapply IH]. destruct (evs !! _) as [e|] eqn:Ee; [|by eapply IH].
  destruct (field_parlay_legs _ _ _ legs) as [[evs1 l1] u1] eqn:E1. simplify_eq. eapply IH; [done|].
  apply keyed_update; [done|]. rewrite count_field_leg_id. by apply Hk.
Qed.

Lemma zero_events_keyed cx evs ids evs' us :
  zero_events cx evs ids = (evs', us) -> keyed ev_id evs -> keyed ev_id evs'.
Proof.
  revert evs evs' us. induction ids as [|id ids IH]; intros evs evs' us; cbn [zero_events].
  { by intros [= <- _]. }
  intros E Hk. change (dbRead evs ?k) with (evs !! k) in E.
  destruct (evs !! _) as [e|] eqn:Ee; [|by eapply IH].
  destruct (zero_events _ _ ids) as [evs1 u1] eqn:E1. simplify_eq. eapply IH; [done|].
  apply keyed_update; [done|]. exact (Hk _ _ Ee).
Qed.

Section Invariant.
Context (env : ChainEnv) (gv : CBettingsView) (cx : TxCtx).
Implicit Types v : CBettingsView.

Lemma ProcessPeerlessBet_wf v t v' : view_wf v -> ProcessPeerlessBet gv cx v t = Some v' -> view_wf v'.
Proof.
  intros Hwf. unfold ProcessPeerlessBet. change (dbRead ?m ?k) with (m !! k).
  destruct (events gv !! _) as [c|]; [|by intros [= <-]].
  destruct (events v !! _) as [e|] eqn:Ee; [|by intros [= <-]].
  intros H. apply bind_Some in H as (v1 & HS & H). apply SaveBettingUndo_wf in HS as (Hwf1 & EV & _); [|done].
  rewrite <- EV in Ee. rewrite (dbUpdate_Some _ _ _ e Ee) in H. simplify_eq.
  destruct Hwf1. split; try done. apply keyed_insert; [done|]. rewrite accumulate_bet_id. auto.
Qed.

Lemma ProcessPeerlessParlayBet_wf v t v' :
  view_wf v -> ProcessPeerlessParlayBet gv cx v t = Some v' -> view_wf v'.
Proof.
  intros Hwf. unfold ProcessPeerlessParlayBet. case_match; [by intros [= <-]|]. cbv zeta.
  destruct (parlay_legs _ _ _ _) as [[evs locked] us] eqn:E.
  apply parlay_legs_keyed in E; [|apply Hwf].
  assert (view_wf (v <| events := evs |>)) as Hwf1 by (destruct Hwf; by split).
  case_match; [by intros [= <-]|]. intros H1. apply bind_Some in H1 as (v1 & HS & H1).
  apply SaveBettingUndo_wf in HS as (Hwf2 & _); [|done]. simplify_eq. destruct Hwf2. by split.
Qed.

Lemma upd_contender_id f c e : fev_nEventId (upd_contender f c e) = fev_nEventId e.
Proof. done. Qed.

Lemma accumulate_field_bet_id e c o cid a : fev_nEventId (accumulate_field_bet e c o cid a).1 = fev_nEventId e.
Proof. unfold accumulate_field_bet. by repeat case_match. Qed.

Lemma ProcessFieldBet_wf v t v' : view_wf v -> ProcessFieldBet env gv cx v t = Some v' -> view_wf v'.
Proof.
  intros Hwf. unfold ProcessFieldBet. case_match; [by intros [= <-]|]. change (dbRead ?m ?k) with (m !! k).
  destruct (fieldEvents gv !! _) as [c|]; [|by intros [= <-]].
  destruct (fieldEvents v !! _) as [e|] eqn:Ee; [|by intros [= <-]].
  intros H1. apply bind_Some in H1 as (v1 & HS & H1). apply SaveBettingUndo_wf in HS as (Hwf1 & _ & FV); [|done].
  rewrite <- FV in Ee.
  pose proof (accumulate_field_bet_id e c (fb_nOutcome t) (fb_nContenderId t) (cx_betAmount cx)) as Hid.
  destruct (accumulate_field_bet _ _ _ _ _) as [e' c']. rewrite (dbUpdate_Some _ _ _ e Ee) in H1. simplify_eq.
  destruct Hwf1. split; try done. apply keyed_insert; [done|]. simpl in Hid. rewrite Hid. auto.
Qed.

Lemma ProcessFieldParlayBet_wf v t v' :
  view_wf v -> ProcessFieldParlayBet env gv cx v t = Some v' -> view_wf v'.
Proof.
  intros Hwf. unfold ProcessFieldParlayBet. case_match; [by intros [= <-]|]. cbv zeta.
  destruct (field_parlay_legs _ _ _ _) as [[evs locked] us] eqn:E.
  apply field_parlay_legs_keyed in E; [|apply Hwf].
  assert (view_wf (v <| fieldEvents := evs |>)) as Hwf1 by (destruct Hwf; by split).
  case_match; [by intros [= <-]|]. intros H2. apply bind_Some in H2 as (v1 & HS & H2).
  apply SaveBettingUndo_wf in HS as (Hwf2 & _); [|done]. simplify_eq. destruct Hwf2. by split.
Qed.

Lemma update_event_wf v id f v' : (forall e, be_nEventId (f e) = be_nEventId e) ->
  view_wf v -> update_event cx v id f = Some v' -> view_wf v'.
Proof.
  intros Hf Hwf. unfold update_event. change (dbRead ?m ?k) with (m !! k).
  destruct (events v !! _) as [e|] eqn:Ee; [|by intros; eapply save_failed_wf].
  intros H. apply bind_Some in H as (v1 & HS & H). apply SaveBettingUndo_wf in HS as (Hwf1 & EV & _); [|done].
  simplify_eq. destruct Hwf1. split; try done. apply keyed_update; [done|].
  unfold ev_id. simpl. rewrite Hf. rewrite <- EV in Ee. by apply wf_events0 in Ee.
Qed.

Lemma update_field_event_wf v id f v' : (forall e, fev_nEventId (f e) = fev_nEventId e) ->
  view_wf v -> update_field_event env cx v id f = Some v' -> view_wf v'.
Proof.
  intros Hf Hwf. unfold update_field_event. case_match; [by intros [= <-]|].
  change (dbRead ?m ?k) with (m !! k).
  destruct (fieldEvents v !! _) as [e|] eqn:Ee; [|by intros [= <-]].
  intros H1. apply bind_Some in H1 as (v1 & HS & H1). apply SaveBettingUndo_wf in HS as (Hwf1 & _ & FV); [|done].
  simplify_eq. destruct Hwf1. split; try done. apply keyed_update; [done|].
  rewrite Hf. rewrite <- FV in Ee. auto.
Qed.

Lemma foldl_field_id {A} (f : CFieldEventDB -> A -> CFieldEventDB) l e :
  (forall e x, fev_nEventId (f e x) = fev_nEventId e) -> fev_nEventId (foldl f e l) = fev_nEventId e.
Proof. intros Hf. revert e. induction l; intros e; cbn [foldl]; [done|]. by rewrite IHl. Qed.

Lemma ProcessPeerlessEvent_wf v t v' :
  view_wf v -> ProcessPeerlessEvent cx v t = Some v' -> view_wf v'.
Proof.
  intros Hwf. unfold ProcessPeerlessEvent. cbv zeta.
  set (base := if negb _ then _ else _). set (pl := CPeerlessExtendedEventDB_init <| ee_base := base |>).
  destruct (events v !! be_nEventId pl) as [e|] eqn:Ee.
  - rewrite (dbWrite_Some _ _ _ e Ee). case_match; [by intros [= <-]|].
    change (dbRead ?m ?k) with (m !! k). rewrite Ee.
    intros H1. apply bind_Some in H1 as (v1 & HS & H1). apply SaveBettingUndo_wf in HS as (Hwf1 & EV & _); [|done].
    simplify_eq. destruct Hwf1. split; try done. apply keyed_update; [done|].
    rewrite <- EV in Ee. by apply wf_events0 in Ee.
  - rewrite dbWrite_None by done. intros [= <-]. destruct Hwf. split; try done. by apply keyed_insert.
Qed.

Lemma ProcessPeerlessResult_wf v ids t v' ids' :
  view_wf v -> ProcessPeerlessResult cx v ids t = Some (v', ids') -> view_wf v'.
Proof.
  intros Hwf. unfold ProcessPeerlessResult. case_match; [by intros [= <- _]|]. cbv zeta.
  case_match.
  { intros E. apply bind_Some in E as (v1 & Ev & [= <- _]). by eapply save_failed_wf. }
  set (r := Build_CPeerlessResultDB _ _ _ _).
  destruct (results v !! pr_nEventId t) as [r'|] eqn:Er.
  - rewrite (dbWrite_Some _ _ _ r' Er), (dbUpdate_Some _ _ _ r' Er). cbn [fst].
    case_match; [|by intros [= <- _]]. intros E. apply bind_Some in E as (v1 & Ev & [= <- _]).
    unfold SaveFailedTx in Ev. case_match; simplify_eq. destruct Hwf. split; try done. by apply keyed_insert.
  - rewrite dbWrite_None by done. intros [= <- _]. destruct Hwf. split; try done. by apply keyed_insert.
Qed.

Lemma with_ids_Some ids r (v' : CBettingsView) ids' :
  with_ids ids r = Some (v', ids') -> r = Some v'.
Proof. unfold with_ids. destruct r; simpl; congruence. Qed.

Lemma ProcessOracleTx_wf v ids tx v' ids' :
  view_wf v -> ProcessOracleTx env cx v ids tx = Some (v', ids') -> view_wf v'.
Proof.
  intros Hwf. destruct tx; unfold ProcessOracleTx; intros E; try apply with_ids_Some in E;
    try (by injection E as <- _).
  - unfold ProcessMapping in E. case_match; [by injection E as <-|].
    destruct (dbWrite _ _ _) as [m []]; [injection E as <-; destruct Hwf; by split|by eapply save_failed_wf].
  - by eapply ProcessPeerlessEvent_wf.
  - unfold ProcessFieldEvent in E. case_match; [by injection E as <-|]. injection E as <-.
    destruct Hwf. split; try done. by apply keyed_write.
  - eapply update_field_event_wf; [|done|exact E]. intros e. cbv beta. rewrite CalcOdds_nEventId. by apply foldl_field_id; intros ? [].
  - eapply update_field_event_wf; [|done|exact E]. intros e. cbv beta. rewrite CalcOdds_nEventId. by apply foldl_field_id; intros ? [].
  - eapply update_field_event_wf; [|done|exact E]. intros e. cbv beta. by rewrite CalcOdds_nEventId.
  - by eapply update_field_event_wf; [|done|exact E].
  - unfold ProcessFieldResult in E. case_match; [by injection E as <- _|].
    case_match; [|by injection E as <- _].
    destruct (fieldResults v !! fr_nEventId t) as [r|] eqn:Er;
      [rewrite (dbWrite_Some _ _ _ r Er) in E|rewrite dbWrite_None in E by done];
      injection E as <- _; [done|]. destruct Hwf. split; try done. by apply keyed_insert.
  - by eapply ProcessPeerlessResult_wf.
  - by eapply update_event_wf; [|done|exact E].
  - by eapply update_event_wf; [|done|exact E].
  - by eapply update_event_wf; [|done|exact E].
  - by eapply update_event_wf; [|done|exact E].
  - unfold ProcessChainGamesEvent in E. repeat case_match; simplify_eq; destruct Hwf; by split.
  - unfold ProcessChainGamesResult in E. repeat case_match; simplify_eq; destruct Hwf; by split.
  - unfold ProcessEventZeroingOdds in E. case_match; [by injection E as <-|].
    destruct (zero_events _ _ _) as [evs us] eqn:Ez. apply zero_events_keyed in Ez; [|apply Hwf].
    assert (view_wf (v <| events := evs |>)) as Hwf1 by (destruct Hwf; by split).
    case_match; [by injection E as <-|]. by apply SaveBettingUndo_wf in E as (? & _).
Qed.

Lemma ProcessTxOut_wf prevOut v ids tx v' ids' :
  view_wf v -> ProcessTxOut env gv cx prevOut v ids tx = Some (v', ids') -> view_wf v'.
Proof.
  intros Hwf. unfold ProcessTxOut.
  assert (forall tx, (prevOut ← prevOut; if IsValidOraclePrevTxOut env prevOut (cx_height cx)
    then ProcessOracleTx env cx v ids tx else Some (v, ids)) = Some (v', ids') -> view_wf v') as Ho.
  { intros tx' E. apply bind_Some in E as (o & _ & E). case_match; [by eapply ProcessOracleTx_wf|].
    by injection E as <- _. }
  destruct tx; try apply Ho; intros E; apply with_ids_Some in E.
  - by eapply ProcessFieldBet_wf.
  - by eapply ProcessFieldParlayBet_wf.
  - by eapply ProcessPeerlessBet_wf.
  - by eapply ProcessPeerlessParlayBet_wf.
  - unfold ProcessChainGamesBet in E. repeat case_match; simplify_eq; destruct Hwf; by split.
  - unfold ProcessQuickGamesBet in E. repeat case_match; simplify_eq; destruct Hwf; by split.
Qed.
End Invariant.

Lemma process_vouts_wf env gv tx h block v3 i vout v ids v' ids' :
  view_wf v -> process_vouts env gv tx h block v3 i vout v ids = Some (v', ids') -> view_wf v'.
Proof.
  revert i v ids. induction vout as [|o vout IH]; intros i v ids Hwf; cbn [process_vouts].
  { by intros [= <- _]. }
  case_match; [|by apply IH]. intros E. apply bind_Some in E as (txin & _ & E).
  apply bind_Some in E as ([[a po]|] & _ & E); [|by injection E as <- _].
  apply bind_Some in E as ([v1 ids1] & E1 & E). eapply IH; [|exact E].
  eapply ProcessTxOut_wf; [|exact E1]. done.
Qed.

(** C37: processing keeps the view well-formed.  Whatever transaction is
    processed, before or after v3, every peerless event, field event, result
    and field result stays stored under its own identifier. *)
Theorem ProcessBettingTx_wf env gv v ids tx h block v3 v' ids' :
  view_wf v -> ProcessBettingTx env gv v ids tx h block v3 = Some (v', ids') -> view_wf v'.
Proof.
  intros Hwf. unfold ProcessBettingTx. case_match; [by intros [= <- _]|].
  by apply process_vouts_wf.
Qed.
