(* ===== verification/Payouts.v ===== *)
(** * Settling bets and paying them out
    (src/src/betting/bet_v3.cpp, src/src/betting/bet_v4.cpp,
    GetPLRewardPayoutsV2 of src/src/betting/bet_v2.cpp, CBetOut of
    src/src/betting/bet_common.h)

    Each loop body is a definition: the odds of a leg, the product of a
    parlay, what is written into a completed bet.  [None] stands for an access
    past the end of a vector (or, for quick games, a handler that does not
    return). *)

From S2P Require Import Prelude Serialize Params BetTx BetDB BetKeys Flushable BetView BetCommon CheckTx Double.

Record CBetOut := {
  bo_nValue : Z;
  bo_scriptPubKey : list Z;
  bo_nBetValue : Z;
  bo_nEventId : Z;
}.

#[export] Instance CBetOut_eq_dec : EqDecision CBetOut.
Proof. solve_decision. Defined.

Definition CBetOut_new (nValueIn : Z) (scriptPubKeyIn : list Z) (nBetValueIn : Z) : CBetOut :=
  Build_CBetOut nValueIn scriptPubKeyIn nBetValueIn 0.

(** The two output vectors, vExpectedPayouts and vPayoutsInfo. *)
Definition payouts : Type := list CBetOut * list CPayoutInfoDB.

Definition add_payout (p : payouts) (o : CBetOut) (i : CPayoutInfoDB) : payouts :=
  (p.1 ++ [o], p.2 ++ [i]).

Definition reward_info (nNewBlockHeight : Z) (t : PayoutType) : CPayoutInfoDB :=
  {| pi_betKey := {| bk_blockHeight := nNewBlockHeight; bk_outPoint := COutPoint_null |};
     pi_payoutType := t |}.

Section Payouts.
Context (env : ChainEnv).

(** ** Rewards *)
Definition GetPLRewardPayoutsV3 (nNewBlockHeight fee : Z) (p : payouts) : payouts :=
  match GetFeePayoutScripts env nNewBlockHeight with
  | None => p
  | Some (payoutScriptDev, payoutScriptOMNO) =>
      let nOMNOReward := Z.quot (i64 (fee * 4000)) BET_ODDSDIVISOR in
      let nDevReward := Z.quot (i64 (fee * 1000)) BET_ODDSDIVISOR in
      let p := if 0 <? nDevReward
               then add_payout p (CBetOut_new nDevReward payoutScriptDev 0)
                      (reward_info nNewBlockHeight bettingReward)
               else p in
      if 0 <? nOMNOReward
      then add_payout p (CBetOut_new nOMNOReward payoutScriptOMNO 0)
             (reward_info nNewBlockHeight bettingReward)
      else p
  end.

(** The profit of the winning bets of the vectors. *)
Definition profit_acc (p : payouts) : Z :=
  foldl (fun acc '(o, i) =>
           if bool_decide (pi_payoutType i = bettingPayout)
           then i64 (acc + (bo_nValue o - bo_nBetValue o)) else acc)
    0 (zip (p.1) (p.2)).

(** (CAmount)(x / (1000.0 - BET_BURNXPERMILLE)), a division of doubles. *)
Definition quot940 (x : Z) : Z :=
  double_to_int64 (open_cast env) (ddiv (dZ x) (dsub (dZ 1000) (dZ BET_BURNXPERMILLE))).

Definition GetPLRewardPayoutsV2 (nNewBlockHeight : Z) (p : payouts) : payouts :=
  match GetFeePayoutScripts env nNewBlockHeight with
  | None => p
  | Some (payoutScriptDev, payoutScriptOMNO) =>
      let profitAcc := profit_acc p in
      let nOMNOReward := quot940 (u64 (profitAcc * OMNORewardPermille (Params env))) in
      let nDevReward := quot940 (u64 (profitAcc * DevRewardPermille (Params env))) in
      let p := if 0 <? nDevReward
               then add_payout p (CBetOut_new nDevReward payoutScriptDev profitAcc)
                      (reward_info nNewBlockHeight bettingReward)
               else p in
      if 0 <? nOMNOReward
      then add_payout p (CBetOut_new nOMNOReward payoutScriptOMNO profitAcc)
             (reward_info nNewBlockHeight bettingReward)
      else p
  end.

Definition GetBetSearchStartHeight (nHeight : Z) : Z :=
  u32 (if V3 env <=? nHeight then
         if BetBlocksIndexTimespanV3 (Params env) <=? nHeight
         then nHeight - BetBlocksIndexTimespanV3 (Params env) else V3 env
       else
         if BetBlocksIndexTimespanV2 (Params env) <=? nHeight
         then nHeight - BetBlocksIndexTimespanV2 (Params env) else 0).

(** ** The legs *)

(** A bet placed within the timeout before the start of the event. *)
Definition bet_too_late (nStartTime betTime : Z) : bool :=
  (0 <? nStartTime) && (i64 nStartTime - BetPlaceTimeoutBlocks (Params env) <? betTime).

(** legRefund, legHalfLose and legHalfWin. *)
Record LegFlags := { lf_refund : bool; lf_halfLose : bool; lf_halfWin : bool }.

Definition no_flags : LegFlags := {| lf_refund := false; lf_halfLose := false; lf_halfWin := false |}.

Definition flag_leg (f : LegFlags) (odds potential : Z) : LegFlags :=
  if odds =? 0 then f
  else if odds =? BET_ODDSDIVISOR
  then {| lf_refund := true; lf_halfLose := lf_halfLose f; lf_halfWin := lf_halfWin f |}
  else if odds =? BET_ODDSDIVISOR `div` 2
  then {| lf_refund := lf_refund f; lf_halfLose := true; lf_halfWin := lf_halfWin f |}
  else if odds <? potential
  then {| lf_refund := lf_refund f; lf_halfLose := lf_halfLose f; lf_halfWin := true |}
  else f.

Definition mul_odds (a b : Z * Z) : Z * Z :=
  (u32 (u64 (a.1 * b.1) `div` BET_ODDSDIVISOR), u32 (u64 (a.2 * b.2) `div` BET_ODDSDIVISOR)).

(** The loop over the legs of a parlay.  Inner [None]: a leg has no result
    yet, the bet is not completed. *)
Fixpoint parlay_odds (rs : gmap Z CPeerlessResultDB) (v3 : bool) (betTime : Z) (legs : list CPeerlessLegDB)
    (locked : list CPeerlessBaseEventDB) (acc : option (Z * Z)) (f : LegFlags) :
    option (option (Z * Z * LegFlags)) :=
  match legs with
  | [] => Some (Some (default (0, 0) acc, f))
  | leg :: legs =>
      match locked with
      | [] => None
      | lockedEvent :: locked =>
          match dbRead rs (leg_nEventId leg) with
          | None => Some None
          | Some res =>
              let betOdds :=
                if bet_too_late (be_nStartTime lockedEvent) betTime
                then if v3 then refund_odds else lose_odds
                else GetBetOdds leg lockedEvent res v3 in
              let f := flag_leg f (betOdds.1) (GetBetPotentialOdds leg lockedEvent) in
              let acc := match acc with None => betOdds | Some a => mul_odds a betOdds end in
              parlay_odds rs v3 betTime legs locked (Some acc) f
          end
      end
  end.

Definition single_odds (v3 : bool) (nLastBlockHeight : Z) (betTime : Z) (leg : CPeerlessLegDB)
    (lockedEvent : CPeerlessBaseEventDB) (result : CPeerlessResultDB) : Z * Z :=
  if bet_too_late (be_nStartTime lockedEvent) betTime then if v3 then refund_odds else lose_odds
  else if negb v3 && (BetBlocksIndexTimespanV2 (Params env) <? nLastBlockHeight - be_nEventCreationHeight lockedEvent)
  then lose_odds
  else GetBetOdds leg lockedEvent result v3.

(** {completedBet, finalOdds, flags} of a bet for a result. *)
Definition final_odds (rs : gmap Z CPeerlessResultDB) (v3 : bool) (nLastBlockHeight : Z)
    (result : CPeerlessResultDB) (uniBet : CPeerlessBetDB) : option (option (Z * Z * LegFlags)) :=
  match bet_legs uniBet with
  | _ :: _ :: _ =>
      if existsb (fun leg => leg_nEventId leg =? rs_nEventId result) (bet_legs uniBet)
      then parlay_odds rs v3 (bet_betTime uniBet) (bet_legs uniBet) (bet_lockedEvents uniBet) None no_flags
      else Some None
  | [singleBet] =>
      match bet_lockedEvents uniBet with
      | [] => None
      | lockedEvent :: _ =>
          if leg_nEventId singleBet =? rs_nEventId result then
            let odds := single_odds v3 nLastBlockHeight (bet_betTime uniBet) singleBet lockedEvent result in
            Some (Some (odds, flag_leg no_flags (odds.1) (GetBetPotentialOdds singleBet lockedEvent)))
          else Some None
      end
  | [] => Some None
  end.

(** ** Completing a bet *)

(** Stakes outside of the payout range are refunded (lost before v3). *)
Definition range_odds (v3 : bool) (betAmount : Z) (odds : Z * Z) : Z * Z :=
  if amount_in_range env betAmount (MaxBetPayoutRange (Params env)) then odds
  else if v3 then refund_odds else lose_odds.

(** betAmount * odds / BET_ODDSDIVISOR in 64 bits. *)
Definition stake_times (betAmount odds : Z) : Z := Z.quot (i64 (betAmount * odds)) BET_ODDSDIVISOR.

Definition effective_payout (v3 : bool) (betAmount : Z) (odds : Z * Z) : Z :=
  if negb v3 then let '(_, payout, _) := CalculatePayoutBurnAmounts betAmount (odds.1) in payout
  else stake_times betAmount (odds.2).

Definition result_type (betAmount effectivePayout finalOdds : Z) (nLegs : nat) (f : LegFlags) : BetResultType :=
  if effectivePayout <? betAmount then betResultPartialLose
  else if finalOdds =? BET_ODDSDIVISOR then betResultRefund
  else if ((nLegs =? 1)%nat && lf_halfWin f) ||
          ((1 <? nLegs)%nat && (lf_halfWin f || lf_halfLose f || lf_refund f)) then betResultPartialWin
  else betResultWin.

Definition payout_type (effectiveOdds : Z) : PayoutType :=
  if effectiveOdds <=? BET_ODDSDIVISOR then bettingRefund else bettingPayout.

Record Settlement := {
  st_bet : CPeerlessBetDB;
  st_payout : option (CBetOut * PayoutType);
  st_effective : Z;
  st_gross : Z;
}.

Definition complete_bet (v3 : bool) (nNewBlockHeight : Z) (uniBet : CPeerlessBetDB)
    (odds : Z * Z) (f : LegFlags) : Settlement :=
  let finalOdds := range_odds v3 (bet_betAmount uniBet) odds in
  let effectivePayout := effective_payout v3 (bet_betAmount uniBet) finalOdds in
  let bet :=
    if 0 <? effectivePayout then
      uniBet <| bet_resultType := result_type (bet_betAmount uniBet) effectivePayout (finalOdds.1)
                                    (length (bet_legs uniBet)) f |>
             <| bet_payoutHeight := u32 nNewBlockHeight |>
    else uniBet <| bet_resultType := betResultLose |> in
  {| st_bet := bet <| bet_payout := effectivePayout |> <| bet_completed := true |>;
     st_payout := if 0 <? effectivePayout
                  then Some (CBetOut_new effectivePayout
                               (GetScriptForDestination env (bet_playerAddress uniBet)) (bet_betAmount uniBet),
                             payout_type (finalOdds.2))
                  else None;
     st_effective := if v3 then effectivePayout else 0;
     st_gross := if v3 then stake_times (bet_betAmount uniBet) (finalOdds.1) else 0 |}.

(** One bet of the iteration: [Some None] when it is left as it is. *)
Definition settle_bet (rs : gmap Z CPeerlessResultDB) (nLastBlockHeight : Z) (result : CPeerlessResultDB)
    (uniBet : CPeerlessBetDB) : option (option Settlement) :=
  let v3 := V3 env <=? nLastBlockHeight in
  if v3 && bet_completed uniBet then Some None
  else
    r ← final_odds rs v3 nLastBlockHeight result uniBet;
    match r with
    | None => Some None
    | Some (odds, f) => Some (Some (complete_bet v3 (nLastBlockHeight + 1) uniBet odds f))
    end.

(** ** The loops of GetPLBetPayoutsV3 *)
Record PLState := {
  pl_payouts : payouts;
  pl_effectivePayoutsSum : Z;
  pl_grossPayoutsSum : Z;
}.

Definition add_settlement (s : PLState) (key : PeerlessBetKey) (st : Settlement) : PLState := {|
  pl_payouts := match st_payout st with
                | Some (o, t) => add_payout (pl_payouts s) o {| pi_betKey := key; pi_payoutType := t |}
                | None => pl_payouts s
                end;
  pl_effectivePayoutsSum := i64 (pl_effectivePayoutsSum s + st_effective st);
  pl_grossPayoutsSum := i64 (pl_grossPayoutsSum s + st_gross st);
|}.

(** The iteration over the bets; vEntriesToUpdate comes last. *)
Fixpoint settle_entries (rs : gmap Z CPeerlessResultDB) (nLastBlockHeight : Z) (result : CPeerlessResultDB)
    (l : list (PeerlessBetKey * CPeerlessBetDB)) (s : PLState) :
    option (PLState * list (PeerlessBetKey * CPeerlessBetDB)) :=
  match l with
  | [] => Some (s, [])
  | (uniBetKey, uniBet) :: l =>
      r ← settle_bet rs nLastBlockHeight result uniBet;
      match r with
      | None => settle_entries rs nLastBlockHeight result l s
      | Some st =>
          '(s, upd) ← settle_entries rs nLastBlockHeight result l (add_settlement s uniBetKey st);
          Some (s, (uniBetKey, st_bet st) :: upd)
      end
  end.

Definition update_all {V} (m : gmap PeerlessBetKey V) (l : list (PeerlessBetKey * V)) : gmap PeerlessBetKey V :=
  foldl (fun m '(k, b) => (dbUpdate m k b).1) m l.

Fixpoint settle_results (nLastBlockHeight : Z) (results_ : list CPeerlessResultDB) (v : CBettingsView)
    (s : PLState) : option (CBettingsView * PLState) :=
  match results_ with
  | [] => Some (v, s)
  | result :: results_ =>
      if is_result result eventClosed then settle_results nLastBlockHeight results_ v s
      else
        '(s, upd) ← settle_entries (results v) nLastBlockHeight result
                      (dbIterate (bets v) (seek_height (GetBetSearchStartHeight nLastBlockHeight))) s;
        settle_results nLastBlockHeight results_ (v <| bets := update_all (bets v) upd |>) s
  end.

(** {view, payouts, result}. *)
Definition GetPLBetPayoutsV3 (v : CBettingsView) (pindexPrev : CBlockIndex) (p : payouts) :
    option (CBettingsView * payouts * bool) :=
  let nLastBlockHeight := nHeight pindexPrev in
  let nNewBlockHeight := nLastBlockHeight + 1 in
  match GetPLResultsFromDB env v (Some pindexPrev) with
  | None => Some (v, p, false)
  | Some results_ =>
      '(v, s) ← settle_results nLastBlockHeight results_ v
                  {| pl_payouts := p; pl_effectivePayoutsSum := 0; pl_grossPayoutsSum := 0 |};
      Some (v,
            (if negb (V3 env <=? nLastBlockHeight)
             then GetPLRewardPayoutsV2 (u32 nNewBlockHeight) (pl_payouts s)
             else GetPLRewardPayoutsV3 (u32 nNewBlockHeight)
                    (i64 (pl_grossPayoutsSum s - pl_effectivePayoutsSum s)) (pl_payouts s)),
            true)
  end.

(** ** UndoPLBetPayouts *)
Definition needs_undo (rs : gmap Z CPeerlessResultDB) (result : CPeerlessResultDB) (uniBet : CPeerlessBetDB) : bool :=
  match bet_legs uniBet with
  | _ :: _ :: _ =>
      existsb (fun leg => leg_nEventId leg =? rs_nEventId result) (bet_legs uniBet) &&
      forallb (fun leg => dbExists rs (leg_nEventId leg)) (bet_legs uniBet)
  | [singleBet] => leg_nEventId singleBet =? rs_nEventId result
  | [] => false
  end.

Definition uncomplete (uniBet : CPeerlessBetDB) : CPeerlessBetDB :=
  uniBet <| bet_completed := false |> <| bet_resultType := betResultUnknown |> <| bet_payout := 0 |>.

Definition undo_entries (rs : gmap Z CPeerlessResultDB) (result : CPeerlessResultDB)
    (l : list (PeerlessBetKey * CPeerlessBetDB)) : list (PeerlessBetKey * CPeerlessBetDB) :=
  omap (fun '(k, b) => if bet_completed b && needs_undo rs result b then Some (k, uncomplete b) else None) l.

Fixpoint undo_results (nCurrentHeight : Z) (results_ : list CPeerlessResultDB) (v : CBettingsView) : CBettingsView :=
  match results_ with
  | [] => v
  | result :: results_ =>
      if is_result result eventClosed then undo_results nCurrentHeight results_ v
      else
        let upd := undo_entries (results v) result
                     (dbIterate (bets v) (seek_height (GetBetSearchStartHeight nCurrentHeight))) in
        undo_results nCurrentHeight results_ (v <| bets := update_all (bets v) upd |>)
  end.

Definition UndoPLBetPayouts (v : CBettingsView) (pindexPrev : CBlockIndex) : CBettingsView * bool :=
  let nCurrentHeight := nHeight pindexPrev + 1 in
  match GetPLResultsFromDB env v (Some pindexPrev) with
  | None => (v, false)
  | Some results_ => (undo_results nCurrentHeight results_ v, true)
  end.

(** ** UndoQGBetPayouts: every completed quick games bet from the height on. *)
Definition UndoQGBetPayouts (v : CBettingsView) (height : Z) : CBettingsView * bool :=
  let upd := omap (fun '(k, b) =>
                 if qgbet_completed b
                 then Some (k, b <| qgbet_completed := false |> <| qgbet_resultType := betResultUnknown |>
                                 <| qgbet_payout := 0 |>)
                 else None)
               (dbIterate (quickGamesBets v) (seek_height (u32 height))) in
  (v <| quickGamesBets := update_all (quickGamesBets v) upd |>, true).
End Payouts.
