(* ===== verification/PayoutProofs.v ===== *)
(** * Theorems on the settlement of peerless bets (Payouts.v) *)

From S2P Require Import Prelude Params BetTx BetDB BetKeys Flushable BetView BetCommon CheckTx Payouts.

(** ** Updating a table by a list of entries *)
Lemma update_all_cons {V} (m : gmap PeerlessBetKey V) k b l :
  update_all m ((k, b) :: l) = update_all (dbUpdate m k b).1 l.
Proof. done. Qed.

(** With distinct keys that are all present, the list wins. *)
Lemma update_all_lookup {V} (m : gmap PeerlessBetKey V) l j :
  NoDup l.*1 -> (forall k, k ∈ l.*1 -> is_Some (m !! k)) ->
  update_all m l !! j =
    match (list_to_map l : gmap PeerlessBetKey V) !! j with Some b => Some b | None => m !! j end.
Proof.
  revert m. induction l as [|[k b] l IH]; intros m Hnd Hm; [done|].
  csimpl in Hnd. apply NoDup_cons in Hnd as [Hk Hnd].
  destruct (Hm k) as [b0 Hb0]; [csimpl; apply list_elem_of_here|].
  rewrite update_all_cons, (dbUpdate_Some _ _ _ b0 Hb0). cbn [fst list_to_map foldr].
  rewrite IH; [|done|].
  - destruct (decide (j = k)) as [->|].
    + rewrite !lookup_insert_eq. by rewrite not_elem_of_list_to_map_1.
    + by rewrite !lookup_insert_ne.
  - intros k' Hk'. destruct (decide (k' = k)) as [->|]; [rewrite lookup_insert_eq; eauto|].
    rewrite lookup_insert_ne by done. apply Hm. csimpl. by apply elem_of_cons; right.
Qed.

(** ** The settlements of a pass over the bets *)

(** The settled entries of a list, without the accumulators. *)
Fixpoint settlements env rs nLast result (l : list (PeerlessBetKey * CPeerlessBetDB)) :
    option (list (PeerlessBetKey * Settlement)) :=
  match l with
  | [] => Some []
  | (k, b) :: l =>
      r ← settle_bet env rs nLast result b;
      rest ← settlements env rs nLast result l;
      Some (match r with Some st => (k, st) :: rest | None => rest end)
  end.

Definition settled_bets (sts : list (PeerlessBetKey * Settlement)) : list (PeerlessBetKey * CPeerlessBetDB) :=
  (fun '(k, st) => (k, st_bet st)) <$> sts.

Definition add_all (s : PLState) (sts : list (PeerlessBetKey * Settlement)) : PLState :=
  foldl (fun s '(k, st) => add_settlement s k st) s sts.

(** The loop of the source computes the settlements and accumulates them. *)
Lemma settle_entries_settlements env rs nLast result l s :
  settle_entries env rs nLast result l s =
    (sts ← settlements env rs nLast result l; Some (add_all s sts, settled_bets sts)).
Proof.
  revert s. induction l as [|[k b] l IH]; intros s; cbn [settle_entries settlements]; [done|].
  destruct (settle_bet env rs nLast result b) as [[st|]|]; cbn [mbind option_bind]; [| |done].
  - rewrite IH. by destruct (settlements env rs nLast result l).
  - rewrite IH. by destruct (settlements env rs nLast result l).
Qed.

Lemma settlements_In env rs nLast result l sts k st :
  settlements env rs nLast result l = Some sts -> (k, st) ∈ sts ->
  exists b, (k, b) ∈ l /\ settle_bet env rs nLast result b = Some (Some st).
Proof.
  revert sts. induction l as [|[k' b'] l IH]; intros sts; cbn [settlements].
  { intros [= <-] H. by apply not_elem_of_nil in H. }
  destruct (settle_bet env rs nLast result b') as [r|] eqn:E; [|done]. cbn [mbind option_bind].
  destruct (settlements env rs nLast result l) as [rest|]; [|done]. intros [= <-] Hin.
  setoid_rewrite elem_of_cons. destruct r as [st'|].
  - apply elem_of_cons in Hin as [[= -> ->]|Hin]; [exists b'; auto|].
    destruct (IH rest eq_refl Hin) as (b & ? & ?). eauto.
  - destruct (IH rest eq_refl Hin) as (b & ? & ?). eauto.
Qed.

Lemma settlements_not_settled env rs nLast result l sts k b :
  settlements env rs nLast result l = Some sts -> (k, b) ∈ l -> k ∉ sts.*1 ->
  NoDup l.*1 -> settle_bet env rs nLast result b = Some None.
Proof.
  revert sts. induction l as [|[k' b'] l IH]; intros sts; cbn [settlements].
  { intros _ H. by apply not_elem_of_nil in H. }
  destruct (settle_bet env rs nLast result b') as [r|] eqn:E; [|done]. cbn [mbind option_bind].
  destruct (settlements env rs nLast result l) as [rest|]; [|done]. intros [= <-] Hin Hk Hnd.
  csimpl in Hnd. apply NoDup_cons in Hnd as [Hk' Hnd].
  apply elem_of_cons in Hin as [[= -> ->]|Hin].
  - destruct r as [st|]; [|done]. destruct Hk. csimpl. apply list_elem_of_here.
  - apply (IH rest); [done|done| |done]. destruct r as [st|]; [|done].
    csimpl in Hk. by apply not_elem_of_cons in Hk as [_ ?].
Qed.

Lemma settlements_keys env rs nLast result l sts :
  settlements env rs nLast result l = Some sts -> sts.*1 `sublist_of` l.*1.
Proof.
  revert sts. induction l as [|[k b] l IH]; intros sts; cbn [settlements].
  { intros [= <-]. constructor. }
  destruct (settle_bet env rs nLast result b) as [r|]; [|done]. cbn [mbind option_bind].
  destruct (settlements env rs nLast result l) as [rest|]; [|done]. intros [= <-]. csimpl.
  destruct r; csimpl; [apply sublist_skip|apply sublist_cons]; by apply IH.
Qed.

Lemma settlements_nothing env rs nLast result l :
  (forall k b, (k, b) ∈ l -> settle_bet env rs nLast result b = Some None) ->
  settlements env rs nLast result l = Some [].
Proof.
  induction l as [|[k b] l IH]; intros H; cbn [settlements]; [done|].
  rewrite (H k b) by apply list_elem_of_here. cbn [mbind option_bind].
  by rewrite IH by (intros k' b' ?; apply (H k'); by apply elem_of_cons; right).
Qed.

(** ** Settled bets are completed *)
Lemma settle_bet_completed env rs nLast result b st :
  settle_bet env rs nLast result b = Some (Some st) -> bet_completed (st_bet st) = true.
Proof.
  unfold settle_bet. cbv zeta. case_match; [done|].
  destruct (final_odds _ _ _ _ _ _) as [[[o f]|]|]; cbn [mbind option_bind]; [|done|done].
  intros [= <-]. done.
Qed.

Lemma settle_bet_skip env rs nLast result b :
  V3 env <= nLast -> bet_completed b = true -> settle_bet env rs nLast result b = Some None.
Proof.
  intros Hv3 Hb. unfold settle_bet. cbv zeta. rewrite Hb. by replace (V3 env <=? nLast) with true by lia.
Qed.

(** The entries of one pass, and what the pass does to the table. *)
Definition pass_entries env nLast (m : gmap PeerlessBetKey CPeerlessBetDB) :=
  dbIterate m (seek_height (GetBetSearchStartHeight env nLast)).

Lemma pass_entries_In env nLast m k b :
  (k, b) ∈ pass_entries env nLast m <->
  m !! k = Some b /\ kle (seek_height (GetBetSearchStartHeight env nLast)) k.
Proof.
  unfold pass_entries, dbIterate. simpl. unfold seek_entries.
  rewrite list_elem_of_filter, elem_of_sorted_entries. naive_solver.
Qed.

Lemma NoDup_fst_filter {A B} (P : A * B -> Prop) `{!forall x, Decision (P x)} (l : list (A * B)) :
  NoDup l.*1 -> NoDup (filter P l).*1.
Proof.
  induction l as [|[a b] l IH]; intros Hnd; [constructor|]. csimpl in Hnd.
  apply NoDup_cons in Hnd as [Ha Hnd]. rewrite filter_cons. case_decide; [|by apply IH].
  csimpl. apply NoDup_cons. split; [|by apply IH]. intros Hin. apply Ha.
  apply list_elem_of_fmap in Hin as (x & -> & Hx). apply list_elem_of_filter in Hx as [_ Hx].
  by apply list_elem_of_fmap_2.
Qed.

Lemma pass_entries_NoDup env nLast m : NoDup (pass_entries env nLast m).*1.
Proof.
  unfold pass_entries, dbIterate. simpl. unfold seek_entries. apply NoDup_fst_filter.
  rewrite sorted_entries_perm. apply NoDup_fst_map_to_list.
Qed.

Lemma settled_bets_keys sts : (settled_bets sts).*1 = sts.*1.
Proof. unfold settled_bets. rewrite <- list_fmap_compose. apply list_fmap_ext. by intros ? [] _. Qed.

Section Pass.
Context (env : ChainEnv) (rs : gmap Z CPeerlessResultDB) (nLast : Z) (result : CPeerlessResultDB).
Context (m : gmap PeerlessBetKey CPeerlessBetDB) (sts : list (PeerlessBetKey * Settlement)).
Context (Hsts : settlements env rs nLast result (pass_entries env nLast m) = Some sts).

Lemma pass_NoDup : NoDup sts.*1.
Proof. eapply sublist_NoDup; [apply pass_entries_NoDup|by eapply settlements_keys]. Qed.

Lemma pass_lookup_settled k st : (k, st) ∈ sts -> update_all m (settled_bets sts) !! k = Some (st_bet st).
Proof.
  intros Hin. rewrite update_all_lookup.
  - erewrite elem_of_list_to_map_1; [done|rewrite settled_bets_keys; apply pass_NoDup|].
    unfold settled_bets. apply list_elem_of_fmap. by exists (k, st).
  - rewrite settled_bets_keys. apply pass_NoDup.
  - intros k'. rewrite settled_bets_keys. intros Hk'. apply list_elem_of_fmap in Hk' as ([k1 st1] & -> & Hin').
    destruct (settlements_In _ _ _ _ _ _ _ _ Hsts Hin') as (b & Hb & _). apply pass_entries_In in Hb as [Hb _].
    simpl. eauto.
Qed.

Lemma pass_lookup_other k : k ∉ sts.*1 -> update_all m (settled_bets sts) !! k = m !! k.
Proof.
  intros Hk. rewrite update_all_lookup.
  - by rewrite not_elem_of_list_to_map_1 by (by rewrite settled_bets_keys).
  - rewrite settled_bets_keys. apply pass_NoDup.
  - intros k'. rewrite settled_bets_keys. intros Hk'. apply list_elem_of_fmap in Hk' as ([k1 st1] & -> & Hin').
    destruct (settlements_In _ _ _ _ _ _ _ _ Hsts Hin') as (b & Hb & _). apply pass_entries_In in Hb as [Hb _].
    simpl. eauto.
Qed.

Lemma pass_keys_dec k : {st | (k, st) ∈ sts} + {k ∉ sts.*1}.
Proof.
  clear Hsts. induction sts as [|[k' st] l IH]; [right; apply not_elem_of_nil|].
  destruct (decide (k = k')) as [->|Hne]; [left; exists st; apply list_elem_of_here|].
  destruct IH as [[st' Hin]|Hn]; [left; exists st'; by apply elem_of_cons; right|].
  right. csimpl. by rewrite not_elem_of_cons.
Qed.
End Pass.

(** An unfinished bet of the table after a pass was there before and is not
    settled by the pass's result; from v3 on, finished bets stay as they are. *)
Lemma pass_unfinished env rs nLast result m sts k b :
  settlements env rs nLast result (pass_entries env nLast m) = Some sts ->
  update_all m (settled_bets sts) !! k = Some b -> bet_completed b = false ->
  m !! k = Some b /\
  (kle (seek_height (GetBetSearchStartHeight env nLast)) k -> settle_bet env rs nLast result b = Some None).
Proof.
  intros Hs Hk Hb. destruct (pass_keys_dec sts k) as [[st Hin]|Hn].
  - rewrite (pass_lookup_settled env rs nLast result m sts Hs k st Hin) in Hk. injection Hk as <-.
    destruct (settlements_In _ _ _ _ _ _ _ _ Hs Hin) as (b0 & _ & Hst).
    apply settle_bet_completed in Hst. congruence.
  - rewrite (pass_lookup_other env rs nLast result m sts Hs k Hn) in Hk. split; [done|]. intros Hle.
    eapply settlements_not_settled; [done| |done|apply pass_entries_NoDup]. by apply pass_entries_In.
Qed.

(** ** Settling twice *)
Lemma settle_results_cons env nLast r rl v s :
  settle_results env nLast (r :: rl) v s =
  if is_result r eventClosed then settle_results env nLast rl v s
  else sts ← settlements env (results v) nLast r (pass_entries env nLast (bets v));
       settle_results env nLast rl (v <| bets := update_all (bets v) (settled_bets sts) |>) (add_all s sts).
Proof.
  cbn [settle_results]. destruct (is_result r eventClosed); [done|].
  rewrite settle_entries_settlements. fold (pass_entries env nLast (bets v)).
  by destruct (settlements env (results v) nLast r (pass_entries env nLast (bets v))).
Qed.

(** After the passes, no unfinished bet is settled by any of the results. *)
Lemma settle_results_unfinished env nLast rl v s v' s' :
  settle_results env nLast rl v s = Some (v', s') ->
  results v' = results v /\ v' = v <| bets := bets v' |> /\
  forall k b, bets v' !! k = Some b -> bet_completed b = false ->
    bets v !! k = Some b /\
    forall r, r ∈ rl -> is_result r eventClosed = false ->
      kle (seek_height (GetBetSearchStartHeight env nLast)) k ->
      settle_bet env (results v) nLast r b = Some None.
Proof.
  revert v s. induction rl as [|r rl IH]; intros v s.
  { intros [= <- <-]. split_and!; [done|by destruct v|]. intros k b ? ?. split; [done|].
    intros r Hr. by apply not_elem_of_nil in Hr. }
  rewrite settle_results_cons. destruct (is_result r eventClosed) eqn:Ec.
  - intros H. apply IH in H as (Hr & Hv & Hb). split_and!; [done|done|]. intros k b Hk Hc.
    destruct (Hb k b Hk Hc) as [? Hs]. split; [done|]. intros r' Hr'.
    apply elem_of_cons in Hr' as [->|?]; [congruence|]. by apply Hs.
  - destruct (settlements _ _ _ _ _) as [sts|] eqn:Es; [|done]. cbn [mbind option_bind].
    intros H. apply IH in H as (Hr & Hv & Hb). simpl in Hr. split_and!; [done|by rewrite Hv at 1|].
    intros k b Hk Hc. destruct (Hb k b Hk Hc) as [Hk1 Hs]. simpl in Hk1.
    destruct (pass_unfinished _ _ _ _ _ _ _ _ Es Hk1 Hc) as [Hk0 Hs0]. split; [done|].
    intros r' Hr'. apply elem_of_cons in Hr' as [->|?]; [done|]. by apply Hs.
Qed.

Lemma settle_results_again env nLast rl v s :
  V3 env <= nLast ->
  (forall k b, bets v !! k = Some b -> bet_completed b = false ->
    forall r, r ∈ rl -> is_result r eventClosed = false ->
      kle (seek_height (GetBetSearchStartHeight env nLast)) k ->
      settle_bet env (results v) nLast r b = Some None) ->
  settle_results env nLast rl v s = Some (v, s).
Proof.
  intros Hv3. revert s. induction rl as [|r rl IH]; intros s H; [done|].
  rewrite settle_results_cons. destruct (is_result r eventClosed) eqn:Ec.
  - apply IH. intros k b Hk Hc r' Hr'. apply (H k b Hk Hc). by apply elem_of_cons; right.
  - rewrite settlements_nothing.
    + cbn [mbind option_bind]. unfold settled_bets, add_all, update_all. cbn [fmap list_fmap foldl].
      replace (v <| bets := bets v |>) with v by (by destruct v).
      apply IH. intros k b Hk Hc r' Hr'. apply (H k b Hk Hc). by apply elem_of_cons; right.
    + intros k b Hin. apply pass_entries_In in Hin as [Hk Hle].
      destruct (bet_completed b) eqn:Hc; [by apply settle_bet_skip|].
      apply (H k b); [done|done|apply list_elem_of_here|done|done].
Qed.

Lemma GetPLRewardPayoutsV3_zero env h p : GetPLRewardPayoutsV3 env h 0 p = p.
Proof. unfold GetPLRewardPayoutsV3. by destruct (GetFeePayoutScripts env h) as [[]|]. Qed.

(** C2: a peerless bet is paid once.  From v3 on, computing the
    payouts of the peerless bets (single and parlay) a second time for the
    same previous block, on the view the first computation left, pays nothing,
    adds no reward and changes nothing.  Field bets, quick games and the lotto
    have their own tables and are not part of this function. *)
Theorem GetPLBetPayoutsV3_idempotent env v pindexPrev p v1 p1 ok :
  V3 env <= nHeight pindexPrev ->
  GetPLBetPayoutsV3 env v pindexPrev p = Some (v1, p1, ok) ->
  GetPLBetPayoutsV3 env v1 pindexPrev p1 = Some (v1, p1, ok).
Proof.
  intros Hv3. unfold GetPLBetPayoutsV3, GetPLResultsFromDB. cbn [mbind option_bind]. cbv zeta.
  intros H. apply bind_Some in H as ([v2 s2] & Hs & [= <- <- <-]).
  apply settle_results_unfinished in Hs as (Hr & _ & Hb).
  rewrite Hr, settle_results_again; [|done|].
  - cbn [mbind option_bind]. replace (V3 env <=? nHeight pindexPrev) with true by lia. cbn [negb].
    cbn [pl_grossPayoutsSum pl_effectivePayoutsSum pl_payouts]. change (i64 (0 - 0)) with 0.
    by rewrite GetPLRewardPayoutsV3_zero.
  - intros k b Hk Hc. rewrite Hr. by apply (Hb k b Hk Hc).
Qed.

(** ** What the passes do to a bet *)

(** From v3 on a pass either leaves a bet or settles an unfinished one. *)
Lemma settle_results_lookup env nLast rl v s v' s' k :
  V3 env <= nLast -> settle_results env nLast rl v s = Some (v', s') ->
  bets v' !! k = bets v !! k \/
  exists b r st, bets v !! k = Some b /\ bet_completed b = false /\ r ∈ rl /\ is_result r eventClosed = false /\
    settle_bet env (results v) nLast r b = Some (Some st) /\ bets v' !! k = Some (st_bet st).
Proof.
  intros Hv3. revert v s. induction rl as [|r rl IH]; intros v s.
  { intros [= <- <-]. by left. }
  rewrite settle_results_cons. destruct (is_result r eventClosed) eqn:Ec.
  - intros H. apply IH in H as [?|(b & r' & st & ?)]; [by left|]. right. exists b, r', st.
    rewrite elem_of_cons. naive_solver.
  - destruct (settlements _ _ _ _ _) as [sts|] eqn:Es; [|done]. cbn [mbind option_bind].
    intros H. apply IH in H. simpl in H. destruct (pass_keys_dec sts k) as [[st Hin]|Hn].
    + destruct (settlements_In _ _ _ _ _ _ _ _ Es Hin) as (b & Hb & Hst).
      apply pass_entries_In in Hb as [Hb _].
      rewrite (pass_lookup_settled _ _ _ _ _ _ Es k st Hin) in H.
      pose proof (settle_bet_completed _ _ _ _ _ _ Hst) as Hc.
      right. exists b, r, st. rewrite elem_of_cons. split_and!; [done| |by left|done|done|].
      * destruct (bet_completed b) eqn:Hbc; [|done]. by rewrite settle_bet_skip in Hst.
      * destruct H as [H|(b' & ? & ? & [= <-] & ? & _)]; [done|congruence].
    + rewrite (pass_lookup_other _ _ _ _ _ _ Es k Hn) in H.
      destruct H as [?|(b & r' & st & ?)]; [by left|]. right. exists b, r', st.
      rewrite elem_of_cons. naive_solver.
Qed.

(** ** Undoing the settlement *)
Definition undo_hits env nCur (rs : gmap Z CPeerlessResultDB) rl k (b : CPeerlessBetDB) : bool :=
  bet_completed b && existsb (fun r => negb (is_result r eventClosed) && needs_undo rs r b) rl &&
  bool_decide (kle (seek_height (GetBetSearchStartHeight env nCur)) k).

Lemma undo_pass_lookup env nCur rs r (m : gmap PeerlessBetKey CPeerlessBetDB) k :
  update_all m (undo_entries rs r (dbIterate m (seek_height (GetBetSearchStartHeight env nCur)))) !! k =
  match m !! k with
  | Some b => Some (if bet_completed b && needs_undo rs r b &&
                       bool_decide (kle (seek_height (GetBetSearchStartHeight env nCur)) k)
                    then uncomplete b else b)
  | None => None
  end.
Proof.
  set (l := dbIterate _ _). set (u := undo_entries rs r l).
  assert (forall k b, (k, b) ∈ u <-> exists b0, (k, b0) ∈ l /\ b = uncomplete b0 /\
    bet_completed b0 && needs_undo rs r b0 = true) as Hu.
  { intros k' b. unfold u, undo_entries. rewrite list_elem_of_omap. split.
    - intros ([k0 b0] & Hin & E). destruct (bet_completed b0 && needs_undo rs r b0) eqn:Eb; simplify_eq. eauto.
    - intros (b0 & Hin & -> & Eb). exists (k', b0). by rewrite Eb. }
  assert (NoDup u.*1) as Hnd.
  { assert (u.*1 `sublist_of` l.*1) as Hsub.
    { unfold u, undo_entries. clear. induction l as [|[k b] l IH]; csimpl; [constructor|].
      destruct (bet_completed b && needs_undo rs r b); csimpl; [by apply sublist_skip|by apply sublist_cons]. }
    eapply sublist_NoDup; [|exact Hsub]. apply (pass_entries_NoDup env nCur m). }
  assert (forall k b, (k, b) ∈ l <-> m !! k = Some b /\ kle (seek_height (GetBetSearchStartHeight env nCur)) k) as Hl
    by (intros; apply pass_entries_In).
  rewrite update_all_lookup; [|done|].
  2: { intros k' Hk'. apply list_elem_of_fmap in Hk' as ([k1 b1] & -> & Hin). apply Hu in Hin as (b0 & Hin & _).
       apply Hl in Hin as [Hin _]. simpl. eauto. }
  destruct ((list_to_map u : gmap _ _) !! k) as [b|] eqn:E.
  - apply elem_of_list_to_map_2, Hu in E as (b0 & Hin & -> & Eb). apply Hl in Hin as [-> Hk].
    by rewrite Eb, bool_decide_eq_true_2.
  - destruct (m !! k) as [b|] eqn:Eb; [|done]. destruct (bet_completed b && needs_undo rs r b) eqn:Ec; [|done].
    simpl. case_bool_decide as Hk; [|done]. exfalso.
    apply not_elem_of_list_to_map_2 in E. apply E. apply list_elem_of_fmap. exists (k, uncomplete b).
    split; [done|]. apply Hu. exists b. split_and!; [|done|done]. by apply Hl.
Qed.

Lemma undo_results_lookup env nCur rl v k :
  results (undo_results env nCur rl v) = results v /\
  bets (undo_results env nCur rl v) !! k =
    match bets v !! k with
    | Some b => Some (if undo_hits env nCur (results v) rl k b then uncomplete b else b)
    | None => None
    end.
Proof.
  revert v. induction rl as [|r rl IH]; intros v; cbn [undo_results].
  { split; [done|]. unfold undo_hits. simpl. destruct (bets v !! k) as [b|]; [|done].
    by rewrite andb_false_r. }
  unfold undo_hits. cbn [existsb]. destruct (is_result r eventClosed) eqn:Ec; cbn [negb andb orb].
  { apply IH. }
  destruct (IH (v <| bets := update_all (bets v) (undo_entries (results v) r
    (dbIterate (bets v) (seek_height (GetBetSearchStartHeight env nCur)))) |>)) as [Hr ->].
  split; [by rewrite Hr|]. change (bets (set_field bets ?f ?w)) with (f (bets w)).
  change (results (set_field bets ?f ?w)) with (results w). cbv beta. rewrite undo_pass_lookup.
  destruct (bets v !! k) as [b|]; [|done]. f_equal. unfold undo_hits.
  destruct (bet_completed b) eqn:Hc; cbn [andb]; [|by rewrite Hc].
  destruct (needs_undo (results v) r b) eqn:Hn; cbn [andb orb]; [|by rewrite Hc].
  case_bool_decide; [done|]. rewrite Hc. by rewrite andb_false_r.
Qed.

Lemma parlay_odds_results env rs v3 t legs locked acc f r :
  parlay_odds env rs v3 t legs locked acc f = Some (Some r) ->
  forallb (fun leg => dbExists rs (leg_nEventId leg)) legs = true.
Proof.
  revert locked acc f. induction legs as [|leg legs IH]; intros locked acc f; cbn [parlay_odds forallb]; [done|].
  destruct locked as [|e locked]; [done|]. change (dbRead rs ?k) with (rs !! k).
  destruct (rs !! leg_nEventId leg) as [res|] eqn:E; [|done].
  rewrite (dbExists_Some _ _ res E). cbn [andb]. apply IH.
Qed.

Lemma settle_bet_needs_undo env rs nLast r b st :
  settle_bet env rs nLast r b = Some (Some st) ->
  needs_undo rs r (st_bet st) = true /\
  st_bet st = b <| bet_completed := true |> <| bet_resultType := bet_resultType (st_bet st) |>
                <| bet_payout := bet_payout (st_bet st) |> <| bet_payoutHeight := bet_payoutHeight (st_bet st) |>.
Proof.
  unfold settle_bet. cbv zeta. case_match; [done|].
  destruct (final_odds _ _ _ _ _ _) as [[[o f]|]|] eqn:Ef; cbn [mbind option_bind]; [|done|done].
  intros [= <-].
  assert (forall b', bet_legs b' = bet_legs b -> needs_undo rs r b' = true) as Hn.
  { intros b' Hl. unfold needs_undo, final_odds in *. rewrite Hl. repeat case_match; try done.
    rewrite andb_true_iff. split; [done|]. by eapply parlay_odds_results. }
  unfold complete_bet. cbv zeta. cbn [st_bet]. split.
  - apply Hn. by case_match.
  - by case_match; destruct b.
Qed.

(** A bet that has not been settled. *)
Definition pristine (b : CPeerlessBetDB) : Prop :=
  bet_completed b = false /\ bet_resultType b = betResultUnknown /\ bet_payout b = 0.

(** C3: undoing the settlement of a block.  From v3 on, when every
    unfinished bet is pristine and no finished bet is on an event resulted in
    the previous block with all its results known, undoing the payouts of the
    block restores every bet at or above the undo's search height, except for
    its payout height; a bet below it stays as the settlement left it, which
    includes the bets of the lowest height that the settlement searches. *)
Theorem UndoPLBetPayouts_restores env v pindexPrev p v1 p1 ok k :
  V3 env <= nHeight pindexPrev ->
  (forall k b, bets v !! k = Some b ->
     pristine b \/
     bet_completed b = true /\
     forall r, r ∈ results_from_db (results v) true (vResultIDs pindexPrev) -> needs_undo (results v) r b = false) ->
  GetPLBetPayoutsV3 env v pindexPrev p = Some (v1, p1, ok) ->
  let '(v2, ok2) := UndoPLBetPayouts env v1 pindexPrev in
  ok2 = true /\
  (kle (seek_height (GetBetSearchStartHeight env (nHeight pindexPrev + 1))) k ->
   match bets v !! k, bets v2 !! k with
   | Some b, Some b2 => b2 = b <| bet_payoutHeight := bet_payoutHeight b2 |>
   | None, None => True
   | _, _ => False
   end) /\
  (~ kle (seek_height (GetBetSearchStartHeight env (nHeight pindexPrev + 1))) k -> bets v2 !! k = bets v1 !! k).
Proof.
  intros Hv3 Hpre. unfold GetPLBetPayoutsV3, UndoPLBetPayouts, GetPLResultsFromDB. cbn [mbind option_bind].
  cbv zeta. replace (V3 env <=? nHeight pindexPrev) with true by lia.
  set (rl := results_from_db (results v) true (vResultIDs pindexPrev)) in *.
  intros H. apply bind_Some in H as ([v1' s1] & Hs & [= <- <- <-]).
  pose proof (settle_results_unfinished _ _ _ _ _ _ _ Hs) as (Hr & _ & _). rewrite Hr. fold rl.
  pose proof (settle_results_lookup _ _ _ _ _ _ _ k Hv3 Hs) as Hk.
  destruct (undo_results_lookup env (nHeight pindexPrev + 1) rl v1' k) as [_ Hu]. rewrite Hr in Hu.
  split_and!; [done| |].
  - intros Hle. rewrite Hu. destruct Hk as [-> | (b & r & st & Hb & Hbc & Hin & Hcl & Hst & ->)].
    + destruct (bets v !! k) as [b|] eqn:Eb; [|done]. destruct (Hpre k b Eb) as [[Hc _]|[Hc Hn]].
      * unfold undo_hits. rewrite Hc. by destruct b.
      * replace (undo_hits _ _ _ _ _ _) with false; [by destruct b|]. symmetry. unfold undo_hits.
        replace (existsb _ rl) with false; [by rewrite andb_false_r|]. symmetry.
        apply existsb_false_forall. intros r Hr'. rewrite Hn by done. apply andb_false_r.
    + rewrite Hb. destruct (settle_bet_needs_undo _ _ _ _ _ _ Hst) as [Hn Hsb].
      replace (undo_hits _ _ _ _ _ _) with true.
      * destruct (Hpre k b Hb) as [(Hc & Hrt & Hp)|[Hc _]]; [|congruence].
        rewrite Hsb. destruct b. simpl in *. by subst.
      * symmetry. unfold undo_hits. rewrite Hsb at 1. simpl. rewrite bool_decide_eq_true_2 by done.
        rewrite andb_true_r. apply existsb_exists. exists r. split; [by apply list_elem_of_In|].
        by rewrite Hcl, Hn.
  - intros Hle. rewrite Hu. destruct (bets v1' !! k) as [b|]; [|done]. unfold undo_hits.
    by rewrite bool_decide_eq_false_2, andb_false_r.
Qed.

(** ** Amounts *)

(** Products of a stake of at most 10000 coins and odds of at most the maximum. *)
Lemma stake_times_small stake odds :
  0 <= stake <= 10000 * COIN -> 0 <= odds <= BET_MAXODDS ->
  stake_times stake odds = (stake * odds) `div` BET_ODDSDIVISOR.
Proof.
  unfold COIN, BET_MAXODDS, BET_ODDSDIVISOR, stake_times. intros Hs Ho.
  rewrite wrapS_small by (try lia; unfold inS; change (2 ^ (64 - 1)) with 9223372036854775808; nia).
  rewrite Z.quot_div_nonneg; [done|nia|done].
Qed.

Lemma stake_times_mono stake o1 o2 :
  0 <= stake <= 10000 * COIN -> 0 <= o1 <= o2 -> o2 <= BET_MAXODDS ->
  0 <= stake_times stake o1 <= stake_times stake o2.
Proof.
  intros Hs Ho Hm. rewrite !stake_times_small by lia. unfold BET_ODDSDIVISOR.
  split; [apply Z.div_pos; nia|apply Z.div_le_mono; nia].
Qed.

Lemma range_odds_pair_ok env v3 stake m o : pair_ok m o -> pair_ok m (range_odds env v3 stake o).
Proof. intros. unfold range_odds. repeat case_match; auto with wagerr. Qed.

Lemma complete_bet_amounts env h b o f m :
  0 <= bet_betAmount b <= 10000 * COIN -> pair_ok m o -> m <= BET_MAXODDS ->
  let st := complete_bet env true h b o f in
  let fo := range_odds env true (bet_betAmount b) o in
  st_gross st = (bet_betAmount b * fo.1) `div` BET_ODDSDIVISOR /\
  st_effective st = (bet_betAmount b * fo.2) `div` BET_ODDSDIVISOR /\
  bet_payout (st_bet st) = st_effective st /\
  0 <= st_effective st <= st_gross st /\
  st_gross st <= stake_times (bet_betAmount b) (Z.max BET_ODDSDIVISOR m) /\
  (bet_resultType (st_bet st) = betResultLose <-> st_effective st = 0) /\
  (st_effective st = 0 <-> st_payout st = None) /\
  (forall out t, st_payout st = Some (out, t) ->
     CBetOut_new (st_effective st) (GetScriptForDestination env (bet_playerAddress b)) (bet_betAmount b) = out).
Proof.
  intros Hs Ho Hm. cbv zeta. unfold complete_bet. cbv zeta.
  destruct (range_odds_pair_ok env true (bet_betAmount b) m o Ho) as [H1 H2].
  set (fo := range_odds env true (bet_betAmount b) o) in *. unfold effective_payout. cbn [negb].
  assert (Z.max BET_ODDSDIVISOR m <= BET_MAXODDS) as Hmax by (unfold BET_MAXODDS, BET_ODDSDIVISOR in *; lia).
  pose proof (stake_times_mono (bet_betAmount b) fo.2 fo.1 Hs H1 ltac:(lia)) as He.
  pose proof (stake_times_mono (bet_betAmount b) fo.1 (Z.max BET_ODDSDIVISOR m) Hs ltac:(lia) Hmax) as Hg.
  cbn [st_bet st_payout st_effective st_gross]. split_and!; [apply stake_times_small; lia|apply stake_times_small; lia|by case_match|lia|lia|lia|..].
  - destruct (0 <? _) eqn:E; simpl; [|split; [lia|done]]. split; [|lia]. unfold result_type. by repeat case_match.
  - destruct (0 <? _) eqn:E; split; try done; lia.
  - intros out t. case_match; [|done]. by intros [= <- _].
Qed.

(** ** The betting rules *)

(** What becomes of a stake, or of half a stake. *)
Inductive Fate := Won | Level | Lost.

Definition fate_of_margin (margin : Z) : Fate :=
  if 0 <? margin then Won else if margin =? 0 then Level else Lost.

(** The handicaps a spread bet is played at: one for the whole stake, or for
    a quarter handicap its two neighbours with half a stake each. *)
Definition handicaps (sp : Z) : list Z :=
  if Z.rem sp 50 =? 0 then [sp]
  else if Z.rem sp 25 =? 0 then [toward_zero sp; from_zero sp] else [].

Definition fates (t : OutcomeType) (e : CPeerlessBaseEventDB) (r : CPeerlessResultDB) : list Fate :=
  let lead := rs_nHomeScore r - rs_nAwayScore r in
  let total := rs_nHomeScore r + rs_nAwayScore r in
  match t with
  | moneyLineHomeWin => [if 0 <? lead then Won else Lost]
  | moneyLineAwayWin => [if lead <? 0 then Won else Lost]
  | moneyLineDraw => [if lead =? 0 then Won else Lost]
  | spreadHome => (fun h => fate_of_margin (lead + h)) <$> handicaps (be_nSpreadPoints e)
  | spreadAway => (fun h => fate_of_margin (- (lead + h))) <$> handicaps (be_nSpreadPoints e)
  | totalOver => [fate_of_margin (total - be_nTotalPoints e)]
  | totalUnder => [fate_of_margin (be_nTotalPoints e - total)]
  end.

(** {gross, effective} odds: a win has a commission of 6% on the profit. *)
Definition share (odds : Z) (f : Fate) : Z * Z :=
  match f with
  | Won => (odds, 10000 + ((odds - 10000) * 94) `div` 100)
  | Level => (10000, 10000)
  | Lost => (0, 0)
  end.

Definition shares (odds : Z) (fs : list Fate) : Z * Z :=
  match fs with
  | [f] => share odds f
  | [f1; f2] => half_half (share odds f1) (share odds f2)
  | _ => (0, 0)
  end.

(** The result type that calls off a market. *)
Definition market_refund (t : OutcomeType) : ResultType :=
  match t with
  | moneyLineHomeWin | moneyLineAwayWin | moneyLineDraw => mlRefund
  | spreadHome | spreadAway => spreadsRefund
  | totalOver | totalUnder => totalsRefund
  end.

Definition called_off (leg : CPeerlessLegDB) (e : CPeerlessBaseEventDB) (r : CPeerlessResultDB)
    (t : OutcomeType) : bool :=
  is_result r eventRefund || is_result r (market_refund t) || (GetBetPotentialOdds leg e =? 0).

(** Scores and handicap small enough for the sums of the source. *)
Definition in_range (e : CPeerlessBaseEventDB) (r : CPeerlessResultDB) : Prop :=
  0 <= rs_nHomeScore r < 2 ^ 30 /\ 0 <= rs_nAwayScore r < 2 ^ 30 /\ - 2 ^ 30 <= be_nSpreadPoints e <= 2 ^ 30.

Lemma win_odds_share odds : odds_ok odds -> odds <> 0 -> win_odds odds = share odds Won.
Proof. intros [?|H] ?; [done|]. unfold win_odds. by rewrite CalculateEffectiveOdds_ge. Qed.

Lemma share_margin odds m : odds_ok odds -> odds <> 0 ->
  (if m =? 0 then refund_odds else if 0 <? m then win_odds odds else lose_odds) = share odds (fate_of_margin m).
Proof.
  intros H1 H2. rewrite win_odds_share by done. unfold fate_of_margin.
  destruct (Z.eqb_spec m 0) as [->|]; [done|]. by case_match.
Qed.

(** The spread of either side, from the lead of that side. *)
Lemma spread_shares e d (home : bool) :
  let odds := if home then be_nSpreadHomeOdds e else be_nSpreadAwayOdds e in
  let signed h := if home then h else - h in
  odds_ok odds -> odds <> 0 -> odds <= asian_max ->
  - 2 ^ 30 <= be_nSpreadPoints e <= 2 ^ 30 -> - 2 ^ 30 < d < 2 ^ 30 ->
  (if Z.rem (be_nSpreadPoints e) 50 =? 0 then
     if signed (be_nSpreadPoints e) + d =? 0 then refund_odds
     else if 0 <? signed (be_nSpreadPoints e) + d then win_odds odds else lose_odds
   else if Z.rem (be_nSpreadPoints e) 25 =? 0 then CalculateAsianSpreadOdds e d home else lose_odds) =
  shares odds ((fun h => fate_of_margin (signed h + d)) <$> handicaps (be_nSpreadPoints e)).
Proof.
  intros odds signed Hok Hnz Hmax Hsp Hd. unfold handicaps.
  destruct (Z.eqb_spec (Z.rem (be_nSpreadPoints e) 50) 0) as [|H50]; [by apply share_margin|].
  destruct (Z.eqb_spec (Z.rem (be_nSpreadPoints e) 25) 0) as [H25|]; [|done].
  pose proof (asian_sp_small _ false home Hsp H25 H50) as (E1 & Hb1 & _).
  pose proof (asian_sp_small _ true home Hsp H25 H50) as (E2 & Hb2 & _).
  cbv zeta in Hb1, Hb2. change (2 ^ 30) with 1073741824 in *.
  rewrite CalculateAsianSpreadOdds_halves, E1, E2 by done. fold odds.
  rewrite !asian_half_margin by (change (2 ^ 31) with 2147483648; destruct home; lia).
  cbn [fmap list_fmap shares]. by rewrite !share_margin.
Qed.

(** The odds of a settled leg are those of the rules. *)
Lemma GetBetOdds_rules leg e r t :
  event_odds_ok e -> in_range e r -> OutcomeType_of (leg_nOutcome leg) = Some t ->
  GetBetOdds leg e r true =
    if called_off leg e r t then (10000, 10000) else shares (GetBetPotentialOdds leg e) (fates t e r).
Proof.
  intros (?&?&?&?&?&?&?&?&?) (Hh & Ha & Hsp) Ht.
  unfold GetBetOdds, called_off, GetBetPotentialOdds. rewrite Ht. cbv zeta. cbn [negb].
  destruct (is_result r eventRefund); [done|]. cbn [orb].
  destruct t; cbn [market_refund]; rewrite ?andb_true_r; destruct (is_result r _); try done; cbn [orb];
    lazymatch goal with |- (if ?x =? 0 then _ else _) = _ => destruct (Z.eqb_spec x 0) as [|Hnz] end; try done.
  1-3: cbn [fates shares]; rewrite win_odds_share by done; repeat case_match; try done; lia.
  3-4: cbn [fates shares]; rewrite (wrapU_small 32) by range; rewrite <- share_margin by done;
       repeat case_match; try done; lia.
  all: change (2 ^ 30) with 1073741824 in *; rewrite !i32_small by
    (change (2 ^ 31) with 2147483648; rewrite ?i32_small; change (2 ^ 31) with 2147483648; lia).
  - pose proof (spread_shares e (rs_nHomeScore r - rs_nAwayScore r) true) as E. cbv zeta iota in E.
    change (2 ^ 30) with 1073741824 in E. rewrite E by (done || lia). cbn [fates]. f_equal.
    apply list_fmap_ext. intros ? h _. f_equal. lia.
  - pose proof (spread_shares e (rs_nAwayScore r - rs_nHomeScore r) false) as E. cbv zeta iota in E.
    change (2 ^ 30) with 1073741824 in E. replace (be_nSpreadPoints e * -1) with (- be_nSpreadPoints e) by lia.
    rewrite E by (done || lia). cbn [fates]. f_equal.
    apply list_fmap_ext. intros ? h _. f_equal. lia.
Qed.

(** The odds at which the rules settle a bet of one leg: even money for a bet
    that was placed too late, whose stake is out of range or whose market was
    called off. *)
Definition rule_odds (env : ChainEnv) (b : CPeerlessBetDB) (leg : CPeerlessLegDB) (e : CPeerlessBaseEventDB)
    (r : CPeerlessResultDB) (t : OutcomeType) : Z * Z :=
  if bet_too_late env (be_nStartTime e) (bet_betTime b) ||
     negb (amount_in_range env (bet_betAmount b) (MaxBetPayoutRange (Params env))) || called_off leg e r t
  then (10000, 10000) else shares (GetBetPotentialOdds leg e) (fates t e r).

Lemma single_odds_rules env nLast b leg e r t :
  event_odds_ok e -> in_range e r -> OutcomeType_of (leg_nOutcome leg) = Some t ->
  range_odds env true (bet_betAmount b) (single_odds env true nLast (bet_betTime b) leg e r) =
  rule_odds env b leg e r t.
Proof.
  intros He Hr Ht. unfold range_odds, single_odds, rule_odds. cbn [negb andb].
  rewrite (GetBetOdds_rules _ _ _ _ He Hr Ht).
  by destruct (bet_too_late _ _ _), (amount_in_range _ _ _).
Qed.

(** C36: settling a single bet.  From v3 on, a bet of at most 10000 coins
    on one leg is settled by the result of its event unless it is already
    completed, and by no other result.  The odds locked for the event are 0 or
    at least even money, those of the leg at most the maximum of 990000, and
    those of the spreads at most 858993 (above it the half stakes of a quarter
    handicap overflow).  When the outcome is one of the seven and the scores and the
    handicap are below 2^30 (where the sums of the source are exact), it is
    paid by the betting rules: its stake back when it was placed too late,
    when the stake is out of the payout range, or when the event or the
    market was called off or had no odds; its stake times the odds locked for
    it, less 6% of the profit, when the outcome it names happened; its stake
    back when a spread or a total came out level; nothing when it lost.  A
    spread bet at a quarter handicap is two bets of half the stake, and a
    handicap that is no multiple of a quarter loses.  Always, the amount paid
    is at most the gross winnings, which are at most the stake times the
    locked odds (or the stake itself); it is recorded in the bet, goes to the
    player's script, and is 0 exactly when the bet is recorded as lost. *)
Theorem settle_bet_single env rs nLast r b leg e es :
  V3 env <= nLast -> bet_legs b = [leg] -> bet_lockedEvents b = e :: es -> event_odds_ok e ->
  GetBetPotentialOdds leg e <= BET_MAXODDS -> 0 <= bet_betAmount b <= 10000 * COIN ->
  exists st,
  settle_bet env rs nLast r b =
    (if bet_completed b || negb (leg_nEventId leg =? rs_nEventId r) then Some None else Some (Some st)) /\
  (forall t, OutcomeType_of (leg_nOutcome leg) = Some t -> in_range e r ->
     st_gross st = (bet_betAmount b * (rule_odds env b leg e r t).1) `div` 10000 /\
     st_effective st = (bet_betAmount b * (rule_odds env b leg e r t).2) `div` 10000) /\
  bet_completed (st_bet st) = true /\
  bet_payout (st_bet st) = st_effective st /\
  0 <= st_effective st <= st_gross st /\
  st_gross st <= (bet_betAmount b * Z.max BET_ODDSDIVISOR (GetBetPotentialOdds leg e)) `div` BET_ODDSDIVISOR /\
  (bet_resultType (st_bet st) = betResultLose <-> st_effective st = 0) /\
  (st_effective st = 0 <-> st_payout st = None) /\
  (forall out t, st_payout st = Some (out, t) ->
     out = CBetOut_new (st_effective st) (GetScriptForDestination env (bet_playerAddress b)) (bet_betAmount b)).
Proof.
  intros Hv3 Hlegs Hlocked Hodds Hmax Hs.
  set (o := single_odds env true nLast (bet_betTime b) leg e r).
  assert (pair_ok (GetBetPotentialOdds leg e) o) as Ho.
  { unfold o, single_odds. repeat case_match; auto with wagerr. by apply GetBetOdds_pair_ok. }
  exists (complete_bet env true (nLast + 1) b o (flag_leg no_flags o.1 (GetBetPotentialOdds leg e))).
  split.
  { unfold settle_bet, final_odds. cbv zeta. replace (V3 env <=? nLast) with true by lia. cbn [andb].
    destruct (bet_completed b); [done|]. rewrite Hlegs, Hlocked. by case_match. }
  destruct (complete_bet_amounts env (nLast + 1) b o (flag_leg no_flags o.1 (GetBetPotentialOdds leg e)) _ Hs Ho Hmax)
    as (Hg & He & H1 & H2 & H3 & H4 & H5 & H6).
  rewrite stake_times_small in H3; [|done|unfold BET_MAXODDS, BET_ODDSDIVISOR in *; lia].
  split_and!; [| |done|lia|lia|lia|exact H4|exact H5|].
  - intros t Ht Hr. rewrite Hg, He. unfold o. by rewrite !(single_odds_rules _ _ _ _ _ _ t).
  - unfold complete_bet. cbv zeta. by case_match.
  - intros out t Ht. symmetry. by eapply H6.
Qed.

(** The rewards.  From v3 on a tenth of the fee goes to the developers
    and four tenths to the OMNO address: together at most half of the fee the
    players left, so that payouts and rewards never exceed the gross
    winnings; without an active oracle there is no reward. *)
Theorem GetPLRewardPayoutsV3_half env h fee p :
  0 <= fee <= MAX_MONEY `div` 1000 ->
  exists rewards,
    (GetPLRewardPayoutsV3 env h fee p).1 = p.1 ++ rewards /\
    2 * foldr (fun o acc => bo_nValue o + acc) 0 rewards <= fee /\
    Forall (fun o => 0 < bo_nValue o) rewards /\ (length rewards <= 2)%nat /\
    (GetFeePayoutScripts env h = None -> rewards = []).
Proof.
  intros Hf. change (MAX_MONEY `div` 1000) with 39836047000000 in Hf. unfold GetPLRewardPayoutsV3.
  destruct (GetFeePayoutScripts env h) as [[dev omno]|].
  2: { exists []. rewrite app_nil_r. split_and!; [done|simpl; lia|done|simpl; lia|done]. }
  rewrite !(wrapS_small 64) by (try lia; range). unfold BET_ODDSDIVISOR. rewrite !Z.quot_div_nonneg by lia.
  cbv zeta. exists ((if 0 <? (fee * 1000) `div` 10000 then [CBetOut_new ((fee * 1000) `div` 10000) dev 0] else []) ++
    (if 0 <? (fee * 4000) `div` 10000 then [CBetOut_new ((fee * 4000) `div` 10000) omno 0] else [])).
  split_and!.
  - destruct (0 <? (fee * 1000) `div` 10000), (0 <? (fee * 4000) `div` 10000);
      cbn [app]; unfold add_payout; cbn [fst]; by rewrite ?app_nil_r, <- ?app_assoc.
  - destruct (0 <? (fee * 1000) `div` 10000), (0 <? (fee * 4000) `div` 10000);
      simpl; Z.div_mod_to_equations; lia.
  - apply Forall_app. split; case_match eqn:E; repeat constructor; simpl; lia.
  - destruct (0 <? (fee * 1000) `div` 10000), (0 <? (fee * 4000) `div` 10000); simpl; lia.
  - done.
Qed.
