(* ===== verification/Dice.v ===== *)
(** * Quick games: the dice game
    (src/src/betting/quickgames/dice.cpp, src/src/betting/quickgames/dice.h,
    src/src/betting/quickgames/qgview.h)

    Two dice are read off the 256-bit seed, the proof-of-stake hash of the
    block.  [None] stands for a handler that does not return: the stream ends
    before the bet is read, a division by zero, or the loop whose 32-bit
    counter never passes 0xffffffff. *)

From S2P Require Import Prelude Serialize Params BetTx BetDB BetKeys Flushable BetView BetCommon.

Inductive QuickGamesDiceBetType :=
  | qgDiceEqual
  | qgDiceNotEqual
  | qgDiceTotalOver
  | qgDiceTotalUnder
  | qgDiceEven
  | qgDiceOdd
  | qgDiceUndefined
  | qgDiceOther (z : Z).

#[export] Instance QuickGamesDiceBetType_eq_dec : EqDecision QuickGamesDiceBetType.
Proof. solve_decision. Defined.

Definition QuickGamesDiceBetType_value (t : QuickGamesDiceBetType) : Z :=
  match t with
  | qgDiceEqual => 0
  | qgDiceNotEqual => 1
  | qgDiceTotalOver => 2
  | qgDiceTotalUnder => 3
  | qgDiceEven => 4
  | qgDiceOdd => 5
  | qgDiceUndefined => 255
  | qgDiceOther z => z
  end.

(** The cast of a byte: a value outside of the enumeration stays as it is. *)
Definition QuickGamesDiceBetType_of (z : Z) : QuickGamesDiceBetType :=
  if z =? 0 then qgDiceEqual
  else if z =? 1 then qgDiceNotEqual
  else if z =? 2 then qgDiceTotalOver
  else if z =? 3 then qgDiceTotalUnder
  else if z =? 4 then qgDiceEven
  else if z =? 5 then qgDiceOdd
  else if z =? 255 then qgDiceUndefined
  else qgDiceOther z.

Record DiceBetInfo := { betType : QuickGamesDiceBetType; betNumber : Z }.

(** The number is written for every type but even and odd; the reader leaves
    it as it was there (it is not looked at then), which is 0 here. *)
Definition DiceBetInfo_codec : codec DiceBetInfo :=
  isoc (fun i => (betType i, betNumber i)) (fun '(t, n) => {| betType := t; betNumber := n |})
    (condc (enumc QuickGamesDiceBetType_value QuickGamesDiceBetType_of)
       (fun t => negb (bool_decide (t = qgDiceEven)) && negb (bool_decide (t = qgDiceOdd)))
       u32c 0).

(** uint64_t arithmetic: both products and the differences wrap. *)
Definition Dice_NumberOfWinCases (sum : Z) : Z :=
  if sum <=? 7 then u64 (sum - 1) else u64 (13 - sum).

(** arith_uint256::Get64. *)
Definition Get64 (x n : Z) : Z := (x `div` 2 ^ (64 * n)) `mod` 2 ^ 64.

Definition NUMBER_OF_OUTCOMES : Z := 36.

(** BET_ODDSDIVISOR * NUMBER_OF_OUTCOMES / n, converted to the return type. *)
Definition odds_for (n : Z) : option Z :=
  if n =? 0 then None else Some (u32 ((BET_ODDSDIVISOR * NUMBER_OF_OUTCOMES) `div` n)).

(** The loop [for (uint32_t i = 2; i <= betNumber; ++i)]. *)
Definition count_win_cases (betNumber : Z) : option Z :=
  if betNumber =? 4294967295 then None
  else Some (foldl (fun acc i => u64 (acc + Dice_NumberOfWinCases i)) 0 (seqZ 2 (betNumber - 1))).

Definition firstDice (seed : Z) : Z := Get64 seed 0 `mod` 6 + 1.

Definition secondDice (seed : Z) : Z := Get64 seed 1 `mod` 6 + 1.

Definition DiceHandler_info (info : DiceBetInfo) (seed : Z) : option Z :=
  let sum := firstDice seed + secondDice seed in
  let ty t := bool_decide (betType info = t) in
  if ty qgDiceOdd && (sum `mod` 2 =? 1) then Some (BET_ODDSDIVISOR * 2)
  else if ty qgDiceEven && (sum `mod` 2 =? 0) then Some (BET_ODDSDIVISOR * 2)
  else if ty qgDiceEqual && (sum =? betNumber info) then odds_for (Dice_NumberOfWinCases (betNumber info))
  else if ty qgDiceNotEqual && negb (sum =? betNumber info) then
    odds_for (u64 (NUMBER_OF_OUTCOMES - Dice_NumberOfWinCases (betNumber info)))
  else if ty qgDiceTotalUnder && (sum <=? betNumber info) then
    numberOfWinCases ← count_win_cases (betNumber info); odds_for numberOfWinCases
  else if ty qgDiceTotalOver && (betNumber info <? sum) then
    numberOfWinCases ← count_win_cases (betNumber info);
    odds_for (u64 (NUMBER_OF_OUTCOMES - numberOfWinCases))
  else Some 0.

Definition DiceHandler (betInfo : list Z) (seed : Z) : option Z :=
  '(info, _) ← Unserialize DiceBetInfo_codec betInfo; DiceHandler_info info seed.

(** ** The table of quick games *)
Record CQuickGamesView := {
  qg_handler : list Z -> Z -> option Z;
  qg_specialAddress : list Z;
  qg_nFeePermille : Z;
  qg_nOMNORewardPermille : Z;
  qg_nDevRewardPermille : Z;
}.

(** Params().QuickGamesArr(), with the network's address for the dice game. *)
Definition QuickGamesArr (diceAddress : list Z) : list CQuickGamesView :=
  [{| qg_handler := DiceHandler; qg_specialAddress := diceAddress; qg_nFeePermille := 10;
      qg_nOMNORewardPermille := 400; qg_nDevRewardPermille := 100 |}].

(** ** The rules of the game *)

(** What a bet wins on, by the sum of the dice. *)
Definition dice_wins (t : QuickGamesDiceBetType) (n sum : Z) : bool :=
  match t with
  | qgDiceEqual => sum =? n
  | qgDiceNotEqual => negb (sum =? n)
  | qgDiceTotalOver => n <? sum
  | qgDiceTotalUnder => sum <=? n
  | qgDiceEven => Z.even sum
  | qgDiceOdd => Z.odd sum
  | _ => false
  end.

(** The 36 outcomes of two dice. *)
Definition outcomes : list (Z * Z) := a ← seqZ 1 6; b ← seqZ 1 6; [(a, b)].

Definition winning_outcomes (t : QuickGamesDiceBetType) (n : Z) : Z :=
  Z.of_nat (length (filter (fun '(a, b) => dice_wins t n (a + b) = true) outcomes)).

(** ** The dice *)
Lemma firstDice_range seed : firstDice seed ∈ seqZ 1 6.
Proof. unfold firstDice. apply elem_of_seqZ. pose proof (Z.mod_pos_bound (Get64 seed 0) 6). lia. Qed.

Lemma secondDice_range seed : secondDice seed ∈ seqZ 1 6.
Proof. unfold secondDice. apply elem_of_seqZ. pose proof (Z.mod_pos_bound (Get64 seed 1) 6). lia. Qed.

(** The handler looks at the seed through the two dice only. *)
Definition DiceHandler_dice (info : DiceBetInfo) (d1 d2 : Z) : option Z :=
  DiceHandler_info info (2 ^ 64 * (d2 - 1) + (d1 - 1)).

Lemma DiceHandler_info_dice info seed :
  DiceHandler_info info seed = DiceHandler_dice info (firstDice seed) (secondDice seed).
Proof.
  pose proof (firstDice_range seed) as H1. pose proof (secondDice_range seed) as H2.
  apply elem_of_seqZ in H1, H2.
  assert (firstDice (2 ^ 64 * (secondDice seed - 1) + (firstDice seed - 1)) = firstDice seed) as E1.
  { set (d2 := secondDice seed) in *. set (d1 := firstDice seed) in *.
    unfold firstDice, Get64. change (2 ^ (64 * 0)) with 1. rewrite Z.div_1_r.
    replace (2 ^ 64 * (d2 - 1) + (d1 - 1)) with (d1 - 1 + (d2 - 1) * 2 ^ 64) by lia.
    rewrite Z.mod_add, (Z.mod_small (d1 - 1) (2 ^ 64)) by lia. rewrite Z.mod_small; lia. }
  assert (secondDice (2 ^ 64 * (secondDice seed - 1) + (firstDice seed - 1)) = secondDice seed) as E2.
  { set (d2 := secondDice seed) in *. set (d1 := firstDice seed) in *.
    unfold secondDice, Get64. change (2 ^ (64 * 1)) with (2 ^ 64).
    replace (2 ^ 64 * (d2 - 1) + (d1 - 1)) with (d1 - 1 + (d2 - 1) * 2 ^ 64) by lia.
    rewrite Z.div_add, (Z.div_small (d1 - 1)) by lia.
    rewrite (Z.mod_small (0 + _) (2 ^ 64)), Z.mod_small; lia. }
  unfold DiceHandler_dice, DiceHandler_info. by rewrite E1, E2.
Qed.

Definition valid_dice_type (t : QuickGamesDiceBetType) : bool :=
  match t with qgDiceUndefined | qgDiceOther _ => false | _ => true end.

(** The rules, checked outcome by outcome. *)
Definition dice_ok (t : QuickGamesDiceBetType) (n : Z) (o : Z * Z) : bool :=
  bool_decide (DiceHandler_dice {| betType := t; betNumber := n |} o.1 o.2 =
    Some (if dice_wins t n (o.1 + o.2) then 360000 `div` winning_outcomes t n else 0)).

Lemma dice_ok_all :
  forallb (fun t => forallb (fun n => forallb (dice_ok t n) outcomes) (seqZ 2 11))
    [qgDiceEqual; qgDiceNotEqual; qgDiceTotalOver; qgDiceTotalUnder; qgDiceEven; qgDiceOdd] = true.
Proof. vm_compute. reflexivity. Qed.

Lemma elem_of_outcomes a b : a ∈ seqZ 1 6 -> b ∈ seqZ 1 6 -> (a, b) ∈ outcomes.
Proof.
  intros Ha Hb. unfold outcomes. apply list_elem_of_bind. exists a. split; [|done].
  apply list_elem_of_bind. exists b. split; [|done]. apply list_elem_of_here.
Qed.

(** The dice game pays what its rules say.  For every seed and every bet
    on a number from 2 to 12 the handler returns, and its odds are the fair
    odds, 36 outcomes over the number of outcomes the bet wins on, when the
    roll wins, and 0 when it loses. *)
Theorem DiceHandler_fair t n seed :
  valid_dice_type t = true -> 2 <= n <= 12 ->
  DiceHandler_info {| betType := t; betNumber := n |} seed =
    Some (if dice_wins t n (firstDice seed + secondDice seed)
          then (BET_ODDSDIVISOR * NUMBER_OF_OUTCOMES) `div` winning_outcomes t n else 0).
Proof.
  intros Ht Hn. rewrite DiceHandler_info_dice. pose proof dice_ok_all as H.
  rewrite forallb_forall in H. assert (In t [qgDiceEqual; qgDiceNotEqual; qgDiceTotalOver;
    qgDiceTotalUnder; qgDiceEven; qgDiceOdd]) as Hin by (destruct t; simpl; try done; tauto).
  apply H in Hin. rewrite forallb_forall in Hin.
  specialize (Hin n). rewrite <- list_elem_of_In, elem_of_seqZ in Hin. specialize (Hin ltac:(lia)).
  rewrite forallb_forall in Hin.
  specialize (Hin (firstDice seed, secondDice seed)). rewrite <- list_elem_of_In in Hin.
  apply (bool_decide_eq_true_1 _ (Hin (elem_of_outcomes _ _ (firstDice_range seed) (secondDice_range seed)))).
Qed.

(** The numbers the handler does not survive.  A bet on "total under"
    with the number 21 divides by zero, and one with the number 0xffffffff
    never leaves its loop, whatever the dice show; a bet cut short throws. *)
Theorem DiceHandler_crashes seed :
  DiceHandler (Serialize DiceBetInfo_codec {| betType := qgDiceTotalUnder; betNumber := 21 |}) seed = None /\
  DiceHandler (Serialize DiceBetInfo_codec {| betType := qgDiceTotalUnder; betNumber := 4294967295 |}) seed = None /\
  DiceHandler [] seed = None.
Proof.
  pose proof (firstDice_range seed) as H1. pose proof (secondDice_range seed) as H2.
  apply elem_of_seqZ in H1, H2.
  split_and!; [| |done]; unfold DiceHandler.
  - change (Unserialize _ _) with (Some ({| betType := qgDiceTotalUnder; betNumber := 21 |}, @nil Z)).
    cbn [mbind option_bind]. unfold DiceHandler_info. cbn [betType betNumber].
    replace (_ <=? 21) with true by lia. reflexivity.
  - change (Unserialize _ _) with (Some ({| betType := qgDiceTotalUnder; betNumber := 4294967295 |}, @nil Z)).
    cbn [mbind option_bind]. unfold DiceHandler_info. cbn [betType betNumber].
    replace (_ <=? 4294967295) with true by lia. reflexivity.
Qed.
