(* ===== verification/GamePayouts.v ===== *)
(** * Payouts of the quick games and of the chain games lotto
    (GetQuickGamesBetPayouts and GetCGLottoBetPayoutsV3 of
    src/src/betting/bet_v3.cpp, GetCGLottoBetPayoutsV2 of
    src/src/betting/bet_v2.cpp)

    Both draw on the proof-of-stake hash of the block before the new one.
    [PoSBlock] holds what the node knows of that block, the 256-bit values as
    integers. *)

From S2P Require Import Prelude Serialize Params BetTx BetDB BetKeys Flushable BetView BetCommon CheckTx.
From S2P Require Import ProcessTx Payouts Dice.

Record PoSBlock := {
  mapProofOfStake : Z;
  IsProofOfStake : bool;
  CheckProofOfStake : option Z;
  GetBlockHash : Z;
}.

(** The hash of the map, computed from the block when it is not there. *)
Definition hashProofOfStake (b : PoSBlock) : Z :=
  if mapProofOfStake b =? 0 then
    if IsProofOfStake b then
      match CheckProofOfStake b with
      | Some calculatedHashProofOfStake => calculatedHashProofOfStake
      | None => GetBlockHash b
      end
    else 0
  else mapProofOfStake b.

Section Games.
Context (env : ChainEnv).

(** ** Quick games *)
Section QuickGames.
Context (games : list CQuickGamesView).

Definition winnings_permille (betAmount odds : Z) : Z := i64 (betAmount * odds).

Definition fee_permille (betAmount odds nFeePermille : Z) : Z :=
  if 0 <? winnings_permille betAmount odds
  then i64 (Z.quot (i64 (betAmount * u32 (odds - BET_ODDSDIVISOR))) 1000 * nFeePermille)
  else 0.

Definition qg_payout (betAmount odds nFeePermille : Z) : Z :=
  if 0 <? winnings_permille betAmount odds
  then Z.quot (i64 (winnings_permille betAmount odds - fee_permille betAmount odds nFeePermille)) BET_ODDSDIVISOR
  else 0.

(** A share of the fee. *)
Definition qg_reward (feePermille permille : Z) : Z :=
  Z.quot (i64 (Z.quot feePermille 1000 * permille)) BET_ODDSDIVISOR.

Definition add_reward (m : gmap (list Z) Z) (address : list Z) (reward : Z) : gmap (list Z) Z :=
  match m !! address with
  | None => <[address := reward]> m
  | Some r => <[address := i64 (r + reward)]> m
  end.

Record QGState := {
  qs_payouts : payouts;
  qs_rewards : gmap (list Z) Z;
}.

(** One bet: outer [None], the handler does not return; inner [None], the
    loop continues without completing the bet. *)
Definition handle_qg_bet (nNewBlockHeight seed : Z) (qgKey : PeerlessBetKey) (qgBet : CQuickGamesBetDB)
    (s : QGState) : option (option (QGState * CQuickGamesBetDB)) :=
  if qgbet_completed qgBet then Some None
  else
    match games !! Z.to_nat (qgbet_gameType qgBet) with
    | None => Some None
    | Some gameView =>
        odds ← qg_handler gameView (qgbet_vBetInfo qgBet) seed;
        let feePermille := fee_permille (qgbet_betAmount qgBet) odds (qg_nFeePermille gameView) in
        let payout := qg_payout (qgbet_betAmount qgBet) odds (qg_nFeePermille gameView) in
        let refund := odds =? BET_ODDSDIVISOR in
        let finish b := b <| qgbet_completed := true |> <| qgbet_payout := payout |> in
        if 0 <? payout then
          match GetFeePayoutAddresses env nNewBlockHeight with
          | None => Some None
          | Some (_, OMNOPayoutAddr) =>
              let info := {| pi_betKey := qgKey;
                             pi_payoutType := if refund then quickGamesRefund else quickGamesPayout |} in
              let out := CBetOut_new payout (GetScriptForDestination env (qgbet_playerAddress qgBet))
                           (qgbet_betAmount qgBet) in
              let rewards := add_reward (qs_rewards s) (qg_specialAddress gameView)
                               (qg_reward feePermille (qg_nDevRewardPermille gameView)) in
              let rewards := add_reward rewards OMNOPayoutAddr
                               (qg_reward feePermille (qg_nOMNORewardPermille gameView)) in
              Some (Some ({| qs_payouts := add_payout (qs_payouts s) out info; qs_rewards := rewards |},
                          finish (qgBet <| qgbet_resultType := if refund then betResultRefund else betResultWin |>)))
          end
        else Some (Some (s, finish (qgBet <| qgbet_resultType := betResultLose |>)))
    end.

(** The bets of one height; vEntriesToUpdate comes last. *)
Fixpoint handle_qg_bets (nNewBlockHeight blockHeight seed : Z) (l : list (PeerlessBetKey * CQuickGamesBetDB))
    (s : QGState) : option (QGState * list (PeerlessBetKey * CQuickGamesBetDB)) :=
  match l with
  | [] => Some (s, [])
  | (qgKey, qgBet) :: l =>
      if negb (bk_blockHeight qgKey =? blockHeight) then Some (s, [])
      else
        r ← handle_qg_bet nNewBlockHeight seed qgKey qgBet s;
        match r with
        | None => handle_qg_bets nNewBlockHeight blockHeight seed l s
        | Some (s, qgBet) =>
            '(s, upd) ← handle_qg_bets nNewBlockHeight blockHeight seed l s;
            Some (s, (qgKey, qgBet) :: upd)
        end
  end.

(** The reward outputs, in the order of the addresses. *)
Definition add_qg_rewards (nNewBlockHeight : Z) (rewards : gmap (list Z) Z) (p : payouts) : payouts :=
  foldl (fun p '(address, reward) =>
           add_payout p (CBetOut_new reward (GetScriptForDestination env (DecodeDestination env address)) 0)
             (reward_info (u32 nNewBlockHeight) quickGamesReward))
    p (sorted_entries rewards).

Definition GetQuickGamesBetPayouts (lastBlock : PoSBlock) (v : CBettingsView) (nNewBlockHeight : Z)
    (p : payouts) : option (CBettingsView * payouts) :=
  let nLastBlockHeight := nNewBlockHeight - 1 in
  if QuickGamesEndHeight (Params env) <=? nLastBlockHeight then Some (v, p)
  else
    let blockHeight := u32 nLastBlockHeight in
    '(s, upd) ← handle_qg_bets nNewBlockHeight blockHeight (hashProofOfStake lastBlock)
                  (dbIterate (quickGamesBets v) (seek_height blockHeight))
                  {| qs_payouts := p; qs_rewards := ∅ |};
    Some (v <| quickGamesBets := update_all (quickGamesBets v) upd |>,
          add_qg_rewards nNewBlockHeight (qs_rewards s) (qs_payouts s)).
End QuickGames.

(** ** Chain games *)

(** arith_uint256: the remainder from the quotient, then its low 64 bits. *)
Definition winner_nr (hash noOfBets : Z) : Z :=
  let tempVal := hash `div` noOfBets in
  let tempVal := (tempVal * noOfBets) `mod` 2 ^ 256 in
  let tempVal := (hash - tempVal) `mod` 2 ^ 256 in
  Get64 tempVal 0.

Definition total_pot (hash noOfBets entranceFee : Z) : Z :=
  if hash =? 0 then 0 else i64 (u64 (noOfBets * entranceFee)).

Definition winner_payout (totalPot : Z) : Z := i64 (Z.quot totalPot 10 * 8).

Definition lotto_fee (totalPot : Z) : Z := Z.quot totalPot 50.

(** Both vectors; the lotto writes the event id of a payout. *)
Definition lotto_out (value : Z) (script : list Z) (bet nEventId : Z) : CBetOut :=
  {| bo_nValue := value; bo_scriptPubKey := script; bo_nBetValue := bet; bo_nEventId := nEventId |}.

(** The candidates of a result: unfinished bets on the event with the entry
    fee as stake, marked as completed. *)
Definition lotto_candidates (nEventId entranceFee : Z) (l : list (PeerlessBetKey * CChainGamesBetDB)) :
    list (PeerlessBetKey * CChainGamesBetDB) :=
  omap (fun '(k, b) =>
    if cgbet_completed b || negb (cgbet_nEventId b =? nEventId) || negb (cgbet_betAmount b =? entranceFee)
    then None else Some (k, b <| cgbet_completed := true |>)) l.

(** One result: the payouts and what is added to vEntriesToUpdate. *)
Definition settle_lotto (lastBlock : PoSBlock) (nNewBlockHeight nEventId entranceFee : Z)
    (candidates : list (PeerlessBetKey * CChainGamesBetDB)) (p : payouts) :
    option (payouts * list (PeerlessBetKey * CChainGamesBetDB)) :=
  match candidates with
  | [] => Some (p, [])
  | [(k, b)] =>
      if 0 <? entranceFee
      then Some (add_payout p
                   (lotto_out entranceFee (GetScriptForDestination env (cgbet_playerAddress b)) entranceFee nEventId)
                   {| pi_betKey := k; pi_payoutType := chainGamesRefund |}, [])
      else Some (p, [])
  | _ =>
      let noOfBets := Z.of_nat (length candidates) in
      let hash := hashProofOfStake lastBlock in
      let winnerNr := winner_nr hash noOfBets in
      '(k, b) ← candidates !! Z.to_nat winnerNr;
      let totalPot := total_pot hash noOfBets entranceFee in
      let winnerPayout := winner_payout totalPot in
      let fee := lotto_fee totalPot in
      let candidates := <[Z.to_nat winnerNr := (k, b <| cgbet_payout := winnerPayout |>)]> candidates in
      if 0 <? winnerPayout then
        match GetFeePayoutScripts env nNewBlockHeight with
        | None => Some (p, [])
        | Some (_, payoutScriptOMNO) =>
            let p := add_payout p
                       (lotto_out winnerPayout (GetScriptForDestination env (cgbet_playerAddress b)) entranceFee nEventId)
                       {| pi_betKey := k; pi_payoutType := chainGamesPayout |} in
            let p := add_payout p (CBetOut_new fee payoutScriptOMNO 0)
                       (reward_info (u32 nNewBlockHeight) chainGamesReward) in
            Some (p, candidates)
        end
      else Some (p, candidates)
  end.

(** The loop over the results; the table is not updated before its end. *)
Fixpoint settle_lottos (lastBlock : PoSBlock) (nNewBlockHeight : Z) (v : CBettingsView)
    (results_ : list CChainGamesResultDB) (p : payouts) :
    option (payouts * list (PeerlessBetKey * CChainGamesBetDB)) :=
  match results_ with
  | [] => Some (p, [])
  | result :: results_ =>
      match dbRead (chainGamesLottoEvents v) (cgres_nEventId result) with
      | None => settle_lottos lastBlock nNewBlockHeight v results_ p
      | Some cgEvent =>
          let entranceFee := cgev_nEntryFee cgEvent * COIN in
          '(p, upd) ← settle_lotto lastBlock nNewBlockHeight (cgres_nEventId result) entranceFee
                        (lotto_candidates (cgres_nEventId result) entranceFee
                           (dbIterate (chainGamesLottoBets v)
                              (seek_height (GetBetSearchStartHeight env (nNewBlockHeight - 1))))) p;
          '(p, rest) ← settle_lottos lastBlock nNewBlockHeight v results_ p;
          Some (p, upd ++ rest)
      end
  end.

Definition GetCGLottoBetPayoutsV3 (lastBlock : PoSBlock) (block : CBlock) (v : CBettingsView)
    (nNewBlockHeight : Z) (p : payouts) : option (CBettingsView * payouts) :=
  results_ ← GetCGLottoEventResults env (nNewBlockHeight - 1) (block_vtx block);
  '(p, upd) ← settle_lottos lastBlock nNewBlockHeight v results_ p;
  Some (v <| chainGamesLottoBets := update_all (chainGamesLottoBets v) upd |>, p).

(** ** The lotto of the old protocol, which reads the chain *)

(** eventFee, currentEventFound and the candidates.  The time of the event is
    never set in the source: the break on it is not taken. *)
Record LottoScan := {
  ls_eventFee : Z;
  ls_found : bool;
  ls_candidates : list (list Z * PeerlessBetKey);
}.

Definition scan_lotto_vout (currentEventID height : Z) (tx : CTransaction) (prevout : COutPoint)
    (i : Z) (txout : CTxOut) (s : LottoScan) : option LottoScan :=
  let betKey := {| bk_blockHeight := u32 height; bk_outPoint := {| op_hash := tx_hash tx; op_n := u32 i |} |} in
  match ParseBettingTx (scriptPubKey txout) with
  | Some (ChainGamesEventTx chainGameEvt) =>
      valid ← IsValidOracleTx env tx height;
      Some (if (valid : bool) && (cge_nEventId chainGameEvt =? currentEventID)
            then {| ls_eventFee := cge_nEntryFee chainGameEvt * COIN; ls_found := true;
                    ls_candidates := ls_candidates s |}
            else s)
  | Some (ChainGamesBetTx chainGamesBet) =>
      if ls_found s && (cgb_nEventId chainGamesBet =? currentEventID) && (ls_eventFee s =? nValue txout) then
        payoutAddress ← match GetTransaction env (op_hash prevout) with
                        | None => Some CNoDestination
                        | Some txPrev =>
                            out ← prevout_of txPrev prevout;
                            Some (default CNoDestination (ExtractDestination env (scriptPubKey out)))
                        end;
        Some {| ls_eventFee := ls_eventFee s; ls_found := ls_found s;
                ls_candidates := ls_candidates s ++ [(EncodeDestination env payoutAddress, betKey)] |}
      else Some s
  | _ => Some s
  end.

Fixpoint scan_lotto_vouts (currentEventID height : Z) (tx : CTransaction) (prevout : COutPoint) (i : Z)
    (vout : list CTxOut) (s : LottoScan) : option LottoScan :=
  match vout with
  | [] => Some s
  | txout :: vout =>
      s ← scan_lotto_vout currentEventID height tx prevout i txout s;
      scan_lotto_vouts currentEventID height tx prevout (i + 1) vout s
  end.

Fixpoint scan_lotto_txs (currentEventID height : Z) (vtx : list CTransaction) (s : LottoScan) : option LottoScan :=
  match vtx with
  | [] => Some s
  | tx :: vtx =>
      prevout ← head (tx_vin tx);
      s ← scan_lotto_vouts currentEventID height tx prevout 0 (tx_vout tx) s;
      scan_lotto_txs currentEventID height vtx s
  end.

(** The blocks of the chain from 14400 below the last one to the tip. *)
Fixpoint scan_lotto_blocks (currentEventID height : Z) (blocks : list CBlock) (s : LottoScan) : option LottoScan :=
  match blocks with
  | [] => Some s
  | block :: blocks =>
      s ← scan_lotto_txs currentEventID height (block_vtx block) s;
      scan_lotto_blocks currentEventID (height + 1) blocks s
  end.

Definition settle_lotto_v2 (lastBlock : PoSBlock) (nNewBlockHeight nEventId entranceFee : Z)
    (candidates : list (list Z * PeerlessBetKey)) (p : payouts) : option payouts :=
  let script address := GetScriptForDestination env (DecodeDestination env address) in
  match candidates with
  | [] => Some p
  | [(address, k)] =>
      Some (if 0 <? entranceFee
            then add_payout p (lotto_out entranceFee (script address) entranceFee nEventId)
                   {| pi_betKey := k; pi_payoutType := chainGamesRefund |}
            else p)
  | _ =>
      let noOfBets := Z.of_nat (length candidates) in
      let hash := hashProofOfStake lastBlock in
      '(address, k) ← candidates !! Z.to_nat (winner_nr hash noOfBets);
      let totalPot := total_pot hash noOfBets entranceFee in
      let winnerPayout := winner_payout totalPot in
      if 0 <? winnerPayout then
        match GetFeePayoutScripts env nNewBlockHeight with
        | None => Some p
        | Some (_, payoutScriptOMNO) =>
            let p := add_payout p (lotto_out winnerPayout (script address) entranceFee nEventId)
                       {| pi_betKey := k; pi_payoutType := chainGamesPayout |} in
            Some (add_payout p (CBetOut_new (lotto_fee totalPot) payoutScriptOMNO entranceFee)
                    (reward_info 0 chainGamesPayout))
        end
      else Some p
  end.

(** [chain_from h]: the blocks of the active chain from height [h] on, none
    when the height is not in the chain. *)
Fixpoint settle_lottos_v2 (lastBlock : PoSBlock) (chain_from : Z -> list CBlock) (nNewBlockHeight : Z)
    (results_ : list CChainGamesResultDB) (p : payouts) : option payouts :=
  match results_ with
  | [] => Some p
  | result :: results_ =>
      let start := nNewBlockHeight - 1 - 14400 in
      s ← scan_lotto_blocks (cgres_nEventId result) start (chain_from start)
            {| ls_eventFee := 0; ls_found := false; ls_candidates := [] |};
      p ← settle_lotto_v2 lastBlock nNewBlockHeight (cgres_nEventId result) (ls_eventFee s) (ls_candidates s) p;
      settle_lottos_v2 lastBlock chain_from nNewBlockHeight results_ p
  end.

Definition GetCGLottoBetPayoutsV2 (lastBlock : PoSBlock) (chain_from : Z -> list CBlock) (block : CBlock)
    (nNewBlockHeight : Z) (p : payouts) : option payouts :=
  results_ ← GetCGLottoEventResults env (nNewBlockHeight - 1) (block_vtx block);
  settle_lottos_v2 lastBlock chain_from nNewBlockHeight results_ p.
End Games.
