(* ===== verification/FieldPayouts.v ===== *)
(** * Payouts of field bets (src/src/betting/bet_v4.cpp)

    The settlement has the shape of the peerless one, on field events.  The
    undo reads the table of the peerless bets and decodes its values as field
    bets; [decode_as] is that reading of one type's bytes as another's, [None]
    an exception of the stream or the assertion of BytesToDbType. *)

From S2P Require Import Prelude Serialize Params BetTx BetDB BetKeys Flushable BetView BetCommon CheckTx.
From S2P Require Import Payouts.

Section FieldPayouts.
Context (env : ChainEnv).

Definition field_leg_odds (betTime : Z) (leg : CFieldLegDB) (lockedEvent : CFieldEventDB)
    (res : CFieldResultDB) : Z * Z :=
  if bet_too_late env (fev_nStartTime lockedEvent) betTime then refund_odds
  else GetBetOdds_field leg lockedEvent res.

(** The loop over the legs of a parlay; inner [None]: a leg has no result. *)
Fixpoint field_parlay_odds (rs : gmap Z CFieldResultDB) (betTime : Z) (legs : list CFieldLegDB)
    (locked : list CFieldEventDB) (acc : option (Z * Z)) (f : LegFlags) :
    option (option (Z * Z * LegFlags)) :=
  match legs with
  | [] => Some (Some (default (0, 0) acc, f))
  | leg :: legs =>
      match locked with
      | [] => None
      | lockedEvent :: locked =>
          match dbRead rs (fleg_nEventId leg) with
          | None => Some None
          | Some res =>
              let betOdds := field_leg_odds betTime leg lockedEvent res in
              let f := flag_leg f (betOdds.1) (GetBetPotentialOdds_field leg lockedEvent) in
              let acc := match acc with None => betOdds | Some a => mul_odds a betOdds end in
              field_parlay_odds rs betTime legs locked (Some acc) f
          end
      end
  end.

Definition field_final_odds (rs : gmap Z CFieldResultDB) (result : CFieldResultDB) (uniBet : CFieldBetDB) :
    option (option (Z * Z * LegFlags)) :=
  match fbet_legs uniBet with
  | _ :: _ :: _ =>
      if existsb (fun leg => fleg_nEventId leg =? frs_nEventId result) (fbet_legs uniBet)
      then field_parlay_odds rs (fbet_betTime uniBet) (fbet_legs uniBet) (fbet_lockedEvents uniBet) None no_flags
      else Some None
  | [singleBet] =>
      match fbet_lockedEvents uniBet with
      | [] => None
      | lockedEvent :: _ =>
          if fleg_nEventId singleBet =? frs_nEventId result then
            let odds := field_leg_odds (fbet_betTime uniBet) singleBet lockedEvent result in
            Some (Some (odds, flag_leg no_flags (odds.1) (GetBetPotentialOdds_field singleBet lockedEvent)))
          else Some None
      end
  | [] => Some None
  end.

(** The completed bet and its payout. *)
Definition complete_field_bet (nNewBlockHeight : Z) (uniBet : CFieldBetDB) (odds : Z * Z) (f : LegFlags) :
    CFieldBetDB * option (CBetOut * PayoutType) :=
  let finalOdds := range_odds env true (fbet_betAmount uniBet) odds in
  let effectivePayout := stake_times (fbet_betAmount uniBet) (finalOdds.2) in
  let bet :=
    if 0 <? effectivePayout then
      uniBet <| fbet_resultType := result_type (fbet_betAmount uniBet) effectivePayout (finalOdds.1)
                                     (length (fbet_legs uniBet)) f |>
             <| fbet_payoutHeight := u32 nNewBlockHeight |>
    else uniBet <| fbet_resultType := betResultLose |> in
  (bet <| fbet_payout := effectivePayout |> <| fbet_completed := true |>,
   if 0 <? effectivePayout
   then Some (CBetOut_new effectivePayout (GetScriptForDestination env (fbet_playerAddress uniBet))
                (fbet_betAmount uniBet), payout_type (finalOdds.2))
   else None).

Definition settle_field_bet (rs : gmap Z CFieldResultDB) (nLastBlockHeight : Z) (result : CFieldResultDB)
    (uniBet : CFieldBetDB) : option (option (CFieldBetDB * option (CBetOut * PayoutType))) :=
  if fbet_completed uniBet then Some None
  else
    r ← field_final_odds rs result uniBet;
    match r with
    | None => Some None
    | Some (odds, f) => Some (Some (complete_field_bet (nLastBlockHeight + 1) uniBet odds f))
    end.

Fixpoint settle_field_entries (rs : gmap Z CFieldResultDB) (nLastBlockHeight : Z) (result : CFieldResultDB)
    (l : list (PeerlessBetKey * CFieldBetDB)) (p : payouts) :
    option (payouts * list (PeerlessBetKey * CFieldBetDB)) :=
  match l with
  | [] => Some (p, [])
  | (uniBetKey, uniBet) :: l =>
      r ← settle_field_bet rs nLastBlockHeight result uniBet;
      match r with
      | None => settle_field_entries rs nLastBlockHeight result l p
      | Some (uniBet, pay) =>
          let p := match pay with
                   | Some (o, t) => add_payout p o {| pi_betKey := uniBetKey; pi_payoutType := t |}
                   | None => p
                   end in
          '(p, upd) ← settle_field_entries rs nLastBlockHeight result l p;
          Some (p, (uniBetKey, uniBet) :: upd)
      end
  end.

Definition field_closed (result : CFieldResultDB) : bool :=
  frs_nResultType result =? ResultType_value eventClosed.

Fixpoint settle_field_results (nLastBlockHeight : Z) (results_ : list CFieldResultDB) (v : CBettingsView)
    (p : payouts) : option (CBettingsView * payouts) :=
  match results_ with
  | [] => Some (v, p)
  | result :: results_ =>
      if field_closed result then settle_field_results nLastBlockHeight results_ v p
      else
        '(p, upd) ← settle_field_entries (fieldResults v) nLastBlockHeight result
                      (dbIterate (fieldBets v) (seek_height (GetBetSearchStartHeight env nLastBlockHeight))) p;
        settle_field_results nLastBlockHeight results_ (v <| fieldBets := update_all (fieldBets v) upd |>) p
  end.

Definition GetFieldBetPayoutsV4 (v : CBettingsView) (pindexPrev : CBlockIndex) (p : payouts) :
    option (CBettingsView * payouts * bool) :=
  let nLastBlockHeight := nHeight pindexPrev in
  if negb (V4 env <=? nLastBlockHeight) then Some (v, p, false)
  else
    match GetFieldResultsFromDB env v (Some pindexPrev) with
    | None => Some (v, p, false)
    | Some results_ =>
        '(v, p) ← settle_field_results nLastBlockHeight results_ v p;
        Some (v, p, true)
    end.

(** ** UndoFieldBetPayouts *)
Definition decode_as {A B} (a : codec A) (b : codec B) (x : A) : option B :=
  BytesToDbType b (DbTypeToBytes a x).

Definition bet_as_field : CPeerlessBetDB -> option CFieldBetDB :=
  decode_as (CPeerlessBetDB_codec (Params env) (EncodeDestination env) (DecodeDestination env))
            (CFieldBetDB_codec (EncodeDestination env) (DecodeDestination env)).

(** Every leg's event has an entry in the table of the peerless results,
    whose value is decoded as a field result. *)
Fixpoint field_legs_resulted (rs : gmap Z CPeerlessResultDB) (legs : list CFieldLegDB) : option bool :=
  match legs with
  | [] => Some true
  | leg :: legs =>
      match dbRead rs (fleg_nEventId leg) with
      | None => _ ← field_legs_resulted rs legs; Some false
      | Some r =>
          _ ← decode_as CPeerlessResultDB_codec CFieldResultDB_codec r;
          field_legs_resulted rs legs
      end
  end.

Definition field_needs_undo (rs : gmap Z CPeerlessResultDB) (result : CFieldResultDB) (uniBet : CFieldBetDB) :
    option bool :=
  match fbet_legs uniBet with
  | _ :: _ :: _ =>
      if existsb (fun leg => fleg_nEventId leg =? frs_nEventId result) (fbet_legs uniBet)
      then field_legs_resulted rs (fbet_legs uniBet) else Some false
  | [singleBet] => Some (fleg_nEventId singleBet =? frs_nEventId result)
  | [] => Some false
  end.

Definition uncomplete_field (uniBet : CFieldBetDB) : CFieldBetDB :=
  uniBet <| fbet_completed := false |> <| fbet_resultType := betResultUnknown |> <| fbet_payout := 0 |>.

Fixpoint undo_field_entries (rs : gmap Z CPeerlessResultDB) (result : CFieldResultDB)
    (l : list (PeerlessBetKey * CPeerlessBetDB)) : option (list (PeerlessBetKey * CFieldBetDB)) :=
  match l with
  | [] => Some []
  | (uniBetKey, bytes) :: l =>
      uniBet ← bet_as_field bytes;
      if negb (fbet_completed uniBet) then undo_field_entries rs result l
      else
        needUndo ← field_needs_undo rs result uniBet;
        upd ← undo_field_entries rs result l;
        Some (if needUndo : bool then (uniBetKey, uncomplete_field uniBet) :: upd else upd)
  end.

Fixpoint undo_field_results (nCurrentHeight : Z) (results_ : list CFieldResultDB) (v : CBettingsView) :
    option CBettingsView :=
  match results_ with
  | [] => Some v
  | result :: results_ =>
      if field_closed result then undo_field_results nCurrentHeight results_ v
      else
        upd ← undo_field_entries (results v) result
                (dbIterate (bets v) (seek_height (GetBetSearchStartHeight env nCurrentHeight)));
        undo_field_results nCurrentHeight results_ (v <| fieldBets := update_all (fieldBets v) upd |>)
  end.

Definition UndoFieldBetPayouts (v : CBettingsView) (pindexPrev : CBlockIndex) : option (CBettingsView * bool) :=
  let nCurrentHeight := nHeight pindexPrev + 1 in
  match GetFieldResultsFromDB env v (Some pindexPrev) with
  | None => Some (v, false)
  | Some results_ => v ← undo_field_results nCurrentHeight results_ v; Some (v, true)
  end.
End FieldPayouts.
