(* ===== verification/GameProofs.v ===== *)
(** * The lotto, the quick games and the field bets: theorems
    (on the definitions of GamePayouts.v and FieldPayouts.v) *)

From S2P Require Import Prelude Serialize Params BetTx BetDB BetKeys Flushable BetView BetCommon CheckTx.
From S2P Require Import ProcessTx Payouts PayoutProofs Dice GamePayouts FieldPayouts.

(** ** The lotto *)
Lemma winner_nr_mod hash n :
  0 <= hash < 2 ^ 256 -> 0 < n < 2 ^ 64 -> winner_nr hash n = hash `mod` n.
Proof.
  intros Hh Hn. unfold winner_nr. cbv zeta.
  pose proof (Z.mod_pos_bound hash n). pose proof (Z.div_mod hash n). pose proof (Z.div_pos hash n).
  assert (2 ^ 64 < 2 ^ 256) by (apply Z.pow_lt_mono_r; lia).
  rewrite (Z.mod_small (_ * n)) by nia. rewrite (Z.mod_small (hash - _)) by nia.
  unfold Get64. change (2 ^ (64 * 0)) with 1. rewrite Z.div_1_r, Z.mod_small by nia. nia.
Qed.

(** The pot of an event with a whole number of coins as entry fee. *)
Lemma lotto_split hash n e :
  hash <> 0 -> 0 < n -> 0 < e -> n * (e * COIN) < 2 ^ 63 ->
  let pot := total_pot hash n (e * COIN) in
  pot = n * (e * COIN) /\ 10 * winner_payout pot = 8 * pot /\ 50 * lotto_fee pot = pot.
Proof.
  intros Hh Hn He Hb. cbv zeta. unfold total_pot, winner_payout, lotto_fee.
  replace (hash =? 0) with false by lia. unfold COIN in *. change (2 ^ 63) with 9223372036854775808 in *.
  rewrite (wrapU_small 64) by (unfold inU; change (2 ^ 64) with 18446744073709551616; nia).
  rewrite (wrapS_small 64 (n * _)) by (try lia; unfold inS; change (2 ^ (64 - 1)) with 9223372036854775808; nia).
  rewrite !Z.quot_div_nonneg by nia.
  replace (n * (e * 100000000)) with (n * e * 10000000 * 10) at 2 3 by lia.
  rewrite Z.div_mul by lia.
  replace (n * (e * 100000000)) with (n * e * 2000000 * 50) at 3 4 by lia. rewrite Z.div_mul by lia.
  rewrite wrapS_small by (try lia; unfold inS; change (2 ^ (64 - 1)) with 9223372036854775808; nia). lia.
Qed.

(** The lotto.  An event with at least two entrants and a fee of a
    whole number of coins pays exactly one of them, number (hash mod entrants),
    80% of the pot and the OMNO address 2% of it; the rest is not minted; every
    entrant is completed, the others as they were. *)
Theorem settle_lotto_pays env lastBlock h id e cands p dev omno :
  (2 <= length cands)%nat -> 0 < hashProofOfStake lastBlock < 2 ^ 256 -> 0 < e ->
  Z.of_nat (length cands) * (e * COIN) < 2 ^ 63 ->
  GetFeePayoutScripts env h = Some (dev, omno) ->
  let n := Z.of_nat (length cands) in
  let w := Z.to_nat (hashProofOfStake lastBlock `mod` n) in
  exists k b payout fee,
    cands !! w = Some (k, b) /\
    10 * payout = 8 * (n * (e * COIN)) /\ 50 * fee = n * (e * COIN) /\
    settle_lotto env lastBlock h id (e * COIN) cands p =
      Some (add_payout (add_payout p
              (lotto_out payout (GetScriptForDestination env (cgbet_playerAddress b)) (e * COIN) id)
              {| pi_betKey := k; pi_payoutType := chainGamesPayout |})
              (CBetOut_new fee omno 0) (reward_info (u32 h) chainGamesReward),
            <[w := (k, b <| cgbet_payout := payout |>)]> cands).
Proof.
  intros Hlen Hh He Hb Hf. cbv zeta. set (n := Z.of_nat (length cands)) in *.
  pose proof (lotto_split (hashProofOfStake lastBlock) n e) as Hs. cbv zeta in Hs.
  destruct Hs as (Hpot & Hwin & Hfee); [lia|lia|lia|done|].
  assert (n < 2 ^ 64) as Hn by (unfold COIN in Hb; change (2 ^ 63) with 9223372036854775808 in Hb;
    change (2 ^ 64) with 18446744073709551616; nia).
  pose proof (winner_nr_mod (hashProofOfStake lastBlock) n) as Hw. rewrite <- Hw by lia.
  pose proof (Z.mod_pos_bound (hashProofOfStake lastBlock) n) as Hr. rewrite <- Hw in Hr by lia.
  destruct (lookup_lt_is_Some_2 cands (Z.to_nat (winner_nr (hashProofOfStake lastBlock) n))) as [[k b] Hkb]; [lia|].
  exists k, b, (winner_payout (total_pot (hashProofOfStake lastBlock) n (e * COIN))),
    (lotto_fee (total_pot (hashProofOfStake lastBlock) n (e * COIN))).
  split_and!; [done|lia|lia|].
  destruct cands as [|c1 [|c2 cands]]; [simpl in Hlen; lia|simpl in Hlen; lia|].
  unfold settle_lotto. destruct c1 as [k1 b1]. cbv zeta. fold n. rewrite Hkb. cbn [mbind option_bind].
  replace (0 <? winner_payout _) with true by (unfold COIN in *; nia). by rewrite Hf.
Qed.

(** The refund of a single entrant is not recorded.  The bet is paid its
    stake but stays unfinished: the view is the same after the computation, so
    the next result for the event pays the same bet again. *)
Theorem GetCGLottoBetPayoutsV3_single env lastBlock block v h p id e k b :
  GetCGLottoEventResults env (h - 1) (block_vtx block) = Some [{| cgres_nEventId := id |}] ->
  chainGamesLottoEvents v !! id = Some e -> 0 < cgev_nEntryFee e ->
  lotto_candidates id (cgev_nEntryFee e * COIN)
    (dbIterate (chainGamesLottoBets v) (seek_height (GetBetSearchStartHeight env (h - 1)))) = [(k, b)] ->
  GetCGLottoBetPayoutsV3 env lastBlock block v h p =
    Some (v, add_payout p
               (lotto_out (cgev_nEntryFee e * COIN) (GetScriptForDestination env (cgbet_playerAddress b))
                  (cgev_nEntryFee e * COIN) id)
               {| pi_betKey := k; pi_payoutType := chainGamesRefund |}).
Proof.
  intros Hr He Hf Hc. unfold GetCGLottoBetPayoutsV3. rewrite Hr. cbn [mbind option_bind settle_lottos].
  cbn [cgres_nEventId]. change (dbRead ?m ?k) with (m !! k). rewrite He. cbv zeta. rewrite Hc.
  cbn [settle_lotto]. replace (0 <? cgev_nEntryFee e * COIN) with true by (unfold COIN; lia).
  cbn [mbind option_bind app]. unfold update_all. cbn [foldl]. by destruct v.
Qed.

(** ** Quick games *)

(** What a quick game pays.  For a stake of at most 10000 coins at odds
    between even money and 36, nothing overflows: the player gets at least the
    stake back, and player, developer and OMNO address together get at most
    the gross winnings. *)
Theorem qg_payout_bounds betAmount odds :
  0 <= betAmount <= 10000 * COIN -> BET_ODDSDIVISOR <= odds <= 36 * BET_ODDSDIVISOR ->
  let fee := fee_permille betAmount odds 10 in
  let payout := qg_payout betAmount odds 10 in
  betAmount <= payout /\
  payout + qg_reward fee 100 + qg_reward fee 400 <= (betAmount * odds) `div` BET_ODDSDIVISOR /\
  0 <= qg_reward fee 100 /\ 0 <= qg_reward fee 400.
Proof.
  unfold COIN, BET_ODDSDIVISOR. intros Hb Ho. cbv zeta.
  unfold qg_payout, fee_permille, winnings_permille, qg_reward, BET_ODDSDIVISOR.
  rewrite !(wrapU_small 32) by (unfold inU; change (2 ^ 32) with 4294967296; lia).
  assert (0 <= betAmount * (odds - 10000) <= 350000000000000000) as Hd by nia.
  assert (0 <= betAmount * odds <= 360000000000000000) as Hg by nia.
  rewrite !(wrapS_small 64 (betAmount * _)) by (try lia; range).
  rewrite (Z.quot_div_nonneg (betAmount * (odds - 10000))) by lia.
  set (x := (betAmount * (odds - 10000)) `div` 1000).
  assert (1000 * x <= betAmount * (odds - 10000) < 1000 * x + 1000) as Hx.
  { unfold x. pose proof (Z.div_mod (betAmount * (odds - 10000)) 1000).
    pose proof (Z.mod_pos_bound (betAmount * (odds - 10000)) 1000). lia. }
  rewrite !(wrapS_small 64 (x * 10)) by (try lia; range).
  destruct (0 <? betAmount * odds) eqn:Hpos.
  - assert (0 <= x * 10 <= betAmount * odds - 10000 * betAmount) as Hfee by lia.
    rewrite (wrapS_small 64 (betAmount * odds - x * 10)) by (try lia; range).
    rewrite !(Z.quot_div_nonneg (x * 10)) by lia.
    set (y := (x * 10) `div` 1000).
    assert (0 <= 1000 * y <= x * 10) as Hy.
    { unfold y. pose proof (Z.div_mod (x * 10) 1000). pose proof (Z.mod_pos_bound (x * 10) 1000). lia. }
    rewrite !(wrapS_small 64 (y * _)) by (try lia; range).
    rewrite !Z.quot_div_nonneg by lia.
    Z.div_mod_to_equations. lia.
  - change (Z.quot 0 1000) with 0. change (0 * 100) with 0. change (0 * 400) with 0. change (i64 0) with 0.
    change (Z.quot 0 10000) with 0. Z.div_mod_to_equations. nia.
Qed.

(** Odds below even money.  A dice bet on "not equal" to 14 returns the
    odds 9729 on every roll, below the 10000 of a refund; the fee is computed
    from the difference as a 32-bit unsigned number, its product with the
    smallest stake of 25 coins leaves the 64 bits, and with the product wrapped
    the payout is over 3000 times the stake. *)
Theorem qg_payout_below_even seed :
  DiceHandler (Serialize DiceBetInfo_codec {| betType := qgDiceNotEqual; betNumber := 14 |}) seed = Some 9729 /\
  2 ^ 63 <= 25 * COIN * u32 (9729 - BET_ODDSDIVISOR) /\
  3000 * (25 * COIN) < qg_payout (25 * COIN) 9729 10.
Proof.
  pose proof (firstDice_range seed) as H1. pose proof (secondDice_range seed) as H2.
  apply elem_of_seqZ in H1, H2.
  split_and!; [|done|done]. unfold DiceHandler.
  change (Unserialize _ _) with (Some ({| betType := qgDiceNotEqual; betNumber := 14 |}, @nil Z)).
  cbn [mbind option_bind]. unfold DiceHandler_info. cbn [betType betNumber].
  replace (_ =? 14) with false by lia. reflexivity.
Qed.

(** ** Field bets *)
Lemma undo_field_entries_keys env rs result l upd :
  undo_field_entries env rs result l = Some upd -> forall k, k ∈ upd.*1 -> k ∈ l.*1.
Proof.
  revert upd. induction l as [|[k b] l IH]; intros upd; cbn [undo_field_entries].
  { intros [= <-] k Hk. by apply not_elem_of_nil in Hk. }
  intros H. apply bind_Some in H as (fb & _ & H). destruct (negb (fbet_completed fb)).
  - intros k' Hk'. csimpl. apply elem_of_cons. right. by eapply IH.
  - apply bind_Some in H as (need & _ & H). apply bind_Some in H as (rest & Hr & [= <-]).
    intros k' Hk'. csimpl. apply elem_of_cons. destruct need; [|right; by eapply IH].
    csimpl in Hk'. apply elem_of_cons in Hk' as [->|Hk']; [by left|right; by eapply IH].
Qed.

Lemma update_all_missing {V} (m : gmap PeerlessBetKey V) l :
  (forall k, k ∈ l.*1 -> m !! k = None) -> update_all m l = m.
Proof.
  induction l as [|[k b] l IH]; intros H; [done|]. unfold update_all. cbn [foldl].
  rewrite dbUpdate_fst, (H k) by (csimpl; apply list_elem_of_here).
  apply IH. intros k' Hk'. apply H. csimpl. by apply elem_of_cons; right.
Qed.

Lemma undo_field_results_noop env nCur rl v v' :
  (forall k, is_Some (bets v !! k) -> fieldBets v !! k = None) ->
  undo_field_results env nCur rl v = Some v' -> v' = v.
Proof.
  intros Hd. induction rl as [|r rl IH]; cbn [undo_field_results]; [by intros [= <-]|].
  destruct (field_closed r); [done|]. intros H. apply bind_Some in H as (upd & Hu & H).
  rewrite update_all_missing in H.
  - replace (v <| fieldBets := fieldBets v |>) with v in H by (by destruct v). by apply IH.
  - intros k Hk. apply Hd. apply (undo_field_entries_keys _ _ _ _ _ Hu) in Hk.
    apply list_elem_of_fmap in Hk as ([k1 b] & -> & Hin). apply (pass_entries_In env nCur (bets v)) in Hin as [Hin _].
    eauto.
Qed.

(** The undo of field payouts reverts nothing.  It looks for the bets in
    the table of the peerless bets: as a bet has one key and is in one of the
    two tables, every field bet stays as the settlement left it, completed and
    with its payout. *)
Theorem UndoFieldBetPayouts_noop env v pindexPrev v' ok :
  (forall k, is_Some (bets v !! k) -> fieldBets v !! k = None) ->
  UndoFieldBetPayouts env v pindexPrev = Some (v', ok) -> v' = v.
Proof.
  intros Hd. unfold UndoFieldBetPayouts, GetFieldResultsFromDB. cbn [mbind option_bind].
  intros H. apply bind_Some in H as (v1 & Hu & [= <- <-]). by eapply undo_field_results_noop.
Qed.
