(* ===== verification/Block.v ===== *)
(** * Betting in a block
    (ExtractPayouts, IsBlockPayoutsValid, GetBettingPayouts and BettingUndo of
    src/src/betting/bet.cpp; the payout outputs of src/src/miner.cpp; the
    betting steps of ConnectBlock and DisconnectBlock,
    src/src/validation.cpp)

    The std::multimap of the expected payouts is the list of its entries in
    order; equal keys keep the order of insertion.  A std::multiset of outputs
    is the sorted list of its elements. *)

From S2P Require Import Prelude Serialize Params BetTx BetDB BetKeys Flushable BetView BetCommon CheckTx.
From S2P Require Import ProcessTx UndoTx Payouts Dice GamePayouts FieldPayouts.

(** ** Containers *)
Abbreviation expected_payouts := (list (CPayoutInfoDB * CBetOut)).

Definition CPayoutInfoDB_lt (a b : CPayoutInfoDB) : bool := CPayoutInfoDB_CompareTo a b <? 0.

(** multimap::insert: before the first entry with a greater key. *)
Fixpoint multimap_insert (e : CPayoutInfoDB * CBetOut) (m : expected_payouts) : expected_payouts :=
  match m with
  | [] => [e]
  | e' :: m' => if CPayoutInfoDB_lt (e.1) (e'.1) then e :: m else e' :: multimap_insert e m'
  end.

(** CTxOut::operator<: the value, then the script, shorter scripts first. *)
#[export] Instance CTxOut_key_seq : KeySeq CTxOut := fun o =>
  nValue o :: Z.of_nat (length (scriptPubKey o)) :: scriptPubKey o.

#[export] Instance CTxOut_key_seq_inj : KeySeqInj CTxOut.
Proof. intros [a s] [b t] [= -> _ ->]. done. Qed.

(** The slicing of a CBetOut to its base class. *)
Definition CTxOut_of (o : CBetOut) : CTxOut := {| nValue := bo_nValue o; scriptPubKey := bo_scriptPubKey o |}.

Definition multiset_of (l : list CTxOut) : list CTxOut := merge_sort kle l.

Section Block.
Context (env : ChainEnv).

(** ** The payouts found in a coinstake *)
Record FoundPayouts := {
  vFoundPayouts : list CTxOut;
  nPayoutOffset : Z;
  nWinnerPayments : Z;
  totalStakeAcc : Z;
  fStakesFound : bool;
}.

(** One output of the loop. *)
Definition scan_vout (devPayoutScript OMNOPayoutScript : list Z) (stakeAmount nMNReward : Z)
    (s : FoundPayouts) (txout : CTxOut) : FoundPayouts :=
  if fStakesFound s then
    {| vFoundPayouts := if 0 <? nValue txout then vFoundPayouts s ++ [txout] else vFoundPayouts s;
       nPayoutOffset := nPayoutOffset s;
       nWinnerPayments :=
         if negb (bool_decide (scriptPubKey txout = devPayoutScript)) &&
            negb (bool_decide (scriptPubKey txout = OMNOPayoutScript))
         then u32 (nWinnerPayments s + 1) else nWinnerPayments s;
       totalStakeAcc := totalStakeAcc s;
       fStakesFound := true |}
  else
    let acc := i64 (totalStakeAcc s + nValue txout) in
    {| vFoundPayouts := vFoundPayouts s;
       nPayoutOffset := u32 (nPayoutOffset s + 1);
       nWinnerPayments := nWinnerPayments s;
       totalStakeAcc := acc;
       fStakesFound := i64 (acc + nMNReward) =? stakeAmount |}.

Definition scan_start : FoundPayouts := {|
  vFoundPayouts := []; nPayoutOffset := 0; nWinnerPayments := 0; totalStakeAcc := 0; fStakesFound := false |}.

(** The masternode payment at the end of the outputs is left out:
    {nMNReward, the outputs of the loop}. *)
Definition without_mn_reward (vout : list CTxOut) (nExpectedMNReward : Z) : Z * list CTxOut :=
  match last vout with
  | Some txout =>
      if (2 <? length vout)%nat && (nValue txout =? nExpectedMNReward)
      then (nExpectedMNReward, take (length vout - 1) vout) else (0, vout)
  | None => (0, vout)
  end.

(** [None]: the block has no second transaction, it has no input, or the
    previous output is accessed past the end.  {result, found}. *)
Definition ExtractPayouts (vtx : list CTransaction) (nBlockHeight nExpectedMint nExpectedMNReward : Z) :
    option (bool * FoundPayouts) :=
  tx ← vtx !! 1%nat;
  prevout ← head (tx_vin tx);
  match GetTransaction env (op_hash prevout) with
  | None => Some (false, scan_start)
  | Some txPrev =>
      out ← prevout_of txPrev prevout;
      let stakeAmount := i64 (nValue out + nExpectedMint) in
      match GetFeePayoutScripts env nBlockHeight with
      | None => Some (false, scan_start)
      | Some (devPayoutScript, OMNOPayoutScript) =>
          let '(nMNReward, vout) := without_mn_reward (tx_vout tx) nExpectedMNReward in
          let s := foldl (scan_vout devPayoutScript OMNOPayoutScript stakeAmount nMNReward) scan_start vout in
          Some (fStakesFound s ||
                ((nWinnerPayments s =? 0) && (i64 (totalStakeAcc s + nMNReward) <? stakeAmount)), s)
      end
  end.

(** ** IsBlockPayoutsValid *)

(** std::find_if and erase: the information of the first entry with the
    output, and the entries left. *)
Fixpoint take_payout (out : CTxOut) (m : expected_payouts) : option (CPayoutInfoDB * expected_payouts) :=
  match m with
  | [] => None
  | e :: m =>
      if bool_decide (CTxOut_of (e.2) = out) then Some (e.1, m)
      else '(info, rest) ← take_payout out m; Some (info, e :: rest)
  end.

(** The loop that stores the information of each payout; [i] is the index
    among the found payouts. *)
Fixpoint store_payouts (nBlockHeight : Z) (txHash : uint256) (offset i : Z) (found : list CTxOut)
    (m : expected_payouts) (v : CBettingsView) : CBettingsView * bool :=
  match found with
  | [] => (v, true)
  | out :: found =>
      match take_payout out m with
      | None => (v, false)
      | Some (info, m) =>
          let payoutInfoKey := {| bk_blockHeight := u32 nBlockHeight;
                                  bk_outPoint := {| op_hash := txHash; op_n := u32 (i + offset) |} |} in
          store_payouts nBlockHeight txHash offset (i + 1) found m
            (v <| payoutsInfo := (dbWrite (payoutsInfo v) payoutInfoKey info).1 |>)
      end
  end.

Definition IsBlockPayoutsValid (v : CBettingsView) (mExpectedPayouts : expected_payouts)
    (vtx : list CTransaction) (nBlockHeight nExpectedMint nExpectedMNReward : Z) : option (CBettingsView * bool) :=
  tx ← vtx !! 1%nat;
  '(ok, s) ← ExtractPayouts vtx nBlockHeight nExpectedMint nExpectedMNReward;
  if negb (ok : bool) then Some (v, false)
  else
    let setFoundPayouts := multiset_of (vFoundPayouts s) in
    let setExpectedPayouts := multiset_of (CTxOut_of ∘ snd <$> mExpectedPayouts) in
    if negb (bool_decide (setExpectedPayouts = setFoundPayouts)) then Some (v, false)
    else Some (store_payouts nBlockHeight (tx_hash tx) (nPayoutOffset s) 0 (vFoundPayouts s) mExpectedPayouts v).

(** ** GetBettingPayouts *)

(** The switch on the protocol version of the new block. *)
Definition version_payouts (games : list CQuickGamesView) (lastBlock : PoSBlock)
    (chain_from : Z -> list CBlock) (block : CBlock) (pindexPrev : CBlockIndex) (v : CBettingsView) :
    option (CBettingsView * payouts) :=
  let nNewBlockHeight := nHeight pindexPrev + 1 in
  let version := GetWBPVersion (Params env) nNewBlockHeight in
  if (version =? 4) || (version =? 3) then
    '(v, p, _) ← GetPLBetPayoutsV3 env v pindexPrev ([], []);
    '(v, p) ← GetCGLottoBetPayoutsV3 env lastBlock block v nNewBlockHeight p;
    '(v, p) ← GetQuickGamesBetPayouts env games lastBlock v nNewBlockHeight p;
    if version =? 4 then
      '(v, p, _) ← GetFieldBetPayoutsV4 env v pindexPrev p;
      Some (v, p)
    else Some (v, p)
  else if version =? 2 then
    '(v, p, _) ← GetPLBetPayoutsV3 env v pindexPrev ([], []);
    p ← GetCGLottoBetPayoutsV2 env lastBlock chain_from block nNewBlockHeight p;
    Some (v, p)
  else Some (v, ([], [])).

(** {view, expectedMint, mExpectedPayouts}; [block] is [None] when it cannot
    be read.  [None]: an abort, the assertion on the lengths included. *)
Definition GetBettingPayouts (games : list CQuickGamesView) (lastBlock : PoSBlock)
    (chain_from : Z -> list CBlock) (block : option CBlock) (pindexPrev : option CBlockIndex)
    (v : CBettingsView) (mExpectedPayouts : expected_payouts) : option (CBettingsView * Z * expected_payouts) :=
  match pindexPrev, block with
  | Some pindexPrev, Some block =>
      '(v, p) ← version_payouts games lastBlock chain_from block pindexPrev v;
      if negb (length p.1 =? length p.2)%nat then None
      else
        Some (v,
              foldl (fun mint o => i64 (mint + bo_nValue o)) 0 p.1,
              foldl (fun m e => multimap_insert e m) [] (zip p.2 p.1))
  | _, _ => Some (v, 0, mExpectedPayouts)
  end.

(** ** The outputs the miner adds from v3 on (miner.cpp) *)
Definition vExpectedTxOuts (m : expected_payouts) : list CTxOut := CTxOut_of ∘ snd <$> m.

(** ** Connecting and disconnecting: [bettingsView] is the global view *)
Context (bettingsView : CBettingsView).

(** The loop of ConnectBlock over the transactions: {view, vCurResultIDs}. *)
Fixpoint process_txs (height : Z) (block : CBlock) (vtx : list CTransaction) (v : CBettingsView)
    (vCurResultIDs : list Z) : option (CBettingsView * list Z) :=
  match vtx with
  | [] => Some (v, vCurResultIDs)
  | tx :: vtx =>
      '(v, ids) ← ProcessBettingTx env bettingsView v vCurResultIDs tx height block (V3 env <=? height);
      process_txs height block vtx v ids
  end.

Definition ConnectBlock_process (height : Z) (block : CBlock) (v : CBettingsView) :
    option (CBettingsView * list Z) :=
  if WagerrProtocolV2StartHeight (Params env) <? height
  then process_txs height block (block_vtx block) v [] else Some (v, []).

(** The end of ConnectBlock: older undo data is pruned now and then, and the
    height is recorded. *)
Definition ConnectBlock_finish (maxBettingUndoDepth height : Z) (v : CBettingsView) : option CBettingsView :=
  v ← (if (WagerrProtocolV2StartHeight (Params env) <? height) &&
          (Z.rem height (maxBettingUndoDepth - 1) =? 0)
       then PruneOlderUndos v (u32 (height - maxBettingUndoDepth)) else Some v);
  Some (SetLastHeight v (u32 height)).

Fixpoint undo_txs (vtx : list CTransaction) (height : Z) (v : CBettingsView) : option (CBettingsView * bool) :=
  match vtx with
  | [] => Some (v, true)
  | tx :: vtx =>
      '(v, ok) ← UndoBettingTx env bettingsView v tx height;
      if ok : bool then undo_txs vtx height v else Some (v, false)
  end.

(** [pindex] is given by its height, with the previous index. *)
Definition BettingUndo (v : CBettingsView) (height : Z) (pprev : CBlockIndex) (vtx : list CTransaction) :
    option (CBettingsView * bool) :=
  if WagerrProtocolV2StartHeight (Params env) <? height then
    let '(v, ok) := UndoPLBetPayouts env v pprev in
    if negb ok then Some (v, false)
    else
      let '(v, ok) := UndoQGBetPayouts v height in
      if negb ok then Some (v, false)
      else
        '(v, ok) ← (if V4 env <? height then UndoFieldBetPayouts env v pprev else Some (v, true));
        if negb (ok : bool) then Some (v, false)
        else
          let '(v, ok) := UndoPayoutsInfo v height in
          if negb ok then Some (v, false)
          else undo_txs (rev vtx) height v
  else Some (v, true).
End Block.
