(* ===== verification/BlockProofs.v ===== *)
(** * Betting in a block: theorems (on the definitions of Block.v) *)

From S2P Require Import Prelude Serialize Params BetTx BetDB BetKeys Flushable BetView BetCommon CheckTx.
From S2P Require Import ProcessTx UndoTx Payouts PayoutProofs Dice GamePayouts FieldPayouts Block.

(** ** The two payout vectors have the same length *)
Definition aligned (p : payouts) : Prop := length p.1 = length p.2.

Lemma aligned_add p o i : aligned p -> aligned (add_payout p o i).
Proof. unfold aligned, add_payout. simpl. rewrite !length_app. simpl. lia. Qed.

#[export] Hint Resolve aligned_add : wagerr.

Lemma aligned_if (b : bool) p q : aligned p -> aligned q -> aligned (if b then p else q).
Proof. by destruct b. Qed.

#[export] Hint Resolve aligned_if : wagerr.

Lemma aligned_rewards_v3 env h fee p : aligned p -> aligned (GetPLRewardPayoutsV3 env h fee p).
Proof. intros. unfold GetPLRewardPayoutsV3. destruct (GetFeePayoutScripts env h) as [[]|]; auto with wagerr. Qed.

Lemma aligned_rewards_v2 env h p : aligned p -> aligned (GetPLRewardPayoutsV2 env h p).
Proof. intros. unfold GetPLRewardPayoutsV2. destruct (GetFeePayoutScripts env h) as [[]|]; auto with wagerr. Qed.

#[export] Hint Resolve aligned_rewards_v3 aligned_rewards_v2 : wagerr.

Lemma aligned_add_all s sts : aligned (pl_payouts s) -> aligned (pl_payouts (add_all s sts)).
Proof.
  revert s. induction sts as [|[k st] sts IH]; intros s Hs; [done|]. apply IH. simpl.
  destruct (st_payout st) as [[o t]|]; auto with wagerr.
Qed.

Lemma aligned_settle_results env nLast rl v s v' s' :
  settle_results env nLast rl v s = Some (v', s') -> aligned (pl_payouts s) -> aligned (pl_payouts s').
Proof.
  revert v s. induction rl as [|r rl IH]; intros v s; [by intros [= <- <-]|].
  rewrite settle_results_cons. destruct (is_result r eventClosed); [apply IH|].
  destruct (settlements _ _ _ _ _) as [sts|]; [|done]. cbn [mbind option_bind].
  intros H Hs. eapply IH; [done|by apply aligned_add_all].
Qed.

Lemma aligned_pl env v idx p v' p' ok :
  GetPLBetPayoutsV3 env v idx p = Some (v', p', ok) -> aligned p -> aligned p'.
Proof.
  unfold GetPLBetPayoutsV3, GetPLResultsFromDB. cbn [mbind option_bind]. cbv zeta. intros H Hp.
  apply bind_Some in H as ([v1 s1] & Hs & [= <- <- <-]).
  apply aligned_settle_results in Hs; [|done]. auto with wagerr.
Qed.

Lemma aligned_settle_lotto env lb h id fee c p p' u :
  settle_lotto env lb h id fee c p = Some (p', u) -> aligned p -> aligned p'.
Proof.
  unfold settle_lotto. cbv zeta. intros H Hp. destruct c as [|[k b] [|c2 c]]; [by simplify_eq| |].
  - case_match; simplify_eq; auto with wagerr.
  - apply bind_Some in H as ([k' b'] & _ & H). repeat case_match; simplify_eq; auto with wagerr.
Qed.

Lemma aligned_settle_lottos env lb h v rl p p' u :
  settle_lottos env lb h v rl p = Some (p', u) -> aligned p -> aligned p'.
Proof.
  revert p u. induction rl as [|r rl IH]; intros p u; cbn [settle_lottos]; [by intros [= <- <-]|].
  case_match; [|apply IH]. intros Hs Hp. apply bind_Some in Hs as ([p1 u1] & H1 & Hs).
  apply bind_Some in Hs as ([p2 u2] & H2 & [= <- <-]). eapply IH; [done|]. by eapply aligned_settle_lotto.
Qed.

Lemma aligned_lotto_v3 env lb block v h p v' p' :
  GetCGLottoBetPayoutsV3 env lb block v h p = Some (v', p') -> aligned p -> aligned p'.
Proof.
  unfold GetCGLottoBetPayoutsV3. intros H Hp. apply bind_Some in H as (rl & _ & H).
  apply bind_Some in H as ([p1 u1] & H1 & [= <- <-]). by eapply aligned_settle_lottos.
Qed.

Lemma aligned_settle_lotto_v2 env lb h id fee c p p' :
  settle_lotto_v2 env lb h id fee c p = Some p' -> aligned p -> aligned p'.
Proof.
  unfold settle_lotto_v2. cbv zeta. intros H Hp. destruct c as [|[k b] [|c2 c]]; [by simplify_eq| |].
  - case_match; simplify_eq; auto with wagerr.
  - apply bind_Some in H as ([k' b'] & _ & H). repeat case_match; simplify_eq; auto with wagerr.
Qed.

Lemma aligned_lotto_v2 env lb chain block h p p' :
  GetCGLottoBetPayoutsV2 env lb chain block h p = Some p' -> aligned p -> aligned p'.
Proof.
  unfold GetCGLottoBetPayoutsV2. intros H Hp. apply bind_Some in H as (rl & _ & H). revert p Hp H.
  induction rl as [|r rl IH]; intros p Hp; cbn [settle_lottos_v2]; [by intros [= <-]|]. cbv zeta.
  intros H. apply bind_Some in H as (s & _ & H). apply bind_Some in H as (p1 & H1 & H).
  eapply IH; [|done]. by eapply aligned_settle_lotto_v2.
Qed.

Lemma aligned_qg_bet env games h seed k b s s' b' :
  handle_qg_bet env games h seed k b s = Some (Some (s', b')) -> aligned (qs_payouts s) -> aligned (qs_payouts s').
Proof.
  unfold handle_qg_bet. cbv zeta. intros Hb Hs. destruct (qgbet_completed b); [done|].
  destruct (games !! _) as [g|]; [|done]. apply bind_Some in Hb as (odds & _ & Hb).
  repeat case_match; simplify_eq; simpl; auto with wagerr.
Qed.

Lemma aligned_qg_bets env games h bh seed l s s' u :
  handle_qg_bets env games h bh seed l s = Some (s', u) -> aligned (qs_payouts s) -> aligned (qs_payouts s').
Proof.
  revert s s' u. induction l as [|[k b] l IH]; intros s s' u; cbn [handle_qg_bets]; [by intros [= <- <-]|].
  case_match; [by intros [= <- <-]|]. intros Hb Hs. apply bind_Some in Hb as ([[s1 b1]|] & H1 & Hb).
  - apply bind_Some in Hb as ([s2 u2] & H2 & [= <- <-]). eapply IH; [done|]. by eapply aligned_qg_bet.
  - by eapply IH.
Qed.

Lemma aligned_qg_rewards env h rewards p : aligned p -> aligned (add_qg_rewards env h rewards p).
Proof.
  unfold add_qg_rewards. generalize (sorted_entries rewards). intros l. revert p.
  induction l as [|[a r] l IH]; intros p Hp; [done|]. apply IH. auto with wagerr.
Qed.

Lemma aligned_qg env games lb v h p v' p' :
  GetQuickGamesBetPayouts env games lb v h p = Some (v', p') -> aligned p -> aligned p'.
Proof.
  unfold GetQuickGamesBetPayouts. cbv zeta. case_match; [by intros [= <- <-]|].
  intros Hb Hp. apply bind_Some in Hb as ([s u] & H1 & [= <- <-]). apply aligned_qg_rewards.
  by eapply (aligned_qg_bets _ _ _ _ _ _ _ _ _ H1).
Qed.

Lemma aligned_field_entries env rs nLast r l p p' u :
  settle_field_entries env rs nLast r l p = Some (p', u) -> aligned p -> aligned p'.
Proof.
  revert p u. induction l as [|[k b] l IH]; intros p u; cbn [settle_field_entries]; [by intros [= <- <-]|].
  intros H Hp. apply bind_Some in H as ([[b1 pay]|] & _ & H); [|by eapply IH].
  apply bind_Some in H as ([p1 u1] & H1 & [= <- <-]). eapply IH; [done|].
  destruct pay as [[]|]; auto with wagerr.
Qed.

Lemma aligned_field_results env nLast rl v p v' p' :
  settle_field_results env nLast rl v p = Some (v', p') -> aligned p -> aligned p'.
Proof.
  revert v p. induction rl as [|r rl IH]; intros v p; cbn [settle_field_results]; [by intros [= <- <-]|].
  case_match; [apply IH|]. intros Hs Hp. apply bind_Some in Hs as ([p1 u1] & H1 & Hs).
  eapply IH; [done|]. by eapply aligned_field_entries.
Qed.

Lemma aligned_field env v idx p v' p' ok :
  GetFieldBetPayoutsV4 env v idx p = Some (v', p', ok) -> aligned p -> aligned p'.
Proof.
  unfold GetFieldBetPayoutsV4, GetFieldResultsFromDB. cbn [mbind option_bind]. cbv zeta.
  case_match; [by intros [= <- <- <-]|]. intros Hs Hp. apply bind_Some in Hs as ([v1 p1] & H1 & [= <- <- <-]).
  by eapply aligned_field_results.
Qed.

Lemma version_payouts_aligned env games lb chain block idx v v' p :
  version_payouts env games lb chain block idx v = Some (v', p) -> aligned p.
Proof.
  unfold version_payouts. cbv zeta. set (ver := GetWBPVersion _ _).
  destruct ((ver =? 4) || (ver =? 3)).
  - intros H. apply bind_Some in H as ([[v1 p1] ?] & H1 & H). apply aligned_pl in H1; [|done].
    apply bind_Some in H as ([v2 p2] & H2 & H). apply aligned_lotto_v3 in H2; [|done].
    apply bind_Some in H as ([v3 p3] & H3 & H). apply aligned_qg in H3; [|done].
    destruct (ver =? 4); [|by simplify_eq].
    apply bind_Some in H as ([[v4 p4] ?] & H4 & [= <- <-]). by apply aligned_field in H4.
  - destruct (ver =? 2); [|by intros [= <- <-]].
    intros H. apply bind_Some in H as ([[v1 p1] ?] & H1 & H). apply aligned_pl in H1; [|done].
    apply bind_Some in H as (p2 & H2 & [= <- <-]). by apply aligned_lotto_v2 in H2.
Qed.

(** ** The multimap of the expected payouts *)
#[export] Instance CPayoutInfoDB_key_seq : KeySeq CPayoutInfoDB := fun i =>
  [bk_blockHeight (pi_betKey i); op_hash (bk_outPoint (pi_betKey i)); op_n (bk_outPoint (pi_betKey i));
   PayoutType_value (pi_payoutType i)].

#[export] Instance CPayoutInfoDB_key_seq_inj : KeySeqInj CPayoutInfoDB.
Proof.
  intros [[h1 [o1 n1]] t1] [[h2 [o2 n2]] t2] [= -> -> -> Ht]. f_equal.
  by destruct t1, t2.
Qed.

(** The comparison is the lexicographic order of height, outpoint and type. *)
Lemma CPayoutInfoDB_lt_klt a b : CPayoutInfoDB_lt a b = true <-> klt a b.
Proof.
  rewrite klt_nge. unfold CPayoutInfoDB_lt, CPayoutInfoDB_CompareTo, COutPoint_lt, kle, key_seq, CPayoutInfoDB_key_seq.
  destruct a as [[h1 [o1 n1]] t1], b as [[h2 [o2 n2]] t2]. cbn [lex_le pi_betKey bk_blockHeight bk_outPoint op_hash op_n pi_payoutType].
  generalize (PayoutType_value t1) (PayoutType_value t2). intros x y.
  repeat case_match; repeat case_bool_decide; simplify_eq; try lia.
  all: assert (o1 <> o2 \/ n1 <> n2) by (destruct (decide (o1 = o2)), (decide (n1 = n2)); naive_solver).
  all: lia.
Qed.

Definition multimap_sorted (m : expected_payouts) : Prop := StronglySorted (fun a b => kle a.1 b.1) m.

Lemma multimap_insert_perm e m : multimap_insert e m ≡ₚ e :: m.
Proof.
  induction m as [|e' m IH]; simpl; [done|]. destruct (CPayoutInfoDB_lt _ _); [done|].
  rewrite IH. apply Permutation_swap.
Qed.

Lemma multimap_insert_sorted e m : multimap_sorted m -> multimap_sorted (multimap_insert e m).
Proof.
  unfold multimap_sorted. induction 1 as [|e' m Hs IH Hf]; simpl; [repeat constructor|].
  destruct (CPayoutInfoDB_lt e.1 e'.1) eqn:E.
  - apply CPayoutInfoDB_lt_klt in E as [E _]. constructor; [by constructor|]. constructor; [done|].
    eapply Forall_impl; [exact Hf|]. intros x Hx. by etrans.
  - assert (kle e'.1 e.1) as Hle.
    { destruct (decide (kle e'.1 e.1)) as [|Hn]; [done|]. apply klt_nge in Hn.
      apply CPayoutInfoDB_lt_klt in Hn. congruence. }
    constructor; [done|]. rewrite multimap_insert_perm. by constructor.
Qed.

Lemma multimap_of_list l m :
  multimap_sorted m ->
  foldl (fun m e => multimap_insert e m) m l ≡ₚ m ++ l /\
  multimap_sorted (foldl (fun m e => multimap_insert e m) m l).
Proof.
  revert m. induction l as [|e l IH]; intros m Hm; cbn [foldl]; [by rewrite app_nil_r|].
  destruct (IH (multimap_insert e m)) as [Hp Hs]; [by apply multimap_insert_sorted|].
  split; [|done]. rewrite Hp, multimap_insert_perm. apply Permutation_middle.
Qed.

Lemma vExpectedTxOuts_zip p : aligned p -> vExpectedTxOuts (zip p.2 p.1) = CTxOut_of <$> p.1.
Proof.
  intros Hp. unfold vExpectedTxOuts. rewrite list_fmap_compose. f_equal. apply snd_zip. unfold aligned in Hp. lia.
Qed.

(** ** What is minted *)
Lemma wrapS_add_l w a b : wrapS w (wrapS w a + b) = wrapS w (a + b).
Proof.
  unfold wrapS. f_equal. replace ((a + 2 ^ (w - 1)) `mod` 2 ^ w - 2 ^ (w - 1) + b + 2 ^ (w - 1))
    with ((a + 2 ^ (w - 1)) `mod` 2 ^ w + b) by lia.
  rewrite Zplus_mod_idemp_l. f_equal. lia.
Qed.

Definition total_value (l : list CTxOut) : Z := foldr (fun o acc => nValue o + acc) 0 l.

Lemma total_value_perm l1 l2 : l1 ≡ₚ l2 -> total_value l1 = total_value l2.
Proof. induction 1; simpl; lia. Qed.

Lemma mint_total l acc :
  inS 64 acc ->
  foldl (fun mint o => i64 (mint + bo_nValue o)) acc l = i64 (acc + total_value (CTxOut_of <$> l)).
Proof.
  revert acc. induction l as [|o l IH]; intros acc Ha; csimpl.
  - by rewrite Z.add_0_r, wrapS_small.
  - rewrite IH by (by apply wrapS_range). rewrite wrapS_add_l. f_equal. lia.
Qed.

(** C35: the expected payouts of a block.  Whenever the payouts
    of the protocol version can be computed, the assertion on the lengths of
    the two vectors holds; the multimap has every payout once, next to its
    information, in the order of the information; and the amount returned is
    the sum of the payouts, at 64 bits. *)
Theorem GetBettingPayouts_mint env games lb chain block idx v m0 v' p :
  version_payouts env games lb chain block idx v = Some (v', p) ->
  exists m,
    GetBettingPayouts env games lb chain (Some block) (Some idx) v m0 =
      Some (v', i64 (total_value (vExpectedTxOuts m)), m) /\
    m ≡ₚ zip p.2 p.1 /\ length m = length p.1 /\ multimap_sorted m.
Proof.
  intros Hv. pose proof (version_payouts_aligned _ _ _ _ _ _ _ _ _ Hv) as Hal.
  destruct (multimap_of_list (zip p.2 p.1) []) as [Hp Hs]; [constructor|]. simpl in Hp.
  eexists. split_and!; [|exact Hp| |exact Hs].
  - unfold GetBettingPayouts. rewrite Hv. cbn [mbind option_bind].
    rewrite (proj2 (Nat.eqb_eq _ _) Hal). cbn [negb].
    rewrite mint_total by range. do 3 f_equal. rewrite Z.add_0_l. f_equal. apply total_value_perm.
    rewrite <- (vExpectedTxOuts_zip p Hal). unfold vExpectedTxOuts. symmetry. by apply fmap_Permutation.
  - rewrite Hp, length_zip_with. rewrite <- Hal. apply Nat.min_id.
Qed.

(** ** Matching the found payouts with the expected ones *)
Lemma multiset_of_perm l1 l2 : multiset_of l1 = multiset_of l2 <-> l1 ≡ₚ l2.
Proof.
  unfold multiset_of. split; intros H.
  - rewrite <- (merge_sort_Permutation kle l1), H. apply merge_sort_Permutation.
  - apply (StronglySorted_unique kle).
    + apply Sorted_StronglySorted; [apply _|]. apply (Sorted_merge_sort _).
    + apply Sorted_StronglySorted; [apply _|]. apply (Sorted_merge_sort _).
    + by rewrite !merge_sort_Permutation.
Qed.

Lemma take_payout_found out m :
  out ∈ vExpectedTxOuts m ->
  exists info o rest, take_payout out m = Some (info, rest) /\ CTxOut_of o = out /\ m ≡ₚ (info, o) :: rest.
Proof.
  induction m as [|[info o] m IH]; csimpl; [intros H; by apply not_elem_of_nil in H|].
  case_bool_decide as E; [intros _; by exists info, o, m|].
  rewrite elem_of_cons. intros [->|H]; [done|]. destruct (IH H) as (info' & o' & rest & -> & ? & Hp).
  exists info', o', ((info, o) :: rest). split_and!; [done|done|]. rewrite Hp. apply Permutation_swap.
Qed.

(** The key of the [i]-th found payout. *)
Definition payout_key (height : Z) (txHash : uint256) (offset i : Z) : PeerlessBetKey :=
  {| bk_blockHeight := u32 height; bk_outPoint := {| op_hash := txHash; op_n := u32 (i + offset) |} |}.

(** The information of the matched payouts, written in order. *)
Fixpoint write_infos (height : Z) (txHash : uint256) (offset i : Z) (infos : list CPayoutInfoDB)
    (t : gmap PeerlessBetKey CPayoutInfoDB) : gmap PeerlessBetKey CPayoutInfoDB :=
  match infos with
  | [] => t
  | info :: infos =>
      write_infos height txHash offset (i + 1) infos (dbWrite t (payout_key height txHash offset i) info).1
  end.

Lemma store_payouts_perm height txHash offset i found m v :
  found ≡ₚ vExpectedTxOuts m ->
  exists l, l ≡ₚ m /\ vExpectedTxOuts l = found /\
    store_payouts height txHash offset i found m v =
      (v <| payoutsInfo := write_infos height txHash offset i l.*1 (payoutsInfo v) |>, true).
Proof.
  revert i m v. induction found as [|out found IH]; intros i m v Hp; cbn [store_payouts].
  { apply Permutation_nil_l in Hp. destruct m; [|done]. exists []. split_and!; [done|done|]. by destruct v. }
  assert (out ∈ vExpectedTxOuts m) as Hin by (rewrite <- Hp; apply list_elem_of_here).
  destruct (take_payout_found out m Hin) as (info & o & rest & -> & Ho & Hm).
  unfold vExpectedTxOuts in Hp. rewrite Hm in Hp. csimpl in Hp.
  rewrite Ho in Hp. apply Permutation_cons_inv in Hp.
  destruct (IH (i + 1) rest (v <| payoutsInfo := (dbWrite (payoutsInfo v) (payout_key height txHash offset i) info).1 |>) Hp)
    as (l & Hl & Hf & Hs).
  exists ((info, o) :: l). split_and!; [by rewrite Hl, Hm|csimpl; by rewrite Ho, <- Hf|].
  exact Hs.
Qed.

Lemma write_infos_lookup height txHash offset i infos t :
  0 <= i -> 0 <= offset -> i + offset + Z.of_nat (length infos) <= 2 ^ 32 ->
  (forall j, i <= j < i + Z.of_nat (length infos) -> t !! payout_key height txHash offset j = None) ->
  (forall j info, infos !! j = Some info ->
     write_infos height txHash offset i infos t !! payout_key height txHash offset (i + Z.of_nat j) = Some info) /\
  (forall k, (forall j, i <= j < i + Z.of_nat (length infos) -> k <> payout_key height txHash offset j) ->
     write_infos height txHash offset i infos t !! k = t !! k).
Proof.
  intros Hi Ho. revert i Hi t. induction infos as [|info infos IH]; intros i Hi t Hb Hf; cbn [write_infos].
  { split; [done|done]. }
  cbn [length] in *. rewrite dbWrite_fst, (Hf i) by lia.
  assert (forall j, i < j < i + Z.of_nat (S (length infos)) ->
    payout_key height txHash offset j <> payout_key height txHash offset i) as Hne.
  { intros j Hj E. unfold payout_key in E. injection E as E.
    rewrite (wrapU_small 32 (j + offset)), (wrapU_small 32 (i + offset)) in E by (unfold inU; lia). lia. }
  destruct (IH (i + 1) ltac:(lia) (<[payout_key height txHash offset i := info]> t)) as [H1 H2]; [lia| |].
  { intros j Hj. rewrite lookup_insert_ne by (symmetry; apply Hne; lia). apply Hf. lia. }
  split.
  - intros [|j] info' Hj; simpl in Hj.
    + injection Hj as <-. rewrite Z.add_0_r, H2, lookup_insert_eq; [done|]. intros j Hj.
      symmetry. apply Hne. lia.
    + apply H1 in Hj. by replace (i + Z.of_nat (S j)) with (i + 1 + Z.of_nat j) by lia.
  - intros k Hk. rewrite H2 by (intros j Hj; apply Hk; lia).
    rewrite lookup_insert_ne; [done|]. intros <-. apply (Hk i); [lia|done].
Qed.

(** ** The block a miner builds *)

(** The stake outputs: the running total reaches the stake amount with the
    last of them and not before. *)
Fixpoint stakes_end (stakeAmount nMNReward acc : Z) (stakes : list CTxOut) : Prop :=
  match stakes with
  | [] => False
  | o :: stakes =>
      let acc := i64 (acc + nValue o) in
      if i64 (acc + nMNReward) =? stakeAmount then stakes = [] else stakes_end stakeAmount nMNReward acc stakes
  end.

Lemma scan_stakes dev omno stakeAmount mn stakes s :
  fStakesFound s = false -> stakes_end stakeAmount mn (totalStakeAcc s) stakes ->
  0 <= nPayoutOffset s -> nPayoutOffset s + Z.of_nat (length stakes) < 2 ^ 32 ->
  let s' := foldl (scan_vout dev omno stakeAmount mn) s stakes in
  fStakesFound s' = true /\ vFoundPayouts s' = vFoundPayouts s /\
  nPayoutOffset s' = nPayoutOffset s + Z.of_nat (length stakes).
Proof.
  revert s. induction stakes as [|o stakes IH]; intros s Hs He Ho Hb; [done|]. cbn [foldl stakes_end length] in *.
  set (s1 := scan_vout dev omno stakeAmount mn s o).
  assert (s1 = {| vFoundPayouts := vFoundPayouts s; nPayoutOffset := nPayoutOffset s + 1;
    nWinnerPayments := nWinnerPayments s; totalStakeAcc := i64 (totalStakeAcc s + nValue o);
    fStakesFound := i64 (i64 (totalStakeAcc s + nValue o) + mn) =? stakeAmount |}) as E.
  { unfold s1, scan_vout. rewrite Hs. cbv zeta. by rewrite (wrapU_small 32) by (unfold inU; lia). }
  cbv zeta in *. destruct (_ =? stakeAmount).
  - subst stakes. rewrite E. simpl. split_and!; [done|done|lia].
  - destruct (IH s1) as (H1 & H2 & H3); [by rewrite E|by rewrite E|rewrite E; simpl; lia|rewrite E; simpl; lia|].
    rewrite H2, H3. split_and!; [done|by rewrite E|rewrite E; simpl; lia].
Qed.

Lemma scan_payouts dev omno stakeAmount mn outs s :
  fStakesFound s = true ->
  let s' := foldl (scan_vout dev omno stakeAmount mn) s outs in
  fStakesFound s' = true /\ nPayoutOffset s' = nPayoutOffset s /\
  vFoundPayouts s' = vFoundPayouts s ++ filter (fun o => 0 < nValue o) outs.
Proof.
  cbv zeta. revert s. induction outs as [|o outs IH]; intros s Hs; cbn [foldl]; [by rewrite app_nil_r|].
  set (s1 := scan_vout dev omno stakeAmount mn s o).
  assert (fStakesFound s1 = true /\ nPayoutOffset s1 = nPayoutOffset s /\
    vFoundPayouts s1 = if 0 <? nValue o then vFoundPayouts s ++ [o] else vFoundPayouts s) as (E1 & E2 & E3)
    by (unfold s1, scan_vout; by rewrite Hs).
  destruct (IH s1 E1) as (H1 & H2 & H3). rewrite H1, H2, H3, E2, E3. split_and!; [done|done|].
  rewrite filter_cons. case_decide.
  - replace (0 <? nValue o) with true by lia. by rewrite <- app_assoc.
  - by replace (0 <? nValue o) with false by lia.
Qed.

(** ** Which blocks pass *)

(** The first [k] outputs make up the stake: with what the masternode gets,
    they come to the stake amount at 64 bits. *)
Definition stake_prefix (stakeAmount nMNReward : Z) (vout : list CTxOut) (k : nat) : Prop :=
  (0 < k <= length vout)%nat /\ i64 (total_value (take k vout) + nMNReward) = stakeAmount.

(** The stake ends at the shortest such prefix. *)
Definition stake_size (stakeAmount nMNReward : Z) (vout : list CTxOut) (k : nat) : Prop :=
  stake_prefix stakeAmount nMNReward vout k /\
  forall j, (j < k)%nat -> ~ stake_prefix stakeAmount nMNReward vout j.

Lemma stake_prefix_cons stakeAmount mn acc o vout k :
  i64 (acc + (total_value (take (S k) (o :: vout)) + mn)) = stakeAmount <->
  i64 (i64 (acc + nValue o) + (total_value (take k vout) + mn)) = stakeAmount.
Proof. rewrite wrapS_add_l. cbn [take total_value foldr]. by replace (acc + (_ + _)) with (acc + nValue o + (total_value (take k vout) + mn)) by (unfold total_value; lia). Qed.

Lemma stakes_end_take stakeAmount mn vout k acc :
  (0 < k <= length vout)%nat -> i64 (acc + (total_value (take k vout) + mn)) = stakeAmount ->
  (forall j, (0 < j < k)%nat -> i64 (acc + (total_value (take j vout) + mn)) <> stakeAmount) ->
  stakes_end stakeAmount mn acc (take k vout).
Proof.
  revert k acc. induction vout as [|o vout IH]; intros k acc Hk He Hn; cbn [length] in Hk; [lia|].
  destruct k as [|k]; [lia|]. cbn [take stakes_end]. apply stake_prefix_cons in He.
  destruct k as [|k].
  { cbn [take total_value foldr] in He. rewrite Z.add_0_l in He. by rewrite (proj2 (Z.eqb_eq _ _) He). }
  case_match eqn:E.
  - apply Z.eqb_eq in E. exfalso. apply (Hn 1%nat); [lia|]. apply stake_prefix_cons. exact E.
  - apply IH; [lia|done|]. intros j Hj. rewrite <- stake_prefix_cons. apply Hn. lia.
Qed.

(** Without such a prefix, every output is taken for stake. *)
Lemma scan_no_stakes dev omno stakeAmount mn vout s :
  fStakesFound s = false -> inS 64 (totalStakeAcc s) ->
  (forall j, (0 < j <= length vout)%nat ->
     i64 (totalStakeAcc s + (total_value (take j vout) + mn)) <> stakeAmount) ->
  let s' := foldl (scan_vout dev omno stakeAmount mn) s vout in
  fStakesFound s' = false /\ vFoundPayouts s' = vFoundPayouts s /\ nWinnerPayments s' = nWinnerPayments s /\
  totalStakeAcc s' = i64 (totalStakeAcc s + total_value vout).
Proof.
  cbv zeta. revert s. induction vout as [|o vout IH]; intros s Hs Ha Hn; cbn [foldl].
  { split_and!; try done. cbn. by rewrite Z.add_0_r, wrapS_small. }
  set (s1 := scan_vout dev omno stakeAmount mn s o).
  assert (i64 (i64 (totalStakeAcc s + nValue o) + mn) =? stakeAmount = false) as En.
  { apply Z.eqb_neq. intros E. apply (Hn 1%nat); [cbn; lia|]. apply stake_prefix_cons. exact E. }
  assert (fStakesFound s1 = false /\ totalStakeAcc s1 = i64 (totalStakeAcc s + nValue o) /\
    vFoundPayouts s1 = vFoundPayouts s /\ nWinnerPayments s1 = nWinnerPayments s) as (E1 & E2 & E3 & E4)
    by (unfold s1, scan_vout; rewrite Hs; cbn; done).
  destruct (IH s1) as (H1 & H2 & H3 & H4); [done|rewrite E2; by apply wrapS_range| |].
  - intros j Hj. rewrite E2, <- stake_prefix_cons. apply Hn. cbn [length]. lia.
  - rewrite H1, H2, H3, H4, E2, E3, E4, wrapS_add_l. split_and!; [done..|].
    f_equal. unfold total_value. cbn [foldr]. lia.
Qed.

(** What a coinstake is checked against: the output it spends and the scripts
    of the fees can be read. *)
Record coinstake_read (env : ChainEnv) (vtx : list CTransaction) (height mint : Z) (tx : CTransaction)
    (stakeAmount : Z) : Prop := {
  cr_tx : vtx !! 1%nat = Some tx;
  cr_stake : exists prevout txPrev out,
    head (tx_vin tx) = Some prevout /\ GetTransaction env (op_hash prevout) = Some txPrev /\
    prevout_of txPrev prevout = Some out /\ stakeAmount = i64 (nValue out + mint);
  cr_scripts : is_Some (GetFeePayoutScripts env height);
}.

Lemma ExtractPayouts_stakes env vtx height mint mn tx stakeAmount nMN vout k :
  coinstake_read env vtx height mint tx stakeAmount ->
  without_mn_reward (tx_vout tx) mn = (nMN, vout) -> Z.of_nat (length vout) < 2 ^ 32 ->
  stake_size stakeAmount nMN vout k ->
  exists s, ExtractPayouts env vtx height mint mn = Some (true, s) /\
    vFoundPayouts s = filter (fun o => 0 < nValue o) (drop k vout) /\ nPayoutOffset s = Z.of_nat k.
Proof.
  intros [Htx (prevout & txPrev & out & Hvin & Hprev & Hout & ->) [[dev omno] Hf]] Hmn Hlen [[Hk He] Hn].
  unfold ExtractPayouts. rewrite Htx. cbn [mbind option_bind]. rewrite Hvin. cbn [mbind option_bind].
  rewrite Hprev, Hout. cbn [mbind option_bind]. rewrite Hf, Hmn. cbv zeta.
  rewrite <- (take_drop k vout), foldl_app, take_drop.
  assert (length (take k vout) = k) as Hkl by (rewrite length_take; lia).
  destruct (scan_stakes dev omno (i64 (nValue out + mint)) nMN (take k vout) scan_start eq_refl)
    as (H1 & H2 & H3); [|simpl; lia|simpl; lia|].
  { apply stakes_end_take; [lia|exact He|]. intros j Hj E. apply (Hn j); [lia|]. split; [lia|exact E]. }
  destruct (scan_payouts dev omno (i64 (nValue out + mint)) nMN (drop k vout) _ H1) as (H4 & H5 & H6).
  eexists. split; [by rewrite H4|]. rewrite H6, H5, H2, H3, Hkl. done.
Qed.

Lemma ExtractPayouts_no_stakes env vtx height mint mn tx stakeAmount nMN vout :
  coinstake_read env vtx height mint tx stakeAmount ->
  without_mn_reward (tx_vout tx) mn = (nMN, vout) ->
  (forall k, ~ stake_prefix stakeAmount nMN vout k) ->
  exists s, ExtractPayouts env vtx height mint mn =
      Some (i64 (total_value vout + nMN) <? stakeAmount, s) /\ vFoundPayouts s = [].
Proof.
  intros [Htx (prevout & txPrev & out & Hvin & Hprev & Hout & ->) [[dev omno] Hf]] Hmn Hn.
  unfold ExtractPayouts. rewrite Htx. cbn [mbind option_bind]. rewrite Hvin. cbn [mbind option_bind].
  rewrite Hprev, Hout. cbn [mbind option_bind]. rewrite Hf, Hmn. cbv zeta.
  destruct (scan_no_stakes dev omno (i64 (nValue out + mint)) nMN vout scan_start eq_refl) as (H1 & H2 & H3 & H4);
    [cbn; range| |].
  { intros j Hj E. apply (Hn j). split; [lia|exact E]. }
  eexists. split; [|exact H2]. rewrite H1, H3, H4. cbn [orb scan_start nWinnerPayments totalStakeAcc].
  rewrite wrapS_add_l. by rewrite Z.add_0_l.
Qed.

(** IsBlockPayoutsValid, given what was extracted. *)
Lemma IsBlockPayoutsValid_extracted env v m vtx tx height mint mn ok s :
  vtx !! 1%nat = Some tx -> ExtractPayouts env vtx height mint mn = Some (ok, s) ->
  0 <= nPayoutOffset s -> nPayoutOffset s + Z.of_nat (length (vFoundPayouts s)) <= 2 ^ 32 ->
  (forall j, payoutsInfo v !! payout_key height (tx_hash tx) (nPayoutOffset s) j = None) ->
  exists v' valid,
    IsBlockPayoutsValid env v m vtx height mint mn = Some (v', valid) /\
    (valid = true <-> ok = true /\ vFoundPayouts s ≡ₚ vExpectedTxOuts m) /\
    (valid = false -> v' = v) /\
    (valid = true ->
     exists l, l ≡ₚ m /\ vExpectedTxOuts l = vFoundPayouts s /\
       v' = v <| payoutsInfo := payoutsInfo v' |> /\
       (forall j e, l !! j = Some e ->
          payoutsInfo v' !! payout_key height (tx_hash tx) (nPayoutOffset s) (Z.of_nat j) = Some e.1) /\
       (forall key, (forall j, (j < length l)%nat ->
            key <> payout_key height (tx_hash tx) (nPayoutOffset s) (Z.of_nat j)) ->
          payoutsInfo v' !! key = payoutsInfo v !! key)).
Proof.
  intros Htx He Ho Hlen Hfresh. unfold IsBlockPayoutsValid. rewrite Htx. cbn [mbind option_bind]. rewrite He.
  cbn [mbind option_bind]. destruct ok; cbn [negb].
  2: { exists v, false. split_and!; [done|naive_solver|done|done]. }
  fold (vExpectedTxOuts m). case_bool_decide as Hp; cbn [negb].
  - apply multiset_of_perm in Hp. symmetry in Hp.
    destruct (store_payouts_perm height (tx_hash tx) (nPayoutOffset s) 0 _ m v Hp) as (l & Hl & Hf & ->).
    eexists _, true. split_and!; [done|naive_solver|done|]. intros _. exists l.
    assert (length l.*1 = length (vFoundPayouts s)) as Hll.
    { rewrite <- Hf. unfold vExpectedTxOuts. by rewrite !length_fmap. }
    destruct (write_infos_lookup height (tx_hash tx) (nPayoutOffset s) 0 l.*1 (payoutsInfo v)) as [H1 H2];
      [lia|lia|rewrite Hll; lia|intros; apply Hfresh|].
    split_and!; [done|done|by destruct v| |].
    + intros j e Hj. simpl. specialize (H1 j e.1). rewrite Z.add_0_l in H1. apply H1. by rewrite list_lookup_fmap, Hj.
    + intros key Hkey. simpl. apply H2. intros j Hj. rewrite length_fmap in Hj.
      specialize (Hkey (Z.to_nat j) ltac:(lia)). by rewrite Z2Nat.id in Hkey by lia.
  - exists v, false. split_and!; [done| |done|done]. split; [done|]. intros [_ H]. destruct Hp.
    apply multiset_of_perm. by symmetry.
Qed.

Lemma stake_size_unique stakeAmount mn vout k k' :
  stake_size stakeAmount mn vout k -> stake_size stakeAmount mn vout k' -> k = k'.
Proof.
  intros [H1 H2] [H3 H4]. destruct (Nat.lt_trichotomy k k') as [H|[H|H]]; [|done|].
  - by destruct (H4 _ H).
  - by destruct (H2 _ H).
Qed.

Lemma stake_size_dec stakeAmount mn vout :
  (exists k, stake_size stakeAmount mn vout k) \/ (forall k, ~ stake_prefix stakeAmount mn vout k).
Proof.
  assert (forall n, (exists k, stake_size stakeAmount mn vout k) \/
    (forall k, (k < n)%nat -> ~ stake_prefix stakeAmount mn vout k)) as H.
  { induction n as [|n [IH|IH]]; [right; lia|by left|].
    destruct (decide (0 < n <= length vout)%nat) as [Hn|Hn].
    - destruct (decide (i64 (total_value (take n vout) + mn) = stakeAmount)) as [He|He].
      + left. exists n. by repeat split; try lia.
      + right. intros k Hk [H1 H2]. destruct (decide (k = n)) as [->|]; [done|]. apply (IH k); [lia|by split].
    - right. intros k Hk [H1 H2]. destruct (decide (k = n)) as [->|]; [done|]. apply (IH k); [lia|by split]. }
  destruct (H (S (length vout))) as [?|Hn]; [by left|]. right. intros k [Hk He]. apply (Hn k); [lia|by split].
Qed.

(** Nothing was found: the block has to pay nothing, and nothing is stored. *)
Lemma IsBlockPayoutsValid_none env v m vtx tx height mint mn ok s :
  vtx !! 1%nat = Some tx -> ExtractPayouts env vtx height mint mn = Some (ok, s) -> vFoundPayouts s = [] ->
  exists valid, IsBlockPayoutsValid env v m vtx height mint mn = Some (v, valid) /\
    (valid = true <-> m = [] /\ ok = true).
Proof.
  intros Htx He Hf. unfold IsBlockPayoutsValid. rewrite Htx. cbn [mbind option_bind]. rewrite He.
  cbn [mbind option_bind]. destruct ok; cbn [negb]; [|exists false; naive_solver].
  fold (vExpectedTxOuts m). rewrite Hf. case_bool_decide as Hp; cbn [negb store_payouts].
  - exists true. apply multiset_of_perm in Hp. apply Permutation_nil_r in Hp. unfold vExpectedTxOuts in Hp.
    apply fmap_nil_inv in Hp. done.
  - exists false. split; [done|]. split; [done|]. intros [-> _]. by destruct Hp.
Qed.

(** C4: which coinstakes pass.  The transaction whose output the
    coinstake spends and the scripts of the fees can be read, the outputs are
    fewer than 2^32, and the table has no payout of this transaction at this
    height yet.  Without the masternode payment at the end, the stake outputs
    are the shortest non-empty prefix that comes, with that payment, to the
    value spent plus the mint, at 64 bits.  If there is such a prefix, the
    coinstake is valid exactly when the outputs after it that have a value are
    the expected payouts, in any order and with their multiplicities; every
    expected payout then has its information stored once, under the number of
    its place among those outputs counted from the end of the stake (the
    number of the output itself, unless outputs without value come before
    it), and nothing else changes.  If there is no such prefix, it is valid
    exactly when no payout is expected and the outputs come to less than the
    stake amount.  A coinstake that fails leaves the view as it was. *)
Theorem IsBlockPayoutsValid_spec env v m vtx tx height mint mn stakeAmount nMN vout :
  coinstake_read env vtx height mint tx stakeAmount ->
  without_mn_reward (tx_vout tx) mn = (nMN, vout) -> Z.of_nat (length vout) < 2 ^ 32 ->
  (forall n, payoutsInfo v !! payout_key height (tx_hash tx) 0 n = None) ->
  exists v' valid,
    IsBlockPayoutsValid env v m vtx height mint mn = Some (v', valid) /\
    (valid = false -> v' = v) /\
    ((forall k, ~ stake_prefix stakeAmount nMN vout k) ->
      v' = v /\ (valid = true <-> m = [] /\ i64 (total_value vout + nMN) < stakeAmount)) /\
    (forall k, stake_size stakeAmount nMN vout k ->
      let found := filter (fun o => 0 < nValue o) (drop k vout) in
      (valid = true <-> found ≡ₚ vExpectedTxOuts m) /\
      (valid = true ->
       exists l, l ≡ₚ m /\ vExpectedTxOuts l = found /\
         v' = v <| payoutsInfo := payoutsInfo v' |> /\
         (forall j e, l !! j = Some e ->
            payoutsInfo v' !! payout_key height (tx_hash tx) (Z.of_nat k) (Z.of_nat j) = Some e.1) /\
         (forall key, (forall j, (j < length l)%nat ->
              key <> payout_key height (tx_hash tx) (Z.of_nat k) (Z.of_nat j)) ->
            payoutsInfo v' !! key = payoutsInfo v !! key))).
Proof.
  intros Hr Hmn Hlen Hfresh. pose proof (cr_tx _ _ _ _ _ _ Hr) as Htx.
  assert (forall o j, payoutsInfo v !! payout_key height (tx_hash tx) o j = None) as Hfr.
  { intros o j. specialize (Hfresh (j + o)). unfold payout_key in *. by rewrite Z.add_0_r in Hfresh. }
  destruct (stake_size_dec stakeAmount nMN vout) as [[k Hk]|Hnone].
  - destruct (ExtractPayouts_stakes _ _ _ _ _ _ _ _ _ _ Hr Hmn Hlen Hk) as (s & He & Hf & Ho).
    destruct (IsBlockPayoutsValid_extracted env v m vtx tx height mint mn true s Htx He) as (v' & valid & Hv & H1 & H2 & H3);
      [lia| |intros; apply Hfr|].
    { rewrite Ho, Hf. pose proof (length_filter (fun o => 0 < nValue o) (drop k vout)) as Hfl.
      rewrite length_drop in Hfl. destruct Hk as [[Hk _] _]. lia. }
    rewrite Ho, Hf in *. exists v', valid. split_and!; [done|done| |].
    + intros Hn. destruct (Hn k). apply Hk.
    + intros k' Hk'. rewrite (stake_size_unique _ _ _ _ _ Hk' Hk). cbv zeta. split; [naive_solver|exact H3].
  - destruct (ExtractPayouts_no_stakes _ _ _ _ _ _ _ _ _ Hr Hmn Hnone) as (s & He & Hf).
    destruct (IsBlockPayoutsValid_none env v m vtx tx height mint mn _ s Htx He Hf) as (valid & Hv & H1).
    exists v, valid. split_and!; [done|done| |].
    + intros _. split; [done|]. rewrite H1. by rewrite Z.ltb_lt.
    + intros k [Hk _]. by destruct (Hnone k).
Qed.

(** Every payout found has a positive value. *)
Lemma scan_positive dev omno stakeAmount mn outs s :
  Forall (fun o => 0 < nValue o) (vFoundPayouts s) ->
  Forall (fun o => 0 < nValue o) (vFoundPayouts (foldl (scan_vout dev omno stakeAmount mn) s outs)).
Proof.
  revert s. induction outs as [|o outs IH]; intros s Hs; cbn [foldl]; [done|]. apply IH.
  unfold scan_vout. case_match; simpl; [|done]. destruct (0 <? nValue o) eqn:E; [|done].
  apply Forall_app. split; [done|]. constructor; [lia|constructor].
Qed.

Lemma ExtractPayouts_positive env vtx height mint mn ok s :
  ExtractPayouts env vtx height mint mn = Some (ok, s) -> Forall (fun o => 0 < nValue o) (vFoundPayouts s).
Proof.
  unfold ExtractPayouts. intros H. apply bind_Some in H as (tx & _ & H). apply bind_Some in H as (prevout & _ & H).
  destruct (GetTransaction _ _); [|simplify_eq; constructor]. apply bind_Some in H as (out & _ & H).
  destruct (GetFeePayoutScripts _ _) as [[dev omno]|]; [|simplify_eq; constructor].
  destruct (without_mn_reward _ _) as [r vout]. simplify_eq. apply scan_positive. constructor.
Qed.

Lemma without_mn_reward_last outs mnout :
  (2 <= length outs)%nat -> without_mn_reward (outs ++ [mnout]) (nValue mnout) = (nValue mnout, outs).
Proof.
  intros Hl. unfold without_mn_reward. rewrite last_snoc, length_app. simpl.
  rewrite Z.eqb_refl, andb_true_r. destruct (2 <? length outs + 1)%nat eqn:E; [|apply Nat.ltb_ge in E; lia].
  f_equal. replace (length outs + 1 - 1)%nat with (length outs) by lia. by rewrite take_app_length.
Qed.

(** The coinstake of a block at [height]: it spends [out], and its outputs are
    the stake, the payouts and the masternode payment. *)
Record coinstake (env : ChainEnv) (vtx : list CTransaction) (height mint : Z) (tx : CTransaction)
    (stakes pays : list CTxOut) (mnout : CTxOut) : Prop := {
  cs_tx : vtx !! 1%nat = Some tx;
  cs_stake : exists prevout vin txPrev out,
    tx_vin tx = prevout :: vin /\ GetTransaction env (op_hash prevout) = Some txPrev /\
    prevout_of txPrev prevout = Some out /\
    stakes_end (i64 (nValue out + mint)) (nValue mnout) 0 stakes;
  cs_scripts : is_Some (GetFeePayoutScripts env height);
  cs_vout : tx_vout tx = stakes ++ pays ++ [mnout];
  cs_two : (2 <= length stakes)%nat;
  cs_len : Z.of_nat (length (tx_vout tx)) < 2 ^ 32;
}.

Lemma ExtractPayouts_coinstake env vtx height mint tx stakes pays mnout :
  coinstake env vtx height mint tx stakes pays mnout ->
  exists s, ExtractPayouts env vtx height mint (nValue mnout) = Some (true, s) /\
    vFoundPayouts s = filter (fun o => 0 < nValue o) pays /\ nPayoutOffset s = Z.of_nat (length stakes).
Proof.
  intros [Htx (prevout & vin & txPrev & out & Hvin & Hprev & Hout & Hend) [[dev omno] Hf] Hvout Htwo Hlen].
  unfold ExtractPayouts. rewrite Htx. cbn [mbind option_bind]. rewrite Hvin. cbn [head mbind option_bind].
  rewrite Hprev, Hout. cbn [mbind option_bind]. rewrite Hf, Hvout, app_assoc.
  rewrite without_mn_reward_last by (rewrite length_app; lia). cbv zeta. rewrite foldl_app.
  rewrite Hvout, !length_app in Hlen.
  destruct (scan_stakes dev omno _ (nValue mnout) stakes scan_start eq_refl Hend) as (H1 & H2 & H3);
    [simpl; lia|simpl; lia|].
  destruct (scan_payouts dev omno (i64 (nValue out + mint)) (nValue mnout) pays _ H1) as (H4 & H5 & H6).
  eexists. split; [by rewrite H4|]. rewrite H6, H5, H2, H3. done.
Qed.

(** C5: what the miner builds passes.  A coinstake with its stake
    outputs, then the expected payouts in the order of the multimap and the
    masternode payment at the end is valid, if all expected payouts are
    positive. *)
Theorem IsBlockPayoutsValid_miner env v m vtx height mint tx stakes mnout :
  coinstake env vtx height mint tx stakes (vExpectedTxOuts m) mnout ->
  Forall (fun o => 0 < nValue o) (vExpectedTxOuts m) ->
  exists v', IsBlockPayoutsValid env v m vtx height mint (nValue mnout) = Some (v', true).
Proof.
  intros Hc Hpos. destruct (ExtractPayouts_coinstake _ _ _ _ _ _ _ _ Hc) as (s & He & Hf & Ho).
  unfold IsBlockPayoutsValid. rewrite (cs_tx _ _ _ _ _ _ _ _ Hc). cbn [mbind option_bind]. rewrite He.
  cbn [mbind option_bind negb]. rewrite Hf.
  assert (filter (fun o => 0 < nValue o) (vExpectedTxOuts m) = vExpectedTxOuts m) as ->.
  { clear -Hpos. induction Hpos as [|o l Ho Hl IH]; [done|]. by rewrite filter_cons, decide_True, IH. }
  fold (vExpectedTxOuts m). rewrite bool_decide_eq_true_2 by done. cbn [negb].
  destruct (store_payouts_perm height (tx_hash tx) (nPayoutOffset s) 0 (vExpectedTxOuts m) m v)
    as (l & _ & _ & ->); [done|eauto].
Qed.

(** An expected payout of no value makes every block invalid.
    The outputs without value are left out of the found payouts but not of the
    expected ones, so that no block whatever passes. *)
Theorem IsBlockPayoutsValid_zero env v m vtx height mint mn o :
  o ∈ vExpectedTxOuts m -> nValue o <= 0 ->
  forall v', IsBlockPayoutsValid env v m vtx height mint mn <> Some (v', true).
Proof.
  intros Hin Ho v' H. unfold IsBlockPayoutsValid in H. apply bind_Some in H as (tx & _ & H).
  apply bind_Some in H as ([ok s] & He & H). destruct ok; cbn [negb] in H; [|done].
  fold (vExpectedTxOuts m) in H. case_bool_decide as Hp; cbn [negb] in H; [|done].
  apply multiset_of_perm in Hp. rewrite Hp in Hin. apply ExtractPayouts_positive in He.
  rewrite Forall_forall in He. apply He in Hin. lia.
Qed.
