(* ===== verification/BlockUndo.v ===== *)
(** * Undoing the betting transactions of a block
    (the loops of ConnectBlock and BettingUndo; src/src/validation.cpp,
    src/src/betting/bet.cpp)

    UndoProofs.v goes back over one output.  Here the outputs of a transaction
    and the transactions of a block: processing touches only the undo record
    and the bet of its own output ([frame]), so that the keys of the outputs
    still to come stay fresh, and the loops that undo go backwards. *)

From S2P Require Import Prelude Params BetTx BetDB BetKeys Flushable BetView BetCommon CheckTx.
From S2P Require Import ProcessTx UndoTx UndoProofs Payouts Block.

(** ** What processing an output leaves alone *)
Section Frame.
Context (env : ChainEnv) (gv : CBettingsView) (cx : TxCtx).
Implicit Types v : CBettingsView.

Record frame v v' : Prop := {
  frame_undos : forall k, k <> UndoTxKey (cx_bettingTxId cx) -> undos v' !! k = undos v !! k;
  frame_bets : forall k, k <> bet_key cx -> bets v' !! k = bets v !! k;
  frame_fieldBets : forall k, k <> bet_key cx -> fieldBets v' !! k = fieldBets v !! k;
  frame_cgBets : forall k, k <> bet_key cx -> chainGamesLottoBets v' !! k = chainGamesLottoBets v !! k;
  frame_qgBets : forall k, k <> bet_key cx -> quickGamesBets v' !! k = quickGamesBets v !! k;
}.

Lemma frame_refl v : frame v v.
Proof. by split. Qed.

(** A step of a handler after which the view still agrees with [v]. *)
Lemma frame_events v w x : frame v w -> frame v (w <| events := x |>).
Proof. intros []. by split. Qed.
Lemma frame_fieldEvents v w x : frame v w -> frame v (w <| fieldEvents := x |>).
Proof. intros []. by split. Qed.
Lemma frame_results v w x : frame v w -> frame v (w <| results := x |>).
Proof. intros []. by split. Qed.
Lemma frame_fieldResults v w x : frame v w -> frame v (w <| fieldResults := x |>).
Proof. intros []. by split. Qed.
Lemma frame_mappings v w x : frame v w -> frame v (w <| mappings := x |>).
Proof. intros []. by split. Qed.
Lemma frame_cgEvents v w x : frame v w -> frame v (w <| chainGamesLottoEvents := x |>).
Proof. intros []. by split. Qed.
Lemma frame_cgResults v w x : frame v w -> frame v (w <| chainGamesLottoResults := x |>).
Proof. intros []. by split. Qed.

Lemma frame_bet v w b : frame v w -> frame v (w <| bets := (dbWrite (bets w) (bet_key cx) b).1 |>).
Proof. intros []. split; try done. intros k Hk. simpl. rewrite dbWrite_other; auto. Qed.
Lemma frame_fieldBet v w b : frame v w -> frame v (w <| fieldBets := (dbWrite (fieldBets w) (bet_key cx) b).1 |>).
Proof. intros []. split; try done. intros k Hk. simpl. rewrite dbWrite_other; auto. Qed.
Lemma frame_cgBet v w b :
  frame v w -> frame v (w <| chainGamesLottoBets := (dbWrite (chainGamesLottoBets w) (bet_key cx) b).1 |>).
Proof. intros []. split; try done. intros k Hk. simpl. rewrite dbWrite_other; auto. Qed.
Lemma frame_qgBet v w b :
  frame v w -> frame v (w <| quickGamesBets := (dbWrite (quickGamesBets w) (bet_key cx) b).1 |>).
Proof. intros []. split; try done. intros k Hk. simpl. rewrite dbWrite_other; auto. Qed.

Lemma frame_save v w us w' : SaveBettingUndo w (cx_bettingTxId cx) us = Some w' -> frame v w -> frame v w'.
Proof.
  unfold SaveBettingUndo. case_match; [done|]. intros [= <-] []. split; try done.
  intros k Hk. simpl. rewrite dbWrite_other; auto.
Qed.

Lemma frame_failed_tx v w w' : SaveFailedTx w (cx_bettingTxId cx) = Some w' -> frame v w -> frame v w'.
Proof. unfold SaveFailedTx. case_match; [done|]. intros [= <-] []. by split. Qed.

Lemma frame_failed v w w' : save_failed cx w = Some w' -> frame v w -> frame v w'.
Proof. unfold save_failed. case_match; [apply frame_failed_tx|by intros [= <-]]. Qed.

#[local] Hint Resolve frame_refl frame_events frame_fieldEvents frame_results frame_fieldResults
  frame_mappings frame_cgEvents frame_cgResults frame_bet frame_fieldBet frame_cgBet frame_qgBet
  frame_save frame_failed frame_failed_tx : frame.




End Frame.


Section Outputs.
Context (env : ChainEnv) (gv : CBettingsView) (h : Z) (block : CBlock).
Context (Hh : V3 env <= h) (Hh32 : inU 32 h) (Hv3 : u32 (V3 env) <= h).
Context (Hv4 : (u32 (V4 env) <=? h) = v4_active env).
Implicit Types (v : CBettingsView) (tx : CTransaction).















End Outputs.

