(* ===== verification/TokenGroups.v ===== *)
(** * Token groups in scripts
    (src/src/tokens/groups.h, src/src/tokens/groups.cpp,
    src/src/script/tokengroup.cpp, and the balance record of
    src/src/consensus/tokengroups.h)

    A grouped output starts with a push of the group's identifier, a push of a
    quantity and OP_GROUP.  The identifier is a byte string: 32 bytes for a
    group, more for a subgroup, the last of the 32 bytes holding the flags.  A
    negative quantity is an authority, its upper bits the permissions.
    Identifiers, scripts and strings are lists of bytes. *)

From S2P Require Import Prelude Serialize BetTx Params.

(** ** Identifiers *)
Definition STICKY_MELT : Z := 1.
Definition MGT_TOKEN : Z := 2.
Definition NFT_TOKEN : Z := 4.
Definition BETTING_TOKEN : Z := 8.
Definition PARLAY_TOKEN : Z := 16.
Definition TokenGroupIdFlags_NONE : Z := 0.

Definition hasTokenGroupIdFlag (object flag : Z) : bool := Z.land object flag =? flag.

Definition CTokenGroupID : Type := list Z.

Definition NoGroup : CTokenGroupID := [].

Definition PARENT_GROUP_ID_SIZE : nat := 32.

(** The group identifier of a parent and the data of a subgroup. *)
Definition CTokenGroupID_sub (tgID : CTokenGroupID) (subgroupData : list Z) : CTokenGroupID :=
  tgID ++ subgroupData.

Definition isUserGroup (g : CTokenGroupID) : bool := negb (bool_decide (g = [])).

Definition isSubgroup (g : CTokenGroupID) : bool := (PARENT_GROUP_ID_SIZE <? length g)%nat.

Definition parentGroup (g : CTokenGroupID) : CTokenGroupID :=
  if (length g <=? PARENT_GROUP_ID_SIZE)%nat then g else take PARENT_GROUP_ID_SIZE g.

Definition GetSubGroupData (g : CTokenGroupID) : list Z :=
  if (PARENT_GROUP_ID_SIZE <? length g)%nat then drop PARENT_GROUP_ID_SIZE g else [].

Definition hasFlag (g : CTokenGroupID) (flag : Z) : bool :=
  if (PARENT_GROUP_ID_SIZE <=? length g)%nat then hasTokenGroupIdFlag (nth 31 g 0) flag else false.

(** Words separated by a blank. *)
Definition add_word (sflags word : string) : string :=
  if bool_decide (sflags = "") then word else sflags +:+ " " +:+ word.

Definition encodeFlags (g : CTokenGroupID) : string :=
  if (length g <? PARENT_GROUP_ID_SIZE)%nat then ""
  else
    let has flag := hasTokenGroupIdFlag (nth 31 g 0) flag in
    let sflags := if has STICKY_MELT then add_word "" "sticky_melt" else "" in
    let sflags := if has MGT_TOKEN then "management"%string else sflags in
    let sflags := if has NFT_TOKEN then add_word sflags "nft" else sflags in
    let sflags := if has BETTING_TOKEN then add_word sflags "betting" else sflags in
    if has PARLAY_TOKEN then add_word sflags "parlay" else sflags.

(** ** Authorities *)
Definition CTRL : Z := 2 ^ 63.
Definition MINT : Z := 2 ^ 62.
Definition MELT : Z := 2 ^ 61.
Definition CCHILD : Z := 2 ^ 60.
Definition RESCRIPT : Z := 2 ^ 59.
Definition SUBGROUP : Z := 2 ^ 58.
Definition WAGERR : Z := 2 ^ 57.
Definition GroupAuthorityFlags_NONE : Z := 0.
Definition ALL : Z := Z.lor CTRL (Z.lor MINT (Z.lor MELT (Z.lor CCHILD (Z.lor RESCRIPT SUBGROUP)))).
Definition ALL_NFT : Z := Z.lor CTRL MINT.
Definition ALL_BETTING : Z := Z.lor CTRL (Z.lor SUBGROUP WAGERR).
Definition ALL_BITS : Z := Z.shiftl 0xffff 48.

(** ~ on 64 bits. *)
Definition flags_not (a : Z) : Z := Z.lxor a (Z.ones 64).

Definition hasCapability (object capability : Z) : bool := negb (Z.land object capability =? 0).

Definition EncodeGroupAuthority (flags : Z) : string :=
  if hasCapability flags CTRL then
    let sflags := if hasCapability flags MINT then "mint"%string else "" in
    let sflags := if hasCapability flags MELT then add_word sflags "melt" else sflags in
    let sflags := if hasCapability flags CCHILD then add_word sflags "child" else add_word sflags "nochild" in
    let sflags := if hasCapability flags RESCRIPT then add_word sflags "rescript" else sflags in
    let sflags := if hasCapability flags SUBGROUP then add_word sflags "subgroup" else sflags in
    if hasCapability flags WAGERR then add_word sflags "wagerr" else sflags
  else "none".

(** ** Amounts in scripts *)
Definition SerializeAmount (num : Z) : list Z :=
  if num <? 0 then ser_writedata64 num
  else if num <=? 65535 then ser_writedata16 num
  else if num <=? 4294967295 then ser_writedata32 num
  else ser_writedata64 num.

(** [None]: the exception of an invalid length. *)
Definition DeserializeAmount (vec : list Z) : option Z :=
  if (length vec =? 2)%nat then fst <$> ser_readdata16 vec
  else if (length vec =? 4)%nat then fst <$> ser_readdata32 vec
  else if (length vec =? 8)%nat then (fun r => i64 r.1) <$> ser_readdata64 vec
  else None.

(** ** CTokenGroupInfo *)
Record CTokenGroupInfo := {
  gi_associatedGroup : CTokenGroupID;
  gi_quantity : Z;
  gi_invalid : bool;
}.

#[export] Instance CTokenGroupInfo_eq_dec : EqDecision CTokenGroupInfo.
Proof. solve_decision. Defined.

(** The default constructor. *)
Definition CTokenGroupInfo_init : CTokenGroupInfo :=
  {| gi_associatedGroup := NoGroup; gi_quantity := 0; gi_invalid := true |}.

Definition OP_GROUP : Z := 0xb6.

(** CTokenGroupInfo(const CScript&). *)
Definition CTokenGroupInfo_of (script : list Z) : CTokenGroupInfo :=
  let no_group := {| gi_associatedGroup := NoGroup; gi_quantity := 0; gi_invalid := false |} in
  let bad := {| gi_associatedGroup := []; gi_quantity := 0; gi_invalid := true |} in
  match GetScriptOp script with
  | None => no_group
  | Some (opcodeGrp, groupId, pc) =>
      match GetScriptOp pc with
      | None => no_group
      | Some (opcodeQty, tokenQty, pc) =>
          match GetScriptOp pc with
          | None => no_group
          | Some (opcode, _, _) =>
              if negb (opcode =? OP_GROUP) then no_group
              else if opcodeGrp <? 0x20 then bad
              else if negb (opcodeQty =? 2) && negb (opcodeQty =? 4) && negb (opcodeQty =? 8) then bad
              else
                match DeserializeAmount tokenQty with
                | Some quantity => {| gi_associatedGroup := groupId; gi_quantity := quantity; gi_invalid := false |}
                | None => {| gi_associatedGroup := groupId; gi_quantity := 0; gi_invalid := true |}
                end
          end
      end
  end.

Definition GetTokenGroup (script : list Z) : CTokenGroupID := gi_associatedGroup (CTokenGroupInfo_of script).

Definition controllingGroupFlags (i : CTokenGroupInfo) : Z :=
  if gi_quantity i <? 0 then u64 (gi_quantity i) else GroupAuthorityFlags_NONE.

Definition getAmount (i : CTokenGroupInfo) : Z := if gi_quantity i <? 0 then 0 else gi_quantity i.

Definition isAuthority (i : CTokenGroupInfo) : bool := Z.land (controllingGroupFlags i) CTRL =? CTRL.

Definition isGroupCreation (i : CTokenGroupInfo) (tokenGroupIdFlags : Z) : bool :=
  let hasNonce := negb (Z.land (u64 (gi_quantity i)) (flags_not ALL_BITS) =? 0) in
  (Z.land (controllingGroupFlags i) CTRL =? CTRL) && hasNonce && hasFlag (gi_associatedGroup i) tokenGroupIdFlags.

(** The common shape of the tests of a permission. *)
Definition allows (i : CTokenGroupInfo) (perm : Z) : bool :=
  Z.land (controllingGroupFlags i) (Z.lor CTRL perm) =? Z.lor CTRL perm.

Definition allowsMint (i : CTokenGroupInfo) : bool := allows i MINT.
Definition allowsMelt (i : CTokenGroupInfo) : bool := allows i MELT.
Definition allowsRenew (i : CTokenGroupInfo) : bool := allows i CCHILD.
Definition allowsRescript (i : CTokenGroupInfo) : bool := allows i RESCRIPT.
Definition allowsSubgroup (i : CTokenGroupInfo) : bool := allows i SUBGROUP.
Definition isWagerr (i : CTokenGroupInfo) : bool := allows i WAGERR.

(** operator==. *)
Definition CTokenGroupInfo_eqb (i g : CTokenGroupInfo) : bool :=
  if gi_invalid g || gi_invalid i then false
  else bool_decide (gi_associatedGroup i = gi_associatedGroup g) &&
       (controllingGroupFlags i =? controllingGroupFlags g).

(** ** Grouped outputs *)
Definition IsOutputGrouped (txout : CTxOut) : bool :=
  let grp := CTokenGroupInfo_of (scriptPubKey txout) in
  gi_invalid grp || negb (bool_decide (gi_associatedGroup grp = NoGroup)).

Definition IsOutputGroupedAuthority (txout : CTxOut) : bool :=
  let grp := CTokenGroupInfo_of (scriptPubKey txout) in
  negb (bool_decide (gi_associatedGroup grp = NoGroup)) && isAuthority grp.

Definition IsOutputGroupedBet (txout : CTxOut) : bool :=
  let grp := CTokenGroupInfo_of (scriptPubKey txout) in
  negb (bool_decide (gi_associatedGroup grp = NoGroup)) && hasFlag (gi_associatedGroup grp) BETTING_TOKEN.

Definition IsAnyOutputGrouped (tx : CTransaction) : bool := existsb IsOutputGrouped (tx_vout tx).
Definition IsAnyOutputGroupedAuthority (tx : CTransaction) : bool := existsb IsOutputGroupedAuthority (tx_vout tx).
Definition IsAnyOutputGroupedBet (tx : CTransaction) : bool := existsb IsOutputGroupedBet (tx_vout tx).

(** The first output that creates a group, when no invalid one is before it. *)
Fixpoint grouped_creation (vout : list CTxOut) (tokenGroupIdFlags : Z) : option CTxOut :=
  match vout with
  | [] => None
  | txout :: vout =>
      let grp := CTokenGroupInfo_of (scriptPubKey txout) in
      if gi_invalid grp then None
      else if isGroupCreation grp tokenGroupIdFlags then Some txout
      else grouped_creation vout tokenGroupIdFlags
  end.

Definition GetGroupedCreationOutput (tx : CTransaction) (tokenGroupIdFlags : Z) : option CTxOut :=
  grouped_creation (tx_vout tx) tokenGroupIdFlags.

Definition IsAnyOutputGroupedCreation (tx : CTransaction) (tokenGroupIdFlags : Z) : bool :=
  bool_decide (is_Some (grouped_creation (tx_vout tx) tokenGroupIdFlags)).

(** ** Scripts of grouped outputs (script/tokengroup.cpp) *)
Definition OP_DROP : Z := 0x75.
Definition OP_DUP : Z := 0x76.
Definition OP_EQUAL : Z := 0x87.
Definition OP_EQUALVERIFY : Z := 0x88.
Definition OP_HASH160 : Z := 0xa9.
Definition OP_CHECKSIG : Z := 0xac.

(** ToByteVector of a uint160 and of a uint256. *)
Definition uint160_bytes (h : Z) : list Z := reverse (le_bytes 20 h).
Definition uint256_bytes (h : Z) : list Z := reverse (le_bytes 32 h).

(** operator<< of an opcode appends its byte. *)
Definition group_prefix (group : CTokenGroupID) (quantity : Z) : list Z :=
  script_push group ++ script_push (SerializeAmount quantity) ++ [OP_GROUP; OP_DROP; OP_DROP].

(** CGroupScriptVisitor and GetScriptForDestination. *)
Definition GroupScriptForDestination (dest : CTxDestination) (group : CTokenGroupID) (amount : Z) : list Z :=
  let prefix := if isUserGroup group then group_prefix group amount else [] in
  match dest with
  | CNoDestination => []
  | CKeyID keyID => prefix ++ [OP_DUP; OP_HASH160] ++ script_push (uint160_bytes keyID) ++ [OP_EQUALVERIFY; OP_CHECKSIG]
  | CScriptID scriptID => prefix ++ [OP_HASH160] ++ script_push (uint160_bytes scriptID) ++ [OP_EQUAL]
  end.

(** ** The balance of a group in a transaction (consensus/tokengroups.h) *)
Record CTokenGroupBalance := {
  ctrlPerms : Z;
  allowedCtrlOutputPerms : Z;
  allowedSubgroupCtrlOutputPerms : Z;
  ctrlOutputPerms : Z;
  bal_input : Z;
  bal_output : Z;
  numInputs : Z;
  numOutputs : Z;
}.

#[export] Instance CTokenGroupBalance_settable : Settable CTokenGroupBalance := fun b =>
  {| ctrlPerms := ctrlPerms b; allowedCtrlOutputPerms := allowedCtrlOutputPerms b;
     allowedSubgroupCtrlOutputPerms := allowedSubgroupCtrlOutputPerms b;
     ctrlOutputPerms := ctrlOutputPerms b; bal_input := bal_input b; bal_output := bal_output b;
     numInputs := numInputs b; numOutputs := numOutputs b |}.

Definition CTokenGroupBalance_init : CTokenGroupBalance :=
  {| ctrlPerms := 0; allowedCtrlOutputPerms := 0; allowedSubgroupCtrlOutputPerms := 0; ctrlOutputPerms := 0;
     bal_input := 0; bal_output := 0; numInputs := 0; numOutputs := 0 |}.

#[export] Instance CTokenGroupBalance_eq_dec : EqDecision CTokenGroupBalance.
Proof. solve_decision. Defined.

(** ** Amounts: round trip *)
Lemma SerializeAmount_bytes num : Forall byte (SerializeAmount num).
Proof. unfold SerializeAmount. repeat case_match; apply le_bytes_byte. Qed.

Lemma length_SerializeAmount num :
  length (SerializeAmount num) = 2%nat \/ length (SerializeAmount num) = 4%nat \/
  length (SerializeAmount num) = 8%nat.
Proof.
  unfold SerializeAmount, ser_writedata16, ser_writedata32, ser_writedata64.
  repeat case_match; rewrite !length_le_bytes; auto.
Qed.

Lemma ser_readdata_le_bytes n x : ser_readdata n (le_bytes n x) = Some (wrapU (8 * Z.of_nat n) x, []).
Proof. rewrite <- (app_nil_r (le_bytes n x)) at 1. apply ser_readdata_app. Qed.

Lemma DeserializeAmount_SerializeAmount num :
  inS 64 num -> DeserializeAmount (SerializeAmount num) = Some num.
Proof.
  intros Hn. unfold SerializeAmount, ser_writedata16, ser_writedata32, ser_writedata64.
  assert (i64 (u64 num) = num) as H64.
  { rewrite wrapS_wrapU by lia. by apply wrapS_small. }
  destruct (Z.ltb_spec num 0);
    [|destruct (Z.leb_spec num 65535); [|destruct (Z.leb_spec num 4294967295)]];
    unfold DeserializeAmount; rewrite !length_le_bytes; cbn [Nat.eqb];
    unfold ser_readdata16, ser_readdata32, ser_readdata64; rewrite ser_readdata_le_bytes; cbn.
  - f_equal. exact H64.
  - f_equal. apply wrapU_small. range.
  - f_equal. apply wrapU_small. range.
  - f_equal. exact H64.
Qed.

(** ** Scripts: round trip *)
Lemma GetScriptOp_head op s op' d pc : GetScriptOp (op :: s) = Some (op', d, pc) -> op' = op.
Proof.
  unfold GetScriptOp. case_match; [|by intros [= <- _ _]]. intros H1.
  apply bind_Some in H1 as ([n pc'] & _ & H1). apply bind_Some in H1 as ([d' pc''] & _ & H1). by simplify_eq.
Qed.

(** A push of a byte string: its length is the opcode up to 75 bytes. *)
Lemma GetScriptOp_push_opcode b rest :
  Forall byte b -> Z.of_nat (length b) < 2 ^ 32 ->
  exists opcode, GetScriptOp (script_push b ++ rest) = Some (opcode, b, rest) /\
    (Z.of_nat (length b) < 76 -> opcode = Z.of_nat (length b)) /\
    (76 <= Z.of_nat (length b) -> 76 <= opcode).
Proof.
  intros Hb Hlen. destruct (GetScriptOp_push b rest Hb Hlen) as (op & Hop & _). exists op. split; [done|].
  unfold script_push, OP_PUSHDATA1, OP_PUSHDATA2, OP_PUSHDATA4 in Hop.
  destruct (Z.ltb_spec (Z.of_nat (length b)) 76); [|destruct (Z.of_nat (length b) <=? 255);
    [|destruct (Z.of_nat (length b) <=? 65535)]]; apply GetScriptOp_head in Hop; lia.
Qed.

Lemma CTokenGroupInfo_of_prefix group quantity rest :
  Forall byte group -> 32 <= Z.of_nat (length group) < 2 ^ 32 -> inS 64 quantity ->
  CTokenGroupInfo_of (group_prefix group quantity ++ rest) =
    {| gi_associatedGroup := group; gi_quantity := quantity; gi_invalid := false |}.
Proof.
  intros Hb Hlen Hq. unfold group_prefix, CTokenGroupInfo_of. rewrite <- !app_assoc.
  destruct (GetScriptOp_push_opcode group (script_push (SerializeAmount quantity) ++
    [OP_GROUP; OP_DROP; OP_DROP] ++ rest) Hb) as (op & Hop & Hlo & Hhi); [lia|].
  rewrite Hop. pose proof (length_SerializeAmount quantity) as Hl.
  destruct (GetScriptOp_push_opcode (SerializeAmount quantity) ([OP_GROUP; OP_DROP; OP_DROP] ++ rest)
    (SerializeAmount_bytes quantity)) as (op2 & Hop2 & Hlo2 & _); [lia|].
  rewrite Hop2. change (GetScriptOp _) with (Some (OP_GROUP, @nil Z, OP_DROP :: OP_DROP :: rest)).
  cbv beta iota. change (OP_GROUP =? OP_GROUP) with true. cbn [negb].
  replace (op <? 32) with false by lia.
  replace (negb (op2 =? 2) && negb (op2 =? 4) && negb (op2 =? 8)) with false by lia.
  by rewrite DeserializeAmount_SerializeAmount.
Qed.

(** Grouped scripts are read back.  A script built for a destination, a
    group of at least 32 bytes and any 64-bit quantity is parsed to that group
    and quantity; without a group it is parsed to no group; neither is
    invalid. *)
Theorem GroupScriptForDestination_parse dest group amount :
  dest <> CNoDestination -> Forall byte group -> 32 <= Z.of_nat (length group) < 2 ^ 32 -> inS 64 amount ->
  CTokenGroupInfo_of (GroupScriptForDestination dest group amount) =
    {| gi_associatedGroup := group; gi_quantity := amount; gi_invalid := false |} /\
  CTokenGroupInfo_of (GroupScriptForDestination dest NoGroup amount) =
    {| gi_associatedGroup := NoGroup; gi_quantity := 0; gi_invalid := false |}.
Proof.
  intros Hd Hb Hlen Hq. unfold GroupScriptForDestination, isUserGroup.
  rewrite bool_decide_eq_false_2 by (intros ->; simpl in Hlen; lia). cbn [negb].
  rewrite (bool_decide_eq_true_2 (NoGroup = [])) by done. cbn [negb].
  destruct dest as [|h|h]; [done| |]; (split; [by apply CTokenGroupInfo_of_prefix|]).
  - cbn [app]. unfold CTokenGroupInfo_of.
    change (GetScriptOp (OP_DUP :: ?s)) with (Some (OP_DUP, @nil Z, s)). cbv beta iota.
    change (GetScriptOp (OP_HASH160 :: ?s)) with (Some (OP_HASH160, @nil Z, s)). cbv beta iota.
    assert (Forall byte (uint160_bytes h)) as Hh by (apply Forall_reverse, le_bytes_byte).
    destruct (GetScriptOp_push_opcode (uint160_bytes h) [OP_EQUALVERIFY; OP_CHECKSIG] Hh)
      as (op & -> & Hop & _); unfold uint160_bytes in *; rewrite length_reverse, length_le_bytes in *; [lia|].
    rewrite Hop by lia. done.
  - cbn [app]. unfold CTokenGroupInfo_of.
    change (GetScriptOp (OP_HASH160 :: ?s)) with (Some (OP_HASH160, @nil Z, s)). cbv beta iota.
    assert (Forall byte (uint160_bytes h)) as Hh by (apply Forall_reverse, le_bytes_byte).
    destruct (GetScriptOp_push_opcode (uint160_bytes h) [OP_EQUAL] Hh)
      as (op & -> & Hop & _); unfold uint160_bytes in *; rewrite length_reverse, length_le_bytes in *; [lia|].
    done.
Qed.

(** Groups shorter than 32 bytes are accepted.  The length of the group is
    checked on the opcode of the push: a group of any length below 32 that is
    pushed with OP_PUSHDATA1 passes as a valid group. *)
Theorem CTokenGroupInfo_of_short group quantity rest :
  Forall byte group -> (length group < 32)%nat -> inS 64 quantity ->
  CTokenGroupInfo_of (OP_PUSHDATA1 :: Z.of_nat (length group) :: group ++
      script_push (SerializeAmount quantity) ++ OP_GROUP :: rest) =
    {| gi_associatedGroup := group; gi_quantity := quantity; gi_invalid := false |}.
Proof.
  intros Hb Hlen Hq. unfold CTokenGroupInfo_of. cbn [GetScriptOp].
  change (OP_PUSHDATA1 <=? OP_PUSHDATA4) with true. change (OP_PUSHDATA1 <? OP_PUSHDATA1) with false.
  change (OP_PUSHDATA1 =? OP_PUSHDATA1) with true. cbv iota.
  change (Z.of_nat (length group) :: ?s) with ([Z.of_nat (length group)] ++ s).
  rewrite <- le_bytes_1 by (unfold byte; range). unfold ser_readdata8.
  rewrite (ser_readdata_small 1) by range. cbn [mbind option_bind]. rewrite Nat2Z.id, read_bytes_app.
  cbn [mbind option_bind]. pose proof (length_SerializeAmount quantity) as Hl.
  destruct (GetScriptOp_push_opcode (SerializeAmount quantity) (OP_GROUP :: rest)
    (SerializeAmount_bytes quantity)) as (op2 & Hop2 & Hlo2 & _); [lia|].
  rewrite Hop2. change (GetScriptOp (OP_GROUP :: rest)) with (Some (OP_GROUP, @nil Z, rest)). cbv beta iota.
  change (OP_GROUP =? OP_GROUP) with true. cbn [negb]. change (OP_PUSHDATA1 <? 32) with false. cbv iota.
  replace (negb (op2 =? 2) && negb (op2 =? 4) && negb (op2 =? 8)) with false by lia.
  by rewrite DeserializeAmount_SerializeAmount.
Qed.

(** ** Groups and subgroups *)

(** A subgroup of a 32-byte group: its parent, its data and its flags, which
    are the parent's. *)
Theorem subgroup_of_parent group data flag :
  length group = PARENT_GROUP_ID_SIZE -> data <> [] ->
  let sub := CTokenGroupID_sub group data in
  isSubgroup group = false /\ parentGroup group = group /\
  isSubgroup sub = true /\ parentGroup sub = group /\ GetSubGroupData sub = data /\
  hasFlag sub flag = hasFlag group flag.
Proof.
  intros Hg Hd sub. unfold sub, CTokenGroupID_sub, isSubgroup, parentGroup, GetSubGroupData, hasFlag.
  unfold PARENT_GROUP_ID_SIZE in *. rewrite length_app, Hg.
  assert (0 < length data)%nat by (destruct data; simpl; [done|lia]).
  rewrite Nat.ltb_irrefl, Nat.leb_refl.
  replace (32 <? 32 + length data)%nat with true by (symmetry; apply Nat.ltb_lt; lia).
  replace (32 + length data <=? 32)%nat with false by (symmetry; apply Nat.leb_gt; lia).
  replace (32 <=? 32 + length data)%nat with true by (symmetry; apply Nat.leb_le; lia).
  rewrite take_app_length' by done. rewrite drop_app_length' by done. rewrite app_nth1 by lia. done.
Qed.

Lemma parentGroup_not_subgroup g : isSubgroup (parentGroup g) = false.
Proof.
  unfold isSubgroup, parentGroup, PARENT_GROUP_ID_SIZE. apply Nat.ltb_ge. case_match eqn:E.
  - by apply Nat.leb_le.
  - rewrite length_take. lia.
Qed.

(** ** Authorities *)
Lemma land_pow2 x n : 0 <= n -> Z.land x (2 ^ n) = if Z.testbit x n then 2 ^ n else 0.
Proof.
  intros Hn. apply Z.bits_inj'. intros k Hk. rewrite Z.land_spec, Z.pow2_bits_eqb by done.
  destruct (Z.testbit x n) eqn:E; [|rewrite Z.bits_0]; try rewrite Z.pow2_bits_eqb by done;
    destruct (Z.eqb_spec n k) as [->|]; rewrite ?E; by rewrite ?andb_true_r, ?andb_false_r.
Qed.

Lemma testbit_u64 x n : 0 <= n < 64 -> Z.testbit (u64 x) n = Z.testbit x n.
Proof. intros. unfold wrapU. apply Z.mod_pow2_bits_low. lia. Qed.

Lemma testbit_63_negative x : inS 64 x -> Z.testbit x 63 = (x <? 0).
Proof.
  intros Hx. destruct (Z.ltb_spec x 0) as [H|H].
  - assert (x = u64 x - 2 ^ 64) as E.
    { unfold wrapU. rewrite <- (Z.mod_unique x (2 ^ 64) (-1) (x + 2 ^ 64)); range. }
    rewrite <- testbit_u64 by lia. apply Z.testbit_true; [lia|].
    pose proof (wrapU_range 64 x) as Hr. unfold inU in Hr.
    assert (u64 x `div` 2 ^ 63 = 1) as ->; [|done].
    symmetry. apply (Z.div_unique _ _ 1 (u64 x - 2 ^ 63)); range.
  - apply Z.testbit_false; [lia|]. rewrite Z.div_small; [done|range].
Qed.

(** What a quantity says.  A valid 64-bit quantity is an authority when it is
    negative; then its permissions are its bits, and it carries no amount; a
    quantity that is not negative carries no permission. *)
Theorem authority_bits i k :
  inS 64 (gi_quantity i) -> 48 <= k < 63 ->
  isAuthority i = (gi_quantity i <? 0) /\
  allows i (2 ^ k) = (gi_quantity i <? 0) && Z.testbit (gi_quantity i) k /\
  (isAuthority i = true -> getAmount i = 0) /\
  (isAuthority i = false -> getAmount i = gi_quantity i /\ controllingGroupFlags i = GroupAuthorityFlags_NONE).
Proof.
  intros Hq Hk. unfold isAuthority, allows, getAmount, controllingGroupFlags.
  destruct (Z.ltb_spec (gi_quantity i) 0) as [H|H].
  - assert (Z.testbit (u64 (gi_quantity i)) 63 = true) as H63.
    { rewrite testbit_u64 by lia. rewrite testbit_63_negative by done. by apply Z.ltb_lt. }
    rewrite Z.land_lor_distr_r. unfold CTRL. rewrite !land_pow2 by lia. rewrite H63, testbit_u64 by lia.
    rewrite Z.eqb_refl. split_and!; [done| |done|done].
    destruct (Z.testbit (gi_quantity i) k); [by rewrite Z.eqb_refl|]. rewrite Z.lor_0_r.
    apply Z.eqb_neq. intros E. apply (f_equal (fun z => Z.testbit z k)) in E.
    rewrite Z.lor_spec, !Z.pow2_bits_eqb in E by lia. rewrite Z.eqb_refl in E.
    destruct (Z.eqb_spec 63 k); [lia|done].
  - split_and!; [done| |done|done]. apply Z.eqb_neq. intros E. symmetry in E.
    by apply Z.lor_eq_0_iff in E as [? _].
Qed.

(** encodeFlags forgets the sticky flag of a management token. *)
Lemma encodeFlags_mgt g :
  (PARENT_GROUP_ID_SIZE <= length g)%nat -> nth 31 g 0 = Z.lor STICKY_MELT MGT_TOKEN ->
  encodeFlags g = "management"%string.
Proof.
  intros Hg Hf. unfold encodeFlags. rewrite Hf.
  replace (length g <? PARENT_GROUP_ID_SIZE)%nat with false by (symmetry; by apply Nat.ltb_ge). reflexivity.
Qed.
