(* ===== verification/AddressIndex.v ===== *)
(** * The address, unspent and spent indices (src/src/spentindex.h, the indices
    of CBlockTreeDB in src/src/txdb.cpp, what ConnectBlock and DisconnectBlock of
    src/src/validation.cpp put in them, the tests of scripts of
    src/src/script/script.cpp)

    The loops over the transactions collect vectors of entries, which are
    written when the loop is over.  The values of the spent index are written
    under the outpoint that is spent. *)

From S2P Require Import Prelude Serialize BetTx Params Transaction Coins CoinsUndo TokenGroups.

(** ** Tests of scripts *)

(** A read past the end decides nothing here: the size is tested, or the script
    is empty and no size matches. *)
Definition byte_at (s : list Z) (i : Z) : Z := default 0 (s !! Z.to_nat i).

Definition script_size (s : list Z) : Z := Z.of_nat (length s).

Definition IsPayToPublicKeyHash (s : list Z) : bool :=
  (script_size s =? 25) && (byte_at s 0 =? OP_DUP) && (byte_at s 1 =? OP_HASH160) && (byte_at s 2 =? 0x14) &&
  (byte_at s 23 =? OP_EQUALVERIFY) && (byte_at s 24 =? OP_CHECKSIG).

Definition is_small_push (b : Z) : bool := (0 <? b) && (b <? OP_PUSHDATA1).

(** Where the hash is looked for: after a group prefix, if there is one. *)
Definition p2sh_offset (s : list Z) : Z :=
  let len := script_size s in
  if is_small_push (byte_at s 0) then
    let offset := byte_at s 0 + 1 in
    if (offset <? len) && is_small_push (byte_at s offset) then
      let offset := offset + byte_at s offset + 1 in
      if (offset <? len) && negb (byte_at s offset =? OP_GROUP) then 0 else offset + 3
    else offset
  else 0.

Definition IsPayToScriptHash (s : list Z) : bool :=
  let offset := p2sh_offset s in
  (script_size s =? offset + 23) && (byte_at s offset =? OP_HASH160) && (byte_at s (offset + 1) =? 0x14) &&
  (byte_at s (offset + 22) =? OP_EQUAL).

Definition IsPayToPublicKey (s : list Z) : bool :=
  if script_size s =? 35 then ((byte_at s 1 =? 0x02) || (byte_at s 1 =? 0x03)) && (byte_at s 34 =? OP_CHECKSIG)
  else if script_size s =? 67 then (byte_at s 1 =? 0x04) && (byte_at s 66 =? OP_CHECKSIG)
  else false.

(** ** Keys and values *)
Record CAddressIndexKey := {
  ak_type : Z; ak_hashBytes : list Z; ak_blockHeight : Z; ak_txindex : Z; ak_txhash : uint256; ak_index : Z;
  ak_spending : bool;
}.
#[export] Instance CAddressIndexKey_eq_dec : EqDecision CAddressIndexKey.
Proof. solve_decision. Defined.
#[export] Instance CAddressIndexKey_countable : Countable CAddressIndexKey.
Proof.
  apply (inj_countable'
    (fun k => (ak_type k, ak_hashBytes k, ak_blockHeight k, ak_txindex k, ak_txhash k, ak_index k, ak_spending k))
    (fun '(t, h, b, i, x, n, s) => {| ak_type := t; ak_hashBytes := h; ak_blockHeight := b; ak_txindex := i; ak_txhash := x;
                                      ak_index := n; ak_spending := s |})).
  by intros [].
Defined.

Record CAddressUnspentKey := { uk_type : Z; uk_hashBytes : list Z; uk_txhash : uint256; uk_index : Z }.
#[export] Instance CAddressUnspentKey_eq_dec : EqDecision CAddressUnspentKey.
Proof. solve_decision. Defined.
#[export] Instance CAddressUnspentKey_countable : Countable CAddressUnspentKey.
Proof.
  apply (inj_countable' (fun k => (uk_type k, uk_hashBytes k, uk_txhash k, uk_index k))
    (fun '(t, h, x, n) => {| uk_type := t; uk_hashBytes := h; uk_txhash := x; uk_index := n |})).
  by intros [].
Defined.

Record CAddressUnspentValue := { uv_satoshis : Z; uv_script : list Z; uv_blockHeight : Z }.
Definition CAddressUnspentValue_null : CAddressUnspentValue := {| uv_satoshis := -1; uv_script := []; uv_blockHeight := 0 |}.
Definition uv_IsNull (v : CAddressUnspentValue) : bool := uv_satoshis v =? -1.

Record CSpentIndexKey := { sk_txid : uint256; sk_outputIndex : Z }.
#[export] Instance CSpentIndexKey_eq_dec : EqDecision CSpentIndexKey.
Proof. solve_decision. Defined.
#[export] Instance CSpentIndexKey_countable : Countable CSpentIndexKey.
Proof.
  apply (inj_countable' (fun k => (sk_txid k, sk_outputIndex k)) (fun '(x, n) => {| sk_txid := x; sk_outputIndex := n |})).
  by intros [].
Defined.

Record CSpentIndexValue := {
  sv_txid : uint256; sv_inputIndex : Z; sv_blockHeight : Z; sv_satoshis : Z; sv_addressType : Z; sv_addressHash : list Z;
}.
Definition uint160_null : list Z := repeat 0 20.
Definition CSpentIndexValue_null : CSpentIndexValue :=
  {| sv_txid := 0; sv_inputIndex := 0; sv_blockHeight := 0; sv_satoshis := 0; sv_addressType := 0; sv_addressHash := uint160_null |}.
Definition sv_IsNull (v : CSpentIndexValue) : bool := sv_txid v =? 0.

(** ** The tables *)
Record CBlockTreeDB := {
  bt_address : gmap CAddressIndexKey Z;
  bt_unspent : gmap CAddressUnspentKey CAddressUnspentValue;
  bt_spent : gmap CSpentIndexKey CSpentIndexValue;
}.
#[export] Instance CBlockTreeDB_eta : Settable CBlockTreeDB := fun d =>
  {| bt_address := bt_address d; bt_unspent := bt_unspent d; bt_spent := bt_spent d |}.

Definition update_row {K V} `{Countable K} (IsNull : V -> bool) (m : gmap K V) (kv : K * V) : gmap K V :=
  if IsNull (kv.2) then delete (kv.1) m else <[kv.1 := kv.2]> m.

Definition UpdateSpentIndex (d : CBlockTreeDB) (vect : list (CSpentIndexKey * CSpentIndexValue)) : CBlockTreeDB :=
  d <| bt_spent := foldl (update_row sv_IsNull) (bt_spent d) vect |>.

Definition UpdateAddressUnspentIndex (d : CBlockTreeDB) (vect : list (CAddressUnspentKey * CAddressUnspentValue)) : CBlockTreeDB :=
  d <| bt_unspent := foldl (update_row uv_IsNull) (bt_unspent d) vect |>.

Definition WriteAddressIndex (d : CBlockTreeDB) (vect : list (CAddressIndexKey * Z)) : CBlockTreeDB :=
  d <| bt_address := foldl (fun m kv => <[kv.1 := kv.2]> m) (bt_address d) vect |>.

Definition EraseAddressIndex (d : CBlockTreeDB) (vect : list (CAddressIndexKey * Z)) : CBlockTreeDB :=
  d <| bt_address := foldl (fun m kv => delete (kv.1) m) (bt_address d) vect |>.

(** ** What a block puts in them *)

(** {addressIndex, addressUnspentIndex, spentIndex} *)
Record IndexVectors := {
  iv_address : list (CAddressIndexKey * Z);
  iv_unspent : list (CAddressUnspentKey * CAddressUnspentValue);
  iv_spent : list (CSpentIndexKey * CSpentIndexValue);
}.
Definition iv_nil : IndexVectors := {| iv_address := []; iv_unspent := []; iv_spent := [] |}.
Definition iv_app (a b : IndexVectors) : IndexVectors :=
  {| iv_address := iv_address a ++ iv_address b; iv_unspent := iv_unspent a ++ iv_unspent b; iv_spent := iv_spent a ++ iv_spent b |}.
Definition iv_concat (l : list IndexVectors) : IndexVectors := foldr iv_app iv_nil l.

Section Index.
Context {S : Type} `{!CCoinsView S}.
Context (Hash160 : list Z -> list Z) (fAddressIndex fSpentIndex : bool).
Implicit Types c : CCoinsViewCache S.

(** {addressType, hashBytes}; without the first and the last byte for a public key. *)
Definition index_address (s : list Z) : option (Z * list Z) :=
  if IsPayToScriptHash s then Some (2, take 20 (drop 2 s))
  else if IsPayToPublicKeyHash s then Some (1, take 20 (drop 3 s))
  else if IsPayToPublicKey s then Some (1, Hash160 (take (length s - 2) (drop 1 s)))
  else None.

(** *** Connecting *)
Definition spend_vectors (nHeight i : Z) (txhash : uint256) (j : Z) (prevout : COutPoint) (coin : Coin) : IndexVectors :=
  let out := coin_out coin in
  let '(addressType, hashBytes) := default (0, uint160_null) (index_address (scriptPubKey out)) in
  let indexed := fAddressIndex && (0 <? addressType) in
  {| iv_address := if indexed then
       [({| ak_type := addressType; ak_hashBytes := hashBytes; ak_blockHeight := nHeight; ak_txindex := i; ak_txhash := txhash;
            ak_index := j; ak_spending := true |}, i64 (nValue out * -1))] else [];
     iv_unspent := if indexed then
       [({| uk_type := addressType; uk_hashBytes := hashBytes; uk_txhash := op_hash prevout; uk_index := op_n prevout |},
         CAddressUnspentValue_null)] else [];
     iv_spent := if fSpentIndex then
       [({| sk_txid := op_hash prevout; sk_outputIndex := op_n prevout |},
         {| sv_txid := txhash; sv_inputIndex := j; sv_blockHeight := nHeight; sv_satoshis := nValue out;
            sv_addressType := addressType; sv_addressHash := hashBytes |})] else [] |}.

Fixpoint spend_all c (nHeight i : Z) (txhash : uint256) (j : Z) (vin : list CTxIn) : CCoinsViewCache S * IndexVectors :=
  match vin with
  | [] => (c, iv_nil)
  | input :: vin =>
      let '(c, coin) := AccessCoin c (txin_prevout input) in
      let '(c, rest) := spend_all c nHeight i txhash (j + 1) vin in
      (c, iv_app (spend_vectors nHeight i txhash j (txin_prevout input) coin) rest)
  end.

Definition index_spends c (nHeight i : Z) (tx : CTx) : CCoinsViewCache S * IndexVectors :=
  if negb (HasZerocoinSpendInputs_tx tx) && negb (IsCoinBase tx) && (fAddressIndex || fSpentIndex)
  then spend_all c nHeight i (ctx_hash tx) 0 (ctx_vin tx) else (c, iv_nil).

Definition output_vectors (nHeight i : Z) (txhash : uint256) (k : Z) (out : CTxOut) : IndexVectors :=
  match index_address (scriptPubKey out) with
  | Some (addressType, hashBytes) =>
      {| iv_address := [({| ak_type := addressType; ak_hashBytes := hashBytes; ak_blockHeight := nHeight; ak_txindex := i;
                            ak_txhash := txhash; ak_index := k; ak_spending := false |}, nValue out)];
         iv_unspent := [({| uk_type := addressType; uk_hashBytes := hashBytes; uk_txhash := txhash; uk_index := k |},
                         {| uv_satoshis := nValue out; uv_script := scriptPubKey out; uv_blockHeight := nHeight |})];
         iv_spent := [] |}
  | None => iv_nil
  end.

Fixpoint outputs_from (f : Z -> CTxOut -> IndexVectors) (k : Z) (vout : list CTxOut) : list IndexVectors :=
  match vout with [] => [] | out :: vout => f k out :: outputs_from f (k + 1) vout end.

Definition index_outputs (nHeight i : Z) (tx : CTx) : IndexVectors :=
  if fAddressIndex then iv_concat (outputs_from (output_vectors nHeight i (ctx_hash tx)) 0 (ctx_vout tx)) else iv_nil.

(** The loop of ConnectBlock, from transaction [i] on: {view, undo data, vectors}. *)
Fixpoint connect_index c (vtx : list CTx) (i nHeight : Z) : option (CCoinsViewCache S * list (list Coin) * IndexVectors) :=
  match vtx with
  | [] => Some (c, [], iv_nil)
  | tx :: vtx =>
      let '(c, spends) := index_spends c nHeight i tx in
      '(c, undo) ← UpdateCoins tx c nHeight;
      '(c, undos, rest) ← connect_index c vtx (i + 1) nHeight;
      Some (c, undo :: undos, iv_app (iv_app spends (index_outputs nHeight i tx)) rest)
  end.

Definition write_indices (d : CBlockTreeDB) (iv : IndexVectors) : CBlockTreeDB :=
  let d := if fAddressIndex then UpdateAddressUnspentIndex (WriteAddressIndex d (iv_address iv)) (iv_unspent iv) else d in
  if fSpentIndex then UpdateSpentIndex d (iv_spent iv) else d.

(** *** Disconnecting *)
Definition undo_output_vectors (nHeight i : Z) (hash : uint256) (k : Z) (out : CTxOut) : IndexVectors :=
  match index_address (scriptPubKey out) with
  | Some (addressType, hashBytes) =>
      {| iv_address := [({| ak_type := addressType; ak_hashBytes := hashBytes; ak_blockHeight := nHeight; ak_txindex := i;
                            ak_txhash := hash; ak_index := k; ak_spending := false |}, nValue out)];
         iv_unspent := [({| uk_type := addressType; uk_hashBytes := hashBytes; uk_txhash := hash; uk_index := k |},
                         CAddressUnspentValue_null)];
         iv_spent := [] |}
  | None => iv_nil
  end.

(** From the last output to the first. *)
Definition undo_outputs (nHeight i : Z) (tx : CTx) : IndexVectors :=
  if fAddressIndex then iv_concat (reverse (outputs_from (undo_output_vectors nHeight i (ctx_hash tx)) 0 (ctx_vout tx))) else iv_nil.

(** An output to a public key is handled unlike the two others. *)
Definition undo_spend_vectors (nHeight i : Z) (hash : uint256) (j : Z) (prevout : COutPoint) (undoHeight : Z) (coin : Coin) : IndexVectors :=
  let s := scriptPubKey (coin_out coin) in
  let value := nValue (coin_out coin) in
  let key t h n sp := {| ak_type := t; ak_hashBytes := h; ak_blockHeight := nHeight; ak_txindex := i; ak_txhash := hash;
                         ak_index := n; ak_spending := sp |} in
  let restored t h := ({| uk_type := t; uk_hashBytes := h; uk_txhash := op_hash prevout; uk_index := op_n prevout |},
                       {| uv_satoshis := value; uv_script := s; uv_blockHeight := undoHeight |}) in
  let spent := if fSpentIndex
    then [({| sk_txid := op_hash prevout; sk_outputIndex := op_n prevout |}, CSpentIndexValue_null)] else [] in
  if negb fAddressIndex then {| iv_address := []; iv_unspent := []; iv_spent := spent |}
  else if IsPayToScriptHash s then
    let h := take 20 (drop 2 s) in
    {| iv_address := [(key 2 h j true, i64 (value * -1))]; iv_unspent := [restored 2 h]; iv_spent := spent |}
  else if IsPayToPublicKeyHash s then
    let h := take 20 (drop 3 s) in
    {| iv_address := [(key 1 h j true, i64 (value * -1))]; iv_unspent := [restored 1 h]; iv_spent := spent |}
  else if IsPayToPublicKey s then
    let h := Hash160 (take (length s - 2) (drop 1 s)) in
    {| iv_address := [(key 1 h j false, value)];
       iv_unspent := [({| uk_type := 1; uk_hashBytes := h; uk_txhash := hash; uk_index := j |}, CAddressUnspentValue_null)];
       iv_spent := spent |}
  else {| iv_address := []; iv_unspent := []; iv_spent := spent |}.

(** The loop over the inputs, with their positions, last first. *)
Fixpoint restore_index (view : CCoinsViewCache S) (nHeight i : Z) (hash : uint256) (l : list (Z * (COutPoint * Coin))) (fClean : bool) :
    option (CCoinsViewCache S * DisconnectResult * IndexVectors) :=
  match l with
  | [] => Some (view, if fClean then DISCONNECT_OK else DISCONNECT_UNCLEAN, iv_nil)
  | (j, (out, undo)) :: l =>
      '(view, res) ← ApplyTxInUndo undo view out;
      match res with
      | DISCONNECT_FAILED => Some (view, DISCONNECT_FAILED, iv_nil)
      | _ =>
          let '(view, coin) := if fAddressIndex then AccessCoin view out else (view, Coin_init) in
          '(view, r, rest) ← restore_index view nHeight i hash l
                               (fClean && match res with DISCONNECT_UNCLEAN => false | _ => true end);
          Some (view, r, iv_app (undo_spend_vectors nHeight i hash j out (coin_nHeight undo) coin) rest)
      end
  end.

Fixpoint positions {A} (j : Z) (l : list A) : list (Z * A) :=
  match l with [] => [] | a :: l => (j, a) :: positions (j + 1) l end.

Definition disconnect_index_tx (view : CCoinsViewCache S) (i : Z) (tx : CTx) (undo : option (list Coin)) (nHeight : Z) (fClean : bool) :
    option (CCoinsViewCache S * DisconnectResult * IndexVectors) :=
  let outs := undo_outputs nHeight i tx in
  let '(view, fClean) :=
    disconnect_outputs view (ctx_hash tx) nHeight (IsCoinBase tx) (IsCoinStake tx) 0 (ctx_vout tx) fClean in
  let done := Some (view, if fClean then DISCONNECT_OK else DISCONNECT_UNCLEAN, outs) in
  match undo with
  | None => done
  | Some vprevout =>
      if HasZerocoinSpendInputs_tx tx then done
      else if negb (length vprevout =? length (ctx_vin tx))%nat then Some (view, DISCONNECT_FAILED, outs)
      else
        '(view, res, ins) ← restore_index view nHeight i (ctx_hash tx)
                              (reverse (positions 0 (zip (txin_prevout <$> ctx_vin tx) vprevout))) fClean;
        Some (view, res, iv_app outs ins)
  end.

(** The transactions, with their positions, last first. *)
Fixpoint disconnect_index_txs (view : CCoinsViewCache S) (l : list (Z * (CTx * option (list Coin)))) (nHeight : Z) (fClean : bool) :
    option (CCoinsViewCache S * DisconnectResult * IndexVectors) :=
  match l with
  | [] => Some (view, if fClean then DISCONNECT_OK else DISCONNECT_UNCLEAN, iv_nil)
  | (i, (tx, undo)) :: l =>
      '(view, res, iv) ← disconnect_index_tx view i tx undo nHeight fClean;
      match res with
      | DISCONNECT_FAILED => Some (view, DISCONNECT_FAILED, iv)
      | _ =>
          '(view, r, rest) ← disconnect_index_txs view l nHeight (match res with DISCONNECT_OK => true | _ => false end);
          Some (view, r, iv_app iv rest)
      end
  end.

Definition disconnect_index (view : CCoinsViewCache S) (vtx : list CTx) (vtxundo : list (list Coin)) (nHeight : Z) :
    option (CCoinsViewCache S * DisconnectResult * IndexVectors) :=
  if negb (length vtxundo + 1 =? length vtx)%nat then Some (view, DISCONNECT_FAILED, iv_nil)
  else disconnect_index_txs view (reverse (positions 0 (with_undo vtx vtxundo))) nHeight true.

Definition undo_indices (d : CBlockTreeDB) (iv : IndexVectors) : CBlockTreeDB :=
  let d := if fSpentIndex then UpdateSpentIndex d (iv_spent iv) else d in
  if fAddressIndex then UpdateAddressUnspentIndex (EraseAddressIndex d (iv_address iv)) (iv_unspent iv) else d.
End Index.

(** A script that pushes some bytes, and then compares a hash, counts as
    pay-to-script-hash though it has no group. *)
Lemma IsPayToScriptHash_after_push data hash :
  (0 < length data < 76)%nat -> length hash = 20%nat ->
  IsPayToScriptHash (Z.of_nat (length data) :: data ++ [OP_HASH160; 0x14] ++ hash ++ [OP_EQUAL]) = true.
Proof.
  intros Hd Hl. set (n := Z.of_nat (length data)). set (tl := [OP_HASH160; 0x14] ++ hash ++ [OP_EQUAL]).
  assert (forall m, (m < length tl)%nat -> byte_at (n :: data ++ tl) (n + 1 + Z.of_nat m) = byte_at tl (Z.of_nat m)) as Hb.
  { intros m Hm. unfold byte_at. replace (Z.to_nat (n + 1 + Z.of_nat m)) with (S (length data + m)) by lia.
    change ((n :: data ++ tl) !! S (length data + m)) with ((data ++ tl) !! (length data + m)%nat).
    rewrite lookup_app_r by lia. do 2 f_equal. lia. }
  assert (length tl = 23%nat) as Htl by (subst tl; rewrite !length_app, Hl; done).
  assert (script_size (n :: data ++ tl) = n + 1 + 23) as Hsz by (unfold script_size; cbn [length]; rewrite length_app, Htl; lia).
  assert (p2sh_offset (n :: data ++ tl) = n + 1) as Hof.
  { unfold p2sh_offset. rewrite Hsz. change (byte_at (n :: data ++ tl) 0) with n. unfold is_small_push at 1, OP_PUSHDATA1.
    rewrite (proj2 (Z.ltb_lt 0 n)), (proj2 (Z.ltb_lt n _)) by lia. cbn [andb].
    pose proof (Hb 0%nat ltac:(lia)) as H0. rewrite Z.add_0_r in H0. rewrite H0. change (byte_at tl (Z.of_nat 0)) with OP_HASH160.
    change (is_small_push OP_HASH160) with false. by rewrite andb_false_r. }
  unfold IsPayToScriptHash. rewrite Hof, Hsz, Z.eqb_refl. cbn [andb].
  pose proof (Hb 0%nat ltac:(lia)) as H0. rewrite Z.add_0_r in H0. rewrite H0.
  pose proof (Hb 1%nat ltac:(lia)) as H1. pose proof (Hb 22%nat ltac:(lia)) as H22.
  change (Z.of_nat 1) with 1 in H1. change (Z.of_nat 22) with 22 in H22. rewrite H1, H22.
  unfold byte_at, tl. change (([OP_HASH160; 0x14] ++ hash ++ [OP_EQUAL]) !! Z.to_nat 22) with ((hash ++ [OP_EQUAL]) !! 20%nat).
  rewrite (lookup_app_r hash) by lia. by rewrite Hl.
Qed.

(** * The indices follow the coins

    With the address and the spent index on: the unspent index is a function of
    the coins, and connecting a block keeps it so; disconnecting the block gives
    back all three indices, unless the block spends an output to a bare public
    key. *)

(** ** Maps *)
Lemma foldl_insert_ne {K V} `{Countable K} (m : gmap K V) (l : list (K * V)) q :
  q ∉ l.*1 -> foldl (fun m kv => <[kv.1 := kv.2]> m) m l !! q = m !! q.
Proof.
  revert m. induction l as [|[k v] l IH]; intros m Hq; [done|]. rewrite fmap_cons, not_elem_of_cons in Hq. cbn in *.
  rewrite IH by tauto. by rewrite lookup_insert_ne by naive_solver.
Qed.

Lemma foldl_erase_lookup {K V W} `{Countable K} (m : gmap K V) (l : list (K * W)) q :
  foldl (fun m kv => delete (kv.1) m) m l !! q = if bool_decide (q ∈ l.*1) then None else m !! q.
Proof.
  revert m. induction l as [|[k w] l IH]; intros m; [done|]. cbn. rewrite IH.
  destruct (decide (q = k)) as [->|Hne].
  - rewrite (bool_decide_eq_true_2 (k ∈ k :: l.*1)) by (apply elem_of_cons; by left).
    rewrite lookup_delete_eq. by destruct (bool_decide _).
  - rewrite (bool_decide_ext (q ∈ k :: l.*1) (q ∈ l.*1)) by (rewrite elem_of_cons; naive_solver).
    by rewrite lookup_delete_ne.
Qed.

Lemma foldl_update_row_ne {K V} `{Countable K} (n : V -> bool) (m : gmap K V) l q :
  q ∉ l.*1 -> foldl (update_row n) m l !! q = m !! q.
Proof.
  revert m. induction l as [|[k v] l IH]; intros m Hq; [done|]. rewrite fmap_cons, not_elem_of_cons in Hq. cbn in *.
  rewrite IH by tauto. unfold update_row. cbn. destruct (n v); [by rewrite lookup_delete_ne by naive_solver|].
  by rewrite lookup_insert_ne by naive_solver.
Qed.

(** Rows that are null are erased. *)
Lemma foldl_update_row_null {K V} `{Countable K} (n : V -> bool) (m : gmap K V) l :
  Forall (fun kv => n (kv.2) = true) l -> foldl (update_row n) m l = foldl (fun m kv => delete (kv.1) m) m l.
Proof.
  intros HF. revert m. induction HF as [|[k v] l Hn HF IH]; intros m; [done|]. cbn in *. rewrite IH.
  unfold update_row. cbn. by rewrite Hn.
Qed.

(** ** The unspent index is a function of the coins *)
Section Mirror.
Context (Hash160 : list Z -> list Z).

Definition unspent_key (addr : Z * list Z) (p : COutPoint) : CAddressUnspentKey :=
  {| uk_type := addr.1; uk_hashBytes := addr.2; uk_txhash := op_hash p; uk_index := op_n p |}.

Definition key_outpoint (key : CAddressUnspentKey) : COutPoint := {| op_hash := uk_txhash key; op_n := uk_index key |}.

(** The row of a coin. *)
Definition unspent_row (p : COutPoint) (k : Coin) : option (CAddressUnspentKey * CAddressUnspentValue) :=
  addr ← index_address Hash160 (scriptPubKey (coin_out k));
  Some (unspent_key addr p,
        {| uv_satoshis := nValue (coin_out k); uv_script := scriptPubKey (coin_out k); uv_blockHeight := coin_nHeight k |}).

(** The index has the rows of the coins, and no other. *)
Definition mirrors (U : gmap CAddressUnspentKey CAddressUnspentValue) (v : gmap COutPoint Coin) : Prop :=
  forall key val, U !! key = Some val <-> exists k, v !! key_outpoint key = Some k /\ unspent_row (key_outpoint key) k = Some (key, val).

Definition add_row (U : gmap CAddressUnspentKey CAddressUnspentValue) (pk : COutPoint * Coin) :=
  match unspent_row (pk.1) (pk.2) with Some (key, val) => <[key := val]> U | None => U end.

Definition del_row (U : gmap CAddressUnspentKey CAddressUnspentValue) (pk : COutPoint * Coin) :=
  match unspent_row (pk.1) (pk.2) with Some (key, _) => delete key U | None => U end.

Lemma unspent_row_key p k key val : unspent_row p k = Some (key, val) -> key_outpoint key = p.
Proof.
  unfold unspent_row. destruct (index_address _ _) as [addr|]; cbn; [|done]. intros [= <- <-]. by destruct p.
Qed.

Lemma mirrors_unique U U' v : mirrors U v -> mirrors U' v -> U = U'.
Proof. intros H H'. apply map_eq. intros key. apply option_eq. intros val. by rewrite (H key val), (H' key val). Qed.

Lemma mirrors_add U v p k : mirrors U v -> v !! p = None -> mirrors (add_row U (p, k)) (<[p := k]> v).
Proof.
  intros HU Hp key val. unfold add_row. cbn [fst snd]. destruct (decide (key_outpoint key = p)) as [<-|Hne].
  - rewrite lookup_insert_eq. assert (U !! key = None) as HN.
    { destruct (U !! key) as [val'|] eqn:E; [|done]. apply HU in E as (k' & Hk & _). congruence. }
    destruct (unspent_row _ k) as [[key' val']|] eqn:E.
    + apply unspent_row_key in E as Hk. destruct (decide (key' = key)) as [->|Hne].
      * rewrite lookup_insert_eq. split; [intros [= <-]; by eexists|]. intros (? & [= <-] & E'). congruence.
      * rewrite lookup_insert_ne by done. rewrite HN. split; [done|]. intros (? & [= <-] & E'). congruence.
    + rewrite HN. split; [done|]. intros (? & [= <-] & E'). congruence.
  - rewrite lookup_insert_ne by done. rewrite <- (HU key val). destruct (unspent_row p k) as [[key' val']|] eqn:E; [|done].
    rewrite lookup_insert_ne; [done|]. intros ->. apply unspent_row_key in E. congruence.
Qed.

Lemma mirrors_del U v p k : mirrors U v -> v !! p = Some k -> mirrors (del_row U (p, k)) (delete p v).
Proof.
  intros HU Hp key val. unfold del_row. cbn [fst snd]. destruct (decide (key_outpoint key = p)) as [<-|Hne].
  - rewrite lookup_delete_eq. split; [|naive_solver]. intros Hl. exfalso.
    destruct (unspent_row _ k) as [[key' val']|] eqn:E.
    + apply lookup_delete_Some in Hl as [Hne Hl]. apply HU in Hl as (k' & Hk & E'). congruence.
    + apply HU in Hl as (k' & Hk & E'). congruence.
  - rewrite lookup_delete_ne by done. rewrite <- (HU key val). destruct (unspent_row p k) as [[key' val']|] eqn:E; [|done].
    rewrite lookup_delete_ne; [done|]. intros ->. apply unspent_row_key in E. congruence.
Qed.

Lemma mirrors_delete_all U v ps ks :
  mirrors U v -> NoDup ps -> Forall2 (fun p k => v !! p = Some k) ps ks ->
  mirrors (foldl del_row U (zip ps ks)) (foldl (fun v p => delete p v) v ps).
Proof.
  intros HU Hnd HF. revert U v HU HF. revert ks. induction Hnd as [|p ps Hp Hnd IH]; intros ks U v HU HF.
  { by apply Forall2_nil_inv_l in HF as ->. }
  apply Forall2_cons_inv_l in HF as (k & ks' & Hk & HF & ->). cbn [zip zip_with foldl].
  apply IH; [by apply mirrors_del|]. by apply Forall2_delete.
Qed.

(** Coins that come back, in any order. *)
Lemma mirrors_restore U w (l : list (COutPoint * Coin)) :
  mirrors U w -> NoDup l.*1 -> Forall (fun pk => w !! (pk.1) = None) l ->
  mirrors (foldl add_row U l) (foldl (fun w pk => <[pk.1 := pk.2]> w) w l).
Proof.
  revert U w. induction l as [|[p k] l IH]; intros U w HU Hnd HF; [done|]. rewrite fmap_cons in Hnd.
  apply NoDup_cons in Hnd as [Hp Hnd]. apply Forall_cons in HF as [Hk HF]. cbn [foldl fst snd] in *.
  apply IH; [by apply mirrors_add|done|]. apply Forall_forall. intros [p' k'] Hin. rewrite Forall_forall in HF. cbn.
  rewrite lookup_insert_ne; [by apply (HF _ Hin)|]. intros ->. apply Hp. apply list_elem_of_fmap. by exists (p', k').
Qed.

(** The rows of the outputs of a transaction. *)
Fixpoint output_rows (txid : uint256) (h : Z) (cb cs : bool) (i : Z) (vout : list CTxOut) : list (COutPoint * Coin) :=
  match vout with
  | [] => []
  | o :: vout =>
      (if IsUnspendable (scriptPubKey o) then [] else [({| op_hash := txid; op_n := i |}, Coin_of o h cb cs)]) ++
      output_rows txid h cb cs (i + 1) vout
  end.

Lemma mirrors_outputs U v txid h cb cs i vout :
  mirrors U v -> outputs_of txid h cb cs i vout ##ₘ v ->
  mirrors (foldl add_row U (output_rows txid h cb cs i vout)) (outputs_of txid h cb cs i vout ∪ v).
Proof.
  revert U v i. induction vout as [|o vout IH]; intros U v i HU Hd; cbn [output_rows outputs_of] in *.
  { cbn. by rewrite (left_id_L ∅ (∪)). }
  destruct (IsUnspendable (scriptPubKey o)); [by apply IH|]. apply map_disjoint_insert_l in Hd as [Hp Hd].
  cbn [foldl app]. set (p := {| op_hash := txid; op_n := i |}) in *.
  assert (outputs_of txid h cb cs (i + 1) vout !! p = None) as Ho by (apply outputs_of_above; cbn; lia).
  rewrite <- insert_union_l, insert_union_r by done. apply IH; [by apply mirrors_add|].
  by apply map_disjoint_insert_r_2.
Qed.

Lemma mirrors_undo_outputs U v txid h cb cs i vout :
  mirrors U (outputs_of txid h cb cs i vout ∪ v) -> outputs_of txid h cb cs i vout ##ₘ v ->
  mirrors (foldl del_row U (reverse (output_rows txid h cb cs i vout))) v.
Proof.
  revert U v i. induction vout as [|o vout IH]; intros U v i HU Hd; cbn [output_rows outputs_of] in *.
  { cbn. by rewrite (left_id_L ∅ (∪)) in HU. }
  destruct (IsUnspendable (scriptPubKey o)); [by apply IH|]. apply map_disjoint_insert_l in Hd as [Hp Hd].
  set (p := {| op_hash := txid; op_n := i |}) in *.
  assert (outputs_of txid h cb cs (i + 1) vout !! p = None) as Ho by (apply outputs_of_above; cbn; lia).
  cbn [app]. rewrite reverse_cons, foldl_app. cbn [foldl].
  rewrite <- insert_union_l, insert_union_r in HU by done.
  specialize (IH _ _ _ HU). apply (mirrors_del _ _ p (Coin_of o h cb cs)) in IH;
    [|by apply map_disjoint_insert_r_2|by rewrite lookup_insert_eq].
  by rewrite delete_insert_id in IH.
Qed.
End Mirror.

(** ** The vectors of a block *)
Lemma iv_app_nil_l a : iv_app iv_nil a = a.
Proof. by destruct a. Qed.

Lemma iv_app_nil_r a : iv_app a iv_nil = a.
Proof. destruct a. unfold iv_app. cbn. by rewrite !app_nil_r. Qed.

Lemma iv_app_assoc a b c : iv_app (iv_app a b) c = iv_app a (iv_app b c).
Proof. unfold iv_app. cbn. by rewrite !app_assoc. Qed.

Lemma positions_snd {A} j (l : list A) : (positions j l).*2 = l.
Proof. revert j. induction l as [|a l IH]; intros j; [done|]. cbn. by rewrite IH. Qed.

Section Vectors.
Context {S : Type} `{!CCoinsView S, !CCoinsViewLaws S}.
Context (Hash160 : list Z -> list Z) (h : Z).
Implicit Types c : CCoinsViewCache S.

Definition conn_in (i : Z) (txid : uint256) (e : Z * (COutPoint * Coin)) : IndexVectors :=
  spend_vectors Hash160 true true h i txid (e.1) (e.2.1) (e.2.2).

Definition undo_in (i : Z) (txid : uint256) (e : Z * (COutPoint * Coin)) : IndexVectors :=
  undo_spend_vectors Hash160 true true h i txid (e.1) (e.2.1) (coin_nHeight (e.2.2)) (e.2.2).

Definition spent_coins (tx : CTx) (ks : list Coin) : list (Z * (COutPoint * Coin)) := positions 0 (zip (tx_inputs tx) ks).

Definition conn_vectors (i : Z) (tx : CTx) (ks : list Coin) : IndexVectors :=
  iv_app (iv_concat (conn_in i (ctx_hash tx) <$> spent_coins tx ks)) (index_outputs Hash160 true h i tx).

Definition undo_vectors (i : Z) (tx : CTx) (ks : list Coin) : IndexVectors :=
  iv_app (undo_outputs Hash160 true h i tx) (iv_concat (undo_in i (ctx_hash tx) <$> reverse (spent_coins tx ks))).

Fixpoint conn_all (i : Z) (txs : list CTx) (undos : list (list Coin)) : IndexVectors :=
  match txs, undos with
  | tx :: txs, ks :: undos => iv_app (conn_vectors i tx ks) (conn_all (i + 1) txs undos)
  | _, _ => iv_nil
  end.

Fixpoint undo_all (i : Z) (txs : list CTx) (undos : list (list Coin)) : IndexVectors :=
  match txs, undos with
  | tx :: txs, ks :: undos => iv_app (undo_all (i + 1) txs undos) (undo_vectors i tx ks)
  | _, _ => iv_nil
  end.

(** The coins before and after a block, and what each transaction spends. *)
Inductive block_undos : gmap COutPoint Coin -> list CTx -> list (list Coin) -> gmap COutPoint Coin -> Prop :=
  | block_undos_nil v : block_undos v [] [] v
  | block_undos_cons v tx txs ks undos v' :
      tx_ok v tx h -> Forall2 (fun p k => v !! p = Some k) (tx_inputs tx) ks ->
      block_undos (tx_view v tx h) txs undos v' ->
      block_undos v (tx :: txs) (ks :: undos) v'.

Lemma spend_all_spec c i txid j vin ks :
  cache_inv c -> Forall2 (fun p k => cache_view c !! p = Some k) (txin_prevout <$> vin) ks ->
  exists c', spend_all Hash160 true true c h i txid j vin =
      (c', iv_concat (conn_in i txid <$> positions j (zip (txin_prevout <$> vin) ks))) /\
    cache_inv c' /\ cache_view c' = cache_view c.
Proof.
  revert c j ks. induction vin as [|inp vin IH]; intros c j ks Hc HF; cbn [spend_all].
  { apply Forall2_nil_inv_l in HF as ->. by exists c. }
  rewrite fmap_cons in *. apply Forall2_cons_inv_l in HF as (k & ks' & Hk & HF & ->).
  destruct (AccessCoin_spec c (txin_prevout inp) Hc) as (Hc1 & Hv1 & Hr).
  destruct (AccessCoin c (txin_prevout inp)) as [c1 r]. cbn [fst snd] in *. rewrite Hk in Hr.
  destruct (IsSpent r); [done|]. injection Hr as ->.
  destruct (IH c1 (j + 1) ks' Hc1) as (c2 & -> & Hc2 & Hv2); [by rewrite Hv1|].
  exists c2. split; [done|]. by rewrite Hv2, Hv1.
Qed.

Lemma index_spends_spec c i tx ks :
  cache_inv c -> Forall2 (fun p k => cache_view c !! p = Some k) (tx_inputs tx) ks ->
  exists c', index_spends Hash160 true true c h i tx = (c', iv_concat (conn_in i (ctx_hash tx) <$> spent_coins tx ks)) /\
    cache_inv c' /\ cache_view c' = cache_view c.
Proof.
  intros Hc HF. unfold index_spends, spent_coins, tx_inputs in *. rewrite orb_true_l, andb_true_r, (andb_comm (negb _)).
  destruct (_ && _); [by apply spend_all_spec|]. apply Forall2_nil_inv_l in HF as ->. by exists c.
Qed.

Lemma connect_index_spec c i txs :
  cache_inv c -> block_ok (cache_view c) txs h ->
  exists c' undos, connect_index Hash160 true true c txs i h = Some (c', undos, conn_all i txs undos) /\
    cache_inv c' /\ block_undos (cache_view c) txs undos (cache_view c').
Proof.
  revert c i. induction txs as [|tx txs IH]; intros c i Hc Hok; cbn [connect_index].
  { exists c, []. split; [done|]. split; [done|]. constructor. }
  destruct Hok as [Hok1 Hok2].
  assert (exists ks, Forall2 (fun p k => cache_view c !! p = Some k) (tx_inputs tx) ks) as [ks HF].
  { destruct Hok1 as (_ & HF & _). clear -HF. induction HF as [|p ps [k Hk] HF [ks IH]]; [by exists []|].
    exists (k :: ks). by constructor. }
  destruct (index_spends_spec c i tx ks Hc HF) as (c1 & -> & Hc1 & Hv1).
  rewrite <- Hv1 in Hok1. destruct (UpdateCoins_spec c1 tx h Hc1 Hok1) as (c2 & ks' & -> & Hc2 & Hv2 & HF2).
  rewrite Hv1 in *. assert (ks' = ks) as ->.
  { clear -HF HF2. revert ks' HF2. induction HF as [|p k ps ks Hk HF IH]; intros ks' HF2.
    - by apply Forall2_nil_inv_l in HF2.
    - apply Forall2_cons_inv_l in HF2 as (k' & ks'' & Hk' & HF2 & ->). f_equal; [congruence|by apply IH]. }
  cbn [mbind option_bind]. destruct (IH c2 (i + 1) Hc2) as (c3 & undos & -> & Hc3 & Hu); [by rewrite Hv2|].
  cbn [mbind option_bind]. exists c3, (ks :: undos). split; [done|]. split; [done|].
  rewrite Hv2 in Hu. by constructor.
Qed.

(** *** Disconnecting *)
Lemma restore_index_spec c i txid (l : list (Z * (COutPoint * Coin))) :
  cache_inv c -> NoDup (l.*2.*1) ->
  Forall (fun e => cache_view c !! (e.2.1) = None /\ IsSpent (e.2.2) = false /\ coin_nHeight (e.2.2) <> 0 /\
                   IsUnspendable (scriptPubKey (coin_out (e.2.2))) = false) l ->
  exists c', restore_index Hash160 true true c h i txid l true = Some (c', DISCONNECT_OK, iv_concat (undo_in i txid <$> l)) /\
    cache_inv c' /\ cache_view c' = foldl (fun w pk => <[pk.1 := pk.2]> w) (cache_view c) (l.*2).
Proof.
  revert c. induction l as [|[j [p k]] l IH]; intros c Hc Hnd HF; cbn [restore_index]; [by exists c|].
  rewrite !fmap_cons in Hnd. apply NoDup_cons in Hnd as [Hp Hnd]. apply Forall_cons in HF as [(Hk & Hs & Hh & Hu) HF]. cbn [fst snd] in *.
  destruct (restore_one c p k) as (c1 & -> & Hc1 & Hv1); [done..|]. cbn [mbind option_bind].
  destruct (AccessCoin_spec c1 p Hc1) as (Hc2 & Hv2 & Hr). destruct (AccessCoin c1 p) as [c2 r]. cbn [fst snd] in *.
  rewrite Hv1, lookup_insert_eq in Hr. destruct (IsSpent r); [done|]. injection Hr as ->.
  destruct (IH c2 Hc2 Hnd) as (c3 & E3 & Hc3 & Hv3).
  { apply Forall_forall. intros [j' [p' k']] Hin. rewrite Forall_forall in HF. specialize (HF _ Hin). cbn [fst snd] in *.
    rewrite Hv2, Hv1, lookup_insert_ne; [done|]. intros ->. apply Hp. apply list_elem_of_fmap. exists (p', k'). split; [done|].
    apply list_elem_of_fmap. by exists (j', (p', k')). }
  cbn [andb]. rewrite E3. cbn [mbind option_bind]. exists c3. split; [done|]. split; [done|].
  cbn [foldl fmap list_fmap fst snd]. by rewrite Hv3, Hv2, Hv1.
Qed.

Lemma foldl_restore v (w : gmap COutPoint Coin) l :
  Forall (fun pk => v !! (pk.1) = Some (pk.2)) l -> (forall q, q ∉ l.*1 -> w !! q = v !! q) ->
  foldl (fun w pk => <[pk.1 := pk.2]> w) w l = v.
Proof.
  intros HF. revert w. induction HF as [|[p k] l Hk HF IH]; intros w Hw; cbn [foldl fst snd] in *.
  { apply map_eq. intros q. apply Hw. apply not_elem_of_nil. }
  apply IH. intros q Hq. destruct (decide (q = p)) as [->|Hne]; [by rewrite lookup_insert_eq|].
  rewrite lookup_insert_ne by done. apply Hw. rewrite fmap_cons. cbn. by apply not_elem_of_cons.
Qed.

Lemma spent_coins_reverse tx ks : (reverse (spent_coins tx ks)).*2 = reverse (zip (tx_inputs tx) ks).
Proof. unfold spent_coins. by rewrite fmap_reverse, positions_snd. Qed.

Lemma zip_lookups (v : gmap COutPoint Coin) tx ks :
  Forall2 (fun p k => v !! p = Some k) (tx_inputs tx) ks ->
  Forall (fun pk => v !! (pk.1) = Some (pk.2)) (zip (tx_inputs tx) ks) /\ (zip (tx_inputs tx) ks).*1 = tx_inputs tx.
Proof.
  intros HF. pose proof (Forall2_length _ _ _ HF) as Hl. split; [|apply fst_zip; lia].
  clear Hl. induction HF; cbn; [done|]. by constructor.
Qed.

(** Putting back what was spent. *)
Lemma restore_spent (v : gmap COutPoint Coin) tx ks :
  Forall2 (fun p k => v !! p = Some k) (tx_inputs tx) ks ->
  foldl (fun w pk => <[pk.1 := pk.2]> w) (foldl (fun v p => delete p v) v (tx_inputs tx)) (reverse (zip (tx_inputs tx) ks)) = v.
Proof.
  intros HF. destruct (zip_lookups v tx ks HF) as [HL HK]. apply foldl_restore; [by apply Forall_reverse|].
  intros q Hq. rewrite foldl_delete_lookup. rewrite fmap_reverse, HK in Hq. rewrite bool_decide_eq_false_2; [done|].
  by rewrite <- elem_of_reverse.
Qed.

Lemma disconnect_index_tx_spec c v i tx ks :
  cache_inv c -> coins_sane v -> (forall p k, v !! p = Some k -> IsSpent k = false) -> 0 < h < 2 ^ 30 ->
  IsCoinBase tx = false -> tx_ok v tx h -> Forall2 (fun p k => v !! p = Some k) (tx_inputs tx) ks ->
  cache_view c = tx_view v tx h ->
  exists c', disconnect_index_tx Hash160 true true c i tx (Some ks) h true = Some (c', DISCONNECT_OK, undo_vectors i tx ks) /\
    cache_inv c' /\ cache_view c' = v.
Proof.
  intros Hc Hsane Hun Hh Hcb (Hnd & HF & Hn & Hd) HK Hv. unfold disconnect_index_tx, undo_vectors.
  destruct (disconnect_outputs_spec c (ctx_hash tx) h (IsCoinBase tx) (IsCoinStake tx) 0 (ctx_vout tx)
    (foldl (fun v p => delete p v) v (tx_inputs tx)) Hc Hh Hv) as (Hc1 & Hv1 & Hr).
  { apply map_disjoint_spec. intros q k1 k2 H1. rewrite foldl_delete_lookup. case_bool_decide; [done|].
    intros H2. by eapply (map_disjoint_spec (tx_outputs tx h)) in Hd. }
  destruct (disconnect_outputs _ _ _ _ _ _ _ _) as [c1 fClean]. cbn [fst snd] in *. subst fClean.
  destruct (zip_lookups v tx ks HK) as [HL HZ]. pose proof (restore_spent v tx ks HK) as Hrest.
  assert (tx_inputs tx = if HasZerocoinSpendInputs_tx tx then [] else txin_prevout <$> ctx_vin tx) as Hin.
  { unfold tx_inputs. rewrite Hcb. by destruct (HasZerocoinSpendInputs_tx tx). }
  destruct (HasZerocoinSpendInputs_tx tx) eqn:Ez.
  { rewrite Hin in *. apply Forall2_nil_inv_l in HK as ->. exists c1. unfold spent_coins. rewrite Hin. cbn.
    by rewrite iv_app_nil_r. }
  pose proof (Forall2_length _ _ _ HK) as Hl. rewrite Hin, length_fmap in Hl.
  rewrite (proj2 (Nat.eqb_eq _ _)) by done. cbn [negb]. rewrite <- Hin. fold (spent_coins tx ks).
  destruct (restore_index_spec c1 i (ctx_hash tx) (reverse (spent_coins tx ks)) Hc1) as (c2 & -> & Hc2 & Hv2).
  { rewrite spent_coins_reverse, fmap_reverse, HZ. by rewrite reverse_Permutation. }
  { apply Forall_forall. intros e He. assert (e.2 ∈ zip (tx_inputs tx) ks) as Hz.
    { rewrite elem_of_reverse in He. unfold spent_coins in He. rewrite <- (positions_snd 0 (zip (tx_inputs tx) ks)).
      apply list_elem_of_fmap. by exists e. }
    rewrite Forall_forall in HL. specialize (HL _ Hz). destruct (Hsane _ _ HL) as [? ?]. split_and!; [|by eapply Hun|done..].
    rewrite Hv1, foldl_delete_lookup, bool_decide_eq_true_2; [done|]. rewrite <- HZ. apply list_elem_of_fmap. by exists (e.2). }
  cbn [mbind option_bind]. exists c2. split; [done|]. split; [done|]. by rewrite Hv2, Hv1, spent_coins_reverse.
Qed.

(** Transactions that are disconnected one after the other, all cleanly. *)
Fixpoint disc_ok c (l : list (Z * (CTx * option (list Coin)))) (c' : CCoinsViewCache S) (iv : IndexVectors) : Prop :=
  match l with
  | [] => c = c' /\ iv = iv_nil
  | (i, (tx, u)) :: l =>
      exists c1 iv1 iv2, disconnect_index_tx Hash160 true true c i tx u h true = Some (c1, DISCONNECT_OK, iv1) /\
        disc_ok c1 l c' iv2 /\ iv = iv_app iv1 iv2
  end.

Lemma disc_ok_run c l c' iv :
  disc_ok c l c' iv -> disconnect_index_txs Hash160 true true c l h true = Some (c', DISCONNECT_OK, iv).
Proof.
  revert c iv. induction l as [|[i [tx u]] l IH]; intros c iv; cbn [disc_ok disconnect_index_txs]; [by intros [-> ->]|].
  intros (c1 & iv1 & iv2 & -> & H & ->). cbn [mbind option_bind]. by rewrite (IH _ _ H).
Qed.

Lemma disc_ok_app c l1 l2 c1 c2 iv1 iv2 :
  disc_ok c l1 c1 iv1 -> disc_ok c1 l2 c2 iv2 -> disc_ok c (l1 ++ l2) c2 (iv_app iv1 iv2).
Proof.
  revert c iv1. induction l1 as [|[i [tx u]] l1 IH]; intros c iv1; cbn [disc_ok app]; [intros [-> ->] ?; by rewrite iv_app_nil_l|].
  intros (c0 & a & b & E & H & ->) H2. eexists c0, a, (iv_app b iv2). split; [done|]. split; [by eapply IH|].
  by rewrite iv_app_assoc.
Qed.

Lemma tx_view_unspent v tx :
  tx_ok v tx h -> (forall p k, v !! p = Some k -> IsSpent k = false) ->
  forall p k, tx_view v tx h !! p = Some k -> IsSpent k = false.
Proof.
  intros Hok Hun p k. unfold tx_view. rewrite lookup_union_Some_raw. intros [Hk|[_ Hk]].
  - apply Z.eqb_neq. destruct Hok as (_ & _ & Hn & _). clear -Hk Hn. unfold tx_outputs in Hk. revert Hk. generalize 0.
    induction Hn as [|o vout Ho Hn IH]; intros i; cbn [outputs_of]; [done|]. destruct (IsUnspendable _); [apply IH|].
    rewrite lookup_insert_Some. intros [[_ <-]|[_ Hk]]; [done|by eapply IH].
  - rewrite foldl_delete_lookup in Hk. case_bool_decide; [done|]. by eapply Hun.
Qed.

Lemma disconnect_all_spec c v v' i txs undos :
  cache_inv c -> coins_sane v -> (forall p k, v !! p = Some k -> IsSpent k = false) -> 0 < h < 2 ^ 30 ->
  Forall (fun tx => IsCoinBase tx = false) txs -> block_undos v txs undos v' -> cache_view c = v' ->
  exists c', disc_ok c (reverse (positions i (zip txs (Some <$> undos)))) c' (undo_all i txs undos) /\
    cache_inv c' /\ cache_view c' = v.
Proof.
  intros Hc Hsane Hun Hh Hcb Hb. revert c i Hc Hsane Hun Hcb. induction Hb as [v|v tx txs ks undos v' Hok HF Hb IH];
    intros c i Hc Hsane Hun Hcb Hv; [by exists c|].
  apply Forall_cons in Hcb as [Hcb1 Hcb]. cbn [fmap list_fmap zip zip_with positions undo_all]. rewrite reverse_cons.
  destruct (IH c (i + 1)) as (c1 & H1 & Hc1 & Hv1); [done| | |done..|].
  - by apply tx_view_sane.
  - by apply tx_view_unspent.
  - destruct (disconnect_index_tx_spec c1 v i tx ks) as (c2 & E2 & Hc2 & Hv2); [done..|].
    exists c2. split; [|done]. eapply disc_ok_app; [done|]. cbn [disc_ok]. eexists _, _, _. split; [done|]. split; [done|].
    by rewrite iv_app_nil_r.
Qed.

Lemma disconnect_index_coinbase c v i tx :
  cache_inv c -> 0 < h < 2 ^ 30 -> IsCoinBase tx = true -> tx_ok v tx h -> cache_view c = tx_view v tx h ->
  exists c', disconnect_index_tx Hash160 true true c i tx None h true = Some (c', DISCONNECT_OK, undo_vectors i tx []) /\
    cache_inv c' /\ cache_view c' = v.
Proof.
  intros Hc Hh Hcb (_ & _ & _ & Hd) Hv. unfold disconnect_index_tx. unfold tx_view, tx_inputs in Hv. rewrite Hcb in Hv. cbn [negb andb foldl] in Hv.
  destruct (disconnect_outputs_spec c (ctx_hash tx) h (IsCoinBase tx) (IsCoinStake tx) 0 (ctx_vout tx) v Hc Hh) as (Hc1 & Hv1 & Hr);
    [by rewrite Hv; unfold tx_outputs; rewrite Hcb|done|].
  destruct (disconnect_outputs _ _ _ _ _ _ _ _) as [c1 fClean]. cbn [fst snd] in *. subst fClean. exists c1. split; [|done].
  unfold undo_vectors, spent_coins, tx_inputs. rewrite Hcb. cbn. by rewrite iv_app_nil_r.
Qed.

(** Connecting a block and disconnecting it, with the vectors they write. *)
Lemma block_index_roundtrip c coinbase txs :
  cache_inv c -> coins_sane (cache_view c) -> 0 < h < 2 ^ 30 ->
  IsCoinBase coinbase = true -> Forall (fun tx => IsCoinBase tx = false) txs ->
  block_ok (cache_view c) (coinbase :: txs) h ->
  exists c' undos,
    connect_index Hash160 true true c (coinbase :: txs) 0 h = Some (c', [] :: undos, conn_all 0 (coinbase :: txs) ([] :: undos)) /\
    cache_inv c' /\ block_undos (cache_view c) (coinbase :: txs) ([] :: undos) (cache_view c') /\
    forall c2, cache_inv c2 -> cache_view c2 = cache_view c' ->
      exists c3, disconnect_index Hash160 true true c2 (coinbase :: txs) undos h =
                   Some (c3, DISCONNECT_OK, undo_all 0 (coinbase :: txs) ([] :: undos)) /\
        cache_inv c3 /\ cache_view c3 = cache_view c.
Proof.
  intros Hc Hsane Hh Hcb Htxs Hok.
  destruct (connect_index_spec c 0 (coinbase :: txs) Hc Hok) as (c' & undos & E & Hc' & Hb).
  inversion Hb as [|v tx txs' ks undos' v' Hok1 HF Hb' Hv0 Ht Hu Hv'']. subst.
  assert (ks = []) as -> by (unfold tx_inputs in HF; rewrite Hcb in HF; by apply Forall2_nil_inv_l in HF).
  exists c', undos'. split; [done|]. split; [done|]. split; [done|]. intros c2 Hc2 Hv2. unfold disconnect_index.
  assert (length undos' = length txs) as Hl by (clear -Hb'; induction Hb'; cbn; [done|by f_equal]).
  rewrite (proj2 (Nat.eqb_eq _ _)) by (cbn; lia). cbn [negb]. unfold with_undo. cbn [zip zip_with positions]. rewrite reverse_cons.
  destruct (disconnect_all_spec c2 (tx_view (cache_view c) coinbase h) (cache_view c') 1 txs undos') as (c3 & H3 & Hc3 & Hv3);
    [done|by apply tx_view_sane| |done..|].
  { apply tx_view_unspent; [done|]. intros p k. by apply cache_view_unspent. }
  destruct (disconnect_index_coinbase c3 (cache_view c) 0 coinbase) as (c4 & E4 & Hc4 & Hv4); [done..|].
  exists c4. split; [|done]. apply disc_ok_run. cbn [undo_all]. eapply disc_ok_app; [exact H3|]. cbn [disc_ok].
  eexists _, _, _. split; [exact E4|]. split; [done|]. by rewrite iv_app_nil_r.
Qed.
End Vectors.

(** ** What the vectors do to the indices *)
Section Effects.
Context (Hash160 : list Z -> list Z) (h : Z).
Hypothesis Hh : 0 < h < 2 ^ 30.

(** Indexed as an output to a bare public key. *)
Definition bare_key (s : list Z) : bool := negb (IsPayToScriptHash s) && negb (IsPayToPublicKeyHash s) && IsPayToPublicKey s.

Definition null_rows (U : gmap CAddressUnspentKey CAddressUnspentValue) (iv : IndexVectors) :=
  foldl (update_row uv_IsNull) U (iv_unspent iv).

Lemma index_address_type s t b : index_address Hash160 s = Some (t, b) -> 0 < t.
Proof. unfold index_address. repeat case_match; intros; simplify_eq; lia. Qed.

Lemma iv_concat_app l1 l2 : iv_concat (l1 ++ l2) = iv_app (iv_concat l1) (iv_concat l2).
Proof. induction l1 as [|a l1 IH]; cbn; [by rewrite iv_app_nil_l|]. unfold iv_concat in *. by rewrite IH, iv_app_assoc. Qed.

Lemma iv_concat_cons a l : iv_concat (a :: l) = iv_app a (iv_concat l).
Proof. done. Qed.

Lemma null_rows_app U a b : null_rows U (iv_app a b) = null_rows (null_rows U a) b.
Proof. unfold null_rows. cbn. by rewrite foldl_app. Qed.

(** *** One entry *)
Lemma conn_in_rows U i txid e : null_rows U (conn_in Hash160 h i txid e) = del_row Hash160 U (e.2).
Proof.
  destruct e as [j [p k]]. unfold conn_in, spend_vectors, del_row, unspent_row, null_rows. cbn [fst snd].
  destruct (index_address Hash160 _) as [[t b]|] eqn:E; cbn; [|done].
  apply index_address_type in E. by rewrite (proj2 (Z.ltb_lt _ _) E).
Qed.

Lemma undo_in_rows U i txid e :
  nValue (coin_out (e.2.2)) <> -1 -> bare_key (scriptPubKey (coin_out (e.2.2))) = false ->
  null_rows U (undo_in Hash160 h i txid e) = add_row Hash160 U (e.2).
Proof.
  destruct e as [j [p k]]. intros Hv Hb. unfold undo_in, undo_spend_vectors, add_row, unspent_row, null_rows, index_address, bare_key in *.
  cbn [fst snd negb] in *. apply Z.eqb_neq in Hv.
  destruct (IsPayToScriptHash _); cbn in *; [unfold update_row, uv_IsNull; cbn; by rewrite Hv|].
  destruct (IsPayToPublicKeyHash _); cbn in *; [unfold update_row, uv_IsNull; cbn; by rewrite Hv|].
  by rewrite Hb.
Qed.

Lemma undo_in_keys i txid e :
  bare_key (scriptPubKey (coin_out (e.2.2))) = false ->
  (iv_address (undo_in Hash160 h i txid e)).*1 = (iv_address (conn_in Hash160 h i txid e)).*1.
Proof.
  destruct e as [j [p k]]. intros Hb. unfold undo_in, undo_spend_vectors, conn_in, spend_vectors, index_address, bare_key in *.
  cbn [fst snd negb] in *. destruct (IsPayToScriptHash _); [done|]. destruct (IsPayToPublicKeyHash _); [done|].
  cbn in *. by rewrite Hb.
Qed.

Lemma undo_in_spent i txid e :
  (iv_spent (undo_in Hash160 h i txid e)).*1 = (iv_spent (conn_in Hash160 h i txid e)).*1 /\
  Forall (fun kv => sv_IsNull (kv.2) = true) (iv_spent (undo_in Hash160 h i txid e)).
Proof.
  destruct e as [j [p k]]. unfold undo_in, undo_spend_vectors, conn_in, spend_vectors. cbn [fst snd negb].
  destruct (default _ _) as [t b]. cbn. repeat case_match; cbn; (split; [done|]); by repeat constructor.
Qed.

(** The outputs: their index entries, and the ones of the coins that are kept. *)
Definition outs_ok (vout : list CTxOut) : Prop :=
  Forall (fun o => nValue o <> -1 /\ (index_address Hash160 (scriptPubKey o) = None \/ IsUnspendable (scriptPubKey o) = false)) vout.

Lemma output_rows_spec U i txid cb cs n vout :
  outs_ok vout ->
  null_rows U (iv_concat (outputs_from (output_vectors Hash160 h i txid) n vout)) =
  foldl (add_row Hash160) U (output_rows txid h cb cs n vout).
Proof.
  intros HF. revert U n. induction HF as [|o vout [Hv Hs] HF IH]; intros U n; cbn [outputs_from iv_concat foldr output_rows]; [done|].
  fold (iv_concat (outputs_from (output_vectors Hash160 h i txid) (n + 1) vout)). rewrite null_rows_app, IH, foldl_app. f_equal.
  unfold output_vectors. apply Z.eqb_neq in Hv.
  destruct (index_address Hash160 (scriptPubKey o)) as [[t b]|] eqn:E; [destruct Hs as [Hs|Hs]; [done|]; rewrite Hs|destruct (IsUnspendable _)];
    unfold null_rows, add_row, unspent_row, update_row, uv_IsNull; cbn; rewrite ?E; cbn; rewrite ?Hv, ?wrapU_small; [done|range|done..].
Qed.

Lemma undo_output_rows_spec U i txid cb cs n vout :
  outs_ok vout ->
  null_rows U (iv_concat (reverse (outputs_from (undo_output_vectors Hash160 h i txid) n vout))) =
  foldl (del_row Hash160) U (reverse (output_rows txid h cb cs n vout)).
Proof.
  intros HF. revert U n. induction HF as [|o vout [Hv Hs] HF IH]; intros U n; cbn [outputs_from output_rows]; [done|].
  rewrite reverse_cons, reverse_app, iv_concat_app, null_rows_app, IH, foldl_app. cbn [iv_concat foldr]. rewrite iv_app_nil_r. clear IH.
  unfold undo_output_vectors.
  destruct (index_address Hash160 (scriptPubKey o)) as [[t b]|] eqn:E; [destruct Hs as [Hs|Hs]; [done|]; rewrite Hs|destruct (IsUnspendable _)];
    unfold null_rows, del_row, unspent_row; cbn; by rewrite ?E.
Qed.

Lemma undo_output_keys i txid n vout :
  (iv_address (iv_concat (reverse (outputs_from (undo_output_vectors Hash160 h i txid) n vout)))).*1 ≡ₚ
  (iv_address (iv_concat (outputs_from (output_vectors Hash160 h i txid) n vout))).*1.
Proof.
  revert n. induction vout as [|o vout IH]; intros n; cbn [outputs_from]; [done|].
  rewrite reverse_cons, iv_concat_app. cbn [iv_concat foldr iv_app iv_address]. rewrite !fmap_app, IH, app_nil_r. rewrite Permutation_app_comm.
  apply Permutation_app; [|done]. unfold undo_output_vectors, output_vectors. by destruct (index_address _ _) as [[]|].
Qed.

Lemma output_no_spent f n vout : (forall k o, iv_spent (f k o) = []) -> iv_spent (iv_concat (outputs_from f n vout)) = [].
Proof.
  intros Hf. revert n. induction vout as [|o vout IH]; intros n; [done|]. cbn [outputs_from iv_concat foldr iv_app iv_spent].
  rewrite Hf. apply IH.
Qed.

Lemma undo_output_no_spent i txid n vout :
  iv_spent (iv_concat (reverse (outputs_from (undo_output_vectors Hash160 h i txid) n vout))) = [].
Proof.
  revert n. induction vout as [|o vout IH]; intros n; [done|]. cbn [outputs_from]. rewrite reverse_cons, iv_concat_app.
  cbn [iv_app iv_spent]. rewrite IH. cbn. unfold undo_output_vectors. by destruct (index_address _ _) as [[]|].
Qed.

(** *** One transaction *)
Definition no_bare (ks : list Coin) : Prop := Forall (fun k => bare_key (scriptPubKey (coin_out k)) = false) ks.

Lemma conn_tx_mirrors U v i tx ks :
  mirrors Hash160 U v -> tx_ok v tx h -> outs_ok (ctx_vout tx) -> Forall2 (fun p k => v !! p = Some k) (tx_inputs tx) ks ->
  mirrors Hash160 (null_rows U (conn_vectors Hash160 h i tx ks)) (tx_view v tx h).
Proof.
  intros HU (Hnd & _ & _ & Hd) Ho HF. unfold conn_vectors, index_outputs. rewrite null_rows_app.
  rewrite (output_rows_spec _ i (ctx_hash tx) (IsCoinBase tx) (IsCoinStake tx)) by done.
  assert (forall l U, null_rows U (iv_concat (conn_in Hash160 h i (ctx_hash tx) <$> l)) = foldl (del_row Hash160) U (l.*2)) as ->.
  { clear. induction l as [|e l IH]; intros U; [done|]. cbn [fmap list_fmap iv_concat foldr foldl]. by rewrite null_rows_app, conn_in_rows, <- IH. }
  unfold spent_coins. rewrite positions_snd. apply mirrors_outputs; [by apply mirrors_delete_all|].
  apply map_disjoint_spec. intros q k1 k2 H1. rewrite foldl_delete_lookup. case_bool_decide; [done|].
  intros H2. by eapply (map_disjoint_spec (tx_outputs tx h)) in Hd.
Qed.

Lemma undo_tx_mirrors U v i tx ks :
  mirrors Hash160 U (tx_view v tx h) -> tx_ok v tx h -> outs_ok (ctx_vout tx) ->
  (forall p k, v !! p = Some k -> IsSpent k = false) -> no_bare ks ->
  Forall2 (fun p k => v !! p = Some k) (tx_inputs tx) ks ->
  mirrors Hash160 (null_rows U (undo_vectors Hash160 h i tx ks)) v.
Proof.
  intros HU (Hnd & _ & _ & Hd) Ho Hun Hb HF. unfold undo_vectors, undo_outputs. rewrite null_rows_app.
  rewrite (undo_output_rows_spec _ i (ctx_hash tx) (IsCoinBase tx) (IsCoinStake tx)) by done.
  destruct (zip_lookups v tx ks HF) as [HL HZ].
  assert (forall l U, Forall (fun e => nValue (coin_out (e.2.2)) <> -1 /\ bare_key (scriptPubKey (coin_out (e.2.2))) = false) l ->
    null_rows U (iv_concat (undo_in Hash160 h i (ctx_hash tx) <$> l)) = foldl (add_row Hash160) U (l.*2)) as Hl.
  { clear. intros l U HF. revert U. induction HF as [|e l [H1 H2] HF IH]; intros U; [done|]. cbn [fmap list_fmap iv_concat foldr foldl].
    by rewrite null_rows_app, undo_in_rows, <- IH. }
  rewrite Hl; clear Hl.
  - rewrite spent_coins_reverse. rewrite <- (restore_spent v tx ks HF) at 1. apply mirrors_restore.
    + apply (mirrors_undo_outputs Hash160 U _ (ctx_hash tx) h (IsCoinBase tx) (IsCoinStake tx) 0 (ctx_vout tx)); [done|].
      apply map_disjoint_spec. intros q k1 k2 H1. rewrite foldl_delete_lookup. case_bool_decide; [done|].
      intros H2. by eapply (map_disjoint_spec (tx_outputs tx h)) in Hd.
    + rewrite fmap_reverse, HZ. by rewrite reverse_Permutation.
    + apply Forall_reverse, Forall_forall. intros [p k] Hin. cbn. rewrite foldl_delete_lookup, bool_decide_eq_true_2; [done|].
      rewrite <- HZ. apply list_elem_of_fmap. by exists (p, k).
  - apply Forall_reverse, Forall_forall. intros [j [p k]] Hin.
    assert ((p, k) ∈ zip (tx_inputs tx) ks) as Hz.
    { rewrite <- (positions_snd 0 (zip (tx_inputs tx) ks)). apply list_elem_of_fmap. by exists (j, (p, k)). }
    rewrite Forall_forall in HL. specialize (HL _ Hz). cbn in *. split; [by apply Z.eqb_neq, (Hun p)|].
    unfold no_bare in Hb. rewrite Forall_forall in Hb. apply Hb. by apply elem_of_zip_r in Hz.
Qed.

(** *** A block *)
Lemma conn_all_mirrors U v v' i txs undos :
  block_undos h v txs undos v' -> Forall (fun tx => outs_ok (ctx_vout tx)) txs -> mirrors Hash160 U v ->
  mirrors Hash160 (null_rows U (conn_all Hash160 h i txs undos)) v'.
Proof.
  intros Hb. revert U i. induction Hb as [v|v tx txs ks undos v' Hok HF Hb IH]; intros U i Ho HU; [done|].
  apply Forall_cons in Ho as [Ho1 Ho]. cbn [conn_all]. rewrite null_rows_app. apply IH; [done|]. by apply conn_tx_mirrors.
Qed.

Lemma undo_all_mirrors U v v' i txs undos :
  block_undos h v txs undos v' -> Forall (fun tx => outs_ok (ctx_vout tx)) txs ->
  (forall p k, v !! p = Some k -> IsSpent k = false) -> Forall no_bare undos -> mirrors Hash160 U v' ->
  mirrors Hash160 (null_rows U (undo_all Hash160 h i txs undos)) v.
Proof.
  intros Hb. revert U i. induction Hb as [v|v tx txs ks undos v' Hok HF Hb IH]; intros U i Ho Hun Hnb HU; [done|].
  apply Forall_cons in Ho as [Ho1 Ho]. apply Forall_cons in Hnb as [Hn1 Hnb]. cbn [undo_all]. rewrite null_rows_app.
  apply undo_tx_mirrors; [|done..]. apply IH; [done| |done..]. by apply tx_view_unspent.
Qed.

Lemma undo_ins_keys i txid l :
  Forall (fun e => bare_key (scriptPubKey (coin_out (e.2.2))) = false) l ->
  (iv_address (iv_concat (undo_in Hash160 h i txid <$> l))).*1 = (iv_address (iv_concat (conn_in Hash160 h i txid <$> l))).*1.
Proof.
  induction 1 as [|e l He HF IH]; [done|]. rewrite !fmap_cons, !iv_concat_cons. cbn [iv_app iv_address]. rewrite !fmap_app.
  by rewrite undo_in_keys, <- IH.
Qed.

Lemma iv_concat_Permutation {A B} (f : A -> IndexVectors) (g : IndexVectors -> list B) (l l' : list A) :
  g iv_nil = [] -> (forall a b, g (iv_app a b) = g a ++ g b) ->
  l ≡ₚ l' -> g (iv_concat (f <$> l)) ≡ₚ g (iv_concat (f <$> l')).
Proof.
  intros H0 Ha. induction 1 as [|e l l' _ IH|e e' l|l1 l2 l3 _ IH1 _ IH2]; [done| | |by rewrite IH1];
    rewrite !fmap_cons, !iv_concat_cons, !Ha.
  - by rewrite IH.
  - rewrite !app_assoc. apply Permutation_app; [apply Permutation_app_comm|done].
Qed.

Lemma undo_all_keys i txs undos :
  Forall no_bare undos ->
  (iv_address (undo_all Hash160 h i txs undos)).*1 ≡ₚ (iv_address (conn_all Hash160 h i txs undos)).*1.
Proof.
  intros Hnb. revert i txs. induction Hnb as [|ks undos Hn Hnb IH]; intros i [|tx txs]; try done.
  cbn [undo_all conn_all iv_app iv_address]. rewrite !fmap_app, IH, Permutation_app_comm. apply Permutation_app; [|done].
  unfold undo_vectors, conn_vectors, undo_outputs, index_outputs. cbn [iv_app iv_address].
  rewrite !fmap_app, undo_output_keys, Permutation_app_comm. apply Permutation_app; [|done].
  rewrite undo_ins_keys.
  - apply (iv_concat_Permutation _ (fun iv => (iv_address iv).*1)); [done|intros; cbn; by rewrite fmap_app|apply reverse_Permutation].
  - apply Forall_reverse, Forall_forall. intros [j [p k]] Hin. unfold no_bare in Hn. rewrite Forall_forall in Hn. apply Hn. cbn.
    apply (elem_of_zip_r p k (tx_inputs tx)). rewrite <- (positions_snd 0 (zip (tx_inputs tx) ks)). apply list_elem_of_fmap. by exists (j, (p, k)).
Qed.

Lemma undo_all_spent i txs undos :
  (iv_spent (undo_all Hash160 h i txs undos)).*1 ≡ₚ (iv_spent (conn_all Hash160 h i txs undos)).*1 /\
  Forall (fun kv => sv_IsNull (kv.2) = true) (iv_spent (undo_all Hash160 h i txs undos)).
Proof.
  revert i undos. induction txs as [|tx txs IH]; intros i [|ks undos]; try done.
  destruct (IH (i + 1) undos) as [IH1 IH2]. unfold undo_all, conn_all. fold undo_all conn_all.
  unfold undo_vectors, conn_vectors, undo_outputs, index_outputs. cbn [iv_app iv_spent]. rewrite undo_output_no_spent.
  rewrite (output_no_spent (output_vectors Hash160 h i (ctx_hash tx))) by (intros k o; unfold output_vectors; by destruct (index_address _ _) as [[]|]).
  cbn [app]. rewrite app_nil_r. split.
  - rewrite !fmap_app, IH1, Permutation_app_comm. apply Permutation_app; [|done].
    rewrite (iv_concat_Permutation (undo_in Hash160 h i (ctx_hash tx)) (fun iv => (iv_spent iv).*1) (reverse (spent_coins tx ks)) (spent_coins tx ks));
      [|done|intros; cbn; by rewrite fmap_app|apply reverse_Permutation].
    generalize (spent_coins tx ks). intros l. induction l as [|e l IHl]; [done|]. rewrite !fmap_cons, !iv_concat_cons. cbn [iv_app iv_spent].
    rewrite !fmap_app. rewrite (proj1 (undo_in_spent i (ctx_hash tx) e)). by apply Permutation_app.
  - apply Forall_app. split; [done|]. generalize (reverse (spent_coins tx ks)). intros l. induction l as [|e l IHl]; [done|].
    rewrite !fmap_cons, !iv_concat_cons. cbn [iv_app iv_spent]. apply Forall_app. split; [apply undo_in_spent|done].
Qed.
End Effects.

Lemma insert_erase_all {K V W} `{Countable K} (m : gmap K V) (l : list (K * V)) (l' : list (K * W)) :
  l'.*1 ≡ₚ l.*1 -> Forall (fun k => m !! k = None) l.*1 ->
  foldl (fun m kv => delete (kv.1) m) (foldl (fun m kv => <[kv.1 := kv.2]> m) m l) l' = m.
Proof.
  intros Hp HN. apply map_eq. intros q. rewrite foldl_erase_lookup. case_bool_decide as Hq; rewrite Hp in Hq.
  - rewrite Forall_forall in HN. by rewrite HN.
  - by rewrite foldl_insert_ne.
Qed.

Lemma update_erase_all {K V} `{Countable K} (n : V -> bool) (m : gmap K V) l l' :
  l'.*1 ≡ₚ l.*1 -> Forall (fun kv => n (kv.2) = true) l' -> Forall (fun k => m !! k = None) l.*1 ->
  foldl (update_row n) (foldl (update_row n) m l) l' = m.
Proof.
  intros Hp Hn HN. rewrite foldl_update_row_null by done. apply map_eq. intros q. rewrite foldl_erase_lookup.
  case_bool_decide as Hq; rewrite Hp in Hq.
  - rewrite Forall_forall in HN. by rewrite HN.
  - by rewrite foldl_update_row_ne.
Qed.

(** ** The keys of a block *)
Section Keys.
Context (Hash160 : list Z -> list Z) (h : Z).

Lemma output_keys_height i txid n vout :
  Forall (fun kv => ak_blockHeight (kv.1) = h) (iv_address (iv_concat (outputs_from (output_vectors Hash160 h i txid) n vout))).
Proof.
  revert n. induction vout as [|o vout IH]; intros n; [constructor|]. cbn [outputs_from]. rewrite iv_concat_cons.
  cbn [iv_app iv_address]. apply Forall_app. split; [|apply IH]. unfold output_vectors.
  destruct (index_address _ _) as [[t b]|]; cbn; by repeat constructor.
Qed.

Lemma conn_all_height i txs undos : Forall (fun kv => ak_blockHeight (kv.1) = h) (iv_address (conn_all Hash160 h i txs undos)).
Proof.
  revert i undos. induction txs as [|tx txs IH]; intros i [|ks undos]; try constructor. cbn [conn_all iv_app iv_address conn_vectors].
  rewrite !Forall_app. split; [split|apply IH]; [|apply output_keys_height]. generalize (spent_coins tx ks). intros l.
  induction l as [|e l IHl]; [constructor|]. rewrite fmap_cons, iv_concat_cons. cbn [iv_app iv_address]. apply Forall_app. split; [|done].
  unfold conn_in, spend_vectors. destruct (default _ _) as [t b]. cbn. destruct (0 <? t); by repeat constructor.
Qed.

Definition spent_key (p : COutPoint) : CSpentIndexKey := {| sk_txid := op_hash p; sk_outputIndex := op_n p |}.

Lemma conn_all_spent_keys i txs undos key :
  key ∈ (iv_spent (conn_all Hash160 h i txs undos)).*1 -> exists tx p, tx ∈ txs /\ p ∈ tx_inputs tx /\ key = spent_key p.
Proof.
  revert i undos. induction txs as [|tx txs IH]; intros i [|ks undos]; [by intros ?%elem_of_nil..|].
  cbn [conn_all iv_app iv_spent]. unfold conn_vectors. cbn [iv_app iv_spent]. unfold index_outputs.
  rewrite (output_no_spent (output_vectors Hash160 h i (ctx_hash tx))) by (intros k o; unfold output_vectors; by destruct (index_address _ _) as [[]|]).
  rewrite app_nil_r, fmap_app, elem_of_app. intros [Hin|Hin].
  2: { destruct (IH _ _ Hin) as (tx' & p & ? & ? & ->). exists tx', p. by rewrite elem_of_cons; auto. }
  assert (exists e, e ∈ spent_coins tx ks /\ key = spent_key (e.2.1)) as ([j [p k]] & He & ->).
  { revert Hin. generalize (spent_coins tx ks). intros l. induction l as [|e l IHl]; [by intros ?%elem_of_nil|].
    rewrite fmap_cons, iv_concat_cons. cbn [iv_app iv_spent]. rewrite fmap_app, elem_of_app. intros [Hin|Hin].
    - exists e. split; [apply elem_of_cons; by left|]. unfold conn_in, spend_vectors in Hin. destruct (default _ _) as [t b].
      cbn in Hin. by apply list_elem_of_singleton in Hin.
    - destruct (IHl Hin) as (e' & ? & ->). exists e'. by rewrite elem_of_cons; auto. }
  exists tx, p. split; [apply elem_of_cons; by left|]. split; [|done].
  apply (elem_of_zip_l p k _ ks). rewrite <- (positions_snd 0 (zip (tx_inputs tx) ks)). apply list_elem_of_fmap. by exists (j, (p, k)).
Qed.

(** An entry that records a spend is erased by the input it was recorded for, if
    that input did not spend an output to a bare public key. *)
Lemma undo_all_spending i txs undos key :
  key ∈ (iv_address (undo_all Hash160 h i txs undos)).*1 -> ak_spending key = true ->
  exists n tx ks e, txs !! n = Some tx /\ undos !! n = Some ks /\ ak_txindex key = i + Z.of_nat n /\
    e ∈ spent_coins tx ks /\ e.1 = ak_index key /\ bare_key (scriptPubKey (coin_out (e.2.2))) = false.
Proof.
  intros Hin Hs. revert i undos Hin. induction txs as [|tx txs IH]; intros i [|ks undos]; [by intros ?%elem_of_nil..|].
  cbn [undo_all iv_app iv_address]. unfold undo_vectors. cbn [iv_app iv_address]. rewrite !fmap_app, !elem_of_app. intros [Hin|[Hin|Hin]].
  - destruct (IH _ _ Hin) as (n & tx' & ks' & e & ? & ? & Ht & ?). exists (S n), tx', ks', e.
    repeat (split; [done|]). split; [rewrite Ht; lia|done].
  - exfalso. unfold undo_outputs in Hin. revert Hin. generalize 0, (ctx_vout tx). intros m vout. revert m.
    induction vout as [|o vout IHv]; intros m; [by intros ?%elem_of_nil|]. cbn [outputs_from]. rewrite reverse_cons, iv_concat_app.
    cbn [iv_app iv_address]. rewrite fmap_app, elem_of_app. intros [Hin|Hin]; [by eapply IHv|]. cbn in Hin. rewrite app_nil_r in Hin.
    unfold undo_output_vectors in Hin. destruct (index_address _ _) as [[t b]|]; cbn in Hin; [|by apply elem_of_nil in Hin].
    apply list_elem_of_singleton in Hin as ->. done.
  - exists 0%nat, tx, ks.
    assert (exists e, e ∈ reverse (spent_coins tx ks) /\ key ∈ (iv_address (undo_in Hash160 h i (ctx_hash tx) e)).*1) as (e & He & Hk).
    { revert Hin. generalize (reverse (spent_coins tx ks)). intros l. induction l as [|e l IHl]; [by intros ?%elem_of_nil|].
      rewrite fmap_cons, iv_concat_cons. cbn [iv_app iv_address]. rewrite fmap_app, elem_of_app. intros [Hin|Hin].
      - exists e. split; [apply elem_of_cons; by left|done].
      - destruct (IHl Hin) as (e' & ? & ?). exists e'. by rewrite elem_of_cons; auto. }
    exists e. rewrite elem_of_reverse in He. unfold undo_in, undo_spend_vectors in Hk. cbn [negb] in Hk. unfold bare_key.
    destruct (IsPayToScriptHash _); [|destruct (IsPayToPublicKeyHash _); [|destruct (IsPayToPublicKey _)]]; cbn in Hk;
      try (apply list_elem_of_singleton in Hk as ->); try (by apply elem_of_nil in Hk); try done;
      cbn; (split_and!; [done|done|lia|done|done|done]).
Qed.

Lemma positions_lookup {A} j (l : list A) n a : l !! n = Some a -> (j + Z.of_nat n, a) ∈ positions j l.
Proof.
  revert j n. induction l as [|b l IH]; intros j [|n] Hn; [done..| |]; cbn in *.
  - injection Hn as ->. rewrite Z.add_0_r. apply elem_of_cons. by left.
  - apply elem_of_cons. right. replace (j + Z.of_nat (S n)) with (j + 1 + Z.of_nat n) by lia. by apply IH.
Qed.

Lemma positions_inv {A} j (l : list A) x a : (x, a) ∈ positions j l -> j <= x /\ l !! Z.to_nat (x - j) = Some a.
Proof.
  revert j. induction l as [|b l IH]; intros j; cbn [positions]; [by intros ?%elem_of_nil|]. rewrite elem_of_cons. intros [[= -> ->]|Hin].
  - rewrite Z.sub_diag. split; [lia|done].
  - destruct (IH _ Hin) as [? Hl]. split; [lia|]. by replace (Z.to_nat (x - j)) with (S (Z.to_nat (x - (j + 1)))) by lia.
Qed.

(** The key under which the spend of a bare public key is recorded. *)
Definition bare_spend_key (i j : Z) (tx : CTx) (k : Coin) : CAddressIndexKey :=
  let s := scriptPubKey (coin_out k) in
  {| ak_type := 1; ak_hashBytes := Hash160 (take (length s - 2) (drop 1 s)); ak_blockHeight := h; ak_txindex := i;
     ak_txhash := ctx_hash tx; ak_index := j; ak_spending := true |}.

Lemma conn_all_bare i txs undos n tx ks j p k :
  txs !! n = Some tx -> undos !! n = Some ks -> zip (tx_inputs tx) ks !! j = Some (p, k) ->
  bare_key (scriptPubKey (coin_out k)) = true ->
  bare_spend_key (i + Z.of_nat n) (Z.of_nat j) tx k ∈ (iv_address (conn_all Hash160 h i txs undos)).*1.
Proof.
  intros Ht Hu Hz Hb. revert i n undos Ht Hu. induction txs as [|tx' txs IH]; intros i n [|ks' undos] Ht Hu; try (by destruct n).
  cbn [conn_all iv_app iv_address]. rewrite fmap_app, elem_of_app. destruct n as [|n]; cbn in Ht, Hu.
  2: { right. replace (i + Z.of_nat (S n)) with (i + 1 + Z.of_nat n) by lia. by apply IH. }
  left. injection Ht as ->. injection Hu as ->. unfold conn_vectors. cbn [iv_app iv_address]. rewrite fmap_app, elem_of_app. left.
  pose proof (positions_lookup 0 _ _ _ Hz) as Hin. fold (spent_coins tx ks) in Hin. revert Hin. generalize (spent_coins tx ks). intros l.
  induction l as [|e l IHl]; [by intros ?%elem_of_nil|]. rewrite fmap_cons, iv_concat_cons. cbn [iv_app iv_address].
  rewrite elem_of_cons, fmap_app, elem_of_app. intros [<-|Hin]; [left|right; by apply IHl].
  unfold conn_in, spend_vectors, index_address, bare_key, bare_spend_key in *. cbn [fst snd].
  destruct (IsPayToScriptHash _); [done|]. destruct (IsPayToPublicKeyHash _); [done|]. cbn in Hb. rewrite Hb. cbn.
  rewrite Z.add_0_r. apply elem_of_cons. by left.
Qed.

Lemma undo_all_bare i txs undos n tx ks j p k :
  txs !! n = Some tx -> undos !! n = Some ks -> zip (tx_inputs tx) ks !! j = Some (p, k) ->
  bare_key (scriptPubKey (coin_out k)) = true ->
  bare_spend_key (i + Z.of_nat n) (Z.of_nat j) tx k ∉ (iv_address (undo_all Hash160 h i txs undos)).*1.
Proof.
  intros Ht Hu Hz Hb Hin. apply undo_all_spending in Hin as (n' & tx' & ks' & [x [p' k']] & Ht' & Hu' & Hn & He & Hj & Hb'); [|done].
  cbn in Hn, Hj, Hb'. assert (n' = n) as -> by lia. simplify_eq. apply positions_inv in He as [_ Hl].
  rewrite Z.sub_0_r, Nat2Z.id in Hl. simplify_eq. congruence.
Qed.
End Keys.

(** ** The indices of a block *)
Section Theorems.
Context {S : Type} `{!CCoinsView S, !CCoinsViewLaws S}.
Context (Hash160 : list Z -> list Z).
Implicit Types c : CCoinsViewCache S.

(** A block that can be connected to the coins of a cache. *)
Definition connectable c (coinbase : CTx) (txs : list CTx) (h : Z) : Prop :=
  cache_inv c /\ coins_sane (cache_view c) /\ 0 < h < 2 ^ 30 /\
  IsCoinBase coinbase = true /\ Forall (fun tx => IsCoinBase tx = false) txs /\
  block_ok (cache_view c) (coinbase :: txs) h.

(** Nothing is indexed at the height of the block, and nothing it spends is spent. *)
Definition not_indexed (d : CBlockTreeDB) (vtx : list CTx) (h : Z) : Prop :=
  map_Forall (fun key _ => ak_blockHeight key <> h) (bt_address d) /\
  Forall (fun tx => Forall (fun p => bt_spent d !! spent_key p = None) (tx_inputs tx)) vtx.

Lemma fresh_keys d h i txs undos :
  map_Forall (fun key _ => ak_blockHeight key <> h) (bt_address d) ->
  Forall (fun key => bt_address d !! key = None) (iv_address (conn_all Hash160 h i txs undos)).*1.
Proof.
  intros Hd. apply Forall_fmap. eapply Forall_impl; [apply conn_all_height|]. intros [key val] Hk. cbn in *.
  destruct (bt_address d !! key) as [x|] eqn:E; [|done]. by apply Hd in E.
Qed.

(** The indices follow the coins.  When the unspent index has the rows of the
    coins, and no other, connecting a block keeps it so; and disconnecting the
    block gives back the address, the unspent and the spent index as they
    were, unless one of the coins the block spends was sent to a bare public
    key.  Outputs that cannot be spent and yet look like an address are left
    out. *)
Theorem disconnect_index_restores c coinbase txs h d :
  connectable c coinbase txs h -> not_indexed d (coinbase :: txs) h ->
  Forall (fun tx => outs_ok Hash160 (ctx_vout tx)) (coinbase :: txs) ->
  mirrors Hash160 (bt_unspent d) (cache_view c) ->
  exists c' undos iv,
    connect_index Hash160 true true c (coinbase :: txs) 0 h = Some (c', [] :: undos, iv) /\ cache_inv c' /\
    mirrors Hash160 (bt_unspent (write_indices true true d iv)) (cache_view c') /\
    (Forall no_bare undos ->
     forall c2, cache_inv c2 -> cache_view c2 = cache_view c' ->
     exists c3 iv', disconnect_index Hash160 true true c2 (coinbase :: txs) undos h = Some (c3, DISCONNECT_OK, iv') /\
       cache_view c3 = cache_view c /\ undo_indices true true (write_indices true true d iv) iv' = d).
Proof.
  intros (Hc & Hsane & Hh & Hcb & Htxs & Hok) [Ha Hs] Ho HU.
  destruct (block_index_roundtrip Hash160 h c coinbase txs) as (c' & undos & E & Hc' & Hb & Hdis); [done..|].
  eexists c', undos, _. split; [exact E|]. cbn [write_indices UpdateSpentIndex UpdateAddressUnspentIndex WriteAddressIndex].
  assert (mirrors Hash160 (null_rows (bt_unspent d) (conn_all Hash160 h 0 (coinbase :: txs) ([] :: undos))) (cache_view c')) as HU'
    by (by eapply conn_all_mirrors).
  split; [done|]. split; [done|]. intros Hnb c2 Hc2 Hv2. destruct (Hdis c2 Hc2 Hv2) as (c3 & E3 & Hc3 & Hv3). eexists c3, _. split; [exact E3|].
  split; [done|]. destruct (undo_all_spent Hash160 h 0 (coinbase :: txs) ([] :: undos)) as [Hsp Hnull].
  assert (Forall no_bare ([] :: undos)) as Hnb' by (constructor; [constructor|done]).
  destruct d as [A U Sp]. unfold write_indices, undo_indices, UpdateSpentIndex, UpdateAddressUnspentIndex, WriteAddressIndex, EraseAddressIndex.
  cbn -[conn_all undo_all] in *. f_equal.
  - apply insert_erase_all; [by apply undo_all_keys|]. by apply (fresh_keys {| bt_address := A; bt_unspent := U; bt_spent := Sp |}).
  - eapply mirrors_unique; [|exact HU]. eapply undo_all_mirrors; [done..| |done|exact HU']. intros p k. by apply cache_view_unspent.
  - apply update_erase_all; [done..|]. apply Forall_forall. intros key Hin.
    apply conn_all_spent_keys in Hin as (tx & p & Htx & Hp & ->). rewrite Forall_forall in Hs. specialize (Hs _ Htx).
    rewrite Forall_forall in Hs. by apply Hs.
Qed.

(** A spend of an output to a bare public key stays in the address index.
    However the block looks otherwise: the entry was not there before the
    block, and it is still there when the block has been disconnected. *)
Theorem disconnect_index_bare_key_left c coinbase txs h d :
  connectable c coinbase txs h -> not_indexed d (coinbase :: txs) h ->
  exists c' undos iv, connect_index Hash160 true true c (coinbase :: txs) 0 h = Some (c', [] :: undos, iv) /\ cache_inv c' /\
    forall c2, cache_inv c2 -> cache_view c2 = cache_view c' ->
    exists c3 iv', disconnect_index Hash160 true true c2 (coinbase :: txs) undos h = Some (c3, DISCONNECT_OK, iv') /\
      forall n tx ks j p k, (coinbase :: txs) !! n = Some tx -> ([] :: undos) !! n = Some ks ->
        zip (tx_inputs tx) ks !! j = Some (p, k) -> bare_key (scriptPubKey (coin_out k)) = true ->
        let key := bare_spend_key Hash160 h (Z.of_nat n) (Z.of_nat j) tx k in
        bt_address d !! key = None /\ is_Some (bt_address (undo_indices true true (write_indices true true d iv) iv') !! key).
Proof.
  intros (Hc & Hsane & Hh & Hcb & Htxs & Hok) [Ha Hs].
  destruct (block_index_roundtrip Hash160 h c coinbase txs) as (c' & undos & E & Hc' & Hb & Hdis); [done..|].
  eexists c', undos, _. split; [exact E|]. split; [done|]. intros c2 Hc2 Hv2. destruct (Hdis c2 Hc2 Hv2) as (c3 & E3 & Hc3 & Hv3).
  eexists c3, _. split; [exact E3|]. intros n tx ks j p k Hn Hu Hz Hbare key.
  pose proof (conn_all_bare Hash160 h 0 _ _ n tx ks j p k Hn Hu Hz Hbare) as Hin.
  pose proof (undo_all_bare Hash160 h 0 _ _ n tx ks j p k Hn Hu Hz Hbare) as Hout. rewrite Z.add_0_l in *. fold key in Hin, Hout.
  pose proof (fresh_keys d h 0 (coinbase :: txs) ([] :: undos) Ha) as Hf. rewrite Forall_forall in Hf. split; [by apply Hf|].
  destruct d as [A U Sp]. unfold write_indices, undo_indices, UpdateSpentIndex, UpdateAddressUnspentIndex, WriteAddressIndex, EraseAddressIndex.
  cbn -[conn_all undo_all lookup] in *. rewrite foldl_erase_lookup, bool_decide_eq_false_2 by done.
  clear -Hin. revert A. induction (iv_address (conn_all Hash160 h 0 (coinbase :: txs) ([] :: undos))) as [|[q x] l IH]; intros A.
  { by apply elem_of_nil in Hin. }
  cbn in *. destruct (decide (key ∈ l.*1)) as [Hl|Hl]; [by apply IH|]. apply elem_of_cons in Hin as [->|Hin]; [|done].
  rewrite foldl_insert_ne by done. rewrite lookup_insert_eq. by eexists.
Qed.
End Theorems.
