(* ===== verification/TokenDesc.v ===== *)
(** * Descriptions of token groups
    (src/src/tokens/tokengroupdescription.h, the filters of
    src/src/tokens/tokengroupconfiguration.cpp, GetTxPayload of
    src/src/evo/specialtx.h)

    A transaction that creates a group carries a description as its payload.
    Strings are lists of bytes.  A BLS public key or signature is its bytes:
    all zero for an object that is not valid; [bls_ok] says which other byte
    strings the BLS library reads and writes back unchanged (the library is not
    part of the repository).  The regular expressions of the filters are
    matched by derivatives. *)

From S2P Require Import Prelude Serialize Params BetTx BetDB BetKeys TokenGroups.

(** ** Strings *)

(** The bytes of a literal. *)
Definition bytes_of (s : string) : list Z := (fun c => Z.of_N (Ascii.N_of_ascii c)) <$> String.list_ascii_of_string s.

(** Decimal digits, without a sign; [fuel] bounds their number. *)
Fixpoint decimal_digits (fuel : nat) (n : Z) : list Z :=
  match fuel with
  | O => []
  | S fuel => (if n <? 10 then [] else decimal_digits fuel (n `div` 10)) ++ [48 + n `mod` 10]
  end.

(** %d of a number that is not negative. *)
Definition decimal (n : Z) : list Z := decimal_digits (S (Z.to_nat (Z.log2 n))) n.

(** tolower and toupper of the C locale. *)
Definition tolower (c : Z) : Z := if (65 <=? c) && (c <=? 90) then c + 32 else c.
Definition toupper (c : Z) : Z := if (97 <=? c) && (c <=? 122) then c - 32 else c.

(** ** Decimal positions *)
Definition pow10 : list Z :=
  [1; 10; 100; 1000; 10000; 100000; 1000000; 10000000;
   100000000; 1000000000; 10000000000; 100000000000; 1000000000000; 10000000000000; 100000000000000;
   1000000000000000; 10000000000000000].

Definition COINFromDecimalPos (nDecimalPos : Z) : Z :=
  let n := if nDecimalPos <=? 16 then nDecimalPos else 0 in nth (Z.to_nat n) pow10 0.

(** ** The descriptions *)
Record CTokenGroupDescriptionRegular := {
  reg_nVersion : Z;
  reg_strTicker : list Z;
  reg_strName : list Z;
  reg_strDocumentUrl : list Z;
  reg_documentHash : uint256;
  reg_nDecimalPos : Z;
}.

Record CTokenGroupDescriptionMGT := {
  mgt_nVersion : Z;
  mgt_strTicker : list Z;
  mgt_strName : list Z;
  mgt_strDocumentUrl : list Z;
  mgt_documentHash : uint256;
  mgt_nDecimalPos : Z;
  mgt_blsPubKey : list Z;
}.

Record CTokenGroupDescriptionNFT := {
  nft_nVersion : Z;
  nft_strName : list Z;
  nft_nMintAmount : Z;
  nft_strDocumentUrl : list Z;
  nft_documentHash : uint256;
  nft_vchData : list Z;
  nft_strDataFilename : list Z;
}.

(** signerType: 0 UNKNOWN, 1 MGT, 2 ORAT, 3 LLMQ; read as a byte. *)
Record CTokenGroupDescriptionBetting := {
  bt_nVersion : Z;
  bt_nEventId : Z;
  bt_signerType : Z;
  bt_signerHash : uint256;
  bt_blsPubKey : list Z;
  bt_blsSig : list Z;
}.

Inductive CTokenGroupDescriptionVariant :=
  | TGRegular (d : CTokenGroupDescriptionRegular)
  | TGMGT (d : CTokenGroupDescriptionMGT)
  | TGNFT (d : CTokenGroupDescriptionNFT)
  | TGBetting (d : CTokenGroupDescriptionBetting).

Definition TokenGroupDescription_CURRENT_VERSION : Z := 1.

#[export] Instance CTokenGroupDescriptionRegular_eq_dec : EqDecision CTokenGroupDescriptionRegular.
Proof. solve_decision. Defined.
#[export] Instance CTokenGroupDescriptionMGT_eq_dec : EqDecision CTokenGroupDescriptionMGT.
Proof. solve_decision. Defined.
#[export] Instance CTokenGroupDescriptionNFT_eq_dec : EqDecision CTokenGroupDescriptionNFT.
Proof. solve_decision. Defined.
#[export] Instance CTokenGroupDescriptionBetting_eq_dec : EqDecision CTokenGroupDescriptionBetting.
Proof. solve_decision. Defined.
#[export] Instance CTokenGroupDescriptionVariant_eq_dec : EqDecision CTokenGroupDescriptionVariant.
Proof. solve_decision. Defined.

(** The visitors. *)
Definition tgDescGetTicker (d : CTokenGroupDescriptionVariant) : list Z :=
  match d with TGRegular d => reg_strTicker d | TGMGT d => mgt_strTicker d | TGNFT _ | TGBetting _ => [] end.

Definition tgDescGetName (d : CTokenGroupDescriptionVariant) : list Z :=
  match d with
  | TGRegular d => reg_strName d
  | TGMGT d => mgt_strName d
  | TGNFT d => nft_strName d
  | TGBetting d => decimal (bt_nEventId d)
  end.

Definition tgDescGetDocumentURL (d : CTokenGroupDescriptionVariant) : list Z :=
  match d with
  | TGRegular d => reg_strDocumentUrl d
  | TGMGT d => mgt_strDocumentUrl d
  | TGNFT d => nft_strDocumentUrl d
  | TGBetting _ => []
  end.

Definition tgDescGetDocumentHash (d : CTokenGroupDescriptionVariant) : uint256 :=
  match d with
  | TGRegular d => reg_documentHash d
  | TGMGT d => mgt_documentHash d
  | TGNFT d => nft_documentHash d
  | TGBetting _ => 0
  end.

Definition tgDescGetDecimalPos (d : CTokenGroupDescriptionVariant) : Z :=
  match d with TGRegular d => reg_nDecimalPos d | TGMGT d => mgt_nDecimalPos d | TGNFT _ => 0 | TGBetting _ => 8 end.

Definition tgDescGetCoinAmount (d : CTokenGroupDescriptionVariant) : Z :=
  match d with
  | TGRegular d => COINFromDecimalPos (reg_nDecimalPos d)
  | TGMGT d => COINFromDecimalPos (mgt_nDecimalPos d)
  | TGNFT _ => COINFromDecimalPos 0
  | TGBetting _ => COINFromDecimalPos 8
  end.

(** ** Serialization *)
Definition bls_null (bytes : list Z) : bool := forallb (fun b => b =? 0) bytes.

Section Codecs.
Context (bls_ok : list Z -> bool).

(** CBLSWrapper::Serialize and Unserialize with the test for malleability. *)
Definition blsc (size : nat) : codec (list Z) :=
  Codec (fun k => k)
        (fun s => '(bytes, s) ← read_bytes size s;
                  if bls_null bytes || bls_ok bytes then Some (bytes, s) else None)
        (fun k => length k = size /\ Forall byte k /\ bls_null k || bls_ok k = true).

Definition CBLSPublicKey_codec : codec (list Z) := blsc 48.
Definition CBLSSignature_codec : codec (list Z) := blsc 96.

Definition CTokenGroupDescriptionRegular_codec : codec CTokenGroupDescriptionRegular :=
  isoc (fun d => (reg_nVersion d, (reg_strTicker d, (reg_strName d, (reg_strDocumentUrl d,
         (reg_documentHash d, reg_nDecimalPos d))))))
       (fun '(v, (t, (n, (u, (h, p))))) => Build_CTokenGroupDescriptionRegular v t n u h p)
       (u16c ⊗ bytesc ⊗ bytesc ⊗ bytesc ⊗ uint256c ⊗ u8c).

Definition CTokenGroupDescriptionMGT_codec : codec CTokenGroupDescriptionMGT :=
  isoc (fun d => (mgt_nVersion d, (mgt_strTicker d, (mgt_strName d, (mgt_strDocumentUrl d,
         (mgt_documentHash d, (mgt_nDecimalPos d, mgt_blsPubKey d)))))))
       (fun '(v, (t, (n, (u, (h, (p, k)))))) => Build_CTokenGroupDescriptionMGT v t n u h p k)
       (u16c ⊗ bytesc ⊗ bytesc ⊗ bytesc ⊗ uint256c ⊗ u8c ⊗ CBLSPublicKey_codec).

Definition CTokenGroupDescriptionNFT_codec : codec CTokenGroupDescriptionNFT :=
  isoc (fun d => (nft_nVersion d, (nft_strName d, (nft_nMintAmount d, (nft_strDocumentUrl d,
         (nft_documentHash d, (nft_vchData d, nft_strDataFilename d)))))))
       (fun '(v, (n, (m, (u, (h, (dt, f)))))) => Build_CTokenGroupDescriptionNFT v n m u h dt f)
       (u16c ⊗ bytesc ⊗ u64c ⊗ bytesc ⊗ uint256c ⊗ bytesc ⊗ bytesc).

(** Outside of SER_GETHASH the key and the signature are written too. *)
Definition CTokenGroupDescriptionBetting_codec : codec CTokenGroupDescriptionBetting :=
  isoc (fun d => (bt_nVersion d, (bt_nEventId d, (bt_signerType d, (bt_signerHash d,
         (bt_blsPubKey d, bt_blsSig d))))))
       (fun '(v, (e, (t, (h, (k, s))))) => Build_CTokenGroupDescriptionBetting v e t h k s)
       (u16c ⊗ u32c ⊗ u8c ⊗ uint256c ⊗ CBLSPublicKey_codec ⊗ CBLSSignature_codec).

(** The bytes under SER_GETHASH. *)
Definition CTokenGroupDescriptionBetting_hashed (d : CTokenGroupDescriptionBetting) : list Z :=
  Serialize u16c (bt_nVersion d) ++ Serialize u32c (bt_nEventId d) ++ Serialize u8c (bt_signerType d) ++
  Serialize uint256c (bt_signerHash d).

(** ** Special transactions (primitives/transaction.h, evo/specialtx.h) *)
Definition TRANSACTION_GROUP_CREATION_REGULAR : Z := 8.
Definition TRANSACTION_GROUP_CREATION_MGT : Z := 9.
Definition TRANSACTION_GROUP_CREATION_NFT : Z := 10.
Definition TRANSACTION_GROUP_CREATION_BETTING : Z := 11.

Definition SPECIALTX_TYPE (d : CTokenGroupDescriptionVariant) : Z :=
  match d with
  | TGRegular _ => TRANSACTION_GROUP_CREATION_REGULAR
  | TGMGT _ => TRANSACTION_GROUP_CREATION_MGT
  | TGNFT _ => TRANSACTION_GROUP_CREATION_NFT
  | TGBetting _ => TRANSACTION_GROUP_CREATION_BETTING
  end.

(** The fields of CTransaction that tokens use. *)
Record CSpecialTx := {
  stx_tx :> CTransaction;
  tx_nVersion : Z;
  tx_nType : Z;
  tx_vExtraPayload : list Z;
}.

(** GetTxPayload on the bytes: the object is read and nothing is left. *)
Definition payload_of {A} (c : codec A) (payload : list Z) : option A :=
  '(obj, rest) ← Unserialize c payload;
  if bool_decide (rest = []) then Some obj else None.

(** GetTxPayload at the type of description of the transaction's own type. *)
Definition GetTxPayload (tx : CSpecialTx) : option CTokenGroupDescriptionVariant :=
  if tx_nType tx =? TRANSACTION_GROUP_CREATION_REGULAR then
    TGRegular <$> payload_of CTokenGroupDescriptionRegular_codec (tx_vExtraPayload tx)
  else if tx_nType tx =? TRANSACTION_GROUP_CREATION_MGT then
    TGMGT <$> payload_of CTokenGroupDescriptionMGT_codec (tx_vExtraPayload tx)
  else if tx_nType tx =? TRANSACTION_GROUP_CREATION_NFT then
    TGNFT <$> payload_of CTokenGroupDescriptionNFT_codec (tx_vExtraPayload tx)
  else if tx_nType tx =? TRANSACTION_GROUP_CREATION_BETTING then
    TGBetting <$> payload_of CTokenGroupDescriptionBetting_codec (tx_vExtraPayload tx)
  else None.

(** SetTxPayload. *)
Definition desc_bytes (d : CTokenGroupDescriptionVariant) : list Z :=
  match d with
  | TGRegular d => Serialize CTokenGroupDescriptionRegular_codec d
  | TGMGT d => Serialize CTokenGroupDescriptionMGT_codec d
  | TGNFT d => Serialize CTokenGroupDescriptionNFT_codec d
  | TGBetting d => Serialize CTokenGroupDescriptionBetting_codec d
  end.

Definition SetTxPayload (tx : CSpecialTx) (d : CTokenGroupDescriptionVariant) : CSpecialTx :=
  {| stx_tx := stx_tx tx; tx_nVersion := tx_nVersion tx; tx_nType := tx_nType tx;
     tx_vExtraPayload := desc_bytes d |}.

Definition desc_ok (d : CTokenGroupDescriptionVariant) : Prop :=
  match d with
  | TGRegular d => SerOk CTokenGroupDescriptionRegular_codec d
  | TGMGT d => SerOk CTokenGroupDescriptionMGT_codec d
  | TGNFT d => SerOk CTokenGroupDescriptionNFT_codec d
  | TGBetting d => SerOk CTokenGroupDescriptionBetting_codec d
  end.
End Codecs.

(** ** Regular expressions *)
Inductive regex :=
  | REmpty
  | REps
  | RChr (p : Z -> bool)
  | RSeq (r1 r2 : regex)
  | RAlt (r1 r2 : regex)
  | RStar (r : regex).

Definition RPlus (r : regex) : regex := RSeq r (RStar r).
Definition ROpt (r : regex) : regex := RAlt REps r.

Fixpoint RLit (s : list Z) : regex :=
  match s with [] => REps | c :: s => RSeq (RChr (Z.eqb c)) (RLit s) end.

(** The strings of an expression. *)
Inductive lang : regex -> list Z -> Prop :=
  | lang_eps : lang REps []
  | lang_chr p c : p c = true -> lang (RChr p) [c]
  | lang_seq r1 r2 s1 s2 : lang r1 s1 -> lang r2 s2 -> lang (RSeq r1 r2) (s1 ++ s2)
  | lang_alt_l r1 r2 s : lang r1 s -> lang (RAlt r1 r2) s
  | lang_alt_r r1 r2 s : lang r2 s -> lang (RAlt r1 r2) s
  | lang_star_nil r : lang (RStar r) []
  | lang_star_cons r s1 s2 : lang r s1 -> lang (RStar r) s2 -> lang (RStar r) (s1 ++ s2).

(** std::regex_match: the whole string. *)
Fixpoint nullable (r : regex) : bool :=
  match r with
  | REmpty | RChr _ => false
  | REps | RStar _ => true
  | RSeq r1 r2 => nullable r1 && nullable r2
  | RAlt r1 r2 => nullable r1 || nullable r2
  end.

Fixpoint deriv (c : Z) (r : regex) : regex :=
  match r with
  | REmpty | REps => REmpty
  | RChr p => if p c then REps else REmpty
  | RSeq r1 r2 =>
      if nullable r1 then RAlt (RSeq (deriv c r1) r2) (deriv c r2) else RSeq (deriv c r1) r2
  | RAlt r1 r2 => RAlt (deriv c r1) (deriv c r2)
  | RStar r => RSeq (deriv c r) (RStar r)
  end.

Fixpoint regex_match (r : regex) (s : list Z) : bool :=
  match s with [] => nullable r | c :: s => regex_match (deriv c r) s end.

(** [[a-zA-Z0-9]], the whitespace of [\s] *)
Definition is_alnum (c : Z) : bool :=
  ((48 <=? c) && (c <=? 57)) || ((65 <=? c) && (c <=? 90)) || ((97 <=? c) && (c <=? 122)).
Definition is_space (c : Z) : bool := (c =? 32) || ((9 <=? c) && (c <=? 13)).

Definition regexTicker : regex := RPlus (RChr is_alnum).

Definition regexName : regex :=
  RSeq (RChr is_alnum) (RSeq (RStar (RChr (fun c => is_alnum c || (c =? 45) || (c =? 32)))) (RChr is_alnum)).

(** The expression for URLs: a scheme (http, https, ftp or wagerr), "://", an
    optional "-.", labels of characters other than whitespace, / ? . # and -,
    each followed by an optional dot, and an optional path of characters other
    than whitespace that starts with a slash. *)
Definition url_label_char (c : Z) : bool :=
  negb (is_space c || (c =? 47) || (c =? 63) || (c =? 46) || (c =? 35) || (c =? 45)).

Definition regexUrl : regex :=
  RSeq (RAlt (RSeq (RLit (bytes_of "http")) (ROpt (RLit (bytes_of "s"))))
             (RAlt (RLit (bytes_of "ftp")) (RLit (bytes_of "wagerr"))))
  (RSeq (RLit (bytes_of "://"))
  (RSeq (ROpt (RLit (bytes_of "-.")))
  (RSeq (RPlus (RSeq (RPlus (RChr url_label_char)) (ROpt (RLit (bytes_of ".")))))
        (ROpt (RSeq (RLit (bytes_of "/")) (RStar (RChr (fun c => negb (is_space c))))))))).

(** ** The filters on the characters *)
Definition FILTERED : list Z := bytes_of "<FILTERED>".

Definition TGFilterTickerCharacters (strTicker : list Z) : list Z :=
  if negb (bool_decide (strTicker = [])) && negb (regex_match regexTicker strTicker) then FILTERED else strTicker.

Definition TGFilterNameCharacters (strName : list Z) : list Z :=
  if negb (bool_decide (strName = [])) && negb (regex_match regexName strName) then FILTERED else strName.

Definition TGFilterURLCharacters (strDocumentUrl : list Z) : list Z :=
  if negb (bool_decide (strDocumentUrl = [])) && negb (regex_match regexUrl strDocumentUrl)
  then strDocumentUrl ++ bytes_of " (non-standard URL)" else strDocumentUrl.

Definition TGFilterUpperCaseTicker (strTicker : list Z) : list Z := toupper <$> strTicker.

(** ** Lemmas on regular expressions *)
Lemma nullable_lang r : nullable r = true <-> lang r [].
Proof.
  split.
  - induction r as [| |p|r1 IH1 r2 IH2|r1 IH1 r2 IH2|r IH]; cbn [nullable]; try done; intros H.
    + constructor.
    + apply andb_true_iff in H as [H1 H2]. change (@nil Z) with (@nil Z ++ []). constructor; auto.
    + apply orb_true_iff in H as [H|H]; [apply lang_alt_l|apply lang_alt_r]; auto.
    + constructor.
  - induction r as [| |p|r1 IH1 r2 IH2|r1 IH1 r2 IH2|r IH]; inversion 1; subst; cbn [nullable]; try done.
    + match goal with E : _ ++ _ = [] |- _ => apply app_eq_nil in E as [-> ->] end.
      by rewrite IH1, IH2.
    + by rewrite IH1.
    + by rewrite IH2, orb_true_r.
Qed.

(** A string of a starred expression that is not empty starts with a string
    that is not empty. *)
Lemma lang_star_inv r c s :
  lang (RStar r) (c :: s) -> exists s1 s2, s = s1 ++ s2 /\ lang r (c :: s1) /\ lang (RStar r) s2.
Proof.
  intros H. remember (RStar r) as q eqn:Eq. remember (c :: s) as t eqn:Et. revert c s Et.
  induction H as [| | | | | |r' s1 s2 H1 _ H2 IH2]; intros x t Ext; simplify_eq.
  destruct s1 as [|c1 s1]; [by apply IH2|]. simpl in Ext. simplify_eq. by exists s1, s2.
Qed.

Lemma deriv_lang c r s : lang (deriv c r) s <-> lang r (c :: s).
Proof.
  revert s. induction r as [| |p|r1 IH1 r2 IH2|r1 IH1 r2 IH2|r IH]; intros s; cbn [deriv].
  - split; inversion 1.
  - split; inversion 1.
  - destruct (p c) eqn:Hp; split; inversion 1; subst; try congruence; by constructor.
  - assert (lang (RSeq (deriv c r1) r2) s <->
      exists s1 s2, s = s1 ++ s2 /\ lang r1 (c :: s1) /\ lang r2 s2) as Hseq.
    { split.
      - inversion 1; subst. do 2 eexists. split_and!; [done|by apply IH1|done].
      - intros (s1 & s2 & -> & H1 & H2). constructor; [by apply IH1|done]. }
    assert (lang (RSeq r1 r2) (c :: s) <->
      (exists s1 s2, s = s1 ++ s2 /\ lang r1 (c :: s1) /\ lang r2 s2) \/ lang r1 [] /\ lang r2 (c :: s)) as Hc.
    { split.
      - inversion 1 as [| |? ? s1 s2 H1 H2 E1 E2| | | |]; subst. destruct s1 as [|c1 s1]; simpl in *.
        + by right; subst.
        + simplify_eq. left. by exists s1, s2.
      - intros [(s1 & s2 & -> & H1 & H2)|[H1 H2]].
        + change (c :: s1 ++ s2) with ((c :: s1) ++ s2). by constructor.
        + change (c :: s) with ([] ++ c :: s). by constructor. }
    rewrite Hc. destruct (nullable r1) eqn:En.
    + apply nullable_lang in En. split.
      * inversion 1; subst; [left; by apply Hseq|right; split; [done|by apply IH2]].
      * intros [H|[_ H]]; [apply lang_alt_l; by apply Hseq|apply lang_alt_r; by apply IH2].
    + rewrite Hseq. split; [by left|]. intros [H|[H _]]; [done|].
      apply nullable_lang in H. congruence.
  - split; inversion 1; subst; (apply lang_alt_l + apply lang_alt_r); solve [by apply IH1|by apply IH2].
  - split.
    + inversion 1; subst. change (c :: ?a ++ ?b) with ((c :: a) ++ b). constructor; [by apply IH|done].
    + intros H. apply lang_star_inv in H as (s1 & s2 & -> & H1 & H2). constructor; [by apply IH|done].
Qed.

Lemma regex_match_lang r s : regex_match r s = true <-> lang r s.
Proof.
  revert r. induction s as [|c s IH]; intros r; cbn [regex_match]; [apply nullable_lang|].
  by rewrite IH, deriv_lang.
Qed.

Lemma lang_star_chr p s : lang (RStar (RChr p)) s <-> Forall (fun c => p c = true) s.
Proof.
  split.
  - remember (RStar (RChr p)) as r eqn:Er. induction 1 as [| | | | | |r' s1 s2 H1 _ H2 IH2]; simplify_eq; [done|].
    inversion H1; subst. constructor; auto.
  - induction 1 as [|c s Hc _ IH]; [constructor|]. change (c :: s) with ([c] ++ s). by repeat constructor.
Qed.

Lemma lang_ticker s : lang regexTicker s <-> s <> [] /\ Forall (fun c => is_alnum c = true) s.
Proof.
  split.
  - inversion 1 as [| |? ? s1 s2 H1 H2| | | |]; subst. inversion H1; subst. apply lang_star_chr in H2.
    split; [done|]. by constructor.
  - intros [Hn Hs]. destruct Hs as [|c s Hc Hs]; [done|]. change (c :: s) with ([c] ++ s).
    constructor; [by constructor|by apply lang_star_chr].
Qed.

(** A character of a name that is neither its first nor its last. *)
Definition is_inner (c : Z) : bool := is_alnum c || (c =? 45) || (c =? 32).

Lemma lang_name s :
  lang regexName s <->
  exists a m b, s = a :: m ++ [b] /\ is_alnum a = true /\ is_alnum b = true /\ Forall (fun c => is_inner c = true) m.
Proof.
  split.
  - inversion 1 as [| |? ? s1 s2 H1 H2| | | |]; subst. inversion H1; subst.
    inversion H2 as [| |? ? s3 s4 Hm Hb| | | |]; subst. inversion Hb; subst.
    apply lang_star_chr in Hm. by do 3 eexists.
  - intros (a & m & b & -> & Ha & Hb & Hm). change (a :: m ++ [b]) with ([a] ++ m ++ [b]).
    repeat constructor; [done|by apply lang_star_chr|done].
Qed.

(** ** What the filters let through *)

(** Tickers and names after the filters.  A ticker is empty, the word
    <FILTERED>, or letters and digits; it is unchanged exactly when it is one
    of these.  A name that is neither empty nor <FILTERED> has at least two
    characters, letters and digits at both ends, and letters, digits, dashes
    and blanks between them. *)
Theorem TGFilter_characters t n :
  (TGFilterTickerCharacters t = t <->
     t = [] \/ t = FILTERED \/ Forall (fun c => is_alnum c = true) t) /\
  TGFilterTickerCharacters (TGFilterTickerCharacters t) = TGFilterTickerCharacters t /\
  (TGFilterNameCharacters n = n <->
     n = [] \/ n = FILTERED \/
     exists a m b, n = a :: m ++ [b] /\ is_alnum a = true /\ is_alnum b = true /\
       Forall (fun c => is_inner c = true) m) /\
  TGFilterNameCharacters (TGFilterNameCharacters n) = TGFilterNameCharacters n.
Proof.
  split_and!.
  - unfold TGFilterTickerCharacters. case_bool_decide as Ht; cbn [negb andb]; [naive_solver|].
    destruct (regex_match regexTicker t) eqn:E; cbn [negb].
    + apply regex_match_lang, lang_ticker in E as [_ E]. naive_solver.
    + split; [by auto|]. intros [H|[H|H]]; [done|by rewrite H|]. exfalso.
      assert (regex_match regexTicker t = true) by (by apply regex_match_lang, lang_ticker). congruence.
  - unfold TGFilterTickerCharacters at 2 3. destruct (negb (bool_decide (t = [])) && _) eqn:E; [reflexivity|].
    unfold TGFilterTickerCharacters. by rewrite E.
  - unfold TGFilterNameCharacters. case_bool_decide as Ht; cbn [negb andb]; [naive_solver|].
    destruct (regex_match regexName n) eqn:E; cbn [negb].
    + apply regex_match_lang, lang_name in E. naive_solver.
    + split; [by auto|]. intros [H|[H|H]]; [done|by rewrite H|]. exfalso.
      assert (regex_match regexName n = true) by (by apply regex_match_lang, lang_name). congruence.
  - unfold TGFilterNameCharacters at 2 3. destruct (negb (bool_decide (n = [])) && _) eqn:E; [reflexivity|].
    unfold TGFilterNameCharacters. by rewrite E.
Qed.

Example regexUrl_accepts :
  regex_match regexUrl (bytes_of "https://wagerr.com") = true /\
  regex_match regexUrl (bytes_of "ftp://a.b/x y") = false /\
  regex_match regexUrl (bytes_of "https://www.wagerr-pro.com") = false.
Proof. split_and!; vm_compute; reflexivity. Qed.

(** ** Codec laws, and the payload read back *)
#[export] Instance blsc_laws bls_ok size : CodecLaws (blsc bls_ok size).
Proof.
  split; simpl.
  - by intros k (_ & ? & _).
  - intros k rest (<- & _ & Hk). rewrite read_bytes_app. cbn [mbind option_bind]. by rewrite Hk.
Qed.

#[export] Instance CBLSPublicKey_laws bls_ok : CodecLaws (CBLSPublicKey_codec bls_ok).
Proof. apply _. Qed.
#[export] Instance CBLSSignature_laws bls_ok : CodecLaws (CBLSSignature_codec bls_ok).
Proof. apply _. Qed.
#[export] Instance CTokenGroupDescriptionRegular_laws : CodecLaws CTokenGroupDescriptionRegular_codec.
Proof. apply isoc_laws; [apply _|by intros []]. Qed.
#[export] Instance CTokenGroupDescriptionMGT_laws bls_ok : CodecLaws (CTokenGroupDescriptionMGT_codec bls_ok).
Proof. apply isoc_laws; [apply _|by intros []]. Qed.
#[export] Instance CTokenGroupDescriptionNFT_laws : CodecLaws CTokenGroupDescriptionNFT_codec.
Proof. apply isoc_laws; [apply _|by intros []]. Qed.
#[export] Instance CTokenGroupDescriptionBetting_laws bls_ok : CodecLaws (CTokenGroupDescriptionBetting_codec bls_ok).
Proof. apply isoc_laws; [apply _|by intros []]. Qed.

Lemma payload_of_Serialize {A} (c : codec A) `{!CodecLaws c} x : SerOk c x -> payload_of c (Serialize c x) = Some x.
Proof.
  intros Hx. unfold payload_of. rewrite <- (app_nil_r (Serialize c x)), unser_ser by done. reflexivity.
Qed.

(** Payloads are read back.  A description that fits its fields, set as the
    payload of a transaction of its type, is what GetTxPayload returns; a
    payload with bytes left over is rejected. *)
Theorem GetTxPayload_SetTxPayload bls_ok tx d b rest :
  tx_nType tx = SPECIALTX_TYPE d -> desc_ok bls_ok d ->
  GetTxPayload bls_ok (SetTxPayload bls_ok tx d) = Some d /\
  GetTxPayload bls_ok {| stx_tx := stx_tx tx; tx_nVersion := tx_nVersion tx; tx_nType := tx_nType tx;
                         tx_vExtraPayload := desc_bytes bls_ok d ++ b :: rest |} = None.
Proof.
  intros Ht Hd. unfold GetTxPayload, SetTxPayload. cbn [tx_nType tx_vExtraPayload]. rewrite Ht.
  destruct d; cbn [SPECIALTX_TYPE desc_bytes desc_ok] in *; rewrite Z.eqb_refl;
    repeat match goal with |- context [?a =? ?b] => change (a =? b) with false end; cbv iota;
    (split; [by rewrite payload_of_Serialize by (done || apply _)|]);
    unfold payload_of; rewrite unser_ser by done; done.
Qed.

(** ** Decimal positions and digits *)

(** The table of powers is 10 to the position up to 16, and 1 above. *)
Lemma COINFromDecimalPos_pow n : 0 <= n -> COINFromDecimalPos n = if n <=? 16 then 10 ^ n else 1.
Proof.
  intros Hn. unfold COINFromDecimalPos. destruct (Z.leb_spec n 16); [|done].
  assert (forallb (fun n => nth (Z.to_nat n) pow10 0 =? 10 ^ n) (seqZ 0 17) = true) as HF
    by (vm_compute; reflexivity).
  apply Z.eqb_eq. rewrite forallb_forall in HF. apply HF, list_elem_of_In, elem_of_seqZ. lia.
Qed.

Definition digits_value (ds : list Z) : Z := foldl (fun v d => 10 * v + (d - 48)) 0 ds.

Lemma decimal_digits_value fuel n :
  0 <= n -> n < 2 ^ Z.of_nat fuel -> (0 < fuel)%nat -> digits_value (decimal_digits fuel n) = n.
Proof.
  revert n. induction fuel as [|fuel IH]; intros n H0 Hn Hf; [lia|]. cbn [decimal_digits].
  unfold digits_value. rewrite foldl_app. cbn [foldl]. change (foldl _ 0 ?l) with (digits_value l).
  destruct (Z.ltb_spec n 10).
  - cbn. rewrite Z.mod_small by lia. lia.
  - assert (n `div` 10 < 2 ^ Z.of_nat fuel) as Hd.
    { apply Z.div_lt_upper_bound; [lia|]. rewrite Nat2Z.inj_succ, Z.pow_succ_r in Hn by lia. lia. }
    rewrite IH; [|apply Z.div_pos; lia|done|].
    + pose proof (Z.div_mod n 10). lia.
    + destruct fuel; [|lia]. cbn in Hd. assert (1 <= n `div` 10) by (apply Z.div_le_lower_bound; lia). lia.
Qed.

Lemma decimal_value n : 0 <= n -> digits_value (decimal n) = n.
Proof.
  intros Hn. unfold decimal. apply decimal_digits_value; [done| |lia].
  rewrite Nat2Z.inj_succ, Z2Nat.id by apply Z.log2_nonneg.
  destruct (Z.eq_dec n 0) as [->|]; [done|]. by apply Z.log2_spec; lia.
Qed.
