(* ===== verification/TxVerify.v ===== *)
(** * What a transaction has to satisfy
    (src/src/consensus/tx_check.cpp, src/src/consensus/tx_verify.cpp, the counting of
    signature operations of src/src/script/script.cpp, GetMedianTimePast of
    src/src/chain.h)

    A rejection is a value of [TxReject], named after the reason the code gives;
    [None] stands for a failed assertion or an exception. *)

From S2P Require Import Prelude Serialize Params BetTx BetKeys Transaction TxCodec Coins CoinsUndo TokenGroups TokenDesc AddressIndex.

Inductive TxReject :=
  | bad_txns_vin_empty
  | bad_txns_vout_empty
  | bad_txns_oversize
  | bad_txns_payload_oversize
  | bad_txns_nft_payload_oversize
  | bad_txns_vout_negative
  | bad_txns_vout_toolarge
  | bad_txns_txouttotal_toolarge
  | bad_txns_inputs_duplicate
  | bad_cb_length
  | bad_txns_prevout_null
  | bad_txns_inputs_missingorspent
  | bad_txns_premature_spend_of_coinstake
  | bad_txns_premature_spend_of_coinbase
  | bad_txns_premature_spend_of_token_authority
  | bad_txns_inputvalues_outofrange
  | bad_txns_in_belowout
  | bad_txns_fee_outofrange.

#[export] Instance TxReject_eq_dec : EqDecision TxReject.
Proof. solve_decision. Defined.

(** ** Constants *)
Definition MAX_LEGACY_BLOCK_SIZE : Z := 2000000.
Definition MAX_TX_EXTRA_PAYLOAD : Z := 10000.
Definition MAX_TX_EXTRA_NFT_PAYLOAD : Z := 99616.
Definition LOCKTIME_VERIFY_SEQUENCE : Z := Z.shiftl 1 0.
Definition LOCKTIME_THRESHOLD : Z := 500000000.
Definition TRANSACTION_COINBASE : Z := 5.
Definition TRANSACTION_QUORUM_COMMITMENT : Z := 6.

(** ** CheckTransaction: [None] is an accepted transaction *)

(** A test that rejects for a reason when it is true. *)
Definition reject_if (b : bool) (r : TxReject) (next : option TxReject) : option TxReject := if b then Some r else next.

Fixpoint check_outputs_value (vout : list CTxOut) (nValueOut : Z) : option TxReject :=
  match vout with
  | [] => None
  | txout :: vout =>
      reject_if (nValue txout <? 0) bad_txns_vout_negative
        (reject_if (MAX_MONEY <? nValue txout) bad_txns_vout_toolarge
           (let nValueOut := i64 (nValueOut + nValue txout) in
            reject_if (negb (MoneyRange nValueOut)) bad_txns_txouttotal_toolarge (check_outputs_value vout nValueOut)))
  end.

Fixpoint check_duplicates (vin : list CTxIn) (vInOutPoints : gset COutPoint) : option TxReject :=
  match vin with
  | [] => None
  | txin :: vin =>
      reject_if (bool_decide (txin_prevout txin ∈ vInOutPoints)) bad_txns_inputs_duplicate
        (check_duplicates vin (if negb (CTxIn_IsZerocoinSpend txin) then {[ txin_prevout txin ]} ∪ vInOutPoints else vInOutPoints))
  end.

Definition check_coinbase (tx : CTx) (fZerocoinActive : bool) : option TxReject :=
  if IsCoinBase tx then
    let minCbSize := if ctx_nType tx =? TRANSACTION_COINBASE then 1 else 2 in
    let size := match ctx_vin tx with txin :: _ => Z.of_nat (length (txin_scriptSig txin)) | [] => 0 end in
    reject_if ((size <? minCbSize) || (150 <? size)) bad_cb_length None
  else
    reject_if (existsb (fun txin => COutPoint_IsNull (txin_prevout txin) && (fZerocoinActive && negb (CTxIn_IsZerocoinSpend txin))) (ctx_vin tx))
      bad_txns_prevout_null None.

Definition or_else (a b : option TxReject) : option TxReject := match a with Some r => Some r | None => b end.

Definition CheckTransaction (tx : CTx) (fZerocoinActive : bool) : option TxReject :=
  let allowEmptyTxInOut := ctx_nType tx =? TRANSACTION_QUORUM_COMMITMENT in
  reject_if (negb allowEmptyTxInOut && bool_decide (ctx_vin tx = [])) bad_txns_vin_empty
    (reject_if (negb allowEmptyTxInOut && bool_decide (ctx_vout tx = [])) bad_txns_vout_empty
       (reject_if (MAX_LEGACY_BLOCK_SIZE <? GetSerializeSize tx) bad_txns_oversize
          (reject_if (MAX_TX_EXTRA_PAYLOAD <? Z.of_nat (length (ctx_vExtraPayload tx))) bad_txns_payload_oversize
             (or_else (check_outputs_value (ctx_vout tx) 0)
                (or_else (check_duplicates (ctx_vin tx) ∅) (check_coinbase tx fZerocoinActive)))))).

(** ** Lock times *)
Definition IsFinalTx (tx : CTx) (nBlockHeight nBlockTime : Z) : bool :=
  if ctx_nLockTime tx =? 0 then true
  else if ctx_nLockTime tx <? (if ctx_nLockTime tx <? LOCKTIME_THRESHOLD then nBlockHeight else nBlockTime) then true
  else forallb (fun txin => txin_nSequence txin =? SEQUENCE_FINAL) (ctx_vin tx).

(** A chain is the list of the times of its blocks, from the first one on. *)
Definition nMedianTimeSpan : nat := 11.

Definition GetMedianTimePast (chain : list Z) (nHeight : nat) : option Z :=
  let times := take (nHeight + 1) chain in
  let window := drop (length times - nMedianTimeSpan) times in
  merge_sort (≤) window !! (length window / 2)%nat.

(** CBlockIndex::GetAncestor on a chain: [None] is a null pointer. *)
Definition ancestor_time (chain : list Z) (nHeight height : Z) : option Z :=
  if (nHeight <? height) || (height <? 0) then None else GetMedianTimePast chain (Z.to_nat height).

(** The loop over the inputs with their heights. *)
Fixpoint sequence_locks (chain : list Z) (nHeight : Z) (vin : list CTxIn) (prevHeights : list Z) (nMinHeight nMinTime : Z) :
    option (Z * Z) :=
  match vin, prevHeights with
  | [], _ => Some (nMinHeight, nMinTime)
  | txin :: vin, nCoinHeight :: prevHeights =>
      if negb (Z.land (txin_nSequence txin) SEQUENCE_LOCKTIME_DISABLE_FLAG =? 0)
      then sequence_locks chain nHeight vin prevHeights nMinHeight nMinTime
      else if negb (Z.land (txin_nSequence txin) SEQUENCE_LOCKTIME_TYPE_FLAG =? 0) then
        nCoinTime ← ancestor_time chain nHeight (Z.max (i32 (nCoinHeight - 1)) 0);
        let lock := Z.shiftl (Z.land (txin_nSequence txin) SEQUENCE_LOCKTIME_MASK) SEQUENCE_LOCKTIME_GRANULARITY in
        sequence_locks chain nHeight vin prevHeights nMinHeight (Z.max nMinTime (i64 (nCoinTime + lock - 1)))
      else
        sequence_locks chain nHeight vin prevHeights
          (Z.max nMinHeight (i32 (nCoinHeight + Z.land (txin_nSequence txin) SEQUENCE_LOCKTIME_MASK - 1))) nMinTime
  | _ :: _, [] => None
  end.

(** The heights that are left in the caller's vector: 0 for inputs without a lock. *)
Definition lock_heights (vin : list CTxIn) (prevHeights : list Z) : list Z :=
  zip_with (fun txin h => if negb (Z.land (txin_nSequence txin) SEQUENCE_LOCKTIME_DISABLE_FLAG =? 0) then 0 else h) vin prevHeights.

(** {{nMinHeight, nMinTime}, prevHeights} *)
Definition CalculateSequenceLocks (tx : CTx) (flags : Z) (prevHeights : list Z) (chain : list Z) (nHeight : Z) :
    option ((Z * Z) * list Z) :=
  if negb (length prevHeights =? length (ctx_vin tx))%nat then None
  else if (2 <=? u32 (ctx_nVersion tx)) && negb (Z.land flags LOCKTIME_VERIFY_SEQUENCE =? 0) then
    lockPair ← sequence_locks chain nHeight (ctx_vin tx) prevHeights (-1) (-1);
    Some (lockPair, lock_heights (ctx_vin tx) prevHeights)
  else Some ((-1, -1), prevHeights).

Definition EvaluateSequenceLocks (chain : list Z) (nHeight : Z) (lockPair : Z * Z) : option bool :=
  if nHeight <=? 0 then None
  else
    nBlockTime ← GetMedianTimePast chain (Z.to_nat (nHeight - 1));
    Some (negb ((nHeight <=? lockPair.1) || (nBlockTime <=? lockPair.2))).

Definition SequenceLocks (tx : CTx) (flags : Z) (prevHeights : list Z) (chain : list Z) (nHeight : Z) : option bool :=
  '(lockPair, _) ← CalculateSequenceLocks tx flags prevHeights chain nHeight;
  EvaluateSequenceLocks chain nHeight lockPair.

(** ** Signature operations *)
Definition OP_1 : Z := 0x51.
Definition OP_16 : Z := 0x60.
Definition OP_CHECKSIGVERIFY : Z := 0xad.
Definition OP_CHECKMULTISIG : Z := 0xae.
Definition OP_CHECKMULTISIGVERIFY : Z := 0xaf.
Definition OP_INVALIDOPCODE : Z := 0xff.
Definition MAX_PUBKEYS_PER_MULTISIG : Z := 20.

(** Only asked for OP_1 to OP_16 here, which the code asserts. *)
Definition DecodeOP_N (opcode : Z) : Z := if opcode =? 0 then 0 else opcode - (OP_1 - 1).

(** Every step consumes a byte: the length of the script is fuel enough. *)
Fixpoint count_sigops (fuel : nat) (fAccurate : bool) (pc : list Z) (lastOpcode n : Z) : Z :=
  match fuel with
  | O => n
  | S fuel =>
      match GetScriptOp pc with
      | None => n
      | Some (opcode, _, pc) =>
          let n :=
            if (opcode =? OP_CHECKSIG) || (opcode =? OP_CHECKSIGVERIFY) then u32 (n + 1)
            else if (opcode =? OP_CHECKMULTISIG) || (opcode =? OP_CHECKMULTISIGVERIFY) then
              if fAccurate && (OP_1 <=? lastOpcode) && (lastOpcode <=? OP_16) then u32 (n + DecodeOP_N lastOpcode)
              else u32 (n + MAX_PUBKEYS_PER_MULTISIG)
            else n in
          count_sigops fuel fAccurate pc opcode n
      end
  end.

Definition GetSigOpCount (script : list Z) (fAccurate : bool) : Z :=
  count_sigops (length script) fAccurate script OP_INVALIDOPCODE 0.

(** The last item a scriptSig pushes; [None] when it is not only pushes. *)
Fixpoint last_push (fuel : nat) (pc : list Z) (vData : list Z) : option (list Z) :=
  match pc with
  | [] => Some vData
  | _ =>
      match fuel with
      | O => None
      | S fuel =>
          '(opcode, data, pc) ← GetScriptOp pc;
          if OP_16 <? opcode then None else last_push fuel pc data
      end
  end.

Definition GetSigOpCount_p2sh (script scriptSig : list Z) : Z :=
  if negb (IsPayToScriptHash script) then GetSigOpCount script true
  else match last_push (length scriptSig) scriptSig [] with
       | None => 0
       | Some vData => GetSigOpCount vData true
       end.

Definition GetLegacySigOpCount (tx : CTx) : Z :=
  let ins := foldl (fun n txin => u32 (n + GetSigOpCount (txin_scriptSig txin) false)) 0 (ctx_vin tx) in
  foldl (fun n txout => u32 (n + GetSigOpCount (scriptPubKey txout) false)) ins (ctx_vout tx).

Definition SCRIPT_VERIFY_P2SH : Z := Z.shiftl 1 0.

Section Inputs.
Context {S : Type} `{!CCoinsView S}.
Implicit Types inputs : CCoinsViewCache S.

Fixpoint p2sh_sigops inputs (vin : list CTxIn) (nSigOps : Z) : option (CCoinsViewCache S * Z) :=
  match vin with
  | [] => Some (inputs, nSigOps)
  | txin :: vin =>
      let '(inputs, coin) := AccessCoin inputs (txin_prevout txin) in
      if IsSpent coin then None
      else p2sh_sigops inputs vin
             (if IsPayToScriptHash (scriptPubKey (coin_out coin))
              then u32 (nSigOps + GetSigOpCount_p2sh (scriptPubKey (coin_out coin)) (txin_scriptSig txin)) else nSigOps)
  end.

Definition GetP2SHSigOpCount inputs (tx : CTx) : option (CCoinsViewCache S * Z) :=
  if IsCoinBase tx || HasZerocoinSpendInputs_tx tx then Some (inputs, 0) else p2sh_sigops inputs (ctx_vin tx) 0.

Definition GetTransactionSigOpCount inputs (tx : CTx) (flags : Z) : option (CCoinsViewCache S * Z) :=
  let nSigOps := GetLegacySigOpCount tx in
  if IsCoinBase tx then Some (inputs, nSigOps)
  else if negb (Z.land flags SCRIPT_VERIFY_P2SH =? 0)
  then '(inputs, n) ← GetP2SHSigOpCount inputs tx; Some (inputs, u32 (nSigOps + n))
  else Some (inputs, nSigOps).

(** ** CheckTxInputs *)
Record TxParams := {
  nMaturityV1 : Z;
  nMaturityV2 : Z;
  nMaturityV2StartHeight : Z;
  nOpGroupNewRequiredConfirmations : Z;
}.

Definition COINBASE_MATURITY (params : TxParams) (contextHeight : Z) : Z :=
  if contextHeight <? nMaturityV2StartHeight params then nMaturityV1 params else nMaturityV2 params.

(** The tests on one coin and on the sum with it. *)
Definition check_input (tx : CTx) (coin : Coin) (nSpendHeight : Z) (params : TxParams) (nValueIn : Z) : option TxReject :=
  let depth := i32 (nSpendHeight - coin_nHeight coin) in
  reject_if (coin_fCoinStake coin && (depth <? COINBASE_MATURITY params nSpendHeight)) bad_txns_premature_spend_of_coinstake
    (reject_if (coin_fCoinBase coin && (depth <? COINBASE_MATURITY params nSpendHeight)) bad_txns_premature_spend_of_coinbase
       (reject_if (IsOutputGroupedAuthority (coin_out coin) && (depth <? nOpGroupNewRequiredConfirmations params))
          bad_txns_premature_spend_of_token_authority
          (or_else
             (if ctx_nType tx =? TRANSACTION_GROUP_CREATION_NFT
              then reject_if (MAX_TX_EXTRA_NFT_PAYLOAD <? Z.of_nat (length (ctx_vExtraPayload tx))) bad_txns_nft_payload_oversize None
              else reject_if (MAX_TX_EXTRA_PAYLOAD <? Z.of_nat (length (ctx_vExtraPayload tx))) bad_txns_payload_oversize None)
             (reject_if (negb (MoneyRange (nValue (coin_out coin))) || negb (MoneyRange (i64 (nValueIn + nValue (coin_out coin)))))
                bad_txns_inputvalues_outofrange None)))).

(** {inputs, the reason or nValueIn} *)
Fixpoint check_inputs_loop inputs (tx : CTx) (vin : list CTxIn) (nSpendHeight : Z) (params : TxParams) (nValueIn : Z) :
    option (CCoinsViewCache S * (TxReject + Z)) :=
  match vin with
  | [] => Some (inputs, inr nValueIn)
  | txin :: vin =>
      let '(inputs, coin) := AccessCoin inputs (txin_prevout txin) in
      if IsSpent coin then None
      else match check_input tx coin nSpendHeight params nValueIn with
           | Some r => Some (inputs, inl r)
           | None => check_inputs_loop inputs tx vin nSpendHeight params (i64 (nValueIn + nValue (coin_out coin)))
           end
  end.

(** {inputs, the reason or txfee} *)
Definition CheckTxInputs inputs (tx : CTx) (nSpendHeight : Z) (params : TxParams) : option (CCoinsViewCache S * (TxReject + Z)) :=
  let '(inputs, have) := HaveInputs_cache inputs tx in
  if negb have then Some (inputs, inl bad_txns_inputs_missingorspent)
  else
    '(inputs, r) ← check_inputs_loop inputs tx (ctx_vin tx) nSpendHeight params 0;
    match r with
    | inl r => Some (inputs, inl r)
    | inr nValueIn =>
        if IsCoinStake tx then Some (inputs, inr 0)
        else
          value_out ← GetValueOut tx;
          if nValueIn <? value_out then Some (inputs, inl bad_txns_in_belowout)
          else
            let txfee_aux := i64 (nValueIn - value_out) in
            if negb (MoneyRange txfee_aux) then Some (inputs, inl bad_txns_fee_outofrange) else Some (inputs, inr txfee_aux)
    end.
End Inputs.
