(* ===== verification/TxVerifyProofs.v ===== *)
(** * No money from nowhere, lock times and signature operations *)

From S2P Require Import Prelude Serialize Params BetTx BetKeys Transaction TxCodec Coins CoinsUndo TokenGroups TokenDesc AddressIndex TxVerify.

(** ** CheckTransaction *)
Lemma reject_if_None b r next : reject_if b r next = None <-> b = false /\ next = None.
Proof. unfold reject_if. destruct b; naive_solver. Qed.

Lemma or_else_None a b : or_else a b = None <-> a = None /\ b = None.
Proof. destruct a; naive_solver. Qed.

Lemma sum_values_nonneg vout : Forall (fun o => 0 <= nValue o) vout -> 0 <= sum_values vout.
Proof. induction 1 as [|o vout Ho HF IH]; cbn; [lia|]. unfold sum_values in IH. lia. Qed.

(** Adding amounts that are in range does not wrap. *)
Lemma add_amounts a b : 0 <= a <= MAX_MONEY -> 0 <= b <= MAX_MONEY -> i64 (a + b) = a + b.
Proof. unfold MAX_MONEY, COIN. intros. apply i64_small. unfold inS. lia. Qed.

Lemma check_outputs_value_ok vout acc :
  0 <= acc <= MAX_MONEY ->
  check_outputs_value vout acc = None <-> Forall (fun o => 0 <= nValue o) vout /\ acc + sum_values vout <= MAX_MONEY.
Proof.
  revert acc. induction vout as [|o vout IH]; intros acc Ha; cbn [check_outputs_value sum_values foldr].
  { rewrite Z.add_0_r. split; [|done]. intros _. split; [constructor|lia]. }
  rewrite !reject_if_None, Z.ltb_ge, Z.ltb_ge, negb_false_iff, MoneyRange_bounds, Forall_cons. fold (sum_values vout). split.
  - intros (H0 & Hm & Hr & Hrest). rewrite add_amounts in * by lia. apply IH in Hrest as [HF Hs]; [|lia]. split; [done|]. lia.
  - intros ([H0 HF] & Hs). pose proof (sum_values_nonneg vout HF). rewrite add_amounts by lia. split; [done|]. split; [lia|]. split; [lia|].
    apply IH; [lia|]. split; [done|lia].
Qed.

Lemma check_duplicates_ok vin seen :
  existsb (fun i => CTxIn_IsZerocoinSpend i || CTxIn_IsZerocoinPublicSpend i) vin = false ->
  check_duplicates vin seen = None <-> NoDup (txin_prevout <$> vin) /\ Forall (fun p => p ∉ seen) (txin_prevout <$> vin).
Proof.
  revert seen. induction vin as [|i vin IH]; intros seen Hz; cbn [check_duplicates fmap list_fmap].
  { split; [|done]. intros _. split; constructor. }
  cbn [existsb] in Hz. apply orb_false_iff in Hz as [Hz1 Hz]. apply orb_false_iff in Hz1 as [Hz1 _].
  rewrite reject_if_None, Hz1, bool_decide_eq_false, IH, NoDup_cons, Forall_cons by done. cbn [negb].
  rewrite !Forall_forall. setoid_rewrite elem_of_union. setoid_rewrite elem_of_singleton. split.
  - intros (Hs & Hnd & HF). split_and!; [|done..|]; [intros Hin; by eapply HF; [|left]|intros p Hp ?; by eapply HF; [|right]].
  - intros ([Hi Hnd] & Hs & HF). split_and!; [done..|]. intros p Hp [->|Hq]; [done|by eapply HF].
Qed.

(** Which transactions without zerocoins pass: they have inputs and outputs
    unless they are quorum commitments, they and their payload are small
    enough, the values of the outputs are not negative and their sum is money
    (which bounds each of them and never wraps), no coin is spent twice, and
    the script of a coinbase has a proper length. *)
Theorem CheckTransaction_ok tx fZerocoinActive :
  HasZerocoinSpendInputs_tx tx = false ->
  CheckTransaction tx fZerocoinActive = None <->
  (ctx_nType tx = TRANSACTION_QUORUM_COMMITMENT \/ ctx_vin tx <> [] /\ ctx_vout tx <> []) /\
  GetSerializeSize tx <= MAX_LEGACY_BLOCK_SIZE /\ Z.of_nat (length (ctx_vExtraPayload tx)) <= MAX_TX_EXTRA_PAYLOAD /\
  Forall (fun o => 0 <= nValue o) (ctx_vout tx) /\ sum_values (ctx_vout tx) <= MAX_MONEY /\
  NoDup (txin_prevout <$> ctx_vin tx) /\ check_coinbase tx fZerocoinActive = None.
Proof.
  intros Hz. unfold CheckTransaction. rewrite !reject_if_None, !or_else_None, !Z.ltb_ge.
  rewrite check_outputs_value_ok by (unfold MAX_MONEY, COIN; lia). rewrite check_duplicates_ok by done. rewrite Z.add_0_l.
  assert (Forall (fun p => p ∉ (∅ : gset COutPoint)) (txin_prevout <$> ctx_vin tx)) as HF
    by (apply Forall_forall; intros; apply not_elem_of_empty).
  destruct (Z.eqb_spec (ctx_nType tx) TRANSACTION_QUORUM_COMMITMENT); cbn [negb andb];
    rewrite ?bool_decide_eq_false; tauto.
Qed.

(** ** Values *)
Definition total (v : gmap COutPoint Coin) : Z := map_fold (fun _ k acc => nValue (coin_out k) + acc) 0 v.

Definition sum_coins (ks : list Coin) : Z := foldr (fun k acc => nValue (coin_out k) + acc) 0 ks.

Lemma total_insert v p k : v !! p = None -> total (<[p := k]> v) = nValue (coin_out k) + total v.
Proof. intros Hp. unfold total. rewrite map_fold_insert_L; [done| |done]. intros. lia. Qed.

Lemma total_delete v p k : v !! p = Some k -> total v = nValue (coin_out k) + total (delete p v).
Proof. intros Hp. rewrite <- (total_insert _ p) by apply lookup_delete_eq. by rewrite insert_delete_id. Qed.

Lemma total_delete_all v ps ks :
  NoDup ps -> Forall2 (fun p k => v !! p = Some k) ps ks ->
  total v = sum_coins ks + total (foldl (fun v p => delete p v) v ps).
Proof.
  intros Hnd HF. revert v HF. revert ks. induction Hnd as [|p ps Hp Hnd IH]; intros ks v HF.
  { by apply Forall2_nil_inv_l in HF as ->. }
  apply Forall2_cons_inv_l in HF as (k & ks' & Hk & HF & ->). cbn [foldl sum_coins foldr]. fold (sum_coins ks').
  rewrite (total_delete v p k Hk), (IH ks' (delete p v)); [lia|]. by apply Forall2_delete.
Qed.

Lemma total_outputs v txid h cb cs i vout :
  outputs_of txid h cb cs i vout ##ₘ v ->
  total (outputs_of txid h cb cs i vout ∪ v) + sum_burned vout = sum_values vout + total v.
Proof.
  revert i. induction vout as [|o vout IH]; intros i Hd; cbn [outputs_of sum_burned sum_values foldr] in *.
  { by rewrite (left_id_L ∅ (∪)), Z.add_0_r. }
  fold (sum_burned vout) (sum_values vout). destruct (IsUnspendable (scriptPubKey o)); [specialize (IH _ Hd); lia|].
  apply map_disjoint_insert_l in Hd as [Hp Hd]. specialize (IH _ Hd). rewrite <- insert_union_l, total_insert.
  - cbn [Coin_of coin_out]. lia.
  - apply lookup_union_None. split; [|done]. apply outputs_of_above. cbn. lia.
Qed.

(** What connecting a transaction does to the money there is. *)
Lemma total_tx_view v tx h ks :
  tx_ok v tx h -> Forall2 (fun p k => v !! p = Some k) (tx_inputs tx) ks ->
  total (tx_view v tx h) + sum_burned (ctx_vout tx) + sum_coins ks = total v + sum_values (ctx_vout tx).
Proof.
  intros (Hnd & _ & _ & Hd) HF. unfold tx_view. pose proof (total_delete_all v _ ks Hnd HF).
  pose proof (total_outputs (foldl (fun v p => delete p v) v (tx_inputs tx)) (ctx_hash tx) h (IsCoinBase tx) (IsCoinStake tx) 0 (ctx_vout tx)) as Ho.
  fold (tx_outputs tx h) in Ho. rewrite (Z.add_comm (total _)) in Ho. rewrite Z.add_comm in Ho. lapply Ho; [lia|].
  apply map_disjoint_spec. intros q k1 k2 H1. rewrite foldl_delete_lookup. case_bool_decide; [done|].
  intros H2. by eapply (map_disjoint_spec (tx_outputs tx h)) in Hd.
Qed.

Lemma GetValueOut_sum tx v : GetValueOut tx = Some v -> v = sum_values (ctx_vout tx) /\ 0 <= v <= MAX_MONEY.
Proof.
  assert (forall vout acc v, 0 <= acc <= MAX_MONEY -> value_out vout acc = Some v -> v = acc + sum_values vout) as H.
  { induction vout as [|o vout IH]; intros acc v0 Ha; cbn [value_out sum_values foldr]; [intros [= ->]; lia|]. fold (sum_values vout).
    destruct (negb _ || negb _) eqn:E; [done|]. apply orb_false_iff in E as [E1 E2]. rewrite negb_false_iff, MoneyRange_bounds in E1, E2.
    rewrite add_amounts in * by lia. intros Hv. apply IH in Hv; lia. }
  unfold GetValueOut. destruct (value_out _ 0) as [v'|] eqn:E; cbn [mbind option_bind]; [|done].
  destruct (MoneyRange v') eqn:Er; [|done]. intros [= ->]. apply MoneyRange_bounds in Er. split; [|done].
  apply H in E; [lia|]. unfold MAX_MONEY, COIN. lia.
Qed.

Section Inputs.
Context {S : Type} `{!CCoinsView S, !CCoinsViewLaws S}.
Implicit Types c : CCoinsViewCache S.

Lemma have_inputs_spec c vin :
  cache_inv c -> cache_inv (have_inputs c vin).1 /\ cache_view (have_inputs c vin).1 = cache_view c /\
  ((have_inputs c vin).2 = true -> Forall (fun p => is_Some (cache_view c !! p)) (txin_prevout <$> vin)).
Proof.
  revert c. induction vin as [|i vin IH]; intros c Hc; cbn [have_inputs]; [by split_and!|].
  destruct (HaveCoin_spec c (txin_prevout i) Hc) as (Hc1 & Hv1 & Hb). destruct (HaveCoin c _) as [c1 []]; cbn [fst snd] in *.
  - destruct (IH c1 Hc1) as (Hc2 & Hv2 & HF). rewrite Hv1 in *. split_and!; [done..|]. intros H. rewrite fmap_cons. constructor; [|by apply HF].
    symmetry in Hb. by apply bool_decide_eq_true in Hb.
  - by split_and!.
Qed.

Lemma check_inputs_loop_spec c tx vin h params acc c' r ks :
  cache_inv c -> 0 <= acc <= MAX_MONEY -> Forall2 (fun p k => cache_view c !! p = Some k) (txin_prevout <$> vin) ks ->
  check_inputs_loop c tx vin h params acc = Some (c', inr r) ->
  cache_inv c' /\ cache_view c' = cache_view c /\ r = acc + sum_coins ks /\ 0 <= r <= MAX_MONEY.
Proof.
  revert c acc ks. induction vin as [|i vin IH]; intros c acc ks Hc Ha HF; cbn [check_inputs_loop].
  { apply Forall2_nil_inv_l in HF as ->. intros [= -> ->]. cbn. split_and!; [done..|lia|lia|lia]. }
  rewrite fmap_cons in HF. apply Forall2_cons_inv_l in HF as (k & ks' & Hk & HF & ->).
  destruct (AccessCoin_spec c (txin_prevout i) Hc) as (Hc1 & Hv1 & Hr). destruct (AccessCoin c _) as [c1 coin]. cbn [fst snd] in *.
  rewrite Hk in Hr. destruct (IsSpent coin); [done|]. injection Hr as ->.
  destruct (check_input tx k h params acc) as [|] eqn:E; [done|]. unfold check_input in E. rewrite !reject_if_None, or_else_None in E.
  destruct E as (_ & _ & _ & _ & E). apply reject_if_None in E as [E _]. apply orb_false_iff in E as [E1 E2].
  rewrite negb_false_iff, MoneyRange_bounds in E1, E2. rewrite add_amounts in * by lia.
  intros H. apply (IH _ _ ks') in H as (? & Hv2 & -> & ?); [|done|lia|by rewrite Hv1]. split; [done|]. split; [by rewrite Hv2|].
  cbn [sum_coins foldr]. fold (sum_coins ks'). split; [lia|done].
Qed.

Lemma Forall_is_Some_values (v : gmap COutPoint Coin) ps :
  Forall (fun p => is_Some (v !! p)) ps -> exists ks, Forall2 (fun p k => v !! p = Some k) ps ks.
Proof.
  induction 1 as [|p ps [k Hk] HF [ks IH]]; [by exists []|]. exists (k :: ks). by constructor.
Qed.

(** C13: No money from nowhere.  An ordinary transaction that passes CheckTransaction
    and CheckTxInputs, and whose outputs are new, can be connected; the fee it
    was found to pay is not negative, and the coins there are afterwards, what
    it burned and its fee are together what there was before.  Checking it
    does not change the coins. *)
Theorem CheckTxInputs_conserves c tx h params fZerocoinActive c1 txfee :
  cache_inv c -> IsCoinBase tx = false -> IsCoinStake tx = false -> HasZerocoinSpendInputs_tx tx = false ->
  tx_outputs tx h ##ₘ cache_view c ->
  CheckTransaction tx fZerocoinActive = None -> CheckTxInputs c tx h params = Some (c1, inr txfee) ->
  cache_view c1 = cache_view c /\ 0 <= txfee <= MAX_MONEY /\
  exists c2 undo, UpdateCoins tx c1 h = Some (c2, undo) /\
    total (cache_view c2) + sum_burned (ctx_vout tx) + txfee = total (cache_view c).
Proof.
  intros Hc Hcb Hcs Hz Hd Hchk. apply CheckTransaction_ok in Hchk as (_ & _ & _ & Hpos & _ & Hnd & _); [|done].
  unfold CheckTxInputs, HaveInputs_cache. rewrite Hcb, Hcs.
  destruct (have_inputs_spec c (ctx_vin tx) Hc) as (Hc0 & Hv0 & Hhave). destruct (have_inputs c (ctx_vin tx)) as [c0 []]; cbn [fst snd negb] in *; [|done].
  destruct (Forall_is_Some_values _ _ (Hhave eq_refl)) as [ks HK].
  destruct (check_inputs_loop c0 tx (ctx_vin tx) h params 0) as [[c' [|nValueIn]]|] eqn:El; cbn [mbind option_bind]; [done| |done].
  apply (check_inputs_loop_spec _ _ _ _ _ _ _ _ ks) in El as (Hc' & Hv' & Hin & Hr); [|done|unfold MAX_MONEY, COIN; lia|by rewrite Hv0].
  destruct (GetValueOut tx) as [vo|] eqn:Eo; cbn [mbind option_bind]; [|done]. apply GetValueOut_sum in Eo as [Hvo Hro].
  destruct (Z.ltb_spec nValueIn vo); [done|]. rewrite i64_small by (unfold MAX_MONEY, COIN in *; unfold inS; lia).
  destruct (MoneyRange (nValueIn - vo)) eqn:Em; cbn [negb]; [|done]. apply MoneyRange_bounds in Em. intros [= -> <-].
  rewrite Hv0 in Hv'. split; [done|]. split; [done|].
  assert (tx_inputs tx = txin_prevout <$> ctx_vin tx) as Hins by (unfold tx_inputs; by rewrite Hcb, Hz).
  assert (tx_ok (cache_view c) tx h) as Hok.
  { split_and!; rewrite ?Hins; [done|by apply Hhave| |done]. eapply Forall_impl; [exact Hpos|]. cbn. lia. }
  destruct (UpdateCoins_spec c1 tx h Hc') as (c2 & undo & Eu & _ & Hv2 & _); [by rewrite Hv'|].
  exists c2, undo. split; [done|]. rewrite Hv2, Hv'. pose proof (total_tx_view (cache_view c) tx h ks Hok) as Ht.
  rewrite Hins in Ht. specialize (Ht HK). lia.
Qed.
End Inputs.

(** ** Lock times *)

(** The lock of one input is over: the sequence number asks for nothing, or the
    median time, or the height, has moved on by as much as it asks for. *)
Definition lock_over (chain : list Z) (nHeight mtp : Z) (e : CTxIn * Z) : Prop :=
  let n := txin_nSequence (e.1) in
  let lock := Z.land n SEQUENCE_LOCKTIME_MASK in
  Z.land n SEQUENCE_LOCKTIME_DISABLE_FLAG <> 0 \/
  if Z.land n SEQUENCE_LOCKTIME_TYPE_FLAG =? 0 then e.2 + lock <= nHeight
  else exists t, ancestor_time chain nHeight (Z.max (e.2 - 1) 0) = Some t /\ t + lock * 512 <= mtp.

Lemma GetMedianTimePast_some chain n :
  (n < length chain)%nat -> exists t, GetMedianTimePast chain n = Some t /\ t ∈ chain.
Proof.
  intros Hn. unfold GetMedianTimePast. set (times := take (n + 1) chain).
  set (window := drop (length times - nMedianTimeSpan) times).
  assert (0 < length times)%nat as Ht by (subst times; rewrite length_take; lia).
  assert (0 < length window)%nat as Hw by (subst window; rewrite length_drop; unfold nMedianTimeSpan; lia).
  pose proof (merge_sort_Permutation (≤) window) as Hp.
  destruct (lookup_lt_is_Some_2 (merge_sort (≤) window) (length window / 2)%nat) as [t Hl].
  { rewrite Hp. apply Nat.div_lt; lia. }
  exists t. split; [done|]. apply list_elem_of_lookup_2 in Hl. rewrite Hp in Hl. apply subseteq_drop in Hl.
  apply elem_of_take in Hl as (i & Hi & _). by eapply list_elem_of_lookup_2.
Qed.

Lemma mask_range n : 0 <= Z.land n SEQUENCE_LOCKTIME_MASK < 2 ^ 16.
Proof. change SEQUENCE_LOCKTIME_MASK with (Z.ones 16). rewrite Z.land_ones by lia. apply Z.mod_pos_bound. lia. Qed.

Lemma sequence_locks_spec chain nHeight mtp vin hs a b :
  0 <= nHeight < 2 ^ 30 -> nHeight < Z.of_nat (length chain) -> Forall (inU 32) chain ->
  length hs = length vin -> Forall (fun h => 0 <= h <= nHeight) hs ->
  exists a' b', sequence_locks chain nHeight vin hs a b = Some (a', b') /\
    (a' < nHeight /\ b' < mtp <-> a < nHeight /\ b < mtp /\ Forall (lock_over chain nHeight mtp) (zip vin hs)).
Proof.
  intros Hn Hc Ht. revert hs a b. induction vin as [|i vin IH]; intros [|h hs] a b Hl HF; try done; cbn [sequence_locks zip zip_with].
  { exists a, b. split; [done|]. rewrite Forall_nil. tauto. }
  apply Forall_cons in HF as [Hh HF]. injection Hl as Hl. pose proof (mask_range (txin_nSequence i)) as Hm.
  destruct (Z.land (txin_nSequence i) SEQUENCE_LOCKTIME_DISABLE_FLAG =? 0) eqn:Ed; cbn [negb].
  2: { destruct (IH hs a b Hl HF) as (a' & b' & E & Hi). exists a', b'. split; [done|]. rewrite Hi, Forall_cons. unfold lock_over at 2. cbn [fst].
       apply Z.eqb_neq in Ed. tauto. }
  apply Z.eqb_eq in Ed. destruct (Z.land (txin_nSequence i) SEQUENCE_LOCKTIME_TYPE_FLAG =? 0) eqn:Et; cbn [negb].
  - edestruct (IH hs) as (a' & b' & E & Hi); [done..|]. eexists a', b'. split; [exact E|]. rewrite Hi, Forall_cons. unfold lock_over at 2. cbn [fst snd].
    rewrite Et. unfold wrapS. rewrite Z.mod_small by (change (2 ^ (32 - 1)) with (2 ^ 31); lia).
    rewrite Z.add_simpl_r, Z.max_lub_lt_iff. intuition lia.
  - assert (i32 (h - 1) = h - 1) as -> by (apply wrapS_small; range).
    assert (exists t, ancestor_time chain nHeight (Z.max (h - 1) 0) = Some t /\ inU 32 t) as (t & Ea & Hr).
    { unfold ancestor_time. rewrite (proj2 (Z.ltb_ge _ _)), (proj2 (Z.ltb_ge _ _)) by lia. cbn [orb].
      destruct (GetMedianTimePast_some chain (Z.to_nat (Z.max (h - 1) 0))) as (t & -> & Hin); [lia|]. exists t. split; [done|].
      rewrite Forall_forall in Ht. by apply Ht. }
    rewrite Ea. cbn [mbind option_bind]. rewrite Z.shiftl_mul_pow2 by (unfold SEQUENCE_LOCKTIME_GRANULARITY; lia).
    change (2 ^ SEQUENCE_LOCKTIME_GRANULARITY) with 512. rewrite i64_small by (unfold inS, inU in *; lia).
    edestruct (IH hs) as (a' & b' & E & Hi); [done..|]. eexists a', b'. split; [exact E|]. rewrite Hi, Forall_cons. unfold lock_over at 2. cbn [fst snd].
    rewrite Et, Ea, Z.max_lub_lt_iff. split.
    + intros (? & [? ?] & ?). split_and!; try done. right. exists t. split; [done|lia].
    + intros (? & ? & [?|(t' & [= <-] & ?)] & ?); [done|]. split_and!; try done. lia.
Qed.

(** Relative lock times (BIP 68).  A transaction of version 2 or more is final
    in a block exactly when the lock of each of its inputs is over: enough
    blocks after the block of the coin, or enough seconds, in steps of 512,
    between the median times before the block of the coin and before this
    one. *)
Theorem SequenceLocks_spec tx flags hs chain nHeight mtp :
  0 < nHeight < 2 ^ 30 -> nHeight < Z.of_nat (length chain) -> Forall (inU 32) chain ->
  length hs = length (ctx_vin tx) -> Forall (fun h => 0 <= h <= nHeight) hs ->
  GetMedianTimePast chain (Z.to_nat (nHeight - 1)) = Some mtp ->
  2 <= u32 (ctx_nVersion tx) -> Z.land flags LOCKTIME_VERIFY_SEQUENCE <> 0 ->
  exists b, SequenceLocks tx flags hs chain nHeight = Some b /\
    (b = true <-> Forall (lock_over chain nHeight mtp) (zip (ctx_vin tx) hs)).
Proof.
  intros Hn Hc Ht Hl HF Hm Hv Hf. unfold SequenceLocks, CalculateSequenceLocks. rewrite (proj2 (Nat.eqb_eq _ _) Hl). cbn [negb].
  rewrite (proj2 (Z.leb_le _ _) Hv), (proj2 (Z.eqb_neq _ _) Hf). cbn [negb andb].
  destruct (sequence_locks_spec chain nHeight mtp (ctx_vin tx) hs (-1) (-1)) as (a & b & -> & Hi); [lia|done..|]. cbn [mbind option_bind].
  unfold EvaluateSequenceLocks. rewrite (proj2 (Z.leb_gt nHeight 0)) by lia. rewrite Hm. cbn [mbind option_bind fst snd]. eexists. split; [done|].
  assert (0 <= mtp) as Hp.
  { destruct (GetMedianTimePast_some chain (Z.to_nat (nHeight - 1))) as (t & E & Hin); [lia|]. rewrite Hm in E. injection E as <-.
    rewrite Forall_forall in Ht. apply Ht in Hin. unfold inU in Hin. lia. }
  rewrite negb_true_iff, orb_false_iff, !Z.leb_gt, Hi. intuition lia.
Qed.

(** ** Signature operations *)
Lemma read_bytes_length n s b s' : read_bytes n s = Some (b, s') -> (length s' <= length s)%nat.
Proof. unfold read_bytes. case_decide; [|done]. intros [= <- <-]. rewrite length_drop. lia. Qed.

Lemma ser_readdata_length n s x s' : ser_readdata n s = Some (x, s') -> (length s' <= length s)%nat.
Proof.
  unfold ser_readdata. destruct (read_bytes n s) as [[b r]|] eqn:E; cbn; [|done]. intros [= <- <-]. by eapply read_bytes_length.
Qed.

(** An instruction takes at least its opcode from the script. *)
Lemma GetScriptOp_shorter pc op d pc' : GetScriptOp pc = Some (op, d, pc') -> (length pc' < length pc)%nat.
Proof.
  destruct pc as [|b pc]; [done|]. cbn [GetScriptOp length]. destruct (b <=? OP_PUSHDATA4); [|intros [= <- <- <-]; lia].
  destruct (if b <? OP_PUSHDATA1 then _ else _) as [[n s]|] eqn:E; cbn [mbind option_bind]; [|done].
  assert (length s <= length pc)%nat as Hs.
  { repeat case_match; try (by eapply ser_readdata_length); by simplify_eq. }
  destruct (read_bytes (Z.to_nat n) s) as [[dd r]|] eqn:Er; cbn [mbind option_bind]; [|done]. intros [= <- <- <-].
  apply read_bytes_length in Er. lia.
Qed.

Lemma count_sigops_fuel f1 f2 acc pc l n :
  (length pc <= f1)%nat -> (length pc <= f2)%nat -> count_sigops f1 acc pc l n = count_sigops f2 acc pc l n.
Proof.
  revert f2 pc l n. induction f1 as [|f1 IH]; intros f2 pc l n H1 H2.
  { destruct pc; [|cbn in H1; lia]. by destruct f2. }
  destruct f2 as [|f2]; [destruct pc; [done|cbn in H2; lia]|]. cbn [count_sigops].
  destruct (GetScriptOp pc) as [[[op d] pc']|] eqn:E; [|done]. apply GetScriptOp_shorter in E. apply IH; lia.
Qed.

Lemma count_sigops_bound fuel acc pc l n :
  0 <= n -> n + 20 * Z.of_nat fuel < 2 ^ 32 -> 0 <= count_sigops fuel acc pc l n <= n + 20 * Z.of_nat fuel.
Proof.
  revert pc l n. induction fuel as [|fuel IH]; intros pc l n Hn Hm; cbn [count_sigops]; [lia|].
  destruct (GetScriptOp pc) as [[[op d] pc']|]; [|lia]. cbv zeta.
  match goal with |- context [count_sigops fuel acc pc' op ?x] => assert (n <= x <= n + 20) as Hx end.
  { destruct (_ || _); [rewrite wrapU_small by range; lia|]. destruct (_ || _); [|lia].
    destruct (acc && (OP_1 <=? l) && (l <=? OP_16)) eqn:E.
    - rewrite !andb_true_iff, !Z.leb_le in E. unfold DecodeOP_N, OP_1, OP_16 in *. rewrite (proj2 (Z.eqb_neq l 0)) by lia. rewrite wrapU_small by (unfold inU; lia). lia.
    - rewrite wrapU_small by (unfold inU, MAX_PUBKEYS_PER_MULTISIG; lia). unfold MAX_PUBKEYS_PER_MULTISIG. lia. }
  match goal with |- context [count_sigops fuel acc pc' op ?x] => specialize (IH pc' op x ltac:(lia) ltac:(lia)) end. lia.
Qed.

(** Counting the signature operations of a script ends with its bytes: any
    number of steps from the length of the script on gives the same count,
    and the count, which never wraps for a script that fits in a block, is at
    most twenty for every byte. *)
Theorem GetSigOpCount_terminates script fAccurate fuel :
  (length script <= fuel)%nat -> Z.of_nat (length script) <= MAX_LEGACY_BLOCK_SIZE ->
  count_sigops fuel fAccurate script OP_INVALIDOPCODE 0 = GetSigOpCount script fAccurate /\
  0 <= GetSigOpCount script fAccurate <= 20 * Z.of_nat (length script).
Proof.
  intros Hf Hl. split; [by apply count_sigops_fuel|]. unfold GetSigOpCount, MAX_LEGACY_BLOCK_SIZE in *.
  pose proof (count_sigops_bound (length script) fAccurate script OP_INVALIDOPCODE 0). lia.
Qed.
