(* ===== verification/Arith256.v ===== *)
(** * 256-bit integers (src/src/arith_uint256.h, src/src/arith_uint256.cpp)

    A base_uint is an array of 32-bit limbs, the lowest one first.  The operators
    are the loops of the code over the limbs; [arith_uint256_refines] shows that
    they compute with the value [eval] modulo 2^256. *)

From S2P Require Import Prelude.

Definition WIDTH : nat := 8.

Fixpoint eval (l : list Z) : Z :=
  match l with [] => 0 | x :: l => x + 2 ^ 32 * eval l end.

Definition limbs_ok (l : list Z) : Prop := Forall (inU 32) l.

Definition limb (l : list Z) (i : nat) : Z := default 0 (l !! i).

(** ** The operators *)
Definition base_uint_zero : list Z := replicate WIDTH 0.

Definition base_uint_of (b : Z) : list Z := u32 b :: u32 (Z.shiftr b 32) :: replicate (WIDTH - 2) 0.

Definition op_not (l : list Z) : list Z := (fun x => u32 (Z.lnot x)) <$> l.

(** ++pn[i], and on to the next limb while the result is 0. *)
Fixpoint op_inc (l : list Z) : list Z :=
  match l with
  | [] => []
  | x :: l => let x := u32 (x + 1) in x :: (if x =? 0 then op_inc l else l)
  end.

Definition op_neg (l : list Z) : list Z := op_inc (op_not l).

(** --pn[i], and on to the next limb while it wrapped around. *)
Fixpoint op_dec (l : list Z) : list Z :=
  match l with
  | [] => []
  | x :: l => let x := u32 (x - 1) in x :: (if x =? 0xffffffff then op_dec l else l)
  end.

Definition op_xor (a b : list Z) : list Z := zip_with Z.lxor a b.
Definition op_and (a b : list Z) : list Z := zip_with Z.land a b.
Definition op_or (a b : list Z) : list Z := zip_with Z.lor a b.

Fixpoint add_carry (carry : Z) (a b : list Z) : list Z :=
  match a, b with
  | x :: a, y :: b => let n := u64 (carry + x + y) in Z.land n 0xffffffff :: add_carry (Z.shiftr n 32) a b
  | _, _ => a
  end.

Definition op_add (a b : list Z) : list Z := add_carry 0 a b.
Definition op_sub (a b : list Z) : list Z := op_add a (op_neg b).

Fixpoint mul32_carry (carry b32 : Z) (l : list Z) : list Z :=
  match l with
  | [] => []
  | x :: l => let n := u64 (carry + u64 (b32 * x)) in Z.land n 0xffffffff :: mul32_carry (Z.shiftr n 32) b32 l
  end.

Definition op_mul32 (l : list Z) (b32 : Z) : list Z := mul32_carry 0 b32 l.

(** One row of the product: [a] is the part of the result from limb j on, so that
    its end is the bound i + j < WIDTH. *)
Fixpoint mul_row (carry x : Z) (a b : list Z) : list Z :=
  match a, b with
  | y :: a, z :: b => let n := u64 (carry + y + u64 (x * z)) in Z.land n 0xffffffff :: mul_row (Z.shiftr n 32) x a b
  | _, _ => a
  end.

Fixpoint mul_rows (pn a b : list Z) : list Z :=
  match pn with
  | [] => a
  | x :: pn =>
      match mul_row 0 x a b with
      | [] => []
      | y :: a => y :: mul_rows pn a b
      end
  end.

Definition op_mul (a b : list Z) : list Z := mul_rows a (replicate (length a) 0) b.

(** What the loop of <<= puts in limb m: the limb k below it, shifted, and the
    bits that leave the limb below that one. *)
Definition op_shl (l : list Z) (shift : Z) : list Z :=
  let k := Z.to_nat (shift `div` 32) in
  let s := shift `mod` 32 in
  (fun m => Z.lor (if (k <=? m)%nat then u32 (Z.shiftl (limb l (m - k)) s) else 0)
                  (if (k + 1 <=? m)%nat && negb (s =? 0) then Z.shiftr (limb l (m - k - 1)) (32 - s) else 0)) <$> seq 0 (length l).

(** The same for >>=. *)
Definition op_shr (l : list Z) (shift : Z) : list Z :=
  let k := Z.to_nat (shift `div` 32) in
  let s := shift `mod` 32 in
  (fun m => Z.lor (if (m + k <? length l)%nat then Z.shiftr (limb l (m + k)) s else 0)
                  (if (m + k + 1 <? length l)%nat && negb (s =? 0) then u32 (Z.shiftl (limb l (m + k + 1)) (32 - s)) else 0)) <$> seq 0 (length l).

(** From the highest limb down. *)
Fixpoint compare_from (ra rb : list Z) : Z :=
  match ra, rb with
  | x :: ra, y :: rb => if x <? y then -1 else if y <? x then 1 else compare_from ra rb
  | _, _ => 0
  end.

Definition CompareTo (a b : list Z) : Z := compare_from (reverse a) (reverse b).

Definition EqualTo (l : list Z) (b : Z) : bool :=
  forallb (fun x => x =? 0) (drop 2 l) && (limb l 1 =? Z.shiftr b 32) && (limb l 0 =? Z.land b 0xffffffff).

(** The highest bit that is set, from bit [n] down; bit 0 needs no test. *)
Fixpoint find_bit (n : nat) (x : Z) : Z :=
  match n with
  | O => 0
  | S n' => if negb (Z.land x (Z.shiftl 1 (Z.of_nat n)) =? 0) then Z.of_nat n else find_bit n' x
  end.

Fixpoint bits_from (rl : list Z) : Z :=
  match rl with
  | [] => 0
  | x :: rl => if negb (x =? 0) then 32 * Z.of_nat (length rl) + find_bit 31 x + 1 else bits_from rl
  end.

Definition bits (l : list Z) : Z := bits_from (reverse l).

(** pn[shift / 32] |= 1 << (shift & 31) *)
Definition set_bit (q : list Z) (shift : nat) : list Z :=
  alter (fun x => Z.lor x (u32 (Z.shiftl 1 (Z.of_nat shift `mod` 32)))) (shift / 32)%nat q.

(** The loop of /=, from a shift down to 0. *)
Fixpoint div_loop (shift : nat) (num div q : list Z) : list Z :=
  let '(num, q) := if 0 <=? CompareTo num div then (op_sub num div, set_bit q shift) else (num, q) in
  match shift with
  | O => q
  | S shift => div_loop shift num (op_shr div 1) q
  end.

(** [None] is the exception for a division by zero. *)
Definition op_div (a b : list Z) : option (list Z) :=
  let zero := replicate (length a) 0 in
  let num_bits := bits a in
  let div_bits := bits b in
  if div_bits =? 0 then None
  else if num_bits <? div_bits then Some zero
  else
    let shift := num_bits - div_bits in
    Some (div_loop (Z.to_nat shift) a (op_shl b shift) zero).

Definition GetLow64 (l : list Z) : Z := Z.lor (limb l 0) (u64 (Z.shiftl (limb l 1) 32)).

(** ** The compact form: a byte for the size, a sign bit and 23 bits of mantissa *)

(** The value and the flags pfNegative and pfOverflow. *)
Definition SetCompact (nCompact : Z) : list Z * bool * bool :=
  let nSize := Z.shiftr nCompact 24 in
  let nWord := Z.land nCompact 0x007fffff in
  let '(nWord, bn) :=
    if nSize <=? 3 then let w := Z.shiftr nWord (8 * (3 - nSize)) in (w, base_uint_of w)
    else (nWord, op_shl (base_uint_of nWord) (8 * (nSize - 3))) in
  (bn,
   negb (nWord =? 0) && negb (Z.land nCompact 0x00800000 =? 0),
   negb (nWord =? 0) && ((34 <? nSize) || ((0xff <? nWord) && (33 <? nSize)) || ((0xffff <? nWord) && (32 <? nSize)))).

(** [None] is a failed assertion. *)
Definition GetCompact (l : list Z) (fNegative : bool) : option Z :=
  let nSize := (bits l + 7) `div` 8 in
  let nCompact :=
    if nSize <=? 3 then u32 (u64 (Z.shiftl (GetLow64 l) (8 * (3 - nSize))))
    else u32 (GetLow64 (op_shr l (8 * (nSize - 3)))) in
  let '(nCompact, nSize) :=
    if negb (Z.land nCompact 0x00800000 =? 0) then (Z.shiftr nCompact 8, nSize + 1) else (nCompact, nSize) in
  if negb (Z.land nCompact (u32 (Z.lnot 0x007fffff)) =? 0) then None
  else if negb (nSize <? 256) then None
  else
    let nCompact := Z.lor nCompact (u32 (Z.shiftl nSize 24)) in
    Some (Z.lor nCompact (if fNegative && negb (Z.land nCompact 0x007fffff =? 0) then 0x00800000 else 0)).

(** ** Values *)
Lemma eval_bounds l : limbs_ok l -> 0 <= eval l < 2 ^ (32 * Z.of_nat (length l)).
Proof.
  induction 1 as [|x l Hx HF IH]; [done|]. cbn [eval length]. unfold inU in Hx.
  replace (32 * Z.of_nat (S (length l))) with (32 + 32 * Z.of_nat (length l)) by lia. rewrite Z.pow_add_r by lia. lia.
Qed.

Lemma eval_replicate n : eval (replicate n 0) = 0.
Proof. induction n as [|n IH]; [done|]. cbn [replicate eval]. rewrite IH. lia. Qed.

Lemma eval_app a b : eval (a ++ b) = eval a + 2 ^ (32 * Z.of_nat (length a)) * eval b.
Proof.
  induction a as [|x a IH]; [cbn [app eval length]; lia|]. cbn [app eval length]. rewrite IH.
  replace (32 * Z.of_nat (S (length a))) with (32 + 32 * Z.of_nat (length a)) by lia. rewrite Z.pow_add_r by lia. lia.
Qed.

Lemma land_mask32 n : Z.land n 0xffffffff = n `mod` 2 ^ 32.
Proof. change 0xffffffff with (Z.ones 32). by rewrite Z.land_ones by lia. Qed.

(** The limb and the carry of a sum. *)
Lemma split_carry n : Z.land n 0xffffffff + 2 ^ 32 * Z.shiftr n 32 = n /\ inU 32 (Z.land n 0xffffffff).
Proof.
  rewrite land_mask32, Z.shiftr_div_pow2 by lia. split; [pose proof (Z.div_mod n (2 ^ 32)); lia|].
  unfold inU. apply Z.mod_pos_bound. lia.
Qed.

(** Two values that agree modulo the width, both in range. *)
Lemma mod_unique n x y w : 0 <= x < 2 ^ w -> x = y + 2 ^ w * n -> x = y `mod` 2 ^ w.
Proof.
  intros Hx ->. rewrite <- (Z.mod_small _ _ Hx). rewrite Z.mul_comm. apply Z_mod_plus_full.
Qed.

Lemma mod_cons r x v k :
  inU 32 x -> r = v `mod` 2 ^ (32 * Z.of_nat k) -> x + 2 ^ 32 * r = (x + 2 ^ 32 * v) `mod` 2 ^ (32 + 32 * Z.of_nat k).
Proof.
  intros Hx ->. unfold inU in Hx. set (w := 32 * Z.of_nat k). assert (0 < 2 ^ w) by (apply Z.pow_pos_nonneg; lia).
  rewrite Z.pow_add_r by lia. rewrite Z.rem_mul_r by lia. rewrite (Z.mul_comm (2 ^ 32) v), Z_mod_plus_full, (Z.mod_small x) by lia.
  rewrite Z.div_add by lia. rewrite (Z.div_small x) by lia. by rewrite Z.add_0_l.
Qed.

Lemma width_S n : 32 * Z.of_nat (S n) = 32 + 32 * Z.of_nat n.
Proof. lia. Qed.

(** *** Sums *)
Lemma add_carry_spec carry a b :
  0 <= carry <= 1 -> limbs_ok a -> limbs_ok b -> length a = length b ->
  limbs_ok (add_carry carry a b) /\ length (add_carry carry a b) = length a /\
  eval (add_carry carry a b) = (carry + eval a + eval b) `mod` 2 ^ (32 * Z.of_nat (length a)).
Proof.
  intros Hc Ha. revert carry b Hc. induction Ha as [|x a Hx Ha IH]; intros carry [|y b] Hc Hb Hl; try done.
  { split; [constructor|]. split; [done|]. cbn [add_carry eval length Z.of_nat]. by rewrite Z.mul_0_r, Z.pow_0_r, Z.mod_1_r. }
  apply Forall_cons in Hb as [Hy Hb]. injection Hl as Hl. cbn [add_carry]. unfold inU in Hx, Hy. cbv zeta.
  rewrite (wrapU_small 64) by (unfold inU; lia). destruct (split_carry (carry + x + y)) as [Hs Hr].
  set (n := carry + x + y) in *. assert (0 <= Z.shiftr n 32 <= 1) as Hc'.
  { rewrite Z.shiftr_div_pow2 by lia. split; [apply Z.div_pos; subst n; lia|]. apply Z.lt_succ_r. apply Z.div_lt_upper_bound; subst n; lia. }
  destruct (IH (Z.shiftr n 32) b Hc' Hb Hl) as (Ho & Hlen & He). split; [by constructor|]. split; [cbn [length]; by rewrite Hlen|].
  cbn [eval length]. rewrite width_S. rewrite (mod_cons _ _ _ _ Hr He). f_equal. lia.
Qed.

Lemma op_not_spec l :
  limbs_ok l -> limbs_ok (op_not l) /\ length (op_not l) = length l /\ eval (op_not l) = 2 ^ (32 * Z.of_nat (length l)) - 1 - eval l.
Proof.
  induction 1 as [|x l Hx HF (IH1 & IH2 & IH3)]; [split; [constructor|]; by split|]. unfold op_not in *. rewrite fmap_cons. cbn [eval length].
  assert (u32 (Z.lnot x) = 2 ^ 32 - 1 - x) as E.
  { unfold Z.lnot, wrapU, inU in *. replace (Z.pred (- x)) with (2 ^ 32 - 1 - x + (-1) * 2 ^ 32) by lia.
    rewrite Z_mod_plus_full, Z.mod_small by lia. done. }
  split; [constructor; [rewrite E; unfold inU in *; lia|done]|]. split; [by rewrite IH2|].
  rewrite E, IH3, width_S, Z.pow_add_r by lia. lia.
Qed.

Lemma op_inc_spec l :
  limbs_ok l -> limbs_ok (op_inc l) /\ length (op_inc l) = length l /\ eval (op_inc l) = (eval l + 1) `mod` 2 ^ (32 * Z.of_nat (length l)).
Proof.
  induction 1 as [|x l Hx HF (IH1 & IH2 & IH3)].
  { split; [constructor|]. split; [done|]. cbn [op_inc eval length Z.of_nat]. by rewrite Z.mul_0_r, Z.pow_0_r, Z.mod_1_r. }
  cbn [op_inc]. cbv zeta. pose proof (eval_bounds l HF) as Hb. unfold inU in Hx. destruct (Z.eq_dec (x + 1) (2 ^ 32)) as [E|E].
  - rewrite E. change (u32 (2 ^ 32)) with 0. cbn [Z.eqb]. split; [by constructor|]. split; [cbn [length]; by rewrite IH2|].
    cbn [eval length]. rewrite width_S, (mod_cons _ 0 _ _ ltac:(unfold inU; lia) IH3). f_equal. lia.
  - rewrite wrapU_small by (unfold inU; lia). rewrite (proj2 (Z.eqb_neq (x + 1) 0)) by lia.
    split; [constructor; [unfold inU; lia|done]|]. split; [done|]. cbn [eval length]. rewrite width_S.
    rewrite Z.pow_add_r by lia. rewrite Z.mod_small by nia. lia.
Qed.

Lemma op_neg_spec l :
  limbs_ok l -> limbs_ok (op_neg l) /\ length (op_neg l) = length l /\ eval (op_neg l) = (- eval l) `mod` 2 ^ (32 * Z.of_nat (length l)).
Proof.
  intros Hl. destruct (op_not_spec l Hl) as (Ho & Hn & He). destruct (op_inc_spec _ Ho) as (Ho' & Hn' & He').
  unfold op_neg. split; [done|]. split; [by rewrite Hn'|]. rewrite He', He, Hn. set (w := 32 * Z.of_nat (length l)).
  replace (2 ^ w - 1 - eval l + 1) with (- eval l + 1 * 2 ^ w) by lia. apply Z_mod_plus_full.
Qed.

Lemma op_sub_spec a b :
  limbs_ok a -> limbs_ok b -> length a = length b ->
  limbs_ok (op_sub a b) /\ length (op_sub a b) = length a /\ eval (op_sub a b) = (eval a - eval b) `mod` 2 ^ (32 * Z.of_nat (length a)).
Proof.
  intros Ha Hb Hl. destruct (op_neg_spec b Hb) as (Ho & Hn & He). unfold op_sub, op_add.
  destruct (add_carry_spec 0 a (op_neg b)) as (? & ? & ->); [lia|done|done|by rewrite Hn|]. split; [done|]. split; [done|].
  rewrite Z.add_0_l, He, <- Hl, Z.add_mod_idemp_r by (apply Z.pow_nonzero; lia). done.
Qed.

(** *** Products *)
Lemma mul32_carry_spec carry b32 l :
  inU 32 carry -> inU 32 b32 -> limbs_ok l ->
  limbs_ok (mul32_carry carry b32 l) /\ length (mul32_carry carry b32 l) = length l /\
  eval (mul32_carry carry b32 l) = (carry + b32 * eval l) `mod` 2 ^ (32 * Z.of_nat (length l)).
Proof.
  intros Hc Hb Hl. revert carry Hc. induction Hl as [|x l Hx Hl IH]; intros carry Hc.
  { split; [constructor|]. split; [done|]. cbn [mul32_carry eval length Z.of_nat]. by rewrite Z.mul_0_r, Z.mul_0_r, Z.pow_0_r, Z.mod_1_r. }
  cbn [mul32_carry]. cbv zeta. unfold inU in Hx, Hb, Hc. rewrite (wrapU_small 64 (b32 * x)) by (unfold inU; nia). rewrite (wrapU_small 64) by (unfold inU; nia).
  destruct (split_carry (carry + b32 * x)) as [Hs Hr]. set (n := carry + b32 * x) in *.
  assert (inU 32 (Z.shiftr n 32)) as Hc'.
  { rewrite Z.shiftr_div_pow2 by lia. unfold inU. split; [apply Z.div_pos; subst n; nia|]. apply Z.div_lt_upper_bound; subst n; nia. }
  destruct (IH _ Hc') as (Ho & Hn & He). split; [by constructor|]. split; [cbn [length]; by rewrite Hn|].
  cbn [eval length]. rewrite width_S. rewrite (mod_cons _ _ _ _ Hr He). f_equal. subst n. nia.
Qed.

Lemma mul_row_spec carry x a b :
  inU 32 carry -> inU 32 x -> limbs_ok a -> limbs_ok b -> (length a <= length b)%nat ->
  limbs_ok (mul_row carry x a b) /\ length (mul_row carry x a b) = length a /\
  eval (mul_row carry x a b) = (carry + eval a + x * eval b) `mod` 2 ^ (32 * Z.of_nat (length a)).
Proof.
  intros Hc Hx Ha. revert carry b Hc. induction Ha as [|y a Hy Ha IH]; intros carry b Hc Hb Hl.
  { assert (mul_row carry x [] b = []) as -> by (by destruct b). split; [constructor|]. split; [done|].
    cbn [eval length Z.of_nat]. by rewrite Z.mul_0_r, Z.pow_0_r, Z.mod_1_r. }
  destruct b as [|z b]; [cbn in Hl; lia|]. apply Forall_cons in Hb as [Hz Hb]. cbn [mul_row]. cbv zeta. unfold inU in Hx, Hy, Hz, Hc.
  rewrite (wrapU_small 64 (x * z)) by (unfold inU; nia). rewrite (wrapU_small 64) by (unfold inU; nia).
  destruct (split_carry (carry + y + x * z)) as [Hs Hr]. set (n := carry + y + x * z) in *.
  assert (inU 32 (Z.shiftr n 32)) as Hc'.
  { rewrite Z.shiftr_div_pow2 by lia. unfold inU. split; [apply Z.div_pos; subst n; nia|]. apply Z.div_lt_upper_bound; subst n; nia. }
  destruct (IH _ b Hc' Hb) as (Ho & Hn & He); [cbn in Hl; lia|]. split; [by constructor|]. split; [cbn [length]; by rewrite Hn|].
  cbn [eval length]. rewrite width_S. rewrite (mod_cons _ _ _ _ Hr He). f_equal. subst n. nia.
Qed.

Lemma mul_rows_spec pn a b :
  limbs_ok pn -> limbs_ok a -> limbs_ok b -> (length a <= length b)%nat -> (length pn <= length a)%nat ->
  limbs_ok (mul_rows pn a b) /\ length (mul_rows pn a b) = length a /\
  eval (mul_rows pn a b) = (eval a + eval pn * eval b) `mod` 2 ^ (32 * Z.of_nat (length a)).
Proof.
  intros Hp. revert a. induction Hp as [|x pn Hx Hp IH]; intros a Ha Hb Hab Hpa; cbn [mul_rows].
  { split; [done|]. split; [done|]. cbn [eval]. rewrite Z.mul_0_l, Z.add_0_r, Z.mod_small; [done|by apply eval_bounds]. }
  destruct (mul_row_spec 0 x a b) as (Ho & Hn & He); [unfold inU; lia|done..|]. destruct (mul_row 0 x a b) as [|y a'].
  { cbn in Hn, Hpa. lia. }
  apply Forall_cons in Ho as [Hy Ha']. cbn [length] in *.
  destruct (IH a') as (Ho' & Hn' & He'); [done|done|lia|lia|]. split; [by constructor|]. split; [by rewrite Hn'|]. cbn [eval].
  rewrite <- Hn in *. rewrite width_S in *. rewrite (mod_cons _ _ _ _ Hy He').
  cbn [eval] in He. rewrite Z.add_0_l in He. replace (y + 2 ^ 32 * (eval a' + eval pn * eval b)) with (y + 2 ^ 32 * eval a' + 2 ^ 32 * (eval pn * eval b)) by lia.
  rewrite He, Z.add_mod_idemp_l by (apply Z.pow_nonzero; lia). f_equal. lia.
Qed.

Lemma op_mul_spec a b :
  limbs_ok a -> limbs_ok b -> length a = length b ->
  limbs_ok (op_mul a b) /\ length (op_mul a b) = length a /\ eval (op_mul a b) = (eval a * eval b) `mod` 2 ^ (32 * Z.of_nat (length a)).
Proof.
  intros Ha Hb Hl. unfold op_mul. destruct (mul_rows_spec a (replicate (length a) 0) b) as (Ho & Hn & He).
  - done.
  - apply Forall_replicate. unfold inU. lia.
  - done.
  - rewrite length_replicate. lia.
  - by rewrite length_replicate.
  - rewrite length_replicate in *. rewrite eval_replicate, Z.add_0_l in He. done.
Qed.

(** *** Shifts *)
Lemma limb_inU l i : limbs_ok l -> inU 32 (limb l i).
Proof.
  intros Hl. unfold limb. destruct (l !! i) as [x|] eqn:E; cbn; [|unfold inU; lia]. by eapply Forall_lookup_1 in Hl.
Qed.

Lemma testbit_high x i : inU 32 x -> 32 <= i -> Z.testbit x i = false.
Proof.
  unfold inU. intros Hx Hi. destruct (Z.eq_dec x 0) as [->|]; [apply Z.bits_0|]. apply Z.bits_above_log2; [lia|].
  eapply Z.lt_le_trans; [|exact Hi]. apply Z.log2_lt_pow2; lia.
Qed.

Lemma eval_testbit l i : limbs_ok l -> 0 <= i -> Z.testbit (eval l) i = Z.testbit (limb l (Z.to_nat (i `div` 32))) (i `mod` 32).
Proof.
  intros Hl. revert i. induction Hl as [|x l Hx Hl IH]; intros i Hi; [cbn [eval]; unfold limb; rewrite lookup_nil; cbn; by rewrite !Z.bits_0|].
  cbn [eval]. unfold inU in Hx. destruct (Z_lt_le_dec i 32) as [Hlt|Hge].
  - rewrite Z.div_small, Z.mod_small by lia. cbn [Z.to_nat]. change (limb (x :: l) 0) with x.
    rewrite <- (Z.mod_pow2_bits_low (x + 2 ^ 32 * eval l) 32 i) by lia. rewrite Z.mul_comm, Z_mod_plus_full, Z.mod_small by lia. done.
  - replace i with (i - 32 + 32) at 1 by lia. rewrite <- Z.div_pow2_bits by lia. rewrite Z.mul_comm, Z.div_add, Z.div_small, Z.add_0_l by lia.
    rewrite IH by lia. replace (i - 32) with (i + (-1) * 32) by lia. rewrite Z.div_add, Z_mod_plus_full by lia.
    replace (Z.to_nat (i `div` 32)) with (S (Z.to_nat (i `div` 32 + -1))); [done|]. pose proof (Z.div_le_lower_bound i 32 1). lia.
Qed.

Lemma lor_inU a b : inU 32 a -> inU 32 b -> inU 32 (Z.lor a b).
Proof.
  intros Ha Hb. assert (0 <= Z.lor a b) as H0 by (unfold inU in *; apply Z.lor_nonneg; lia). split; [done|].
  destruct (Z.eq_dec (Z.lor a b) 0) as [->|]; [lia|]. apply Z.log2_lt_pow2; [lia|]. unfold inU in *. rewrite Z.log2_lor by lia.
  apply Z.max_lub_lt; (destruct (Z_le_gt_dec a 0), (Z_le_gt_dec b 0)); try (rewrite Z.log2_nonpos by lia; lia); apply Z.log2_lt_pow2; lia.
Qed.

Lemma limb_fmap_seq f n m : limb (f <$> seq 0 n) m = if (m <? n)%nat then f m else 0.
Proof.
  unfold limb. rewrite list_lookup_fmap. destruct (Nat.ltb_spec m n); [by rewrite lookup_seq_lt|by rewrite lookup_seq_ge].
Qed.

Lemma limbs_ok_fmap f (l : list nat) : (forall m, inU 32 (f m)) -> limbs_ok (f <$> l).
Proof. intros Hf. apply Forall_fmap, Forall_forall. intros m _. apply Hf. Qed.

Lemma shiftr_inU x n : inU 32 x -> 0 <= n -> inU 32 (Z.shiftr x n).
Proof.
  unfold inU. intros Hx Hn. rewrite Z.shiftr_div_pow2 by lia. assert (0 < 2 ^ n) by (apply Z.pow_pos_nonneg; lia).
  split; [apply Z.div_pos; lia|]. apply Z.div_lt_upper_bound; nia.
Qed.

Lemma inU_0 : inU 32 0.
Proof. unfold inU. lia. Qed.

Lemma op_shl_spec l shift :
  limbs_ok l -> 0 <= shift ->
  limbs_ok (op_shl l shift) /\ length (op_shl l shift) = length l /\
  eval (op_shl l shift) = (eval l * 2 ^ shift) `mod` 2 ^ (32 * Z.of_nat (length l)).
Proof.
  intros Hl Hs. assert (0 <= shift `mod` 32 < 32) as Hm by (apply Z.mod_pos_bound; lia).
  assert (0 <= shift `div` 32) as Hk by (apply Z.div_pos; lia). pose proof (Z.div_mod shift 32 ltac:(lia)) as Hdm.
  assert (limbs_ok (op_shl l shift)) as Hok.
  { apply limbs_ok_fmap. intros m. apply lor_inU; [destruct (_ <=? _)%nat; [apply wrapU_range; lia|apply inU_0]|].
    destruct (_ && _); [apply shiftr_inU; [by apply limb_inU|lia]|apply inU_0]. }
  split; [done|]. split; [unfold op_shl; by rewrite length_fmap, length_seq|].
  apply Z.bits_inj'. intros i Hi. rewrite eval_testbit by done. unfold op_shl. rewrite limb_fmap_seq.
  pose proof (Z.div_mod i 32 ltac:(lia)) as Hdi. assert (0 <= i `mod` 32 < 32) as Hr by (apply Z.mod_pos_bound; lia).
  assert (0 <= i `div` 32) as Hq by (apply Z.div_pos; lia).
  destruct (Nat.ltb_spec (Z.to_nat (i `div` 32)) (length l)) as [Hlt|Hge].
  2: { rewrite Z.bits_0, Z.mod_pow2_bits_high by lia. done. }
  rewrite Z.mod_pow2_bits_low by lia. rewrite Z.mul_pow2_bits by lia. rewrite Z.lor_spec.
  set (k := Z.to_nat (shift `div` 32)). set (s := shift `mod` 32) in *. set (m := Z.to_nat (i `div` 32)) in *. set (r := i `mod` 32) in *.
  destruct (Z_lt_le_dec (i - shift) 0) as [Hneg|Hnn].
  { rewrite (Z.testbit_neg_r _ (i - shift)) by lia. apply orb_false_iff. split.
    - destruct (Nat.leb_spec k m); [|apply Z.bits_0]. unfold wrapU. rewrite Z.mod_pow2_bits_low, Z.shiftl_spec by lia. apply Z.testbit_neg_r. lia.
    - destruct (Nat.leb_spec (k + 1) m); cbn [andb]; [lia|apply Z.bits_0]. }
  rewrite eval_testbit by done. destruct (Z_lt_le_dec r s) as [Hrs|Hrs].
  - replace (i - shift) with ((r + 32 - s) + (Z.of_nat m - Z.of_nat k - 1) * 32) by lia.
    rewrite Z.div_add, Z_mod_plus_full, Z.div_small, Z.mod_small by lia. rewrite (proj2 (Nat.leb_le (k + 1) m)) by lia.
    rewrite (proj2 (Z.eqb_neq s 0)) by lia. cbn [negb andb]. rewrite Z.shiftr_spec by lia.
    replace (Z.to_nat (0 + (Z.of_nat m - Z.of_nat k - 1))) with (m - k - 1)%nat by lia. replace (r + (32 - s)) with (r + 32 - s) by lia.
    replace (Z.testbit (if (k <=? m)%nat then u32 (Z.shiftl (limb l (m - k)) s) else 0) r) with false; [done|].
    destruct (Nat.leb_spec k m); [|by rewrite Z.bits_0]. unfold wrapU. rewrite Z.mod_pow2_bits_low, Z.shiftl_spec by lia. symmetry. apply Z.testbit_neg_r. lia.
  - replace (i - shift) with ((r - s) + (Z.of_nat m - Z.of_nat k) * 32) by lia.
    rewrite Z.div_add, Z_mod_plus_full, Z.div_small, Z.mod_small by lia. rewrite (proj2 (Nat.leb_le k m)) by lia.
    replace (Z.to_nat (0 + (Z.of_nat m - Z.of_nat k))) with (m - k)%nat by lia.
    unfold wrapU. rewrite Z.mod_pow2_bits_low, Z.shiftl_spec by lia.
    match goal with |- _ || ?b = _ => replace b with false end; [by rewrite orb_false_r|].
    destruct (_ && _); [|by rewrite Z.bits_0]. rewrite Z.shiftr_spec by lia. symmetry. apply testbit_high; [by apply limb_inU|lia].
Qed.

Lemma op_shr_spec l shift :
  limbs_ok l -> 0 <= shift ->
  limbs_ok (op_shr l shift) /\ length (op_shr l shift) = length l /\ eval (op_shr l shift) = eval l `div` 2 ^ shift.
Proof.
  intros Hl Hs. assert (0 <= shift `mod` 32 < 32) as Hm by (apply Z.mod_pos_bound; lia).
  assert (0 <= shift `div` 32) as Hk by (apply Z.div_pos; lia). pose proof (Z.div_mod shift 32 ltac:(lia)) as Hdm.
  assert (limbs_ok (op_shr l shift)) as Hok.
  { apply limbs_ok_fmap. intros m. apply lor_inU; [destruct (_ <? _)%nat; [apply shiftr_inU; [by apply limb_inU|lia]|apply inU_0]|].
    destruct (_ && _); [apply wrapU_range; lia|apply inU_0]. }
  split; [done|]. split; [unfold op_shr; by rewrite length_fmap, length_seq|].
  apply Z.bits_inj'. intros i Hi. rewrite Z.div_pow2_bits by lia. rewrite !eval_testbit by (done || lia). unfold op_shr. rewrite limb_fmap_seq.
  pose proof (Z.div_mod i 32 ltac:(lia)) as Hdi. assert (0 <= i `mod` 32 < 32) as Hr by (apply Z.mod_pos_bound; lia).
  assert (0 <= i `div` 32) as Hq by (apply Z.div_pos; lia).
  set (k := Z.to_nat (shift `div` 32)). set (s := shift `mod` 32) in *. set (m := Z.to_nat (i `div` 32)) in *. set (r := i `mod` 32) in *.
  assert (forall n, (length l <= n)%nat -> limb l n = 0) as Hout by (intros n Hn; unfold limb; by rewrite lookup_ge_None_2).
  assert (forall n, (if (n <? length l)%nat then limb l n else 0) = limb l n) as Hin.
  { intros n. destruct (Nat.ltb_spec n (length l)); [done|]. by rewrite Hout. }
  assert ((if (m <? length l)%nat then
      Z.lor (if (m + k <? length l)%nat then Z.shiftr (limb l (m + k)) s else 0)
            (if (m + k + 1 <? length l)%nat && negb (s =? 0) then u32 (Z.shiftl (limb l (m + k + 1)) (32 - s)) else 0) else 0) =
      Z.lor (Z.shiftr (limb l (m + k)) s) (if negb (s =? 0) then u32 (Z.shiftl (limb l (m + k + 1)) (32 - s)) else 0)) as ->.
  { destruct (Nat.ltb_spec m (length l)), (Nat.ltb_spec (m + k) (length l)), (Nat.ltb_spec (m + k + 1) (length l)); try lia; cbn [andb];
      rewrite ?(Hout (m + k)%nat), ?(Hout (m + k + 1)%nat) by lia; rewrite ?Z.shiftr_0_l, ?Z.shiftl_0_l; change (u32 0) with 0; by destruct (negb _). }
  rewrite Z.lor_spec, Z.shiftr_spec by lia. destruct (Z_lt_le_dec (r + s) 32) as [Hrs|Hrs].
  - replace (i + shift) with ((r + s) + (Z.of_nat m + Z.of_nat k) * 32) by lia.
    rewrite Z.div_add, Z_mod_plus_full, Z.div_small, Z.mod_small by lia.
    replace (Z.to_nat (0 + (Z.of_nat m + Z.of_nat k))) with (m + k)%nat by lia.
    match goal with |- _ || ?b = _ => replace b with false end; [by rewrite orb_false_r|].
    destruct (Z.eqb_spec s 0); cbn [negb]; [by rewrite Z.bits_0|]. unfold wrapU. rewrite Z.mod_pow2_bits_low, Z.shiftl_spec by lia.
    symmetry. apply Z.testbit_neg_r. lia.
  - replace (i + shift) with ((r + s - 32) + (Z.of_nat m + Z.of_nat k + 1) * 32) by lia.
    rewrite Z.div_add, Z_mod_plus_full, Z.div_small, Z.mod_small by lia.
    replace (Z.to_nat (0 + (Z.of_nat m + Z.of_nat k + 1))) with (m + k + 1)%nat by lia.
    rewrite (testbit_high (limb l (m + k)) (r + s)) by (try apply limb_inU; done || lia). cbn [orb].
    rewrite (proj2 (Z.eqb_neq s 0)) by lia. cbn [negb]. unfold wrapU. rewrite Z.mod_pow2_bits_low, Z.shiftl_spec by lia. f_equal. lia.
Qed.

(** ** Comparison *)
Lemma CompareTo_snoc a b x y :
  CompareTo (a ++ [x]) (b ++ [y]) = if x <? y then -1 else if y <? x then 1 else CompareTo a b.
Proof. unfold CompareTo. by rewrite !reverse_snoc. Qed.

Definition compare_Z (x y : Z) : Z := if x <? y then -1 else if y <? x then 1 else 0.

Lemma CompareTo_spec a : forall b, limbs_ok a -> limbs_ok b -> length a = length b -> CompareTo a b = compare_Z (eval a) (eval b).
Proof.
  induction a as [|x a IH] using rev_ind; intros b Ha Hb Hlen.
  { by destruct b. }
  destruct b as [|y b _] using rev_ind; [rewrite length_app in Hlen; cbn in Hlen; lia|].
  rewrite !length_app in Hlen. apply Forall_app in Ha as [Ha _], Hb as [Hb _].
  rewrite CompareTo_snoc, IH, !eval_app by (done || (cbn in Hlen; lia)). cbn [eval].
  replace (length b) with (length a) by (cbn in Hlen; lia).
  pose proof (eval_bounds a Ha) as Ba. pose proof (eval_bounds b Hb) as Bb. replace (length b) with (length a) in Bb by (cbn in Hlen; lia).
  set (P := 2 ^ (32 * Z.of_nat (length a))) in *. unfold compare_Z.
  destruct (Z.ltb_spec x y); [rewrite (proj2 (Z.ltb_lt _ _)) by nia; done|].
  destruct (Z.ltb_spec y x); [rewrite (proj2 (Z.ltb_ge _ _)), (proj2 (Z.ltb_lt _ _)) by nia; done|].
  assert (x = y) as -> by lia.
  destruct (Z.ltb_spec (eval a) (eval b)), (Z.ltb_spec (eval b) (eval a)), (Z.ltb_spec (eval a + P * (y + 2 ^ 32 * 0)) (eval b + P * (y + 2 ^ 32 * 0))), (Z.ltb_spec (eval b + P * (y + 2 ^ 32 * 0)) (eval a + P * (y + 2 ^ 32 * 0))); try done; lia.
Qed.

Lemma CompareTo_nonneg a b :
  limbs_ok a -> limbs_ok b -> length a = length b -> (0 <=? CompareTo a b) = (eval b <=? eval a).
Proof.
  intros. rewrite CompareTo_spec by done. unfold compare_Z.
  destruct (Z.ltb_spec (eval a) (eval b)), (Z.ltb_spec (eval b) (eval a)), (Z.leb_spec (eval b) (eval a)); done || lia.
Qed.

(** ** The position of the highest bit *)
Lemma find_bit_spec n x : 0 < x < 2 ^ (Z.of_nat n + 1) -> find_bit n x = Z.log2 x.
Proof.
  induction n as [|n IH]; intros Hx.
  { cbn [find_bit]. assert (x = 1) as -> by (cbn in Hx; lia). done. }
  cbn [find_bit]. rewrite Z.shiftl_1_l. destruct (Z_lt_le_dec x (2 ^ Z.of_nat (S n))) as [Hlt|Hge].
  - assert (Z.land x (2 ^ Z.of_nat (S n)) = 0) as ->.
    { apply Z.bits_inj'. intros i Hi. rewrite Z.land_spec, Z.bits_0, Z.pow2_bits_eqb by lia.
      destruct (Z.eqb_spec (Z.of_nat (S n)) i) as [<-|]; [|by rewrite andb_false_r].
      rewrite Z.bits_above_log2; [done|lia|]. apply Z.log2_lt_pow2; lia. }
    cbn [Z.eqb negb]. apply IH. replace (Z.of_nat n + 1) with (Z.of_nat (S n)) by lia. lia.
  - assert (Z.log2 x = Z.of_nat (S n)) as Hlog.
    { apply Z.log2_unique; [lia|]. replace (Z.succ (Z.of_nat (S n))) with (Z.of_nat (S n) + 1) by lia. lia. }
    destruct (Z.eqb_spec (Z.land x (2 ^ Z.of_nat (S n))) 0) as [H0|]; cbn [negb]; [|by rewrite Hlog].
    exfalso. apply (f_equal (fun z => Z.testbit z (Z.of_nat (S n)))) in H0.
    rewrite Z.land_spec, Z.pow2_bits_true, Z.bits_0, andb_true_r, <- Hlog, Z.bit_log2 in H0 by lia. done.
Qed.

Lemma bits_spec l : limbs_ok l -> bits l = if eval l =? 0 then 0 else Z.log2 (eval l) + 1.
Proof.
  induction l as [|x l IH] using rev_ind; intros Hl; [done|]. apply Forall_app in Hl as [Hl Hx]. inversion_clear Hx as [|? ? Hx' _]. rename Hx' into Hx.
  unfold bits. rewrite reverse_snoc. cbn [bits_from]. fold (bits l). rewrite eval_app. cbn [eval]. rewrite Z.mul_0_r, Z.add_0_r.
  pose proof (eval_bounds l Hl) as Bl. destruct (Z.eqb_spec x 0) as [->|Hx0]; cbn [negb].
  { rewrite Z.mul_0_r, Z.add_0_r. by apply IH. }
  unfold inU in Hx. rewrite length_reverse, find_bit_spec by (change (Z.of_nat 31 + 1) with 32; lia).
  assert (0 < 2 ^ (32 * Z.of_nat (length l))) by lia. rewrite (proj2 (Z.eqb_neq _ _)) by nia.
  f_equal. symmetry. pose proof (Z.log2_spec x ltac:(lia)) as [Hlo Hhi]. assert (0 <= Z.log2 x) by apply Z.log2_nonneg.
  apply Z.log2_unique; [lia|]. rewrite <- Z.add_succ_r, !Z.pow_add_r by lia. nia.
Qed.

(** ** Division *)
Lemma add_lor_disjoint x y : Z.land x y = 0 -> Z.lor x y = x + y.
Proof. intros H. by rewrite Z.add_nocarry_lxor, Z.lxor_lor. Qed.

Lemma set_bit_lor q n :
  limbs_ok q -> (n / 32 < length q)%nat ->
  limbs_ok (set_bit q n) /\ length (set_bit q n) = length q /\ eval (set_bit q n) = Z.lor (eval q) (2 ^ Z.of_nat n).
Proof.
  intros Hq Hn. assert (0 <= Z.of_nat n `mod` 32 < 32) as Hm by (apply Z.mod_pos_bound; lia).
  assert (inU 32 (2 ^ (Z.of_nat n `mod` 32))) as Hp.
  { unfold inU. split; [apply Z.pow_nonneg; lia|apply Z.pow_lt_mono_r; lia]. }
  assert (u32 (Z.shiftl 1 (Z.of_nat n `mod` 32)) = 2 ^ (Z.of_nat n `mod` 32)) as Hu.
  { rewrite Z.shiftl_1_l. unfold wrapU. by apply Z.mod_small. }
  assert (limbs_ok (set_bit q n)) as Hok.
  { unfold set_bit. rewrite Hu. apply Forall_alter; [done|]. intros x _ Hx. by apply lor_inU. }
  split; [done|]. split; [unfold set_bit; by rewrite length_alter|].
  apply Z.bits_inj'. intros i Hi. rewrite Z.lor_spec, !eval_testbit by done. rewrite Z.pow2_bits_eqb by lia.
  assert (0 <= i `mod` 32 < 32) as Hr by (apply Z.mod_pos_bound; lia). pose proof (Z.div_mod i 32 ltac:(lia)) as Hdi.
  pose proof (Z.div_mod (Z.of_nat n) 32 ltac:(lia)) as Hdn. assert (Z.of_nat (n / 32) = Z.of_nat n `div` 32) as Hnd by (rewrite Nat2Z.inj_div; done).
  assert (0 <= i `div` 32) by (apply Z.div_pos; lia).
  unfold set_bit, limb. rewrite Hu. destruct (decide (Z.to_nat (i `div` 32) = (n / 32)%nat)) as [E|NE].
  - rewrite E, list_lookup_alter_eq. destruct (lookup_lt_is_Some_2 q (n / 32) Hn) as [x ->]. cbn [default fmap option_fmap option_map from_option id].
    rewrite Z.lor_spec, Z.pow2_bits_eqb by lia. f_equal.
    destruct (Z.eqb_spec (Z.of_nat n `mod` 32) (i `mod` 32)), (Z.eqb_spec (Z.of_nat n) i); done || lia.
  - rewrite list_lookup_alter_ne by done. rewrite (proj2 (Z.eqb_neq (Z.of_nat n) i)); [by rewrite orb_false_r|]. intros <-. apply NE. lia.
Qed.

Lemma land_low_bit q n : 0 <= n -> q `mod` 2 ^ (n + 1) = 0 -> Z.land q (2 ^ n) = 0.
Proof.
  intros Hn Hq. apply Z.bits_inj'. intros i Hi. rewrite Z.land_spec, Z.bits_0, Z.pow2_bits_eqb by lia.
  destruct (Z.eqb_spec n i) as [<-|]; [|by rewrite andb_false_r].
  apply (f_equal (fun z => Z.testbit z n)) in Hq. rewrite Z.mod_pow2_bits_low, Z.bits_0 in Hq by lia. by rewrite Hq.
Qed.

Lemma set_bit_spec q n :
  limbs_ok q -> (n / 32 < length q)%nat -> eval q `mod` 2 ^ (Z.of_nat n + 1) = 0 ->
  limbs_ok (set_bit q n) /\ length (set_bit q n) = length q /\ eval (set_bit q n) = eval q + 2 ^ Z.of_nat n.
Proof.
  intros Hq Hn Hm. destruct (set_bit_lor q n Hq Hn) as (Hok & Hlen & ->). split_and!; [done..|].
  apply add_lor_disjoint, land_low_bit; [lia|done].
Qed.

(** The invariant of the loop: the divisor is shifted by [n], the remainder is
    below twice that, the bits of the quotient up to [n] are still clear. *)
Record div_inv (A B : Z) (n : nat) (num div q : list Z) : Prop := {
  di_num : limbs_ok num; di_div : limbs_ok div; di_q : limbs_ok q;
  di_len1 : length num = length div; di_len2 : length q = length num;
  di_fits : (n < 32 * length q)%nat;
  di_shift : eval div = B * 2 ^ Z.of_nat n;
  di_rem : eval num < 2 * eval div;
  di_clear : eval q `mod` 2 ^ (Z.of_nat n + 1) = 0;
  di_eq : A = eval q * B + eval num }.

Lemma mod_pow2_half v n : 0 <= n -> v `mod` 2 ^ (n + 1) = 0 -> v `mod` 2 ^ n = 0 /\ (v + 2 ^ n) `mod` 2 ^ n = 0.
Proof.
  intros Hn Hv. rewrite Z.pow_add_r in Hv by lia. assert (0 < 2 ^ n) by (apply Z.pow_pos_nonneg; lia).
  apply Z.mod_divide in Hv as [k ->]; [|lia].
  split; apply Z.mod_divide; try lia; [exists (k * 2)|exists (k * 2 + 1)]; lia.
Qed.

(** One turn of the loop keeps the invariant for the next shift, and the
    remainder ends below the shifted divisor. *)
Lemma div_turn A B n num div q :
  0 < B -> div_inv A B n num div q ->
  let '(num', q') := if 0 <=? CompareTo num div then (op_sub num div, set_bit q n) else (num, q) in
  limbs_ok num' /\ limbs_ok q' /\ length num' = length num /\ length q' = length q /\ eval num' < eval div /\
  eval q' `mod` 2 ^ Z.of_nat n = 0 /\ A = eval q' * B + eval num'.
Proof.
  intros HB [Hnum Hdiv Hq Hl1 Hl2 Hfit Hsh Hrem Hclr HA]. rewrite CompareTo_nonneg by done.
  destruct (mod_pow2_half _ _ (Nat2Z.is_nonneg n) Hclr) as [Hc1 Hc2].
  destruct (Z.leb_spec (eval div) (eval num)).
  - destruct (op_sub_spec num div Hnum Hdiv Hl1) as (So & Sl & Se).
    destruct (set_bit_spec q n Hq) as (Qo & Ql & Qe); [apply Nat.Div0.div_lt_upper_bound; lia|done|].
    pose proof (eval_bounds num Hnum). pose proof (eval_bounds div Hdiv). rewrite Z.mod_small in Se by lia.
    rewrite Se, Qe. split_and!; try done; lia.
  - split_and!; try done.
Qed.

Lemma div_inv_step A B n num div q num' q' :
  0 < B -> div_inv A B (S n) num div q ->
  limbs_ok num' -> limbs_ok q' -> length num' = length num -> length q' = length q -> eval num' < eval div ->
  eval q' `mod` 2 ^ Z.of_nat (S n) = 0 -> A = eval q' * B + eval num' ->
  div_inv A B n num' (op_shr div 1) q'.
Proof.
  intros HB [Hnum Hdiv Hq Hl1 Hl2 Hfit Hsh Hrem Hclr HA] On Oq Ln Lq Hlt Hm HA'.
  destruct (op_shr_spec div 1 Hdiv ltac:(lia)) as (Do & Dl & De).
  assert (eval (op_shr div 1) = B * 2 ^ Z.of_nat n) as De'.
  { rewrite De, Hsh. replace (Z.of_nat (S n)) with (Z.of_nat n + 1) by lia. rewrite Z.pow_add_r, Z.mul_assoc by lia. apply Z.div_mul. lia. }
  assert (eval div = 2 * eval (op_shr div 1)) as Hd2.
  { rewrite De', Hsh. replace (Z.of_nat (S n)) with (Z.of_nat n + 1) by lia. rewrite Z.pow_add_r by lia. lia. }
  split; try done; try congruence; try lia.
Qed.

Lemma div_loop_spec A B n : forall num div q,
  0 < B -> div_inv A B n num div q ->
  limbs_ok (div_loop n num div q) /\ length (div_loop n num div q) = length q /\ eval (div_loop n num div q) = A `div` B.
Proof.
  induction n as [|n IH]; intros num div q HB Hinv; pose proof (div_turn _ _ _ _ _ _ HB Hinv) as Ht; cbn [div_loop];
    destruct (if 0 <=? CompareTo num div then _ else _) as [num' q']; destruct Ht as (On & Oq & Ln & Lq & Hlt & Hm & HA).
  - split_and!; try done. apply (Z.div_unique _ _ _ (eval num')); [|lia].
    left. pose proof (eval_bounds num' On). destruct Hinv as [_ _ _ _ _ _ Hsh _ _ _]. cbn in Hsh. lia.
  - destruct (IH num' (op_shr div 1) q' HB) as (? & ? & ?); [by eapply div_inv_step|].
    split_and!; try done. congruence.
Qed.

Lemma op_div_spec a b :
  limbs_ok a -> limbs_ok b -> length a = length b ->
  (eval b = 0 -> op_div a b = None) /\
  (eval b <> 0 -> exists q, op_div a b = Some q /\ limbs_ok q /\ length q = length a /\ eval q = eval a `div` eval b).
Proof.
  intros Ha Hb Hl. unfold op_div. rewrite !bits_spec by done. pose proof (eval_bounds a Ha) as Ba. pose proof (eval_bounds b Hb) as Bb.
  split; intros Hb0; [by rewrite (proj2 (Z.eqb_eq _ _) Hb0)|].
  rewrite (proj2 (Z.eqb_neq (eval b) 0)) by done. pose proof (Z.log2_nonneg (eval b)).
  rewrite (proj2 (Z.eqb_neq (Z.log2 (eval b) + 1) 0)) by lia.
  pose proof (Z.log2_spec (eval b) ltac:(lia)) as [Lb1 Lb2].
  assert (limbs_ok (replicate (length a) 0)) as Hz by (apply Forall_replicate; apply inU_0).
  destruct (Z.ltb_spec (if eval a =? 0 then 0 else Z.log2 (eval a) + 1) (Z.log2 (eval b) + 1)) as [Hlt|Hge].
  { eexists. split; [done|]. split; [done|]. split; [by rewrite length_replicate|]. rewrite eval_replicate. symmetry. apply Z.div_small.
    split; [lia|]. destruct (Z.eqb_spec (eval a) 0); [lia|]. apply Z.log2_lt_cancel. lia. }
  destruct (Z.eqb_spec (eval a) 0) as [|Ha0]; [lia|].
  set (shift := Z.log2 (eval a) + 1 - (Z.log2 (eval b) + 1)). assert (0 <= shift) as Hs by (subst shift; lia).
  pose proof (Z.log2_spec (eval a) ltac:(lia)) as [La1 La2].
  destruct (op_shl_spec b shift Hb Hs) as (Do & Dl & De).
  assert (2 ^ (Z.log2 (eval a)) <= eval b * 2 ^ shift < 2 * 2 ^ (Z.log2 (eval a))) as Hal.
  { replace (Z.log2 (eval a)) with (Z.log2 (eval b) + shift) by (subst shift; lia). rewrite Z.pow_add_r by lia.
    rewrite Z.pow_succ_r in Lb2 by lia. assert (0 < 2 ^ shift) by (apply Z.pow_pos_nonneg; lia). nia. }
  assert (Z.log2 (eval a) < 32 * Z.of_nat (length a)) as Hw by (apply Z.log2_lt_pow2; lia).
  assert (eval (op_shl b shift) = eval b * 2 ^ shift) as De'.
  { rewrite De, Z.mod_small; [done|]. split; [lia|]. rewrite <- Hl.
    assert (2 ^ (Z.log2 (eval a) + 1) <= 2 ^ (32 * Z.of_nat (length a))) by (apply Z.pow_le_mono_r; lia).
    rewrite Z.pow_add_r in * by lia. lia. }
  rewrite Z.pow_succ_r in La2 by lia.
  destruct (div_loop_spec (eval a) (eval b) (Z.to_nat shift) a (op_shl b shift) (replicate (length a) 0)) as (Qo & Ql & Qe); [lia| |].
  - split; try done; rewrite ?length_replicate, ?eval_replicate, ?Z2Nat.id by done; try apply Zmod_0_l; try lia; try congruence; subst shift; lia.
  - rewrite length_replicate in Ql. eauto 10.
Qed.

(** ** Counting down and the bitwise operators *)
Lemma op_dec_spec l :
  limbs_ok l -> limbs_ok (op_dec l) /\ length (op_dec l) = length l /\ eval (op_dec l) = (eval l - 1) `mod` 2 ^ (32 * Z.of_nat (length l)).
Proof.
  induction 1 as [|x l Hx HF (IHo & IHl & IHe)]; [split_and!; [constructor|done|done]|]. cbn [op_dec]. pose proof (eval_bounds l HF) as Bl.
  assert (limbs_ok (u32 (x - 1) :: (if u32 (x - 1) =? 0xffffffff then op_dec l else l))) as Hok.
  { constructor; [apply wrapU_range; lia|]. by destruct (_ =? _). }
  split; [done|]. split; [cbn [length]; f_equal; by destruct (_ =? _)|].
  pose proof (eval_bounds (x :: l) (Forall_cons_2 _ _ _ Hx HF)) as Bxl. cbn [eval length] in Bxl |- *. unfold inU in Hx.
  replace (32 * Z.of_nat (S (length l))) with (32 + 32 * Z.of_nat (length l)) in * by lia. rewrite Z.pow_add_r in * by lia.
  set (W := 2 ^ (32 * Z.of_nat (length l))) in *. unfold wrapU. destruct (decide (x = 0)) as [->|Hx0].
  - change ((0 - 1) `mod` 2 ^ 32) with 0xffffffff. cbn [Z.eqb]. rewrite Pos.eqb_refl, IHe.
    destruct (decide (eval l = 0)) as [E|].
    + rewrite E. replace (0 - 1) with (W - 1 + (-1) * W) by lia. replace (0 + 2 ^ 32 * 0 - 1) with (2 ^ 32 * W - 1 + (-1) * (2 ^ 32 * W)) by lia.
      rewrite !Z_mod_plus_full, !Z.mod_small by lia. lia.
    + rewrite !Z.mod_small by lia. lia.
  - rewrite (Z.mod_small (x - 1)) by lia. rewrite (proj2 (Z.eqb_neq _ _)) by lia. rewrite Z.mod_small by lia. lia.
Qed.

Section bitwise.
Context (op : Z -> Z -> Z) (f : bool -> bool -> bool).
Context (Hspec : forall x y i, Z.testbit (op x y) i = f (Z.testbit x i) (Z.testbit y i)).
Context (Hf : f false false = false).
Context (Hnn : forall x y, 0 <= x -> 0 <= y -> 0 <= op x y).

Lemma op_inU x y : inU 32 x -> inU 32 y -> inU 32 (op x y).
Proof.
  intros Hx Hy. assert (0 <= op x y) as H0 by (apply Hnn; unfold inU in *; lia). split; [done|].
  apply Z.nle_gt. intros Hge. assert (32 <= Z.log2 (op x y)) as Hl by (apply Z.log2_le_pow2 in Hge; lia).
  assert (Z.testbit (op x y) (Z.log2 (op x y)) = true) as Hb by (apply Z.bit_log2; lia).
  rewrite Hspec, !testbit_high, Hf in Hb by (done || lia). done.
Qed.

Lemma bitwise_spec a b :
  limbs_ok a -> limbs_ok b -> length a = length b ->
  limbs_ok (zip_with op a b) /\ length (zip_with op a b) = length a /\ eval (zip_with op a b) = op (eval a) (eval b).
Proof.
  intros Ha Hb Hl. assert (limbs_ok (zip_with op a b)) as Hok.
  { apply Forall_lookup. intros i x Hx. apply lookup_zip_with_Some in Hx as (u & v & -> & Hu & Hv).
    apply op_inU; [eapply (Forall_lookup_1 (inU 32) a); eauto|eapply (Forall_lookup_1 (inU 32) b); eauto]. }
  split; [done|]. split; [rewrite length_zip_with; lia|].
  apply Z.bits_inj'. intros i Hi. rewrite Hspec, !eval_testbit by done. unfold limb.
  rewrite lookup_zip_with. destruct (a !! _) as [u|] eqn:Eu, (b !! _) as [v|] eqn:Ev; cbn.
  - apply Hspec.
  - apply lookup_lt_Some in Eu. apply lookup_ge_None_1 in Ev. lia.
  - apply lookup_lt_Some in Ev. apply lookup_ge_None_1 in Eu. lia.
  - by rewrite !Z.bits_0.
Qed.
End bitwise.

(** ** The refinement *)

(** The limbs [l] hold the integer [v]. *)
Definition is256 (l : list Z) (v : Z) : Prop := limbs_ok l /\ length l = WIDTH /\ eval l = v.

Lemma is256_range l v : is256 l v -> inU 256 v.
Proof. intros (Ho & Hl & <-). pose proof (eval_bounds l Ho) as H. rewrite Hl in H. exact H. Qed.

Lemma is256_of b : inU 64 b -> is256 (base_uint_of b) b.
Proof.
  unfold inU. intros Hb. split_and!.
  - constructor; [apply wrapU_range; lia|]. constructor; [apply wrapU_range; lia|]. apply Forall_replicate, inU_0.
  - done.
  - unfold base_uint_of. cbn [eval]. rewrite eval_replicate. rewrite Z.shiftr_div_pow2 by lia. unfold wrapU.
    rewrite (Z.mod_small (b `div` 2 ^ 32)); [pose proof (Z.div_mod b (2 ^ 32)); lia|].
    split; [apply Z.div_pos; lia|apply Z.div_lt_upper_bound; lia].
Qed.

Lemma op_add_spec a b :
  limbs_ok a -> limbs_ok b -> length a = length b ->
  limbs_ok (op_add a b) /\ length (op_add a b) = length a /\ eval (op_add a b) = (eval a + eval b) `mod` 2 ^ (32 * Z.of_nat (length a)).
Proof. intros Ha Hb Hl. unfold op_add. replace (eval a + eval b) with (0 + eval a + eval b) by lia. apply add_carry_spec; done || lia. Qed.

(** What the loops over [length l] limbs compute, read at 8 limbs. *)
Lemma is256_lift (l l' : list Z) (f : nat -> Z) :
  length l = WIDTH -> limbs_ok l' /\ length l' = length l /\ eval l' = f (length l) -> is256 l' (f WIDTH).
Proof. intros Hl (Ho & Hn & He). rewrite Hl in *. by split_and!. Qed.

Ltac lift_spec a f H := apply (is256_lift a _ f); [done|apply H]; first [done|congruence|apply inU_0|lia].

Lemma is256_add a b x y : is256 a x -> is256 b y -> is256 (op_add a b) ((x + y) `mod` 2 ^ 256).
Proof. intros (Ha & La & <-) (Hb & Lb & <-). lift_spec a (fun n => (eval a + eval b) `mod` 2 ^ (32 * Z.of_nat n)) op_add_spec. Qed.

Lemma is256_sub a b x y : is256 a x -> is256 b y -> is256 (op_sub a b) ((x - y) `mod` 2 ^ 256).
Proof. intros (Ha & La & <-) (Hb & Lb & <-). lift_spec a (fun n => (eval a - eval b) `mod` 2 ^ (32 * Z.of_nat n)) op_sub_spec. Qed.

Lemma is256_mul a b x y : is256 a x -> is256 b y -> is256 (op_mul a b) ((x * y) `mod` 2 ^ 256).
Proof. intros (Ha & La & <-) (Hb & Lb & <-). lift_spec a (fun n => (eval a * eval b) `mod` 2 ^ (32 * Z.of_nat n)) op_mul_spec. Qed.

Lemma is256_mul32 a x b : is256 a x -> inU 32 b -> is256 (op_mul32 a b) ((x * b) `mod` 2 ^ 256).
Proof.
  intros (Ha & La & <-) Hb. replace (eval a * b) with (0 + b * eval a) by lia.
  lift_spec a (fun n => (0 + b * eval a) `mod` 2 ^ (32 * Z.of_nat n)) mul32_carry_spec.
Qed.

Lemma is256_shl a x n : is256 a x -> 0 <= n -> is256 (op_shl a n) ((x * 2 ^ n) `mod` 2 ^ 256).
Proof. intros (Ha & La & <-) Hn. lift_spec a (fun w => (eval a * 2 ^ n) `mod` 2 ^ (32 * Z.of_nat w)) op_shl_spec. Qed.

Lemma is256_shr a x n : is256 a x -> 0 <= n -> is256 (op_shr a n) (x `div` 2 ^ n).
Proof. intros (Ha & La & <-) Hn. lift_spec a (fun _ : nat => eval a `div` 2 ^ n) op_shr_spec. Qed.

Lemma is256_inc a x : is256 a x -> is256 (op_inc a) ((x + 1) `mod` 2 ^ 256).
Proof. intros (Ha & La & <-). lift_spec a (fun w => (eval a + 1) `mod` 2 ^ (32 * Z.of_nat w)) op_inc_spec. Qed.

Lemma is256_dec a x : is256 a x -> is256 (op_dec a) ((x - 1) `mod` 2 ^ 256).
Proof. intros (Ha & La & <-). lift_spec a (fun w => (eval a - 1) `mod` 2 ^ (32 * Z.of_nat w)) op_dec_spec. Qed.

Lemma is256_compare a b x y : is256 a x -> is256 b y -> CompareTo a b = compare_Z x y.
Proof. intros (Ha & La & <-) (Hb & Lb & <-). apply CompareTo_spec; congruence. Qed.

Lemma is256_div a b x y : is256 a x -> is256 b y -> y <> 0 -> exists q, op_div a b = Some q /\ is256 q (x `div` y).
Proof.
  intros (Ha & La & <-) (Hb & Lb & <-) Hy. destruct (proj2 (op_div_spec a b Ha Hb ltac:(congruence)) Hy) as (q & E & Ho & Hl & He).
  exists q. split; [done|]. split_and!; [done|congruence|done].
Qed.

Lemma is256_bitwise a b x y :
  is256 a x -> is256 b y ->
  is256 (op_xor a b) (Z.lxor x y) /\ is256 (op_and a b) (Z.land x y) /\ is256 (op_or a b) (Z.lor x y).
Proof.
  intros (Ha & La & <-) (Hb & Lb & <-). split_and!.
  - apply (is256_lift a _ (fun _ : nat => Z.lxor (eval a) (eval b))); [done|]. apply (bitwise_spec _ xorb); try done || congruence; [apply Z.lxor_spec|].
    intros. apply Z.lxor_nonneg. lia.
  - apply (is256_lift a _ (fun _ : nat => Z.land (eval a) (eval b))); [done|]. apply (bitwise_spec _ andb); try done || congruence; [apply Z.land_spec|].
    intros. apply Z.land_nonneg. lia.
  - apply (is256_lift a _ (fun _ : nat => Z.lor (eval a) (eval b))); [done|]. apply (bitwise_spec _ orb); try done || congruence; [apply Z.lor_spec|].
    intros. apply Z.lor_nonneg. lia.
Qed.

(** The limb loops compute with 256-bit integers: sums, differences, products and
    left shifts are taken modulo 2^256, right shifts and quotients are exact, a
    division by zero throws, the comparison is the one of the integers and [bits]
    is the length of the binary numeral. *)
Theorem arith_uint256_refines a b x y n m :
  is256 a x -> is256 b y -> 0 <= n -> inU 32 m ->
  is256 (op_add a b) ((x + y) `mod` 2 ^ 256) /\ is256 (op_sub a b) ((x - y) `mod` 2 ^ 256) /\
  is256 (op_mul a b) ((x * y) `mod` 2 ^ 256) /\ is256 (op_mul32 a m) ((x * m) `mod` 2 ^ 256) /\
  is256 (op_inc a) ((x + 1) `mod` 2 ^ 256) /\ is256 (op_dec a) ((x - 1) `mod` 2 ^ 256) /\
  is256 (op_shl a n) ((x * 2 ^ n) `mod` 2 ^ 256) /\ is256 (op_shr a n) (x `div` 2 ^ n) /\
  (is256 (op_xor a b) (Z.lxor x y) /\ is256 (op_and a b) (Z.land x y) /\ is256 (op_or a b) (Z.lor x y)) /\
  CompareTo a b = compare_Z x y /\
  bits a = (if x =? 0 then 0 else Z.log2 x + 1) /\
  match op_div a b with
  | None => y = 0
  | Some q => y <> 0 /\ is256 q (x `div` y)
  end.
Proof.
  intros Ha Hb Hn Hm. split_and!; eauto using is256_add, is256_sub, is256_mul, is256_mul32, is256_inc, is256_dec, is256_shl, is256_shr, is256_compare.
  1-3: by apply is256_bitwise.
  - destruct Ha as (Ho & _ & <-). by apply bits_spec.
  - destruct (decide (y = 0)) as [->|Hy].
    + destruct Ha as (Ha & La & _), Hb as (Hb & Lb & E). by rewrite (proj1 (op_div_spec a b Ha Hb ltac:(congruence)) E).
    + by destruct (is256_div a b x y Ha Hb Hy) as (q & -> & Hq).
Qed.

(** ** The compact form *)
Lemma land_pow2_eqb x n : 0 <= n -> (Z.land x (2 ^ n) =? 0) = negb (Z.testbit x n).
Proof.
  intros Hn. destruct (Z.eqb_spec (Z.land x (2 ^ n)) 0) as [E|NE].
  - apply (f_equal (fun z => Z.testbit z n)) in E. rewrite Z.land_spec, Z.pow2_bits_true, andb_true_r, Z.bits_0 in E by lia. by rewrite E.
  - destruct (Z.testbit x n) eqn:Eb; [done|]. exfalso. apply NE. apply Z.bits_inj'. intros i Hi.
    rewrite Z.land_spec, Z.bits_0, Z.pow2_bits_eqb by lia. destruct (Z.eqb_spec n i) as [<-|]; [by rewrite Eb|apply andb_false_r].
Qed.

Lemma testbit_top x n : 0 <= n -> 0 <= x < 2 ^ (n + 1) -> Z.testbit x n = (2 ^ n <=? x).
Proof.
  intros Hn Hx. rewrite Z.pow_add_r in Hx by lia.
  destruct (Z.leb_spec (2 ^ n) x).
  - apply Z.testbit_true; [lia|]. replace (x `div` 2 ^ n) with 1; [done|]. apply (Z.div_unique _ _ _ (x - 2 ^ n)); lia.
  - destruct (Z.eq_dec x 0) as [->|]; [apply Z.bits_0|]. apply Z.bits_above_log2; [lia|]. apply Z.log2_lt_pow2; lia.
Qed.

Lemma lor_shift_add a b n : 0 <= n -> 0 <= a < 2 ^ n -> 0 <= b -> Z.lor a (Z.shiftl b n) = a + b * 2 ^ n.
Proof.
  intros Hn Ha Hb. rewrite Z.shiftl_mul_pow2 by lia. apply add_lor_disjoint. apply Z.bits_inj'. intros i Hi.
  rewrite Z.land_spec, Z.bits_0. destruct (Z_lt_le_dec i n).
  - rewrite Z.mul_pow2_bits_low by lia. apply andb_false_r.
  - replace (Z.testbit a i) with false; [done|]. symmetry. destruct (Z.eq_dec a 0) as [->|]; [apply Z.bits_0|].
    apply Z.bits_above_log2; [lia|]. eapply Z.lt_le_trans; [|done]. apply Z.log2_lt_pow2; lia.
Qed.

Lemma GetLow64_spec l v : is256 l v -> GetLow64 l = v `mod` 2 ^ 64.
Proof.
  intros (Ho & Hl & <-). destruct l as [|a [|b l]]; try done. unfold GetLow64, limb. cbn [lookup list_lookup default from_option id].
  inversion_clear Ho as [|? ? Ha Ho']. inversion_clear Ho' as [|? ? Hb Ho'']. unfold inU in *. cbn [eval].
  assert (u64 (Z.shiftl b 32) = Z.shiftl b 32) as ->.
  { apply wrapU_small. rewrite Z.shiftl_mul_pow2 by lia. unfold inU. lia. }
  rewrite lor_shift_add by lia. replace (a + 2 ^ 32 * (b + 2 ^ 32 * eval l)) with (a + b * 2 ^ 32 + eval l * 2 ^ 64) by lia.
  rewrite Z_mod_plus_full, Z.mod_small by lia. done.
Qed.

(** The mantissa [m] and the size [n] that the compact form of [v] holds: the
    leading bytes of [v], with the top bit of the mantissa left for the sign. *)
Definition compact_of (v m n : Z) : Prop :=
  0 <= m < 2 ^ 23 /\ 0 <= n <= 33 /\ (n = 33 -> m < 2 ^ 16) /\
  m = (v * 2 ^ 24) `div` 2 ^ (8 * n) /\ (v = 0 /\ n = 0 \/ 2 ^ 15 <= m).

Lemma compact_pack m n : 0 <= m < 2 ^ 23 -> 0 <= n <= 33 ->
  Z.land m (u32 (Z.lnot 0x007fffff)) = 0 /\ Z.lor m (u32 (Z.shiftl n 24)) = m + n * 2 ^ 24.
Proof.
  intros Hm Hn. split.
  - apply Z.bits_inj'. intros i Hi. rewrite Z.land_spec, Z.bits_0. destruct (Z_lt_le_dec i 23).
    + change (u32 (Z.lnot 8388607)) with (2 ^ 9 * 2 ^ 23 - 2 ^ 23). replace (2 ^ 9 * 2 ^ 23 - 2 ^ 23) with ((2 ^ 9 - 1) * 2 ^ 23) by lia.
      rewrite Z.mul_pow2_bits_low by lia. apply andb_false_r.
    + replace (Z.testbit m i) with false; [done|]. symmetry. destruct (Z.eq_dec m 0) as [->|]; [apply Z.bits_0|].
      apply Z.bits_above_log2; [lia|]. eapply Z.lt_le_trans; [|done]. apply Z.log2_lt_pow2; lia.
  - assert (u32 (Z.shiftl n 24) = Z.shiftl n 24) as ->.
    { apply wrapU_small. rewrite Z.shiftl_mul_pow2 by lia. unfold inU. lia. }
    apply lor_shift_add; lia.
Qed.

(** The number of bytes of [v]. *)
Lemma byte_size v : inU 256 v -> 0 < v ->
  let n := (Z.log2 v + 1 + 7) `div` 8 in 1 <= n <= 32 /\ 2 ^ (8 * (n - 1)) <= v < 2 ^ (8 * n).
Proof.
  unfold inU. intros Hv H0. pose proof (Z.log2_spec v H0) as [Hl1 Hl2]. pose proof (Z.log2_nonneg v).
  assert (Z.log2 v < 256) by (apply Z.log2_lt_pow2; lia). set (k := Z.log2 v) in *.
  pose proof (Z.div_mod (k + 1 + 7) 8 ltac:(lia)) as Hd. pose proof (Z.mod_pos_bound (k + 1 + 7) 8 ltac:(lia)) as Hm.
  cbn zeta. set (n := (k + 1 + 7) `div` 8) in *. split; [lia|]. split.
  - eapply Z.le_trans; [|exact Hl1]. apply Z.pow_le_mono_r; lia.
  - eapply Z.lt_le_trans; [exact Hl2|]. apply Z.pow_le_mono_r; lia.
Qed.

(** The three leading bytes. *)
Definition lead3 (v n : Z) : Z := if n <=? 3 then v * 2 ^ (8 * (3 - n)) else v `div` 2 ^ (8 * (n - 3)).

Lemma lead3_range v n : 1 <= n -> 2 ^ (8 * (n - 1)) <= v < 2 ^ (8 * n) -> 2 ^ 16 <= lead3 v n < 2 ^ 24.
Proof.
  intros Hn Hv. unfold lead3. destruct (Z.leb_spec n 3).
  - replace (2 ^ 16) with (2 ^ (8 * (n - 1)) * 2 ^ (8 * (3 - n))) by (rewrite <- Z.pow_add_r by lia; f_equal; lia).
    replace (2 ^ 24) with (2 ^ (8 * n) * 2 ^ (8 * (3 - n))) by (rewrite <- Z.pow_add_r by lia; f_equal; lia).
    assert (0 < 2 ^ (8 * (3 - n))) by (apply Z.pow_pos_nonneg; lia). nia.
  - assert (0 < 2 ^ (8 * (n - 3))) by (apply Z.pow_pos_nonneg; lia).
    replace (8 * (n - 1)) with (16 + 8 * (n - 3)) in Hv by lia. replace (8 * n) with (24 + 8 * (n - 3)) in Hv by lia.
    rewrite !Z.pow_add_r in Hv by lia. split; [apply Z.div_le_lower_bound; lia|apply Z.div_lt_upper_bound; lia].
Qed.

Lemma lead3_code l v n :
  is256 l v -> 0 <= n -> v < 2 ^ (8 * n) -> (v = 0 \/ 1 <= n /\ 2 ^ 16 <= lead3 v n < 2 ^ 24) ->
  (if n <=? 3 then u32 (u64 (Z.shiftl (GetLow64 l) (8 * (3 - n)))) else u32 (GetLow64 (op_shr l (8 * (n - 3))))) = lead3 v n.
Proof.
  intros Hl Hn Hv Hr. unfold lead3 in *. pose proof (is256_range _ _ Hl) as Hin. unfold inU in Hin. destruct (Z.leb_spec n 3).
  - assert (2 ^ (8 * n) <= 2 ^ 24) by (apply Z.pow_le_mono_r; lia).
    rewrite (GetLow64_spec l v Hl), (Z.mod_small v) by lia. rewrite Z.shiftl_mul_pow2 by lia. unfold wrapU.
    destruct Hr as [->|Hr]; [done|]. rewrite !(Z.mod_small (v * _)) by lia. done.
  - assert (0 <= 8 * (n - 3)) as H8 by lia. rewrite (GetLow64_spec _ _ (is256_shr _ _ _ Hl H8)). unfold wrapU.
    destruct Hr as [->|Hr]; [by rewrite Z.div_0_l by (apply Z.pow_nonzero; lia)|]. rewrite !(Z.mod_small (v `div` _)) by lia. done.
Qed.

Lemma lead3_quot v n : 0 <= n -> lead3 v n = (v * 2 ^ 24) `div` 2 ^ (8 * n).
Proof.
  intros Hn. unfold lead3. destruct (Z.leb_spec n 3).
  - replace 24 with (8 * (3 - n) + 8 * n) by lia. rewrite Z.pow_add_r, Z.mul_assoc, Z.div_mul by (try apply Z.pow_nonzero; lia). done.
  - replace (8 * n) with (8 * (n - 3) + 24) by lia. rewrite Z.pow_add_r by lia. rewrite Z.div_mul_cancel_r by (apply Z.pow_nonzero; lia). done.
Qed.

Lemma lead3_compact v n :
  1 <= n <= 32 -> 2 ^ 16 <= lead3 v n < 2 ^ 24 ->
  let '(m, n) := if 2 ^ 23 <=? lead3 v n then (Z.shiftr (lead3 v n) 8, n + 1) else (lead3 v n, n) in compact_of v m n.
Proof.
  intros Hn Hr. unfold compact_of. destruct (Z.leb_spec (2 ^ 23) (lead3 v n)).
  - rewrite Z.shiftr_div_pow2 by lia. assert (2 ^ 15 <= lead3 v n `div` 2 ^ 8) by (apply Z.div_le_lower_bound; lia).
    assert (lead3 v n `div` 2 ^ 8 < 2 ^ 16) by (apply Z.div_lt_upper_bound; lia). split_and!; try lia.
    rewrite lead3_quot, Z.div_div by (try apply Z.pow_nonzero; lia). rewrite <- Z.pow_add_r by lia. do 2 f_equal. lia.
  - split_and!; try lia. apply lead3_quot. lia.
Qed.

Lemma quot_mono w n1 n2 : 0 <= n1 < n2 -> (w `div` 2 ^ (8 * n1)) < 2 ^ 23 -> w `div` 2 ^ (8 * n2) < 2 ^ 15.
Proof.
  intros Hn H. replace (8 * n2) with (8 * n1 + (8 * (n2 - n1 - 1) + 8)) by lia. rewrite !Z.pow_add_r by lia.
  assert (0 < 2 ^ (8 * n1)) by (apply Z.pow_pos_nonneg; lia). assert (0 < 2 ^ (8 * (n2 - n1 - 1))) by (apply Z.pow_pos_nonneg; lia).
  rewrite <- Z.div_div by lia. apply Z.div_lt_upper_bound; nia.
Qed.

Lemma compact_of_unique v m1 n1 m2 n2 : 0 <= v -> compact_of v m1 n1 -> compact_of v m2 n2 -> m1 = m2 /\ n1 = n2.
Proof.
  intros Hv (Hm1 & Hn1 & _ & E1 & D1) (Hm2 & Hn2 & _ & E2 & D2). assert (n1 = n2) as ->; [|by rewrite E1, E2].
  destruct (decide (v = 0)) as [->|Hv0].
  { rewrite Z.mul_0_l, Z.div_0_l in E1, E2 by (apply Z.pow_nonzero; lia). lia. }
  destruct (Z_lt_le_dec n1 n2); [pose proof (quot_mono (v * 2 ^ 24) n1 n2); lia|].
  destruct (Z_lt_le_dec n2 n1); [pose proof (quot_mono (v * 2 ^ 24) n2 n1); lia|]. lia.
Qed.

(** Neither assertion fails. *)
Lemma GetCompact_spec l v :
  is256 l v -> exists m n, GetCompact l false = Some (m + n * 2 ^ 24) /\ compact_of v m n.
Proof.
  intros Hl. pose proof (is256_range _ _ Hl) as Hin. unfold GetCompact. rewrite (bits_spec l) by apply Hl.
  replace (eval l) with v by (symmetry; apply Hl). destruct (Z.eqb_spec v 0) as [->|Hv0].
  { change ((0 + 7) `div` 8) with 0. rewrite (lead3_code l 0 0 Hl) by (first [by left|done]).
    exists 0, 0. split; [done|]. unfold compact_of. split_and!; try lia. done. }
  assert (0 < v) as Hpos by (unfold inU in Hin; lia). destruct (byte_size v Hin Hpos) as [Hn Hv].
  set (n := (Z.log2 v + 1 + 7) `div` 8) in *. pose proof (lead3_range v n ltac:(lia) Hv) as Hr.
  rewrite (lead3_code l v n Hl) by (lia || right; split; lia). change 8388608 with (2 ^ 23). rewrite land_pow2_eqb, negb_involutive, testbit_top by lia.
  pose proof (lead3_compact v n Hn Hr) as Hc.
  destruct (if 2 ^ 23 <=? lead3 v n then _ else _) as [m n'] eqn:E. exists m, n'. split; [|done].
  destruct Hc as (Hm & Hn' & _). destruct (compact_pack m n' Hm Hn') as [-> ->]. cbn [Z.eqb negb andb].
  rewrite (proj2 (Z.ltb_lt n' 256)) by lia. cbn [negb]. by rewrite Z.lor_0_r.
Qed.

Lemma SetCompact_spec m n :
  0 <= m < 2 ^ 23 -> 0 <= n < 256 ->
  exists l, SetCompact (m + n * 2 ^ 24) =
    (l, false, negb ((if n <=? 3 then m `div` 2 ^ (8 * (3 - n)) else m) =? 0) && ((34 <? n) || ((0xff <? m) && (33 <? n)) || ((0xffff <? m) && (32 <? n)))) /\
  is256 l (if n <=? 3 then m `div` 2 ^ (8 * (3 - n)) else (m * 2 ^ (8 * (n - 3))) `mod` 2 ^ 256).
Proof.
  intros Hm Hn. unfold SetCompact. assert (Z.shiftr (m + n * 2 ^ 24) 24 = n) as ->.
  { rewrite Z.shiftr_div_pow2, Z.div_add, Z.div_small by lia. lia. }
  assert (Z.land (m + n * 2 ^ 24) 0x007fffff = m) as ->.
  { change 0x007fffff with (Z.ones 23). rewrite Z.land_ones by lia. replace (n * 2 ^ 24) with (n * 2 * 2 ^ 23) by lia.
    rewrite Z_mod_plus_full. apply Z.mod_small. lia. }
  assert (Z.land (m + n * 2 ^ 24) 0x00800000 =? 0 = true) as Hs.
  { change 0x00800000 with (2 ^ 23). rewrite land_pow2_eqb by lia. apply negb_true_iff. rewrite <- Z.div_pow2_bits with (n := 23) (m := 0) by lia.
    replace (n * 2 ^ 24) with (n * 2 * 2 ^ 23) by lia. rewrite Z.div_add, Z.div_small by lia. rewrite Z.bit0_odd, Z.add_0_l, Z.odd_mul. apply andb_false_r. }
  destruct (Z.leb_spec n 3).
  - assert (0 < 2 ^ (8 * (3 - n))) by (apply Z.pow_pos_nonneg; lia). rewrite Z.shiftr_div_pow2 by lia.
    assert (0 <= m `div` 2 ^ (8 * (3 - n)) < 2 ^ 23) by (split; [apply Z.div_pos; lia|apply Z.div_lt_upper_bound; nia]).
    eexists. split; [|apply is256_of; unfold inU; lia]. f_equal; [f_equal; rewrite Hs; apply andb_false_r|].
    rewrite (proj2 (Z.ltb_ge 34 n)), (proj2 (Z.ltb_ge 33 n)), (proj2 (Z.ltb_ge 32 n)) by lia. by rewrite !andb_false_r.
  - eexists. split; [|apply is256_shl; [apply is256_of; unfold inU; lia|lia]]. f_equal. rewrite Hs. f_equal. apply andb_false_r.
Qed.

(** What is read back from a compact form. *)
Definition compact_value (v n : Z) : Z := if n <=? 3 then v else v `div` 2 ^ (8 * (n - 3)) * 2 ^ (8 * (n - 3)).

Lemma compact_value_spec v m n :
  inU 256 v -> compact_of v m n ->
  let v' := compact_value v n in 0 <= v' <= v /\ 2 ^ 15 * (v - v') <= v /\ (v < 2 ^ 23 -> v' = v) /\ compact_of v' m n.
Proof.
  unfold inU. intros Hv Hc. pose proof Hc as (Hm & Hn & H33 & E & D). cbn zeta. unfold compact_value. destruct (Z.leb_spec n 3) as [Hle|Hgt].
  { split_and!; lia || done. }
  replace (8 * n) with (8 * (n - 3) + 24) in E by lia. set (k := 8 * (n - 3)) in *. assert (0 < 2 ^ k) by (apply Z.pow_pos_nonneg; lia).
  rewrite Z.pow_add_r, Z.div_mul_cancel_r in E by lia. pose proof (Z.div_mod v (2 ^ k)). pose proof (Z.mod_pos_bound v (2 ^ k)).
  assert (2 ^ 15 <= m) by lia. assert (2 ^ 8 <= 2 ^ k) by (apply Z.pow_le_mono_r; lia).
  assert (2 ^ 15 * 2 ^ k <= v `div` 2 ^ k * 2 ^ k) by (apply Z.mul_le_mono_nonneg_r; lia). split_and!; try lia.
  unfold compact_of. split_and!; try lia. replace (8 * n) with (k + 24) by lia. rewrite Z.pow_add_r, Z.div_mul_cancel_r, Z.div_mul by lia. done.
Qed.

Lemma SetCompact_compact v m n :
  inU 256 v -> compact_of v m n -> exists l, SetCompact (m + n * 2 ^ 24) = (l, false, false) /\ is256 l (compact_value v n).
Proof.
  intros Hv Hc. pose proof Hc as (Hm & Hn & H33 & E & D). destruct (compact_value_spec v m n Hv Hc) as (Hr & _ & _ & _).
  destruct (SetCompact_spec m n Hm ltac:(lia)) as (l & -> & Hl). exists l. unfold inU in Hv. split.
  - f_equal. apply andb_false_iff. right. rewrite (proj2 (Z.ltb_ge 34 n)), (proj2 (Z.ltb_ge 33 n)) by lia. rewrite andb_false_r. cbn [orb].
    destruct (Z.ltb_spec 32 n); [|apply andb_false_r]. rewrite (proj2 (Z.ltb_ge 0xffff m)) by lia. done.
  - unfold compact_value in *. destruct (Z.leb_spec n 3).
    + replace (m `div` 2 ^ (8 * (3 - n))) with v in Hl; [done|]. rewrite E, <- lead3_quot by lia. unfold lead3.
      rewrite (proj2 (Z.leb_le n 3)) by lia. rewrite Z.div_mul; [done|apply Z.pow_nonzero; lia].
    + assert (m = v `div` 2 ^ (8 * (n - 3))) as Em.
      { rewrite E, <- lead3_quot by lia. unfold lead3. by rewrite (proj2 (Z.leb_gt n 3)) by lia. }
      rewrite <- Em in *. rewrite Z.mod_small in Hl by lia. done.
Qed.

(** The compact form keeps the leading bits: both assertions hold, what is read
    back is positive, does not overflow, never exceeds the number and is short of
    it by at most one part in 2^15, and its compact form is the same. *)
Theorem GetCompact_SetCompact l v :
  is256 l v -> exists c l' v', GetCompact l false = Some c /\ SetCompact c = (l', false, false) /\ is256 l' v' /\
  0 <= v' <= v /\ 2 ^ 15 * (v - v') <= v /\ (v < 2 ^ 23 -> v' = v) /\ GetCompact l' false = Some c.
Proof.
  intros Hl. pose proof (is256_range _ _ Hl) as Hv. destruct (GetCompact_spec l v Hl) as (m & n & E & Hc).
  destruct (SetCompact_compact v m n Hv Hc) as (l' & Es & Hl'). destruct (compact_value_spec v m n Hv Hc) as (H1 & H2 & H3 & H4).
  exists (m + n * 2 ^ 24), l', (compact_value v n). split_and!; try done || lia.
  destruct (GetCompact_spec l' _ Hl') as (m' & n' & E' & Hc').
  destruct (compact_of_unique _ _ _ _ _ (proj1 H1) H4 Hc') as [-> ->]. done.
Qed.
