(* ===== verification/Chain.v ===== *)
(** * The tree of block headers and the active chain
    (src/src/chain.h, src/src/chain.cpp; LookupBlockIndex, FindForkInGlobalIndex and
    BlockManager::AddToBlockIndex of src/src/validation.cpp)

    The entries of the block index are allocated once per block hash and never
    move, so a [CBlockIndex*] is the hash of its entry and [m_block_index] is the
    store the pointers are read in.  A null pointer is [None] of [option uint256].
    [None] of the result is a failed assertion or a read through a pointer that is
    not in the store. *)

From S2P Require Import Prelude Serialize Params BetKeys Arith256.

(** ** Validity levels and status bits *)
Definition BLOCK_VALID_TREE : Z := 2.
Definition BLOCK_VALID_TRANSACTIONS : Z := 3.
Definition BLOCK_VALID_SCRIPTS : Z := 5.
Definition BLOCK_VALID_MASK : Z := 7.
Definition BLOCK_HAVE_DATA : Z := 8.
Definition BLOCK_FAILED_VALID : Z := 32.
Definition BLOCK_FAILED_CHILD : Z := 64.
Definition BLOCK_FAILED_MASK : Z := Z.lor BLOCK_FAILED_VALID BLOCK_FAILED_CHILD.
Definition BLOCK_CONFLICT_CHAINLOCK : Z := 128.

Definition BLOCK_PROOF_OF_STAKE : Z := 1.
Definition BLOCK_STAKE_ENTROPY : Z := 2.
Definition BLOCK_STAKE_MODIFIER : Z := 4.

Definition MAX_FUTURE_BLOCK_TIME_POW : Z := 2 * 60 * 60.
Definition MAX_FUTURE_BLOCK_TIME_POS : Z := 3 * 60.
Definition medianTimeSpan : nat := 11.

(** A bit test as the code writes it. *)
Definition has_bits (x mask : Z) : bool := negb (Z.land x mask =? 0).

(** ** Headers and entries *)
Record CBlockHeader := {
  h_nVersion : Z; h_hashPrevBlock : uint256; h_hashMerkleRoot : uint256; h_nTime : Z; h_nBits : Z; h_nNonce : Z;
  h_nAccumulatorCheckpoint : uint256 }.

(** The consensus parameters of the chain's clock and of proof of work and stake. *)
Record PosParams := {
  powLimit : uint256; posLimit : uint256; posLimit_V2 : uint256;
  fPowAllowMinDifficultyBlocks : bool; fPowNoRetargeting : bool;
  nPowTargetSpacing : Z; nPosTargetSpacing : Z; nPosTargetTimespan : Z; nPosTargetTimespan_V2 : Z;
  nPosStartHeight : Z; nBlockStakeModifierV1A : Z; nBlockStakeModifierV2 : Z; nBlockTimeProtocolV2 : Z;
  nMinimumDifficultyBlocks : Z; nTimeSlotLength : Z; nStakeMinDepth : Z; nStakeMinAge : Z;
  nBlockZerocoinV2 : Z; nPublicZCSpends : Z }.

Definition IsTimeProtocolV2 (params : PosParams) (nHeight : Z) : bool := nBlockTimeProtocolV2 params <=? nHeight.

Record CBlockIndexNode := BlockNode {
  bi_pprev : option uint256; bi_pskip : option uint256; bi_nHeight : Z;
  bi_nChainWork : list Z; bi_nTx : Z; bi_nChainTx : Z; bi_nStatus : Z;
  bi_nFlags : Z; bi_nStakeModifier : Z; bi_nStakeModifierV2 : uint256;
  bi_nVersion : Z; bi_hashMerkleRoot : uint256; bi_nTime : Z; bi_nBits : Z; bi_nNonce : Z; bi_nAccumulatorCheckpoint : uint256;
  bi_nSequenceId : Z; bi_nTimeMax : Z }.

(** The constructor from a header. *)
Definition CBlockIndex_of (block : CBlockHeader) : CBlockIndexNode :=
  BlockNode None None 0 base_uint_zero 0 0 0 0 0 0 (h_nVersion block) (h_hashMerkleRoot block) (h_nTime block) (h_nBits block) (h_nNonce block)
    (if (3 <? h_nVersion block) && (h_nVersion block <? 7) then h_nAccumulatorCheckpoint block else 0) 0 0.

Definition set_link (n : CBlockIndexNode) (pprev pskip : option uint256) (nHeight : Z) : CBlockIndexNode :=
  BlockNode pprev pskip nHeight (bi_nChainWork n) (bi_nTx n) (bi_nChainTx n) (bi_nStatus n) (bi_nFlags n) (bi_nStakeModifier n)
    (bi_nStakeModifierV2 n) (bi_nVersion n) (bi_hashMerkleRoot n) (bi_nTime n) (bi_nBits n) (bi_nNonce n) (bi_nAccumulatorCheckpoint n)
    (bi_nSequenceId n) (bi_nTimeMax n).

Definition set_totals (n : CBlockIndexNode) (nTimeMax : Z) (nChainWork : list Z) : CBlockIndexNode :=
  BlockNode (bi_pprev n) (bi_pskip n) (bi_nHeight n) nChainWork (bi_nTx n) (bi_nChainTx n) (bi_nStatus n) (bi_nFlags n) (bi_nStakeModifier n)
    (bi_nStakeModifierV2 n) (bi_nVersion n) (bi_hashMerkleRoot n) (bi_nTime n) (bi_nBits n) (bi_nNonce n) (bi_nAccumulatorCheckpoint n)
    (bi_nSequenceId n) nTimeMax.

Definition set_status (n : CBlockIndexNode) (nStatus : Z) : CBlockIndexNode :=
  BlockNode (bi_pprev n) (bi_pskip n) (bi_nHeight n) (bi_nChainWork n) (bi_nTx n) (bi_nChainTx n) nStatus (bi_nFlags n) (bi_nStakeModifier n)
    (bi_nStakeModifierV2 n) (bi_nVersion n) (bi_hashMerkleRoot n) (bi_nTime n) (bi_nBits n) (bi_nNonce n) (bi_nAccumulatorCheckpoint n)
    (bi_nSequenceId n) (bi_nTimeMax n).

Definition set_stake (n : CBlockIndexNode) (nFlags nStakeModifier : Z) (nStakeModifierV2 : uint256) : CBlockIndexNode :=
  BlockNode (bi_pprev n) (bi_pskip n) (bi_nHeight n) (bi_nChainWork n) (bi_nTx n) (bi_nChainTx n) (bi_nStatus n) nFlags nStakeModifier
    nStakeModifierV2 (bi_nVersion n) (bi_hashMerkleRoot n) (bi_nTime n) (bi_nBits n) (bi_nNonce n) (bi_nAccumulatorCheckpoint n)
    (bi_nSequenceId n) (bi_nTimeMax n).

(** ** Flags *)
Definition IsProofOfStakeIndex (n : CBlockIndexNode) : bool := has_bits (bi_nFlags n) BLOCK_PROOF_OF_STAKE.
Definition IsProofOfWorkIndex (n : CBlockIndexNode) : bool := negb (has_bits (bi_nFlags n) BLOCK_PROOF_OF_STAKE).
Definition GeneratedStakeModifier (n : CBlockIndexNode) : bool := has_bits (bi_nFlags n) BLOCK_STAKE_MODIFIER.

Definition SetProofOfStake (n : CBlockIndexNode) : CBlockIndexNode :=
  set_stake n (Z.lor (bi_nFlags n) BLOCK_PROOF_OF_STAKE) (bi_nStakeModifier n) (bi_nStakeModifierV2 n).

Definition SetStakeEntropyBit (n : CBlockIndexNode) (nEntropyBit : Z) : CBlockIndexNode :=
  set_stake n (Z.lor (bi_nFlags n) (if negb (nEntropyBit =? 0) then BLOCK_STAKE_ENTROPY else 0)) (bi_nStakeModifier n) (bi_nStakeModifierV2 n).

Definition SetStakeModifier (n : CBlockIndexNode) (nModifier : Z) (fGeneratedStakeModifier : bool) : CBlockIndexNode :=
  set_stake n (if fGeneratedStakeModifier then Z.lor (bi_nFlags n) BLOCK_STAKE_MODIFIER else bi_nFlags n) nModifier (bi_nStakeModifierV2 n).

Definition IsValid (n : CBlockIndexNode) (nUpTo : Z) : option bool :=
  if has_bits nUpTo (Z.lnot BLOCK_VALID_MASK) then None
  else Some (if has_bits (bi_nStatus n) BLOCK_FAILED_MASK then false else nUpTo <=? Z.land (bi_nStatus n) BLOCK_VALID_MASK).

Definition RaiseValidity (n : CBlockIndexNode) (nUpTo : Z) : option (CBlockIndexNode * bool) :=
  if has_bits nUpTo (Z.lnot BLOCK_VALID_MASK) then None
  else Some (
    if has_bits (bi_nStatus n) BLOCK_FAILED_MASK then (n, false)
    else if Z.land (bi_nStatus n) BLOCK_VALID_MASK <? nUpTo
    then (set_status n (Z.lor (Z.land (bi_nStatus n) (Z.lnot BLOCK_VALID_MASK)) nUpTo), true)
    else (n, false)).

(** ** The 32 bytes of a hash as a 256-bit integer *)
Definition UintToArith256 (a : uint256) : list Z :=
  (fun x => le_value (take 4 (drop (x * 4) (Serialize uint256c a)))) <$> seq 0 WIDTH.

Definition GetStakeEntropyBit (hash : uint256) : Z := Z.land (GetLow64 (UintToArith256 hash)) 1.

(** ** The work of a block *)
Definition GetBlockProof (nBits : Z) : option (list Z) :=
  let '(bnTarget, fNegative, fOverflow) := SetCompact nBits in
  if fNegative || fOverflow || EqualTo bnTarget 0 then Some (base_uint_of 0)
  else q ← op_div (op_not bnTarget) (op_add bnTarget (base_uint_of 1)); Some (op_add q (base_uint_of 1)).

(** ** Walking up the tree *)
Definition BlockMap : Type := gmap uint256 CBlockIndexNode.

(** Turn the lowest 1 bit into a 0. *)
Definition InvertLowestOne (n : Z) : Z := Z.land n (n - 1).

Definition GetSkipHeight (height : Z) : Z :=
  if height <? 2 then 0
  else if negb (Z.land height 1 =? 0) then InvertLowestOne (InvertLowestOne (height - 1)) + 1
  else InvertLowestOne height.

(** The loop of GetAncestor: the skip pointer is taken unless the skip pointer of
    the predecessor is better. *)
Fixpoint ancestor_loop (m : BlockMap) (fuel : nat) (pindexWalk : uint256) (heightWalk height : Z) : option uint256 :=
  if heightWalk <=? height then Some pindexWalk
  else
    match fuel with
    | O => None
    | S fuel =>
        n ← m !! pindexWalk;
        let heightSkip := GetSkipHeight heightWalk in
        let heightSkipPrev := GetSkipHeight (heightWalk - 1) in
        if bool_decide (bi_pskip n <> None) &&
           ((heightSkip =? height) ||
            ((height <? heightSkip) && negb ((heightSkipPrev <? heightSkip - 2) && (height <=? heightSkipPrev))))
        then s ← bi_pskip n; ancestor_loop m fuel s heightSkip height
        else p ← bi_pprev n; ancestor_loop m fuel p (heightWalk - 1) height
    end.

Definition GetAncestor (m : BlockMap) (this : uint256) (height : Z) : option (option uint256) :=
  n ← m !! this;
  if (bi_nHeight n <? height) || (height <? 0) then Some None
  else Some <$> ancestor_loop m (Z.to_nat (bi_nHeight n - height)) this (bi_nHeight n) height.

Definition BuildSkip (m : BlockMap) (n : CBlockIndexNode) : option CBlockIndexNode :=
  match bi_pprev n with
  | Some p => s ← GetAncestor m p (GetSkipHeight (bi_nHeight n)); Some (set_link n (bi_pprev n) s (bi_nHeight n))
  | None => Some n
  end.

(** The last times of a chain, the block's own first, sorted; their median. *)
Fixpoint past_times (m : BlockMap) (k : nat) (pindex : option uint256) : option (list Z) :=
  match k, pindex with
  | S k, Some h => n ← m !! h; ts ← past_times m k (bi_pprev n); Some (bi_nTime n :: ts)
  | _, _ => Some []
  end.

Definition MedianTimePast (m : BlockMap) (this : uint256) : option Z :=
  ts ← past_times m medianTimeSpan (Some this);
  merge_sort Z.le ts !! (length ts / 2)%nat.

Definition FutureBlockTimeDrift (params : PosParams) (nHeight : Z) : Z :=
  if IsTimeProtocolV2 params nHeight then nTimeSlotLength params - 1
  else if nPosStartHeight params <=? nHeight then MAX_FUTURE_BLOCK_TIME_POS else MAX_FUTURE_BLOCK_TIME_POW.

Definition MaxFutureBlockTime (params : PosParams) (n : CBlockIndexNode) (nAdjustedTime : Z) : Z :=
  nAdjustedTime + FutureBlockTimeDrift params (bi_nHeight n + 1).

Definition MinPastBlockTime (params : PosParams) (m : BlockMap) (this : uint256) : option Z :=
  n ← m !! this;
  if negb (IsTimeProtocolV2 params (bi_nHeight n + 1)) then MedianTimePast m this
  else if bi_nHeight n + 1 =? nBlockTimeProtocolV2 params
  then Some (bi_nTime n - FutureBlockTimeDrift params (bi_nHeight n) + FutureBlockTimeDrift params (bi_nHeight n + 1))
  else Some (bi_nTime n).

(** [pa] and [pb] of the code; null on both sides ends the loop too. *)
Fixpoint common_loop (m : BlockMap) (fuel : nat) (pa pb : option uint256) : option (option uint256) :=
  match pa, pb with
  | Some a, Some b =>
      if decide (a = b) then Some pa
      else
        match fuel with
        | O => None
        | S fuel => na ← m !! a; nb ← m !! b; common_loop m fuel (bi_pprev na) (bi_pprev nb)
        end
  | _, _ => if decide (pa = pb) then Some pa else None
  end.

Definition LastCommonAncestor (m : BlockMap) (pa pb : uint256) : option (option uint256) :=
  na ← m !! pa; nb ← m !! pb;
  a ← (if bi_nHeight nb <? bi_nHeight na then GetAncestor m pa (bi_nHeight nb) else Some (Some pa));
  b ← (if bi_nHeight na <? bi_nHeight nb then GetAncestor m pb (bi_nHeight na) else Some (Some pb));
  common_loop m (Z.to_nat (Z.min (bi_nHeight na) (bi_nHeight nb)) + 1) a b.

(** ** The active chain *)
(** The vector vChain of the class CChain. *)
Notation CChain := (list (option uint256)).

Definition chain_at (c : CChain) (nHeight : Z) : option uint256 :=
  if (nHeight <? 0) || (Z.of_nat (length c) <=? nHeight) then None else mjoin (c !! Z.to_nat nHeight).

Definition Genesis (c : CChain) : option uint256 := mjoin (c !! 0%nat).
Definition Tip (c : CChain) : option uint256 := mjoin (last c).
Definition Height (c : CChain) : Z := Z.of_nat (length c) - 1.

Definition Contains (m : BlockMap) (c : CChain) (pindex : uint256) : option bool :=
  n ← m !! pindex; Some (bool_decide (chain_at c (bi_nHeight n) = Some pindex)).

Definition Next (m : BlockMap) (c : CChain) (pindex : uint256) : option (option uint256) :=
  n ← m !! pindex; Some (if bool_decide (chain_at c (bi_nHeight n) = Some pindex) then chain_at c (bi_nHeight n + 1) else None).

Fixpoint set_tip_loop (m : BlockMap) (fuel : nat) (c : CChain) (pindex : option uint256) : option CChain :=
  match pindex with
  | None => Some c
  | Some h =>
      n ← m !! h;
      x ← c !! Z.to_nat (bi_nHeight n);
      if decide (x = Some h) then Some c
      else
        match fuel with
        | O => None
        | S fuel => set_tip_loop m fuel (<[Z.to_nat (bi_nHeight n) := Some h]> c) (bi_pprev n)
        end
  end.

Definition SetTip (m : BlockMap) (c : CChain) (pindex : option uint256) : option CChain :=
  match pindex with
  | None => Some []
  | Some h =>
      n ← m !! h;
      set_tip_loop m (Z.to_nat (bi_nHeight n) + 1) (resize (Z.to_nat (bi_nHeight n) + 1) None c) (Some h)
  end.

(** Up from [pindex] until a block of the chain, or past the genesis block. *)
Fixpoint fork_loop (m : BlockMap) (fuel : nat) (c : CChain) (pindex : option uint256) : option (option uint256) :=
  match pindex with
  | None => Some None
  | Some h =>
      b ← Contains m c h;
      if b : bool then Some (Some h)
      else
        match fuel with
        | O => None
        | S fuel => n ← m !! h; fork_loop m fuel c (bi_pprev n)
        end
  end.

Definition FindFork (m : BlockMap) (c : CChain) (pindex : option uint256) : option (option uint256) :=
  match pindex with
  | None => Some None
  | Some h =>
      n ← m !! h;
      p ← (if Height c <? bi_nHeight n then GetAncestor m h (Height c) else Some (Some h));
      fork_loop m (Z.to_nat (bi_nHeight n) + 1) c p
  end.

(** The hashes of a locator: every block for the first steps, then twice as far
    each time, and the genesis block. *)
Fixpoint locator_loop (m : BlockMap) (fuel : nat) (c : CChain) (nStep : Z) (vHave : list uint256) (pindex : option uint256) : option (list uint256) :=
  match pindex with
  | None => Some vHave
  | Some h =>
      match fuel with
      | O => None
      | S fuel =>
          n ← m !! h;
          let vHave := vHave ++ [h] in
          if bi_nHeight n =? 0 then Some vHave
          else
            let nHeight := Z.max (bi_nHeight n - nStep) 0 in
            b ← Contains m c h;
            next ← (if b : bool then Some (chain_at c nHeight) else GetAncestor m h nHeight);
            locator_loop m fuel c (if 10 <? Z.of_nat (length vHave) then nStep * 2 else nStep) vHave next
      end
  end.

Definition GetLocator (m : BlockMap) (c : CChain) (pindex : option uint256) : option (list uint256) :=
  match (match pindex with None => Tip c | Some _ => pindex end) with
  | None => Some []
  | Some h => n ← m !! h; locator_loop m (Z.to_nat (bi_nHeight n) + 1) c 1 [] (Some h)
  end.

Fixpoint FindForkInGlobalIndex (m : BlockMap) (c : CChain) (vHave : list uint256) : option uint256 :=
  match vHave with
  | [] => Genesis c
  | hash :: vHave => if default false (Contains m c hash) then Some hash else FindForkInGlobalIndex m c vHave
  end.

(** ** Adding a header *)
Record BlockManager := {
  m_block_index : BlockMap;
  m_prev_block_index : list (uint256 * uint256);
  setDirtyBlockIndex : gset uint256;
  pindexBestHeader : option uint256;
  m_failed_blocks : list uint256 }.

Section add.
(** The hash of a header (src/src/primitives/block.cpp). *)
Context (GetHash : CBlockHeader -> uint256).

Definition work_lt (a b : list Z) : bool := CompareTo a b <? 0.

(** [pprev], the height and the skip pointer, set when the previous block is known. *)
Definition link_new (m : BlockMap) (hash : uint256) (block : CBlockHeader) : option CBlockIndexNode :=
  let n := CBlockIndex_of block in
  match <[hash := n]> m !! h_hashPrevBlock block with
  | Some prev =>
      let n := set_link n (Some (h_hashPrevBlock block)) None (bi_nHeight prev + 1) in
      BuildSkip (<[hash := n]> m) n
  | None => Some n
  end.

Definition sum_new (m : BlockMap) (n : CBlockIndexNode) : option CBlockIndexNode :=
  proof ← GetBlockProof (bi_nBits n);
  match bi_pprev n with
  | Some p =>
      prev ← m !! p;
      Some (set_totals n (Z.max (bi_nTimeMax prev) (bi_nTime n)) (op_add (bi_nChainWork prev) proof))
  | None => Some (set_totals n (bi_nTime n) (op_add (base_uint_of 0) proof))
  end.

Definition best_header (bm : BlockManager) (hash : uint256) (n : CBlockIndexNode) : option (option uint256) :=
  match pindexBestHeader bm with
  | None => Some (Some hash)
  | Some b => nb ← m_block_index bm !! b; Some (if work_lt (bi_nChainWork nb) (bi_nChainWork n) then Some hash else Some b)
  end.

(** The entry in the index, in the set of entries to write and under its predecessor. *)
Definition put_entry (bm : BlockManager) (hash : uint256) (n : CBlockIndexNode) (best : option uint256) : BlockManager :=
  {| m_block_index := <[hash := n]> (m_block_index bm);
     m_prev_block_index := match bi_pprev n with
                           | Some p => m_prev_block_index bm ++ [(p, hash)]
                           | None => m_prev_block_index bm
                           end;
     setDirtyBlockIndex := {[hash]} ∪ setDirtyBlockIndex bm;
     pindexBestHeader := best;
     m_failed_blocks := m_failed_blocks bm |}.

Definition AddToBlockIndex (bm : BlockManager) (block : CBlockHeader) (nStatus : Z) : option (BlockManager * uint256) :=
  if has_bits nStatus BLOCK_FAILED_MASK then None
  else
    let hash := GetHash block in
    match m_block_index bm !! hash with
    | Some _ => Some (bm, hash)
    | None =>
        n ← link_new (m_block_index bm) hash block;
        n ← sum_new (<[hash := n]> (m_block_index bm)) n;
        '(n, best) ← (if has_bits nStatus BLOCK_VALID_MASK
                      then '(n, _) ← RaiseValidity n nStatus; best ← best_header bm hash n; Some (n, best)
                      else '(n, _) ← RaiseValidity n BLOCK_VALID_TREE; Some (set_status n (Z.lor (bi_nStatus n) nStatus), pindexBestHeader bm));
        Some (put_entry bm hash n best, hash)
    end.
End add.
