(* ===== verification/ChainProofs.v ===== *)
(** * The tree of headers: proofs about Chain.v

    [tree_wf] is the invariant of the block index: heights count the predecessors
    and every skip pointer is the ancestor at the skip height.  Under it
    [GetAncestor] is the walk along [pprev]; the headers that are added keep it. *)

From S2P Require Import Prelude Serialize Params BetKeys Arith256 Chain.

(** ** The reference: [k] steps along [pprev] *)
Fixpoint walk (m : BlockMap) (k : nat) (h : uint256) : option uint256 :=
  match k with
  | O => Some h
  | S k => n ← m !! h; p ← bi_pprev n; walk m k p
  end.

Record node_wf (m : BlockMap) (h : uint256) (n : CBlockIndexNode) : Prop := {
  nw_height : 0 <= bi_nHeight n;
  nw_root : bi_pprev n = None -> bi_nHeight n = 0;
  nw_prev : forall p, bi_pprev n = Some p -> exists np, m !! p = Some np /\ bi_nHeight n = bi_nHeight np + 1;
  nw_skip : bi_pskip n = match bi_pprev n with
                         | None => None
                         | Some _ => walk m (Z.to_nat (bi_nHeight n - GetSkipHeight (bi_nHeight n))) h
                         end }.

Definition tree_wf (m : BlockMap) : Prop := forall h n, m !! h = Some n -> node_wf m h n.

Lemma store_weaken (m m' : BlockMap) h n : m ⊆ m' -> m !! h = Some n -> m' !! h = Some n.
Proof. intros Hm Hn. exact (lookup_weaken m m' h n Hn Hm). Qed.

Lemma store_insert_ne (m : BlockMap) h h' n : h <> h' -> <[h := n]> m !! h' = m !! h'.
Proof. exact (lookup_insert_ne m h h' n). Qed.

Lemma store_insert_eq (m : BlockMap) h n : <[h := n]> m !! h = Some n.
Proof. exact (lookup_insert_eq m h n). Qed.

Lemma walk_add m a b h : walk m (a + b) h = walk m a h ≫= walk m b.
Proof.
  revert h. induction a as [|a IH]; intros h; [done|]. cbn [Nat.add walk]. destruct (m !! h) as [n|]; [|done]. cbn.
  destruct (bi_pprev n) as [p|]; [|done]. cbn. apply IH.
Qed.

Lemma walk_some m h n k :
  tree_wf m -> m !! h = Some n -> Z.of_nat k <= bi_nHeight n ->
  exists h' n', walk m k h = Some h' /\ m !! h' = Some n' /\ bi_nHeight n' = bi_nHeight n - Z.of_nat k.
Proof.
  intros Hwf. revert h n. induction k as [|k IH]; intros h n Hh Hk.
  { exists h, n. split_and!; [done..|lia]. }
  cbn [walk]. rewrite Hh. cbn. destruct (Hwf h n Hh) as [H0 Hr Hp _]. destruct (bi_pprev n) as [p|]; [|specialize (Hr eq_refl); lia]. cbn.
  destruct (Hp p eq_refl) as (np & Ep & Eh). destruct (IH p np Ep ltac:(lia)) as (h' & n' & E1 & E2 & E3). exists h', n'. split_and!; [done..|lia].
Qed.

Lemma walk_mono m m' k h h' : m ⊆ m' -> walk m k h = Some h' -> walk m' k h = Some h'.
Proof.
  intros Hm. revert h. induction k as [|k IH]; intros h; [done|]. cbn [walk]. intros E.
  apply bind_Some in E as (n & En & E). apply bind_Some in E as (p & Ep & E).
  rewrite (store_weaken _ _ _ _ Hm En). cbn. rewrite Ep. cbn. by apply IH.
Qed.

(** ** The skip height *)
Lemma land_le_r a b : 0 <= b -> Z.land a b <= b.
Proof.
  intros Hb. assert (Z.lor (Z.land b a) (Z.ldiff b a) = b) as E.
  { apply Z.bits_inj'. intros i Hi. rewrite Z.lor_spec, Z.land_spec, Z.ldiff_spec. by destruct (Z.testbit b i), (Z.testbit a i). }
  rewrite add_lor_disjoint in E.
  - rewrite Z.land_comm. assert (0 <= Z.ldiff b a) by (apply Z.ldiff_nonneg; lia). lia.
  - apply Z.bits_inj'. intros i Hi. rewrite !Z.land_spec, Z.ldiff_spec, Z.bits_0. by destruct (Z.testbit b i), (Z.testbit a i).
Qed.

Lemma InvertLowestOne_range n : 0 < n -> 0 <= InvertLowestOne n < n.
Proof. intros Hn. unfold InvertLowestOne. pose proof (land_le_r n (n - 1) ltac:(lia)). split; [apply Z.land_nonneg|]; lia. Qed.

Lemma GetSkipHeight_range h : 1 <= h -> 0 <= GetSkipHeight h < h.
Proof.
  intros Hh. unfold GetSkipHeight. destruct (Z.ltb_spec h 2); [lia|]. destruct (negb _).
  - pose proof (InvertLowestOne_range (h - 1) ltac:(lia)) as H1. destruct (decide (InvertLowestOne (h - 1) = 0)) as [->|]; [change (InvertLowestOne 0) with 0; lia|].
    pose proof (InvertLowestOne_range (InvertLowestOne (h - 1)) ltac:(lia)). lia.
  - apply InvertLowestOne_range. lia.
Qed.

(** ** The skip list is the walk along [pprev] *)
Lemma ancestor_loop_spec m fuel : forall h n height,
  tree_wf m -> m !! h = Some n -> 0 <= height <= bi_nHeight n -> (Z.to_nat (bi_nHeight n - height) <= fuel)%nat ->
  ancestor_loop m fuel h (bi_nHeight n) height = walk m (Z.to_nat (bi_nHeight n - height)) h.
Proof.
  induction fuel as [|fuel IH]; intros h n height Hwf Hh Hr Hf; cbn [ancestor_loop]; destruct (Z.leb_spec (bi_nHeight n) height) as [Hle|Hgt].
  1,3: replace (Z.to_nat (bi_nHeight n - height)) with O by lia; done.
  { lia. }
  rewrite Hh. cbn. destruct (Hwf h n Hh) as [H0 Hroot Hprev Hskip]. destruct (bi_pprev n) as [p|] eqn:Ep; [|specialize (Hroot eq_refl); lia].
  pose proof (GetSkipHeight_range (bi_nHeight n) ltac:(lia)) as Hsr. set (sk := GetSkipHeight (bi_nHeight n)) in *.
  destruct (walk_some m h n (Z.to_nat (bi_nHeight n - sk)) Hwf Hh ltac:(lia)) as (s & ns & Es & Hs & Hsh). rewrite Es in Hskip.
  destruct (_ && _) eqn:Ec.
  - rewrite Hskip. cbn. apply andb_true_iff in Ec as [_ Ec]. assert (height <= sk) as Hsk.
    { apply orb_true_iff in Ec as [Ec|Ec]; [apply Z.eqb_eq in Ec; lia|apply andb_true_iff in Ec as [Ec _]; apply Z.ltb_lt in Ec; lia]. }
    replace sk with (bi_nHeight ns) by lia. rewrite IH by (done || lia).
    replace (Z.to_nat (bi_nHeight n - height)) with (Z.to_nat (bi_nHeight n - sk) + Z.to_nat (bi_nHeight ns - height))%nat by lia.
    by rewrite walk_add, Es.
  - destruct (Hprev p eq_refl) as (np & Hp & Hph). cbn. replace (bi_nHeight n - 1) with (bi_nHeight np) by lia. rewrite IH by (done || lia).
    replace (Z.to_nat (bi_nHeight n - height)) with (S (Z.to_nat (bi_nHeight np - height))) by lia. cbn [walk]. rewrite Hh. cbn. by rewrite Ep.
Qed.

(** GetAncestor finds the block [nHeight - height] steps up the [pprev] pointers,
    whichever skip pointers it takes, and is null outside the chain's heights. *)
Lemma GetAncestor_walk m h n height :
  tree_wf m -> m !! h = Some n ->
  GetAncestor m h height =
    Some (if (bi_nHeight n <? height) || (height <? 0) then None else walk m (Z.to_nat (bi_nHeight n - height)) h).
Proof.
  intros Hwf Hh. unfold GetAncestor. rewrite Hh. cbn. destruct (Z.ltb_spec (bi_nHeight n) height), (Z.ltb_spec height 0); try done. cbn [orb].
  rewrite ancestor_loop_spec by (done || lia). destruct (walk_some m h n (Z.to_nat (bi_nHeight n - height)) Hwf Hh ltac:(lia)) as (h' & n' & -> & _). done.
Qed.

Lemma GetAncestor_some m h n height :
  tree_wf m -> m !! h = Some n -> 0 <= height <= bi_nHeight n ->
  exists h' n', GetAncestor m h height = Some (Some h') /\ walk m (Z.to_nat (bi_nHeight n - height)) h = Some h' /\
    m !! h' = Some n' /\ bi_nHeight n' = height.
Proof.
  intros Hwf Hh Hr. rewrite (GetAncestor_walk m h n) by done. rewrite (proj2 (Z.ltb_ge (bi_nHeight n) height)), (proj2 (Z.ltb_ge height 0)) by lia.
  destruct (walk_some m h n (Z.to_nat (bi_nHeight n - height)) Hwf Hh ltac:(lia)) as (h' & n' & E & Hl & Hn). cbn [orb]. rewrite E.
  exists h', n'. split_and!; [done..|lia].
Qed.

(** Extending the store does not move ancestors. *)
Lemma GetAncestor_mono m m' h n height :
  m ⊆ m' -> tree_wf m -> m !! h = Some n -> GetAncestor m' h height = GetAncestor m h height.
Proof.
  intros Hm Hwf Hh. assert (forall fuel h n height, m !! h = Some n -> 0 <= height <= bi_nHeight n -> (Z.to_nat (bi_nHeight n - height) <= fuel)%nat ->
    ancestor_loop m' fuel h (bi_nHeight n) height = ancestor_loop m fuel h (bi_nHeight n) height) as Hloop.
  { clear h n height Hh. induction fuel as [|fuel IH]; intros h n height Hh Hr Hf; cbn [ancestor_loop]; destruct (Z.leb_spec (bi_nHeight n) height); try done.
    rewrite Hh, (store_weaken _ _ _ _ Hm Hh). cbn. destruct (Hwf h n Hh) as [H0 Hroot Hprev Hskip].
    destruct (bi_pprev n) as [p|] eqn:Ep; [|specialize (Hroot eq_refl); lia].
    pose proof (GetSkipHeight_range (bi_nHeight n) ltac:(lia)) as Hsr. set (sk := GetSkipHeight (bi_nHeight n)) in *.
    destruct (walk_some m h n (Z.to_nat (bi_nHeight n - sk)) Hwf Hh ltac:(lia)) as (s & ns & Es & Hs & Hsh). rewrite Es in Hskip.
    destruct (_ && _) eqn:Ec.
    - rewrite Hskip. cbn. replace sk with (bi_nHeight ns) by lia. apply IH; [done| |lia]. apply andb_true_iff in Ec as [_ Ec].
      apply orb_true_iff in Ec as [Ec|Ec]; [apply Z.eqb_eq in Ec; lia|apply andb_true_iff in Ec as [Ec _]; apply Z.ltb_lt in Ec; lia].
    - destruct (Hprev p eq_refl) as (np & Hp & Hph). cbn. replace (bi_nHeight n - 1) with (bi_nHeight np) by lia. apply IH; done || lia. }
  unfold GetAncestor. rewrite Hh, (store_weaken _ _ _ _ Hm Hh). cbn. destruct (_ || _) eqn:E; [done|].
  apply orb_false_iff in E as [E1%Z.ltb_ge E2%Z.ltb_ge]. by rewrite Hloop by (done || lia).
Qed.

(** ** The work of a block *)
Lemma is256_not a x : is256 a x -> is256 (op_not a) (2 ^ 256 - 1 - x).
Proof. intros (Ha & La & <-). destruct (op_not_spec a Ha) as (Ho & Hl & He). split_and!; [done|congruence|]. by rewrite He, La. Qed.

Lemma EqualTo_0 a x : is256 a x -> EqualTo a 0 = (x =? 0).
Proof.
  intros (Ho & Hl & <-). destruct a as [|a [|b l]]; try done. unfold EqualTo, limb. change (drop 2 (a :: b :: l)) with l. cbn [lookup list_lookup default from_option id eval].
  change (Z.shiftr 0 32) with 0. change (Z.land 0 4294967295) with 0. inversion_clear Ho as [|? ? Ha Ho']. inversion_clear Ho' as [|? ? Hb Ho]. unfold inU in *.
  clear Hl. assert (forallb (fun x => x =? 0) l = (eval l =? 0)) as ->.
  { induction Ho as [|c l Hc Ho IH]; [done|]. cbn [forallb eval]. rewrite IH. pose proof (eval_bounds l Ho). unfold inU in Hc.
    destruct (Z.eqb_spec c 0), (Z.eqb_spec (eval l) 0), (Z.eqb_spec (c + 2 ^ 32 * eval l) 0); cbn; done || lia. }
  pose proof (eval_bounds l Ho).
  destruct (Z.eqb_spec (eval l) 0), (Z.eqb_spec b 0), (Z.eqb_spec a 0), (Z.eqb_spec (a + 2 ^ 32 * (b + 2 ^ 32 * eval l)) 0); cbn; done || lia.
Qed.

(** Whatever the 32 bits are, the target is a 256-bit integer, and never the
    largest one. *)
Lemma SetCompact_value c :
  inU 32 c -> exists v, is256 (SetCompact c).1.1 v /\ v < 2 ^ 256 - 1.
Proof.
  unfold inU. intros Hc. unfold SetCompact. set (n := Z.shiftr c 24). set (w := Z.land c 0x007fffff).
  assert (0 <= w < 2 ^ 23) as Hw.
  { subst w. change 0x007fffff with (Z.ones 23). rewrite Z.land_ones by lia. apply Z.mod_pos_bound. lia. }
  assert (0 <= n) as Hn by (subst n; apply Z.shiftr_nonneg; lia). destruct (Z.leb_spec n 3); cbn [fst snd].
  - assert (0 < 2 ^ (8 * (3 - n))) by (apply Z.pow_pos_nonneg; lia). rewrite Z.shiftr_div_pow2 by lia.
    assert (0 <= w `div` 2 ^ (8 * (3 - n)) < 2 ^ 23) by (split; [apply Z.div_pos; lia|apply Z.div_lt_upper_bound; nia]).
    eexists. split; [apply is256_of; unfold inU; lia|lia].
  - eexists. split; [apply is256_shl; [apply is256_of; unfold inU; lia|lia]|].
    replace (8 * (n - 3)) with (8 + 8 * (n - 4)) by lia. rewrite Z.pow_add_r by lia.
    replace (w * (2 ^ 8 * 2 ^ (8 * (n - 4)))) with (w * 2 ^ (8 * (n - 4)) * 2 ^ 8) by lia.
    replace (2 ^ 256) with (2 ^ 248 * 2 ^ 8) by lia. rewrite Zmult_mod_distr_r.
    pose proof (Z.mod_pos_bound (w * 2 ^ (8 * (n - 4))) (2 ^ 248)). lia.
Qed.

(** The expected number of hashes, computed without leaving 256 bits. *)
Lemma GetBlockProof_spec nBits :
  inU 32 nBits ->
  exists t l w, is256 (SetCompact nBits).1.1 t /\ GetBlockProof nBits = Some l /\ is256 l w /\
    w = if (SetCompact nBits).1.2 || (SetCompact nBits).2 || (t =? 0) then 0 else 2 ^ 256 `div` (t + 1).
Proof.
  intros Hb. destruct (SetCompact_value nBits Hb) as (t & Ht & Hlt). unfold GetBlockProof.
  destruct (SetCompact nBits) as [[bn neg] ov]. cbn [fst snd] in *. rewrite (EqualTo_0 bn t Ht).
  pose proof (is256_range _ _ Ht) as Hr. unfold inU in Hr. destruct (neg || ov || (t =? 0)) eqn:E.
  { exists t, (base_uint_of 0), 0. repeat (split; [first [done|by apply is256_of]|]). by rewrite E. }
  pose proof E as E'. apply orb_false_iff in E as [_ E%Z.eqb_neq].
  assert (is256 (base_uint_of 1) 1) as H1 by (by apply is256_of).
  pose proof (is256_add _ _ _ _ Ht H1) as Ht1. rewrite Z.mod_small in Ht1 by lia.
  assert (t + 1 <> 0) as Hnz by lia. destruct (is256_div _ _ _ _ (is256_not _ _ Ht) Ht1 Hnz) as (q & -> & Hq). cbn.
  pose proof (is256_add _ _ _ _ Hq H1) as Hs. exists t, (op_add q (base_uint_of 1)), (2 ^ 256 `div` (t + 1)). split; [done|]. split; [done|]. split; [|by rewrite E'].
  replace ((2 ^ 256 - 1 - t) `div` (t + 1) + 1) with (2 ^ 256 `div` (t + 1)) in Hs.
  - rewrite Z.mod_small in Hs; [done|]. split; [apply Z.div_pos; lia|apply Z.div_lt; lia].
  - replace (2 ^ 256) with (2 ^ 256 - 1 - t + 1 * (t + 1)) at 1 by lia. rewrite Z.div_add by lia. done.
Qed.

Definition proof_of (nBits : Z) : Z := match GetBlockProof nBits with Some l => eval l | None => 0 end.

Lemma proof_of_spec nBits : inU 32 nBits -> exists l, GetBlockProof nBits = Some l /\ is256 l (proof_of nBits).
Proof.
  intros Hb. destruct (GetBlockProof_spec nBits Hb) as (t & l & w & _ & E & Hl & _). exists l. split; [done|].
  unfold proof_of. rewrite E. destruct Hl as (? & ? & ?). by split_and!.
Qed.

(** ** Adding headers keeps the index well formed *)
Definition parent_of (m : BlockMap) (n : CBlockIndexNode) : option CBlockIndexNode := p ← bi_pprev n; m !! p.

(** The chain work is the sum of the proofs, the time bound the greatest time. *)
Record totals_wf (m : BlockMap) (n : CBlockIndexNode) : Prop := {
  tw_bits : inU 32 (bi_nBits n);
  tw_work : is256 (bi_nChainWork n) ((from_option (fun np => eval (bi_nChainWork np)) 0 (parent_of m n) + proof_of (bi_nBits n)) `mod` 2 ^ 256);
  tw_time : bi_nTimeMax n = from_option (fun np => Z.max (bi_nTimeMax np) (bi_nTime n)) (bi_nTime n) (parent_of m n) }.

Record index_wf (bm : BlockManager) : Prop := {
  iw_tree : tree_wf (m_block_index bm);
  iw_totals : forall h n, m_block_index bm !! h = Some n -> totals_wf (m_block_index bm) n;
  iw_best : forall b, pindexBestHeader bm = Some b -> is_Some (m_block_index bm !! b);
  iw_children : forall p h, (p, h) ∈ m_prev_block_index bm <-> exists n, m_block_index bm !! h = Some n /\ bi_pprev n = Some p }.

Lemma node_wf_mono m m' h n : m ⊆ m' -> tree_wf m -> m !! h = Some n -> node_wf m' h n.
Proof.
  intros Hm Hwf Hh. destruct (Hwf h n Hh) as [H0 Hr Hp Hs]. split; [done|done| |].
  - intros p Ep. destruct (Hp p Ep) as (np & E & Eh). exists np. split; [by eapply store_weaken|done].
  - rewrite Hs. destruct (bi_pprev n) as [p|]; [|done].
    assert (0 <= GetSkipHeight (bi_nHeight n)) as Hsk.
    { destruct (decide (bi_nHeight n = 0)) as [->|]; [done|]. pose proof (GetSkipHeight_range (bi_nHeight n)). lia. }
    destruct (walk_some m h n (Z.to_nat (bi_nHeight n - GetSkipHeight (bi_nHeight n))) Hwf Hh) as (h' & n' & E & _); [lia|].
    rewrite E. symmetry. by eapply walk_mono.
Qed.

Lemma parent_of_mono m m' h n : m ⊆ m' -> tree_wf m -> m !! h = Some n -> parent_of m' n = parent_of m n.
Proof.
  intros Hm Hwf Hh. unfold parent_of. destruct (bi_pprev n) as [p|] eqn:Ep; [|done]. cbn.
  destruct (nw_prev _ _ _ (Hwf h n Hh) p Ep) as (np & E & _). by rewrite E, (store_weaken _ _ _ _ Hm E).
Qed.

Lemma totals_wf_mono m m' h n : m ⊆ m' -> tree_wf m -> m !! h = Some n -> totals_wf m n -> totals_wf m' n.
Proof. intros Hm Hwf Hh [H1 H2 H3]. split; [done|..]; by rewrite (parent_of_mono m m' h n Hm Hwf Hh). Qed.

(** Entries with the same links. *)
Definition same_links (n n' : CBlockIndexNode) : Prop :=
  bi_pprev n' = bi_pprev n /\ bi_pskip n' = bi_pskip n /\ bi_nHeight n' = bi_nHeight n.

Lemma BuildSkip_spec m m' p np n :
  m ⊆ m' -> tree_wf m -> m !! p = Some np -> bi_pprev n = Some p -> bi_nHeight n = bi_nHeight np + 1 ->
  exists s, BuildSkip m' n = Some (set_link n (Some p) (Some s) (bi_nHeight n)) /\
    walk m (Z.to_nat (bi_nHeight np - GetSkipHeight (bi_nHeight n))) p = Some s.
Proof.
  intros Hsub Hwf Ep En Eh. destruct (Hwf _ _ Ep) as [H0 _ _ _]. pose proof (GetSkipHeight_range (bi_nHeight n) ltac:(lia)) as Hsk.
  destruct (GetAncestor_some m _ np (GetSkipHeight (bi_nHeight n)) Hwf Ep ltac:(lia)) as (s & ns & Eg & Ew & _).
  exists s. split; [|done]. unfold BuildSkip. rewrite En. by rewrite (GetAncestor_mono _ _ _ _ _ Hsub Hwf Ep), Eg.
Qed.

(** The links of a new entry. *)
Lemma link_new_spec m hash block :
  tree_wf m -> m !! hash = None -> hash <> h_hashPrevBlock block ->
  exists n, link_new m hash block = Some n /\ n = set_link (CBlockIndex_of block) (bi_pprev n) (bi_pskip n) (bi_nHeight n) /\
    (forall m' n', m ⊆ m' -> m' !! hash = Some n' -> same_links n n' -> node_wf m' hash n') /\
    bi_pprev n = (if decide (is_Some (m !! h_hashPrevBlock block)) then Some (h_hashPrevBlock block) else None).
Proof.
  intros Hwf Hnone Hne. unfold link_new. rewrite store_insert_ne by done. destruct (m !! h_hashPrevBlock block) as [np|] eqn:Ep.
  - destruct (Hwf _ _ Ep) as [H0 _ _ _]. pose proof (GetSkipHeight_range (bi_nHeight np + 1) ltac:(lia)) as Hsk.
    edestruct (BuildSkip_spec m (<[hash := set_link (CBlockIndex_of block) (Some (h_hashPrevBlock block)) None (bi_nHeight np + 1)]> m)
      (h_hashPrevBlock block) np (set_link (CBlockIndex_of block) (Some (h_hashPrevBlock block)) None (bi_nHeight np + 1))) as (s & -> & Ew);
      [by apply insert_subseteq|done..|]. cbn [set_link bi_nHeight] in Ew.
    eexists. split; [done|]. split; [done|]. split; [|by rewrite decide_True by eauto].
    intros m' n' Hm' Hn' (Lp & Ls & Lh). cbn in Lp, Ls, Lh. split; [lia|congruence| |].
    + intros p E. rewrite Lp in E. injection E as <-. exists np. split; [by eapply store_weaken|done].
    + rewrite Ls, Lp, Lh. replace (Z.to_nat (bi_nHeight np + 1 - GetSkipHeight (bi_nHeight np + 1))) with (S (Z.to_nat (bi_nHeight np - GetSkipHeight (bi_nHeight np + 1)))) by lia.
      cbn [walk]. rewrite Hn'. cbn. rewrite Lp. cbn. symmetry. by eapply walk_mono.
  - eexists. split; [done|]. split; [done|]. split; [|by rewrite decide_False by (intros [? ?]; done)].
    intros m' n' Hm' Hn' (Lp & Ls & Lh). cbn in Lp, Ls, Lh. split; [lia|done|congruence|]. by rewrite Ls, Lp.
Qed.

(** Entries with the same sums. *)
Definition same_sums (n n' : CBlockIndexNode) : Prop :=
  bi_nBits n' = bi_nBits n /\ bi_nTime n' = bi_nTime n /\ bi_nChainWork n' = bi_nChainWork n /\ bi_nTimeMax n' = bi_nTimeMax n.

(** The sums of a new entry. *)
Lemma sum_new_spec m hash n :
  (forall h n, m !! h = Some n -> totals_wf m n) -> m !! hash = None -> inU 32 (bi_nBits n) ->
  (forall p, bi_pprev n = Some p -> is_Some (m !! p)) ->
  exists t w, sum_new (<[hash := n]> m) n = Some (set_totals n t w) /\
    forall m' n', m ⊆ m' -> bi_pprev n' = bi_pprev n -> same_sums (set_totals n t w) n' -> totals_wf m' n'.
Proof.
  intros Hwf Hnone Hb Hp. unfold sum_new. destruct (proof_of_spec _ Hb) as (l & -> & Hl). cbn [mbind option_bind]. destruct (bi_pprev n) as [p|] eqn:Ep.
  - destruct (Hp p eq_refl) as [np Enp]. rewrite store_insert_ne by congruence. rewrite Enp. cbn [mbind option_bind].
    do 2 eexists. split; [done|]. intros m' n' Hm El (Sb & St & Sw & Sm). cbn [set_totals bi_nBits bi_nTime bi_nChainWork bi_nTimeMax] in Sb, St, Sw, Sm.
    assert (parent_of m' n' = Some np) as Epar by (unfold parent_of; rewrite El; cbn; by eapply store_weaken).
    split; [by rewrite Sb|..]; rewrite Epar; cbn [from_option]; [|by rewrite Sm, St].
    rewrite Sw, Sb. destruct (Hwf p np Enp) as [_ Hw _]. apply is256_add; [|done]. destruct Hw as (? & ? & _). by split_and!.
  - do 2 eexists. split; [done|]. intros m' n' Hm El (Sb & St & Sw & Sm). cbn [set_totals bi_nBits bi_nTime bi_nChainWork bi_nTimeMax] in Sb, St, Sw, Sm.
    assert (parent_of m' n' = None) as Epar by (unfold parent_of; by rewrite El).
    split; [by rewrite Sb|..]; rewrite Epar; cbn [from_option]; [|by rewrite Sm, St].
    rewrite Sw, Sb. apply is256_add; [by apply is256_of|done].
Qed.

Section add_proofs.
Context (GetHash : CBlockHeader -> uint256).

(** The invariant with a new entry that has the right links and sums. *)
Lemma insert_wf bm hash n best :
  index_wf bm -> m_block_index bm !! hash = None ->
  node_wf (<[hash := n]> (m_block_index bm)) hash n -> totals_wf (<[hash := n]> (m_block_index bm)) n ->
  (best = Some hash \/ best = pindexBestHeader bm) ->
  index_wf (put_entry bm hash n best).
Proof.
  intros [Htree Htot Hbest Hch] Hnone Hn Ht Hb. assert (m_block_index bm ⊆ <[hash := n]> (m_block_index bm)) as Hsub by (by apply insert_subseteq).
  split; cbn.
  - intros h x Hx. destruct (decide (h = hash)) as [->|Hne].
    + rewrite store_insert_eq in Hx. by injection Hx as <-.
    + rewrite store_insert_ne in Hx by done. by eapply node_wf_mono.
  - intros h x Hx. destruct (decide (h = hash)) as [->|Hne].
    + rewrite store_insert_eq in Hx. by injection Hx as <-.
    + rewrite store_insert_ne in Hx by done. by eapply totals_wf_mono; eauto.
  - intros b E. destruct Hb as [->| ->].
    + injection E as <-. rewrite store_insert_eq. eauto.
    + destruct (Hbest b E) as [x Hx]. exists x. by eapply store_weaken.
  - intros p h. assert ((p, h) ∈ m_prev_block_index bm -> h <> hash) as Hnew.
    { intros (x & Hx & _)%Hch ->. congruence. }
    transitivity ((p, h) ∈ m_prev_block_index bm \/ bi_pprev n = Some p /\ h = hash).
    { destruct (bi_pprev n) as [q|]; [|naive_solver]. rewrite elem_of_app, list_elem_of_singleton. naive_solver. }
    split.
    + intros [Hin|[E ->]]; [|exists n; by rewrite store_insert_eq]. pose proof (Hnew Hin). apply Hch in Hin as (x & Hx & E). exists x. by rewrite store_insert_ne.
    + intros (x & Hx & E). destruct (decide (h = hash)) as [->|Hne].
      * rewrite store_insert_eq in Hx. injection Hx as <-. by right.
      * rewrite store_insert_ne in Hx by done. left. apply Hch. eauto.
Qed.

(** A header whose hash is not the one of its predecessor is added in every state
    the code reaches: no assertion fails, the earlier entries stay, and the index
    with the new entry is well formed. *)
Lemma AddToBlockIndex_wf bm block nStatus :
  index_wf bm -> GetHash block <> h_hashPrevBlock block -> inU 32 (h_nBits block) ->
  (nStatus = BLOCK_VALID_TREE \/ nStatus = BLOCK_CONFLICT_CHAINLOCK) ->
  exists bm', AddToBlockIndex GetHash bm block nStatus = Some (bm', GetHash block) /\ index_wf bm' /\
    m_block_index bm ⊆ m_block_index bm' /\
    (m_block_index bm !! GetHash block = None ->
     exists n, m_block_index bm' !! GetHash block = Some n /\ bi_nBits n = h_nBits block /\ bi_nTime n = h_nTime block /\
       bi_pprev n = if decide (is_Some (m_block_index bm !! h_hashPrevBlock block)) then Some (h_hashPrevBlock block) else None).
Proof.
  intros Hwf Hne Hb Hst. unfold AddToBlockIndex. assert (has_bits nStatus BLOCK_FAILED_MASK = false) as -> by (by destruct Hst as [->| ->]).
  destruct (m_block_index bm !! GetHash block) as [old|] eqn:Eold; [by exists bm|].
  destruct (link_new_spec _ (GetHash block) block (iw_tree _ Hwf) Eold Hne) as (n & -> & En & Hnode & Eprev). cbn [mbind option_bind].
  assert (bi_nBits n = h_nBits block /\ bi_nTime n = h_nTime block) as [Ebits Etime] by (by rewrite En).
  destruct (sum_new_spec (m_block_index bm) (GetHash block) n (iw_totals _ Hwf) Eold) as (t & w & -> & Htot); [by rewrite Ebits| |].
  { intros p E. rewrite Eprev in E. case_decide; [by injection E as <-|done]. }
  cbn [mbind option_bind].
  assert (forall s best, best = Some (GetHash block) \/ best = pindexBestHeader bm ->
    exists bm', Some (put_entry bm (GetHash block) (set_status (set_totals n t w) s) best, GetHash block) = Some (bm', GetHash block) /\ index_wf bm' /\
    m_block_index bm ⊆ m_block_index bm' /\
    (None = None :> option CBlockIndexNode -> exists n', m_block_index bm' !! GetHash block = Some n' /\ bi_nBits n' = h_nBits block /\ bi_nTime n' = h_nTime block /\
       bi_pprev n' = if decide (is_Some (m_block_index bm !! h_hashPrevBlock block)) then Some (h_hashPrevBlock block) else None)) as Hfin.
  { intros s best Hbest. eexists. split; [done|].
    assert (m_block_index bm ⊆ <[GetHash block := set_status (set_totals n t w) s]> (m_block_index bm)) by (by apply insert_subseteq).
    split; [|split; [done|]].
    - apply insert_wf; try done; [apply Hnode; [done|apply store_insert_eq|done]|by apply Htot].
    - intros _. exists (set_status (set_totals n t w) s). split; [apply store_insert_eq|]. by split_and!. }
  assert (bi_nStatus (set_totals n t w) = 0) as Est by (by rewrite En).
  unfold RaiseValidity. rewrite Est. destruct Hst as [->| ->].
  - change (has_bits BLOCK_VALID_TREE BLOCK_VALID_MASK) with true. change (has_bits BLOCK_VALID_TREE (Z.lnot BLOCK_VALID_MASK)) with false.
    change (has_bits 0 BLOCK_FAILED_MASK) with false. change (Z.land 0 BLOCK_VALID_MASK <? BLOCK_VALID_TREE) with true. cbn [mbind option_bind].
    unfold best_header. destruct (pindexBestHeader bm) as [b|] eqn:Eb; [|apply Hfin; by left].
    destruct (iw_best _ Hwf b Eb) as [nb ->]. cbn [mbind option_bind]. destruct (work_lt _ _); apply Hfin; auto.
  - change (has_bits BLOCK_CONFLICT_CHAINLOCK BLOCK_VALID_MASK) with false. change (has_bits BLOCK_VALID_TREE (Z.lnot BLOCK_VALID_MASK)) with false.
    change (has_bits 0 BLOCK_FAILED_MASK) with false. change (Z.land 0 BLOCK_VALID_MASK <? BLOCK_VALID_TREE) with true. cbn [mbind option_bind].
    apply Hfin; auto.
Qed.
End add_proofs.

(** ** Ancestors *)
Definition anc (m : BlockMap) (a h : uint256) : Prop := exists k, walk m k h = Some a.

Lemma walk_height m h n k h' :
  tree_wf m -> m !! h = Some n -> walk m k h = Some h' -> exists n', m !! h' = Some n' /\ bi_nHeight n' = bi_nHeight n - Z.of_nat k.
Proof.
  intros Hwf. revert h n. induction k as [|k IH]; intros h n Hh E.
  { injection E as <-. exists n. split; [done|lia]. }
  cbn [walk] in E. rewrite Hh in E. cbn in E. destruct (bi_pprev n) as [p|] eqn:Ep; [|done]. cbn in E.
  destruct (nw_prev _ _ _ (Hwf h n Hh) p Ep) as (np & Hp & Eh). destruct (IH p np Hp E) as (n' & Hn' & En'). exists n'. split; [done|lia].
Qed.

Lemma walk_prev m h n p k : m !! h = Some n -> bi_pprev n = Some p -> walk m (S k) h = walk m k p.
Proof. intros Hh Ep. cbn [walk]. rewrite Hh. cbn. by rewrite Ep. Qed.

Lemma anc_refl m h : anc m h h.
Proof. by exists 0%nat. Qed.

Lemma anc_trans m a b c : anc m a b -> anc m b c -> anc m a c.
Proof. intros [k Hk] [l Hl]. exists (l + k)%nat. by rewrite walk_add, Hl. Qed.

Lemma anc_prev m h n p : m !! h = Some n -> bi_pprev n = Some p -> anc m p h.
Proof. intros Hh Ep. exists 1%nat. by rewrite (walk_prev m h n p 0). Qed.

(** Of two ancestors the lower one is an ancestor of the other. *)
Lemma anc_lower m d e h nh nd ne :
  tree_wf m -> m !! h = Some nh -> anc m d h -> anc m e h -> m !! d = Some nd -> m !! e = Some ne ->
  bi_nHeight nd <= bi_nHeight ne -> anc m d e.
Proof.
  intros Hwf Hh [k Hk] [l Hl] Hd He Hle.
  destruct (walk_height _ _ _ _ _ Hwf Hh Hk) as (n1 & E1 & Ed). rewrite Hd in E1. injection E1 as <-.
  destruct (walk_height _ _ _ _ _ Hwf Hh Hl) as (n2 & E2 & Ee). rewrite He in E2. injection E2 as <-.
  exists (k - l)%nat. replace k with (l + (k - l))%nat in Hk by lia. rewrite walk_add, Hl in Hk. exact Hk.
Qed.

(** An ancestor at the block's own height is the block. *)
Lemma anc_same_height m d h nd nh :
  tree_wf m -> m !! h = Some nh -> m !! d = Some nd -> bi_nHeight nd = bi_nHeight nh -> anc m d h -> d = h.
Proof.
  intros Hwf Hh Hd E [k Hk]. destruct (walk_height _ _ _ _ _ Hwf Hh Hk) as (n1 & E1 & Ed). rewrite Hd in E1. injection E1 as <-.
  assert (k = 0%nat) as -> by lia. by injection Hk.
Qed.

(** A proper ancestor is an ancestor of the predecessor. *)
Lemma anc_proper m d h n p : m !! h = Some n -> bi_pprev n = Some p -> anc m d h -> d <> h -> anc m d p.
Proof. intros Hh Ep [[|k] Hk] Hne; [by injection Hk as ->|]. exists k. by rewrite <- (walk_prev m h n p k). Qed.

Lemma anc_height m d h nh : tree_wf m -> m !! h = Some nh -> anc m d h -> exists nd, m !! d = Some nd /\ bi_nHeight nd <= bi_nHeight nh.
Proof. intros Hwf Hh [k Hk]. destruct (walk_height _ _ _ _ _ Hwf Hh Hk) as (n1 & E1 & Ed). exists n1. split; [done|lia]. Qed.

(** ** The last common ancestor *)
Section tree.
Context (m : BlockMap) (g : uint256).
Context (Hwf : tree_wf m).
Context (Hroot : forall h n, m !! h = Some n -> bi_pprev n = None -> h = g).

Definition meets (c a b : uint256) : Prop := anc m c a /\ anc m c b /\ forall d, anc m d a -> anc m d b -> anc m d c.

Lemma common_loop_spec fuel : forall a b na nb,
  m !! a = Some na -> m !! b = Some nb -> bi_nHeight na = bi_nHeight nb -> bi_nHeight na < Z.of_nat fuel ->
  exists c, common_loop m fuel (Some a) (Some b) = Some (Some c) /\ meets c a b.
Proof.
  induction fuel as [|fuel IH]; intros a b na nb Ha Hb Eh Hf; [pose proof (nw_height _ _ _ (Hwf a na Ha)); lia|].
  cbn [common_loop]. case_decide as Eab.
  { subst b. exists a. split; [done|]. split_and!; [apply anc_refl..|done]. }
  rewrite Ha, Hb. cbn [mbind option_bind]. destruct (bi_pprev na) as [pa|] eqn:Epa, (bi_pprev nb) as [pb|] eqn:Epb.
  - destruct (nw_prev _ _ _ (Hwf a na Ha) pa Epa) as (npa & Hpa & Eha), (nw_prev _ _ _ (Hwf b nb Hb) pb Epb) as (npb & Hpb & Ehb).
    destruct (IH pa pb npa npb Hpa Hpb ltac:(lia) ltac:(lia)) as (c & -> & Hca & Hcb & Hmax). exists c. split; [done|]. split_and!.
    + exact (anc_trans m c pa a Hca (anc_prev m a na pa Ha Epa)).
    + exact (anc_trans m c pb b Hcb (anc_prev m b nb pb Hb Epb)).
    + intros d Hda Hdb. apply Hmax; [apply (anc_proper m d a na pa)|apply (anc_proper m d b nb pb)]; try done; intros ->; apply Eab.
      * by apply (anc_same_height m a b na nb).
      * symmetry. by apply (anc_same_height m b a nb na).
  - exfalso. destruct (nw_prev _ _ _ (Hwf a na Ha) pa Epa) as (npa & Hpa & Eha). pose proof (nw_root _ _ _ (Hwf b nb Hb) Epb). pose proof (nw_height _ _ _ (Hwf pa npa Hpa)). lia.
  - exfalso. destruct (nw_prev _ _ _ (Hwf b nb Hb) pb Epb) as (npb & Hpb & Ehb). pose proof (nw_root _ _ _ (Hwf a na Ha) Epa). pose proof (nw_height _ _ _ (Hwf pb npb Hpb)). lia.
  - exfalso. apply Eab. rewrite (Hroot a na Ha Epa). symmetry. by apply (Hroot b nb).
Qed.

(** Levelling the two blocks does not lose common ancestors. *)
Lemma level_down a na nb height :
  m !! a = Some na -> height = bi_nHeight nb -> 0 <= height < bi_nHeight na ->
  exists a' na', GetAncestor m a height = Some (Some a') /\ m !! a' = Some na' /\ bi_nHeight na' = height /\
    forall b c, m !! b = Some nb -> meets c a' b -> meets c a b.
Proof.
  intros Ha -> Hr. destruct (GetAncestor_some m a na (bi_nHeight nb) Hwf Ha ltac:(lia)) as (a' & na' & E & Ew & Ha' & Eh).
  exists a', na'. split_and!; try done. assert (anc m a' a) as Hanc by (eexists; exact Ew). intros b c Hb (H1 & H2 & H3). split_and!; [exact (anc_trans m c a' a H1 Hanc)|done|].
  intros d Hda Hdb. apply H3; [|done]. destruct (anc_height m d b nb Hwf Hb Hdb) as (nd & Hd & Hle).
  apply (anc_lower m d a' a na nd na'); done || lia.
Qed.

(** In a tree with one root the two blocks have a last common ancestor, and the
    function returns it. *)
Lemma LastCommonAncestor_meets a b na nb :
  m !! a = Some na -> m !! b = Some nb -> exists c, LastCommonAncestor m a b = Some (Some c) /\ meets c a b.
Proof.
  intros Ha Hb. pose proof (nw_height _ _ _ (Hwf a na Ha)). pose proof (nw_height _ _ _ (Hwf b nb Hb)).
  unfold LastCommonAncestor. rewrite Ha, Hb. cbn [mbind option_bind].
  destruct (Z.ltb_spec (bi_nHeight nb) (bi_nHeight na)) as [Hlt|Hge], (Z.ltb_spec (bi_nHeight na) (bi_nHeight nb)) as [Hlt'|Hge']; try lia.
  - destruct (level_down a na nb (bi_nHeight nb) Ha eq_refl ltac:(lia)) as (a' & na' & -> & Ha' & Eh & Hup). cbn [mbind option_bind].
    destruct (common_loop_spec (Z.to_nat (Z.min (bi_nHeight na) (bi_nHeight nb)) + 1) a' b na' nb Ha' Hb Eh ltac:(lia)) as (c & -> & Hc). exists c. split; [done|by apply Hup].
  - destruct (level_down b nb na (bi_nHeight na) Hb eq_refl ltac:(lia)) as (b' & nb' & -> & Hb' & Eh & Hup). cbn [mbind option_bind].
    destruct (common_loop_spec (Z.to_nat (Z.min (bi_nHeight na) (bi_nHeight nb)) + 1) a b' na nb' Ha Hb' ltac:(lia) ltac:(lia)) as (c & -> & H1 & H2 & H3). exists c. split; [done|].
    destruct (Hup a c Ha) as (? & ? & ?); [split_and!; naive_solver|]. split_and!; naive_solver.
  - cbn [mbind option_bind]. destruct (common_loop_spec (Z.to_nat (Z.min (bi_nHeight na) (bi_nHeight nb)) + 1) a b na nb Ha Hb ltac:(lia) ltac:(lia)) as (c & -> & Hc). eauto.
Qed.
End tree.

(** ** The active chain *)

(** The chain of the tip [h]: at every height the ancestor of [h]. *)
Definition chain_of (m : BlockMap) (h : uint256) (c : CChain) : Prop :=
  exists n, m !! h = Some n /\ length c = (Z.to_nat (bi_nHeight n) + 1)%nat /\
    forall i, (i <= Z.to_nat (bi_nHeight n))%nat -> c !! i = Some (walk m (Z.to_nat (bi_nHeight n) - i) h).

(** Below an entry that is set the chain is the one of that entry. *)
Definition below_ok (m : BlockMap) (j : nat) (c : CChain) : Prop :=
  forall i x, (i <= j)%nat -> c !! i = Some (Some x) -> forall i', (i' <= i)%nat -> c !! i' = Some (walk m (i - i') x).

Lemma chain_of_below m h c j : tree_wf m -> chain_of m h c -> below_ok m j c.
Proof.
  intros Hwf (n & Hh & Hl & Hc) i x _ Hx i' Hi. assert (i <= Z.to_nat (bi_nHeight n))%nat as Hin by (apply lookup_lt_Some in Hx; lia).
  rewrite Hc in Hx |- * by lia. f_equal. injection Hx as Hx.
  replace (Z.to_nat (bi_nHeight n) - i')%nat with ((Z.to_nat (bi_nHeight n) - i) + (i - i'))%nat by lia. by rewrite walk_add, Hx.
Qed.

Lemma resize_below m (c : CChain) j k : below_ok m j c -> below_ok m j (resize k None c).
Proof.
  intros Hb i x Hi Hx i' Hi'. assert (i < k)%nat as Hk by (apply lookup_lt_Some in Hx; by rewrite length_resize in Hx).
  destruct (decide (i < length c)%nat) as [Hl|Hl]; [|by rewrite lookup_resize_new in Hx by lia].
  rewrite lookup_resize in Hx |- * by lia. by eapply Hb.
Qed.

Lemma set_tip_loop_spec m fuel : forall c h n,
  tree_wf m -> m !! h = Some n -> (Z.to_nat (bi_nHeight n) < length c)%nat -> (Z.to_nat (bi_nHeight n) < fuel)%nat ->
  below_ok m (Z.to_nat (bi_nHeight n)) c ->
  exists c', set_tip_loop m fuel c (Some h) = Some c' /\ length c' = length c /\
    (forall i, (i <= Z.to_nat (bi_nHeight n))%nat -> c' !! i = Some (walk m (Z.to_nat (bi_nHeight n) - i) h)) /\
    (forall i, (Z.to_nat (bi_nHeight n) < i)%nat -> c' !! i = c !! i).
Proof.
  induction fuel as [|fuel IH]; intros c h n Hwf Hh Hlen Hf Hlow; [lia|]. cbn [set_tip_loop]. rewrite Hh. cbn [mbind option_bind].
  set (j := Z.to_nat (bi_nHeight n)) in *. destruct (lookup_lt_is_Some_2 c j Hlen) as [x Hx]. rewrite Hx. cbn [mbind option_bind]. case_decide as Ex.
  { subst x. exists c. split_and!; try done. intros i Hi. by eapply Hlow. }
  destruct (bi_pprev n) as [p|] eqn:Ep.
  - destruct (nw_prev _ _ _ (Hwf h n Hh) p Ep) as (np & Hp & Eh). pose proof (nw_height _ _ _ (Hwf p np Hp)).
    assert (j = S (Z.to_nat (bi_nHeight np))) as Ej by (subst j; lia).
    destruct (IH (<[j := Some h]> c) p np Hwf Hp) as (c' & -> & Hl & Hin & Hout).
    + rewrite length_insert. lia.
    + lia.
    + intros i y Hi Hy i' Hi'. rewrite list_lookup_insert_ne in Hy |- * by lia. eapply Hlow; [|done..]. lia.
    + exists c'. split_and!; [done|by rewrite Hl, length_insert| |].
      * intros i Hi. destruct (decide (i = j)) as [->|].
        -- rewrite Hout by lia. rewrite list_lookup_insert_eq by done. by rewrite Nat.sub_diag.
        -- rewrite Hin by lia. rewrite <- (walk_prev m h n p) by done. do 2 f_equal. lia.
      * intros i Hi. rewrite Hout by lia. by rewrite list_lookup_insert_ne by lia.
  - pose proof (nw_root _ _ _ (Hwf h n Hh) Ep) as H0. assert (j = 0%nat) as -> by (subst j; lia).
    assert (set_tip_loop m fuel (<[0%nat := Some h]> c) None = Some (<[0%nat := Some h]> c)) as -> by (by destruct fuel).
    exists (<[0%nat := Some h]> c). split_and!; [done|apply length_insert| |].
    + intros i Hi. assert (i = 0%nat) as -> by lia. by rewrite list_lookup_insert_eq.
    + intros i Hi. by rewrite list_lookup_insert_ne by lia.
Qed.

(** SetTip stops at the first entry that is already right, and what it leaves is
    the chain of the new tip. *)
Lemma SetTip_chain m c h0 h n :
  tree_wf m -> (c = [] \/ chain_of m h0 c) -> m !! h = Some n ->
  exists c', SetTip m c (Some h) = Some c' /\ chain_of m h c'.
Proof.
  intros Hwf Hc Hh. unfold SetTip. rewrite Hh. cbn [mbind option_bind].
  destruct (set_tip_loop_spec m (Z.to_nat (bi_nHeight n) + 1) (resize (Z.to_nat (bi_nHeight n) + 1) None c) h n Hwf Hh) as (c' & -> & Hl & Hin & _).
  - rewrite length_resize. lia.
  - lia.
  - apply resize_below. destruct Hc as [->|Hc]; [|by eapply chain_of_below]. intros i x _ Hx. by rewrite lookup_nil in Hx.
  - exists c'. split; [done|]. exists n. rewrite Hl, length_resize. by split_and!.
Qed.

Lemma chain_at_of m t c i nt :
  chain_of m t c -> m !! t = Some nt -> 0 <= i <= bi_nHeight nt -> chain_at c i = walk m (Z.to_nat (bi_nHeight nt - i)) t.
Proof.
  intros (n & Ht & Hl & Hc) Hnt Hi. rewrite Hnt in Ht. injection Ht as <-. unfold chain_at.
  rewrite (proj2 (Z.ltb_ge i 0)), (proj2 (Z.leb_gt (Z.of_nat (length c)) i)) by lia. cbn [orb]. rewrite Hc by lia. cbn. f_equal. lia.
Qed.

Lemma chain_Height m t c nt : tree_wf m -> chain_of m t c -> m !! t = Some nt -> Height c = bi_nHeight nt.
Proof.
  intros Hwf (n & Ht & Hl & Hc) Hnt. rewrite Hnt in Ht. injection Ht as <-. pose proof (nw_height _ _ _ (Hwf t nt Hnt)). unfold Height. lia.
Qed.

(** The chain of a tip contains its ancestors. *)
Lemma Contains_spec m t c x nx :
  tree_wf m -> chain_of m t c -> m !! x = Some nx -> exists b, Contains m c x = Some b /\ (b = true <-> anc m x t).
Proof.
  intros Hwf Hc Hx. pose proof Hc as (nt & Ht & Hl & _). unfold Contains. rewrite Hx. cbn [mbind option_bind]. eexists. split; [done|].
  rewrite bool_decide_eq_true. pose proof (nw_height _ _ _ (Hwf x nx Hx)). pose proof (nw_height _ _ _ (Hwf t nt Ht)).
  destruct (decide (bi_nHeight nx <= bi_nHeight nt)) as [Hle|Hgt].
  - rewrite (chain_at_of m t c _ nt) by done. split; [by eexists|]. intros [k Hk].
    destruct (walk_height _ _ _ _ _ Hwf Ht Hk) as (n1 & E1 & Ed). rewrite Hx in E1. injection E1 as <-.
    by replace (Z.to_nat (bi_nHeight nt - bi_nHeight nx)) with k by lia.
  - split.
    + unfold chain_at. rewrite (proj2 (Z.leb_le (Z.of_nat (length c)) (bi_nHeight nx))) by lia. by rewrite orb_true_r.
    + intros Ha. destruct (anc_height m x t nt Hwf Ht Ha) as (n1 & E1 & Ed). rewrite Hx in E1. injection E1 as <-. lia.
Qed.

Section one_root.
Context (m : BlockMap) (g : uint256).
Context (Hwf : tree_wf m).
Context (Hroot : forall h n, m !! h = Some n -> bi_pprev n = None -> h = g).

Lemma height_0_root h n : m !! h = Some n -> bi_nHeight n = 0 -> h = g.
Proof.
  intros Hh H0. apply (Hroot h n Hh). destruct (bi_pprev n) as [p|] eqn:Ep; [|done].
  destruct (nw_prev _ _ _ (Hwf h n Hh) p Ep) as (np & Hp & Eh). pose proof (nw_height _ _ _ (Hwf p np Hp)). lia.
Qed.

Lemma root_anc t nt : m !! t = Some nt -> anc m g t.
Proof.
  intros Ht. pose proof (nw_height _ _ _ (Hwf t nt Ht)). destruct (walk_some m t nt (Z.to_nat (bi_nHeight nt)) Hwf Ht ltac:(lia)) as (h & n & E & Hh & Eh).
  rewrite <- (height_0_root h n Hh) by lia. by eexists.
Qed.

Lemma fork_loop_spec t c fuel : forall x nx,
  chain_of m t c -> m !! x = Some nx -> (Z.to_nat (bi_nHeight nx) <= fuel)%nat ->
  exists f, fork_loop m fuel c (Some x) = Some (Some f) /\ meets m f x t.
Proof.
  induction fuel as [|fuel IH]; intros x nx Hc Hx Hf; pose proof (nw_height _ _ _ (Hwf x nx Hx)) as H0;
    destruct (Contains_spec m t c x nx Hwf Hc Hx) as (b & Eb & Hb); cbn [fork_loop]; rewrite Eb; cbn [mbind option_bind]; destruct b.
  1,3: exists x; split; [done|]; split_and!; [apply anc_refl|by apply Hb|done].
  - exfalso. assert (x = g) as -> by (eapply height_0_root; [done|lia]). pose proof Hc as (nt & Ht & _). pose proof (root_anc t nt Ht). by apply Hb in H.
  - rewrite Hx. cbn [mbind option_bind]. destruct (bi_pprev nx) as [p|] eqn:Ep.
    + destruct (nw_prev _ _ _ (Hwf x nx Hx) p Ep) as (np & Hp & Eh). destruct (IH p np Hc Hp ltac:(lia)) as (f & -> & H1 & H2 & H3).
      exists f. split; [done|]. split_and!; [exact (anc_trans m f p x H1 (anc_prev m x nx p Hx Ep))|done|].
      intros d Hdx Hdt. apply H3; [|done]. apply (anc_proper m d x nx p); try done. intros ->. by apply Hb in Hdt.
    + exfalso. pose proof (Hroot x nx Hx Ep) as ->. pose proof Hc as (nt & Ht & _). pose proof (root_anc t nt Ht) as Ha. by apply Hb in Ha.
Qed.

(** FindFork returns the last block that a header has in common with the chain. *)
Lemma FindFork_meets t c h n :
  chain_of m t c -> m !! h = Some n -> exists f, FindFork m c (Some h) = Some (Some f) /\ meets m f h t.
Proof.
  intros Hc Hh. pose proof Hc as (nt & Ht & _). pose proof (nw_height _ _ _ (Hwf t nt Ht)). unfold FindFork. rewrite Hh. cbn [mbind option_bind].
  rewrite (chain_Height m t c nt Hwf Hc Ht). destruct (Z.ltb_spec (bi_nHeight nt) (bi_nHeight n)).
  - destruct (level_down m Hwf h n nt (bi_nHeight nt) Hh eq_refl ltac:(lia)) as (a & na & -> & Ha & Eh & Hup). cbn [mbind option_bind].
    destruct (fork_loop_spec t c (Z.to_nat (bi_nHeight n) + 1) a na Hc Ha ltac:(lia)) as (f & -> & Hf). exists f. split; [done|]. by apply Hup.
  - cbn [mbind option_bind]. apply (fork_loop_spec t c _ h n Hc Hh). lia.
Qed.

(** The blocks of a locator: from the block itself up to the genesis block, each
    an ancestor of the one before. *)
Inductive locator_from : uint256 -> list uint256 -> Prop :=
  | locator_end : locator_from g [g]
  | locator_step h a l : a <> h -> anc m a h -> locator_from a l -> locator_from h (h :: l).

Lemma locator_loop_spec t c fuel : forall nStep vHave h n,
  chain_of m t c -> m !! h = Some n -> 1 <= nStep -> (Z.to_nat (bi_nHeight n) < fuel)%nat ->
  exists l, locator_loop m fuel c nStep vHave (Some h) = Some (vHave ++ l) /\ locator_from h l.
Proof.
  induction fuel as [|fuel IH]; intros nStep vHave h n Hc Hh Hs Hf; [lia|]. cbn [locator_loop]. rewrite Hh. cbn [mbind option_bind].
  pose proof (nw_height _ _ _ (Hwf h n Hh)). destruct (Z.eqb_spec (bi_nHeight n) 0) as [E0|Hn0].
  { rewrite (height_0_root h n Hh E0). exists [g]. split; [done|constructor]. }
  destruct (Contains_spec m t c h n Hwf Hc Hh) as (b & Eb & Hb). rewrite Eb. cbn [mbind option_bind].
  set (k := Z.max (bi_nHeight n - nStep) 0). destruct (GetAncestor_some m h n k Hwf Hh ltac:(lia)) as (a & na & Ea & Ew & Hna & Eh).
  assert ((if b then Some (chain_at c k) else GetAncestor m h k) = Some (Some a)) as ->.
  { destruct b; [|done]. f_equal. pose proof Hc as (nt & Ht & _). destruct (proj1 Hb eq_refl) as [j Hj].
    destruct (walk_height _ _ _ _ _ Hwf Ht Hj) as (n1 & E1 & Ed). rewrite Hh in E1. injection E1 as <-.
    rewrite (chain_at_of m t c k nt Hc Ht) by lia.
    replace (Z.to_nat (bi_nHeight nt - k)) with (j + Z.to_nat (bi_nHeight n - k))%nat by lia. by rewrite walk_add, Hj. }
  cbn [mbind option_bind]. destruct (IH (if 10 <? Z.of_nat (length (vHave ++ [h])) then nStep * 2 else nStep) (vHave ++ [h]) a na Hc Hna) as (l & -> & Hl).
  - destruct (_ <? _); lia.
  - lia.
  - exists (h :: l). split; [by rewrite <- app_assoc|]. apply (locator_step h a); [|by eexists|done].
    intros ->. rewrite Hh in Hna. injection Hna as <-. lia.
Qed.

Lemma GetLocator_from t c h n :
  chain_of m t c -> m !! h = Some n -> exists l, GetLocator m c (Some h) = Some l /\ locator_from h l.
Proof.
  intros Hc Hh. unfold GetLocator. rewrite Hh. cbn [mbind option_bind].
  destruct (locator_loop_spec t c (Z.to_nat (bi_nHeight n) + 1) 1 [] h n Hc Hh ltac:(lia) ltac:(lia)) as (l & -> & Hl). by exists l.
Qed.
End one_root.

(** ** Entries that change in other fields *)
Lemma walk_ext (m m' : BlockMap) k : forall h,
  (forall h, bi_pprev <$> m !! h = bi_pprev <$> m' !! h) -> walk m k h = walk m' k h.
Proof.
  induction k as [|k IH]; intros h Hm; [done|]. cbn [walk]. specialize (Hm h) as Hh.
  destruct (m !! h) as [n|], (m' !! h) as [n'|]; try done. cbn in *. injection Hh as ->. destruct (bi_pprev n') as [p|]; [|done]. cbn. by apply IH.
Qed.

(** Only the links count for the shape of the tree. *)
Definition links (n : CBlockIndexNode) : option uint256 * option uint256 * Z := (bi_pprev n, bi_pskip n, bi_nHeight n).

Lemma tree_wf_ext (m m' : BlockMap) : (forall h, links <$> m !! h = links <$> m' !! h) -> tree_wf m -> tree_wf m'.
Proof.
  intros He Hwf h n' Hn'. pose proof (He h) as Eh. rewrite Hn' in Eh. destruct (m !! h) as [n|] eqn:En; [|done].
  injection Eh as Ep Es Eh. destruct (Hwf h n En) as [H1 H2 H3 H4]. split.
  - by rewrite <-Eh.
  - by rewrite <-Ep, <-Eh.
  - intros p. rewrite <-Ep, <-Eh. intros Hp. destruct (H3 p Hp) as (np & Hnp & E). pose proof (He p) as E'. rewrite Hnp in E'.
    destruct (m' !! p) as [np'|] eqn:Enp; [|done]. injection E' as _ _ E'. exists np'. by rewrite <-E'.
  - rewrite <-Ep, <-Es, <-Eh, H4. destruct (bi_pprev n); [|done]. apply walk_ext. intros x. specialize (He x).
    destruct (m !! x), (m' !! x); try done. cbn in *. by injection He as -> _ _.
Qed.

(** ** The machine: headers are added, the tip moves *)
Definition empty_index : BlockManager :=
  {| m_block_index := ∅; m_prev_block_index := []; setDirtyBlockIndex := ∅; pindexBestHeader := None; m_failed_blocks := [] |}.

Section machine.
Context (GetHash : CBlockHeader -> uint256).

(** A header comes after a known block, or is the first one; the tip is set to a
    known block, or to null. *)
Inductive tree_step : BlockManager * CChain -> BlockManager * CChain -> Prop :=
  | step_header bm c block nStatus bm' hash :
      GetHash block <> h_hashPrevBlock block -> inU 32 (h_nBits block) ->
      (nStatus = BLOCK_VALID_TREE \/ nStatus = BLOCK_CONFLICT_CHAINLOCK) ->
      (is_Some (m_block_index bm !! h_hashPrevBlock block) \/ m_block_index bm = ∅) ->
      AddToBlockIndex GetHash bm block nStatus = Some (bm', hash) ->
      tree_step (bm, c) (bm', c)
  | step_tip bm c pindex c' :
      (forall h, pindex = Some h -> is_Some (m_block_index bm !! h)) ->
      SetTip (m_block_index bm) c pindex = Some c' ->
      tree_step (bm, c) (bm, c').

Definition reached : BlockManager * CChain -> Prop := rtc tree_step (empty_index, []).

(** What holds of every state. *)
Record state_wf (s : BlockManager * CChain) : Prop := {
  sw_index : index_wf s.1;
  sw_chain : s.2 = [] \/ exists t, chain_of (m_block_index s.1) t s.2;
  sw_root : exists g, forall h n, m_block_index s.1 !! h = Some n -> bi_pprev n = None -> h = g }.

Lemma chain_of_mono m m' t c : m ⊆ m' -> tree_wf m -> chain_of m t c -> chain_of m' t c.
Proof.
  intros Hm Hwf (n & Ht & Hl & Hc). exists n. split; [by eapply store_weaken|]. split; [done|]. intros i Hi. rewrite Hc by done. f_equal.
  pose proof (nw_height _ _ _ (Hwf t n Ht)).
  destruct (walk_some m t n (Z.to_nat (bi_nHeight n) - i) Hwf Ht ltac:(lia)) as (h' & n' & E & _). rewrite E. symmetry. by eapply walk_mono.
Qed.

Lemma AddToBlockIndex_lookup bm block nStatus bm' hash h n :
  AddToBlockIndex GetHash bm block nStatus = Some (bm', hash) -> m_block_index bm' !! h = Some n ->
  m_block_index bm !! h = Some n \/ h = GetHash block.
Proof.
  unfold AddToBlockIndex. intros E Hn. destruct (has_bits _ _); [done|]. destruct (m_block_index bm !! GetHash block) as [old|] eqn:Eold.
  { injection E as <- <-. by left. }
  apply bind_Some in E as (n1 & E1 & E). apply bind_Some in E as (n2 & E2 & E). apply bind_Some in E as ([n3 best] & E3 & E). injection E as <- <-.
  cbn in Hn. destruct (decide (h = GetHash block)) as [->|Hne]; [by right|]. rewrite store_insert_ne in Hn by done. by left.
Qed.

Lemma empty_wf : state_wf (empty_index, []).
Proof.
  split; cbn.
  - split; cbn; [by intros ? ? ?%lookup_empty_Some|by intros ? ? ?%lookup_empty_Some|done|]. intros p h. split; [by intros ?%not_elem_of_nil|].
    intros (n & Hn & _). by apply lookup_empty_Some in Hn.
  - by left.
  - exists 0. by intros ? ? ?%lookup_empty_Some.
Qed.

Lemma tree_step_wf s s' : state_wf s -> tree_step s s' -> state_wf s'.
Proof.
  intros Hs Hstep. destruct Hs as [Hi Hc [g Hg]]. destruct Hstep as [bm c block nStatus bm' hash Hne Hb Hst Hprev E|bm c pindex c' Hp E]; cbn in Hi, Hc, Hg.
  - destruct (AddToBlockIndex_wf GetHash bm block nStatus Hi Hne Hb Hst) as (bm2 & E2 & Hi' & Hsub & Hnew). rewrite E in E2. injection E2 as <- _.
    split; cbn; [done|destruct Hc as [->|[t Ht]]; [by left|right; exists t; eapply chain_of_mono; eauto using iw_tree]|].
    destruct (m_block_index bm !! GetHash block) as [old|] eqn:Eold.
    { exists g. intros h n Hn. destruct (AddToBlockIndex_lookup _ _ _ _ _ _ _ E Hn) as [H| ->]; [by apply Hg|].
      rewrite (store_weaken _ _ _ _ Hsub Eold) in Hn. injection Hn as <-. by apply Hg. }
    destruct (Hnew eq_refl) as (n' & Hn' & _ & _ & Ep). destruct Hprev as [Hprev|Hemp].
    + exists g. intros h n Hn. destruct (AddToBlockIndex_lookup _ _ _ _ _ _ _ E Hn) as [H| ->]; [by apply Hg|].
      rewrite Hn' in Hn. injection Hn as <-. by rewrite decide_True in Ep by done; rewrite Ep.
    + exists (GetHash block). intros h n Hn _. destruct (AddToBlockIndex_lookup _ _ _ _ _ _ _ E Hn) as [H| ->]; [|done].
      rewrite Hemp in H. by apply lookup_empty_Some in H.
  - split; cbn; [done| |by exists g]. destruct pindex as [h|]; [|left; by injection E as <-]. destruct (Hp h eq_refl) as [n Hn]. right. exists h.
    destruct Hc as [->|[t Ht]].
    + destruct (SetTip_chain _ [] h h n (iw_tree _ Hi) ltac:(by left) Hn) as (c2 & E2 & H2). rewrite E in E2. by injection E2 as <-.
    + destruct (SetTip_chain _ c t h n (iw_tree _ Hi) ltac:(by right) Hn) as (c2 & E2 & H2). rewrite E in E2. by injection E2 as <-.
Qed.

Lemma reached_wf s : reached s -> state_wf s.
Proof.
  intros Hr. refine (rtc_ind_r state_wf (empty_index, []) empty_wf _ s Hr). intros y z _ Hstep Hy. by eapply tree_step_wf.
Qed.

(** C29: In every state the machine reaches, the skip list finds the ancestor that a
    walk along the [pprev] pointers finds, and is null exactly outside the heights
    of the chain. *)
Theorem GetAncestor_skiplist bm c h n height :
  reached (bm, c) -> m_block_index bm !! h = Some n ->
  GetAncestor (m_block_index bm) h height =
    Some (if (bi_nHeight n <? height) || (height <? 0) then None else walk (m_block_index bm) (Z.to_nat (bi_nHeight n - height)) h) /\
  (0 <= height <= bi_nHeight n -> exists a na, GetAncestor (m_block_index bm) h height = Some (Some a) /\
     m_block_index bm !! a = Some na /\ bi_nHeight na = height).
Proof.
  intros Hr Hh. pose proof (iw_tree _ (sw_index _ (reached_wf _ Hr))) as Hwf. cbn in Hwf. split; [by apply GetAncestor_walk|].
  intros Hi. destruct (GetAncestor_some _ h n height Hwf Hh Hi) as (a & na & E & _ & Ha & Eh). eauto.
Qed.

(** In every state the machine reaches with a tip: the chain is the path of its
    tip, FindFork gives the last block a header shares with the chain,
    LastCommonAncestor the one of two headers, and a locator lists ancestors up to
    the genesis block. *)
Theorem active_chain_spec bm c h n :
  reached (bm, c) -> c <> [] -> m_block_index bm !! h = Some n ->
  exists t g, Tip c = Some t /\ chain_of (m_block_index bm) t c /\ Genesis c = Some g /\
    (exists f, FindFork (m_block_index bm) c (Some h) = Some (Some f) /\ meets (m_block_index bm) f h t) /\
    (forall h' n', m_block_index bm !! h' = Some n' ->
       exists f, LastCommonAncestor (m_block_index bm) h h' = Some (Some f) /\ meets (m_block_index bm) f h h') /\
    (exists l, GetLocator (m_block_index bm) c (Some h) = Some l /\ locator_from (m_block_index bm) g h l).
Proof.
  intros Hr Hc Hh. destruct (reached_wf _ Hr) as [[Hwf _ _ _] Hch [g Hg]]. cbn in Hwf, Hch, Hg. destruct Hch as [Hch|[t Ht]]; [done|]. pose proof Ht as (nt & Hnt & Hl & Hi).
  exists t, g. split_and!; [|done| |by eapply FindFork_meets|intros h' n' Hh'; by eapply LastCommonAncestor_meets|by eapply GetLocator_from].
  - unfold Tip. rewrite last_lookup, Hl. replace (pred (Z.to_nat (bi_nHeight nt) + 1)) with (Z.to_nat (bi_nHeight nt)) by lia.
    rewrite Hi by lia. by rewrite Nat.sub_diag.
  - unfold Genesis. rewrite Hi by lia. cbn. pose proof (nw_height _ _ _ (Hwf t nt Hnt)).
    destruct (walk_some _ t nt (Z.to_nat (bi_nHeight nt)) Hwf Hnt ltac:(lia)) as (h0 & n0 & E & Hh0 & E0).
    rewrite Nat.sub_0_r, E. f_equal. eapply height_0_root; [done|done|done|lia].
Qed.
End machine.
