(* ===== verification/Pow.v ===== *)
(** * The difficulty of the next block (src/src/pow.cpp)

    The targets are [arith_uint256] values and are computed with their operators,
    so that products wrap around 256 bits and an [int64_t] factor is converted to
    the [uint32_t] that [operator*=] takes.  [None] is a failed assertion, a division
    by zero or a read through a null pointer. *)

From S2P Require Import Prelude Serialize Params BetKeys Arith256 Chain ChainProofs.

Definition arith_gt (a b : list Z) : bool := 0 <? CompareTo a b.
Definition arith_le (a b : list Z) : bool := CompareTo a b <=? 0.

(** SetCompact where the flags are not asked for. *)
Definition compact_target (nBits : Z) : list Z := (SetCompact nBits).1.1.

Definition GetCompact_ (l : list Z) : option Z := GetCompact l false.

(** An [int64_t] as the factor of a product, and as a divisor. *)
Definition mul_int64 (l : list Z) (x : Z) : list Z := op_mul32 l (u32 x).
Definition div_int64 (l : list Z) (x : Z) : option (list Z) := op_div l (base_uint_of (u64 x)).

Definition IsProofOfStakeHeight (params : PosParams) (nHeight : Z) : bool := nPosStartHeight params <=? nHeight.

Section pow.
Context (params : PosParams) (m : BlockMap).

(** The time between the last two blocks. *)
Definition actual_spacing (n : CBlockIndexNode) : option Z :=
  if negb (bi_nHeight n =? 0) then p ← bi_pprev n; np ← m !! p; Some (bi_nTime n - bi_nTime np) else Some 0.

(** The proof of stake branch of GetNextWorkRequiredOrig. *)
Definition next_pos_work (n : CBlockIndexNode) : option Z :=
  let fTimeV2 := IsTimeProtocolV2 params (bi_nHeight n + 1) in
  let bnTargetLimit := if fTimeV2 then UintToArith256 (posLimit_V2 params) else UintToArith256 (posLimit params) in
  let nTargetSpacing := nPosTargetSpacing params in
  let nTargetTimespan := if fTimeV2 then nPosTargetTimespan_V2 params else nPosTargetTimespan params in
  nActualSpacing ← actual_spacing n;
  let nActualSpacing := if nActualSpacing <? 0 then 1 else nActualSpacing in
  let nActualSpacing := if fTimeV2 && (nTargetSpacing * 10 <? nActualSpacing) then nTargetSpacing * 10 else nActualSpacing in
  let bnNew := compact_target (bi_nBits n) in
  let bnNew := if bi_nHeight n + 1 =? nBlockTimeProtocolV2 params then op_shl bnNew 4 else bnNew in
  let nInterval := nTargetTimespan `quot` nTargetSpacing in
  let bnNew := mul_int64 bnNew ((nInterval - 1) * nTargetSpacing + nActualSpacing + nActualSpacing) in
  bnNew ← div_int64 bnNew ((nInterval + 1) * nTargetSpacing);
  GetCompact_ (if arith_le bnNew (base_uint_of 0) || arith_gt bnNew bnTargetLimit then bnTargetLimit else bnNew).

(** DarkGravity: the state of the loop over the last blocks. *)
Record Dgw := {
  nActualTimespan : Z; LastBlockTime : Z; CountBlocks : Z; PastDifficultyAverage : list Z; PastDifficultyAveragePrev : list Z }.

Definition PastBlocksMin : Z := 24.
Definition PastBlocksMax : Z := 24.

Definition dgw_block (s : Dgw) (n : CBlockIndexNode) : option Dgw :=
  let count := CountBlocks s + 1 in
  avg ← (if count <=? PastBlocksMin then
           if count =? 1 then Some (compact_target (bi_nBits n), compact_target (bi_nBits n))
           else
             a ← div_int64 (op_add (mul_int64 (PastDifficultyAveragePrev s) count) (compact_target (bi_nBits n))) (count + 1);
             Some (a, a)
         else Some (PastDifficultyAverage s, PastDifficultyAveragePrev s));
  Some {| nActualTimespan := if 0 <? LastBlockTime s then nActualTimespan s + (LastBlockTime s - bi_nTime n) else nActualTimespan s;
          LastBlockTime := bi_nTime n;
          CountBlocks := count;
          PastDifficultyAverage := avg.1;
          PastDifficultyAveragePrev := avg.2 |}.

(** [fuel] is what is left of the PastBlocksMax blocks. *)
Fixpoint dgw_loop (fuel : nat) (s : Dgw) (BlockReading : option uint256) : option Dgw :=
  match fuel, BlockReading with
  | S fuel, Some h =>
      n ← m !! h;
      if 0 <? bi_nHeight n then
        s ← dgw_block s n;
        match bi_pprev n with
        | None => Some s
        | Some p => dgw_loop fuel s (Some p)
        end
      else Some s
  | _, _ => Some s
  end.

Definition next_pow_work (pindexLast : uint256) (n : CBlockIndexNode) : option Z :=
  let bnTargetLimit := UintToArith256 (powLimit params) in
  if (bi_nHeight n =? 0) || (bi_nHeight n <? PastBlocksMin) then GetCompact_ bnTargetLimit
  else
    s ← dgw_loop (Z.to_nat PastBlocksMax)
          {| nActualTimespan := 0; LastBlockTime := 0; CountBlocks := 0; PastDifficultyAverage := base_uint_zero; PastDifficultyAveragePrev := base_uint_zero |}
          (Some pindexLast);
    let _nTargetTimespan := CountBlocks s * nPowTargetSpacing params in
    let span := nActualTimespan s in
    let span := if span <? _nTargetTimespan `quot` 3 then _nTargetTimespan `quot` 3 else span in
    let span := if _nTargetTimespan * 3 <? span then _nTargetTimespan * 3 else span in
    bnNew ← div_int64 (mul_int64 (PastDifficultyAverage s) span) _nTargetTimespan;
    GetCompact_ (if arith_gt bnNew bnTargetLimit then bnTargetLimit else bnNew).

Definition GetNextWorkRequiredOrig (pindexLast : uint256) : option Z :=
  n ← m !! pindexLast;
  if fPowNoRetargeting params then Some (bi_nBits n)
  else if nPosStartHeight params <=? bi_nHeight n then next_pos_work n
  else next_pow_work pindexLast n.

Definition GetNextWorkRequired (pindexLast : uint256) (pblock_nTime : Z) : option Z :=
  n ← m !! pindexLast;
  let bnPowLimit := UintToArith256 (powLimit params) in
  if bi_nHeight n <? nMinimumDifficultyBlocks params then GetCompact_ bnPowLimit
  else if fPowAllowMinDifficultyBlocks params && (bi_nTime n + 2 * 60 * 60 <? pblock_nTime) then GetCompact_ bnPowLimit
  else if fPowAllowMinDifficultyBlocks params && (bi_nTime n + nPowTargetSpacing params * 4 <? pblock_nTime) then
    let bnNew := mul_int64 (compact_target (bi_nBits n)) 10 in
    if arith_gt bnNew bnPowLimit then GetCompact_ bnPowLimit else GetCompact_ bnNew
  else GetNextWorkRequiredOrig pindexLast.

Definition CheckProofOfWork (hash : uint256) (nBits : Z) : bool :=
  let '(bnTarget, fNegative, fOverflow) := SetCompact nBits in
  if fNegative || EqualTo bnTarget 0 || fOverflow || arith_gt bnTarget (UintToArith256 (powLimit params)) then false
  else negb (arith_gt (UintToArith256 hash) bnTarget).
End pow.

(** * The difficulty of the next block: proofs about Pow.v *)

(** ** Hashes as integers *)

(** The 32 bytes of a hash, read little endian. *)
Definition hash_value (a : uint256) : Z := le_value (Serialize uint256c a).

Lemma chunks_eval k : forall l : list Z,
  length l = (k * 4)%nat -> eval ((fun x => le_value (take 4 (drop (x * 4) l))) <$> seq 0 k) = le_value l.
Proof.
  induction k as [|k IH]; intros l Hl.
  { destruct l; [done|]. cbn in Hl. lia. }
  cbn [seq fmap list_fmap eval]. rewrite <- fmap_S_seq, <- list_fmap_compose.
  destruct l as [|b0 [|b1 [|b2 [|b3 l]]]]; cbn in Hl; try lia.
  rewrite (list_fmap_ext _ (fun x => le_value (take 4 (drop (x * 4) l)))); [|by intros i x _].
  rewrite IH by lia. change (take 4 (drop (0 * 4) (b0 :: b1 :: b2 :: b3 :: l))) with [b0; b1; b2; b3]. cbn [le_value]. lia.
Qed.

Lemma UintToArith256_is256 a : is256 (UintToArith256 a) (hash_value a).
Proof.
  assert (length (Serialize uint256c a) = 32%nat) as Hl by (cbn; by rewrite length_reverse, length_le_bytes).
  assert (Forall byte (Serialize uint256c a)) as Hb by (cbn; rewrite Forall_reverse; apply le_bytes_byte).
  split_and!.
  - apply Forall_fmap, Forall_forall. intros x _. change (inU 32) with (inU (8 * Z.of_nat 4)).
    assert (Forall byte (take 4 (drop (x * 4) (Serialize uint256c a)))) as Hf by (by apply Forall_take, Forall_drop).
    pose proof (le_value_inU _ Hf) as Hv. unfold inU in *. split; [lia|]. eapply Z.lt_le_trans; [apply Hv|]. apply Z.pow_le_mono_r; [lia|].
    rewrite length_take. lia.
  - unfold UintToArith256. by rewrite length_fmap, length_seq.
  - unfold UintToArith256. by apply chunks_eval.
Qed.

Lemma arith_gt_spec a b x y : is256 a x -> is256 b y -> arith_gt a b = (y <? x).
Proof.
  intros Ha Hb. unfold arith_gt. rewrite (is256_compare a b x y Ha Hb). unfold compare_Z.
  destruct (Z.ltb_spec x y), (Z.ltb_spec y x); done || lia.
Qed.

Lemma arith_le_spec a b x y : is256 a x -> is256 b y -> arith_le a b = (x <=? y).
Proof.
  intros Ha Hb. unfold arith_le. rewrite (is256_compare a b x y Ha Hb). unfold compare_Z.
  destruct (Z.ltb_spec x y), (Z.ltb_spec y x), (Z.leb_spec x y); done || lia.
Qed.

Lemma mul_int64_is256 l v x : is256 l v -> is256 (mul_int64 l x) ((v * u32 x) `mod` 2 ^ 256).
Proof. intros Hl. apply is256_mul32; [done|]. apply wrapU_range. lia. Qed.

Lemma div_int64_is256 l v x : is256 l v -> 0 < x < 2 ^ 64 -> exists q, div_int64 l x = Some q /\ is256 q (v `div` x).
Proof.
  intros Hl Hx. unfold div_int64. rewrite wrapU_small by (unfold inU; lia). apply is256_div; [done| |lia]. apply is256_of. unfold inU. lia.
Qed.

Lemma compact_target_is256 nBits : inU 32 nBits -> exists v, is256 (compact_target nBits) v.
Proof. intros Hb. destruct (SetCompact_value nBits Hb) as (v & Hv & _). by exists v. Qed.

(** ** What the result of a retarget is *)

(** The compact number [c] stands for the target [T], rounded down. *)
Definition compact_for (c T : Z) : Prop :=
  exists l v, SetCompact c = (l, false, false) /\ is256 l v /\ 0 <= v <= T /\ 2 ^ 15 * (T - v) <= T.

Lemma GetCompact_for l T : is256 l T -> exists c, GetCompact_ l = Some c /\ compact_for c T.
Proof.
  intros Hl. destruct (GetCompact_spec l T Hl) as (mant & n & E & Hc). exists (mant + n * 2 ^ 24). split; [done|].
  pose proof (is256_range _ _ Hl) as Hr. destruct (SetCompact_compact T mant n Hr Hc) as (l' & Es & Hl').
  destruct (compact_value_spec T mant n Hr Hc) as (H1 & H2 & _). exists l', (compact_value T n). done.
Qed.

Lemma GetCompact_if (b : bool) l1 l2 T1 T2 :
  is256 l1 T1 -> is256 l2 T2 -> exists c, GetCompact_ (if b then l1 else l2) = Some c /\ compact_for c (if b then T1 else T2).
Proof. intros H1 H2. destruct b; by apply GetCompact_for. Qed.

(** A retarget on integers: the product wraps, and a result that is 0 or above the
    limit is replaced by the limit. *)
Definition clamp (q lim : Z) : Z := if (q <=? 0) || (lim <? q) then lim else q.
Definition retarget (t f d lim : Z) : Z := clamp (((t * u32 f) `mod` 2 ^ 256) `div` d) lim.

Lemma clamp_le q lim : clamp q lim <= lim.
Proof. unfold clamp. destruct (Z.leb_spec q 0), (Z.ltb_spec lim q); cbn; lia. Qed.

Lemma retarget_code l t f d L lim :
  is256 l t -> 0 < d < 2 ^ 64 -> is256 L lim ->
  exists c, (q ← div_int64 (mul_int64 l f) d; GetCompact_ (if arith_le q (base_uint_of 0) || arith_gt q L then L else q)) = Some c /\
    compact_for c (retarget t f d lim).
Proof.
  intros Hl Hd HL. destruct (div_int64_is256 _ _ d (mul_int64_is256 l t f Hl) Hd) as (q & -> & Hq). cbn [mbind option_bind].
  rewrite (arith_gt_spec _ _ _ _ Hq HL), (arith_le_spec _ _ _ _ Hq (is256_of 0 ltac:(done))). by apply GetCompact_if.
Qed.

(** The parameters of every network. *)
Record params_ok (params : PosParams) : Prop := {
  po_pos_spacing : 0 < nPosTargetSpacing params < 2 ^ 20;
  po_timespan : 0 <= nPosTargetTimespan params < 2 ^ 31;
  po_timespan2 : 0 <= nPosTargetTimespan_V2 params < 2 ^ 31;
  po_pow_spacing : 0 < nPowTargetSpacing params < 2 ^ 31 }.

(** The number of seconds the last block took, as the retarget counts them. *)
Definition counted_spacing (params : PosParams) (v2 : bool) (a : Z) : Z :=
  let a := if a <? 0 then 1 else a in
  if v2 && (nPosTargetSpacing params * 10 <? a) then nPosTargetSpacing params * 10 else a.

Section pow_proofs.
Context (params : PosParams) (m : BlockMap).
Context (Hok : params_ok params).
Context (Hwf : tree_wf m).
Context (Hbits : forall h n, m !! h = Some n -> inU 32 (bi_nBits n)).

Lemma actual_spacing_some h n : m !! h = Some n -> exists a, actual_spacing m n = Some a.
Proof.
  intros Hh. unfold actual_spacing. destruct (Z.eqb_spec (bi_nHeight n) 0) as [|Hne]; cbn [negb]; [by eexists|].
  destruct (bi_pprev n) as [p|] eqn:Ep; [|by apply (nw_root _ _ _ (Hwf h n Hh)) in Ep].
  destruct (nw_prev _ _ _ (Hwf h n Hh) p Ep) as (np & E & _). cbn. rewrite E. by eexists.
Qed.

Definition pos_timespan (v2 : bool) : Z := if v2 then nPosTargetTimespan_V2 params else nPosTargetTimespan params.
Definition pos_limit (v2 : bool) : Z := hash_value (if v2 then posLimit_V2 params else posLimit params).

(** The retarget of a proof of stake block. *)
Lemma next_pos_work_for h n t a :
  m !! h = Some n -> is256 (compact_target (bi_nBits n)) t -> actual_spacing m n = Some a ->
  let v2 := IsTimeProtocolV2 params (bi_nHeight n + 1) in
  let S := nPosTargetSpacing params in
  let I := pos_timespan v2 `quot` S in
  let a := counted_spacing params v2 a in
  let t := if bi_nHeight n + 1 =? nBlockTimeProtocolV2 params then (t * 2 ^ 4) `mod` 2 ^ 256 else t in
  exists c, next_pos_work params m n = Some c /\ compact_for c (retarget t ((I - 1) * S + a + a) ((I + 1) * S) (pos_limit v2)).
Proof.
  intros Hh Ht Ha. cbn zeta. unfold next_pos_work. rewrite Ha. cbn [mbind option_bind].
  set (v2 := IsTimeProtocolV2 params (bi_nHeight n + 1)). fold (pos_timespan v2). fold (counted_spacing params v2 a).
  destruct Hok as [Hs Ht1 Ht2 _]. assert (0 <= pos_timespan v2 < 2 ^ 31) as Hts by (unfold pos_timespan; by destruct v2).
  assert (0 <= pos_timespan v2 `quot` nPosTargetSpacing params <= pos_timespan v2) as Hq.
  { rewrite Z.quot_div_nonneg by lia. split; [apply Z.div_pos; lia|]. apply Z.div_le_upper_bound; nia. }
  apply retarget_code; [by destruct (_ =? _); [apply is256_shl|]|nia|]. unfold pos_limit. destruct v2; apply UintToArith256_is256.
Qed.

(** ** DarkGravity *)
Definition dgw_ok (s : Dgw) : Prop := exists a p, is256 (PastDifficultyAverage s) a /\ is256 (PastDifficultyAveragePrev s) p.

Lemma dgw_block_some h s n :
  m !! h = Some n -> dgw_ok s -> 0 <= CountBlocks s < 24 ->
  exists s', dgw_block s n = Some s' /\ dgw_ok s' /\ CountBlocks s' = CountBlocks s + 1 /\ LastBlockTime s' = bi_nTime n /\
    nActualTimespan s' = if 0 <? LastBlockTime s then nActualTimespan s + (LastBlockTime s - bi_nTime n) else nActualTimespan s.
Proof.
  intros Hh (a & p & Ha & Hp) Hc. unfold dgw_block. destruct (compact_target_is256 _ (Hbits h n Hh)) as [t Ht].
  rewrite (proj2 (Z.leb_le (CountBlocks s + 1) PastBlocksMin)) by (unfold PastBlocksMin; lia). destruct (_ =? 1).
  - cbn [mbind option_bind]. eexists. split; [done|]. split; [by exists t, t|done].
  - destruct (div_int64_is256 _ _ (CountBlocks s + 1 + 1) (is256_add _ _ _ _ (mul_int64_is256 _ _ (CountBlocks s + 1) Hp) Ht) ltac:(lia)) as (q & -> & Hq).
    cbn [mbind option_bind]. eexists. split; [done|]. split; [by eexists _, _|done].
Qed.

(** The loop reads [fuel] blocks when there are as many above the genesis block. *)
Lemma dgw_loop_some fuel : forall h n s,
  m !! h = Some n -> dgw_ok s -> 0 <= CountBlocks s -> CountBlocks s + Z.of_nat fuel <= 24 -> Z.of_nat fuel <= bi_nHeight n ->
  exists s', dgw_loop m fuel s (Some h) = Some s' /\ dgw_ok s' /\ CountBlocks s' = CountBlocks s + Z.of_nat fuel.
Proof.
  induction fuel as [|fuel IH]; intros h n s Hh Hs Hc Hsum Hht; [exists s; split; [done|]; split; [done|lia]|]. cbn [dgw_loop]. rewrite Hh. cbn [mbind option_bind].
  rewrite (proj2 (Z.ltb_lt 0 (bi_nHeight n))) by lia. destruct (dgw_block_some h s n Hh Hs ltac:(lia)) as (s1 & -> & Hs1 & Ec & _). cbn [mbind option_bind].
  destruct (bi_pprev n) as [p|] eqn:Ep; [|apply (nw_root _ _ _ (Hwf h n Hh)) in Ep; lia].
  destruct (nw_prev _ _ _ (Hwf h n Hh) p Ep) as (np & Hp & Eh).
  destruct (IH p np s1 Hp Hs1 ltac:(lia) ltac:(lia) ltac:(lia)) as (s' & -> & Hs' & Ec'). exists s'. split; [done|]. split; [done|lia].
Qed.

Lemma next_pow_work_some h n :
  m !! h = Some n ->
  exists c T, next_pow_work params m h n = Some c /\ compact_for c T /\ T <= hash_value (powLimit params).
Proof.
  intros Hh. unfold next_pow_work. pose proof (UintToArith256_is256 (powLimit params)) as HL.
  destruct ((bi_nHeight n =? 0) || (bi_nHeight n <? PastBlocksMin)) eqn:E.
  { destruct (GetCompact_for _ _ HL) as (c & E1 & Hc). by exists c, (hash_value (powLimit params)). }
  apply orb_false_iff in E as [_ E%Z.ltb_ge]. unfold PastBlocksMin in E.
  set (s0 := {| nActualTimespan := 0 |}). assert (dgw_ok s0) as Hs0.
  { exists 0, 0. split; split_and!; done || by apply Forall_replicate. }
  destruct (dgw_loop_some (Z.to_nat PastBlocksMax) h n s0 Hh Hs0) as (s & -> & (a & p & Ha & _) & Ec); [done|done|change (Z.of_nat (Z.to_nat PastBlocksMax)) with 24; lia|].
  cbn [mbind option_bind]. change (CountBlocks s = 24) in Ec. rewrite Ec. match goal with |- context[mul_int64 _ ?x] => set (span := x) end.
  destruct Hok as [_ _ _ Hsp]. destruct (div_int64_is256 _ _ (24 * nPowTargetSpacing params) (mul_int64_is256 _ _ span Ha) ltac:(lia)) as (q & -> & Hq).
  cbn [mbind option_bind]. rewrite (arith_gt_spec _ _ _ _ Hq HL). set (v := _ `div` _). set (lim := hash_value (powLimit params)) in *.
  destruct (GetCompact_if (lim <? v) _ _ _ _ HL Hq) as (c & E1 & Hc). exists c, (if lim <? v then lim else v). split; [done|]. split; [done|].
  destruct (Z.ltb_spec lim v); lia.
Qed.
End pow_proofs.

(** The largest target the block after one at height [nHeight] can have. *)
Definition next_limit (params : PosParams) (nHeight : Z) : Z :=
  if nPosStartHeight params <=? nHeight then pos_limit params (IsTimeProtocolV2 params (nHeight + 1)) else hash_value (powLimit params).

(** A network that always retargets. *)
Record retargets (params : PosParams) : Prop := {
  rt_ok : params_ok params;
  rt_retarget : fPowNoRetargeting params = false;
  rt_min : fPowAllowMinDifficultyBlocks params = false;
  rt_blocks : nMinimumDifficultyBlocks params <= 0 }.

Lemma GetNextWorkRequired_orig params m h n nTime :
  tree_wf m -> retargets params -> m !! h = Some n ->
  GetNextWorkRequired params m h nTime = if nPosStartHeight params <=? bi_nHeight n then next_pos_work params m n else next_pow_work params m h n.
Proof.
  intros Hwf [_ Hr Hm Hb] Hh. pose proof (nw_height _ _ _ (Hwf h n Hh)). unfold GetNextWorkRequired, GetNextWorkRequiredOrig. rewrite Hh. cbn [mbind option_bind].
  rewrite (proj2 (Z.ltb_ge (bi_nHeight n) (nMinimumDifficultyBlocks params))) by lia. by rewrite Hm, Hr.
Qed.

Lemma GetNextWorkRequired_some params m h n nTime :
  tree_wf m -> (forall x nx, m !! x = Some nx -> inU 32 (bi_nBits nx)) ->
  retargets params -> m !! h = Some n ->
  exists b T, GetNextWorkRequired params m h nTime = Some b /\ compact_for b T /\ T <= next_limit params (bi_nHeight n).
Proof.
  intros Hwf Hbits Hp Hh. rewrite (GetNextWorkRequired_orig _ _ _ _ _ Hwf Hp Hh). unfold next_limit. destruct (nPosStartHeight params <=? bi_nHeight n).
  - destruct (actual_spacing_some _ Hwf h n Hh) as [a Ha]. destruct (compact_target_is256 _ (Hbits h n Hh)) as [t Ht].
    destruct (next_pos_work_for params _ (rt_ok _ Hp) h n t a Hh Ht Ha) as (b & E & Hb). eexists b, _. split; [done|]. split; [exact Hb|]. apply clamp_le.
  - by apply next_pow_work_some; [apply (rt_ok _ Hp)|..].
Qed.

(** On any network, with or without retargets and blocks of minimum difficulty, the
    next difficulty is computed. *)
Lemma GetNextWorkRequired_total params m h n nTime :
  tree_wf m -> (forall x nx, m !! x = Some nx -> inU 32 (bi_nBits nx)) -> params_ok params -> m !! h = Some n ->
  exists b, GetNextWorkRequired params m h nTime = Some b.
Proof.
  intros Hwf Hbits Hp Hh. unfold GetNextWorkRequired, GetNextWorkRequiredOrig. rewrite Hh. cbn [mbind option_bind].
  destruct (GetCompact_for _ _ (UintToArith256_is256 (powLimit params))) as (cl & -> & _).
  destruct (compact_target_is256 _ (Hbits h n Hh)) as [t Ht]. destruct (GetCompact_for _ _ (mul_int64_is256 _ _ 10 Ht)) as (c10 & E10 & _).
  destruct (_ <? _); [by eexists|]. destruct (_ && _); [by eexists|]. destruct (_ && _); [rewrite E10; destruct (arith_gt _ _); by eexists|].
  destruct (fPowNoRetargeting params); [by eexists|]. destruct (_ <=? _).
  - destruct (actual_spacing_some _ Hwf h n Hh) as [a Ha]. destruct (next_pos_work_for params _ Hp h n t a Hh Ht Ha) as (b & E & _). by exists b.
  - destruct (next_pow_work_some params m Hp Hwf Hbits h n Hh) as (c & T & E & _). by exists c.
Qed.

(** On every block tree the next difficulty is computed: there is no division by
    zero and no failed assertion, and the bits stand for a target that is not
    negative, does not overflow and is at most the limit of its height. *)
Theorem GetNextWorkRequired_bounded GetHash params bm c h n nTime :
  reached GetHash (bm, c) -> retargets params ->
  m_block_index bm !! h = Some n ->
  exists b T, GetNextWorkRequired params (m_block_index bm) h nTime = Some b /\ compact_for b T /\ T <= next_limit params (bi_nHeight n).
Proof.
  intros Hr Hp Hh. destruct (sw_index _ (reached_wf _ _ Hr)) as [Hwf Htot _ _]. cbn in Hwf, Htot.
  apply GetNextWorkRequired_some; try done. intros x nx Hx. by apply (Htot x).
Qed.

(** Time protocol 2: when the previous target is within the limit the products
    do not wrap, and the target moves by the factor
    ((I - 1) S + 2 a) / ((I + 1) S), where S is the target spacing, I the number of
    spacings in the timespan and a the time of the last block, counted up to ten
    spacings; a block on schedule leaves the target as it is. *)
Theorem GetNextWorkRequired_v2 params m h n p np t nTime :
  let S := nPosTargetSpacing params in
  let I := nPosTargetTimespan_V2 params `quot` S in
  let L := hash_value (posLimit_V2 params) in
  let a := counted_spacing params true (bi_nTime n - bi_nTime np) in
  let q := (t * ((I - 1) * S + a + a)) `div` ((I + 1) * S) in
  tree_wf m -> retargets params -> m !! h = Some n -> bi_pprev n = Some p -> m !! p = Some np ->
  nPosStartHeight params <= bi_nHeight n -> nBlockTimeProtocolV2 params <= bi_nHeight n ->
  is256 (compact_target (bi_nBits n)) t -> t <= L ->
  1 <= I -> (I + 19) * S < 2 ^ 32 -> L * ((I + 19) * S) < 2 ^ 256 ->
  (exists b, GetNextWorkRequired params m h nTime = Some b /\ compact_for b (clamp q L)) /\
  (bi_nTime n - bi_nTime np = S -> q = t).
Proof.
  intros S I L a q Hwf Hp Hh Ep Hnp Hpos Hv2 Ht HtL HI Hfit HLfit. pose proof (po_pos_spacing _ (rt_ok _ Hp)) as HS. fold S in HS.
  pose proof (is256_range _ _ Ht) as Htr. unfold inU in Htr.
  assert (0 <= a <= 10 * S) as Ha.
  { subst a. unfold counted_spacing. fold S. destruct (Z.ltb_spec (bi_nTime n - bi_nTime np) 0); cbn [andb];
      [destruct (Z.ltb_spec (S * 10) 1)|destruct (Z.ltb_spec (S * 10) (bi_nTime n - bi_nTime np))]; lia. }
  split.
  - rewrite (GetNextWorkRequired_orig _ _ _ _ _ Hwf Hp Hh), (proj2 (Z.leb_le _ _) Hpos).
    assert (actual_spacing m n = Some (bi_nTime n - bi_nTime np)) as Hsp.
    { unfold actual_spacing. destruct (nw_prev _ _ _ (Hwf h n Hh) p Ep) as (x & Hx & Eh). rewrite Hnp in Hx. injection Hx as <-.
      pose proof (nw_height _ _ _ (Hwf p np Hnp)). rewrite (proj2 (Z.eqb_neq (bi_nHeight n) 0)) by lia. cbn [negb]. rewrite Ep. cbn. by rewrite Hnp. }
    destruct (next_pos_work_for params m (rt_ok _ Hp) h n t _ Hh Ht Hsp) as (b & E & Hb). exists b. split; [done|].
    assert (IsTimeProtocolV2 params (bi_nHeight n + 1) = true) as Ev by (apply Z.leb_le; lia). rewrite Ev in Hb.
    rewrite (proj2 (Z.eqb_neq (bi_nHeight n + 1) (nBlockTimeProtocolV2 params))) in Hb by lia. cbn zeta in Hb.
    change (pos_timespan params true) with (nPosTargetTimespan_V2 params) in Hb. change (pos_limit params true) with L in Hb. fold S I a in Hb.
    assert (0 <= (I - 1) * S) by (apply Z.mul_nonneg_nonneg; lia). assert (0 <= (I - 1) * S + a + a <= (I + 19) * S) as HM by lia.
    unfold retarget in Hb. rewrite wrapU_small in Hb by (unfold inU; lia). rewrite Z.mod_small in Hb; [done|].
    split; [apply Z.mul_nonneg_nonneg; lia|]. eapply Z.le_lt_trans; [|exact HLfit]. apply Z.mul_le_mono_nonneg; lia.
  - intros Eon. assert (a = S) as ->.
    { subst a. unfold counted_spacing. rewrite Eon, (proj2 (Z.ltb_ge S 0)) by lia. fold S. by rewrite (proj2 (Z.ltb_ge (S * 10) S)) by lia. }
    subst q. replace ((I - 1) * S + S + S) with ((I + 1) * S) by lia. apply Z.div_mul. apply Z.neq_mul_0. lia.
Qed.

(** A proof of work is accepted exactly when the bits stand for a positive target
    within the limit and the hash is at most that target. *)
Theorem CheckProofOfWork_spec params hash nBits :
  inU 32 nBits ->
  exists t, is256 (compact_target nBits) t /\
    (CheckProofOfWork params hash nBits = true <->
     (SetCompact nBits).1.2 = false /\ (SetCompact nBits).2 = false /\ 0 < t <= hash_value (powLimit params) /\ hash_value hash <= t).
Proof.
  intros Hb. destruct (SetCompact_value nBits Hb) as (t & Ht & _). exists t. split; [done|]. unfold CheckProofOfWork.
  destruct (SetCompact nBits) as [[bn neg] ov]. cbn [fst snd] in *. pose proof (is256_range _ _ Ht) as Hr. unfold inU in Hr.
  rewrite (EqualTo_0 bn t Ht), (arith_gt_spec _ _ _ _ Ht (UintToArith256_is256 _)), (arith_gt_spec _ _ _ _ (UintToArith256_is256 hash) Ht).
  destruct neg, ov, (Z.eqb_spec t 0), (Z.ltb_spec (hash_value (powLimit params)) t), (Z.ltb_spec t (hash_value hash)); cbn [orb negb];
    (split; [intros ?; first [done|split_and!; first [done|lia]]|intros (? & ? & ? & ?); first [done|lia]]).
Qed.
