(* ===== verification/Kernel.v ===== *)
(** * Proof of stake (src/src/pos/kernel.cpp, the stake of a coin in src/src/pos/stakeinput.cpp)

    The stake modifiers, the kernel hash and the check of a coinstake against it.
    [Hash] is the double SHA-256 of a byte string.  A function of the code that
    returns false through error() returns [None] here; so does an access out of
    range.  The stakes of zerocoins are a parameter. *)

From S2P Require Import Prelude Serialize Params BetTx BetKeys Transaction TokenGroups Arith256 Chain ChainProofs Pow.

Definition MODIFIER_INTERVAL : Z := 60.
Definition MODIFIER_INTERVAL_RATIO : Z := 3.
Definition OLD_MODIFIER_INTERVAL : Z := 2087.

(** The bytes of the limbs, as a hash. *)
Definition ArithToUint256 (a : list Z) : uint256 := le_value (reverse (mjoin (le_bytes 4 <$> a))).

(** ** What a stake is to the kernel *)
Record StakeInput := {
  st_IndexFrom : option uint256;      (* GetIndexFrom *)
  st_Value : Z;                       (* GetValue *)
  st_Modifier : option Z;             (* GetModifier *)
  st_Uniqueness : list Z }.           (* GetUniqueness *)

Definition arith_lt (a b : list Z) : bool := CompareTo a b <? 0.

Section kernel.
Context (params : PosParams).
Context (Hash : list Z -> uint256).
Context (fRegtest : bool).

(** ** The modifier of version 1 *)

(** The last block that generated a modifier, from [pindex] up. *)
Fixpoint last_modifier (m : BlockMap) (fuel : nat) (pindex : uint256) : option (Z * Z) :=
  n ← m !! pindex;
  if GeneratedStakeModifier n then Some (bi_nStakeModifier n, bi_nTime n)
  else
    match fuel, bi_pprev n with
    | S fuel, Some p => last_modifier m fuel p
    | _, _ => None
    end.

Definition GetLastStakeModifier (m : BlockMap) (pindex : uint256) : option (Z * Z) :=
  n ← m !! pindex; last_modifier m (Z.to_nat (bi_nHeight n)) pindex.

Definition GetStakeModifierSelectionIntervalSection (nSection : Z) : option Z :=
  if (0 <=? nSection) && (nSection <? 64)
  then Some (MODIFIER_INTERVAL * 63 `div` (63 + (63 - nSection) * (MODIFIER_INTERVAL_RATIO - 1)))
  else None.

(** The hash that ranks a candidate. *)
Definition selection_hash (fModifierV1A : bool) (hash : uint256) (nHeight nStakeModifierPrev : Z) : uint256 :=
  let hashProof := if fModifierV1A then hash else if IsProofOfStakeHeight params nHeight then 0 else hash in
  let hashSelection := Hash (Serialize uint256c hashProof ++ ser_writedata64 nStakeModifierPrev) in
  if IsProofOfStakeHeight params nHeight then ArithToUint256 (op_shr (UintToArith256 hashSelection) 32) else hashSelection.

(** [best] is the selected block with its hash, once fSelected is set; [v1a] is
    fModifierV1A, once the first candidate has been read. *)
Fixpoint select_loop (m : BlockMap) (mapSelectedBlocks : gset uint256) (nSelectionIntervalStop nStakeModifierPrev : Z)
    (v1a : option bool) (best : option (uint256 * uint256)) (l : list (Z * uint256)) : option (option (uint256 * uint256)) :=
  match l with
  | [] => Some best
  | (_, h) :: l =>
      n ← m !! h;
      if bool_decide (best <> None) && (nSelectionIntervalStop <? bi_nTime n) then Some best
      else
        let v := default (nBlockStakeModifierV1A params <=? bi_nHeight n) v1a in
        if decide (h ∈ mapSelectedBlocks) then select_loop m mapSelectedBlocks nSelectionIntervalStop nStakeModifierPrev (Some v) best l
        else
          let hashSelection := selection_hash v h (bi_nHeight n) nStakeModifierPrev in
          let best :=
            match best with
            | Some (hashBest, _) =>
                if arith_lt (UintToArith256 hashSelection) (UintToArith256 hashBest) then Some (hashSelection, h) else best
            | None => Some (hashSelection, h)
            end in
          select_loop m mapSelectedBlocks nSelectionIntervalStop nStakeModifierPrev (Some v) best l
  end.

Definition SelectBlockFromCandidates (m : BlockMap) (vSortedByTimestamp : list (Z * uint256)) (mapSelectedBlocks : gset uint256)
    (nSelectionIntervalStop nStakeModifierPrev : Z) : option uint256 :=
  best ← select_loop m mapSelectedBlocks nSelectionIntervalStop nStakeModifierPrev None None vSortedByTimestamp;
  snd <$> best.

(** The candidates, from the last block up. *)
Fixpoint candidates (m : BlockMap) (fuel : nat) (nSelectionIntervalStart : Z) (pindex : option uint256) : option (list (Z * uint256)) :=
  match pindex with
  | None => Some []
  | Some h =>
      n ← m !! h;
      if nSelectionIntervalStart <=? bi_nTime n then
        match fuel with
        | O => None
        | S fuel => l ← candidates m fuel nSelectionIntervalStart (bi_pprev n); Some ((bi_nTime n, h) :: l)
        end
      else Some []
  end.

(** The order of std::sort: by time, then by the hash as a number. *)
Definition cand_value (e : Z * uint256) : Z * Z := (e.1, eval (UintToArith256 e.2)).
Definition cand_le (a b : Z * uint256) : Prop :=
  (cand_value a).1 < (cand_value b).1 \/ (cand_value a).1 = (cand_value b).1 /\ (cand_value a).2 <= (cand_value b).2.

#[export] Instance cand_le_dec : RelDecision cand_le.
Proof. intros a b. unfold cand_le. apply _. Defined.

Fixpoint modifier_rounds (m : BlockMap) (vSorted : list (Z * uint256)) (nStakeModifier : Z) (rounds : nat) (nRound : Z)
    (nSelectionIntervalStop : Z) (mapSelectedBlocks : gset uint256) (nStakeModifierNew : Z) : option Z :=
  match rounds with
  | O => Some nStakeModifierNew
  | S rounds =>
      section ← GetStakeModifierSelectionIntervalSection nRound;
      let nSelectionIntervalStop := nSelectionIntervalStop + section in
      pindex ← SelectBlockFromCandidates m vSorted mapSelectedBlocks nSelectionIntervalStop nStakeModifier;
      modifier_rounds m vSorted nStakeModifier rounds (nRound + 1) nSelectionIntervalStop ({[pindex]} ∪ mapSelectedBlocks)
        (Z.lor nStakeModifierNew (u64 (Z.shiftl (GetStakeEntropyBit pindex) nRound)))
  end.

(** The modifier and fGeneratedStakeModifier. *)
Definition ComputeNextStakeModifier (m : BlockMap) (pindexPrev : option uint256) : option (Z * bool) :=
  match pindexPrev with
  | None => Some (0, true)
  | Some h =>
      n ← m !! h;
      if bi_nHeight n =? 0 then Some (93825017647567, true)
      else
        '(nStakeModifier, nModifierTime) ← GetLastStakeModifier m h;
        if bi_nTime n `quot` MODIFIER_INTERVAL <=? nModifierTime `quot` MODIFIER_INTERVAL then Some (nStakeModifier, false)
        else
          let nSelectionIntervalStart := bi_nTime n `quot` MODIFIER_INTERVAL * MODIFIER_INTERVAL - OLD_MODIFIER_INTERVAL in
          l ← candidates m (Z.to_nat (bi_nHeight n) + 1) nSelectionIntervalStart (Some h);
          let vSortedByTimestamp := merge_sort cand_le (reverse l) in
          nStakeModifierNew ← modifier_rounds m vSortedByTimestamp nStakeModifier (Nat.min 64 (length vSortedByTimestamp)) 0
            nSelectionIntervalStart ∅ 0;
          Some (nStakeModifierNew, true)
  end.

(** ** The modifier of version 2 *)
Definition ComputeStakeModifierV2 (m : BlockMap) (n : CBlockIndexNode) (kernel : uint256) : option CBlockIndexNode :=
  match bi_pprev n with
  | None => Some n
  | Some p =>
      np ← m !! p;
      let ss := Serialize uint256c kernel ++
        (if bi_nHeight np + 1 <? nBlockStakeModifierV2 params then ser_writedata64 (bi_nStakeModifier np)
         else Serialize uint256c (bi_nStakeModifierV2 np)) in
      Some (set_stake n (bi_nFlags n) (bi_nStakeModifier n) (Hash ss))
  end.

(** The modifiers of a block; vtx[1] is read when the block has a transaction. *)
Definition SetPOSParameters (m : BlockMap) (n : CBlockIndexNode) (vtx : list CTx) : option CBlockIndexNode :=
  if bi_nHeight n <? nBlockStakeModifierV2 params then
    '(nStakeModifier, fGeneratedStakeModifier) ← ComputeNextStakeModifier m (bi_pprev n);
    Some (SetStakeModifier n nStakeModifier fGeneratedStakeModifier)
  else
    if Z.of_nat (length vtx) <? 1 then None
    else tx ← vtx !! 1%nat; i ← ctx_vin tx !! 0%nat; ComputeStakeModifierV2 m n (op_hash (txin_prevout i)).

(** ** The modifier of a kernel: the one about a selection interval after the coin *)
Fixpoint kernel_modifier_loop (m : BlockMap) (c : CChain) (fuel : nat) (nTimeFrom nStakeModifierTime : Z) (pindexNext : option uint256) : option Z :=
  match fuel with
  | O => None
  | S fuel =>
      h ← pindexNext;
      n ← m !! h;
      let nStakeModifierTime := if GeneratedStakeModifier n then bi_nTime n else nStakeModifierTime in
      if nStakeModifierTime <? nTimeFrom + OLD_MODIFIER_INTERVAL
      then kernel_modifier_loop m c fuel nTimeFrom nStakeModifierTime (chain_at c (bi_nHeight n + 1))
      else Some (bi_nStakeModifier n)
  end.

Definition GetKernelStakeModifier (m : BlockMap) (c : CChain) (hashBlockFrom : uint256) : option Z :=
  n ← m !! hashBlockFrom;
  if fRegtest then Some (bi_nTime n)
  else kernel_modifier_loop m c (length c + 1) (bi_nTime n) (bi_nTime n) (chain_at c (bi_nHeight n + 1)).

(** ** The kernel hash *)
Definition GetHashProofOfStake (m : BlockMap) (pindexPrev : uint256) (stake : StakeInput) (nTimeTx : Z) : option uint256 :=
  from ← st_IndexFrom stake;
  nfrom ← m !! from;
  nprev ← m !! pindexPrev;
  modifier ← (if bi_nHeight nprev + 1 <? nBlockStakeModifierV2 params then ser_writedata64 <$> st_Modifier stake
              else Some (Serialize uint256c (bi_nStakeModifierV2 nprev)));
  Some (Hash (modifier ++ ser_writedata32 (bi_nTime nfrom) ++ st_Uniqueness stake ++ ser_writedata32 nTimeTx)).

(** hashProofOfStake and the result. *)
Definition CheckStakeKernelHash (m : BlockMap) (pindexPrev : uint256) (nBits : Z) (stake : StakeInput) (nTimeTx : Z) : option (uint256 * bool) :=
  hashProofOfStake ← GetHashProofOfStake m pindexPrev stake nTimeTx;
  weight ← op_div (base_uint_of (u64 (st_Value stake))) (base_uint_of 100);
  let bnTarget := op_mul (compact_target nBits) weight in
  Some (hashProofOfStake, arith_lt (UintToArith256 hashProofOfStake) bnTarget).

(** The sum of a uint32_t and an int32_t is unsigned. *)
Definition HasStakeMinAgeOrDepth (contextHeight contextTime utxoFromBlockHeight utxoFromBlockTime : Z) : bool :=
  if contextHeight <? nBlockStakeModifierV2 params then
    fRegtest || (u32 (utxoFromBlockTime + nStakeMinAge params) <=? contextTime)
  else nStakeMinDepth params <=? contextHeight - utxoFromBlockHeight.

Definition GetTimeSlot (nTime : Z) : Z := nTime `quot` nTimeSlotLength params * nTimeSlotLength params.

(** ** The stake of a coin *)
Definition CStake_GetIndexFrom (m : BlockMap) (c : CChain) (block_of : uint256 -> option uint256) (txid : uint256) : option uint256 :=
  hashBlock ← block_of txid;
  b ← Contains m c hashBlock;
  if b : bool then Some hashBlock else None.

Definition CStake_GetModifier (m : BlockMap) (c : CChain) (pindexFrom : option uint256) : option Z :=
  from ← pindexFrom; GetKernelStakeModifier m c from.

Definition CStake_GetUniqueness (nPosition : Z) (txid : uint256) : list Z := ser_writedata32 nPosition ++ Serialize uint256c txid.

Definition CStake (m : BlockMap) (c : CChain) (block_of : uint256 -> option uint256) (txFrom : CTx) (nPosition : Z) (out : CTxOut) : StakeInput :=
  let from := CStake_GetIndexFrom m c block_of (ctx_hash txFrom) in
  {| st_IndexFrom := from; st_Value := nValue out; st_Modifier := CStake_GetModifier m c from;
     st_Uniqueness := CStake_GetUniqueness nPosition (ctx_hash txFrom) |}.

(** ** The check of a block *)
Section check.
(** The transactions of the chain and the block of each (GetTransaction), the
    interpreter (src/src/script/interpreter.cpp), the table of invalid outputs with
    the script that replaces them (src/src/invalid.cpp), and the stake of a zerocoin spend. *)
Context (GetTransaction : uint256 -> option CTx) (block_of : uint256 -> option uint256).
Context (VerifyScript : list Z -> list Z -> CTx -> Z -> bool).
Context (ContainsScript : list Z -> bool) (validScript : list Z).
Context (zerocoin_stake : CTxIn -> Z -> option StakeInput).

Definition initStakeInput (m : BlockMap) (c : CChain) (tx : CTx) (nPreviousBlockHeight : Z) : option StakeInput :=
  if negb (IsCoinStake tx) then None
  else
    txin ← ctx_vin tx !! 0%nat;
    if CTxIn_IsZerocoinSpend txin then zerocoin_stake txin nPreviousBlockHeight
    else
      txPrev ← GetTransaction (op_hash (txin_prevout txin));
      out ← ctx_vout txPrev !! Z.to_nat (op_n (txin_prevout txin));
      if negb (VerifyScript (txin_scriptSig txin) (scriptPubKey out) tx (nValue out)) &&
         (negb (ContainsScript (scriptPubKey out)) || negb (VerifyScript (txin_scriptSig txin) validScript tx (nValue out)))
      then None
      else if IsOutputGrouped out then None
      else Some (CStake m c block_of txPrev (op_n (txin_prevout txin)) out).

(** hashProofOfStake, when the check passes. *)
Definition CheckProofOfStake_block (m : BlockMap) (c : CChain) (vtx : list CTx) (block_nTime block_nBits : Z) (pindex : uint256) : option uint256 :=
  n ← m !! pindex;
  prev ← bi_pprev n;
  nprev ← m !! prev;
  tx ← vtx !! 1%nat;
  stake ← initStakeInput m c tx (bi_nHeight nprev);
  txin ← ctx_vin tx !! 0%nat;
  from ← st_IndexFrom stake;
  nfrom ← m !! from;
  if negb (CTxIn_IsZerocoinSpend txin) && (nPublicZCSpends params - 1 <=? bi_nHeight nprev) &&
     negb (HasStakeMinAgeOrDepth (bi_nHeight nprev + 1) block_nTime (bi_nHeight nfrom) (bi_nTime nfrom))
  then None
  else
    '(hashProofOfStake, ok) ← CheckStakeKernelHash m prev block_nBits stake block_nTime;
    if ok : bool then Some hashProofOfStake else None.
End check.
End kernel.
