(* ===== verification/KernelProofs.v ===== *)
(** * Proof of stake: proofs about Kernel.v *)

From S2P Require Import Prelude Serialize Params BetTx BetKeys Transaction TokenGroups Arith256 Chain ChainProofs Pow Kernel.

(** ** Hashes and numbers *)
Lemma le_value_app a b : le_value (a ++ b) = le_value a + 2 ^ (8 * Z.of_nat (length a)) * le_value b.
Proof.
  induction a as [|x a IH]; [cbn; lia|]. cbn [app le_value length]. rewrite IH.
  replace (8 * Z.of_nat (S (length a))) with (8 + 8 * Z.of_nat (length a)) by lia. rewrite Z.pow_add_r by lia. lia.
Qed.

Lemma limbs_bytes l :
  limbs_ok l -> Forall byte (mjoin (le_bytes 4 <$> l)) /\ length (mjoin (le_bytes 4 <$> l)) = (4 * length l)%nat /\ le_value (mjoin (le_bytes 4 <$> l)) = eval l.
Proof.
  induction 1 as [|x l Hx Hl (IH1 & IH2 & IH3)]; [done|]. rewrite fmap_cons. change (mjoin (le_bytes 4 x :: (le_bytes 4 <$> l))) with (le_bytes 4 x ++ mjoin (le_bytes 4 <$> l)).
  split_and!.
  - apply Forall_app. split; [apply le_bytes_byte|done].
  - rewrite length_app, length_le_bytes, IH2. cbn [length]. lia.
  - rewrite le_value_app, length_le_bytes, le_value_bytes, IH3, wrapU_small by done. done.
Qed.

Lemma hash_value_Arith l v : is256 l v -> hash_value (ArithToUint256 l) = v.
Proof.
  intros (Ho & Hl & <-). destruct (limbs_bytes l Ho) as (Hb & Hlen & Hv). unfold hash_value, ArithToUint256. cbn [Serialize uint256c].
  replace 32%nat with (length (reverse (mjoin (le_bytes 4 <$> l)))) by (rewrite length_reverse, Hlen, Hl; done).
  rewrite le_bytes_value by (by rewrite Forall_reverse). by rewrite reverse_involutive.
Qed.

Lemma arith_lt_spec a b x y : is256 a x -> is256 b y -> arith_lt a b = (x <? y).
Proof.
  intros Ha Hb. unfold arith_lt. rewrite (is256_compare a b x y Ha Hb). unfold compare_Z.
  destruct (Z.ltb_spec x y), (Z.ltb_spec y x); done || lia.
Qed.

Lemma hash_lt_spec a b : arith_lt (UintToArith256 a) (UintToArith256 b) = (hash_value a <? hash_value b).
Proof. apply arith_lt_spec; apply UintToArith256_is256. Qed.

Section kernel_proofs.
Context (params : PosParams).
Context (Hash : list Z -> uint256).
Context (fRegtest : bool).

(** ** Selecting a candidate *)
Section select.
Context (m : BlockMap) (sel : gset uint256) (stop prev : Z) (v1a : bool).

Definition rank (h : uint256) (n : CBlockIndexNode) : Z := hash_value (selection_hash params Hash v1a h (bi_nHeight n) prev).

(** [best] is the least of the candidates of [l] that are not selected. *)
Definition least (l : list (Z * uint256)) (best : option (uint256 * uint256)) : Prop :=
  match best with
  | None => forall e, e ∈ l -> e.2 ∈ sel
  | Some (hb, h) => exists n t, (t, h) ∈ l /\ h ∉ sel /\ m !! h = Some n /\ hash_value hb = rank h n /\
      forall e n', e ∈ l -> e.2 ∉ sel -> m !! e.2 = Some n' -> rank h n <= rank e.2 n'
  end.

(** The list is in the order of the blocks' times. *)
Definition by_time (l : list (Z * uint256)) : Prop :=
  Forall (fun e => exists n, m !! e.2 = Some n /\ bi_nTime n = e.1) l /\ StronglySorted (fun a b : Z * uint256 => a.1 <= b.1) l.

Definition better (best : option (uint256 * uint256)) (h : uint256) (n : CBlockIndexNode) : option (uint256 * uint256) :=
  match best with
  | Some (hashBest, _) =>
      if arith_lt (UintToArith256 (selection_hash params Hash v1a h (bi_nHeight n) prev)) (UintToArith256 hashBest)
      then Some (selection_hash params Hash v1a h (bi_nHeight n) prev, h) else best
  | None => Some (selection_hash params Hash v1a h (bi_nHeight n) prev, h)
  end.

Lemma least_skip done_ best t h : least done_ best -> h ∈ sel -> least (done_ ++ [(t, h)]) best.
Proof.
  unfold least. intros Hl Hin. destruct best as [[hb b]|].
  - destruct Hl as (n & t' & H1 & H2 & H3 & H4 & H5). exists n, t'. split_and!; try done; [set_solver|].
    intros e n' [He|He%list_elem_of_singleton]%elem_of_app; [by apply H5|]. subst e. done.
  - intros e [He|He%list_elem_of_singleton]%elem_of_app; [by apply Hl|]. by subst e.
Qed.

Lemma least_better done_ best t h n : least done_ best -> h ∉ sel -> m !! h = Some n -> least (done_ ++ [(t, h)]) (better best h n).
Proof.
  unfold least. intros Hl Hni Hh. destruct best as [[hb b]|]; cbn [better].
  - destruct Hl as (nb & t' & H1 & H2 & H3 & H4 & H5). rewrite hash_lt_spec, H4. fold (rank h n). destruct (Z.ltb_spec (rank h n) (rank b nb)).
    + exists n, t. split_and!; try done; [set_solver|]. intros e n' [He|He%list_elem_of_singleton]%elem_of_app Hs Hm.
      * specialize (H5 e n' He Hs Hm). lia.
      * subst e. cbn in Hm. rewrite Hh in Hm. injection Hm as <-. done.
    + exists nb, t'. split_and!; try done; [set_solver|]. intros e n' [He|He%list_elem_of_singleton]%elem_of_app Hs Hm; [by apply (H5 e)|].
      subst e. cbn in *. rewrite Hh in Hm. injection Hm as <-. done.
  - exists n, t. split_and!; try done; [set_solver|]. intros e n' [He|He%list_elem_of_singleton]%elem_of_app Hs Hm; [by apply Hl in He|].
    subst e. cbn in *. rewrite Hh in Hm. injection Hm as <-. done.
Qed.

(** The loop reads the candidates up to the first one after the stop, once it has
    one, and keeps the least. *)
Lemma select_loop_spec l : forall done_ best,
  by_time (done_ ++ l) -> least done_ best ->
  exists best' rest, select_loop params Hash m sel stop prev (Some v1a) best l = Some best' /\
    exists read, l = read ++ rest /\ least (done_ ++ read) best' /\
    (rest = [] \/ best' <> None /\ Forall (fun e => stop < e.1) rest).
Proof.
  induction l as [|[t h] l IH]; intros done_ best Hl Hbest; cbn [select_loop].
  { exists best, []. split; [done|]. exists []. split; [done|]. split; [by rewrite app_nil_r|]. by left. }
  pose proof Hl as [Hf Hs]. apply Forall_app in Hf as [_ Hf]. inversion_clear Hf as [|? ? (n & Hn & Ht) Hf']. cbn in Hn, Ht. rewrite Hn. cbn [mbind option_bind].
  destruct (bool_decide (best ≠ None) && (stop <? bi_nTime n)) eqn:Eb.
  { apply andb_true_iff in Eb as [Eb%bool_decide_eq_true Et%Z.ltb_lt]. exists best, ((t, h) :: l). split; [done|]. exists []. split; [done|]. split; [by rewrite app_nil_r|].
    right. split; [done|]. constructor; [cbn; lia|]. apply StronglySorted_app in Hs as (_ & _ & Hs). inversion_clear Hs as [|? ? Hs' Hall].
    eapply Forall_impl; [done|]. cbn. intros e He. lia. }
  cbn [default from_option id]. fold (better best h n).
  assert (forall best1, least (done_ ++ [(t, h)]) best1 ->
    exists best' rest, select_loop params Hash m sel stop prev (Some v1a) best1 l = Some best' /\
      exists read, (t, h) :: l = read ++ rest /\ least (done_ ++ read) best' /\ (rest = [] \/ best' <> None /\ Forall (fun e => stop < e.1) rest)) as Hrec.
  { intros best1 H1. destruct (IH (done_ ++ [(t, h)]) best1) as (best' & rest & E & read & -> & Hle & Hr); [by rewrite <- app_assoc|done|].
    exists best', rest. split; [done|]. exists ((t, h) :: read). split; [done|]. split; [|done]. by rewrite <- app_assoc in Hle. }
  case_decide as Hin; apply Hrec; [by apply least_skip|by apply least_better].
Qed.
End select.

(** The block selected in a round is one of the candidates that are left, and none
    of those up to the stop has a smaller hash. *)
Lemma SelectBlock_least m sel stop prev t0 h0 n0 l :
  let cands := (t0, h0) :: l in
  let v1a := nBlockStakeModifierV1A params <=? bi_nHeight n0 in
  by_time m cands -> m !! h0 = Some n0 -> (exists e, e ∈ cands /\ e.2 ∉ sel) ->
  exists h n t, SelectBlockFromCandidates params Hash m cands sel stop prev = Some h /\ (t, h) ∈ cands /\ h ∉ sel /\ m !! h = Some n /\
    forall e n', e ∈ cands -> e.2 ∉ sel -> m !! e.2 = Some n' -> e.1 <= stop -> rank prev v1a h n <= rank prev v1a e.2 n'.
Proof.
  intros cands v1a Hl Hh0 Hex. unfold SelectBlockFromCandidates.
  assert (select_loop params Hash m sel stop prev None None cands = select_loop params Hash m sel stop prev (Some v1a) None cands) as ->.
  { subst cands v1a. cbn [select_loop]. rewrite Hh0. done. }
  destruct (select_loop_spec m sel stop prev v1a cands [] None) as (best & rest & -> & read & E & Hleast & Hrest); [done|set_solver|].
  cbn [mbind option_bind app] in *. destruct best as [[hb h]|].
  - destruct Hleast as (n & t & H1 & H2 & H3 & H4 & H5). exists h, n, t. split; [done|]. split; [rewrite E; set_solver|]. split; [done|]. split; [done|].
    intros e n' He Hs Hm Hle. rewrite E in He. apply elem_of_app in He as [He|He]; [by apply (H5 e)|].
    destruct Hrest as [->|[_ Hall]]; [set_solver|]. rewrite Forall_forall in Hall. specialize (Hall e He). cbn in Hall. lia.
  - exfalso. destruct Hrest as [->|[? _]]; [|done]. destruct Hex as (e & He & Hs). rewrite E, app_nil_r in He. cbn in Hleast. by apply Hs, Hleast.
Qed.

(** ** The candidates *)
Lemma candidates_spec m fuel start : forall h n,
  tree_wf m -> m !! h = Some n -> (Z.to_nat (bi_nHeight n) < fuel)%nat ->
  exists l, candidates m fuel start (Some h) = Some l /\ NoDup l.*2 /\
    Forall (fun e => exists n', m !! e.2 = Some n' /\ bi_nTime n' = e.1 /\ bi_nHeight n' <= bi_nHeight n) l /\ (start <= bi_nTime n -> (bi_nTime n, h) ∈ l).
Proof.
  induction fuel as [|fuel IH]; intros h n Hwf Hh Hf; [lia|]. cbn [candidates]. rewrite Hh. cbn [mbind option_bind].
  destruct (Z.leb_spec start (bi_nTime n)).
  2: { exists []. split_and!; [done|constructor|done|lia]. }
  destruct (bi_pprev n) as [p|] eqn:Ep.
  - destruct (nw_prev _ _ _ (Hwf h n Hh) p Ep) as (np & Hp & Eh). pose proof (nw_height _ _ _ (Hwf p np Hp)).
    destruct (IH p np Hwf Hp ltac:(lia)) as (l & -> & Hnd & Hall & _). cbn [mbind option_bind]. exists ((bi_nTime n, h) :: l). split; [done|]. split; [|split].
    + rewrite fmap_cons. constructor; [|done]. intros (e & E & He)%list_elem_of_fmap. rewrite Forall_forall in Hall. destruct (Hall e He) as (n' & Hn' & _ & Hle).
      cbn in E. rewrite <- E, Hh in Hn'. injection Hn' as <-. lia.
    + constructor; [exists n; split_and!; [done..|lia]|]. eapply Forall_impl; [done|]. cbn. intros e (n' & ? & ? & ?). exists n'. split_and!; [done..|lia].
    + intros _. constructor.
  - assert (candidates m fuel start None = Some []) as -> by (by destruct fuel). cbn [mbind option_bind]. exists [(bi_nTime n, h)]. split; [done|]. split; [|split].
    + cbn. apply NoDup_singleton.
    + constructor; [exists n; split_and!; [done..|lia]|done].
    + intros _. constructor.
Qed.

#[local] Instance cand_le_total : Total cand_le.
Proof. intros a b. unfold cand_le. lia. Qed.

#[local] Instance cand_le_trans : Transitive cand_le.
Proof. intros a b c. unfold cand_le. lia. Qed.

(** Sorted, the candidates are in the order of time. *)
Lemma sorted_by_time m (l : list (Z * uint256)) :
  Forall (fun e => exists n, m !! e.2 = Some n /\ bi_nTime n = e.1) l -> by_time m (merge_sort cand_le (reverse l)).
Proof.
  intros Hl. assert (merge_sort cand_le (reverse l) ≡ₚ l) as Hp by (rewrite merge_sort_Permutation; apply reverse_Permutation).
  split; [by rewrite Hp|]. assert (StronglySorted cand_le (merge_sort cand_le (reverse l))) as Hs by (apply Sorted_StronglySorted; [apply _|apply Sorted_merge_sort; apply _]).
  clear Hp. induction Hs as [|a l' Hs IH Ha]; [constructor|]. constructor; [done|]. eapply Forall_impl; [done|]. unfold cand_le. cbn. intros e He. lia.
Qed.

(** ** The rounds *)
Lemma lor_inU64 a b : inU 64 a -> inU 64 b -> inU 64 (Z.lor a b).
Proof.
  unfold inU. intros Ha Hb. assert (0 <= Z.lor a b) by (apply Z.lor_nonneg; lia). split; [done|].
  destruct (decide (Z.lor a b = 0)) as [->|]; [lia|]. apply Z.log2_lt_pow2; [lia|]. rewrite Z.log2_lor by lia.
  assert (forall x, 0 <= x < 2 ^ 64 -> Z.log2 x < 64) as Hlog; [|apply Z.max_lub_lt; by apply Hlog].
  intros x Hx. destruct (decide (x = 0)) as [->|]; [done|]. apply Z.log2_lt_pow2; lia.
Qed.

(** The rounds never run out of candidates: each selects one that no other has. *)
Lemma modifier_rounds_some m cands mod_ rounds : forall nRound stop sel acc,
  by_time m cands -> NoDup cands.*2 -> (forall h, h ∈ sel -> h ∈ cands.*2) -> (size sel + rounds <= length cands)%nat ->
  0 <= nRound -> nRound + Z.of_nat rounds <= 64 -> inU 64 acc ->
  exists v, modifier_rounds params Hash m cands mod_ rounds nRound stop sel acc = Some v /\ inU 64 v.
Proof.
  induction rounds as [|rounds IH]; intros nRound stop sel acc Hb Hnd Hsel Hsz H0 H64 Hacc; [by exists acc|].
  cbn [modifier_rounds]. unfold GetStakeModifierSelectionIntervalSection. rewrite (proj2 (Z.leb_le 0 nRound)), (proj2 (Z.ltb_lt nRound 64)) by lia.
  cbn [andb mbind option_bind].
  assert (exists e, e ∈ cands /\ e.2 ∉ sel) as Hex.
  { destruct (decide (Exists (fun e => e.2 ∉ sel) cands)) as [He|Hne]; [apply Exists_exists in He as (e & ? & ?); eauto|]. exfalso.
    assert (list_to_set cands.*2 ⊆ sel) as Hsub.
    { intros h Hh. rewrite elem_of_list_to_set in Hh. apply list_elem_of_fmap in Hh as (e & -> & He). destruct (decide (e.2 ∈ sel)); [done|]. exfalso. apply Hne, Exists_exists. eauto. }
    apply subseteq_size in Hsub. rewrite size_list_to_set, length_fmap in Hsub by done. lia. }
  destruct cands as [|[t0 h0] l]; [by destruct Hex as (e & ?%not_elem_of_nil & _)|].
  pose proof Hb as [Hf _]. inversion_clear Hf as [|? ? (n0 & Hn0 & _) _]. cbn in Hn0.
  match goal with |- context[SelectBlockFromCandidates _ _ _ _ _ ?s _] => destruct (SelectBlock_least m sel s mod_ t0 h0 n0 l Hb Hn0 Hex) as (h & n & t & -> & Hin & Hni & _) end.
  cbn [mbind option_bind]. apply IH; try done; try lia.
  - intros x [->%elem_of_singleton|Hx]%elem_of_union; [|by apply Hsel]. apply list_elem_of_fmap. by exists (t, h).
  - rewrite size_union by set_solver. rewrite size_singleton. lia.
  - apply lor_inU64; [done|]. apply wrapU_range. lia.
Qed.

(** ** The modifier is always found *)
Lemma last_modifier_some m fuel : forall h n,
  tree_wf m -> (forall x nx, m !! x = Some nx -> bi_nHeight nx = 1 -> GeneratedStakeModifier nx = true) ->
  (forall x nx, m !! x = Some nx -> inU 64 (bi_nStakeModifier nx)) ->
  m !! h = Some n -> 1 <= bi_nHeight n <= Z.of_nat fuel -> exists v t, last_modifier m fuel h = Some (v, t) /\ inU 64 v.
Proof.
  induction fuel as [|fuel IH]; intros h n Hwf Hgen Hmod Hh Hr; [lia|]. cbn [last_modifier]. rewrite Hh. cbn [mbind option_bind].
  destruct (GeneratedStakeModifier n) eqn:Eg; [do 2 eexists; split; [done|by eapply Hmod]|].
  destruct (bi_pprev n) as [p|] eqn:Ep; [|apply (nw_root _ _ _ (Hwf h n Hh)) in Ep; lia].
  destruct (nw_prev _ _ _ (Hwf h n Hh) p Ep) as (np & Hp & Eh). apply (IH p np); try done.
  destruct (decide (bi_nHeight n = 1)) as [E1|]; [rewrite (Hgen h n Hh E1) in Eg; done|lia].
Qed.

(** Once the first block after the genesis block has generated a modifier, the
    next one is always computed: neither the search for the last modifier nor a
    round of the selection fails, and the result has 64 bits. *)
Theorem ComputeNextStakeModifier_total m pindexPrev :
  tree_wf m -> (forall x nx, m !! x = Some nx -> bi_nHeight nx = 1 -> GeneratedStakeModifier nx = true) ->
  (forall x nx, m !! x = Some nx -> inU 64 (bi_nStakeModifier nx)) -> (forall h, pindexPrev = Some h -> is_Some (m !! h)) ->
  exists v b, ComputeNextStakeModifier params Hash m pindexPrev = Some (v, b) /\ inU 64 v.
Proof.
  intros Hwf Hgen Hmod Hp. unfold ComputeNextStakeModifier. destruct pindexPrev as [h|]; [|by exists 0, true]. destruct (Hp h eq_refl) as [n Hh]. rewrite Hh. cbn [mbind option_bind].
  destruct (Z.eqb_spec (bi_nHeight n) 0) as [|Hn0]; [by exists 93825017647567, true|]. pose proof (nw_height _ _ _ (Hwf h n Hh)).
  unfold GetLastStakeModifier. rewrite Hh. cbn [mbind option_bind].
  destruct (last_modifier_some m (Z.to_nat (bi_nHeight n)) h n Hwf Hgen Hmod Hh ltac:(lia)) as (v & t & -> & Hv). cbn [mbind option_bind].
  destruct (_ <=? _); [by exists v, false|]. set (start := _ - OLD_MODIFIER_INTERVAL).
  destruct (candidates_spec m (Z.to_nat (bi_nHeight n) + 1) start h n Hwf Hh ltac:(lia)) as (l & -> & Hnd & Hall & _). cbn [mbind option_bind].
  set (cands := merge_sort cand_le (reverse l)).
  assert (cands ≡ₚ l) as Hperm by (subst cands; rewrite merge_sort_Permutation; apply reverse_Permutation).
  destruct (modifier_rounds_some m cands v (Nat.min 64 (length cands)) 0 start ∅ 0) as (v' & -> & Hv'); try done; try lia.
  - apply sorted_by_time. eapply Forall_impl; [done|]. cbn. intros e (n' & ? & ? & _). eauto.
  - by rewrite Hperm.
  - rewrite size_empty. lia.
  - by exists v', true.
Qed.

(** ** The kernel *)

(** The hash has to be below the target times the weight of the stake, its value
    in hundreds of satoshis, modulo 2^256; when the product fits, a larger stake is
    never worse. *)
Lemma CheckStakeKernelHash_spec m prev nBits stake nTime hp :
  inU 32 nBits -> inU 64 (st_Value stake) -> GetHashProofOfStake params Hash m prev stake nTime = Some hp ->
  exists t ok, is256 (compact_target nBits) t /\ CheckStakeKernelHash params Hash m prev nBits stake nTime = Some (hp, ok) /\
    (ok = true <-> hash_value hp < (t * (st_Value stake `div` 100)) `mod` 2 ^ 256) /\
    (t * (st_Value stake `div` 100) < 2 ^ 256 -> (ok = true <-> hash_value hp < t * (st_Value stake `div` 100))).
Proof.
  intros Hb Hv Hhp. destruct (compact_target_is256 nBits Hb) as [t Ht]. unfold CheckStakeKernelHash. rewrite Hhp. cbn [mbind option_bind].
  destruct (is256_div _ _ _ _ (is256_of _ Hv) (is256_of 100 ltac:(done)) ltac:(lia)) as (w & E & Hw). rewrite (wrapU_small 64 (st_Value stake)) by done.
  rewrite E. cbn [mbind option_bind]. eexists t, _. split; [done|]. split; [done|].
  rewrite (arith_lt_spec _ _ _ _ (UintToArith256_is256 hp) (is256_mul _ _ _ _ Ht Hw)), Z.ltb_lt. split; [done|]. intros Hfit.
  rewrite Z.mod_small; [done|]. pose proof (is256_range _ _ Ht). unfold inU in *. split; [|done]. apply Z.mul_nonneg_nonneg; [lia|]. apply Z.div_pos; lia.
Qed.

(** The product wraps: at the bits 0x1e0fffff, of a target below 2^236, a stake of
    100 * 2^40 satoshis has the target 0 and no hash meets it. *)
Theorem CheckStakeKernelHash_wraps m prev stake nTime hp :
  st_Value stake = 100 * 2 ^ 40 -> GetHashProofOfStake params Hash m prev stake nTime = Some hp ->
  CheckStakeKernelHash params Hash m prev 0x1e0fffff stake nTime = Some (hp, false) /\
  hash_value hp < eval (compact_target 0x1e0fffff) * (st_Value stake `div` 100) /\ eval (compact_target 0x1e0fffff) < 2 ^ 236.
Proof.
  intros Hv Hhp. split.
  - unfold CheckStakeKernelHash. rewrite Hhp, Hv. cbn [mbind option_bind].
    change (op_div (base_uint_of (u64 (100 * 2 ^ 40))) (base_uint_of 100)) with (Some [0; 256; 0; 0; 0; 0; 0; 0]). cbn [mbind option_bind].
    change (op_mul (compact_target 504365055) [0; 256; 0; 0; 0; 0; 0; 0]) with (replicate 8 0).
    rewrite (arith_lt_spec _ _ (hash_value hp) 0); [|apply UintToArith256_is256|split_and!; [by apply Forall_replicate|done..]].
    pose proof (is256_range _ _ (UintToArith256_is256 hp)) as [H _]. by rewrite (proj2 (Z.ltb_ge _ _)).
  - pose proof (is256_range _ _ (UintToArith256_is256 hp)) as [_ H]. rewrite Hv. split; [|done].
    eapply Z.lt_le_trans; [exact H|]. vm_compute. discriminate.
Qed.

(** From the second modifier on, a block with one transaction is read past its end. *)
Theorem SetPOSParameters_one_tx m n tx :
  nBlockStakeModifierV2 params <= bi_nHeight n -> SetPOSParameters params Hash m n [tx] = None.
Proof. intros Hh. unfold SetPOSParameters. by rewrite (proj2 (Z.ltb_ge _ _) Hh). Qed.

(** C17: what an accepted proof of stake with a coin shows.  The block has an entry
    with a predecessor in the index, and with respect to that predecessor: the
    coinstake's first input spends an output of a transaction in a block of the
    active chain, with a valid script (or, for an output of the list of invalid
    outputs, the script that replaces it); the output holds no tokens.  From the
    height of the public zerocoin spends on, the coin is old enough: before the second
    stake modifier by its time (not on regtest; the sum is taken at 32 bits), from then
    on it is at least nStakeMinDepth blocks below the new block.  The hash is that of
    this coin's kernel after this predecessor, and below the target of the bits times
    a hundredth of the coin's value, taken modulo 2^256. *)
Theorem CheckProofOfStake_block_sound GetTransaction block_of VerifyScript ContainsScript validScript zerocoin_stake
    m c vtx nTime nBits pindex hp tx txin :
  CheckProofOfStake_block params Hash fRegtest GetTransaction block_of VerifyScript ContainsScript validScript zerocoin_stake
    m c vtx nTime nBits pindex = Some hp ->
  vtx !! 1%nat = Some tx -> ctx_vin tx !! 0%nat = Some txin -> CTxIn_IsZerocoinSpend txin = false -> inU 32 nBits ->
  exists n prev nprev txPrev out from nfrom t,
    m !! pindex = Some n /\ bi_pprev n = Some prev /\ m !! prev = Some nprev /\ IsCoinStake tx = true /\ GetTransaction (op_hash (txin_prevout txin)) = Some txPrev /\
    ctx_vout txPrev !! Z.to_nat (op_n (txin_prevout txin)) = Some out /\ IsOutputGrouped out = false /\
    (VerifyScript (txin_scriptSig txin) (scriptPubKey out) tx (nValue out) = true \/
     ContainsScript (scriptPubKey out) = true /\ VerifyScript (txin_scriptSig txin) validScript tx (nValue out) = true) /\
    block_of (ctx_hash txPrev) = Some from /\ m !! from = Some nfrom /\ chain_at c (bi_nHeight nfrom) = Some from /\
    (nPublicZCSpends params - 1 <= bi_nHeight nprev ->
     if bi_nHeight nprev + 1 <? nBlockStakeModifierV2 params
     then fRegtest = true \/ u32 (bi_nTime nfrom + nStakeMinAge params) <= nTime
     else nStakeMinDepth params <= bi_nHeight nprev + 1 - bi_nHeight nfrom) /\
    GetHashProofOfStake params Hash m prev (CStake fRegtest m c block_of txPrev (op_n (txin_prevout txin)) out) nTime = Some hp /\
    is256 (compact_target nBits) t /\
    (inU 64 (nValue out) -> hash_value hp < (t * (nValue out `div` 100)) `mod` 2 ^ 256).
Proof.
  intros E Htx Hin Hz Hb. unfold CheckProofOfStake_block in E.
  apply bind_Some in E as (n & Hn & E). apply bind_Some in E as (prev & Hprev & E). apply bind_Some in E as (nprev & Hnprev & E).
  rewrite Htx in E. cbn [mbind option_bind] in E. apply bind_Some in E as (stake & Hst & E). rewrite Hin in E. cbn [mbind option_bind] in E.
  apply bind_Some in E as (from & Hfrom & E). apply bind_Some in E as (nfrom & Hnfrom & E). rewrite Hz in E. cbn [negb andb] in E.
  destruct (_ && _) eqn:Eage; [done|]. apply bind_Some in E as ([hp' ok] & Hk & E). destruct ok; [|done]. injection E as ->.
  unfold initStakeInput in Hst. destruct (IsCoinStake tx) eqn:Ecs; [|done]. cbn [negb] in Hst. rewrite Hin in Hst. cbn [mbind option_bind] in Hst. rewrite Hz in Hst.
  apply bind_Some in Hst as (txPrev & Hprevtx & Hst). apply bind_Some in Hst as (out & Hout & Hst). destruct (_ && _) eqn:Evs in Hst; [done|].
  destruct (IsOutputGrouped out) eqn:Eg; [done|]. injection Hst as <-. cbn [CStake st_IndexFrom st_Value] in *.
  unfold CStake_GetIndexFrom in Hfrom. apply bind_Some in Hfrom as (hb & Hblk & Hfrom). apply bind_Some in Hfrom as (b & Hc & Hfrom). destruct b; [|done]. injection Hfrom as ->.
  unfold Contains in Hc. rewrite Hnfrom in Hc. cbn [mbind option_bind] in Hc. injection Hc as Hc%bool_decide_eq_true.
  destruct (compact_target_is256 nBits Hb) as [t Ht].
  set (stake := CStake _ _ _ _ _ _ _) in Hk. assert (st_Value stake = nValue out) as Ev by done.
  assert (GetHashProofOfStake params Hash m prev stake nTime = Some hp) as Hhp.
  { unfold CheckStakeKernelHash in Hk. apply bind_Some in Hk as (hp1 & Hhp & Hk). apply bind_Some in Hk as (w & _ & Hk). by injection Hk as -> _. }
  exists n, prev, nprev, txPrev, out, from, nfrom, t. repeat (split; [done|]). split; [|repeat (split; [done|]); split; [|split; [done|split; [done|]]]].
  - apply andb_false_iff in Evs as [Evs%negb_false_iff|Evs]; [by left|]. apply orb_false_iff in Evs as [E1%negb_false_iff E2%negb_false_iff]. by right.
  - intros Hpub. rewrite (proj2 (Z.leb_le _ _) Hpub) in Eage. cbn [andb] in Eage. apply negb_false_iff in Eage. unfold HasStakeMinAgeOrDepth in Eage.
    destruct (_ <? _); [apply orb_true_iff in Eage as [Eage|Eage%Z.leb_le]; [by left|by right]|by apply Z.leb_le in Eage].
  - intros Hv. destruct (CheckStakeKernelHash_spec m prev nBits stake nTime hp Hb ltac:(by rewrite Ev) Hhp) as (t' & ok & Ht' & Hk2 & Hiff & _). rewrite Hk in Hk2. injection Hk2 as <-.
    destruct Ht as (_ & _ & <-), Ht' as (_ & _ & E'). rewrite E', <- Ev. by apply Hiff.
Qed.
End kernel_proofs.
