(* ===== verification/ScriptNum.v ===== *)
(** * Numbers of scripts
    (CScriptNum of src/src/script/script.h and src/src/script/script.cpp, CScript::push_int64)

    A number is a byte string, the lowest byte first, with the sign in the highest bit
    of the last byte.  [set_vch] is only called on strings of at most five bytes, for
    which the shifts of the code stay inside 64 bits. *)

From S2P Require Import Prelude Serialize Params BetTx TokenGroups TxVerify KernelProofs.

Inductive scriptnum_error := NUMBER_OVERFLOW | NUMBER_BAD_ENCODING.

(** CScriptNum::serialize *)
Fixpoint abs_bytes (fuel : nat) (absvalue : Z) : list Z :=
  match fuel with
  | O => []
  | S fuel => if absvalue =? 0 then [] else Z.land absvalue 0xff :: abs_bytes fuel (Z.shiftr absvalue 8)
  end.
Definition CScriptNum_serialize (value : Z) : list Z :=
  if value =? 0 then []
  else
    let neg := value <? 0 in
    let result := abs_bytes 8 (u64 (Z.abs value)) in
    match last result with
    | None => []
    | Some b =>
        if negb (Z.land b 0x80 =? 0) then result ++ [if neg then 0x80 else 0]
        else if neg then removelast result ++ [Z.lor b 0x80] else result
    end.

(** CScript::push_int64 *)
Definition push_int64 (n : Z) : list Z :=
  if (n =? -1) || ((1 <=? n) && (n <=? 16)) then [u8 (n + (OP_1 - 1))]
  else if n =? 0 then [0]
  else script_push (CScriptNum_serialize n).

Definition set_vch (vch : list Z) : Z :=
  match last vch with
  | None => 0
  | Some back =>
      let result := le_value vch in
      if negb (Z.land back 0x80 =? 0) then - Z.ldiff result (Z.shiftl 0x80 (8 * (Z.of_nat (length vch) - 1))) else result
  end.

Definition second_last (vch : list Z) : Z := default 0 (vch !! (length vch - 2)%nat).

Definition IsMinimallyEncoded (vch : list Z) (nMaxNumSize : nat) : bool :=
  if (nMaxNumSize <? length vch)%nat then false
  else
    match last vch with
    | None => true
    | Some back =>
        if Z.land back 0x7f =? 0 then negb ((length vch <=? 1)%nat || (Z.land (second_last vch) 0x80 =? 0)) else true
    end.

(** The loop of MinimallyEncode, from the position [i] down. *)
Fixpoint trim (data : list Z) (last : Z) (i : nat) : list Z :=
  match i with
  | O => []
  | S j =>
      let b := default 0 (data !! j) in
      if negb (b =? 0) then
        if negb (Z.land b 0x80 =? 0) then take i data ++ [last] else take j data ++ [Z.lor b last]
      else trim data last j
  end.

(** The data, and whether they were changed. *)
Definition MinimallyEncode (data : list Z) : list Z * bool :=
  match last data with
  | None => (data, false)
  | Some last =>
      if negb (Z.land last 0x7f =? 0) then (data, false)
      else if (length data =? 1)%nat then ([], true)
      else if negb (Z.land (second_last data) 0x80 =? 0) then (data, false)
      else (trim data last (length data - 1), true)
  end.

(** The constructor from a byte string. *)
Definition CScriptNum (vch : list Z) (fRequireMinimal : bool) (nMaxNumSize : nat) : scriptnum_error + Z :=
  if (nMaxNumSize <? length vch)%nat then inl NUMBER_OVERFLOW
  else if fRequireMinimal && negb (IsMinimallyEncoded vch nMaxNumSize) then inl NUMBER_BAD_ENCODING
  else inr (set_vch vch).

Definition getint (m_value : Z) : Z := if 2 ^ 31 - 1 <? m_value then 2 ^ 31 - 1 else if m_value <? - 2 ^ 31 then - 2 ^ 31 else m_value.

(** * Numbers of scripts: encoding and decoding are inverse *)

(** ** Bits of a byte *)
Lemma byte_cases (P : Z -> bool) : forallb P (seqZ 0 256) = true -> forall b, byte b -> P b = true.
Proof. rewrite forallb_forall. intros H b Hb. apply H, list_elem_of_In, elem_of_seqZ. unfold byte, inU in Hb. change (2 ^ 8) with 256 in Hb. lia. Qed.

Lemma land_sign b : byte b -> Z.land b 0x80 = if b <? 128 then 0 else 128.
Proof. intros H. apply Z.eqb_eq. revert b H. apply (byte_cases (fun b => Z.land b 0x80 =? if b <? 128 then 0 else 128)). reflexivity. Qed.

Lemma land_low b : byte b -> Z.land b 0x7f = if b <? 128 then b else b - 128.
Proof. intros H. apply Z.eqb_eq. revert b H. apply (byte_cases (fun b => Z.land b 0x7f =? if b <? 128 then b else b - 128)). reflexivity. Qed.

Lemma lor_sign b : byte b -> b < 128 -> Z.lor b 0x80 = b + 128.
Proof.
  intros H Hl. pose proof (byte_cases (fun b => negb (b <? 128) || (Z.lor b 0x80 =? b + 128)) eq_refl b H) as E. cbn beta in E.
  rewrite (proj2 (Z.ltb_lt _ _) Hl) in E. by apply Z.eqb_eq.
Qed.

Lemma sign_on b : byte b -> negb (Z.land b 0x80 =? 0) = (128 <=? b).
Proof. intros H. rewrite land_sign by done. destruct (Z.ltb_spec b 128), (Z.leb_spec 128 b); lia || done. Qed.

(** ** The value of a string *)
Lemma ldiff_top y k : 0 <= k -> 0 <= y < 2 ^ k -> Z.ldiff (y + 2 ^ k) (2 ^ k) = y.
Proof.
  intros Hk Hy. assert (Z.testbit y k = false) as Hb.
  { destruct (decide (y = 0)) as [->|]; [by rewrite Z.testbit_0_l|]. apply Z.bits_above_log2; [lia|]. apply Z.log2_lt_pow2; lia. }
  rewrite Z.add_nocarry_lxor.
  - apply Z.bits_inj'. intros i Hi. rewrite Z.ldiff_spec, Z.lxor_spec, !Z.pow2_bits_eqb by done. destruct (Z.eqb_spec k i) as [<-|]; [by rewrite Hb|].
    by rewrite xorb_false_r, andb_true_r.
  - apply Z.bits_inj'. intros i Hi. rewrite Z.land_spec, Z.pow2_bits_eqb, Z.testbit_0_l by done. destruct (Z.eqb_spec k i) as [<-|]; [by rewrite Hb|by rewrite andb_false_r].
Qed.

(** The value of the bytes without the sign. *)
Definition magnitude (l : list Z) (b : Z) : Z := le_value l + 2 ^ (8 * Z.of_nat (length l)) * (if b <? 128 then b else b - 128).

Lemma set_vch_snoc l b : Forall byte l -> byte b -> set_vch (l ++ [b]) = if b <? 128 then magnitude l b else - magnitude l b.
Proof.
  intros Hl Hb. unfold set_vch, magnitude. rewrite last_snoc, sign_on, le_value_app by done. cbn [le_value]. pose proof (le_value_inU l Hl) as Hv. unfold inU in Hv.
  rewrite Z.mul_0_r, Z.add_0_r. destruct (Z.ltb_spec b 128), (Z.leb_spec 128 b); try lia; try done. f_equal.
  rewrite length_app. cbn [length]. replace (8 * (Z.of_nat (length l + 1) - 1)) with (8 * Z.of_nat (length l)) by lia.
  set (k := 8 * Z.of_nat (length l)) in *. assert (0 <= k) as Hk by lia. rewrite Z.shiftl_mul_pow2 by done. replace (0x80 * 2 ^ k) with (2 ^ (k + 7)) by (rewrite Z.pow_add_r by lia; lia).
  replace (le_value l + 2 ^ k * b) with (le_value l + 2 ^ k * (b - 128) + 2 ^ (k + 7)) by (rewrite Z.pow_add_r by lia; lia). apply ldiff_top; [lia|].
  unfold byte, inU in Hb; change (2 ^ 8) with 256 in Hb. rewrite Z.pow_add_r by lia. nia.
Qed.

(** ** The bytes of an absolute value *)
Lemma le_value_pos m : Forall byte m -> m <> [] -> last m <> Some 0 -> 0 < le_value m.
Proof.
  intros Hm Hne Hl. destruct (exists_last Hne) as (l & b & ->). rewrite last_snoc in Hl. apply Forall_app in Hm as [Hl' Hb]. inversion Hb as [|? ? Hb' _]; subst.
  pose proof (le_value_inU l Hl') as Hv. unfold inU in Hv. unfold byte, inU in Hb'; change (2 ^ 8) with 256 in Hb'. rewrite le_value_app. cbn [le_value].
  assert (b <> 0) by congruence. pose proof (Z.pow_pos_nonneg 2 (8 * Z.of_nat (length l)) ltac:(lia) ltac:(lia)). nia.
Qed.

Lemma abs_bytes_value fuel : forall m, Forall byte m -> last m <> Some 0 -> (length m <= fuel)%nat -> abs_bytes fuel (le_value m) = m.
Proof.
  induction fuel as [|fuel IH]; intros m Hm Hl Hn; [by destruct m; [|cbn in Hn; lia]|]. destruct m as [|b m]; [done|]. inversion Hm as [|? ? Hb Hm']; subst.
  cbn [abs_bytes le_value]. pose proof (le_value_inU m Hm') as Hv. unfold inU in Hv. unfold byte, inU in Hb; change (2 ^ 8) with 256 in Hb.
  assert (Z.land (b + 256 * le_value m) 255 = b) as ->.
  { change 255 with (Z.ones 8). rewrite Z.land_ones by lia. change (2 ^ 8) with 256. rewrite Z.mul_comm, Z.mod_add, Z.mod_small by lia. done. }
  assert (Z.shiftr (b + 256 * le_value m) 8 = le_value m) as ->.
  { rewrite Z.shiftr_div_pow2 by lia. change (2 ^ 8) with 256. rewrite Z.mul_comm, Z.div_add, Z.div_small by lia. done. }
  destruct m as [|c m].
  - cbn [le_value]. rewrite Z.mul_0_r, Z.add_0_r. destruct (Z.eqb_spec b 0) as [->|]; [by destruct Hl|]. f_equal. by destruct fuel.
  - rewrite IH; [|done|exact Hl|cbn in *; lia]. destruct (Z.eqb_spec (b + 256 * le_value (c :: m)) 0) as [E|]; [|done].
    pose proof (le_value_pos (c :: m) Hm' ltac:(done) Hl). lia.
Qed.

Lemma abs_bytes_spec fuel : forall a, 0 <= a < 2 ^ (8 * Z.of_nat fuel) ->
  le_value (abs_bytes fuel a) = a /\ Forall byte (abs_bytes fuel a) /\ last (abs_bytes fuel a) <> Some 0 /\ (length (abs_bytes fuel a) <= fuel)%nat.
Proof.
  induction fuel as [|fuel IH]; intros a Ha; [cbn in *; split_and!; [lia|done..]|]. cbn [abs_bytes]. destruct (Z.eqb_spec a 0) as [->|Hne]; [split_and!; [done|done|done|cbn; lia]|].
  replace (8 * Z.of_nat (S fuel)) with (8 * Z.of_nat fuel + 8) in Ha by lia. rewrite Z.pow_add_r in Ha by lia. change (2 ^ 8) with 256 in Ha.
  rewrite Z.shiftr_div_pow2 by lia. change (2 ^ 8) with 256. destruct (IH (a `div` 256)) as (IV & IF & IL & IN).
  { split; [apply Z.div_pos; lia|]. apply Z.div_lt_upper_bound; lia. }
  change 255 with (Z.ones 8). rewrite Z.land_ones by lia. change (2 ^ 8) with 256. pose proof (Z.mod_pos_bound a 256 ltac:(lia)) as Hmod. split_and!.
  - cbn [le_value]. rewrite IV. pose proof (Z.div_mod a 256 ltac:(lia)). lia.
  - constructor; [done|done].
  - destruct (abs_bytes fuel (a `div` 256)) as [|c m]; [|exact IL]. cbn in IV |- *. intros [= E]. pose proof (Z.div_mod a 256 ltac:(lia)). lia.
  - cbn [length]. lia.
Qed.

Lemma second_last_snoc l c b : second_last (l ++ [c] ++ [b]) = c.
Proof.
  unfold second_last. rewrite !length_app. cbn [length]. replace (length l + (1 + 1) - 2)%nat with (length l) by lia. by rewrite lookup_app_r, Nat.sub_diag by lia.
Qed.

(** A string is minimal when its last byte is needed. *)
Definition needed (l : list Z) (b : Z) : Prop := b `mod` 128 <> 0 \/ exists l' c, l = l' ++ [c] /\ 128 <= c.

Lemma low_bits b : byte b -> (Z.land b 0x7f =? 0) = (b `mod` 128 =? 0).
Proof.
  intros H. rewrite land_low by done. f_equal. unfold byte, inU in H; change (2 ^ 8) with 256 in H.
  destruct (Z.ltb_spec b 128); [by rewrite Z.mod_small by lia|]. apply (Z.mod_unique b 128 1); lia.
Qed.

Lemma IsMinimallyEncoded_snoc l b n : Forall byte l -> byte b -> IsMinimallyEncoded (l ++ [b]) n = true <-> (length l < n)%nat /\ needed l b.
Proof.
  intros Hl Hb. unfold IsMinimallyEncoded. rewrite last_snoc, length_app, low_bits by done. cbn [length].
  destruct (Nat.ltb_spec n (length l + 1)) as [Hn|Hn]; [split; [done|lia]|]. unfold needed. destruct (Z.eqb_spec (b `mod` 128) 0) as [E|E]; [|split; [split; [lia|by left]|done]].
  destruct (decide (l = [])) as [->|Hne].
  { cbn. split; [done|]. intros [_ [?|(l' & c & E' & _)]]; [done|]. by destruct l'. }
  destruct (exists_last Hne) as (l' & c & ->). rewrite <-app_assoc, second_last_snoc. rewrite length_app. cbn [length]. rewrite (proj2 (Nat.leb_gt _ _)) by lia. cbn [orb].
  apply Forall_app in Hl as [_ Hc]. inversion Hc as [|? ? Hc' _]; subst. rewrite sign_on by done. rewrite Z.leb_le. rewrite length_app in Hn. cbn [length] in Hn. split.
  - intros H. split; [lia|]. right. by exists l', c.
  - intros [_ [?|(l2 & c2 & E2 & H)]]; [done|]. by apply app_inj_tail in E2 as [_ ->].
Qed.

Lemma serialize_nonzero v : v <> 0 -> - 2 ^ 63 < v < 2 ^ 63 ->
  exists l b, CScriptNum_serialize v = l ++ [b] /\ Forall byte l /\ byte b /\ (length l < 8)%nat /\ needed l b /\
              magnitude l b = Z.abs v /\ (b <? 128) = negb (v <? 0).
Proof.
  intros Hv Hr. unfold CScriptNum_serialize. rewrite (proj2 (Z.eqb_neq _ _) Hv). unfold wrapU. rewrite Z.mod_small by lia.
  destruct (abs_bytes_spec 8 (Z.abs v)) as (EV & EF & EL & EN); [cbn; lia|]. set (m := abs_bytes 8 (Z.abs v)) in *. assert (m <> []) as Hne by (intros E; rewrite E in EV; cbn in EV; lia).
  destruct (exists_last Hne) as (l & b & Em). rewrite Em, last_snoc in *. apply Forall_app in EF as [Hl Hb]. inversion Hb as [|? ? Hb' _]; subst. clear Hb. rewrite sign_on by done.
  rewrite le_value_app in EV. cbn [le_value] in EV. rewrite Z.mul_0_r, Z.add_0_r in EV. pose proof (le_value_inU l Hl) as Hlv. unfold inU in Hlv.
  pose proof Hb' as Hbr. unfold byte, inU in Hbr; change (2 ^ 8) with 256 in Hbr. rewrite length_app in EN. cbn [length] in EN. destruct (Z.leb_spec 128 b) as [Hge|Hlt].
  - exists (l ++ [b]), (if v <? 0 then 0x80 else 0). split; [done|]. split; [by apply Forall_app; split; [|constructor]|]. split; [by destruct (v <? 0)|]. split.
    + rewrite length_app. cbn [length]. destruct (decide (length l = 7%nat)) as [E7|]; [|lia]. rewrite E7 in *. change (2 ^ (8 * Z.of_nat 7)) with (2 ^ 56) in *. lia.
    + split; [right; by exists l, b|]. split; [|by destruct (v <? 0)]. unfold magnitude. rewrite le_value_app. cbn [le_value]. destruct (v <? 0); cbn; lia.
  - destruct (Z.ltb_spec v 0) as [Hneg|Hpos].
    + exists l, (b + 128). rewrite removelast_app by done. rewrite lor_sign by done. cbn [removelast]. rewrite app_nil_r. split; [done|]. split; [done|]. split; [unfold byte, inU; lia|].
      split; [lia|]. split; [left|]. { rewrite Z.add_mod, Z.mod_same, Z.add_0_r, Z.mod_mod by lia. rewrite Z.mod_small by lia. intros ->. by apply EL. }
      split; [|apply Z.ltb_ge; lia]. unfold magnitude. rewrite (proj2 (Z.ltb_ge _ _)) by lia. rewrite Z.add_simpl_r. done.
    + exists l, b. split; [done|]. split; [done|]. split; [done|]. split; [lia|]. split; [left; rewrite Z.mod_small by lia; intros ->; by apply EL|].
      split; [|by apply Z.ltb_lt]. unfold magnitude. by rewrite (proj2 (Z.ltb_lt _ _)) by lia.
Qed.

(** A number comes back from its bytes, which are minimal. *)
Lemma set_vch_serialize v : - 2 ^ 63 < v < 2 ^ 63 -> set_vch (CScriptNum_serialize v) = v /\ IsMinimallyEncoded (CScriptNum_serialize v) 8 = true /\ Forall byte (CScriptNum_serialize v).
Proof.
  intros Hr. destruct (decide (v = 0)) as [->|Hv]; [by repeat constructor|].
  destruct (serialize_nonzero v Hv Hr) as (l & b & -> & Hl & Hb & Hn & Hd & Hm & Hs). rewrite set_vch_snoc, Hm, Hs by done. split; [destruct (Z.ltb_spec v 0); cbn; lia|].
  split; [by apply IsMinimallyEncoded_snoc|]. apply Forall_app. by split; [|constructor].
Qed.

(** A minimal string comes back from its number. *)
Lemma serialize_set_vch d : Forall byte d -> IsMinimallyEncoded d 8 = true -> CScriptNum_serialize (set_vch d) = d.
Proof.
  intros Hd Hmin. destruct (decide (d = [])) as [->|Hne]; [done|]. destruct (exists_last Hne) as (l & b & ->). apply Forall_app in Hd as [Hl Hb']. inversion Hb' as [|? ? Hb _]; subst.
  apply IsMinimallyEncoded_snoc in Hmin as [Hn Hneed]; [|done..]. rewrite set_vch_snoc by done. set (a := magnitude l b).
  pose proof Hb as Hbr. unfold byte, inU in Hbr; change (2 ^ 8) with 256 in Hbr. pose proof (le_value_inU l Hl) as Hlv. unfold inU in Hlv.
  set (m := if b `mod` 128 =? 0 then l else l ++ [b `mod` 128]).
  assert (b `mod` 128 = if b <? 128 then b else b - 128) as Eb.
  { destruct (Z.ltb_spec b 128); [by rewrite Z.mod_small by lia|]. symmetry. apply (Z.mod_unique b 128 1); lia. }
  assert (le_value m = a) as Em. { unfold m, a, magnitude. rewrite <-Eb. destruct (Z.eqb_spec (b `mod` 128) 0) as [E|]; [rewrite E; lia|]. rewrite le_value_app. cbn [le_value]. lia. }
  assert (Forall byte m) as Fm. { unfold m. destruct (b `mod` 128 =? 0); [done|]. apply Forall_app. split; [done|]. constructor; [|done]. pose proof (Z.mod_pos_bound b 128 ltac:(lia)). unfold byte, inU. lia. }
  assert (m <> [] /\ last m <> Some 0) as [Nm Lm].
  { unfold m. destruct (Z.eqb_spec (b `mod` 128) 0) as [E|E]; [|split; [by destruct l|rewrite last_snoc; congruence]]. destruct Hneed as [?|(l' & c & -> & Hc)]; [done|].
    split; [by destruct l'|]. rewrite last_snoc. intros [= ->]. lia. }
  assert (length m <= 8)%nat as Hm by (unfold m; destruct (b `mod` 128 =? 0); rewrite ?length_app; cbn [length]; lia).
  pose proof (le_value_pos m Fm Nm Lm) as Hpos. rewrite Em in Hpos. assert (a < 2 ^ 63) as Ha.
  { unfold a, magnitude. rewrite <-Eb. pose proof (Z.mod_pos_bound b 128 ltac:(lia)). pose proof (Z.pow_le_mono_r 2 (8 * Z.of_nat (length l)) 56 ltac:(lia) ltac:(lia)). nia. }
  unfold CScriptNum_serialize. set (v := if b <? 128 then a else - a). assert (Z.abs v = a /\ v <> 0 /\ (v <? 0) = negb (b <? 128)) as (Ev & Hv & Hs).
  { unfold v. destruct (Z.ltb_spec b 128); cbn [negb]; split_and!; lia. }
  rewrite (proj2 (Z.eqb_neq _ _) Hv), Ev, Hs. unfold wrapU. rewrite Z.mod_small by lia. rewrite <-Em, abs_bytes_value by done.
  unfold m in Lm |- *. destruct (Z.eqb_spec (b `mod` 128) 0) as [E|E].
  - destruct Hneed as [?|(l' & c & -> & Hc)]; [done|]. apply Forall_app in Hl as [_ Hc']. inversion Hc' as [|? ? Hc2 _]; subst. rewrite last_snoc, sign_on by done.
    rewrite (proj2 (Z.leb_le _ _) Hc). f_equal. rewrite E in Eb. destruct (Z.ltb_spec b 128); cbn; f_equal; lia.
  - rewrite last_snoc, sign_on by (pose proof (Z.mod_pos_bound b 128 ltac:(lia)); unfold byte, inU; lia). pose proof (Z.mod_pos_bound b 128 ltac:(lia)).
    rewrite (proj2 (Z.leb_gt _ _)) by lia. destruct (Z.ltb_spec b 128); cbn [negb]; [by rewrite Eb|]. rewrite removelast_app by done. cbn [removelast].
    rewrite app_nil_r, lor_sign by (unfold byte, inU; lia). do 2 f_equal. lia.
Qed.

(** ** Shortening a number *)
Lemma le_value_zeros l : Forall (fun b => b = 0) l -> le_value l = 0.
Proof. induction 1 as [|b l -> _ IH]; [done|]. cbn [le_value]. lia. Qed.

Lemma le_value_take i l : Forall (fun b => b = 0) (drop i l) -> le_value (take i l) = le_value l.
Proof. intros H. pose proof (le_value_app (take i l) (drop i l)) as E. rewrite take_drop, (le_value_zeros _ H) in E. lia. Qed.

(** A string with the same number as [l ++ [last]], of which every byte is needed. *)
Definition shortened (l : list Z) (last : Z) (r : list Z) : Prop :=
  (r = [] /\ le_value l = 0) \/
  (exists l' b, r = l' ++ [b] /\ Forall byte l' /\ byte b /\ needed l' b /\ magnitude l' b = le_value l /\ (b <? 128) = (last <? 128) /\ (length l' <= length l)%nat).

Lemma trim_spec l last : Forall byte l -> last = 0 \/ last = 128 -> forall i, (i <= length l)%nat -> Forall (fun b => b = 0) (drop i l) ->
  shortened l last (trim (l ++ [last]) last i).
Proof.
  intros Hl Hlast. induction i as [|j IH]; intros Hi Hz; cbn [trim].
  { left. split; [done|]. by apply le_value_zeros. }
  destruct (lookup_lt_is_Some_2 l j ltac:(lia)) as [b Hb]. rewrite (lookup_app_l_Some _ _ _ _ Hb). cbn [default from_option]. unfold id. pose proof (Forall_lookup_1 _ _ _ _ Hl Hb) as Hbyte.
  destruct (Z.eqb_spec b 0) as [->|Hb0]; cbn [negb].
  { apply IH; [lia|]. rewrite (drop_S l 0 j Hb). by constructor. }
  rewrite !take_app_le by lia. rewrite sign_on by done. pose proof (take_S_r l j b Hb) as ET. pose proof (le_value_take (S j) l Hz) as EV. pose proof (Forall_take byte (S j) l Hl) as FT.
  rewrite ET in EV, FT |- *. apply Forall_app in FT as [FT _]. unfold byte, inU in Hbyte; change (2 ^ 8) with 256 in Hbyte. right. destruct (Z.leb_spec 128 b) as [Hge|Hlt].
  - exists (take j l ++ [b]), last. split; [done|]. split; [apply Forall_app; split; [done|]; constructor; [unfold byte, inU; lia|done]|].
    split; [unfold byte, inU; lia|]. split; [right; by exists (take j l), b|]. split; [|split; [done|rewrite length_app, length_take; cbn; lia]].
    unfold magnitude. rewrite EV. destruct Hlast as [-> | ->]; cbn; lia.
  - rewrite le_value_app in EV. cbn [le_value] in EV.
    assert (Z.lor b last = b + last) as -> by (destruct Hlast as [-> | ->]; [rewrite Z.lor_0_r; lia|apply lor_sign; [unfold byte, inU|]; lia]).
    exists (take j l), (b + last). split; [done|]. split; [done|]. split; [unfold byte, inU; lia|]. split.
    { left. destruct Hlast as [-> | ->]; [rewrite Z.add_0_r, Z.mod_small by lia; done|]. rewrite <-Zplus_mod_idemp_r, Z.mod_same, Z.add_0_r, Z.mod_small by lia. done. }
    split; [|split; [destruct Hlast as [-> | ->]; lia|rewrite length_take; lia]]. unfold magnitude. rewrite <-EV. destruct Hlast as [-> | ->]; [rewrite (proj2 (Z.ltb_lt _ _)) by lia|rewrite (proj2 (Z.ltb_ge _ _)) by lia]; lia.
Qed.

Lemma shortened_value l last r : Forall byte l -> last = 0 \/ last = 128 -> shortened l last r ->
  set_vch r = set_vch (l ++ [last]) /\ IsMinimallyEncoded r (length r) = true /\ (length r <= S (length l))%nat /\ Forall byte r.
Proof.
  intros Hl Hlast Hr. assert (set_vch (l ++ [last]) = if last <? 128 then le_value l else - le_value l) as ->.
  { rewrite set_vch_snoc by (done || (unfold byte, inU; lia)). unfold magnitude. destruct Hlast as [-> | ->]; cbn; f_equal; lia. }
  destruct Hr as [[-> ->]|(l' & b & -> & F & Fb & Hn & Hm & Hs & Hlen)]; [split_and!; [by destruct (last <? 128)|done|cbn; lia|done]|].
  split; [by rewrite set_vch_snoc, Hm, Hs by done|]. split; [apply IsMinimallyEncoded_snoc; [done..|]; split; [rewrite length_app; cbn; lia|done]|].
  split; [rewrite length_app; cbn; lia|]. apply Forall_app. by split; [|constructor].
Qed.

(** MinimallyEncode keeps the number and leaves a minimal string. *)
Lemma MinimallyEncode_spec data : Forall byte data ->
  let r := (MinimallyEncode data).1 in set_vch r = set_vch data /\ IsMinimallyEncoded r (length r) = true /\ (length r <= length data)%nat /\ Forall byte r.
Proof.
  intros Hd. cbv zeta. unfold MinimallyEncode. destruct (decide (data = [])) as [->|Hne]; [by repeat constructor|]. destruct (exists_last Hne) as (l & b & ->). rewrite last_snoc.
  pose proof Hd as Hd'. apply Forall_app in Hd' as [Hl Hb']. inversion Hb' as [|? ? Hb _]; subst. rewrite low_bits by done.
  assert (forall P : Prop, needed l b -> (IsMinimallyEncoded (l ++ [b]) (length (l ++ [b])) = true -> P) -> P) as Hmin.
  { intros P Hn K. apply K, IsMinimallyEncoded_snoc; [done..|]. split; [rewrite length_app; cbn; lia|done]. }
  destruct (Z.eqb_spec (b `mod` 128) 0) as [E|E]; cbn [negb fst]; [|apply Hmin; [by left|]; intros Hm; by split_and!].
  assert (b = 0 \/ b = 128) as Hcase by (unfold byte, inU in Hb; change (2 ^ 8) with 256 in Hb; pose proof (Z.div_mod b 128 ltac:(lia)); rewrite E in *; lia).
  rewrite length_app. cbn [length]. destruct (Nat.eqb_spec (length l + 1) 1) as [E1|E1]; cbn [fst].
  { destruct l; [|cbn in E1; lia]. by destruct Hcase as [-> | ->]; repeat constructor. }
  destruct (decide (l = [])) as [->|Hl0]; [done|]. destruct (exists_last Hl0) as (l' & c & El). rewrite El, <-app_assoc, second_last_snoc.
  assert (byte c) as Hc by (rewrite El in Hl; apply Forall_app in Hl as [_ H]; by inversion H). rewrite sign_on by done. rewrite app_assoc, <-El.
  destruct (Z.leb_spec 128 c); cbn [fst]; [apply Hmin; [right; by exists l', c|]; intros Hm; rewrite length_app in Hm |- *; by split_and!|].
  replace (length l + 1 - 1)%nat with (length l) by lia. rewrite Nat.add_1_r. apply shortened_value; [done..|]. apply trim_spec; [done..|]. by rewrite drop_all.
Qed.
