(* ===== verification/Headers.v ===== *)
(** * Accepting headers
    (CheckBlockHeader, GetLastCheckpoint, IsValidBlockTimeStamp,
    ContextualCheckBlockHeader, BlockManager::AcceptBlockHeader of
    src/src/validation.cpp)

    A rejection is a value of [HeaderReject], named after the reason the code gives.
    [None] stands for a failed assertion or a read through a dangling pointer. *)

From S2P Require Import Prelude Serialize Params BetKeys Arith256 Chain ChainProofs Pow.

Inductive HeaderReject :=
  | high_hash
  | devnet_genesis
  | duplicate
  | duplicate_chainlock
  | prev_blk_not_found
  | bad_prevblk
  | bad_prevblk_chainlock
  | bad_chainlock
  | bad_diffbits
  | bad_fork_prior_to_checkpoint
  | time_too_old
  | time_too_new
  | invalid_time_mask
  | bad_version.

#[export] Instance HeaderReject_eq_dec : EqDecision HeaderReject.
Proof. solve_decision. Defined.

(** What the checks read of the network's parameters besides [PosParams]. *)
Record HeaderParams := {
  hp_pos : PosParams;
  hashGenesisBlock : uint256;
  hashDevnetGenesisBlock : uint256;
  BIP34Height : Z; BIP65Height : Z; BIP66Height : Z;
  mapCheckpoints : list (Z * uint256);     (* in the order of the heights *)
  fCheckpointsEnabled : bool;
  fRegtest : bool }.

Section headers.
Context (params : HeaderParams).
Context (GetHash : CBlockHeader -> uint256).
(** The chain locks of the masternodes (src/src/llmq/chainlocks.cpp). *)
Context (HasConflictingChainLock : Z -> uint256 -> bool).

Definition CheckBlockHeader (block : CBlockHeader) (fCheckPOW : bool) : option HeaderReject :=
  if fCheckPOW && negb (CheckProofOfWork (hp_pos params) (GetHash block) (h_nBits block)) then Some high_hash
  else if negb (hashDevnetGenesisBlock params =? 0) && (h_hashPrevBlock block =? hashGenesisBlock params) &&
          negb (GetHash block =? hashDevnetGenesisBlock params) then Some devnet_genesis
  else None.

(** The last checkpoint whose block is known. *)
Definition GetLastCheckpoint (m : BlockMap) : option uint256 :=
  head (filter (fun h => is_Some (m !! h)) (reverse (mapCheckpoints params)).*2).

Definition IsValidBlockTimeStamp (nTime nHeight : Z) : bool :=
  if negb (IsTimeProtocolV2 (hp_pos params) nHeight) then true
  else nTime `rem` nTimeSlotLength (hp_pos params) =? 0.

Definition ContextualCheckBlockHeader (m : BlockMap) (block : CBlockHeader) (pindexPrev : uint256) (nAdjustedTime : Z) : option (option HeaderReject) :=
  n ← m !! pindexPrev;
  let nHeight := bi_nHeight n + 1 in
  work ← GetNextWorkRequired (hp_pos params) m pindexPrev (h_nTime block);
  if negb (h_nBits block =? work) then Some (Some bad_diffbits)
  else
    fork ← (if fCheckpointsEnabled params then
              match GetLastCheckpoint m with
              | Some h => nc ← m !! h; Some (nHeight <? bi_nHeight nc)
              | None => Some false
              end
            else Some false);
    if fork : bool then Some (Some bad_fork_prior_to_checkpoint)
    else
      tmin ← MinPastBlockTime (hp_pos params) m pindexPrev;
      if (h_nTime block <=? tmin) && negb (fRegtest params) then Some (Some time_too_old)
      else if (MaxFutureBlockTime (hp_pos params) n nAdjustedTime <? h_nTime block) && negb (fRegtest params) then Some (Some time_too_new)
      else if negb (IsValidBlockTimeStamp (h_nTime block) nHeight) && negb (fRegtest params) then Some (Some invalid_time_mask)
      else if ((h_nVersion block <? 2) && (BIP34Height params <=? nHeight)) || ((h_nVersion block <? 2) && (BIP66Height params <=? nHeight)) ||
              ((h_nVersion block <=? 2) && (BIP65Height params <=? nHeight)) then Some (Some bad_version)
      else Some None.

(** The entries from [invalid_walk] up to the failed block are marked. *)
Fixpoint mark_failed (fuel : nat) (bm : BlockManager) (invalid_walk failedit : uint256) : option BlockManager :=
  if decide (invalid_walk = failedit) then Some bm
  else
    match fuel with
    | O => None
    | S fuel =>
        n ← m_block_index bm !! invalid_walk;
        let bm := {| m_block_index := <[invalid_walk := set_status n (Z.lor (bi_nStatus n) BLOCK_FAILED_CHILD)]> (m_block_index bm);
                     m_prev_block_index := m_prev_block_index bm;
                     setDirtyBlockIndex := {[invalid_walk]} ∪ setDirtyBlockIndex bm;
                     pindexBestHeader := pindexBestHeader bm;
                     m_failed_blocks := m_failed_blocks bm |} in
        p ← bi_pprev n;
        mark_failed fuel bm p failedit
    end.

(** The first failed block that [pindexPrev] descends from. *)
Fixpoint failed_ancestor (m : BlockMap) (pindexPrev : uint256) (l : list uint256) : option (option uint256) :=
  match l with
  | [] => Some None
  | f :: l =>
      nf ← m !! f;
      a ← GetAncestor m pindexPrev (bi_nHeight nf);
      if decide (a = Some f) then
        if has_bits (bi_nStatus nf) BLOCK_FAILED_VALID then Some (Some f) else None
      else failed_ancestor m pindexPrev l
  end.

(** The header's entry, or why it is rejected; entries may be marked either way. *)
Definition AcceptBlockHeader (bm : BlockManager) (block : CBlockHeader) (fCheckPOW : bool) (nAdjustedTime : Z) : option (BlockManager * (HeaderReject + uint256)) :=
  let hash := GetHash block in
  let m := m_block_index bm in
  let add := '(bm, h) ← AddToBlockIndex GetHash bm block BLOCK_VALID_TREE; Some (bm, inr h) in
  if hash =? hashGenesisBlock params then add
  else
    match m !! hash with
    | Some n =>
        if has_bits (bi_nStatus n) BLOCK_FAILED_MASK then Some (bm, inl duplicate)
        else if has_bits (bi_nStatus n) BLOCK_CONFLICT_CHAINLOCK then Some (bm, inl duplicate_chainlock)
        else Some (bm, inr hash)
    | None =>
        match CheckBlockHeader block fCheckPOW with
        | Some r => Some (bm, inl r)
        | None =>
            match m !! h_hashPrevBlock block with
            | None => Some (bm, inl prev_blk_not_found)
            | Some prev =>
                if has_bits (bi_nStatus prev) BLOCK_FAILED_MASK then Some (bm, inl bad_prevblk)
                else if has_bits (bi_nStatus prev) BLOCK_CONFLICT_CHAINLOCK then Some (bm, inl bad_prevblk_chainlock)
                else
                  r ← ContextualCheckBlockHeader m block (h_hashPrevBlock block) nAdjustedTime;
                  match r with
                  | Some r => Some (bm, inl r)
                  | None =>
                      valid ← IsValid prev BLOCK_VALID_SCRIPTS;
                      failed ← (if negb valid then failed_ancestor m (h_hashPrevBlock block) (m_failed_blocks bm) else Some None);
                      match failed with
                      | Some f => bm ← mark_failed (Z.to_nat (bi_nHeight prev) + 1) bm (h_hashPrevBlock block) f; Some (bm, inl bad_prevblk)
                      | None =>
                          if HasConflictingChainLock (bi_nHeight prev + 1) hash then
                            '(bm, _) ← AddToBlockIndex GetHash bm block BLOCK_CONFLICT_CHAINLOCK; Some (bm, inl bad_chainlock)
                          else add
                      end
                  end
            end
        end
    end.
End headers.

(** * Accepting headers: proofs about Headers.v *)












(** The three cases of the lower bound. *)
Lemma MinPastBlockTime_cases params m h n tmin : m !! h = Some n -> MinPastBlockTime params m h = Some tmin ->
  (bi_nHeight n + 1 < nBlockTimeProtocolV2 params -> MedianTimePast m h = Some tmin) /\
  (bi_nHeight n + 1 = nBlockTimeProtocolV2 params ->
   tmin = bi_nTime n - FutureBlockTimeDrift params (bi_nHeight n) + FutureBlockTimeDrift params (bi_nHeight n + 1)) /\
  (nBlockTimeProtocolV2 params <= bi_nHeight n -> tmin = bi_nTime n).
Proof.
  intros Hh. unfold MinPastBlockTime, IsTimeProtocolV2. rewrite Hh. cbn [mbind option_bind].
  destruct (Z.leb_spec (nBlockTimeProtocolV2 params) (bi_nHeight n + 1)); cbn [negb]; [|intros E; split_and!; [done|lia|lia]].
  destruct (Z.eqb_spec (bi_nHeight n + 1) (nBlockTimeProtocolV2 params)); intros [= <-]; split_and!; lia.
Qed.

(** Two different slots are a slot apart. *)
Lemma slot_after L a b : 0 < L -> 0 <= a -> a `rem` L = 0 -> b `rem` L = 0 -> a < b -> a + L <= b.
Proof.
  intros HL Ha Hra Hrb Hlt. apply Z.rem_divide in Hra as [x Ex]; [|lia]. apply Z.rem_divide in Hrb as [y Ey]; [|lia].
  assert (x < y) by (apply (Z.mul_lt_mono_pos_r L); lia). assert ((x + 1) * L <= y * L) by (apply Z.mul_le_mono_nonneg_r; lia). lia.
Qed.

Section accept.
Context (params : HeaderParams).
Context (GetHash : CBlockHeader -> uint256).
Context (HasConflictingChainLock : Z -> uint256 -> bool).





(** C15: a new header that is accepted, on a network other than regtest and not the
    genesis block, follows a known block that has not failed and conflicts
    with no chain lock, has the bits that the chain asks for, and is not later
    than the clock plus the drift of its height.  Its time is above the median
    of the last eleven blocks before time protocol 2; the first block under
    protocol 2 is later than its predecessor's time minus the old drift plus the
    new one (it may be earlier than its predecessor); after that it is later
    than its predecessor.  Under protocol 2 the time is a multiple of the slot
    length, so that a block whose predecessor is itself under protocol 2 and on
    a slot comes at least one slot after it. *)
Theorem AcceptBlockHeader_sound bm block fCheckPOW now bm' h :
  AcceptBlockHeader params GetHash HasConflictingChainLock bm block fCheckPOW now = Some (bm', inr h) ->
  m_block_index bm !! GetHash block = None -> GetHash block <> hashGenesisBlock params -> fRegtest params = false ->
  let pp := hp_pos params in
  h = GetHash block /\
  exists prev tmin, m_block_index bm !! h_hashPrevBlock block = Some prev /\
    has_bits (bi_nStatus prev) BLOCK_FAILED_MASK = false /\ has_bits (bi_nStatus prev) BLOCK_CONFLICT_CHAINLOCK = false /\
    GetNextWorkRequired pp (m_block_index bm) (h_hashPrevBlock block) (h_nTime block) = Some (h_nBits block) /\
    (fCheckPOW = true -> CheckProofOfWork pp (GetHash block) (h_nBits block) = true) /\
    MinPastBlockTime pp (m_block_index bm) (h_hashPrevBlock block) = Some tmin /\
    tmin < h_nTime block <= now + FutureBlockTimeDrift pp (bi_nHeight prev + 1) /\
    (bi_nHeight prev + 1 < nBlockTimeProtocolV2 pp -> MedianTimePast (m_block_index bm) (h_hashPrevBlock block) = Some tmin) /\
    (bi_nHeight prev + 1 = nBlockTimeProtocolV2 pp ->
     bi_nTime prev - FutureBlockTimeDrift pp (bi_nHeight prev) + FutureBlockTimeDrift pp (bi_nHeight prev + 1) < h_nTime block) /\
    (nBlockTimeProtocolV2 pp <= bi_nHeight prev -> bi_nTime prev < h_nTime block) /\
    (nBlockTimeProtocolV2 pp <= bi_nHeight prev + 1 -> h_nTime block `rem` nTimeSlotLength pp = 0) /\
    (nBlockTimeProtocolV2 pp <= bi_nHeight prev -> 0 < nTimeSlotLength pp -> 0 <= bi_nTime prev -> bi_nTime prev `rem` nTimeSlotLength pp = 0 ->
     bi_nTime prev + nTimeSlotLength pp <= h_nTime block <= now + nTimeSlotLength pp - 1).
Proof.
  intros E Hnew Hng Hreg pp. unfold AcceptBlockHeader in E. rewrite (proj2 (Z.eqb_neq _ _) Hng), Hnew in E.
  destruct (CheckBlockHeader _ _ _ _) eqn:Ech; [done|]. destruct (m_block_index bm !! h_hashPrevBlock block) as [prev|] eqn:Eprev; [|done].
  destruct (has_bits (bi_nStatus prev) BLOCK_FAILED_MASK) eqn:Ef; [done|]. destruct (has_bits (bi_nStatus prev) BLOCK_CONFLICT_CHAINLOCK) eqn:Ec; [done|].
  apply bind_Some in E as (r & Ectx & E). destruct r; [done|]. apply bind_Some in E as (valid & _ & E). apply bind_Some in E as (failed & _ & E).
  assert (h = GetHash block) as ->.
  { destruct failed; [apply bind_Some in E as (? & _ & E); done|]. destruct (HasConflictingChainLock _ _); [apply bind_Some in E as ([? ?] & _ & E); done|].
    apply bind_Some in E as ([bm2 h2] & E2 & E). injection E as _ <-. unfold AddToBlockIndex in E2. destruct (has_bits _ _); [done|]. rewrite Hnew in E2.
    apply bind_Some in E2 as (n1 & _ & E2). apply bind_Some in E2 as (n2 & _ & E2). apply bind_Some in E2 as ([n3 best] & _ & E2). by injection E2 as _ <-. }
  split; [done|]. unfold ContextualCheckBlockHeader in Ectx. rewrite Eprev in Ectx. cbn [mbind option_bind] in Ectx.
  apply bind_Some in Ectx as (work & Ework & Ectx). destruct (Z.eqb_spec (h_nBits block) work) as [<-|]; [cbn [negb] in Ectx|done].
  apply bind_Some in Ectx as (fork & _ & Ectx). destruct fork; [done|]. apply bind_Some in Ectx as (tmin & Etmin & Ectx). rewrite Hreg in Ectx. cbn [negb] in Ectx.
  rewrite !andb_true_r in Ectx. destruct (Z.leb_spec (h_nTime block) tmin) as [|Hmin]; [done|]. destruct (Z.ltb_spec (MaxFutureBlockTime (hp_pos params) prev now) (h_nTime block)) as [|Hmax]; [done|].
  destruct (IsValidBlockTimeStamp params (h_nTime block) (bi_nHeight prev + 1)) eqn:Eslot; [|done].
  exists prev, tmin. repeat (split; [done|]). split; [|split; [done|split; [split; [done|exact Hmax]|]]].
  - intros ->. unfold CheckBlockHeader in Ech. fold pp in Ech.
    by destruct (CheckProofOfWork pp (GetHash block) _).
  - destruct (MinPastBlockTime_cases _ _ _ _ _ Eprev Etmin) as (H1 & H2 & H3).
    split; [exact H1|]. split; [intros He; rewrite (H2 He) in Hmin; exact Hmin|]. split; [intros Hv; rewrite (H3 Hv) in Hmin; exact Hmin|].
    assert (nBlockTimeProtocolV2 pp <= bi_nHeight prev + 1 -> h_nTime block `rem` nTimeSlotLength pp = 0) as Hslot.
    { intros Hv. unfold IsValidBlockTimeStamp, IsTimeProtocolV2 in Eslot. fold pp in Eslot. rewrite (proj2 (Z.leb_le _ _) Hv) in Eslot. by apply Z.eqb_eq in Eslot. }
    split; [exact Hslot|]. intros Hv2 HL Hp0 Hpr. specialize (Hslot ltac:(lia)). rewrite (H3 Hv2) in Hmin.
    unfold MaxFutureBlockTime, FutureBlockTimeDrift, IsTimeProtocolV2 in Hmax. fold pp in Hmax. rewrite (proj2 (Z.leb_le (nBlockTimeProtocolV2 pp) _)) in Hmax by lia.
    split; [|lia]. by apply slot_after.
Qed.
End accept.
