(* ===== verification/ChainSelect.v ===== *)
(** * The choice of the active chain
    (CBlockIndexWorkComparator, FindMostWorkChain, PruneBlockIndexCandidates,
    ReceivedBlockTransactions, InvalidBlockFound, DisconnectTip, ConnectTip,
    ActivateBestChainStep and ActivateBestChain of src/src/validation.cpp)

    The state is the block index, the candidates for the tip, the active chain, and
    the store that blocks are connected to (coins, bets and tokens) with the undo
    data of the blocks.  What connecting and disconnecting a block does to the store
    is the interface [BlockStore].  [None] is a failed assertion, a null pointer
    that is read, or a loop out of fuel.

    The set of candidates is ordered by a comparator that falls back to the
    addresses of the entries, [addr].  Not modelled: the mempool, notifications,
    flushing to disk, and the request to shut down. *)

From S2P Require Import Prelude Serialize Params BetKeys Arith256 Chain ChainProofs Pow Kernel.

#[export] Instance BlockManager_eta : Settable BlockManager := fun b =>
  {| m_block_index := m_block_index b; m_prev_block_index := m_prev_block_index b; setDirtyBlockIndex := setDirtyBlockIndex b;
     pindexBestHeader := pindexBestHeader b; m_failed_blocks := m_failed_blocks b |}.

Definition BLOCK_HAVE_UNDO : Z := 16.

(** ** Connecting and disconnecting blocks *)
Inductive InvalidReason := BLOCK_MUTATED | BLOCK_CACHE_MISSING_PREV | OTHER_REASON.

#[export] Instance InvalidReason_eq_dec : EqDecision InvalidReason.
Proof. solve_decision. Defined.

Inductive ConnectResult (S U : Type) :=
  | Connected (s : S) (undo : U)
  | ConnectInvalid (reason : InvalidReason)
  | ConnectError.
Arguments Connected {S U}. Arguments ConnectInvalid {S U}. Arguments ConnectError {S U}.

(** ConnectBlock and DisconnectBlock on the store; ConnectEntry is what ConnectBlock
    writes to the entry of the block besides its status (stake modifier, supply). *)
Class BlockStore (S U : Type) := {
  ConnectBlock : S -> uint256 -> ConnectResult S U;
  DisconnectBlock : S -> uint256 -> U -> option S;
  ConnectEntry : S -> uint256 -> CBlockIndexNode -> CBlockIndexNode }.

Section chain_select.
Context {S U : Type} `{!BlockStore S U}.
Context (addr : uint256 -> Z).

Record CChainState := {
  cs_blockman : BlockManager;
  m_blocks_unlinked : list (uint256 * uint256);
  setBlockIndexCandidates : gset uint256;
  m_chain : CChain;
  pindexBestInvalid : option uint256;
  nBlockSequenceId : Z;
  cs_store : S;
  cs_undo : gmap uint256 U }.

#[local] Instance CChainState_eta : Settable CChainState := fun s =>
  {| cs_blockman := cs_blockman s; m_blocks_unlinked := m_blocks_unlinked s; setBlockIndexCandidates := setBlockIndexCandidates s;
     m_chain := m_chain s; pindexBestInvalid := pindexBestInvalid s; nBlockSequenceId := nBlockSequenceId s; cs_store := cs_store s;
     cs_undo := cs_undo s |}.

Definition index_of (st : CChainState) : BlockMap := m_block_index (cs_blockman st).
Definition put_node (st : CChainState) (h : uint256) (n : CBlockIndexNode) : CChainState :=
  st <| cs_blockman ::= fun bm => bm <| m_block_index ::= fun m => <[h := n]> m |> |>.
Definition set_dirty (st : CChainState) (h : uint256) : CChainState :=
  st <| cs_blockman ::= fun bm => bm <| setDirtyBlockIndex ::= fun d => {[h]} ∪ d |> |>.
Definition erase_candidate (st : CChainState) (h : uint256) : CChainState :=
  st <| setBlockIndexCandidates ::= fun c => c ∖ {[h]} |>.
Definition add_status (n : CBlockIndexNode) (bits : Z) : CBlockIndexNode := set_status n (Z.lor (bi_nStatus n) bits).

(** ** The order of the candidates *)
Definition node_before (a : uint256) (na : CBlockIndexNode) (b : uint256) (nb : CBlockIndexNode) : bool :=
  if arith_gt (bi_nChainWork na) (bi_nChainWork nb) then false
  else if arith_lt (bi_nChainWork na) (bi_nChainWork nb) then true
  else if bi_nSequenceId na <? bi_nSequenceId nb then false
  else if bi_nSequenceId nb <? bi_nSequenceId na then true
  else if addr a <? addr b then false
  else if addr b <? addr a then true
  else false.

Definition CBlockIndexWorkComparator (m : BlockMap) (pa pb : uint256) : option bool :=
  na ← m !! pa; nb ← m !! pb; Some (node_before pa na pb nb).

(** The element that no other one replaces. *)
Fixpoint pick (rel : uint256 -> uint256 -> option bool) (cur : uint256) (l : list uint256) : option uint256 :=
  match l with
  | [] => Some cur
  | x :: l => b ← rel cur x; pick rel (if b : bool then x else cur) l
  end.

Definition pick_candidate (rel : uint256 -> uint256 -> option bool) (c : gset uint256) : option (option uint256) :=
  match elements c with
  | [] => Some None
  | h :: l => Some <$> pick rel h l
  end.

(** rbegin and begin of the set. *)
Definition last_candidate (m : BlockMap) (c : gset uint256) : option (option uint256) :=
  pick_candidate (CBlockIndexWorkComparator m) c.
Definition first_candidate (m : BlockMap) (c : gset uint256) : option (option uint256) :=
  pick_candidate (fun a b => CBlockIndexWorkComparator m b a) c.

(** ** Blocks found invalid *)
Definition better_invalid (st : CChainState) (h : uint256) : option CChainState :=
  match pindexBestInvalid st with
  | None => Some (st <| pindexBestInvalid := Some h |>)
  | Some b =>
      n ← index_of st !! h; nb ← index_of st !! b;
      Some (if arith_gt (bi_nChainWork n) (bi_nChainWork nb) then st <| pindexBestInvalid := Some h |> else st)
  end.

Definition InvalidChainFound (st : CChainState) (pindexNew : uint256) : option CChainState :=
  st ← better_invalid st pindexNew;
  tip ← Tip (m_chain st);
  Some st.

Definition is_plain_invalid (reason : InvalidReason) : bool := bool_decide (reason = OTHER_REASON).

Definition InvalidBlockFound (st : CChainState) (pindex : uint256) (reason : InvalidReason) : option CChainState :=
  if is_plain_invalid reason then
    n ← index_of st !! pindex;
    let st := put_node st pindex (add_status n BLOCK_FAILED_VALID) in
    let st := st <| cs_blockman ::= fun bm => bm <| m_failed_blocks ::= fun l => if decide (pindex ∈ l) then l else l ++ [pindex] |> |> in
    InvalidChainFound (erase_candidate (set_dirty st pindex) pindex) pindex
  else Some st.

(** ** The candidate with the most work *)

(** The first block on the way to the active chain that cannot be used, with its
    flags fFailedChain and fConflictingChain. *)
Fixpoint find_unusable (m : BlockMap) (c : CChain) (fuel : nat) (pindexTest : option uint256) : option (option (uint256 * bool * bool)) :=
  match pindexTest with
  | None => Some None
  | Some h =>
      b ← Contains m c h;
      if b : bool then Some None
      else
        n ← m !! h;
        if (bi_nChainTx n =? 0) && negb (bi_nHeight n =? 0) then None
        else
          let fFailedChain := has_bits (bi_nStatus n) BLOCK_FAILED_MASK in
          let fConflictingChain := has_bits (bi_nStatus n) BLOCK_CONFLICT_CHAINLOCK in
          let fMissingData := negb (has_bits (bi_nStatus n) BLOCK_HAVE_DATA) in
          if fFailedChain || fMissingData || fConflictingChain then Some (Some (h, fFailedChain, fConflictingChain))
          else match fuel with O => None | Datatypes.S fuel => find_unusable m c fuel (bi_pprev n) end
  end.

(** The removal of the chain from [pindexFailed] up to [pindexTest]. *)
Fixpoint drop_chain (fuel : nat) (st : CChainState) (pindexFailed pindexTest : uint256) (fFailedChain fConflictingChain : bool) : option CChainState :=
  if decide (pindexFailed = pindexTest) then Some (erase_candidate st pindexTest)
  else
    match fuel with
    | O => None
    | Datatypes.S fuel =>
        n ← index_of st !! pindexFailed;
        p ← bi_pprev n;
        let st :=
          if fFailedChain then put_node st pindexFailed (add_status n BLOCK_FAILED_CHILD)
          else if fConflictingChain then put_node st pindexFailed (add_status n BLOCK_CONFLICT_CHAINLOCK)
          else st <| m_blocks_unlinked ::= fun l => l ++ [(p, pindexFailed)] |> in
        drop_chain fuel (erase_candidate st pindexFailed) p pindexTest fFailedChain fConflictingChain
    end.

Fixpoint most_work_loop (fuel : nat) (st : CChainState) : option (CChainState * option uint256) :=
  best ← last_candidate (index_of st) (setBlockIndexCandidates st);
  match best with
  | None => Some (st, None)
  | Some pindexNew =>
      n ← index_of st !! pindexNew;
      bad ← find_unusable (index_of st) (m_chain st) (Z.to_nat (bi_nHeight n) + 1) (Some pindexNew);
      match bad, fuel with
      | None, _ => Some (st, Some pindexNew)
      | Some (pindexTest, fFailedChain, fConflictingChain), Datatypes.S fuel =>
          st ← (if fFailedChain : bool then better_invalid st pindexNew else Some st);
          st ← drop_chain (Z.to_nat (bi_nHeight n)) st pindexNew pindexTest fFailedChain fConflictingChain;
          most_work_loop fuel st
      | Some _, O => None
      end
  end.

(** Every round removes a candidate. *)
Definition FindMostWorkChain (st : CChainState) : option (CChainState * option uint256) :=
  most_work_loop (size (setBlockIndexCandidates st)) st.

(** ** Candidates worse than the tip *)
Fixpoint prune_loop (fuel : nat) (st : CChainState) : option CChainState :=
  first ← first_candidate (index_of st) (setBlockIndexCandidates st);
  match first with
  | None => Some st
  | Some h =>
      tip ← Tip (m_chain st);
      b ← CBlockIndexWorkComparator (index_of st) h tip;
      if b : bool then match fuel with O => None | Datatypes.S fuel => prune_loop fuel (erase_candidate st h) end
      else Some st
  end.

Definition PruneBlockIndexCandidates (st : CChainState) : option CChainState :=
  st ← prune_loop (size (setBlockIndexCandidates st)) st;
  if decide (setBlockIndexCandidates st = ∅) then None else Some st.

(** ** The tip *)
Definition DisconnectTip (st : CChainState) : option (CChainState * bool) :=
  pindexDelete ← Tip (m_chain st);
  n ← index_of st !! pindexDelete;
  match undo ← cs_undo st !! pindexDelete; DisconnectBlock (cs_store st) pindexDelete undo with
  | None => Some (st, false)
  | Some s =>
      c ← SetTip (index_of st) (m_chain st) (bi_pprev n);
      Some (st <| cs_store := s |> <| m_chain := c |>, true)
  end.

Inductive TipResult := TipConnected | TipInvalid (reason : InvalidReason) | TipError.

(** The undo data is written the first time the block is connected. *)
Definition write_undo (st : CChainState) (h : uint256) (n : CBlockIndexNode) (undo : U) : CChainState :=
  match cs_undo st !! h with
  | Some _ => put_node st h n
  | None => set_dirty (put_node st h (add_status n BLOCK_HAVE_UNDO)) h <| cs_undo ::= fun u => <[h := undo]> u |>
  end.

Definition raise_scripts (st : CChainState) (h : uint256) : option CChainState :=
  n ← index_of st !! h;
  valid ← IsValid n BLOCK_VALID_SCRIPTS;
  if valid : bool then Some st
  else '(n, _) ← RaiseValidity n BLOCK_VALID_SCRIPTS; Some (set_dirty (put_node st h n) h).

(** The genesis block is connected without undo data. *)
Definition ConnectTip (st : CChainState) (pindexNew : uint256) : option (CChainState * TipResult) :=
  n ← index_of st !! pindexNew;
  if negb (bool_decide (bi_pprev n = Tip (m_chain st))) then None
  else
    let n := ConnectEntry (cs_store st) pindexNew n in
    match ConnectBlock (cs_store st) pindexNew with
    | Connected s undo =>
        st ← (if bool_decide (bi_pprev n = None) then Some (put_node st pindexNew n)
              else raise_scripts (write_undo st pindexNew n undo) pindexNew);
        c ← SetTip (index_of st) (m_chain st) (Some pindexNew);
        Some (st <| cs_store := s |> <| m_chain := c |>, TipConnected)
    | ConnectInvalid reason =>
        st ← InvalidBlockFound (put_node st pindexNew n) pindexNew reason;
        Some (st, TipInvalid reason)
    | ConnectError => Some (put_node st pindexNew n, TipError)
    end.

(** ** A step towards the best chain *)
Fixpoint disconnect_loop (fuel : nat) (st : CChainState) (pindexFork : option uint256) : option (CChainState * bool) :=
  if bool_decide (Tip (m_chain st) = None) || bool_decide (Tip (m_chain st) = pindexFork) then Some (st, true)
  else
    match fuel with
    | O => None
    | Datatypes.S fuel =>
        '(st, ok) ← DisconnectTip st;
        if ok : bool then disconnect_loop fuel st pindexFork else Some (st, false)
    end.

(** vpindexToConnect: from a block up to the height [nHeight], not included. *)
Fixpoint to_connect (m : BlockMap) (fuel : nat) (pindexIter : option uint256) (nHeight : Z) : option (list uint256) :=
  match pindexIter with
  | None => Some []
  | Some h =>
      n ← m !! h;
      if bi_nHeight n =? nHeight then Some []
      else match fuel with O => None | Datatypes.S fuel => l ← to_connect m fuel (bi_pprev n) nHeight; Some (h :: l) end
  end.

Inductive RoundResult := RoundDone | RoundStop | RoundInvalid (reason : InvalidReason) | RoundError.

(** The loop over the blocks to connect, the lowest first. *)
Fixpoint connect_blocks (pindexOldTip : option uint256) (st : CChainState) (l : list uint256) : option (CChainState * RoundResult) :=
  match l with
  | [] => Some (st, RoundDone)
  | pindexConnect :: l =>
      '(st, r) ← ConnectTip st pindexConnect;
      match r with
      | TipInvalid reason => Some (st, RoundInvalid reason)
      | TipError => Some (st, RoundError)
      | TipConnected =>
          st ← PruneBlockIndexCandidates st;
          better ← match pindexOldTip with
                   | None => Some true
                   | Some old =>
                       tip ← Tip (m_chain st); nt ← index_of st !! tip; no ← index_of st !! old;
                       Some (arith_gt (bi_nChainWork nt) (bi_nChainWork no))
                   end;
          if better : bool then Some (st, RoundStop) else connect_blocks pindexOldTip st l
      end
  end.

(** The state, whether no system error occurred, and fInvalidFound. *)
Fixpoint connect_rounds (fuel : nat) (pindexOldTip : option uint256) (pindexMostWork : uint256) (st : CChainState) (nHeight : Z) :
    option (CChainState * bool * bool) :=
  nmw ← index_of st !! pindexMostWork;
  if nHeight =? bi_nHeight nmw then Some (st, true, false)
  else
    match fuel with
    | O => None
    | Datatypes.S fuel =>
        let nTargetHeight := Z.min (nHeight + 32) (bi_nHeight nmw) in
        pindexIter ← GetAncestor (index_of st) pindexMostWork nTargetHeight;
        vpindexToConnect ← to_connect (index_of st) 33 pindexIter nHeight;
        '(st, r) ← connect_blocks pindexOldTip st (reverse vpindexToConnect);
        match r with
        | RoundDone => connect_rounds fuel pindexOldTip pindexMostWork st nTargetHeight
        | RoundStop => Some (st, true, false)
        | RoundInvalid reason =>
            st ← (if is_plain_invalid reason then front ← head vpindexToConnect; InvalidChainFound st front else Some st);
            Some (if bool_decide (reason = BLOCK_CACHE_MISSING_PREV) then st <| setBlockIndexCandidates := ∅ |> else st, true, true)
        | RoundError => Some (st, false, false)
        end
    end.

Definition ActivateBestChainStep (st : CChainState) (pindexMostWork : uint256) : option (CChainState * bool * bool) :=
  let pindexOldTip := Tip (m_chain st) in
  pindexFork ← FindFork (index_of st) (m_chain st) (Some pindexMostWork);
  '(st, ok) ← disconnect_loop (length (m_chain st)) st pindexFork;
  if negb ok then Some (st, false, false)
  else
    nHeight ← match pindexFork with Some f => nf ← index_of st !! f; Some (bi_nHeight nf) | None => Some (-1) end;
    nmw ← index_of st !! pindexMostWork;
    connect_rounds (Z.to_nat (bi_nHeight nmw - nHeight)) pindexOldTip pindexMostWork st nHeight.

(** ** Until the tip is the best candidate *)

(** Whether the inner loop goes on: there is no tip, or it is worse than at the start. *)
Definition still_worse (st : CChainState) (starting_tip : option uint256) : option bool :=
  match Tip (m_chain st), starting_tip with
  | None, _ => Some true
  | Some tip, Some start => CBlockIndexWorkComparator (index_of st) tip start
  | Some _, None => Some false
  end.

Record Activation := {
  ab_state : CChainState;
  ab_MostWork : option uint256;
  ab_NewTip : option uint256;
  ab_connected : bool;     (* blocks_connected *)
  ab_ok : bool }.          (* no system error *)

Fixpoint activate_inner (fuel : nat) (starting_tip : option uint256) (a : Activation) : option Activation :=
  '(st, pindexMostWork) ← match ab_MostWork a with
                          | None => FindMostWorkChain (ab_state a)
                          | Some h => Some (ab_state a, Some h)
                          end;
  match pindexMostWork with
  | None => Some {| ab_state := st; ab_MostWork := None; ab_NewTip := ab_NewTip a; ab_connected := ab_connected a; ab_ok := true |}
  | Some mw =>
      if decide (Tip (m_chain st) = Some mw)
      then Some {| ab_state := st; ab_MostWork := Some mw; ab_NewTip := ab_NewTip a; ab_connected := ab_connected a; ab_ok := true |}
      else
        match fuel with
        | O => None
        | Datatypes.S fuel =>
            '(st, ok, fInvalidFound) ← ActivateBestChainStep st mw;
            let a := {| ab_state := st; ab_MostWork := if fInvalidFound : bool then None else Some mw; ab_NewTip := Tip (m_chain st);
                        ab_connected := true; ab_ok := true |} in
            if negb ok then Some {| ab_state := st; ab_MostWork := Some mw; ab_NewTip := ab_NewTip a; ab_connected := ab_connected a; ab_ok := false |}
            else
              worse ← still_worse st starting_tip;
              if worse : bool then activate_inner fuel starting_tip a else Some a
        end
  end.

Fixpoint activate_outer (fuel : nat) (inner : nat) (a : Activation) : option (CChainState * bool) :=
  match fuel with
  | O => None
  | Datatypes.S fuel =>
      a ← activate_inner inner (Tip (m_chain (ab_state a)))
            {| ab_state := ab_state a; ab_MostWork := ab_MostWork a; ab_NewTip := ab_NewTip a; ab_connected := false; ab_ok := true |};
      if negb (ab_ok a) then Some (ab_state a, false)
      else if negb (ab_connected a) then Some (ab_state a, true)
      else if bool_decide (ab_NewTip a = ab_MostWork a) then Some (ab_state a, true)
      else activate_outer fuel inner a
  end.

(** Every step makes the way to the candidate shorter or finds an invalid block. *)
Definition activation_fuel (st : CChainState) : nat :=
  let n := size (index_of st : gmap uint256 CBlockIndexNode) in ((n + 2) * (n + 2))%nat.

Definition ActivateBestChain (st : CChainState) : option (CChainState * bool) :=
  activate_outer (activation_fuel st) (activation_fuel st)
    {| ab_state := st; ab_MostWork := None; ab_NewTip := None; ab_connected := false; ab_ok := true |}.

(** ** The arrival of a block's transactions *)
Definition set_counts (n : CBlockIndexNode) (nTx nChainTx nSequenceId : Z) : CBlockIndexNode :=
  BlockNode (bi_pprev n) (bi_pskip n) (bi_nHeight n) (bi_nChainWork n) nTx nChainTx (bi_nStatus n) (bi_nFlags n) (bi_nStakeModifier n)
    (bi_nStakeModifierV2 n) (bi_nVersion n) (bi_hashMerkleRoot n) (bi_nTime n) (bi_nBits n) (bi_nNonce n) (bi_nAccumulatorCheckpoint n)
    nSequenceId (bi_nTimeMax n).

(** One block of the queue: its sum of transactions, its sequence number, and its
    place among the candidates. *)
Definition link_block (st : CChainState) (h : uint256) : option CChainState :=
  n ← index_of st !! h;
  prevTx ← match bi_pprev n with Some p => np ← index_of st !! p; Some (bi_nChainTx np) | None => Some 0 end;
  let st := put_node st h (set_counts n (bi_nTx n) (u32 (prevTx + bi_nTx n)) (nBlockSequenceId st)) in
  let st := st <| nBlockSequenceId ::= fun i => i32 (i + 1) |> in
  worse ← match Tip (m_chain st) with Some tip => CBlockIndexWorkComparator (index_of st) h tip | None => Some false end;
  if negb worse && negb (has_bits (bi_nStatus n) BLOCK_CONFLICT_CHAINLOCK)
  then Some (st <| setBlockIndexCandidates ::= fun c => {[h]} ∪ c |>) else Some st.

Fixpoint link_queue (fuel : nat) (st : CChainState) (queue : list uint256) : option CChainState :=
  match queue with
  | [] => Some st
  | h :: queue =>
      match fuel with
      | O => None
      | Datatypes.S fuel =>
          st ← link_block st h;
          let linked := snd <$> filter (fun e => e.1 = h) (m_blocks_unlinked st) in
          link_queue fuel (st <| m_blocks_unlinked ::= filter (fun e => e.1 <> h) |>) (queue ++ linked)
      end
  end.

Definition ReceivedBlockTransactions (st : CChainState) (fProofOfStake : bool) (nTx : Z) (pindexNew : uint256) : option CChainState :=
  n ← index_of st !! pindexNew;
  let n := SetStakeEntropyBit n (GetStakeEntropyBit pindexNew) in
  let n := if fProofOfStake then SetProofOfStake n else n in
  let n := set_counts n nTx (bi_nChainTx n) (bi_nSequenceId n) in
  '(n, _) ← RaiseValidity (add_status n BLOCK_HAVE_DATA) BLOCK_VALID_TRANSACTIONS;
  let st := set_dirty (put_node st pindexNew n) pindexNew in
  match bi_pprev n with
  | None => link_queue (length (m_blocks_unlinked st) + 1) st [pindexNew]
  | Some p =>
      np ← index_of st !! p;
      if negb (bi_nChainTx np =? 0) then link_queue (length (m_blocks_unlinked st) + 1) st [pindexNew]
      else
        valid ← IsValid np BLOCK_VALID_TREE;
        Some (if valid : bool then st <| m_blocks_unlinked ::= fun l => l ++ [(p, pindexNew)] |> else st)
  end.
End chain_select.
