(* ===== verification/ChainSelectProofs.v ===== *)
(** * The choice of the active chain: candidates

    The order of the candidates is a strict total order, so that the loops over the
    set find its ends; FindMostWorkChain ends, and PruneBlockIndexCandidates keeps
    exactly what is not worse than the tip.  The shape of the tree, the work and the
    sequence numbers ([core]) never change, only the status does. *)

From S2P Require Import Prelude Serialize Params BetKeys Arith256 Chain ChainProofs Pow Kernel ChainSelect.

(** ** What never changes of an entry, and its status *)
Definition core (n : CBlockIndexNode) : option uint256 * option uint256 * Z * list Z * Z * Z :=
  (bi_pprev n, bi_pskip n, bi_nHeight n, bi_nChainWork n, bi_nChainTx n, bi_nSequenceId n).

Definition failed (n : CBlockIndexNode) : bool := has_bits (bi_nStatus n) BLOCK_FAILED_MASK.
Definition conflicting (n : CBlockIndexNode) : bool := has_bits (bi_nStatus n) BLOCK_CONFLICT_CHAINLOCK.
Definition have_data (n : CBlockIndexNode) : bool := has_bits (bi_nStatus n) BLOCK_HAVE_DATA.

Lemma has_bits_lor s a mask : has_bits (Z.lor s a) mask = has_bits s mask || has_bits a mask.
Proof.
  unfold has_bits. rewrite Z.land_lor_distr_l. destruct (Z.eqb_spec (Z.land s mask) 0) as [->|Hs].
  - by rewrite Z.lor_0_l.
  - cbn. apply negb_true_iff, Z.eqb_neq. intros H%Z.lor_eq_0_iff. tauto.
Qed.

Lemma add_status_bits n bits mask : has_bits (bi_nStatus (add_status n bits)) mask = has_bits (bi_nStatus n) mask || has_bits bits mask.
Proof. apply has_bits_lor. Qed.

Lemma add_status_keeps n bits mask : has_bits bits mask = false -> has_bits (bi_nStatus (add_status n bits)) mask = has_bits (bi_nStatus n) mask.
Proof. intros H. by rewrite add_status_bits, H, orb_false_r. Qed.

Lemma add_status_failed n bits : failed n = true -> failed (add_status n bits) = true.
Proof. unfold failed. rewrite add_status_bits. by intros ->. Qed.

Lemma add_status_conflicting n bits : conflicting n = true -> conflicting (add_status n bits) = true.
Proof. unfold conflicting. rewrite add_status_bits. by intros ->. Qed.

Lemma core_add_status n bits : core (add_status n bits) = core n.
Proof. done. Qed.

(** ** The order of the candidates *)
Section order.
Context (addr : uint256 -> Z).

(** More work, then an earlier sequence number, then a lower address. *)
Definition rank_of (h : uint256) (n : CBlockIndexNode) : Z * Z * Z := (eval (bi_nChainWork n), - bi_nSequenceId n, - addr h).

Definition rank_lt (x y : Z * Z * Z) : Prop :=
  x.1.1 < y.1.1 \/ x.1.1 = y.1.1 /\ (x.1.2 < y.1.2 \/ x.1.2 = y.1.2 /\ x.2 < y.2).

#[global] Instance rank_lt_dec x y : Decision (rank_lt x y).
Proof. unfold rank_lt. apply _. Defined.

Lemma rank_lt_irrefl x : ~ rank_lt x x.
Proof. unfold rank_lt. lia. Qed.
Lemma rank_lt_trans x y z : rank_lt x y -> rank_lt y z -> rank_lt x z.
Proof. unfold rank_lt. lia. Qed.
Lemma rank_le_trans x y z : ~ rank_lt y x -> ~ rank_lt z y -> ~ rank_lt z x.
Proof. unfold rank_lt. lia. Qed.

Definition works_ok (m : BlockMap) : Prop := forall h n, m !! h = Some n -> exists w, is256 (bi_nChainWork n) w.

Definition cand_rank (m : BlockMap) (h : uint256) : Z * Z * Z := from_option (rank_of h) (0, 0, 0) (m !! h).

Lemma cand_rank_some m h n : m !! h = Some n -> cand_rank m h = rank_of h n.
Proof. unfold cand_rank. by intros ->. Qed.

Lemma compare_works m a b na nb : works_ok m -> m !! a = Some na -> m !! b = Some nb ->
  CompareTo (bi_nChainWork na) (bi_nChainWork nb) = compare_Z (eval (bi_nChainWork na)) (eval (bi_nChainWork nb)).
Proof.
  intros Hw Ha Hb. destruct (Hw a na Ha) as (x & Ho & Hl & _), (Hw b nb Hb) as (y & Ho' & Hl' & _). apply CompareTo_spec; [done|done|congruence].
Qed.

Lemma comparator_spec m a b na nb : works_ok m -> m !! a = Some na -> m !! b = Some nb ->
  CBlockIndexWorkComparator addr m a b = Some (bool_decide (rank_lt (cand_rank m a) (cand_rank m b))).
Proof.
  intros Hw Ha Hb. unfold CBlockIndexWorkComparator. rewrite Ha, Hb. cbn [mbind option_bind]. f_equal.
  rewrite (cand_rank_some m a na Ha), (cand_rank_some m b nb Hb). unfold node_before, arith_gt, arith_lt. rewrite (compare_works m a b na nb Hw Ha Hb).
  unfold compare_Z, rank_lt, rank_of. cbn [fst snd]. symmetry.
  destruct (Z.ltb_spec (eval (bi_nChainWork na)) (eval (bi_nChainWork nb))), (Z.ltb_spec (eval (bi_nChainWork nb)) (eval (bi_nChainWork na)));
    cbn [Z.ltb Z.compare]; try lia.
  1: apply bool_decide_eq_true_2; lia.
  1: apply bool_decide_eq_false_2; lia.
  destruct (Z.ltb_spec (bi_nSequenceId na) (bi_nSequenceId nb)); [apply bool_decide_eq_false_2; lia|].
  destruct (Z.ltb_spec (bi_nSequenceId nb) (bi_nSequenceId na)); [apply bool_decide_eq_true_2; lia|].
  destruct (Z.ltb_spec (addr a) (addr b)); [apply bool_decide_eq_false_2; lia|].
  destruct (Z.ltb_spec (addr b) (addr a)); [apply bool_decide_eq_true_2; lia|apply bool_decide_eq_false_2; lia].
Qed.

(** Ranks of different blocks differ. *)
Lemma cand_rank_inj m a b na nb : (forall x y, addr x = addr y -> x = y) -> m !! a = Some na -> m !! b = Some nb ->
  ~ rank_lt (cand_rank m a) (cand_rank m b) -> ~ rank_lt (cand_rank m b) (cand_rank m a) -> a = b.
Proof.
  intros Hi Ha Hb. rewrite (cand_rank_some m a na Ha), (cand_rank_some m b nb Hb). unfold rank_lt, rank_of. cbn [fst snd].
  intros H1 H2. apply Hi. lia.
Qed.

(** [pick] finds the end of a list, under any weak order. *)
Lemma pick_end (rel : uint256 -> uint256 -> option bool) (R : uint256 -> uint256 -> Prop) `{!RelDecision R} (P : uint256 -> Prop) :
  (forall a b, P a -> P b -> rel a b = Some (bool_decide (R a b))) -> (forall a, ~ R a a) -> (forall a b c, R a b -> R b c -> R a c) ->
  (forall x y z, ~ R y x -> ~ R z y -> ~ R z x) ->
  forall l cur, (forall x, x ∈ cur :: l -> P x) ->
  exists r, pick rel cur l = Some r /\ r ∈ cur :: l /\ forall x, x ∈ cur :: l -> ~ R r x.
Proof.
  intros Hrel Hirr Htr Hle. induction l as [|y l IH]; intros cur Hm; cbn [pick].
  - exists cur. split; [done|]. split; [by left|]. intros x ->%list_elem_of_singleton. apply Hirr.
  - rewrite (Hrel cur y) by (apply Hm; first [by left|right; by left]). cbn [mbind option_bind].
    set (z := if bool_decide _ then y else cur).
    assert ((z = cur \/ z = y) /\ ~ R z cur /\ ~ R z y) as (Hz & Hz1 & Hz2).
    { subst z. case_bool_decide as Hlt; [split; [by right|]|split; [by left|]]; (split; [|try apply Hirr]); try done.
      intros H2. by apply (Hirr y), (Htr _ _ _ H2). }
    destruct (IH z) as (r & Hr & Hin & Hmax).
    { intros x [->|Hx]%elem_of_cons; [|apply Hm; right; by right]. apply Hm. destruct Hz as [->| ->]; [by left|right; by left]. }
    exists r. split; [done|]. split.
    + apply elem_of_cons in Hin as [->|Hin]; [|right; by right]. destruct Hz as [->| ->]; [by left|right; by left].
    + intros x Hx. pose proof (Hmax z ltac:(by left)) as Hrz. apply elem_of_cons in Hx as [->|[->|Hx]%elem_of_cons].
      * by eapply Hle.
      * by eapply Hle.
      * apply Hmax. by right.
Qed.

Lemma pick_candidate_end rel (R : uint256 -> uint256 -> Prop) `{!RelDecision R} (c : gset uint256) :
  (forall a b, a ∈ c -> b ∈ c -> rel a b = Some (bool_decide (R a b))) -> (forall a, ~ R a a) -> (forall a b d, R a b -> R b d -> R a d) ->
  (forall x y z, ~ R y x -> ~ R z y -> ~ R z x) ->
  exists r, pick_candidate rel c = Some r /\
    match r with Some h => h ∈ c /\ forall x, x ∈ c -> ~ R h x | None => c = ∅ end.
Proof.
  intros Hrel H1 H2 H3. unfold pick_candidate. destruct (elements c) as [|h l] eqn:E.
  - exists None. split; [done|]. by apply elements_empty_inv, leibniz_equiv in E.
  - assert (forall x, x ∈ h :: l <-> x ∈ c) as Hel by (intros x; rewrite <-E; apply elem_of_elements).
    destruct (pick_end rel R (fun x => x ∈ c) Hrel H1 H2 H3 l h) as (r & -> & Hin & Hmax); [intros x; apply Hel|].
    exists (Some r). split; [done|]. split; [by apply Hel|]. intros x Hx. apply Hmax. by apply Hel.
Qed.

Lemma last_candidate_spec m (c : gset uint256) : works_ok m -> (forall x, x ∈ c -> is_Some (m !! x)) ->
  exists r, last_candidate addr m c = Some r /\
    match r with Some h => h ∈ c /\ forall x, x ∈ c -> ~ rank_lt (cand_rank m h) (cand_rank m x) | None => c = ∅ end.
Proof.
  intros Hw Hm. apply (@pick_candidate_end _ (fun a b => rank_lt (cand_rank m a) (cand_rank m b)) (fun a b => rank_lt_dec _ _)).
  - intros a b [na Ha]%Hm [nb Hb]%Hm. by apply (comparator_spec m a b na nb).
  - intros a. apply rank_lt_irrefl.
  - intros a b d. apply rank_lt_trans.
  - intros x y z. apply rank_le_trans.
Qed.

Lemma first_candidate_spec m (c : gset uint256) : works_ok m -> (forall x, x ∈ c -> is_Some (m !! x)) ->
  exists r, first_candidate addr m c = Some r /\
    match r with Some h => h ∈ c /\ forall x, x ∈ c -> ~ rank_lt (cand_rank m x) (cand_rank m h) | None => c = ∅ end.
Proof.
  intros Hw Hm. apply (@pick_candidate_end _ (fun a b => rank_lt (cand_rank m b) (cand_rank m a)) (fun a b => rank_lt_dec _ _)).
  - intros a b [na Ha]%Hm [nb Hb]%Hm. by apply (comparator_spec m b a nb na).
  - intros a. apply rank_lt_irrefl.
  - intros a b d H1 H2. by eapply rank_lt_trans.
  - intros x y z H1 H2. by eapply rank_le_trans.
Qed.
End order.

(** ** Maps with the same cores *)
Definition core_eq (m m' : BlockMap) : Prop := forall h, core <$> m !! h = core <$> m' !! h.

Lemma core_eq_refl m : core_eq m m.
Proof. done. Qed.
Lemma core_eq_sym m m' : core_eq m m' -> core_eq m' m.
Proof. intros H h. by rewrite H. Qed.
Lemma core_eq_trans m m' m'' : core_eq m m' -> core_eq m' m'' -> core_eq m m''.
Proof. intros H H' h. by rewrite H. Qed.

Lemma core_eq_insert (m : BlockMap) h n n' : m !! h = Some n -> core n' = core n -> core_eq m (<[h := n']> m).
Proof.
  intros Hh E x. destruct (decide (x = h)) as [->|Hne]; [|by rewrite store_insert_ne].
  rewrite store_insert_eq, Hh. exact (eq_sym (f_equal Some E)).
Qed.

Lemma core_eq_lookup m m' h n : core_eq m m' -> m !! h = Some n -> exists n', m' !! h = Some n' /\ core n' = core n.
Proof. intros He Hn. specialize (He h). rewrite Hn in He. destruct (m' !! h) as [n'|]; [|done]. exists n'. split; [done|]. exact (eq_sym (Some_inj _ _ He)). Qed.

Ltac core_fields H :=
  let H1 := fresh in pose proof H as H1; unfold core in H1; injection H1 as ? ? ? ? ? ?.

Section same_core.
Context (m m' : BlockMap) (He : core_eq m m').

Lemma core_walk k h : walk m k h = walk m' k h.
Proof.
  apply walk_ext. intros x. specialize (He x). destruct (m !! x), (m' !! x); try done. apply Some_inj in He. core_fields He. cbn. congruence.
Qed.

Lemma core_anc a h : anc m a h <-> anc m' a h.
Proof. unfold anc. by setoid_rewrite core_walk. Qed.

Lemma core_tree : tree_wf m -> tree_wf m'.
Proof.
  apply tree_wf_ext. intros h. specialize (He h). destruct (m !! h), (m' !! h); try done. apply Some_inj in He. core_fields He.
  cbn. unfold links. congruence.
Qed.

Lemma core_rank addr h : cand_rank addr m h = cand_rank addr m' h.
Proof.
  unfold cand_rank. specialize (He h). destruct (m !! h), (m' !! h); try done. apply Some_inj in He. core_fields He.
  cbn. unfold rank_of. congruence.
Qed.

Lemma core_is_Some h : is_Some (m !! h) <-> is_Some (m' !! h).
Proof. specialize (He h). destruct (m !! h), (m' !! h); try done; split; intros []; done || by eexists. Qed.

Lemma core_chain_of t c : chain_of m t c -> chain_of m' t c.
Proof.
  intros (n & Ht & Hl & Hc). destruct (core_eq_lookup m m' t n He Ht) as (n' & Ht' & Ec). core_fields Ec. exists n'. split; [done|].
  assert (bi_nHeight n' = bi_nHeight n) as -> by done. split; [done|]. intros i Hi. rewrite (Hc i Hi). by rewrite core_walk.
Qed.
End same_core.

Lemma core_works m m' : core_eq m m' -> works_ok m -> works_ok m'.
Proof.
  intros He Hw h n' Hn'. destruct (core_eq_lookup m' m h n' (core_eq_sym _ _ He) Hn') as (n & Hn & Ec). core_fields Ec.
  destruct (Hw h n Hn) as [w Hw']. exists w. by match goal with H : bi_nChainWork _ = _ |- _ => rewrite <-H end.
Qed.

(** ** Clean chains *)

(** The blocks up to the genesis block have their data and do not conflict with a
    chain lock. *)
Definition clean (m : BlockMap) (h : uint256) : Prop :=
  forall a na, anc m a h -> m !! a = Some na -> have_data na = true /\ conflicting na = false.

Definition unfailed (m : BlockMap) (h : uint256) : Prop := forall a na, anc m a h -> m !! a = Some na -> failed na = false.
Definition good (m : BlockMap) (h : uint256) : Prop := clean m h /\ unfailed m h.
Definition downloaded (m : BlockMap) (h : uint256) : Prop :=
  forall a na, anc m a h -> m !! a = Some na -> bi_nChainTx na <> 0 \/ bi_nHeight na = 0.

Lemma good_anc m a h : good m h -> anc m a h -> good m a.
Proof. intros [Hc Hu] Ha. split; intros x nx Hx; [apply Hc|apply Hu]; by eapply anc_trans. Qed.

Definition usable (n : CBlockIndexNode) : bool := negb (failed n) && negb (conflicting n) && have_data n.

Lemma find_unusable_spec m t c fuel : forall h n,
  tree_wf m -> chain_of m t c -> m !! h = Some n -> downloaded m h -> (Z.to_nat (bi_nHeight n) < fuel)%nat ->
  exists r, find_unusable m c fuel (Some h) = Some r /\
    match r with
    | None => forall a na, anc m a h -> m !! a = Some na -> anc m a t \/ usable na = true
    | Some (x, f, cf) => anc m x h /\ exists nx, m !! x = Some nx /\ f = failed nx /\ cf = conflicting nx /\ usable nx = false
    end.
Proof.
  induction fuel as [|fuel IH]; intros h n Hwf Hc Hn Hd Hf; [lia|]. cbn [find_unusable].
  destruct (Contains_spec m t c h n Hwf Hc Hn) as (b & Eb & Hb). rewrite Eb. cbn [mbind option_bind]. destruct b.
  { exists None. split; [done|]. intros a na Ha Hna. left. eapply anc_trans; [exact Ha|]. by apply Hb. }
  rewrite Hn. cbn [mbind option_bind].
  assert ((bi_nChainTx n =? 0) && negb (bi_nHeight n =? 0) = false) as ->.
  { destruct (Hd h n (anc_refl m h) Hn); lia. }
  fold (failed n) (conflicting n) (have_data n).
  destruct (failed n || negb (have_data n) || conflicting n) eqn:Eu.
  { exists (Some (h, failed n, conflicting n)). split; [done|]. split; [apply anc_refl|]. exists n. split_and!; [done..|].
    unfold usable. by destruct (failed n), (have_data n), (conflicting n). }
  assert (usable n = true) as Hun by (unfold usable; by destruct (failed n), (have_data n), (conflicting n)).
  destruct (bi_pprev n) as [p|] eqn:Ep.
  - destruct (nw_prev _ _ _ (Hwf h n Hn) p Ep) as (np & Hp & Eh). pose proof (nw_height _ _ _ (Hwf p np Hp)).
    destruct (IH p np Hwf Hc Hp) as (r & Er & Hr); [|lia|].
    { intros a na Ha. apply Hd. eapply anc_trans; [exact Ha|]. by eapply anc_prev. }
    exists r. split; [done|]. destruct r as [[[x f] cf]|].
    + destruct Hr as [Hx Hr]. split; [|done]. eapply anc_trans; [exact Hx|]. by eapply anc_prev.
    + intros a na Ha Hna. destruct (decide (a = h)) as [->|Hne]; [rewrite Hn in Hna; injection Hna as <-; by right|].
      apply (Hr a na); [|done]. exact (anc_proper m a h n p Hn Ep Ha Hne).
  - exists None. split; [by destruct fuel|]. intros a na Ha Hna. destruct Ha as [[|k] Hk].
    + cbn in Hk. injection Hk as <-. rewrite Hn in Hna. injection Hna as <-. by right.
    + cbn [walk] in Hk. rewrite Hn in Hk. cbn [mbind option_bind] in Hk. by rewrite Ep in Hk.
Qed.

(** ** The index as it evolves

    Entries keep their cores; a clean chain stays clean; a failed block stays
    failed. *)
Record evolves (m m' : BlockMap) : Prop := {
  ev_core : core_eq m m';
  ev_clean : forall h, clean m h <-> clean m' h;
  ev_failed : forall h n n', m !! h = Some n -> m' !! h = Some n' -> failed n = true -> failed n' = true }.

Lemma evolves_refl m : evolves m m.
Proof. split; [done|done|]. intros h n n' Hn Hn' Hf. rewrite Hn in Hn'. by injection Hn' as <-. Qed.

Lemma evolves_trans m m' m'' : evolves m m' -> evolves m' m'' -> evolves m m''.
Proof.
  intros [Hc Hk Hf] [Hc' Hk' Hf']. split; [by eapply core_eq_trans|intros h; by rewrite Hk|]. intros h n n'' Hn Hn'' Hx.
  destruct (core_eq_lookup m m' h n Hc Hn) as (n' & Hn' & _). eauto.
Qed.

(** An entry gets a status that keeps its data and its failure, and conflicts only
    on a chain that is not clean. *)
Lemma evolves_insert (m : BlockMap) h n n' : m !! h = Some n -> core n' = core n -> have_data n' = have_data n ->
  (failed n = true -> failed n' = true) -> (conflicting n = true -> conflicting n' = true) -> (conflicting n' = conflicting n \/ ~ clean m h) ->
  evolves m (<[h := n']> m).
Proof.
  intros Hn Ec Ed Ef Hm Hc. pose proof (core_eq_insert m h n n' Hn Ec) as He. split; [done| |].
  - intros x. split; intros Hx a na Ha Hna.
    + apply (core_anc m _ He) in Ha. destruct (decide (a = h)) as [->|Hne].
      * rewrite store_insert_eq in Hna. injection Hna as <-. destruct (Hx h n Ha Hn) as [Hd Hcf]. rewrite Ed. split; [done|].
        destruct Hc as [->|Hc]; [done|]. exfalso. apply Hc. intros b nb Hb. apply Hx. by eapply anc_trans.
      * rewrite store_insert_ne in Hna by done. by apply (Hx a na).
    + apply (core_anc m _ He) in Ha. destruct (decide (a = h)) as [->|Hne].
      * rewrite Hn in Hna. injection Hna as <-. destruct (Hx h n' Ha) as [Hd Hcf]; [by rewrite store_insert_eq|]. rewrite <-Ed. split; [done|].
        destruct (conflicting n) eqn:Ecf; [|done]. by rewrite (Hm eq_refl) in Hcf.
      * apply (Hx a na); [done|]. by rewrite store_insert_ne.
  - intros x nx nx' Hx Hx' Hf. destruct (decide (x = h)) as [->|Hne].
    + rewrite store_insert_eq in Hx'. injection Hx' as <-. rewrite Hn in Hx. injection Hx as <-. by apply Ef.
    + rewrite store_insert_ne in Hx' by done. rewrite Hx in Hx'. by injection Hx' as <-.
Qed.

Section select.
Context {S U : Type} `{!BlockStore S U}.
Context (addr : uint256 -> Z).
Notation CState := (CChainState (S := S) (U := U)).

(** Everything but the index, the candidates, the blocks to link and the best
    invalid block stays. *)
Definition same_rest (st st' : CState) : Prop :=
  m_chain st' = m_chain st /\ cs_store st' = cs_store st /\ cs_undo st' = cs_undo st.

(** The failed blocks of [st'] that are new descend from one that failed before. *)
Definition inherits (st st' : CState) : Prop :=
  forall h n', index_of st' !! h = Some n' -> failed n' = true -> exists x nx, anc (index_of st) x h /\ index_of st !! x = Some nx /\ failed nx = true.

Lemma erase_candidates (st : CState) h y :
  y ∈ setBlockIndexCandidates (erase_candidate st h) <-> y ∈ setBlockIndexCandidates st /\ y <> h.
Proof. change (setBlockIndexCandidates (erase_candidate st h)) with (setBlockIndexCandidates st ∖ {[h]}). by rewrite elem_of_difference, not_elem_of_singleton. Qed.

Lemma drop_chain_spec fuel : forall (st : CState) k h n x nx f cf,
  tree_wf (index_of st) -> index_of st !! h = Some n -> walk (index_of st) k h = Some x -> index_of st !! x = Some nx -> (k <= fuel)%nat ->
  (f = true -> failed nx = true) -> (cf = true -> conflicting nx = true) ->
  exists st', drop_chain fuel st h x f cf = Some st' /\ same_rest st st' /\ pindexBestInvalid st' = pindexBestInvalid st /\
    evolves (index_of st) (index_of st') /\ inherits st st' /\
    (forall y, y ∈ setBlockIndexCandidates st' -> y ∈ setBlockIndexCandidates st /\ y <> h) /\
    (forall y, y ∈ setBlockIndexCandidates st -> y ∉ setBlockIndexCandidates st' -> anc (index_of st) x y).
Proof.
  induction fuel as [|fuel IH]; intros st k h n x nx f cf Hwf Hn Hk Hx Hle Hf Hcf; cbn [drop_chain]; case_decide as Ehx.
  1,3: subst x; exists (erase_candidate st h); split; [done|]; split; [done|]; split; [done|]; split; [apply evolves_refl|]; split;
       [intros y ny Hy Hfy; exists y, ny; split; [apply anc_refl|done]|]; split;
       [intros y; apply erase_candidates|intros y Hy Hny; rewrite erase_candidates in Hny; destruct (decide (y = h)) as [->|]; [apply anc_refl|tauto]].
  { destruct k; [cbn in Hk; congruence|lia]. }
  destruct k as [|k]; [cbn in Hk; congruence|]. rewrite Hn. cbn [mbind option_bind].
  pose proof Hk as Hk'. cbn [walk] in Hk'. rewrite Hn in Hk'. cbn [mbind option_bind] in Hk'.
  destruct (bi_pprev n) as [p|] eqn:Ep; [|done]. cbn [mbind option_bind] in Hk' |- *.
  destruct (nw_prev _ _ _ (Hwf h n Hn) p Ep) as (np & Hp & _).
  assert (anc (index_of st) x h) as Hxh by (by eexists).
  set (st1 := erase_candidate _ h).
  assert (same_rest st st1 /\ pindexBestInvalid st1 = pindexBestInvalid st /\
    forall y, y ∈ setBlockIndexCandidates st1 <-> y ∈ setBlockIndexCandidates st /\ y <> h) as (Hr1 & Hb1 & Hc1).
  { subst st1. split; [by destruct f, cf|]. split; [by destruct f, cf|]. intros y. rewrite erase_candidates. by destruct f, cf. }
  assert (evolves (index_of st) (index_of st1) /\ inherits st st1) as [He1 Hi1].
  { assert (inherits st st) as Hself by (intros y ny Hy Hfy; exists y, ny; split; [apply anc_refl|done]).
    assert (forall bits n1, n1 = add_status n bits -> (has_bits bits BLOCK_FAILED_MASK = true -> failed nx = true) ->
      forall st2, index_of st2 = <[h := n1]> (index_of st) -> inherits st st2) as Hinh.
    { intros bits n1 -> Hbits st2 E2 y ny Hy Hfy. rewrite E2 in Hy. destruct (decide (y = h)) as [->|Hne].
      - rewrite store_insert_eq in Hy. injection Hy as <-. unfold failed in Hfy. rewrite add_status_bits in Hfy. apply orb_prop in Hfy as [Hfy|Hfy].
        + exists h, n. split; [apply anc_refl|done].
        + exists x, nx. split; [done|]. split; [done|]. by apply Hbits.
      - rewrite store_insert_ne in Hy by done. exists y, ny. split; [apply anc_refl|done]. }
    subst st1. destruct f; [|destruct cf]; cbn [erase_candidate].
    - split; [|by apply (Hinh BLOCK_FAILED_CHILD _ eq_refl); [intros _; apply Hf|]].
      apply (evolves_insert _ h n); [done|done|by apply add_status_keeps|apply add_status_failed|apply add_status_conflicting|left; by apply add_status_keeps].
    - split; [|by apply (Hinh BLOCK_CONFLICT_CHAINLOCK _ eq_refl)].
      apply (evolves_insert _ h n); [done|done|by apply add_status_keeps|apply add_status_failed|apply add_status_conflicting|right].
      intros Hcl. destruct (Hcl x nx Hxh Hx) as [_ Hno]. by rewrite Hcf in Hno.
    - split; [apply evolves_refl|done]. }
  destruct (core_eq_lookup _ _ p np (ev_core _ _ He1) Hp) as (np1 & Hp1 & _).
  destruct (core_eq_lookup _ _ x nx (ev_core _ _ He1) Hx) as (nx1 & Hx1 & _).
  pose proof (core_tree _ _ (ev_core _ _ He1) Hwf) as Hwf1.
  assert (index_of st1 !! x = Some nx) as Hx2.
  { subst st1. destruct f; [|destruct cf]; cbn [erase_candidate]; [by cbn; rewrite store_insert_ne..|done]. }
  destruct (IH st1 k p np1 x nx f cf Hwf1 Hp1) as (st' & E' & (R1 & R2 & R3) & B' & He' & Hi' & Hs' & Ha');
    [by rewrite <-(core_walk _ _ (ev_core _ _ He1))|done|lia|done|done|].
  exists st'. split; [done|]. destruct Hr1 as (Q1 & Q2 & Q3). split; [by split_and!; congruence|]. split; [congruence|].
  split; [by eapply evolves_trans|]. split.
  { intros y ny Hy Hfy. destruct (Hi' y ny Hy Hfy) as (z & nz & Hz & Hnz & Hfz). destruct (Hi1 z nz Hnz Hfz) as (w & nw & Hw & Hnw).
    exists w, nw. split; [|done]. eapply anc_trans; [exact Hw|]. by apply (core_anc _ _ (ev_core _ _ He1)). }
  split; [intros y Hy; by apply Hc1, Hs'|].
  intros y Hy Hny. destruct (decide (y = h)) as [->|Hne]; [done|]. apply (core_anc _ _ (ev_core _ _ He1)). apply Ha'; [by apply Hc1|done].
Qed.

Lemma inherits_refl st : inherits st st.
Proof. intros y ny Hy Hfy. exists y, ny. split; [apply anc_refl|done]. Qed.

Lemma inherits_trans st st' st'' : core_eq (index_of st) (index_of st') -> inherits st st' -> inherits st' st'' -> inherits st st''.
Proof.
  intros He H1 H2 y ny Hy Hfy. destruct (H2 y ny Hy Hfy) as (z & nz & Hz & Hnz & Hfz). destruct (H1 z nz Hnz Hfz) as (w & nw & Hw & Hnw).
  exists w, nw. split; [|done]. eapply anc_trans; [exact Hw|]. by apply (core_anc _ _ He).
Qed.

Lemma good_evolves st st' h : evolves (index_of st) (index_of st') -> inherits st st' -> good (index_of st) h <-> good (index_of st') h.
Proof.
  intros He Hi. unfold good. rewrite (ev_clean _ _ He h). pose proof (ev_core _ _ He) as Hc. split; intros [H1 H2]; (split; [done|]); intros a na Ha Hna.
  - apply (core_anc _ _ Hc) in Ha. destruct (failed na) eqn:Ef; [|done]. destruct (Hi a na Hna Ef) as (x & nx & Hx & Hnx & Hfx).
    rewrite (H2 x nx) in Hfx; [done| |done]. by eapply anc_trans.
  - destruct (core_eq_lookup _ _ a na Hc Hna) as (na' & Hna' & _). destruct (failed na) eqn:Ef; [|done].
    rewrite <-(H2 a na'); [|by apply (core_anc _ _ Hc)|done]. symmetry. by apply (ev_failed _ _ He a na na').
Qed.

(** What the candidates need: they are in the index with all their transactions. *)
Definition cands_ok (st : CState) : Prop :=
  forall h, h ∈ setBlockIndexCandidates st -> is_Some (index_of st !! h) /\ downloaded (index_of st) h.

Lemma downloaded_core m m' h : core_eq m m' -> downloaded m h -> downloaded m' h.
Proof.
  intros He Hd a na' Ha Hna'. destruct (core_eq_lookup m' m a na' (core_eq_sym _ _ He) Hna') as (na & Hna & Ec). core_fields Ec.
  destruct (Hd a na); [by apply (core_anc _ _ He)|done|left; congruence|right; congruence].
Qed.

Lemma better_invalid_spec (st : CState) h : is_Some (index_of st !! h) -> (forall b, pindexBestInvalid st = Some b -> is_Some (index_of st !! b)) ->
  exists st', better_invalid st h = Some st' /\ index_of st' = index_of st /\ setBlockIndexCandidates st' = setBlockIndexCandidates st /\
    same_rest st st' /\ (forall b, pindexBestInvalid st' = Some b -> is_Some (index_of st' !! b)).
Proof.
  intros [n Hn] Hb. unfold better_invalid. destruct (pindexBestInvalid st) as [b|] eqn:Eb.
  - destruct (Hb b eq_refl) as [nb Hnb]. rewrite Hn, Hnb. cbn [mbind option_bind]. eexists. split; [done|]. destruct (arith_gt _ _).
    + split_and!; [done..|]. cbn. intros b' [= <-]. by eexists.
    + split_and!; [done..|]. intros b' Hb'. rewrite Eb in Hb'. injection Hb' as <-. by eexists.
  - eexists. split; [done|]. split_and!; [done..|]. cbn. intros b' [= <-]. by eexists.
Qed.

Record search_ok (st : CState) (t : uint256) : Prop := {
  so_tree : tree_wf (index_of st);
  so_works : works_ok (index_of st);
  so_chain : chain_of (index_of st) t (m_chain st);
  so_good : good (index_of st) t;
  so_cands : cands_ok st;
  so_invalid : forall b, pindexBestInvalid st = Some b -> is_Some (index_of st !! b) }.

(** A candidate that cannot be used is dropped with the blocks on its way; the
    candidates that can be used stay. *)
Lemma drop_unusable (st : CState) t h n x nx :
  search_ok st t -> h ∈ setBlockIndexCandidates st -> index_of st !! h = Some n -> anc (index_of st) x h -> index_of st !! x = Some nx -> usable nx = false ->
  exists st1 st2, (if failed nx then better_invalid st h else Some st) = Some st1 /\
    drop_chain (Z.to_nat (bi_nHeight n)) st1 h x (failed nx) (conflicting nx) = Some st2 /\ search_ok st2 t /\ same_rest st st2 /\
    evolves (index_of st) (index_of st2) /\ inherits st st2 /\ setBlockIndexCandidates st2 ⊂ setBlockIndexCandidates st /\
    (forall y, y ∈ setBlockIndexCandidates st -> good (index_of st) y -> y ∈ setBlockIndexCandidates st2).
Proof.
  intros [Hwf Hw Hc Hg Hcs Hbi] Hh Hn Hx Hnx Hus.
  assert (exists st1, (if failed nx then better_invalid st h else Some st) = Some st1 /\ index_of st1 = index_of st /\
    setBlockIndexCandidates st1 = setBlockIndexCandidates st /\ same_rest st st1 /\ (forall b, pindexBestInvalid st1 = Some b -> is_Some (index_of st1 !! b)))
    as (st1 & E1 & I1 & C1 & R1 & B1).
  { destruct (failed nx); [apply better_invalid_spec; [by eexists|done]|]. by exists st. }
  destruct Hx as [k Hk]. pose proof (walk_height _ _ _ _ _ Hwf Hn Hk) as (n2 & Hn2 & Eh). pose proof (nw_height _ _ _ (Hwf x n2 Hn2)).
  destruct (drop_chain_spec (Z.to_nat (bi_nHeight n)) st1 k h n x nx (failed nx) (conflicting nx))
    as (st2 & E2 & R2 & B2 & He & Hi & Hsub & Hdrop); [by rewrite I1..|lia|done|done|].
  exists st1, st2. split; [done|]. split; [done|].
  assert (same_rest st st2) as R12. { destruct R1 as (? & ? & ?), R2 as (? & ? & ?). by split_and!; congruence. }
  rewrite I1 in He, Hdrop. assert (inherits st st2) as Hi2. { intros y ny. unfold inherits in Hi. rewrite I1 in Hi. apply Hi. }
  rewrite C1 in Hsub, Hdrop. pose proof (ev_core _ _ He) as Hce. split; [|split; [done|split; [done|split; [done|split]]]].
  - destruct R12 as (Q1 & Q2 & Q3). split.
    + by apply (core_tree _ _ Hce).
    + by apply (core_works _ _ Hce).
    + rewrite Q1. by apply (core_chain_of _ _ Hce).
    + by apply (good_evolves st st2 t He Hi2).
    + intros y Hy. destruct (Hsub y Hy) as [Hy' _]. destruct (Hcs y Hy') as [Hs Hdl]. split; [by apply (core_is_Some _ _ Hce)|by apply (downloaded_core _ _ _ Hce)].
    + intros b Hb. rewrite B2 in Hb. apply B1 in Hb. rewrite I1 in Hb. by apply (core_is_Some _ _ Hce).
  - split; [intros y Hy; by apply Hsub|]. intros Hss. by destruct (Hsub h (Hss h Hh)).
  - intros y Hy Hgy. destruct (decide (y ∈ setBlockIndexCandidates st2)) as [|Hny]; [done|]. exfalso.
    pose proof (Hdrop y Hy Hny) as Hxy. destruct Hgy as [Hcl Huf]. destruct (Hcl x nx Hxy Hnx) as [D1 D2]. pose proof (Huf x nx Hxy Hnx) as D3.
    unfold usable in Hus. by rewrite D1, D2, D3 in Hus.
Qed.

(** What the search has done so far, and found. *)
Definition searched (st st' : CState) (t : uint256) (r : option uint256) : Prop :=
  search_ok st' t /\ same_rest st st' /\ evolves (index_of st) (index_of st') /\ inherits st st' /\
  (forall y, y ∈ setBlockIndexCandidates st' -> y ∈ setBlockIndexCandidates st) /\
  (forall y, y ∈ setBlockIndexCandidates st -> good (index_of st) y -> y ∈ setBlockIndexCandidates st') /\
  match r with
  | Some h => h ∈ setBlockIndexCandidates st' /\ good (index_of st') h /\
      (forall x, x ∈ setBlockIndexCandidates st' -> ~ rank_lt (cand_rank addr (index_of st') h) (cand_rank addr (index_of st') x))
  | None => setBlockIndexCandidates st' = ∅
  end.

Lemma searched_here st t r : search_ok st t ->
  match r with
  | Some h => h ∈ setBlockIndexCandidates st /\ good (index_of st) h /\
      (forall x, x ∈ setBlockIndexCandidates st -> ~ rank_lt (cand_rank addr (index_of st) h) (cand_rank addr (index_of st) x))
  | None => setBlockIndexCandidates st = ∅
  end -> searched st st t r.
Proof. intros Hok Hr. split_and!; try done; [apply evolves_refl|apply inherits_refl]. Qed.

Lemma searched_trans st st2 st' t r : same_rest st st2 -> evolves (index_of st) (index_of st2) -> inherits st st2 ->
  setBlockIndexCandidates st2 ⊂ setBlockIndexCandidates st -> (forall y, y ∈ setBlockIndexCandidates st -> good (index_of st) y -> y ∈ setBlockIndexCandidates st2) ->
  searched st2 st' t r -> searched st st' t r.
Proof.
  intros (? & ? & ?) He Hi [Hsub _] Hkeep (Hok & (? & ? & ?) & He' & Hi' & Hsub' & Hkeep' & Hr). split; [done|]. split; [by split_and!; congruence|].
  split; [by eapply evolves_trans|]. split; [by apply (inherits_trans st st2 st' (ev_core _ _ He))|]. split; [intros y Hy; by apply Hsub, Hsub'|]. split; [|done].
  intros y Hy Hgy. apply Hkeep'; [by apply Hkeep|]. by apply (good_evolves st st2 y He Hi).
Qed.

(** The search for the candidate with the most work ends: it drops only candidates
    that cannot be used, and finds the best of the others. *)
Lemma most_work_spec fuel : forall (st : CState) t, search_ok st t -> (size (setBlockIndexCandidates st) <= fuel)%nat ->
  exists st' r, most_work_loop addr fuel st = Some (st', r) /\ searched st st' t r.
Proof.
  induction fuel as [|fuel IH]; intros st t Hok Hsz; pose proof Hok as [Hwf Hw Hc Hg Hcs Hbi];
    destruct (last_candidate_spec addr (index_of st) (setBlockIndexCandidates st) Hw (fun x Hx => proj1 (Hcs x Hx))) as (r & Er & Hr);
    cbn [most_work_loop]; rewrite Er; cbn [mbind option_bind]; (destruct r as [h|]; [|exists st, None; split; [done|by apply searched_here]]); destruct Hr as [Hh Hmax].
  { exfalso. assert (setBlockIndexCandidates st = ∅) as E by (apply leibniz_equiv, size_empty_iff; lia). rewrite E in Hh. by apply not_elem_of_empty in Hh. }
  destruct (Hcs h Hh) as [[n Hn] Hd]. rewrite Hn. cbn [mbind option_bind].
  destruct (find_unusable_spec (index_of st) t (m_chain st) (Z.to_nat (bi_nHeight n) + 1) h n Hwf Hc Hn Hd ltac:(lia)) as (bad & -> & Hbad). cbn [mbind option_bind].
  destruct bad as [[[x f] cf]|].
  - destruct Hbad as (Hx & nx & Hnx & -> & -> & Hus).
    destruct (drop_unusable st t h n x nx Hok Hh Hn Hx Hnx Hus) as (st1 & st2 & -> & E2 & Hok2 & R2 & He & Hi & Hss & Hkeep). cbn [mbind option_bind].
    rewrite E2. cbn [mbind option_bind]. destruct (IH st2 t Hok2) as (st' & r & E' & Hs); [apply subset_size in Hss; lia|].
    exists st', r. split; [done|]. by apply (searched_trans st st2).
  - exists st, (Some h). split; [done|]. apply searched_here; [done|]. split; [done|]. split; [|done].
    destruct Hg as [Hcl Huf]. split; intros a na Ha Hna; destruct (Hbad a na Ha Hna) as [Hat|Hu]; [by apply (Hcl a na)| |by apply (Huf a na)|];
      unfold usable in Hu; by destruct (failed na), (conflicting na), (have_data na).
Qed.

(** ** Pruning *)
Definition with_cands (st : CState) (c : gset uint256) : CState :=
  {| cs_blockman := cs_blockman st; m_blocks_unlinked := m_blocks_unlinked st; setBlockIndexCandidates := c; m_chain := m_chain st;
     pindexBestInvalid := pindexBestInvalid st; nBlockSequenceId := nBlockSequenceId st; cs_store := cs_store st; cs_undo := cs_undo st |}.

Lemma prune_loop_spec fuel : forall (st : CState) t nt,
  works_ok (index_of st) -> (forall x, x ∈ setBlockIndexCandidates st -> is_Some (index_of st !! x)) ->
  Tip (m_chain st) = Some t -> index_of st !! t = Some nt -> (size (setBlockIndexCandidates st) <= fuel)%nat ->
  exists c, prune_loop addr fuel st = Some (with_cands st c) /\
    forall y, y ∈ c <-> y ∈ setBlockIndexCandidates st /\ ~ rank_lt (cand_rank addr (index_of st) y) (cand_rank addr (index_of st) t).
Proof.
  induction fuel as [|fuel IH]; intros st t nt Hw Hm Ht Hnt Hsz;
    destruct (first_candidate_spec addr (index_of st) (setBlockIndexCandidates st) Hw Hm) as (r & Er & Hr); cbn [prune_loop]; rewrite Er; cbn [mbind option_bind].
  - assert (setBlockIndexCandidates st = ∅) as Eempty by (apply leibniz_equiv, size_empty_iff; lia).
    destruct r as [h|]; [destruct Hr as [Hh _]; by rewrite Eempty in Hh|].
    exists (setBlockIndexCandidates st). split; [by destruct st|]. intros y. rewrite Eempty. split; [|tauto]. intros Hy. by apply not_elem_of_empty in Hy.
  - destruct r as [h|].
    2: { exists (setBlockIndexCandidates st). split; [by destruct st|]. intros y. rewrite Hr. split; [|tauto]. intros Hy. by apply not_elem_of_empty in Hy. }
    destruct Hr as [Hh Hmin]. destruct (Hm h Hh) as [n Hn]. rewrite Ht. cbn [mbind option_bind]. rewrite (comparator_spec addr (index_of st) h t n nt Hw Hn Hnt). cbn [mbind option_bind].
    case_bool_decide as Hlt.
    + destruct (IH (erase_candidate st h) t nt Hw) as (c & Ec & Hcc); [|done|done| |].
      * intros x [Hx _]%erase_candidates. by apply Hm.
      * assert (setBlockIndexCandidates (erase_candidate st h) ⊂ setBlockIndexCandidates st) as Hss.
        { split; [intros y Hy; by apply erase_candidates in Hy as [Hy _]|]. intros Hss. apply (Hss h), erase_candidates in Hh as [_ Hne]. done. }
        apply subset_size in Hss. lia.
      * exists c. split; [done|]. intros y. rewrite Hcc, erase_candidates. split; [tauto|]. intros [Hy Hny]. split; [|done]. split; [done|]. by intros ->.
    + exists (setBlockIndexCandidates st). split; [by destruct st|]. intros y. split; [|tauto]. intros Hy. split; [done|]. intros Hy'. apply Hlt.
      destruct (decide (rank_lt (cand_rank addr (index_of st) h) (cand_rank addr (index_of st) t))) as [|Hn']; [done|]. exfalso.
      exact (rank_le_trans _ _ _ Hn' (Hmin y Hy) Hy').
Qed.

(** What is left is what is not worse than the tip; the assertion holds when
    something is. *)
Lemma PruneBlockIndexCandidates_spec (st : CState) t nt x :
  works_ok (index_of st) -> (forall x, x ∈ setBlockIndexCandidates st -> is_Some (index_of st !! x)) ->
  Tip (m_chain st) = Some t -> index_of st !! t = Some nt ->
  x ∈ setBlockIndexCandidates st -> ~ rank_lt (cand_rank addr (index_of st) x) (cand_rank addr (index_of st) t) ->
  exists c, PruneBlockIndexCandidates addr st = Some (with_cands st c) /\
    forall y, y ∈ c <-> y ∈ setBlockIndexCandidates st /\ ~ rank_lt (cand_rank addr (index_of st) y) (cand_rank addr (index_of st) t).
Proof.
  intros Hw Hm Ht Hnt Hx Hxt. destruct (prune_loop_spec (size (setBlockIndexCandidates st)) st t nt Hw Hm Ht Hnt ltac:(lia)) as (c & Ec & Hc).
  exists c. split; [|done]. unfold PruneBlockIndexCandidates. rewrite Ec. cbn [mbind option_bind with_cands setBlockIndexCandidates].
  rewrite decide_False; [done|]. intros ->. assert (x ∈ (∅ : gset uint256)) as He by (by apply Hc). by apply not_elem_of_empty in He.
Qed.

(** FindMostWorkChain ends, whatever the candidates are: every round drops
    a candidate that cannot be used.  The chain, the store and the undo data stay;
    only the flags of entries change; the blocks marked as failed descend from one
    that was; all candidates with a complete and valid chain stay, and the best of
    them is returned.  None is returned when there is none. *)
Theorem FindMostWorkChain_best (st : CState) t : search_ok st t ->
  exists st' r, FindMostWorkChain addr st = Some (st', r) /\ searched st st' t r.
Proof. intros Hok. by apply most_work_spec. Qed.
End select.
