(* ===== verification/ActivateProofs.v ===== *)
(** * The choice of the active chain: ActivateBestChain

    Connecting and disconnecting blocks keeps the store in step with the active
    chain, so that a block that was connected can always be disconnected; the loops
    end; and at the end no known chain that is complete, free of chain lock conflicts
    and valid has more work than the active one. *)

From S2P Require Import Prelude Serialize Params BetKeys Arith256 Chain ChainProofs Pow Kernel ChainSelect ChainSelectProofs.

(** What the store promises: on the stores that are [store_ok], DisconnectBlock undoes
    ConnectBlock, and ConnectBlock leaves the links, the work and the status of the
    entry to the chain. *)
Class BlockStoreLaws (S U : Type) `{!BlockStore S U} (store_ok : S -> Prop) : Prop := {
  connect_store_ok s h s' u : store_ok s -> ConnectBlock s h = Connected s' u -> store_ok s';
  disconnect_connect s h s' u : store_ok s -> ConnectBlock s h = Connected s' u -> DisconnectBlock s' h u = Some s;
  entry_core s h n : core (ConnectEntry s h n) = core n;
  entry_status s h n : bi_nStatus (ConnectEntry s h n) = bi_nStatus n }.

Lemma chain_of_tip m t c : tree_wf m -> chain_of m t c -> Tip c = Some t.
Proof.
  intros Hwf (n & Ht & Hl & Hc). unfold Tip. rewrite last_lookup, Hl. replace (Init.Nat.pred (Z.to_nat (bi_nHeight n) + 1)) with (Z.to_nat (bi_nHeight n)) by lia.
  rewrite Hc by lia. by rewrite Nat.sub_diag.
Qed.

Lemma core_prev n n' : core n' = core n -> bi_pprev n' = bi_pprev n.
Proof. intros E. exact (f_equal (fun c => c.1.1.1.1.1) E). Qed.

(** More work down the tree. *)
Definition work_grows (m : BlockMap) : Prop :=
  forall h n p np, m !! h = Some n -> bi_pprev n = Some p -> m !! p = Some np -> eval (bi_nChainWork np) < eval (bi_nChainWork n).

Lemma anc_rank addr m a h n : tree_wf m -> work_grows m -> m !! h = Some n -> anc m a h -> a = h \/ rank_lt (cand_rank addr m a) (cand_rank addr m h).
Proof.
  intros Hwf Hg Hn [k Hk]. revert h n Hn Hk. induction k as [|k IH]; intros h n Hn Hk; [left; by injection Hk|]. right.
  cbn [walk] in Hk. rewrite Hn in Hk. cbn [mbind option_bind] in Hk. destruct (bi_pprev n) as [p|] eqn:Ep; [|done]. cbn [mbind option_bind] in Hk.
  destruct (nw_prev _ _ _ (Hwf h n Hn) p Ep) as (np & Hp & _). pose proof (Hg h n p np Hn Ep Hp) as Hlt.
  assert (rank_lt (cand_rank addr m p) (cand_rank addr m h)) as Hph.
  { rewrite (cand_rank_some addr m p np Hp), (cand_rank_some addr m h n Hn). left. exact Hlt. }
  destruct (IH p np Hp Hk) as [->|Hap]; [done|]. by eapply rank_lt_trans.
Qed.

Lemma anc_not_before addr m a h n : tree_wf m -> work_grows m -> m !! h = Some n -> anc m a h -> ~ rank_lt (cand_rank addr m h) (cand_rank addr m a).
Proof.
  intros Hwf Hg Hn Ha Hlt. destruct (anc_rank addr m a h n Hwf Hg Hn Ha) as [->|H]; [by eapply rank_lt_irrefl|].
  by apply (rank_lt_irrefl (cand_rank addr m a)), (rank_lt_trans _ _ _ H).
Qed.

Lemma core_work_grows m m' : core_eq m m' -> work_grows m -> work_grows m'.
Proof.
  intros He Hg h n' p np' Hn' Ep Hp'. apply core_eq_sym in He.
  destruct (core_eq_lookup m' m h n' He Hn') as (n & Hn & Ec). destruct (core_eq_lookup m' m p np' He Hp') as (np & Hp & Ecp).
  unfold core in Ec, Ecp. injection Ec as E1 _ _ E2 _ _. injection Ecp as _ _ _ E3 _ _. rewrite <-E2, <-E3. apply (Hg h n p np); congruence.
Qed.

(** A block has as many ancestors as its height says. *)
Lemma height_bound (m : BlockMap) k : forall h n, tree_wf m -> m !! h = Some n -> Z.to_nat (bi_nHeight n) = k ->
  exists X : gset uint256, size X = (k + 1)%nat /\ forall x, x ∈ X -> exists nx, m !! x = Some nx /\ bi_nHeight nx <= bi_nHeight n.
Proof.
  induction k as [|k IH]; intros h n Hwf Hn Ek; pose proof (nw_height _ _ _ (Hwf h n Hn)).
  - exists {[h]}. split; [by rewrite size_singleton|]. intros x ->%elem_of_singleton. exists n. split; [done|lia].
  - destruct (bi_pprev n) as [p|] eqn:Ep; [|rewrite (nw_root _ _ _ (Hwf h n Hn) Ep) in Ek; done].
    destruct (nw_prev _ _ _ (Hwf h n Hn) p Ep) as (np & Hp & Eh). pose proof (nw_height _ _ _ (Hwf p np Hp)).
    destruct (IH p np Hwf Hp ltac:(lia)) as (X & HX & Hall). exists ({[h]} ∪ X). split.
    + rewrite size_union, size_singleton; [lia|]. apply disjoint_singleton_l. intros (nx & Hx & Hle)%Hall. rewrite Hn in Hx. injection Hx as <-. lia.
    + intros x [->%elem_of_singleton|(nx & Hx & Hle)%Hall]%elem_of_union; [exists n; split; [done|lia]|exists nx; split; [done|lia]].
Qed.

Lemma height_size (m : BlockMap) h n : tree_wf m -> m !! h = Some n -> (Z.to_nat (bi_nHeight n) < size (m : gmap uint256 CBlockIndexNode))%nat.
Proof.
  intros Hwf Hn. destruct (height_bound m _ h n Hwf Hn eq_refl) as (X & HX & Hall).
  assert (X ⊆ dom (m : gmap uint256 CBlockIndexNode)) as Hsub.
  { intros x (nx & Hx & _)%Hall. apply elem_of_dom. by exists nx. }
  apply subseteq_size in Hsub. rewrite size_dom in Hsub. lia.
Qed.

Definition hgt (m : BlockMap) (h : uint256) : Z := from_option bi_nHeight 0 (m !! h).

Lemma hgt_some m h n : m !! h = Some n -> hgt m h = bi_nHeight n.
Proof. unfold hgt. by intros ->. Qed.

Lemma core_hgt m m' h : core_eq m m' -> hgt m h = hgt m' h.
Proof.
  intros He. unfold hgt. specialize (He h). destruct (m !! h), (m' !! h); try done. apply Some_inj in He. exact (f_equal (fun c => c.1.1.1.2) He).
Qed.

Lemma hgt_prev m h n p : tree_wf m -> m !! h = Some n -> bi_pprev n = Some p -> is_Some (m !! p) /\ hgt m h = hgt m p + 1.
Proof.
  intros Hwf Hn Ep. destruct (nw_prev _ _ _ (Hwf h n Hn) p Ep) as (np & Hp & Eh). split; [by eexists|].
  rewrite (hgt_some m h n Hn), (hgt_some m p np Hp). lia.
Qed.

(** Blocks that follow each other, from the successor of [t] on. *)
Fixpoint path (m : BlockMap) (t : uint256) (l : list uint256) : Prop :=
  match l with
  | [] => True
  | h :: l => (exists n, m !! h = Some n /\ bi_pprev n = Some t) /\ path m h l
  end.
Definition path_end (t : uint256) (l : list uint256) : uint256 := default t (last l).

Lemma path_core m m' l : core_eq m m' -> forall t, path m t l -> path m' t l.
Proof.
  intros He. induction l as [|h l IH]; [done|]. intros t [(n & Hn & Ep) Hl]. destruct (core_eq_lookup m m' h n He Hn) as (n' & Hn' & Ec%core_prev).
  split; [exists n'; split; [done|congruence]|by apply IH].
Qed.

Lemma path_end_cons t h l : path_end t (h :: l) = path_end h l.
Proof. unfold path_end. rewrite last_cons. by destruct (last l). Qed.

Lemma path_anc m l : forall t, path m t l -> anc m t (path_end t l).
Proof.
  induction l as [|h l IH]; intros t Hp; [apply anc_refl|]. destruct Hp as [(n & Hn & Ep) Hp]. rewrite path_end_cons.
  eapply anc_trans; [by eapply anc_prev|]. by apply IH.
Qed.

Lemma path_snoc m l h n : forall t, path m t l -> m !! h = Some n -> bi_pprev n = Some (path_end t l) -> path m t (l ++ [h]).
Proof.
  induction l as [|x l IH]; intros t Hp Hn Ep; cbn; [split; [by exists n|done]|]. destruct Hp as [Hx Hp]. split; [done|]. apply IH; [done|done|].
  by rewrite Ep, path_end_cons.
Qed.

(** ** Blocks not known to have failed *)
Definition live (m : BlockMap) : gset uint256 := dom (filter (fun kv => failed kv.2 = false) (m : gmap uint256 CBlockIndexNode)).

Lemma elem_of_live m h : h ∈ live m <-> exists n, m !! h = Some n /\ failed n = false.
Proof.
  unfold live. rewrite elem_of_dom. split.
  - intros [n Hn]. apply map_lookup_filter_Some in Hn as [Hn Hf]. by exists n.
  - intros (n & Hn & Hf). exists n. by apply map_lookup_filter_Some.
Qed.

Lemma live_evolves m m' : evolves m m' -> live m' ⊆ live m.
Proof.
  intros He h. rewrite !elem_of_live. intros (n' & Hn' & Hf). destruct (core_eq_lookup m' m h n' (core_eq_sym _ _ (ev_core _ _ He)) Hn') as (n & Hn & _).
  exists n. split; [done|]. destruct (failed n) eqn:E; [|done]. by rewrite (ev_failed _ _ He h n n' Hn Hn' E) in Hf.
Qed.

Lemma live_shrinks m m' h n n' : evolves m m' -> m !! h = Some n -> failed n = false -> m' !! h = Some n' -> failed n' = true ->
  (size (live m') < size (live m))%nat.
Proof.
  intros He Hn Hf Hn' Hf'. apply subset_size. split; [by apply live_evolves|]. intros Hs.
  assert (h ∈ live m') as (x & Hx & Hfx)%elem_of_live by (apply Hs, elem_of_live; by exists n). rewrite Hn' in Hx. injection Hx as <-. congruence.
Qed.

(** ** Entries that keep their core and their flags *)
Definition face (n : CBlockIndexNode) := (core n, failed n, conflicting n, have_data n).
Definition face_eq (m m' : BlockMap) : Prop := forall h, face <$> m !! h = face <$> m' !! h.

Lemma face_eq_trans m m' m'' : face_eq m m' -> face_eq m' m'' -> face_eq m m''.
Proof. intros H H' h. by rewrite H. Qed.

Lemma face_eq_insert (m : BlockMap) h n n' : m !! h = Some n -> face n' = face n -> face_eq m (<[h := n']> m).
Proof.
  intros Hh E x. destruct (decide (x = h)) as [->|Hne]; [|by rewrite store_insert_ne]. rewrite store_insert_eq, Hh. exact (eq_sym (f_equal Some E)).
Qed.

Lemma face_eq_lookup m m' h n : face_eq m m' -> m !! h = Some n -> exists n', m' !! h = Some n' /\ face n' = face n.
Proof. intros He Hn. specialize (He h). rewrite Hn in He. destruct (m' !! h) as [n'|]; [|done]. exists n'. split; [done|]. exact (eq_sym (Some_inj _ _ He)). Qed.

Lemma face_fields n n' : face n' = face n -> core n' = core n /\ failed n' = failed n /\ conflicting n' = conflicting n /\ have_data n' = have_data n.
Proof. intros E. split_and!; [exact (f_equal (fun f => f.1.1.1) E)|exact (f_equal (fun f => f.1.1.2) E)|exact (f_equal (fun f => f.1.2) E)|exact (f_equal snd E)]. Qed.

Lemma face_eq_core m m' : face_eq m m' -> core_eq m m'.
Proof.
  intros He h. specialize (He h). destruct (m !! h) as [n|], (m' !! h) as [n'|]; try done. apply Some_inj, face_fields in He as [E _]. exact (f_equal Some E).
Qed.

Lemma face_eq_sym m m' : face_eq m m' -> face_eq m' m.
Proof. intros H h. by rewrite H. Qed.

Lemma face_eq_clean m m' h : face_eq m m' -> clean m h -> clean m' h.
Proof.
  intros He Hc a na' Ha Hna'. destruct (face_eq_lookup m' m a na' (face_eq_sym _ _ He) Hna') as (na & Hna & E). apply face_fields in E as (_ & _ & E1 & E2).
  destruct (Hc a na) as [D1 D2]; [by apply (core_anc _ _ (face_eq_core _ _ He))|done|]. split; congruence.
Qed.

Lemma face_eq_unfailed m m' h : face_eq m m' -> unfailed m h -> unfailed m' h.
Proof.
  intros He Hc a na' Ha Hna'. destruct (face_eq_lookup m' m a na' (face_eq_sym _ _ He) Hna') as (na & Hna & E). apply face_fields in E as (_ & E1 & _).
  rewrite <-E1. apply (Hc a na); [by apply (core_anc _ _ (face_eq_core _ _ He))|done].
Qed.

Lemma face_eq_good m m' h : face_eq m m' -> good m h -> good m' h.
Proof. intros He [H1 H2]. split; [by apply (face_eq_clean m)|by apply (face_eq_unfailed m)]. Qed.

Lemma face_eq_evolves m m' : face_eq m m' -> evolves m m'.
Proof.
  intros He. split; [by apply face_eq_core|intros h; split; apply face_eq_clean; [done|by apply face_eq_sym]|]. intros h n n' Hn Hn'.
  destruct (face_eq_lookup m m' h n He Hn) as (n2 & Hn2 & E). apply face_fields in E as (_ & E & _). rewrite Hn' in Hn2. injection Hn2 as <-. congruence.
Qed.

(** Raising the validity changes only the lowest bits of the status. *)
Lemma RaiseValidity_face n n' b : RaiseValidity n BLOCK_VALID_SCRIPTS = Some (n', b) -> face n' = face n.
Proof.
  unfold RaiseValidity. change (has_bits BLOCK_VALID_SCRIPTS (Z.lnot BLOCK_VALID_MASK)) with false. cbn [negb].
  destruct (has_bits (bi_nStatus n) BLOCK_FAILED_MASK); [by intros [= <- _]|]. destruct (_ <? _); [|by intros [= <- _]]. intros [= <- _].
  assert (forall mask, Z.land (Z.lnot BLOCK_VALID_MASK) mask = mask -> has_bits BLOCK_VALID_SCRIPTS mask = false ->
    has_bits (Z.lor (Z.land (bi_nStatus n) (Z.lnot BLOCK_VALID_MASK)) BLOCK_VALID_SCRIPTS) mask = has_bits (bi_nStatus n) mask) as Hm.
  { intros mask E1 E2. rewrite has_bits_lor, E2, orb_false_r. unfold has_bits. by rewrite <-Z.land_assoc, E1. }
  unfold face, failed, conflicting, have_data. cbn [set_status bi_nStatus]. by rewrite !Hm.
Qed.

Section activate.
Context {S U : Type} `{!BlockStore S U} {store_ok : S -> Prop} `{!BlockStoreLaws S U store_ok}.
Context (addr : uint256 -> Z).
Context (g : uint256) (s0 : S) (Hs0 : store_ok s0).
Notation CState := (CChainState (S := S) (U := U)).

(** ** The store of a chain: its blocks connected from the genesis block on *)
Inductive replays (m : BlockMap) : uint256 -> S -> Prop :=
  | replays_root : replays m g s0
  | replays_step h n p s s' (u : U) :
      m !! h = Some n -> bi_pprev n = Some p -> replays m p s -> ConnectBlock s h = Connected s' u -> replays m h s'.

Lemma replays_ok m h s : replays m h s -> store_ok s.
Proof using Hs0 BlockStoreLaws0. induction 1; [done|]. by eapply connect_store_ok. Qed.

Definition rooted (m : BlockMap) : Prop := exists ng, m !! g = Some ng /\ bi_pprev ng = None.

Lemma replays_core m m' h s : core_eq m m' -> replays m h s -> replays m' h s.
Proof.
  intros He. induction 1 as [|h n p s s' u Hn Ep _ IH Hc]; [constructor|]. destruct (core_eq_lookup m m' h n He Hn) as (n' & Hn' & Ec).
  apply (replays_step m' h n' p s s' u); [done| |done|done]. apply core_prev in Ec; congruence.
Qed.

Lemma rooted_core m m' : core_eq m m' -> rooted m -> rooted m'.
Proof.
  intros He (ng & Hg & Ep). destruct (core_eq_lookup m m' g ng He Hg) as (ng' & Hg' & Ec). exists ng'. split; [done|].
  apply core_prev in Ec; congruence.
Qed.

(** The last block of a store that is not the one of the genesis block. *)
Lemma replays_inv m h n p s' : rooted m -> m !! h = Some n -> bi_pprev n = Some p -> replays m h s' ->
  exists s u, replays m p s /\ ConnectBlock s h = Connected s' u.
Proof.
  intros (ng & Hg & Eg) Hn Ep Hr. destruct Hr as [|h n2 p2 s s' u Hn2 Ep2 Hr Hc].
  - rewrite Hg in Hn. injection Hn as <-. congruence.
  - rewrite Hn in Hn2. injection Hn2 as <-. rewrite Ep in Ep2. injection Ep2 as <-. by exists s, u.
Qed.

Lemma replays_det m h s : rooted m -> replays m h s -> forall s2, replays m h s2 -> s2 = s.
Proof.
  intros Hroot. induction 1 as [|h n p s s' u Hn Ep _ IH Hc]; intros s2 H2.
  - destruct Hroot as (ng & Hg & Eg). inversion H2 as [|? n2 p2 ? ? ? Hn2 Ep2]; [done|]. rewrite Hg in Hn2. injection Hn2 as <-. congruence.
  - destruct (replays_inv m h n p s2 Hroot Hn Ep H2) as (s1 & u1 & H1 & Hc1). rewrite (IH s1 H1), Hc in Hc1. by injection Hc1.
Qed.

Lemma replays_anc m h s : rooted m -> replays m h s -> forall a, anc m a h -> exists s', replays m a s'.
Proof.
  intros Hroot. induction 1 as [|h n p s s' u Hn Ep Hr IH Hc]; intros a Ha.
  - destruct Hroot as (ng & Hg & Eg). destruct Ha as [[|k] Hk]; [injection Hk as <-; exists s0; constructor|].
    cbn [walk] in Hk. rewrite Hg in Hk. cbn [mbind option_bind] in Hk. by rewrite Eg in Hk.
  - destruct (decide (a = h)) as [->|Hne]; [exists s'; by econstructor|]. apply IH. exact (anc_proper m a h n p Hn Ep Ha Hne).
Qed.

(** ** The invariant, with the tip [t] and the best block [top] that was the tip *)
Record chain_ok (st : CState) (t top : uint256) : Prop := {
  ck_tree : tree_wf (index_of st);
  ck_rooted : rooted (index_of st);
  ck_root : forall h n, index_of st !! h = Some n -> bi_pprev n = None -> h = g;
  ck_works : works_ok (index_of st);
  ck_grows : work_grows (index_of st);
  ck_cands : cands_ok st;
  ck_chain : chain_of (index_of st) t (m_chain st);
  ck_clean : clean (index_of st) t;
  ck_store : replays (index_of st) t (cs_store st);
  ck_undo : forall h u, cs_undo st !! h = Some u -> forall n p s,
    index_of st !! h = Some n -> bi_pprev n = Some p -> replays (index_of st) p s -> exists s', ConnectBlock s h = Connected s' u;
  ck_written : forall h n, anc (index_of st) h t -> index_of st !! h = Some n -> bi_pprev n <> None -> is_Some (cs_undo st !! h);
  ck_failed : forall h n, index_of st !! h = Some n -> failed n = true -> forall s, ~ replays (index_of st) h s;
  ck_invalid : forall b, pindexBestInvalid st = Some b -> is_Some (index_of st !! b);
  ck_top : is_Some (index_of st !! top);
  ck_top_clean : clean (index_of st) top;
  ck_top_valid : exists s, replays (index_of st) top s;
  ck_complete : forall h, is_Some (index_of st !! h) -> good (index_of st) h ->
    ~ rank_lt (cand_rank addr (index_of st) h) (cand_rank addr (index_of st) top) -> h ∈ setBlockIndexCandidates st }.

Lemma valid_unfailed st t top h s : chain_ok st t top -> replays (index_of st) h s -> unfailed (index_of st) h.
Proof.
  intros Hok Hr a na Ha Hna. destruct (failed na) eqn:Ef; [|done]. exfalso.
  destruct (replays_anc _ _ _ (ck_rooted _ _ _ Hok) Hr a Ha) as [s' Hs']. exact (ck_failed _ _ _ Hok a na Hna Ef s' Hs').
Qed.

Lemma tip_good st t top : chain_ok st t top -> good (index_of st) t.
Proof. intros Hok. split; [exact (ck_clean _ _ _ Hok)|]. eapply valid_unfailed; [exact Hok|exact (ck_store _ _ _ Hok)]. Qed.

Lemma top_cand st t top : chain_ok st t top -> top ∈ setBlockIndexCandidates st.
Proof.
  intros Hok. destruct (ck_top_valid _ _ _ Hok) as [s Hs]. apply (ck_complete _ _ _ Hok); [exact (ck_top _ _ _ Hok)| |apply rank_lt_irrefl].
  split; [exact (ck_top_clean _ _ _ Hok)|]. by eapply valid_unfailed.
Qed.

(** The invariant when only the statuses, the candidates and the best invalid block
    change. *)
Lemma chain_ok_evolves st st' t top : chain_ok st t top -> evolves (index_of st) (index_of st') -> same_rest st st' -> cands_ok st' ->
  (forall h n, index_of st' !! h = Some n -> failed n = true -> forall s, ~ replays (index_of st) h s) ->
  (forall b, pindexBestInvalid st' = Some b -> is_Some (index_of st' !! b)) ->
  (forall h, is_Some (index_of st !! h) -> good (index_of st') h -> h ∈ setBlockIndexCandidates st -> h ∈ setBlockIndexCandidates st') ->
  (forall h, good (index_of st') h -> good (index_of st) h) ->
  chain_ok st' t top.
Proof.
  intros Hok He (R1 & R2 & R3) Hcs Hf Hi Hkeep Hgood. pose proof (ev_core _ _ He) as Hc. pose proof (core_eq_sym _ _ Hc) as Hc'.
  destruct Hok as [H1 H2 H3 H4 H5 H6 H7 H8 H9 H10 H11 H12 H13 H14 H15 H16 H17]. split.
  - by apply (core_tree _ _ Hc).
  - by apply (rooted_core _ _ Hc).
  - intros h n' Hn' Ep. destruct (core_eq_lookup _ _ h n' Hc' Hn') as (n & Hn & Ec). apply (H3 h n Hn). apply core_prev in Ec; congruence.
  - by apply (core_works _ _ Hc).
  - by apply (core_work_grows _ _ Hc).
  - done.
  - rewrite R1. by apply (core_chain_of _ _ Hc).
  - by apply (ev_clean _ _ He).
  - rewrite R2. by apply (replays_core _ _ _ _ Hc).
  - intros h u Hu n' p s Hn' Ep Hr. rewrite R3 in Hu. destruct (core_eq_lookup _ _ h n' Hc' Hn') as (n & Hn & Ec).
    apply (H10 h u Hu n p s Hn); [apply core_prev in Ec; congruence|]. by apply (replays_core _ _ _ _ Hc').
  - intros h n' Ha Hn' Ep. rewrite R3. destruct (core_eq_lookup _ _ h n' Hc' Hn') as (n & Hn & Ec).
    apply (H11 h n); [by apply (core_anc _ _ Hc)|done|]. apply core_prev in Ec; congruence.
  - intros h n' Hn' Hfn s Hr. apply (Hf h n' Hn' Hfn s). by apply (replays_core _ _ _ _ Hc').
  - done.
  - by apply (core_is_Some _ _ Hc).
  - by apply (ev_clean _ _ He).
  - destruct H16 as [s Hs]. exists s. by apply (replays_core _ _ _ _ Hc).
  - intros h Hh Hg Hrk. apply (core_is_Some _ _ Hc) in Hh. apply (Hkeep h Hh Hg). apply (H17 h Hh); [by apply Hgood|].
    by rewrite !(core_rank _ _ Hc addr).
Qed.

(** ** Taking the tip off *)
Lemma ck_tip st t top : chain_ok st t top -> Tip (m_chain st) = Some t.
Proof. intros Hok. exact (chain_of_tip _ _ _ (ck_tree _ _ _ Hok) (ck_chain _ _ _ Hok)). Qed.

Lemma DisconnectTip_spec st t top n p : chain_ok st t top -> index_of st !! t = Some n -> bi_pprev n = Some p ->
  exists st', DisconnectTip st = Some (st', true) /\ chain_ok st' p top /\ index_of st' = index_of st /\
    setBlockIndexCandidates st' = setBlockIndexCandidates st.
Proof.
  intros Hok Hn Ep. destruct (ck_written _ _ _ Hok t n (anc_refl _ t) Hn ltac:(congruence)) as [u Hu].
  destruct (replays_inv _ t n p _ (ck_rooted _ _ _ Hok) Hn Ep (ck_store _ _ _ Hok)) as (s & u' & Hs & Hc).
  destruct (ck_undo _ _ _ Hok t u Hu n p s Hn Ep Hs) as (s' & Hc'). rewrite Hc in Hc'. injection Hc' as <- <-.
  destruct (nw_prev _ _ _ (ck_tree _ _ _ Hok t n Hn) p Ep) as (np & Hp & _).
  destruct (SetTip_chain _ (m_chain st) t p np (ck_tree _ _ _ Hok) (or_intror (ck_chain _ _ _ Hok)) Hp) as (c & Hset & Hchain).
  unfold DisconnectTip. rewrite (ck_tip _ _ _ Hok). cbn [mbind option_bind]. rewrite Hn. cbn [mbind option_bind]. rewrite Hu. cbn [mbind option_bind].
  rewrite (disconnect_connect _ _ _ _ (replays_ok _ _ _ Hs) Hc), Ep, Hset. cbn [mbind option_bind]. eexists. split; [done|]. split; [|done].
  pose proof (anc_prev _ t n p Hn Ep) as Hpt.
  destruct Hok as [H1 H2 H3 H4 H5 H6 H7 H8 H9 H10 H11 H12 H13 H14 H15 H16 H17]. split; try done.
  - intros a na Ha. apply H8. by eapply anc_trans.
  - intros h nh Ha. apply H11. by eapply anc_trans.
Qed.

(** Down to an ancestor of the tip. *)
Lemma disconnect_loop_spec fuel : forall st t top n f nf,
  chain_ok st t top -> index_of st !! t = Some n -> index_of st !! f = Some nf -> anc (index_of st) f t ->
  (Z.to_nat (bi_nHeight n) <= fuel)%nat ->
  exists st', disconnect_loop fuel st (Some f) = Some (st', true) /\ chain_ok st' f top /\ index_of st' = index_of st /\
    setBlockIndexCandidates st' = setBlockIndexCandidates st.
Proof.
  induction fuel as [|fuel IH]; intros st t top n f nf Hok Hn Hf Ha Hle; cbn [disconnect_loop]; rewrite (ck_tip _ _ _ Hok);
    (destruct (decide (t = f)) as [->|Hne]; [rewrite (bool_decide_eq_true_2 (Some f = Some f)) by done; rewrite orb_true_r; by exists st|]);
    pose proof (ck_tree _ _ _ Hok) as Hwf; pose proof (nw_height _ _ _ (Hwf f nf Hf)); destruct (anc_height _ f t n Hwf Hn Ha) as (nf' & Hf' & Hlow);
    rewrite Hf in Hf'; injection Hf' as <-;
    (assert (bi_nHeight nf <> bi_nHeight n) by (intros E; by apply Hne, eq_sym, (anc_same_height (index_of st) f t nf n))); [lia|].
  rewrite !bool_decide_eq_false_2 by congruence. cbn [orb].
  destruct (bi_pprev n) as [p|] eqn:Ep; [|rewrite (nw_root _ _ _ (Hwf t n Hn) Ep) in *; lia].
  destruct (nw_prev _ _ _ (Hwf t n Hn) p Ep) as (np & Hp & Eh).
  destruct (DisconnectTip_spec st t top n p Hok Hn Ep) as (st1 & -> & Hok1 & E1 & C1). cbn [mbind option_bind].
  destruct (IH st1 p top np f nf Hok1) as (st' & E' & Hok' & I' & C'); [by rewrite E1..| |lia|].
  - rewrite E1. apply (anc_proper _ f t n p Hn Ep Ha). congruence.
  - exists st'. split; [done|]. split; [done|]. split; congruence.
Qed.

(** ** Putting a block on top *)

(** Writing the entry and the undo data of a block that was connected. *)
Lemma record_connected (st : CState) h n n' u : index_of st !! h = Some n -> core n' = core n -> bi_nStatus n' = bi_nStatus n ->
  exists st', raise_scripts (write_undo st h n' u) h = Some st' /\ face_eq (index_of st) (index_of st') /\
    m_chain st' = m_chain st /\ setBlockIndexCandidates st' = setBlockIndexCandidates st /\ pindexBestInvalid st' = pindexBestInvalid st /\
    cs_undo st' = match cs_undo st !! h with Some _ => cs_undo st | None => <[h := u]> (cs_undo st) end.
Proof.
  intros Hn Ec Es. assert (face n' = face n) as Ef by (unfold face, failed, conflicting, have_data; by rewrite Ec, Es).
  assert (exists n1, index_of (write_undo st h n' u) = <[h := n1]> (index_of st) /\ face n1 = face n) as (n1 & E1 & F1).
  { unfold write_undo. destruct (cs_undo st !! h); [by exists n'|]. exists (add_status n' BLOCK_HAVE_UNDO). split; [done|].
    rewrite <-Ef. unfold face, failed, conflicting, have_data. by rewrite !add_status_keeps. }
  set (st1 := write_undo st h n' u) in *. unfold raise_scripts. rewrite E1, store_insert_eq. cbn [mbind option_bind].
  assert (m_chain st1 = m_chain st /\ setBlockIndexCandidates st1 = setBlockIndexCandidates st /\ pindexBestInvalid st1 = pindexBestInvalid st /\
    cs_undo st1 = match cs_undo st !! h with Some _ => cs_undo st | None => <[h := u]> (cs_undo st) end) as Hrest.
  { subst st1. unfold write_undo. by destruct (cs_undo st !! h). }
  pose proof (face_eq_insert (index_of st) h n n1 Hn F1) as He1. unfold IsValid.
  change (has_bits BLOCK_VALID_SCRIPTS (Z.lnot BLOCK_VALID_MASK)) with false. cbn [mbind option_bind].
  destruct (if has_bits (bi_nStatus n1) BLOCK_FAILED_MASK then _ else _).
  { exists st1. split; [done|]. by rewrite E1. }
  destruct (RaiseValidity n1 BLOCK_VALID_SCRIPTS) as [[n2 b]|] eqn:Er.
  2: { unfold RaiseValidity in Er. by change (has_bits BLOCK_VALID_SCRIPTS (Z.lnot BLOCK_VALID_MASK)) with false in Er. }
  cbn [mbind option_bind]. exists (set_dirty (put_node st1 h n2) h). split; [done|]. split; [|done].
  eapply face_eq_trans; [exact He1|]. change (face_eq (<[h := n1]> (index_of st)) (<[h := n2]> (index_of st1))). rewrite E1.
  apply (face_eq_insert _ h n1); [apply store_insert_eq|]. by apply (RaiseValidity_face n1 n2 b).
Qed.

(** A block that connects becomes the tip. *)
Lemma ConnectTip_connected st t top h n s u : chain_ok st t top -> index_of st !! h = Some n -> bi_pprev n = Some t -> clean (index_of st) h ->
  ConnectBlock (cs_store st) h = Connected s u ->
  exists st', ConnectTip st h = Some (st', TipConnected) /\ chain_ok st' h top /\ face_eq (index_of st) (index_of st') /\
    setBlockIndexCandidates st' = setBlockIndexCandidates st.
Proof.
  intros Hok Hn Ep Hcl Hcon. set (n1 := ConnectEntry (cs_store st) h n). assert (bi_pprev n1 = Some t) as Ep1.
  { pose proof (entry_core (cs_store st) h n) as Ec%core_prev. fold n1 in Ec. congruence. }
  destruct (record_connected st h n n1 u Hn (entry_core _ _ _) (entry_status _ _ _)) as (st1 & E1 & He & Rc & Rs & Ri & Ru).
  pose proof (face_eq_core _ _ He) as Hc. pose proof (core_eq_sym _ _ Hc) as Hc'.
  destruct (core_eq_lookup _ _ h n Hc Hn) as (n2 & Hn2 & _). pose proof (core_tree _ _ Hc (ck_tree _ _ _ Hok)) as Hwf1.
  destruct (SetTip_chain (index_of st1) (m_chain st1) t h n2 Hwf1) as (c & Hset & Hchain); [right; rewrite Rc; exact (core_chain_of _ _ Hc _ _ (ck_chain _ _ _ Hok))|done|].
  unfold ConnectTip. rewrite Hn. cbn [mbind option_bind]. rewrite (ck_tip _ _ _ Hok), Ep, bool_decide_eq_true_2 by done. cbn [negb]. rewrite Hcon. fold n1.
  rewrite Ep1, bool_decide_eq_false_2 by done. rewrite E1. cbn [mbind option_bind]. rewrite Hset. cbn [mbind option_bind]. eexists. split; [done|].
  split; [|split; [exact He|exact Rs]].
  assert (replays (index_of st) h s) as Hrep by (apply (replays_step _ h n t (cs_store st) s u Hn Ep (ck_store _ _ _ Hok) Hcon)).
  pose proof (anc_prev _ h n t Hn Ep) as Hth.
  destruct Hok as [H1 H2 H3 H4 H5 H6 H7 H8 H9 H10 H11 H12 H13 H14 H15 H16 H17]. pose proof (face_eq_sym _ _ He) as He'. split; try exact Hwf1; try exact Hchain.
  - by apply (rooted_core _ _ Hc).
  - intros y ny Hy Ey. destruct (core_eq_lookup _ _ y ny Hc' Hy) as (ny' & Hy' & Ec). apply (H3 y ny' Hy'). apply core_prev in Ec; congruence.
  - by apply (core_works _ _ Hc).
  - by apply (core_work_grows _ _ Hc).
  - intros y Hy. cbn in Hy. rewrite Rs in Hy. destruct (H6 y Hy) as [D1 D2]. split; [by apply (core_is_Some _ _ Hc)|by apply (downloaded_core _ _ _ Hc)].
  - by apply (face_eq_clean _ _ _ He).
  - by apply (replays_core _ _ _ _ Hc).
  - intros y uy Hy ny p sy Hny Eny Hr. cbn in Hy. apply (replays_core _ _ _ _ Hc') in Hr. destruct (core_eq_lookup _ _ y ny Hc' Hny) as (ny' & Hny' & Ec).
    assert (bi_pprev ny' = Some p) as Eny' by (apply core_prev in Ec; congruence).
    rewrite Ru in Hy. destruct (cs_undo st !! h) eqn:Eu; [by apply (H10 y uy Hy ny' p sy)|]. apply lookup_insert_Some in Hy as [[<- <-]|[_ Hy]]; [|by apply (H10 y uy Hy ny' p sy)].
    rewrite Hn in Hny'. injection Hny' as <-. rewrite Ep in Eny'. injection Eny' as <-. rewrite (replays_det _ _ _ H2 H9 _ Hr). by exists s.
  - intros y ny Ha Hny Eny. cbn. rewrite Ru. destruct (core_eq_lookup _ _ y ny Hc' Hny) as (ny' & Hny' & Ec).
    assert (bi_pprev ny' <> None) as Eny' by (apply core_prev in Ec; congruence). apply (core_anc _ _ Hc) in Ha.
    destruct (decide (y = h)) as [->|Hne]; [destruct (cs_undo st !! h) eqn:Eu; [by rewrite Eu|by rewrite lookup_insert_eq]|].
    destruct (H11 y ny' (anc_proper _ y h n t Hn Ep Ha Hne) Hny' Eny') as [uy Huy]. destruct (cs_undo st !! h); [by rewrite Huy|by rewrite lookup_insert_ne by done].
  - intros y ny Hny Hf sy Hr. destruct (face_eq_lookup _ _ y ny He' Hny) as (ny' & Hny' & E). apply face_fields in E as (_ & E & _).
    apply (H12 y ny' Hny' ltac:(congruence) sy). by apply (replays_core _ _ _ _ Hc').
  - intros b Hb. cbn in Hb. rewrite Ri in Hb. by apply (core_is_Some _ _ Hc), H13.
  - by apply (core_is_Some _ _ Hc).
  - by apply (face_eq_clean _ _ _ He).
  - destruct H16 as [sx Hs]. exists sx. by apply (replays_core _ _ _ _ Hc).
  - intros y Hy Hg Hrk. change (y ∈ setBlockIndexCandidates st1). rewrite Rs. apply (core_is_Some _ _ Hc) in Hy.
    apply (H17 y Hy); [by apply (face_eq_good _ _ _ He')|]. by rewrite !(core_rank _ _ Hc addr).
Qed.

(** A block that does not is marked as failed, and is no candidate any more. *)
Lemma ConnectTip_invalid st t top h n : chain_ok st t top -> index_of st !! h = Some n -> bi_pprev n = Some t -> failed n = false ->
  ConnectBlock (cs_store st) h = ConnectInvalid OTHER_REASON ->
  exists st', ConnectTip st h = Some (st', TipInvalid OTHER_REASON) /\ chain_ok st' t top /\ evolves (index_of st) (index_of st') /\
    (size (live (index_of st')) < size (live (index_of st)))%nat.
Proof.
  intros Hok Hn Ep Hf Hcon. set (n1 := ConnectEntry (cs_store st) h n). pose proof (entry_core (cs_store st) h n) as Ec. pose proof (entry_status (cs_store st) h n) as Es. fold n1 in Ec, Es.
  unfold ConnectTip. rewrite Hn. cbn [mbind option_bind]. rewrite (ck_tip _ _ _ Hok), Ep, bool_decide_eq_true_2 by done. cbn [negb]. rewrite Hcon. fold n1.
  unfold InvalidBlockFound. change (is_plain_invalid OTHER_REASON) with true. cbv iota. rewrite (store_insert_eq (index_of st) h n1 : index_of (put_node st h n1) !! h = Some n1). cbn [mbind option_bind].
  set (st1 := erase_candidate _ h).
  assert (index_of st1 = <[h := add_status n1 BLOCK_FAILED_VALID]> (index_of st)) as I1 by exact (insert_insert_eq (M := gmap uint256) (index_of st) h _ _).
  assert (evolves (index_of st) (index_of st1)) as He1.
  { rewrite I1. unfold failed, conflicting, have_data in *.
    apply (evolves_insert _ h n); [done|done|unfold have_data; by rewrite add_status_keeps, Es|unfold failed in *; congruence| |left];
      unfold conflicting; by rewrite add_status_keeps, Es. }
  assert (failed (add_status n1 BLOCK_FAILED_VALID) = true) as Hf1 by (unfold failed; rewrite add_status_bits; apply orb_true_r).
  assert (forall b, pindexBestInvalid st1 = Some b -> is_Some (index_of st1 !! b)) as Hb1 by (intros b Hb; apply (core_is_Some _ _ (ev_core _ _ He1)), (ck_invalid _ _ _ Hok), Hb).
  destruct (better_invalid_spec st1 h) as (st2 & E2 & I2 & C2 & R2 & B2); [rewrite I1, store_insert_eq; by eexists|done|].
  unfold InvalidChainFound. rewrite E2. cbn [mbind option_bind]. destruct R2 as (Q1 & Q2 & Q3). rewrite Q1.
  change (m_chain st1) with (m_chain st). rewrite (ck_tip _ _ _ Hok). cbn [mbind option_bind]. exists st2. split; [done|]. rewrite I2.
  split; [|split; [done|]]; cycle 1.
  { apply (live_shrinks _ _ h n (add_status n1 BLOCK_FAILED_VALID)); [done..|by rewrite I1, store_insert_eq|done]. }
  assert (forall y, y ∈ setBlockIndexCandidates st2 <-> y ∈ setBlockIndexCandidates st /\ y <> h) as Hcs by (intros y; rewrite C2; unfold st1; by rewrite erase_candidates).
  apply (chain_ok_evolves st st2 t top Hok); rewrite ?I2; [done|done| | |by rewrite <-I2| |].
  - intros y Hy%Hcs. rewrite I2. destruct Hy as [Hy _]. destruct (ck_cands _ _ _ Hok y Hy) as [D1 D2].
    split; [by apply (core_is_Some _ _ (ev_core _ _ He1))|by apply (downloaded_core _ _ _ (ev_core _ _ He1))].
  - intros y ny Hy Hfy s Hr. rewrite I1 in Hy. destruct (decide (y = h)) as [->|Hne].
    + destruct (replays_inv _ h n t s (ck_rooted _ _ _ Hok) Hn Ep Hr) as (s1 & u & Hs1 & Hc1). by rewrite (replays_det _ _ _ (ck_rooted _ _ _ Hok) (ck_store _ _ _ Hok) _ Hs1), Hcon in Hc1.
    + rewrite store_insert_ne in Hy by done. exact (ck_failed _ _ _ Hok y ny Hy Hfy s Hr).
  - intros y Hy [_ Hu] Hin. apply Hcs. split; [done|]. intros ->. rewrite (Hu h (add_status n1 BLOCK_FAILED_VALID) (anc_refl _ _)) in Hf1; [done|]. by rewrite I1, store_insert_eq.
  - intros y [Hcl Hu]. split; [by apply (ev_clean _ _ He1)|]. intros a na Ha Hna. destruct (core_eq_lookup _ _ a na (ev_core _ _ He1) Hna) as (na' & Hna' & _).
    destruct (failed na) eqn:Ef; [|done]. rewrite <-(Hu a na' (proj1 (core_anc _ _ (ev_core _ _ He1) a y) Ha) Hna'). symmetry. by apply (ev_failed _ _ He1 a na na').
Qed.

(** ** The target: the best candidate, which can be used *)
Record target (st : CState) (mw : uint256) : Prop := {
  tg_cand : mw ∈ setBlockIndexCandidates st;
  tg_good : good (index_of st) mw;
  tg_max : forall x, x ∈ setBlockIndexCandidates st -> ~ rank_lt (cand_rank addr (index_of st) mw) (cand_rank addr (index_of st) x) }.

Lemma target_face st st' mw : face_eq (index_of st) (index_of st') -> setBlockIndexCandidates st' = setBlockIndexCandidates st -> target st mw -> target st' mw.
Proof.
  intros He Ec [H1 H2 H3]. split; rewrite ?Ec; [done|by apply (face_eq_good _ _ _ He)|]. intros x Hx. rewrite <-!(core_rank _ _ (face_eq_core _ _ He) addr). by apply H3.
Qed.

(** Pruning keeps the target, and the tip becomes the best block that was one. *)
Lemma prune_ok st t top mw : chain_ok st t top -> target st mw -> anc (index_of st) t mw ->
  exists st' top', PruneBlockIndexCandidates addr st = Some st' /\ chain_ok st' t top' /\ target st' mw /\ index_of st' = index_of st /\ m_chain st' = m_chain st.
Proof.
  intros Hok [Hmw Hg Hmax] Ha. destruct (ck_cands _ _ _ Hok mw Hmw) as [[nmw Hnmw] _].
  pose proof (anc_not_before addr _ t mw nmw (ck_tree _ _ _ Hok) (ck_grows _ _ _ Hok) Hnmw Ha) as Hle. pose proof (ck_chain _ _ _ Hok) as (nt & Hnt & _).
  destruct (PruneBlockIndexCandidates_spec addr st t nt mw (ck_works _ _ _ Hok) (fun x Hx => proj1 (ck_cands _ _ _ Hok x Hx)) (ck_tip _ _ _ Hok) Hnt Hmw Hle) as (c & Ec & Hc).
  set (top' := if decide (rank_lt (cand_rank addr (index_of st) top) (cand_rank addr (index_of st) t)) then t else top).
  assert (~ rank_lt (cand_rank addr (index_of st) top') (cand_rank addr (index_of st) t) /\ ~ rank_lt (cand_rank addr (index_of st) top') (cand_rank addr (index_of st) top)) as [Ht1 Ht2].
  { subst top'. case_decide as Hd; split; [apply rank_lt_irrefl| |done|apply rank_lt_irrefl]. intros H. by apply (rank_lt_irrefl (cand_rank addr (index_of st) top)), (rank_lt_trans _ _ _ Hd). }
  exists (with_cands st c), top'. split; [done|]. split; [|split; [split; [by apply Hc|done|intros x [Hx _]%Hc; by apply Hmax]|done]].
  destruct Hok as [H1 H2 H3 H4 H5 H6 H7 H8 H9 H10 H11 H12 H13 H14 H15 H16 H17]. split; try done.
  - intros y [Hy _]%Hc. by apply H6.
  - subst top'. case_decide; [by eexists|done].
  - subst top'. by case_decide.
  - subst top'. case_decide; [by eexists|done].
  - intros y Hy Hgy Hrk. apply Hc. split; [apply H17; [done|done|]|]; by apply (rank_le_trans _ (cand_rank addr (index_of st) top') _).
Qed.

(** Only the entry of a block on which ConnectBlock returns an error is written. *)
Lemma chain_ok_face st st' t top : chain_ok st t top -> face_eq (index_of st) (index_of st') -> same_rest st st' ->
  setBlockIndexCandidates st' = setBlockIndexCandidates st -> pindexBestInvalid st' = pindexBestInvalid st -> chain_ok st' t top.
Proof.
  intros Hok He R C B. pose proof (face_eq_core _ _ He) as Hc. apply (chain_ok_evolves st st' t top Hok); [by apply face_eq_evolves|done| | | |by rewrite C|].
  - intros y Hy. rewrite C in Hy. destruct (ck_cands _ _ _ Hok y Hy). split; [by apply (core_is_Some _ _ Hc)|by apply (downloaded_core _ _ _ Hc)].
  - intros h n' Hn' Hf. destruct (face_eq_lookup _ _ h n' (face_eq_sym _ _ He) Hn') as (n & Hn & E). apply face_fields in E as (_ & E & _).
    apply (ck_failed _ _ _ Hok h n Hn). congruence.
  - intros b Hb. rewrite B in Hb. by apply (core_is_Some _ _ Hc), (ck_invalid _ _ _ Hok).
  - intros h. apply face_eq_good. by apply face_eq_sym.
Qed.

Lemma ConnectTip_error st t top h n : chain_ok st t top -> index_of st !! h = Some n -> bi_pprev n = Some t -> ConnectBlock (cs_store st) h = ConnectError ->
  exists st', ConnectTip st h = Some (st', TipError) /\ chain_ok st' t top /\ face_eq (index_of st) (index_of st') /\
    setBlockIndexCandidates st' = setBlockIndexCandidates st /\ cs_store st' = cs_store st.
Proof.
  intros Hok Hn Ep Hcon. set (n1 := ConnectEntry (cs_store st) h n).
  assert (face_eq (index_of st) (index_of (put_node st h n1))) as Hf.
  { apply (face_eq_insert _ h n _ Hn). unfold face, failed, conflicting, have_data, n1. by rewrite entry_core, entry_status. }
  unfold ConnectTip. rewrite Hn. cbn [mbind option_bind]. rewrite (ck_tip _ _ _ Hok), Ep, bool_decide_eq_true_2 by done. cbn [negb]. rewrite Hcon. fold n1.
  eexists. split; [done|]. split; [by apply (chain_ok_face st)|done].
Qed.

(** ** A step towards the target, when no block asks for a retry *)
Context (Hplain : forall s h, store_ok s ->
  (exists s' u, ConnectBlock s h = Connected s' u) \/ ConnectBlock s h = ConnectInvalid OTHER_REASON \/ ConnectBlock s h = ConnectError).

(** The chain is consistent, and ConnectBlock returns an error on the next block on the
    way to the best candidate. *)
Definition errored (st : CState) : Prop := exists t top mw h n,
  chain_ok st t top /\ target st mw /\ index_of st !! h = Some n /\ bi_pprev n = Some t /\ anc (index_of st) h mw /\
  ConnectBlock (cs_store st) h = ConnectError.

(** An invalid block was found on the way. *)
Definition set_back (st st' : CState) : Prop :=
  (exists t' top', chain_ok st' t' top') /\ (size (live (index_of st')) < size (live (index_of st)))%nat.

(** The tip is [t'], on the way to the target. *)
Definition advanced (st' : CState) (t' mw : uint256) : Prop :=
  (exists top', chain_ok st' t' top') /\ target st' mw /\ anc (index_of st') t' mw.

Lemma set_back_evolves st st1 st' : evolves (index_of st) (index_of st1) -> set_back st1 st' -> set_back st st'.
Proof. intros He [H1 H2]. split; [done|]. pose proof (subseteq_size _ _ (live_evolves _ _ He)). lia. Qed.

Lemma connect_blocks_spec old mw l : forall st t top,
  chain_ok st t top -> target st mw -> is_Some (index_of st !! old) -> path (index_of st) t l -> anc (index_of st) (path_end t l) mw ->
  exists st' r, connect_blocks addr (Some old) st l = Some (st', r) /\ evolves (index_of st) (index_of st') /\
    match r with
    | RoundDone => advanced st' (path_end t l) mw
    | RoundStop => exists t', advanced st' t' mw /\ hgt (index_of st) t < hgt (index_of st) t'
    | RoundInvalid reason => reason = OTHER_REASON /\ set_back st st'
    | RoundError => errored st'
    end.
Proof.
  induction l as [|h l IH]; intros st t top Hok Htg Hold Hp Ha; cbn [connect_blocks].
  { exists st, RoundDone. split; [done|]. split; [apply evolves_refl|]. split; [by exists top|done]. }
  destruct Hp as [(n & Hn & Ep) Hp]. rewrite path_end_cons in Ha |- *. pose proof (anc_trans _ _ _ _ (path_anc _ _ _ Hp) Ha) as Hhm.
  destruct (good_anc _ h mw (tg_good _ _ Htg) Hhm) as [Hcl Huf]. pose proof (hgt_prev _ h n t (ck_tree _ _ _ Hok) Hn Ep) as [_ Eh].
  destruct (Hplain (cs_store st) h (replays_ok _ _ _ (ck_store _ _ _ Hok))) as [(s & u & Hc)|[Hc|Hc]].
  - destruct (ConnectTip_connected st t top h n s u Hok Hn Ep Hcl Hc) as (st1 & -> & Hok1 & He1 & C1). cbn [mbind option_bind].
    pose proof (face_eq_core _ _ He1) as Hc1.
    destruct (prune_ok st1 h top mw Hok1 (target_face st st1 mw He1 C1 Htg)) as (st2 & top2 & -> & Hok2 & Htg2 & I2 & M2); [by apply (core_anc _ _ Hc1)|]. cbn [mbind option_bind].
    rewrite M2, (ck_tip _ _ _ Hok1). cbn [mbind option_bind]. rewrite I2.
    destruct (core_eq_lookup _ _ h n Hc1 Hn) as (n1 & -> & _). destruct Hold as [no Hno]. destruct (core_eq_lookup _ _ old no Hc1 Hno) as (no1 & Hno1 & _). rewrite Hno1. cbn [mbind option_bind].
    destruct (arith_gt _ _).
    + exists st2, RoundStop. split; [done|]. rewrite I2. split; [by apply face_eq_evolves|]. exists h. split; [|lia]. split; [by exists top2|]. split; [done|].
      rewrite I2. by apply (core_anc _ _ Hc1).
    + destruct (IH st2 h top2 Hok2 Htg2) as (st' & r & E' & He' & Hr); rewrite ?I2; [by eexists|by apply (path_core _ _ _ Hc1)|by apply (core_anc _ _ Hc1)|].
      exists st', r. split; [done|]. rewrite I2 in He'. split; [eapply evolves_trans; [by apply face_eq_evolves|done]|]. destruct r; [done| | |done].
      * destruct Hr as (t' & Hadv & Hlt). exists t'. split; [done|]. rewrite I2, <-!(core_hgt _ _ _ Hc1) in Hlt. lia.
      * destruct Hr as [-> Hsb]. split; [done|]. apply (set_back_evolves st st2); [|done]. rewrite I2. by apply face_eq_evolves.
  - destruct (ConnectTip_invalid st t top h n Hok Hn Ep (Huf h n (anc_refl _ _) Hn) Hc) as (st1 & -> & Hok1 & He1 & Hlive). cbn [mbind option_bind].
    exists st1, (RoundInvalid OTHER_REASON). split; [done|]. split; [done|]. split; [done|]. split; [by exists t, top|done].
  - destruct (ConnectTip_error st t top h n Hok Hn Ep Hc) as (st1 & -> & Hok1 & He1 & C1 & S1). cbn [mbind option_bind].
    pose proof (face_eq_core _ _ He1) as Hc1. exists st1, RoundError. split; [done|]. split; [by apply face_eq_evolves|].
    destruct (core_eq_lookup _ _ h n Hc1 Hn) as (n1 & Hn1 & Ec%core_prev). exists t, top, mw, h, n1. split; [done|]. split; [by apply (target_face st)|].
    split; [done|]. split; [congruence|]. split; [by apply (core_anc _ _ Hc1)|]. by rewrite S1.
Qed.

(** vpindexToConnect, read from its end, is the path up to its first block. *)
Lemma to_connect_spec m fuel : forall t nt h n, tree_wf m -> m !! t = Some nt -> m !! h = Some n -> anc m t h -> (Z.to_nat (bi_nHeight n - bi_nHeight nt) < fuel)%nat ->
  exists l, to_connect m fuel (Some h) (bi_nHeight nt) = Some l /\ path m t (reverse l) /\ path_end t (reverse l) = h /\ head (l ++ [t]) = Some h.
Proof.
  induction fuel as [|fuel IH]; intros t nt h n Hwf Ht Hn Ha Hf; [lia|]. cbn [to_connect]. rewrite Hn. cbn [mbind option_bind].
  destruct (anc_height m t h n Hwf Hn Ha) as (nt' & Ht' & Hle). rewrite Ht in Ht'. injection Ht' as <-. destruct (Z.eqb_spec (bi_nHeight n) (bi_nHeight nt)) as [E|Hne].
  - exists []. split; [done|]. rewrite (anc_same_height m t h nt n Hwf Hn Ht (eq_sym E) Ha). done.
  - destruct (bi_pprev n) as [p|] eqn:Ep; [|pose proof (nw_height _ _ _ (Hwf t nt Ht)); rewrite (nw_root _ _ _ (Hwf h n Hn) Ep) in *; lia].
    destruct (nw_prev _ _ _ (Hwf h n Hn) p Ep) as (np & Hp & Eh).
    destruct (IH t nt p np Hwf Ht Hp) as (l & -> & Hpath & Hend & _); [apply (anc_proper m t h n p Hn Ep Ha); congruence|lia|]. cbn [mbind option_bind].
    exists (h :: l). split; [done|]. rewrite reverse_cons. split; [apply (path_snoc m _ h n); [done..|by rewrite Hend]|]. split; [|done].
    unfold path_end. by rewrite last_snoc.
Qed.

Lemma InvalidChainFound_ok st t top h : chain_ok st t top -> is_Some (index_of st !! h) ->
  exists st', InvalidChainFound st h = Some st' /\ chain_ok st' t top /\ index_of st' = index_of st.
Proof.
  intros Hok Hh. destruct (better_invalid_spec st h Hh (ck_invalid _ _ _ Hok)) as (st' & E & I & C & R & B). unfold InvalidChainFound. rewrite E. cbn [mbind option_bind].
  destruct (R) as (R1 & _). rewrite R1, (ck_tip _ _ _ Hok). cbn [mbind option_bind]. exists st'. split; [done|]. split; [|done].
  apply (chain_ok_evolves st st' t top Hok); rewrite ?I; [apply evolves_refl|done| |apply (ck_failed _ _ _ Hok)|by rewrite <-I|by rewrite C|done].
  intros y Hy. rewrite C in Hy. rewrite I. exact (ck_cands _ _ _ Hok y Hy).
Qed.

Lemma connect_rounds_spec old mw fuel : forall st t top nt,
  chain_ok st t top -> target st mw -> is_Some (index_of st !! old) -> anc (index_of st) t mw -> index_of st !! t = Some nt ->
  (Z.to_nat (hgt (index_of st) mw - bi_nHeight nt) <= fuel)%nat ->
  exists st' ok inv, connect_rounds addr fuel (Some old) mw st (bi_nHeight nt) = Some (st', ok, inv) /\ evolves (index_of st) (index_of st') /\
    if negb ok then errored st' else if inv : bool then set_back st st'
    else exists t', advanced st' t' mw /\ (t = mw /\ t' = mw \/ hgt (index_of st) t < hgt (index_of st) t').
Proof.
  induction fuel as [|fuel IH]; intros st t top nt Hok Htg Hold Ha Hnt Hf; pose proof (ck_tree _ _ _ Hok) as Hwf;
    destruct (ck_cands _ _ _ Hok mw (tg_cand _ _ Htg)) as [[nmw Hnmw] _]; rewrite (hgt_some _ mw nmw Hnmw) in Hf;
    cbn [connect_rounds]; rewrite Hnmw; cbn [mbind option_bind]; destruct (anc_height _ t mw nmw Hwf Hnmw Ha) as (nt' & Hnt' & Hle);
    rewrite Hnt in Hnt'; injection Hnt' as <-; (destruct (Z.eqb_spec (bi_nHeight nt) (bi_nHeight nmw)) as [E|Hne];
    [pose proof (anc_same_height _ t mw nt nmw Hwf Hnmw Hnt E Ha) as ->; exists st, true, false; split; [done|]; split; [apply evolves_refl|]; exists mw;
     split; [split; [by exists top|done]|by left]|]); [lia|].
  pose proof (nw_height _ _ _ (Hwf t nt Hnt)). set (k := Z.min (bi_nHeight nt + 32) (bi_nHeight nmw)).
  destruct (GetAncestor_some _ mw nmw k Hwf Hnmw ltac:(lia)) as (x & nx & -> & Hwalk & Hnx & Ex). cbn [mbind option_bind].
  assert (anc (index_of st) x mw) as Hxm by (by eexists). pose proof (anc_lower _ t x mw nmw nt nx Hwf Hnmw Ha Hxm Hnt Hnx ltac:(lia)) as Htx.
  destruct (to_connect_spec (index_of st) 33 t nt x nx Hwf Hnt Hnx Htx ltac:(lia)) as (l & -> & Hp & Hend & Hhead). cbn [mbind option_bind].
  destruct (connect_blocks_spec old mw (reverse l) st t top Hok Htg Hold Hp ltac:(by rewrite Hend)) as (st1 & r & -> & He1 & Hr). cbn [mbind option_bind].
  pose proof (ev_core _ _ He1) as Hc1. destruct (core_eq_lookup _ _ x nx Hc1 Hnx) as (nx1 & Hnx1 & _).
  assert (bi_nHeight nx1 = k) as Ek by (rewrite <-(hgt_some _ _ _ Hnx1), <-(core_hgt _ _ _ Hc1), (hgt_some _ _ _ Hnx); done). destruct r as [| |reason|]; [| | |by exists st1, false, false].
  - rewrite Hend in Hr. destruct Hr as ((top1 & Hok1) & Htg1 & Ha1).
    destruct (IH st1 x top1 nx1 Hok1 Htg1) as (st' & ok & inv & E' & He' & Hr'); [by apply (core_is_Some _ _ Hc1)|done|done|rewrite <-(core_hgt _ _ _ Hc1), (hgt_some _ _ _ Hnmw); lia|].
    rewrite Ek in E'. exists st', ok, inv. split; [done|]. split; [by eapply evolves_trans|]. destruct ok; [|done]. cbn [negb] in *. destruct inv; [by apply (set_back_evolves st st1)|].
    destruct Hr' as (t' & Hadv & Hlt). exists t'. split; [done|]. right. rewrite (hgt_some _ t nt Hnt). rewrite <-!(core_hgt _ _ _ Hc1), (hgt_some _ _ _ Hnx) in Hlt.
    destruct Hlt as [[-> ->]|Hlt]; [rewrite (hgt_some _ _ _ Hnx)|]; lia.
  - destruct Hr as (t' & Hadv & Hlt). exists st1, true, false. split; [done|]. split; [done|]. exists t'. split; [done|]. by right.
  - destruct Hr as [-> [(t1 & top1 & Hok1) Hlive]]. change (is_plain_invalid OTHER_REASON) with true. cbv iota.
    assert (head l = Some x) as ->. { destruct l as [|y l]; [injection Hhead as ->; rewrite Hnt in Hnx; injection Hnx as <-; lia|done]. }
    cbn [mbind option_bind]. destruct (InvalidChainFound_ok st1 t1 top1 x Hok1) as (st' & -> & Hok' & I'); [by eexists|]. cbn [mbind option_bind].
    rewrite bool_decide_eq_false_2 by done. exists st', true, true. split; [done|]. cbn [negb]. unfold set_back. rewrite I'. split; [done|]. split; [by exists t1, top1|done].
Qed.

(** ** How far the target is *)

(** The blocks from the fork to the target, and one more as long as it is not the tip. *)
Definition way (st : CState) (mw : uint256) : nat :=
  match FindFork (index_of st) (m_chain st) (Some mw) with
  | Some (Some f) => (Z.to_nat (hgt (index_of st) mw - hgt (index_of st) f) + if decide (Tip (m_chain st) = Some mw) then 0 else 1)%nat
  | _ => 0%nat
  end.

Lemma ck_fork st t top mw : chain_ok st t top -> is_Some (index_of st !! mw) ->
  exists f, FindFork (index_of st) (m_chain st) (Some mw) = Some (Some f) /\ meets (index_of st) f mw t.
Proof. intros Hok [n Hn]. exact (FindFork_meets _ g (ck_tree _ _ _ Hok) (ck_root _ _ _ Hok) t _ mw n (ck_chain _ _ _ Hok) Hn). Qed.

Lemma meets_lower m f t mw nt : tree_wf m -> m !! t = Some nt -> meets m f mw t -> anc m t mw -> f = t.
Proof.
  intros Hwf Hnt (_ & Hft & Hmax) Ha. destruct (anc_height _ f t nt Hwf Hnt Hft) as (nf & Hnf & Hle).
  destruct (anc_height _ t f nf Hwf Hnf) as (nt' & Hnt' & Hle'); [by apply Hmax; [|apply anc_refl]|].
  rewrite Hnt in Hnt'. injection Hnt' as <-. apply (anc_same_height _ f t nf nt Hwf Hnt Hnf); [lia|done].
Qed.

Lemma advanced_way st t mw : advanced st t mw -> way st mw = (Z.to_nat (hgt (index_of st) mw - hgt (index_of st) t) + if decide (t = mw) then 0 else 1)%nat.
Proof.
  intros ((top & Hok) & Htg & Ha). destruct (ck_fork st t top mw Hok (proj1 (ck_cands _ _ _ Hok mw (tg_cand _ _ Htg)))) as (f & Ef & Hmeets).
  pose proof (ck_chain _ _ _ Hok) as (nt & Hnt & _). pose proof (ck_tree _ _ _ Hok) as Hwf.
  pose proof (meets_lower _ f t mw nt Hwf Hnt Hmeets Ha) as ->.
  unfold way. rewrite Ef, (ck_tip _ _ _ Hok). f_equal. destruct (decide (t = mw)) as [->|Hne]; [by rewrite decide_True|rewrite decide_False by congruence; done].
Qed.

Lemma way_bound st t top mw : chain_ok st t top -> is_Some (index_of st !! mw) -> (way st mw <= size (index_of st : gmap uint256 CBlockIndexNode))%nat.
Proof.
  intros Hok [n Hn]. destruct (ck_fork st t top mw Hok ltac:(by eexists)) as (f & Ef & Hfm & _). pose proof (ck_tree _ _ _ Hok) as Hwf.
  pose proof (height_size _ mw n Hwf Hn). destruct (anc_height _ f mw n Hwf Hn Hfm) as (nf & Hnf & _). pose proof (nw_height _ _ _ (Hwf f nf Hnf)).
  unfold way. rewrite Ef, (hgt_some _ mw n Hn), (hgt_some _ f nf Hnf). case_decide; lia.
Qed.

(** One step: an invalid block is found, or the target comes nearer. *)
Lemma ActivateBestChainStep_spec st t top mw : chain_ok st t top -> target st mw -> t <> mw ->
  exists st' ok inv, ActivateBestChainStep addr st mw = Some (st', ok, inv) /\ evolves (index_of st) (index_of st') /\
    if negb ok then errored st' else if inv : bool then set_back st st' else exists t', advanced st' t' mw /\ (way st' mw < way st mw)%nat.
Proof.
  intros Hok Htg Hne. destruct (ck_cands _ _ _ Hok mw (tg_cand _ _ Htg)) as [[nmw Hnmw] _]. pose proof (ck_tree _ _ _ Hok) as Hwf.
  destruct (ck_fork st t top mw Hok ltac:(by eexists)) as (f & Ef & Hfm & Hft & _). pose proof (ck_chain _ _ _ Hok) as (nt & Hnt & Hlen & _).
  destruct (anc_height _ f mw nmw Hwf Hnmw Hfm) as (nf & Hnf & Hle).
  unfold ActivateBestChainStep. rewrite Ef. cbn [mbind option_bind].
  destruct (disconnect_loop_spec (length (m_chain st)) st t top nt f nf Hok Hnt Hnf Hft ltac:(lia)) as (st1 & -> & Hok1 & I1 & C1). cbn [mbind option_bind negb].
  rewrite I1, Hnf. cbn [mbind option_bind]. rewrite Hnmw. cbn [mbind option_bind]. rewrite (ck_tip _ _ _ Hok).
  assert (target st1 mw) as Htg1 by (destruct Htg as [T1 T2 T3]; split; rewrite ?I1, ?C1; done).
  destruct (connect_rounds_spec t mw (Z.to_nat (bi_nHeight nmw - bi_nHeight nf)) st1 f top nf Hok1 Htg1) as (st' & ok & inv & E & He & Hr);
    rewrite ?I1; [by eexists|done|done|by rewrite (hgt_some _ _ _ Hnmw)|]. rewrite I1 in He, Hr.
  exists st', ok, inv. split; [done|]. split; [done|]. destruct ok; [|done]. cbn [negb] in *. destruct inv; [unfold set_back in *; by rewrite I1 in Hr|]. destruct Hr as (t' & Hadv & Hlt). exists t'. split; [done|].
  rewrite (advanced_way _ _ _ Hadv), <-!(core_hgt _ _ _ (ev_core _ _ He)). unfold way. rewrite Ef, (ck_tip _ _ _ Hok), (decide_False (P := Some t = Some mw)) by congruence.
  destruct Hlt as [[-> ->]|Hlt]; [rewrite decide_True by done; lia|]. destruct Hadv as (_ & _ & Ha'). apply (core_anc _ _ (ev_core _ _ He)) in Ha'.
  destruct (anc_height _ t' mw nmw Hwf Hnmw Ha') as (nt' & Hnt' & Hle'). rewrite (hgt_some _ t' nt' Hnt'), (hgt_some _ mw nmw Hnmw) in *.
  destruct (decide (t' = mw)) as [->|]; lia.
Qed.

(** The search for the target keeps the invariant, and finds one. *)
Lemma FindMostWorkChain_ok st t top : chain_ok st t top ->
  exists st' mw, FindMostWorkChain addr st = Some (st', Some mw) /\ chain_ok st' t top /\ target st' mw /\ evolves (index_of st) (index_of st') /\
    same_rest st st' /\ (forall y, good (index_of st) y <-> good (index_of st') y) /\
    (forall y, y ∈ setBlockIndexCandidates st' -> y ∈ setBlockIndexCandidates st) /\
    (forall y, y ∈ setBlockIndexCandidates st -> good (index_of st) y -> y ∈ setBlockIndexCandidates st').
Proof.
  intros Hok. assert (search_ok st t) as Hs.
  { split; [exact (ck_tree _ _ _ Hok)|exact (ck_works _ _ _ Hok)|exact (ck_chain _ _ _ Hok)|by eapply tip_good|exact (ck_cands _ _ _ Hok)|exact (ck_invalid _ _ _ Hok)]. }
  destruct (most_work_spec addr _ st t Hs (le_n _)) as (st' & r & E & Hs' & R & He & Hi & Hsub & Hkeep & Hr). pose proof (ev_core _ _ He) as Hc.
  assert (chain_ok st' t top) as Hok'.
  { apply (chain_ok_evolves st st' t top Hok He R); [exact (so_cands _ _ Hs')| |exact (so_invalid _ _ Hs')| |].
    - intros h n Hh Hf s Hrep. destruct (Hi h n Hh Hf) as (x & nx & Hx & Hnx & Hfx).
      destruct (replays_anc _ _ _ (ck_rooted _ _ _ Hok) Hrep x Hx) as [sx Hsx]. exact (ck_failed _ _ _ Hok x nx Hnx Hfx sx Hsx).
    - intros h _ Hg Hin. apply Hkeep; [done|]. by apply (good_evolves st st' h He Hi).
    - intros h. apply (good_evolves st st' h He Hi). }
  destruct r as [mw|]; [|pose proof (top_cand _ _ _ Hok') as Hin; rewrite Hr in Hin; by apply not_elem_of_empty in Hin].
  destruct Hr as (Hin & Hg & Hmax). exists st', mw. split; [done|]. split; [done|]. split; [by split|]. split; [done|]. split; [done|].
  split; [|done]. intros y. exact (good_evolves st st' y He Hi).
Qed.

(** ** The loops *)
Definition blocks_of (st : CState) : nat := size (index_of st : gmap uint256 CBlockIndexNode).

Lemma core_blocks (st st' : CState) : core_eq (index_of st) (index_of st') -> blocks_of st' = blocks_of st.
Proof.
  intros He. unfold blocks_of. rewrite <-!size_dom. f_equal. apply leibniz_equiv. intros h. rewrite !elem_of_dom. symmetry. by apply core_is_Some.
Qed.

(** What the loops use up: blocks that can still fail, then the way to the target. *)
Definition steps_left (a : Activation) : nat :=
  (size (live (index_of (ab_state a))) * (blocks_of (ab_state a) + 2) +
   match ab_MostWork a with Some mw => way (ab_state a) mw | None => blocks_of (ab_state a) + 1 end)%nat.

Lemma live_blocks (st : CState) : (size (live (index_of st)) <= blocks_of st)%nat.
Proof. unfold blocks_of. rewrite <-size_dom. apply subseteq_size. intros h (n & Hn & _)%elem_of_live. apply elem_of_dom. by exists n. Qed.

Record running (a : Activation) (t top : uint256) : Prop := {
  ru_chain : chain_ok (ab_state a) t top;
  ru_target : forall mw, ab_MostWork a = Some mw -> target (ab_state a) mw;
  ru_ok : ab_ok a = true;
  ru_tip : ab_connected a = true -> ab_NewTip a = Some t }.

(** The start of a round: the target is looked for when there is none. *)
Lemma round_start a t top : running a t top ->
  exists st mw, match ab_MostWork a with None => FindMostWorkChain addr (ab_state a) | Some h => Some (ab_state a, Some h) end = Some (st, Some mw) /\
    chain_ok st t top /\ target st mw /\ evolves (index_of (ab_state a)) (index_of st) /\
    (size (live (index_of st)) * (blocks_of st + 2) + way st mw <= steps_left a)%nat.
Proof.
  intros [Hok Htg _ _]. unfold steps_left. destruct (ab_MostWork a) as [mw|].
  - exists (ab_state a), mw. split; [done|]. split; [done|]. split; [by apply Htg|]. split; [apply evolves_refl|lia].
  - destruct (FindMostWorkChain_ok _ _ _ Hok) as (st & mw & E & Hok' & Htg' & He & _). exists st, mw. split_and!; [done..|].
    pose proof (way_bound st t top mw Hok' (proj1 (ck_cands _ _ _ Hok' mw (tg_cand _ _ Htg')))) as Hw. fold (blocks_of st) in Hw.
    rewrite (core_blocks _ _ (ev_core _ _ He)) in *. pose proof (subseteq_size _ _ (live_evolves _ _ He)). nia.
Qed.

(** The end of a round: fewer steps are left. *)
Lemma round_end st t top mw : chain_ok st t top -> target st mw -> t <> mw ->
  exists st' ok inv, ActivateBestChainStep addr st mw = Some (st', ok, inv) /\ evolves (index_of st) (index_of st') /\
    (ok = false -> errored st') /\
    forall newtip, ok = true -> newtip = Tip (m_chain st') ->
    let a' := {| ab_state := st'; ab_MostWork := if inv : bool then None else Some mw; ab_NewTip := newtip; ab_connected := true; ab_ok := true |} in
    (exists t' top', running a' t' top') /\ (steps_left a' < size (live (index_of st)) * (blocks_of st + 2) + way st mw)%nat.
Proof.
  intros Hok Htg Hne. destruct (ActivateBestChainStep_spec st t top mw Hok Htg Hne) as (st' & ok & inv & E & He & Hr). exists st', ok, inv. split; [done|]. split; [done|].
  destruct ok; [split; [done|]|by split]. cbn [negb] in Hr. intros newtip _ ->. unfold steps_left. cbn [ab_state ab_MostWork]. rewrite (core_blocks _ _ (ev_core _ _ He)). destruct inv.
  - destruct Hr as [(t' & top' & Hok') Hlive]. split; [|nia]. exists t', top'. split; [done|done|done|intros _; exact (ck_tip _ _ _ Hok')].
  - destruct Hr as (t' & ((top' & Hok') & Htg' & _) & Hway). pose proof (subseteq_size _ _ (live_evolves _ _ He)). split; [|nia].
    exists t', top'. split; [done| |done|intros _; exact (ck_tip _ _ _ Hok')]. intros mw' E'. cbn in E'. by injection E' as <-.
Qed.

Lemma still_worse_total st t top start : chain_ok st t top -> is_Some (index_of st !! start) -> exists b, still_worse addr st (Some start) = Some b.
Proof.
  intros Hok [n Hn]. unfold still_worse. rewrite (ck_tip _ _ _ Hok). pose proof (ck_chain _ _ _ Hok) as (nt & Hnt & _).
  rewrite (comparator_spec addr _ t start nt n (ck_works _ _ _ Hok) Hnt Hn). by eexists.
Qed.

Lemma activate_inner_spec start fuel : forall a t top, running a t top -> is_Some (index_of (ab_state a) !! start) -> (steps_left a <= fuel)%nat ->
  exists a', activate_inner addr fuel (Some start) a = Some a' /\ evolves (index_of (ab_state a)) (index_of (ab_state a')) /\
    if negb (ab_ok a') then errored (ab_state a') else exists t' top', running a' t' top' /\ (steps_left a' <= steps_left a)%nat /\ (ab_connected a' = false -> ab_MostWork a' = Some t') /\
    (ab_connected a = false -> ab_connected a' = true -> (steps_left a' < steps_left a)%nat).
Proof.
  induction fuel as [|fuel IH]; intros a t top Hrun Hstart Hf; destruct (round_start a t top Hrun) as (st & mw & E & Hok & Htg & He & Hst);
    cbn [activate_inner]; rewrite E; cbn [mbind option_bind]; rewrite (ck_tip _ _ _ Hok);
    (destruct (decide (Some t = Some mw)) as [Et|Hne];
     [injection Et as <-; set (a' := {| ab_state := st |}); exists a'; split; [done|]; split; [done|]; exists t, top; split;
       [split; [done|intros x Hx; cbn in Hx; by injection Hx as <-|done|exact (ru_tip _ _ _ Hrun)]|];
      split; [exact Hst|]; split; [done|]; intros E0 E1; cbn in E1; congruence|]).
  { exfalso. pose proof (ck_fork st t top mw Hok (proj1 (ck_cands _ _ _ Hok mw (tg_cand _ _ Htg)))) as (f & Ef & _).
    unfold way in Hst. rewrite Ef, (ck_tip _ _ _ Hok), decide_False in Hst by done. lia. }
  destruct (round_end st t top mw Hok Htg ltac:(congruence)) as (st' & ok & inv & E' & He' & Herr & Hend). rewrite E'. cbn [mbind option_bind].
  destruct ok; cbn [negb]; [|eexists; split; [done|]; split; [by eapply evolves_trans|by apply Herr]].
  destruct (Hend _ eq_refl eq_refl) as ((t1 & top1 & Hrun1) & Hless). clear Hend. set (a1 := {| ab_state := st' |}) in *.
  pose proof (evolves_trans _ _ _ He He') as He1. assert (is_Some (index_of st' !! start)) as Hstart1 by (by apply (core_is_Some _ _ (ev_core _ _ He1))).
  destruct (still_worse_total st' t1 top1 start (ru_chain _ _ _ Hrun1) Hstart1) as (b & ->). cbn [mbind option_bind]. destruct b.
  - destruct (IH a1 t1 top1 Hrun1 Hstart1 ltac:(lia)) as (a' & E2 & He2 & Hr). exists a'.
    split; [done|]. split; [by eapply evolves_trans|]. destruct (negb (ab_ok a')); [done|]. destruct Hr as (t' & top' & Hrun' & Hle & Hc & _).
    exists t', top'. split; [done|]. split; [lia|]. split; [done|lia].
  - exists a1. split; [done|]. split; [done|]. exists t1, top1. split; [done|]. split; [lia|]. split; [done|lia].
Qed.

Lemma activate_outer_spec inner fuel : forall a t top, running a t top -> (steps_left a <= inner)%nat -> (steps_left a < fuel)%nat ->
  exists st' ok, activate_outer addr fuel inner a = Some (st', ok) /\ evolves (index_of (ab_state a)) (index_of st') /\
    if ok : bool then exists t' top', chain_ok st' t' top' /\ target st' t' else errored st'.
Proof.
  induction fuel as [|fuel IH]; intros a t top Hrun Hi Hf; [lia|]. cbn [activate_outer]. pose proof (ck_tip _ _ _ (ru_chain _ _ _ Hrun)) as Htip.
  set (a0 := {| ab_state := ab_state a |}). assert (running a0 t top) as Hrun0 by (destruct Hrun; by split).
  pose proof (ck_chain _ _ _ (ru_chain _ _ _ Hrun)) as (nt & Hnt & _). rewrite Htip.
  destruct (activate_inner_spec t inner a0 t top Hrun0 ltac:(by eexists) Hi) as (a' & -> & He & Hr). cbn [mbind option_bind].
  destruct (ab_ok a') eqn:Eok; cbn [negb] in *; [|by exists (ab_state a'), false]. destruct Hr as (t' & top' & Hrun' & Hle & Hun & Hless).
  assert (ab_MostWork a' = Some t' -> exists st' ok, Some (ab_state a', true) = Some (st', ok) /\ evolves (index_of (ab_state a0)) (index_of st') /\
    if ok : bool then exists t' top', chain_ok st' t' top' /\ target st' t' else errored st') as Hend.
  { intros Hmw. exists (ab_state a'), true. split; [done|]. split; [done|]. exists t', top'. split; [exact (ru_chain _ _ _ Hrun')|by apply (ru_target _ _ _ Hrun')]. }
  destruct (ab_connected a') eqn:Ec; cbn [negb]; [|by apply Hend, Hun].
  rewrite (ru_tip _ _ _ Hrun' Ec). specialize (Hless eq_refl eq_refl). case_bool_decide as Et; [by apply Hend|].
  assert (steps_left a0 = steps_left a) as E0 by done.
  destruct (IH a' t' top' Hrun' ltac:(lia) ltac:(lia)) as (st2 & ok & E2 & He2 & Hr2). exists st2, ok. split; [done|]. split; [by eapply evolves_trans|done].
Qed.

(** ** The end: ActivateBestChain returns with the best chain active *)
Lemma target_best st t top h s : chain_ok st t top -> target st t -> is_Some (index_of st !! h) -> clean (index_of st) h -> replays (index_of st) h s ->
  ~ rank_lt (cand_rank addr (index_of st) t) (cand_rank addr (index_of st) h).
Proof.
  intros Hok Htg Hh Hcl Hr. destruct (decide (rank_lt (cand_rank addr (index_of st) h) (cand_rank addr (index_of st) top))) as [Hlt|Hge].
  - intros H. apply (tg_max _ _ Htg top (top_cand _ _ _ Hok)). by eapply rank_lt_trans.
  - apply (tg_max _ _ Htg). apply (ck_complete _ _ _ Hok h Hh); [|done]. split; [done|]. by eapply valid_unfailed.
Qed.

Lemma start_running st t top : chain_ok st t top ->
  running {| ab_state := st; ab_MostWork := None; ab_NewTip := None; ab_connected := false; ab_ok := true |} t top.
Proof. intros Hok. by split. Qed.

(** ActivateBestChain returns.  If without an error, the tip is a block such that no
    block of the index whose chain is complete, free of chain lock conflicts and valid
    comes before it in the order of the candidates; the store is the one that
    connecting the chain of the tip gives. *)
Lemma ActivateBestChain_best st t top : chain_ok st t top ->
  exists st' ok, ActivateBestChain addr st = Some (st', ok) /\ core_eq (index_of st) (index_of st') /\
    (ok = false -> errored st') /\
    (ok = true -> exists t' top', Tip (m_chain st') = Some t' /\ chain_ok st' t' top' /\ replays (index_of st) t' (cs_store st') /\
      forall h s, is_Some (index_of st !! h) -> clean (index_of st) h -> replays (index_of st) h s ->
        ~ rank_lt (cand_rank addr (index_of st) t') (cand_rank addr (index_of st) h)).
Proof.
  intros Hok. pose proof (live_blocks st) as Hlive. set (a := {| ab_state := st; ab_MostWork := None; ab_NewTip := None; ab_connected := false; ab_ok := true |}).
  assert (steps_left a < activation_fuel st)%nat as Hfuel by (unfold steps_left, activation_fuel; cbn [a ab_state ab_MostWork]; fold (blocks_of st); nia).
  destruct (activate_outer_spec (activation_fuel st) (activation_fuel st) a t top (start_running _ _ _ Hok) ltac:(lia) Hfuel) as (st' & ok & E & He & Hr).
  pose proof (ev_core _ _ He) as Hc. exists st', ok. split; [done|]. split; [done|]. destruct ok; split; try done. intros _.
  destruct Hr as (t' & top' & Hok' & Htg). exists t', top'. split; [exact (ck_tip _ _ _ Hok')|]. split; [done|].
  split; [apply (replays_core _ _ _ _ (core_eq_sym _ _ Hc)), (ck_store _ _ _ Hok')|]. intros h s Hh Hcl Hrep. cbn [a ab_state] in *.
  rewrite !(core_rank _ _ Hc addr). apply (target_best st' t' top' h s Hok' Htg); [by apply (core_is_Some _ _ Hc)|by apply (ev_clean _ _ He)|by apply (replays_core _ _ _ _ Hc)].
Qed.

(** ** A block that cannot be checked: neither connected nor invalid *)
Lemma to_connect_one (m : BlockMap) fuel h n t nt : m !! h = Some n -> bi_pprev n = Some t -> m !! t = Some nt -> bi_nHeight n <> bi_nHeight nt ->
  to_connect m (Datatypes.S (Datatypes.S fuel)) (Some h) (bi_nHeight nt) = Some [h].
Proof.
  intros Hn Ep Hnt Hne. cbn [to_connect]. rewrite Hn. cbn [mbind option_bind]. rewrite (proj2 (Z.eqb_neq _ _) Hne), Ep, Hnt. cbn [mbind option_bind].
  by rewrite Z.eqb_refl.
Qed.

Lemma step_error st t top h n : chain_ok st t top -> index_of st !! h = Some n -> bi_pprev n = Some t -> ConnectBlock (cs_store st) h = ConnectError ->
  ActivateBestChainStep addr st h = Some (put_node st h (ConnectEntry (cs_store st) h n), false, false).
Proof.
  intros Hok Hn Ep Hc. pose proof (ck_tree _ _ _ Hok) as Hwf. destruct (nw_prev _ _ _ (Hwf h n Hn) t Ep) as (nt & Hnt & Eh). pose proof (nw_height _ _ _ (Hwf t nt Hnt)).
  destruct (ck_fork st t top h Hok ltac:(by eexists)) as (f & Ef & Hmeets). pose proof (meets_lower _ f t h nt Hwf Hnt Hmeets (anc_prev _ h n t Hn Ep)) as ->.
  unfold ActivateBestChainStep. rewrite Ef. cbn [mbind option_bind]. destruct (disconnect_loop_spec (length (m_chain st)) st t top nt t nt Hok Hnt Hnt (anc_refl _ t)) as (st1 & E1 & _).
  { pose proof (ck_chain _ _ _ Hok) as (nt' & Hnt' & Hlen & _). rewrite Hnt in Hnt'. injection Hnt' as <-. lia. }
  assert (st1 = st) as ->. { destruct (length (m_chain st)); cbn [disconnect_loop] in E1; rewrite (ck_tip _ _ _ Hok), (bool_decide_eq_true_2 (Some t = Some t)), orb_true_r in E1 by done; by injection E1. }
  rewrite E1. cbn [mbind option_bind negb]. rewrite Hnt. cbn [mbind option_bind]. rewrite Hn. cbn [mbind option_bind].
  replace (Z.to_nat (bi_nHeight n - bi_nHeight nt)) with 1%nat by lia. cbn [connect_rounds]. rewrite Hn. cbn [mbind option_bind].
  rewrite (proj2 (Z.eqb_neq (bi_nHeight nt) (bi_nHeight n))) by lia. replace (Z.min (bi_nHeight nt + 32) (bi_nHeight n)) with (bi_nHeight n) by lia.
  rewrite (GetAncestor_walk _ h n (bi_nHeight n) Hwf Hn), Z.ltb_irrefl, (proj2 (Z.ltb_ge (bi_nHeight n) 0)), Z.sub_diag by lia. change (Z.to_nat 0) with 0%nat. cbn [orb walk mbind option_bind].
  rewrite (to_connect_one _ 31 h n t nt Hn Ep Hnt) by lia. cbn [mbind option_bind]. change (reverse [h]) with [h]. cbn [connect_blocks]. unfold ConnectTip. rewrite Hn. cbn [mbind option_bind].
  rewrite Ep, (ck_tip _ _ _ Hok), bool_decide_eq_true_2 by done. cbn [negb]. by rewrite Hc.
Qed.

(** The best candidate is a successor of the tip on which ConnectBlock returns an
    error that is not recorded in the validation state, as it does for a block whose
    proof of stake is wrong. *)
Definition stuck (st : CState) (h t top : uint256) : Prop :=
  chain_ok st t top /\ target st h /\ (exists n, index_of st !! h = Some n /\ bi_pprev n = Some t) /\ ConnectBlock (cs_store st) h = ConnectError.

(** Such a block is neither connected nor marked as failed: ActivateBestChain
    returns false, and the block is the best candidate as before, so that every later
    call returns false too, whatever other candidates there are. *)
Theorem ConnectError_stuck st h t top : (forall x y, addr x = addr y -> x = y) -> stuck st h t top ->
  exists st', ActivateBestChain addr st = Some (st', false) /\ stuck st' h t top /\ m_chain st' = m_chain st.
Proof.
  intros Hinj (Hok & Htg & (n & Hn & Ep) & Hc). destruct (FindMostWorkChain_ok st t top Hok) as (st1 & mw & E & Hok1 & Htg1 & He & (R1 & R2 & R3) & Hgood & Hsub & Hkeep).
  pose proof (Hkeep h (tg_cand _ _ Htg) (tg_good _ _ Htg)) as Hh1. pose proof (ev_core _ _ He) as Hce. destruct (core_eq_lookup _ _ h n Hce Hn) as (n1 & Hn1 & Ec%core_prev).
  assert (mw = h) as ->.
  { destruct (ck_cands _ _ _ Hok1 mw (tg_cand _ _ Htg1)) as [[nm Hnm] _]. apply (cand_rank_inj addr (index_of st1) mw h nm n1 Hinj Hnm Hn1); [by apply (tg_max _ _ Htg1)|].
    rewrite <-!(core_rank _ _ Hce addr). apply (tg_max _ _ Htg), Hsub, (tg_cand _ _ Htg1). }
  rewrite <-R2 in Hc. pose proof (step_error st1 t top h n1 Hok1 Hn1 ltac:(congruence) Hc) as Es. set (st2 := put_node st1 h _) in *.
  assert (face_eq (index_of st1) (index_of st2)) as Hf.
  { apply (face_eq_insert _ h n1 _ Hn1). unfold face, failed, conflicting, have_data. by rewrite entry_core, entry_status. }
  exists st2. split; [|split; [|exact R1]].
  - unfold ActivateBestChain, activation_fuel. rewrite Nat.add_comm. cbn [Nat.add Nat.mul]. cbn [activate_outer activate_inner ab_MostWork ab_state].
    rewrite E. cbn [mbind option_bind]. assert (t <> h) as Hne. { intros ->. pose proof (hgt_prev _ h n h (ck_tree _ _ _ Hok) Hn Ep) as [_ ?]. lia. }
    rewrite (ck_tip _ _ _ Hok1), decide_False by congruence. rewrite Es. done.
  - split; [by apply (chain_ok_face st1 st2)|]. split; [by apply (target_face st1)|]. split; [|exact Hc].
    eexists. split; [apply store_insert_eq|]. rewrite (core_prev _ _ (entry_core _ _ _)). congruence.
Qed.
End activate.
