(* ===== verification/CoinsStore.v ===== *)
(** * The coins as a store of blocks
    (the caches of ConnectTip and DisconnectTip over CoinsTip, with ConnectBlock and
    DisconnectBlock on them; src/src/validation.cpp)

    The coins of the node, their view as a map, implement the interface [BlockStore]
    of the chain selection: every block is connected and disconnected in a fresh
    cache over them.  The rules of ConnectBlock on anything but the coins are the
    parameter [rules]: an invalid block, or an error that is not a verdict. *)

From S2P Require Import Prelude Serialize BetTx Params Transaction Coins CoinsUndo BetKeys Arith256 Chain ChainProofs Pow Kernel ChainSelect ChainSelectProofs ActivateProofs.

Section coins_store.
Context (big : list CDBBatchOp -> bool).
Context (block_of : uint256 -> list CTx * Z).
Context (rules : gmap COutPoint Coin -> uint256 -> option (option InvalidReason)).
#[local] Instance coins_db_view : CCoinsView CCoinsViewDB := CCoinsViewDB_view big.
#[local] Instance coins_db_laws : CCoinsViewLaws CCoinsViewDB := CCoinsViewDB_laws big.

Definition coins_base (v : gmap COutPoint Coin) : CCoinsViewDB := {| db_coins := v; db_best_block := None; db_head_blocks := None |}.

(** CCoinsViewCache view(&CoinsTip()) *)
Definition fresh_cache (v : gmap COutPoint Coin) : CCoinsViewCache CCoinsViewDB := CCoinsViewCache_of (coins_base v).

(** The first transaction, and only it, is a coinbase; the inputs are there and the
    outputs new. *)
Definition coins_valid (v : gmap COutPoint Coin) (vtx : list CTx) (nHeight : Z) : bool :=
  match vtx with
  | [] => false
  | coinbase :: txs =>
      (0 <? nHeight) && (nHeight <? 2 ^ 30) && IsCoinBase coinbase && forallb (fun tx => negb (IsCoinBase tx)) txs &&
      bool_decide (block_ok v vtx nHeight)
  end.

Definition ConnectTip_coins (v : gmap COutPoint Coin) (h : uint256) : ConnectResult (gmap COutPoint Coin) (list (list Coin)) :=
  let '(vtx, nHeight) := block_of h in
  match rules v h with
  | Some (Some reason) => ConnectInvalid reason
  | Some None => ConnectError
  | None =>
      if coins_valid v vtx nHeight then
        match connect_coins (fresh_cache v) vtx nHeight with
        | Some (view, blockundo) => Connected (cache_view view) blockundo
        | None => ConnectError
        end
      else ConnectInvalid OTHER_REASON
  end.

Definition DisconnectTip_coins (v : gmap COutPoint Coin) (h : uint256) (blockundo : list (list Coin)) : option (gmap COutPoint Coin) :=
  let '(vtx, nHeight) := block_of h in
  match DisconnectBlock_coins (fresh_cache v) vtx blockundo nHeight with
  | Some (view, DISCONNECT_OK) => Some (cache_view view)
  | _ => None
  end.

#[export] Instance coins_store : BlockStore (gmap COutPoint Coin) (list (list Coin)) := {
  ConnectBlock := ConnectTip_coins; DisconnectBlock := DisconnectTip_coins; ConnectEntry := fun _ _ n => n }.

(** Coins that are not spent, with their heights. *)
Definition coins_ok (v : gmap COutPoint Coin) : Prop := coins_sane v /\ map_Forall (fun _ c => IsSpent c = false) v.

Lemma fresh_view v : cache_view (fresh_cache v) = v.
Proof. apply map_eq. intros p. by rewrite cache_view_lookup. Qed.

Lemma fresh_inv v : coins_ok v -> cache_inv (fresh_cache v).
Proof. intros [_ Hu]. split; [by split|apply map_Forall_empty]. Qed.

Lemma coins_valid_spec v vtx nHeight : coins_valid v vtx nHeight = true ->
  exists coinbase txs, vtx = coinbase :: txs /\ 0 < nHeight < 2 ^ 30 /\ IsCoinBase coinbase = true /\
    Forall (fun tx => IsCoinBase tx = false) txs /\ block_ok v vtx nHeight.
Proof.
  unfold coins_valid. destruct vtx as [|coinbase txs]; [done|]. intros H. exists coinbase, txs. split; [done|].
  apply andb_prop in H as [H Hok]. apply andb_prop in H as [H H1]. apply andb_prop in H as [H H2]. split; [lia|]. split; [done|].
  split; [|by apply bool_decide_eq_true in Hok].
  apply Forall_forall. intros tx Htx. apply negb_true_iff. by apply (proj1 (forallb_forall _ _) H1 tx), list_elem_of_In.
Qed.

(** A block that connects: the coins it leaves, and that they can be taken back. *)
Lemma ConnectTip_coins_spec v h v' u : coins_ok v -> ConnectTip_coins v h = Connected v' u -> coins_ok v' /\ DisconnectTip_coins v' h u = Some v.
Proof.
  intros Hv. unfold ConnectTip_coins, DisconnectTip_coins. destruct (block_of h) as [vtx nHeight]. destruct (rules v h) as [[]|]; [done|done|].
  destruct (coins_valid v vtx nHeight) eqn:Ev; [|done]. destruct (coins_valid_spec _ _ _ Ev) as (cb & txs & -> & Hh & Hcb & Htxs & Hok). clear Ev.
  pose proof (fresh_inv v Hv) as Hi. pose proof (proj1 Hv) as Hs. rewrite <-(fresh_view v) in Hs, Hok.
  destruct (block_roundtrip (fresh_cache v) cb txs nHeight Hi Hs Hh Hcb Htxs Hok) as (c' & undos & E & Hi' & Hd). rewrite E. intros [= <- <-].
  assert (coins_ok (cache_view c')) as Hv'.
  { split; [|intros p k; by apply cache_view_unspent]. unfold connect_coins in E. destruct (update_coins_all _ _ _) as [[c2 us]|] eqn:E2; [|done].
    injection E as <- _. exact (update_coins_sane (cb :: txs) nHeight _ c2 us Hh Hi Hs Hok E2). }
  split; [done|]. destruct (Hd (fresh_cache (cache_view c')) (fresh_inv _ Hv') (fresh_view _)) as (c3 & -> & _ & Hv3). by rewrite Hv3, fresh_view.
Qed.

#[export] Instance coins_store_laws : BlockStoreLaws (gmap COutPoint Coin) (list (list Coin)) coins_ok.
Proof. split; [|by intros v h v' u Hv Hc; apply ConnectTip_coins_spec|done..]. intros v h v' u Hv Hc. by apply (ConnectTip_coins_spec v h v' u). Qed.

(** Blocks connect, are invalid, or cannot be checked, when no rule asks for a retry. *)
Lemma coins_store_plain : (forall v h r, rules v h = Some (Some r) -> r = OTHER_REASON) -> forall v h, coins_ok v ->
  (exists v' u, ConnectTip_coins v h = Connected v' u) \/ ConnectTip_coins v h = ConnectInvalid OTHER_REASON \/ ConnectTip_coins v h = ConnectError.
Proof.
  intros Hr v h Hv. unfold ConnectTip_coins. destruct (block_of h) as [vtx nHeight].
  destruct (rules v h) as [[r|]|] eqn:Er; [right; left; by rewrite (Hr v h r Er)|by right; right|].
  destruct (coins_valid v vtx nHeight) eqn:Ev; [left|by right; left]. destruct (coins_valid_spec _ _ _ Ev) as (cb & txs & -> & Hh & Hcb & Htxs & Hok).
  pose proof (fresh_inv v Hv) as Hi. pose proof (proj1 Hv) as Hs. rewrite <-(fresh_view v) in Hs, Hok.
  destruct (block_roundtrip (fresh_cache v) cb txs nHeight Hi Hs Hh Hcb Htxs Hok) as (c' & undos & -> & _). by eexists _, _.
Qed.

(** The coins connect and disconnect without a failure of their own: an error is one of
    the other rules. *)
Lemma ConnectTip_coins_error v h : coins_ok v -> ConnectTip_coins v h = ConnectError -> rules v h = Some None.
Proof.
  intros Hv. unfold ConnectTip_coins. destruct (block_of h) as [vtx nHeight]. destruct (rules v h) as [[r|]|] eqn:Er; [done|done|].
  destruct (coins_valid v vtx nHeight) eqn:Ev; [|done]. destruct (coins_valid_spec _ _ _ Ev) as (cb & txs & -> & Hh & Hcb & Htxs & Hok).
  pose proof (fresh_inv v Hv) as Hi. pose proof (proj1 Hv) as Hs. rewrite <-(fresh_view v) in Hs, Hok.
  by destruct (block_roundtrip (fresh_cache v) cb txs nHeight Hi Hs Hh Hcb Htxs Hok) as (c' & undos & -> & _).
Qed.

(** C11: the choice of the chain, with the coins as the store.  The blocks are connected to the
    coins of the node and disconnected from them (the bets and the tokens are not in
    this store); that a disconnected block gives the coins back is proved, not
    assumed.  The other rules of ConnectBlock are a function of the coins and the
    block: they may find a block invalid or end in an error without a verdict, but
    do not ask for a retry (a missing entry of a cache, a mutated block).  From a
    consistent state, whose active chain is that of the tip, with the coins that its
    blocks give and their undo data, and whose candidates have all better usable
    blocks, ActivateBestChain returns.  If it returns true, no block of the index
    whose chain is complete, free of chain lock conflicts and valid comes before the
    tip in the order of the candidates (more work, then earlier received).  If it
    returns false, the other rules ended in an error on the next block on the way to
    the best candidate.  In both cases the state is consistent again, and the coins
    are those that connecting the chain of the tip gives, whatever blocks were
    disconnected on the way. *)
Theorem ActivateBestChain_coins (addr : uint256 -> Z) (g : uint256) (v0 : gmap COutPoint Coin) st t top :
  coins_ok v0 -> (forall v h r, rules v h = Some (Some r) -> r = OTHER_REASON) -> chain_ok addr g v0 st t top ->
  exists st' ok t' top', ActivateBestChain addr st = Some (st', ok) /\
    Tip (m_chain st') = Some t' /\ chain_ok addr g v0 st' t' top' /\
    core_eq (index_of st) (index_of st') /\ replays g v0 (index_of st) t' (cs_store st') /\
    (ok = true -> forall h v, is_Some (index_of st !! h) -> clean (index_of st) h -> replays g v0 (index_of st) h v ->
       ~ rank_lt (cand_rank addr (index_of st) t') (cand_rank addr (index_of st) h)) /\
    (ok = false -> exists mw h n, target addr st' mw /\ anc (index_of st') h mw /\ index_of st' !! h = Some n /\
       bi_pprev n = Some t' /\ rules (cs_store st') h = Some None).
Proof.
  intros Hv0 Hr Hok. destruct (ActivateBestChain_best (BlockStoreLaws0 := coins_store_laws) addr g v0 Hv0 (coins_store_plain Hr) st t top Hok) as (st' & ok & E & Hc & Hfalse & Htrue).
  destruct ok.
  - destruct (Htrue eq_refl) as (t' & top' & Ht & Hok' & Hrep & Hbest). exists st', true, t', top'. by split_and!.
  - destruct (Hfalse eq_refl) as (t' & top' & mw & h & n & Hok' & Htg & Hn & Ep & Ha & Herr). exists st', false, t', top'.
    split_and!; [done|by eapply ck_tip|done|done| |done|].
    + apply (replays_core _ _ _ _ _ _ (core_eq_sym _ _ Hc)), (ck_store _ _ _ _ _ _ Hok').
    + intros _. exists mw, h, n. split_and!; [done..|]. apply ConnectTip_coins_error; [|done].
      exact (replays_ok g v0 Hv0 _ _ _ (ck_store _ _ _ _ _ _ Hok')).
Qed.
End coins_store.
