(* ===== verification/HashStream.v ===== *)
(** * Hash functions over streams of bytes
    (what CSHA256, CSHA512, CSHA1 and CRIPEMD160 of src/src/crypto have in common)

    The classes differ in the size of a block, the transformation of the state by a
    block, and the encoding of the length; Write and the padding of Finalize are the
    same.  A hasher that was fed a message in any pieces holds the state of the
    message's full blocks and the rest in its buffer, and its result is the one of
    the padded message. *)

From S2P Require Import Prelude Serialize.

(** memcpy(buf + off, data, len) into an array. *)
Definition memcpy (buf : list Z) (off : nat) (data : list Z) : list Z := take off buf ++ data ++ drop (off + length data) buf.

Section stream.
Context {St : Type}.
Context (B : nat) (Transform : St -> list Z -> St).

(** The members s, buf and bytes. *)
Record Hasher := { hs_s : St; hs_buf : list Z; hs_bytes : Z }.

(** A number of blocks from the front of the data. *)
Fixpoint transform_blocks (n : nat) (s : St) (data : list Z) : St :=
  match n with
  | O => s
  | S n => transform_blocks n (Transform s (take B data)) (drop B data)
  end.

Definition Write (h : Hasher) (data : list Z) : Hasher :=
  let bufsize := Z.to_nat (hs_bytes h `mod` Z.of_nat B) in
  let '(h, data, bufsize) :=
    if negb (bufsize =? 0)%nat && (B <=? bufsize + length data)%nat then
      let buf := memcpy (hs_buf h) bufsize (take (B - bufsize) data) in
      ({| hs_s := Transform (hs_s h) buf; hs_buf := buf; hs_bytes := u64 (hs_bytes h + Z.of_nat (B - bufsize)) |}, drop (B - bufsize) data, 0%nat)
    else (h, data, bufsize) in
  let blocks := (length data / B)%nat in
  let h := {| hs_s := transform_blocks blocks (hs_s h) data; hs_buf := hs_buf h; hs_bytes := u64 (hs_bytes h + Z.of_nat (B * blocks)) |} in
  let data := drop (B * blocks) data in
  {| hs_s := hs_s h; hs_buf := memcpy (hs_buf h) bufsize data; hs_bytes := u64 (hs_bytes h + Z.of_nat (length data)) |}.

(** The padding of Finalize: one byte 0x80 and zeros up to the length, [lenbytes]
    bytes, at the end of a block. *)
Definition pad_length (lenbytes : nat) (bytes : Z) : nat :=
  Z.to_nat (1 + (Z.of_nat (2 * B - 1 - lenbytes) - bytes `mod` Z.of_nat B) `mod` Z.of_nat B).

Definition finish (lenbytes : nat) (encode : Z -> list Z) (h : Hasher) : Hasher :=
  let sizedesc := encode (u64 (Z.shiftl (hs_bytes h) 3)) in
  let pad := take (pad_length lenbytes (hs_bytes h)) (0x80 :: replicate (B - 1) 0) in
  Write (Write h pad) sizedesc.

(** ** What a hasher holds *)
Context (HB : (0 < B)%nat) (Hdiv : (Z.of_nat B | 2 ^ 64)).

(** The state of the full blocks of a message. *)
Definition absorb (s : St) (m : list Z) : St := transform_blocks (length m / B) s m.

Record holds (s0 : St) (h : Hasher) (m : list Z) : Prop := {
  ho_s : hs_s h = absorb s0 m;
  ho_buf : take (length m mod B) (hs_buf h) = drop (B * (length m / B)) m;
  ho_len : length (hs_buf h) = B;
  ho_bytes : hs_bytes h = u64 (Z.of_nat (length m)) }.

Lemma transform_blocks_take n : forall s m, transform_blocks n s m = transform_blocks n s (take (B * n) m).
Proof.
  induction n as [|n IH]; intros s m; [done|]. cbn [transform_blocks]. rewrite take_take, Nat.min_l by lia.
  rewrite (IH _ (drop B m)). f_equal. replace (B * S n)%nat with (B + B * n)%nat by lia. by rewrite take_drop_commute.
Qed.

Lemma transform_blocks_add a b : forall s m, transform_blocks (a + b) s m = transform_blocks b (transform_blocks a s m) (drop (B * a) m).
Proof.
  induction a as [|a IH]; intros s m; [by rewrite Nat.mul_0_r|]. cbn [transform_blocks Nat.add]. rewrite IH, drop_drop. f_equal. f_equal. lia.
Qed.

Lemma div_mod_nat n : n = (B * (n / B) + n mod B)%nat /\ (n mod B < B)%nat.
Proof using HB. split; [apply Nat.div_mod_eq|apply Nat.mod_upper_bound; lia]. Qed.

Lemma absorb_full s k m m' : length m = (B * k)%nat -> absorb s (m ++ m') = absorb (absorb s m) m'.
Proof using HB.
  intros Hl. unfold absorb. rewrite length_app, Hl. replace (B * k + length m')%nat with (length m' + k * B)%nat by lia.
  rewrite Nat.div_add by lia. replace ((B * k) / B)%nat with k by (rewrite Nat.mul_comm, Nat.div_mul; lia). rewrite Nat.add_comm, transform_blocks_add.
  rewrite drop_app_length' by done. f_equal. rewrite transform_blocks_take, (transform_blocks_take k s m). f_equal. rewrite <-Hl, take_app_length. by rewrite firstn_all.
Qed.

Lemma memcpy_length buf off data : (off + length data <= length buf)%nat -> length (memcpy buf off data) = length buf.
Proof. intros H. unfold memcpy. rewrite !length_app, length_take, length_drop. lia. Qed.

Lemma memcpy_front buf off data : (off + length data <= length buf)%nat -> take (off + length data) (memcpy buf off data) = take off buf ++ data.
Proof.
  intros H. unfold memcpy. rewrite app_assoc. apply take_app_length'. rewrite length_app, length_take. lia.
Qed.

Lemma bytes_mod n : Z.to_nat (u64 (Z.of_nat n) `mod` Z.of_nat B) = (n mod B)%nat.
Proof using HB Hdiv.
  unfold wrapU. rewrite Z.mod_mod_divide by done. by rewrite <-Nat2Z.inj_mod, Nat2Z.id.
Qed.

(** The message so far is its full blocks and the rest. *)
Lemma split_message (m : list Z) : m = take (B * (length m / B)) m ++ drop (B * (length m / B)) m /\ length (take (B * (length m / B)) m) = (B * (length m / B))%nat /\
  length (drop (B * (length m / B)) m) = (length m mod B)%nat.
Proof using HB.
  destruct (div_mod_nat (length m)) as [E _]. split; [by rewrite take_drop|]. rewrite length_take, length_drop. lia.
Qed.

Lemma absorb_short s m : (length m < B)%nat -> absorb s m = s.
Proof using HB. intros H. unfold absorb. by rewrite Nat.div_small. Qed.

Lemma absorb_rest s m : absorb s (take (B * (length m / B)) m) = absorb s m.
Proof using HB.
  destruct (split_message m) as (E & H1 & H2). rewrite E at 3. rewrite (absorb_full s (length m / B)) by done. symmetry. apply absorb_short.
  rewrite H2. apply div_mod_nat.
Qed.

Lemma absorb_block s m : length m = B -> absorb s m = Transform s m.
Proof using HB.
  intros H. unfold absorb. rewrite H, Nat.div_same by lia. cbn [transform_blocks]. by rewrite <-H, firstn_all.
Qed.

(** ** Write and Finalize *)
Lemma u64_add a b : u64 (u64 a + b) = u64 (a + b).
Proof. unfold wrapU. by rewrite Zplus_mod_idemp_l. Qed.

(** The second half of Write: whole blocks from the data, the rest to the buffer. *)
Lemma write_blocks s0 h m data : holds s0 h m -> (length m mod B = 0)%nat ->
  holds s0 {| hs_s := transform_blocks (length data / B) (hs_s h) data; hs_buf := memcpy (hs_buf h) 0 (drop (B * (length data / B)) data);
              hs_bytes := u64 (u64 (hs_bytes h + Z.of_nat (B * (length data / B))) + Z.of_nat (length (drop (B * (length data / B)) data))) |} (m ++ data).
Proof using HB.
  intros [Hs Hb Hl Hn] H0. destruct (div_mod_nat (length m)) as [Em _]. destruct (split_message data) as (E & H1 & H2). destruct (div_mod_nat (length data)) as [Ed Hdm].
  assert (length (m ++ data) / B = length m / B + length data / B)%nat as Eq.
  { rewrite length_app, Em, H0, Nat.add_0_r, Nat.mul_comm, Nat.div_add_l by lia. by rewrite Nat.div_mul by lia. }
  assert (length (m ++ data) mod B = length data mod B)%nat as Er.
  { rewrite length_app, Em, H0, Nat.add_0_r, Nat.add_comm, Nat.mul_comm. by apply Nat.Div0.mod_add. }
  assert (0 + length (drop (B * (length data / B)) data) <= length (hs_buf h))%nat as Hfit by (rewrite H2, Hl; cbn; by apply Nat.lt_le_incl).
  split; cbn [hs_s hs_buf hs_bytes].
  - rewrite (absorb_full s0 (length m / B)) by lia. by rewrite <-Hs.
  - rewrite Er, Eq, <-H2. rewrite <-(Nat.add_0_l (length (drop _ data))). rewrite memcpy_front by done. rewrite take_0, app_nil_l.
    rewrite drop_app_ge by lia. f_equal. lia.
  - rewrite memcpy_length by done. done.
  - rewrite Hn, u64_add, <-Z.add_assoc, u64_add. f_equal. rewrite length_app, H2. clear -Ed. generalize dependent (length data mod B)%nat. generalize (length data / B)%nat. lia.
Qed.

(** Feeding more data. *)
Lemma Write_holds s0 h m data : holds s0 h m -> holds s0 (Write h data) (m ++ data).
Proof using HB Hdiv.
  intros Hh. pose proof Hh as [Hs Hb Hl Hn]. unfold Write. rewrite Hn, bytes_mod. set (r := (length m mod B)%nat). destruct (div_mod_nat (length m)) as [Em Hr]. fold r in Em, Hr.
  destruct (split_message m) as (E & H1 & H2). fold r in H2.
  destruct (Nat.eqb_spec r 0) as [E0|Hr0]; cbn [negb andb].
  { rewrite E0 at 1. exact (write_blocks s0 h m data Hh E0). }
  destruct (Nat.leb_spec B (r + length data)) as [Hge|Hlt].
  - set (buf := memcpy (hs_buf h) r (take (B - r) data)).
    assert (buf = drop (B * (length m / B)) m ++ take (B - r) data) as Ebuf.
    { rewrite <-Hb. fold r. rewrite <-(firstn_all buf). replace (length buf) with (r + length (take (B - r) data))%nat; [apply memcpy_front|unfold buf; rewrite memcpy_length]; rewrite ?length_take; lia. }
    assert (holds s0 {| hs_s := Transform (hs_s h) buf; hs_buf := buf; hs_bytes := u64 (u64 (Z.of_nat (length m)) + Z.of_nat (B - r)) |} (m ++ take (B - r) data)) as Hfull.
    { assert (length (m ++ take (B - r) data) = B * (length m / B + 1))%nat as Elen by (rewrite length_app, length_take; lia).
      assert (length buf = B) as Lbuf by (rewrite Ebuf, length_app, length_take, H2; lia). split; cbn [hs_s hs_buf hs_bytes].
      - rewrite Hs, <-absorb_block by done. replace (m ++ take (B - r) data) with (take (B * (length m / B)) m ++ buf) by (rewrite Ebuf, app_assoc, take_drop; done). rewrite (absorb_full s0 (length m / B)) by done. by rewrite absorb_rest.
      - rewrite Elen, Nat.mul_comm, Nat.Div0.mod_mul, take_0, Nat.div_mul by lia. rewrite drop_ge; [done|]. rewrite Elen. lia.
      - done.
      - rewrite u64_add. f_equal. rewrite Elen. lia. }
    pose proof (write_blocks s0 _ _ (drop (B - r) data) Hfull) as H. rewrite <-app_assoc, take_drop in H. apply H.
    rewrite length_app, length_take. replace (length m + (B - r) `min` length data)%nat with ((length m / B + 1) * B)%nat by lia. apply Nat.Div0.mod_mul.
  - assert (length data / B = 0)%nat as -> by (apply Nat.div_small; lia). rewrite Nat.mul_0_r, drop_0. cbn [transform_blocks hs_s hs_buf hs_bytes].
    assert (length (m ++ data) / B = length m / B)%nat as Eq.
    { rewrite length_app. symmetry. apply (Nat.div_unique _ B _ (r + length data)); lia. }
    assert (length (m ++ data) mod B = r + length data)%nat as Er.
    { rewrite length_app. symmetry. apply (Nat.mod_unique _ B (length m / B)); lia. }
    split; cbn [hs_s hs_buf hs_bytes].
    + rewrite Hs. unfold absorb. rewrite Eq, (transform_blocks_take _ s0 (m ++ data)), (transform_blocks_take _ s0 m). f_equal. rewrite take_app_le by lia. done.
    + rewrite Er, Eq, memcpy_front by lia. fold r in Hb. rewrite Hb. rewrite drop_app_le by lia. done.
    + rewrite memcpy_length; lia.
    + rewrite Hn, u64_add, <-Z.add_assoc, u64_add. f_equal. rewrite length_app. lia.
Qed.

(** The zeros between the byte 0x80 and the length. *)
Definition zeros (lenbytes : nat) (n : nat) : nat := Z.to_nat ((Z.of_nat (2 * B - 1 - lenbytes) - Z.of_nat n `mod` Z.of_nat B) `mod` Z.of_nat B).

Definition padded (lenbytes : nat) (encode : Z -> list Z) (m : list Z) : list Z :=
  m ++ (0x80 :: replicate (zeros lenbytes (length m)) 0) ++ encode (u64 (8 * Z.of_nat (length m))).

Lemma zeros_spec lenbytes n : (lenbytes < B)%nat -> (zeros lenbytes n < B)%nat /\ (Z.of_nat B | Z.of_nat n + 1 + Z.of_nat (zeros lenbytes n) + Z.of_nat lenbytes).
Proof using HB.
  intros HL. unfold zeros. set (x := (_ - _)%Z). pose proof (Z.mod_pos_bound x (Z.of_nat B) ltac:(lia)) as Hx. split; [lia|].
  rewrite Z2Nat.id by lia. apply Z.mod_divide; [lia|]. rewrite <-Zplus_mod_idemp_l. rewrite <-(Zplus_mod_idemp_r (x `mod` _)), Zmod_mod, Zplus_mod_idemp_r, Zplus_mod_idemp_l.
  subst x. rewrite <-(Zplus_mod_idemp_l), <-(Zplus_mod_idemp_r (_ - _)). rewrite Zminus_mod_idemp_r, Zplus_mod_idemp_r, Zplus_mod_idemp_l.
  replace (_ + _)%Z with (2 * Z.of_nat B) by lia. apply Z.mod_mul. lia.
Qed.

(** What Finalize leaves is the state of the padded message, which is a number of
    full blocks. *)
Lemma finish_spec lenbytes encode s0 h m : holds s0 h m -> (lenbytes < B)%nat -> (forall x, length (encode x) = lenbytes) ->
  hs_s (finish lenbytes encode h) = absorb s0 (padded lenbytes encode m) /\ exists k, length (padded lenbytes encode m) = (B * k)%nat.
Proof using HB Hdiv.
  intros Hh HL He. destruct (zeros_spec lenbytes (length m) HL) as [Hz [k Hk]].
  assert (hs_bytes h `mod` Z.of_nat B = Z.of_nat (length m) `mod` Z.of_nat B) as Eb by (rewrite (ho_bytes _ _ _ Hh); unfold wrapU; by apply Z.mod_mod_divide).
  assert (pad_length lenbytes (hs_bytes h) = S (zeros lenbytes (length m))) as Ep.
  { unfold pad_length, zeros. rewrite Eb. pose proof (Z.mod_pos_bound (Z.of_nat (2 * B - 1 - lenbytes) - Z.of_nat (length m) `mod` Z.of_nat B) (Z.of_nat B) ltac:(lia)). lia. }
  assert (u64 (Z.shiftl (hs_bytes h) 3) = u64 (8 * Z.of_nat (length m))) as Es.
  { rewrite Z.shiftl_mul_pow2 by lia. rewrite (ho_bytes _ _ _ Hh). unfold wrapU. rewrite Zmult_mod_idemp_l. f_equal. lia. }
  unfold finish. rewrite Ep, Es. cbn [take].
  replace (take (zeros lenbytes (length m)) (replicate (B - 1) 0)) with (replicate (zeros lenbytes (length m)) 0).
  2: { rewrite take_replicate. f_equal. lia. }
  split.
  - pose proof (Write_holds s0 _ _ (encode (u64 (8 * Z.of_nat (length m)))) (Write_holds s0 h m (0x80 :: replicate (zeros lenbytes (length m)) 0) Hh)) as H.
    rewrite (ho_s _ _ _ H). unfold padded. by rewrite app_assoc.
  - exists (Z.to_nat k). unfold padded. rewrite !length_app. cbn [length]. rewrite length_replicate, He. nia.
Qed.
End stream.
