(* ===== verification/Sha2.v ===== *)
(** * SHA-256
    (src/src/crypto/sha256.cpp, common.h; CHash256, CHashWriter and Hash of src/src/hash.h)

    Words are integers with their wrap-around, bytes are integers.  The rounds, which
    the code writes out one by one with the names of the registers rotated, are a fold
    over the round keys (constant plus message word); the sixteen message words are a
    window over the schedule.  The implementation is the generic one; the versions for
    special processors, which the program selects at start, are not modelled.

    The buffer of a new hasher is not initialised: it is a parameter, and the results
    do not depend on it. *)

From S2P Require Import Prelude Serialize BetKeys HashStream.

(** ** Big-endian access (common.h) *)
Definition be_value (l : list Z) : Z := le_value (reverse l).
Definition be_bytes (n : nat) (x : Z) : list Z := reverse (le_bytes n x).

Definition ReadBE32 (ptr : list Z) : Z := be_value (take 4 ptr).
Definition ReadBE64 (ptr : list Z) : Z := be_value (take 8 ptr).
Definition WriteBE32 (x : Z) : list Z := be_bytes 4 x.
Definition WriteBE64 (x : Z) : list Z := be_bytes 8 x.

(** The words of a block. *)
Definition words (read : list Z -> Z) (size : nat) (chunk : list Z) : list Z := (fun i => read (drop (size * i) chunk)) <$> seq 0 16.

(** A word from its halves. *)
Definition w32 (hi lo : Z) : Z := hi * 2 ^ 16 + lo.

(** The eight registers, in the order of the next round. *)
Definition regs : Type := Z * Z * Z * Z * Z * Z * Z * Z.

Definition regs_list (r : regs) : list Z := let '(a, b, c, d, e, f, g, h) := r in [a; b; c; d; e; f; g; h].

Definition add_regs (wrap : Z -> Z) (s r : regs) : regs :=
  let '(s0, s1, s2, s3, s4, s5, s6, s7) := s in let '(a, b, c, d, e, f, g, h) := r in
  (wrap (s0 + a), wrap (s1 + b), wrap (s2 + c), wrap (s3 + d), wrap (s4 + e), wrap (s5 + f), wrap (s6 + g), wrap (s7 + h)).

Module sha256.
Definition rotr (n x : Z) : Z := Z.lor (Z.shiftr x n) (u32 (Z.shiftl x (32 - n))).
Definition Ch (x y z : Z) : Z := Z.lxor z (Z.land x (Z.lxor y z)).
Definition Maj (x y z : Z) : Z := Z.lor (Z.land x y) (Z.land z (Z.lor x y)).
Definition Sigma0 (x : Z) : Z := Z.lxor (Z.lxor (rotr 2 x) (rotr 13 x)) (rotr 22 x).
Definition Sigma1 (x : Z) : Z := Z.lxor (Z.lxor (rotr 6 x) (rotr 11 x)) (rotr 25 x).
Definition sigma0 (x : Z) : Z := Z.lxor (Z.lxor (rotr 7 x) (rotr 18 x)) (Z.shiftr x 3).
Definition sigma1 (x : Z) : Z := Z.lxor (Z.lxor (rotr 17 x) (rotr 19 x)) (Z.shiftr x 10).

Definition Round (r : regs) (k : Z) : regs :=
  let '(a, b, c, d, e, f, g, h) := r in
  let t1 := u32 (h + Sigma1 e + Ch e f g + k) in
  let t2 := u32 (Sigma0 a + Maj a b c) in
  (u32 (t1 + t2), a, b, c, u32 (d + t1), e, f, g).

Definition Initialize : regs :=
  (w32 0x6a09 0xe667, w32 0xbb67 0xae85, w32 0x3c6e 0xf372, w32 0xa54f 0xf53a,
   w32 0x510e 0x527f, w32 0x9b05 0x688c, w32 0x1f83 0xd9ab, w32 0x5be0 0xcd19).

(** The constants of the rounds. *)
Definition K : list Z :=
  [w32 0x428a 0x2f98; w32 0x7137 0x4491; w32 0xb5c0 0xfbcf; w32 0xe9b5 0xdba5;
   w32 0x3956 0xc25b; w32 0x59f1 0x11f1; w32 0x923f 0x82a4; w32 0xab1c 0x5ed5;
   w32 0xd807 0xaa98; w32 0x1283 0x5b01; w32 0x2431 0x85be; w32 0x550c 0x7dc3;
   w32 0x72be 0x5d74; w32 0x80de 0xb1fe; w32 0x9bdc 0x06a7; w32 0xc19b 0xf174;
   w32 0xe49b 0x69c1; w32 0xefbe 0x4786; w32 0x0fc1 0x9dc6; w32 0x240c 0xa1cc;
   w32 0x2de9 0x2c6f; w32 0x4a74 0x84aa; w32 0x5cb0 0xa9dc; w32 0x76f9 0x88da;
   w32 0x983e 0x5152; w32 0xa831 0xc66d; w32 0xb003 0x27c8; w32 0xbf59 0x7fc7;
   w32 0xc6e0 0x0bf3; w32 0xd5a7 0x9147; w32 0x06ca 0x6351; w32 0x1429 0x2967;
   w32 0x27b7 0x0a85; w32 0x2e1b 0x2138; w32 0x4d2c 0x6dfc; w32 0x5338 0x0d13;
   w32 0x650a 0x7354; w32 0x766a 0x0abb; w32 0x81c2 0xc92e; w32 0x9272 0x2c85;
   w32 0xa2bf 0xe8a1; w32 0xa81a 0x664b; w32 0xc24b 0x8b70; w32 0xc76c 0x51a3;
   w32 0xd192 0xe819; w32 0xd699 0x0624; w32 0xf40e 0x3585; w32 0x106a 0xa070;
   w32 0x19a4 0xc116; w32 0x1e37 0x6c08; w32 0x2748 0x774c; w32 0x34b0 0xbcb5;
   w32 0x391c 0x0cb3; w32 0x4ed8 0xaa4a; w32 0x5b9c 0xca4f; w32 0x682e 0x6ff3;
   w32 0x748f 0x82ee; w32 0x78a5 0x636f; w32 0x84c8 0x7814; w32 0x8cc7 0x0208;
   w32 0x90be 0xfffa; w32 0xa450 0x6ceb; w32 0xbef9 0xa3f7; w32 0xc671 0x78f2].

(** The next message word, from the window of the last sixteen. *)
Definition next_word (w : list Z) : Z :=
  match w with
  | [w0; w1; _; _; _; _; _; _; _; w9; _; _; _; _; w14; _] => u32 (w0 + (sigma1 w14 + w9 + sigma0 w1))
  | _ => 0
  end.

Fixpoint expand (n : nat) (w : list Z) : list Z :=
  match n with
  | O => []
  | S n => next_word w :: expand n (tail w ++ [next_word w])
  end.

Definition round_keys (w : list Z) : list Z := zip_with (fun k w => u32 (k + w)) K (w ++ expand 48 w).

(** The loop body of Transform. *)
Definition Transform (s : regs) (chunk : list Z) : regs :=
  add_regs u32 s (foldl Round s (round_keys (words ReadBE32 4 chunk))).

(** ** The double hash of 64 bytes, with the padding folded into the constants *)
Definition K2 : list Z :=
  [w32 0xc28a 0x2f98; w32 0x7137 0x4491; w32 0xb5c0 0xfbcf; w32 0xe9b5 0xdba5;
   w32 0x3956 0xc25b; w32 0x59f1 0x11f1; w32 0x923f 0x82a4; w32 0xab1c 0x5ed5;
   w32 0xd807 0xaa98; w32 0x1283 0x5b01; w32 0x2431 0x85be; w32 0x550c 0x7dc3;
   w32 0x72be 0x5d74; w32 0x80de 0xb1fe; w32 0x9bdc 0x06a7; w32 0xc19b 0xf374;
   w32 0x649b 0x69c1; w32 0xf0fe 0x4786; w32 0x0fe1 0xedc6; w32 0x240c 0xf254;
   w32 0x4fe9 0x346f; w32 0x6cc9 0x84be; w32 0x61b9 0x411e; w32 0x16f9 0x88fa;
   w32 0xf2c6 0x5152; w32 0xa88e 0x5a6d; w32 0xb019 0xfc65; w32 0xb9d9 0x9ec7;
   w32 0x9a12 0x31c3; w32 0xe70e 0xeaa0; w32 0xfdb1 0x232b; w32 0xc735 0x3eb0;
   w32 0x3069 0xbad5; w32 0xcb97 0x6d5f; w32 0x5a0f 0x118f; w32 0xdc1e 0xeefd;
   w32 0x0a35 0xb689; w32 0xde0b 0x7a04; w32 0x58f4 0xca9d; w32 0xe15d 0x5b16;
   w32 0x007f 0x3e86; w32 0x3708 0x8980; w32 0xa507 0xea32; w32 0x6fab 0x9537;
   w32 0x1740 0x6110; w32 0x0d8c 0xd6f1; w32 0xcdaa 0x3b6d; w32 0xc0bb 0xbe37;
   w32 0x8361 0x3bda; w32 0xdb48 0xa363; w32 0x0b02 0xe931; w32 0x6fd1 0x5ca7;
   w32 0x521a 0xfaca; w32 0x3133 0x8431; w32 0x6ed4 0x1a95; w32 0x6d43 0x7890;
   w32 0xc39c 0x91f2; w32 0x9ecc 0xabbd; w32 0xb5c9 0xa0e6; w32 0x532f 0xb63c;
   w32 0xd2c7 0x41c6; w32 0x0723 0x7ea3; w32 0xa495 0x4b68; w32 0x4c19 0x1d76].

(** The third transformation: the message words from 8 on are constants at first. *)
Definition third_words (w0 w1 w2 w3 w4 w5 w6 w7 : Z) : list Z :=
  let w0 := u32 (w0 + sigma0 w1) in
  let w1 := u32 (w1 + (0xa00000 + sigma0 w2)) in
  let w2 := u32 (w2 + (sigma1 w0 + sigma0 w3)) in
  let w3 := u32 (w3 + (sigma1 w1 + sigma0 w4)) in
  let w4 := u32 (w4 + (sigma1 w2 + sigma0 w5)) in
  let w5 := u32 (w5 + (sigma1 w3 + sigma0 w6)) in
  let w6 := u32 (w6 + (sigma1 w4 + 0x100 + sigma0 w7)) in
  let w7 := u32 (w7 + (sigma1 w5 + w0 + 0x11002000)) in
  let w8 := u32 (0x80000000 + sigma1 w6 + w1) in
  let w9 := u32 (sigma1 w7 + w2) in
  let w10 := u32 (sigma1 w8 + w3) in
  let w11 := u32 (sigma1 w9 + w4) in
  let w12 := u32 (sigma1 w10 + w5) in
  let w13 := u32 (sigma1 w11 + w6) in
  let w14 := u32 (sigma1 w12 + w7 + 0x400022) in
  let w15 := u32 (0x100 + sigma1 w13 + w8 + sigma0 w0) in
  [w0; w1; w2; w3; w4; w5; w6; w7; w8; w9; w10; w11; w12; w13; w14; w15].

Definition third_keys (r : regs) : list Z :=
  let '(w0, w1, w2, w3, w4, w5, w6, w7) := r in
  let w := third_words w0 w1 w2 w3 w4 w5 w6 w7 in
  zip_with (fun k w => u32 (k + w)) (take 8 K) [w0; w1; w2; w3; w4; w5; w6; w7] ++
  [w32 0x5807 0xaa98; w32 0x1283 0x5b01; w32 0x2431 0x85be; w32 0x550c 0x7dc3;
   w32 0x72be 0x5d74; w32 0x80de 0xb1fe; w32 0x9bdc 0x06a7; w32 0xc19b 0xf274] ++
  zip_with (fun k w => u32 (k + w)) (drop 16 K) (w ++ expand 32 w).

Definition TransformD64 (input : list Z) : list Z :=
  let t := add_regs u32 (foldl Round Initialize (round_keys (words ReadBE32 4 input))) Initialize in
  let w := add_regs u32 t (foldl Round t K2) in
  mjoin (WriteBE32 <$> regs_list (add_regs u32 (foldl Round Initialize (third_keys w)) Initialize)).
End sha256.

(** The same double hash with any transformation. *)
Definition TransformD64Wrapper (tr : regs -> list Z -> regs) (input : list Z) : list Z :=
  let padding1 := 0x80 :: replicate 61 0 ++ [2; 0] in
  let s := tr (tr sha256.Initialize input) padding1 in
  let buffer2 := mjoin (WriteBE32 <$> regs_list s) ++ 0x80 :: replicate 29 0 ++ [1; 0] in
  mjoin (WriteBE32 <$> regs_list (tr sha256.Initialize buffer2)).

(** Pairs of 32 bytes, one after the other. *)
Fixpoint SHA256D64 (input : list Z) (blocks : nat) : list Z :=
  match blocks with
  | O => []
  | S blocks => sha256.TransformD64 (take 64 input) ++ SHA256D64 (drop 64 input) blocks
  end.

(** ** CSHA256 *)
Definition CSHA256 : Type := Hasher (St := regs).
Definition CSHA256_new (buf : list Z) : CSHA256 := {| hs_s := sha256.Initialize; hs_buf := buf; hs_bytes := 0 |}.
Definition CSHA256_Write (h : CSHA256) (data : list Z) : CSHA256 := Write 64 sha256.Transform h data.
Definition CSHA256_Finalize (h : CSHA256) : CSHA256 * list Z :=
  let h := finish 64 sha256.Transform 8 WriteBE64 h in (h, mjoin (WriteBE32 <$> regs_list (hs_s h))).
Definition CSHA256_Reset (h : CSHA256) : CSHA256 := {| hs_s := sha256.Initialize; hs_buf := hs_buf h; hs_bytes := 0 |}.

(** CHash256 and CHashWriter::GetHash: the hash of the hash. *)
Definition CHash256_Finalize (sha : CSHA256) : list Z :=
  let '(sha, buf) := CSHA256_Finalize sha in (CSHA256_Finalize (CSHA256_Write (CSHA256_Reset sha) buf)).2.

(** Hash of two ranges. *)
Definition Hash2 (buf p1 p2 : list Z) : list Z := CHash256_Finalize (CSHA256_Write (CSHA256_Write (CSHA256_new buf) p1) p2).

(** ** Known results *)
Definition text_abc : list Z := [97; 98; 99].

Example sha256_abc : be_value (CSHA256_Finalize (CSHA256_Write (CSHA256_new (replicate 64 7)) text_abc)).2 =
  0xba7816bf8f01cfea414140de5dae2223b00361a396177a9cb410ff61f20015ad.
Proof. vm_compute. reflexivity. Qed.
