(* ===== verification/Sha512.v ===== *)
(** * SHA-512 and keyed hashes
    (src/src/crypto/sha512.cpp, hmac_sha256.cpp, hmac_sha512.cpp; BIP32Hash of src/src/hash.cpp)

    As for SHA-256, with words of 64 bits; HMAC over both, and the hash that derives
    keys. *)

From S2P Require Import Prelude Serialize BetKeys HashStream Sha2.

Module sha512.
Definition rotr (n x : Z) : Z := Z.lor (Z.shiftr x n) (u64 (Z.shiftl x (64 - n))).
Definition Ch (x y z : Z) : Z := Z.lxor z (Z.land x (Z.lxor y z)).
Definition Maj (x y z : Z) : Z := Z.lor (Z.land x y) (Z.land z (Z.lor x y)).
Definition Sigma0 (x : Z) : Z := Z.lxor (Z.lxor (rotr 28 x) (rotr 34 x)) (rotr 39 x).
Definition Sigma1 (x : Z) : Z := Z.lxor (Z.lxor (rotr 14 x) (rotr 18 x)) (rotr 41 x).
Definition sigma0 (x : Z) : Z := Z.lxor (Z.lxor (rotr 1 x) (rotr 8 x)) (Z.shiftr x 7).
Definition sigma1 (x : Z) : Z := Z.lxor (Z.lxor (rotr 19 x) (rotr 61 x)) (Z.shiftr x 6).

Definition Round (r : regs) (kw : Z * Z) : regs :=
  let '(a, b, c, d, e, f, g, h) := r in let '(k, w) := kw in
  let t1 := u64 (h + Sigma1 e + Ch e f g + k + w) in
  let t2 := u64 (Sigma0 a + Maj a b c) in
  (u64 (t1 + t2), a, b, c, u64 (d + t1), e, f, g).

Definition Initialize : regs :=
  (0x6a09e667f3bcc908, 0xbb67ae8584caa73b, 0x3c6ef372fe94f82b, 0xa54ff53a5f1d36f1,
   0x510e527fade682d1, 0x9b05688c2b3e6c1f, 0x1f83d9abfb41bd6b, 0x5be0cd19137e2179).

Definition K : list Z :=
  [0x428a2f98d728ae22; 0x7137449123ef65cd; 0xb5c0fbcfec4d3b2f; 0xe9b5dba58189dbbc;
   0x3956c25bf348b538; 0x59f111f1b605d019; 0x923f82a4af194f9b; 0xab1c5ed5da6d8118;
   0xd807aa98a3030242; 0x12835b0145706fbe; 0x243185be4ee4b28c; 0x550c7dc3d5ffb4e2;
   0x72be5d74f27b896f; 0x80deb1fe3b1696b1; 0x9bdc06a725c71235; 0xc19bf174cf692694;
   0xe49b69c19ef14ad2; 0xefbe4786384f25e3; 0x0fc19dc68b8cd5b5; 0x240ca1cc77ac9c65;
   0x2de92c6f592b0275; 0x4a7484aa6ea6e483; 0x5cb0a9dcbd41fbd4; 0x76f988da831153b5;
   0x983e5152ee66dfab; 0xa831c66d2db43210; 0xb00327c898fb213f; 0xbf597fc7beef0ee4;
   0xc6e00bf33da88fc2; 0xd5a79147930aa725; 0x06ca6351e003826f; 0x142929670a0e6e70;
   0x27b70a8546d22ffc; 0x2e1b21385c26c926; 0x4d2c6dfc5ac42aed; 0x53380d139d95b3df;
   0x650a73548baf63de; 0x766a0abb3c77b2a8; 0x81c2c92e47edaee6; 0x92722c851482353b;
   0xa2bfe8a14cf10364; 0xa81a664bbc423001; 0xc24b8b70d0f89791; 0xc76c51a30654be30;
   0xd192e819d6ef5218; 0xd69906245565a910; 0xf40e35855771202a; 0x106aa07032bbd1b8;
   0x19a4c116b8d2d0c8; 0x1e376c085141ab53; 0x2748774cdf8eeb99; 0x34b0bcb5e19b48a8;
   0x391c0cb3c5c95a63; 0x4ed8aa4ae3418acb; 0x5b9cca4f7763e373; 0x682e6ff3d6b2b8a3;
   0x748f82ee5defb2fc; 0x78a5636f43172f60; 0x84c87814a1f0ab72; 0x8cc702081a6439ec;
   0x90befffa23631e28; 0xa4506cebde82bde9; 0xbef9a3f7b2c67915; 0xc67178f2e372532b;
   0xca273eceea26619c; 0xd186b8c721c0c207; 0xeada7dd6cde0eb1e; 0xf57d4f7fee6ed178;
   0x06f067aa72176fba; 0x0a637dc5a2c898a6; 0x113f9804bef90dae; 0x1b710b35131c471b;
   0x28db77f523047d84; 0x32caab7b40c72493; 0x3c9ebe0a15c9bebc; 0x431d67c49c100d4c;
   0x4cc5d4becb3e42b6; 0x597f299cfc657e2a; 0x5fcb6fab3ad6faec; 0x6c44198c4a475817].

Definition next_word (w : list Z) : Z :=
  match w with
  | [w0; w1; _; _; _; _; _; _; _; w9; _; _; _; _; w14; _] => u64 (w0 + (sigma1 w14 + w9 + sigma0 w1))
  | _ => 0
  end.

Fixpoint expand (n : nat) (w : list Z) : list Z :=
  match n with
  | O => []
  | S n => next_word w :: expand n (tail w ++ [next_word w])
  end.

Definition Transform (s : regs) (chunk : list Z) : regs :=
  let w := words ReadBE64 8 chunk in add_regs u64 s (foldl Round s (zip K (w ++ expand 64 w))).
End sha512.

Definition CSHA512 : Type := Hasher (St := regs).
Definition CSHA512_new (buf : list Z) : CSHA512 := {| hs_s := sha512.Initialize; hs_buf := buf; hs_bytes := 0 |}.
Definition CSHA512_Write (h : CSHA512) (data : list Z) : CSHA512 := Write 128 sha512.Transform h data.
(** The upper half of the length is zero. *)
Definition sizedesc512 (x : Z) : list Z := replicate 8 0 ++ WriteBE64 x.
Definition CSHA512_Finalize (h : CSHA512) : CSHA512 * list Z :=
  let h := finish 128 sha512.Transform 16 sizedesc512 h in (h, mjoin (WriteBE64 <$> regs_list (hs_s h))).
Definition CSHA512_Reset (h : CSHA512) : CSHA512 := {| hs_s := sha512.Initialize; hs_buf := hs_buf h; hs_bytes := 0 |}.

(** ** Keyed hashes *)
Definition xor_bytes (x : Z) (l : list Z) : list Z := Z.lxor x <$> l.

Record CHMAC := { hm_outer : Hasher (St := regs); hm_inner : Hasher (St := regs) }.

Definition CHMAC_SHA256_new (buf key : list Z) : CHMAC :=
  let rkey := if (length key <=? 64)%nat then key ++ replicate (64 - length key) 0
              else (CSHA256_Finalize (CSHA256_Write (CSHA256_new buf) key)).2 ++ replicate 32 0 in
  let rkey := xor_bytes 0x5c rkey in
  let outer := CSHA256_Write (CSHA256_new buf) rkey in
  let rkey := xor_bytes (Z.lxor 0x5c 0x36) rkey in
  {| hm_outer := outer; hm_inner := CSHA256_Write (CSHA256_new buf) rkey |}.
Definition CHMAC_SHA256_Write (h : CHMAC) (data : list Z) : CHMAC := {| hm_outer := hm_outer h; hm_inner := CSHA256_Write (hm_inner h) data |}.
Definition CHMAC_SHA256_Finalize (h : CHMAC) : list Z :=
  (CSHA256_Finalize (CSHA256_Write (hm_outer h) (CSHA256_Finalize (hm_inner h)).2)).2.

Definition CHMAC_SHA512_new (buf key : list Z) : CHMAC :=
  let rkey := if (length key <=? 128)%nat then key ++ replicate (128 - length key) 0
              else (CSHA512_Finalize (CSHA512_Write (CSHA512_new buf) key)).2 ++ replicate 64 0 in
  let rkey := xor_bytes 0x5c rkey in
  let outer := CSHA512_Write (CSHA512_new buf) rkey in
  let rkey := xor_bytes (Z.lxor 0x5c 0x36) rkey in
  {| hm_outer := outer; hm_inner := CSHA512_Write (CSHA512_new buf) rkey |}.
Definition CHMAC_SHA512_Write (h : CHMAC) (data : list Z) : CHMAC := {| hm_outer := hm_outer h; hm_inner := CSHA512_Write (hm_inner h) data |}.
Definition CHMAC_SHA512_Finalize (h : CHMAC) : list Z :=
  (CSHA512_Finalize (CSHA512_Write (hm_outer h) (CSHA512_Finalize (hm_inner h)).2)).2.

Definition BIP32Hash (buf chainCode : list Z) (nChild header : Z) (data : list Z) : list Z :=
  CHMAC_SHA512_Finalize
    (CHMAC_SHA512_Write (CHMAC_SHA512_Write (CHMAC_SHA512_Write (CHMAC_SHA512_new buf chainCode) [header]) data) (WriteBE32 nChild)).

(** ** Known result *)
Example sha512_abc : be_value (CSHA512_Finalize (CSHA512_Write (CSHA512_new (replicate 128 7)) text_abc)).2 =
  0xddaf35a193617abacc417349ae20413112e6fa4e89a97ea20a9eeee64b55d39a2192992a274fc1a836ba3c23a3feebbd454d4423643ce80e2a9ac94fa54ca49f.
Proof. vm_compute. reflexivity. Qed.
