(* ===== verification/Sha2Proofs.v ===== *)
(** * SHA-256 and SHA-512: what the hashers compute

    A hasher gives the hash of everything that was written to it, however it was cut
    and whatever its buffer held; HMAC is the keyed hash of the standard; and the
    double hash of 64 bytes with folded constants is the hash of the hash. *)

From S2P Require Import Prelude Serialize BetKeys HashStream Sha2 Sha512.

(** ** The hash of a message *)
Definition SHA256 (m : list Z) : list Z :=
  mjoin (WriteBE32 <$> regs_list (absorb 64 sha256.Transform sha256.Initialize (padded 64 8 WriteBE64 m))).

Definition SHA512 (m : list Z) : list Z :=
  mjoin (WriteBE64 <$> regs_list (absorb 128 sha512.Transform sha512.Initialize (padded 128 16 sizedesc512 m))).

Lemma length_be_bytes n x : length (be_bytes n x) = n.
Proof. unfold be_bytes. by rewrite length_reverse, length_le_bytes. Qed.

Lemma be_value_bytes n x : be_value (be_bytes n x) = wrapU (8 * Z.of_nat n) x.
Proof. unfold be_value, be_bytes. by rewrite reverse_involutive, le_value_bytes. Qed.

(** A new hasher holds nothing yet. *)
Lemma new_holds {St} B (T : St -> list Z -> St) s buf : (0 < B)%nat -> length buf = B ->
  holds B T s {| hs_s := s; hs_buf := buf; hs_bytes := 0 |} [].
Proof.
  intros HB Hl. split; cbn [hs_s hs_buf hs_bytes length]; [by rewrite absorb_short by (cbn; lia)| |done|done].
  rewrite Nat.Div0.mod_0_l, Nat.Div0.div_0_l, take_0. by rewrite drop_nil.
Qed.

Section held.
Context {St : Type} (B : nat) (T : St -> list Z -> St) (HB : (0 < B)%nat) (Hdiv : (Z.of_nat B | 2 ^ 64)).

Lemma writes_hold s0 l : forall h m, holds B T s0 h m -> holds B T s0 (foldl (Write B T) h l) (m ++ mjoin l).
Proof using HB Hdiv.
  induction l as [|d l IH]; intros h m Hh; [cbn; by rewrite app_nil_r|]. cbn [foldl]. change (mjoin (d :: l)) with (d ++ mjoin l).
  rewrite app_assoc. apply IH. by apply Write_holds.
Qed.

(** The buffer keeps its size, whatever is written. *)
Lemma finish_buf s0 h m lenbytes encode : holds B T s0 h m -> length (hs_buf (finish B T lenbytes encode h)) = B.
Proof using HB Hdiv. intros Hh. unfold finish. eapply ho_len, Write_holds; [done..|]. by apply Write_holds. Qed.
End held.

Lemma div_64 : (Z.of_nat 64 | 2 ^ 64).
Proof. exists (2 ^ 58). reflexivity. Qed.
Lemma div_128 : (Z.of_nat 128 | 2 ^ 64).
Proof. exists (2 ^ 57). reflexivity. Qed.

(** ** One hasher *)
Lemma CSHA256_holds h m : holds 64 sha256.Transform sha256.Initialize h m ->
  (CSHA256_Finalize h).2 = SHA256 m /\ length (hs_buf (CSHA256_Finalize h).1) = 64%nat.
Proof.
  intros Hh. unfold CSHA256_Finalize, SHA256. cbn [fst snd].
  destruct (finish_spec 64 sha256.Transform ltac:(lia) div_64 8 WriteBE64 _ h m Hh ltac:(lia) (length_be_bytes 8)) as [-> _]. split; [done|].
  by eapply finish_buf; [lia|exact div_64|].
Qed.

Lemma CSHA512_holds h m : holds 128 sha512.Transform sha512.Initialize h m ->
  (CSHA512_Finalize h).2 = SHA512 m /\ length (hs_buf (CSHA512_Finalize h).1) = 128%nat.
Proof.
  intros Hh. unfold CSHA512_Finalize, SHA512. cbn [fst snd].
  destruct (finish_spec 128 sha512.Transform ltac:(lia) div_128 16 sizedesc512 _ h m Hh ltac:(lia)) as [-> _].
  { intros x. unfold sizedesc512, WriteBE64. by rewrite length_app, length_replicate, length_be_bytes. }
  split; [done|]. by eapply finish_buf; [lia|exact div_128|].
Qed.

(** A hasher that was reset starts anew. *)
Lemma CHash256_holds h m : holds 64 sha256.Transform sha256.Initialize h m -> CHash256_Finalize h = SHA256 (SHA256 m).
Proof.
  intros Hh. unfold CHash256_Finalize. destruct (CSHA256_holds h m Hh) as [E Hl]. destruct (CSHA256_Finalize h) as [h' out]. cbn [fst snd] in *. subst out.
  apply (CSHA256_holds _ (SHA256 m)). unfold CSHA256_Write, CSHA256_Reset. rewrite <-(app_nil_l (SHA256 m)). apply Write_holds; [lia|exact div_64|].
  by apply new_holds; [lia|].
Qed.

Lemma CSHA256_writes buf l : length buf = 64%nat -> holds 64 sha256.Transform sha256.Initialize (foldl CSHA256_Write (CSHA256_new buf) l) (mjoin l).
Proof. intros Hb. apply (writes_hold 64 sha256.Transform ltac:(lia) div_64 _ l _ []). by apply new_holds; [lia|]. Qed.

Lemma CSHA512_writes buf l : length buf = 128%nat -> holds 128 sha512.Transform sha512.Initialize (foldl CSHA512_Write (CSHA512_new buf) l) (mjoin l).
Proof. intros Hb. apply (writes_hold 128 sha512.Transform ltac:(lia) div_128 _ l _ []). by apply new_holds; [lia|]. Qed.

Lemma Hash2_spec buf p1 p2 : length buf = 64%nat -> Hash2 buf p1 p2 = SHA256 (SHA256 (p1 ++ p2)).
Proof.
  intros Hb. unfold Hash2. apply CHash256_holds. pose proof (CSHA256_writes buf [p1; p2] Hb) as H. cbn in H. by rewrite app_nil_r in H.
Qed.

(** ** The double hash of 64 bytes *)
Lemma add_regs_comm wrap s r : add_regs wrap s r = add_regs wrap r s.
Proof.
  destruct s as [[[[[[[s0 s1] s2] s3] s4] s5] s6] s7], r as [[[[[[[a b] c] d] e] f] g] h]. unfold add_regs.
  by rewrite (Z.add_comm a), (Z.add_comm b), (Z.add_comm c), (Z.add_comm d), (Z.add_comm e), (Z.add_comm f), (Z.add_comm g), (Z.add_comm h).
Qed.

Lemma drop_words ws i : drop (4 * i) (mjoin (WriteBE32 <$> ws)) = mjoin (WriteBE32 <$> drop i ws).
Proof.
  revert i. induction ws as [|w ws IH]; intros [|i]; [done|by rewrite !drop_nil|done|].
  change (mjoin (WriteBE32 <$> w :: ws)) with (WriteBE32 w ++ mjoin (WriteBE32 <$> ws)). cbn [drop]. rewrite <-IH.
  rewrite drop_app_ge; unfold WriteBE32; rewrite length_be_bytes; [|lia]. f_equal. lia.
Qed.

Lemma words_of ws : length ws = 16%nat -> words ReadBE32 4 (mjoin (WriteBE32 <$> ws)) = u32 <$> ws.
Proof.
  intros Hl. unfold words. apply list_eq. intros i. rewrite list_lookup_fmap. destruct (decide (i < 16)%nat) as [Hi|Hi].
  - rewrite lookup_seq_lt by done. cbn [fmap option_fmap option_map Nat.add]. rewrite drop_words. destruct (lookup_lt_is_Some_2 ws i ltac:(lia)) as [w Hw].
    rewrite list_lookup_fmap, Hw. cbn. f_equal. rewrite (drop_S ws w i Hw). unfold ReadBE32.
    change (mjoin (WriteBE32 <$> w :: drop (S i) ws)) with (WriteBE32 w ++ mjoin (WriteBE32 <$> drop (S i) ws)). unfold WriteBE32 at 1.
    rewrite take_app_length' by (by rewrite length_be_bytes). by rewrite be_value_bytes.
  - rewrite lookup_seq_ge by lia. rewrite list_lookup_fmap, lookup_ge_None_2 by lia. done.
Qed.

(** The constants with the padding of a 64-byte message folded in. *)
Lemma second_keys : sha256.round_keys (words ReadBE32 4 (0x80 :: replicate 61 0 ++ [2; 0])) = sha256.K2.
Proof. vm_compute. reflexivity. Qed.

Definition pad_words : list Z := [0x80000000; 0; 0; 0; 0; 0; 0; 0x100].

Lemma third_expand w0 w1 w2 w3 w4 w5 w6 w7 : let w := sha256.third_words w0 w1 w2 w3 w4 w5 w6 w7 in
  sha256.expand 48 ([w0; w1; w2; w3; w4; w5; w6; w7] ++ pad_words) = w ++ sha256.expand 32 w.
Proof.
  assert (sha256.sigma1 0 = 0 /\ sha256.sigma0 0 = 0 /\ sha256.sigma1 0x100 = 0xa00000 /\ sha256.sigma0 0x80000000 = 0x11002000 /\ sha256.sigma0 0x100 = 0x400022)
    as (E1 & E2 & E3 & E4 & E5) by (by vm_compute).
  change 48%nat with (16 + 32)%nat. generalize 32%nat as n. intros n. unfold pad_words, sha256.third_words.
  cbn [app Nat.add sha256.expand sha256.next_word tail]. rewrite !E1, !E2, !E3, !E4, !E5, ?Z.add_0_l, ?Z.add_0_r, !Z.add_assoc. reflexivity.
Qed.

Lemma third_keys_spec r : sha256.round_keys (regs_list r ++ pad_words) = sha256.third_keys r.
Proof.
  destruct r as [[[[[[[w0 w1] w2] w3] w4] w5] w6] w7]. unfold sha256.round_keys, sha256.third_keys, regs_list. rewrite third_expand.
  generalize (sha256.third_words w0 w1 w2 w3 w4 w5 w6 w7) as w. intros w. generalize (w ++ sha256.expand 32 w) as l. intros l.
  rewrite <-app_assoc. change sha256.K with (take 8 sha256.K ++ (take 8 (drop 8 sha256.K) ++ drop 16 sha256.K)) at 1.
  rewrite zip_with_app, zip_with_app by reflexivity. reflexivity.
Qed.

(** A message of whole words, padded, when its length is known. *)
Lemma padded_64 m : length m = 64%nat -> padded 64 8 WriteBE64 m = m ++ (0x80 :: replicate 61 0 ++ [2; 0]).
Proof. intros Hl. unfold padded. rewrite Hl. f_equal; vm_compute; reflexivity. Qed.

Lemma padded_32 m : length m = 32%nat -> padded 64 8 WriteBE64 m = m ++ (0x80 :: replicate 29 0 ++ [1; 0]).
Proof. intros Hl. unfold padded. rewrite Hl. f_equal; vm_compute; reflexivity. Qed.

Lemma length_words_bytes r : length (mjoin (WriteBE32 <$> regs_list r)) = 32%nat.
Proof. destruct r as [[[[[[[w0 w1] w2] w3] w4] w5] w6] w7]. cbn. unfold WriteBE32. by rewrite !length_app, !length_be_bytes. Qed.

Lemma SHA256_64 m : length m = 64%nat ->
  SHA256 m = mjoin (WriteBE32 <$> regs_list (sha256.Transform (sha256.Transform sha256.Initialize m) (0x80 :: replicate 61 0 ++ [2; 0]))).
Proof.
  intros Hl. unfold SHA256. rewrite padded_64 by done. rewrite (absorb_full 64 sha256.Transform ltac:(lia) _ 1) by lia. by rewrite !absorb_block by (done || lia).
Qed.

Lemma SHA256_32 m : length m = 32%nat ->
  SHA256 m = mjoin (WriteBE32 <$> regs_list (sha256.Transform sha256.Initialize (m ++ 0x80 :: replicate 29 0 ++ [1; 0]))).
Proof. intros Hl. unfold SHA256. rewrite padded_32 by done. rewrite absorb_block; [done|lia|]. rewrite length_app, Hl. done. Qed.

Lemma TransformD64Wrapper_hash input : length input = 64%nat -> TransformD64Wrapper sha256.Transform input = SHA256 (SHA256 input).
Proof. intros Hl. rewrite (SHA256_64 input Hl), SHA256_32 by apply length_words_bytes. reflexivity. Qed.

(** The words that the second transformation leaves go into the third one as they
    are. *)
Lemma third_block s r : words ReadBE32 4 (mjoin (WriteBE32 <$> regs_list (add_regs u32 s r)) ++ 0x80 :: replicate 29 0 ++ [1; 0]) = regs_list (add_regs u32 s r) ++ pad_words.
Proof.
  assert (0x80 :: replicate 29 0 ++ [1; 0] = mjoin (WriteBE32 <$> pad_words)) as -> by (vm_compute; reflexivity).
  rewrite <-join_app, <-fmap_app. rewrite words_of.
  2: { rewrite length_app. destruct s as [[[[[[[? ?] ?] ?] ?] ?] ?] ?], r as [[[[[[[? ?] ?] ?] ?] ?] ?] ?]. reflexivity. }
  rewrite fmap_app. change (u32 <$> pad_words) with pad_words. f_equal.
  destruct s as [[[[[[[? ?] ?] ?] ?] ?] ?] ?], r as [[[[[[[? ?] ?] ?] ?] ?] ?] ?]. cbn. unfold wrapU. by rewrite !Zmod_mod.
Qed.

Lemma TransformD64_hash input : length input = 64%nat -> sha256.TransformD64 input = SHA256 (SHA256 input).
Proof.
  intros Hl. rewrite <-TransformD64Wrapper_hash by done. unfold TransformD64Wrapper, sha256.TransformD64.
  set (s1 := sha256.Transform sha256.Initialize input). set (pad1 := 0x80 :: replicate 61 0 ++ [2; 0]).
  assert (add_regs u32 (foldl sha256.Round sha256.Initialize (sha256.round_keys (words ReadBE32 4 input))) sha256.Initialize = s1) as -> by apply add_regs_comm.
  assert (add_regs u32 s1 (foldl sha256.Round s1 sha256.K2) = sha256.Transform s1 pad1) as E2 by (unfold sha256.Transform; subst pad1; by rewrite second_keys).
  rewrite E2. f_equal. f_equal. f_equal. unfold sha256.Transform at 2. rewrite add_regs_comm. f_equal. f_equal. rewrite <-third_keys_spec. f_equal.
  unfold sha256.Transform. symmetry. apply third_block.
Qed.

(** ** Keyed hashes *)
Definition hmac_key (B : nat) (H : list Z -> list Z) (key : list Z) : list Z :=
  let k := if (length key <=? B)%nat then key else H key in k ++ replicate (B - length k) 0.

(** The keyed hash as RFC 2104 defines it. *)
Definition HMAC (B : nat) (H : list Z -> list Z) (key m : list Z) : list Z :=
  H (xor_bytes 0x5c (hmac_key B H key) ++ H (xor_bytes 0x36 (hmac_key B H key) ++ m)).

Lemma xor_bytes_twice l : xor_bytes (Z.lxor 0x5c 0x36) (xor_bytes 0x5c l) = xor_bytes 0x36 l.
Proof.
  unfold xor_bytes. rewrite <-list_fmap_compose. apply list_fmap_ext. intros i x _. cbn [compose]. rewrite <-Z.lxor_assoc. f_equal.
Qed.

Lemma length_SHA256 m : length (SHA256 m) = 32%nat.
Proof. apply length_words_bytes. Qed.

Lemma length_SHA512 m : length (SHA512 m) = 64%nat.
Proof.
  unfold SHA512. destruct (absorb _ _ _ _) as [[[[[[[w0 w1] w2] w3] w4] w5] w6] w7]. cbn. unfold WriteBE64. by rewrite !length_app, !length_be_bytes.
Qed.

Lemma CHMAC_SHA256_writes l : forall h, foldl CHMAC_SHA256_Write h l = {| hm_outer := hm_outer h; hm_inner := foldl CSHA256_Write (hm_inner h) l |}.
Proof. induction l as [|d l IH]; intros h; [by destruct h|]. cbn [foldl]. by rewrite IH. Qed.

Lemma CHMAC_SHA512_writes l : forall h, foldl CHMAC_SHA512_Write h l = {| hm_outer := hm_outer h; hm_inner := foldl CSHA512_Write (hm_inner h) l |}.
Proof. induction l as [|d l IH]; intros h; [by destruct h|]. cbn [foldl]. by rewrite IH. Qed.

(** Any hasher that gives the hash of what was written gives the keyed hash. *)
Lemma hmac_two {St} (B : nat) (H : list Z -> list Z) (W : Hasher -> list Z -> Hasher (St := St)) (F : Hasher -> list Z) (h0 : Hasher) k l :
  (forall l, F (foldl W h0 l) = H (mjoin l)) -> F (W (W h0 (xor_bytes 0x5c k)) (F (foldl W (W h0 (xor_bytes 0x36 k)) l))) = H (xor_bytes 0x5c k ++ H (xor_bytes 0x36 k ++ mjoin l)).
Proof.
  intros Honce. rewrite (Honce (xor_bytes 0x36 k :: l) : F (foldl W (W h0 (xor_bytes 0x36 k)) l) = _).
  rewrite (Honce [xor_bytes 0x5c k; H (mjoin (xor_bytes 0x36 k :: l))] : F (W (W h0 _) _) = _). cbn [mjoin list_join]. by rewrite app_nil_r.
Qed.

Lemma CSHA256_once buf l : length buf = 64%nat -> (CSHA256_Finalize (foldl CSHA256_Write (CSHA256_new buf) l)).2 = SHA256 (mjoin l).
Proof. intros Hb. exact (proj1 (CSHA256_holds _ _ (CSHA256_writes buf l Hb))). Qed.

Lemma CSHA512_once buf l : length buf = 128%nat -> (CSHA512_Finalize (foldl CSHA512_Write (CSHA512_new buf) l)).2 = SHA512 (mjoin l).
Proof. intros Hb. exact (proj1 (CSHA512_holds _ _ (CSHA512_writes buf l Hb))). Qed.

Lemma CHMAC_SHA256_spec buf key l : length buf = 64%nat ->
  CHMAC_SHA256_Finalize (foldl CHMAC_SHA256_Write (CHMAC_SHA256_new buf key) l) = HMAC 64 SHA256 key (mjoin l).
Proof.
  intros Hb. rewrite CHMAC_SHA256_writes. unfold CHMAC_SHA256_Finalize, CHMAC_SHA256_new. cbn [hm_outer hm_inner]. rewrite xor_bytes_twice.
  set (rkey := if (length key <=? 64)%nat then _ else _). assert (rkey = hmac_key 64 SHA256 key) as ->.
  { subst rkey. unfold hmac_key. destruct (length key <=? 64)%nat; [done|].
    rewrite (CSHA256_once buf [key] Hb : (CSHA256_Finalize (CSHA256_Write _ key)).2 = _). cbn [mjoin list_join]. rewrite app_nil_r, length_SHA256. done. }
  apply (hmac_two 64 SHA256 CSHA256_Write (fun h => (CSHA256_Finalize h).2)). intros l'. by apply CSHA256_once.
Qed.

Lemma CHMAC_SHA512_spec buf key l : length buf = 128%nat ->
  CHMAC_SHA512_Finalize (foldl CHMAC_SHA512_Write (CHMAC_SHA512_new buf key) l) = HMAC 128 SHA512 key (mjoin l).
Proof.
  intros Hb. rewrite CHMAC_SHA512_writes. unfold CHMAC_SHA512_Finalize, CHMAC_SHA512_new. cbn [hm_outer hm_inner]. rewrite xor_bytes_twice.
  set (rkey := if (length key <=? 128)%nat then _ else _). assert (rkey = hmac_key 128 SHA512 key) as ->.
  { subst rkey. unfold hmac_key. destruct (length key <=? 128)%nat; [done|].
    rewrite (CSHA512_once buf [key] Hb : (CSHA512_Finalize (CSHA512_Write _ key)).2 = _). cbn [mjoin list_join]. rewrite app_nil_r, length_SHA512. done. }
  apply (hmac_two 128 SHA512 CSHA512_Write (fun h => (CSHA512_Finalize h).2)). intros l'. by apply CSHA512_once.
Qed.

(** ** The theorems *)

(** C34: The hashers refine the hash of a message.  Whatever the uninitialised
    buffer holds and however a message is cut into pieces, CSHA256, CSHA512 and the
    double hash give the hash of the whole message, padded as the standard says, and
    the keyed hashes give HMAC of the key and the message. *)
Theorem hashers_refine buf buf2 key (l : list (list Z)) : length buf = 64%nat -> length buf2 = 128%nat ->
  (CSHA256_Finalize (foldl CSHA256_Write (CSHA256_new buf) l)).2 = SHA256 (mjoin l) /\
  CHash256_Finalize (foldl CSHA256_Write (CSHA256_new buf) l) = SHA256 (SHA256 (mjoin l)) /\
  (CSHA512_Finalize (foldl CSHA512_Write (CSHA512_new buf2) l)).2 = SHA512 (mjoin l) /\
  CHMAC_SHA256_Finalize (foldl CHMAC_SHA256_Write (CHMAC_SHA256_new buf key) l) = HMAC 64 SHA256 key (mjoin l) /\
  CHMAC_SHA512_Finalize (foldl CHMAC_SHA512_Write (CHMAC_SHA512_new buf2 key) l) = HMAC 128 SHA512 key (mjoin l).
Proof.
  intros Hb Hb2. split_and!; [by apply CSHA256_once|by apply CHash256_holds, CSHA256_writes|by apply CSHA512_once|by apply CHMAC_SHA256_spec|by apply CHMAC_SHA512_spec].
Qed.

(** The double hash of 64 bytes in one go, with the padding of both messages
    folded into the constants of the rounds, is the double hash of the generic
    hasher, however the 64 bytes are cut, and the one built from any three calls of
    the transformation. *)
Theorem TransformD64_equiv buf p1 p2 : length buf = 64%nat -> length (p1 ++ p2) = 64%nat ->
  sha256.TransformD64 (p1 ++ p2) = Hash2 buf p1 p2 /\ sha256.TransformD64 (p1 ++ p2) = TransformD64Wrapper sha256.Transform (p1 ++ p2).
Proof. intros Hb Hl. by rewrite Hash2_spec, TransformD64_hash, TransformD64Wrapper_hash. Qed.
