(* ===== verification/Sha1.v ===== *)
(** * SHA-1 (src/src/crypto/sha1.cpp)

    As for SHA-256: the rounds, which the code writes out with the names of the
    registers rotated, are a fold; Write and the padding are those of [HashStream]. *)

From S2P Require Import Prelude Serialize BetKeys HashStream Sha2.

(** The five registers, in the order of the next round. *)
Definition regs5 : Type := Z * Z * Z * Z * Z.
Definition regs5_list (r : regs5) : list Z := let '(a, b, c, d, e) := r in [a; b; c; d; e].

Definition rol (x i : Z) : Z := Z.lor (u32 (Z.shiftl x i)) (Z.shiftr x (32 - i)).
Definition not32 (x : Z) : Z := u32 (Z.lnot x).

Definition Initialize160 : regs5 := (0x67452301, 0xEFCDAB89, 0x98BADCFE, 0x10325476, 0xC3D2E1F0).

(** ** SHA-1 *)
Module sha1.
Definition f1 (b c d : Z) : Z := Z.lxor d (Z.land b (Z.lxor c d)).
Definition f2 (b c d : Z) : Z := Z.lxor (Z.lxor b c) d.
Definition f3 (b c d : Z) : Z := Z.lor (Z.land b c) (Z.land d (Z.lor b c)).
Definition k1 : Z := 0x5A827999.
Definition k2 : Z := 0x6ED9EBA1.
Definition k3 : Z := 0x8F1BBCDC.
Definition k4 : Z := 0xCA62C1D6.

Definition Round (r : regs5) (fkw : (Z -> Z -> Z -> Z) * Z * Z) : regs5 :=
  let '(a, b, c, d, e) := r in let '(f, k, w) := fkw in
  (u32 (e + (rol a 5 + f b c d + k + w)), a, rol b 30, c, d).

(** The function and the constant of each round. *)
Definition phases : list ((Z -> Z -> Z -> Z) * Z) :=
  replicate 20 (f1, k1) ++ replicate 20 (f2, k2) ++ replicate 20 (f3, k3) ++ replicate 20 (f2, k4).

(** The next message word, from the window of the last sixteen. *)
Definition next_word (w : list Z) : Z :=
  match w with
  | [w0; _; w2; _; _; _; _; _; w8; _; _; _; _; w13; _; _] => rol (Z.lxor (Z.lxor (Z.lxor w0 w13) w8) w2) 1
  | _ => 0
  end.

Fixpoint expand (n : nat) (w : list Z) : list Z :=
  match n with
  | O => []
  | S n => next_word w :: expand n (tail w ++ [next_word w])
  end.

Definition Transform (s : regs5) (chunk : list Z) : regs5 :=
  let w := words ReadBE32 4 chunk in
  let '(a, b, c, d, e) := foldl Round s (zip phases (w ++ expand 64 w)) in let '(s0, s1, s2, s3, s4) := s in
  (u32 (s0 + a), u32 (s1 + b), u32 (s2 + c), u32 (s3 + d), u32 (s4 + e)).
End sha1.

Definition CSHA1 : Type := Hasher (St := regs5).
Definition CSHA1_new (buf : list Z) : CSHA1 := {| hs_s := Initialize160; hs_buf := buf; hs_bytes := 0 |}.
Definition CSHA1_Write (h : CSHA1) (data : list Z) : CSHA1 := Write 64 sha1.Transform h data.
Definition CSHA1_Finalize (h : CSHA1) : CSHA1 * list Z :=
  let h := finish 64 sha1.Transform 8 WriteBE64 h in (h, mjoin (WriteBE32 <$> regs5_list (hs_s h))).
