(* ===== verification/Hash160.v ===== *)
(** * RIPEMD-160 and the 160-bit hash
    (src/src/crypto/ripemd160.cpp, CHash160 of src/src/hash.h)

    As for SHA-256: the rounds, which the code writes out with the names of the
    registers rotated, are a fold; Write and the padding are those of [HashStream]. *)

From S2P Require Import Prelude Serialize BetKeys HashStream Sha2 Sha512 Sha2Proofs Sha1.

(** ** RIPEMD-160 *)
Definition ReadLE32 (ptr : list Z) : Z := le_value (take 4 ptr).

Module ripemd160.
Definition f1 (x y z : Z) : Z := Z.lxor (Z.lxor x y) z.
Definition f2 (x y z : Z) : Z := Z.lor (Z.land x y) (Z.land (not32 x) z).
Definition f3 (x y z : Z) : Z := Z.lxor (Z.lor x (not32 y)) z.
Definition f4 (x y z : Z) : Z := Z.lor (Z.land x z) (Z.land y (not32 z)).
Definition f5 (x y z : Z) : Z := Z.lxor x (Z.lor y (not32 z)).

(** One round: the function and its constant, the message word and the rotation. *)
Definition Round (w : list Z) (s : regs5) (fk : (Z -> Z -> Z -> Z) * Z * (nat * Z)) : regs5 :=
  let '(a, b, c, d, e) := s in let '(f, k, (i, r)) := fk in
  (e, u32 (rol (u32 (a + f b c d + default 0 (w !! i) + k)) r + e), b, rol c 10, d).

(** The two lines: R11 to R51 and R12 to R52. *)
Definition phases1 : list ((Z -> Z -> Z -> Z) * Z) :=
  replicate 16 (f1, 0) ++ replicate 16 (f2, 0x5A827999) ++ replicate 16 (f3, 0x6ED9EBA1) ++ replicate 16 (f4, 0x8F1BBCDC) ++ replicate 16 (f5, 0xA953FD4E).
Definition phases2 : list ((Z -> Z -> Z -> Z) * Z) :=
  replicate 16 (f5, 0x50A28BE6) ++ replicate 16 (f4, 0x5C4DD124) ++ replicate 16 (f3, 0x6D703EF3) ++ replicate 16 (f2, 0x7A6D76E9) ++ replicate 16 (f1, 0).

Definition line1 : list (nat * Z) :=
  [(0%nat, 11); (1%nat, 14); (2%nat, 15); (3%nat, 12); (4%nat, 5); (5%nat, 8); (6%nat, 7); (7%nat, 9);
   (8%nat, 11); (9%nat, 13); (10%nat, 14); (11%nat, 15); (12%nat, 6); (13%nat, 7); (14%nat, 9); (15%nat, 8);
   (7%nat, 7); (4%nat, 6); (13%nat, 8); (1%nat, 13); (10%nat, 11); (6%nat, 9); (15%nat, 7); (3%nat, 15);
   (12%nat, 7); (0%nat, 12); (9%nat, 15); (5%nat, 9); (2%nat, 11); (14%nat, 7); (11%nat, 13); (8%nat, 12);
   (3%nat, 11); (10%nat, 13); (14%nat, 6); (4%nat, 7); (9%nat, 14); (15%nat, 9); (8%nat, 13); (1%nat, 15);
   (2%nat, 14); (7%nat, 8); (0%nat, 13); (6%nat, 6); (13%nat, 5); (11%nat, 12); (5%nat, 7); (12%nat, 5);
   (1%nat, 11); (9%nat, 12); (11%nat, 14); (10%nat, 15); (0%nat, 14); (8%nat, 15); (12%nat, 9); (4%nat, 8);
   (13%nat, 9); (3%nat, 14); (7%nat, 5); (15%nat, 6); (14%nat, 8); (5%nat, 6); (6%nat, 5); (2%nat, 12);
   (4%nat, 9); (0%nat, 15); (5%nat, 5); (9%nat, 11); (7%nat, 6); (12%nat, 8); (2%nat, 13); (10%nat, 12);
   (14%nat, 5); (1%nat, 12); (3%nat, 13); (8%nat, 14); (11%nat, 11); (6%nat, 8); (15%nat, 5); (13%nat, 6)].
Definition line2 : list (nat * Z) :=
  [(5%nat, 8); (14%nat, 9); (7%nat, 9); (0%nat, 11); (9%nat, 13); (2%nat, 15); (11%nat, 15); (4%nat, 5);
   (13%nat, 7); (6%nat, 7); (15%nat, 8); (8%nat, 11); (1%nat, 14); (10%nat, 14); (3%nat, 12); (12%nat, 6);
   (6%nat, 9); (11%nat, 13); (3%nat, 15); (7%nat, 7); (0%nat, 12); (13%nat, 8); (5%nat, 9); (10%nat, 11);
   (14%nat, 7); (15%nat, 7); (8%nat, 12); (12%nat, 7); (4%nat, 6); (9%nat, 15); (1%nat, 13); (2%nat, 11);
   (15%nat, 9); (5%nat, 7); (1%nat, 15); (3%nat, 11); (7%nat, 8); (14%nat, 6); (6%nat, 6); (9%nat, 14);
   (11%nat, 12); (8%nat, 13); (12%nat, 5); (2%nat, 14); (10%nat, 13); (0%nat, 13); (4%nat, 7); (13%nat, 5);
   (8%nat, 15); (6%nat, 5); (4%nat, 8); (1%nat, 11); (3%nat, 14); (11%nat, 14); (15%nat, 6); (0%nat, 14);
   (5%nat, 6); (12%nat, 9); (2%nat, 12); (13%nat, 9); (9%nat, 12); (7%nat, 5); (10%nat, 15); (14%nat, 8);
   (12%nat, 8); (15%nat, 5); (10%nat, 12); (4%nat, 9); (1%nat, 12); (5%nat, 5); (8%nat, 14); (7%nat, 6);
   (6%nat, 8); (2%nat, 13); (13%nat, 6); (14%nat, 5); (0%nat, 15); (3%nat, 13); (9%nat, 11); (11%nat, 11)].

Definition Transform (s : regs5) (chunk : list Z) : regs5 :=
  let w := words ReadLE32 4 chunk in
  let '(a1, b1, c1, d1, e1) := foldl (Round w) s (zip phases1 line1) in
  let '(a2, b2, c2, d2, e2) := foldl (Round w) s (zip phases2 line2) in
  let '(s0, s1, s2, s3, s4) := s in
  (u32 (s1 + c1 + d2), u32 (s2 + d1 + e2), u32 (s3 + e1 + a2), u32 (s4 + a1 + b2), u32 (s0 + b1 + c2)).
End ripemd160.

Definition CRIPEMD160 : Type := Hasher (St := regs5).
Definition CRIPEMD160_new (buf : list Z) : CRIPEMD160 := {| hs_s := Initialize160; hs_buf := buf; hs_bytes := 0 |}.
Definition CRIPEMD160_Write (h : CRIPEMD160) (data : list Z) : CRIPEMD160 := Write 64 ripemd160.Transform h data.
Definition CRIPEMD160_Finalize (h : CRIPEMD160) : CRIPEMD160 * list Z :=
  let h := finish 64 ripemd160.Transform 8 (le_bytes 8) h in (h, mjoin (le_bytes 4 <$> regs5_list (hs_s h))).

(** CHash160::Finalize: the buffer of the second hasher is not initialised either. *)
Definition CHash160_Finalize (buf : list Z) (sha : CSHA256) : list Z :=
  (CRIPEMD160_Finalize (CRIPEMD160_Write (CRIPEMD160_new buf) (CSHA256_Finalize sha).2)).2.

(** ** The hashes of a message *)
Definition SHA1 (m : list Z) : list Z :=
  mjoin (WriteBE32 <$> regs5_list (absorb 64 sha1.Transform Initialize160 (padded 64 8 WriteBE64 m))).
Definition RIPEMD160 (m : list Z) : list Z :=
  mjoin (le_bytes 4 <$> regs5_list (absorb 64 ripemd160.Transform Initialize160 (padded 64 8 (le_bytes 8) m))).

Lemma CSHA1_holds h m : holds 64 sha1.Transform Initialize160 h m -> (CSHA1_Finalize h).2 = SHA1 m.
Proof.
  intros Hh. unfold CSHA1_Finalize, SHA1. cbn [fst snd].
  by destruct (finish_spec 64 sha1.Transform ltac:(lia) div_64 8 WriteBE64 _ h m Hh ltac:(lia) (length_be_bytes 8)) as [-> _].
Qed.

Lemma CRIPEMD160_holds h m : holds 64 ripemd160.Transform Initialize160 h m -> (CRIPEMD160_Finalize h).2 = RIPEMD160 m.
Proof.
  intros Hh. unfold CRIPEMD160_Finalize, RIPEMD160. cbn [fst snd].
  by destruct (finish_spec 64 ripemd160.Transform ltac:(lia) div_64 8 (le_bytes 8) _ h m Hh ltac:(lia) (length_le_bytes 8)) as [-> _].
Qed.

(** A hasher over five registers gives the hash of everything that was written to
    it, and the 160-bit hash is RIPEMD-160 of SHA-256. *)
Lemma hashers160_refine buf buf2 l : length buf = 64%nat -> length buf2 = 64%nat ->
  (CSHA1_Finalize (foldl CSHA1_Write (CSHA1_new buf) l)).2 = SHA1 (mjoin l) /\
  (CRIPEMD160_Finalize (foldl CRIPEMD160_Write (CRIPEMD160_new buf) l)).2 = RIPEMD160 (mjoin l) /\
  CHash160_Finalize buf2 (foldl CSHA256_Write (CSHA256_new buf) l) = RIPEMD160 (SHA256 (mjoin l)).
Proof.
  intros Hb Hb2. split; [|split].
  - apply CSHA1_holds. apply (writes_hold 64 sha1.Transform ltac:(lia) div_64 _ l _ []). by apply new_holds; [lia|].
  - apply CRIPEMD160_holds. apply (writes_hold 64 ripemd160.Transform ltac:(lia) div_64 _ l _ []). by apply new_holds; [lia|].
  - unfold CHash160_Finalize. rewrite (proj1 (CSHA256_holds _ _ (CSHA256_writes buf l Hb))). apply CRIPEMD160_holds.
    rewrite <-(app_nil_l (SHA256 _)). apply Write_holds; [lia|exact div_64|]. by apply new_holds; [lia|].
Qed.

(** ** Known results *)
Example sha1_abc : be_value (CSHA1_Finalize (CSHA1_Write (CSHA1_new (replicate 64 7)) text_abc)).2 = 0xa9993e364706816aba3e25717850c26c9cd0d89d.
Proof. vm_compute. reflexivity. Qed.
Example ripemd160_abc : be_value (CRIPEMD160_Finalize (CRIPEMD160_Write (CRIPEMD160_new (replicate 64 7)) text_abc)).2 = 0x8eb208f7e05d987a9b044a8e98c6b087f15a0bfc.
Proof. vm_compute. reflexivity. Qed.
