(* ===== verification/Merkle.v ===== *)
(** * Merkle trees
    (src/src/consensus/merkle.cpp, src/src/merkleblock.cpp, merkleblock.h)

    The root of a list of transaction ids, with the detection of lists that were
    changed without changing the root; and the partial trees that prove to a light
    client which transactions a block has.  An index outside a vector and a failed
    assertion are [None]; positions are below 2^31, so that they fit the width of the
    code.
    [Hash] of two hashes is computed with a cleared buffer (see [hashers_refine]). *)

From S2P Require Import Prelude Serialize Params BetKeys TxVerify HashStream Sha2.

Definition MAX_DIP0001_BLOCK_SIZE : Z := 2000000.
Definition MaxBlockSize (fDIP0001Active : bool) : Z := if fDIP0001Active then MAX_DIP0001_BLOCK_SIZE else MAX_LEGACY_BLOCK_SIZE.

(** ** Roots *)

(** The vector of hashes as bytes, and back. *)
Definition hashes_bytes (hashes : list uint256) : list Z := mjoin (be_bytes 32 <$> hashes).
Fixpoint bytes_hashes (n : nat) (bytes : list Z) : list uint256 :=
  match n with
  | O => []
  | S n => be_value (take 32 bytes) :: bytes_hashes n (drop 32 bytes)
  end.

(** The next level; SHA256D64 writes over its input. *)
Definition next_level (hashes : list uint256) : list uint256 :=
  let hashes := if Nat.odd (length hashes) then hashes ++ from_option (fun x => [x]) [] (last hashes) else hashes in
  bytes_hashes (length hashes / 2) (SHA256D64 (hashes_bytes hashes) (length hashes / 2)).

(** Whether two hashes at positions 2i and 2i + 1 are the same. *)
Fixpoint has_equal_pair (hashes : list uint256) : bool :=
  match hashes with
  | a :: b :: hashes => (a =? b) || has_equal_pair hashes
  | _ => false
  end.

Fixpoint merkle_loop (fuel : nat) (hashes : list uint256) (mutation : bool) : option (list uint256 * bool) :=
  if (1 <? length hashes)%nat then
    match fuel with
    | O => None
    | S fuel => merkle_loop fuel (next_level hashes) (mutation || has_equal_pair hashes)
    end
  else Some (hashes, mutation).

(** {root, *mutated} *)
Definition ComputeMerkleRoot (hashes : list uint256) : option (uint256 * bool) :=
  '(hashes, mutation) ← merkle_loop (length hashes) hashes false;
  Some (from_option id 0 (head hashes), mutation).

(** ** Bits and bytes *)
Definition bits_byte (bits : list bool) : Z := foldr (fun (b : bool) x => Z.b2z b + 2 * x) 0 bits.

Fixpoint BitsToBytes_loop (n : nat) (bits : list bool) : list Z :=
  match n with
  | O => []
  | S n => bits_byte (take 8 bits) :: BitsToBytes_loop n (drop 8 bits)
  end.
Definition BitsToBytes (bits : list bool) : list Z := BitsToBytes_loop ((length bits + 7) / 8) bits.

Definition BytesToBits (bytes : list Z) : list bool := mjoin ((fun b => (fun p => negb (Z.land b (Z.shiftl 1 (Z.of_nat p)) =? 0)) <$> seq 0 8) <$> bytes).

(** ** Partial trees *)
Record CPartialMerkleTree := {
  pt_nTransactions : Z;
  pt_vBits : list bool;
  pt_vHash : list uint256 }.

Definition CalcTreeWidth (nTransactions : Z) (height : nat) : Z :=
  Z.shiftr (u32 (nTransactions + Z.shiftl 1 (Z.of_nat height) - 1)) (Z.of_nat height).

(** Hash of two hashes. *)
Definition HashPair (hleft hright : uint256) : uint256 := be_value (Hash2 (replicate 64 0) (be_bytes 32 hleft) (be_bytes 32 hright)).

(** The traversals, for the number of transactions and the hash of two hashes. *)
Section tree.
Context (nTransactions : Z) (Hash : uint256 -> uint256 -> uint256).

Fixpoint CalcHash (height : nat) (pos : nat) (vTxid : list uint256) : option uint256 :=
  match height with
  | O => vTxid !! pos
  | S height =>
      hleft ← CalcHash height (pos * 2) vTxid;
      hright ← (if Z.of_nat (pos * 2 + 1) <? CalcTreeWidth nTransactions height then CalcHash height (pos * 2 + 1) vTxid else Some hleft);
      Some (Hash hleft hright)
  end.

(** Whether a leaf below the node is matched. *)
Definition parent_of_match (height pos : nat) (vMatch : list bool) : option bool :=
  let last := Nat.min ((pos + 1) * 2 ^ height) (Z.to_nat nTransactions) in
  if (length vMatch <? last)%nat then None
  else Some (existsb id (take (last - pos * 2 ^ height) (drop (pos * 2 ^ height) vMatch))).

(** The bits and hashes that are added. *)
Fixpoint TraverseAndBuild (height pos : nat) (vTxid : list uint256) (vMatch : list bool) : option (list bool * list uint256) :=
  match parent_of_match height pos vMatch, height with
  | None, _ => None
  | Some fParentOfMatch, O => h ← CalcHash 0 pos vTxid; Some ([fParentOfMatch], [h])
  | Some fParentOfMatch, S height' =>
      if fParentOfMatch then
        '(bits1, hashes1) ← TraverseAndBuild height' (pos * 2) vTxid vMatch;
        '(bits2, hashes2) ← (if Z.of_nat (pos * 2 + 1) <? CalcTreeWidth nTransactions height'
                             then TraverseAndBuild height' (pos * 2 + 1) vTxid vMatch else Some ([], []));
        Some (fParentOfMatch :: bits1 ++ bits2, hashes1 ++ hashes2)
      else h ← CalcHash height pos vTxid; Some ([fParentOfMatch], [h])
  end.

(** nBitsUsed, nHashUsed, vMatch, vnIndex and fBad. *)
Record Extract := { ex_bits : nat; ex_hashes : nat; ex_match : list uint256; ex_index : list Z; ex_bad : bool }.

Definition ex_fail (x : Extract) : Extract :=
  {| ex_bits := ex_bits x; ex_hashes := ex_hashes x; ex_match := ex_match x; ex_index := ex_index x; ex_bad := true |}.

Fixpoint TraverseAndExtract (vBits : list bool) (vHash : list uint256) (height pos : nat) (x : Extract) : Extract * uint256 :=
  match vBits !! ex_bits x with
  | None => (ex_fail x, 0)
  | Some fParentOfMatch =>
      let x := {| ex_bits := S (ex_bits x); ex_hashes := ex_hashes x; ex_match := ex_match x; ex_index := ex_index x; ex_bad := ex_bad x |} in
      match height, fParentOfMatch with
      | S height, true =>
          let '(x, hleft) := TraverseAndExtract vBits vHash height (pos * 2) x in
          let '(x, hright) :=
            if Z.of_nat (pos * 2 + 1) <? CalcTreeWidth nTransactions height then
              let '(x, hright) := TraverseAndExtract vBits vHash height (pos * 2 + 1) x in
              (if hright =? hleft then ex_fail x else x, hright)
            else (x, hleft) in
          (x, Hash hleft hright)
      | _, _ =>
          match vHash !! ex_hashes x with
          | None => (ex_fail x, 0)
          | Some hash =>
              let matched := (height =? 0)%nat && fParentOfMatch in
              ({| ex_bits := ex_bits x; ex_hashes := S (ex_hashes x);
                  ex_match := ex_match x ++ if matched then [hash] else []; ex_index := ex_index x ++ if matched then [Z.of_nat pos] else [];
                  ex_bad := ex_bad x |}, hash)
          end
      end
  end.
End tree.

(** The least height at which the tree has one node. *)
Fixpoint tree_height_from (fuel : nat) (nTransactions : Z) (nHeight : nat) : option nat :=
  if 1 <? CalcTreeWidth nTransactions nHeight
  then match fuel with O => None | S fuel => tree_height_from fuel nTransactions (S nHeight) end
  else Some nHeight.
Definition tree_height (nTransactions : Z) : option nat := tree_height_from 31 nTransactions 0.

Definition CPartialMerkleTree_new (vTxid : list uint256) (vMatch : list bool) : option CPartialMerkleTree :=
  let nTransactions := u32 (Z.of_nat (length vTxid)) in
  nHeight ← tree_height nTransactions;
  '(bits, hashes) ← TraverseAndBuild nTransactions HashPair nHeight 0 vTxid vMatch;
  Some {| pt_nTransactions := nTransactions; pt_vBits := bits; pt_vHash := hashes |}.

(** The tree as it arrives: the bits are sent in whole bytes. *)
Definition sent (t : CPartialMerkleTree) : CPartialMerkleTree :=
  {| pt_nTransactions := pt_nTransactions t; pt_vBits := BytesToBits (BitsToBytes (pt_vBits t)); pt_vHash := pt_vHash t |}.

(** {root or 0, matches, indices}, for an empty vnIndex; [bad0] is the flag fBad of
    the tree. *)
Definition ExtractMatches (t : CPartialMerkleTree) (bad0 : bool) : option (uint256 * list uint256 * list Z) :=
  let fail := Some (0, [], []) in
  if pt_nTransactions t =? 0 then fail
  else if MaxBlockSize true / 60 <? pt_nTransactions t then fail
  else if pt_nTransactions t <? Z.of_nat (length (pt_vHash t)) then fail
  else if (length (pt_vBits t) <? length (pt_vHash t))%nat then fail
  else
    nHeight ← tree_height (pt_nTransactions t);
    let '(x, hashMerkleRoot) := TraverseAndExtract (pt_nTransactions t) HashPair (pt_vBits t) (pt_vHash t) nHeight 0
                                  {| ex_bits := 0; ex_hashes := 0; ex_match := []; ex_index := []; ex_bad := bad0 |} in
    let root := if ex_bad x then 0
                else if negb ((ex_bits x + 7) / 8 =? (length (pt_vBits t) + 7) / 8)%nat then 0
                else if negb (ex_hashes x =? length (pt_vHash t))%nat then 0
                else hashMerkleRoot in
    Some (root, ex_match x, ex_index x).

(** ** Known trees: appending the last two transactions again keeps the root *)
Example same_root : ComputeMerkleRoot [1; 2; 3; 4; 5; 6; 5; 6] = ((fun r => (r.1, true)) <$> ComputeMerkleRoot [1; 2; 3; 4; 5; 6]) /\
  (snd <$> ComputeMerkleRoot [1; 2; 3; 4; 5; 6]) = Some false.
Proof. split; vm_compute; reflexivity. Qed.
