(* ===== verification/MerkleProofs.v ===== *)
(** * Merkle trees: roots and proofs

    The root of a list determines the list, up to collisions of the hash and
    transaction ids that are inner nodes, when no mutation was detected; and a partial
    tree gives back the root and the transactions that it was built for. *)

From S2P Require Import Prelude Serialize Params BetKeys HashStream Sha2 Sha2Proofs Merkle.

(** ** Levels *)

(** The pairs that are hashed: the last one is doubled when it is alone. *)
Fixpoint pairs (l : list uint256) : list (uint256 * uint256) :=
  match l with
  | a :: b :: l => (a, b) :: pairs l
  | [a] => [(a, a)]
  | [] => []
  end.

Lemma pair_ind (P : list uint256 -> Prop) : P [] -> (forall a, P [a]) -> (forall a b l, P l -> P (a :: b :: l)) -> forall l, P l.
Proof.
  intros H0 H1 H2 l. enough (P l /\ forall a, P (a :: l)) by tauto. induction l as [|b l [IH1 IH2]]; [by split|]. split; [apply IH2|]. intros a. by apply H2.
Qed.

Section levels.
Context (hash2 : uint256 -> uint256 -> uint256).

Definition up (l : list uint256) : list uint256 := uncurry hash2 <$> pairs l.

Lemma up_doubled l x : Nat.odd (length l) = true -> last l = Some x -> up (l ++ [x]) = up l.
Proof.
  induction l as [|a|a b l IH] using pair_ind; intros Ho Hx; [done|by injection Hx as ->|]. cbn [app].
  change (hash2 a b :: up (l ++ [x]) = hash2 a b :: up l). f_equal. apply IH; [done|]. destruct l; [done|]. exact Hx.
Qed.

Lemma length_up l : length (up l) = ((length l + 1) / 2)%nat.
Proof.
  unfold up. rewrite length_fmap. induction l as [|a|a b l IH] using pair_ind; [done|done|]. cbn [pairs length]. rewrite IH.
  replace (S (S (length l)) + 1)%nat with (length l + 1 + 1 * 2)%nat by lia. rewrite Nat.div_add by lia. lia.
Qed.

Lemma up_shorter l : (1 < length l)%nat -> (0 < length (up l) < length l)%nat.
Proof. intros H. rewrite length_up. pose proof (Nat.div_mod_eq (length l + 1) 2). pose proof (Nat.mod_upper_bound (length l + 1) 2). lia. Qed.

(** ** The tree of a list *)

(** The root, whether a level has an equal pair, and all pairs that are hashed. *)
Inductive merkle : list uint256 -> uint256 -> bool -> list (uint256 * uint256) -> Prop :=
  | merkle_leaf r : merkle [r] r false []
  | merkle_node l r m ps : (1 < length l)%nat -> merkle (up l) r m ps -> merkle l r (has_equal_pair l || m) (pairs l ++ ps).

Lemma merkle_total l : l <> [] -> exists r m ps, merkle l r m ps.
Proof.
  induction l as [l IH] using (well_founded_induction (well_founded_ltof _ length)). intros Hl. destruct (decide (1 < length l)%nat) as [Hlen|Hlen].
  - pose proof (up_shorter l Hlen) as Hs. destruct (IH (up l)) as (r & m & ps & Hm); [unfold ltof; lia|by intros E; rewrite E in Hs; cbn in Hs; lia|].
    eexists _, _, _. by apply merkle_node.
  - destruct l as [|r [|]]; [done| |cbn in Hlen; lia]. eexists _, _, _. apply merkle_leaf.
Qed.

Lemma merkle_nonempty l r m ps : merkle l r m ps -> l <> [].
Proof. intros H. destruct H; [done|]. intros ->. cbn in *. lia. Qed.

(** The pairs, computed. *)
Fixpoint hashed_pairs (fuel : nat) (l : list uint256) : list (uint256 * uint256) :=
  match fuel with
  | O => []
  | S fuel => if (1 <? length l)%nat then pairs l ++ hashed_pairs fuel (up l) else []
  end.

Lemma hashed_pairs_spec l r m ps : merkle l r m ps -> forall fuel, (length l <= fuel)%nat -> hashed_pairs fuel l = ps.
Proof.
  induction 1 as [r|l r m ps Hl _ IH]; intros fuel Hf; (destruct fuel as [|fuel]; [cbn in Hf; lia|]); [done|]. cbn [hashed_pairs].
  rewrite (proj2 (Nat.ltb_lt 1 (length l)) Hl). pose proof (up_shorter l Hl). by rewrite IH by lia.
Qed.

(** ** One level: equal hashes come from equal pairs *)
Definition hash_of_pair (p : uint256 * uint256) : uint256 := hash2 p.1 p.2.

Lemma cons_eq {A} (a b : A) l k : a :: l = b :: k -> a = b /\ l = k.
Proof. intros E. by injection E. Qed.

Definition collides (ps qs : list (uint256 * uint256)) : Prop := exists p q, p ∈ ps /\ q ∈ qs /\ p <> q /\ hash_of_pair p = hash_of_pair q.

Lemma collides_mono ps ps' qs qs' : collides ps qs -> ps ⊆ ps' -> qs ⊆ qs' -> collides ps' qs'.
Proof. intros (p & q & Hp & Hq & H) H1 H2. exists p, q. split; [by apply H1|]. split; [by apply H2|done]. Qed.

Lemma pairs_nil l : pairs l = [] -> l = [].
Proof. destruct l as [|a [|b l]]; done. Qed.

(** Pairs with the same hashes are the same, or one of them collides. *)
Lemma same_hashes ps : forall qs, hash_of_pair <$> ps = hash_of_pair <$> qs -> ps = qs \/ collides ps qs.
Proof.
  induction ps as [|p ps IH]; intros [|q qs] E; [by left|discriminate E|discriminate E|]. rewrite !fmap_cons in E. apply cons_eq in E as [E1 E2]. destruct (decide (p = q)) as [->|Hne].
  - destruct (IH qs E2) as [->|Hc]; [by left|]. right. eapply collides_mono; [exact Hc|intros x; by right..].
  - right. exists p, q. split; [left|]. split; [left|done].
Qed.

(** A level without equal pairs is determined by its pairs. *)
Lemma pairs_inj l1 : forall l2, has_equal_pair l1 = false -> has_equal_pair l2 = false -> pairs l1 = pairs l2 -> l1 = l2.
Proof.
  induction l1 as [|a|a b l1 IH] using pair_ind; intros [|c [|d l2]] H1 H2 E; try done; cbn in *.
  - by injection E as -> .
  - injection E as -> Ed El. subst d. rewrite Z.eqb_refl in H2. done.
  - injection E as -> Eb El. subst b. rewrite Z.eqb_refl in H1. done.
  - injection E as -> -> El. apply orb_false_iff in H1 as [_ H1], H2 as [_ H2]. f_equal. f_equal. by apply IH.
Qed.

(** Hashes of upper levels are hashes of pairs. *)
Lemma up_hash l x : x ∈ up l -> exists p, p ∈ pairs l /\ x = hash_of_pair p.
Proof. intros (p & -> & Hp)%list_elem_of_fmap. exists p. split; [done|]. by destruct p. Qed.

Lemma pairs_elem l p : p ∈ pairs l -> p.1 ∈ l /\ p.2 ∈ l.
Proof.
  induction l as [|a|a b l IH] using pair_ind; cbn [pairs]; [by intros ?%not_elem_of_nil|by intros ->%list_elem_of_singleton; split; left|].
  intros [->|Hp]%elem_of_cons; [split; [left|right; left]|]. destruct (IH Hp). split; right; by right.
Qed.

Lemma merkle_pair l r m ps q : merkle l r m ps -> q ∈ ps -> (q.1 ∈ l \/ exists p, p ∈ ps /\ q.1 = hash_of_pair p).
Proof.
  induction 1 as [r|l r m ps Hl _ IH]; [by intros ?%not_elem_of_nil|]. intros [Hq|Hq]%elem_of_app; [left; by apply pairs_elem|].
  right. destruct (IH Hq) as [(p & Hp & E)%up_hash|(p & Hp & E)]; exists p; (split; [apply elem_of_app; tauto|done]).
Qed.

Lemma merkle_root_hash l r m ps : merkle l r m ps -> (1 < length l)%nat -> exists q, q ∈ ps /\ r = hash_of_pair q.
Proof.
  induction 1 as [r|l r m ps Hl Hm IH]; [cbn; lia|]. intros _. destruct (decide (1 < length (up l))%nat) as [Hu|Hu].
  - destruct (IH Hu) as (q & Hq & E). exists q. split; [apply elem_of_app; by right|done].
  - assert (up l = [r]) as Eu by (destruct Hm; [done|lia]). destruct (up_hash l r) as (p & Hp & E); [rewrite Eu; left|]. exists p. split; [apply elem_of_app; by left|done].
Qed.

(** ** The root determines the list *)

(** An element of the list is the hash of a pair, as an inner node is. *)
Definition foreign (l : list uint256) (qs : list (uint256 * uint256)) : Prop := exists x q, x ∈ l /\ q ∈ qs /\ x = hash_of_pair q.

Lemma up_pairs l : up l = hash_of_pair <$> pairs l.
Proof. apply list_fmap_ext. intros i [a b] _. reflexivity. Qed.

(** An upper node of one tree that is a pair of the other. *)
Lemma foreign_up l1 l2 r m ps1 ps2 : merkle (up l2) r m ps2 -> foreign (up l1) ps2 ->
  collides (pairs l1 ++ ps1) (pairs l2 ++ ps2) \/ foreign l1 (pairs l2 ++ ps2).
Proof.
  intros Hm (x & q & (p & Hp & ->)%up_hash & Hq & E). destruct (decide (p = q)) as [->|Hne].
  - right. destruct (pairs_elem _ _ Hp) as [H1 _]. destruct (merkle_pair _ _ _ _ q Hm Hq) as [(p & Hp' & E')%up_hash|(p & Hp' & E')]; exists q.1, p;
      (split; [done|split; [apply elem_of_app; tauto|done]]).
  - left. exists p, q. split; [apply elem_of_app; by left|]. split; [apply elem_of_app; by right|done].
Qed.

Lemma collides_sym ps qs : collides ps qs -> collides qs ps.
Proof. intros (p & q & Hp & Hq & Hne & E). exists q, p. split; [done|]. split; [done|]. split; [congruence|done]. Qed.

Lemma sub_app_r {A} (l k : list A) : k ⊆ l ++ k.
Proof. intros x Hx. apply elem_of_app. by right. Qed.
Lemma sub_app_l {A} (l k : list A) : l ⊆ l ++ k.
Proof. intros x Hx. apply elem_of_app. by left. Qed.

Lemma merkle_unique l1 r m1 ps1 : merkle l1 r m1 ps1 -> forall l2 m2 ps2, merkle l2 r m2 ps2 -> m1 = false -> m2 = false ->
  l1 = l2 \/ collides ps1 ps2 \/ foreign l1 ps2 \/ foreign l2 ps1.
Proof.
  induction 1 as [r|l1 r m1 ps1 Hl1 Hm1 IH]; intros l2 m2 ps2 H2 E1 E2.
  - destruct H2 as [r|l2 r m2 ps2 Hl2 Hm2]; [by left|]. right. right. left.
    destruct (merkle_root_hash _ _ _ _ (merkle_node _ _ _ _ Hl2 Hm2) Hl2) as (q & Hq & ->). eexists _, q. split; [left|done].
  - destruct H2 as [r|l2 r m2 ps2 Hl2 Hm2].
    { right. right. right. destruct (merkle_root_hash _ _ _ _ (merkle_node _ _ _ _ Hl1 Hm1) Hl1) as (q & Hq & ->). eexists _, q. split; [left|done]. }
    apply orb_false_iff in E1 as [D1 E1], E2 as [D2 E2]. destruct (IH _ _ _ Hm2 E1 E2) as [Eu|[Hc|[Hf|Hf]]].
    + rewrite !up_pairs in Eu. destruct (same_hashes _ _ Eu) as [Ep|Hc]; [left; by apply pairs_inj|]. right. left.
      eapply collides_mono; [exact Hc|apply sub_app_l..].
    + right. left. eapply collides_mono; [exact Hc|apply sub_app_r..].
    + destruct (foreign_up l1 l2 r m2 ps1 ps2 Hm2 Hf); tauto.
    + destruct (foreign_up l2 l1 r m1 ps2 ps1 Hm1 Hf) as [Hc%collides_sym|Hf']; tauto.
Qed.
End levels.

(** ** The level that the program computes *)
Lemma HashPair_D64 a b : HashPair a b = be_value (sha256.TransformD64 (be_bytes 32 a ++ be_bytes 32 b)).
Proof.
  unfold HashPair. rewrite Hash2_spec, TransformD64_hash; [done| |done]. by rewrite length_app, !length_be_bytes.
Qed.

Lemma length_TransformD64 m : length (sha256.TransformD64 m) = 32%nat.
Proof. apply length_words_bytes. Qed.

(** The bytes of a level, hashed in one go, are the hashes of its pairs. *)
Lemma level_bytes l : Nat.even (length l) = true -> bytes_hashes (length l / 2) (SHA256D64 (hashes_bytes l) (length l / 2)) = up HashPair l.
Proof.
  induction l as [|a|a b l IH] using pair_ind; intros He; [done|done|].
  assert (length (a :: b :: l) / 2 = S (length l / 2))%nat as ->.
  { cbn [length]. replace (S (S (length l))) with (length l + 1 * 2)%nat by lia. rewrite Nat.div_add by lia. lia. }
  cbn [SHA256D64 bytes_hashes]. change (hashes_bytes (a :: b :: l)) with (be_bytes 32 a ++ be_bytes 32 b ++ hashes_bytes l). rewrite app_assoc.
  assert (64%nat = length (be_bytes 32 a ++ be_bytes 32 b)) as E64 by (by rewrite length_app, !length_be_bytes).
  rewrite (take_app_length' _ _ _ E64), (drop_app_length' _ _ _ E64), take_app_length', drop_app_length' by (by rewrite length_TransformD64).
  change (up HashPair (a :: b :: l)) with (HashPair a b :: up HashPair l). rewrite HashPair_D64. f_equal. by apply IH.
Qed.

Lemma next_level_up l : next_level l = up HashPair l.
Proof.
  unfold next_level. destruct (Nat.odd (length l)) eqn:Ho.
  - destruct (last l) as [x|] eqn:Ex; [|by apply last_None in Ex as ->]. cbn [from_option]. rewrite level_bytes; [by apply up_doubled|].
    rewrite length_app. cbn [length]. rewrite Nat.add_1_r, Nat.even_succ. done.
  - apply level_bytes. by rewrite <-Nat.negb_odd, Ho.
Qed.

Lemma merkle_loop_spec l r m ps : merkle HashPair l r m ps -> forall fuel m0, (length l <= fuel)%nat -> merkle_loop fuel l m0 = Some ([r], m0 || m).
Proof.
  induction 1 as [r|l r m ps Hl _ IH]; intros fuel m0 Hf; [destruct fuel; cbn; by rewrite orb_false_r|].
  destruct fuel as [|fuel]; [lia|]. cbn [merkle_loop]. rewrite (proj2 (Nat.ltb_lt 1 (length l)) Hl), next_level_up. pose proof (up_shorter HashPair l Hl).
  rewrite IH by lia. by rewrite orb_assoc.
Qed.

Lemma ComputeMerkleRoot_spec l r m ps : merkle HashPair l r m ps -> ComputeMerkleRoot l = Some (r, m).
Proof. intros H. unfold ComputeMerkleRoot. by rewrite (merkle_loop_spec l r m ps H). Qed.


(** The root of the transactions determines them.  When two lists of
    transactions have the same root and no mutation is detected in either, they are
    equal, or two different pairs that were hashed for their roots have the same
    hash, or a transaction id of one is the hash of a pair of the other, as only a
    transaction of 64 bytes can be.  The root of a list that is not empty is always
    found. *)
Lemma root_determines l1 l2 : l1 <> [] -> l2 <> [] ->
  exists r1 m1 r2 m2, ComputeMerkleRoot l1 = Some (r1, m1) /\ ComputeMerkleRoot l2 = Some (r2, m2) /\
    let ps1 := hashed_pairs HashPair (length l1) l1 in let ps2 := hashed_pairs HashPair (length l2) l2 in
    (r1 = r2 -> m1 = false -> m2 = false ->
      l1 = l2 \/ collides HashPair ps1 ps2 \/ foreign HashPair l1 ps2 \/ foreign HashPair l2 ps1).
Proof.
  intros H1 H2. destruct (merkle_total HashPair l1 H1) as (r1 & m1 & ps1 & M1), (merkle_total HashPair l2 H2) as (r2 & m2 & ps2 & M2).
  exists r1, m1, r2, m2. split; [exact (ComputeMerkleRoot_spec _ _ _ _ M1)|]. split; [exact (ComputeMerkleRoot_spec _ _ _ _ M2)|].
  rewrite (hashed_pairs_spec _ _ _ _ _ M1 _ (le_n _)), (hashed_pairs_spec _ _ _ _ _ M2 _ (le_n _)). cbv zeta. intros <-.
  exact (merkle_unique HashPair l1 r1 m1 ps1 M1 l2 m2 ps2 M2).
Qed.

(** * Partial Merkle trees: what is built is what is extracted *)

(** ** Bits in bytes *)
Lemma bits_byte_testbit c : forall p, Z.testbit (bits_byte c) (Z.of_nat p) = default false (c !! p).
Proof.
  induction c as [|b c IH]; intros p; [by rewrite Z.testbit_0_l|]. cbn [bits_byte foldr]. fold (bits_byte c). rewrite Z.add_comm. destruct p as [|p].
  - cbn. by rewrite Z.testbit_0_r.
  - rewrite Nat2Z.inj_succ, Z.testbit_succ_r by lia. apply IH.
Qed.

Lemma byte_bits c : (length c <= 8)%nat ->
  (fun p => negb (Z.land (bits_byte c) (Z.shiftl 1 (Z.of_nat p)) =? 0)) <$> seq 0 8 = c ++ replicate (8 - length c) false.
Proof.
  intros Hl. assert (forall p, negb (Z.land (bits_byte c) (Z.shiftl 1 (Z.of_nat p)) =? 0) = default false (c !! p)) as Hp.
  { intros p. rewrite <-bits_byte_testbit, Z.shiftl_1_l. destruct (Z.testbit (bits_byte c) (Z.of_nat p)) eqn:E.
    - apply negb_true_iff, Z.eqb_neq. intros H0. assert (Z.testbit (Z.land (bits_byte c) (2 ^ Z.of_nat p)) (Z.of_nat p) = true) as H1.
      { rewrite Z.land_spec, E, Z.pow2_bits_true by lia. done. }
      by rewrite H0, Z.testbit_0_l in H1.
    - apply negb_false_iff, Z.eqb_eq. apply Z.bits_inj'. intros k Hk. rewrite Z.land_spec, Z.testbit_0_l. destruct (decide (k = Z.of_nat p)) as [->|Hne]; [by rewrite E|].
      rewrite Z.pow2_bits_false by lia. apply andb_false_r. }
  apply list_eq. intros i. rewrite list_lookup_fmap. destruct (decide (i < 8)%nat) as [Hi|Hi].
  - rewrite lookup_seq_lt by done. cbn [fmap option_fmap option_map Nat.add]. rewrite Hp. destruct (c !! i) as [b|] eqn:E.
    + cbn. symmetry. by apply lookup_app_l_Some.
    + cbn. apply lookup_ge_None in E. rewrite lookup_app_r by done. symmetry. apply lookup_replicate_2. lia.
  - rewrite lookup_seq_ge by lia. symmetry. apply lookup_ge_None_2. rewrite length_app, length_replicate. lia.
Qed.

(** The bits that arrive are those that were sent, filled up to whole bytes. *)
Lemma sent_bits n : forall bits, (length bits <= 8 * n)%nat -> (8 * n < length bits + 8)%nat ->
  BytesToBits (BitsToBytes_loop n bits) = bits ++ replicate (8 * n - length bits) false.
Proof.
  induction n as [|n IH]; intros bits H1 H2; [assert (bits = []) as -> by (apply length_zero_iff_nil; lia); done|]. cbn [BitsToBytes_loop].
  change (BytesToBits (?b :: ?l)) with (((fun p => negb (Z.land b (Z.shiftl 1 (Z.of_nat p)) =? 0)) <$> seq 0 8) ++ BytesToBits l).
  rewrite byte_bits by (rewrite length_take; lia). rewrite length_take. destruct (decide (length bits <= 8)%nat) as [Hle|Hgt].
  - assert (n = 0)%nat as -> by lia. cbn [BitsToBytes_loop]. change (BytesToBits []) with (@nil bool). rewrite app_nil_r, take_ge by lia. f_equal. f_equal. lia.
  - rewrite (IH (drop 8 bits)) by (rewrite length_drop; lia). rewrite Nat.min_l by lia. change (replicate (8 - 8) false) with (@nil bool).
    rewrite app_nil_r, app_assoc, take_drop, length_drop. f_equal. f_equal. lia.
Qed.

Lemma sent_bits_spec bits : exists k, (k < 8)%nat /\ BytesToBits (BitsToBytes bits) = bits ++ replicate k false /\ ((length bits + k + 7) / 8 = (length bits + 7) / 8)%nat.
Proof.
  pose proof (Nat.div_mod_eq (length bits + 7) 8) as E. pose proof (Nat.mod_upper_bound (length bits + 7) 8 ltac:(lia)) as Hm. set (q := ((length bits + 7) / 8)%nat) in *.
  exists (8 * q - length bits)%nat. split; [lia|]. split; [unfold BitsToBytes; fold q; apply sent_bits; lia|].
  replace (length bits + (8 * q - length bits) + 7)%nat with (7 + q * 8)%nat by lia. rewrite Nat.div_add by lia. done.
Qed.

(** ** Levels of a tree *)
Section partial.
Context (Hash : uint256 -> uint256 -> uint256).

Fixpoint lv (h : nat) (l : list uint256) : list uint256 :=
  match h with O => l | S h => up Hash (lv h l) end.

Lemma lv_up h l : lv h (up Hash l) = lv (S h) l.
Proof. induction h as [|h IH]; [done|]. cbn [lv]. by rewrite IH. Qed.

Lemma lookup_up l : forall i, up Hash l !! i = a ← l !! (i * 2)%nat; Some (Hash a (default a (l !! (i * 2 + 1)%nat))).
Proof. induction l as [|a|a b l IH] using pair_ind; intros [|i]; try done. apply (IH i). Qed.

Lemma equal_pair_lookup l : forall i a b, has_equal_pair l = false -> l !! (i * 2)%nat = Some a -> l !! (i * 2 + 1)%nat = Some b -> a <> b.
Proof.
  induction l as [|a|a b l IH] using pair_ind; intros [|i] c d He Hc Hd; try done; cbn [has_equal_pair] in He; apply orb_false_iff in He as [He Hr].
  - injection Hc as <-. injection Hd as <-. by apply Z.eqb_neq.
  - exact (IH i c d Hr Hc Hd).
Qed.

Lemma length_lv h l : Z.of_nat (length (lv h l)) = (Z.of_nat (length l) + 2 ^ Z.of_nat h - 1) / 2 ^ Z.of_nat h.
Proof.
  induction h as [|h IH]; [cbn [lv Z.of_nat]; rewrite Z.pow_0_r, Z.div_1_r; lia|]. cbn [lv]. rewrite length_up, Nat2Z.inj_div, Nat2Z.inj_add, IH.
  assert (2 ^ Z.of_nat (S h) = 2 ^ Z.of_nat h * 2) as -> by (rewrite Nat2Z.inj_succ, Z.pow_succ_r by lia; lia).
  pose proof (Z.pow_pos_nonneg 2 (Z.of_nat h)). set (p := 2 ^ Z.of_nat h) in *. change (Z.of_nat 1) with 1. change (Z.of_nat 2) with 2.
  rewrite <-Z.div_add, Z.mul_1_l, Z.div_div by lia. f_equal. lia.
Qed.

Lemma beyond_level h l pos : (length (lv h l) <= pos)%nat -> (length l <= pos * 2 ^ h)%nat.
Proof.
  intros H. pose proof (length_lv h l) as E. pose proof (Z.pow_pos_nonneg 2 (Z.of_nat h)). set (p := 2 ^ Z.of_nat h) in *.
  pose proof (Z.div_mod (Z.of_nat (length l) + p - 1) p). pose proof (Z.mod_pos_bound (Z.of_nat (length l) + p - 1) p).
  apply Nat2Z.inj_le. rewrite Nat2Z.inj_mul, Nat2Z.inj_pow. change (Z.of_nat 2) with 2. fold p. nia.
Qed.

Lemma width_lv h l : Z.of_nat (length l) <= 2 ^ 31 -> (h <= 31)%nat -> CalcTreeWidth (Z.of_nat (length l)) h = Z.of_nat (length (lv h l)).
Proof.
  intros Hl Hh. unfold CalcTreeWidth. assert (2 ^ Z.of_nat h <= 2 ^ 31) by (apply Z.pow_le_mono_r; lia). pose proof (Z.pow_pos_nonneg 2 (Z.of_nat h)).
  rewrite Z.shiftl_1_l, length_lv, Z.shiftr_div_pow2 by lia. f_equal. apply Z.mod_small. lia.
Qed.

(** The segment of the leaves below a node. *)
Definition seg {A} (h pos : nat) (l : list A) : list A := take (2 ^ h) (drop (pos * 2 ^ h) l).

Lemma seg_split {A} h pos (l : list A) : seg (S h) pos l = seg h (pos * 2) l ++ seg h (pos * 2 + 1) l.
Proof.
  unfold seg. replace (2 ^ S h)%nat with (2 ^ h + 2 ^ h)%nat by (cbn; lia). replace ((pos * 2 + 1) * 2 ^ h)%nat with (pos * 2 * 2 ^ h + 2 ^ h)%nat by lia.
  rewrite <-drop_drop, take_take_drop. f_equal. f_equal. lia.
Qed.

Lemma seg_beyond {A} h pos (l : list A) : (length l <= pos * 2 ^ h)%nat -> seg h pos l = [].
Proof. intros H. unfold seg. rewrite drop_ge by done. apply take_nil. Qed.

(** ** Matched leaves *)
Fixpoint picked (i : Z) (l : list uint256) (m : list bool) : list (Z * uint256) :=
  match l, m with
  | x :: l, b :: m => (if b then [(i, x)] else []) ++ picked (i + 1) l m
  | _, _ => []
  end.

Lemma picked_app l1 : forall m1 i l2 m2, length l1 = length m1 -> picked i (l1 ++ l2) (m1 ++ m2) = picked i l1 m1 ++ picked (i + Z.of_nat (length l1)) l2 m2.
Proof.
  induction l1 as [|x l1 IH]; intros [|b m1] i l2 m2 E; try done; [by rewrite Z.add_0_r|]. cbn [app picked]. rewrite (IH m1), <-app_assoc by (cbn in E; lia).
  do 3 f_equal. cbn [length]. lia.
Qed.

Lemma picked_none l : forall i m, existsb id m = false -> picked i l m = [].
Proof. induction l as [|x l IH]; intros i [|b m] H; try done. cbn in H. apply orb_false_iff in H as [Hb Hm]. unfold id in Hb. subst b. cbn. by apply IH. Qed.

Definition below (h pos : nat) (l : list uint256) (m : list bool) : list (Z * uint256) := picked (Z.of_nat (pos * 2 ^ h)) (seg h pos l) (seg h pos m).

Lemma length_seg_eq {A B} h pos (l : list A) (m : list B) : length l = length m -> length (seg h pos l) = length (seg h pos m).
Proof. intros E. unfold seg. rewrite !length_take, !length_drop. lia. Qed.

Lemma below_split h pos l m : length l = length m -> below (S h) pos l m = below h (pos * 2) l m ++ below h (pos * 2 + 1) l m.
Proof.
  intros E. unfold below. rewrite !seg_split, picked_app by (by apply length_seg_eq). replace (pos * 2 ^ S h)%nat with (pos * 2 * 2 ^ h)%nat by (cbn; lia). f_equal.
  destruct (decide (length l <= (pos * 2 + 1) * 2 ^ h)%nat) as [Hl|Hl]; [by rewrite (seg_beyond h (pos * 2 + 1) l Hl)|]. f_equal.
  assert (length (seg h (pos * 2) l) = 2 ^ h)%nat as -> by (unfold seg; rewrite length_take, length_drop; lia). lia.
Qed.

Lemma parent_of_match_seg h pos m : parent_of_match (Z.of_nat (length m)) h pos m = Some (existsb id (seg h pos m)).
Proof.
  unfold parent_of_match. rewrite Nat2Z.id. rewrite (proj2 (Nat.ltb_ge _ _)) by lia. do 2 f_equal. unfold seg.
  destruct (decide (length m <= (pos + 1) * 2 ^ h)%nat) as [Hl|Hl]; [rewrite Nat.min_r by done; rewrite !take_ge by (rewrite length_drop; lia); done|].
  rewrite Nat.min_l by lia. f_equal. lia.
Qed.

(** ** Height *)
Lemma lv_single h r : exists r', lv h [r] = [r'].
Proof. induction h as [|h [r' IH]]; [by eexists|]. cbn [lv]. rewrite IH. by eexists. Qed.

Lemma merkle_levels l r b ps : merkle Hash l r b ps -> b = false -> forall h, has_equal_pair (lv h l) = false.
Proof.
  induction 1 as [r|l r b ps Hl _ IH]; intros Hb h; [by destruct (lv_single h r) as [r' ->]|]. apply orb_false_iff in Hb as [H1 H2].
  destruct h as [|h]; [done|]. rewrite <-lv_up. by apply IH.
Qed.

Lemma merkle_height l r b ps : merkle Hash l r b ps -> exists H, lv H l = [r] /\ forall h, (h < H)%nat -> (1 < length (lv h l))%nat.
Proof.
  induction 1 as [r|l r b ps Hl _ (H & E & IH)]; [exists 0%nat; split; [done|lia]|]. exists (S H). rewrite <-lv_up. split; [done|].
  intros [|h] Hh; [done|]. rewrite <-lv_up. apply IH. lia.
Qed.

Lemma tree_height_lv l H : Z.of_nat (length l) <= 2 ^ 31 -> length (lv H l) = 1%nat -> (forall h, (h < H)%nat -> (1 < length (lv h l))%nat) ->
  (H <= 31)%nat /\ tree_height (Z.of_nat (length l)) = Some H.
Proof.
  intros Hl HH Hlt. assert (H <= 31)%nat as H31.
  { destruct (decide (H <= 31)%nat) as [|Hn]; [done|]. pose proof (Hlt 31%nat ltac:(lia)) as H1. pose proof (length_lv 31 l) as E. change (Z.of_nat 31) with 31 in E.
    assert ((Z.of_nat (length l) + 2 ^ 31 - 1) / 2 ^ 31 < 2) by (apply Z.div_lt_upper_bound; lia). lia. }
  split; [done|]. unfold tree_height. enough (forall fuel h, (h <= H)%nat -> (H - h <= fuel)%nat -> tree_height_from fuel (Z.of_nat (length l)) h = Some H) as Hf by (apply Hf; lia).
  induction fuel as [|fuel IH]; intros h Hh Hf; cbn [tree_height_from]; rewrite width_lv by lia;
    (destruct (decide (h = H)) as [->|Hne]; [by rewrite HH|]); [lia|]. pose proof (Hlt h ltac:(lia)). rewrite (proj2 (Z.ltb_lt 1 _)) by lia. apply IH; lia.
Qed.

(** ** Building and extracting, for a list of transactions *)
Context (l : list uint256) (m : list bool).
Context (Hsize : Z.of_nat (length l) <= 2 ^ 31) (Hm : length m = length l).
Notation N := (Z.of_nat (length l)).

Lemma right_child h pos : (h <= 31)%nat -> (Z.of_nat (pos * 2 + 1) <? CalcTreeWidth N h) = (pos * 2 + 1 <? length (lv h l))%nat.
Proof. intros Hh. rewrite width_lv by done. destruct (pos * 2 + 1 <? length (lv h l))%nat eqn:E; [apply Nat.ltb_lt in E; apply Z.ltb_lt; lia|apply Nat.ltb_ge in E; apply Z.ltb_ge; lia]. Qed.

Lemma left_child h pos : (pos < length (lv (S h) l))%nat -> (pos * 2 < length (lv h l))%nat.
Proof.
  cbn [lv]. rewrite length_up. intros H. pose proof (Nat.div_mod_eq (length (lv h l) + 1) 2). pose proof (Nat.mod_upper_bound (length (lv h l) + 1) 2). lia.
Qed.

Lemma CalcHash_lv h : forall pos, (h <= 32)%nat -> CalcHash N Hash h pos l = lv h l !! pos.
Proof.
  induction h as [|h IH]; intros pos Hh; [done|]. cbn [CalcHash lv]. rewrite lookup_up, (IH (pos * 2)%nat), right_child by lia. destruct (lv h l !! (pos * 2)%nat) as [a|] eqn:Ea; [|done].
  cbn [mbind option_bind]. destruct (pos * 2 + 1 <? length (lv h l))%nat eqn:E.
  - apply Nat.ltb_lt in E. rewrite IH by lia. apply lookup_lt_is_Some in E as [b Eb]. by rewrite Eb.
  - apply Nat.ltb_ge in E. by rewrite (proj2 (lookup_ge_None _ _) E).
Qed.

(** What a client that has read up to the node makes of what was sent for it. *)
Definition extracted (x : Extract) (bits : list bool) (hs : list uint256) (found : list (Z * uint256)) : Extract :=
  {| ex_bits := ex_bits x + length bits; ex_hashes := ex_hashes x + length hs;
     ex_match := ex_match x ++ found.*2; ex_index := ex_index x ++ found.*1; ex_bad := ex_bad x |}.

Definition sends (h pos : nat) (node : uint256) (bits : list bool) (hs : list uint256) : Prop :=
  (length hs <= length bits)%nat /\ (length hs <= length (seg h pos l))%nat /\
  forall vBits vHash x rb rh, drop (ex_bits x) vBits = bits ++ rb -> drop (ex_hashes x) vHash = hs ++ rh ->
    TraverseAndExtract N Hash vBits vHash h pos x = (extracted x bits hs (below h pos l m), node).

Lemma drop_head {A} n (v : list A) x k : drop n v = x :: k -> v !! n = Some x /\ drop (S n) v = k.
Proof. intros E. split; [by rewrite <-(Nat.add_0_r n), <-lookup_drop, E|]. by rewrite <-Nat.add_1_r, <-drop_drop, E. Qed.

Lemma drop_more {A} n (v : list A) k1 k2 : drop n v = k1 ++ k2 -> drop (n + length k1) v = k2.
Proof. intros E. by rewrite <-drop_drop, E, drop_app_length. Qed.

Lemma seg_positive h pos : (pos < length (lv h l))%nat -> (0 < length (seg h pos l))%nat.
Proof.
  intros H. unfold seg. rewrite length_take, length_drop. pose proof (length_lv h l) as E. pose proof (Z.pow_pos_nonneg 2 (Z.of_nat h)).
  assert (Z.of_nat (2 ^ h) = 2 ^ Z.of_nat h) as Ep by (rewrite Nat2Z.inj_pow; done). set (p := 2 ^ Z.of_nat h) in *.
  pose proof (Z.div_mod (N + p - 1) p). pose proof (Z.mod_pos_bound (N + p - 1) p). nia.
Qed.

(** A node that is sent as its hash. *)
Lemma sends_hash h pos node b : lv h l !! pos = Some node -> (h = O \/ b = false) -> existsb id (seg h pos m) = b -> sends h pos node [b] [node].
Proof.
  intros Hn Hb He. split; [done|]. split; [apply (seg_positive h pos); apply lookup_lt_is_Some; eauto|]. intros vBits vHash x rb rh Eb Eh.
  apply drop_head in Eb as [Eb _], Eh as [Eh _]. assert (below h pos l m = if b && (h =? 0)%nat then [(Z.of_nat pos, node)] else []) as ->.
  { destruct Hb as [->| ->]; [|unfold below; by rewrite picked_none]. unfold below, seg in *. change (2 ^ 0)%nat with 1%nat in *. rewrite Nat.mul_1_r in *. cbn [lv] in Hn.
    apply lookup_lt_Some in Hn as Hlt. rewrite <-Hm in Hlt. apply lookup_lt_is_Some in Hlt as [b' Hb']. rewrite (drop_S _ _ _ Hn), (drop_S _ _ _ Hb') in *. cbn in He. unfold id in He.
    rewrite orb_false_r in He. subst b'. by destruct b. }
  unfold extracted. destruct h as [|h]; cbn [TraverseAndExtract]; rewrite Eb; cbn [ex_hashes ex_bits ex_match ex_index ex_bad]; [|destruct Hb as [Hb| ->]; [done|]];
    rewrite Eh; rewrite ?Nat.add_1_r; [destruct b|]; reflexivity.
Qed.

(** A node that is sent as what is sent for its children. *)
Lemma sends_children h pos a b bits1 hs1 bits2 hs2 : (h <= 31)%nat -> lv h l !! (pos * 2)%nat = Some a -> lv h l !! (pos * 2 + 1)%nat = Some b -> a <> b ->
  sends h (pos * 2) a bits1 hs1 -> sends h (pos * 2 + 1) b bits2 hs2 -> sends (S h) pos (Hash a b) (true :: bits1 ++ bits2) (hs1 ++ hs2).
Proof.
  intros Hh Ha Hb Hne (L1 & S1 & E1) (L2 & S2 & E2). split; [cbn [length]; rewrite !length_app; lia|]. split; [rewrite seg_split, !length_app; lia|].
  intros vBits vHash x rb rh Eb Eh. cbn [app] in Eb. apply drop_head in Eb as [Eb0 Eb]. rewrite <-app_assoc in Eb. rewrite <-app_assoc in Eh. cbn [TraverseAndExtract]. rewrite Eb0.
  rewrite right_child by done. apply lookup_lt_Some in Hb as Hlt. rewrite (proj2 (Nat.ltb_lt _ _) Hlt).
  erewrite E1; [|exact Eb|exact Eh]. erewrite E2; [|exact (drop_more _ _ _ _ Eb)|exact (drop_more _ _ _ _ Eh)].
  rewrite (proj2 (Z.eqb_neq b a)) by congruence. f_equal. unfold extracted. cbn [ex_bits ex_hashes ex_match ex_index ex_bad length].
  rewrite (below_split h pos l m) by (by symmetry). rewrite !fmap_app, !length_app, !app_assoc, Nat.add_assoc. f_equal. lia.
Qed.

Lemma sends_left h pos a bits hs : (h <= 31)%nat -> lv h l !! (pos * 2)%nat = Some a -> (length (lv h l) <= pos * 2 + 1)%nat ->
  sends h (pos * 2) a bits hs -> sends (S h) pos (Hash a a) (true :: bits) hs.
Proof.
  intros Hh Ha Hlen (L1 & S1 & E1). split; [cbn [length]; lia|]. split; [rewrite seg_split, length_app; lia|].
  intros vBits vHash x rb rh Eb Eh. cbn [app] in Eb. apply drop_head in Eb as [Eb0 Eb]. cbn [TraverseAndExtract]. rewrite Eb0. rewrite right_child by done.
  rewrite (proj2 (Nat.ltb_ge _ _) Hlen). erewrite E1; [|exact Eb|exact Eh]. f_equal. unfold extracted. cbn [ex_bits ex_hashes ex_match ex_index ex_bad length].
  rewrite (below_split h pos l m) by (by symmetry). apply beyond_level in Hlen. assert (below h (pos * 2 + 1) l m = []) as -> by (unfold below; by rewrite (seg_beyond h _ l Hlen)).
  rewrite app_nil_r. f_equal. lia.
Qed.

Lemma parent_of_match_l h pos : parent_of_match N h pos m = Some (existsb id (seg h pos m)).
Proof. rewrite <-Hm. apply parent_of_match_seg. Qed.

Lemma build_sends (Hd : forall h, has_equal_pair (lv h l) = false) h : forall pos node, (h <= 32)%nat -> lv h l !! pos = Some node ->
  exists bits hs, TraverseAndBuild N Hash h pos l m = Some (bits, hs) /\ sends h pos node bits hs.
Proof.
  induction h as [|h IH]; intros pos node Hh Hn.
  { eexists _, _. cbn [TraverseAndBuild]. rewrite parent_of_match_l. cbn [CalcHash]. cbn [lv] in Hn. rewrite Hn. split; [done|]. apply sends_hash; [done|by left|done]. }
  cbn [TraverseAndBuild]. rewrite parent_of_match_l. destruct (existsb id (seg (S h) pos m)) eqn:He.
  - cbn [lv] in Hn. rewrite lookup_up in Hn. destruct (lv h l !! (pos * 2)%nat) as [a|] eqn:Ha; [|discriminate Hn]. cbn [mbind option_bind] in Hn. injection Hn as <-.
    destruct (IH _ a ltac:(lia) Ha) as (bits1 & hs1 & -> & Hs1). cbn [mbind option_bind]. rewrite right_child by lia. destruct (pos * 2 + 1 <? length (lv h l))%nat eqn:Er.
    + apply Nat.ltb_lt, lookup_lt_is_Some in Er as [b Hb]. destruct (IH _ b ltac:(lia) Hb) as (bits2 & hs2 & -> & Hs2). rewrite Hb. eexists _, _. split; [done|].
      apply sends_children; [lia|done..| |done|done]. exact (equal_pair_lookup _ _ _ _ (Hd h) Ha Hb).
    + apply Nat.ltb_ge in Er. rewrite (proj2 (lookup_ge_None _ _) Er). eexists _, _. split; [cbn [mbind option_bind]; by rewrite !app_nil_r|]. apply sends_left; [lia|done..].
  - rewrite CalcHash_lv, Hn by lia. eexists _, _. split; [done|]. apply sends_hash; [done|by right|done].
Qed.

(** The whole tree. *)
Lemma below_root H : (H <= 31)%nat -> length (lv H l) = 1%nat -> seg H 0 l = l /\ below H 0 l m = picked 0 l m.
Proof.
  intros HH E. pose proof (beyond_level H l 1 ltac:(lia)) as Hb. unfold below, seg. rewrite drop_0, Nat.mul_0_l, drop_0, !take_ge by lia. done.
Qed.
End partial.

(** C32: A light client gets the transactions it asked for.  For a block of at least
    one and at most MaxBlockSize / 60 transactions in which no mutation is detected, the
    partial tree for any choice of matched transactions can be built, and the
    client that receives it extracts the root of the block's transactions and
    exactly the matched ids with their positions, in the order of the block; no check
    of ExtractMatches rejects it. *)
Theorem ExtractMatches_complete vTxid vMatch root :
  0 < Z.of_nat (length vTxid) <= MaxBlockSize true / 60 -> length vMatch = length vTxid -> ComputeMerkleRoot vTxid = Some (root, false) ->
  exists t, CPartialMerkleTree_new vTxid vMatch = Some t /\
    ExtractMatches (sent t) false = Some (root, (picked 0 vTxid vMatch).*2, (picked 0 vTxid vMatch).*1).
Proof.
  intros Hl Hm Hr. change (MaxBlockSize true / 60) with 33333 in Hl. destruct (merkle_total HashPair vTxid) as (r & b & ps & Hmk); [intros ->; cbn in Hl; lia|].
  rewrite (ComputeMerkleRoot_spec _ _ _ _ Hmk) in Hr. assert (r = root /\ b = false) as [-> ->] by (split; congruence).
  destruct (merkle_height _ _ _ _ _ Hmk) as (H & EH & Hlt). assert (Z.of_nat (length vTxid) <= 2 ^ 31) as Hs by lia.
  destruct (tree_height_lv HashPair vTxid H Hs ltac:(by rewrite EH) Hlt) as [H31 Eh]. destruct (below_root HashPair vTxid vMatch Hm H H31 ltac:(by rewrite EH)) as [Eseg Ebelow].
  destruct (build_sends HashPair vTxid vMatch Hs Hm (merkle_levels _ _ _ _ _ Hmk eq_refl) H 0%nat root ltac:(lia) ltac:(by rewrite EH)) as (bits & hs & Eb & (S1 & S2 & S3)).
  unfold CPartialMerkleTree_new. assert (u32 (Z.of_nat (length vTxid)) = Z.of_nat (length vTxid)) as -> by (apply Z.mod_small; lia). rewrite Eh. cbn [mbind option_bind]. rewrite Eb. cbn [mbind option_bind].
  eexists. split; [reflexivity|]. unfold ExtractMatches, sent. cbn [pt_nTransactions pt_vBits pt_vHash].
  destruct (sent_bits_spec bits) as (k & Hk & -> & Hdiv). rewrite Eseg in S2. change (MaxBlockSize true / 60) with 33333.
  rewrite (proj2 (Z.eqb_neq _ 0)), (proj2 (Z.ltb_ge 33333 _)), (proj2 (Z.ltb_ge _ (Z.of_nat (length hs)))), (proj2 (Nat.ltb_ge _ (length hs))) by (rewrite ?length_app; lia).
  rewrite Eh. cbn [mbind option_bind]. rewrite (S3 _ _ _ (replicate k false) []); [|reflexivity|cbn [ex_hashes]; by rewrite app_nil_r].
  rewrite Ebelow. unfold extracted. cbn [ex_bits ex_hashes ex_match ex_index ex_bad]. rewrite length_app, length_replicate, !Nat.add_0_l, Hdiv, !Nat.eqb_refl. reflexivity.
Qed.
