(* ===== verification/HeadersWire.v ===== *)
(** * Headers on the wire
    (CBlockHeader, CompressedHeaderBitField and CompressibleBlockHeader of
    src/src/primitives/block.h and block.cpp; the messages HEADERS2 of
    src/src/net_processing.cpp)

    A header is sent either whole or compressed against the header before it in the
    same message: its version as a position in the list of the last seven versions,
    its time as a difference, its difficulty and the hash of its predecessor not at
    all.  Both ends keep the list of versions.  A read past the end of the message is
    [None]. *)

From S2P Require Import Prelude Serialize Params BetKeys Chain HashStream Sha2.

(** ** Headers *)
Definition has_accumulator (nVersion : Z) : bool := (3 <? nVersion) && (nVersion <? 7).

Definition CBlockHeader_codec : codec CBlockHeader :=
  isoc (fun b => ((h_nVersion b, (h_hashPrevBlock b, (h_hashMerkleRoot b, (h_nTime b, (h_nBits b, h_nNonce b))))), h_nAccumulatorCheckpoint b))
       (fun '((v, (p, (r, (t, (b, n))))), a) => Build_CBlockHeader v p r t b n a)
       (condc (i32c ⊗ uint256c ⊗ uint256c ⊗ u32c ⊗ u32c ⊗ u32c) (fun f => has_accumulator f.1) uint256c 0).

(** Hash of one range. *)
Definition Hash1 (buf p1 : list Z) : uint256 := be_value (CHash256_Finalize (CSHA256_Write (CSHA256_new buf) p1)).

(** The hash of old headers is HashQuark, of the mining algorithms. *)
Definition CBlockHeader_GetHash (HashQuark : list Z -> uint256) (b : CBlockHeader) : uint256 :=
  let vch := Serialize CBlockHeader_codec b in
  if h_nVersion b <? 4 then HashQuark vch else Hash1 (replicate 64 0) vch.

(** ** The bit field *)
Definition VERSION_BIT_MASK : Z := 7.
Definition PREV_BLOCK_HASH : Z := Z.shiftl 1 3.
Definition TIMESTAMP : Z := Z.shiftl 1 4.
Definition NBITS : Z := Z.shiftl 1 5.

Definition byte_not (x : Z) : Z := Z.lxor 0xff x.
Definition IsCompressed (bit_field flag : Z) : bool := Z.land bit_field flag =? 0.
Definition MarkAsUncompressed (bit_field flag : Z) : Z := Z.lor bit_field flag.
Definition MarkAsCompressed (bit_field flag : Z) : Z := Z.land bit_field (byte_not flag).
Definition GetVersionOffset (bit_field : Z) : Z := Z.land bit_field VERSION_BIT_MASK.
Definition IsVersionCompressed (bit_field : Z) : bool := negb (GetVersionOffset bit_field =? 0).
Definition SetVersionOffset (bit_field version : Z) : Z := Z.lor (Z.land bit_field (byte_not VERSION_BIT_MASK)) (Z.land version VERSION_BIT_MASK).

(** ** Compressible headers *)
Record CompressibleBlockHeader := { cb_header : CBlockHeader; bit_field : Z; time_offset : Z }.

Definition CompressibleBlockHeader_of (block_header : CBlockHeader) : CompressibleBlockHeader :=
  {| cb_header := block_header; time_offset := 0;
     bit_field := MarkAsUncompressed (MarkAsUncompressed (MarkAsUncompressed (SetVersionOffset 0 0) PREV_BLOCK_HASH) TIMESTAMP) NBITS |}.

Definition write_if {A} (b : bool) (c : codec A) (x : A) : list Z := if b then Serialize c x else [].
Definition read_if {A} (b : bool) (c : codec A) (dflt : A) (s : list Z) : option (A * list Z) := if b then Unserialize c s else Some (dflt, s).

Definition Serialize_compressible (c : CompressibleBlockHeader) : list Z :=
  let h := cb_header c in let f := bit_field c in
  Serialize u8c f ++ write_if (negb (IsVersionCompressed f)) i32c (h_nVersion h) ++
  write_if (negb (IsCompressed f PREV_BLOCK_HASH)) uint256c (h_hashPrevBlock h) ++ Serialize uint256c (h_hashMerkleRoot h) ++
  write_if (negb (IsCompressed f TIMESTAMP)) u32c (h_nTime h) ++ write_if (IsCompressed f TIMESTAMP) i16c (time_offset c) ++
  write_if (negb (IsCompressed f NBITS)) u32c (h_nBits h) ++ Serialize u32c (h_nNonce h).

(** Into a new object, whose fields are null. *)
Definition Unserialize_compressible (s : list Z) : option (CompressibleBlockHeader * list Z) :=
  '(f, s) ← Unserialize u8c s;
  '(nVersion, s) ← read_if (negb (IsVersionCompressed f)) i32c 0 s;
  '(hashPrevBlock, s) ← read_if (negb (IsCompressed f PREV_BLOCK_HASH)) uint256c 0 s;
  '(hashMerkleRoot, s) ← Unserialize uint256c s;
  '(nTime, s) ← read_if (negb (IsCompressed f TIMESTAMP)) u32c 0 s;
  '(offset, s) ← read_if (IsCompressed f TIMESTAMP) i16c 0 s;
  '(nBits, s) ← read_if (negb (IsCompressed f NBITS)) u32c 0 s;
  '(nNonce, s) ← Unserialize u32c s;
  Some ({| cb_header := Build_CBlockHeader nVersion hashPrevBlock hashMerkleRoot nTime nBits nNonce 0; bit_field := f; time_offset := offset |}, s).

(** ** The last seven versions *)

(** The position of a version. *)
Fixpoint find_version (v : Z) (l : list Z) : option nat :=
  match l with
  | [] => None
  | x :: l => if x =? v then Some O else S <$> find_version v l
  end.

Definition MarkVersionAsMostRecent (last_unique_versions : list Z) (version_it : nat) : list Z :=
  match last_unique_versions !! version_it with
  | Some v => v :: delete version_it last_unique_versions
  | None => last_unique_versions
  end.

Definition max_backwards_look_ups : nat := 7.
Definition SaveVersionAsMostRecent (last_unique_versions : list Z) (version : Z) : list Z :=
  let l := version :: last_unique_versions in
  if (max_backwards_look_ups <? length l)%nat then removelast l else l.

(** ** Compress and Uncompress *)
Definition set_bits (c : CompressibleBlockHeader) (f : Z) : CompressibleBlockHeader := {| cb_header := cb_header c; bit_field := f; time_offset := time_offset c |}.

Definition Compress (c : CompressibleBlockHeader) (previous_blocks : list CompressibleBlockHeader) (last_unique_versions : list Z) :
    CompressibleBlockHeader * list Z :=
  let h := cb_header c in
  match last previous_blocks with
  | None => (c, SaveVersionAsMostRecent last_unique_versions (h_nVersion h))
  | Some last_block =>
      let '(c, versions) :=
        match find_version (h_nVersion h) last_unique_versions with
        | Some i => (set_bits c (SetVersionOffset (bit_field c) (u8 (Z.of_nat i + 1))), MarkVersionAsMostRecent last_unique_versions i)
        | None => (c, SaveVersionAsMostRecent last_unique_versions (h_nVersion h))
        end in
      let c := set_bits c (MarkAsCompressed (bit_field c) PREV_BLOCK_HASH) in
      let time_diff := u32 (h_nTime h - h_nTime (cb_header last_block)) in
      let c := if (time_diff <=? 32767) && (-32768 <=? time_diff)
               then {| cb_header := h; bit_field := MarkAsCompressed (bit_field c) TIMESTAMP; time_offset := wrapS 16 time_diff |} else c in
      let c := if h_nBits h =? h_nBits (cb_header last_block) then set_bits c (MarkAsCompressed (bit_field c) NBITS) else c in
      (c, versions)
  end.

Section wire.
Context (GetHash : CBlockHeader -> uint256).

Definition Uncompress (c : CompressibleBlockHeader) (previous_blocks : list CBlockHeader) (last_unique_versions : list Z) : CBlockHeader * list Z :=
  let h := cb_header c in let f := bit_field c in
  match last previous_blocks with
  | None => (h, SaveVersionAsMostRecent last_unique_versions (h_nVersion h))
  | Some last_block =>
      let '(nVersion, versions) :=
        if IsVersionCompressed f then
          match last_unique_versions !! Z.to_nat (GetVersionOffset f - 1) with
          | Some v => (v, MarkVersionAsMostRecent last_unique_versions (Z.to_nat (GetVersionOffset f - 1)))
          | None => (h_nVersion h, last_unique_versions)
          end
        else (h_nVersion h, SaveVersionAsMostRecent last_unique_versions (h_nVersion h)) in
      (Build_CBlockHeader nVersion (if IsCompressed f PREV_BLOCK_HASH then GetHash last_block else h_hashPrevBlock h) (h_hashMerkleRoot h)
         (if IsCompressed f TIMESTAMP then u32 (h_nTime last_block + time_offset c) else h_nTime h)
         (if IsCompressed f NBITS then h_nBits last_block else h_nBits h) (h_nNonce h) (h_nAccumulatorCheckpoint h), versions)
  end.

(** ** The messages *)
Definition MAX_HEADERS_RESULTS : Z := 2000.

(** The headers of a message.  An answer to GETHEADERS2 does not call Compress for
    the first one ([skip_first]), an announcement does. *)
Fixpoint compress_headers (skip_first : bool) (v_headers : list CompressibleBlockHeader) (last_unique_versions : list Z) (headers : list CBlockHeader) :
    list CompressibleBlockHeader :=
  match headers with
  | [] => v_headers
  | h :: headers =>
      let c := CompressibleBlockHeader_of h in
      let '(c, versions) := if skip_first && bool_decide (v_headers = []) then (c, last_unique_versions) else Compress c v_headers last_unique_versions in
      compress_headers skip_first (v_headers ++ [c]) versions headers
  end.

Definition HEADERS2_message (skip_first : bool) (headers : list CBlockHeader) : list Z :=
  let v := compress_headers skip_first [] [] headers in
  WriteCompactSize (Z.of_nat (length v)) ++ mjoin (Serialize_compressible <$> v).

Fixpoint receive_headers (nCount : nat) (headers : list CBlockHeader) (last_unique_versions : list Z) (vRecv : list Z) : option (list CBlockHeader * list Z) :=
  match nCount with
  | O => Some (headers, vRecv)
  | S nCount =>
      '(c, vRecv) ← Unserialize_compressible vRecv;
      let '(h, versions) := Uncompress c headers last_unique_versions in
      receive_headers nCount (headers ++ [h]) versions vRecv
  end.

(** The headers that are processed; [inl] when the sender is charged for too many. *)
Definition receive_HEADERS2 (vRecv : list Z) : option (unit + list CBlockHeader * list Z) :=
  '(nCount, vRecv) ← ReadCompactSize vRecv;
  if MAX_HEADERS_RESULTS <? nCount then Some (inl ())
  else inr <$> receive_headers (Z.to_nat nCount) [] [] vRecv.
End wire.

(** * Headers on the wire: what is sent is what is received

    Sender and receiver need not have the same list of versions: the sender's is the
    beginning of the receiver's. *)

#[export] Instance CBlockHeader_laws : CodecLaws CBlockHeader_codec.
Proof. apply isoc_laws; [apply _|by intros []]. Qed.

(** ** Versions *)
Lemma find_version_lookup v l : forall i, find_version v l = Some i -> l !! i = Some v.
Proof.
  induction l as [|x l IH]; intros i H; [done|]. cbn in H. destruct (Z.eqb_spec x v) as [->|]; [by injection H as <-|].
  destruct (find_version v l) as [j|]; [|done]. injection H as <-. by apply IH.
Qed.

Lemma mark_app l1 l2 i : (i < length l1)%nat -> MarkVersionAsMostRecent (l1 ++ l2) i = MarkVersionAsMostRecent l1 i ++ l2.
Proof.
  intros Hi. unfold MarkVersionAsMostRecent. rewrite lookup_app_l by done. destruct (l1 !! i); [|done]. cbn [app]. f_equal.
  clear -Hi. revert i Hi. induction l1 as [|x l1 IH]; intros [|i] Hi; cbn in *; [lia|lia|done|]. f_equal. apply IH. lia.
Qed.

Lemma length_mark l i : length (MarkVersionAsMostRecent l i) = length l.
Proof.
  unfold MarkVersionAsMostRecent. destruct (l !! i) as [v|] eqn:E; [|done]. cbn [length]. rewrite length_delete by eauto. apply lookup_lt_Some in E. lia.
Qed.

Lemma removelast_firstn {A} (l : list A) : removelast l = take (length l - 1) l.
Proof. destruct l as [|x l]; [done|]. rewrite removelast_firstn_len. cbn [length]. f_equal. lia. Qed.

Lemma save_take l v : (length l <= 7)%nat -> SaveVersionAsMostRecent l v = take 7 (v :: l).
Proof.
  intros Hl. unfold SaveVersionAsMostRecent, max_backwards_look_ups. destruct (Nat.ltb_spec 7 (length (v :: l))) as [H|H].
  - rewrite removelast_firstn. f_equal. cbn [length] in *. lia.
  - by rewrite take_ge.
Qed.

Lemma save_prefix l1 l2 v : l1 `prefix_of` l2 -> (length l2 <= 7)%nat -> SaveVersionAsMostRecent l1 v `prefix_of` SaveVersionAsMostRecent l2 v.
Proof.
  intros [k ->] Hl. rewrite length_app in Hl. rewrite !save_take by (rewrite ?length_app; lia). rewrite app_comm_cons, take_app. by exists (take (7 - length (v :: l1)) k).
Qed.

Lemma length_save l v : (length l <= 7)%nat -> (length (SaveVersionAsMostRecent l v) <= 7)%nat.
Proof. intros Hl. rewrite save_take, length_take by done. lia. Qed.

(** ** The bit field *)
Definition field (o : Z) (prev time bits : bool) : Z := o + (if prev then 0 else 8) + (if time then 0 else 16) + (if bits then 0 else 32).

Lemma offset_cases o : 0 <= o < 8 -> o = 0 \/ o = 1 \/ o = 2 \/ o = 3 \/ o = 4 \/ o = 5 \/ o = 6 \/ o = 7.
Proof. lia. Qed.

Ltac cases_field Ho := destruct (offset_cases _ Ho) as [->|[->|[->|[->|[->|[->|[->| ->]]]]]]].

Lemma field_spec o prev time bits : 0 <= o < 8 ->
  GetVersionOffset (field o prev time bits) = o /\ IsCompressed (field o prev time bits) PREV_BLOCK_HASH = prev /\
  IsCompressed (field o prev time bits) TIMESTAMP = time /\ IsCompressed (field o prev time bits) NBITS = bits /\ inU 8 (field o prev time bits).
Proof. intros Ho. split_and!; try (cases_field Ho; destruct prev, time, bits; reflexivity). unfold field, inU. destruct prev, time, bits; lia. Qed.

Lemma field_marks o prev time bits : 0 <= o < 8 ->
  SetVersionOffset (field 0 prev time bits) o = field o prev time bits /\ MarkAsCompressed (field o prev time bits) PREV_BLOCK_HASH = field o true time bits /\
  MarkAsCompressed (field o prev time bits) TIMESTAMP = field o prev true bits /\ MarkAsCompressed (field o prev time bits) NBITS = field o prev time true.
Proof. intros Ho. split_and!; cases_field Ho; destruct prev, time, bits; reflexivity. Qed.

(** What a compressible header is: a header and what of it is compressed. *)
Definition packed (h : CBlockHeader) (o : Z) (prev time bits : bool) (t : Z) : CompressibleBlockHeader :=
  {| cb_header := h; bit_field := field o prev time bits; time_offset := t |}.

Definition HeaderOk (h : CBlockHeader) : Prop :=
  inS 32 (h_nVersion h) /\ inU 256 (h_hashPrevBlock h) /\ inU 256 (h_hashMerkleRoot h) /\ inU 32 (h_nTime h) /\ inU 32 (h_nBits h) /\ inU 32 (h_nNonce h) /\
  h_nAccumulatorCheckpoint h = 0.

(** ** One header on the wire *)
Lemma read_write_if {A} (b : bool) (c : codec A) `{!CodecLaws c} (dflt x : A) rest : SerOk c x ->
  read_if b c dflt (write_if b c x ++ rest) = Some (if b then x else dflt, rest).
Proof. intros Hx. destruct b; [by apply unser_ser|done]. Qed.

(** What arrives: the parts that were not sent are null. *)
Definition arrives (h : CBlockHeader) (o : Z) (prev time bits : bool) (t : Z) : CompressibleBlockHeader :=
  packed (Build_CBlockHeader (if o =? 0 then h_nVersion h else 0) (if prev then 0 else h_hashPrevBlock h) (h_hashMerkleRoot h)
            (if time then 0 else h_nTime h) (if bits then 0 else h_nBits h) (h_nNonce h) 0) o prev time bits (if time then t else 0).

Lemma unser_ser_compressible h o prev time bits t rest : HeaderOk h -> 0 <= o < 8 -> inS 16 t ->
  Unserialize_compressible (Serialize_compressible (packed h o prev time bits t) ++ rest) = Some (arrives h o prev time bits t, rest).
Proof.
  intros (H1 & H2 & H3 & H4 & H5 & H6 & _) Ho Ht. destruct (field_spec o prev time bits Ho) as (F1 & F2 & F3 & F4 & F5).
  unfold Serialize_compressible, Unserialize_compressible. cbn [packed cb_header bit_field time_offset]. unfold IsVersionCompressed. rewrite F1, F2, F3, F4. rewrite <-!app_assoc.
  rewrite (unser_ser (c:=u8c) (field o prev time bits) _ F5). cbn [mbind option_bind]. unfold IsVersionCompressed. rewrite F1, F2, F3, F4.
  do 2 (rewrite read_write_if by (done || apply _); cbn [mbind option_bind]). rewrite unser_ser by (done || apply _). cbn [mbind option_bind].
  do 3 (rewrite read_write_if by (done || apply _); cbn [mbind option_bind]). rewrite unser_ser by (done || apply _). cbn [mbind option_bind].
  unfold arrives, packed. by destruct (o =? 0), prev, time, bits.
Qed.

(** ** The two ends *)
Section ends.
Context (GetHash : CBlockHeader -> uint256).

Lemma CompressibleBlockHeader_packed h : CompressibleBlockHeader_of h = packed h 0 false false false 0.
Proof. reflexivity. Qed.

(** A compressed header, and what the receiver makes of it. *)
Lemma compress_step h p vs S R prevs : HeaderOk h -> HeaderOk p -> h_hashPrevBlock h = GetHash p -> last prevs = Some vs -> cb_header vs = p ->
  S `prefix_of` R -> (length R <= 7)%nat ->
  exists o time bits t S' R', Compress (CompressibleBlockHeader_of h) prevs S = (packed h o true time bits t, S') /\ 0 <= o < 8 /\ inS 16 t /\
    S' `prefix_of` R' /\ (length R' <= 7)%nat /\ forall hs, last hs = Some p -> Uncompress GetHash (arrives h o true time bits t) hs R = (h, R').
Proof.
  intros Hh Hp Hlink Hlast Hvs HSR HR. rewrite CompressibleBlockHeader_packed. unfold Compress. rewrite Hlast. cbn [packed cb_header bit_field time_offset]. rewrite Hvs.
  set (time := (u32 (h_nTime h - h_nTime p) <=? 32767) && (-32768 <=? u32 (h_nTime h - h_nTime p))). set (bits := h_nBits h =? h_nBits p).
  assert (exists o S' R', match find_version (h_nVersion h) S with
            | Some i => (set_bits (packed h 0 false false false 0) (SetVersionOffset (field 0 false false false) (u8 (Z.of_nat i + 1))), MarkVersionAsMostRecent S i)
            | None => (packed h 0 false false false 0, SaveVersionAsMostRecent S (h_nVersion h)) end = (packed h o false false false 0, S') /\ 0 <= o < 8 /\
          S' `prefix_of` R' /\ (length R' <= 7)%nat /\
          (o = 0 /\ R' = SaveVersionAsMostRecent R (h_nVersion h) \/
           o <> 0 /\ R !! Z.to_nat (o - 1) = Some (h_nVersion h) /\ R' = MarkVersionAsMostRecent R (Z.to_nat (o - 1)))) as (o & S' & R' & E & Ho & HSR' & HR' & EU).
  { destruct (find_version (h_nVersion h) S) as [i|] eqn:Ef.
    - apply find_version_lookup in Ef as Hi. apply lookup_lt_Some in Hi as Hlt. pose proof (prefix_length _ _ HSR) as Hle.
      assert (u8 (Z.of_nat i + 1) = Z.of_nat i + 1) as Eu by (apply Z.mod_small; lia). rewrite Eu.
      exists (Z.of_nat i + 1), (MarkVersionAsMostRecent S i), (MarkVersionAsMostRecent R i). split; [unfold set_bits, packed; cbn [cb_header time_offset]; f_equal; f_equal; apply field_marks; lia|].
      split; [lia|]. split; [destruct HSR as [k ->]; rewrite mark_app by done; by exists k|]. rewrite length_mark. split; [done|].
      right. replace (Z.to_nat (Z.of_nat i + 1 - 1)) with i by lia. split; [lia|]. destruct HSR as [k ->]. split; [by apply lookup_app_l_Some|done].
    - exists 0, (SaveVersionAsMostRecent S (h_nVersion h)), (SaveVersionAsMostRecent R (h_nVersion h)). split; [done|]. split; [lia|]. split; [by apply save_prefix|]. split; [by apply length_save|by left]. }
  rewrite E. cbn [packed cb_header bit_field time_offset set_bits]. destruct (field_marks o false false false Ho) as (_ & M1 & _ & _). rewrite M1.
  exists o, time, bits, (if time then wrapS 16 (u32 (h_nTime h - h_nTime p)) else 0), S', R'.
  assert (time = true -> wrapS 16 (u32 (h_nTime h - h_nTime p)) = u32 (h_nTime h - h_nTime p)) as Et.
  { subst time. intros [?%Z.leb_le ?%Z.leb_le]%andb_prop. apply wrapS_small; [lia|]. unfold inS. change (2 ^ (16 - 1)) with 32768. lia. }
  split_and!; [|lia|lia| |done|done|].
  - f_equal. destruct (field_marks o true false false Ho) as (_ & _ & M2 & M3). destruct (field_marks o true true false Ho) as (_ & _ & _ & M4).
    destruct time, bits; unfold set_bits, packed; cbn [cb_header bit_field time_offset]; rewrite ?M2, ?M3, ?M4; done.
  - destruct time; [apply wrapS_range; lia|]. unfold inS. lia.
  - intros hs Hhs. unfold Uncompress. rewrite Hhs. unfold arrives. cbn [packed cb_header bit_field time_offset h_nVersion h_hashPrevBlock h_hashMerkleRoot h_nTime h_nBits h_nNonce h_nAccumulatorCheckpoint].
    destruct (field_spec o true time bits Ho) as (F1 & F2 & F3 & F4 & _). unfold IsVersionCompressed. rewrite F1, F2, F3, F4.
    destruct Hh as (_ & _ & _ & HT & _ & _ & HA). destruct Hp as (_ & _ & _ & HT' & _).
    assert ((if time then u32 (h_nTime p + (if time then if time then wrapS 16 (u32 (h_nTime h - h_nTime p)) else 0 else 0)) else if time then 0 else h_nTime h) = h_nTime h) as ->.
    { destruct time eqn:Etime; [|done]. rewrite Et by done. unfold wrapU. rewrite Zplus_mod_idemp_r. replace (h_nTime p + (h_nTime h - h_nTime p)) with (h_nTime h) by lia. by apply Z.mod_small. }
    assert ((if bits then h_nBits p else if bits then 0 else h_nBits h) = h_nBits h) as -> by (subst bits; destruct (Z.eqb_spec (h_nBits h) (h_nBits p)); congruence).
    rewrite <-Hlink. destruct h as [hv hp hr ht hb hn ha]. cbn in *. subst ha.
    destruct EU as [[-> ->]|(Hne & -> & ->)]; [done|]. by rewrite (proj2 (Z.eqb_neq o 0) Hne).
Qed.

(** Each header names the one before it. *)
Fixpoint linked (p : CBlockHeader) (hs : list CBlockHeader) : Prop :=
  match hs with [] => True | h :: hs => h_hashPrevBlock h = GetHash p /\ linked h hs end.

Lemma rest_received skip hs : forall prevs vs p versions R, Forall HeaderOk hs -> HeaderOk p -> linked p hs -> last prevs = Some vs -> cb_header vs = p ->
  versions `prefix_of` R -> (length R <= 7)%nat ->
  exists cs, compress_headers skip prevs versions hs = prevs ++ cs /\ length cs = length hs /\
    forall hs0 rest, last hs0 = Some p -> receive_headers GetHash (length hs) hs0 R (mjoin (Serialize_compressible <$> cs) ++ rest) = Some (hs0 ++ hs, rest).
Proof.
  induction hs as [|h hs IH]; intros prevs vs p versions R Hok Hp Hl Hlast Hvs Hpre HR.
  { exists []. rewrite app_nil_r. split; [done|]. split; [done|]. intros hs0 rest _. cbn. by rewrite app_nil_r. }
  inversion_clear Hok as [|? ? Hh Hhs]. destruct Hl as [Hlink Hl].
  destruct (compress_step h p vs versions R prevs Hh Hp Hlink Hlast Hvs Hpre HR) as (o & time & bits & t & S' & R' & Ec & Ho & Ht & Hpre' & HR' & EU).
  destruct (IH (prevs ++ [packed h o true time bits t]) (packed h o true time bits t) h S' R' Hhs Hh Hl (last_snoc _ _) eq_refl Hpre' HR') as (cs & Ecs & Hlen & Hrec).
  exists (packed h o true time bits t :: cs). cbn [compress_headers]. rewrite bool_decide_eq_false_2, andb_false_r, Ec by (intros ->; discriminate Hlast).
  split; [rewrite Ecs; by rewrite <-app_assoc|]. split; [cbn; congruence|]. intros hs0 rest Hhs0. cbn [length receive_headers].
  change (mjoin (Serialize_compressible <$> (?c :: cs))) with (Serialize_compressible c ++ mjoin (Serialize_compressible <$> cs)). rewrite <-app_assoc.
  rewrite unser_ser_compressible by done. cbn [mbind option_bind]. rewrite (EU hs0 Hhs0), Hrec by apply last_snoc. by rewrite <-app_assoc.
Qed.

(** A header that is sent whole arrives whole. *)
Lemma whole_received h versions : HeaderOk h -> Uncompress GetHash (arrives h 0 false false false 0) [] versions = (h, SaveVersionAsMostRecent versions (h_nVersion h)).
Proof. intros (_ & _ & _ & _ & _ & _ & HA). unfold Uncompress, arrives. cbn. destruct h. cbn in *. by subst. Qed.

Lemma all_received skip h hs : Forall HeaderOk (h :: hs) -> linked h hs ->
  exists cs, compress_headers skip [] [] (h :: hs) = cs /\ length cs = length (h :: hs) /\
    forall rest, receive_headers GetHash (length cs) [] [] (mjoin (Serialize_compressible <$> cs) ++ rest) = Some (h :: hs, rest).
Proof.
  intros Hok Hl. inversion_clear Hok as [|? ? Hh Hhs]. cbn [compress_headers]. rewrite bool_decide_eq_true_2, andb_true_r by done.
  set (versions := if skip then [] else [h_nVersion h]).
  assert ((if skip then (CompressibleBlockHeader_of h, []) else Compress (CompressibleBlockHeader_of h) [] []) = (CompressibleBlockHeader_of h, versions)) as -> by (by destruct skip).
  destruct (rest_received skip hs ([] ++ [CompressibleBlockHeader_of h]) (CompressibleBlockHeader_of h) h versions [h_nVersion h] Hhs Hh Hl eq_refl eq_refl) as (cs & Ecs & Hlen & Hrec).
  { destruct skip; [by eexists|done]. } { cbn; lia. }
  exists (CompressibleBlockHeader_of h :: cs). split; [exact Ecs|]. split; [cbn; congruence|]. intros rest. cbn [length receive_headers].
  change (mjoin (Serialize_compressible <$> (?c :: cs))) with (Serialize_compressible c ++ mjoin (Serialize_compressible <$> cs)). rewrite <-app_assoc, CompressibleBlockHeader_packed.
  rewrite unser_ser_compressible by (done || unfold inS; lia). cbn [mbind option_bind]. rewrite whole_received by done.
  change (SaveVersionAsMostRecent [] (h_nVersion h)) with [h_nVersion h]. rewrite Hlen. exact (Hrec [h] rest eq_refl).
Qed.

(** C33: Compressed headers survive the wire.  For any headers of one chain that fit
    their widths and have no accumulator checkpoint, at most 2000, the message that
    answers GETHEADERS2 (which leaves the version of the first header out of the
    sender's list) as well as the announcement of new blocks is read back as exactly
    these headers, and nothing of what follows is consumed. *)
Theorem HEADERS2_roundtrip skip_first h hs rest : Forall HeaderOk (h :: hs) -> linked h hs -> Z.of_nat (length (h :: hs)) <= MAX_HEADERS_RESULTS ->
  receive_HEADERS2 GetHash (HEADERS2_message skip_first (h :: hs) ++ rest) = Some (inr (h :: hs, rest)).
Proof.
  intros Hok Hl Hn. destruct (all_received skip_first h hs Hok Hl) as (cs & Ecs & Hlen & Hrec). unfold HEADERS2_message, receive_HEADERS2. rewrite Ecs.
  unfold MAX_HEADERS_RESULTS in *. rewrite <-app_assoc, ReadCompactSize_Write by (unfold MAX_SIZE; lia). cbn [mbind option_bind]. rewrite (proj2 (Z.ltb_ge _ _)) by lia.
  rewrite Nat2Z.id, Hrec. done.
Qed.
End ends.

(** A header with an accumulator checkpoint does not: the checkpoint is not sent,
    and the hash covers it. *)
Example accumulator_lost :
  let h := Build_CBlockHeader 4 0 1 2 3 4 5 in let hash b := h_nNonce b + h_nAccumulatorCheckpoint b in
  receive_HEADERS2 hash (HEADERS2_message false [h]) = Some (inr ([Build_CBlockHeader 4 0 1 2 3 4 0], [])) /\
  Serialize CBlockHeader_codec h <> Serialize CBlockHeader_codec (Build_CBlockHeader 4 0 1 2 3 4 0).
Proof. split; [vm_compute; reflexivity|vm_compute; discriminate]. Qed.
