(* ===== verification/Standard.v ===== *)
(** * Standard scripts and the signature of a block
    (src/src/script/standard.cpp, the sizes of public keys of src/src/pubkey.h,
    CScript::IsPushOnly of src/src/script/script.cpp, src/src/pos/blocksignature.cpp)

    Public keys and solutions are byte strings.  The verification of a signature and
    the key of a zerocoin spend are parameters.  [None] is an index outside a vector
    or an exception. *)

From S2P Require Import Prelude Serialize Params BetTx BetKeys Transaction TxCodec Coins TokenGroups AddressIndex TxVerify.

(** ** Public keys *)
Definition CPubKey_SIZE : Z := 65.
Definition CPubKey_COMPRESSED_SIZE : Z := 33.

Definition CPubKey_GetLen (chHeader : Z) : Z :=
  if (chHeader =? 2) || (chHeader =? 3) then CPubKey_COMPRESSED_SIZE
  else if (chHeader =? 4) || (chHeader =? 6) || (chHeader =? 7) then CPubKey_SIZE else 0.

Definition CPubKey_ValidSize (vch : list Z) : bool :=
  match vch with [] => false | b :: _ => CPubKey_GetLen b =? Z.of_nat (length vch) end.

(** The key of some bytes; [None] is an invalid key. *)
Definition CPubKey (vch : list Z) : option (list Z) :=
  match vch with
  | [] => None
  | b :: _ => let len := CPubKey_GetLen b in if negb (len =? 0) && (len =? Z.of_nat (length vch)) then Some vch else None
  end.

(** ** Kinds of scripts *)
Inductive txnouttype :=
  | TX_NONSTANDARD
  | TX_PUBKEY
  | TX_PUBKEYHASH
  | TX_SCRIPTHASH
  | TX_MULTISIG
  | TX_NULL_DATA
  | TX_GRP_PUBKEYHASH
  | TX_GRP_SCRIPTHASH.

#[export] Instance txnouttype_eq_dec : EqDecision txnouttype.
Proof. solve_decision. Defined.

(** Bytes [i, j) of a script. *)
Definition sub_script (s : list Z) (i j : nat) : list Z := take (j - i) (drop i s).

(** CScript::IsPushOnly. *)
Fixpoint push_only (fuel : nat) (pc : list Z) : bool :=
  match pc, fuel with
  | [], _ => true
  | _, O => false
  | _, S fuel =>
      match GetScriptOp pc with
      | None => false
      | Some (opcode, _, pc) => if OP_16 <? opcode then false else push_only fuel pc
      end
  end.
Definition IsPushOnly (pc : list Z) : bool := push_only (length pc) pc.

Definition MatchPayToPubkey (script : list Z) : option (list Z) :=
  if (script_size script =? CPubKey_SIZE + 2) && (byte_at script 0 =? CPubKey_SIZE) && (byte_at script (script_size script - 1) =? OP_CHECKSIG) then
    let pubkey := sub_script script 1 66 in if CPubKey_ValidSize pubkey then Some pubkey else None
  else if (script_size script =? CPubKey_COMPRESSED_SIZE + 2) && (byte_at script 0 =? CPubKey_COMPRESSED_SIZE) &&
          (byte_at script (script_size script - 1) =? OP_CHECKSIG) then
    let pubkey := sub_script script 1 34 in if CPubKey_ValidSize pubkey then Some pubkey else None
  else None.

Definition MatchPayToPubkeyHash (script : list Z) : option (list Z) :=
  if (script_size script =? 25) && (byte_at script 0 =? OP_DUP) && (byte_at script 1 =? OP_HASH160) && (byte_at script 2 =? 20) &&
     (byte_at script 23 =? OP_EQUALVERIFY) && (byte_at script 24 =? OP_CHECKSIG)
  then Some (sub_script script 3 23) else None.

Definition IsSmallInteger (opcode : Z) : bool := (OP_1 <=? opcode) && (opcode <=? OP_16).

(** The keys after the first number: {last opcode, keys, rest}. *)
Fixpoint multisig_keys (fuel : nat) (it : list Z) (pubkeys : list (list Z)) : Z * list (list Z) * list Z :=
  match GetScriptOp it, fuel with
  | Some (opcode, data, it'), S fuel =>
      if CPubKey_ValidSize data then multisig_keys fuel it' (pubkeys ++ [data]) else (opcode, pubkeys, it')
  | _, _ => (OP_INVALIDOPCODE, pubkeys, it)
  end.

(** {required, keys} *)
Definition MatchMultisig (script : list Z) : option (Z * list (list Z)) :=
  if (script_size script <? 1) || negb (byte_at script (script_size script - 1) =? OP_CHECKMULTISIG) then None
  else
    '(opcode, _, it) ← GetScriptOp script;
    if negb (IsSmallInteger opcode) then None
    else
      let required := DecodeOP_N opcode in
      let '(opcode, pubkeys, it) := multisig_keys (length script) it [] in
      if negb (IsSmallInteger opcode) then None
      else
        let keys := DecodeOP_N opcode in
        if negb (Z.of_nat (length pubkeys) =? keys) || (keys <? required) then None
        else if (length it =? 1)%nat then Some (required, pubkeys) else None.

(** One operation with the given opcode. *)
Definition expect_op (op : Z) (pc : list Z) : option (list Z) :=
  '(opcode, _, pc) ← GetScriptOp pc; if opcode =? op then Some pc else None.

(** {hash of the key, group, quantity} *)
Definition MatchPayToGrpPubkeyHash (script : list Z) : option (list Z * list Z * list Z) :=
  '(opcodeGrp, groupBuf, pc) ← GetScriptOp script;
  '(opcodeQty, groupQtyBuf, pc) ← GetScriptOp pc;
  pc ← expect_op OP_GROUP pc;
  if opcodeGrp <? 0x20 then None
  else if negb (opcodeQty =? 2) && negb (opcodeQty =? 4) && negb (opcodeQty =? 8) then None
  else
    pc ← expect_op OP_DROP pc;
    pc ← expect_op OP_DROP pc;
    pc ← expect_op OP_DUP pc;
    pc ← expect_op OP_HASH160 pc;
    '(_, pubkeyhashBuf, pc) ← GetScriptOp pc;
    if negb (length pubkeyhashBuf =? 20)%nat then None
    else
      pc ← expect_op OP_EQUALVERIFY pc;
      _ ← expect_op OP_CHECKSIG pc;
      Some (pubkeyhashBuf, groupBuf, groupQtyBuf).

Definition Solver (scriptPubKey : list Z) : txnouttype * list (list Z) :=
  if IsPayToScriptHash scriptPubKey then (TX_SCRIPTHASH, [sub_script scriptPubKey 2 22])
  else if (1 <=? script_size scriptPubKey) && (byte_at scriptPubKey 0 =? OP_RETURN) && IsPushOnly (drop 1 scriptPubKey) then (TX_NULL_DATA, [])
  else
    match MatchPayToPubkey scriptPubKey with
    | Some data => (TX_PUBKEY, [data])
    | None =>
        match MatchPayToPubkeyHash scriptPubKey with
        | Some data => (TX_PUBKEYHASH, [data])
        | None =>
            match MatchMultisig scriptPubKey with
            | Some (required, keys) => (TX_MULTISIG, [u8 required] :: keys ++ [[u8 (Z.of_nat (length keys))]])
            | None =>
                match MatchPayToGrpPubkeyHash scriptPubKey with
                | Some (data, group, groupQty) => (TX_GRP_PUBKEYHASH, if bool_decide (group = []) then [] else [data; groupQty; group])
                | None => (TX_NONSTANDARD, [])
                end
            end
        end
    end.

(** ** Destinations *)
Inductive CTxDestination := CNoDestination | CKeyID (hash : list Z) | CScriptID (hash : list Z).

Section destinations.
(** RIPEMD-160 of SHA-256, which makes the id of a key. *)
Context (Hash160 : list Z -> list Z).

(** The destination, if there is one; [None] is an index outside the solutions. *)
Definition ExtractDestination (scriptPubKey : list Z) : option (option CTxDestination) :=
  let '(whichType, vSolutions) := Solver scriptPubKey in
  match whichType with
  | TX_PUBKEY =>
      v ← vSolutions !! 0%nat;
      Some (match CPubKey v with Some pubKey => Some (CKeyID (Hash160 pubKey)) | None => None end)
  | TX_PUBKEYHASH | TX_GRP_PUBKEYHASH => v ← vSolutions !! 0%nat; Some (Some (CKeyID v))
  | TX_SCRIPTHASH | TX_GRP_SCRIPTHASH => v ← vSolutions !! 0%nat; Some (Some (CScriptID v))
  | _ => Some None
  end.
End destinations.

(** ** The signature of a block *)
Section signature.
(** CPubKey::Verify, and the public key in the serial number of a zerocoin spend. *)
Context (Verify : list Z -> uint256 -> list Z -> bool) (spend_pubkey : CTxIn -> option (option (list Z))).

(** The transactions, the signature and the hash of the block. *)
Definition CheckBlockSignature (vtx : list CTx) (vchBlockSig : list Z) (hash : uint256) : option bool :=
  let fProofOfStake := match vtx !! 1%nat with Some tx => IsCoinStake tx | None => false end in
  if negb fProofOfStake then Some (bool_decide (vchBlockSig = []))
  else if bool_decide (vchBlockSig = []) then Some false
  else
    tx ← vtx !! 1%nat;
    in0 ← ctx_vin tx !! 0%nat;
    r ← (if CTxIn_IsZerocoinSpend in0 then k ← spend_pubkey in0; Some (Some k)
         else
           txout ← ctx_vout tx !! 1%nat;
           let '(whichType, vSolutions) := Solver (scriptPubKey txout) in
           match whichType with
           | TX_NONSTANDARD => Some None
           | TX_PUBKEY | TX_PUBKEYHASH => v ← vSolutions !! 0%nat; Some (Some (CPubKey v))
           | _ => Some (Some None)
           end);
    Some (match r with Some (Some pubkey) => Verify pubkey hash vchBlockSig | _ => false end).
End signature.

(** * Standard scripts: what is recognised, and who signs a block *)

(** ** Pay to a public key *)
Definition p2pk (key : list Z) : list Z := Z.of_nat (length key) :: key ++ [OP_CHECKSIG].

Lemma CPubKey_valid key : CPubKey_ValidSize key = true -> CPubKey key = Some key /\ (length key = 33%nat \/ length key = 65%nat).
Proof.
  destruct key as [|b key]; [done|]. cbn [CPubKey_ValidSize CPubKey]. intros E. rewrite E. apply Z.eqb_eq in E. unfold CPubKey_GetLen, CPubKey_SIZE, CPubKey_COMPRESSED_SIZE in *.
  destruct ((b =? 2) || (b =? 3)); [split; [done|left; lia]|]. destruct ((b =? 4) || (b =? 6) || (b =? 7)); [split; [done|right; lia]|]. cbn [length] in E. lia.
Qed.

(** A hash of 20 bytes is not a key. *)
Lemma CPubKey_hash h : length h = 20%nat -> CPubKey h = None.
Proof.
  destruct h as [|b h]; [done|]. intros Hl. cbn [CPubKey]. rewrite Hl. unfold CPubKey_GetLen, CPubKey_SIZE, CPubKey_COMPRESSED_SIZE.
  by destruct ((b =? 2) || (b =? 3)), ((b =? 4) || (b =? 6) || (b =? 7)).
Qed.

(** A script from its first byte, its middle and its last byte. *)
Lemma script_parts s n : length s = (n + 2)%nat -> byte_at s 0 = Z.of_nat n -> byte_at s (Z.of_nat n + 1) = OP_CHECKSIG ->
  s = Z.of_nat n :: sub_script s 1 (n + 1) ++ [OP_CHECKSIG] /\ length (sub_script s 1 (n + 1)) = n.
Proof.
  intros Hl H0 H1. destruct s as [|b s]; [cbn in Hl; lia|]. change (b = Z.of_nat n) in H0. subst b. cbn [length] in Hl. unfold sub_script, byte_at in *. rewrite skipn_cons, drop_0.
  replace (n + 1 - 1)%nat with n by lia. replace (Z.to_nat (Z.of_nat n + 1)) with (S n) in H1 by lia. change (default 0 (s !! n) = OP_CHECKSIG) in H1. rewrite length_take. split; [|lia]. f_equal.
  rewrite <-(take_drop n s) at 1. f_equal. destruct (drop n s) as [|x [|y d]] eqn:Ed.
  - apply (f_equal length) in Ed. rewrite length_drop in Ed. cbn in Ed. lia.
  - pose proof (lookup_drop s n 0) as Hd. rewrite Ed, Nat.add_0_r in Hd. rewrite <-Hd in H1. cbn in H1. by subst x.
  - apply (f_equal length) in Ed. rewrite length_drop in Ed. cbn in Ed. lia.
Qed.

Lemma MatchPayToPubkey_some s key : MatchPayToPubkey s = Some key <-> s = p2pk key /\ CPubKey_ValidSize key = true.
Proof.
  unfold MatchPayToPubkey, CPubKey_SIZE, CPubKey_COMPRESSED_SIZE, script_size. split.
  - destruct (_ && _ && _) eqn:E1.
    + apply andb_prop in E1 as [[Hl%Z.eqb_eq H0%Z.eqb_eq]%andb_prop H1%Z.eqb_eq]. rewrite Hl in H1. destruct (script_parts s 65) as [Es Ek]; [lia|done|exact H1|].
      change (65 + 1)%nat with 66%nat in *. destruct (CPubKey_ValidSize (sub_script s 1 66)) eqn:Ev; [|done]. intros [= <-]. split; [|done]. unfold p2pk. by rewrite Ek.
    + destruct (_ && _ && _) eqn:E2 in |- *; [|done]. clear E1. apply andb_prop in E2 as [[Hl%Z.eqb_eq H0%Z.eqb_eq]%andb_prop H1%Z.eqb_eq]. rewrite Hl in H1.
      destruct (script_parts s 33) as [Es Ek]; [lia|done|exact H1|]. change (33 + 1)%nat with 34%nat in *.
      destruct (CPubKey_ValidSize (sub_script s 1 34)) eqn:Ev; [|done]. intros [= <-]. split; [|done]. unfold p2pk. by rewrite Ek.
  - intros [-> Hv]. destruct (CPubKey_valid key Hv) as [_ Hl].
    assert (byte_at (p2pk key) (Z.of_nat (length (p2pk key)) - 1) = OP_CHECKSIG) as HL.
    { unfold byte_at, p2pk. cbn [length]. rewrite length_app. cbn [length]. replace (Z.to_nat _) with (S (length key)) by lia. change (default 0 ((key ++ [OP_CHECKSIG]) !! length key) = OP_CHECKSIG). by rewrite lookup_app_r, Nat.sub_diag. }
    assert (forall n, length key = n -> sub_script (p2pk key) 1 (S n) = key) as Hsub.
    { intros n <-. unfold sub_script, p2pk. rewrite skipn_cons, drop_0. replace (S (length key) - 1)%nat with (length key) by lia. apply take_app_length. }
    rewrite HL. change (byte_at (p2pk key) 0) with (Z.of_nat (length key)). assert (length (p2pk key) = length key + 2)%nat as -> by (unfold p2pk; cbn [length]; rewrite length_app; cbn; lia).
    destruct Hl as [Hl|Hl]; rewrite Hl;
      [change ((if CPubKey_ValidSize (sub_script (p2pk key) 1 34) then Some (sub_script (p2pk key) 1 34) else None) = Some key)
      |change ((if CPubKey_ValidSize (sub_script (p2pk key) 1 66) then Some (sub_script (p2pk key) 1 66) else None) = Some key)]; by rewrite (Hsub _ Hl), Hv.
Qed.

(** Nothing shadows a script that pays to a public key. *)
Lemma Solver_p2pk key : CPubKey_ValidSize key = true -> Solver (p2pk key) = (TX_PUBKEY, [key]).
Proof.
  intros Hv. destruct (CPubKey_valid key Hv) as [_ Hl]. unfold Solver. rewrite (proj2 (MatchPayToPubkey_some (p2pk key) key)) by done.
  assert (script_size (p2pk key) = Z.of_nat (length key) + 2) as Es by (unfold script_size, p2pk; cbn [length]; rewrite length_app; cbn [length]; lia).
  assert (byte_at (p2pk key) 0 = Z.of_nat (length key)) as E0 by done.
  assert (byte_at (p2pk key) (Z.of_nat (length key) + 1) = OP_CHECKSIG) as E1.
  { unfold byte_at, p2pk. replace (Z.to_nat _) with (S (length key)) by lia. change (default 0 ((key ++ [OP_CHECKSIG]) !! length key) = OP_CHECKSIG). by rewrite lookup_app_r, Nat.sub_diag. }
  assert (IsPayToScriptHash (p2pk key) = false) as ->.
  { unfold IsPayToScriptHash, p2sh_offset. rewrite Es, E0, E1. destruct Hl as [-> | ->]; reflexivity. }
  rewrite E0, Es. unfold OP_RETURN. destruct Hl as [-> | ->]; reflexivity.
Qed.

Lemma Solver_pubkey_inv s vs : Solver s = (TX_PUBKEY, vs) -> exists key, vs = [key] /\ s = p2pk key /\ CPubKey_ValidSize key = true.
Proof.
  unfold Solver. destruct (IsPayToScriptHash s); [done|]. destruct (_ && _ && _); [done|]. destruct (MatchPayToPubkey s) as [key|] eqn:E.
  - intros [= <-]. exists key. split; [done|]. by apply MatchPayToPubkey_some.
  - destruct (MatchPayToPubkeyHash s); [done|]. destruct (MatchMultisig s) as [[]|]; [done|]. by destruct (MatchPayToGrpPubkeyHash s) as [[[]]|].
Qed.

Lemma Solver_pubkeyhash_inv s vs : Solver s = (TX_PUBKEYHASH, vs) -> exists h, vs = [h] /\ length h = 20%nat.
Proof.
  unfold Solver. destruct (IsPayToScriptHash s); [done|]. destruct (_ && _ && _); [done|]. destruct (MatchPayToPubkey s); [done|]. destruct (MatchPayToPubkeyHash s) as [h|] eqn:E.
  - intros [= <-]. exists h. split; [done|]. unfold MatchPayToPubkeyHash in E. destruct (_ && _ && _ && _ && _ && _) eqn:Ec in E; [|done]. injection E as <-.
    repeat (apply andb_prop in Ec as [Ec _]). apply Z.eqb_eq in Ec. unfold script_size in Ec. unfold sub_script. rewrite length_take, length_drop. lia.
  - destruct (MatchMultisig s) as [[]|]; [done|]. by destruct (MatchPayToGrpPubkeyHash s) as [[[]]|].
Qed.

(** The key that has to sign is the one that the second output of the
    coinstake pays to.  When the coinstake does not spend a zerocoin, the signature
    of a proof-of-stake block is accepted exactly when that output pays to a public
    key, the signature is not empty and verifies with it; an output that pays to the
    hash of a key never passes. *)
Theorem CheckBlockSignature_key Verify spend_pubkey vtx sig hash tx in0 :
  vtx !! 1%nat = Some tx -> IsCoinStake tx = true -> ctx_vin tx !! 0%nat = Some in0 -> CTxIn_IsZerocoinSpend in0 = false ->
  CheckBlockSignature Verify spend_pubkey vtx sig hash = Some true <->
  exists out key, ctx_vout tx !! 1%nat = Some out /\ scriptPubKey out = p2pk key /\ CPubKey_ValidSize key = true /\ sig <> [] /\ Verify key hash sig = true.
Proof.
  intros Htx Hc Hin Hz. unfold CheckBlockSignature. rewrite Htx, Hc. cbn [negb]. destruct (decide (sig = [])) as [->|Hs].
  { rewrite bool_decide_eq_true_2 by done. split; [done|]. by intros (? & ? & _ & _ & _ & ? & _). }
  rewrite bool_decide_eq_false_2 by done. cbn [mbind option_bind]. rewrite Hin. cbn [mbind option_bind]. rewrite Hz.
  destruct (ctx_vout tx !! 1%nat) as [out|]; cbn [mbind option_bind]; [|split; [done|by intros (? & ? & ? & _)]]. split.
  - destruct (Solver (scriptPubKey out)) as [ty vs] eqn:Es. destruct ty; try done.
    + destruct (Solver_pubkey_inv _ _ Es) as (key & -> & Ek & Hv). cbn. rewrite (proj1 (CPubKey_valid key Hv)). intros [= HV]. by exists out, key.
    + destruct (Solver_pubkeyhash_inv _ _ Es) as (h & -> & Hl). cbn. by rewrite (CPubKey_hash h Hl).
  - intros (out' & key & [= <-] & Ek & Hv & _ & HV). rewrite Ek, (Solver_p2pk key Hv). cbn. by rewrite (proj1 (CPubKey_valid key Hv)), HV.
Qed.

(** ** Grouped outputs that pay to the hash of a script *)

(** The script of a grouped output: group, quantity, OP_GROUP OP_DROP OP_DROP, then
    the script that it pays to. *)
Definition grouped_p2sh (group qty hash : list Z) : list Z :=
  Z.of_nat (length group) :: group ++ Z.of_nat (length qty) :: qty ++ [OP_GROUP; OP_DROP; OP_DROP; OP_HASH160; 0x14] ++ hash ++ [OP_EQUAL].

(** Such an output is recognised, but the destination is read from the beginning of
    the group instead of from the script. *)
Example grouped_destination : exists group hash,
  ExtractDestination id (grouped_p2sh group (le_bytes 2 5) hash) = Some (Some (CScriptID (sub_script group 1 21))) /\ sub_script group 1 21 <> hash.
Proof.
  exists (replicate 32 7), (replicate 20 9). split; [vm_compute; reflexivity|vm_compute; discriminate].
Qed.
