(* ===== verification/Script.v ===== *)
(** * The script interpreter
    (src/src/script/interpreter.h, src/src/script/interpreter.cpp,
    src/src/script/script_error.h, the opcodes of src/src/script/script.h)

    A script is a byte string, and so is an element of the stack.  A stack is the list
    of its elements, the top first: stacktop(-1) is the head.  An instruction gives the
    new machine or an error; the stack that is left behind by an error is not read by
    any caller.  What the machine asks about the transaction it runs for is the record
    [BaseSignatureChecker]; the elliptic curve is a parameter.  The only value of
    SigVersion is BASE.  A hash is computed with a cleared buffer (see
    [hashers160_refine]). *)

From S2P Require Import Prelude Serialize Params BetTx BetKeys Transaction TokenGroups AddressIndex TxVerify HashStream Sha2 Sha1 Hash160 ScriptNum Standard.

Definition valtype : Type := list Z.

(** ** Errors *)
Inductive ScriptError :=
  | SCRIPT_ERR_UNKNOWN_ERROR | SCRIPT_ERR_EVAL_FALSE | SCRIPT_ERR_OP_RETURN
  | SCRIPT_ERR_SCRIPT_SIZE | SCRIPT_ERR_PUSH_SIZE | SCRIPT_ERR_OP_COUNT | SCRIPT_ERR_STACK_SIZE | SCRIPT_ERR_SIG_COUNT | SCRIPT_ERR_PUBKEY_COUNT
  | SCRIPT_ERR_VERIFY | SCRIPT_ERR_EQUALVERIFY | SCRIPT_ERR_CHECKMULTISIGVERIFY | SCRIPT_ERR_CHECKSIGVERIFY | SCRIPT_ERR_CHECKDATASIGVERIFY
  | SCRIPT_ERR_NUMEQUALVERIFY
  | SCRIPT_ERR_BAD_OPCODE | SCRIPT_ERR_DISABLED_OPCODE | SCRIPT_ERR_INVALID_STACK_OPERATION | SCRIPT_ERR_INVALID_ALTSTACK_OPERATION
  | SCRIPT_ERR_UNBALANCED_CONDITIONAL
  | SCRIPT_ERR_INVALID_SPLIT_RANGE | SCRIPT_ERR_INVALID_OPERAND_SIZE | SCRIPT_ERR_INVALID_NUMBER_RANGE | SCRIPT_ERR_IMPOSSIBLE_ENCODING
  | SCRIPT_ERR_DIV_BY_ZERO | SCRIPT_ERR_MOD_BY_ZERO
  | SCRIPT_ERR_NEGATIVE_LOCKTIME | SCRIPT_ERR_UNSATISFIED_LOCKTIME
  | SCRIPT_ERR_SIG_HASHTYPE | SCRIPT_ERR_SIG_DER | SCRIPT_ERR_MINIMALDATA | SCRIPT_ERR_SIG_PUSHONLY | SCRIPT_ERR_SIG_HIGH_S | SCRIPT_ERR_SIG_NULLDUMMY
  | SCRIPT_ERR_PUBKEYTYPE | SCRIPT_ERR_CLEANSTACK | SCRIPT_ERR_SIG_NULLFAIL
  | SCRIPT_ERR_DISCOURAGE_UPGRADABLE_NOPS | SCRIPT_ERR_OP_CODESEPARATOR | SCRIPT_ERR_SIG_FINDANDDELETE
  | SCRIPT_ERR_NUMBER_OVERFLOW | SCRIPT_ERR_NUMBER_BAD_ENCODING.

(** A result, or the error of set_error. *)
Definition result (A : Type) : Type := (ScriptError + A)%type.
Definition rbind {A B} (m : result A) (k : A -> result B) : result B := match m with inl e => inl e | inr a => k a end.

Declare Scope script_scope.
Notation "x ⇐ m ; k" := (rbind m (fun x => k)) (at level 20, m at level 100, k at level 200, right associativity) : script_scope.
Open Scope script_scope.

(** return set_error(serror, e) unless the condition holds *)
Definition require (b : bool) (e : ScriptError) : result unit := if b then inr tt else inl e.

(** ** Limits and flags *)
Definition MAX_SCRIPT_ELEMENT_SIZE : Z := 520.
Definition MAX_OPS_PER_SCRIPT : Z := 201.
Definition MAX_STACK_SIZE : Z := 1000.

Definition SIGHASH_ALL : Z := 1.
Definition SIGHASH_NONE : Z := 2.
Definition SIGHASH_SINGLE : Z := 3.
Definition SIGHASH_ANYONECANPAY : Z := 0x80.

Definition SCRIPT_VERIFY_STRICTENC : Z := Z.shiftl 1 1.
Definition SCRIPT_VERIFY_DERSIG : Z := Z.shiftl 1 2.
Definition SCRIPT_VERIFY_LOW_S : Z := Z.shiftl 1 3.
Definition SCRIPT_VERIFY_NULLDUMMY : Z := Z.shiftl 1 4.
Definition SCRIPT_VERIFY_SIGPUSHONLY : Z := Z.shiftl 1 5.
Definition SCRIPT_VERIFY_MINIMALDATA : Z := Z.shiftl 1 6.
Definition SCRIPT_VERIFY_DISCOURAGE_UPGRADABLE_NOPS : Z := Z.shiftl 1 7.
Definition SCRIPT_VERIFY_CLEANSTACK : Z := Z.shiftl 1 8.
Definition SCRIPT_VERIFY_CHECKLOCKTIMEVERIFY : Z := Z.shiftl 1 9.
Definition SCRIPT_VERIFY_CHECKSEQUENCEVERIFY : Z := Z.shiftl 1 10.
Definition SCRIPT_VERIFY_NULLFAIL : Z := Z.shiftl 1 14.
Definition SCRIPT_ENABLE_DIP0020_OPCODES : Z := Z.shiftl 1 15.
Definition SCRIPT_VERIFY_CONST_SCRIPTCODE : Z := Z.shiftl 1 16.

(** (flags & f) != 0 *)
Definition flag_on (flags f : Z) : bool := negb (Z.land flags f =? 0).

(** ** Operations, grouped as the cases of the switch are *)
Inductive StackOp :=
  | op_2DROP | op_2DUP | op_3DUP | op_2OVER | op_2ROT | op_2SWAP | op_IFDUP | op_DEPTH | op_DROP | op_DUP | op_NIP | op_OVER
  | op_PICK | op_ROLL | op_ROT | op_SWAP | op_TUCK | op_SIZE.
Inductive BitOp := op_AND | op_OR | op_XOR.
Inductive UnaryOp := op_1ADD | op_1SUB | op_NEGATE | op_ABS | op_NOT | op_0NOTEQUAL.
Inductive BinaryOp :=
  | op_ADD | op_SUB | op_DIV | op_MOD | op_BOOLAND | op_BOOLOR | op_NUMEQUAL | op_NUMEQUALVERIFY | op_NUMNOTEQUAL
  | op_LESSTHAN | op_GREATERTHAN | op_LESSTHANOREQUAL | op_GREATERTHANOREQUAL | op_MIN | op_MAX.
Inductive HashOp := op_RIPEMD160 | op_SHA1 | op_SHA256 | op_HASH160 | op_HASH256.

Inductive opcodetype :=
  | op_number (n : Z)
  | op_NOP | op_CHECKLOCKTIMEVERIFY | op_CHECKSEQUENCEVERIFY | op_upgradable_NOP | op_GROUP
  | op_IF (not : bool) | op_ELSE | op_ENDIF | op_VERIFY | op_RETURN
  | op_TOALTSTACK | op_FROMALTSTACK
  | op_stack (o : StackOp)
  | op_EQUAL (verify : bool)
  | op_bits (o : BitOp)
  | op_unary (o : UnaryOp)
  | op_binary (o : BinaryOp)
  | op_WITHIN
  | op_hash (o : HashOp)
  | op_CODESEPARATOR
  | op_CHECKSIG (verify : bool)
  | op_CHECKDATASIG (verify : bool)
  | op_CHECKMULTISIG (verify : bool)
  | op_CAT | op_SPLIT | op_NUM2BIN | op_BIN2NUM
  | op_default.

(** The case of the switch that an opcode above OP_PUSHDATA4 goes to. *)
Definition op_of (opcode : Z) : opcodetype :=
  if (opcode =? 0x4f) || ((0x51 <=? opcode) && (opcode <=? 0x60)) then op_number (opcode - 0x50)
  else
  match opcode with
  | 0x61 => op_NOP
  | 0x63 => op_IF false | 0x64 => op_IF true | 0x67 => op_ELSE | 0x68 => op_ENDIF | 0x69 => op_VERIFY | 0x6a => op_RETURN
  | 0x6b => op_TOALTSTACK | 0x6c => op_FROMALTSTACK
  | 0x6d => op_stack op_2DROP | 0x6e => op_stack op_2DUP | 0x6f => op_stack op_3DUP | 0x70 => op_stack op_2OVER | 0x71 => op_stack op_2ROT
  | 0x72 => op_stack op_2SWAP | 0x73 => op_stack op_IFDUP | 0x74 => op_stack op_DEPTH | 0x75 => op_stack op_DROP | 0x76 => op_stack op_DUP
  | 0x77 => op_stack op_NIP | 0x78 => op_stack op_OVER | 0x79 => op_stack op_PICK | 0x7a => op_stack op_ROLL | 0x7b => op_stack op_ROT
  | 0x7c => op_stack op_SWAP | 0x7d => op_stack op_TUCK | 0x82 => op_stack op_SIZE
  | 0x7e => op_CAT | 0x7f => op_SPLIT | 0x80 => op_NUM2BIN | 0x81 => op_BIN2NUM
  | 0x84 => op_bits op_AND | 0x85 => op_bits op_OR | 0x86 => op_bits op_XOR
  | 0x87 => op_EQUAL false | 0x88 => op_EQUAL true
  | 0x8b => op_unary op_1ADD | 0x8c => op_unary op_1SUB | 0x8f => op_unary op_NEGATE | 0x90 => op_unary op_ABS | 0x91 => op_unary op_NOT
  | 0x92 => op_unary op_0NOTEQUAL
  | 0x93 => op_binary op_ADD | 0x94 => op_binary op_SUB | 0x96 => op_binary op_DIV | 0x97 => op_binary op_MOD
  | 0x9a => op_binary op_BOOLAND | 0x9b => op_binary op_BOOLOR | 0x9c => op_binary op_NUMEQUAL | 0x9d => op_binary op_NUMEQUALVERIFY
  | 0x9e => op_binary op_NUMNOTEQUAL | 0x9f => op_binary op_LESSTHAN | 0xa0 => op_binary op_GREATERTHAN
  | 0xa1 => op_binary op_LESSTHANOREQUAL | 0xa2 => op_binary op_GREATERTHANOREQUAL | 0xa3 => op_binary op_MIN | 0xa4 => op_binary op_MAX
  | 0xa5 => op_WITHIN
  | 0xa6 => op_hash op_RIPEMD160 | 0xa7 => op_hash op_SHA1 | 0xa8 => op_hash op_SHA256 | 0xa9 => op_hash op_HASH160 | 0xaa => op_hash op_HASH256
  | 0xab => op_CODESEPARATOR
  | 0xac => op_CHECKSIG false | 0xad => op_CHECKSIG true | 0xae => op_CHECKMULTISIG false | 0xaf => op_CHECKMULTISIG true
  | 0xb0 => op_upgradable_NOP | 0xb1 => op_CHECKLOCKTIMEVERIFY | 0xb2 => op_CHECKSEQUENCEVERIFY
  | 0xb3 | 0xb4 | 0xb5 | 0xb7 | 0xb8 | 0xb9 => op_upgradable_NOP
  | 0xb6 => op_GROUP
  | 0xba => op_CHECKDATASIG false | 0xbb => op_CHECKDATASIG true
  | _ => op_default
  end.

(** ** Values *)
Fixpoint CastToBool (vch : valtype) : bool :=
  match vch with
  | [] => false
  | b :: vch => if negb (b =? 0) then negb (bool_decide (vch = []) && (b =? 0x80)) else CastToBool vch
  end.

Definition vchTrue : valtype := [1].
Definition vchFalse : valtype := [].
Definition vch_bool (b : bool) : valtype := if b then vchTrue else vchFalse.

(** CScriptNum of an element; its exception is an error of the script. *)
Definition script_num (flags : Z) (nMaxNumSize : nat) (vch : valtype) : result Z :=
  match CScriptNum vch (flag_on flags SCRIPT_VERIFY_MINIMALDATA) nMaxNumSize with
  | inl NUMBER_OVERFLOW => inl SCRIPT_ERR_NUMBER_OVERFLOW
  | inl NUMBER_BAD_ENCODING => inl SCRIPT_ERR_NUMBER_BAD_ENCODING
  | inr n => inr n
  end.
Definition nDefaultMaxNumSize : nat := 4.

(** ** Encodings of keys and signatures *)
Definition IsCompressedOrUncompressedPubKey (vchPubKey : valtype) : bool :=
  let size := Z.of_nat (length vchPubKey) in
  if size <? CPubKey_COMPRESSED_SIZE then false
  else if byte_at vchPubKey 0 =? 0x04 then size =? CPubKey_SIZE
  else if (byte_at vchPubKey 0 =? 0x02) || (byte_at vchPubKey 0 =? 0x03) then size =? CPubKey_COMPRESSED_SIZE
  else false.

Definition IsValidSignatureEncoding (sig : valtype) : bool :=
  let size := Z.of_nat (length sig) in
  if size <? 9 then false else if 73 <? size then false
  else if negb (byte_at sig 0 =? 0x30) then false
  else if negb (byte_at sig 1 =? size - 3) then false
  else
    let lenR := byte_at sig 3 in
    if size <=? 5 + lenR then false
    else
      let lenS := byte_at sig (5 + lenR) in
      if negb (lenR + lenS + 7 =? size) then false
      else if negb (byte_at sig 2 =? 0x02) then false
      else if lenR =? 0 then false
      else if negb (Z.land (byte_at sig 4) 0x80 =? 0) then false
      else if (1 <? lenR) && (byte_at sig 4 =? 0x00) && (Z.land (byte_at sig 5) 0x80 =? 0) then false
      else if negb (byte_at sig (lenR + 4) =? 0x02) then false
      else if lenS =? 0 then false
      else if negb (Z.land (byte_at sig (lenR + 6)) 0x80 =? 0) then false
      else if (1 <? lenS) && (byte_at sig (lenR + 6) =? 0x00) && (Z.land (byte_at sig (lenR + 7)) 0x80 =? 0) then false
      else true.

Definition IsDefinedHashtypeSignature (vchSig : valtype) : bool :=
  match last vchSig with
  | None => false
  | Some b => let nHashType := Z.ldiff b SIGHASH_ANYONECANPAY in (SIGHASH_ALL <=? nHashType) && (nHashType <=? SIGHASH_SINGLE)
  end.

Definition CheckMinimalPush (data : valtype) (opcode : Z) : bool :=
  let size := Z.of_nat (length data) in
  if size =? 0 then opcode =? 0
  else if (size =? 1) && (1 <=? byte_at data 0) && (byte_at data 0 <=? 16) then false
  else if (size =? 1) && (byte_at data 0 =? 0x81) then false
  else if size <=? 75 then opcode =? size
  else if size <=? 255 then opcode =? OP_PUSHDATA1
  else if size <=? 65535 then opcode =? OP_PUSHDATA2
  else true.

(** ** FindAndDelete *)
Fixpoint skip_copies (fuel : nat) (b pc : list Z) : list Z * Z :=
  match fuel with
  | O => (pc, 0)
  | S fuel => if bool_decide (b `prefix_of` pc) then let '(pc, n) := skip_copies fuel b (drop (length b) pc) in (pc, n + 1) else (pc, 0)
  end.

(** From the end [pc2] of the last copy that was skipped and the next operation [pc]. *)
Fixpoint delete_loop (fuel : nat) (b pc2 pc result : list Z) (nFound : Z) : list Z * Z :=
  let result := result ++ take (length pc2 - length pc) pc2 in
  let '(pc, n) := skip_copies (length pc) b pc in
  match GetScriptOp pc, fuel with
  | Some (_, _, pc'), S fuel => delete_loop fuel b pc pc' result (nFound + n)
  | _, _ => (result ++ pc, nFound + n)
  end.

Definition FindAndDelete (script b : list Z) : list Z * Z :=
  if bool_decide (b = []) then (script, 0)
  else let '(result, nFound) := delete_loop (length script) b script script [] 0 in (if 0 <? nFound then result else script, nFound).

(** ** The machine *)
Record BaseSignatureChecker := {
  CheckSig : valtype -> valtype -> list Z -> bool;
  CheckLockTime : Z -> bool;
  CheckSequence : Z -> bool }.

Record ScriptMachine := {
  sm_stack : list valtype; sm_altstack : list valtype;
  sm_vfExec : list bool;
  sm_pc : list Z; sm_pbegincodehash : list Z;
  sm_nOpCount : Z }.

#[export] Instance ScriptMachine_settable : Settable ScriptMachine :=
  fun m => Build_ScriptMachine (sm_stack m) (sm_altstack m) (sm_vfExec m) (sm_pc m) (sm_pbegincodehash m) (sm_nOpCount m).

Definition stack_error {A} : result A := inl SCRIPT_ERR_INVALID_STACK_OPERATION.

Section machine.
Context (flags : Z) (checker : BaseSignatureChecker).
(** CPubKey::Verify with the bytes of a key, the hash and the signature; CPubKey::CheckLowS. *)
Context (Verify : list Z -> list Z -> list Z -> bool) (CheckLowS : list Z -> bool).

Definition IsLowDERSignature (vchSig : valtype) : result unit :=
  _ ⇐ require (IsValidSignatureEncoding vchSig) SCRIPT_ERR_SIG_DER;
  require (CheckLowS (removelast vchSig)) SCRIPT_ERR_SIG_HIGH_S.

Definition CheckSignatureEncoding (vchSig : valtype) : result unit :=
  if bool_decide (vchSig = []) then inr tt
  else if flag_on flags (Z.lor (Z.lor SCRIPT_VERIFY_DERSIG SCRIPT_VERIFY_LOW_S) SCRIPT_VERIFY_STRICTENC) && negb (IsValidSignatureEncoding vchSig)
  then inl SCRIPT_ERR_SIG_DER
  else
    _ ⇐ (if flag_on flags SCRIPT_VERIFY_LOW_S then IsLowDERSignature vchSig else inr tt);
    if flag_on flags SCRIPT_VERIFY_STRICTENC && negb (IsDefinedHashtypeSignature vchSig) then inl SCRIPT_ERR_SIG_HASHTYPE else inr tt.

Definition CheckPubKeyEncoding (vchPubKey : valtype) : result unit :=
  if flag_on flags SCRIPT_VERIFY_STRICTENC && negb (IsCompressedOrUncompressedPubKey vchPubKey) then inl SCRIPT_ERR_PUBKEYTYPE else inr tt.

Definition CheckEncodings (vchSig vchPubKey : valtype) : result unit := _ ⇐ CheckSignatureEncoding vchSig; CheckPubKeyEncoding vchPubKey.

Definition num (vch : valtype) : result Z := script_num flags nDefaultMaxNumSize vch.

(** *** Lock times *)
Definition exec_CHECKLOCKTIMEVERIFY (stack : list valtype) : result unit :=
  if negb (flag_on flags SCRIPT_VERIFY_CHECKLOCKTIMEVERIFY) then inr tt
  else
    match stack with
    | [] => stack_error
    | top :: _ =>
        nLockTime ⇐ script_num flags 5 top;
        _ ⇐ require (0 <=? nLockTime) SCRIPT_ERR_NEGATIVE_LOCKTIME;
        require (CheckLockTime checker nLockTime) SCRIPT_ERR_UNSATISFIED_LOCKTIME
    end.

Definition exec_CHECKSEQUENCEVERIFY (stack : list valtype) : result unit :=
  if negb (flag_on flags SCRIPT_VERIFY_CHECKSEQUENCEVERIFY) then inr tt
  else
    match stack with
    | [] => stack_error
    | top :: _ =>
        nSequence ⇐ script_num flags 5 top;
        _ ⇐ require (0 <=? nSequence) SCRIPT_ERR_NEGATIVE_LOCKTIME;
        if negb (Z.land nSequence SEQUENCE_LOCKTIME_DISABLE_FLAG =? 0) then inr tt
        else require (CheckSequence checker nSequence) SCRIPT_ERR_UNSATISFIED_LOCKTIME
    end.

(** *** Stack operations *)
Definition exec_stack (o : StackOp) (stack : list valtype) : result (list valtype) :=
  match o, stack with
  | op_2DROP, _ :: _ :: s => inr s
  | op_2DUP, x2 :: x1 :: s => inr (x2 :: x1 :: x2 :: x1 :: s)
  | op_3DUP, x3 :: x2 :: x1 :: s => inr (x3 :: x2 :: x1 :: x3 :: x2 :: x1 :: s)
  | op_2OVER, x4 :: x3 :: x2 :: x1 :: s => inr (x2 :: x1 :: x4 :: x3 :: x2 :: x1 :: s)
  | op_2ROT, x6 :: x5 :: x4 :: x3 :: x2 :: x1 :: s => inr (x2 :: x1 :: x6 :: x5 :: x4 :: x3 :: s)
  | op_2SWAP, x4 :: x3 :: x2 :: x1 :: s => inr (x2 :: x1 :: x4 :: x3 :: s)
  | op_IFDUP, x :: s => inr (if CastToBool x then x :: x :: s else x :: s)
  | op_DEPTH, s => inr (CScriptNum_serialize (Z.of_nat (length s)) :: s)
  | op_DROP, _ :: s => inr s
  | op_DUP, x :: s => inr (x :: x :: s)
  | op_NIP, x2 :: _ :: s => inr (x2 :: s)
  | op_OVER, x2 :: x1 :: s => inr (x1 :: x2 :: x1 :: s)
  | op_PICK, x :: x1 :: s =>
      n ⇐ num x;
      let n := getint n in let s := x1 :: s in
      if (n <? 0) || (Z.of_nat (length s) <=? n) then stack_error
      else match s !! Z.to_nat n with Some vch => inr (vch :: s) | None => stack_error end
  | op_ROLL, x :: x1 :: s =>
      n ⇐ num x;
      let n := getint n in let s := x1 :: s in
      if (n <? 0) || (Z.of_nat (length s) <=? n) then stack_error
      else match s !! Z.to_nat n with Some vch => inr (vch :: delete (Z.to_nat n) s) | None => stack_error end
  | op_ROT, x3 :: x2 :: x1 :: s => inr (x1 :: x3 :: x2 :: s)
  | op_SWAP, x2 :: x1 :: s => inr (x1 :: x2 :: s)
  | op_TUCK, x2 :: x1 :: s => inr (x2 :: x1 :: x2 :: s)
  | op_SIZE, x :: s => inr (CScriptNum_serialize (Z.of_nat (length x)) :: x :: s)
  | _, _ => stack_error
  end.

Definition bit_op (o : BitOp) : Z -> Z -> Z := match o with op_AND => Z.land | op_OR => Z.lor | op_XOR => Z.lxor end.

Definition exec_bits (o : BitOp) (stack : list valtype) : result (list valtype) :=
  match stack with
  | vch2 :: vch1 :: s => if negb (length vch1 =? length vch2)%nat then inl SCRIPT_ERR_INVALID_OPERAND_SIZE else inr (zip_with (bit_op o) vch1 vch2 :: s)
  | _ => stack_error
  end.

Definition exec_EQUAL (verify : bool) (stack : list valtype) : result (list valtype) :=
  match stack with
  | vch2 :: vch1 :: s =>
      let fEqual := bool_decide (vch1 = vch2) in
      if verify then if fEqual then inr s else inl SCRIPT_ERR_EQUALVERIFY else inr (vch_bool fEqual :: s)
  | _ => stack_error
  end.

(** *** Numbers *)
Definition num_bool (b : bool) : Z := if b then 1 else 0.

Definition unary_value (o : UnaryOp) (bn : Z) : Z :=
  match o with
  | op_1ADD => bn + 1
  | op_1SUB => bn - 1
  | op_NEGATE => - bn
  | op_ABS => if bn <? 0 then - bn else bn
  | op_NOT => num_bool (bn =? 0)
  | op_0NOTEQUAL => num_bool (negb (bn =? 0))
  end.

Definition exec_unary (o : UnaryOp) (stack : list valtype) : result (list valtype) :=
  match stack with
  | x :: s => bn ⇐ num x; inr (CScriptNum_serialize (unary_value o bn) :: s)
  | _ => stack_error
  end.

Definition binary_value (o : BinaryOp) (bn1 bn2 : Z) : result Z :=
  match o with
  | op_ADD => inr (bn1 + bn2)
  | op_SUB => inr (bn1 - bn2)
  | op_DIV => if bn2 =? 0 then inl SCRIPT_ERR_DIV_BY_ZERO else inr (Z.quot bn1 bn2)
  | op_MOD => if bn2 =? 0 then inl SCRIPT_ERR_MOD_BY_ZERO else inr (Z.rem bn1 bn2)
  | op_BOOLAND => inr (num_bool (negb (bn1 =? 0) && negb (bn2 =? 0)))
  | op_BOOLOR => inr (num_bool (negb (bn1 =? 0) || negb (bn2 =? 0)))
  | op_NUMEQUAL | op_NUMEQUALVERIFY => inr (num_bool (bn1 =? bn2))
  | op_NUMNOTEQUAL => inr (num_bool (negb (bn1 =? bn2)))
  | op_LESSTHAN => inr (num_bool (bn1 <? bn2))
  | op_GREATERTHAN => inr (num_bool (bn2 <? bn1))
  | op_LESSTHANOREQUAL => inr (num_bool (bn1 <=? bn2))
  | op_GREATERTHANOREQUAL => inr (num_bool (bn2 <=? bn1))
  | op_MIN => inr (if bn1 <? bn2 then bn1 else bn2)
  | op_MAX => inr (if bn2 <? bn1 then bn1 else bn2)
  end.

Definition exec_binary (o : BinaryOp) (stack : list valtype) : result (list valtype) :=
  match stack with
  | x2 :: x1 :: s =>
      bn1 ⇐ num x1;
      bn2 ⇐ num x2;
      bn ⇐ binary_value o bn1 bn2;
      let vch := CScriptNum_serialize bn in
      match o with
      | op_NUMEQUALVERIFY => if CastToBool vch then inr s else inl SCRIPT_ERR_NUMEQUALVERIFY
      | _ => inr (vch :: s)
      end
  | _ => stack_error
  end.

Definition exec_WITHIN (stack : list valtype) : result (list valtype) :=
  match stack with
  | x3 :: x2 :: x1 :: s =>
      bn1 ⇐ num x1;
      bn2 ⇐ num x2;
      bn3 ⇐ num x3;
      inr (vch_bool ((bn2 <=? bn1) && (bn1 <? bn3)) :: s)
  | _ => stack_error
  end.

(** *** Hashes *)
Definition cleared : list Z := replicate 64 0.
Definition hash_value (o : HashOp) (vch : valtype) : valtype :=
  match o with
  | op_RIPEMD160 => (CRIPEMD160_Finalize (CRIPEMD160_Write (CRIPEMD160_new cleared) vch)).2
  | op_SHA1 => (CSHA1_Finalize (CSHA1_Write (CSHA1_new cleared) vch)).2
  | op_SHA256 => (CSHA256_Finalize (CSHA256_Write (CSHA256_new cleared) vch)).2
  | op_HASH160 => CHash160_Finalize cleared (CSHA256_Write (CSHA256_new cleared) vch)
  | op_HASH256 => CHash256_Finalize (CSHA256_Write (CSHA256_new cleared) vch)
  end.
Definition exec_hash (o : HashOp) (stack : list valtype) : result (list valtype) :=
  match stack with x :: s => inr (hash_value o x :: s) | _ => stack_error end.

(** *** Splicing and conversion *)
Definition exec_CAT (stack : list valtype) : result (list valtype) :=
  match stack with
  | vch2 :: vch1 :: s =>
      if MAX_SCRIPT_ELEMENT_SIZE <? Z.of_nat (length vch1) + Z.of_nat (length vch2) then inl SCRIPT_ERR_PUSH_SIZE else inr ((vch1 ++ vch2) :: s)
  | _ => stack_error
  end.

Definition exec_SPLIT (stack : list valtype) : result (list valtype) :=
  match stack with
  | x :: vch :: s =>
      n ⇐ num x;
      let nPosition := getint n in
      if (nPosition <? 0) || (Z.of_nat (length vch) <? nPosition) then inl SCRIPT_ERR_INVALID_SPLIT_RANGE
      else inr (drop (Z.to_nat nPosition) vch :: take (Z.to_nat nPosition) vch :: s)
  | _ => stack_error
  end.

(** A number at a given size: zeros before the byte with the sign. *)
Definition pad_number (rawnum : valtype) (size : nat) : valtype :=
  match last rawnum with
  | None => replicate (size - 1) 0 ++ [0]
  | Some b =>
      let rawnum := removelast rawnum ++ [Z.land b 0x7f] in
      rawnum ++ replicate (size - 1 - length rawnum) 0 ++ [Z.land b 0x80]
  end.

Definition exec_NUM2BIN (stack : list valtype) : result (list valtype) :=
  match stack with
  | x :: raw :: s =>
      n ⇐ num x;
      let size := u64 (getint n) in
      if MAX_SCRIPT_ELEMENT_SIZE <? size then inl SCRIPT_ERR_PUSH_SIZE
      else
        let rawnum := (MinimallyEncode raw).1 in
        if size <? Z.of_nat (length rawnum) then inl SCRIPT_ERR_IMPOSSIBLE_ENCODING
        else if Z.of_nat (length rawnum) =? size then inr (rawnum :: s)
        else inr (pad_number rawnum (Z.to_nat size) :: s)
  | _ => stack_error
  end.

Definition exec_BIN2NUM (stack : list valtype) : result (list valtype) :=
  match stack with
  | x :: s =>
      let n := (MinimallyEncode x).1 in
      if IsMinimallyEncoded n nDefaultMaxNumSize then inr (n :: s) else inl SCRIPT_ERR_INVALID_NUMBER_RANGE
  | _ => stack_error
  end.

(** *** Signatures *)
Definition pubkey_verify (vchPubKey hash sig : list Z) : bool :=
  match CPubKey vchPubKey with Some key => Verify key hash sig | None => false end.

(** The result of a check, or the end of its VERIFY variant. *)
Definition push_check (verify : bool) (fSuccess : bool) (e : ScriptError) (s : list valtype) : result (list valtype) :=
  if verify then if fSuccess then inr s else inl e else inr (vch_bool fSuccess :: s).

(** Remove a signature from the code it signs. *)
Definition drop_signature (vchSig : valtype) (scriptCode : list Z) : result (list Z) :=
  let '(scriptCode, found) := FindAndDelete scriptCode (script_push vchSig) in
  if (0 <? found) && flag_on flags SCRIPT_VERIFY_CONST_SCRIPTCODE then inl SCRIPT_ERR_SIG_FINDANDDELETE else inr scriptCode.

Definition exec_CHECKSIG (verify : bool) (pbegincodehash : list Z) (stack : list valtype) : result (list valtype) :=
  match stack with
  | vchPubKey :: vchSig :: s =>
      scriptCode ⇐ drop_signature vchSig pbegincodehash;
      _ ⇐ CheckEncodings vchSig vchPubKey;
      let fSuccess := CheckSig checker vchSig vchPubKey scriptCode in
      if negb fSuccess && flag_on flags SCRIPT_VERIFY_NULLFAIL && negb (bool_decide (vchSig = [])) then inl SCRIPT_ERR_SIG_NULLFAIL
      else push_check verify fSuccess SCRIPT_ERR_CHECKSIGVERIFY s
  | _ => stack_error
  end.

Definition exec_CHECKDATASIG (verify : bool) (stack : list valtype) : result (list valtype) :=
  match stack with
  | vchPubKey :: vchMessage :: vchSig :: s =>
      _ ⇐ CheckEncodings vchSig vchPubKey;
      let fSuccess := if bool_decide (vchSig = []) then false else pubkey_verify vchPubKey (hash_value op_SHA256 vchMessage) vchSig in
      if negb fSuccess && flag_on flags SCRIPT_VERIFY_NULLFAIL && negb (bool_decide (vchSig = [])) then inl SCRIPT_ERR_SIG_NULLFAIL
      else push_check verify fSuccess SCRIPT_ERR_CHECKDATASIGVERIFY s
  | _ => stack_error
  end.

Fixpoint drop_signatures (sigs : list valtype) (scriptCode : list Z) : result (list Z) :=
  match sigs with
  | [] => inr scriptCode
  | vchSig :: sigs => scriptCode ⇐ drop_signature vchSig scriptCode; drop_signatures sigs scriptCode
  end.

(** The keys and the signatures that are left, the ones nearest to the top first. *)
Fixpoint multisig_loop (scriptCode : list Z) (keys sigs : list valtype) : result bool :=
  match sigs, keys with
  | [], _ => inr true
  | _, [] => inr false
  | vchSig :: sigs', vchPubKey :: keys =>
      _ ⇐ CheckEncodings vchSig vchPubKey;
      let sigs := if CheckSig checker vchSig vchPubKey scriptCode then sigs' else sigs in
      if (length keys <? length sigs)%nat then inr false else multisig_loop scriptCode keys sigs
  end.

(** The stack and the count of operations. *)
Definition exec_CHECKMULTISIG (verify : bool) (pbegincodehash : list Z) (nOpCount : Z) (stack : list valtype) : result (list valtype * Z) :=
  match stack with
  | [] => stack_error
  | x :: _ =>
      nKeys ⇐ num x;
      let nKeysCount := getint nKeys in
      _ ⇐ require ((0 <=? nKeysCount) && (nKeysCount <=? MAX_PUBKEYS_PER_MULTISIG)) SCRIPT_ERR_PUBKEY_COUNT;
      let nOpCount := nOpCount + nKeysCount in
      _ ⇐ require (nOpCount <=? MAX_OPS_PER_SCRIPT) SCRIPT_ERR_OP_COUNT;
      match stack !! Z.to_nat (1 + nKeysCount) with
      | None => stack_error
      | Some y =>
          nSigs ⇐ num y;
          let nSigsCount := getint nSigs in
          _ ⇐ require ((0 <=? nSigsCount) && (nSigsCount <=? nKeysCount)) SCRIPT_ERR_SIG_COUNT;
          _ ⇐ require (nKeysCount + nSigsCount + 3 <=? Z.of_nat (length stack)) SCRIPT_ERR_INVALID_STACK_OPERATION;
          let keys := take (Z.to_nat nKeysCount) (drop 1 stack) in
          let sigs := take (Z.to_nat nSigsCount) (drop (Z.to_nat nKeysCount + 2) stack) in
          scriptCode ⇐ drop_signatures sigs pbegincodehash;
          fSuccess ⇐ multisig_loop scriptCode keys sigs;
          _ ⇐ require (negb (negb fSuccess && flag_on flags SCRIPT_VERIFY_NULLFAIL && existsb (fun sig => negb (bool_decide (sig = []))) sigs)) SCRIPT_ERR_SIG_NULLFAIL;
          match drop (Z.to_nat (nKeysCount + nSigsCount + 2)) stack with
          | [] => stack_error
          | dummy :: s =>
              _ ⇐ require (negb (flag_on flags SCRIPT_VERIFY_NULLDUMMY && negb (bool_decide (dummy = [])))) SCRIPT_ERR_SIG_NULLDUMMY;
              s ⇐ push_check verify fSuccess SCRIPT_ERR_CHECKMULTISIGVERIFY s;
              inr (s, nOpCount)
          end
      end
  end.

(** *** The switch *)
Definition on_stack (f : list valtype -> result (list valtype)) (m : ScriptMachine) : result ScriptMachine :=
  s ⇐ f (sm_stack m); inr (m <| sm_stack := s |>).

Definition exec_IF (fExec not : bool) (m : ScriptMachine) : result ScriptMachine :=
  if fExec then
    match sm_stack m with
    | [] => inl SCRIPT_ERR_UNBALANCED_CONDITIONAL
    | vch :: s => inr (m <| sm_vfExec := xorb not (CastToBool vch) :: sm_vfExec m |> <| sm_stack := s |>)
    end
  else inr (m <| sm_vfExec := false :: sm_vfExec m |>).

Definition execute (fExec : bool) (op : opcodetype) (m : ScriptMachine) : result ScriptMachine :=
  match op with
  | op_number n => inr (m <| sm_stack := CScriptNum_serialize n :: sm_stack m |>)
  | op_NOP | op_GROUP => inr m
  | op_CHECKLOCKTIMEVERIFY => _ ⇐ exec_CHECKLOCKTIMEVERIFY (sm_stack m); inr m
  | op_CHECKSEQUENCEVERIFY => _ ⇐ exec_CHECKSEQUENCEVERIFY (sm_stack m); inr m
  | op_upgradable_NOP => if flag_on flags SCRIPT_VERIFY_DISCOURAGE_UPGRADABLE_NOPS then inl SCRIPT_ERR_DISCOURAGE_UPGRADABLE_NOPS else inr m
  | op_IF not => exec_IF fExec not m
  | op_ELSE => match sm_vfExec m with [] => inl SCRIPT_ERR_UNBALANCED_CONDITIONAL | b :: v => inr (m <| sm_vfExec := negb b :: v |>) end
  | op_ENDIF => match sm_vfExec m with [] => inl SCRIPT_ERR_UNBALANCED_CONDITIONAL | _ :: v => inr (m <| sm_vfExec := v |>) end
  | op_VERIFY => on_stack (fun s => match s with x :: s => if CastToBool x then inr s else inl SCRIPT_ERR_VERIFY | _ => stack_error end) m
  | op_RETURN => inl SCRIPT_ERR_OP_RETURN
  | op_TOALTSTACK => match sm_stack m with x :: s => inr (m <| sm_stack := s |> <| sm_altstack := x :: sm_altstack m |>) | _ => stack_error end
  | op_FROMALTSTACK =>
      match sm_altstack m with x :: s => inr (m <| sm_stack := x :: sm_stack m |> <| sm_altstack := s |>) | _ => inl SCRIPT_ERR_INVALID_ALTSTACK_OPERATION end
  | op_stack o => on_stack (exec_stack o) m
  | op_EQUAL verify => on_stack (exec_EQUAL verify) m
  | op_bits o => on_stack (exec_bits o) m
  | op_unary o => on_stack (exec_unary o) m
  | op_binary o => on_stack (exec_binary o) m
  | op_WITHIN => on_stack exec_WITHIN m
  | op_hash o => on_stack (exec_hash o) m
  | op_CODESEPARATOR => inr (m <| sm_pbegincodehash := sm_pc m |>)
  | op_CHECKSIG verify => on_stack (exec_CHECKSIG verify (sm_pbegincodehash m)) m
  | op_CHECKDATASIG verify => on_stack (exec_CHECKDATASIG verify) m
  | op_CHECKMULTISIG verify =>
      r ⇐ exec_CHECKMULTISIG verify (sm_pbegincodehash m) (sm_nOpCount m) (sm_stack m);
      inr (m <| sm_stack := r.1 |> <| sm_nOpCount := r.2 |>)
  | op_CAT => on_stack exec_CAT m
  | op_SPLIT => on_stack exec_SPLIT m
  | op_NUM2BIN => on_stack exec_NUM2BIN m
  | op_BIN2NUM => on_stack exec_BIN2NUM m
  | op_default => inl SCRIPT_ERR_BAD_OPCODE
  end.

(** OP_CAT, OP_SPLIT, OP_AND, OP_OR, OP_XOR, OP_DIV, OP_MOD, OP_NUM2BIN, OP_BIN2NUM,
    OP_CHECKDATASIG and OP_CHECKDATASIGVERIFY *)
Definition DIP0020_opcodes : list Z := [0x7e; 0x7f; 0x84; 0x85; 0x86; 0x96; 0x97; 0x80; 0x81; 0xba; 0xbb].
(** OP_INVERT, OP_2MUL, OP_2DIV, OP_MUL, OP_LSHIFT and OP_RSHIFT *)
Definition disabled_opcodes : list Z := [0x83; 0x8d; 0x8e; 0x95; 0x98; 0x99].
Definition OP_CODESEPARATOR : Z := 0xab.
Definition OP_IF : Z := 0x63.
Definition OP_ENDIF : Z := 0x68.

(** The body of the loop of Step. *)
Definition one_step (m : ScriptMachine) : result ScriptMachine :=
  let fExec := forallb (fun b => b) (sm_vfExec m) in
  match GetScriptOp (sm_pc m) with
  | None => inl SCRIPT_ERR_BAD_OPCODE
  | Some (opcode, vchPushValue, pc) =>
      let m := m <| sm_pc := pc |> in
      _ ⇐ require (Z.of_nat (length vchPushValue) <=? MAX_SCRIPT_ELEMENT_SIZE) SCRIPT_ERR_PUSH_SIZE;
      let m := if OP_16 <? opcode then m <| sm_nOpCount := sm_nOpCount m + 1 |> else m in
      _ ⇐ require (negb ((OP_16 <? opcode) && (MAX_OPS_PER_SCRIPT <? sm_nOpCount m))) SCRIPT_ERR_OP_COUNT;
      _ ⇐ require (flag_on flags SCRIPT_ENABLE_DIP0020_OPCODES || negb (bool_decide (opcode ∈ DIP0020_opcodes))) SCRIPT_ERR_DISABLED_OPCODE;
      _ ⇐ require (negb (bool_decide (opcode ∈ disabled_opcodes))) SCRIPT_ERR_DISABLED_OPCODE;
      _ ⇐ require (negb ((opcode =? OP_CODESEPARATOR) && flag_on flags SCRIPT_VERIFY_CONST_SCRIPTCODE)) SCRIPT_ERR_OP_CODESEPARATOR;
      m ⇐ (if fExec && (opcode <=? OP_PUSHDATA4) then
               _ ⇐ require (negb (flag_on flags SCRIPT_VERIFY_MINIMALDATA && negb (CheckMinimalPush vchPushValue opcode))) SCRIPT_ERR_MINIMALDATA;
               inr (m <| sm_stack := vchPushValue :: sm_stack m |>)
             else if fExec || ((OP_IF <=? opcode) && (opcode <=? OP_ENDIF)) then execute fExec (op_of opcode) m
             else inr m);
      _ ⇐ require (Z.of_nat (length (sm_stack m)) + Z.of_nat (length (sm_altstack m)) <=? MAX_STACK_SIZE) SCRIPT_ERR_STACK_SIZE;
      inr m
  end.

(** Step runs to the end of the script. *)
Fixpoint Step (fuel : nat) (m : ScriptMachine) : result ScriptMachine :=
  match sm_pc m, fuel with
  | [], _ => if bool_decide (sm_vfExec m = []) then inr m else inl SCRIPT_ERR_UNBALANCED_CONDITIONAL
  | _, O => inl SCRIPT_ERR_UNKNOWN_ERROR
  | _, S fuel => m ⇐ one_step m; Step fuel m
  end.

(** BeginStep, Step and EndStep on a fresh machine with the given stack. *)
Definition EvalScript (stack : list valtype) (script : list Z) : result (list valtype) :=
  _ ⇐ require (script_size script <=? MAX_SCRIPT_SIZE) SCRIPT_ERR_SCRIPT_SIZE;
  m ⇐ Step (length script) {| sm_stack := stack; sm_altstack := []; sm_vfExec := []; sm_pc := script; sm_pbegincodehash := script; sm_nOpCount := 0 |};
  inr (sm_stack m).

Definition eval_true (stack : list valtype) : result unit :=
  match stack with
  | [] => inl SCRIPT_ERR_EVAL_FALSE
  | top :: _ => require (CastToBool top) SCRIPT_ERR_EVAL_FALSE
  end.

(** [None] is a failed assertion. *)
Definition VerifyScript (scriptSig scriptPubKey : list Z) : option (result unit) :=
  if flag_on flags SCRIPT_VERIFY_SIGPUSHONLY && negb (IsPushOnly scriptSig) then Some (inl SCRIPT_ERR_SIG_PUSHONLY)
  else
    match EvalScript [] scriptSig with
    | inl e => Some (inl e)
    | inr stackCopy =>
        match (stack ⇐ EvalScript stackCopy scriptPubKey; _ ⇐ eval_true stack; inr stack) with
        | inl e => Some (inl e)
        | inr stack =>
            r ← (if flag_on flags SCRIPT_VERIFY_P2SH && IsPayToScriptHash scriptPubKey then
                   if negb (IsPushOnly scriptSig) then Some (inl SCRIPT_ERR_SIG_PUSHONLY)
                   else
                     match stackCopy with
                     | [] => None
                     | pubKeySerialized :: stack => Some (stack ⇐ EvalScript stack pubKeySerialized; _ ⇐ eval_true stack; inr stack)
                     end
                 else Some (inr stack));
            match r with
            | inl e => Some (inl e)
            | inr stack =>
                if flag_on flags SCRIPT_VERIFY_CLEANSTACK then
                  if negb (flag_on flags SCRIPT_VERIFY_P2SH) then None
                  else if (length stack =? 1)%nat then Some (inr tt) else Some (inl SCRIPT_ERR_CLEANSTACK)
                else Some (inr tt)
            end
        end
    end.
End machine.
