(* ===== verification/ScriptProofs.v ===== *)
(** * The script interpreter: flags, limits and assertions *)

From stdpp Require Import relations.
From S2P Require Import Prelude Serialize Params BetTx BetKeys Transaction TokenGroups AddressIndex TxVerify HashStream Sha2 Sha1 Hash160 ScriptNum Standard Script.

(** ** More flags accept fewer scripts *)
Definition flags_within (A B : Z) : Prop := Z.land A B = A.

Lemma flag_on_within A B f : flags_within A B -> flag_on A f = true -> flag_on B f = true.
Proof.
  unfold flags_within, flag_on. intros H. destruct (Z.eqb_spec (Z.land B f) 0) as [E|]; [|done]. rewrite <-H, <-Z.land_assoc, E, Z.land_0_r. done.
Qed.

(** What the first result accepts the second accepts as well, with the same outcome. *)
Definition keeps {T} (rB rA : result T) : Prop := forall x, rB = inr x -> rA = inr x.

Lemma keeps_refl {T} (r : result T) : keeps r r.
Proof. by intros x. Qed.
Lemma keeps_inl {T} e (r : result T) : keeps (inl e) r.
Proof. by intros x. Qed.
Lemma keeps_bind {T U} (rB rA : result T) (kB kA : T -> result U) : keeps rB rA -> (forall x, keeps (kB x) (kA x)) -> keeps (rbind rB kB) (rbind rA kA).
Proof. intros Hr Hk y. destruct rB as [e|x]; [done|]. rewrite (Hr x eq_refl). apply Hk. Qed.
Lemma keeps_require bB bA e : (bB = true -> bA = true) -> keeps (require bB e) (require bA e).
Proof. intros H x. unfold require. destruct bB; [by rewrite H|done]. Qed.
(** A condition that is only checked with a flag. *)
Lemma keeps_checked {T} (cB cA c : bool) e (rB rA : result T) : (cA = true -> cB = true) -> keeps rB rA -> keeps (if cB && c then inl e else rB) (if cA && c then inl e else rA).
Proof. intros Hc Hr. destruct cB, c; cbn [andb]; try apply keeps_inl; destruct cA; cbn [andb]; try done; specialize (Hc eq_refl); done. Qed.

Create HintDb script.
#[export] Hint Resolve keeps_refl keeps_inl : script.

(** Both sides do the same up to the next thing that differs. *)
Ltac keeps_step :=
  first
  [ apply keeps_refl | apply keeps_inl | assumption
  | apply keeps_bind; [|intros ?]
  | match goal with
    | |- keeps (match ?x with _ => _ end) (match ?x with _ => _ end) => destruct x
    | |- keeps (if ?x then _ else _) (if ?x then _ else _) => destruct x
    end ].

Section softfork.
Context (A B : Z) (HAB : flags_within A B).
Context (checker : BaseSignatureChecker) (Verify : list Z -> list Z -> list Z -> bool) (CheckLowS : list Z -> bool).

Lemma flag_AB f : flag_on A f = true -> flag_on B f = true.
Proof using HAB. by apply flag_on_within. Qed.

Lemma script_num_keeps n vch : keeps (script_num B n vch) (script_num A n vch).
Proof using HAB.
  unfold script_num, CScriptNum. destruct (n <? length vch)%nat; [apply keeps_inl|]. pose proof (flag_AB SCRIPT_VERIFY_MINIMALDATA) as H.
  destruct (flag_on A _); [rewrite H by done; apply keeps_refl|]. destruct (flag_on B _ && _); [apply keeps_inl|apply keeps_refl].
Qed.

Lemma CheckSignatureEncoding_keeps sig : keeps (CheckSignatureEncoding B CheckLowS sig) (CheckSignatureEncoding A CheckLowS sig).
Proof using HAB.
  unfold CheckSignatureEncoding. keeps_step; [keeps_step|]. apply keeps_checked; [apply flag_AB|]. keeps_step.
  - pose proof (flag_AB SCRIPT_VERIFY_LOW_S) as H. destruct (flag_on A SCRIPT_VERIFY_LOW_S); [rewrite H by done; apply keeps_refl|].
    destruct (flag_on B _); [|apply keeps_refl]. by destruct (IsLowDERSignature CheckLowS sig) as [|[]]; intros [].
  - apply keeps_checked; [apply flag_AB|apply keeps_refl].
Qed.

Lemma CheckEncodings_keeps sig key : keeps (CheckEncodings B CheckLowS sig key) (CheckEncodings A CheckLowS sig key).
Proof using HAB.
  unfold CheckEncodings, CheckPubKeyEncoding. keeps_step; [apply CheckSignatureEncoding_keeps|]. apply keeps_checked; [apply flag_AB|apply keeps_refl].
Qed.

Lemma drop_signature_keeps sig code : keeps (drop_signature B sig code) (drop_signature A sig code).
Proof using HAB.
  unfold drop_signature. destruct (FindAndDelete _ _) as [c n]. rewrite !(andb_comm (0 <? n)). apply keeps_checked; [apply flag_AB|apply keeps_refl].
Qed.

Lemma drop_signatures_keeps sigs : forall code, keeps (drop_signatures B sigs code) (drop_signatures A sigs code).
Proof using HAB. induction sigs as [|sig sigs IH]; intros code; [apply keeps_refl|]. cbn [drop_signatures]. apply keeps_bind; [apply drop_signature_keeps|done]. Qed.

Lemma multisig_loop_keeps code keys : forall sigs, keeps (multisig_loop B checker CheckLowS code keys sigs) (multisig_loop A checker CheckLowS code keys sigs).
Proof using HAB.
  induction keys as [|key keys IH]; intros [|sig sigs]; try apply keeps_refl. cbn [multisig_loop]. apply keeps_bind; [apply CheckEncodings_keeps|]. intros _. keeps_step; [keeps_step|apply IH].
Qed.
#[local] Hint Resolve script_num_keeps CheckEncodings_keeps drop_signature_keeps drop_signatures_keeps multisig_loop_keeps : script.

(** The checks that a flag turns on. *)
Lemma keeps_flag f c e : keeps (require (negb (flag_on B f && c)) e) (require (negb (flag_on A f && c)) e).
Proof using HAB.
  apply keeps_require. pose proof (flag_AB f) as H. destruct (flag_on A f); [by rewrite H|]. done.
Qed.

Ltac go := repeat (first [progress (unfold num in * ) | solve [eauto with script] | keeps_step]).

Lemma exec_stack_keeps o s : keeps (exec_stack B o s) (exec_stack A o s).
Proof using HAB. destruct o; cbn [exec_stack]; go. Qed.
Lemma exec_unary_keeps o s : keeps (exec_unary B o s) (exec_unary A o s).
Proof using HAB. unfold exec_unary. go. Qed.
Lemma exec_binary_keeps o s : keeps (exec_binary B o s) (exec_binary A o s).
Proof using HAB. unfold exec_binary. go. Qed.
Lemma exec_WITHIN_keeps s : keeps (exec_WITHIN B s) (exec_WITHIN A s).
Proof using HAB. unfold exec_WITHIN. go. Qed.
Lemma exec_SPLIT_keeps s : keeps (exec_SPLIT B s) (exec_SPLIT A s).
Proof using HAB. unfold exec_SPLIT. go. Qed.
Lemma exec_NUM2BIN_keeps s : keeps (exec_NUM2BIN B s) (exec_NUM2BIN A s).
Proof using HAB. unfold exec_NUM2BIN. go. Qed.
Lemma exec_CHECKSIG_keeps v code s : keeps (exec_CHECKSIG B checker CheckLowS v code s) (exec_CHECKSIG A checker CheckLowS v code s).
Proof using HAB.
  unfold exec_CHECKSIG. do 2 keeps_step; try apply keeps_refl. keeps_step; [auto with script|]. keeps_step; [auto with script|].
  rewrite !(andb_comm (negb (CheckSig _ _ _ _))), <-!andb_assoc. apply keeps_checked; [apply flag_AB|apply keeps_refl].
Qed.
Lemma exec_CHECKDATASIG_keeps v s : keeps (exec_CHECKDATASIG B Verify CheckLowS v s) (exec_CHECKDATASIG A Verify CheckLowS v s).
Proof using HAB.
  unfold exec_CHECKDATASIG. do 3 keeps_step; try apply keeps_refl. keeps_step; [auto with script|]. cbv zeta.
  set (f := if bool_decide _ then false else _). rewrite !(andb_comm (negb f)), <-!andb_assoc. apply keeps_checked; [apply flag_AB|apply keeps_refl].
Qed.
Lemma exec_CHECKMULTISIG_keeps v code n s : keeps (exec_CHECKMULTISIG B checker CheckLowS v code n s) (exec_CHECKMULTISIG A checker CheckLowS v code n s).
Proof using HAB.
  unfold exec_CHECKMULTISIG, num. destruct s as [|x s]; [apply keeps_refl|]. keeps_step; [auto with script|]. do 2 (keeps_step; [keeps_step|]).
  keeps_step; [|apply keeps_refl]. keeps_step; [auto with script|]. do 2 (keeps_step; [keeps_step|]). keeps_step; [auto with script|]. keeps_step; [auto with script|].
  keeps_step. { rewrite !(andb_comm (negb _)), <-!andb_assoc. apply keeps_flag. }
  keeps_step; [apply keeps_refl|]. keeps_step; [apply keeps_flag|apply keeps_refl].
Qed.

Lemma exec_LOCKTIME_keeps s : keeps (exec_CHECKLOCKTIMEVERIFY B checker s) (exec_CHECKLOCKTIMEVERIFY A checker s).
Proof using HAB.
  unfold exec_CHECKLOCKTIMEVERIFY. pose proof (flag_AB SCRIPT_VERIFY_CHECKLOCKTIMEVERIFY) as H. destruct (flag_on A _); [rewrite H by done|by intros []; intros].
  cbn [negb]. go.
Qed.
Lemma exec_SEQUENCE_keeps s : keeps (exec_CHECKSEQUENCEVERIFY B checker s) (exec_CHECKSEQUENCEVERIFY A checker s).
Proof using HAB.
  unfold exec_CHECKSEQUENCEVERIFY. pose proof (flag_AB SCRIPT_VERIFY_CHECKSEQUENCEVERIFY) as H. destruct (flag_on A _); [rewrite H by done|by intros []; intros].
  cbn [negb]. go.
Qed.
#[local] Hint Resolve exec_stack_keeps exec_unary_keeps exec_binary_keeps exec_WITHIN_keeps exec_SPLIT_keeps exec_NUM2BIN_keeps exec_CHECKSIG_keeps
  exec_CHECKDATASIG_keeps exec_CHECKMULTISIG_keeps exec_LOCKTIME_keeps exec_SEQUENCE_keeps : script.

Lemma on_stack_keeps fB fA m : (forall s, keeps (fB s) (fA s)) -> keeps (on_stack fB m) (on_stack fA m).
Proof. intros H. unfold on_stack. keeps_step; [apply H|apply keeps_refl]. Qed.

Lemma execute_keeps fExec op m : keeps (execute B checker Verify CheckLowS fExec op m) (execute A checker Verify CheckLowS fExec op m).
Proof using HAB.
  destruct op; cbn [execute]; try apply keeps_refl; try (apply on_stack_keeps; intros ?; auto with script); try (keeps_step; [auto with script|apply keeps_refl]).
  destruct (flag_on B _) eqn:E; [apply keeps_inl|]. pose proof (flag_AB SCRIPT_VERIFY_DISCOURAGE_UPGRADABLE_NOPS) as H. rewrite E in H.
  destruct (flag_on A _); [by specialize (H eq_refl)|apply keeps_refl].
Qed.

Context (Hdip : flag_on B SCRIPT_ENABLE_DIP0020_OPCODES = true -> flag_on A SCRIPT_ENABLE_DIP0020_OPCODES = true).

Lemma one_step_keeps m : keeps (one_step B checker Verify CheckLowS m) (one_step A checker Verify CheckLowS m).
Proof using HAB Hdip.
  unfold one_step. destruct (GetScriptOp _) as [[[opcode v] pc]|]; [|apply keeps_refl]. do 2 (keeps_step; [keeps_step|]).
  keeps_step. { apply keeps_require. destruct (flag_on B _); [by rewrite Hdip|]. cbn [orb]. intros ->. apply orb_true_r. }
  keeps_step; [keeps_step|]. keeps_step. { rewrite !(andb_comm (opcode =? _)). apply keeps_flag. }
  keeps_step; [|apply keeps_refl]. keeps_step; [keeps_step; [apply keeps_flag|apply keeps_refl]|]. keeps_step; [apply execute_keeps|apply keeps_refl].
Qed.

Lemma Step_keeps fuel : forall m, keeps (Step B checker Verify CheckLowS fuel m) (Step A checker Verify CheckLowS fuel m).
Proof using HAB Hdip.
  induction fuel as [|fuel IH]; intros m; cbn [Step]; (destruct (sm_pc m); [apply keeps_refl|]); [apply keeps_inl|]. apply keeps_bind; [apply one_step_keeps|done].
Qed.

Lemma EvalScript_keeps s script : keeps (EvalScript B checker Verify CheckLowS s script) (EvalScript A checker Verify CheckLowS s script).
Proof using HAB Hdip. unfold EvalScript. keeps_step; [keeps_step|]. keeps_step; [apply Step_keeps|apply keeps_refl]. Qed.
End softfork.

Lemma VerifyScript_keeps A B checker Verify CheckLowS scriptSig scriptPubKey : flags_within A B ->
  (flag_on B SCRIPT_ENABLE_DIP0020_OPCODES = true -> flag_on A SCRIPT_ENABLE_DIP0020_OPCODES = true) ->
  (flag_on A SCRIPT_VERIFY_CLEANSTACK = true -> flag_on A SCRIPT_VERIFY_P2SH = true) ->
  VerifyScript B checker Verify CheckLowS scriptSig scriptPubKey = Some (inr tt) ->
  VerifyScript A checker Verify CheckLowS scriptSig scriptPubKey = Some (inr tt).
Proof.
  intros HAB Hdip Hclean. pose proof (EvalScript_keeps A B HAB checker Verify CheckLowS Hdip) as Heval. pose proof (flag_AB A B HAB) as Hf.
  assert (forall s script, keeps (stack ⇐ EvalScript B checker Verify CheckLowS s script; _ ⇐ eval_true stack; inr stack)
    (stack ⇐ EvalScript A checker Verify CheckLowS s script; _ ⇐ eval_true stack; inr stack)) as Htrue by (intros; apply keeps_bind; [apply Heval|intros; apply keeps_refl]).
  unfold VerifyScript. pose proof (Hf SCRIPT_VERIFY_SIGPUSHONLY) as Hpush. destruct (flag_on B SCRIPT_VERIFY_SIGPUSHONLY && negb (IsPushOnly scriptSig)) eqn:Ep; [done|].
  replace (flag_on A SCRIPT_VERIFY_SIGPUSHONLY && negb (IsPushOnly scriptSig)) with false by (destruct (flag_on A SCRIPT_VERIFY_SIGPUSHONLY); [by rewrite Hpush in Ep|done]).
  destruct (EvalScript B _ _ _ [] scriptSig) as [e|copy] eqn:E1; [done|]. rewrite (Heval _ _ _ E1).
  destruct (stack ⇐ EvalScript B _ _ _ copy scriptPubKey; _) as [e|stack] eqn:E2; [done|]. rewrite (Htrue _ _ _ E2).
  pose proof (Hf SCRIPT_VERIFY_P2SH) as HP. pose proof (Hf SCRIPT_VERIFY_CLEANSTACK) as HC. destruct (flag_on A SCRIPT_VERIFY_P2SH) eqn:EA.
  - rewrite HP by done. cbn [andb negb]. destruct (IsPayToScriptHash scriptPubKey).
    + destruct (IsPushOnly scriptSig); cbn [negb]; [|done]. destruct copy as [|top rest]; [done|]. cbn [mbind option_bind].
      destruct (stack ⇐ EvalScript B _ _ _ rest top; _) as [e|stack'] eqn:E3; [done|]. rewrite (Htrue _ _ _ E3).
      destruct (flag_on A SCRIPT_VERIFY_CLEANSTACK); [by rewrite HC|done].
    + cbn [mbind option_bind]. destruct (flag_on A SCRIPT_VERIFY_CLEANSTACK); [by rewrite HC|done].
  - intros _. cbn [andb mbind option_bind]. destruct (flag_on A SCRIPT_VERIFY_CLEANSTACK); [by specialize (Hclean eq_refl)|done].
Qed.

(** C24: The flags are soft forks, as interpreter.h says of them: a pair of scripts that
    is accepted with some flags is accepted with fewer of them.  Two conditions are
    needed: SCRIPT_ENABLE_DIP0020_OPCODES, which accepts more scripts, has to stay,
    and SCRIPT_VERIFY_CLEANSTACK must not be left without SCRIPT_VERIFY_P2SH, which
    is an assertion. *)
Theorem VerifyScript_softfork A B checker Verify CheckLowS scriptSig scriptPubKey : flags_within A B ->
  (flag_on B SCRIPT_ENABLE_DIP0020_OPCODES = true -> flag_on A SCRIPT_ENABLE_DIP0020_OPCODES = true) ->
  (flag_on A SCRIPT_VERIFY_CLEANSTACK = true -> flag_on A SCRIPT_VERIFY_P2SH = true) ->
  VerifyScript B checker Verify CheckLowS scriptSig scriptPubKey = Some (inr tt) ->
  VerifyScript A checker Verify CheckLowS scriptSig scriptPubKey = Some (inr tt).
Proof. apply VerifyScript_keeps. Qed.

(** With SCRIPT_ENABLE_DIP0020_OPCODES more scripts are accepted: 1 1 OP_CAT, then 1. *)
Example DIP0020_accepts_more :
  let checker := {| CheckSig := fun _ _ _ => false; CheckLockTime := fun _ => false; CheckSequence := fun _ => false |} in
  let verify flags := VerifyScript flags checker (fun _ _ _ => false) (fun _ => false) [0x51; 0x51; 0x7e] [0x51] in
  verify 0 = Some (inl SCRIPT_ERR_DISABLED_OPCODE) /\ verify SCRIPT_ENABLE_DIP0020_OPCODES = Some (inr tt).
Proof. split; vm_compute; reflexivity. Qed.

(** * The script interpreter: what a script can use *)

Definition element_ok (v : valtype) : Prop := Z.of_nat (length v) <= MAX_SCRIPT_ELEMENT_SIZE.
Abbreviation stack_ok := (Forall element_ok).

(** A machine within its limits. *)
Definition within_limits (m : ScriptMachine) : Prop :=
  stack_ok (sm_stack m) /\ stack_ok (sm_altstack m) /\ Z.of_nat (length (sm_stack m)) + Z.of_nat (length (sm_altstack m)) <= MAX_STACK_SIZE /\
  0 <= sm_nOpCount m <= MAX_OPS_PER_SCRIPT.

(** What holds of a result, if it is one. *)
Definition yields {T} (P : T -> Prop) (r : result T) : Prop := forall x, r = inr x -> P x.

Lemma yields_inl {T} (P : T -> Prop) e : yields P (inl e).
Proof. by intros x. Qed.
Lemma yields_inr {T} (P : T -> Prop) x : P x -> yields P (inr x).
Proof. by intros H y [= <-]. Qed.
Lemma yields_bind {T U} (P : U -> Prop) (r : result T) (k : T -> result U) : (forall x, r = inr x -> yields P (k x)) -> yields P (rbind r k).
Proof. intros H. destruct r as [e|x]; [apply yields_inl|]. by apply H. Qed.

Ltac yields_step :=
  first
  [ apply yields_inl | apply yields_bind; intros ? ?
  | match goal with
    | |- yields _ (inr _) => apply yields_inr
    | |- yields _ (match ?x with _ => _ end) => destruct x eqn:?
    end ].

(** ** Sizes of what is pushed *)
Lemma abs_bytes_length fuel : forall a, (length (abs_bytes fuel a) <= fuel)%nat.
Proof. induction fuel as [|fuel IH]; intros a; cbn [abs_bytes]; [done|]. destruct (a =? 0); cbn [length]; [lia|]. specialize (IH (Z.shiftr a 8)). lia. Qed.

Lemma number_ok v : element_ok (CScriptNum_serialize v).
Proof.
  unfold element_ok, MAX_SCRIPT_ELEMENT_SIZE, CScriptNum_serialize. destruct (v =? 0); [cbn; lia|]. pose proof (abs_bytes_length 8 (u64 (Z.abs v))) as H.
  set (r := abs_bytes 8 (u64 (Z.abs v))) in *. destruct (last r) as [b|] eqn:E; [|cbn; lia]. destruct (negb _); [rewrite length_app; cbn [length]; lia|].
  destruct (v <? 0); [|lia]. apply last_Some in E as [l E]. rewrite E in *. rewrite removelast_app by done. cbn [removelast]. rewrite !length_app in *. cbn [length] in *. lia.
Qed.

Lemma bool_ok b : element_ok (vch_bool b).
Proof. destruct b; unfold element_ok, MAX_SCRIPT_ELEMENT_SIZE; cbn; lia. Qed.

Lemma be_words_length n (f : Z -> list Z) l : (forall x, length (f x) = n) -> length (mjoin (f <$> l)) = (n * length l)%nat.
Proof. intros Hf. induction l as [|x l IH]; [cbn; lia|]. change (mjoin (f <$> x :: l)) with (f x ++ mjoin (f <$> l)). rewrite length_app, IH, Hf. cbn [length]. lia. Qed.

Lemma hash_ok o v : element_ok (hash_value o v).
Proof.
  unfold element_ok, MAX_SCRIPT_ELEMENT_SIZE. destruct o; cbn [hash_value].
  - unfold CRIPEMD160_Finalize. cbn [snd]. rewrite (be_words_length 4) by apply length_le_bytes. destruct (hs_s _) as [[[[? ?] ?] ?] ?]. cbn. lia.
  - unfold CSHA1_Finalize. cbn [snd]. rewrite (be_words_length 4) by (intros; unfold WriteBE32, be_bytes; by rewrite length_reverse, length_le_bytes). destruct (hs_s _) as [[[[? ?] ?] ?] ?]. cbn. lia.
  - unfold CSHA256_Finalize. cbn [snd]. rewrite (be_words_length 4) by (intros; unfold WriteBE32, be_bytes; by rewrite length_reverse, length_le_bytes). destruct (hs_s _) as [[[[[[[? ?] ?] ?] ?] ?] ?] ?]. cbn. lia.
  - unfold CHash160_Finalize, CRIPEMD160_Finalize. cbn [snd]. rewrite (be_words_length 4) by apply length_le_bytes. destruct (hs_s _) as [[[[? ?] ?] ?] ?]. cbn. lia.
  - unfold CHash256_Finalize. destruct (CSHA256_Finalize _) as [sha buf]. unfold CSHA256_Finalize. cbn [snd]. rewrite (be_words_length 4) by (intros; unfold WriteBE32, be_bytes; by rewrite length_reverse, length_le_bytes). destruct (hs_s _) as [[[[[[[? ?] ?] ?] ?] ?] ?] ?]. cbn. lia.
Qed.
#[local] Opaque hash_value.

Create HintDb limits.
#[local] Hint Resolve number_ok bool_ok hash_ok : limits.

(** Take a stack apart, and put another one together. *)
Ltac stacks := repeat match goal with H : stack_ok (_ :: _) |- _ => apply Forall_cons in H as [? H] end; repeat (apply Forall_cons; split); eauto with limits.

Section ops.
Context (flags : Z) (checker : BaseSignatureChecker) (Verify : list Z -> list Z -> list Z -> bool) (CheckLowS : list Z -> bool).

Lemma exec_stack_ok o s : stack_ok s -> yields stack_ok (exec_stack flags o s).
Proof.
  intros Hs. destruct o; cbn [exec_stack]; repeat yields_step; subst; stacks.
  - destruct (CastToBool _); by repeat constructor.
  - eapply (Forall_lookup_1 element_ok (_ :: _)); [by constructor|eassumption].
  - eapply (Forall_lookup_1 element_ok (_ :: _)); [by constructor|eassumption].
  - apply Forall_delete. by constructor.
Qed.

Lemma exec_bits_ok o s : stack_ok s -> yields stack_ok (exec_bits o s).
Proof.
  intros Hs. unfold exec_bits. repeat yields_step; subst; stacks. unfold element_ok in *. rewrite length_zip_with. lia.
Qed.

Lemma exec_EQUAL_ok v s : stack_ok s -> yields stack_ok (exec_EQUAL v s).
Proof. intros Hs. unfold exec_EQUAL. cbv zeta. repeat yields_step; subst; stacks. Qed.

Lemma exec_unary_ok o s : stack_ok s -> yields stack_ok (exec_unary flags o s).
Proof. intros Hs. unfold exec_unary. repeat yields_step; subst; stacks. Qed.

Lemma exec_binary_ok o s : stack_ok s -> yields stack_ok (exec_binary flags o s).
Proof. intros Hs. unfold exec_binary. repeat yields_step; subst; stacks. Qed.

Lemma exec_WITHIN_ok s : stack_ok s -> yields stack_ok (exec_WITHIN flags s).
Proof. intros Hs. unfold exec_WITHIN. repeat yields_step; subst; stacks. Qed.

Lemma exec_hash_ok o s : stack_ok s -> yields stack_ok (exec_hash o s).
Proof. intros Hs. unfold exec_hash. repeat yields_step; subst; stacks. Qed.

Lemma exec_CAT_ok s : stack_ok s -> yields stack_ok (exec_CAT s).
Proof. intros Hs. unfold exec_CAT. repeat yields_step; subst; stacks. unfold element_ok. rewrite length_app. lia. Qed.

Lemma exec_SPLIT_ok s : stack_ok s -> yields stack_ok (exec_SPLIT flags s).
Proof.
  intros Hs. unfold exec_SPLIT. cbv zeta. repeat yields_step; subst; stacks; unfold element_ok in *; rewrite ?length_drop, ?length_take; lia.
Qed.

Lemma pad_number_length raw size : (length raw < size)%nat -> length (pad_number raw size) = size.
Proof.
  intros H. unfold pad_number. destruct (last raw) as [b|] eqn:E.
  - apply last_Some in E as [l ->]. rewrite removelast_app by done. cbn [removelast]. rewrite app_nil_r. rewrite !length_app, length_replicate. rewrite length_app in H. cbn [length] in *. lia.
  - rewrite length_app, length_replicate. cbn [length]. lia.
Qed.

Lemma exec_NUM2BIN_ok s : stack_ok s -> yields stack_ok (exec_NUM2BIN flags s).
Proof.
  intros Hs. unfold exec_NUM2BIN. cbv zeta. repeat yields_step; subst; stacks; unfold element_ok in *; [lia|]. rewrite pad_number_length by lia. lia.
Qed.

Lemma exec_BIN2NUM_ok s : stack_ok s -> yields stack_ok (exec_BIN2NUM s).
Proof.
  intros Hs. unfold exec_BIN2NUM. cbv zeta. repeat yields_step; subst; stacks. unfold element_ok, MAX_SCRIPT_ELEMENT_SIZE.
  match goal with H : IsMinimallyEncoded ?n _ = true |- _ => unfold IsMinimallyEncoded, nDefaultMaxNumSize in H; destruct (Nat.ltb_spec 4 (length n)); [done|lia] end.
Qed.

Lemma push_check_ok v b e s : stack_ok s -> yields stack_ok (push_check v b e s).
Proof. intros Hs. unfold push_check. repeat yields_step; subst; stacks. Qed.

Lemma exec_CHECKSIG_ok v code s : stack_ok s -> yields stack_ok (exec_CHECKSIG flags checker CheckLowS v code s).
Proof. intros Hs. unfold exec_CHECKSIG. cbv zeta. do 2 (yields_step; [apply yields_inl|]). do 3 yields_step; [apply yields_inl|]. subst. apply push_check_ok. stacks. Qed.

Lemma exec_CHECKDATASIG_ok v s : stack_ok s -> yields stack_ok (exec_CHECKDATASIG flags Verify CheckLowS v s).
Proof. intros Hs. unfold exec_CHECKDATASIG. cbv zeta. do 3 (yields_step; [apply yields_inl|]). do 2 yields_step; [apply yields_inl|]. subst. apply push_check_ok. stacks. Qed.

Lemma require_true b e x : require b e = inr x -> b = true.
Proof. by destruct b. Qed.

Lemma exec_CHECKMULTISIG_ok v code n s : stack_ok s -> 0 <= n ->
  yields (fun r => stack_ok r.1 /\ 0 <= r.2 <= MAX_OPS_PER_SCRIPT) (exec_CHECKMULTISIG flags checker CheckLowS v code n s).
Proof.
  intros Hs Hn. unfold exec_CHECKMULTISIG. destruct s as [|x s]; [apply yields_inl|]. yields_step. yields_step. yields_step.
  apply require_true in H0, H1. cbv zeta. destruct ((x :: s) !! _) as [y|]; [|apply yields_inl]. do 6 yields_step. yields_step; [apply yields_inl|]. do 3 yields_step. cbn [fst snd]. split; [|lia].
  match goal with H : drop ?k ?l = _ :: ?r |- _ => assert (stack_ok (drop k l)) as Hd by (by apply Forall_drop); rewrite H in Hd; apply Forall_cons in Hd as [_ Hd] end.
  match goal with H : push_check _ _ _ _ = inr _ |- _ => by apply push_check_ok in H end.
Qed.

(** Everything but the number of elements, which is checked at the end of a step. *)
Definition sizes_ok (m : ScriptMachine) : Prop := stack_ok (sm_stack m) /\ stack_ok (sm_altstack m) /\ 0 <= sm_nOpCount m <= MAX_OPS_PER_SCRIPT.

Lemma on_stack_ok f m : sizes_ok m -> (stack_ok (sm_stack m) -> yields stack_ok (f (sm_stack m))) -> yields sizes_ok (on_stack f m).
Proof. intros (Hs & Ha & Hn) Hf. unfold on_stack. apply yields_bind. intros s E. apply yields_inr. split; [by apply (Hf Hs s E)|done]. Qed.

Lemma execute_ok fExec op m : sizes_ok m -> yields sizes_ok (execute flags checker Verify CheckLowS fExec op m).
Proof.
  intros Hm. pose proof Hm as (Hs & Ha & Hn). destruct op; cbn [execute]; try (by apply yields_inl); try (by apply yields_inr).
  - apply yields_inr. split; [|done]. cbn. constructor; [apply number_ok|done].
  - by repeat yields_step.
  - by repeat yields_step.
  - by repeat yields_step.
  - unfold exec_IF. repeat yields_step; [|exact Hm]. apply Forall_cons in Hs as [_ Hs]. exact (conj Hs (conj Ha Hn)).
  - by repeat yields_step.
  - by repeat yields_step.
  - apply on_stack_ok; [done|]. intros H. repeat yields_step. by apply Forall_cons in H as [_ ?].
  - repeat yields_step. apply Forall_cons in Hs as [? ?]. split_and!; cbn; [done|by constructor|lia..].
  - repeat yields_step. apply Forall_cons in Ha as [? ?]. split_and!; cbn; [by constructor|done|lia..].
  - apply on_stack_ok; [done|]. apply exec_stack_ok.
  - apply on_stack_ok; [done|]. apply exec_EQUAL_ok.
  - apply on_stack_ok; [done|]. apply exec_bits_ok.
  - apply on_stack_ok; [done|]. apply exec_unary_ok.
  - apply on_stack_ok; [done|]. apply exec_binary_ok.
  - apply on_stack_ok; [done|]. apply exec_WITHIN_ok.
  - apply on_stack_ok; [done|]. apply exec_hash_ok.
  - apply on_stack_ok; [done|]. apply exec_CHECKSIG_ok.
  - apply on_stack_ok; [done|]. apply exec_CHECKDATASIG_ok.
  - apply yields_bind. intros r E. apply exec_CHECKMULTISIG_ok in E as [E1 E2]; [|done|lia]. by apply yields_inr.
  - apply on_stack_ok; [done|]. apply exec_CAT_ok.
  - apply on_stack_ok; [done|]. apply exec_SPLIT_ok.
  - apply on_stack_ok; [done|]. apply exec_NUM2BIN_ok.
  - apply on_stack_ok; [done|]. apply exec_BIN2NUM_ok.
Qed.

Lemma one_step_ok m : within_limits m -> yields within_limits (one_step flags checker Verify CheckLowS m).
Proof.
  intros (Hs & Ha & Hl & Hn). unfold one_step. destruct (GetScriptOp _) as [[[op v] pc]|]; [|apply yields_inl]. yields_step. apply require_true in H. cbv zeta.
  set (m0 := if OP_16 <? op then _ else _). yields_step. apply require_true in H0.
  assert (sizes_ok m0) as Hm0.
  { unfold m0 in *. destruct (OP_16 <? op); split_and!; try done; cbn in *; lia. }
  do 3 yields_step. apply yields_bind. intros m1 E1. assert (sizes_ok m1) as (A1 & A2 & A3).
  { destruct (_ && _) in E1.
    - destruct (require _ _) in E1; [done|]. injection E1 as <-. destruct Hm0 as (B1 & B2 & B3). split; [|exact (conj B2 B3)].
      apply Forall_cons. split; [unfold element_ok; lia|exact B1].
    - destruct (_ || _) in E1; [by apply execute_ok in E1|by injection E1 as <-]. }
  yields_step. apply require_true in H4. apply yields_inr. split_and!; try done; lia.
Qed.
End ops.

(** C26: A script cannot use more than its limits.  At every step of the evaluation of a
    script, on a stack that is within them, no element is longer than 520 bytes, the
    two stacks have at most 1000 elements together, and at most 201 operations were
    counted. *)
Theorem EvalScript_limits flags checker Verify CheckLowS stack script m : stack_ok stack -> Z.of_nat (length stack) <= MAX_STACK_SIZE ->
  rtc (fun m m' => one_step flags checker Verify CheckLowS m = inr m')
    {| sm_stack := stack; sm_altstack := []; sm_vfExec := []; sm_pc := script; sm_pbegincodehash := script; sm_nOpCount := 0 |} m ->
  within_limits m.
Proof.
  intros Hs Hl Hr. assert (forall m0, rtc (fun m m' => one_step flags checker Verify CheckLowS m = inr m') m0 m -> within_limits m0 -> within_limits m) as Hinv.
  { clear. intros m0 H. induction H as [|x y z Hxy _ IH]; [done|]. intros Hx. apply IH. exact (one_step_ok flags checker Verify CheckLowS x Hx y Hxy). }
  apply (Hinv _ Hr). split; [done|]. split; [constructor|]. cbn [sm_stack sm_altstack sm_nOpCount length]. unfold MAX_OPS_PER_SCRIPT. lia.
Qed.

(** * Encodings of signatures *)

Lemma byte_at_app_l a b i : 0 <= i < Z.of_nat (length a) -> byte_at (a ++ b) i = byte_at a i.
Proof. intros H. unfold byte_at. by rewrite lookup_app_l by lia. Qed.
Lemma byte_at_app_r a b i : Z.of_nat (length a) <= i -> byte_at (a ++ b) i = byte_at b (i - Z.of_nat (length a)).
Proof. intros H. unfold byte_at. rewrite lookup_app_r by lia. do 2 f_equal. lia. Qed.

(** A positive integer in DER: at least one byte, no sign, and no zero in front that
    is not needed to keep the sign away. *)
Definition der_integer (R : list Z) : Prop := R <> [] /\ byte_at R 0 < 128 /\ ((1 < length R)%nat -> byte_at R 0 = 0 -> 128 <= byte_at R 1).

(** A signature in DER with its hash type. *)
Definition der_signature (sig : list Z) : Prop :=
  exists R S hashtype, sig = [0x30; Z.of_nat (length R + length S + 4); 0x02; Z.of_nat (length R)] ++ R ++ [0x02; Z.of_nat (length S)] ++ S ++ [hashtype] /\
    der_integer R /\ der_integer S.

Lemma byte_at_byte l i : Forall byte l -> byte (byte_at l i).
Proof. intros H. unfold byte_at. destruct (l !! Z.to_nat i) as [b|] eqn:E; [by apply (Forall_lookup_1 _ _ _ _ H E)|unfold byte, inU; cbn; lia]. Qed.

(** The tests on one of the integers. *)
Lemma der_integer_tests R : Forall byte R ->
  der_integer R <-> (Z.of_nat (length R) =? 0) = false /\ negb (Z.land (byte_at R 0) 0x80 =? 0) = false /\
    (1 <? Z.of_nat (length R)) && (byte_at R 0 =? 0x00) && (Z.land (byte_at R 1) 0x80 =? 0) = false.
Proof.
  intros HR. pose proof (byte_at_byte R 0 HR) as B0. pose proof (byte_at_byte R 1 HR) as B1. rewrite sign_on by done.
  assert ((Z.land (byte_at R 1) 0x80 =? 0) = (byte_at R 1 <? 128)) as -> by (pose proof (sign_on _ B1); destruct (Z.land _ _ =? 0); lia).
  unfold der_integer. destruct R as [|b R]; [split; [by intros [? _]|by intros [? _]]|]. cbn [length]. set (b0 := byte_at _ 0). set (b1 := byte_at _ 1). split.
  - intros (_ & H0 & H1). split; [apply Z.eqb_neq; lia|]. split; [by apply Z.leb_gt|]. destruct (Z.ltb_spec 1 (Z.of_nat (S (length R)))), (Z.eqb_spec b0 0); cbn [andb]; try done. specialize (H1 ltac:(lia) ltac:(done)). lia.
  - intros (_ & H0 & H1). split; [done|]. split; [lia|]. intros Hl E. rewrite E in H1. rewrite (proj2 (Z.ltb_lt _ _)) in H1 by lia. cbn [andb] in H1. change (0 =? 0) with true in H1. cbn [andb] in H1. lia.
Qed.

Section shape.
Context (a b c : Z) (R : list Z) (e f : Z) (S : list Z) (g : Z).
Definition shape : list Z := [a; b; c; Z.of_nat (length R)] ++ R ++ [e; f] ++ S ++ [g].

Lemma shape_length : Z.of_nat (length shape) = Z.of_nat (length R) + Z.of_nat (length S) + 7.
Proof. unfold shape. rewrite !length_app. cbn [length]. lia. Qed.

(** Reading after the first integer, and after the second length. *)
Lemma shape_tail i : 0 <= i -> byte_at shape (Z.of_nat (length R) + 4 + i) = byte_at ([e; f] ++ S ++ [g]) i.
Proof.
  intros Hi. unfold shape. rewrite byte_at_app_r by (cbn; lia). rewrite byte_at_app_r by (cbn; lia). f_equal. cbn. lia.
Qed.
Lemma shape_R i : 0 <= i < Z.of_nat (length R) -> byte_at shape (4 + i) = byte_at R i.
Proof. intros Hi. unfold shape. rewrite byte_at_app_r by (cbn; lia). rewrite byte_at_app_l by (cbn; lia). f_equal. cbn. lia. Qed.
Lemma shape_S i : 0 <= i < Z.of_nat (length S) -> byte_at shape (Z.of_nat (length R) + 6 + i) = byte_at S i.
Proof.
  intros Hi. replace (Z.of_nat (length R) + 6 + i) with (Z.of_nat (length R) + 4 + (2 + i)) by lia. rewrite shape_tail by lia. rewrite byte_at_app_r by (cbn; lia).
  rewrite byte_at_app_l by (cbn; lia). f_equal. cbn. lia.
Qed.

Lemma shape_valid : Forall byte R -> Forall byte S -> IsValidSignatureEncoding shape = true <->
  9 <= Z.of_nat (length shape) <= 73 /\ a = 0x30 /\ b = Z.of_nat (length shape) - 3 /\ f = Z.of_nat (length S) /\ c = 2 /\ der_integer R /\ e = 2 /\ der_integer S.
Proof.
  intros HR HS. unfold IsValidSignatureEncoding. rewrite shape_length. set (r := Z.of_nat (length R)) in *. set (s := Z.of_nat (length S)) in *.
  change (byte_at shape 0) with a. change (byte_at shape 1) with b. change (byte_at shape 2) with c. change (byte_at shape 3) with r. cbv zeta.
  replace (5 + r) with (r + 4 + 1) by lia. replace (r + 4) with (r + 4 + 0) at 3 by lia. unfold r. rewrite !shape_tail by lia. fold r. change (byte_at ([e; f] ++ S ++ [g]) 1) with f. change (byte_at ([e; f] ++ S ++ [g]) 0) with e.
  rewrite (der_integer_tests R HR), (der_integer_tests S HS). fold r s.
  destruct (Z.ltb_spec (r + s + 7) 9); [split; [done|lia]|]. destruct (Z.ltb_spec 73 (r + s + 7)); [split; [done|lia]|].
  destruct (Z.eqb_spec a 0x30); cbn [negb]; [|split; [done|by intros (_ & ? & _)]]. destruct (Z.eqb_spec b (r + s + 7 - 3)); cbn [negb]; [|split; [done|by intros (_ & _ & ? & _)]].
  rewrite (proj2 (Z.leb_gt (r + s + 7) (r + 4 + 1))) by (unfold s; lia). destruct (Z.eqb_spec (r + f + 7) (r + s + 7)) as [E|E]; cbn [negb]; [|split; [done|lia]].
  assert (f = s) as -> by lia. destruct (Z.eqb_spec c 0x02); cbn [negb]; [|split; [done|by intros (_ & _ & _ & _ & ? & _)]].
  destruct (Z.eqb_spec r 0) as [Er|Er]; [split; [done|by intros (_ & _ & _ & _ & _ & (? & _) & _)]|].
  pose proof (shape_R 0 ltac:(unfold r in *; lia)) as E0. rewrite Z.add_0_r in E0. rewrite E0. destruct (negb (Z.land (byte_at R 0) 0x80 =? 0)); [split; [done|by intros (_ & _ & _ & _ & _ & (_ & ? & _) & _)]|].
  assert ((1 <? r) && (byte_at R 0 =? 0) && (Z.land (byte_at shape 5) 0x80 =? 0) = (1 <? r) && (byte_at R 0 =? 0) && (Z.land (byte_at R 1) 0x80 =? 0)) as ->.
  { destruct (Z.ltb_spec 1 r); [|done]. by rewrite <-(shape_R 1) by (fold r; lia). }
  destruct ((1 <? r) && _ && _); [split; [done|by intros (_ & _ & _ & _ & _ & (_ & _ & ?) & _)]|].
  destruct (Z.eqb_spec e 0x02); cbn [negb]; [|split; [done|by intros (_ & _ & _ & _ & _ & _ & ? & _)]].
  destruct (Z.eqb_spec s 0) as [Es|Es]; [split; [done|by intros (_ & _ & _ & _ & _ & _ & _ & (? & _))]|].
  pose proof (shape_S 0 ltac:(unfold s in *; lia)) as E1. rewrite Z.add_0_r in E1. fold r in E1. rewrite E1. destruct (negb (Z.land (byte_at S 0) 0x80 =? 0)); [split; [done|by intros (_ & _ & _ & _ & _ & _ & _ & (_ & ? & _))]|].
  assert ((1 <? s) && (byte_at S 0 =? 0) && (Z.land (byte_at shape (r + 7)) 0x80 =? 0) = (1 <? s) && (byte_at S 0 =? 0) && (Z.land (byte_at S 1) 0x80 =? 0)) as ->.
  { destruct (Z.ltb_spec 1 s); [|done]. rewrite <-(shape_S 1) by (fold s; lia). fold r. by replace (r + 6 + 1) with (r + 7) by lia. }
  destruct ((1 <? s) && _ && _); [split; [done|by intros (_ & _ & _ & _ & _ & _ & _ & (_ & _ & ?))]|]. split; [|done]. intros _. split_and!; done || lia.
Qed.
End shape.

(** A valid signature can be cut into these pieces. *)
Lemma valid_shape sig : Forall byte sig -> IsValidSignatureEncoding sig = true ->
  exists a b c R e f S g, sig = shape a b c R e f S g /\ Forall byte R /\ Forall byte S.
Proof.
  intros Hs. unfold IsValidSignatureEncoding. set (size := Z.of_nat (length sig)). destruct (Z.ltb_spec size 9); [done|]. destruct (73 <? size); [done|]. destruct (negb _); [done|]. destruct (negb _); [done|].
  cbv zeta. destruct (Z.leb_spec size (5 + byte_at sig 3)); [done|]. destruct (Z.eqb_spec (byte_at sig 3 + byte_at sig (5 + byte_at sig 3) + 7) size) as [E|]; [|done]. cbn [negb]. intros _.
  pose proof (byte_at_byte sig 3 Hs) as B3. pose proof (byte_at_byte sig (5 + byte_at sig 3) Hs) as B5. unfold byte, inU in B3, B5; change (2 ^ 8) with 256 in B3, B5.
  destruct sig as [|a [|b [|c [|d rest]]]]; [cbn in *; lia..|]. change (byte_at _ 3) with d in *. unfold size in *. clear size. cbn [length] in *.
  inversion Hs as [|? ? _ Hs1]; subst. inversion Hs1 as [|? ? _ Hs2]; subst. inversion Hs2 as [|? ? _ Hs3]; subst. inversion Hs3 as [|? ? _ Hr]; subst.
  set (R := take (Z.to_nat d) rest). set (tl := drop (Z.to_nat d) rest). assert (length R = Z.to_nat d) as LR by (unfold R; rewrite length_take; lia).
  assert (rest = R ++ tl) as Er by (symmetry; apply take_drop). assert (3 <= length tl)%nat as Lt by (unfold tl; rewrite length_drop; lia). clearbody R tl.
  rewrite Er in Hr. apply Forall_app in Hr as [HR Ht]. destruct tl as [|e [|f tl']]; [cbn in Lt; lia..|]. destruct (exists_last (l := tl')) as (S & g & Et); [by destruct tl'; [cbn in Lt; lia|]|].
  exists a, b, c, R, e, f, S, g. split.
  - unfold shape. rewrite LR, Z2Nat.id by lia. rewrite Er, Et. done.
  - split; [done|]. inversion Ht as [|? ? _ Ht1]; subst. inversion Ht1 as [|? ? _ Ht2]; subst. by apply Forall_app in Ht2 as [? _].
Qed.

(** C27: A signature passes the test of its encoding exactly when it is what the comment
    says: two positive DER integers without superfluous zeros, in a sequence whose
    length is right, followed by one byte for the hash type, 73 bytes at most. *)
Theorem IsValidSignatureEncoding_spec sig : Forall byte sig -> IsValidSignatureEncoding sig = true <-> der_signature sig /\ (length sig <= 73)%nat.
Proof.
  intros Hs. split.
  - intros Hv. destruct (valid_shape sig Hs Hv) as (a & b & c & R & e & f & S & g & -> & HR & HS). apply shape_valid in Hv as (Hl & -> & Eb & -> & -> & DR & -> & DS); [|done..].
    rewrite shape_length in Eb. split; [|lia]. exists R, S, g. split; [|done]. subst b. unfold shape. do 3 f_equal. lia.
  - intros [(R & S & g & -> & DR & DS) Hl]. fold (shape 0x30 (Z.of_nat (length R + length S + 4)) 0x02 R 0x02 (Z.of_nat (length S)) S g) in *.
    pose proof (shape_length 48 (Z.of_nat (length R + length S + 4)) 2 R 2 (Z.of_nat (length S)) S g) as L.
    assert (Forall byte R /\ Forall byte S) as [HR HS].
    { unfold shape in Hs. apply Forall_app in Hs as [_ Hs]. apply Forall_app in Hs as [HR Hs]. apply Forall_app in Hs as [_ Hs]. by apply Forall_app in Hs as [HS _]. }
    apply shape_valid; [done..|]. rewrite L. destruct R as [|x R]; [by destruct DR|]. destruct S as [|y S]; [by destruct DS|]. cbn [length] in *. split_and!; done || lia.
Qed.
