(* ===== verification/ScriptSpend.v ===== *)
(** * Spending an output
    What it takes to spend an output that pays to the hash of a key, and an output
    whose script makes VerifyScript fail an assertion. *)

From S2P Require Import Prelude Serialize Params BetTx BetKeys Transaction TokenGroups AddressIndex TxVerify TxVerifyProofs HashStream Sha2 Sha512 Sha2Proofs Sha1 Hash160 ScriptNum Standard Script.

(** ** Running a machine to its end *)
Section run.
Context (flags : Z) (checker : BaseSignatureChecker) (Verify : list Z -> list Z -> list Z -> bool) (CheckLowS : list Z -> bool).
Notation step := (one_step flags checker Verify CheckLowS).
Notation steps := (Step flags checker Verify CheckLowS).

Lemma on_stack_pc f m m' : on_stack f m = inr m' -> sm_pc m' = sm_pc m.
Proof. unfold on_stack, rbind. destruct (f _); [done|]. by intros [= <-]. Qed.

Lemma execute_pc fExec op m m' : execute flags checker Verify CheckLowS fExec op m = inr m' -> sm_pc m' = sm_pc m.
Proof.
  destruct op; cbn [execute]; try (by apply on_stack_pc); unfold exec_IF, rbind; intros H; repeat case_match; by simplify_eq/=.
Qed.

Lemma one_step_shorter m m' : step m = inr m' -> (length (sm_pc m') < length (sm_pc m))%nat.
Proof.
  unfold one_step. destruct (GetScriptOp _) as [[[op v] pc]|] eqn:E; [|done]. apply GetScriptOp_shorter in E. unfold rbind.
  set (m0 := if OP_16 <? op then _ else _). assert (sm_pc m0 = pc) as E0 by (unfold m0; by destruct (OP_16 <? op)). clearbody m0.
  do 5 (destruct (require _ _); [done|]). destruct (forallb _ _ && _).
  { destruct (require _ _); [done|]. destruct (require _ _); [done|]. intros [= <-]. by rewrite <-E0 in E. }
  destruct (_ || _).
  - destruct (execute _ _ _ _ _ _ m0) as [|m1] eqn:Em; [done|]. destruct (require _ _); [done|]. intros [= <-]. apply execute_pc in Em. by rewrite Em, E0.
  - destruct (require _ _); [done|]. intros [= <-]. by rewrite E0.
Qed.

Lemma Step_fuel f : forall g m, (length (sm_pc m) <= f)%nat -> (length (sm_pc m) <= g)%nat -> steps f m = steps g m.
Proof.
  induction f as [|f IH]; intros g m Hf Hg.
  { destruct (sm_pc m) as [|b pc] eqn:E; [|cbn in Hf; lia]. destruct g; cbn [Step]; by rewrite E. }
  destruct g as [|g].
  { destruct (sm_pc m) as [|b pc] eqn:E; [|cbn in Hg; lia]. cbn [Step]. by rewrite E. }
  cbn [Step]. destruct (sm_pc m) as [|b pc] eqn:E; [done|]. unfold rbind. destruct (step m) as [|m'] eqn:Es; [done|]. apply one_step_shorter in Es. rewrite E in Es. apply IH; lia.
Qed.

Definition run (m : ScriptMachine) : result ScriptMachine := steps (length (sm_pc m)) m.

Lemma run_step m : sm_pc m <> [] -> run m = (m' ⇐ step m; run m').
Proof.
  intros Hne. unfold run. destruct (sm_pc m) as [|b pc] eqn:E; [done|]. cbn [length Step]. rewrite E. unfold rbind. destruct (step m) as [|m'] eqn:Es; [done|].
  apply one_step_shorter in Es. rewrite E in Es. cbn [length] in Es. apply Step_fuel; lia.
Qed.

Lemma EvalScript_run stack script : Z.of_nat (length script) <= MAX_SCRIPT_SIZE ->
  EvalScript flags checker Verify CheckLowS stack script =
  (m ⇐ run {| sm_stack := stack; sm_altstack := []; sm_vfExec := []; sm_pc := script; sm_pbegincodehash := script; sm_nOpCount := 0 |}; inr (sm_stack m)).
Proof. intros H. unfold EvalScript, script_size, require. by rewrite (proj2 (Z.leb_le _ _) H). Qed.

(** A machine outside of any branch. *)
Definition at_pc (stack : list valtype) (code : list Z) (n : Z) (pc : list Z) : ScriptMachine :=
  {| sm_stack := stack; sm_altstack := []; sm_vfExec := []; sm_pc := pc; sm_pbegincodehash := code; sm_nOpCount := n |}.

Lemma run_end stack code n : run (at_pc stack code n []) = inr (at_pc stack code n []).
Proof. reflexivity. Qed.

(** The push of a string of two bytes or more is minimal. *)
Lemma push_minimal b rest : Forall byte b -> 2 <= Z.of_nat (length b) <= 520 ->
  exists opcode, GetScriptOp (script_push b ++ rest) = Some (opcode, b, rest) /\ 0 <= opcode <= OP_PUSHDATA4 /\ CheckMinimalPush b opcode = true.
Proof.
  intros Hb Hl. destruct (GetScriptOp_push b rest Hb ltac:(lia)) as (op & Hop & H1 & H2). exists op. split; [done|]. split; [done|]. unfold CheckMinimalPush.
  rewrite (proj2 (Z.eqb_neq _ 0)) by lia. rewrite (proj2 (Z.eqb_neq _ 1)) by lia. cbn [andb].
  unfold script_push, OP_PUSHDATA1, OP_PUSHDATA2, OP_PUSHDATA4 in *. destruct (Z.ltb_spec (Z.of_nat (length b)) 76) as [H|H].
  { apply GetScriptOp_head in Hop. rewrite (proj2 (Z.leb_le _ 75)) by lia. by apply Z.eqb_eq. }
  rewrite (proj2 (Z.leb_gt _ 75)) by lia. destruct (Z.leb_spec (Z.of_nat (length b)) 255); [apply GetScriptOp_head in Hop; by subst|].
  rewrite (proj2 (Z.leb_le _ 65535)) in * by lia. apply GetScriptOp_head in Hop. by subst.
Qed.

Lemma run_push b stack code n rest : Forall byte b -> 2 <= Z.of_nat (length b) <= 520 -> Z.of_nat (length stack) < MAX_STACK_SIZE ->
  run (at_pc stack code n (script_push b ++ rest)) = run (at_pc (b :: stack) code n rest).
Proof.
  intros Hb Hl Hs. destruct (push_minimal b rest Hb Hl) as (op & Hop & Hr & Hm). rewrite run_step by (cbn [sm_pc at_pc]; intros E; by rewrite E in Hop).
  unfold one_step. cbn [sm_pc at_pc sm_vfExec forallb]. rewrite Hop. cbv zeta. unfold OP_PUSHDATA4 in Hr. unfold require, MAX_SCRIPT_ELEMENT_SIZE.
  rewrite (proj2 (Z.leb_le _ 520)) by lia. cbn [rbind]. replace (OP_16 <? op) with false by (unfold OP_16; lia). cbn [andb negb rbind].
  assert (bool_decide (op ∈ DIP0020_opcodes) = false) as -> by (apply bool_decide_eq_false_2; unfold DIP0020_opcodes; rewrite !not_elem_of_cons; split_and!; try lia; apply not_elem_of_nil).
  assert (bool_decide (op ∈ disabled_opcodes) = false) as -> by (apply bool_decide_eq_false_2; unfold disabled_opcodes; rewrite !not_elem_of_cons; split_and!; try lia; apply not_elem_of_nil).
  cbn [negb]. rewrite orb_true_r. cbn [rbind]. replace (op =? OP_CODESEPARATOR) with false by (unfold OP_CODESEPARATOR; lia). cbn [andb negb rbind].
  unfold OP_PUSHDATA4. rewrite (proj2 (Z.leb_le op 78)) by lia. rewrite Hm. cbn [negb]. rewrite andb_false_r. cbn [negb rbind].
  unfold MAX_STACK_SIZE in *. rewrite (proj2 (Z.leb_le _ 1000)); [reflexivity|]. cbn. lia.
Qed.

(** An operation of the switch that works on the stack. *)
Lemma run_op op f stack code n rest : OP_16 < op -> op <> OP_CODESEPARATOR -> bool_decide (op ∈ DIP0020_opcodes) = false -> bool_decide (op ∈ disabled_opcodes) = false ->
  n < MAX_OPS_PER_SCRIPT ->
  execute flags checker Verify CheckLowS true (op_of op) (at_pc stack code (n + 1) rest) = on_stack f (at_pc stack code (n + 1) rest) ->
  run (at_pc stack code n (op :: rest)) =
  (s ⇐ f stack; _ ⇐ require (Z.of_nat (length s) <=? MAX_STACK_SIZE) SCRIPT_ERR_STACK_SIZE; run (at_pc s code (n + 1) rest)).
Proof.
  intros Hop Hc Hd Hx Hn He. rewrite run_step by done. unfold one_step. cbn [sm_pc at_pc sm_vfExec forallb]. unfold OP_16 in Hop.
  assert (GetScriptOp (op :: rest) = Some (op, [], rest)) as -> by (cbn [GetScriptOp]; unfold OP_PUSHDATA4; by rewrite (proj2 (Z.leb_gt op 78)) by lia).
  cbv zeta. replace (OP_16 <? op) with true by (unfold OP_16; lia). rewrite Hd, Hx. cbn [andb negb]. rewrite orb_true_r.
  replace (op =? OP_CODESEPARATOR) with false by lia. unfold OP_PUSHDATA4. rewrite (proj2 (Z.leb_gt op 78)) by lia.
  change (at_pc stack code n (op :: rest) <| sm_pc := rest |> <| sm_nOpCount := sm_nOpCount (at_pc stack code n (op :: rest) <| sm_pc := rest |>) + 1 |>)
    with (at_pc stack code (n + 1) rest). cbn [orb]. rewrite He. unfold on_stack. cbn [sm_nOpCount sm_stack at_pc].
  unfold MAX_OPS_PER_SCRIPT in *. rewrite (proj2 (Z.ltb_ge 201 (n + 1))) by lia. unfold require at 1 2 3 4 5. cbn [length rbind negb andb].
  change (Z.of_nat 0 <=? MAX_SCRIPT_ELEMENT_SIZE) with true. cbn [rbind]. destruct (f stack) as [e|s]; [done|]. cbn [rbind].
  change (sm_altstack (at_pc stack code (n + 1) rest <| sm_stack := s |>)) with (@nil valtype). cbn [length].
  change (sm_stack (at_pc stack code (n + 1) rest <| sm_stack := s |>)) with s. rewrite Z.add_0_r. by destruct (require _ _).
Qed.
End run.

(** ** Nothing to delete *)
Fixpoint boundaries (fuel : nat) (pc : list Z) : list (list Z) :=
  pc :: match GetScriptOp pc, fuel with Some (_, _, pc), S fuel => boundaries fuel pc | _, _ => [] end.

Lemma delete_loop_none fuel b : forall pc2 pc res n, Forall (fun pc => ~ b `prefix_of` pc) (boundaries fuel pc) -> (delete_loop fuel b pc2 pc res n).2 = n.
Proof.
  induction fuel as [|fuel IH]; intros pc2 pc res n H; cbn [boundaries] in H; inversion H as [|? ? Hp Hr]; subst; cbn [delete_loop];
    (assert (skip_copies (length pc) b pc = (pc, 0)) as -> by (destruct (length pc); [done|]; cbn [skip_copies]; by rewrite bool_decide_eq_false_2)).
  - destruct (GetScriptOp pc) as [[[? ?] ?]|]; cbn; lia.
  - destruct (GetScriptOp pc) as [[[? ?] pc']|]; [|cbn; lia]. rewrite IH by done. lia.
Qed.

Lemma FindAndDelete_none script b : Forall (fun pc => ~ b `prefix_of` pc) (boundaries (length script) script) -> FindAndDelete script b = (script, 0).
Proof.
  intros H. unfold FindAndDelete. case_bool_decide; [done|]. pose proof (delete_loop_none (length script) b script script [] 0 H) as E.
  destruct (delete_loop _ _ _ _ _ _) as [r n]. cbn in E. by subst.
Qed.

(** ** Paying to the hash of a key *)
Definition p2pkh (h : list Z) : list Z := [OP_DUP; OP_HASH160] ++ script_push h ++ [OP_EQUALVERIFY; OP_CHECKSIG].

Section p2pkh.
Context (h : list Z) (Hh : length h = 20%nat) (Hb : Forall byte h).

Lemma p2pkh_push rest : script_push h ++ rest = 20 :: h ++ rest.
Proof using Hh. unfold script_push. by rewrite Hh. Qed.

Lemma p2pkh_op rest : GetScriptOp (20 :: h ++ rest) = Some (20, h, rest).
Proof using Hh Hb. rewrite <-p2pkh_push. destruct (GetScriptOp_push_opcode h rest Hb ltac:(lia)) as (op & -> & Hop & _). rewrite Hop by lia. by rewrite Hh. Qed.

Lemma p2pkh_length : length (p2pkh h) = 25%nat.
Proof using Hh. unfold p2pkh. rewrite p2pkh_push. cbn. rewrite length_app, Hh. done. Qed.

Lemma p2pkh_boundaries : boundaries 25 (p2pkh h) =
  [p2pkh h; [OP_HASH160] ++ script_push h ++ [OP_EQUALVERIFY; OP_CHECKSIG]; script_push h ++ [OP_EQUALVERIFY; OP_CHECKSIG]; [OP_EQUALVERIFY; OP_CHECKSIG]; [OP_CHECKSIG]; []].
Proof using Hh Hb.
  unfold p2pkh. rewrite p2pkh_push. cbn [boundaries app]. change (GetScriptOp (OP_DUP :: ?x)) with (Some (OP_DUP, @nil Z, x)). cbv iota beta.
  change (GetScriptOp (OP_HASH160 :: ?x)) with (Some (OP_HASH160, @nil Z, x)). cbv iota beta. rewrite p2pkh_op. reflexivity.
Qed.

(** The signature is not in the script, unless it is the hash. *)
Lemma p2pkh_code sig : 2 <= Z.of_nat (length sig) <= 520 -> sig <> h -> FindAndDelete (p2pkh h) (script_push sig) = (p2pkh h, 0).
Proof using Hh Hb.
  intros Hl Hne. apply FindAndDelete_none. rewrite p2pkh_length, p2pkh_boundaries.
  assert (exists c r, script_push sig = c :: r /\ 2 <= c <= 77 /\ (c < 76 -> c = Z.of_nat (length sig) /\ r = sig)) as (c & r & E & Hc & Hs).
  { unfold script_push, OP_PUSHDATA1, OP_PUSHDATA2. destruct (Z.ltb_spec (Z.of_nat (length sig)) 76); [exists (Z.of_nat (length sig)), sig; split_and!; lia || done|].
    destruct (Z.leb_spec (Z.of_nat (length sig)) 255); [eexists 76, _; split_and!; [reflexivity|lia..]|]. rewrite (proj2 (Z.leb_le _ 65535)) by lia. eexists 77, _. split_and!; [reflexivity|lia..]. }
  assert (forall d l, d <> c -> ~ script_push sig `prefix_of` d :: l) as Hd. { intros d l Hdc [k Ek]. rewrite E in Ek. cbn in Ek. injection Ek as Ek _. by apply Hdc. }
  unfold p2pkh. rewrite p2pkh_push. cbn [app]. unfold OP_DUP, OP_HASH160, OP_EQUALVERIFY, OP_CHECKSIG. repeat (apply Forall_cons; split); try (apply Hd; lia); [| |done].
  - rewrite E. intros [k Ek]. cbn in Ek. injection Ek as Ec Er. destruct Hs as [El ->]; [lia|]. subst c. assert (length sig = 20%nat) as Hl20 by lia.
    apply Hne. assert (take 20 (h ++ [136; 172]) = take 20 (sig ++ k)) as Et by by rewrite Er. rewrite !take_app_length' in Et by done. done.
  - rewrite E. intros [k Ek]. by destruct k.
Qed.
End p2pkh.

Lemma script_push_length b : Z.of_nat (length b) <= 520 -> Z.of_nat (length (script_push b)) <= 525.
Proof. intros H. unfold script_push. rewrite length_app. repeat case_match; cbn [length]; rewrite ?length_le_bytes; lia. Qed.

Lemma script_push_cons b rest : script_push b ++ rest <> [].
Proof. unfold script_push. by repeat case_match. Qed.

Lemma push_only_push f b rest : Forall byte b -> Z.of_nat (length b) < 2 ^ 32 -> push_only (S f) (script_push b ++ rest) = push_only f rest.
Proof.
  intros Hb Hl. destruct (GetScriptOp_push b rest Hb Hl) as (op & Hop & Hr & _). cbn [push_only]. rewrite Hop. pose proof (script_push_cons b rest).
  destruct (script_push b ++ rest); [done|]. unfold OP_PUSHDATA4 in Hr. replace (OP_16 <? op) with false by (unfold OP_16; lia). done.
Qed.

Lemma two_pushes_only a b : Forall byte a -> Forall byte b -> Z.of_nat (length a) <= 520 -> Z.of_nat (length b) <= 520 -> IsPushOnly (script_push a ++ script_push b) = true.
Proof.
  intros Ha Hb La Lb. unfold IsPushOnly. rewrite length_app. pose proof (script_push_cons a []) as Na. pose proof (script_push_cons b []) as Nb. rewrite app_nil_r in Na, Nb.
  destruct (length (script_push a)) as [|n] eqn:E1; [by apply nil_length_inv in E1|]. destruct (length (script_push b)) as [|k] eqn:E2; [by apply nil_length_inv in E2|].
  rewrite Nat.add_succ_r. cbn [Nat.add]. rewrite push_only_push by (done || lia). rewrite <-(app_nil_r (script_push b)), push_only_push by (done || lia). by destruct (n + k)%nat.
Qed.

Lemma p2pkh_not_p2sh h : length h = 20%nat -> IsPayToScriptHash (p2pkh h) = false.
Proof.
  intros Hh. unfold IsPayToScriptHash. unfold script_size at 1. rewrite p2pkh_length by done. unfold p2pkh. cbn [app p2sh_offset]. reflexivity.
Qed.

#[local] Opaque hash_value.

Section spend.
Context (flags : Z) (checker : BaseSignatureChecker) (Verify : list Z -> list Z -> list Z -> bool) (CheckLowS : list Z -> bool).
Context (h : list Z) (Hh : length h = 20%nat) (Hb : Forall byte h).
Notation eval := (EvalScript flags checker Verify CheckLowS).
Notation hash160 := (hash_value op_HASH160).

Lemma eval_pushes sig key : Forall byte sig -> Forall byte key -> 2 <= Z.of_nat (length sig) <= 520 -> 2 <= Z.of_nat (length key) <= 520 ->
  eval [] (script_push sig ++ script_push key) = inr [key; sig].
Proof.
  intros Bs Bk Ls Lk. pose proof (script_push_length sig ltac:(lia)). pose proof (script_push_length key ltac:(lia)).
  rewrite EvalScript_run by (rewrite length_app; unfold MAX_SCRIPT_SIZE; lia). fold (at_pc [] (script_push sig ++ script_push key) 0 (script_push sig ++ script_push key)).
  rewrite run_push by (done || (unfold MAX_STACK_SIZE; cbn; lia)). rewrite <-(app_nil_r (script_push key)) at 2. rewrite run_push by (done || (unfold MAX_STACK_SIZE; cbn; lia)).
  by rewrite run_end.
Qed.

(** The four operations and the check of the signature. *)
Lemma eval_p2pkh sig key : sig <> h -> 2 <= Z.of_nat (length sig) <= 520 ->
  eval [key; sig] (p2pkh h) =
  if bool_decide (hash160 key = h) then
    _ ⇐ CheckEncodings flags CheckLowS sig key;
    let ok := CheckSig checker sig key (p2pkh h) in
    if negb ok && flag_on flags SCRIPT_VERIFY_NULLFAIL then inl SCRIPT_ERR_SIG_NULLFAIL else inr [vch_bool ok]
  else inl SCRIPT_ERR_EQUALVERIFY.
Proof using Hh Hb.
  intros Hne Hl. rewrite EvalScript_run by (rewrite p2pkh_length by done; unfold MAX_SCRIPT_SIZE; cbn; lia). fold (at_pc [key; sig] (p2pkh h) 0 (p2pkh h)).
  unfold p2pkh at 2. cbn [app].
  rewrite (run_op _ _ _ _ OP_DUP (exec_stack flags op_DUP)) by done. cbn [exec_stack rbind length require]. change (Z.of_nat 3 <=? MAX_STACK_SIZE) with true. cbn [require rbind].
  rewrite (run_op _ _ _ _ OP_HASH160 (exec_hash op_HASH160)) by (reflexivity || discriminate). unfold exec_hash. cbn [rbind length]. change (Z.of_nat 3 <=? MAX_STACK_SIZE) with true. cbn [require rbind].
  rewrite run_push by (done || (rewrite ?Hh; cbn; unfold MAX_STACK_SIZE; lia)).
  rewrite (run_op _ _ _ _ OP_EQUALVERIFY (exec_EQUAL true)) by done. cbn [exec_EQUAL]. destruct (bool_decide (hash160 key = h)); [|done]. cbn [rbind length].
  change (Z.of_nat 2 <=? MAX_STACK_SIZE) with true. cbn [require rbind].
  rewrite (run_op _ _ _ _ OP_CHECKSIG (exec_CHECKSIG flags checker CheckLowS false (p2pkh h))) by done. unfold exec_CHECKSIG, drop_signature. rewrite (p2pkh_code h Hh Hb sig Hl Hne).
  change (0 <? 0) with false. cbn [andb rbind]. destruct (CheckEncodings _ _ _ _) as [e|[]]; [done|]. cbn [rbind]. rewrite (bool_decide_eq_false_2 (sig = [])) by (intros ->; cbn in Hl; lia).
  cbn [negb]. rewrite andb_true_r. destruct (_ && _); [done|]. reflexivity.
Qed.

(** C21: Who can spend an output that pays to the hash of a key.  With any flags, the
    input that pushes a signature and a key is accepted exactly when the key has the
    hash, both are encoded as the flags demand, and the signature is valid for the
    script of the output.  (A signature that is the hash itself would be deleted from
    the script; a string of one byte can be pushed in a shorter way; an element has at
    most 520 bytes; CLEANSTACK without P2SH is an assertion.) *)
Theorem VerifyScript_p2pkh sig key :
  Forall byte sig -> Forall byte key -> 2 <= Z.of_nat (length sig) <= 520 -> 2 <= Z.of_nat (length key) <= 520 -> sig <> h ->
  (flag_on flags SCRIPT_VERIFY_CLEANSTACK = true -> flag_on flags SCRIPT_VERIFY_P2SH = true) ->
  VerifyScript flags checker Verify CheckLowS (script_push sig ++ script_push key) (p2pkh h) = Some (inr tt) <->
  hash160 key = h /\ CheckEncodings flags CheckLowS sig key = inr tt /\ CheckSig checker sig key (p2pkh h) = true.
Proof using Hh Hb.
  intros Bs Bk Ls Lk Hne Hclean. unfold VerifyScript. rewrite two_pushes_only by (done || lia). rewrite andb_false_r, eval_pushes, eval_p2pkh by done.
  rewrite p2pkh_not_p2sh, andb_false_r by done. case_bool_decide as Eh; [|split; [done|by intros (? & _)]].
  destruct (CheckEncodings flags CheckLowS sig key) as [e|[]]; [split; [done|by intros (_ & ? & _)]|]. cbn [rbind]. cbv zeta.
  destruct (CheckSig checker sig key (p2pkh h)); cbn [negb andb].
  - cbn. destruct (flag_on flags SCRIPT_VERIFY_CLEANSTACK); [rewrite Hclean by done|]; done.
  - split; [|by intros (_ & _ & ?)]. by destruct (flag_on flags SCRIPT_VERIFY_NULLFAIL).
Qed.
End spend.

(** ** An assertion that fails *)
#[local] Transparent hash_value.
Lemma hash160_made x : length (hash_value op_HASH160 x) = 20%nat /\ Forall byte (hash_value op_HASH160 x).
Proof.
  unfold hash_value, CHash160_Finalize, CRIPEMD160_Finalize. cbn [snd]. destruct (hs_s _) as [[[[a b] c] d] e].
  change (mjoin (le_bytes 4 <$> regs5_list (a, b, c, d, e))) with (le_bytes 4 a ++ le_bytes 4 b ++ le_bytes 4 c ++ le_bytes 4 d ++ le_bytes 4 e ++ []).
  split; [by rewrite !length_app, !length_le_bytes|]. repeat (apply Forall_app; split); apply le_bytes_byte || constructor.
Qed.
#[local] Opaque hash_value.

(** The output of a preimage and its hash, which every input spends. *)
Definition open_p2sh (x : list Z) : list Z := script_push x ++ [OP_HASH160] ++ script_push (hash_value op_HASH160 x) ++ [OP_EQUAL].

(** C22: Any node can be made to abort.  The comment in VerifyScript says that the stack
    cannot be empty when the script of a pay-to-script-hash output is evaluated, since
    the output needs an element.  But an output that pushes an element itself, before
    OP_HASH160, counts as pay-to-script-hash (and as a standard output): spending it
    with an empty script fails the assertion, with any flags that have
    SCRIPT_VERIFY_P2SH, whatever the transaction.  Without the flag the spend is valid. *)
Theorem VerifyScript_aborts flags checker Verify CheckLowS x : Forall byte x -> 2 <= Z.of_nat (length x) <= 75 -> flag_on flags SCRIPT_VERIFY_P2SH = true ->
  (Solver (open_p2sh x)).1 = TX_SCRIPTHASH /\
  VerifyScript flags checker Verify CheckLowS [] (open_p2sh x) = None /\
  VerifyScript 0 checker Verify CheckLowS [] (open_p2sh x) = Some (inr tt).
Proof.
  intros Hx Hl Hf. destruct (hash160_made x) as [H20 Hb]. set (hx := hash_value op_HASH160 x) in *.
  assert (open_p2sh x = Z.of_nat (length x) :: x ++ OP_HASH160 :: 20 :: hx ++ [OP_EQUAL]) as Es.
  { unfold open_p2sh. fold hx. rewrite (p2pkh_push hx H20). unfold script_push, OP_PUSHDATA1. rewrite (proj2 (Z.ltb_lt _ 76)) by lia. done. }
  assert (IsPayToScriptHash (open_p2sh x) = true) as Hp.
  { rewrite Es. apply (IsPayToScriptHash_after_push x hx); [lia|done]. }
  assert (forall fl, EvalScript fl checker Verify CheckLowS [] (open_p2sh x) = inr [vchTrue]) as He.
  { intros fl. rewrite EvalScript_run by (rewrite Es; cbn [length]; rewrite length_app; cbn [length]; rewrite length_app, H20; unfold MAX_SCRIPT_SIZE; cbn; lia).
    fold (at_pc [] (open_p2sh x) 0 (open_p2sh x)). unfold open_p2sh at 2. cbn [app]. rewrite run_push by (done || lia || (unfold MAX_STACK_SIZE; cbn; lia)).
    rewrite (run_op _ _ _ _ OP_HASH160 (exec_hash op_HASH160)) by (reflexivity || discriminate). unfold exec_hash. cbn [rbind length]. change (Z.of_nat 1 <=? MAX_STACK_SIZE) with true.
    cbn [require rbind]. fold hx. rewrite run_push by (done || (rewrite ?H20; cbn; unfold MAX_STACK_SIZE; lia)).
    rewrite (run_op _ _ _ _ OP_EQUAL (exec_EQUAL false)) by (reflexivity || discriminate). cbn [exec_EQUAL]. rewrite bool_decide_eq_true_2 by done. reflexivity. }
  split; [unfold Solver; by rewrite Hp|]. assert (forall fl, EvalScript fl checker Verify CheckLowS [] [] = inr []) as H0 by reflexivity.
  unfold VerifyScript. rewrite !H0, !He, Hf, Hp. change (IsPushOnly []) with true. cbn [negb]. rewrite !andb_false_r. split; reflexivity.
Qed.
