(* ===== verification/SigHash.v ===== *)
(** * What a signature signs
    (CTransactionSignatureSerializer, SignatureHash and
    GenericTransactionSignatureChecker of src/src/script/sigcommon.cpp)

    Hashes are byte strings here.  [None] is the assertion that the input exists. *)

From S2P Require Import Prelude Serialize Params BetTx BetKeys Transaction TxCodec TokenGroups AddressIndex TxVerify HashStream Sha2 Sha1 Hash160 ScriptNum Standard Script TxVerifyProofs Sha512 Sha2Proofs.

(** ** The code of the output *)
(** Where GetScriptOp leaves its argument when it fails. *)
Definition failed_at (pc : list Z) : list Z :=
  match pc with
  | [] => []
  | opcode :: pc =>
      if opcode =? OP_PUSHDATA1 then drop 1 pc
      else if opcode =? OP_PUSHDATA2 then if (length pc <? 2)%nat then pc else drop 2 pc
      else if opcode =? OP_PUSHDATA4 then if (length pc <? 4)%nat then pc else drop 4 pc
      else pc
  end.

Fixpoint count_separators (fuel : nat) (it : list Z) : nat :=
  match GetScriptOp it, fuel with
  | Some (opcode, _, it), S fuel => (if opcode =? OP_CODESEPARATOR then 1 else 0) + count_separators fuel it
  | _, _ => 0
  end.

Fixpoint code_segments (fuel : nat) (itBegin it : list Z) : list Z :=
  match GetScriptOp it, fuel with
  | Some (opcode, _, it), S fuel =>
      if opcode =? OP_CODESEPARATOR then take (length itBegin - length it - 1) itBegin ++ code_segments fuel it it else code_segments fuel itBegin it
  | _, _ => take (length itBegin - length (failed_at it)) itBegin
  end.

Definition SerializeScriptCode (scriptCode : list Z) : list Z :=
  WriteCompactSize (Z.of_nat (length scriptCode - count_separators (length scriptCode) scriptCode)) ++ code_segments (length scriptCode) scriptCode scriptCode.

(** ** The transaction *)
Section serializer.
Context (txTo : CTx) (scriptCode : list Z) (nIn : nat) (nHashType : Z).

Definition fAnyoneCanPay : bool := negb (Z.land nHashType SIGHASH_ANYONECANPAY =? 0).
Definition fHashSingle : bool := Z.land nHashType 0x1f =? SIGHASH_SINGLE.
Definition fHashNone : bool := Z.land nHashType 0x1f =? SIGHASH_NONE.

Definition SerializeInput (nInput : nat) (input : CTxIn) : list Z :=
  Serialize COutPoint_codec (txin_prevout input) ++
  (if negb (nInput =? nIn)%nat then Serialize bytesc [] else SerializeScriptCode scriptCode) ++
  (if negb (nInput =? nIn)%nat && (fHashSingle || fHashNone) then Serialize i32c 0 else Serialize u32c (txin_nSequence input)).

Definition SerializeOutput (nOutput : nat) (output : CTxOut) : list Z :=
  Serialize CTxOut_codec (if fHashSingle && negb (nOutput =? nIn)%nat then CTxOut_null else output).

Definition SerializeForSignature : option (list Z) :=
  inputs ← (if fAnyoneCanPay then i ← ctx_vin txTo !! nIn; Some [SerializeInput nIn i] else Some (imap SerializeInput (ctx_vin txTo)));
  let outputs := if fHashNone then [] else imap SerializeOutput (if fHashSingle then take (nIn + 1) (ctx_vout txTo) else ctx_vout txTo) in
  Some (Serialize i32c (n32bitVersion (ctx_nVersion txTo) (ctx_nType txTo)) ++
        WriteCompactSize (Z.of_nat (length inputs)) ++ mjoin inputs ++
        WriteCompactSize (Z.of_nat (length outputs)) ++ mjoin outputs ++
        Serialize u32c (ctx_nLockTime txTo) ++
        (if has_payload (ctx_nVersion txTo) (ctx_nType txTo) then Serialize bytesc (ctx_vExtraPayload txTo) else [])).

(** The bytes of uint256::ONE. *)
Definition uint256_ONE : list Z := 1 :: replicate 31 0.

Definition SignatureHash : option (list Z) :=
  if negb (nIn <? length (ctx_vin txTo))%nat then None
  else if fHashSingle && (length (ctx_vout txTo) <=? nIn)%nat then Some uint256_ONE
  else
    ss ← SerializeForSignature;
    Some (hash_value op_HASH256 (ss ++ Serialize i32c nHashType)).
End serializer.

(** ** The checker of a transaction *)
Section checker.
Context (Verify : list Z -> list Z -> list Z -> bool) (txTo : CTx) (nIn : nat).

Definition tx_CheckSig (vchSigIn vchPubKey : valtype) (scriptCode : list Z) : bool :=
  match CPubKey vchPubKey, last vchSigIn with
  | Some pubkey, Some nHashType =>
      match SignatureHash txTo scriptCode nIn nHashType with
      | Some sighash => Verify pubkey sighash (removelast vchSigIn)
      | None => false
      end
  | _, _ => false
  end.

Definition tx_CheckLockTime (input : CTxIn) (nLockTime : Z) : bool :=
  if negb (((ctx_nLockTime txTo <? LOCKTIME_THRESHOLD) && (nLockTime <? LOCKTIME_THRESHOLD)) ||
           ((LOCKTIME_THRESHOLD <=? ctx_nLockTime txTo) && (LOCKTIME_THRESHOLD <=? nLockTime))) then false
  else if ctx_nLockTime txTo <? nLockTime then false
  else negb (SEQUENCE_FINAL =? txin_nSequence input).

Definition tx_CheckSequence (input : CTxIn) (nSequence : Z) : bool :=
  let txToSequence := txin_nSequence input in
  if u32 (ctx_nVersion txTo) <? 2 then false
  else if negb (Z.land txToSequence SEQUENCE_LOCKTIME_DISABLE_FLAG =? 0) then false
  else
    let nLockTimeMask := Z.lor SEQUENCE_LOCKTIME_TYPE_FLAG SEQUENCE_LOCKTIME_MASK in
    let txToSequenceMasked := Z.land txToSequence nLockTimeMask in
    let nSequenceMasked := Z.land nSequence nLockTimeMask in
    if negb (((txToSequenceMasked <? SEQUENCE_LOCKTIME_TYPE_FLAG) && (nSequenceMasked <? SEQUENCE_LOCKTIME_TYPE_FLAG)) ||
             ((SEQUENCE_LOCKTIME_TYPE_FLAG <=? txToSequenceMasked) && (SEQUENCE_LOCKTIME_TYPE_FLAG <=? nSequenceMasked))) then false
    else negb (txToSequenceMasked <? nSequenceMasked).

Definition TransactionSignatureChecker : option BaseSignatureChecker :=
  input ← ctx_vin txTo !! nIn;
  Some {| CheckSig := tx_CheckSig; CheckLockTime := tx_CheckLockTime input; CheckSequence := tx_CheckSequence input |}.
End checker.

(** * What a signature signs: SIGHASH_ALL covers the transaction *)

(** ** Code without separators *)
Fixpoint parses (fuel : nat) (it : list Z) : bool :=
  match GetScriptOp it, fuel with
  | Some (_, _, it), S fuel => parses fuel it
  | _, _ => bool_decide (it = [])
  end.

(** The operations of a script but for OP_CODESEPARATOR. *)
Fixpoint without_separators (fuel : nat) (it : list Z) : list Z :=
  match GetScriptOp it, fuel with
  | Some (opcode, _, it'), S fuel => (if opcode =? OP_CODESEPARATOR then [] else take (length it - length it') it) ++ without_separators fuel it'
  | _, _ => []
  end.

Lemma read_bytes_Some n s d rest : read_bytes n s = Some (d, rest) -> s = d ++ rest.
Proof. unfold read_bytes. case_decide; [|done]. intros [= <- <-]. by rewrite take_drop. Qed.

Lemma GetScriptOp_suffix it op d it' : GetScriptOp it = Some (op, d, it') -> exists w, it = w ++ it' /\ (OP_PUSHDATA4 < op -> w = [op]).
Proof.
  destruct it as [|b pc]; [done|]. cbn [GetScriptOp]. destruct (Z.leb_spec b OP_PUSHDATA4) as [Hle|Hgt].
  - intros H. apply bind_Some in H as ([n pc1] & Hn & H). apply bind_Some in H as ([d' pc2] & Hd & H). injection H as <- <- <-.
    assert (exists w1, pc = w1 ++ pc1) as [w1 ->].
    { destruct (b <? OP_PUSHDATA1); [injection Hn as <- <-; by exists []|].
      assert (forall k, ser_readdata k pc = Some (n, pc1) -> exists w1, pc = w1 ++ pc1) as Hk.
      { intros k Hk. unfold ser_readdata in Hk. apply bind_Some in Hk as ([bs r] & Hr & Hk). injection Hk as _ <-. apply read_bytes_Some in Hr as ->. by exists bs. }
      destruct (b =? OP_PUSHDATA1); [by eapply Hk|]. destruct (b =? OP_PUSHDATA2); by eapply Hk. }
    apply read_bytes_Some in Hd as ->. exists (b :: w1 ++ d'). split; [cbn; by rewrite <-app_assoc|lia].
  - intros [= <- <- <-]. by exists [b].
Qed.

Lemma code_segments_spec fuel : forall pre it, (length it <= fuel)%nat -> parses fuel it = true -> code_segments fuel (pre ++ it) it = pre ++ without_separators fuel it.
Proof.
  induction fuel as [|fuel IH]; intros pre it Hf Hp.
  { destruct it; [|cbn in Hf; lia]. cbn. by rewrite app_nil_r, Nat.sub_0_r, take_ge by lia. }
  cbn [code_segments parses without_separators] in *. destruct (GetScriptOp it) as [[[op d] it']|] eqn:E.
  - pose proof (GetScriptOp_shorter _ _ _ _ E) as Hs. destruct (GetScriptOp_suffix _ _ _ _ E) as (w & -> & Hw). destruct (Z.eqb_spec op OP_CODESEPARATOR) as [->|Hne].
    + rewrite (Hw ltac:(done)) in *. cbn [app length]. rewrite length_app. cbn [length]. replace (length pre + S (length it') - length it' - 1)%nat with (length pre) by lia.
      rewrite take_app_length. f_equal. change it' with ([] ++ it') at 1. rewrite IH by (cbn in *; lia || done). done.
    + rewrite (app_assoc pre w), IH by (lia || done). rewrite length_app. replace (length w + length it' - length it')%nat with (length w) by lia. rewrite take_app_length. by rewrite <-app_assoc.
  - apply bool_decide_eq_true_1 in Hp as ->. cbn. rewrite !app_nil_r, Nat.sub_0_r, take_ge by lia. done.
Qed.

Lemma count_separators_spec fuel : forall it, parses fuel it = true -> (length (without_separators fuel it) + count_separators fuel it = length it)%nat.
Proof.
  induction fuel as [|fuel IH]; intros it Hp; cbn [parses without_separators count_separators] in *.
  { destruct (GetScriptOp it) as [[[? ?] ?]|]; by apply bool_decide_eq_true_1 in Hp as ->. }
  destruct (GetScriptOp it) as [[[op d] it']|] eqn:E; [|by apply bool_decide_eq_true_1 in Hp as ->]. destruct (GetScriptOp_suffix _ _ _ _ E) as (w & -> & Hw). specialize (IH it' Hp).
  rewrite !length_app. destruct (Z.eqb_spec op OP_CODESEPARATOR) as [->|]; [rewrite (Hw ltac:(done)); cbn [length]; lia|].
  rewrite length_take, length_app. lia.
Qed.

Definition signed_code (scriptCode : list Z) : list Z := without_separators (length scriptCode) scriptCode.

Lemma SerializeScriptCode_spec code : parses (length code) code = true -> SerializeScriptCode code = Serialize bytesc (signed_code code).
Proof.
  intros Hp. unfold SerializeScriptCode, signed_code. cbn [Serialize bytesc]. pose proof (count_separators_spec _ _ Hp) as Hc.
  replace (length code - count_separators (length code) code)%nat with (length (without_separators (length code) code)) by lia. f_equal.
  by apply (code_segments_spec (length code) [] code).
Qed.

Lemma without_separators_byte fuel : forall it, Forall byte it -> Forall byte (without_separators fuel it).
Proof.
  induction fuel as [|fuel IH]; intros it Hb; cbn [without_separators]; destruct (GetScriptOp it) as [[[op d] it']|] eqn:E; try constructor.
  destruct (GetScriptOp_suffix _ _ _ _ E) as (w & -> & _). pose proof Hb as Hb'. apply Forall_app in Hb' as [Hw Hi]. apply Forall_app. split; [|by apply IH].
  destruct (op =? OP_CODESEPARATOR); [constructor|]. by apply Forall_take.
Qed.

(** ** What is hashed for SIGHASH_ALL *)
(** The transaction with the code of the output in place of the script of the input
    that is signed, and no script in the others. *)
Definition signed_input (scriptCode : list Z) (nIn i : nat) (input : CTxIn) : CTxIn :=
  {| txin_prevout := txin_prevout input; txin_scriptSig := if (i =? nIn)%nat then signed_code scriptCode else []; txin_nSequence := txin_nSequence input |}.

Definition signed_tx (tx : CTx) (scriptCode : list Z) (nIn : nat) : CTx :=
  {| ctx_hash := 0; ctx_nVersion := ctx_nVersion tx; ctx_nType := ctx_nType tx; ctx_vin := imap (signed_input scriptCode nIn) (ctx_vin tx);
     ctx_vout := ctx_vout tx; ctx_nLockTime := ctx_nLockTime tx; ctx_vExtraPayload := ctx_vExtraPayload tx |}.

Definition signs_all (nHashType : Z) : Prop := fAnyoneCanPay nHashType = false /\ fHashSingle nHashType = false /\ fHashNone nHashType = false.

Lemma mjoin_concat (l : list (list Z)) : mjoin l = concat l.
Proof. induction l as [|x l IH]; [done|]. cbn. by rewrite <-IH. Qed.

Lemma imap_plain {A B} (f : A -> B) l : imap (fun _ => f) l = f <$> l.
Proof. apply list_eq. intros i. rewrite list_lookup_imap, list_lookup_fmap. by destruct (l !! i). Qed.

Lemma SerializeForSignature_all tx code nIn t : signs_all t -> parses (length code) code = true ->
  SerializeForSignature tx code nIn t = Some (Serialize_tx (signed_tx tx code nIn)).
Proof.
  intros (Ha & Hs & Hn) Hp. unfold SerializeForSignature, Serialize_tx. rewrite Ha, Hn, Hs. cbn [mbind option_bind]. f_equal. f_equal. cbn [Serialize vecc signed_tx ctx_vin ctx_vout ctx_nLockTime ctx_nVersion ctx_nType ctx_vExtraPayload].
  rewrite !mjoin_concat, !length_imap, <-!app_assoc. f_equal.
  assert (imap (SerializeInput code nIn t) (ctx_vin tx) = Serialize CTxIn_codec <$> imap (signed_input code nIn) (ctx_vin tx)) as ->.
  { rewrite fmap_imap. apply imap_ext. intros i x _. cbn [compose]. unfold SerializeInput, signed_input. rewrite Hs, Hn, andb_false_r. cbn [CTxIn_codec isoc pairc Serialize txin_prevout txin_scriptSig txin_nSequence fst snd].
    destruct (i =? nIn)%nat; cbn [negb]; [by rewrite SerializeScriptCode_spec|done]. }
  assert (imap (SerializeOutput nIn t) (ctx_vout tx) = Serialize CTxOut_codec <$> ctx_vout tx) as ->; [|done].
  rewrite <-(imap_plain (Serialize CTxOut_codec)). apply imap_ext. intros i x _. unfold SerializeOutput. by rewrite Hs.
Qed.

(** The string that is hashed. *)
Definition signed_bytes (tx : CTx) (scriptCode : list Z) (nIn : nat) (nHashType : Z) : list Z := Serialize_tx (signed_tx tx scriptCode nIn) ++ Serialize i32c nHashType.

Lemma SignatureHash_all tx code nIn t : signs_all t -> parses (length code) code = true -> (nIn < length (ctx_vin tx))%nat ->
  SignatureHash tx code nIn t = Some (hash_value op_HASH256 (signed_bytes tx code nIn t)).
Proof.
  intros Hall Hp Hn. unfold SignatureHash. rewrite (proj2 (Nat.ltb_lt _ _) Hn). cbn [negb]. destruct Hall as (Ha & Hs & Hno). rewrite Hs. cbn [andb].
  by rewrite SerializeForSignature_all.
Qed.

Lemma signed_tx_ok tx code nIn : TxOk tx -> Forall byte code -> Z.of_nat (length code) <= MAX_SIZE -> parses (length code) code = true -> TxOk (signed_tx tx code nIn).
Proof.
  intros (Hv & Ht & [Hl Hi] & Ho & Hk & Hpay) Hb Hc Hp. unfold TxOk, signed_tx. cbn [ctx_nVersion ctx_nType ctx_vin ctx_vout ctx_nLockTime ctx_vExtraPayload].
  split; [done|]. split; [done|]. split; [|done]. split; [by rewrite length_imap|]. apply Forall_lookup. intros i x. rewrite list_lookup_imap. intros H.
  apply fmap_Some in H as (y & Hy & ->). pose proof (Forall_lookup_1 _ _ _ _ Hi Hy) as (Hpv & Hsc & Hsq). split; [exact Hpv|]. split; [|exact Hsq].
  cbn [signed_input txin_scriptSig]. destruct (i =? nIn)%nat; [|split; [cbn; unfold MAX_SIZE; lia|constructor]]. split; [|by apply without_separators_byte].
  pose proof (count_separators_spec _ _ Hp). unfold signed_code. cbn [fst snd]. lia.
Qed.

Lemma byte_i32 b : byte b -> SerOk i32c b.
Proof. unfold byte, inU. intros H. change (- 2 ^ 31 <= b < 2 ^ 31). lia. Qed.

Lemma Some_inj_ {A} (a b : A) : Some a = Some b -> a = b.
Proof. by intros [= <-]. Qed.

Lemma Some_pair_inj {A B} (a c : A) (b d : B) : Some (a, b) = Some (c, d) -> a = c /\ b = d.
Proof. by intros [= <- <-]. Qed.

Lemma tx_fields_signed tx1 tx2 code1 code2 n1 n2 : TxOk tx1 -> TxOk tx2 ->
  tx_fields (signed_tx tx1 code1 n1) = tx_fields (signed_tx tx2 code2 n2) -> signed_tx tx1 code1 n1 = signed_tx tx2 code2 n2.
Proof.
  intros (V1 & T1 & _) (V2 & T2 & _) E. unfold tx_fields in E. cbn [signed_tx ctx_nVersion ctx_nType ctx_vin ctx_vout ctx_nLockTime ctx_vExtraPayload] in E. injection E as En Ei Eo El Ep.
  destruct (version_type_split _ _ V1 T1) as [Ev1 Et1], (version_type_split _ _ V2 T2) as [Ev2 Et2]. rewrite En in Ev1, Et1. unfold signed_tx. rewrite Ei, Eo, El, Ep. f_equal; congruence.
Qed.

(** C23: A signature for SIGHASH_ALL signs the whole transaction.  When two inputs of two
    transactions have the same signature hash for hash types that sign all, the two
    transactions agree in everything but the scripts of their inputs (version, type,
    the outputs spent and their sequence numbers, the outputs, lock time and payload),
    the same code is signed at the same place, and the hash types are equal; or else
    the two strings that were hashed are a collision of the double SHA-256.  The
    transactions are well-formed and the codes parse to their end. *)
Theorem SignatureHash_binds tx1 tx2 code1 code2 n1 n2 t1 t2 h :
  TxOk tx1 -> TxOk tx2 -> Forall byte code1 -> Forall byte code2 -> Z.of_nat (length code1) <= MAX_SIZE -> Z.of_nat (length code2) <= MAX_SIZE ->
  parses (length code1) code1 = true -> parses (length code2) code2 = true -> byte t1 -> byte t2 -> signs_all t1 -> signs_all t2 ->
  SignatureHash tx1 code1 n1 t1 = Some h -> SignatureHash tx2 code2 n2 t2 = Some h ->
  (signed_tx tx1 code1 n1 = signed_tx tx2 code2 n2 /\ t1 = t2) \/
  (signed_bytes tx1 code1 n1 t1 <> signed_bytes tx2 code2 n2 t2 /\
   hash_value op_HASH256 (signed_bytes tx1 code1 n1 t1) = hash_value op_HASH256 (signed_bytes tx2 code2 n2 t2)).
Proof.
  intros O1 O2 B1 B2 L1 L2 P1 P2 I1 I2 A1 A2 H1 H2.
  assert (forall tx code n t, SignatureHash tx code n t = Some h -> (n < length (ctx_vin tx))%nat) as Hin.
  { intros tx code n t H. unfold SignatureHash in H. destruct (Nat.ltb_spec n (length (ctx_vin tx))); done. }
  rewrite (SignatureHash_all _ _ _ _ A1 P1 (Hin _ _ _ _ H1)) in H1. rewrite (SignatureHash_all _ _ _ _ A2 P2 (Hin _ _ _ _ H2)) in H2.
  destruct (decide (signed_bytes tx1 code1 n1 t1 = signed_bytes tx2 code2 n2 t2)) as [E|E]; [left|right; split; [exact E|exact (eq_trans (Some_inj_ _ _ H1) (eq_sym (Some_inj_ _ _ H2)))]].
  destruct (Serialize_tx_fields _ (signed_tx_ok tx1 code1 n1 O1 B1 L1 P1)) as [S1 K1], (Serialize_tx_fields _ (signed_tx_ok tx2 code2 n2 O2 B2 L2 P2)) as [S2 K2].
  unfold signed_bytes in E. rewrite S1, S2 in E. apply (f_equal (Unserialize tx_fields_codec)) in E. pose proof tx_fields_laws. rewrite !unser_ser in E by done.
  apply Some_pair_inj in E as [E Et].
  split; [exact (tx_fields_signed _ _ _ _ _ _ O1 O2 E)|].
  apply (f_equal (fun l => Unserialize i32c (l ++ []))) in Et. rewrite !unser_ser in Et by (by apply byte_i32). by apply Some_pair_inj in Et as [Et _].
Qed.
