(* ===== verification/BlockCheck.v ===== *)
(** * Checking and accepting blocks
    (the serialization of CBlock of src/src/primitives/block.h, BlockMerkleRoot of
    src/src/consensus/merkle.cpp, CheckBlock, ContextualCheckTransaction,
    ContextualCheckBlock, AcceptBlock and ProcessNewBlock of src/src/validation.cpp)

    A rejection is a value of [BlockReject]; [reject_reason] is what the code tells
    about it.  Writing the block to disk succeeds or not, as a parameter says.
    [None] is a failed assertion or an index outside a vector.  Not modelled:
    notifications, statistics, flushing to disk. *)

From S2P Require Import Prelude Serialize Params BetTx BetKeys Transaction TxCodec Coins TokenGroups TokenDesc TxVerify AddressIndex Arith256 Chain Pow Kernel Headers ChainSelect HashStream Sha2 Merkle HeadersWire ScriptNum Standard.

(** ** Blocks *)
Record CBlock := { b_header : CBlockHeader; b_vtx : list CTx; b_vchBlockSig : list Z; b_fChecked : bool }.

Definition IsProofOfStake_block (block : CBlock) : bool := match b_vtx block !! 1%nat with Some tx => IsCoinStake tx | None => false end.
Definition IsProofOfWork_block (block : CBlock) : bool := negb (IsProofOfStake_block block).

Definition Serialize_block (block : CBlock) : list Z :=
  Serialize CBlockHeader_codec (b_header block) ++ WriteCompactSize (Z.of_nat (length (b_vtx block))) ++ mjoin (Serialize_tx <$> b_vtx block) ++
  (if IsProofOfStake_block block then Serialize bytesc (b_vchBlockSig block) else []).

Definition BlockMerkleRoot (vtx : list CTx) : option (uint256 * bool) := ComputeMerkleRoot (ctx_hash <$> vtx).

(** ** Rejections *)
Inductive BlockReject :=
  | header_rejected (r : HeaderReject)
  | bad_txnmrklroot
  | bad_txns_duplicate
  | bad_blk_length
  | bad_cb_missing
  | bad_cb_multiple
  | coinbase_not_empty
  | second_tx_not_coinstake
  | more_than_one_coinstake
  | tx_rejected (r : TxReject)
  | bad_blk_sigops
  | bad_txns_nonfinal
  | bad_txns_type
  | bad_txns_cb_type
  | bad_txns_oversize_context
  | bad_cb_height
  | bad_cb_type.

#[export] Instance BlockReject_eq_dec : EqDecision BlockReject.
Proof. solve_decision. Defined.

(** What of the reason AcceptBlock looks at; [None] when the state is not set. *)
Definition reject_reason (r : BlockReject) : option InvalidReason :=
  match r with
  | bad_txnmrklroot | bad_txns_duplicate => Some BLOCK_MUTATED
  | coinbase_not_empty | second_tx_not_coinstake | more_than_one_coinstake => None
  | _ => Some OTHER_REASON
  end.

(** The parameters of the checks. *)
Record BlockParams := {
  bk_header : HeaderParams;
  CSVHeight : Z; DIP0001Height : Z; DIP0003Height : Z;
  nZerocoinStartTime : Z;
  nMinimumChainWork : list Z }.

Definition MaxBlockSigOps (fDIP0001Active : bool) : Z := MaxBlockSize fDIP0001Active / 50.
Definition MAX_STANDARD_TX_SIZE : Z := 100000.
Definition MIN_BLOCKS_TO_KEEP : Z := 288.
Definition TRANSACTION_MNHF_SIGNAL : Z := 7.
Definition TRANSACTION_PROVIDER_REGISTER : Z := 1.
Definition TRANSACTION_PROVIDER_UPDATE_SERVICE : Z := 2.
Definition TRANSACTION_PROVIDER_UPDATE_REGISTRAR : Z := 3.
Definition TRANSACTION_PROVIDER_UPDATE_REVOKE : Z := 4.

Definition first_tx_reject (f : CTx -> option BlockReject) (vtx : list CTx) : option BlockReject := head (omap f vtx).
Definition sum_sigops (vtx : list CTx) : Z := foldl (fun n tx => u32 (n + GetLegacySigOpCount tx)) 0 vtx.

Section checks.
Context (params : BlockParams).
Context (GetHash : CBlockHeader -> uint256).

(** The size of the block as sent. *)
Definition block_too_long (block : CBlock) (nMaxBlockSize : Z) : bool :=
  bool_decide (b_vtx block = []) || (nMaxBlockSize <? Z.of_nat (length (b_vtx block))) || (nMaxBlockSize <? Z.of_nat (length (Serialize_block block))).

(** ** CheckBlock *)
Definition check_merkle (block : CBlock) : option (option BlockReject) :=
  '(hashMerkleRoot2, mutated) ← BlockMerkleRoot (b_vtx block);
  Some (if negb (h_hashMerkleRoot (b_header block) =? hashMerkleRoot2) then Some bad_txnmrklroot
        else if mutated : bool then Some bad_txns_duplicate else None).

Definition check_stake_layout (block : CBlock) : option BlockReject :=
  match b_vtx block with
  | tx0 :: tx1 :: vtx =>
      if negb (length (ctx_vout tx0) =? 1)%nat || negb (forallb CTxOut_IsEmpty (take 1 (ctx_vout tx0))) then Some coinbase_not_empty
      else if negb (IsCoinStake tx1) then Some second_tx_not_coinstake
      else if existsb IsCoinStake vtx then Some more_than_one_coinstake
      else None
  | _ => None
  end.

Definition check_transactions (block : CBlock) : option BlockReject :=
  if block_too_long block (MaxBlockSize true) then Some bad_blk_length
  else
    match b_vtx block with
    | [] => Some bad_cb_missing
    | tx0 :: vtx =>
        if negb (IsCoinBase tx0) then Some bad_cb_missing
        else if existsb IsCoinBase vtx then Some bad_cb_multiple
        else
          match (if IsProofOfStake_block block then check_stake_layout block else None) with
          | Some r => Some r
          | None =>
              let fZerocoinActive := nZerocoinStartTime params <? h_nTime (b_header block) in
              match first_tx_reject (fun tx => tx_rejected <$> CheckTransaction tx fZerocoinActive) (b_vtx block) with
              | Some r => Some r
              | None => if MaxBlockSigOps true <? sum_sigops (b_vtx block) then Some bad_blk_sigops else None
              end
          end
    end.

(** The block, which remembers that it was checked, and the rejection. *)
Definition CheckBlock (block : CBlock) (fCheckPOW fCheckMerkleRoot : bool) : option (CBlock * option BlockReject) :=
  if b_fChecked block then Some (block, None)
  else
    match CheckBlockHeader (bk_header params) GetHash (b_header block) (fCheckPOW && IsProofOfWork_block block) with
    | Some r => Some (block, Some (header_rejected r))
    | None =>
        m ← (if fCheckMerkleRoot then check_merkle block else Some None);
        match (match m with Some r => Some r | None => check_transactions block end) with
        | Some r => Some (block, Some r)
        | None => Some ({| b_header := b_header block; b_vtx := b_vtx block; b_vchBlockSig := b_vchBlockSig block;
                           b_fChecked := fCheckPOW && fCheckMerkleRoot |}, None)
        end
    end.

(** ** Checks that depend on the block before *)
Definition version3_types : list Z :=
  [TRANSACTION_NORMAL; TRANSACTION_PROVIDER_REGISTER; TRANSACTION_PROVIDER_UPDATE_SERVICE; TRANSACTION_PROVIDER_UPDATE_REGISTRAR;
   TRANSACTION_PROVIDER_UPDATE_REVOKE; TRANSACTION_COINBASE; TRANSACTION_QUORUM_COMMITMENT; TRANSACTION_GROUP_CREATION_REGULAR;
   TRANSACTION_GROUP_CREATION_MGT; TRANSACTION_GROUP_CREATION_NFT; TRANSACTION_GROUP_CREATION_BETTING; TRANSACTION_MNHF_SIGNAL].
Definition creation_types : list Z :=
  [TRANSACTION_GROUP_CREATION_REGULAR; TRANSACTION_GROUP_CREATION_MGT; TRANSACTION_GROUP_CREATION_NFT; TRANSACTION_GROUP_CREATION_BETTING].

Definition ContextualCheckTransaction (tx : CTx) (nHeight : Z) : option BlockReject :=
  let types :=
    if DIP0003Height params <=? nHeight then
      if 3 <=? ctx_nVersion tx then
        if negb (bool_decide (ctx_nType tx ∈ version3_types)) then Some bad_txns_type
        else if IsCoinBase tx && negb (ctx_nType tx =? TRANSACTION_COINBASE) then Some bad_txns_cb_type
        else if IsAnyOutputGroupedCreation (tx_of tx) TokenGroupIdFlags_NONE && negb (bool_decide (ctx_nType tx ∈ creation_types)) then Some bad_txns_cb_type
        else None
      else if negb (ctx_nType tx =? TRANSACTION_NORMAL) then Some bad_txns_type else None
    else None in
  match types with
  | Some r => Some r
  | None => if (DIP0001Height params <=? nHeight) && (MAX_STANDARD_TX_SIZE <? GetSerializeSize tx) then Some bad_txns_oversize_context else None
  end.

Definition check_coinbase_height (block : CBlock) (nHeight : Z) : option (option BlockReject) :=
  let fDIP0003Active_context := DIP0003Height params <=? nHeight in
  tx0 ← b_vtx block !! 0%nat;
  if (BIP34Height (bk_header params) <=? nHeight) && negb fDIP0003Active_context then
    in0 ← ctx_vin tx0 !! 0%nat;
    let expect := push_int64 nHeight in
    Some (if (length (txin_scriptSig in0) <? length expect)%nat || negb (bool_decide (take (length expect) (txin_scriptSig in0) = expect)) then Some bad_cb_height else None)
  else if fDIP0003Active_context && negb (ctx_nType tx0 =? TRANSACTION_COINBASE) then Some (Some bad_cb_type)
  else Some None.

Definition ContextualCheckBlock (m : BlockMap) (block : CBlock) (pindexPrev : option uint256) : option (option BlockReject) :=
  nHeight ← match pindexPrev with Some p => n ← m !! p; Some (bi_nHeight n + 1) | None => Some 0 end;
  nLockTimeCutoff ← (if CSVHeight params <=? nHeight then p ← pindexPrev; MedianTimePast m p else Some (h_nTime (b_header block)));
  let fDIP0001Active_context := DIP0001Height params <=? nHeight in
  if block_too_long block (MaxBlockSize fDIP0001Active_context) then Some (Some bad_blk_length)
  else
    match first_tx_reject (fun tx => if negb (IsFinalTx tx nHeight nLockTimeCutoff) then Some bad_txns_nonfinal else ContextualCheckTransaction tx nHeight) (b_vtx block) with
    | Some r => Some (Some r)
    | None => if MaxBlockSigOps fDIP0001Active_context <? sum_sigops (b_vtx block) then Some (Some bad_blk_sigops) else check_coinbase_height block nHeight
    end.

(** ** Accepting a block *)
Context (HasConflictingChainLock : Z -> uint256 -> bool).
Context {S U : Type} `{!BlockStore S U} (addr : uint256 -> Z).

Inductive AcceptResult :=
  | Accepted (fNewBlock : bool)
  | BlockRejected (r : BlockReject)
  | AcceptError.

(** Whether the block is processed at all. *)
Definition skip_block (st : CChainState (S := S) (U := U)) (n : CBlockIndexNode) (fRequested : bool) : option bool :=
  tipwork ← match Tip (m_chain st) with Some t => nt ← index_of st !! t; Some (Some (bi_nChainWork nt)) | None => Some None end;
  let fAlreadyHave := has_bits (bi_nStatus n) BLOCK_HAVE_DATA in
  let fHasMoreOrSameWork := match tipwork with Some w => negb (arith_lt (bi_nChainWork n) w) | None => true end in
  let fTooFarAhead := Height (m_chain st) + MIN_BLOCKS_TO_KEEP <? bi_nHeight n in
  Some (fAlreadyHave ||
        (negb fRequested && (negb (bi_nTx n =? 0) || negb fHasMoreOrSameWork || fTooFarAhead || arith_lt (bi_nChainWork n) (nMinimumChainWork params)))).

Definition AcceptBlock (st : CChainState (S := S) (U := U)) (block : CBlock) (fRequested : bool) (nAdjustedTime : Z) (saved : bool) :
    option (CChainState (S := S) (U := U) * AcceptResult) :=
  '(bm, r) ← AcceptBlockHeader (bk_header params) GetHash HasConflictingChainLock (cs_blockman st) (b_header block) (IsProofOfWork_block block) nAdjustedTime;
  let st := {| cs_blockman := bm; m_blocks_unlinked := m_blocks_unlinked st; setBlockIndexCandidates := setBlockIndexCandidates st; m_chain := m_chain st;
               pindexBestInvalid := pindexBestInvalid st; nBlockSequenceId := nBlockSequenceId st; cs_store := cs_store st; cs_undo := cs_undo st |} in
  match r with
  | inl r => Some (st, BlockRejected (header_rejected r))
  | inr pindex =>
      n ← index_of st !! pindex;
      skip ← skip_block st n fRequested;
      if skip : bool then Some (st, Accepted false)
      else
        '(block, r) ← CheckBlock block true true;
        r ← match r with Some r => Some (Some r) | None => ContextualCheckBlock (index_of st) block (bi_pprev n) end;
        match r with
        | Some r =>
            let st := if bool_decide (reject_reason r = Some OTHER_REASON) then set_dirty (put_node st pindex (add_status n BLOCK_FAILED_VALID)) pindex else st in
            Some (st, BlockRejected r)
        | None =>
            if negb saved then Some (st, AcceptError)
            else
              let st := if IsProofOfStake_block block then put_node st pindex (SetProofOfStake n) else st in
              st ← ReceivedBlockTransactions addr st (IsProofOfStake_block block) (Z.of_nat (length (b_vtx block))) pindex;
              Some (st, Accepted true)
        end
  end.

(** ** A new block *)
Context (Verify : list Z -> uint256 -> list Z -> bool) (spend_pubkey : CTxIn -> option (option (list Z))).

Definition ProcessNewBlock (st : CChainState (S := S) (U := U)) (block : CBlock) (fForceProcessing : bool) (nAdjustedTime : Z) (saved : bool) :
    option (CChainState (S := S) (U := U) * bool) :=
  '(block, r) ← CheckBlock block true true;
  sig ← CheckBlockSignature Verify spend_pubkey (b_vtx block) (b_vchBlockSig block) (GetHash (b_header block));
  '(st, ret) ← (if bool_decide (r = None) && sig then
                  '(st, a) ← AcceptBlock st block fForceProcessing nAdjustedTime saved;
                  Some (st, match a with Accepted _ => true | _ => false end)
                else Some (st, false));
  if negb ret then Some (st, false) else ActivateBestChain addr st.
End checks.
