(* ===== verification/BlockCheckProofs.v ===== *)
(** * Checked blocks: the header determines the transactions *)

From S2P Require Import Prelude Serialize Params BetTx BetKeys Transaction TxCodec Coins TokenGroups TokenDesc TxVerify AddressIndex Arith256 Chain Pow Kernel Headers ChainSelect HashStream Sha2 Sha512 Sha2Proofs Merkle MerkleProofs HeadersWire Standard BlockCheck ChainProofs ChainSelectProofs.

(** ** Hashes as numbers *)
Definition sha256d (x : list Z) : list Z := SHA256 (SHA256 x).

Lemma Hash1_spec buf x : length buf = 64%nat -> Hash1 buf x = be_value (sha256d x).
Proof.
  intros Hb. unfold Hash1, sha256d. f_equal. apply CHash256_holds. pose proof (CSHA256_writes buf [x] Hb) as H. cbn [foldl mjoin list_join] in H.
  rewrite app_nil_r in H. exact H.
Qed.

Lemma HashPair_spec a b : HashPair a b = be_value (sha256d (be_bytes 32 a ++ be_bytes 32 b)).
Proof. unfold HashPair, sha256d. rewrite Hash2_spec; reflexivity. Qed.

Lemma be_bytes_byte n x : Forall byte (be_bytes n x).
Proof. unfold be_bytes. apply Forall_reverse, le_bytes_byte. Qed.

Lemma SHA256_byte m : Forall byte (SHA256 m).
Proof.
  unfold SHA256. rewrite Forall_forall. intros b Hb. apply list_elem_of_join in Hb as (l & Hb & Hl). apply list_elem_of_fmap in Hl as (w & -> & _).
  pose proof (be_bytes_byte 4 w) as H. rewrite Forall_forall in H. exact (H b Hb).
Qed.

Lemma be_value_inj l k : Forall byte l -> Forall byte k -> length l = length k -> be_value l = be_value k -> l = k.
Proof.
  intros Hl Hk El E. unfold be_value in E.
  rewrite <-(reverse_involutive l), <-(reverse_involutive k). f_equal. rewrite <-(le_bytes_value (reverse l)), <-(le_bytes_value (reverse k)) by (by apply Forall_reverse).
  by rewrite E, !length_reverse, El.
Qed.

Lemma be_value_range l : Forall byte l -> inU (8 * Z.of_nat (length l)) (be_value l).
Proof. intros Hl. unfold be_value. rewrite <-length_reverse. apply le_value_inU. by apply Forall_reverse. Qed.

Lemma hash_range x : inU 256 (be_value (sha256d x)).
Proof. pose proof (be_value_range (sha256d x) (SHA256_byte _)) as H. unfold sha256d in H at 1. rewrite length_SHA256 in H. exact H. Qed.

Lemma hash_inj x y : be_value (sha256d x) = be_value (sha256d y) -> sha256d x = sha256d y.
Proof. apply be_value_inj; [apply SHA256_byte..|]. unfold sha256d. rewrite !length_SHA256. reflexivity. Qed.

#[local] Opaque sha256d.

Lemma be_bytes_inj n x y : inU (8 * Z.of_nat n) x -> inU (8 * Z.of_nat n) y -> be_bytes n x = be_bytes n y -> x = y.
Proof. intros Hx Hy E. apply (f_equal be_value) in E. rewrite !be_value_bytes, !wrapU_small in E by done. exact E. Qed.

Lemma hash_of_pair_eq h q : hash_of_pair h q = h q.1 q.2.
Proof. reflexivity. Qed.

(** ** What is hashed for the root of a block *)
Definition pair_bytes (p : uint256 * uint256) : list Z := be_bytes 32 p.1 ++ be_bytes 32 p.2.

Definition hash_inputs (vtx : list CTx) : list (list Z) :=
  (Serialize_tx <$> vtx) ++ (pair_bytes <$> hashed_pairs HashPair (length (ctx_hash <$> vtx)) (ctx_hash <$> vtx)).

(** Two different strings among those hashed for two blocks have the same hash. *)
Definition hash_collision (vtx1 vtx2 : list CTx) : Prop :=
  exists x y, x ∈ hash_inputs vtx1 ++ hash_inputs vtx2 /\ y ∈ hash_inputs vtx1 ++ hash_inputs vtx2 /\ x <> y /\ sha256d x = sha256d y.

(** A transaction as it is read: its hash is that of its bytes. *)
Definition tx_made (tx : CTx) : Prop := TxOk tx /\ ctx_hash tx = ComputeHash (Hash1 (replicate 64 0)) tx.

Lemma tx_made_hash tx : tx_made tx -> ctx_hash tx = be_value (sha256d (Serialize_tx tx)).
Proof. intros [_ E]. rewrite E. unfold ComputeHash. apply Hash1_spec. reflexivity. Qed.

Lemma tx_made_inj tx1 tx2 : tx_made tx1 -> tx_made tx2 -> Serialize_tx tx1 = Serialize_tx tx2 -> tx1 = tx2.
Proof.
  intros [O1 H1] [O2 H2] E. pose proof (Unserialize_Serialize_tx _ tx1 [] O1 H1) as U1. pose proof (Unserialize_Serialize_tx _ tx2 [] O2 H2) as U2.
  rewrite E, U2 in U1. congruence.
Qed.

(** Every number that is hashed has 256 bits. *)
Lemma pairs_range l r m ps : merkle HashPair l r m ps -> Forall (inU 256) l -> Forall (fun p => inU 256 p.1 /\ inU 256 p.2) ps.
Proof.
  induction 1 as [r|l r m ps Hl Hm IH]; intros Hr; [constructor|]. apply Forall_app. split.
  - apply Forall_forall. intros p [H1 H2]%pairs_elem. rewrite Forall_forall in Hr. split; apply Hr; done.
  - apply IH. apply Forall_forall. intros x (p & _ & ->)%up_hash. rewrite hash_of_pair_eq, HashPair_spec. apply hash_range.
Qed.

Lemma pair_bytes_inj p q : inU 256 p.1 -> inU 256 p.2 -> inU 256 q.1 -> inU 256 q.2 -> pair_bytes p = pair_bytes q -> p = q.
Proof.
  intros P1 P2 Q1 Q2 E. unfold pair_bytes in E. apply app_inj_1 in E as [E1 E2]; [|by rewrite !length_be_bytes]. apply be_bytes_inj in E1, E2; [|done..].
  destruct p, q. cbn in *. congruence.
Qed.

(** Equal ids: the transactions are equal, or two of them collide. *)
Lemma same_ids vtx1 : forall vtx2, Forall tx_made vtx1 -> Forall tx_made vtx2 -> ctx_hash <$> vtx1 = ctx_hash <$> vtx2 ->
  vtx1 = vtx2 \/ exists x y, x ∈ Serialize_tx <$> vtx1 /\ y ∈ Serialize_tx <$> vtx2 /\ x <> y /\ sha256d x = sha256d y.
Proof.
  induction vtx1 as [|t1 vtx1 IH]; intros [|t2 vtx2] M1 M2 E; [by left|discriminate E|discriminate E|]. rewrite !fmap_cons in E. apply cons_eq in E as [Eh E].
  inversion_clear M1 as [|? ? m1 M1']. inversion_clear M2 as [|? ? m2 M2']. rewrite (tx_made_hash t1 m1), (tx_made_hash t2 m2) in Eh. apply hash_inj in Eh.
  rewrite !fmap_cons. destruct (decide (Serialize_tx t1 = Serialize_tx t2)) as [Es|Hne].
  - rewrite (tx_made_inj t1 t2 m1 m2 Es). destruct (IH vtx2 M1' M2' E) as [->|(x & y & Hx & Hy & H)]; [by left|]. right. exists x, y. split; [by right|]. split; [by right|exact H].
  - right. exists (Serialize_tx t1), (Serialize_tx t2). split; [left|]. split; [left|]. split; [exact Hne|exact Eh].
Qed.

(** The bytes of a transaction whose id is the hash of a pair have the pair's hash. *)
Lemma tx_pair_hash tx q : tx_made tx -> ctx_hash tx = hash_of_pair HashPair q -> sha256d (Serialize_tx tx) = sha256d (pair_bytes q).
Proof.
  intros Hm E. rewrite (tx_made_hash tx Hm) in E. rewrite hash_of_pair_eq, HashPair_spec in E. exact (hash_inj _ _ E).
Qed.

Section inputs.
Context (vtx1 vtx2 : list CTx).

Lemma tx_input tx : tx ∈ vtx1 -> Serialize_tx tx ∈ hash_inputs vtx1.
Proof. intros H. apply elem_of_app. left. apply list_elem_of_fmap. by exists tx. Qed.

Lemma pair_input p : p ∈ hashed_pairs HashPair (length (ctx_hash <$> vtx1)) (ctx_hash <$> vtx1) -> pair_bytes p ∈ hash_inputs vtx1.
Proof. intros H. apply elem_of_app. right. apply list_elem_of_fmap. by exists p. Qed.

(** An id that is the hash of a pair: a transaction of 64 bytes, or a collision. *)
Lemma foreign_input : Forall tx_made vtx1 -> foreign HashPair (ctx_hash <$> vtx1) (hashed_pairs HashPair (length (ctx_hash <$> vtx2)) (ctx_hash <$> vtx2)) ->
  (exists tx, tx ∈ vtx1 /\ length (Serialize_tx tx) = 64%nat) \/
  exists x q, x ∈ hash_inputs vtx1 /\ q ∈ hashed_pairs HashPair (length (ctx_hash <$> vtx2)) (ctx_hash <$> vtx2) /\ x <> pair_bytes q /\ sha256d x = sha256d (pair_bytes q).
Proof.
  intros M1 (x & q & (tx & -> & Htx)%list_elem_of_fmap & Hq & E). rewrite Forall_forall in M1. apply (tx_pair_hash tx q (M1 tx Htx)) in E.
   destruct (decide (Serialize_tx tx = pair_bytes q)) as [Es|Hne].
  - left. exists tx. split; [done|]. rewrite Es. unfold pair_bytes. by rewrite length_app, !length_be_bytes.
  - right. exists (Serialize_tx tx), q. split; [by apply tx_input|]. split; [done|]. split; [exact Hne|exact E].
Qed.
End inputs.

Lemma hash_collision_sym vtx1 vtx2 : hash_collision vtx2 vtx1 -> hash_collision vtx1 vtx2.
Proof.
  intros (x & y & Hx & Hy & H). apply elem_of_app in Hx, Hy. exists x, y. split; [apply elem_of_app; tauto|]. split; [apply elem_of_app; tauto|exact H].
Qed.

Lemma foreign_binds vtx1 vtx2 : Forall tx_made vtx1 -> foreign HashPair (ctx_hash <$> vtx1) (hashed_pairs HashPair (length (ctx_hash <$> vtx2)) (ctx_hash <$> vtx2)) ->
  hash_collision vtx1 vtx2 \/ exists tx, tx ∈ vtx1 /\ length (Serialize_tx tx) = 64%nat.
Proof.
  intros M1 Hf. destruct (foreign_input vtx1 vtx2 M1 Hf) as [Ht|(x & q & Hx & Hq & H)]; [by right|]. left. exists x, (pair_bytes q).
  split; [apply elem_of_app; by left|]. split; [apply elem_of_app; right; by apply pair_input|exact H].
Qed.

Lemma made_range vtx : Forall tx_made vtx -> Forall (inU 256) (ctx_hash <$> vtx).
Proof. intros M. apply Forall_fmap. eapply Forall_impl; [exact M|]. intros tx Hm. cbn. rewrite (tx_made_hash tx Hm). apply hash_range. Qed.

Lemma hashed_range vtx p : Forall tx_made vtx -> vtx <> [] -> p ∈ hashed_pairs HashPair (length (ctx_hash <$> vtx)) (ctx_hash <$> vtx) -> inU 256 p.1 /\ inU 256 p.2.
Proof.
  intros M Hne Hp. destruct (merkle_total HashPair (ctx_hash <$> vtx)) as (r & b & ps & Hmk); [by destruct vtx|].
  rewrite (hashed_pairs_spec _ _ _ _ _ Hmk _ (le_n _)) in Hp. pose proof (pairs_range _ _ _ _ Hmk (made_range vtx M)) as H. rewrite Forall_forall in H. exact (H p Hp).
Qed.

Lemma collides_binds vtx1 vtx2 : Forall tx_made vtx1 -> Forall tx_made vtx2 -> vtx1 <> [] -> vtx2 <> [] ->
  collides HashPair (hashed_pairs HashPair (length (ctx_hash <$> vtx1)) (ctx_hash <$> vtx1)) (hashed_pairs HashPair (length (ctx_hash <$> vtx2)) (ctx_hash <$> vtx2)) ->
  hash_collision vtx1 vtx2.
Proof.
  intros M1 M2 N1 N2 (p & q & Hp & Hq & Hne & E). destruct (hashed_range vtx1 p M1 N1 Hp), (hashed_range vtx2 q M2 N2 Hq). exists (pair_bytes p), (pair_bytes q).
  split; [apply elem_of_app; left; by apply pair_input|]. split; [apply elem_of_app; right; by apply pair_input|].
  split; [intros E'; apply Hne; by apply pair_bytes_inj|]. rewrite !hash_of_pair_eq, !HashPair_spec in E. exact (hash_inj _ _ E).
Qed.

Lemma root_binds vtx1 vtx2 r : Forall tx_made vtx1 -> Forall tx_made vtx2 -> vtx1 <> [] -> vtx2 <> [] ->
  BlockMerkleRoot vtx1 = Some (r, false) -> BlockMerkleRoot vtx2 = Some (r, false) ->
  vtx1 = vtx2 \/ hash_collision vtx1 vtx2 \/ exists tx, tx ∈ vtx1 ++ vtx2 /\ length (Serialize_tx tx) = 64%nat.
Proof.
  intros M1 M2 N1 N2 R1 R2. unfold BlockMerkleRoot in *. destruct (root_determines (ctx_hash <$> vtx1) (ctx_hash <$> vtx2)) as (r1 & m1 & r2 & m2 & E1 & E2 & H);
    [by destruct vtx1|by destruct vtx2|]. rewrite R1 in E1. rewrite R2 in E2. assert (r1 = r /\ m1 = false) as [-> ->] by (split; congruence). assert (r2 = r /\ m2 = false) as [-> ->] by (split; congruence).
  destruct (H eq_refl eq_refl eq_refl) as [El|[Hc|[Hf|Hf]]].
  - destruct (same_ids vtx1 vtx2 M1 M2 El) as [E|(x & y & Hx & Hy & Hxy)]; [by left|]. right. left. exists x, y. unfold hash_inputs.
    split; [do 2 (apply elem_of_app; left); exact Hx|]. split; [apply elem_of_app; right; apply elem_of_app; left; exact Hy|exact Hxy].
  - right. left. by apply collides_binds.
  - right. destruct (foreign_binds vtx1 vtx2 M1 Hf) as [Hc|(tx & Htx & Hl)]; [by left|]. right. exists tx. split; [apply elem_of_app; by left|done].
  - right. destruct (foreign_binds vtx2 vtx1 M2 Hf) as [Hc|(tx & Htx & Hl)]; [left; by apply hash_collision_sym|]. right. exists tx. split; [apply elem_of_app; by right|done].
Qed.

(** ** CheckBlock *)
Lemma CheckBlock_merkle params GetHash block block' fCheckPOW : b_fChecked block = false -> CheckBlock params GetHash block fCheckPOW true = Some (block', None) ->
  BlockMerkleRoot (b_vtx block) = Some (h_hashMerkleRoot (b_header block), false) /\ b_vtx block <> [].
Proof.
  intros Hf. unfold CheckBlock. rewrite Hf. destruct (CheckBlockHeader _ _ _ _) as [?|]; [discriminate|]. unfold check_merkle.
  destruct (BlockMerkleRoot (b_vtx block)) as [[root mutated]|]; [|discriminate]. cbn [mbind option_bind]. destruct (Z.eqb_spec (h_hashMerkleRoot (b_header block)) root) as [->|]; [|discriminate].
  cbn [negb]. destruct mutated; [discriminate|]. destruct (check_transactions params block) as [?|] eqn:Et; [discriminate|]. intros _. split; [done|]. intros E.
  unfold check_transactions, block_too_long in Et. rewrite E in Et. discriminate Et.
Qed.

(** C31: The header determines the transactions.  Two blocks with the same Merkle
    root that both pass CheckBlock have the same transactions, scripts
    included; otherwise two different strings among those that were hashed for their
    roots have the same double SHA-256, or one of the transactions is 64 bytes long
    and passes for two nodes of a tree. *)
Theorem CheckBlock_binds params GetHash block1 block2 block1' block2' :
  b_fChecked block1 = false -> b_fChecked block2 = false -> Forall tx_made (b_vtx block1) -> Forall tx_made (b_vtx block2) ->
  h_hashMerkleRoot (b_header block1) = h_hashMerkleRoot (b_header block2) ->
  CheckBlock params GetHash block1 true true = Some (block1', None) -> CheckBlock params GetHash block2 true true = Some (block2', None) ->
  b_vtx block1 = b_vtx block2 \/ hash_collision (b_vtx block1) (b_vtx block2) \/
  exists tx, tx ∈ b_vtx block1 ++ b_vtx block2 /\ length (Serialize_tx tx) = 64%nat.
Proof.
  intros F1 F2 M1 M2 Hr C1 C2. destruct (CheckBlock_merkle _ _ _ _ _ F1 C1) as [R1 N1], (CheckBlock_merkle _ _ _ _ _ F2 C2) as [R2 N2]. rewrite <-Hr in R2.
  by apply root_binds with (r := h_hashMerkleRoot (b_header block1)).
Qed.

(** * Accepting blocks: only a block that passes all checks is stored

    What AcceptBlock does to the flags of the entries.  [flags_kept] says that no
    entry gets a flag that it did not have. *)

Definition flags_kept (mask : Z) (m m' : BlockMap) : Prop :=
  forall h n', m' !! h = Some n' -> has_bits (bi_nStatus n') mask = true -> exists n, m !! h = Some n /\ has_bits (bi_nStatus n) mask = true.

Lemma flags_kept_refl mask m : flags_kept mask m m.
Proof. intros h n Hn Hb. by exists n. Qed.

Lemma flags_kept_trans mask m1 m2 m3 : flags_kept mask m1 m2 -> flags_kept mask m2 m3 -> flags_kept mask m1 m3.
Proof. intros H1 H2 h n Hn Hb. destruct (H2 h n Hn Hb) as (n2 & Hn2 & Hb2). exact (H1 h n2 Hn2 Hb2). Qed.

Lemma flags_kept_insert mask (m : BlockMap) h n n' : m !! h = Some n -> has_bits (bi_nStatus n') mask = has_bits (bi_nStatus n) mask -> flags_kept mask m (<[h := n']> m).
Proof.
  intros Hn E x nx Hx Hb. destruct (decide (x = h)) as [->|Hne]; [|rewrite store_insert_ne in Hx by done; by exists nx].
  rewrite store_insert_eq in Hx. injection Hx as <-. exists n. split; [done|]. by rewrite <-E.
Qed.

Lemma flags_kept_new mask (m : BlockMap) h n' : has_bits (bi_nStatus n') mask = false -> flags_kept mask m (<[h := n']> m).
Proof.
  intros E x nx Hx Hb. destruct (decide (x = h)) as [->|Hne]; [|rewrite store_insert_ne in Hx by done; by exists nx].
  rewrite store_insert_eq in Hx. injection Hx as <-. congruence.
Qed.

(** ** Headers *)
Lemma RaiseValidity_bits n up n' b mask : RaiseValidity n up = Some (n', b) -> Z.land BLOCK_VALID_MASK mask = 0 -> has_bits (bi_nStatus n') mask = has_bits (bi_nStatus n) mask.
Proof.
  unfold RaiseValidity. destruct (has_bits up (Z.lnot BLOCK_VALID_MASK)) eqn:Eu; [done|]. intros E Hm. destruct (has_bits (bi_nStatus n) BLOCK_FAILED_MASK); [by injection E as <- _|].
  destruct (_ <? _); [|by injection E as <- _]. injection E as <- _. cbn [set_status bi_nStatus]. rewrite has_bits_lor.
  assert (has_bits up mask = false) as ->.
  { unfold has_bits in *. apply negb_false_iff, Z.eqb_eq in Eu. apply negb_false_iff, Z.eqb_eq. apply Z.bits_inj'. intros i Hi. rewrite Z.land_spec, Z.bits_0.
    pose proof (f_equal (fun z => Z.testbit z i) Eu) as E1. pose proof (f_equal (fun z => Z.testbit z i) Hm) as E2. cbn beta in E1, E2.
    rewrite Z.land_spec, Z.lnot_spec, Z.bits_0 in E1 by done. rewrite Z.land_spec, Z.bits_0 in E2. destruct (Z.testbit up i), (Z.testbit mask i), (Z.testbit BLOCK_VALID_MASK i); done. }
  rewrite orb_false_r. unfold has_bits. f_equal. f_equal. apply Z.bits_inj'. intros i Hi. pose proof (f_equal (fun z => Z.testbit z i) Hm) as E2. cbn beta in E2.
  rewrite !Z.land_spec, Z.lnot_spec by done. rewrite Z.land_spec, Z.bits_0 in E2. destruct (Z.testbit (bi_nStatus n) i), (Z.testbit mask i), (Z.testbit BLOCK_VALID_MASK i); done.
Qed.

Lemma link_new_status m hash block n : link_new m hash block = Some n -> bi_nStatus n = 0.
Proof.
  unfold link_new, BuildSkip. destruct (_ !! _) as [prev|]; [|by intros [= <-]]. cbn [set_link bi_pprev]. intros E. apply bind_Some in E as (s & _ & E). by injection E as <-.
Qed.

Lemma sum_new_status m n n' : sum_new m n = Some n' -> bi_nStatus n' = bi_nStatus n.
Proof.
  unfold sum_new. intros E. apply bind_Some in E as (pr & _ & E). destruct (bi_pprev n) as [p|]; [apply bind_Some in E as (np & _ & E)|]; by injection E as <-.
Qed.

Section headers.
Context (params : HeaderParams) (GetHash : CBlockHeader -> uint256) (HasConflictingChainLock : Z -> uint256 -> bool).

Lemma AddToBlockIndex_flags bm block st bm' h mask : AddToBlockIndex GetHash bm block st = Some (bm', h) -> Z.land BLOCK_VALID_MASK mask = 0 -> has_bits st mask = false ->
  flags_kept mask (m_block_index bm) (m_block_index bm') /\ h = GetHash block.
Proof.
  unfold AddToBlockIndex. destruct (has_bits st BLOCK_FAILED_MASK); [done|]. intros E Hm Hst. destruct (m_block_index bm !! GetHash block) as [old|] eqn:Eold.
  { injection E as <- <-. split; [apply flags_kept_refl|done]. }
  apply bind_Some in E as (n1 & E1 & E). apply bind_Some in E as (n2 & E2 & E). apply bind_Some in E as ([n3 best] & E3 & E). injection E as <- <-. split; [|done].
  cbn [put_entry m_block_index]. apply flags_kept_new. apply link_new_status in E1. apply sum_new_status in E2. rewrite E1 in E2.
  destruct (has_bits st BLOCK_VALID_MASK).
  - apply bind_Some in E3 as ([n4 b] & E4 & E3). apply bind_Some in E3 as (best' & _ & E3). injection E3 as <- _. rewrite (RaiseValidity_bits _ _ _ _ mask E4 Hm), E2. done.
  - apply bind_Some in E3 as ([n4 b] & E4 & E3). injection E3 as <- _. cbn [set_status bi_nStatus]. rewrite has_bits_lor, Hst, orb_false_r, (RaiseValidity_bits _ _ _ _ mask E4 Hm), E2. done.
Qed.

Lemma mark_failed_flags mask : has_bits BLOCK_FAILED_CHILD mask = false -> forall fuel bm x f bm', mark_failed fuel bm x f = Some bm' ->
  flags_kept mask (m_block_index bm) (m_block_index bm').
Proof.
  intros Hm. induction fuel as [|fuel IH]; intros bm x f bm'; cbn [mark_failed]; case_decide; intros E; try (injection E as <-; apply flags_kept_refl); [done|].
  apply bind_Some in E as (n & Hn & E). apply bind_Some in E as (p & _ & E). apply IH in E. cbn [m_block_index] in E. eapply flags_kept_trans; [|exact E].
  apply (flags_kept_insert mask _ x n _ Hn). cbn [set_status bi_nStatus]. by rewrite has_bits_lor, Hm, orb_false_r.
Qed.

(** No flag but the mark of a failed child, and the result is the header's hash. *)
Lemma AcceptBlockHeader_flags bm block pow now bm' r mask : AcceptBlockHeader params GetHash HasConflictingChainLock bm block pow now = Some (bm', r) ->
  Z.land BLOCK_VALID_MASK mask = 0 -> has_bits BLOCK_VALID_TREE mask = false -> has_bits BLOCK_CONFLICT_CHAINLOCK mask = false -> has_bits BLOCK_FAILED_CHILD mask = false ->
  flags_kept mask (m_block_index bm) (m_block_index bm') /\ forall h, r = inr h -> h = GetHash block.
Proof.
  intros E Hm H1 H2 H3. unfold AcceptBlockHeader in E.
  assert (forall st b2 h, AddToBlockIndex GetHash bm block st = Some (b2, h) -> has_bits st mask = false -> flags_kept mask (m_block_index bm) (m_block_index b2) /\ h = GetHash block) as Hadd
    by (intros st b2 h Ha Hs; exact (AddToBlockIndex_flags bm block st b2 h mask Ha Hm Hs)).
  assert (forall x, ('(bm, h) ← AddToBlockIndex GetHash bm block BLOCK_VALID_TREE; Some (bm, inr h : HeaderReject + uint256)) = Some x ->
    flags_kept mask (m_block_index bm) (m_block_index x.1) /\ forall h, x.2 = inr h -> h = GetHash block) as Hok.
  { intros x Hx. apply bind_Some in Hx as ([b2 h] & Ha & Hx). injection Hx as <-. destruct (Hadd _ _ _ Ha H1) as [Hf ->]. split; [exact Hf|]. cbn. by intros h [= <-]. }
  assert (forall b (rr : HeaderReject) x, flags_kept mask (m_block_index bm) (m_block_index b) -> Some (b, inl rr : HeaderReject + uint256) = Some x ->
    flags_kept mask (m_block_index bm) (m_block_index x.1) /\ forall h, x.2 = inr h -> h = GetHash block) as Hrej.
  { intros b rr x Hb [= <-]. split; [exact Hb|done]. }
  enough (flags_kept mask (m_block_index bm) (m_block_index (bm', r).1) /\ forall h, (bm', r).2 = inr h -> h = GetHash block) by done.
  destruct (_ =? _); [by apply Hok|]. destruct (m_block_index bm !! GetHash block) as [n|].
  { destruct (has_bits _ BLOCK_FAILED_MASK); [eapply Hrej; [apply flags_kept_refl|exact E]|]. destruct (has_bits _ BLOCK_CONFLICT_CHAINLOCK); [eapply Hrej; [apply flags_kept_refl|exact E]|].
    injection E as <- <-. split; [apply flags_kept_refl|]. cbn. by intros h [= <-]. }
  destruct (CheckBlockHeader _ _ _ _) as [rr|]; [eapply Hrej; [apply flags_kept_refl|exact E]|]. destruct (m_block_index bm !! _) as [prev|]; [|eapply Hrej; [apply flags_kept_refl|exact E]].
  destruct (has_bits _ BLOCK_FAILED_MASK); [eapply Hrej; [apply flags_kept_refl|exact E]|]. destruct (has_bits _ BLOCK_CONFLICT_CHAINLOCK); [eapply Hrej; [apply flags_kept_refl|exact E]|].
  apply bind_Some in E as (cr & _ & E). destruct cr as [rr|]; [eapply Hrej; [apply flags_kept_refl|exact E]|]. apply bind_Some in E as (v & _ & E). apply bind_Some in E as (f & _ & E).
  destruct f as [f|].
  - apply bind_Some in E as (b2 & Em & E). eapply Hrej; [|exact E]. by eapply mark_failed_flags.
  - destruct (HasConflictingChainLock _ _); [|by apply Hok]. apply bind_Some in E as ([b2 h] & Ha & E). eapply Hrej; [|exact E]. exact (proj1 (Hadd _ _ _ Ha H2)).
Qed.
End headers.

(** ** The arrival of the transactions *)
Section accept.
Context (params : BlockParams) (GetHash : CBlockHeader -> uint256) (HasConflictingChainLock : Z -> uint256 -> bool).
Context {S U : Type} `{!BlockStore S U} (addr : uint256 -> Z).
Notation CState := (CChainState (S := S) (U := U)).

(** The statuses are the same. *)
Definition same_status (m m' : BlockMap) : Prop := forall h, bi_nStatus <$> m !! h = bi_nStatus <$> m' !! h.

Lemma same_status_trans m1 m2 m3 : same_status m1 m2 -> same_status m2 m3 -> same_status m1 m3.
Proof. intros H1 H2 h. by rewrite H1. Qed.

Lemma same_status_insert (m : BlockMap) h n n' : m !! h = Some n -> bi_nStatus n' = bi_nStatus n -> same_status m (<[h := n']> m).
Proof.
  intros Hn E x. destruct (decide (x = h)) as [->|Hne]; [|by rewrite store_insert_ne]. rewrite store_insert_eq, Hn. exact (f_equal Some (eq_sym E)).
Qed.

Lemma same_status_flags mask m m' : same_status m m' -> flags_kept mask m m'.
Proof.
  intros H h n' Hn' Hb. specialize (H h). rewrite Hn' in H. destruct (m !! h) as [n|] eqn:Hn; [|discriminate H]. exists n. split; [done|].
  apply Some_inj in H. by rewrite H.
Qed.

Lemma link_block_status (st st' : CState) h : link_block addr st h = Some st' -> same_status (index_of st) (index_of st') /\ same_rest st st'.
Proof.
  unfold link_block. intros E. apply bind_Some in E as (n & Hn & E). apply bind_Some in E as (tx & _ & E). apply bind_Some in E as (w & _ & E).
  assert (same_status (index_of st) (<[h := set_counts n (bi_nTx n) (u32 (tx + bi_nTx n)) (nBlockSequenceId st)]> (index_of st))) as Hs by (by apply (same_status_insert _ h n)).
  destruct (_ && _) in E; injection E as <-; (split; [exact Hs|by split_and!]).
Qed.

Lemma link_queue_status fuel : forall (st st' : CState) q, link_queue addr fuel st q = Some st' -> same_status (index_of st) (index_of st') /\ same_rest st st'.
Proof.
  induction fuel as [|fuel IH]; intros st st' [|h q] E; cbn [link_queue] in E; try (injection E as <-; split; [done|by split_and!]); [done|].
  apply bind_Some in E as (st1 & E1 & E). apply link_block_status in E1 as [H1 (R1 & R2 & R3)]. apply IH in E as [H2 (Q1 & Q2 & Q3)].
  split; [eapply same_status_trans; [exact H1|exact H2]|]. unfold same_rest. cbn in Q1, Q2, Q3. by rewrite Q1, Q2, Q3.
Qed.

(** Only the entry of the block gets a flag, that it has data. *)
Lemma Received_flags (st st' : CState) pos nTx h mask : ReceivedBlockTransactions addr st pos nTx h = Some st' -> Z.land BLOCK_VALID_MASK mask = 0 ->
  same_rest st st' /\ forall x nx', index_of st' !! x = Some nx' -> has_bits (bi_nStatus nx') mask = true ->
    (exists nx, index_of st !! x = Some nx /\ has_bits (bi_nStatus nx) mask = true) \/ x = h /\ has_bits BLOCK_HAVE_DATA mask = true.
Proof.
  unfold ReceivedBlockTransactions. intros E Hm. apply bind_Some in E as (n & Hn & E). apply bind_Some in E as ([n' b] & Er & E).
  set (st1 := set_dirty (put_node st h n') h) in *.
  assert (same_status (index_of st1) (index_of st') /\ same_rest st1 st') as [Hs Hr].
  { destruct (bi_pprev n') as [p|]; [|by eapply link_queue_status]. apply bind_Some in E as (np & _ & E). destruct (negb _); [by eapply link_queue_status|].
    apply bind_Some in E as (v & _ & E). injection E as <-. destruct v; (split; [done|by split_and!]). }
  split; [exact Hr|]. intros x nx' Hx Hb. destruct (same_status_flags mask _ _ Hs x nx' Hx Hb) as (nx & Hnx & Hbx). change (index_of st1) with (<[h := n']> (index_of st)) in Hnx.
  destruct (decide (x = h)) as [->|Hne]; [|rewrite store_insert_ne in Hnx by done; left; by exists nx]. rewrite store_insert_eq in Hnx. injection Hnx as <-.
  rewrite (RaiseValidity_bits _ _ _ _ mask Er Hm), add_status_bits in Hbx. apply orb_true_iff in Hbx as [Hbx|Hbx]; [left|by right]. exists n. split; [done|].
  cbn [set_counts bi_nStatus] in Hbx. by destruct pos.
Qed.

(** An entry has a flag now that it did not have. *)
Definition gets_flag (mask : Z) (m m' : BlockMap) (h : uint256) : Prop :=
  exists n', m' !! h = Some n' /\ has_bits (bi_nStatus n') mask = true /\ forall n, m !! h = Some n -> has_bits (bi_nStatus n) mask = false.

Lemma kept_no_flag mask m m' h : flags_kept mask m m' -> ~ gets_flag mask m m' h.
Proof. intros Hk (n' & Hn' & Hb & Hno). destruct (Hk h n' Hn' Hb) as (n & Hn & Hb'). rewrite (Hno n Hn) in Hb'. done. Qed.

Lemma gets_flag_trans mask m1 m2 m3 h : flags_kept mask m1 m2 -> gets_flag mask m1 m3 h -> gets_flag mask m2 m3 h.
Proof.
  intros Hk (n' & Hn' & Hb & Hno). exists n'. split; [done|]. split; [done|]. intros n Hn. destruct (has_bits (bi_nStatus n) mask) eqn:E; [|done].
  destruct (Hk h n Hn E) as (n1 & Hn1 & E1). by rewrite (Hno n1 Hn1) in E1.
Qed.

Lemma same_rest_trans (st1 st2 st3 : CState) : same_rest st1 st2 -> same_rest st2 st3 -> same_rest st1 st3.
Proof. intros (A1 & A2 & A3) (B1 & B2 & B3). split_and!; congruence. Qed.

(** What AcceptBlock finds of a block whose header it accepts: the checks in the state
    [st], on the index with the header, after the predecessor of the entry. *)
Definition checked_as (st : CState) (block : CBlock) (now : Z) (h : uint256) (r : option BlockReject) : Prop :=
  exists bm n block' cr,
    AcceptBlockHeader (bk_header params) GetHash HasConflictingChainLock (cs_blockman st) (b_header block) (IsProofOfWork_block block) now = Some (bm, inr h) /\
    m_block_index bm !! h = Some n /\ CheckBlock params GetHash block true true = Some (block', cr) /\
    match cr with
    | Some r' => r = Some r'
    | None => ContextualCheckBlock params (m_block_index bm) block' (bi_pprev n) = Some r
    end.

Lemma stored_flags (st1 st' : CState) pindex n block mask : index_of st1 !! pindex = Some n -> Z.land BLOCK_VALID_MASK mask = 0 ->
  ReceivedBlockTransactions addr (if IsProofOfStake_block block then put_node st1 pindex (SetProofOfStake n) else st1) (IsProofOfStake_block block)
    (Z.of_nat (length (b_vtx block))) pindex = Some st' ->
  same_rest st1 st' /\ forall h, gets_flag mask (index_of st1) (index_of st') h -> h = pindex /\ has_bits BLOCK_HAVE_DATA mask = true.
Proof.
  intros Hn Hm E. destruct (Received_flags _ st' _ _ _ mask E Hm) as [Hr Hg]. set (st2 := if IsProofOfStake_block block then _ else _) in *.
  assert (flags_kept mask (index_of st1) (index_of st2)) as Hk by (subst st2; destruct (IsProofOfStake_block block); [by apply (flags_kept_insert mask _ pindex n)|apply flags_kept_refl]).
  assert (same_rest st1 st2) as Hr2 by (subst st2; destruct (IsProofOfStake_block block); by split_and!). split; [by eapply same_rest_trans|].
  intros h Hh. destruct (gets_flag_trans mask _ _ _ h Hk Hh) as (n' & Hn' & Hb & Hno). destruct (Hg h n' Hn' Hb) as [(n2 & Hn2 & Hb2)|H]; [|done]. by rewrite (Hno n2 Hn2) in Hb2.
Qed.

Lemma CheckBlock_header block block' r : CheckBlock params GetHash block true true = Some (block', r) ->
  b_header block' = b_header block /\ b_vtx block' = b_vtx block.
Proof.
  unfold CheckBlock. destruct (b_fChecked block); [by intros [= <- <-]|]. destruct (CheckBlockHeader _ _ _ _); [by intros [= <- <-]|]. intros E. apply bind_Some in E as (m & _ & E).
  destruct (match m with Some r => Some r | None => check_transactions params block end); by injection E as <- <-.
Qed.

(** C16: only blocks that pass are stored, and only blocks that fail are marked.
    AcceptBlock leaves the active chain, its store and the undo data alone.  An
    entry that gets data is that of the block, which was written to disk, whose
    header was accepted, and which passed CheckBlock and, on the index of the node
    with that header and after the predecessor the entry has there,
    ContextualCheckBlock.  An entry that gets marked as failed is that of the block,
    for which these checks gave a reason that counts as invalid, which a wrong Merkle
    root and duplicated transactions are not. *)
Theorem AcceptBlock_sound (st st' : CState) block fRequested now saved res :
  AcceptBlock params GetHash HasConflictingChainLock addr st block fRequested now saved = Some (st', res) ->
  same_rest st st' /\
  (forall h, gets_flag BLOCK_HAVE_DATA (index_of st) (index_of st') h ->
     h = GetHash (b_header block) /\ res = Accepted true /\ saved = true /\ checked_as st block now h None) /\
  (forall h, gets_flag BLOCK_FAILED_VALID (index_of st) (index_of st') h ->
     h = GetHash (b_header block) /\ exists r, res = BlockRejected r /\ checked_as st block now h (Some r) /\
       reject_reason r = Some OTHER_REASON /\ r <> bad_txnmrklroot /\ r <> bad_txns_duplicate).
Proof.
  intros E. unfold AcceptBlock in E. apply bind_Some in E as ([bm r] & Eh & E).
  destruct (AcceptBlockHeader_flags (bk_header params) GetHash HasConflictingChainLock _ _ _ _ _ _ BLOCK_HAVE_DATA Eh) as [Hd Hr]; [done..|].
  destruct (AcceptBlockHeader_flags (bk_header params) GetHash HasConflictingChainLock _ _ _ _ _ _ BLOCK_FAILED_VALID Eh) as [Hv _]; [done..|].
  set (st1 := {| cs_blockman := bm |}) in *. change (m_block_index bm) with (index_of st1) in Hd, Hv. assert (same_rest st st1) as Hrest by (by split_and!).
  assert (forall res', Some (st1, res') = Some (st', res) -> same_rest st st' /\ (forall h, ~ gets_flag BLOCK_HAVE_DATA (index_of st) (index_of st') h) /\
    (forall h, ~ gets_flag BLOCK_FAILED_VALID (index_of st) (index_of st') h)) as Hsame by (intros res' [= <- <-]; split; [exact Hrest|split; intros h; by apply kept_no_flag]).
  assert (forall res', Some (st1, res') = Some (st', res) -> same_rest st st' /\
    (forall h, gets_flag BLOCK_HAVE_DATA (index_of st) (index_of st') h -> h = GetHash (b_header block) /\ res = Accepted true /\ saved = true /\ checked_as st block now h None) /\
    (forall h, gets_flag BLOCK_FAILED_VALID (index_of st) (index_of st') h -> h = GetHash (b_header block) /\ exists r, res = BlockRejected r /\
       checked_as st block now h (Some r) /\ reject_reason r = Some OTHER_REASON /\ r <> bad_txnmrklroot /\ r <> bad_txns_duplicate)) as Hnone.
  { intros res' Er. destruct (Hsame res' Er) as (H1 & H2 & H3). split; [done|]. split; intros h Hh; [by destruct (H2 h)|by destruct (H3 h)]. }
  destruct r as [r|pindex]; [by eapply Hnone|]. pose proof (Hr pindex eq_refl) as ->. apply bind_Some in E as (n & Hn & E). apply bind_Some in E as (skip & _ & E).
  destruct skip; [by eapply Hnone|]. apply bind_Some in E as ([block' cr] & Ec & E). apply bind_Some in E as (r & Ex & E). destruct r as [r|].
  - injection E as <- <-. case_bool_decide as Eo; [|by apply (Hnone (BlockRejected r))]. split; [by split_and!|]. split; intros h Hh.
    + exfalso. revert Hh. apply kept_no_flag. eapply flags_kept_trans; [exact Hd|]. apply (flags_kept_insert _ _ _ n _ Hn). by apply add_status_keeps.
    + apply (gets_flag_trans _ _ _ _ h Hv) in Hh as (n' & Hn' & Hb & Hno). assert (h = GetHash (b_header block)) as ->; cycle 1.
      { split; [done|]. exists r. split; [done|]. split; [|split; [done|split; by intros ->]]. exists bm, n, block', cr. split; [exact Eh|]. split; [exact Hn|].
        split; [done|]. by destruct cr; [injection Ex as <-|]. }
      destruct (decide (h = GetHash (b_header block))) as [|Hne]; [done|]. exfalso. change (<[GetHash (b_header block) := add_status n BLOCK_FAILED_VALID]> (index_of st1) !! h = Some n') in Hn'.
      rewrite store_insert_ne in Hn' by done. by rewrite (Hno n' Hn') in Hb.
  - destruct saved; cbn [negb] in E; [|by eapply Hnone]. apply bind_Some in E as (st2 & E2 & E). injection E as <- <-.
    destruct (stored_flags st1 st2 _ n block' BLOCK_HAVE_DATA Hn eq_refl E2) as [Hr2 Hg]. destruct (stored_flags st1 st2 _ n block' BLOCK_FAILED_VALID Hn eq_refl E2) as [_ Hg2].
    split; [by eapply same_rest_trans|]. split; intros h Hh.
    + destruct (Hg h (gets_flag_trans _ _ _ _ h Hd Hh)) as [-> _]. split; [done|]. split; [done|]. split; [done|]. destruct cr as [cr|]; [done|]. by exists bm, n, block', None.
    + by destruct (Hg2 h (gets_flag_trans _ _ _ _ h Hv Hh)) as [_ ?].
Qed.
End accept.
