(* ===== verification/Compress.v ===== *)
(** * Coins and undo data as they are stored
    (VarInt of src/src/serialize.h, src/src/compressor.h, src/src/compressor.cpp, the
    serialization of Coin of src/src/coins.h, src/src/undo.h)

    Integers of variable length, amounts and scripts in compressed form, and the codecs
    of a coin and of the undo data of a block.  Whether a key of 65 bytes is a point of
    the curve, and the recovery of a point from one coordinate and a sign, are
    parameters.  An exception while reading is [None]. *)

From S2P Require Import Prelude Serialize Params BetTx BetKeys Transaction Coins TokenGroups AddressIndex TxVerify.

(** ** Integers of variable length *)
(** The array tmp of WriteVarInt, first byte first; it has (8 * sizeof(n) + 6) / 7 places. *)
Fixpoint varint_tmp (places : nat) (n : Z) (len : nat) : list Z :=
  match places with
  | O => []
  | S places =>
      let byte := Z.lor (Z.land n 0x7f) (if (len =? 0)%nat then 0 else 0x80) in
      if n <=? 0x7f then [byte] else byte :: varint_tmp places (Z.shiftr n 7 - 1) (len + 1)
  end.

Definition WriteVarInt (bits : Z) (n : Z) : list Z := reverse (varint_tmp (Z.to_nat ((bits + 6) / 7)) n 0).

Fixpoint varint_loop (max : Z) (s : list Z) (n : Z) : option (Z * list Z) :=
  match s with
  | [] => None
  | chData :: s =>
      if Z.shiftr max 7 <? n then None
      else
        let n := Z.lor (Z.shiftl n 7) (Z.land chData 0x7f) in
        if negb (Z.land chData 0x80 =? 0) then if n =? max then None else varint_loop max s (n + 1)
        else Some (n, s)
  end.

Definition ReadVarInt (bits : Z) (s : list Z) : option (Z * list Z) := varint_loop (2 ^ bits - 1) s 0.

(** The digits before the last: all of them have their flag. *)
Lemma varint_tmp_S places n len : (varint_tmp (S places) n len) =
  Z.lor (Z.land n 0x7f) (if (len =? 0)%nat then 0 else 0x80) :: (if n <=? 0x7f then [] else varint_tmp places (Z.shiftr n 7 - 1) (len + 1)).
Proof. cbn. by destruct (n <=? 0x7f). Qed.

Lemma low_digit n : 0 <= n -> Z.land n 0x7f = n `mod` 128.
Proof. intros. change 0x7f with (Z.ones 7). by rewrite Z.land_ones. Qed.

Lemma digit_flag d : 0 <= d < 128 -> Z.land (Z.lor d 0x80) 0x7f = d /\ Z.land (Z.lor d 0x80) 0x80 = 0x80 /\ Z.land d 0x80 = 0 /\ Z.land d 0x7f = d.
Proof.
  intros Hd. assert (Forall (fun d => Z.land (Z.lor d 0x80) 0x7f = d /\ Z.land (Z.lor d 0x80) 0x80 = 0x80 /\ Z.land d 0x80 = 0 /\ Z.land d 0x7f = d) (Z.of_nat <$> seq 0 128)) as HF.
  { repeat constructor. }
  rewrite Forall_forall in HF. apply HF. apply list_elem_of_fmap. exists (Z.to_nat d). split; [lia|]. apply elem_of_seq. lia.
Qed.

Lemma shift_digit n d : 0 <= n -> 0 <= d < 128 -> Z.lor (Z.shiftl n 7) d = 128 * n + d.
Proof.
  intros Hn Hd. rewrite Z.shiftl_mul_pow2 by lia. rewrite <-Z.add_nocarry_lor; [change (2 ^ 7) with 128; lia|].
  rewrite <-(Z.mod_small d (2 ^ 7)) by (cbn; lia). rewrite <-Z.land_ones by lia. rewrite (Z.land_comm d), Z.land_assoc, (Z.land_comm (n * 2 ^ 7)).
  rewrite <-(Z.shiftl_mul_pow2 n 7) by lia. rewrite (Z.land_comm _ (n ≪ 7)), Z.land_ones, Z.shiftl_mul_pow2 by lia.
  by rewrite Z.mod_mul.
Qed.

(** The places are enough. *)
Fixpoint varint_fits (places : nat) (n : Z) : Prop :=
  match places with O => False | S places => n <= 0x7f \/ varint_fits places (Z.shiftr n 7 - 1) end.

Lemma varint_fits_pow places n : 0 <= n < 2 ^ (7 * Z.of_nat places) -> (0 < places)%nat -> varint_fits places n.
Proof.
  revert n. induction places as [|places IH]; intros n Hn Hp; [lia|]. cbn [varint_fits].
  destruct (Z.leb_spec n 0x7f) as [|Hbig]; [by left|right]. rewrite Z.shiftr_div_pow2 by lia. change (2 ^ 7) with 128.
  assert (Hpow : 2 ^ (7 * Z.of_nat (S places)) = 128 * 2 ^ (7 * Z.of_nat places)) by (rewrite Nat2Z.inj_succ, Z.mul_succ_r, Z.pow_add_r by lia; change (2 ^ 7) with 128; lia).
  assert (1 <= n / 128) by (apply Z.div_le_lower_bound; lia).
  assert (n / 128 < 2 ^ (7 * Z.of_nat places)) by (apply Z.div_lt_upper_bound; lia).
  apply IH; [lia|]. destruct places; [cbn in *; lia|lia].
Qed.

(** Reading the flagged digits of [m] leads to [m + 1]. *)
Lemma varint_loop_prefix max places m len rest :
  0 <= m < max -> varint_fits places m -> (0 < len)%nat -> 127 <= max ->
  varint_loop max (reverse (varint_tmp places m len) ++ rest) 0 = varint_loop max rest (m + 1).
Proof.
  revert m len rest. induction places as [|places IH]; intros m len rest Hm Hf Hl Hmax; [done|]. rewrite varint_tmp_S, reverse_cons, <-app_assoc. cbn [app].
  assert (Hd : 0 <= m `mod` 128 < 128) by (apply Z.mod_pos_bound; lia). pose proof (Z.div_mod m 128 ltac:(lia)) as Hdm.
  rewrite low_digit by lia. replace (len =? 0)%nat with false by (symmetry; apply Nat.eqb_neq; lia).
  destruct (digit_flag _ Hd) as (F1 & F2 & _ & _).
  assert (Hlast : forall n, n = m / 128 -> varint_loop max (Z.lor (m `mod` 128) 128 :: rest) n = varint_loop max rest (m + 1)).
  { intros n ->. cbn [varint_loop]. rewrite F1, F2. cbn [negb Z.eqb]. rewrite shift_digit by (try apply Z.div_pos; lia).
    rewrite Z.shiftr_div_pow2 by lia. change (2 ^ 7) with 128. destruct (Z.ltb_spec (max / 128) (m / 128)) as [Hlt|_].
    { exfalso. pose proof (Z.div_le_mono m max 128 ltac:(lia) ltac:(lia)). lia. }
    rewrite <-Hdm. destruct (Z.eqb_spec m max); [lia|done]. }
  destruct (Z.leb_spec m 0x7f) as [Hs|Hb].
  - cbn [reverse app]. apply Hlast. symmetry. apply Z.div_small. lia.
  - destruct Hf as [?|Hf]; [lia|]. rewrite Z.shiftr_div_pow2 in * by lia. change (2 ^ 7) with 128 in *.
    assert (1 <= m / 128) by (apply Z.div_le_lower_bound; lia). assert (m / 128 <= m) by (apply Z.div_le_upper_bound; lia).
    rewrite IH; [apply Hlast; lia|lia|done|lia|done].
Qed.

Lemma ReadVarInt_WriteVarInt bits n rest : 7 <= bits -> inU bits n -> ReadVarInt bits (WriteVarInt bits n ++ rest) = Some (n, rest).
Proof.
  intros Hb Hn. unfold inU in Hn. unfold ReadVarInt, WriteVarInt. assert (Hp : 0 <= (bits + 6) / 7) by (apply Z.div_pos; lia).
  assert (1 <= (bits + 6) / 7) by (apply Z.div_le_lower_bound; lia).
  assert (Hfit : varint_fits (Z.to_nat ((bits + 6) / 7)) n).
  { apply varint_fits_pow; [|lia]. split; [lia|]. eapply Z.lt_le_trans; [apply Hn|]. apply Z.pow_le_mono_r; [lia|].
    pose proof (Z.div_mod (bits + 6) 7). pose proof (Z.mod_pos_bound (bits + 6) 7). lia. }
  destruct (Z.to_nat ((bits + 6) / 7)) as [|places]; [done|]. rewrite varint_tmp_S, reverse_cons, <-app_assoc. cbn [app Nat.eqb].
  assert (2 ^ 7 <= 2 ^ bits) as H7 by (apply Z.pow_le_mono_r; lia). change (2 ^ 7) with 128 in H7.
  rewrite low_digit, Z.lor_0_r by lia. assert (Hd : 0 <= n `mod` 128 < 128) by (apply Z.mod_pos_bound; lia). pose proof (Z.div_mod n 128 ltac:(lia)) as Hdm.
  destruct (digit_flag _ Hd) as (_ & _ & F3 & F4).
  assert (Hlast : varint_loop (2 ^ bits - 1) (n `mod` 128 :: rest) (n / 128) = Some (n, rest)).
  { cbn [varint_loop]. rewrite F3, F4. cbn [negb Z.eqb]. rewrite shift_digit by (try apply Z.div_pos; lia). rewrite <-Hdm.
    rewrite Z.shiftr_div_pow2 by lia. change (2 ^ 7) with 128. destruct (Z.ltb_spec ((2 ^ bits - 1) / 128) (n / 128)) as [Hlt|_]; [|done].
    exfalso. pose proof (Z.div_le_mono n (2 ^ bits - 1) 128 ltac:(lia) ltac:(lia)). lia. }
  destruct (Z.leb_spec n 0x7f) as [Hs|Hbig].
  - cbn [reverse app]. rewrite <-Hlast. f_equal. symmetry. apply Z.div_small. lia.
  - destruct Hfit as [?|Hfit]; [lia|]. rewrite Z.shiftr_div_pow2 in * by lia. change (2 ^ 7) with 128 in *.
    assert (1 <= n / 128) by (apply Z.div_le_lower_bound; lia). assert (n / 128 <= n) by (apply Z.div_le_upper_bound; lia).
    rewrite varint_loop_prefix; [|lia|done|lia|lia]. by replace (n / 128 - 1 + 1) with (n / 128) by lia.
Qed.

(** ** Amounts *)
(** The loop that takes off zeros: the rest and the exponent. *)
Fixpoint strip_zeros (fuel : nat) (n : Z) (e : Z) : Z * Z :=
  match fuel with
  | O => (n, e)
  | S fuel => if (n `mod` 10 =? 0) && (e <? 9) then strip_zeros fuel (n / 10) (e + 1) else (n, e)
  end.

Definition CompressAmount (n : Z) : Z :=
  if n =? 0 then 0
  else
    let '(n, e) := strip_zeros 9 n 0 in
    if e <? 9 then let d := n `mod` 10 in let n := n / 10 in u64 (1 + (n * 9 + d - 1) * 10 + e)
    else u64 (1 + (n - 1) * 10 + 9).

Fixpoint times_ten (e : nat) (n : Z) : Z := match e with O => n | S e => times_ten e (u64 (n * 10)) end.

Definition DecompressAmount (x : Z) : Z :=
  if x =? 0 then 0
  else
    let x := x - 1 in
    let e := x `mod` 10 in
    let x := x / 10 in
    let n := if e <? 9 then let d := x `mod` 9 + 1 in let x := x / 9 in u64 (x * 10 + d) else u64 (x + 1) in
    times_ten (Z.to_nat e) n.

Lemma strip_zeros_spec fuel n e n' e' : 0 < n -> 0 <= e <= 9 -> 9 - e <= Z.of_nat fuel -> strip_zeros fuel n e = (n', e') ->
  0 < n' /\ e <= e' <= 9 /\ n = n' * 10 ^ (e' - e) /\ (e' < 9 -> n' `mod` 10 <> 0).
Proof.
  revert n e. induction fuel as [|fuel IH]; intros n e Hn He Hf; cbn [strip_zeros].
  { intros [= <- <-]. split_and!; try lia. rewrite Z.sub_diag. lia. }
  destruct (Z.eqb_spec (n `mod` 10) 0) as [Hz|Hz], (Z.ltb_spec e 9) as [Hlt|Hge]; cbn [andb].
  2-4: intros [= <- <-]; split_and!; try lia; rewrite Z.sub_diag; lia.
  pose proof (Z.div_mod n 10 ltac:(lia)) as Hd. assert (0 < n / 10) by lia.
  intros (H1 & H2 & H3 & H4)%IH; [|lia..]. split_and!; [done|lia|lia| |done].
  replace (e' - e) with (Z.succ (e' - (e + 1))) by lia. rewrite Z.pow_succ_r by lia. lia.
Qed.

Lemma times_ten_spec e n : 0 <= n -> n * 10 ^ Z.of_nat e < 2 ^ 64 -> times_ten e n = n * 10 ^ Z.of_nat e.
Proof.
  revert n. induction e as [|e IH]; intros n Hn Hlt; cbn [times_ten]; [lia|]. rewrite Nat2Z.inj_succ, Z.pow_succ_r in * by lia.
  assert (1 <= 10 ^ Z.of_nat e) by (apply (Z.pow_le_mono_r 10 0); lia).
  rewrite wrapU_small by (unfold inU; nia). rewrite IH by nia. lia.
Qed.

(** Every amount of money comes back. *)
Lemma Decompress_Compress n : 0 <= n <= MAX_MONEY -> inU 64 (CompressAmount n) /\ DecompressAmount (CompressAmount n) = n.
Proof.
  intros Hn. assert (HM : MAX_MONEY < 2 ^ 56) by (vm_compute; reflexivity). unfold CompressAmount.
  destruct (Z.eqb_spec n 0) as [->|Hne]; [split; [unfold inU; lia|done]|].
  destruct (strip_zeros 9 n 0) as [n' e] eqn:Es. apply strip_zeros_spec in Es as (H1 & H2 & H3 & H4); [|lia..]. rewrite Z.sub_0_r in H3.
  assert (1 <= 10 ^ e) by (apply (Z.pow_le_mono_r 10 0); lia). assert (n' <= n) by nia.
  pose proof (Z.div_mod n' 10 ltac:(lia)) as Hd. pose proof (Z.mod_pos_bound n' 10 ltac:(lia)) as Hm.
  destruct (Z.ltb_spec e 9) as [He|He].
  - specialize (H4 He). rewrite wrapU_small by (unfold inU; lia). split; [unfold inU; lia|]. unfold DecompressAmount.
    set (y := n' / 10 * 9 + n' `mod` 10 - 1) in *. assert (Hy : 0 <= y) by (unfold y; lia).
    destruct (Z.eqb_spec (1 + y * 10 + e) 0); [lia|]. replace (1 + y * 10 + e - 1) with (e + y * 10) by lia.
    rewrite Z.mod_add, Z.div_add by lia. rewrite (Z.mod_small e 10), (Z.div_small e 10), Z.add_0_l by lia.
    destruct (Z.ltb_spec e 9); [|lia]. replace y with (n' `mod` 10 - 1 + n' / 10 * 9) by (unfold y; lia).
    rewrite Z.mod_add, Z.div_add by lia. rewrite (Z.mod_small (n' `mod` 10 - 1) 9), (Z.div_small (n' `mod` 10 - 1) 9) by lia. rewrite wrapU_small by (unfold inU; lia).
    replace ((0 + n' / 10) * 10 + (n' `mod` 10 - 1 + 1)) with n' by lia.
    rewrite times_ten_spec by (rewrite ?Z2Nat.id by lia; lia). rewrite Z2Nat.id by lia. done.
  - assert (e = 9) as -> by lia. rewrite wrapU_small by (unfold inU; lia). split; [unfold inU; lia|]. unfold DecompressAmount.
    destruct (Z.eqb_spec (1 + (n' - 1) * 10 + 9) 0); [lia|]. replace (1 + (n' - 1) * 10 + 9 - 1) with (9 + (n' - 1) * 10) by lia.
    rewrite Z.mod_add, Z.div_add by lia. change (9 `mod` 10) with 9. change (9 / 10) with 0. cbn [Z.ltb Z.compare Pos.compare Pos.compare_cont].
    rewrite wrapU_small by (unfold inU; lia). rewrite times_ten_spec; change (Z.of_nat (Z.to_nat 9)) with 9; lia.
Qed.

(** ** Scripts *)
Section compressor.
Context (IsFullyValid : list Z -> bool) (Decompress : list Z -> option (list Z)).

Definition IsToKeyID (script : list Z) : option (list Z) :=
  if (script_size script =? 25) && (byte_at script 0 =? OP_DUP) && (byte_at script 1 =? OP_HASH160) && (byte_at script 2 =? 20) &&
     (byte_at script 23 =? OP_EQUALVERIFY) && (byte_at script 24 =? OP_CHECKSIG)
  then Some (take 20 (drop 3 script)) else None.

Definition IsToScriptID (script : list Z) : option (list Z) :=
  if (script_size script =? 23) && (byte_at script 0 =? OP_HASH160) && (byte_at script 1 =? 20) && (byte_at script 22 =? OP_EQUAL)
  then Some (take 20 (drop 2 script)) else None.

Definition IsToPubKey (script : list Z) : option (list Z) :=
  if (script_size script =? 35) && (byte_at script 0 =? 33) && (byte_at script 34 =? OP_CHECKSIG) &&
     ((byte_at script 1 =? 0x02) || (byte_at script 1 =? 0x03))
  then Some (take 33 (drop 1 script))
  else if (script_size script =? 67) && (byte_at script 0 =? 65) && (byte_at script 66 =? OP_CHECKSIG) && (byte_at script 1 =? 0x04)
  then let pubkey := take 65 (drop 1 script) in if IsFullyValid pubkey then Some pubkey else None
  else None.

Definition CompressScript (script : list Z) : option (list Z) :=
  match IsToKeyID script with
  | Some keyID => Some (0x00 :: keyID)
  | None =>
      match IsToScriptID script with
      | Some scriptID => Some (0x01 :: scriptID)
      | None =>
          match IsToPubKey script with
          | Some pubkey =>
              let first := byte_at pubkey 0 in
              if (first =? 0x02) || (first =? 0x03) then Some (first :: take 32 (drop 1 pubkey))
              else if first =? 0x04 then Some (Z.lor 0x04 (Z.land (byte_at pubkey 64) 0x01) :: take 32 (drop 1 pubkey))
              else None
          | None => None
          end
      end
  end.

Definition nSpecialScripts : Z := 6.
Definition GetSpecialScriptSize (nSize : Z) : nat :=
  if (nSize =? 0) || (nSize =? 1) then 20 else if (nSize =? 2) || (nSize =? 3) || (nSize =? 4) || (nSize =? 5) then 32 else 0.

(** [None] where the code returns false; the assertion on the size holds of a decompressed key. *)
Definition DecompressScript (nSize : Z) (data : list Z) : option (list Z) :=
  if nSize =? 0x00 then Some ([OP_DUP; OP_HASH160; 20] ++ take 20 data ++ [OP_EQUALVERIFY; OP_CHECKSIG])
  else if nSize =? 0x01 then Some ([OP_HASH160; 20] ++ take 20 data ++ [OP_EQUAL])
  else if (nSize =? 0x02) || (nSize =? 0x03) then Some ([33; nSize] ++ take 32 data ++ [OP_CHECKSIG])
  else if (nSize =? 0x04) || (nSize =? 0x05) then
    pubkey ← Decompress ((nSize - 2) :: take 32 data);
    Some ([65] ++ take 65 pubkey ++ [OP_CHECKSIG])
  else None.

Definition ScriptCompression_Ser (script : list Z) : list Z :=
  match CompressScript script with
  | Some compr => compr
  | None => WriteVarInt 32 (u32 (script_size script + nSpecialScripts)) ++ script
  end.

(** The result of DecompressScript is not looked at: a script that fails stays empty. *)
Definition ScriptCompression_Unser (s : list Z) : option (list Z * list Z) :=
  '(nSize, s) ← ReadVarInt 32 s;
  if nSize <? nSpecialScripts then '(vch, s) ← read_bytes (GetSpecialScriptSize nSize) s; Some (default [] (DecompressScript nSize vch), s)
  else
    let nSize := nSize - nSpecialScripts in
    if MAX_SCRIPT_SIZE <? nSize then '(_, s) ← read_bytes (Z.to_nat nSize) s; Some ([OP_RETURN], s)
    else read_bytes (Z.to_nat nSize) s.

(** Recovering a point that is on the curve gives it back. *)
Context (Hcurve : forall key, length key = 65%nat -> byte_at key 0 = 0x04 -> IsFullyValid key = true ->
  Decompress ((2 + Z.land (byte_at key 64) 1) :: take 32 (drop 1 key)) = Some key).

Tactic Notation "elements" ident(script) integer(n) := do n (destruct script as [|? script]; [discriminate|]); destruct script; [|discriminate].
Ltac split_tests := repeat match goal with H : _ && _ = true |- _ => apply andb_true_iff in H as [H ?] | H : (_ =? _) = true |- _ => apply Z.eqb_eq in H end.

Lemma IsToKeyID_spec script h : IsToKeyID script = Some h -> script = [OP_DUP; OP_HASH160; 20] ++ h ++ [OP_EQUALVERIFY; OP_CHECKSIG] /\ length h = 20%nat.
Proof.
  unfold IsToKeyID. destruct (_ && _) eqn:E; [|done]. intros [= <-]. split_tests. unfold script_size in *.
  assert (length script = 25%nat) as Hl by lia. elements script 25. cbv [byte_at from_option id lookup list_lookup Z.to_nat Pos.to_nat Pos.iter_op Nat.add] in *. cbn in *. subst. done.
Qed.

Lemma IsToScriptID_spec script h : IsToScriptID script = Some h -> script = [OP_HASH160; 20] ++ h ++ [OP_EQUAL] /\ length h = 20%nat.
Proof.
  unfold IsToScriptID. destruct (_ && _) eqn:E; [|done]. intros [= <-]. split_tests. unfold script_size in *.
  assert (length script = 23%nat) as Hl by lia. elements script 23. cbv [byte_at from_option id lookup list_lookup Z.to_nat Pos.to_nat Pos.iter_op Nat.add] in *. cbn in *. subst. done.
Qed.

Lemma IsToPubKey_spec script key : IsToPubKey script = Some key ->
  script = Z.of_nat (length key) :: key ++ [OP_CHECKSIG] /\
  (length key = 33%nat /\ (byte_at key 0 = 2 \/ byte_at key 0 = 3) \/ length key = 65%nat /\ byte_at key 0 = 4 /\ IsFullyValid key = true).
Proof.
  unfold IsToPubKey. destruct (_ && _) eqn:E.
  { intros [= <-]. split_tests. unfold script_size in *. assert (length script = 35%nat) as Hl by lia. elements script 35. cbv [byte_at from_option id lookup list_lookup Z.to_nat Pos.to_nat Pos.iter_op Nat.add] in *. cbn in *. subst.
    split; [done|]. left. split; [done|]. rewrite !orb_true_iff, !Z.eqb_eq in *. done. }
  clear E. destruct (_ && _) eqn:E; [|done]. destruct (IsFullyValid _) eqn:Ev; [|done]. intros [= <-]. split_tests. unfold script_size in *.
  assert (length script = 67%nat) as Hl by lia. elements script 67. cbv [byte_at from_option id lookup list_lookup Z.to_nat Pos.to_nat Pos.iter_op Nat.add] in *. cbn in *. subst. split; [done|]. by right.
Qed.

Definition scriptc : codec (list Z) :=
  Codec ScriptCompression_Ser ScriptCompression_Unser (fun script => Forall byte script /\ script_size script <= MAX_SCRIPT_SIZE).

Lemma WriteVarInt_small bits b : 1 <= bits -> 0 <= b < 128 -> WriteVarInt bits b = [b].
Proof.
  intros Hbits Hb. unfold WriteVarInt. assert (1 <= (bits + 6) / 7) by (apply Z.div_le_lower_bound; lia).
  destruct (Z.to_nat ((bits + 6) / 7)) eqn:E; [lia|]. cbn [varint_tmp Nat.eqb]. destruct (Z.leb_spec b 0x7f); [|lia].
  rewrite low_digit, Z.lor_0_r, Z.mod_small by lia. done.
Qed.

Lemma ReadVarInt_small bits b rest : 7 <= bits -> 0 <= b < 128 -> ReadVarInt bits (b :: rest) = Some (b, rest).
Proof.
  intros Hbits Hb. change (b :: rest) with ([b] ++ rest). rewrite <-(WriteVarInt_small bits b) by lia. apply ReadVarInt_WriteVarInt; [done|].
  split; [lia|]. assert (2 ^ 7 <= 2 ^ bits) by (apply Z.pow_le_mono_r; lia). change (2 ^ 7) with 128 in *. lia.
Qed.

Lemma varint_tmp_byte places n len : 0 <= n -> Forall byte (varint_tmp places n len).
Proof.
  revert n len. induction places as [|places IH]; intros n len Hn; [constructor|]. rewrite varint_tmp_S.
  assert (Hd : 0 <= n `mod` 128 < 128) by (apply Z.mod_pos_bound; lia).
  constructor.
  - rewrite low_digit by lia. unfold byte, inU. destruct (len =? 0)%nat; [rewrite Z.lor_0_r; lia|].
    replace (Z.lor (n `mod` 128) 128) with (n `mod` 128 + 128); [lia|]. apply Z.add_nocarry_lor. apply (digit_flag _ Hd).
  - destruct (Z.leb_spec n 0x7f); [constructor|]. apply IH. rewrite Z.shiftr_div_pow2 by lia. change (2 ^ 7) with 128.
    assert (1 <= n / 128) by (apply Z.div_le_lower_bound; lia). lia.
Qed.

Lemma last_bit x : Z.land x 1 = 0 \/ Z.land x 1 = 1.
Proof. assert (Z.land x 1 = x `mod` 2) as -> by (apply (Z.land_ones x 1); lia). pose proof (Z.mod_pos_bound x 2 ltac:(lia)). lia. Qed.

(** What a compressed script starts with, and that it is undone. *)
Lemma CompressScript_spec script compr : CompressScript script = Some compr ->
  exists nSize data, compr = nSize :: data /\ 0 <= nSize < nSpecialScripts /\ length data = GetSpecialScriptSize nSize /\
    DecompressScript nSize data = Some script /\ (Forall byte script -> Forall byte data).
Proof using Hcurve.
  unfold CompressScript. destruct (IsToKeyID script) as [h|] eqn:E1.
  { apply IsToKeyID_spec in E1 as [-> Hl]. intros [= <-]. exists 0, h. split_and!; [done|unfold nSpecialScripts; lia..|done| |].
    - unfold DecompressScript. cbn [Z.eqb]. by rewrite take_ge by lia.
    - rewrite !Forall_app. tauto. }
  destruct (IsToScriptID script) as [h|] eqn:E2.
  { apply IsToScriptID_spec in E2 as [-> Hl]. intros [= <-]. exists 1, h. split_and!; [done|unfold nSpecialScripts; lia..|done| |].
    - unfold DecompressScript. cbn [Z.eqb]. by rewrite take_ge by lia.
    - rewrite !Forall_app. tauto. }
  destruct (IsToPubKey script) as [key|] eqn:E3; [|done]. apply IsToPubKey_spec in E3 as [-> Hkey].
  assert (Hb : Forall byte (Z.of_nat (length key) :: key ++ [OP_CHECKSIG]) -> Forall byte (take 32 (drop 1 key))).
  { intros H. inversion_clear H as [|? ? _ H']. apply Forall_app in H' as [H' _]. by apply Forall_take, Forall_drop. }
  assert (Hd : length key = 33%nat \/ length key = 65%nat -> length (take 32 (drop 1 key)) = 32%nat) by (intros H; rewrite length_take, length_drop; lia).
  destruct Hkey as [[Hl Hf]|(Hl & Hf & Hv)].
  - assert (((byte_at key 0 =? 2) || (byte_at key 0 =? 3)) = true) as -> by (destruct Hf as [->| ->]; done). intros [= <-].
    exists (byte_at key 0), (take 32 (drop 1 key)). split_and!; [done|unfold nSpecialScripts; lia..| | |done].
    + rewrite Hd by lia. by destruct Hf as [->| ->].
    + assert (key = byte_at key 0 :: take 32 (drop 1 key)) as Ek.
      { destruct key as [|b key]; [done|]. cbn in Hl. cbn [drop]. rewrite (take_ge key) by lia. done. }
      unfold DecompressScript. assert (Hd32 : length (take 32 (drop 1 key)) = 32%nat) by (apply Hd; by left); rewrite (take_ge (take 32 (drop 1 key)) 32) by (rewrite Hd32; lia). destruct Hf as [Hf|Hf]; rewrite Hf in *; cbn [Z.eqb Pos.eqb orb]; rewrite Hl; f_equal; cbn [app]; by rewrite Ek at 2.
  - rewrite Hf. cbn [Z.eqb Pos.eqb orb]. intros [= <-]. exists (Z.lor 4 (Z.land (byte_at key 64) 1)), (take 32 (drop 1 key)).
    pose proof (Hcurve key Hl Hf Hv) as Hc. destruct (last_bit (byte_at key 64)) as [Eb|Eb]; rewrite Eb in *.
    all: split_and!; [done|done..|by rewrite Hd by lia| |done].
    all: unfold DecompressScript; rewrite (take_ge (take 32 (drop 1 key)) 32) by (rewrite Hd by lia; lia); cbn [Z.lor Z.eqb Pos.lor Pos.eqb orb].
    all: change (2 + 0) with 2 in Hc || change (2 + 1) with 3 in Hc; change (Z.lor 4 0) with 4 || change (Z.lor 4 1) with 5; cbn [Z.eqb Pos.eqb orb]; change (4 - 2) with 2 || change (5 - 2) with 3; rewrite Hc; cbn [mbind option_bind]; rewrite Hl, (take_ge key) by lia; done.
Qed.

#[export] Instance scriptc_laws : CodecLaws scriptc.
Proof using Hcurve.
  split; cbn [Serialize Unserialize SerOk scriptc]; unfold ScriptCompression_Ser.
  - intros script [Hb Hl]. destruct (CompressScript script) as [compr|] eqn:E.
    + apply CompressScript_spec in E as (nSize & data & -> & Hn & _ & _ & Hd). constructor; [unfold byte, inU, nSpecialScripts in *; lia|by apply Hd].
    + apply Forall_app. split; [|done]. apply Forall_reverse, varint_tmp_byte. apply wrapU_range. lia.
  - intros script rest [Hb Hl]. unfold ScriptCompression_Unser. destruct (CompressScript script) as [compr|] eqn:E.
    + apply CompressScript_spec in E as (nSize & data & -> & Hn & Hd & Hs & _). cbn [app]. rewrite ReadVarInt_small by (unfold nSpecialScripts in *; lia).
      cbn [mbind option_bind]. destruct (Z.ltb_spec nSize nSpecialScripts); [|lia]. rewrite <-Hd, read_bytes_app. cbn [mbind option_bind]. by rewrite Hs.
    + unfold script_size, nSpecialScripts in *. assert (MAX_SCRIPT_SIZE = 10000) by done.
      rewrite wrapU_small by (unfold inU; lia). rewrite <-app_assoc, ReadVarInt_WriteVarInt by (unfold inU; lia). cbn [mbind option_bind].
      destruct (Z.ltb_spec (Z.of_nat (length script) + 6) 6); [lia|]. replace (Z.of_nat (length script) + 6 - 6) with (Z.of_nat (length script)) by lia.
      destruct (Z.ltb_spec MAX_SCRIPT_SIZE (Z.of_nat (length script))); [lia|]. by rewrite Nat2Z.id, read_bytes_app.
Qed.

(** ** Outputs, coins and undo data *)
(** The value is an int64; CompressAmount takes a uint64. *)
Definition amountc : codec Z :=
  Codec (fun val => WriteVarInt 64 (CompressAmount (u64 val))) (fun s => '(v, s) ← ReadVarInt 64 s; Some (i64 (DecompressAmount v), s)) (fun val => 0 <= val <= MAX_MONEY).

Definition TxOutCompression : codec CTxOut :=
  isoc (fun o => (nValue o, scriptPubKey o)) (fun f => {| nValue := f.1; scriptPubKey := f.2 |}) (amountc ⊗ scriptc).

Definition coin_code (coin : Coin) : Z := u32 (coin_nHeight coin * 4 + (if coin_fCoinStake coin then 2 else 0) + (if coin_fCoinBase coin then 1 else 0)).
Definition coin_of_code (nCode : Z) (out : CTxOut) : Coin :=
  {| coin_out := out; coin_fCoinBase := negb (Z.land nCode 1 =? 0); coin_fCoinStake := negb (Z.land (Z.shiftr nCode 1) 1 =? 0); coin_nHeight := Z.shiftr nCode 2 |}.

(** nHeight is a bit-field of 30 bits, which the multiplication of Coin::Serialize takes as
    an int; the assertion is that the coin is not spent. *)
Definition Coin_codec : codec Coin :=
  Codec (fun coin => WriteVarInt 32 (coin_code coin) ++ Serialize TxOutCompression (coin_out coin))
        (fun s => '(code, s) ← ReadVarInt 32 s; '(out, s) ← Unserialize TxOutCompression s; Some (coin_of_code code out, s))
        (fun coin => 0 <= coin_nHeight coin < 2 ^ 29 /\ Coins.IsSpent coin = false /\ SerOk TxOutCompression (coin_out coin)).

(** A height that is not zero is followed by a byte that was a version once. *)
Definition TxInUndoFormatter : codec Coin :=
  Codec (fun coin => WriteVarInt 32 (coin_code coin) ++ (if 0 <? coin_nHeight coin then [0] else []) ++ Serialize TxOutCompression (coin_out coin))
        (fun s => '(nCode, s) ← ReadVarInt 32 s;
                  '(_, s) ← (if 0 <? Z.shiftr nCode 2 then ReadVarInt 32 s else Some (0, s));
                  '(out, s) ← Unserialize TxOutCompression s; Some (coin_of_code nCode out, s))
        (fun coin => 0 <= coin_nHeight coin < 2 ^ 30 /\ SerOk TxOutCompression (coin_out coin)).

Definition CTxUndo_codec : codec (list Coin) := vecc TxInUndoFormatter.
Definition CBlockUndo_codec : codec (list (list Coin)) := vecc CTxUndo_codec.

Lemma WriteVarInt_byte bits n : 0 <= n -> Forall byte (WriteVarInt bits n).
Proof. intros Hn. by apply Forall_reverse, varint_tmp_byte. Qed.

#[export] Instance amountc_laws : CodecLaws amountc.
Proof.
  assert (HM : MAX_MONEY < 2 ^ 56) by (vm_compute; reflexivity).
  split; cbn [Serialize Unserialize SerOk amountc]; intros val; [|intros rest]; intros Hv.
  all: rewrite (wrapU_small _ val) by (unfold inU; lia); destruct (Decompress_Compress val Hv) as [Hc Hd].
  - apply WriteVarInt_byte. apply Hc.
  - rewrite ReadVarInt_WriteVarInt by (done || lia). cbn [mbind option_bind]. rewrite Hd, wrapS_small by (unfold inS; lia). done.
Qed.

#[export] Instance TxOutCompression_laws : CodecLaws TxOutCompression.
Proof using Hcurve. apply isoc_laws; [apply _|by intros []]. Qed.

Lemma coin_code_spec coin : 0 <= coin_nHeight coin < 2 ^ 30 ->
  inU 32 (coin_code coin) /\ coin_of_code (coin_code coin) (coin_out coin) = coin /\ Z.shiftr (coin_code coin) 2 = coin_nHeight coin.
Proof.
  intros Hh. destruct coin as [out base stake h]. unfold coin_code, coin_of_code. cbn [coin_nHeight coin_fCoinStake coin_fCoinBase coin_out] in *.
  split; [apply wrapU_range; lia|]. rewrite wrapU_small by (unfold inU; destruct base, stake; lia).
  set (c := h * 4 + (if stake then 2 else 0) + (if base then 1 else 0)).
  assert (Z.shiftr c 2 = h) as -> by (rewrite Z.shiftr_div_pow2 by lia; subst c; change (2 ^ 2) with 4; change (2 ^ 1) with 2; destruct base, stake; Z.to_euclidean_division_equations; lia).
  assert (Z.land c 1 = if base then 1 else 0) as -> by (change 1 with (Z.ones 1) at 1; rewrite Z.land_ones by lia; subst c; change (2 ^ 2) with 4; change (2 ^ 1) with 2; destruct base, stake; Z.to_euclidean_division_equations; lia).
  assert (Z.land (Z.shiftr c 1) 1 = if stake then 1 else 0) as -> by (change 1 with (Z.ones 1) at 2; rewrite Z.land_ones, Z.shiftr_div_pow2 by lia; subst c; change (2 ^ 2) with 4; change (2 ^ 1) with 2; destruct base, stake; Z.to_euclidean_division_equations; lia).
  split; [|done]. by destruct base, stake.
Qed.

#[export] Instance Coin_laws : CodecLaws Coin_codec.
Proof using Hcurve.
  split; cbn [Serialize Unserialize SerOk Coin_codec]; intros coin; [|intros rest]; intros (Hh & Hs & Ho).
  all: destruct (coin_code_spec coin) as (Hc & Ecoin & _); [lia|].
  - apply Forall_app. split; [apply WriteVarInt_byte, Hc|by apply ser_bytes].
  - rewrite <-app_assoc, ReadVarInt_WriteVarInt by (done || lia). cbn [mbind option_bind]. rewrite unser_ser by done. cbn [mbind option_bind]. by rewrite Ecoin.
Qed.

#[export] Instance TxInUndo_laws : CodecLaws TxInUndoFormatter.
Proof using Hcurve.
  split; cbn [Serialize Unserialize SerOk TxInUndoFormatter]; intros coin; [|intros rest]; intros (Hh & Ho).
  all: destruct (coin_code_spec coin) as (Hc & Ecoin & Eh); [lia|].
  - rewrite !Forall_app. split_and!; [apply WriteVarInt_byte, Hc| |by apply ser_bytes]. destruct (0 <? coin_nHeight coin); repeat constructor; unfold byte, inU; lia.
  - rewrite <-!app_assoc, ReadVarInt_WriteVarInt by (done || lia). cbn [mbind option_bind]. rewrite Eh. destruct (0 <? coin_nHeight coin); cbn [app].
    + rewrite ReadVarInt_small by lia. cbn [mbind option_bind]. rewrite unser_ser by done. cbn [mbind option_bind]. by rewrite Ecoin.
    + cbn [mbind option_bind]. rewrite unser_ser by done. cbn [mbind option_bind]. by rewrite Ecoin.
Qed.

#[export] Instance CBlockUndo_laws : CodecLaws CBlockUndo_codec.
Proof using Hcurve. unfold CBlockUndo_codec, CTxUndo_codec. apply _. Qed.
End compressor.
