(* ===== verification/BlockFiles.v ===== *)
(** * Blocks and undo data on disk
    (src/src/flatfile.h, src/src/flatfile.cpp, AllocateFileRange of
    src/src/util/system.cpp, CBlockFileInfo of src/src/chain.h, WriteBlockToDisk,
    ReadBlockFromDisk, UndoWriteToDisk, UndoReadFromDisk, FlushBlockFile, FindBlockPos,
    FindUndoPos, WriteUndoDataForBlock and SaveBlockToDisk of src/src/validation.cpp)

    The files blk?????.dat and rev?????.dat, the table of what they hold and the
    positions given to new data.  What the system does (a file that does not open, a disk
    that is full, a write that stops half way) is an argument of every operation.
    [None] is an index outside a vector or a null pointer.  Not modelled: pruning. *)

From S2P Require Import Prelude Serialize Params BetTx BetKeys Transaction TxCodec Coins TokenGroups AddressIndex TxVerify Arith256 Chain Pow Kernel Headers ChainSelect HashStream Sha2 Merkle HeadersWire BlockCheck BlockCheckProofs Compress.

(** ** Files *)
(** A file is its bytes up to the last that was written, and its size; what lies between
    is zero. *)
Record File := { f_data : list Z; f_size : Z }.
Definition zeros (n : Z) : list Z := replicate (Z.to_nat n) 0.
Definition content (f : File) : list Z := f_data f ++ zeros (f_size f - Z.of_nat (length (f_data f))).
Definition empty_file : File := {| f_data := []; f_size := 0 |}.

Definition write_at (f : File) (off : Z) (data : list Z) : File :=
  {| f_data := take (Z.to_nat off) (f_data f ++ zeros (off - Z.of_nat (length (f_data f)))) ++ data ++ drop (Z.to_nat off + length data) (f_data f);
     f_size := Z.max (f_size f) (off + Z.of_nat (length data)) |}.
Definition ftruncate (f : File) (n : Z) : File := {| f_data := take (Z.to_nat n) (f_data f); f_size := n |}.
Definition posix_fallocate (f : File) (n : Z) : File := {| f_data := f_data f; f_size := Z.max (f_size f) n |}.

(** What the system does: [io_written] is how much of a write that fails gets through,
    [io_fallback] how many zeros are written when the file system cannot reserve space. *)
Record Io := {
  io_open : bool; io_seek : bool; io_space : Z -> bool; io_fallback : option nat; io_truncate : bool; io_commit : bool; io_written : option nat }.

Record FlatFilePos := { nFile : Z; nPos : Z }.
Definition null_pos : FlatFilePos := {| nFile := -1; nPos := 0 |}.
Definition IsNull_pos (pos : FlatFilePos) : bool := nFile pos =? -1.

(** FlatFileSeq::Open for writing: the files, and whether there is a handle. *)
Definition FlatFileSeq_Open (io : Io) (files : gmap Z File) (pos : FlatFilePos) : gmap Z File * bool :=
  if IsNull_pos pos then (files, false)
  else if negb (io_open io) then (files, false)
  else
    let files := match files !! nFile pos with Some _ => files | None => <[nFile pos := empty_file]> files end in
    (files, negb (negb (nPos pos =? 0) && negb (io_seek io))).

(** For reading: what there is from the position on. *)
Definition FlatFileSeq_Open_read (files : gmap Z File) (pos : FlatFilePos) : option (list Z) :=
  if IsNull_pos pos then None else f ← files !! nFile pos; Some (drop (Z.to_nat (nPos pos)) (content f)).

Definition on_file (files : gmap Z File) (n : Z) (op : File -> File) : gmap Z File := <[n := op (default empty_file (files !! n))]> files.

(** Writing through a CAutoFile; false is the exception of a write that fails. *)
Definition autofile_write (io : Io) (files : gmap Z File) (pos : FlatFilePos) (data : list Z) : gmap Z File * bool :=
  match io_written io with
  | None => (on_file files (nFile pos) (fun f => write_at f (nPos pos) data), true)
  | Some n => (on_file files (nFile pos) (fun f => write_at f (nPos pos) (take n data)), false)
  end.

Definition AllocateFileRange (io : Io) (f : File) (offset length : Z) : File :=
  match io_fallback io with
  | None => posix_fallocate f (offset + length)
  | Some n => write_at f offset (zeros (Z.min (Z.of_nat n) length))
  end.

(** The files, the number of bytes allocated and whether there is no space. *)
Definition FlatFileSeq_Allocate (io : Io) (m_chunk_size : Z) (files : gmap Z File) (pos : FlatFilePos) (add_size : Z) : gmap Z File * Z * bool :=
  let n_old_chunks := u32 ((nPos pos + m_chunk_size - 1) / m_chunk_size) in
  let n_new_chunks := u32 ((nPos pos + add_size + m_chunk_size - 1) / m_chunk_size) in
  if n_old_chunks <? n_new_chunks then
    let old_size := nPos pos in
    let new_size := n_new_chunks * m_chunk_size in
    let inc_size := u64 (new_size - old_size) in
    if io_space io inc_size then
      let '(files, ok) := FlatFileSeq_Open io files pos in
      if ok then (on_file files (nFile pos) (fun f => AllocateFileRange io f (nPos pos) (u32 inc_size)), inc_size, false) else (files, 0, false)
    else (files, 0, true)
  else (files, 0, false).

Definition FlatFileSeq_Flush (io : Io) (files : gmap Z File) (pos : FlatFilePos) (finalize : bool) : gmap Z File * bool :=
  let '(files, ok) := FlatFileSeq_Open io files {| nFile := nFile pos; nPos := 0 |} in
  if negb ok then (files, false)
  else if finalize && negb (io_truncate io) then (files, false)
  else
    let files := if finalize then on_file files (nFile pos) (fun f => ftruncate f (nPos pos)) else files in
    (files, io_commit io).

(** ** The table of the files *)
Record CBlockFileInfo := {
  fi_nBlocks : Z; fi_nSize : Z; fi_nUndoSize : Z; fi_nHeightFirst : Z; fi_nHeightLast : Z; fi_nTimeFirst : Z; fi_nTimeLast : Z }.

Definition CBlockFileInfo_null : CBlockFileInfo := Build_CBlockFileInfo 0 0 0 0 0 0 0.

Definition AddBlock (i : CBlockFileInfo) (nHeightIn nTimeIn : Z) : CBlockFileInfo :=
  Build_CBlockFileInfo (u32 (fi_nBlocks i + 1)) (fi_nSize i) (fi_nUndoSize i)
    (if (fi_nBlocks i =? 0) || (nHeightIn <? fi_nHeightFirst i) then nHeightIn else fi_nHeightFirst i)
    (if fi_nHeightLast i <? nHeightIn then nHeightIn else fi_nHeightLast i)
    (if (fi_nBlocks i =? 0) || (nTimeIn <? fi_nTimeFirst i) then nTimeIn else fi_nTimeFirst i)
    (if fi_nTimeLast i <? nTimeIn then nTimeIn else fi_nTimeLast i).

Definition set_nSize (i : CBlockFileInfo) (n : Z) : CBlockFileInfo :=
  Build_CBlockFileInfo (fi_nBlocks i) n (fi_nUndoSize i) (fi_nHeightFirst i) (fi_nHeightLast i) (fi_nTimeFirst i) (fi_nTimeLast i).
Definition set_nUndoSize (i : CBlockFileInfo) (n : Z) : CBlockFileInfo :=
  Build_CBlockFileInfo (fi_nBlocks i) (fi_nSize i) n (fi_nHeightFirst i) (fi_nHeightLast i) (fi_nTimeFirst i) (fi_nTimeLast i).

Definition MAX_BLOCKFILE_SIZE : Z := 0x8000000.
Definition BLOCKFILE_CHUNK_SIZE : Z := 0x1000000.
Definition UNDOFILE_CHUNK_SIZE : Z := 0x100000.

Record FileStore := {
  vinfoBlockFile : list CBlockFileInfo;
  nLastBlockFile : Z;
  setDirtyFileInfo : gset Z;
  fCheckForPruning : bool;
  aborted : bool;
  blk_files : gmap Z File;
  rev_files : gmap Z File }.

Definition set_table (st : FileStore) (vinfo : list CBlockFileInfo) (last : Z) : FileStore :=
  {| vinfoBlockFile := vinfo; nLastBlockFile := last; setDirtyFileInfo := setDirtyFileInfo st; fCheckForPruning := fCheckForPruning st;
     aborted := aborted st; blk_files := blk_files st; rev_files := rev_files st |}.
Definition set_dirty (st : FileStore) (n : Z) : FileStore :=
  {| vinfoBlockFile := vinfoBlockFile st; nLastBlockFile := nLastBlockFile st; setDirtyFileInfo := {[ n ]} ∪ setDirtyFileInfo st; fCheckForPruning := fCheckForPruning st;
     aborted := aborted st; blk_files := blk_files st; rev_files := rev_files st |}.
Definition set_files (st : FileStore) (b r : gmap Z File) : FileStore :=
  {| vinfoBlockFile := vinfoBlockFile st; nLastBlockFile := nLastBlockFile st; setDirtyFileInfo := setDirtyFileInfo st; fCheckForPruning := fCheckForPruning st;
     aborted := aborted st; blk_files := b; rev_files := r |}.
Definition check_pruning (st : FileStore) (b : bool) : FileStore :=
  {| vinfoBlockFile := vinfoBlockFile st; nLastBlockFile := nLastBlockFile st; setDirtyFileInfo := setDirtyFileInfo st; fCheckForPruning := b || fCheckForPruning st;
     aborted := aborted st; blk_files := blk_files st; rev_files := rev_files st |}.
Definition AbortNode (st : FileStore) (b : bool) : FileStore :=
  {| vinfoBlockFile := vinfoBlockFile st; nLastBlockFile := nLastBlockFile st; setDirtyFileInfo := setDirtyFileInfo st; fCheckForPruning := fCheckForPruning st;
     aborted := b || aborted st; blk_files := blk_files st; rev_files := rev_files st |}.

(** The systems seen by the parts of one operation. *)
Record Env := { e_flush_block : Io; e_flush_undo : Io; e_allocate : Io; e_write : Io }.

(** ** Flushing *)
Definition FlushUndoFile (env : Env) (st : FileStore) (block_file : Z) (finalize : bool) : option FileStore :=
  i ← vinfoBlockFile st !! Z.to_nat block_file;
  let '(files, ok) := FlatFileSeq_Flush (e_flush_undo env) (rev_files st) {| nFile := block_file; nPos := fi_nUndoSize i |} finalize in
  Some (AbortNode (set_files st (blk_files st) files) (negb ok)).

Definition FlushBlockFile (env : Env) (st : FileStore) (fFinalize finalize_undo : bool) : option FileStore :=
  i ← vinfoBlockFile st !! Z.to_nat (nLastBlockFile st);
  let '(files, ok) := FlatFileSeq_Flush (e_flush_block env) (blk_files st) {| nFile := nLastBlockFile st; nPos := fi_nSize i |} fFinalize in
  let st := AbortNode (set_files st files (rev_files st)) (negb ok) in
  if negb fFinalize || finalize_undo then FlushUndoFile env st (nLastBlockFile st) finalize_undo else Some st.

(** ** Positions *)
Definition resize_table (vinfo : list CBlockFileInfo) (nFile : Z) : list CBlockFileInfo :=
  if Z.of_nat (length vinfo) <=? nFile then vinfo ++ replicate (Z.to_nat (nFile + 1) - length vinfo) CBlockFileInfo_null else vinfo.

(** The loop that looks for a file with space. *)
Fixpoint next_file (fuel : nat) (vinfo : list CBlockFileInfo) (nFile : Z) (finalize_undo : bool) (nAddSize : Z) (tip : option Z) : option (list CBlockFileInfo * Z * bool) :=
  match fuel with
  | O => None
  | S fuel =>
      i ← vinfo !! Z.to_nat nFile;
      if MAX_BLOCKFILE_SIZE <=? u32 (fi_nSize i + nAddSize) then
        nHeight ← tip;
        next_file fuel (resize_table vinfo (nFile + 1)) (nFile + 1) (fi_nHeightLast i =? u32 nHeight) nAddSize tip
      else Some (vinfo, nFile, finalize_undo)
  end.

(** The end of an operation that writes. *)
Inductive Written (A : Type) := wrote (a : A) | returned_false | threw.
Arguments wrote {A} a.
Arguments returned_false {A}.
Arguments threw {A}.

Section positions.
Context (fPruneMode : bool).

(** [known] is the position of data that is in a file already. *)
Definition FindBlockPos (env : Env) (st : FileStore) (known : option FlatFilePos) (nAddSize nHeight nTime : Z) (tip : option Z) : option (FileStore * option FlatFilePos) :=
  let nFile0 := match known with Some pos => nFile pos | None => nLastBlockFile st end in
  let vinfo := resize_table (vinfoBlockFile st) nFile0 in
  '(vinfo, n, finalize_undo) ← (match known with Some _ => Some (vinfo, nFile0, false) | None => next_file (S (length vinfo)) vinfo nFile0 false nAddSize tip end);
  i ← vinfo !! Z.to_nat n;
  let pos := match known with Some pos => pos | None => {| nFile := n; nPos := fi_nSize i |} end in
  let fKnown := match known with Some _ => true | None => false end in
  let st := set_table st vinfo (nLastBlockFile st) in
  st ← (if negb (n =? nLastBlockFile st) then st ← FlushBlockFile env st (negb fKnown) finalize_undo; Some (set_table st (vinfoBlockFile st) n) else Some st);
  let i := AddBlock i nHeight nTime in
  let i := set_nSize i (if fKnown then Z.max (u32 (nPos pos + nAddSize)) (fi_nSize i) else u32 (fi_nSize i + nAddSize)) in
  let st := set_table st (<[Z.to_nat n := i]> (vinfoBlockFile st)) (nLastBlockFile st) in
  if fKnown then Some (set_dirty st n, Some pos)
  else
    let '(files, bytes_allocated, out_of_space) := FlatFileSeq_Allocate (e_allocate env) BLOCKFILE_CHUNK_SIZE (blk_files st) pos nAddSize in
    let st := set_files st files (rev_files st) in
    if out_of_space then Some (AbortNode st true, None)
    else Some (set_dirty (check_pruning st (negb (bytes_allocated =? 0) && fPruneMode)) n, Some pos).

Definition FindUndoPos (env : Env) (st : FileStore) (n : Z) (nAddSize : Z) : option (FileStore * option FlatFilePos) :=
  i ← vinfoBlockFile st !! Z.to_nat n;
  let pos := {| nFile := n; nPos := fi_nUndoSize i |} in
  let st := set_dirty (set_table st (<[Z.to_nat n := set_nUndoSize i (u32 (fi_nUndoSize i + nAddSize))]> (vinfoBlockFile st)) (nLastBlockFile st)) n in
  let '(files, bytes_allocated, out_of_space) := FlatFileSeq_Allocate (e_allocate env) UNDOFILE_CHUNK_SIZE (rev_files st) pos nAddSize in
  let st := set_files st (blk_files st) files in
  if out_of_space then Some (AbortNode st true, None)
  else Some (check_pruning st (negb (bytes_allocated =? 0) && fPruneMode), Some pos).

(** ** Blocks *)
Context (params : PosParams) (GetHash : CBlockHeader -> uint256) (messageStart : list Z).

Definition Hash (data : list Z) : uint256 := Hash1 (replicate 64 0) data.
Definition tx_codec : codec CTx := Codec Serialize_tx (Unserialize_tx Hash) (fun tx => TxOk tx /\ ctx_hash tx = ComputeHash Hash tx).
Definition block_signed (f : CBlockHeader * list CTx) : bool := match f.2 !! 1%nat with Some tx => IsCoinStake tx | None => false end.
Definition CBlock_codec : codec CBlock :=
  isoc (fun b => ((b_header b, b_vtx b), b_vchBlockSig b))
       (fun '((h, vtx), sig) => {| b_header := h; b_vtx := vtx; b_vchBlockSig := sig; b_fChecked := false |})
       (condc (CBlockHeader_codec ⊗ vecc tx_codec) block_signed bytesc []).

(** A record of a file: the start of a message, a size and the data; the position of the
    data. *)
Definition WriteRecord (io : Io) (files : gmap Z File) (pos : FlatFilePos) (size : Z) (data : list Z) : gmap Z File * Written FlatFilePos :=
  let '(files, ok) := FlatFileSeq_Open io files pos in
  if negb ok then (files, returned_false)
  else
    let '(files, ok) := autofile_write io files pos (messageStart ++ Serialize u32c size ++ data) in
    if ok then (files, wrote {| nFile := nFile pos; nPos := u32 (nPos pos + Z.of_nat (length messageStart) + 4) |}) else (files, threw).

Definition WriteBlockToDisk (io : Io) (files : gmap Z File) (block : CBlock) (pos : FlatFilePos) : gmap Z File * Written FlatFilePos :=
  let data := Serialize CBlock_codec block in WriteRecord io files pos (u32 (Z.of_nat (length data))) data.

Definition ReadBlockFromDisk (files : gmap Z File) (pos : FlatFilePos) : option CBlock :=
  s ← FlatFileSeq_Open_read files pos;
  '(block, _) ← Unserialize CBlock_codec s;
  if IsProofOfWork_block block && negb (CheckProofOfWork params (GetHash (b_header block)) (h_nBits (b_header block))) then None else Some block.

Definition SaveBlockToDisk (env : Env) (st : FileStore) (block : CBlock) (nHeight : Z) (dbp : option FlatFilePos) (tip : option Z) : option (FileStore * Written FlatFilePos) :=
  let nBlockSize := u32 (Z.of_nat (length (Serialize CBlock_codec block))) in
  '(st, r) ← FindBlockPos env st dbp (u32 (nBlockSize + 8)) (u32 nHeight) (u64 (h_nTime (b_header block))) tip;
  match r, dbp with
  | None, _ => Some (st, wrote null_pos)
  | Some blockPos, Some _ => Some (st, wrote blockPos)
  | Some blockPos, None =>
      let '(files, w) := WriteBlockToDisk (e_write env) (blk_files st) block blockPos in
      let st := set_files st files (rev_files st) in
      match w with
      | returned_false => Some (AbortNode st true, wrote null_pos)
      | w => Some (st, w)
      end
  end.

(** ** Undo data *)
Context (IsFullyValid : list Z -> bool) (Decompress : list Z -> option (list Z)).
Notation CBlockUndo_codec := (CBlockUndo_codec IsFullyValid Decompress).

Definition UndoWriteToDisk (io : Io) (files : gmap Z File) (blockundo : list (list Coin)) (pos : FlatFilePos) (hashBlock : uint256) : gmap Z File * Written FlatFilePos :=
  let data := Serialize CBlockUndo_codec blockundo in
  let checksum := Hash (Serialize uint256c hashBlock ++ data) in
  WriteRecord io files pos (u32 (Z.of_nat (length data))) (data ++ Serialize uint256c checksum).

(** The verifier hashes the bytes it reads. *)
Definition UndoReadFromDisk (files : gmap Z File) (pos : FlatFilePos) (hashPrev : uint256) : option (list (list Coin)) :=
  s ← FlatFileSeq_Open_read files pos;
  '(blockundo, rest) ← Unserialize CBlockUndo_codec s;
  '(hashChecksum, _) ← Unserialize uint256c rest;
  let read := take (length s - length rest) s in
  if hashChecksum =? Hash (Serialize uint256c hashPrev ++ read) then Some blockundo else None.

(** The members of an entry of the index that are about files. *)
Record DiskIndex := { di_nFile : Z; di_nDataPos : Z; di_nUndoPos : Z; di_nStatus : Z; di_nHeight : Z; di_dirty : bool }.
Definition BLOCK_HAVE_UNDO : Z := 16.
Definition GetBlockPos (i : DiskIndex) : FlatFilePos := if has_bits (di_nStatus i) BLOCK_HAVE_DATA then {| nFile := di_nFile i; nPos := di_nDataPos i |} else null_pos.
Definition GetUndoPos (i : DiskIndex) : FlatFilePos := if has_bits (di_nStatus i) BLOCK_HAVE_UNDO then {| nFile := di_nFile i; nPos := di_nUndoPos i |} else null_pos.

(** The block of an entry of the index, whose hash is [hashBlock]. *)
Definition ReadBlockFromDisk_index (files : gmap Z File) (pindex : DiskIndex) (hashBlock : uint256) : option CBlock :=
  block ← ReadBlockFromDisk files (GetBlockPos pindex);
  if GetHash (b_header block) =? hashBlock then Some block else None.

Definition WriteUndoDataForBlock (env : Env) (st : FileStore) (blockundo : list (list Coin)) (pindex : DiskIndex) (hashPrev : uint256) : option (FileStore * DiskIndex * Written unit) :=
  if negb (IsNull_pos (GetUndoPos pindex)) then Some (st, pindex, wrote tt)
  else
    let nSize := u32 (Z.of_nat (length (Serialize CBlockUndo_codec blockundo))) in
    '(st, r) ← FindUndoPos env st (di_nFile pindex) (u32 (nSize + 40));
    match r with
    | None => Some (st, pindex, returned_false)
    | Some pos =>
        let '(files, w) := UndoWriteToDisk (e_write env) (rev_files st) blockundo pos hashPrev in
        let st := set_files st (blk_files st) files in
        match w with
        | threw => Some (st, pindex, threw)
        | returned_false => Some (AbortNode st true, pindex, returned_false)
        | wrote pos =>
            st ← (if nFile pos <? nLastBlockFile st then
                    i ← vinfoBlockFile st !! Z.to_nat (nFile pos);
                    if u32 (di_nHeight pindex) =? fi_nHeightLast i then FlushUndoFile env st (nFile pos) true else Some st
                  else Some st);
            Some (st, {| di_nFile := di_nFile pindex; di_nDataPos := di_nDataPos pindex; di_nUndoPos := nPos pos;
                         di_nStatus := Z.lor (di_nStatus pindex) BLOCK_HAVE_UNDO; di_nHeight := di_nHeight pindex; di_dirty := true |}, wrote tt)
        end
    end.
End positions.

(** ** What a file keeps *)
Definition file_ok (f : File) : Prop := Z.of_nat (length (f_data f)) <= f_size f.
Definition files_ok (files : gmap Z File) : Prop := map_Forall (fun _ f => file_ok f) files.

Lemma length_zeros n : length (zeros n) = Z.to_nat n.
Proof. apply length_replicate. Qed.

Lemma length_content f : file_ok f -> length (content f) = Z.to_nat (f_size f).
Proof. unfold file_ok, content. rewrite length_app, length_zeros. lia. Qed.

Lemma take_zeros m l k k' : (m <= length l + Z.to_nat k)%nat -> (m <= length l + Z.to_nat k')%nat -> take m (l ++ zeros k) = take m (l ++ zeros k').
Proof. intros H1 H2. rewrite !take_app. f_equal. unfold zeros. rewrite !take_replicate. f_equal. lia. Qed.

(** [f'] has the first bytes of [f], up to [bound]. *)
Definition same_start (bound : Z) (f f' : File) : Prop :=
  file_ok f' /\ forall m, Z.of_nat m <= bound -> Z.of_nat m <= f_size f -> Z.of_nat m <= f_size f' /\ take m (content f') = take m (content f).

Lemma write_at_start bound f off data : file_ok f -> 0 <= off -> bound <= off -> same_start bound f (write_at f off data).
Proof.
  unfold file_ok. intros Hf Ho Hb. split.
  { unfold file_ok, write_at. cbn [f_data f_size]. rewrite !length_app, length_take, length_app, length_zeros, length_drop. lia. }
  intros m Hm Hs. unfold write_at at 1. cbn [f_size]. split; [lia|]. unfold content at 1, write_at. cbn [f_data f_size].
  rewrite <-app_assoc, take_app_le by (rewrite length_take, length_app, length_zeros; lia). rewrite take_take, Nat.min_l by lia.
  apply take_zeros; lia.
Qed.

Lemma write_at_data f off data : file_ok f -> 0 <= off -> exists rest, drop (Z.to_nat off) (content (write_at f off data)) = data ++ rest.
Proof.
  unfold file_ok. intros Hf Ho. unfold content. unfold write_at at 1. cbn [f_data].
  rewrite <-!app_assoc, drop_app_ge by (rewrite length_take, length_app, length_zeros; lia).
  rewrite length_take, length_app, length_zeros. replace (_ - _)%nat with 0%nat by lia. rewrite drop_0. by eexists.
Qed.

Lemma ftruncate_start bound f n : file_ok f -> 0 <= n -> bound <= n -> same_start bound f (ftruncate f n).
Proof.
  unfold file_ok. intros Hf Hn Hb. split; [unfold file_ok, ftruncate; cbn [f_data f_size]; rewrite length_take; lia|].
  intros m Hm Hs. cbn [ftruncate f_size]. split; [lia|]. unfold content. cbn [ftruncate f_data f_size]. rewrite length_take.
  destruct (decide (length (f_data f) <= Z.to_nat n)%nat) as [|Hlt]; [rewrite (take_ge (f_data f)) by lia; apply take_zeros; lia|].
  rewrite !take_app_le by (rewrite ?length_take; lia). rewrite take_take. f_equal. lia.
Qed.

Lemma posix_fallocate_start bound f n : file_ok f -> same_start bound f (posix_fallocate f n).
Proof.
  unfold file_ok. intros Hf. split; [unfold file_ok; cbn [posix_fallocate f_data f_size]; lia|]. intros m Hm Hs. cbn [posix_fallocate f_size]. split; [lia|].
  unfold content. cbn [posix_fallocate f_data f_size]. apply take_zeros; lia.
Qed.

(** File [n] keeps its first bytes. *)
Definition kept (bound n : Z) (files files' : gmap Z File) : Prop :=
  forall f, files !! n = Some f -> exists f', files' !! n = Some f' /\ same_start bound f f'.

(** All the files keep their bytes, the file of [pos] those before [pos]. *)
Definition preserves (pos : FlatFilePos) (files files' : gmap Z File) : Prop :=
  files_ok files -> files_ok files' /\ forall n bound, (n = nFile pos -> bound <= nPos pos) -> kept bound n files files'.

Lemma same_start_refl bound f : file_ok f -> same_start bound f f.
Proof. intros Hf. split; [done|]. auto. Qed.

Lemma same_start_trans b1 b2 f1 f2 f3 : b1 <= b2 -> same_start b1 f1 f2 -> same_start b2 f2 f3 -> same_start b1 f1 f3.
Proof.
  intros Hb [_ H1] [Hf H2]. split; [done|]. intros m Hm Hs. destruct (H1 m Hm Hs) as [Hs2 E1]. destruct (H2 m ltac:(lia) Hs2) as [Hs3 E2].
  split; [done|]. by rewrite E2.
Qed.

Lemma kept_trans b1 b2 n files1 files2 files3 : b1 <= b2 -> kept b1 n files1 files2 -> kept b2 n files2 files3 -> kept b1 n files1 files3.
Proof. intros Hb H1 H2 f Hf. destruct (H1 f Hf) as (f2 & Hf2 & S1). destruct (H2 f2 Hf2) as (f3 & Hf3 & S2). exists f3. split; [done|]. by eapply same_start_trans. Qed.

Lemma preserves_refl pos files : preserves pos files files.
Proof. intros Hok. split; [done|]. intros n bound _ f Hf. exists f. split; [done|]. apply same_start_refl. by apply (Hok n f ltac:(eassumption)). Qed.

Lemma preserves_trans pos files1 files2 files3 : preserves pos files1 files2 -> preserves pos files2 files3 -> preserves pos files1 files3.
Proof.
  intros H1 H2 Hok. destruct (H1 Hok) as [Hok2 K1]. destruct (H2 Hok2) as [Hok3 K2]. split; [done|]. intros n bound Hb.
  eapply kept_trans; [reflexivity|by apply K1|by apply K2].
Qed.

Lemma on_file_preserves pos files op : (forall f, file_ok f -> same_start (nPos pos) f (op f)) -> preserves pos files (on_file files (nFile pos) op).
Proof.
  intros Hop Hok. assert (Hd : file_ok (default empty_file (files !! nFile pos))) by (destruct (files !! nFile pos) as [f|] eqn:E; [by apply (Hok _ f ltac:(eassumption))|done]). split.
  - apply map_Forall_insert_2; [exact (proj1 (Hop _ Hd))|done].
  - intros n bound Hb f Hf. unfold on_file. destruct (decide (n = nFile pos)) as [->|Hne].
    + rewrite lookup_insert_eq, Hf. cbn [default]. eexists. split; [done|]. pose proof (Hok _ f Hf) as Hf'. eapply same_start_trans; [by apply Hb|by apply same_start_refl|by apply Hop].
    + rewrite lookup_insert_ne by done. exists f. split; [done|]. apply same_start_refl. by apply (Hok _ f ltac:(eassumption)).
Qed.

Lemma Open_preserves io files pos pos' : preserves pos files (FlatFileSeq_Open io files pos').1.
Proof.
  unfold FlatFileSeq_Open. destruct (IsNull_pos pos'); [apply preserves_refl|]. destruct (io_open io); cbn [negb fst]; [|apply preserves_refl].
  destruct (files !! nFile pos') as [f|] eqn:E; [apply preserves_refl|]. intros Hok. split; [by apply map_Forall_insert_2|].
  intros n bound _ g Hg. exists g. rewrite lookup_insert_ne by congruence. split; [done|]. apply same_start_refl. by apply (Hok _ g ltac:(eassumption)).
Qed.

Lemma autofile_write_preserves io files pos data : 0 <= nPos pos -> preserves pos files (autofile_write io files pos data).1.
Proof. intros Hp. unfold autofile_write. destruct (io_written io); cbn [fst]; apply on_file_preserves; intros f Hf; by apply write_at_start. Qed.

Lemma Allocate_preserves io chunk files pos add : 0 <= nPos pos -> preserves pos files (FlatFileSeq_Allocate io chunk files pos add).1.1.
Proof.
  intros Hp. unfold FlatFileSeq_Allocate. destruct (_ <? _); [|apply preserves_refl]. destruct (io_space io _); [|apply preserves_refl].
  pose proof (Open_preserves io files pos pos) as HO. destruct (FlatFileSeq_Open io files pos) as [files' []]; [|done]. cbn [fst] in *.
  eapply preserves_trans; [done|]. apply on_file_preserves. intros f Hf. unfold AllocateFileRange. destruct (io_fallback io); [by apply write_at_start|by apply posix_fallocate_start].
Qed.

Lemma Flush_preserves io files pos finalize : 0 <= nPos pos -> preserves pos files (FlatFileSeq_Flush io files pos finalize).1.
Proof.
  intros Hp. unfold FlatFileSeq_Flush. pose proof (Open_preserves io files pos {| nFile := nFile pos; nPos := 0 |}) as HO.
  destruct (FlatFileSeq_Open io files _) as [files' []]; [|done]. cbn [fst negb] in *. destruct finalize; cbn [andb]; [|done].
  destruct (io_truncate io); cbn [negb]; [|done]. cbn [fst]. eapply preserves_trans; [done|]. apply on_file_preserves. intros f Hf. by apply ftruncate_start.
Qed.

Lemma WriteRecord_preserves messageStart io files pos size data : 0 <= nPos pos -> preserves pos files (WriteRecord messageStart io files pos size data).1.
Proof.
  intros Hp. unfold WriteRecord. pose proof (Open_preserves io files pos pos) as HO. destruct (FlatFileSeq_Open io files pos) as [files' []]; [|done]. cbn [fst negb] in *.
  pose proof (autofile_write_preserves io files' pos (messageStart ++ Serialize u32c size ++ data) Hp) as HW. destruct (autofile_write io files' pos _) as [files2 []]; cbn [fst] in *; by eapply preserves_trans.
Qed.

(** ** What the store keeps *)
Definition info_at (st : FileStore) (n : Z) : option CBlockFileInfo := vinfoBlockFile st !! Z.to_nat n.
Definition info_ok (i : CBlockFileInfo) : Prop := 0 <= fi_nSize i <= 2 ^ 31 /\ inU 32 (fi_nUndoSize i).

Record store_ok (st : FileStore) : Prop := {
  ok_last : 0 <= nLastBlockFile st /\ (nLastBlockFile st < Z.of_nat (length (vinfoBlockFile st)) \/ nLastBlockFile st = 0);
  ok_info : Forall info_ok (vinfoBlockFile st);
  ok_blk : files_ok (blk_files st);
  ok_rev : files_ok (rev_files st) }.

(** No byte that belongs to a block or to undo data changes. *)
Definition advance (st st' : FileStore) : Prop :=
  forall n i, 0 <= n -> info_at st n = Some i ->
    exists i', info_at st' n = Some i' /\ fi_nSize i <= fi_nSize i' /\ fi_nUndoSize i <= fi_nUndoSize i' /\
      kept (fi_nSize i) n (blk_files st) (blk_files st') /\ kept (fi_nUndoSize i) n (rev_files st) (rev_files st').

Lemma kept_refl bound n files : files_ok files -> kept bound n files files.
Proof. intros Hok f Hf. exists f. split; [done|]. apply same_start_refl. by apply (Hok n f ltac:(eassumption)). Qed.

Lemma advance_refl st : store_ok st -> advance st st.
Proof. intros [_ _ Hb Hr] n i _ Hi. exists i. split_and!; [done|lia|lia|by apply kept_refl..]. Qed.

Lemma advance_trans st1 st2 st3 : advance st1 st2 -> advance st2 st3 -> advance st1 st3.
Proof.
  intros H1 H2 n i Hn Hi. destruct (H1 n i Hn Hi) as (i2 & Hi2 & S1 & U1 & B1 & R1). destruct (H2 n i2 Hn Hi2) as (i3 & Hi3 & S2 & U2 & B2 & R2).
  exists i3. split_and!; [done|lia|lia|eapply kept_trans; [|done..]; lia|eapply kept_trans; [|done..]; lia].
Qed.

(** No byte that belongs to a block changes, whatever happens to undo data. *)
Definition blk_advance (st st' : FileStore) : Prop :=
  forall n i, 0 <= n -> info_at st n = Some i ->
    exists i', info_at st' n = Some i' /\ fi_nSize i <= fi_nSize i' /\ kept (fi_nSize i) n (blk_files st) (blk_files st').

Lemma advance_blk st st' : advance st st' -> blk_advance st st'.
Proof. intros Ha n i Hn Hi. destruct (Ha n i Hn Hi) as (i' & ? & ? & _ & ? & _). by exists i'. Qed.

Lemma blk_advance_trans st1 st2 st3 : blk_advance st1 st2 -> blk_advance st2 st3 -> blk_advance st1 st3.
Proof.
  intros H1 H2 n i Hn Hi. destruct (H1 n i Hn Hi) as (i2 & Hi2 & S1 & B1). destruct (H2 n i2 Hn Hi2) as (i3 & Hi3 & S2 & B2).
  exists i3. split_and!; [done|lia|eapply kept_trans; [|done..]; lia].
Qed.

(** Only undo data and its counts differ. *)
Definition same_blocks (st st' : FileStore) : Prop :=
  blk_files st' = blk_files st /\ forall n, fi_nSize <$> info_at st' n = fi_nSize <$> info_at st n.

Lemma same_blocks_trans st1 st2 st3 : same_blocks st1 st2 -> same_blocks st2 st3 -> same_blocks st1 st3.
Proof. intros [B1 I1] [B2 I2]. split; [congruence|]. intros n. by rewrite I2. Qed.

Lemma same_blocks_advance st st' : store_ok st -> same_blocks st st' -> blk_advance st st'.
Proof.
  intros Hok [Eb Ei] n i Hn Hi. specialize (Ei n). rewrite Hi in Ei. destruct (info_at st' n) as [i'|]; [|done]. injection Ei as Ei.
  exists i'. rewrite Eb, Ei. split_and!; [done|lia|apply kept_refl, ok_blk, Hok].
Qed.

(** The operations on one file of the store. *)
Lemma blk_step st files pos i : store_ok st -> info_at st (nFile pos) = Some i -> fi_nSize i <= nPos pos -> 0 <= nFile pos -> preserves pos (blk_files st) files ->
  store_ok (set_files st files (rev_files st)) /\ advance st (set_files st files (rev_files st)).
Proof.
  intros [Hl Hi Hb Hr] Ei Hp Hn Hf. destruct (Hf Hb) as [Hok Hk]. split; [by split|]. intros n j Hn' Ej. exists j. split_and!; [done|lia|lia| |by apply kept_refl].
  apply Hk. intros ->. rewrite Ej in Ei. by injection Ei as ->.
Qed.

Lemma rev_step st files pos i : store_ok st -> info_at st (nFile pos) = Some i -> fi_nUndoSize i <= nPos pos -> 0 <= nFile pos -> preserves pos (rev_files st) files ->
  store_ok (set_files st (blk_files st) files) /\ advance st (set_files st (blk_files st) files).
Proof.
  intros [Hl Hi Hb Hr] Ei Hp Hn Hf. destruct (Hf Hr) as [Hok Hk]. split; [by split|]. intros n j Hn' Ej. exists j. split_and!; [done|lia|lia|by apply kept_refl|].
  apply Hk. intros ->. rewrite Ej in Ei. by injection Ei as ->.
Qed.

(** The flags of the node are not part of it. *)
Lemma AbortNode_step st st' b : store_ok st' /\ advance st st' -> store_ok (AbortNode st' b) /\ advance st (AbortNode st' b).
Proof. intros [[? ? ? ?] Ha]. by split. Qed.

Lemma info_at_ok st n i : store_ok st -> info_at st n = Some i -> info_ok i.
Proof. intros [_ Hi _ _] E. by eapply Forall_lookup_1 in Hi. Qed.

Lemma FlushUndoFile_step env st n finalize st' : store_ok st -> 0 <= n -> FlushUndoFile env st n finalize = Some st' ->
  store_ok st' /\ advance st st' /\ vinfoBlockFile st' = vinfoBlockFile st /\ nLastBlockFile st' = nLastBlockFile st /\ blk_files st' = blk_files st.
Proof.
  intros Hok Hn E. unfold FlushUndoFile in E. destruct (vinfoBlockFile st !! Z.to_nat n) as [i|] eqn:Ei; [|done]. cbn [mbind option_bind] in E.
  destruct (FlatFileSeq_Flush _ _ _ _) as [files ok] eqn:Ef. injection E as <-. destruct (info_at_ok st n i Hok Ei) as [_ Hu].
  assert (Hp : 0 <= fi_nUndoSize i) by apply Hu. pose proof (Flush_preserves (e_flush_undo env) (rev_files st) {| nFile := n; nPos := fi_nUndoSize i |} finalize Hp) as HF.
  rewrite Ef in HF. destruct (AbortNode_step _ _ (negb ok) (rev_step st files {| nFile := n; nPos := fi_nUndoSize i |} i Hok Ei (Z.le_refl _) Hn HF)) as [H1 H2]. by split_and!.
Qed.

Lemma FlushBlockFile_step env st fFinalize finalize_undo st' : store_ok st -> FlushBlockFile env st fFinalize finalize_undo = Some st' ->
  store_ok st' /\ advance st st' /\ vinfoBlockFile st' = vinfoBlockFile st /\ nLastBlockFile st' = nLastBlockFile st.
Proof.
  intros Hok E. unfold FlushBlockFile in E. destruct (vinfoBlockFile st !! Z.to_nat (nLastBlockFile st)) as [i|] eqn:Ei; [|done]. cbn [mbind option_bind] in E.
  destruct (FlatFileSeq_Flush _ _ _ _) as [files ok] eqn:Ef. destruct (info_at_ok st (nLastBlockFile st) i Hok Ei) as [Hs _]. destruct (ok_last st Hok) as [Hl _].
  pose proof (Flush_preserves (e_flush_block env) (blk_files st) {| nFile := nLastBlockFile st; nPos := fi_nSize i |} fFinalize (proj1 Hs)) as HF.
  rewrite Ef in HF. destruct (AbortNode_step _ _ (negb ok) (blk_step st files {| nFile := nLastBlockFile st; nPos := fi_nSize i |} i Hok Ei (Z.le_refl _) Hl HF)) as [H1 H2].
  destruct (negb fFinalize || finalize_undo); [|by injection E as <-]. apply FlushUndoFile_step in E as (H3 & H4 & E1 & E2 & _); [|done..].
  split_and!; [done|by eapply advance_trans|done..].
Qed.

(** ** The loop over the files ends *)
Definition extends (vinfo vinfo' : list CBlockFileInfo) : Prop := exists k, vinfo' = vinfo ++ replicate k CBlockFileInfo_null.

Lemma resize_table_extends vinfo n : 0 <= n -> extends vinfo (resize_table vinfo n) /\ n < Z.of_nat (length (resize_table vinfo n)).
Proof.
  intros Hn. unfold resize_table. destruct (Z.leb_spec (Z.of_nat (length vinfo)) n).
  - split; [by eexists|]. rewrite length_app, length_replicate. lia.
  - split; [|lia]. exists 0%nat. by rewrite app_nil_r.
Qed.

Lemma extends_trans v1 v2 v3 : extends v1 v2 -> extends v2 v3 -> extends v1 v3.
Proof. intros [k ->] [k' ->]. exists (k + k')%nat. by rewrite replicate_add, app_assoc. Qed.

Lemma extends_lookup v1 v2 n i : extends v1 v2 -> v1 !! n = Some i -> v2 !! n = Some i.
Proof. intros [k ->] H. by apply lookup_app_l_Some. Qed.

Lemma extends_new v1 v2 n i : extends v1 v2 -> v1 !! n = None -> v2 !! n = Some i -> i = CBlockFileInfo_null.
Proof. intros [k ->] H1 H2. apply lookup_app_Some in H2 as [?|[_ H2]]; [congruence|]. by apply lookup_replicate in H2 as [-> _]. Qed.

Lemma extends_ok v1 v2 : extends v1 v2 -> Forall info_ok v1 -> Forall info_ok v2.
Proof. intros [k ->] H. apply Forall_app. split; [done|]. apply Forall_replicate. split; cbn; [lia|]. by split. Qed.

Lemma next_file_spec fuel vinfo n fin nAddSize tip vinfo' n' fin' : 0 <= n -> next_file fuel vinfo n fin nAddSize tip = Some (vinfo', n', fin') ->
  extends vinfo vinfo' /\ n <= n' /\ exists i, vinfo' !! Z.to_nat n' = Some i /\ u32 (fi_nSize i + nAddSize) < MAX_BLOCKFILE_SIZE.
Proof.
  revert vinfo n fin. induction fuel as [|fuel IH]; intros vinfo n fin Hn; [done|]. cbn [next_file]. destruct (vinfo !! Z.to_nat n) as [i|] eqn:Ei; [|done]. cbn [mbind option_bind].
  destruct (Z.leb_spec MAX_BLOCKFILE_SIZE (u32 (fi_nSize i + nAddSize))) as [Hbig|Hsmall].
  - destruct tip as [h|]; [|done]. cbn [mbind option_bind]. intros (He & Hle & Hi)%IH; [|lia]. destruct (resize_table_extends vinfo (n + 1) ltac:(lia)) as [He' _].
    split_and!; [by eapply extends_trans|lia|done].
  - intros [= <- <- _]. split_and!; [exists 0%nat; by rewrite app_nil_r|lia|]. by exists i.
Qed.

(** Some file at or after the last has space: a new one does. *)
Lemma next_file_total fuel vinfo n fin nAddSize tip : 0 <= n < Z.of_nat (length vinfo) -> Z.of_nat (length vinfo) - n < Z.of_nat fuel -> 0 <= nAddSize < MAX_BLOCKFILE_SIZE ->
  is_Some (next_file fuel vinfo n fin nAddSize (Some tip)).
Proof.
  intros Hn Hf Ha. assert (Hnew : forall fuel v m fin, (0 < fuel)%nat -> v !! Z.to_nat m = Some CBlockFileInfo_null -> is_Some (next_file fuel v m fin nAddSize (Some tip))).
  { intros fuel' v m fin' Hf' E. destruct fuel' as [|fuel']; [lia|]. cbn [next_file]. rewrite E. cbn [mbind option_bind CBlockFileInfo_null fi_nSize]. unfold MAX_BLOCKFILE_SIZE in *.
    rewrite wrapU_small by (unfold inU; lia). destruct (Z.leb_spec 0x8000000 (0 + nAddSize)); [lia|by eexists]. }
  revert vinfo n fin Hn Hf. induction fuel as [|fuel IH]; intros vinfo n fin Hn Hf; [lia|]. cbn [next_file].
  destruct (lookup_lt_is_Some_2 vinfo (Z.to_nat n)) as [i Ei]; [lia|]. rewrite Ei. cbn [mbind option_bind]. destruct (_ <=? _); [|by eexists]. cbn [mbind option_bind].
  unfold resize_table. destruct (Z.leb_spec (Z.of_nat (length vinfo)) (n + 1)).
  - apply Hnew; [lia|]. rewrite lookup_app_r by lia. apply lookup_replicate. split; [done|lia].
  - apply IH; lia.
Qed.

(** ** Positions are new *)
Lemma set_info_step st st1 n i i' : store_ok st1 -> advance st st1 -> 0 <= n -> info_at st1 n = Some i -> info_ok i' -> fi_nSize i <= fi_nSize i' -> fi_nUndoSize i <= fi_nUndoSize i' ->
  let st2 := set_table st1 (<[Z.to_nat n := i']> (vinfoBlockFile st1)) (nLastBlockFile st1) in
  store_ok st2 /\ advance st st2 /\ info_at st2 n = Some i'.
Proof.
  intros [Hl Hf Hb Hr] Ha Hn Ei Hok Hs Hu st2. assert (Hat : info_at st2 n = Some i') by (unfold info_at; cbn [st2 set_table vinfoBlockFile]; apply list_lookup_insert_eq; by eapply lookup_lt_Some).
  split_and!; [|intros m j Hm Ej|done].
  - split; [cbn [st2 set_table vinfoBlockFile nLastBlockFile]; by rewrite length_insert|by apply Forall_insert|done..].
  - destruct (Ha m j Hm Ej) as (j1 & Ej1 & S1 & U1 & K1 & K2). destruct (decide (m = n)) as [->|Hne].
    + exists i'. unfold info_at in Ei, Ej1. rewrite Ei in Ej1. injection Ej1 as <-. split_and!; [done|lia|lia|done..].
    + exists j1. split_and!; [|lia|lia|done..]. unfold info_at. cbn [st2 set_table vinfoBlockFile]. rewrite list_lookup_insert_ne by lia. done.
Qed.

Lemma blk_after st st1 files pos : store_ok st1 -> advance st st1 -> 0 <= nFile pos -> (forall i, info_at st (nFile pos) = Some i -> fi_nSize i <= nPos pos) -> preserves pos (blk_files st1) files ->
  store_ok (set_files st1 files (rev_files st1)) /\ advance st (set_files st1 files (rev_files st1)).
Proof.
  intros [Hl Hi Hb Hr] Ha Hn Hp Hf. destruct (Hf Hb) as [Hok Hk]. split; [by split|]. intros n j Hn' Ej. destruct (Ha n j Hn' Ej) as (j1 & Ej1 & S1 & U1 & K1 & K2).
  exists j1. split_and!; [done|lia|lia| |done]. eapply kept_trans; [reflexivity|done|]. apply Hk. intros ->. by apply Hp.
Qed.

Lemma rev_after st st1 files pos : store_ok st1 -> advance st st1 -> 0 <= nFile pos -> (forall i, info_at st (nFile pos) = Some i -> fi_nUndoSize i <= nPos pos) -> preserves pos (rev_files st1) files ->
  store_ok (set_files st1 (blk_files st1) files) /\ advance st (set_files st1 (blk_files st1) files).
Proof.
  intros [Hl Hi Hb Hr] Ha Hn Hp Hf. destruct (Hf Hr) as [Hok Hk]. split; [by split|]. intros n j Hn' Ej. destruct (Ha n j Hn' Ej) as (j1 & Ej1 & S1 & U1 & K1 & K2).
  exists j1. split_and!; [done|lia|lia|done|]. eapply kept_trans; [reflexivity|done|]. apply Hk. intros ->. by apply Hp.
Qed.

Lemma extends_step st vinfo last : store_ok st -> extends (vinfoBlockFile st) vinfo -> 0 <= last < Z.of_nat (length vinfo) ->
  store_ok (set_table st vinfo last) /\ advance st (set_table st vinfo last).
Proof.
  intros [Hl Hi Hb Hr] He Hlast. split.
  - split; cbn [set_table vinfoBlockFile nLastBlockFile blk_files rev_files]; [split; [lia|left; lia]|by eapply extends_ok|done..].
  - intros n i Hn Ei. exists i. split_and!; [|lia|lia|by apply kept_refl..]. by eapply extends_lookup.
Qed.

(** [pos] is where the next block goes; [st1] counts it. *)
Definition allotted (st st1 : FileStore) (pos : FlatFilePos) (nAddSize : Z) : Prop :=
  0 <= nFile pos /\ 0 <= nPos pos /\ (forall i, info_at st (nFile pos) = Some i -> fi_nSize i <= nPos pos) /\
  exists i, info_at st1 (nFile pos) = Some i /\ nPos pos + nAddSize <= fi_nSize i /\ fi_nSize i < 2 ^ 31.

(** A block that is in a file already lies in its first 2 GB. *)
Definition known_ok (known : option FlatFilePos) (nAddSize : Z) : Prop :=
  match known with Some pos => 0 <= nFile pos /\ 0 <= nPos pos /\ nPos pos + nAddSize <= 2 ^ 31 | None => True end.

Lemma find_file_step st known nAddSize tip vinfo n fin : store_ok st -> known_ok known nAddSize ->
  let n0 := match known with Some pos => nFile pos | None => nLastBlockFile st end in
  let v0 := resize_table (vinfoBlockFile st) n0 in
  match known with Some _ => Some (v0, n0, false) | None => next_file (S (length v0)) v0 n0 false nAddSize tip end = Some (vinfo, n, fin) ->
  extends (vinfoBlockFile st) vinfo /\ 0 <= n < Z.of_nat (length vinfo) /\ 0 <= nLastBlockFile st < Z.of_nat (length vinfo) /\
  (known = None -> exists i, vinfo !! Z.to_nat n = Some i /\ u32 (fi_nSize i + nAddSize) < MAX_BLOCKFILE_SIZE).
Proof.
  intros Hok Hk n0 v0 E. destruct (ok_last st Hok) as [Hl Hin].
  assert (H0 : 0 <= n0) by (destruct known as [pos|]; cbn; [apply Hk|done]). destruct (resize_table_extends (vinfoBlockFile st) n0 H0) as [He Hlen]. fold v0 in He, Hlen.
  assert (Hlast : forall v, extends (vinfoBlockFile st) v -> 0 < Z.of_nat (length v) -> 0 <= nLastBlockFile st < Z.of_nat (length v)).
  { intros v [k ->]. rewrite length_app. lia. }
  destruct known as [pos|].
  - injection E as <- <- <-. split_and!; [done|lia|done|done|apply Hlast; [done|lia]|done].
  - apply next_file_spec in E as (He2 & Hle & i & Ei & Hi); [|done]. assert (n < Z.of_nat (length vinfo)) by (apply lookup_lt_Some in Ei; lia).
    split_and!; [by eapply extends_trans|lia|done|done|apply Hlast; [by eapply extends_trans|lia]|]. intros _. by exists i.
Qed.

Lemma FindBlockPos_step fPruneMode env st known nAddSize nHeight nTime tip st1 r : store_ok st -> 0 <= nAddSize < MAX_BLOCKFILE_SIZE -> known_ok known nAddSize ->
  FindBlockPos fPruneMode env st known nAddSize nHeight nTime tip = Some (st1, r) ->
  store_ok st1 /\ advance st st1 /\ (known = None -> forall pos, r = Some pos -> allotted st st1 pos nAddSize).
Proof.
  intros Hok Ha Hk E. unfold FindBlockPos in E. cbv zeta in E.
  match type of E with mbind _ ?o = _ => destruct o as [[[vinfo n] fin]|] eqn:En; [|done] end. cbn [mbind option_bind] in E.
  pose proof (find_file_step st known nAddSize tip vinfo n fin Hok Hk En) as (He & Hn & Hlast & Hfit). clear En.
  destruct (vinfo !! Z.to_nat n) as [i|] eqn:Ei; [|done]. cbn [mbind option_bind] in E.
  destruct (extends_step st vinfo (nLastBlockFile st) Hok He Hlast) as [Hok1 Ha1]. set (sta := set_table st vinfo (nLastBlockFile st)) in *.
  match type of E with mbind _ ?o = _ => destruct o as [stb|] eqn:Eb; [|done] end. cbn [mbind option_bind] in E.
  assert (store_ok stb /\ advance st stb /\ vinfoBlockFile stb = vinfo) as (Hok2 & Ha2 & Ev).
  { destruct (negb (n =? nLastBlockFile sta)).
    - destruct (FlushBlockFile env sta _ fin) as [stf|] eqn:Ef; [|done]. injection Eb as <-. apply FlushBlockFile_step in Ef as (H1 & H2 & H3 & _); [|done].
      destruct (extends_step stf (vinfoBlockFile stf) n H1) as [H4 H5]; [exists 0%nat; by rewrite app_nil_r|by rewrite H3|].
      split_and!; [done| |done]. eapply advance_trans; [done|]. by eapply advance_trans.
    - by injection Eb as <-. }
  assert (Ei2 : info_at stb n = Some i) by (unfold info_at; by rewrite Ev). destruct (info_at_ok stb n i Hok2 Ei2) as [Hs Hu].
  assert (Hold : forall j, info_at st n = Some j -> j = i). { intros j Ej. pose proof (extends_lookup _ _ _ _ He Ej) as Ej'. unfold info_at in *. congruence. }
  assert (H27 : MAX_BLOCKFILE_SIZE = 2 ^ 27) by done. destruct known as [pos|].
  - destruct Hk as (Hk1 & Hk2 & Hk3). cbn [negb AddBlock fi_nSize] in E. injection E as <- <-. rewrite wrapU_small by (unfold inU; lia).
    set (i' := set_nSize _ _). destruct (set_info_step st stb n i i' Hok2 Ha2 (proj1 Hn) Ei2) as (H1 & H2 & _).
    + split; [cbn; lia|exact Hu].
    + cbn. lia.
    + cbn. lia.
    + destruct H1. by split_and!.
  - destruct (Hfit eq_refl) as (i2 & Ei3 & Hfit2). assert (i2 = i) as -> by congruence. rewrite wrapU_small in Hfit2 by (unfold inU; lia).
    cbn [negb AddBlock fi_nSize] in E. rewrite wrapU_small in E by (unfold inU; lia). set (i' := set_nSize _ _) in E.
    destruct (set_info_step st stb n i i' Hok2 Ha2 (proj1 Hn) Ei2) as (H1 & H2 & H3); [split; [cbn; lia|exact Hu]|cbn; lia|cbn; lia|]. set (stc := set_table stb _ _) in *.
    assert (Hold' : forall j, info_at st n = Some j -> fi_nSize j <= fi_nSize i) by (intros j ->%Hold; lia).
    pose proof (Allocate_preserves (e_allocate env) BLOCKFILE_CHUNK_SIZE (blk_files stc) {| nFile := n; nPos := fi_nSize i |} nAddSize (proj1 Hs)) as HA.
    destruct (FlatFileSeq_Allocate _ _ _ _ _) as [[files bytes] out]. cbn [fst] in HA. destruct (blk_after st stc files {| nFile := n; nPos := fi_nSize i |} H1 H2 (proj1 Hn) Hold' HA) as [[H4 H5 H6 H7] H8].
    destruct out; injection E as <- <-; (split_and!; [by split|exact H8|]); [done|]. intros _ pos [= <-]. split_and!; [exact (proj1 Hn)|exact (proj1 Hs)|exact Hold'|]. exists i'. split_and!; [exact H3|cbn; lia|cbn; lia].
Qed.

(** ** Records *)
Definition holds_bytes (files : gmap Z File) (n off : Z) (bytes : list Z) : Prop :=
  0 <= off /\ exists f, files !! n = Some f /\ off + Z.of_nat (length bytes) <= f_size f /\ take (length bytes) (drop (Z.to_nat off) (content f)) = bytes.

Lemma holds_bytes_kept bound n off bytes files files' : off + Z.of_nat (length bytes) <= bound -> kept bound n files files' -> holds_bytes files n off bytes -> holds_bytes files' n off bytes.
Proof.
  intros Hb Hk (Ho & f & Hf & Hs & E). split; [done|]. destruct (Hk f Hf) as (f' & Hf' & _ & Hsame). exists f'.
  destruct (Hsame (Z.to_nat off + length bytes)%nat) as [Hs' E']; [lia..|]. split_and!; [done|lia|]. by rewrite take_drop_commute, E', <-take_drop_commute.
Qed.

Lemma holds_bytes_read files pos bytes : holds_bytes files (nFile pos) (nPos pos) bytes -> IsNull_pos pos = false -> exists rest, FlatFileSeq_Open_read files pos = Some (bytes ++ rest).
Proof.
  intros (Ho & f & Hf & Hs & E) Hp. unfold FlatFileSeq_Open_read. rewrite Hp, Hf. cbn [mbind option_bind]. exists (drop (length bytes) (drop (Z.to_nat (nPos pos)) (content f))).
  set (l := drop _ (content f)) in *. f_equal. rewrite <-(take_drop (length bytes) l) at 1. by rewrite E.
Qed.

Lemma WriteRecord_holds messageStart io files pos size data files' pos' : length messageStart = 4%nat -> files_ok files -> 0 <= nPos pos -> nPos pos + 8 + Z.of_nat (length data) < 2 ^ 32 ->
  WriteRecord messageStart io files pos size data = (files', wrote pos') -> nFile pos' = nFile pos /\ nPos pos' = nPos pos + 8 /\ holds_bytes files' (nFile pos) (nPos pos + 8) data.
Proof.
  intros Hm Hok Hp Hfit. unfold WriteRecord. pose proof (Open_preserves io files pos pos Hok) as [Hok' _]. destruct (FlatFileSeq_Open io files pos) as [files1 []]; [|done]. cbn [negb fst] in *.
  assert (Hlen4 : length (Serialize u32c size) = 4%nat) by done. revert Hlen4. generalize (Serialize u32c size). intros bsize Hlen4.
  unfold autofile_write. destruct (io_written io); [done|]. intros [= <- <-]. cbn [nFile nPos]. rewrite Hm, wrapU_small by (unfold inU; lia). split_and!; [done|lia|].
  split; [lia|]. unfold on_file. set (f := default _ _). assert (Hf : file_ok f) by (unfold f; destruct (files1 !! nFile pos) as [g|] eqn:E; [by apply (Hok' _ g E)|done]).
  eexists. rewrite lookup_insert_eq. split; [done|]. destruct (write_at_data f (nPos pos) (messageStart ++ bsize ++ data) Hf Hp) as [rest E].
  assert (Hlen : length (messageStart ++ bsize ++ data) = (8 + length data)%nat) by (rewrite !length_app, Hm, Hlen4; done). split.
  - unfold write_at. cbn [f_size]. rewrite Hlen. lia.
  - replace (Z.to_nat (nPos pos + 8)) with (8 + Z.to_nat (nPos pos))%nat by lia. rewrite Nat.add_comm, <-drop_drop, E, <-!app_assoc, app_assoc.
    rewrite (drop_app_length' (messageStart ++ bsize)) by (rewrite length_app, Hm, Hlen4; done). by rewrite take_app_length.
Qed.

(** ** Steps of the store *)
Section store.
Context (fPruneMode : bool) (params : PosParams) (GetHash : CBlockHeader -> uint256) (messageStart : list Z).
Context (IsFullyValid : list Z -> bool) (Decompress : list Z -> option (list Z)).
Context (Hstart : length messageStart = 4%nat).
Notation CBlockUndo_codec := (CBlockUndo_codec IsFullyValid Decompress).
Notation SaveBlockToDisk := (SaveBlockToDisk fPruneMode messageStart).
Notation WriteUndoDataForBlock := (WriteUndoDataForBlock fPruneMode messageStart IsFullyValid Decompress).

Definition block_fits (block : CBlock) : Prop := Z.of_nat (length (Serialize CBlock_codec block)) + 8 < MAX_BLOCKFILE_SIZE.
Definition undo_size (undo : list (list Coin)) : Z := Z.of_nat (length (Serialize CBlockUndo_codec undo)) + 40.
Definition undo_fits (st : FileStore) (n : Z) (undo : list (list Coin)) : Prop := undo_size undo < 2 ^ 32 /\ forall i, info_at st n = Some i -> fi_nUndoSize i + undo_size undo < 2 ^ 32.

Definition new_store : FileStore :=
  {| vinfoBlockFile := []; nLastBlockFile := 0; setDirtyFileInfo := ∅; fCheckForPruning := false; aborted := false; blk_files := ∅; rev_files := ∅ |}.

(** What happens to the store; with [bounded] the undo data of every file stays below
    2^32 bytes, which the code does not check. *)
Inductive store_step (bounded : bool) : FileStore -> FileStore -> Prop :=
  | step_save env st block nHeight dbp tip st' w :
      block_fits block -> known_ok dbp (Z.of_nat (length (Serialize CBlock_codec block)) + 8) ->
      SaveBlockToDisk env st block nHeight dbp tip = Some (st', w) -> store_step bounded st st'
  | step_undo env st undo pindex hashPrev st' pindex' w :
      0 <= di_nFile pindex -> (bounded = true -> undo_fits st (di_nFile pindex) undo) ->
      WriteUndoDataForBlock env st undo pindex hashPrev = Some (st', pindex', w) -> store_step bounded st st'
  | step_flush env st fFinalize finalize_undo st' : FlushBlockFile env st fFinalize finalize_undo = Some st' -> store_step bounded st st'.

Definition block_held (st : FileStore) (pos : FlatFilePos) (bytes : list Z) : Prop :=
  0 <= nFile pos /\ exists i, info_at st (nFile pos) = Some i /\ nPos pos + Z.of_nat (length bytes) <= fi_nSize i /\ holds_bytes (blk_files st) (nFile pos) (nPos pos) bytes.
Definition undo_held (st : FileStore) (pos : FlatFilePos) (bytes : list Z) : Prop :=
  0 <= nFile pos /\ exists i, info_at st (nFile pos) = Some i /\ nPos pos + Z.of_nat (length bytes) <= fi_nUndoSize i /\ holds_bytes (rev_files st) (nFile pos) (nPos pos) bytes.

Lemma block_held_advance st st' pos bytes : blk_advance st st' -> block_held st pos bytes -> block_held st' pos bytes.
Proof.
  intros Ha (Hn & i & Ei & Hb & Hh). destruct (Ha _ i Hn Ei) as (i' & Ei' & Hs & Hk). split; [done|]. exists i'. split_and!; [done|lia|]. by eapply holds_bytes_kept.
Qed.
Lemma undo_held_advance st st' pos bytes : advance st st' -> undo_held st pos bytes -> undo_held st' pos bytes.
Proof.
  intros Ha (Hn & i & Ei & Hb & Hh). destruct (Ha _ i Hn Ei) as (i' & Ei' & _ & Hs & _ & Hk). split; [done|]. exists i'. split_and!; [done|lia|]. by eapply holds_bytes_kept.
Qed.

Lemma SaveBlockToDisk_step env st block nHeight dbp tip st' w :
  store_ok st -> block_fits block -> known_ok dbp (Z.of_nat (length (Serialize CBlock_codec block)) + 8) -> SaveBlockToDisk env st block nHeight dbp tip = Some (st', w) ->
  store_ok st' /\ advance st st' /\ (dbp = None -> forall pos, w = wrote pos -> IsNull_pos pos = false -> block_held st' pos (Serialize CBlock_codec block)).
Proof.
  intros Hok Hfit Hk E. unfold BlockFiles.SaveBlockToDisk in E. unfold block_fits in Hfit. assert (H27 : MAX_BLOCKFILE_SIZE = 2 ^ 27) by done. set (len := Z.of_nat (length (Serialize CBlock_codec block))) in *.
  assert (0 <= len) by lia. rewrite (wrapU_small 32 len), (wrapU_small 32 (len + 8)) in E by (unfold inU; lia).
  destruct (FindBlockPos _ _ _ _ _ _ _ _) as [[st1 r]|] eqn:Ef; [|done]. cbn [mbind option_bind] in E. apply FindBlockPos_step in Ef as (Hok1 & Ha1 & Hpos); [|done|lia|done].
  destruct r as [pos|]; [|injection E as <- <-; split_and!; [done..|]; by intros _ pos [= <-]].
  destruct dbp as [known|]; [by injection E as <- <-|]. destruct (Hpos eq_refl pos eq_refl) as (Hn & Hp & Hold & i & Ei & Hi & Hi2).
  unfold WriteBlockToDisk in E. fold len in E. rewrite (wrapU_small 32 len) in E by (unfold inU; lia).
  pose proof (WriteRecord_preserves messageStart (e_write env) (blk_files st1) pos len (Serialize CBlock_codec block) Hp) as HW.
  destruct (WriteRecord _ _ _ _ _ _) as [files w1] eqn:Ew. cbn [fst] in HW. destruct (blk_after st st1 files pos Hok1 Ha1 Hn Hold HW) as [Hok2 Ha2].
  destruct w1 as [pos'| |].
  - injection E as <- <-. split_and!; [done..|]. intros _ pos2 [= ->] _. apply WriteRecord_holds in Ew as (En & Ep & Hh); [|done|by apply ok_blk|done|fold len; lia].
    split; [by rewrite En|]. rewrite En, Ep. exists i. split_and!; [done|fold len; lia|done].
  - injection E as <- <-. destruct (AbortNode_step st _ true (conj Hok2 Ha2)) as [H1 H2]. split_and!; [done..|]. by intros _ pos2 [= <-].
  - injection E as <- <-. by split_and!.
Qed.

Definition undo_record (undo : list (list Coin)) (hashPrev : uint256) : list Z :=
  Serialize CBlockUndo_codec undo ++ Serialize uint256c (Hash (Serialize uint256c hashPrev ++ Serialize CBlockUndo_codec undo)).

Lemma length_undo_record undo hashPrev : Z.of_nat (length (undo_record undo hashPrev)) = undo_size undo - 8.
Proof. unfold undo_record, undo_size. rewrite length_app. cbn [uint256c Serialize]. rewrite length_reverse, length_le_bytes. lia. Qed.

Lemma FindUndoPos_step env st n nAddSize st1 r : store_ok st -> 0 <= n -> 0 <= nAddSize -> (forall i, info_at st n = Some i -> fi_nUndoSize i + nAddSize < 2 ^ 32) ->
  FindUndoPos fPruneMode env st n nAddSize = Some (st1, r) ->
  store_ok st1 /\ advance st st1 /\ forall pos, r = Some pos ->
    nFile pos = n /\ 0 <= nPos pos /\ (forall i, info_at st n = Some i -> fi_nUndoSize i <= nPos pos) /\ exists i, info_at st1 n = Some i /\ fi_nUndoSize i = nPos pos + nAddSize.
Proof using Type.
  clear Hstart. intros Hok Hn Ha Hfit E. unfold FindUndoPos in E. destruct (vinfoBlockFile st !! Z.to_nat n) as [i|] eqn:Ei; [|done]. cbn [mbind option_bind] in E.
  specialize (Hfit i Ei). destruct (info_at_ok st n i Hok Ei) as [Hs [Hu _]]. rewrite wrapU_small in E by (unfold inU; lia).
  set (i' := set_nUndoSize i _) in E. destruct (set_info_step st st n i i' Hok (advance_refl st Hok) Hn Ei) as (H1 & H2 & H3); [split; [exact Hs|unfold inU; cbn; lia]|cbn; lia|cbn; lia|].
  set (stc := set_table st _ _) in *. change (rev_files (set_dirty stc n)) with (rev_files stc) in E. change (blk_files (set_dirty stc n)) with (blk_files stc) in E.
  pose proof (Allocate_preserves (e_allocate env) UNDOFILE_CHUNK_SIZE (rev_files stc) {| nFile := n; nPos := fi_nUndoSize i |} nAddSize Hu) as HA.
  destruct (FlatFileSeq_Allocate _ _ _ _ _) as [[files bytes] out]. cbn [fst] in HA.
  assert (Hold : forall j, info_at st n = Some j -> fi_nUndoSize j <= fi_nUndoSize i) by (intros j Ej; unfold info_at in Ej; rewrite Ei in Ej; injection Ej as <-; lia).
  destruct (rev_after st stc files {| nFile := n; nPos := fi_nUndoSize i |} H1 H2 Hn Hold HA) as [[H4 H5 H6 H7] H8].
  destruct out; injection E as <- <-; (split_and!; [by split|exact H8|]); [done|]. intros pos [= <-]. split_and!; [done|exact Hu|exact Hold|]. by exists i'.
Qed.

(** FindBlockPos has a limit for the size of a file, FindUndoPos has none: when the count
    of the bytes of undo data passes 2^32, the next undo data of this file is written over
    that of other blocks. *)
Theorem FindUndoPos_wraps env st n i nAddSize st1 pos :
  info_at st n = Some i -> inU 32 nAddSize -> inU 32 (fi_nUndoSize i) -> 2 ^ 32 <= fi_nUndoSize i + nAddSize ->
  FindUndoPos fPruneMode env st n nAddSize = Some (st1, Some pos) ->
  exists i1, info_at st1 n = Some i1 /\ fi_nUndoSize i1 = fi_nUndoSize i + nAddSize - 2 ^ 32 /\ fi_nUndoSize i1 < fi_nUndoSize i.
Proof using Type.
  clear Hstart. intros Ei Ha [Hu1 Hu2] Hw E. unfold FindUndoPos in E. unfold info_at in Ei. rewrite Ei in E. cbn [mbind option_bind] in E. unfold inU in *.
  assert (u32 (fi_nUndoSize i + nAddSize) = fi_nUndoSize i + nAddSize - 2 ^ 32) as Ew.
  { unfold wrapU. rewrite <-(Z.mod_small (fi_nUndoSize i + nAddSize - 2 ^ 32) (2 ^ 32)) by lia. by rewrite <-Zminus_mod_idemp_r, Z.mod_same, Z.sub_0_r by lia. }
  rewrite Ew in E. destruct (FlatFileSeq_Allocate _ _ _ _ _) as [[files bytes] []]; [done|]. injection E as <- _.
  exists (set_nUndoSize i (fi_nUndoSize i + nAddSize - 2 ^ 32)). split; [|split; [reflexivity|cbn [set_nUndoSize fi_nUndoSize]; lia]]. unfold info_at. cbn [check_pruning set_files set_dirty set_table vinfoBlockFile]. apply list_lookup_insert_eq. by eapply lookup_lt_Some.
Qed.

Lemma WriteUndoDataForBlock_step env st undo pindex hashPrev st' pindex' w :
  store_ok st -> 0 <= di_nFile pindex -> undo_fits st (di_nFile pindex) undo -> WriteUndoDataForBlock env st undo pindex hashPrev = Some (st', pindex', w) ->
  store_ok st' /\ advance st st' /\
  (IsNull_pos (GetUndoPos pindex) = true -> w = wrote tt -> undo_held st' (GetUndoPos pindex') (undo_record undo hashPrev)).
Proof using Hstart.
  intros Hok Hn [Hsize Hfit] E. unfold BlockFiles.WriteUndoDataForBlock in E. destruct (IsNull_pos (GetUndoPos pindex)) eqn:Enull; cbn [negb] in E; [|injection E as <- <- <-; split_and!; [done|by apply advance_refl|done]].
  unfold undo_size in Hsize. cbv zeta in E. rewrite (wrapU_small 32 (Z.of_nat _)), (wrapU_small 32 (Z.of_nat _ + 40)) in E by (unfold inU; lia).
  destruct (FindUndoPos _ _ _ _ _) as [[st1 r]|] eqn:Ef; [|done]. cbn [mbind option_bind] in E. apply FindUndoPos_step in Ef as (Hok1 & Ha1 & Hpos); [|done|done|lia|exact Hfit].
  destruct r as [pos|]; [|by injection E as <- <- <-]. destruct (Hpos pos eq_refl) as (Hnf & Hp & Hold & i & Ei & Hi). clear Hpos. rewrite <-Hnf in *.
  unfold UndoWriteToDisk in E. fold (undo_record undo hashPrev) in E. rewrite (wrapU_small 32 (Z.of_nat _)) in E by (unfold inU; lia).
  pose proof (WriteRecord_preserves messageStart (e_write env) (rev_files st1) pos (Z.of_nat (length (Serialize CBlockUndo_codec undo))) (undo_record undo hashPrev) Hp) as HW.
  destruct (WriteRecord _ _ _ _ _ _) as [files w1] eqn:Ew. cbn [fst] in HW. destruct (rev_after st st1 files pos Hok1 Ha1 Hn Hold HW) as [Hok2 Ha2]. set (st2 := set_files st1 _ _) in *.
  destruct w1 as [pos'| |]; [|injection E as <- <- <-; destruct (AbortNode_step st st2 true (conj Hok2 Ha2)); by split_and!|injection E as <- <- <-; by split_and!].
  destruct (info_at_ok st1 _ i Hok1 Ei) as [_ [_ Hi32]]. rewrite Hi in Hi32. pose proof (length_undo_record undo hashPrev) as Hlen. unfold undo_size in Hlen.
  apply WriteRecord_holds in Ew as (En & Ep & Hh); [|done|by apply ok_rev|done|lia].
  assert (Hheld : undo_held st2 pos' (undo_record undo hashPrev)). { split; [by rewrite En|]. rewrite En, Ep. exists i. split_and!; [done|lia|done]. }
  match type of E with mbind _ ?o = _ => destruct o as [st3|] eqn:E3; [|done] end. cbn [mbind option_bind] in E. injection E as <- <- <-.
  assert (store_ok st3 /\ advance st2 st3) as [Hok3 Ha3].
  { destruct (nFile pos' <? nLastBlockFile st2); [|injection E3 as <-; split; [done|by apply advance_refl]]. destruct (vinfoBlockFile st2 !! Z.to_nat (nFile pos')) as [j|]; [|done].
    cbn [mbind option_bind] in E3. destruct (_ =? _); [|injection E3 as <-; split; [done|by apply advance_refl]].
    apply FlushUndoFile_step in E3 as (? & ? & _); [done|done|by rewrite En]. }
  split_and!; [done|by eapply advance_trans|]. intros _ _. apply (undo_held_advance st2); [done|].
  assert (GetUndoPos {| di_nFile := nFile pos; di_nDataPos := di_nDataPos pindex; di_nUndoPos := nPos pos'; di_nStatus := Z.lor (di_nStatus pindex) BLOCK_HAVE_UNDO; di_nHeight := di_nHeight pindex; di_dirty := true |} = pos') as Epos; [|by rewrite Epos].
  unfold GetUndoPos. cbn [di_nStatus di_nFile di_nUndoPos]. destruct pos' as [n' p']. cbn [nFile nPos] in *. subst n'.
  assert (has_bits (Z.lor (di_nStatus pindex) BLOCK_HAVE_UNDO) BLOCK_HAVE_UNDO = true) as ->; [|done].
  unfold has_bits. apply negb_true_iff, Z.eqb_neq. intros H0. assert (Z.testbit (Z.land (Z.lor (di_nStatus pindex) BLOCK_HAVE_UNDO) BLOCK_HAVE_UNDO) 4 = true) by (rewrite Z.land_spec, Z.lor_spec, orb_true_r; done).
  rewrite H0, Z.bits_0 in *. done.
Qed.

(** Writing undo data without a bound: the blocks are not touched. *)
Lemma FindUndoPos_blocks env st n nAddSize st1 r : store_ok st -> 0 <= n -> FindUndoPos fPruneMode env st n nAddSize = Some (st1, r) ->
  store_ok st1 /\ same_blocks st st1 /\ forall pos, r = Some pos -> nFile pos = n /\ 0 <= nPos pos.
Proof using Type.
  clear Hstart. intros Hok Hn E. unfold FindUndoPos in E. destruct (vinfoBlockFile st !! Z.to_nat n) as [i|] eqn:Ei; [|done]. cbn [mbind option_bind] in E.
  destruct (info_at_ok st n i Hok Ei) as [Hs Hu]. set (i' := set_nUndoSize i _) in E.
  assert (info_ok i') as Hi' by (split; [exact Hs|apply wrapU_range; lia]).
  set (stc := set_dirty _ n) in E. pose proof (Allocate_preserves (e_allocate env) UNDOFILE_CHUNK_SIZE (rev_files stc) {| nFile := n; nPos := fi_nUndoSize i |} nAddSize (proj1 Hu)) as HA.
  destruct (FlatFileSeq_Allocate _ _ _ _ _) as [[files bytes] out]. cbn [fst] in HA. destruct Hok as [Hl Hf Hb Hr]. destruct (HA Hr) as [Hr' _].
  assert (store_ok (set_files stc (blk_files stc) files) /\ same_blocks st (set_files stc (blk_files stc) files)) as [[H1 H2 H3 H4] H5].
  { split; [split; cbn [stc set_files set_dirty set_table vinfoBlockFile nLastBlockFile blk_files rev_files]; [by rewrite length_insert|by apply Forall_insert|done..]|].
    split; [done|]. intros m. unfold info_at. cbn [stc set_files set_dirty set_table vinfoBlockFile]. destruct (decide (Z.to_nat m = Z.to_nat n)) as [->|Hne].
    - rewrite list_lookup_insert_eq by (by eapply lookup_lt_Some). by rewrite Ei.
    - by rewrite list_lookup_insert_ne. }
  destruct out; injection E as <- <-; (split_and!; [by split|exact H5|]); [done|]. intros pos [= <-]. split; [done|exact (proj1 Hu)].
Qed.

Lemma WriteUndoDataForBlock_blocks env st undo pindex hashPrev st' pindex' w :
  store_ok st -> 0 <= di_nFile pindex -> WriteUndoDataForBlock env st undo pindex hashPrev = Some (st', pindex', w) -> store_ok st' /\ same_blocks st st'.
Proof using Type.
  clear Hstart. intros Hok Hn E. unfold BlockFiles.WriteUndoDataForBlock in E. destruct (negb _); [by injection E as <- <- <-|].
  cbv zeta in E. destruct (FindUndoPos _ _ _ _ _) as [[st1 r]|] eqn:Ef; [|done]. cbn [mbind option_bind] in E.
  apply FindUndoPos_blocks in Ef as (Hok1 & Hb1 & Hpos); [|done..]. destruct r as [pos|]; [|by injection E as <- <- <-]. destruct (Hpos pos eq_refl) as [Hf Hp].
  unfold UndoWriteToDisk in E. match type of E with context [WriteRecord ?a ?b ?c ?d ?e ?f] => pose proof (WriteRecord_preserves a b c d e f Hp) as HW; destruct (WriteRecord a b c d e f) as [files w1] eqn:Ew end.
  cbn [fst] in HW. destruct Hok1 as [Hl Hi Hb Hr]. destruct (HW Hr) as [Hr' _].
  assert (store_ok (set_files st1 (blk_files st1) files)) as Hok2 by (by split). assert (same_blocks st (set_files st1 (blk_files st1) files)) as Hb2 by exact Hb1.
  set (st2 := set_files st1 _ _) in *. destruct w1 as [pos'| |]; [|injection E as <- <- <-; split; [by destruct Hok2|exact Hb2]|by injection E as <- <- <-].
  match type of E with mbind _ ?o = _ => destruct o as [st3|] eqn:E3; [|done] end. cbn [mbind option_bind] in E. injection E as <- <- <-.
  assert (nFile pos' = nFile pos) as En.
  { unfold WriteRecord in Ew. destruct (FlatFileSeq_Open _ _ _) as [f1 []]; [|done]. cbn [negb] in Ew. destruct (autofile_write _ _ _ _) as [f2 []]; [|done]. by injection Ew as _ <-. }
  destruct (nFile pos' <? nLastBlockFile st2); [|by injection E3 as <-]. destruct (vinfoBlockFile st2 !! Z.to_nat (nFile pos')) as [j|]; [|done].
  cbn [mbind option_bind] in E3. destruct (_ =? _); [|by injection E3 as <-]. apply FlushUndoFile_step in E3 as (Hok3 & _ & Ev & _ & Eb); [|done|by rewrite En, Hf].
  split; [done|]. eapply same_blocks_trans; [exact Hb2|]. split; [done|]. intros n. unfold info_at. by rewrite Ev.
Qed.

Lemma store_step_ok bounded st st' : store_ok st -> store_step bounded st st' -> store_ok st' /\ blk_advance st st' /\ (bounded = true -> advance st st').
Proof using Hstart.
  intros Hok H. revert Hok. destruct H as [env st0 block nHeight dbp tip st1 w Hf Hk E|env st0 undo pindex hashPrev st1 pindex' w Hn Hf E|env st0 a b st1 E]; intros Hok.
  - destruct (SaveBlockToDisk_step _ _ _ _ _ _ _ _ Hok Hf Hk E) as (? & ? & _). split_and!; [done|by apply advance_blk|done].
  - destruct (WriteUndoDataForBlock_blocks _ _ _ _ _ _ _ _ Hok Hn E) as [? ?]. split_and!; [done|by apply same_blocks_advance|].
    intros Hb. by destruct (WriteUndoDataForBlock_step _ _ _ _ _ _ _ _ Hok Hn (Hf Hb) E) as (_ & ? & _).
  - destruct (FlushBlockFile_step _ _ _ _ _ Hok E) as (? & ? & _). split_and!; [done|by apply advance_blk|done].
Qed.

Lemma store_steps_ok bounded st st' : store_ok st -> rtc (store_step bounded) st st' -> store_ok st' /\ blk_advance st st' /\ (bounded = true -> advance st st').
Proof using Hstart.
  intros Hok H. induction H as [st|st1 st2 st3 H _ IH]; [split_and!; [done|by apply advance_blk, advance_refl|by intros _; apply advance_refl]|].
  destruct (store_step_ok bounded st1 st2 Hok H) as (Hok2 & Hb & Ha). destruct (IH Hok2) as (Hok3 & Hb' & Ha').
  split_and!; [done|by eapply blk_advance_trans|]. intros E. eapply advance_trans; [by apply Ha|by apply Ha'].
Qed.

Lemma new_store_ok : store_ok new_store.
Proof using Type. clear Hstart. split; [cbn; lia|constructor|apply map_Forall_empty..]. Qed.

(** ** Blocks as they are stored *)
#[local] Instance tx_codec_laws : CodecLaws tx_codec.
Proof using Type.
  clear Hstart. split; cbn [tx_codec Serialize Unserialize SerOk]; intros tx; [|intros rest]; intros [Hok Hh].
  - destruct (Serialize_tx_fields tx Hok) as [-> Hs]. pose proof tx_fields_laws. by apply ser_bytes.
  - by apply Unserialize_Serialize_tx.
Qed.

Definition unchecked (block : CBlock) : CBlock := {| b_header := b_header block; b_vtx := b_vtx block; b_vchBlockSig := b_vchBlockSig block; b_fChecked := false |}.

Lemma Unserialize_block block rest : SerOk CBlock_codec block -> Unserialize CBlock_codec (Serialize CBlock_codec block ++ rest) = Some (unchecked block, rest).
Proof using Type.
  clear Hstart. intros Hok. unfold CBlock_codec, isoc. cbn [Serialize Unserialize]. rewrite unser_ser by exact Hok. done.
Qed.

(** The bytes are those whose size CheckBlock looks at. *)
Lemma Serialize_block_codec block : Serialize CBlock_codec block = Serialize_block block.
Proof using Type.
  clear Hstart. unfold CBlock_codec, Serialize_block, isoc, condc. cbn [Serialize fst snd]. unfold pairc, vecc, block_signed, IsProofOfStake_block. cbn [Serialize fst snd].
  rewrite <-!app_assoc. do 3 f_equal. induction (b_vtx block) as [|tx vtx IH]; [done|]. cbn [fmap list_fmap concat mjoin list_join]. by rewrite IH.
Qed.

(** A block that can be written and passes the test of the reader. *)
Definition storable (block : CBlock) : Prop :=
  SerOk CBlock_codec block /\ block_fits block /\
  (IsProofOfWork_block block = true -> CheckProofOfWork params (GetHash (b_header block)) (h_nBits (b_header block)) = true).

(** C25: once SaveBlockToDisk has given a position, the block is read back there, whatever is
    stored later: other blocks, undo data of any size, flushes that truncate files,
    writes that fail half way, allocations that find no space.  (Blocks are below the
    size of a file, and blocks that are known already lie in the first 2 GB of one.) *)
Theorem SaveBlockToDisk_durable env st block nHeight tip st1 pos st2 :
  rtc (store_step false) new_store st -> storable block ->
  SaveBlockToDisk env st block nHeight None tip = Some (st1, wrote pos) -> IsNull_pos pos = false ->
  rtc (store_step false) st1 st2 ->
  ReadBlockFromDisk params GetHash (blk_files st2) pos = Some (unchecked block).
Proof using Hstart.
  intros Hr (Hser & Hfit & Hpow) Es Hp Hs. destruct (store_steps_ok _ _ _ new_store_ok Hr) as [Hok _].
  apply SaveBlockToDisk_step in Es as (Hok1 & _ & Hheld); [|done..]. specialize (Hheld eq_refl pos eq_refl Hp).
  destruct (store_steps_ok _ _ _ Hok1 Hs) as (_ & Ha & _). destruct (block_held_advance _ _ _ _ Ha Hheld) as (_ & i & _ & _ & Hh).
  destruct (holds_bytes_read _ pos _ Hh Hp) as [rest Eread]. unfold ReadBlockFromDisk. rewrite Eread. cbn [mbind option_bind]. rewrite Unserialize_block by done. cbn [mbind option_bind].
  change (IsProofOfWork_block (unchecked block)) with (IsProofOfWork_block block). destruct (IsProofOfWork_block block); [|done]. cbn [unchecked b_header]. by rewrite Hpow.
Qed.

(** What the system has to do for a block to be stored. *)
Definition works (io : Io) : Prop := io_open io = true /\ io_seek io = true /\ (forall n, io_space io n = true) /\ io_written io = None.

Lemma Open_works io files pos : works io -> IsNull_pos pos = false -> (FlatFileSeq_Open io files pos).2 = true.
Proof using Type. clear Hstart. intros (H1 & H2 & _) Hp. unfold FlatFileSeq_Open. rewrite Hp, H1, H2. cbn [negb]. by rewrite andb_false_r. Qed.

Lemma FlushBlockFile_total env st a b : nLastBlockFile st < Z.of_nat (length (vinfoBlockFile st)) -> 0 <= nLastBlockFile st -> is_Some (FlushBlockFile env st a b).
Proof using Type.
  clear Hstart. intros Hlt Hl. unfold FlushBlockFile. destruct (lookup_lt_is_Some_2 (vinfoBlockFile st) (Z.to_nat (nLastBlockFile st))) as [i Ei]; [lia|]. rewrite Ei. cbn [mbind option_bind].
  destruct (FlatFileSeq_Flush _ _ _ _) as [files ok]. destruct (_ || _); [|by eexists]. unfold FlushUndoFile. cbn [AbortNode set_files vinfoBlockFile nLastBlockFile]. rewrite Ei. cbn [mbind option_bind].
  destruct (FlatFileSeq_Flush _ _ _ _) as [files' ok']. by eexists.
Qed.

Lemma FindBlockPos_total env st nAddSize nHeight nTime tip : store_ok st -> 0 <= nAddSize < MAX_BLOCKFILE_SIZE ->
  exists st1 r, FindBlockPos fPruneMode env st None nAddSize nHeight nTime (Some tip) = Some (st1, r) /\ (works (e_allocate env) -> is_Some r).
Proof using Type.
  clear Hstart. intros Hok Ha. unfold FindBlockPos. cbv zeta. destruct (ok_last st Hok) as [Hl _].
  destruct (resize_table_extends (vinfoBlockFile st) (nLastBlockFile st) Hl) as [He Hlen]. set (v0 := resize_table _ _) in *.
  destruct (next_file_total (S (length v0)) v0 (nLastBlockFile st) false nAddSize tip ltac:(lia) ltac:(lia) Ha) as [[[vinfo n] fin] En]. rewrite En. cbn [mbind option_bind].
  pose proof (find_file_step st None nAddSize (Some tip) vinfo n fin Hok I En) as (_ & Hn & Hlast & _).
  destruct (lookup_lt_is_Some_2 vinfo (Z.to_nat n)) as [i Ei]; [lia|]. rewrite Ei. cbn [mbind option_bind negb].
  match goal with |- context [mbind _ ?o = _] => assert (is_Some o) as [st1 E1] end.
  { destruct (negb _); [|by eexists]. destruct (FlushBlockFile_total env (set_table st vinfo (nLastBlockFile st)) true fin) as [stf ->]; [cbn; lia|cbn; lia|]. by eexists. }
  rewrite E1. cbn [mbind option_bind]. set (st2 := set_table st1 _ _). destruct (FlatFileSeq_Allocate _ _ _ _ _) as [[files bytes] out] eqn:EA. destruct out; (eexists _, _; split; [done|]); [|by eexists].
  intros (_ & _ & Hsp & _). unfold FlatFileSeq_Allocate in EA. destruct (_ <? _); [|done]. rewrite Hsp in EA. by destruct (FlatFileSeq_Open _ _ _) as [? []].
Qed.

(** Storing a block ends, whatever the table of files is: the loop over the files stops,
    at the latest at a new one, and no index is outside the table; when the system does
    what it is asked, there is a position. *)
Theorem SaveBlockToDisk_total env st block nHeight tip :
  rtc (store_step false) new_store st -> block_fits block ->
  exists st1 w, SaveBlockToDisk env st block nHeight None (Some tip) = Some (st1, w) /\
    (works (e_allocate env) -> works (e_write env) -> exists pos, w = wrote pos /\ IsNull_pos pos = false).
Proof using Hstart.
  intros Hr Hfit. destruct (store_steps_ok _ _ _ new_store_ok Hr) as [Hok _]. unfold BlockFiles.SaveBlockToDisk. unfold block_fits in Hfit. assert (H27 : MAX_BLOCKFILE_SIZE = 2 ^ 27) by done.
  set (len := Z.of_nat (length (Serialize CBlock_codec block))) in *. assert (0 <= len) by lia. rewrite (wrapU_small 32 len), (wrapU_small 32 (len + 8)) by (unfold inU; lia).
  destruct (FindBlockPos_total env st (len + 8) (u32 nHeight) (u64 (h_nTime (b_header block))) tip Hok) as (st1 & r & E & Hr'); [lia|]. rewrite E. cbn [mbind option_bind].
  apply FindBlockPos_step in E as (_ & _ & Hpos); [|done|lia|done]. destruct r as [pos|].
  2:{ eexists _, _. split; [done|]. intros [? ?]%Hr'. done. }
  destruct (Hpos eq_refl pos eq_refl) as (Hn & _). assert (Hnull : IsNull_pos pos = false) by (apply Z.eqb_neq; lia).
  unfold WriteBlockToDisk, WriteRecord. fold len. destruct (FlatFileSeq_Open (e_write env) (blk_files st1) pos) as [files ok] eqn:Eo. pose proof (Open_works (e_write env) (blk_files st1) pos) as Ho. rewrite Eo in Ho. cbn [snd] in Ho.
  destruct ok; cbn [negb].
  - unfold autofile_write. destruct (io_written (e_write env)) eqn:Ew; (eexists _, _; split; [done|]); intros _ Hw; [destruct Hw as (_ & _ & _ & ?); congruence|]. eexists. split; [done|]. exact Hnull.
  - eexists _, _. split; [done|]. intros _ Hw. by specialize (Ho Hw Hnull).
Qed.

(** ** Undo data as it is stored *)
Context (Hcurve : forall key, length key = 65%nat -> byte_at key 0 = 0x04 -> IsFullyValid key = true ->
  Decompress ((2 + Z.land (byte_at key 64) 1) :: take 32 (drop 1 key)) = Some key).

(** C30: undo data that WriteUndoDataForBlock has written is read back from the position in the
    index, with a checksum that is right, whatever is stored later, as long as this and
    every later write of undo data keeps the undo data of its file below 2^32 bytes.
    The code does not check that bound, and beyond it the undo data is overwritten
    (FindUndoPos_wraps).  The recovery of a point of the curve from its x coordinate
    and the parity of y is taken to be right. *)
Theorem WriteUndoDataForBlock_durable env st undo pindex hashPrev st1 pindex' st2 :
  rtc (store_step false) new_store st -> SerOk CBlockUndo_codec undo ->
  0 <= di_nFile pindex -> undo_fits st (di_nFile pindex) undo -> IsNull_pos (GetUndoPos pindex) = true ->
  WriteUndoDataForBlock env st undo pindex hashPrev = Some (st1, pindex', wrote tt) ->
  rtc (store_step true) st1 st2 ->
  UndoReadFromDisk IsFullyValid Decompress (rev_files st2) (GetUndoPos pindex') hashPrev = Some undo.
Proof using Hstart Hcurve.
  intros Hr Hser Hn Hfit Hnull Es Hs. destruct (store_steps_ok _ _ _ new_store_ok Hr) as [Hok _].
  apply WriteUndoDataForBlock_step in Es as (Hok1 & _ & Hheld); [|done..]. specialize (Hheld Hnull eq_refl).
  destruct (store_steps_ok _ _ _ Hok1 Hs) as (_ & _ & Ha). destruct (undo_held_advance _ _ _ _ (Ha eq_refl) Hheld) as (Hf & i & _ & _ & Hh).
  assert (Hp : IsNull_pos (GetUndoPos pindex') = false) by (apply Z.eqb_neq; lia). destruct (holds_bytes_read _ _ _ Hh Hp) as [rest Eread].
  unfold UndoReadFromDisk. rewrite Eread. cbn [mbind option_bind]. unfold undo_record. rewrite <-app_assoc. pose proof (CBlockUndo_laws IsFullyValid Decompress Hcurve) as HL. rewrite unser_ser by done. cbn [mbind option_bind].
  set (data := Serialize CBlockUndo_codec undo). set (h := Hash (Serialize uint256c hashPrev ++ data)). assert (Hh256 : inU 256 h) by (unfold h, Hash; rewrite Hash1_spec by done; apply hash_range).
  rewrite (unser_ser (c := uint256c)) by exact Hh256. cbn [mbind option_bind].
  rewrite (length_app data), Nat.add_sub, take_app_length. fold h. by rewrite Z.eqb_refl.
Qed.
End store.
