(* ===== verification/CuckooCache.v ===== *)
(** * Caches of what was verified (src/src/cuckoocache.h)

    [ValidityCache] is what a client may rely on: a cache forgets, but it never holds
    what was not put into it, one default element apart.  [cache] is the cuckoo cache: a table in which an element
    has eight places, flags for the places that may be overwritten, and epochs by
    which elements age.  [None] is an index outside a vector; [CuckooCache_sound] shows
    that there is none.  The elements of a new table are the default element. *)

From S2P Require Import Prelude Serialize.

(** ** The interface *)
Class ValidityCache (C Element : Type) := {
  cache_ok : C -> Prop;
  cached : C -> Element -> Prop;
  cache_contains : C -> Element -> bool -> option (C * bool);
  cache_insert : C -> Element -> option C;
  cache_default : Element;
  cache_contains_ok c e erase c' b : cache_ok c -> cache_contains c e erase = Some (c', b) ->
    cache_ok c' /\ (b = true -> cached c e \/ e = cache_default) /\ forall x, cached c' x -> cached c x;
  cache_insert_ok c e c' : cache_ok c -> cache_insert c e = Some c' -> cache_ok c' /\ forall x, cached c' x -> x = e \/ cached c x }.

(** ** bit_packed_atomic_flags; the sizes have 32 bits *)
Definition flags_setup (size : nat) : list Z := replicate (Z.to_nat (u32 (Z.of_nat size + 7) / 8)) 0xff.
Definition bit_set (mem : list Z) (s : nat) : option (list Z) :=
  byte ← mem !! (s / 8)%nat; Some (<[(s / 8)%nat := Z.lor byte (Z.shiftl 1 (Z.of_nat (s mod 8)))]> mem).
Definition bit_unset (mem : list Z) (s : nat) : option (list Z) :=
  byte ← mem !! (s / 8)%nat; Some (<[(s / 8)%nat := Z.ldiff byte (Z.shiftl 1 (Z.of_nat (s mod 8)))]> mem).
Definition bit_is_set (mem : list Z) (s : nat) : option bool :=
  byte ← mem !! (s / 8)%nat; Some (negb (Z.land (Z.shiftl 1 (Z.of_nat (s mod 8))) byte =? 0)).

Record cache {Element : Type} := {
  table : list Element; size : nat; collection_flags : list Z; epoch_flags : list bool;
  epoch_heuristic_counter : Z; epoch_size : Z; depth_limit : nat }.
Arguments cache : clear implicits.

#[export] Instance cache_settable {Element} : Settable (cache Element) :=
  fun c => Build_cache Element (table c) (size c) (collection_flags c) (epoch_flags c) (epoch_heuristic_counter c) (epoch_size c) (depth_limit c).

Section cuckoo.
Context {Element : Type} `{!EqDecision Element} (zero : Element) (hash_function : nat -> Element -> Z).
(** (uint8_t)std::log2((float)n) *)
Context (log2_float : nat -> nat).
Notation cache := (cache Element).

Definition compute_hashes (c : cache) (e : Element) : list nat :=
  (fun k => Z.to_nat (u32 (Z.shiftr (u64 (hash_function k e * Z.of_nat (size c))) 32))) <$> seq 0 8.

Definition allow_erase (c : cache) (n : nat) : option cache := f ← bit_set (collection_flags c) n; Some (c <| collection_flags := f |>).
Definition please_keep (c : cache) (n : nat) : option cache := f ← bit_unset (collection_flags c) n; Some (c <| collection_flags := f |>).
Definition set_epoch (c : cache) (n : nat) (b : bool) : option cache :=
  if (n <? length (epoch_flags c))%nat then Some (c <| epoch_flags := <[n := b]> (epoch_flags c) |>) else None.

(** The first loop of epoch_check. *)
Fixpoint count_unused (c : cache) (places : list nat) (n : Z) : option Z :=
  match places with
  | [] => Some n
  | i :: places => e ← epoch_flags c !! i; d ← bit_is_set (collection_flags c) i; count_unused c places (if e && negb d then u32 (n + 1) else n)
  end.

(** The second one. *)
Fixpoint age (places : list nat) (c : cache) : option cache :=
  match places with
  | [] => Some c
  | i :: places => e ← epoch_flags c !! i; c ← (if e : bool then set_epoch c i false else allow_erase c i); age places c
  end.

Definition epoch_check (c : cache) : option cache :=
  if negb (epoch_heuristic_counter c =? 0) then Some (c <| epoch_heuristic_counter := epoch_heuristic_counter c - 1 |>)
  else
    unused ← count_unused c (seq 0 (size c)) 0;
    if epoch_size c <=? unused then c ← age (seq 0 (size c)) c; Some (c <| epoch_heuristic_counter := epoch_size c |>)
    else Some (c <| epoch_heuristic_counter := Z.max 1 (Z.max (epoch_size c / 16) (epoch_size c - unused)) |>).

(** setup; [table] and [epoch_flags] are empty before it. *)
Definition setup (new_size : nat) : cache :=
  let size := Nat.max 2 new_size in
  let epoch_size := Z.max 1 (u32 (45 * Z.of_nat size) / 100) in
  {| table := replicate size zero; size := size; collection_flags := flags_setup size; epoch_flags := replicate size false;
     epoch_heuristic_counter := epoch_size; epoch_size := epoch_size; depth_limit := log2_float size |}.

(** The place of an element among its own. *)
Fixpoint place_of (c : cache) (e : Element) (locs : list nat) : option (option nat) :=
  match locs with
  | [] => Some None
  | loc :: locs => x ← table c !! loc; if decide (x = e) then Some (Some loc) else place_of c e locs
  end.

(** The first place that may be overwritten. *)
Fixpoint free_place (c : cache) (locs : list nat) : option (option nat) :=
  match locs with
  | [] => Some None
  | loc :: locs => b ← bit_is_set (collection_flags c) loc; if b : bool then Some (Some loc) else free_place c locs
  end.

Definition settle (c : cache) (loc : nat) (last_epoch : bool) : option cache := c ← please_keep c loc; set_epoch c loc last_epoch.

Definition put (c : cache) (loc : nat) (e : Element) : option cache :=
  if (loc <? length (table c))%nat then Some (c <| table := <[loc := e]> (table c) |>) else None.

(** std::find of last_loc; [None] is invalid(), which is no place. *)
Definition find_index (locs : list nat) (last_loc : option nat) : nat :=
  match last_loc with Some l => match list_find (eq l) locs with Some (i, _) => i | None => length locs end | None => length locs end.

(** The first element to be evicted is at the second place, not at the first. *)
Lemma first_evicted locs : length locs = 8%nat -> Nat.land (find_index locs None + 1) 7 = 1%nat.
Proof. intros H. unfold find_index. by rewrite H. Qed.

(** The loop over depth; [depths] are left. *)
Fixpoint insert_loop (depths : nat) (c : cache) (e : Element) (locs : list nat) (last_loc : option nat) (last_epoch : bool) : option cache :=
  match depths with
  | O => Some c
  | S depths =>
      free ← free_place c locs;
      match free with
      | Some loc => c ← put c loc e; settle c loc last_epoch
      | None =>
          last_loc ← locs !! Nat.land (find_index locs last_loc + 1) 7;
          evicted ← table c !! last_loc;
          epoch ← epoch_flags c !! last_loc;
          c ← put c last_loc e;
          c ← set_epoch c last_loc last_epoch;
          insert_loop depths c evicted (compute_hashes c evicted) (Some last_loc) epoch
      end
  end.

Definition insert (c : cache) (e : Element) : option cache :=
  c ← epoch_check c;
  let locs := compute_hashes c e in
  found ← place_of c e locs;
  match found with
  | Some loc => settle c loc true
  | None => insert_loop (depth_limit c) c e locs None true
  end.

Definition contains (c : cache) (e : Element) (erase : bool) : option (cache * bool) :=
  found ← place_of c e (compute_hashes c e);
  match found with
  | Some loc => c ← (if erase then allow_erase c loc else Some c); Some (c, true)
  | None => Some (c, false)
  end.

(** ** What the operations keep *)
Context (Hhash : forall k e, 0 <= hash_function k e < 2 ^ 32).

Record cache_wf (c : cache) : Prop := {
  wf_table : length (table c) = size c;
  wf_epochs : length (epoch_flags c) = size c;
  wf_flags : length (collection_flags c) = ((size c + 7) / 8)%nat;
  wf_size : (0 < size c)%nat /\ Z.of_nat (size c) < 2 ^ 32;
  wf_places j x : table c !! j = Some x -> x = zero \/ j ∈ compute_hashes c x }.

Lemma compute_hashes_length c e : length (compute_hashes c e) = 8%nat.
Proof. done. Qed.

Lemma compute_hashes_range c e : cache_wf c -> Forall (fun loc => loc < size c)%nat (compute_hashes c e).
Proof.
  intros [_ _ _ [Hs Hs'] _]. apply Forall_fmap, Forall_forall. intros k _. cbn. pose proof (Hhash k e) as Hh.
  assert (0 <= hash_function k e * Z.of_nat (size c) < 2 ^ 32 * Z.of_nat (size c)) by nia.
  rewrite (wrapU_small 64) by (unfold inU; lia). rewrite Z.shiftr_div_pow2 by lia.
  assert (0 <= hash_function k e * Z.of_nat (size c) / 2 ^ 32 < Z.of_nat (size c)) by (split; [apply Z.div_pos|apply Z.div_lt_upper_bound]; lia).
  rewrite wrapU_small by (unfold inU; lia). lia.
Qed.

(** What only marks places. *)
Definition same_table (c c' : cache) : Prop := table c' = table c /\ size c' = size c /\ depth_limit c' = depth_limit c.

#[local] Instance same_table_preorder : PreOrder same_table.
Proof. split; [done|]. intros x y z (H1 & H2 & H3) (H4 & H5 & H6). unfold same_table. by rewrite H4, H5, H6. Qed.

Lemma flag_index c n : cache_wf c -> (n < size c)%nat -> is_Some (collection_flags c !! (n / 8)%nat).
Proof. intros [_ _ Hf _ _] Hn. apply lookup_lt_is_Some. rewrite Hf. pose proof (Nat.div_mod n 8). pose proof (Nat.div_mod (size c + 7) 8). pose proof (Nat.mod_upper_bound n 8). pose proof (Nat.mod_upper_bound (size c + 7) 8). lia. Qed.

Lemma wf_same c c' :
  cache_wf c -> same_table c c' -> length (epoch_flags c') = length (epoch_flags c) -> length (collection_flags c') = length (collection_flags c) -> cache_wf c'.
Proof.
  intros [H1 H2 H3 H4 H5] (Ht & Hs & _) He Hf. split; rewrite ?He, ?Hf, ?Ht, ?Hs; try done.
  intros j x Hj. unfold compute_hashes. rewrite Hs. by apply H5.
Qed.

Lemma allow_erase_ok c n : cache_wf c -> (n < size c)%nat -> exists c', allow_erase c n = Some c' /\ cache_wf c' /\ same_table c c'.
Proof.
  intros Hc Hn. unfold allow_erase, bit_set. destruct (flag_index c n Hc Hn) as [b ->]. cbn. eexists. split; [done|].
  split; [|done]. eapply wf_same; [done|done|done|]. cbn. apply length_insert.
Qed.

Lemma please_keep_ok c n : cache_wf c -> (n < size c)%nat -> exists c', please_keep c n = Some c' /\ cache_wf c' /\ same_table c c'.
Proof.
  intros Hc Hn. unfold please_keep, bit_unset. destruct (flag_index c n Hc Hn) as [b ->]. cbn. eexists. split; [done|].
  split; [|done]. eapply wf_same; [done|done|done|]. cbn. apply length_insert.
Qed.

Lemma set_epoch_ok c n b : cache_wf c -> (n < size c)%nat -> exists c', set_epoch c n b = Some c' /\ cache_wf c' /\ same_table c c'.
Proof.
  intros Hc Hn. unfold set_epoch. rewrite (wf_epochs c Hc). destruct (Nat.ltb_spec n (size c)); [|lia]. eexists. split; [done|].
  split; [|done]. eapply wf_same; [done|done| |done]. cbn. apply length_insert.
Qed.

Lemma settle_ok c n b : cache_wf c -> (n < size c)%nat -> exists c', settle c n b = Some c' /\ cache_wf c' /\ same_table c c'.
Proof.
  intros Hc Hn. destruct (please_keep_ok c n Hc Hn) as (c1 & E1 & Hc1 & S1).
  destruct (set_epoch_ok c1 n b Hc1) as (c2 & E2 & Hc2 & S2); [by destruct S1 as (_ & -> & _)|].
  exists c2. unfold settle. rewrite E1. cbn. split_and!; [done|done|by etrans].
Qed.

Lemma age_ok places c : cache_wf c -> Forall (fun i => i < size c)%nat places -> exists c', age places c = Some c' /\ cache_wf c' /\ same_table c c'.
Proof.
  revert c. induction places as [|i places IH]; intros c Hc Hp; [by exists c|]. inversion_clear Hp as [|?? Hi Hp']. cbn [age].
  destruct (lookup_lt_is_Some_2 (epoch_flags c) i) as [e He]; [by rewrite (wf_epochs c Hc)|]. rewrite He. cbn.
  assert (exists c1, (if e then set_epoch c i false else allow_erase c i) = Some c1 /\ cache_wf c1 /\ same_table c c1) as (c1 & -> & Hc1 & S1)
    by (destruct e; [by apply set_epoch_ok|by apply allow_erase_ok]).
  cbn. destruct (IH c1 Hc1) as (c2 & -> & Hc2 & S2); [by destruct S1 as (_ & -> & _)|]. exists c2. split_and!; [done|done|by etrans].
Qed.

Lemma count_unused_ok c places n : cache_wf c -> Forall (fun i => i < size c)%nat places -> is_Some (count_unused c places n).
Proof.
  intros Hc Hp. revert n. induction Hp as [|i places Hi _ IH]; intros n; [done|]. cbn [count_unused].
  destruct (lookup_lt_is_Some_2 (epoch_flags c) i) as [e ->]; [by rewrite (wf_epochs c Hc)|]. cbn. unfold bit_is_set at 1.
  destruct (flag_index c i Hc Hi) as [b ->]. apply IH.
Qed.

Lemma epoch_check_ok c : cache_wf c -> exists c', epoch_check c = Some c' /\ cache_wf c' /\ same_table c c'.
Proof.
  intros Hc. unfold epoch_check. destruct (negb _); [eexists; split; [done|]; by split; [eapply wf_same|]|].
  assert (Hp : Forall (fun i => i < size c)%nat (seq 0 (size c))) by (apply Forall_seq; lia).
  destruct (count_unused_ok c _ 0 Hc Hp) as [n ->]. cbn. destruct (epoch_size c <=? n); [|eexists; split; [done|]; by split; [eapply wf_same|]].
  destruct (age_ok _ c Hc Hp) as (c1 & -> & Hc1 & S1). eexists. split; [done|]. by split; [eapply (wf_same c1)|].
Qed.

Lemma place_of_ok c e locs : cache_wf c -> Forall (fun i => i < size c)%nat locs ->
  exists r, place_of c e locs = Some r /\
    match r with Some loc => loc ∈ locs /\ table c !! loc = Some e | None => forall loc, loc ∈ locs -> table c !! loc <> Some e end.
Proof.
  intros Hc Hl. induction Hl as [|loc locs Hloc _ (r & Hr & IH)]; cbn [place_of]; [exists None; split; [done|by intros loc []%not_elem_of_nil]|].
  destruct (lookup_lt_is_Some_2 (table c) loc) as [x Hx]; [by rewrite (wf_table c Hc)|]. rewrite Hx. cbn.
  destruct (decide (x = e)) as [->|Hne]; [exists (Some loc); split; [done|]; split; [by left|done]|].
  exists r. split; [done|]. destruct r as [l|]; [destruct IH; split; [by right|done]|]. intros l [->|Hin]%elem_of_cons; [congruence|by apply IH].
Qed.

Lemma free_place_ok c locs : cache_wf c -> Forall (fun i => i < size c)%nat locs ->
  exists r, free_place c locs = Some r /\
    match r with
    | Some loc => loc ∈ locs /\ bit_is_set (collection_flags c) loc = Some true
    | None => forall loc, loc ∈ locs -> bit_is_set (collection_flags c) loc = Some false
    end.
Proof.
  intros Hc Hl. induction Hl as [|loc locs Hloc _ (r & Hr & IH)]; cbn [free_place]; [exists None; split; [done|by intros loc []%not_elem_of_nil]|].
  assert (is_Some (bit_is_set (collection_flags c) loc)) as [b Hb] by (unfold bit_is_set; by destruct (flag_index c loc Hc Hloc) as [? ->]).
  rewrite Hb. cbn. destruct b; [exists (Some loc); split; [done|]; split; [by left|done]|].
  exists r. split; [done|]. destruct r as [l|]; [destruct IH; split; [by right|done]|]. intros l [->|Hin]%elem_of_cons; [done|by apply IH].
Qed.

Lemma put_ok c loc e : cache_wf c -> loc ∈ compute_hashes c e ->
  exists c', put c loc e = Some c' /\ cache_wf c' /\ c' = c <| table := <[loc := e]> (table c) |>.
Proof.
  intros Hc Hl. assert (Hlt : (loc < size c)%nat) by (eapply (Forall_forall (fun i => i < size c)%nat); [by apply (compute_hashes_range c e)|done]).
  unfold put. rewrite (wf_table c Hc). destruct (Nat.ltb_spec loc (size c)); [|lia]. eexists. split; [done|]. split; [|done].
  destruct Hc as [H1 H2 H3 H4 H5]. split; cbn; rewrite ?length_insert; try done.
  intros j x [(<- & <- & _)|[_ Hj]]%list_lookup_insert_Some; [by right|by apply H5].
Qed.

Lemma next_place (locs : list nat) last_loc : length locs = 8%nat -> exists loc, locs !! Nat.land (find_index locs last_loc + 1) 7 = Some loc /\ loc ∈ locs.
Proof.
  intros Hl. destruct (lookup_lt_is_Some_2 locs (Nat.land (find_index locs last_loc + 1) 7)) as [loc Hloc]; [|by exists loc; split; [|eapply list_elem_of_lookup_2]].
  rewrite Hl. change 7%nat with (Nat.ones 3). rewrite Nat.land_ones. by apply Nat.mod_upper_bound.
Qed.

(** The element that is inserted, or evicted on the way, is all that is new. *)
Lemma insert_loop_ok depths c e last_loc last_epoch :
  cache_wf c -> exists c', insert_loop depths c e (compute_hashes c e) last_loc last_epoch = Some c' /\ cache_wf c' /\ size c' = size c /\
    (forall x, x ∈ table c' -> x = e \/ x ∈ table c).
Proof.
  revert c e last_loc last_epoch. induction depths as [|depths IH]; intros c e last_loc last_epoch Hc; [exists c; split_and!; auto|]. cbn [insert_loop].
  pose proof (compute_hashes_range c e Hc) as Hr. destruct (free_place_ok c _ Hc Hr) as (free & -> & Hfree). cbn [mbind option_bind].
  assert (Hnew : forall loc x, x ∈ <[loc := e]> (table c) -> x = e \/ x ∈ table c).
  { intros loc x [j [(_ & <- & _)|[_ Hj]]%list_lookup_insert_Some]%list_elem_of_lookup; [by left|right; by eapply list_elem_of_lookup_2]. }
  destruct free as [loc|].
  - destruct Hfree as [Hin _]. destruct (put_ok c loc e Hc Hin) as (c1 & -> & Hc1 & E1). cbn [mbind option_bind].
    rewrite Forall_forall in Hr. destruct (settle_ok c1 loc last_epoch Hc1) as (c2 & -> & Hc2 & S2); [subst c1; by apply Hr|].
    destruct S2 as (Ht & Hs & _). exists c2. split_and!; [done|done|by rewrite Hs, E1|]. rewrite Ht, E1. apply Hnew.
  - destruct (next_place (compute_hashes c e) last_loc eq_refl) as (loc & -> & Hin). cbn [mbind option_bind]. rewrite Forall_forall in Hr. pose proof (Hr loc Hin) as Hlt.
    destruct (lookup_lt_is_Some_2 (table c) loc) as [ev Hev]; [by rewrite (wf_table c Hc)|]. rewrite Hev. cbn [mbind option_bind].
    destruct (lookup_lt_is_Some_2 (epoch_flags c) loc) as [ep ->]; [by rewrite (wf_epochs c Hc)|]. cbn [mbind option_bind].
    destruct (put_ok c loc e Hc Hin) as (c1 & -> & Hc1 & E1). cbn [mbind option_bind].
    destruct (set_epoch_ok c1 loc last_epoch Hc1) as (c2 & -> & Hc2 & S2); [by subst c1|]. destruct S2 as (Ht & Hs & _). cbn [mbind option_bind].
    destruct (IH c2 ev (Some loc) ep Hc2) as (c3 & -> & Hc3 & Hs3 & Hx3). exists c3. split_and!; [done|done|by rewrite Hs3, Hs, E1|].
    intros x [->|Hx]%Hx3; [right; by eapply list_elem_of_lookup_2|]. rewrite Ht, E1 in Hx. exact (Hnew loc x Hx).
Qed.

Lemma insert_ok c e : cache_wf c -> exists c', insert c e = Some c' /\ cache_wf c' /\ size c' = size c /\ (forall x, x ∈ table c' -> x = e \/ x ∈ table c).
Proof.
  intros Hc. unfold insert. destruct (epoch_check_ok c Hc) as (c1 & -> & Hc1 & S1). destruct S1 as (Ht & Hs & _). cbn [mbind option_bind].
  pose proof (compute_hashes_range c1 e Hc1) as Hr. destruct (place_of_ok c1 e _ Hc1 Hr) as (found & -> & Hf). cbn [mbind option_bind].
  destruct found as [loc|].
  - destruct Hf as [Hin _]. rewrite Forall_forall in Hr. destruct (settle_ok c1 loc true Hc1 (Hr _ Hin)) as (c2 & -> & Hc2 & S2).
    destruct S2 as (Ht2 & Hs2 & _). exists c2. split_and!; [done|done|by rewrite Hs2|]. rewrite Ht2, Ht. auto.
  - destruct (insert_loop_ok (depth_limit c1) c1 e None true Hc1) as (c2 & -> & Hc2 & Hs2 & Hx2). exists c2.
    split_and!; [done|done|by rewrite Hs2|]. by rewrite Ht in Hx2.
Qed.

(** An element other than the default one is found exactly when it is in the table. *)
Lemma contains_ok c e erase : cache_wf c -> exists c' b, contains c e erase = Some (c', b) /\ cache_wf c' /\ same_table c c' /\
  (b = true -> e ∈ table c) /\ (e <> zero -> e ∈ table c -> b = true).
Proof.
  intros Hc. unfold contains. pose proof (compute_hashes_range c e Hc) as Hr. destruct (place_of_ok c e _ Hc Hr) as (found & -> & Hf). cbn [mbind option_bind].
  destruct found as [loc|].
  - destruct Hf as [Hin Hloc]. rewrite Forall_forall in Hr.
    assert (exists c', (if erase then allow_erase c loc else Some c) = Some c' /\ cache_wf c' /\ same_table c c') as (c1 & -> & Hc1 & S1)
      by (destruct erase; [by apply allow_erase_ok, Hr|by exists c]).
    exists c1, true. split_and!; [done|done|done|by intros _; eapply list_elem_of_lookup_2|done].
  - exists c, false. split_and!; try done. intros Hz [j Hj]%list_elem_of_lookup. exfalso. eapply Hf; [|exact Hj]. by destruct (wf_places c Hc j e Hj).
Qed.

Lemma length_flags_setup n : Z.of_nat n < 2 ^ 32 - 7 -> length (flags_setup n) = ((n + 7) / 8)%nat.
Proof using Type.
  intros Hn. unfold flags_setup. rewrite length_replicate, wrapU_small by (unfold inU; lia).
  replace (Z.of_nat n + 7) with (Z.of_nat (n + 7)) by lia. change 8 with (Z.of_nat 8). by rewrite <-Nat2Z.inj_div, Nat2Z.id.
Qed.

(** For the seven largest sizes the sum wraps, and there are no flags at all. *)
Lemma flags_setup_wraps n : 2 ^ 32 - 7 <= Z.of_nat n < 2 ^ 32 -> flags_setup n = [].
Proof using Type.
  intros Hn. unfold flags_setup. replace (u32 (Z.of_nat n + 7)) with (Z.of_nat n + 7 - 2 ^ 32).
  - by rewrite Z.div_small by lia.
  - unfold wrapU. rewrite <-(Z.mod_add _ (-1)), Z.mod_small by lia. lia.
Qed.

Lemma setup_wf new_size : Z.of_nat new_size < 2 ^ 32 - 7 -> cache_wf (setup new_size).
Proof.
  intros Hn. split; cbn -[flags_setup]; rewrite ?length_replicate; try done; [apply length_flags_setup; lia|lia|]. intros j x [-> _]%lookup_replicate. by left.
Qed.

(** ** The cache over any use of it *)
Inductive operation := op_insert (e : Element) | op_contains (e : Element) (erase : bool).

Definition perform (c : cache) (o : operation) : option cache :=
  match o with op_insert e => insert c e | op_contains e erase => fst <$> contains c e erase end.

Fixpoint perform_all (c : cache) (os : list operation) : option cache :=
  match os with [] => Some c | o :: os => c ← perform c o; perform_all c os end.

Lemma perform_all_ok os c : cache_wf c -> exists c', perform_all c os = Some c' /\ cache_wf c' /\ (forall x, x ∈ table c' -> x ∈ table c \/ op_insert x ∈ os).
Proof.
  revert c. induction os as [|o os IH]; intros c Hc; cbn [perform_all]; [exists c; split_and!; auto|].
  assert (exists c1, perform c o = Some c1 /\ cache_wf c1 /\ forall x, x ∈ table c1 -> x ∈ table c \/ o = op_insert x) as (c1 & -> & Hc1 & H1).
  { destruct o as [e|e erase]; cbn [perform].
    - destruct (insert_ok c e Hc) as (c1 & -> & Hc1 & _ & Hx). exists c1. split_and!; [done|done|]. intros x H; apply Hx in H as [->|?]; [by right|by left].
    - destruct (contains_ok c e erase Hc) as (c1 & b & -> & Hc1 & (Ht & _) & _). exists c1. split_and!; [done|done|]. rewrite Ht. by left. }
  cbn. destruct (IH c1 Hc1) as (c2 & -> & Hc2 & H2). exists c2. split_and!; [done|done|].
  intros x [H|H]%H2; [apply H1 in H as [H| ->]; [by left|right; by left]|right; by right].
Qed.

(** C28: the cuckoo cache after any sequence of operations.  For a table of fewer than
    2^32 - 7 places and hash functions of 32 bits, no operation reaches outside
    the tables; contains finds an element exactly when the table has it, and then it
    was inserted: nothing is found that was never put in, the default element apart. *)
Theorem CuckooCache_sound new_size os e erase :
  Z.of_nat new_size < 2 ^ 32 - 7 -> e <> zero ->
  exists c c' b, perform_all (setup new_size) os = Some c /\ contains c e erase = Some (c', b) /\ table c' = table c /\
    (b = true <-> e ∈ table c) /\ (b = true -> op_insert e ∈ os).
Proof.
  intros Hn He. destruct (perform_all_ok os _ (setup_wf new_size Hn)) as (c & Hp & Hc & Hx).
  destruct (contains_ok c e erase Hc) as (c' & b & Hb & _ & (Ht & _) & H1 & H2). exists c, c', b. split_and!; [done|done|done|split; auto|].
  intros H. apply H1, Hx in H as [H|?]; [|done]. cbn in H. apply elem_of_replicate in H as [? _]. done.
Qed.

#[export] Instance cuckoo_ValidityCache : ValidityCache cache Element.
Proof.
  refine {| cache_ok := cache_wf; cached c e := e ∈ table c /\ e <> zero; cache_contains := contains; cache_insert := insert; cache_default := zero |}.
  - intros c e erase c' b Hc H. destruct (contains_ok c e erase Hc) as (c1 & b1 & E & Hc1 & (Ht & _) & H1 & _).
    rewrite E in H. simplify_eq. split_and!; [done| |by rewrite Ht]. intros Hb. destruct (decide (e = zero)); [by right|left; by split; [apply H1|]].
  - intros c e c' Hc H. destruct (insert_ok c e Hc) as (c1 & E & Hc1 & _ & Hx). rewrite E in H. simplify_eq. split; [done|].
    intros x [[->|Hin]%Hx Hz]; [by left|by right].
Defined.

End cuckoo.

(** ** The caches of the program: 256-bit numbers with their own bytes as hashes *)
Definition SignatureCacheHasher (hash_select : nat) (key : list Z) : Z := u32 (le_value (take 4 (drop (4 * hash_select) key))).
Definition uint256_zero : list Z := replicate 32 0.

#[export] Instance script_cache : ValidityCache (cache (list Z)) (list Z) :=
  cuckoo_ValidityCache uint256_zero SignatureCacheHasher (fun k e => wrapU_range 32 (le_value (take 4 (drop (4 * k) e))) ltac:(done)).

(** With the largest setting of -maxsigcachesize, a cache has 2^28 places, and 45 times
    that many does not fit 32 bits: an epoch is 13 percent of them, not 45. *)
Example epoch_size_wraps log2_float : epoch_size (setup uint256_zero log2_float (Z.to_nat (2 ^ 28))) = 34896609.
Proof. unfold setup. cbn [epoch_size]. rewrite Nat2Z.inj_max, Z2Nat.id by lia. reflexivity. Qed.
