(* ===== verification/CheckQueue.v ===== *)
(** * The queue of script checks (CCheckQueue of src/src/checkqueue.h)

    The master, the thread that connects a block, adds checks, waits for the result
    and starts over; the workers take batches of checks and run them.  A step is one
    critical section under [m_mutex], or one check, of one thread: the interleaving of
    the threads is the order of the steps.  [run] is the result of a check.  The
    thread 0 is the master.  The vector [queue] is a stack: its last element is the
    head of the list here. *)

From stdpp Require Import relations.
From S2P Require Import Prelude.

Section check_queue.
Context {T : Type} (run : T -> bool) (nBatchSize : nat).

Record CCheckQueue := {
  queue : list T; nIdle : Z; nTotal : Z; fAllOk : bool; nTodo : Z; m_request_stop : bool }.

(** Where a thread is: before the lock, with the batch it has run; asleep on its
    condition variable; notified, about to take the lock; running a batch of which
    these checks are left; back from [Loop]; and, the master, not in [Loop]. *)
Inductive phase :=
  | Entering (nNow : nat) (fOk : bool)
  | Waiting
  | Woken
  | Working (nNow : nat) (vChecks : list T) (fOk : bool)
  | Returned (fRet : bool)
  | Outside.

(** [added]: the checks the master added since its last Wait. *)
Record config := { shared : CCheckQueue; threads : list phase; added : list T }.

(** ** The critical sections of Loop *)
Definition batch_size (q : CCheckQueue) : nat :=
  Nat.max 1 (Nat.min nBatchSize (Z.to_nat (u32 (Z.of_nat (length (queue q))) / u32 (nTotal q + nIdle q + 1)))).

Definition clean_up (nNow : nat) (fOk : bool) (q : CCheckQueue) : CCheckQueue :=
  if (nNow =? 0)%nat
  then {| queue := queue q; nIdle := nIdle q; nTotal := nTotal q + 1; fAllOk := fAllOk q; nTodo := nTodo q; m_request_stop := m_request_stop q |}
  else {| queue := queue q; nIdle := nIdle q; nTotal := nTotal q; fAllOk := fAllOk q && fOk; nTodo := u32 (nTodo q - Z.of_nat nNow);
          m_request_stop := m_request_stop q |}.

Definition notifies_master (fMaster : bool) (nNow : nat) (q : CCheckQueue) : bool := negb (nNow =? 0)%nat && (nTodo q =? 0) && negb fMaster.

(** From the test of the inner loop to the wait, the return or the end of the section. *)
Definition get_work (fMaster : bool) (q : CCheckQueue) : CCheckQueue * phase :=
  match queue q, m_request_stop q with
  | [], false =>
      if fMaster && (nTodo q =? 0)
      then ({| queue := []; nIdle := nIdle q; nTotal := nTotal q - 1; fAllOk := true; nTodo := nTodo q; m_request_stop := false |}, Returned (fAllOk q))
      else ({| queue := []; nIdle := nIdle q + 1; nTotal := nTotal q; fAllOk := fAllOk q; nTodo := nTodo q; m_request_stop := false |}, Waiting)
  | _, true => (q, Returned false)
  | checks, false =>
      let nNow := batch_size q in
      ({| queue := drop nNow checks; nIdle := nIdle q; nTotal := nTotal q; fAllOk := fAllOk q; nTodo := nTodo q; m_request_stop := false |},
       Working nNow (take nNow checks) (fAllOk q))
  end.

Definition awake (q : CCheckQueue) : CCheckQueue :=
  {| queue := queue q; nIdle := nIdle q - 1; nTotal := nTotal q; fAllOk := fAllOk q; nTodo := nTodo q; m_request_stop := m_request_stop q |}.

Definition wake (i : nat) (ts : list phase) : list phase := match ts !! i with Some Waiting => <[i := Woken]> ts | _ => ts end.
Definition wake_up (p : phase) : phase := match p with Waiting => Woken | _ => p end.
(** m_worker_cv.notify_all() *)
Definition wake_workers (ts : list phase) : list phase := match ts with [] => [] | master :: workers => master :: (wake_up <$> workers) end.

(** The next step of thread [i] in Loop. *)
Definition thread_next (i : nat) (c : config) : option config :=
  let fMaster := (i =? 0)%nat in
  let q := shared c in
  match threads c !! i with
  | Some (Entering nNow fOk) =>
      let q := clean_up nNow fOk q in
      let ts := if notifies_master fMaster nNow q then wake 0 (threads c) else threads c in
      let '(q, p) := get_work fMaster q in
      Some {| shared := q; threads := <[i := p]> ts; added := added c |}
  | Some Woken => let '(q, p) := get_work fMaster (awake q) in Some {| shared := q; threads := <[i := p]> (threads c); added := added c |}
  | Some (Working nNow (check :: vChecks) fOk) =>
      Some {| shared := q; threads := <[i := Working nNow vChecks (if fOk then run check else fOk)]> (threads c); added := added c |}
  | Some (Working nNow [] fOk) => Some {| shared := q; threads := <[i := Entering nNow fOk]> (threads c); added := added c |}
  | _ => None
  end.

Definition thread_step (c c' : config) : Prop := exists i, thread_next i c = Some c'.

(** ** What happens around Loop *)
Definition push_checks (vChecks : list T) (q : CCheckQueue) : CCheckQueue :=
  {| queue := reverse vChecks ++ queue q; nIdle := nIdle q; nTotal := nTotal q; fAllOk := fAllOk q;
     nTodo := u32 (nTodo q + Z.of_nat (length vChecks)); m_request_stop := m_request_stop q |}.

Definition request_stop (q : CCheckQueue) : CCheckQueue :=
  {| queue := queue q; nIdle := nIdle q; nTotal := nTotal q; fAllOk := fAllOk q; nTodo := nTodo q; m_request_stop := true |}.

(** m_worker_cv.notify_one(): one sleeping worker, whichever, if there is one. *)
Inductive notify_one (ts : list phase) : list phase -> Prop :=
  | notify_worker i : (0 < i)%nat -> ts !! i = Some Waiting -> notify_one ts (<[i := Woken]> ts)
  | notify_nobody : (forall i, (0 < i)%nat -> ts !! i <> Some Waiting) -> notify_one ts ts.

Inductive env_step (c : config) : config -> Prop :=
  (** Add; the counter of checks does not overflow. *)
  | Add_many vChecks :
      threads c !! 0%nat = Some Outside -> length vChecks <> 1%nat -> nTodo (shared c) + Z.of_nat (length vChecks) < 2 ^ 32 ->
      env_step c {| shared := push_checks vChecks (shared c); threads := if decide (vChecks = []) then threads c else wake_workers (threads c); added := added c ++ vChecks |}
  | Add_one check ts :
      threads c !! 0%nat = Some Outside -> nTodo (shared c) + 1 < 2 ^ 32 -> notify_one (threads c) ts ->
      env_step c {| shared := push_checks [check] (shared c); threads := ts; added := added c ++ [check] |}
  (** The call of Wait, and what follows its return: the next block. *)
  | Wait_call : threads c !! 0%nat = Some Outside -> env_step c {| shared := shared c; threads := <[0%nat := Entering 0 true]> (threads c); added := added c |}
  | Wait_return fRet : threads c !! 0%nat = Some (Returned fRet) -> env_step c {| shared := shared c; threads := <[0%nat := Outside]> (threads c); added := [] |}
  (** StopWorkerThreads, up to the joining of the threads. *)
  | StopWorkerThreads : env_step c {| shared := request_stop (shared c); threads := wake_workers (threads c); added := added c |}
  (** A condition variable may wake its thread for no reason. *)
  | spurious i : threads c !! i = Some Waiting -> env_step c {| shared := shared c; threads := <[i := Woken]> (threads c); added := added c |}.

Definition queue_step (c c' : config) : Prop := thread_step c c' \/ env_step c c'.

(** StartWorkerThreads on a new queue. *)
Definition started (threads_num : nat) : config :=
  {| shared := {| queue := []; nIdle := 0; nTotal := 0; fAllOk := true; nTodo := 0; m_request_stop := false |};
     threads := Outside :: replicate threads_num (Entering 0 true); added := [] |}.

Definition reachable (c : config) : Prop := exists threads_num, rtc queue_step (started threads_num) c.

End check_queue.

Arguments CCheckQueue : clear implicits.
Arguments phase : clear implicits.
Arguments config : clear implicits.

(** * The queue of script checks gives the right answer, and gives it

    [CCheckQueue_terminates]: waiting ends in every interleaving.  [CCheckQueue_Wait]:
    what the master is told is whether all the checks it added hold. *)

Section check_queue.
Context {T : Type} (run : T -> bool) (nBatchSize : nat).
Implicit Types (c : config T) (q : CCheckQueue T) (p : phase T) (ts : list (phase T)).
Notation thread_next := (thread_next run nBatchSize).
Notation thread_step := (thread_step run nBatchSize).
Notation queue_step := (queue_step run nBatchSize).
Notation reachable := (reachable run nBatchSize).
Notation get_work := (get_work nBatchSize).

(** ** Threads *)
Lemma sum_insert (f : phase T -> nat) ts i p p' :
  ts !! i = Some p -> (sum_list_with f (<[i := p']> ts) + f p = sum_list_with f ts + f p')%nat.
Proof.
  intros H. rewrite <-(take_drop_middle ts i p H) at 2.
  rewrite (insert_take_drop ts i p') by by eapply lookup_lt_Some.
  rewrite !sum_list_with_app. cbn. lia.
Qed.

Lemma sum_lookup (f : phase T -> nat) ts i p : ts !! i = Some p -> (f p <= sum_list_with f ts)%nat.
Proof. intros H. rewrite <-(take_drop_middle ts i p H), sum_list_with_app. cbn. lia. Qed.

Lemma sum_positive (f : phase T -> nat) ts : sum_list_with f ts <> 0%nat -> exists i p, ts !! i = Some p /\ f p <> 0%nat.
Proof.
  induction ts as [|p ts IH]; cbn; [done|]. intros H. destruct (decide (f p = 0%nat)) as [E|E]; [|by exists 0%nat, p].
  destruct IH as (i & p' & H' & ?); [lia|]. by exists (S i), p'.
Qed.

Lemma Exists_old (P : phase T -> Prop) ts i p p' : ts !! i = Some p -> Exists P ts -> P p \/ Exists P (<[i := p']> ts).
Proof.
  intros Hi (q & [j Hj]%list_elem_of_lookup & HP)%Exists_exists. destruct (decide (i = j)) as [->|Hne]; [left; by simplify_eq|].
  right. apply Exists_exists. exists q. split; [|done]. apply list_elem_of_lookup. exists j. by rewrite list_lookup_insert_ne.
Qed.

Lemma Exists_new (P : phase T -> Prop) ts i p' : Exists P (<[i := p']> ts) -> P p' \/ Exists P ts.
Proof.
  intros (q & [j Hj]%list_elem_of_lookup & HP)%Exists_exists. apply list_lookup_insert_Some in Hj as [(-> & -> & _)|[_ Hj]]; [by left|].
  right. apply Exists_exists. exists q. split; [|done]. apply list_elem_of_lookup. by exists j.
Qed.

Lemma Exists_here (P : phase T -> Prop) ts i p p' : ts !! i = Some p -> P p' -> Exists P (<[i := p']> ts).
Proof.
  intros Hi HP. apply Exists_exists. exists p'. split; [|done]. apply list_elem_of_lookup. exists i.
  rewrite list_lookup_insert_eq; [done|]. by eapply lookup_lt_Some.
Qed.

Lemma Exists_at (P : phase T -> Prop) ts i p : ts !! i = Some p -> P p -> Exists P ts.
Proof. intros Hi HP. apply Exists_exists. exists p. split; [by eapply list_elem_of_lookup_2|done]. Qed.

Lemma not_Exists_sum (P : phase T -> Prop) (f : phase T -> nat) ts :
  (forall p, p ∈ ts -> P p -> f p <> 0%nat) -> sum_list_with f ts = 0%nat -> ~ Exists P ts.
Proof.
  intros Hf Hs (p & Hin & HP)%Exists_exists. pose proof Hin as [i Hi]%list_elem_of_lookup.
  pose proof (sum_lookup f ts i p Hi). pose proof (Hf p Hin HP). lia.
Qed.

(** ** The invariant of the counters *)
Definition in_flight (p : phase T) : nat := match p with Entering nNow _ | Working nNow _ _ => nNow | _ => 0 end.
Definition batched (p : phase T) : Prop := match p with Working nNow _ _ => nNow <> 0%nat | _ => True end.

Record count_inv (c : config T) : Prop := {
  count_todo : nTodo (shared c) = Z.of_nat (length (queue (shared c)) + sum_list_with in_flight (threads c));
  count_range : nTodo (shared c) < 2 ^ 32;
  count_asleep : threads c !! 0%nat = Some Waiting -> queue (shared c) = [] /\ nTodo (shared c) <> 0;
  count_batched : Forall batched (threads c) }.

Lemma batch_size_fits q : queue q <> [] -> (1 <= batch_size nBatchSize q <= length (queue q))%nat.
Proof.
  intros H. unfold batch_size. assert (1 <= length (queue q))%nat by (destruct (queue q); [done|cbn; lia]).
  assert (Hu : 0 <= u32 (Z.of_nat (length (queue q))) <= Z.of_nat (length (queue q))) by (unfold u32; split; [apply Z.mod_pos_bound|apply Z.mod_le]; lia).
  assert (0 <= u32 (nTotal q + nIdle q + 1)) as Hd by (unfold u32; apply Z.mod_pos_bound; lia).
  generalize dependent (u32 (nTotal q + nIdle q + 1)). intros d Hd.
  assert (u32 (Z.of_nat (length (queue q))) / d <= Z.of_nat (length (queue q))); [|lia].
  destruct (decide (d = 0)) as [->|?]; [rewrite Zdiv_0_r; lia|].
  transitivity (u32 (Z.of_nat (length (queue q)))); [|lia]. apply Z.div_le_upper_bound; nia.
Qed.

Definition todo (p : phase T) : list T := match p with Working _ vChecks _ => vChecks | _ => [] end.

(** What getting work does to the queue, whatever the thread. *)
Lemma get_work_spec fMaster q q' p : get_work fMaster q = (q', p) ->
  queue q = todo p ++ queue q' /\ length (todo p) = in_flight p /\ nTodo q' = nTodo q /\ m_request_stop q' = m_request_stop q /\
  batched p /\ (p = Waiting -> fMaster = true -> queue q' = [] /\ nTodo q' <> 0).
Proof.
  unfold get_work. destruct (queue q) as [|check checks] eqn:Hq, (m_request_stop q) eqn:Hs.
  - intros [= <- <-]. rewrite Hq. naive_solver.
  - destruct (fMaster && (nTodo q =? 0)) eqn:E; intros [= <- <-]; cbn; [naive_solver|]. split_and!; try done.
    intros _ ->. split; [done|]. cbn in E. lia.
  - intros [= <- <-]. rewrite Hq. naive_solver.
  - intros [= <- <-]. cbn [todo in_flight queue nTodo m_request_stop batched].
    destruct (batch_size_fits q) as [H1 H2]; [by rewrite Hq|]. rewrite Hq in H2.
    split_and!; try done; [by rewrite take_drop|rewrite length_take; lia|lia].
Qed.

Lemma wake_cases i ts : (ts !! i = Some Waiting /\ wake i ts = <[i := Woken]> ts) \/ (ts !! i <> Some Waiting /\ wake i ts = ts).
Proof. unfold wake. destruct (ts !! i) as [[]|]; naive_solver. Qed.

Lemma wake_lookup_ne i j ts : i <> j -> wake i ts !! j = ts !! j.
Proof. intros Hne. destruct (wake_cases i ts) as [[_ ->]|[_ ->]]; [by rewrite list_lookup_insert_ne|done]. Qed.

Lemma wake_in_flight i ts : sum_list_with in_flight (wake i ts) = sum_list_with in_flight ts.
Proof. destruct (wake_cases i ts) as [[H ->]|[_ ->]]; [|done]. pose proof (sum_insert in_flight ts i _ Woken H). cbn in *. lia. Qed.

Lemma wake_Forall i ts : Forall batched ts -> Forall batched (wake i ts).
Proof. intros H. destruct (wake_cases i ts) as [[_ ->]|[_ ->]]; [by apply Forall_insert|done]. Qed.

Lemma wake_not_waiting i ts : wake i ts !! i <> Some Waiting.
Proof.
  destruct (wake_cases i ts) as [[H ->]|[H ->]]; [|done].
  rewrite list_lookup_insert_eq by by eapply lookup_lt_Some. done.
Qed.

Lemma get_work_count i q ts p q' p' cs :
  ts !! i = Some p -> nTodo q + Z.of_nat (in_flight p) = Z.of_nat (length (queue q) + sum_list_with in_flight ts) -> nTodo q < 2 ^ 32 ->
  (i <> 0%nat -> ts !! 0%nat = Some Waiting -> queue q = [] /\ nTodo q <> 0) -> Forall batched ts ->
  get_work (i =? 0)%nat q = (q', p') -> count_inv {| shared := q'; threads := <[i := p']> ts; added := cs |}.
Proof.
  intros Hi Hc Hr Hw Hb (Hq & Hl & Ht & Hs & Hb' & Hm)%get_work_spec. pose proof (sum_insert in_flight ts i p p' Hi) as Hsum.
  split; cbn [shared threads].
  - rewrite Ht. rewrite Hq, length_app in Hc. lia.
  - lia.
  - destruct i as [|i].
    + rewrite list_lookup_insert_eq by by eapply lookup_lt_Some. intros [= ->]. by apply Hm.
    + rewrite list_lookup_insert_ne by done. intros [Hq' Hn]%Hw; [|done]. rewrite Hq' in Hq.
      symmetry in Hq. apply app_eq_nil in Hq as [_ ->]. by rewrite Ht.
  - by apply Forall_insert.
Qed.

Lemma local_count c i p p' cs :
  count_inv c -> threads c !! i = Some p -> in_flight p' = in_flight p -> p' <> Waiting -> batched p' ->
  count_inv {| shared := shared c; threads := <[i := p']> (threads c); added := cs |}.
Proof.
  intros [Ht Hr Ha Hb] Hi Hf Hw Hb'. pose proof (sum_insert in_flight (threads c) i p p' Hi). split; cbn [shared threads].
  - lia.
  - done.
  - intros Hl. apply Ha. apply list_lookup_insert_Some in Hl as [(_ & -> & _)|[_ Hl]]; done.
  - by apply Forall_insert.
Qed.

Lemma thread_count i c c' : count_inv c -> thread_next i c = Some c' -> count_inv c'.
Proof.
  intros Hc. pose proof Hc as [Ht Hr Ha Hb]. unfold thread_next. destruct (threads c !! i) as [p|] eqn:Hi; [|done].
  pose proof (sum_lookup in_flight _ _ _ Hi) as Hle. pose proof (Forall_lookup_1 _ _ _ _ Hb Hi) as Hp.
  destruct p as [nNow fOk| | |nNow [|check vChecks] fOk| |]; try done.
  - set (q := clean_up nNow fOk (shared c)). set (ts := if notifies_master (i =? 0)%nat nNow q then _ else _).
    destruct (get_work (i =? 0)%nat q) as [q' p'] eqn:Hg. intros [= <-]. cbn in Hle.
    assert (Hq : queue q = queue (shared c)) by (unfold q, clean_up; by destruct (nNow =? 0)%nat).
    assert (Hn : nTodo q = nTodo (shared c) - Z.of_nat nNow).
    { unfold q, clean_up. destruct (Nat.eqb_spec nNow 0) as [->|?]; cbn; [lia|]. unfold u32. apply Z.mod_small. lia. }
    eapply (get_work_count i q ts (Entering nNow fOk)); [..|exact Hg].
    + unfold ts, notifies_master. destruct (_ && _) eqn:E; [|done]. rewrite wake_lookup_ne; [done|]. intros <-. cbn in E. lia.
    + replace (sum_list_with in_flight ts) with (sum_list_with in_flight (threads c)); [rewrite Hq; cbn; lia|].
      unfold ts. destruct (notifies_master _ _ _); [by rewrite wake_in_flight|done].
    + lia.
    + intros Hne. unfold ts, notifies_master. destruct (_ && _) eqn:E; [intros []%wake_not_waiting|].
      intros [Hq' Hn']%Ha. rewrite Hq. split; [done|]. destruct (Nat.eqb_spec nNow 0), (Nat.eqb_spec i 0), (Z.eqb_spec (nTodo q) 0); cbn in E; try done; lia.
    + unfold ts. destruct (notifies_master _ _ _); [by apply wake_Forall|done].
  - destruct (get_work (i =? 0)%nat (awake (shared c))) as [q' p'] eqn:Hg. intros [= <-].
    by eapply (get_work_count i (awake (shared c)) (threads c) Woken); [..|exact Hg]; cbn; try lia.
  - intros [= <-]. by eapply local_count.
  - intros [= <-]. by eapply local_count.
Qed.

(** Threads of which some were woken up. *)
Definition awoken (p p' : phase T) : Prop := p' = p \/ p = Waiting /\ p' = Woken.

Lemma awoken_refl ts : Forall2 awoken ts ts.
Proof. induction ts; constructor; [by left|done]. Qed.

Lemma awoken_insert ts i : ts !! i = Some Waiting -> Forall2 awoken ts (<[i := Woken]> ts).
Proof. revert i. induction ts as [|p ts IH]; intros [|i] H; simplify_eq/=; constructor; [by right|apply awoken_refl|by left|by apply IH]. Qed.

Lemma awoken_workers ts : Forall2 awoken ts (wake_workers ts).
Proof.
  destruct ts as [|p ts]; constructor; [by left|]. induction ts as [|q ts IH]; constructor; [|done].
  destruct q; cbn; by (left + right).
Qed.

Lemma awoken_notify ts ts' : notify_one ts ts' -> Forall2 awoken ts ts'.
Proof. intros []; [by apply awoken_insert|apply awoken_refl]. Qed.

Lemma awoken_in_flight ts ts' : Forall2 awoken ts ts' -> sum_list_with in_flight ts' = sum_list_with in_flight ts.
Proof. induction 1 as [|?? ?? [->|[-> ->]] _ IH]; cbn; by rewrite ?IH. Qed.

Lemma awoken_batched ts ts' : Forall2 awoken ts ts' -> Forall batched ts -> Forall batched ts'.
Proof. induction 1 as [|?? ?? [->|[-> ->]] _ IH]; inversion 1; subst; constructor; auto. Qed.

Lemma awoken_lookup ts ts' i p' : Forall2 awoken ts ts' -> ts' !! i = Some p' -> exists p, ts !! i = Some p /\ awoken p p'.
Proof. intros H Hi. destruct (Forall2_lookup_r _ _ _ _ _ H Hi) as (p & ? & ?). by exists p. Qed.

Lemma awoken_count c ts : Forall2 awoken (threads c) ts -> count_inv c -> count_inv {| shared := shared c; threads := ts; added := added c |}.
Proof.
  intros Hw [Ht Hr Ha Hb]. split; cbn [shared threads].
  - by rewrite (awoken_in_flight _ _ Hw).
  - done.
  - intros (p & Hp & [<-|[_ ?]])%(awoken_lookup _ _ _ _ Hw); [by apply Ha|done].
  - by eapply awoken_batched.
Qed.

Lemma master_awake c ts b : Forall2 awoken (threads c) ts -> threads c !! 0%nat = Some b -> b <> Waiting -> ts !! 0%nat = Some b.
Proof.
  intros Hw Hb Hne. destruct (Forall2_lookup_l _ _ _ _ _ Hw Hb) as (p' & Hp & [->|[-> ->]]); done.
Qed.

Lemma push_count c vChecks ts cs :
  Forall2 awoken (threads c) ts -> threads c !! 0%nat = Some Outside -> nTodo (shared c) + Z.of_nat (length vChecks) < 2 ^ 32 -> count_inv c ->
  count_inv {| shared := push_checks vChecks (shared c); threads := ts; added := cs |}.
Proof.
  intros Hw Hm Hlt [Ht Hr Ha Hb].
  assert (Hn : nTodo (push_checks vChecks (shared c)) = nTodo (shared c) + Z.of_nat (length vChecks)) by (cbn; unfold u32; apply Z.mod_small; lia).
  split; cbn [shared threads].
  - rewrite Hn, (awoken_in_flight _ _ Hw). cbn. rewrite length_app, length_reverse. lia.
  - lia.
  - rewrite (master_awake c ts Outside) by done. done.
  - by eapply awoken_batched.
Qed.

Lemma env_count c c' : count_inv c -> env_step c c' -> count_inv c'.
Proof.
  intros Hc []; try by eapply push_count; eauto using awoken_notify.
  - eapply push_count; try done. case_decide; [apply awoken_refl|apply awoken_workers].
  - by eapply local_count.
  - by eapply (local_count c 0 (Returned fRet) Outside).
  - pose proof (awoken_count c _ (awoken_workers _) Hc) as [? ? ? ?]. by split.
  - apply awoken_count; [by apply awoken_insert|done].
Qed.

Lemma started_count n : count_inv (started n).
Proof.
  split; cbn; [|done|done|]; [|constructor; [done|by apply Forall_replicate]].
  replace (sum_list_with in_flight (replicate n (Entering 0 true))) with 0%nat; [done|]. induction n; cbn; auto.
Qed.

Lemma reachable_count c : reachable c -> count_inv c.
Proof.
  intros [n H]. pose proof (started_count n) as Hc. induction H as [|c1 c2 c [[i Hi]|He] _ IH]; [done|..]; eauto using thread_count, env_count.
Qed.

(** ** Waiting ends *)
Definition weight (p : phase T) : nat :=
  match p with Entering nNow _ => if (nNow =? 0)%nat then 1 else 2 | Woken => 1 | Working _ vChecks _ => 3 + length vChecks | _ => 0 end.
(** A bound on the steps the threads still make. *)
Definition steps_left (c : config T) : nat := 4 * length (queue (shared c)) + sum_list_with weight (threads c).

Lemma get_work_weight fMaster q q' p : get_work fMaster q = (q', p) -> (weight p + 4 * length (queue q') <= 4 * length (queue q))%nat.
Proof.
  intros H. pose proof H as (Hq & Hl & _ & _ & Hb & _)%get_work_spec. rewrite Hq, length_app, Hl.
  destruct p; cbn in *; try lia. all: exfalso; revert H; unfold get_work; by repeat case_match; intros [= ??].
Qed.

Lemma wake_weight i ts : (sum_list_with weight (wake i ts) <= S (sum_list_with weight ts))%nat.
Proof. destruct (wake_cases i ts) as [[H ->]|[_ ->]]; [|lia]. pose proof (sum_insert weight ts i _ Woken H). cbn in *. lia. Qed.

Lemma thread_weight i c c' : count_inv c -> thread_next i c = Some c' -> (steps_left c' < steps_left c)%nat.
Proof.
  intros Hc. unfold thread_next, steps_left. destruct (threads c !! i) as [p|] eqn:Hi; [|done].
  pose proof (Forall_lookup_1 _ _ _ _ (count_batched c Hc) Hi) as Hp.
  destruct p as [nNow fOk| | |nNow [|check vChecks] fOk| |]; try done.
  - set (q := clean_up nNow fOk (shared c)). set (ts := if notifies_master (i =? 0)%nat nNow q then _ else _).
    destruct (get_work (i =? 0)%nat q) as [q' p'] eqn:Hg. intros [= <-]. cbn [shared threads].
    assert (Hq : queue q = queue (shared c)) by (unfold q, clean_up; by destruct (nNow =? 0)%nat).
    apply get_work_weight in Hg. rewrite Hq in Hg.
    assert (Hts : ts !! i = Some (Entering nNow fOk) /\ (sum_list_with weight ts < sum_list_with weight (threads c) + weight (Entering nNow fOk))%nat).
    { unfold ts, notifies_master. cbn. destruct (_ && _) eqn:E.
      - split; [rewrite wake_lookup_ne; [done|]; intros <-; cbn in E; lia|]. pose proof (wake_weight 0 (threads c)).
        destruct (nNow =? 0)%nat; [done|lia].
      - split; [done|]. destruct (nNow =? 0)%nat; lia. }
    destruct Hts as [Hts Hlt]. pose proof (sum_insert weight ts i _ p' Hts). lia.
  - destruct (get_work (i =? 0)%nat (awake (shared c))) as [q' p'] eqn:Hg. intros [= <-]. cbn [shared threads].
    apply get_work_weight in Hg. pose proof (sum_insert weight _ i _ p' Hi). cbn in *. lia.
  - intros [= <-]. cbn [shared threads]. pose proof (sum_insert weight _ i _ (Entering nNow fOk) Hi) as Hs. cbn in Hs, Hp.
    destruct (Nat.eqb_spec nNow 0); lia.
  - intros [= <-]. cbn [shared threads].
    pose proof (sum_insert weight _ i _ (Working nNow vChecks (if fOk then run check else fOk)) Hi) as Hs. cbn in Hs. lia.
Qed.

(** The master is in Loop. *)
Definition waits (c : config T) : Prop := exists p, threads c !! 0%nat = Some p /\ p <> Outside /\ forall fRet, p <> Returned fRet.

Lemma waiting_dec (p : phase T) : p = Waiting \/ p <> Waiting.
Proof. destruct p; by (left + right). Qed.

Lemma moves c i p : threads c !! i = Some p -> p <> Waiting -> p <> Outside -> (forall fRet, p <> Returned fRet) -> exists c', thread_step c c'.
Proof.
  intros Hi Hw Ho Hr. assert (is_Some (thread_next i c)) as [c' Hc']; [|by exists c', i]. unfold thread_next. rewrite Hi.
  destruct p as [nNow fOk| | |nNow [|check vChecks] fOk|fRet|]; try done; [by destruct (get_work _ _)..|by destruct (Hr fRet)].
Qed.

Lemma waits_moves c : count_inv c -> waits c -> exists c', thread_step c c'.
Proof.
  intros [Ht _ Ha _] (p & Hp & Ho & Hr). destruct (waiting_dec p) as [->|Hw]; [|by eapply moves].
  destruct (Ha Hp) as [Hq Hn]. rewrite Hq in Ht. cbn in Ht.
  destruct (sum_positive in_flight (threads c)) as (i & p & Hi & Hf); [lia|]. by eapply moves; [done|destruct p..].
Qed.

(** C20: Waiting for the checks ends, whatever the order in which the threads run.  From any
    state that can be reached, also after spurious wake-ups and with a stop requested,
    the threads make no more than [steps_left] steps; and as long as the master is in
    Loop, some thread can make one: no thread sleeps through its last notification. *)
Theorem CCheckQueue_terminates c :
  reachable c ->
  (forall n c', nsteps thread_step n c c' -> (n <= steps_left c)%nat) /\ (forall c', rtc thread_step c c' -> waits c' -> exists c'', thread_step c' c'').
Proof.
  intros Hc%reachable_count. split.
  - intros n c' H. revert Hc. induction H as [c|n c c1 c2 [i Hi] _ IH]; [lia|]. intros Hc.
    pose proof (thread_weight i c c1 Hc Hi). pose proof (IH (thread_count i c c1 Hc Hi)). lia.
  - intros c' H. apply waits_moves. revert Hc. induction H as [|c c1 c2 [i Hi] _ IH]; [done|]. intros Hc. by eapply IH, thread_count.
Qed.
(** ** The invariant of the results *)
Definition bad (p : phase T) : Prop := match p with Entering nNow fOk | Working nNow _ fOk => nNow <> 0%nat /\ fOk = false | _ => False end.
Definition known_bad q ts : Prop := fAllOk q = false \/ Exists bad ts.
Definition taken (x : T) (p : phase T) : Prop := x ∈ todo p.

Record check_inv q ts (cs : list T) : Prop := {
  known_fails : known_bad q ts -> Exists (fun x => run x = false) cs;
  accounted x : x ∈ cs -> run x = true \/ x ∈ queue q \/ Exists (taken x) ts \/ known_bad q ts;
  queue_added x : x ∈ queue q -> x ∈ cs;
  taken_added x : Exists (taken x) ts -> x ∈ cs }.

Lemma check_work q ts cs i nNow x v fOk :
  check_inv q ts cs -> ts !! i = Some (Working nNow (x :: v) fOk) -> nNow <> 0%nat ->
  check_inv q (<[i := Working nNow v (if fOk then run x else fOk)]> ts) cs.
Proof.
  intros [Hk Ha Hq Ht] Hi Hn. set (p' := Working nNow v _).
  assert (Hx : x ∈ cs). { eapply Ht, Exists_at; [done|]. by left. }
  assert (Hbad : fOk = false \/ run x = false -> Exists bad (<[i := p']> ts)).
  { intros H. eapply Exists_here; [done|]. split; [done|]. destruct fOk; [by destruct H|done]. }
  assert (Hkb : known_bad q ts -> known_bad q (<[i := p']> ts)).
  { intros [H|H]; [by left|right]. destruct (Exists_old bad ts i _ p' Hi H) as [[_ ->]|H']; [apply Hbad; by left|done]. }
  split.
  - intros [H|H]; [by apply Hk; left|]. apply Exists_new in H as [[_ H]|H]; [|by apply Hk; right].
    destruct fOk; [by apply Exists_exists; exists x|]. apply Hk. right. by eapply Exists_at.
  - intros y Hy. destruct (run y) eqn:Er; [by left|right]. destruct (Ha y Hy) as [?|[?|[H|H]]]; [congruence|by left| |by right; right; apply Hkb].
    right. destruct (Exists_old (taken y) ts i _ p' Hi H) as [[->|Hv]%elem_of_cons|H']; [right; right; apply Hbad; by right| |by left].
    left. by eapply Exists_here.
  - done.
  - intros y [H|H]%Exists_new; [|by apply Ht]. eapply Ht, Exists_at; [done|]. by right.
Qed.

(** A batch is over, its thread still to get the lock. *)
Lemma check_over q ts cs i nNow fOk :
  check_inv q ts cs -> ts !! i = Some (Working nNow [] fOk) -> check_inv q (<[i := Entering nNow fOk]> ts) cs.
Proof.
  intros [Hk Ha Hq Ht] Hi.
  assert (Hkb : known_bad q ts -> known_bad q (<[i := Entering nNow fOk]> ts)).
  { intros [H|H]; [by left|right]. destruct (Exists_old bad ts i _ (Entering nNow fOk) Hi H); [by eapply Exists_here|done]. }
  split.
  - intros [H|[H|H]%Exists_new]; apply Hk; [by left|right; by eapply Exists_at|by right].
  - intros y Hy. destruct (Ha y Hy) as [?|[?|[H|H]]]; [by left|by right; left| |by right; right; right; apply Hkb].
    destruct (Exists_old (taken y) ts i _ (Entering nNow fOk) Hi H) as [[]%not_elem_of_nil|?]. by right; right; left.
  - done.
  - intros y [[]%not_elem_of_nil|H]%Exists_new. by apply Ht.
Qed.

(** The result of a batch is handed over. *)
Lemma check_clean_up q ts cs i nNow fOk :
  check_inv q ts cs -> ts !! i = Some (Entering nNow fOk) -> check_inv (clean_up nNow fOk q) (<[i := Woken]> ts) cs.
Proof.
  intros [Hk Ha Hq Ht] Hi.
  assert (Hqq : queue (clean_up nNow fOk q) = queue q) by (unfold clean_up; by destruct (nNow =? 0)%nat).
  assert (Hall : fAllOk (clean_up nNow fOk q) = false <-> fAllOk q = false \/ bad (Entering nNow fOk)).
  { unfold clean_up. destruct (Nat.eqb_spec nNow 0) as [->|?]; cbn; destruct (fAllOk q), fOk; naive_solver. }
  split; rewrite ?Hqq.
  - intros [[H|H]%Hall|[[]|H]%Exists_new]; apply Hk; [by left|right; by eapply Exists_at|by right].
  - intros y Hy. destruct (Ha y Hy) as [?|[?|[H|[H|H]]]]; [by left|by right; left| |by right; right; right; left; apply Hall; left|].
    + destruct (Exists_old (taken y) ts i _ Woken Hi H) as [[]%not_elem_of_nil|?]. by right; right; left.
    + right; right; right. destruct (Exists_old bad ts i _ Woken Hi H); [left; apply Hall; by right|by right].
  - done.
  - intros y [[]%not_elem_of_nil|H]%Exists_new. by apply Ht.
Qed.

(** Waking threads up changes nothing. *)
Lemma awoken_Exists (P : phase T -> Prop) ts ts' : ~ P Waiting -> ~ P Woken -> Forall2 awoken ts ts' -> Exists P ts <-> Exists P ts'.
Proof.
  intros H1 H2. induction 1 as [|p p' ts ts' Hp _ IH]; [done|]. rewrite !Exists_cons, IH.
  destruct Hp as [->|[-> ->]]; tauto.
Qed.

Lemma check_awoken q ts ts' cs : Forall2 awoken ts ts' -> check_inv q ts cs -> check_inv q ts' cs.
Proof.
  intros Hw [Hk Ha Hq Ht].
  pose proof (awoken_Exists bad ts ts' (fun H => H) (fun H => H) Hw) as Hb.
  assert (Htk : forall x, Exists (taken x) ts <-> Exists (taken x) ts') by (intros x; apply awoken_Exists; [intros []%not_elem_of_nil..|done]).
  assert (Hkb : known_bad q ts <-> known_bad q ts') by (unfold known_bad; by rewrite Hb).
  split.
  - by rewrite <-Hkb.
  - intros x Hx. rewrite <-Hkb, <-Htk. by apply Ha.
  - done.
  - intros x. rewrite <-Htk. apply Ht.
Qed.

Lemma get_work_result fMaster q q' p : m_request_stop q = false -> get_work fMaster q = (q', p) ->
  (p = Returned (fAllOk q) /\ fAllOk q' = true /\ queue q = [] /\ nTodo q = 0 /\ fMaster = true) \/
  ((forall fRet, p <> Returned fRet) /\ fAllOk q' = fAllOk q /\ (bad p -> fAllOk q = false)).
Proof.
  unfold get_work. intros ->. destruct (queue q) as [|check checks] eqn:Hq.
  - destruct (fMaster && (nTodo q =? 0)) eqn:E; intros [= <- <-]; [left|by right]. apply andb_true_iff in E as [-> ?%Z.eqb_eq]. done.
  - intros [= <- <-]. right. split_and!; [done|done|]. by intros [_ ?].
Qed.

Lemma check_get_work fMaster q q' ts cs i p : m_request_stop q = false ->
  check_inv q ts cs -> ts !! i = Some Woken -> get_work fMaster q = (q', p) -> (forall fRet, p <> Returned fRet) -> check_inv q' (<[i := p]> ts) cs.
Proof.
  intros Hs [Hk Ha Hq Ht] Hi Hg Hr.
  destruct (get_work_result _ _ _ _ Hs Hg) as [[-> _]|(_ & Hok & Hbad)]; [by destruct (Hr (fAllOk q))|].
  apply get_work_spec in Hg as (Hqq & _).
  assert (Hin : forall x, x ∈ queue q <-> taken x p \/ x ∈ queue q') by (intros x; rewrite Hqq; apply elem_of_app).
  assert (Hkb : known_bad q ts <-> known_bad q' (<[i := p]> ts)).
  { unfold known_bad. rewrite Hok. split; (intros [H|H]; [by left|]).
    - right. by destruct (Exists_old bad ts i _ p Hi H).
    - apply Exists_new in H as [H|H]; [left; by apply Hbad|by right]. }
  split.
  - by rewrite <-Hkb.
  - intros x Hx. rewrite <-Hkb. destruct (Ha x Hx) as [?|[[?|?]%Hin|[H|?]]]; [by left| |by right; left| |by right; right; right].
    + right; right; left. by eapply Exists_here.
    + right; right; left. destruct (Exists_old (taken x) ts i _ p Hi H) as [[]%not_elem_of_nil|?]. done.
  - intros x Hx. apply Hq, Hin. by right.
  - intros x [H|H]%Exists_new; [apply Hq, Hin; by left|by apply Ht].
Qed.

Lemma idle_threads ts : Forall batched ts -> sum_list_with in_flight ts = 0%nat -> ~ Exists bad ts /\ forall x, ~ Exists (taken x) ts.
Proof.
  intros Hb Hz. rewrite Forall_forall in Hb. split; [|intros x]; (eapply not_Exists_sum; [|exact Hz]); intros p Hp H; specialize (Hb p Hp).
  - destruct p; try done; by destruct H.
  - destruct p; try by apply not_elem_of_nil in H. done.
Qed.

(** When nothing is left to do, the flag has the answer. *)
Lemma check_done q ts cs :
  check_inv q ts cs -> queue q = [] -> Forall batched ts -> sum_list_with in_flight ts = 0%nat -> fAllOk q = forallb run cs.
Proof.
  intros [Hk Ha _ _] Hq Hb Hz.
  destruct (idle_threads ts Hb Hz) as [Hnb Hnt].
  destruct (fAllOk q) eqn:E; symmetry.
  - apply forallb_forall. intros x Hx%list_elem_of_In. destruct (Ha x Hx) as [?|[H|[H|[H|H]]]]; [done| | |congruence|done].
    + rewrite Hq in H. by apply not_elem_of_nil in H.
    + by destruct (Hnt x).
  - destruct (proj1 (Exists_exists _ _) (Hk (or_introl E))) as (x & Hx & Hf). apply not_true_is_false. intros H.
    rewrite forallb_forall in H. rewrite H in Hf; [done|]. by apply list_elem_of_In.
Qed.

Lemma check_fresh q ts : queue q = [] -> fAllOk q = true -> Forall batched ts -> sum_list_with in_flight ts = 0%nat -> check_inv q ts [].
Proof.
  intros Hq Ha Hb Hz.
  destruct (idle_threads ts Hb Hz) as [Hnb Hnt].
  split.
  - intros [H|H]; [congruence|done].
  - by intros x []%not_elem_of_nil.
  - intros x H. rewrite Hq in H. done.
  - intros x H. by destruct (Hnt x).
Qed.

Definition result_inv (c : config T) : Prop :=
  (threads c !! 0%nat = Some (Returned true) -> forallb run (added c) = true) /\
  (m_request_stop (shared c) = false ->
   match threads c !! 0%nat with
   | Some (Returned fRet) => fRet = forallb run (added c) /\ fAllOk (shared c) = true /\ nTodo (shared c) = 0
   | _ => check_inv (shared c) (threads c) (added c)
   end).

(** A thread at work before the master is told the answer. *)
Lemma get_work_running i q ts q' p cs c' :
  c' = {| shared := q'; threads := <[i := p]> ts; added := cs |} -> count_inv c' ->
  (forall fRet, ts !! 0%nat <> Some (Returned fRet)) -> ts !! i = Some Woken ->
  (m_request_stop q = false -> check_inv q ts cs) -> get_work (i =? 0)%nat q = (q', p) -> result_inv c'.
Proof.
  intros -> [Ht _ _ Hb] Hm Hi Hc Hg. cbn [shared threads added] in *. pose proof Hg as (Hqq & Hl & Hn & Hs & _ & _)%get_work_spec.
  destruct (m_request_stop q) eqn:Es.
  { split; cbn [shared threads added]; [|congruence]. intros H. exfalso. apply list_lookup_insert_Some in H as [(-> & -> & _)|[_ H]]; [|by eapply Hm].
    revert Hg. unfold get_work. rewrite Es. by destruct (queue q). }
  specialize (Hc eq_refl). destruct (get_work_result _ _ _ _ Es Hg) as [(-> & Hok & Hq & Hz & Hi0%Nat.eqb_eq)|(Hr & _)].
  - subst i. assert (Hb0 : fAllOk q = forallb run cs).
    { assert (queue q' = []) as Hq' by (rewrite Hq in Hqq; by destruct (queue q')). rewrite Hq', Hn, Hz in Ht. cbn [length] in Ht.
      pose proof (sum_insert in_flight ts 0 _ (Returned (fAllOk q)) Hi) as Hs0. cbn in Hs0.
      assert (Forall batched ts); [|by eapply check_done; [exact Hc|done..|lia]].
      rewrite <-(list_insert_id ts 0 Woken Hi), <-(list_insert_insert_eq ts 0 Woken (Returned (fAllOk q))). by apply Forall_insert. }
    split; cbn [shared threads added]; rewrite list_lookup_insert_eq by by eapply lookup_lt_Some.
    + intros [= H]. congruence.
    + intros _. split_and!; [done|done|lia].
  - pose proof (check_get_work _ _ _ _ _ _ _ Es Hc Hi Hg Hr) as Hc'. split; cbn [shared threads added].
    + intros H. exfalso. apply list_lookup_insert_Some in H as [(_ & H & _)|[_ H]]; [by apply (Hr true)|by eapply Hm].
    + intros _. destruct (<[i := p]> ts !! 0%nat) as [[]|] eqn:E; try done. exfalso.
      apply list_lookup_insert_Some in E as [(_ & H & _)|[_ H]]; [by eapply Hr|by eapply Hm].
Qed.

(** What a step of another thread leaves of an answer that was given. *)
Lemma thread_returned i c c' fRet :
  count_inv c -> threads c !! 0%nat = Some (Returned fRet) -> thread_next i c = Some c' ->
  added c' = added c /\ threads c' !! 0%nat = Some (Returned fRet) /\ m_request_stop (shared c') = m_request_stop (shared c) /\
  (m_request_stop (shared c) = false -> nTodo (shared c) = 0 -> nTodo (shared c') = 0 /\ fAllOk (shared c') = fAllOk (shared c)).
Proof.
  intros [Ht _ _ Hb] Hm. unfold thread_next. destruct (threads c !! i) as [p|] eqn:Hi; [|done].
  pose proof (sum_lookup in_flight _ _ _ Hi) as Hle. pose proof (Forall_lookup_1 _ _ _ _ Hb Hi) as Hp.
  assert (Hi0 : i = 0%nat -> p = Returned fRet) by (intros ->; congruence).
  assert (Hw : wake 0 (threads c) = threads c) by (unfold wake; by rewrite Hm).
  assert (Hm' : forall p', i <> 0%nat -> <[i := p']> (threads c) !! 0%nat = Some (Returned fRet)) by (intros; by rewrite list_lookup_insert_ne).
  assert (Hg : forall q q' p', i <> 0%nat -> get_work (i =? 0)%nat q = (q', p') -> m_request_stop q' = m_request_stop q /\
    (m_request_stop q = false -> nTodo q' = nTodo q /\ fAllOk q' = fAllOk q)).
  { intros q q' p' Hne Hg. pose proof Hg as (_ & _ & Hn & Hs & _)%get_work_spec. split; [done|]. intros Es. split; [done|].
    destruct (get_work_result _ _ _ _ Es Hg) as [(_ & _ & _ & _ & ?%Nat.eqb_eq)|(_ & ? & _)]; done. }
  destruct p as [nNow fOk| | |nNow [|check vChecks] fOk| |]; try done; (assert (i <> 0%nat) as Hne by (intros ->; by specialize (Hi0 eq_refl))).
  - rewrite Hw, Tauto.if_same. destruct (get_work _ _) as [q' p'] eqn:E. apply Hg in E as [Hs Hn]; [|done]. intros [= <-]. cbn [shared threads added].
    assert (Hs' : m_request_stop (clean_up nNow fOk (shared c)) = m_request_stop (shared c)) by (unfold clean_up; by destruct (nNow =? 0)%nat).
    split_and!; [done|by apply Hm'|congruence|]. rewrite Hs' in Hn. intros Es Hz. destruct (Hn Es) as [-> ->].
    cbn in Hle. assert (nNow = 0%nat) as -> by lia. done.
  - destruct (get_work _ _) as [q' p'] eqn:E. apply Hg in E as [Hs Hn]; [|done]. intros [= <-]. cbn [shared threads added].
    split_and!; [done|by apply Hm'|done|]. intros Es Hz. by destruct (Hn Es) as [-> ->].
  - intros [= <-]. split_and!; [done|by apply Hm'|done|done].
  - intros [= <-]. split_and!; [done|by apply Hm'|done|done].
Qed.

Lemma returned_dec (p : phase T) : (exists fRet, p = Returned fRet) \/ forall fRet, p <> Returned fRet.
Proof. destruct p; [by right..|left; by eexists|by right]. Qed.

Lemma running_result q ts cs :
  (forall fRet, ts !! 0%nat <> Some (Returned fRet)) -> (m_request_stop q = false -> check_inv q ts cs) ->
  result_inv {| shared := q; threads := ts; added := cs |}.
Proof.
  intros Hm Hc. split; cbn [shared threads added]; [by intros []%Hm|]. intros Es. specialize (Hc Es).
  destruct (ts !! 0%nat) as [[| | | |fRet|]|] eqn:E; try done. by destruct (Hm fRet).
Qed.

Lemma running_check c pm :
  result_inv c -> threads c !! 0%nat = Some pm -> (forall fRet, pm <> Returned fRet) ->
  m_request_stop (shared c) = false -> check_inv (shared c) (threads c) (added c).
Proof. intros [_ H] Hm Hr Es. specialize (H Es). rewrite Hm in H. destruct pm; try done. by destruct (Hr fRet). Qed.

Lemma still_running ts pm i p : ts !! 0%nat = Some pm -> (forall fRet, pm <> Returned fRet) -> (forall fRet, p <> Returned fRet) ->
  forall fRet, <[i := p]> ts !! 0%nat <> Some (Returned fRet).
Proof. intros Hm Hr Hp fRet [(_ & H & _)|[_ H]]%list_lookup_insert_Some; [by eapply Hp|]. rewrite Hm in H. by simplify_eq; eapply Hr. Qed.

Lemma awoken_wake i ts : Forall2 awoken ts (wake i ts).
Proof. destruct (wake_cases i ts) as [[H ->]|[_ ->]]; [by apply awoken_insert|apply awoken_refl]. Qed.

Lemma thread_running i c c' pm : count_inv c -> result_inv c -> threads c !! 0%nat = Some pm -> (forall fRet, pm <> Returned fRet) ->
  thread_next i c = Some c' -> result_inv c'.
Proof.
  intros Hc H2 Hm Hr Hn. pose proof (thread_count _ _ _ Hc Hn) as Hc'. pose proof (running_check c pm H2 Hm Hr) as Hchk.
  revert Hn. unfold thread_next. destruct (threads c !! i) as [p|] eqn:Hi; [|done].
  pose proof (Forall_lookup_1 _ _ _ _ (count_batched c Hc) Hi) as Hp.
  destruct p as [nNow fOk| | |nNow [|check vChecks] fOk| |]; try done.
  - set (q := clean_up nNow fOk (shared c)). set (ts := if notifies_master _ _ _ then _ else _).
    destruct (get_work (i =? 0)%nat q) as [q' p'] eqn:Hg. intros [= <-].
    assert (Hw : Forall2 awoken (threads c) ts) by (unfold ts; destruct (notifies_master _ _ _); [apply awoken_wake|apply awoken_refl]).
    assert (Hts : ts !! i = Some (Entering nNow fOk)).
    { destruct (Forall2_lookup_l _ _ _ _ _ Hw Hi) as (p & Hp' & [->|[? _]]); done. }
    assert (exists pm', ts !! 0%nat = Some pm' /\ forall fRet, pm' <> Returned fRet) as (pm' & Hm' & Hr').
    { destruct (Forall2_lookup_l _ _ _ _ _ Hw Hm) as (p & Hp' & [->|[_ ->]]); by eexists. }
    eapply (get_work_running i q (<[i := Woken]> ts)); [by rewrite list_insert_insert_eq|done|by eapply still_running| | |exact Hg].
    + apply list_lookup_insert_eq. by eapply lookup_lt_Some.
    + intros Es. apply check_clean_up; [|done]. eapply check_awoken; [exact Hw|]. apply Hchk. revert Es. unfold q, clean_up. by destruct (nNow =? 0)%nat.
  - destruct (get_work (i =? 0)%nat (awake (shared c))) as [q' p'] eqn:Hg. intros [= <-].
    eapply (get_work_running i (awake (shared c)) (threads c)); [done|done| |done| |exact Hg].
    + intros fRet H. rewrite Hm in H. simplify_eq. by eapply Hr.
    + intros Es. by destruct (Hchk Es).
  - intros [= <-]. apply running_result; [by eapply still_running|]. intros Es. by apply check_over; [apply Hchk|].
  - intros [= <-]. apply running_result; [by eapply still_running|]. intros Es. by apply check_work; [apply Hchk| |].
Qed.

Lemma thread_result i c c' : count_inv c -> result_inv c -> thread_next i c = Some c' -> result_inv c'.
Proof.
  intros Hc H2 Hn. destruct (threads c !! 0%nat) as [pm|] eqn:Hm; [|exfalso].
  2:{ revert Hn. unfold thread_next. apply lookup_ge_None in Hm. by rewrite (lookup_ge_None_2 (threads c) i) by lia. }
  destruct (returned_dec pm) as [[fRet ->]|Hr]; [|by eapply thread_running].
  destruct (thread_returned _ _ _ _ Hc Hm Hn) as (Ha & Hm' & Hs & Hz). destruct H2 as [H1 H2]. rewrite Hm in H1, H2.
  unfold result_inv. rewrite Ha, Hm', Hs. split; [done|]. intros Es. destruct (H2 Es) as (-> & Hok & Hz0). destruct (Hz Es Hz0) as [-> ->]. done.
Qed.

(** ** Adding checks *)
Lemma check_push q ts cs vChecks : check_inv q ts cs -> check_inv (push_checks vChecks q) ts (cs ++ vChecks).
Proof.
  intros [Hk Ha Hq Ht]. split; cbn.
  - intros H. apply Exists_app. left. by apply Hk.
  - intros x [Hx|Hx]%elem_of_app; [|by right; left; apply elem_of_app; left; apply elem_of_reverse].
    destruct (Ha x Hx) as [?|[?|[?|?]]]; [by left|right; left; apply elem_of_app; by right|by right; right; left|by right; right; right].
  - intros x [H|H]%elem_of_app; apply elem_of_app; [right; by apply elem_of_reverse|left; by apply Hq].
  - intros x H. apply elem_of_app. left. by apply Ht.
Qed.

Lemma push_result c vChecks ts : Forall2 awoken (threads c) ts -> threads c !! 0%nat = Some Outside -> result_inv c ->
  result_inv {| shared := push_checks vChecks (shared c); threads := ts; added := added c ++ vChecks |}.
Proof.
  intros Hw Hm Hr. apply running_result; [rewrite (master_awake c ts Outside); done|]. intros Es.
  eapply check_awoken, check_push; [done|]. by eapply running_check.
Qed.

Lemma check_idle q ts cs i p p' : check_inv q ts cs -> ts !! i = Some p -> ~ bad p -> todo p = [] -> ~ bad p' -> todo p' = [] ->
  check_inv q (<[i := p']> ts) cs.
Proof.
  intros [Hk Ha Hq Ht] Hi Hb Hd Hb' Hd'.
  assert (Hex : forall P : phase T -> Prop, ~ P p -> ~ P p' -> Exists P ts <-> Exists P (<[i := p']> ts)).
  { intros P H H'. split; [by intros []%(Exists_old P ts i p p' Hi)|by intros []%Exists_new]. }
  assert (Htk : forall x, Exists (taken x) ts <-> Exists (taken x) (<[i := p']> ts)) by (intros x; apply Hex; unfold taken; rewrite ?Hd, ?Hd'; apply not_elem_of_nil).
  assert (Hkb : known_bad q ts <-> known_bad q (<[i := p']> ts)) by (unfold known_bad; by rewrite (Hex bad)).
  split; [by rewrite <-Hkb| |done|intros x; rewrite <-Htk; apply Ht]. intros x Hx. rewrite <-Hkb, <-Htk. by apply Ha.
Qed.

Lemma awoken_result q ts ts' cs : Forall2 awoken ts ts' -> result_inv {| shared := q; threads := ts; added := cs |} ->
  result_inv {| shared := q; threads := ts'; added := cs |}.
Proof.
  intros Hw [H1 H2]. cbn [shared threads added] in *. split; cbn [shared threads added].
  - intros (p & Hp & [<-|[_ ?]])%(awoken_lookup _ _ _ _ Hw); [by apply H1|done].
  - intros Es. specialize (H2 Es). destruct (ts !! 0%nat) as [pm|] eqn:Hm.
    + destruct (Forall2_lookup_l _ _ _ _ _ Hw Hm) as (pm' & -> & [->|[-> ->]]); [destruct pm; try done|]; by eapply check_awoken.
    + destruct (ts' !! 0%nat) as [pm'|] eqn:Hm'; [|by eapply check_awoken]. destruct (awoken_lookup _ _ _ _ Hw Hm') as (p & Hp & _). congruence.
Qed.

Lemma env_result c c'  : count_inv c -> result_inv c -> env_step c c' -> result_inv c'.
Proof.
  intros Hc Hr [vChecks Hm| check ts Hm _ Hw|Hm|fRet Hm| |i Hi].
  - apply push_result; [|done..]. case_decide; [apply awoken_refl|apply awoken_workers].
  - by apply push_result; [apply awoken_notify|..].
  - apply running_result; [by eapply still_running|]. intros Es. eapply (check_idle _ _ _ _ Outside); [by eapply running_check|done|by intros []|done|by intros []|done].
  - destruct Hc as [Ht _ _ Hb], Hr as [_ H2]. rewrite Hm in H2. apply running_result; [by rewrite list_lookup_insert_eq by by eapply lookup_lt_Some|].
    intros Es. destruct (H2 Es) as (_ & Hok & Hz). pose proof (sum_insert in_flight _ _ _ Outside Hm) as Hs. cbn in Hs.
    apply check_fresh; [|done|by apply Forall_insert|lia]. apply length_zero_iff_nil. lia.
  - destruct Hr as [H1 _]. split; cbn [shared threads added request_stop m_request_stop]; [|done]. intros H. apply H1.
    destruct (awoken_lookup _ _ _ _ (awoken_workers (threads c)) H) as (p & Hp & [<-|[_ ?]]); done.
  - destruct c as [q ts cs]. by eapply awoken_result; [apply awoken_insert|].
Qed.

Lemma started_result n : result_inv (started n).
Proof.
  apply running_result; [done|]. intros _. apply check_fresh; [done|done|exact (count_batched _ (started_count n))|].
  pose proof (count_todo _ (started_count n)) as H. cbn in *. lia.
Qed.

Lemma reachable_result c : reachable c -> result_inv c.
Proof.
  intros [n H]. pose proof (started_count n) as Hc. pose proof (started_result n) as Hr.
  induction H as [|c1 c2 c [[i Hi]|He] _ IH]; eauto using thread_count, env_count, thread_result, env_result.
Qed.

(** C19: What the master is told.  Whatever the order in which the threads run, whatever
    the batches, and for every block in turn: when Wait returns true, every check that
    was added since the last Wait holds; when it returns false, one of them fails, or
    the threads were told to stop. *)
Theorem CCheckQueue_Wait c fRet :
  reachable c -> threads c !! 0%nat = Some (Returned fRet) ->
  (fRet = true -> Forall (fun check => run check = true) (added c)) /\
  (fRet = false -> Exists (fun check => run check = false) (added c) \/ m_request_stop (shared c) = true).
Proof.
  intros [H1 H2]%reachable_result Hm. rewrite Hm in H1, H2. split; intros ->.
  - specialize (H1 eq_refl). apply Forall_forall. intros x Hx%list_elem_of_In. by apply (proj1 (forallb_forall _ _) H1).
  - destruct (m_request_stop (shared c)); [by right|left]. destruct (H2 eq_refl) as (Hf & _).
    revert Hf. clear. induction (added c) as [|x cs IH]; cbn; [done|]. destruct (run x) eqn:E; [intros H; right; by apply IH|by left].
Qed.

End check_queue.
