(* ===== verification/InputCheck.v ===== *)
(** * The scripts of the inputs of a transaction
    (CScriptCheck, CheckInputs and GetBlockScriptFlags of src/src/validation.cpp,
    src/src/invalid.cpp, src/src/invalid_scripts.json.h, the flags of
    src/src/policy/policy.h and src/src/script/standard.h, the signature cache of
    src/src/script/sigcache.cpp)

    The caches are any [ValidityCache]; CuckooCache.v has the one of the program.
    [None] is a failed assertion, which ends the program.  The checks are run with the
    signature checker that has no cache of its own: [VerifySignature] is the cached
    one.  Not modelled: the data that are computed once for all inputs, the time
    statistics. *)

From S2P Require Import Prelude Serialize Params BetTx BetKeys Transaction TxCodec Coins TokenGroups AddressIndex TxVerify Arith256 Chain Headers HashStream Sha2 Sha512 Sha2Proofs Sha1 Hash160 ScriptNum Standard Script ScriptProofs SigHash BlockCheck BlockCheckProofs CuckooCache.

(** ** Flags *)
Definition MANDATORY_SCRIPT_VERIFY_FLAGS : Z := SCRIPT_VERIFY_P2SH.
Definition STANDARD_SCRIPT_VERIFY_FLAGS : Z :=
  foldl Z.lor MANDATORY_SCRIPT_VERIFY_FLAGS
    [SCRIPT_VERIFY_DERSIG; SCRIPT_VERIFY_STRICTENC; SCRIPT_VERIFY_MINIMALDATA; SCRIPT_VERIFY_NULLDUMMY; SCRIPT_VERIFY_DISCOURAGE_UPGRADABLE_NOPS;
     SCRIPT_VERIFY_CLEANSTACK; SCRIPT_VERIFY_NULLFAIL; SCRIPT_VERIFY_CHECKLOCKTIMEVERIFY; SCRIPT_VERIFY_CHECKSEQUENCEVERIFY; SCRIPT_VERIFY_LOW_S;
     SCRIPT_ENABLE_DIP0020_OPCODES; SCRIPT_VERIFY_CONST_SCRIPTCODE].
Definition STANDARD_NOT_MANDATORY_VERIFY_FLAGS : Z := Z.ldiff STANDARD_SCRIPT_VERIFY_FLAGS MANDATORY_SCRIPT_VERIFY_FLAGS.

Record ScriptParams := { sp_block : BlockParams; BIP147Height : Z; V18DeploymentHeight : Z }.
Definition nBIP16SwitchTime : Z := 1333238400.

(** Of the block's height and time. *)
Definition GetBlockScriptFlags (params : ScriptParams) (nHeight nTime : Z) : Z :=
  let from height flag flags := if height <=? nHeight then Z.lor flags flag else flags in
  let header := bk_header (sp_block params) in
  let flags := if nBIP16SwitchTime <=? nTime then SCRIPT_VERIFY_P2SH else 0 in
  let flags := from (BIP66Height header) SCRIPT_VERIFY_DERSIG flags in
  let flags := from (BIP65Height header) SCRIPT_VERIFY_CHECKLOCKTIMEVERIFY flags in
  let flags := from (CSVHeight (sp_block params)) SCRIPT_VERIFY_CHECKSEQUENCEVERIFY flags in
  let flags := from (BIP147Height params) SCRIPT_VERIFY_NULLDUMMY flags in
  from (V18DeploymentHeight params) SCRIPT_ENABLE_DIP0020_OPCODES flags.

(** ** Invalid scripts *)
Definition LoadInvalidScripts : list Z :=
  [0x2103553a271eb3b93a5829db1a55556b7ff13e0c01193a283809a9517362ded28e98ac;
   0x210385725767026e3fc73300c2ddddcaaaaa62c9bfaf58a1930185c66c3ae631d656ac;
   0x21026a4f00548e3300003a38def4c674ae92ee8b98c5b486cdb3364a898796332ee2ac;
   0x2103bd1d3ec25955896a302b2be7e5358062ff9fc2f3030d2148a7280214221d276aac;
   0x2103b06db9f5637deac3e3d3fe3057e3d11b7011bbaaf54dee9010e1ddd51e2b5baeac;
   0x210393a4ae9eaa89538f4ece95b6d3a344b6ecf1d46ba239836bf157b569ee959ac5ac;
   0x21034e1da2ea5374771f3a88eb2d6ad3702ae62336c33323bf7cba88fc642dc72925ac;
   0x2102f0457b7c9de3ed4c6c0f92a2f8601134b7c28a529d3b64f64617910866886cfbac;
   0x21022ff9f6d3e9d705f238963c9ab5dda6cfbc06f41d282646cf6466b8ea1b3f2a1cac;
   0x2103146a0473565662d14f1baacdc52761c0a0d4f3e9a1f77a5d49cd08eaa3b6456cac;
   0x21020d1c7e2c45a2cacb96950172d5154753d02ca3f154c1c6be25e7a11b6dadb695ac;
   0x2102ee972a30f4029d6bd0ff78528d49fbd426d078ee091565460d507b515f61b74fac;
   0x2103ef8a6e58cb968dd25e927ca7ffda088239e1371851ec359066f1462543dffc0dac;
   0x2102c26773b15427db4e271a96ba0b4df83a00b307c82b697e6466c337980e2a018aac;
   0x2102859657ee7a92d780a24fd858337b7ebf1cd9c89aaf8b8da9865fe4f1ef2fb0edac;
   0x2102b2d4a285d837cb627a19533898a9210c2f93573593e29c19684ac58d17623766ac;
   0x2102edd9e7086773cd342fc92c09b2a8bc5edacd6de03d701b4cf7325f55d8a91996ac;
   0x21023e33c5fad21e5ad2d6d8f6770e70e758a84dad0f7f70192c81cbde776d271b26ac;
   0x21038f202cce0e251ba0eb31cef8d5e96e3a6630bbc259acf4839b6fddb02b55ab75ac].
(** What LoadScripts makes of them: 35 bytes each. *)
Definition setInvalidScripts : list (list Z) := be_bytes 35 <$> LoadInvalidScripts.
Definition validScript : list Z := be_bytes 35 0x21027e4cd64dfc0861ef55dbdb9bcb549ed56a99f59355fe22f94d0537d842f543fdac.
Definition ContainsScript (script : list Z) : bool := bool_decide (script ∈ setInvalidScripts).

(** ** One input *)
Record CScriptCheck := { m_tx_out : CTxOut; ptxTo : CTx; sc_nIn : nat; nFlags : Z }.

Section checks.
Context (Verify : list Z -> list Z -> list Z -> bool) (CheckLowS : list Z -> bool).

Definition CScriptCheck_run (check : CScriptCheck) : option (result unit) :=
  input ← ctx_vin (ptxTo check) !! sc_nIn check;
  checker ← TransactionSignatureChecker Verify (ptxTo check) (sc_nIn check);
  let verify := VerifyScript (nFlags check) checker Verify CheckLowS (txin_scriptSig input) in
  r ← verify (scriptPubKey (m_tx_out check));
  match r with
  | inr _ => Some (inr tt)
  | inl error => if ContainsScript (scriptPubKey (m_tx_out check)) then verify validScript else Some (inl error)
  end.

(** ** All inputs *)
Context {S : Type} `{!CCoinsView S} {Cache : Type} `{!ValidityCache Cache (list Z)}.
(** The random bytes of InitScriptExecutionCache, and what the buffer of the hasher had. *)
Context (nonce buf : list Z).

(** hashCacheEntry *)
Definition script_cache_entry (tx : CTx) (flags : Z) : list Z :=
  let g_scriptExecutionCacheHasher := CSHA256_Write (CSHA256_Write (CSHA256_new buf) nonce) nonce in
  (CSHA256_Finalize (CSHA256_Write (CSHA256_Write g_scriptExecutionCacheHasher (Serialize uint256c (ctx_hash tx))) (Serialize u32c flags))).2.

Inductive InputsResult :=
  | inputs_ok (pvChecks : list CScriptCheck)
  | non_mandatory_script_verify_flag (error : ScriptError)
  | mandatory_script_verify_flag_failed (error : ScriptError).

(** Why the check of an input failed. *)
Definition input_failure (check : CScriptCheck) (error : ScriptError) : option InputsResult :=
  let flags := nFlags check in
  if flag_on flags STANDARD_NOT_MANDATORY_VERIFY_FLAGS || negb (flag_on flags SCRIPT_ENABLE_DIP0020_OPCODES) then
    let flags2 := Z.lor (Z.ldiff flags STANDARD_NOT_MANDATORY_VERIFY_FLAGS) SCRIPT_ENABLE_DIP0020_OPCODES in
    r2 ← CScriptCheck_run {| m_tx_out := m_tx_out check; ptxTo := ptxTo check; sc_nIn := sc_nIn check; nFlags := flags2 |};
    match r2 with
    | inr _ => Some (non_mandatory_script_verify_flag error)
    | inl _ => Some (mandatory_script_verify_flag_failed error)
    end
  else Some (mandatory_script_verify_flag_failed error).

(** The loop over the inputs from [i] on; [parallel]: pvChecks is given. *)
Fixpoint script_loop (inputs : CCoinsViewCache S) (tx : CTx) (flags : Z) (parallel : bool) (i : nat) (vin : list CTxIn) (pvChecks : list CScriptCheck) :
    option (CCoinsViewCache S * InputsResult) :=
  match vin with
  | [] => Some (inputs, inputs_ok pvChecks)
  | input :: vin =>
      let '(inputs, coin) := AccessCoin inputs (txin_prevout input) in
      if IsSpent coin then None
      else
        let check := {| m_tx_out := coin_out coin; ptxTo := tx; sc_nIn := i; nFlags := flags |} in
        if parallel then script_loop inputs tx flags parallel (i + 1) vin (pvChecks ++ [check])
        else
          r ← CScriptCheck_run check;
          match r with
          | inr _ => script_loop inputs tx flags parallel (i + 1) vin pvChecks
          | inl error => f ← input_failure check error; Some (inputs, f)
          end
  end.

Definition CheckInputs (inputs : CCoinsViewCache S) (g_scriptExecutionCache : Cache) (tx : CTx) (fScriptChecks : bool) (flags : Z)
    (cacheFullScriptStore parallel : bool) : option (CCoinsViewCache S * Cache * InputsResult) :=
  if negb (IsCoinBase tx) && negb (HasZerocoinSpendInputs_tx tx) && fScriptChecks then
    let hashCacheEntry := script_cache_entry tx flags in
    '(g_scriptExecutionCache, hit) ← cache_contains g_scriptExecutionCache hashCacheEntry (negb cacheFullScriptStore);
    if hit : bool then Some (inputs, g_scriptExecutionCache, inputs_ok [])
    else
      '(inputs, r) ← script_loop inputs tx flags parallel 0 (ctx_vin tx) [];
      match r with
      | inputs_ok pvChecks =>
          if cacheFullScriptStore && negb parallel then
            g_scriptExecutionCache ← cache_insert g_scriptExecutionCache hashCacheEntry;
            Some (inputs, g_scriptExecutionCache, inputs_ok pvChecks)
          else Some (inputs, g_scriptExecutionCache, inputs_ok pvChecks)
      | _ => Some (inputs, g_scriptExecutionCache, r)
      end
  else Some (inputs, g_scriptExecutionCache, inputs_ok []).

(** ** The signature cache *)
Definition ComputeEntry (hash vchSig pubkey : list Z) : list Z :=
  let m_salted_hasher := CSHA256_Write (CSHA256_Write (CSHA256_new buf) nonce) nonce in
  (CSHA256_Finalize (CSHA256_Write (CSHA256_Write (CSHA256_Write m_salted_hasher hash) pubkey) vchSig)).2.

(** CachingTransactionSignatureChecker::VerifySignature *)
Definition VerifySignature (setValid : Cache) (store : bool) (vchSig pubkey sighash : list Z) : option (Cache * bool) :=
  let entry := ComputeEntry sighash vchSig pubkey in
  '(setValid, hit) ← cache_contains setValid entry (negb store);
  if hit : bool then Some (setValid, true)
  else if negb (Verify pubkey sighash vchSig) then Some (setValid, false)
  else if store then setValid ← cache_insert setValid entry; Some (setValid, true)
  else Some (setValid, true).
End checks.

(** * What the check of the inputs shows

    [CheckInputs_sound]: an accepted transaction has scripts that verify, whatever the
    cache remembers, unless it collides with a transaction that was stored in the cache;
    the cache keeps to what was verified.  [CScriptCheck_policy]: what the memory pool accepts is accepted in
    a block.  [invalid_script_spent]: who can spend an output of the list of invalid
    scripts. *)

#[export] Instance CTxIn_eq_dec : EqDecision CTxIn.
Proof. solve_decision. Defined.
#[export] Instance CTx_eq_dec : EqDecision CTx.
Proof. solve_decision. Defined.

Section checks.
Context (Verify : list Z -> list Z -> list Z -> bool) (CheckLowS : list Z -> bool).
Context {S : Type} `{!CCoinsView S, !CCoinsViewLaws S} {Cache : Type} `{!ValidityCache Cache (list Z)} (nonce buf : list Z).
Notation run := (CScriptCheck_run Verify CheckLowS).
Notation script_loop := (script_loop Verify CheckLowS).

(** The output that an outpoint stands for, in whatever view it is looked up. *)
Context (out_of : COutPoint -> option CTxOut).

Definition agrees (inputs : CCoinsViewCache S) : Prop := forall p coin, cache_view inputs !! p = Some coin -> out_of p = Some (coin_out coin).

(** The scripts of the inputs of a transaction verify, from the input [i] on. *)
Definition verified_from (tx : CTx) (flags : Z) (i : nat) (vin : list CTxIn) : Prop :=
  forall j input, vin !! j = Some input ->
  exists out, out_of (txin_prevout input) = Some out /\ run {| m_tx_out := out; ptxTo := tx; sc_nIn := i + j; nFlags := flags |} = Some (inr tt).
Definition verified (tx : CTx) (flags : Z) : Prop := verified_from tx flags 0 (ctx_vin tx).

Lemma verified_cons tx flags i input vin out :
  out_of (txin_prevout input) = Some out -> run {| m_tx_out := out; ptxTo := tx; sc_nIn := i; nFlags := flags |} = Some (inr tt) ->
  verified_from tx flags (i + 1) vin -> verified_from tx flags i (input :: vin).
Proof.
  intros Ho Hr Hv [|j] x Hj; simplify_eq/=; [exists out; by rewrite Nat.add_0_r|].
  destruct (Hv j x Hj) as (o & ? & ?). exists o. by replace (i + Datatypes.S j)%nat with (i + 1 + j)%nat by lia.
Qed.

Definition all_run (checks : list CScriptCheck) : Prop := Forall (fun check => run check = Some (inr tt)) checks.

(** What the loop did when it accepts, and the input that is to blame when it does not. *)
Definition loop_result (tx : CTx) (flags : Z) (parallel : bool) (i : nat) (vin : list CTxIn) (pvChecks : list CScriptCheck) (r : InputsResult) : Prop :=
  match r with
  | inputs_ok checks => (all_run checks -> verified_from tx flags i vin) /\ exists new, checks = pvChecks ++ new /\ (parallel = false -> new = [])
  | non_mandatory_script_verify_flag e | mandatory_script_verify_flag_failed e =>
      exists j input out, vin !! j = Some input /\ out_of (txin_prevout input) = Some out /\
        run {| m_tx_out := out; ptxTo := tx; sc_nIn := i + j; nFlags := flags |} = Some (inl e)
  end.

Lemma input_failure_result check e r : input_failure Verify CheckLowS check e = Some r -> r = non_mandatory_script_verify_flag e \/ r = mandatory_script_verify_flag_failed e.
Proof. unfold input_failure. destruct (_ || _); [|intros [= <-]; by right]. destruct (run _) as [[?|?]|]; cbn; [intros [= <-]; by right|intros [= <-]; by left|done]. Qed.

Lemma script_loop_spec tx flags parallel vin : forall inputs i pvChecks inputs' r,
  cache_inv inputs -> agrees inputs -> script_loop inputs tx flags parallel i vin pvChecks = Some (inputs', r) ->
  cache_inv inputs' /\ cache_view inputs' = cache_view inputs /\ loop_result tx flags parallel i vin pvChecks r.
Proof.
  induction vin as [|input vin IH]; intros inputs i pvChecks inputs' r Hc Ha; cbn [script_loop].
  { intros [= <- <-]. split_and!; [done|done|]. split; [by intros _ j x|exists []; split; [by rewrite app_nil_r|done]]. }
  destruct (AccessCoin_spec inputs (txin_prevout input) Hc) as (Hc1 & Hv1 & Hr1).
  destruct (AccessCoin inputs (txin_prevout input)) as [inputs1 coin]. cbn [fst snd] in *. destruct (IsSpent coin); [done|].
  symmetry in Hr1. apply Ha in Hr1 as Ho. assert (agrees inputs1) as Ha1 by (intros p k; rewrite Hv1; apply Ha).
  set (check := {| m_tx_out := coin_out coin |}). destruct parallel.
  - intros H. destruct (IH _ _ _ _ _ Hc1 Ha1 H) as (Hc2 & Hv2 & Hl). split_and!; [done|congruence|].
    destruct r as [checks|e|e]; [|destruct Hl as (j & x & out & ? & ? & ?); exists (Datatypes.S j), x, out; by replace (i + Datatypes.S j)%nat with (i + 1 + j)%nat by lia..].
    destruct Hl as [Hl (new & -> & _)]. split; [|exists (check :: new); split; [by rewrite <-app_assoc|done]].
    intros Hall. eapply verified_cons; [exact Ho| |by apply Hl]. apply Forall_app in Hall as [Hall _]. apply Forall_app in Hall as [_ Hall]. by inversion Hall.
  - destruct (run check) as [[e|[]]|] eqn:Hrun; cbn [mbind option_bind]; [| |done].
    + destruct (input_failure _ _ check e) as [f|] eqn:Hf; [|done]. intros [= <- <-]. split_and!; [done|done|].
      destruct (input_failure_result check e f Hf) as [->| ->]; exists 0%nat, input, (coin_out coin); by rewrite Nat.add_0_r.
    + intros H. destruct (IH _ _ _ _ _ Hc1 Ha1 H) as (Hc2 & Hv2 & Hl). split_and!; [done|congruence|].
      destruct r as [checks|e|e]; [|destruct Hl as (j & x & out & ? & ? & ?); exists (Datatypes.S j), x, out; by replace (i + Datatypes.S j)%nat with (i + 1 + j)%nat by lia..].
      destruct Hl as [Hl Hnew]. split; [|done]. intros Hall. by eapply verified_cons; [exact Ho|exact Hrun|apply Hl].
Qed.

(** ** The cache *)
Context (Hbuf : length buf = 64%nat).
Implicit Types (c : Cache) (seen : list (CTx * Z)).

(** The string whose SHA-256 is the entry of a transaction. *)
Definition entry_bytes (tx : CTx) (flags : Z) : list Z := nonce ++ nonce ++ Serialize uint256c (ctx_hash tx) ++ Serialize u32c flags.

Lemma foldl_4 {A B} (f : A -> B -> A) x (a b d e : B) : f (f (f (f x a) b) d) e = foldl f x [a; b; d; e].
Proof using Type. reflexivity. Qed.

Lemma entry_spec tx flags : script_cache_entry nonce buf tx flags = SHA256 (entry_bytes tx flags).
Proof using Hbuf.
  unfold script_cache_entry. cbv zeta. rewrite foldl_4, CSHA256_once by exact Hbuf. reflexivity.
Qed.

#[local] Opaque script_cache_entry.
Notation entry := (script_cache_entry nonce buf).
Notation CheckInputs := (CheckInputs Verify CheckLowS nonce buf).

(** A transaction with its flags that was stored: the hash is that of its bytes, and its
    scripts verify. *)
Definition stored (p : CTx * Z) : Prop := tx_made p.1 /\ inU 32 p.2 /\ verified p.1 p.2.

(** Every entry of the cache is that of one of the transactions that were stored. *)
Definition cache_sound seen c : Prop :=
  cache_ok c /\ Forall stored seen /\ forall e, cached c e -> exists p, p ∈ seen /\ e = entry p.1 p.2.

(** The strings that were hashed for two transactions are a collision: two different
    entry strings with one SHA-256, or two different transactions with one id. *)
Definition hash_clash (tx : CTx) (flags : Z) (p : CTx * Z) : Prop :=
  entry_bytes tx flags <> entry_bytes p.1 p.2 /\ SHA256 (entry_bytes tx flags) = SHA256 (entry_bytes p.1 p.2) \/
  Serialize_tx tx <> Serialize_tx p.1 /\ sha256d (Serialize_tx tx) = sha256d (Serialize_tx p.1).

Lemma entry_bytes_inj tx flags tx' flags' : tx_made tx -> tx_made tx' -> inU 32 flags -> inU 32 flags' ->
  entry_bytes tx flags = entry_bytes tx' flags' -> ctx_hash tx = ctx_hash tx' /\ flags = flags'.
Proof using Type.
  intros M M' Hf Hf' E. unfold entry_bytes in E. apply app_inv_head, app_inv_head in E.
  assert (inU 256 (ctx_hash tx) /\ inU 256 (ctx_hash tx')) as [Hr Hr'] by (rewrite (tx_made_hash tx M), (tx_made_hash tx' M'); split; apply hash_range).
  pose proof (unser_ser (c := uint256c) (ctx_hash tx) (Serialize u32c flags) Hr) as U.
  rewrite E, (unser_ser (c := uint256c) (ctx_hash tx') (Serialize u32c flags') Hr') in U. apply Some_pair_inj in U as [Eh Es]. split; [by symmetry|].
  pose proof (unser_ser (c := u32c) flags [] Hf) as U. rewrite <-Es in U. rewrite (unser_ser (c := u32c) flags' [] Hf') in U. apply Some_pair_inj in U as [U _]. by symmetry.
Qed.

(** One entry for two transactions: they are the same, or there is a collision. *)
Lemma entry_binds tx flags p : tx_made tx -> inU 32 flags -> tx_made p.1 -> inU 32 p.2 -> entry tx flags = entry p.1 p.2 ->
  p = (tx, flags) \/ hash_clash tx flags p.
Proof using Hbuf.
  intros M Hf M' Hf' E. rewrite !entry_spec in E. destruct (decide (entry_bytes tx flags = entry_bytes p.1 p.2)) as [Eb|Hne]; [|by right; left].
  apply entry_bytes_inj in Eb as [Eh Ef]; [|done..]. destruct (decide (Serialize_tx tx = Serialize_tx p.1)) as [Es|Hne].
  - left. destruct p as [tx' flags']. cbn [fst snd] in *. by rewrite (tx_made_inj tx tx' M M' Es), Ef.
  - right. right. split; [exact Hne|]. rewrite (tx_made_hash tx M), (tx_made_hash p.1 M') in Eh. exact (hash_inj _ _ Eh).
Qed.

Lemma cache_hit seen c tx flags : tx_made tx -> inU 32 flags -> cache_sound seen c -> cached c (entry tx flags) ->
  verified tx flags \/ exists p, p ∈ seen /\ hash_clash tx flags p.
Proof using Hbuf.
  intros M Hf (_ & Hst & Hs) (p & Hp & He)%Hs. rewrite Forall_forall in Hst. destruct (Hst p Hp) as (M' & Hf' & Hv).
  destruct (entry_binds tx flags p M Hf M' Hf' He) as [->|Hc]; [by left|]. right. by exists p.
Qed.

Lemma cache_sound_contains seen c e erase c' b : cache_sound seen c -> cache_contains c e erase = Some (c', b) ->
  cache_sound seen c' /\ (b = true -> cached c e \/ e = cache_default).
Proof using Type. intros (Hok & Hst & Hs) (Hok' & Hb & Hx)%cache_contains_ok; [|done]. split; [|done]. split; [done|]. split; [done|]. intros x H%Hx. by apply Hs. Qed.

Lemma cache_sound_insert seen c tx flags c' : cache_sound seen c -> stored (tx, flags) -> cache_insert c (entry tx flags) = Some c' ->
  cache_sound ((tx, flags) :: seen) c'.
Proof using Type.
  intros (Hok & Hst & Hs) Hv (Hok' & Hx)%cache_insert_ok; [|done]. split; [done|]. split; [by constructor|].
  intros x [->|H]%Hx; [exists (tx, flags); split; [apply list_elem_of_here|done]|]. destruct (Hs x H) as (p & Hp & E). exists p. split; [by right|done].
Qed.

(** C18: the answer of CheckInputs.  The transaction has the id of its bytes and is neither
    a coinbase nor a zerocoin spend; [seen] are the transactions and flags that were
    stored in the cache so far, whose scripts verified, and the cache has no other
    entries.  If CheckInputs accepts, and the checks it handed out hold, then the
    script of every input verifies with the output it spends, unless the strings that
    were hashed for this transaction and for one of [seen] are a collision of SHA-256
    (two entries, or two ids), or the hash is the default element, which a new cache
    seems to hold.  If it rejects, the script of some input fails with the error that
    is reported.  The cache has then at most this transaction as a new one, and only
    when its scripts verify; the coins are not changed. *)
Theorem CheckInputs_sound seen inputs cache tx flags cacheFullScriptStore parallel inputs' cache' r :
  tx_made tx -> inU 32 flags ->
  IsCoinBase tx = false -> HasZerocoinSpendInputs_tx tx = false -> cache_inv inputs -> agrees inputs -> cache_sound seen cache ->
  CheckInputs inputs cache tx true flags cacheFullScriptStore parallel = Some (inputs', cache', r) ->
  cache_view inputs' = cache_view inputs /\
  (cache_sound seen cache' \/ cache_sound ((tx, flags) :: seen) cache' /\ r = inputs_ok [] /\ verified tx flags) /\
  match r with
  | inputs_ok checks => all_run checks ->
      verified tx flags \/ (exists p, p ∈ seen /\ hash_clash tx flags p) \/ SHA256 (entry_bytes tx flags) = cache_default
  | non_mandatory_script_verify_flag e | mandatory_script_verify_flag_failed e =>
      exists j input out, ctx_vin tx !! j = Some input /\ out_of (txin_prevout input) = Some out /\
        run {| m_tx_out := out; ptxTo := tx; sc_nIn := j; nFlags := flags |} = Some (inl e)
  end.
Proof using Hbuf.
  intros M Hf Hcb Hz Hc Ha Hs. unfold InputCheck.CheckInputs. rewrite Hcb, Hz. cbn [negb andb].
  destruct (cache_contains cache _ _) as [[cache1 hit]|] eqn:Hhit; [|done]. cbn [mbind option_bind].
  destruct (cache_sound_contains _ _ _ _ _ _ Hs Hhit) as [Hs1 Hcached]. destruct hit.
  { intros [= <- <- <-]. split_and!; [done|by left|]. intros _. destruct (Hcached eq_refl) as [H|H].
    - destruct (cache_hit seen cache tx flags M Hf Hs H) as [?|?]; [by left|by right; left].
    - right. right. rewrite <-entry_spec. exact H. }
  destruct (script_loop inputs tx flags parallel 0 (ctx_vin tx) []) as [[inputs1 r1]|] eqn:Hl; [|done]. cbn [mbind option_bind].
  apply script_loop_spec in Hl as (Hc1 & Hv1 & Hr1); [|done..]. destruct r1 as [checks|e|e]; [|intros [= <- <- <-]; split_and!; [done|by left|done]..].
  destruct Hr1 as [Hr1 Hnew]. destruct (cacheFullScriptStore && negb parallel) eqn:Est; [|intros [= <- <- <-]; split_and!; [done|by left|by left; apply Hr1]].
  destruct (cache_insert cache1 _) as [cache2|] eqn:Hi; [|done]. cbn [mbind option_bind]. intros [= <- <- <-].
  apply andb_true_iff in Est as [_ Hp%negb_true_iff]. destruct Hnew as (new & -> & Hn). rewrite (Hn Hp) in *.
  assert (verified tx flags) as Hv by (apply Hr1; constructor). split_and!; [done| |by left].
  right. split; [|done]. eapply cache_sound_insert; [exact Hs1| |exact Hi]. by split_and!.
Qed.

(** ** The signature cache *)
Notation sig_entry := (ComputeEntry nonce buf).
#[local] Opaque ComputeEntry.

Definition signatures_sound c : Prop :=
  cache_ok c /\ forall e, cached c e -> exists sighash vchSig pubkey, e = sig_entry sighash vchSig pubkey /\ Verify pubkey sighash vchSig = true.

(** The cached verification of a signature is the verification, unless the entry
    collides with the one of a valid signature; only valid signatures are stored. *)
Lemma VerifySignature_sound c store vchSig pubkey sighash c' b :
  signatures_sound c -> VerifySignature Verify nonce buf c store vchSig pubkey sighash = Some (c', b) ->
  signatures_sound c' /\
  (b = Verify pubkey sighash vchSig \/
   sig_entry sighash vchSig pubkey = cache_default \/
   exists sighash' vchSig' pubkey', sig_entry sighash' vchSig' pubkey' = sig_entry sighash vchSig pubkey /\ Verify pubkey' sighash' vchSig' = true).
Proof.
  intros [Hok Hs]. unfold VerifySignature. destruct (cache_contains c _ _) as [[c1 hit]|] eqn:Hc; [|done]. cbn [mbind option_bind].
  apply cache_contains_ok in Hc as (Hok1 & Hhit & Hx); [|done].
  assert (signatures_sound c1) as Hs1 by (split; [done|]; intros e He; by apply Hs, Hx).
  destruct hit; [|destruct (Verify pubkey sighash vchSig) eqn:Ev]; cbn [negb].
  - intros [= <- <-]. split; [done|right]. destruct (Hhit eq_refl) as [Hin|?]; [right|by left]. destruct (Hs _ Hin) as (h & s & k & He & Hv). exists h, s, k. split; [exact (eq_sym He)|exact Hv].
  - destruct store; [|intros [= <- <-]; by split; [|left]]. destruct (cache_insert c1 _) as [c2|] eqn:Hi; [|done]. cbn [mbind option_bind].
    intros [= <- <-]. split; [|by left]. apply cache_insert_ok in Hi as [Hok2 Hy]; [|done]. split; [done|].
    intros e He. destruct (Hy e He) as [->|He']; [by exists sighash, vchSig, pubkey|by apply (proj2 Hs1)].
  - intros [= <- <-]. by split; [|left].
Qed.

End checks.

(** ** Policy and consensus *)
Lemma block_flags_standard params nHeight nTime : flags_within (GetBlockScriptFlags params nHeight nTime) STANDARD_SCRIPT_VERIFY_FLAGS.
Proof. unfold GetBlockScriptFlags. repeat case_match; vm_compute; reflexivity. Qed.

Lemma block_flags_dip0020 params nHeight nTime :
  V18DeploymentHeight params <= nHeight -> flag_on (GetBlockScriptFlags params nHeight nTime) SCRIPT_ENABLE_DIP0020_OPCODES = true.
Proof. intros H. unfold GetBlockScriptFlags. apply Z.leb_le in H as ->. repeat case_match; vm_compute; reflexivity. Qed.

Lemma block_flags_cleanstack params nHeight nTime : flag_on (GetBlockScriptFlags params nHeight nTime) SCRIPT_VERIFY_CLEANSTACK = false.
Proof. unfold GetBlockScriptFlags. repeat case_match; vm_compute; reflexivity. Qed.

Lemma invalid_not_p2sh script : ContainsScript script = true -> IsPayToScriptHash script = false.
Proof.
  intros H%bool_decide_eq_true. assert (Forall (fun s => IsPayToScriptHash s = false) setInvalidScripts) as HF by (vm_compute; repeat constructor).
  rewrite Forall_forall in HF. by apply HF.
Qed.

Lemma VerifyScript_answers flags checker Verify CheckLowS scriptSig scriptPubKey :
  IsPayToScriptHash scriptPubKey = false -> (flag_on flags SCRIPT_VERIFY_CLEANSTACK = true -> flag_on flags SCRIPT_VERIFY_P2SH = true) ->
  is_Some (VerifyScript flags checker Verify CheckLowS scriptSig scriptPubKey).
Proof.
  intros Hp Hc. unfold VerifyScript. rewrite Hp, andb_false_r. destruct (_ && _); [done|]. destruct (EvalScript _ _ _ _ [] _); [done|].
  destruct (rbind _ _); [done|]. cbn [mbind option_bind]. destruct (flag_on flags SCRIPT_VERIFY_CLEANSTACK); [rewrite Hc by done; cbn; by destruct (_ =? _)%nat|done].
Qed.

Section policy.
Context (Verify : list Z -> list Z -> list Z -> bool) (CheckLowS : list Z -> bool).

(** The scripts of an input that the memory pool accepts, with the standard flags, are
    accepted with the flags of a block, once the block flags have the opcodes of
    DIP0020: from V18DeploymentHeight on, a block built from the memory pool does not
    fail for a script.  The report of a bug that AcceptToMemoryPool makes otherwise is
    never made from that height on. *)
Theorem CScriptCheck_policy params nHeight nTime out tx nIn :
  V18DeploymentHeight params <= nHeight ->
  CScriptCheck_run Verify CheckLowS {| m_tx_out := out; ptxTo := tx; sc_nIn := nIn; nFlags := STANDARD_SCRIPT_VERIFY_FLAGS |} = Some (inr tt) ->
  CScriptCheck_run Verify CheckLowS {| m_tx_out := out; ptxTo := tx; sc_nIn := nIn; nFlags := GetBlockScriptFlags params nHeight nTime |} = Some (inr tt).
Proof.
  intros Hh. unfold CScriptCheck_run. cbn [m_tx_out ptxTo sc_nIn nFlags]. set (A := GetBlockScriptFlags params nHeight nTime). set (B := STANDARD_SCRIPT_VERIFY_FLAGS).
  destruct (ctx_vin tx !! nIn) as [input|]; [|done]. cbn [mbind option_bind]. destruct (TransactionSignatureChecker Verify tx nIn) as [checker|]; [|done]. cbn [mbind option_bind].
  assert (Hk : forall s, VerifyScript B checker Verify CheckLowS (txin_scriptSig input) s = Some (inr tt) ->
    VerifyScript A checker Verify CheckLowS (txin_scriptSig input) s = Some (inr tt)).
  { intros s. apply VerifyScript_keeps; [apply block_flags_standard|by intros _; apply block_flags_dip0020|unfold A; by rewrite (block_flags_cleanstack params nHeight nTime)]. }
  destruct (VerifyScript B _ _ _ _ (scriptPubKey out)) as [[e|[]]|] eqn:EB; cbn [mbind option_bind]; [| |done].
  - destruct (ContainsScript (scriptPubKey out)) eqn:Ec; [|done]. intros Hv%Hk.
    destruct (VerifyScript_answers A checker Verify CheckLowS (txin_scriptSig input) (scriptPubKey out)) as [[e'|[]] ->]; cbn [mbind option_bind]; try done.
    + by apply invalid_not_p2sh.
    + unfold A. by rewrite (block_flags_cleanstack params nHeight nTime).
  - by rewrite (Hk _ EB).
Qed.

(** The list of invalid scripts does not ban anything: an output with such a script is
    spent by whoever could spend it before, and also by the key of [validScript]. *)
Theorem invalid_script_spent params nHeight nTime out tx nIn input checker :
  let flags := GetBlockScriptFlags params nHeight nTime in
  ctx_vin tx !! nIn = Some input -> TransactionSignatureChecker Verify tx nIn = Some checker -> scriptPubKey out ∈ setInvalidScripts ->
  CScriptCheck_run Verify CheckLowS {| m_tx_out := out; ptxTo := tx; sc_nIn := nIn; nFlags := flags |} = Some (inr tt) <->
  VerifyScript flags checker Verify CheckLowS (txin_scriptSig input) (scriptPubKey out) = Some (inr tt) \/
  VerifyScript flags checker Verify CheckLowS (txin_scriptSig input) validScript = Some (inr tt).
Proof.
  intros flags Hi Hc Hin. assert (Hcs : ContainsScript (scriptPubKey out) = true) by by apply bool_decide_eq_true.
  unfold CScriptCheck_run. cbn [m_tx_out ptxTo sc_nIn nFlags]. rewrite Hi. cbn [mbind option_bind]. rewrite Hc, Hcs. cbn [mbind option_bind].
  destruct (VerifyScript_answers flags checker Verify CheckLowS (txin_scriptSig input) (scriptPubKey out)) as [[e|[]] ->]; cbn [mbind option_bind].
  - by apply invalid_not_p2sh.
  - unfold flags. by rewrite (block_flags_cleanstack params nHeight nTime).
  - split; [by right|]. by intros [?|?].
  - split; [by left|done].
Qed.
End policy.
