(* ===== verification/Rewards.v ===== *)
(** * The rewards of a block
    (src/src/pos/rewards.h, .cpp; the flags of the coinbase payload in
    src/src/evo/cbtx.h, .cpp; IsBlockValueValid, IsOldBudgetBlockValueValid and
    GetBlockTxOuts of src/src/masternode/payments.cpp)

    Amounts are int64_t.  [None] is a failed assertion, an exception or an access
    out of range.  What the governance objects, the sporks and the masternode list
    say about a height is read from a record ([Governance], [Payee]). *)

From S2P Require Import Prelude Serialize Params BetTx BetKeys Double Transaction TxCodec TokenGroups Arith256 Chain TxVerify BlockProofs TxVerifyProofs.

(** ** The subsidy *)
Inductive Network := NET_MAIN | NET_TESTNET | NET_OTHER.

(** 3.8 * COIN and 3.8 / 90 * 100 * COIN, in double precision. *)
Definition reward_3_8 (open_cast : double -> Z) : Z := double_to_int64 open_cast (dlit 38 1 * dZ COIN)%double.
Definition reward_pos (open_cast : double -> Z) : Z :=
  double_to_int64 open_cast (dmul (dmul (ddiv (dlit 38 1) (dZ 90)) (dZ 100)) (dZ COIN)).

Definition GetBlockSubsidyWagerr (open_cast : double -> Z) (net : Network) (params : PosParams) (nPrevHeight : Z) : Z :=
  let nHeight := nPrevHeight + 1 in
  match net with
  | NET_MAIN =>
      if 10001 <? nHeight then reward_3_8 open_cast
      else if 102 <? nHeight then 0 * COIN
      else if 2 <? nHeight then 250000 * COIN
      else if nHeight =? 2 then 173360471 * COIN
      else 0 * COIN
  | _ =>
      if nBlockZerocoinV2 params + 1 <? nHeight then reward_3_8 open_cast
      else if nPosStartHeight params + 1 <? nHeight then reward_pos open_cast
      else if 201 <? nHeight then 100000 * COIN
      else if 2 <? nHeight then 250000 * COIN
      else if nHeight =? 2 then 173360471 * COIN
      else 0 * COIN
  end.

(** blockValue * .75, truncated. *)
Definition three_quarters (open_cast : double -> Z) (blockValue : Z) : Z :=
  double_to_int64 open_cast (dmul (dZ blockValue) (dlit 75 2)).

Definition GetMasternodePayment (open_cast : double -> Z) (net : Network) (params : PosParams) (nHeight blockValue : Z) (isZWGRStake : bool) : Z :=
  if match net with NET_TESTNET => nHeight <? 200 | _ => false end then 0
  else if nHeight <? nPosStartHeight params then 0 * COIN
  else if nHeight <? nBlockZerocoinV2 params then three_quarters open_cast blockValue
  else if isZWGRStake then blockValue - 1 * COIN
  else three_quarters open_cast blockValue.

(** ** A reward: an amount of coins and of tokens *)
Definition REWARD_COINBASE : Z := 1.
Definition REWARD_COINSTAKE : Z := 2.
Definition REWARD_MASTERNODE : Z := 3.
Definition REWARD_OPERATOR : Z := 4.
Definition REWARD_BETTING : Z := 5.
Definition REWARD_BURN : Z := 6.
Definition REWARD_TOTAL : Z := 7.

Record CReward := { rw_type : Z; rw_amount : Z; rw_tokenAmounts : gmap (list Z) Z }.

Definition CReward_empty (typeIn : Z) : CReward := {| rw_type := typeIn; rw_amount := 0; rw_tokenAmounts := ∅ |}.

Definition CReward_of (typeIn amountIn : Z) (group : CTokenGroupID) (tokenAmount : Z) : CReward :=
  {| rw_type := typeIn; rw_amount := amountIn;
     rw_tokenAmounts := if negb (bool_decide (group = NoGroup)) && negb (tokenAmount =? 0) then {[group := tokenAmount]} else ∅ |}.

Definition AddRewardAmounts (r : CReward) (amountIn : Z) (group : CTokenGroupID) (tokenAmount : Z) : CReward :=
  {| rw_type := rw_type r; rw_amount := i64 (rw_amount r + amountIn);
     rw_tokenAmounts := if negb (bool_decide (group = NoGroup)) && negb (tokenAmount =? 0)
                        then <[group := i64 (default 0 (rw_tokenAmounts r !! group) + tokenAmount)]> (rw_tokenAmounts r)
                        else rw_tokenAmounts r |}.

Definition CReward_out (typeIn : Z) (out : CTxOut) : CReward :=
  let tokenGrp := CTokenGroupInfo_of (scriptPubKey out) in
  if negb (bool_decide (gi_associatedGroup tokenGrp = NoGroup))
  then AddRewardAmounts (CReward_empty typeIn) (nValue out) (gi_associatedGroup tokenGrp) (getAmount tokenGrp)
  else AddRewardAmounts (CReward_empty typeIn) (nValue out) NoGroup 0.

(** The order of std::map's iteration. *)
#[export] Instance group_key_seq : KeySeq (list Z) := fun g => g.

Definition CReward_plus (r b : CReward) : CReward :=
  foldl (fun r e => AddRewardAmounts r 0 e.1 e.2) (AddRewardAmounts r (rw_amount b) NoGroup 0) (sorted_entries (rw_tokenAmounts b)).

(** The comparison of the entries of two maps, first by key, then by value. *)
Fixpoint entries_lt (a b : list (list Z * Z)) : bool :=
  match a, b with
  | _, [] => false
  | [], _ :: _ => true
  | (g, x) :: a, (h, y) :: b =>
      if decide (g = h) then if x <? y then true else if y <? x then false else entries_lt a b
      else bool_decide (lex_le g h)
  end.

Definition tokens_gt (a b : gmap (list Z) Z) : bool := entries_lt (sorted_entries b) (sorted_entries a).

Definition CReward_CompareTo (r rhs : CReward) : Z :=
  if (rw_amount r =? rw_amount rhs) && bool_decide (rw_tokenAmounts r = rw_tokenAmounts rhs) then 0
  else if (rw_amount rhs <? rw_amount r) || tokens_gt (rw_tokenAmounts r) (rw_tokenAmounts rhs) then 1
  else -1.

(** ** The rewards of a block *)
Record CBlockReward := { br_rewards : gmap Z CReward; br_fPos : bool; br_fSplitCoinstake : bool }.

Definition set_rewards (b : CBlockReward) (rewards : gmap Z CReward) : CBlockReward :=
  {| br_rewards := rewards; br_fPos := br_fPos b; br_fSplitCoinstake := br_fSplitCoinstake b |}.

(** AddReward(const CReward). *)
Definition AddReward_ (rewards : gmap Z CReward) (rewardIn : CReward) : gmap Z CReward :=
  match rewards !! rw_type rewardIn with
  | Some r => <[rw_type rewardIn := CReward_plus r rewardIn]> rewards
  | None => <[rw_type rewardIn := rewardIn]> rewards
  end.

(** GetReward makes the entry when it is not there. *)
Definition GetReward (rewards : gmap Z CReward) (rewardType : Z) : gmap Z CReward * CReward :=
  match rewards !! rewardType with
  | Some r => (rewards, r)
  | None => (<[rewardType := CReward_empty rewardType]> rewards, CReward_empty rewardType)
  end.

(** AddReward(type, amount, ...) *)
Definition AddReward (rewards : gmap Z CReward) (rewardType amount : Z) (tokenID : CTokenGroupID) (tokenAmount : Z) : gmap Z CReward :=
  let '(rewards, reward) := GetReward rewards rewardType in
  <[rewardType := CReward_plus reward (CReward_of rewardType amount tokenID tokenAmount)]> rewards.

Definition SetReward (rewards : gmap Z CReward) (rewardType amount : Z) (tokenID : CTokenGroupID) (tokenAmount : Z) : gmap Z CReward :=
  <[rewardType := if negb (bool_decide (tokenID = NoGroup)) && negb (tokenAmount =? 0) then CReward_of rewardType amount tokenID tokenAmount
                  else CReward_of rewardType amount NoGroup 0]> rewards.

Definition MoveReward (rewards : gmap Z CReward) (from to : Z) : gmap Z CReward :=
  match rewards !! from with
  | Some r => delete from (AddReward_ rewards {| rw_type := to; rw_amount := rw_amount r; rw_tokenAmounts := rw_tokenAmounts r |})
  | None => rewards
  end.

Definition MoveMasternodeRewardToCoinbase (rewards : gmap Z CReward) : gmap Z CReward :=
  MoveReward (MoveReward rewards REWARD_MASTERNODE REWARD_COINBASE) REWARD_OPERATOR REWARD_COINBASE.

Definition MoveMasternodeRewardToCoinstake (rewards : gmap Z CReward) : gmap Z CReward :=
  MoveReward (MoveReward rewards REWARD_MASTERNODE REWARD_COINSTAKE) REWARD_OPERATOR REWARD_COINSTAKE.

Definition RemoveMasternodeReward (rewards : gmap Z CReward) : gmap Z CReward := delete REWARD_MASTERNODE rewards.

Definition SetRewards (rewards : gmap Z CReward) (blockSubsidy mnRewardAmount opRewardAmount nFees : Z) (fLegacy fPOS : bool) : gmap Z CReward :=
  if negb fLegacy then
    let rewards := SetReward rewards REWARD_MASTERNODE mnRewardAmount NoGroup 0 in
    let rewards := SetReward rewards REWARD_OPERATOR opRewardAmount NoGroup 0 in
    let rewards := SetReward rewards (if fPOS then REWARD_COINSTAKE else REWARD_COINBASE) (i64 (blockSubsidy - mnRewardAmount - opRewardAmount)) NoGroup 0 in
    AddReward rewards REWARD_BURN nFees NoGroup 0
  else
    let rewards := SetReward rewards REWARD_MASTERNODE mnRewardAmount NoGroup 0 in
    let '(rewards, mn) := GetReward rewards REWARD_MASTERNODE in
    if fPOS then SetReward rewards REWARD_COINSTAKE (i64 (blockSubsidy - rw_amount mn)) NoGroup 0
    else SetReward rewards REWARD_COINBASE (i64 (blockSubsidy - rw_amount mn + nFees)) NoGroup 0.

(** The rewards that a block at a height may pay. *)
Definition CBlockReward_at (open_cast : double -> Z) (net : Network) (params : PosParams) (DIP0003Height nHeight nFees : Z) (fPosIn : bool) : CBlockReward :=
  let nBlockValue := GetBlockSubsidyWagerr open_cast net params (nHeight - 1) in
  let mnRewardAmount := GetMasternodePayment open_cast net params nHeight nBlockValue false in
  {| br_rewards := SetRewards ∅ nBlockValue mnRewardAmount 0 nFees (nHeight <? DIP0003Height) fPosIn; br_fPos := fPosIn; br_fSplitCoinstake := false |}.

(** The sum of all the rewards, in the order of the types. *)
Definition sum_rewards (rewards : gmap Z CReward) : CReward :=
  foldl (fun t e => CReward_plus t e.2) (CReward_empty REWARD_TOTAL) (sorted_entries rewards).

Definition CBlockReward_CompareTo (b rhs : CBlockReward) : Z :=
  let lhsTotalReward := sum_rewards (br_rewards b) in
  let rhsTotalReward := sum_rewards (br_rewards rhs) in
  if CReward_CompareTo lhsTotalReward rhsTotalReward <? 0 then -1
  else if 0 <? CReward_CompareTo lhsTotalReward rhsTotalReward then 1
  else 0.

(** Neither the betting reward nor the burned fees count here. *)
Definition GetTotalRewards (rewards : gmap Z CReward) : gmap Z CReward * CReward :=
  let t := CReward_empty REWARD_TOTAL in
  let '(rewards, r) := GetReward rewards REWARD_COINBASE in let t := CReward_plus t r in
  let '(rewards, r) := GetReward rewards REWARD_COINSTAKE in let t := CReward_plus t r in
  let '(rewards, r) := GetReward rewards REWARD_MASTERNODE in let t := CReward_plus t r in
  let '(rewards, r) := GetReward rewards REWARD_OPERATOR in let t := CReward_plus t r in
  (rewards, t).

(** ** The flags of the coinbase payload *)
Definition CSTX_POS : Z := 1.
Definition CSTX_SPLIT_COINSTAKE : Z := 2.
Definition CSTX_MASTERNODE_OUTPUT : Z := 8.
Definition CSTX_OPERATOR_OUTPUT : Z := 16.
Definition CSTX_MAX : Z := 32.

Definition GetCbTxCoinstakeFlags (nCoinstakeFlags : Z) : bool * bool * bool * bool :=
  (has_bits nCoinstakeFlags CSTX_POS, has_bits nCoinstakeFlags CSTX_SPLIT_COINSTAKE,
   has_bits nCoinstakeFlags CSTX_MASTERNODE_OUTPUT, has_bits nCoinstakeFlags CSTX_OPERATOR_OUTPUT).

Definition CalcCbTxCoinstakeFlags (fPos fSplitCoinstake fMasternodeTx fOperatorTx : bool) : Z :=
  Z.lor (Z.lor (Z.lor (if fPos then CSTX_POS else 0) (if fSplitCoinstake then CSTX_SPLIT_COINSTAKE else 0))
    (if fMasternodeTx then CSTX_MASTERNODE_OUTPUT else 0)) (if fOperatorTx then CSTX_OPERATOR_OUTPUT else 0).

(** The field coinstakeFlags after the payload is read: the default when the
    stream ends before it or the type is another one. *)
Definition cbtx_flags (tx : CTx) : Z :=
  if ctx_nType tx =? TRANSACTION_COINBASE then
    match Unserialize (u16c ⊗ i32c ⊗ uint256c ⊗ u8c) (ctx_vExtraPayload tx) with
    | Some ((_, (_, (_, flags))), _) => flags
    | None => 0
    end
  else 0.

Definition IsProofOfStake_vtx (vtx : list CTx) : bool := match vtx with _ :: tx :: _ => IsCoinStake tx | _ => false end.

Definition CheckCoinstakeOutputs (vtx : list CTx) (fPos fSplitCoinstake fMasternodeTx fOperatorTx : bool) : option bool :=
  let nOutputs := 1 + Z.b2z fPos + Z.b2z fSplitCoinstake + Z.b2z fMasternodeTx + Z.b2z fOperatorTx in
  if negb (eqb (IsProofOfStake_vtx vtx) fPos) then Some false
  else tx ← vtx !! (if fPos then 1 else 0)%nat; Some (Z.of_nat (length (ctx_vout tx)) =? nOutputs).

(** ** The rewards that a block pays *)
Definition add_outs (rewardType : Z) (rewards : gmap Z CReward) (outs : list CTxOut) : gmap Z CReward :=
  foldl (fun r out => AddReward_ r (CReward_out rewardType out)) rewards outs.

(** The outputs of a transaction in the order of the flags: [nOutput] is the last
    one read. *)
Fixpoint add_flagged (vout : list CTxOut) (nOutput : nat) (rewards : gmap Z CReward) (l : list (bool * Z)) : option (gmap Z CReward) :=
  match l with
  | [] => Some rewards
  | (f, rewardType) :: l =>
      if f : bool then
        out ← vout !! S nOutput;
        add_flagged vout (S nOutput) (AddReward_ rewards (CReward_out rewardType out)) l
      else add_flagged vout nOutput rewards l
  end.

Definition CBlockReward_block (vtx : list CTx) (fLegacy : bool) : option CBlockReward :=
  cb ← vtx !! 0%nat;
  if IsProofOfStake_vtx vtx then
    cs ← vtx !! 1%nat;
    let rewards := add_outs REWARD_COINBASE ∅ (ctx_vout cb) in
    if fLegacy then
      let rewards := if (1 <? length (ctx_vout cs))%nat
                     then add_outs REWARD_MASTERNODE (add_outs REWARD_COINSTAKE rewards (take 1 (drop 1 (ctx_vout cs)))) (drop 2 (ctx_vout cs))
                     else rewards in
      Some {| br_rewards := rewards; br_fPos := true; br_fSplitCoinstake := false |}
    else
      let '(fPos, fSplitCoinstake, fMasternodeTx, fOperatorTx) := GetCbTxCoinstakeFlags (cbtx_flags cb) in
      ok ← CheckCoinstakeOutputs vtx fPos fSplitCoinstake fMasternodeTx fOperatorTx;
      if ok : bool then
        rewards ← add_flagged (ctx_vout cs) 0 rewards
          [(true, REWARD_COINSTAKE); (fSplitCoinstake, REWARD_COINSTAKE); (fMasternodeTx, REWARD_MASTERNODE); (fOperatorTx, REWARD_OPERATOR)];
        Some {| br_rewards := rewards; br_fPos := fPos; br_fSplitCoinstake := fSplitCoinstake |}
      else None
  else
    if fLegacy then
      out0 ← ctx_vout cb !! 0%nat;
      let rewards := AddReward_ ∅ (CReward_out REWARD_COINBASE out0) in
      let size := length (ctx_vout cb) in
      let rewards :=
        if (size =? 2)%nat || (size =? 3)%nat then add_outs REWARD_MASTERNODE rewards (drop (size - 1) (ctx_vout cb))
        else if (3 <? size)%nat then add_outs REWARD_MASTERNODE rewards (drop 2 (ctx_vout cb))
        else rewards in
      Some {| br_rewards := rewards; br_fPos := false; br_fSplitCoinstake := false |}
    else
      let '(fPos, fSplitCoinstake, fMasternodeTx, fOperatorTx) := GetCbTxCoinstakeFlags (cbtx_flags cb) in
      ok ← CheckCoinstakeOutputs vtx fPos fSplitCoinstake fMasternodeTx fOperatorTx;
      if ok : bool then
        out0 ← ctx_vout cb !! 0%nat;
        rewards ← add_flagged (ctx_vout cb) 0 (AddReward_ ∅ (CReward_out REWARD_COINBASE out0))
          [(fMasternodeTx, REWARD_MASTERNODE); (fOperatorTx, REWARD_OPERATOR)];
        Some {| br_rewards := rewards; br_fPos := fPos; br_fSplitCoinstake := fSplitCoinstake |}
      else None.

Definition CheckCbTxCoinstakeFlags (coinstakeFlags : Z) (vtx : list CTx) : option bool :=
  if CSTX_MAX <=? coinstakeFlags then Some false
  else let '(fPos, fSplitCoinstake, fMasternodeTx, fOperatorTx) := GetCbTxCoinstakeFlags coinstakeFlags in
       CheckCoinstakeOutputs vtx fPos fSplitCoinstake fMasternodeTx fOperatorTx.

(** CalcCbTxCoinstakeFlags for the rewards of a new block. *)
Definition CalcCbTxCoinstakeFlags_of (b : CBlockReward) : Z :=
  let '(rewards, mn) := GetReward (br_rewards b) REWARD_MASTERNODE in
  let '(_, op) := GetReward rewards REWARD_OPERATOR in
  CalcCbTxCoinstakeFlags (br_fPos b) (br_fSplitCoinstake b) (0 <? rw_amount mn) (0 <? rw_amount op).

(** ** The value of a block *)
Record BudgetParams := {
  bp_DIP0003Height : Z;
  nBudgetPaymentsStartBlock : Z;
  nBudgetPaymentsCycleBlocks : Z;
  nBudgetPaymentsWindowBlocks : Z;
  nSuperblockStartBlock : Z;
  nSuperblockCycle : Z
}.

Record Governance := {
  gv_IsSynced : bool;
  gv_fDisableGovernance : bool;
  gv_AreSuperblocksEnabled : bool;
  gv_GetPaymentsLimit : Z -> Z;
  gv_IsSuperblockTriggered : Z -> bool;
  gv_IsValid : CTx -> Z -> CBlockReward -> bool
}.

(** CSuperblock::IsValidBlockHeight. *)
Definition IsValidBlockHeight (p : BudgetParams) (nBlockHeight : Z) : bool :=
  (nSuperblockStartBlock p <=? nBlockHeight) && (Z.rem nBlockHeight (nSuperblockCycle p) =? 0).

(** The message of a refusal reads the value of the coinbase, which throws when
    it is out of range. *)
Definition met_or_message (cb : CTx) (isBlockRewardValueMet : bool) : option bool :=
  if isBlockRewardValueMet then Some true else _ ← GetValueOut cb; Some false.

Definition IsOldBudgetBlockValueValid (p : BudgetParams) (gov : Governance)
    (vtx : list CTx) (nBlockHeight : Z) (blockReward : CBlockReward) : option bool :=
  cb ← vtx !! 0%nat;
  rewardsInBlock ← CBlockReward_block vtx (nBlockHeight <? bp_DIP0003Height p);
  let isBlockRewardValueMet := CBlockReward_CompareTo rewardsInBlock blockReward <=? 0 in
  if nBlockHeight <? nBudgetPaymentsStartBlock p then Some false
  else if nSuperblockStartBlock p <=? nBlockHeight then Some false
  else
    let nOffset := Z.rem nBlockHeight (nBudgetPaymentsCycleBlocks p) in
    if (nBudgetPaymentsStartBlock p <=? nBlockHeight) && (nOffset <? nBudgetPaymentsWindowBlocks p) then
      if gv_IsSynced gov then met_or_message cb isBlockRewardValueMet else Some true
    else met_or_message cb isBlockRewardValueMet.

Definition IsBlockValueValid (p : BudgetParams) (gov : Governance)
    (vtx : list CTx) (nBlockHeight : Z) (blockRewardIn : CBlockReward) (coinstakeValueIn : Z) : option bool :=
  cb ← vtx !! 0%nat;
  rewardsInBlock ← CBlockReward_block vtx (nBlockHeight <? bp_DIP0003Height p);
  let blockReward := if 0 <? coinstakeValueIn
                     then set_rewards blockRewardIn (AddReward (br_rewards blockRewardIn) REWARD_COINSTAKE coinstakeValueIn NoGroup 0)
                     else blockRewardIn in
  if existsb IsOutputGrouped (ctx_vout cb) then Some false
  else if IsProofOfStake_vtx vtx && match vtx !! 1%nat with Some cs => existsb IsOutputGroupedAuthority (ctx_vout cs) | None => false end
  then Some false
  else
    let isBlockRewardValueMet := 0 <=? CBlockReward_CompareTo blockReward rewardsInBlock in
    if nBlockHeight <? nBudgetPaymentsStartBlock p then Some isBlockRewardValueMet
    else if nBlockHeight <? nSuperblockStartBlock p then
      IsOldBudgetBlockValueValid p gov vtx nBlockHeight blockReward
    else
      let '(rewards, total) := GetTotalRewards (br_rewards blockReward) in
      let nSuperblockMaxValue := i64 (rw_amount total + gv_GetPaymentsLimit gov nBlockHeight) in
      value_out ← GetValueOut cb;
      if negb (IsValidBlockHeight p nBlockHeight) then Some isBlockRewardValueMet
      else if nSuperblockMaxValue <? value_out then Some false
      else if negb (gv_IsSynced gov) || gv_fDisableGovernance gov then Some true
      else if negb (gv_AreSuperblocksEnabled gov) then Some isBlockRewardValueMet
      else if negb (gv_IsSuperblockTriggered gov nBlockHeight) then Some isBlockRewardValueMet
      else Some (gv_IsValid gov cb nBlockHeight (set_rewards blockReward rewards)).

(** ** The payments of a masternode *)
Record Payee := { nOperatorReward : Z; scriptPayout : list Z; scriptOperatorPayout : list Z }.

(** CMasternodePayments::GetBlockTxOuts: the outputs to pay, none when there is no
    masternode, and what is left of the rewards. *)
Definition GetBlockTxOuts (dmnPayee : option Payee) (b : CBlockReward) : option (list CTxOut) * CBlockReward :=
  match dmnPayee with
  | None => (None, set_rewards b (if br_fPos b then MoveMasternodeRewardToCoinstake (br_rewards b)
                                  else MoveMasternodeRewardToCoinbase (br_rewards b)))
  | Some dmn =>
      let '(rewards, mn) := GetReward (br_rewards b) REWARD_MASTERNODE in
      let paid := negb (nOperatorReward dmn =? 0) && negb (bool_decide (scriptOperatorPayout dmn = [])) in
      let operatorReward := if paid then Z.quot (i64 (rw_amount mn * nOperatorReward dmn)) 10000 else 0 in
      let masternodeReward := if paid then i64 (rw_amount mn - operatorReward) else rw_amount mn in
      let rewards := RemoveMasternodeReward rewards in
      let '(vout, rewards) :=
        if 0 <? masternodeReward then ([{| nValue := masternodeReward; scriptPubKey := scriptPayout dmn |}], SetReward rewards REWARD_MASTERNODE masternodeReward NoGroup 0)
        else ([], rewards) in
      let '(vout, rewards) :=
        if 0 <? operatorReward then (vout ++ [{| nValue := operatorReward; scriptPubKey := scriptOperatorPayout dmn |}], SetReward rewards REWARD_OPERATOR operatorReward NoGroup 0)
        else (vout, rewards) in
      (Some vout, set_rewards b rewards)
  end.

(** * What a block may pay

    The total of the rewards of a block in int64_t ([total64]) and how every
    operation changes it; the rewards read from a proof-of-stake block count every
    output of its coinbase and coinstake, so that an accepted block pays at most
    the subsidy, the fees and the staked value.  Two layouts of a proof-of-work
    coinbase have an output that no reward counts. *)

(** ** Sums modulo 2^64 *)
Lemma wrapS_add_r w a b : wrapS w (a + wrapS w b) = wrapS w (a + b).
Proof. rewrite (Z.add_comm a (wrapS w b)), wrapS_add_l, Z.add_comm. done. Qed.

Lemma wrapS_idem w a : wrapS w (wrapS w a) = wrapS w a.
Proof. pose proof (wrapS_add_l w a 0) as H. by rewrite !Z.add_0_r in H. Qed.

Definition total_of (m : gmap Z CReward) : Z := map_fold (fun _ r acc => rw_amount r + acc) 0 m.
Definition total64 (m : gmap Z CReward) : Z := i64 (total_of m).

Lemma total_of_delete m k r : m !! k = Some r -> total_of m = rw_amount r + total_of (delete k m).
Proof.
  intros H. unfold total_of.
  rewrite <-(map_fold_delete_L (fun (_ : Z) r acc => rw_amount r + acc) 0 k r m); [done| |done]. intros. lia.
Qed.

Lemma total_of_insert m k r : total_of (<[k := r]> m) = rw_amount r + total_of (delete k m).
Proof.
  rewrite (total_of_delete _ k r) by (by rewrite lookup_insert_eq). by rewrite delete_insert_eq.
Qed.

Lemma total_of_fresh m k : m !! k = None -> total_of (delete k m) = total_of m.
Proof. intros H. by rewrite delete_id. Qed.

(** ** Amounts and tokens of a sum of two rewards *)
Lemma add_tokens_amount l r : inS 64 (rw_amount r) ->
  rw_amount (foldl (fun r (e : list Z * Z) => AddRewardAmounts r 0 e.1 e.2) r l) = rw_amount r.
Proof.
  revert r. induction l as [|e l IH]; intros r Hr; [done|]. cbn [foldl].
  assert (rw_amount (AddRewardAmounts r 0 e.1 e.2) = rw_amount r) as E.
  { cbn. rewrite Z.add_0_r. by apply i64_small. }
  rewrite IH; [done|]. by rewrite E.
Qed.

Lemma CReward_plus_amount r b : rw_amount (CReward_plus r b) = i64 (rw_amount r + rw_amount b).
Proof. unfold CReward_plus. rewrite add_tokens_amount; [done|]. by apply wrapS_range. Qed.

Lemma CReward_plus_tokenless r b :
  rw_tokenAmounts r = ∅ -> rw_tokenAmounts b = ∅ -> rw_tokenAmounts (CReward_plus r b) = ∅.
Proof. intros Hr Hb. unfold CReward_plus. by rewrite Hb. Qed.

Lemma CReward_out_amount t out : inS 64 (nValue out) -> rw_amount (CReward_out t out) = nValue out.
Proof. intros H. unfold CReward_out. case_match; cbn; by apply i64_small. Qed.

Lemma CReward_out_type t out : rw_type (CReward_out t out) = t.
Proof. unfold CReward_out. by case_match. Qed.

(** ** The operations on the total *)
Lemma total64_AddReward_ m r : total64 (AddReward_ m r) = i64 (total64 m + rw_amount r).
Proof.
  unfold total64, AddReward_. rewrite wrapS_add_l. destruct (m !! rw_type r) as [x|] eqn:E; rewrite total_of_insert.
  - rewrite CReward_plus_amount, wrapS_add_l, (total_of_delete _ _ _ E). f_equal. lia.
  - rewrite total_of_fresh by done. f_equal. lia.
Qed.

Lemma GetReward_total m k : total64 (GetReward m k).1 = total64 m /\ (GetReward m k).1 !! k = Some (GetReward m k).2.
Proof.
  unfold GetReward, total64. destruct (m !! k) as [r|] eqn:E; cbn; [done|].
  rewrite lookup_insert_eq, total_of_insert, total_of_fresh by done. done.
Qed.

Lemma GetReward_tokenless m k : map_Forall (fun _ r => rw_tokenAmounts r = ∅) m ->
  map_Forall (fun _ r => rw_tokenAmounts r = ∅) (GetReward m k).1 /\ rw_tokenAmounts (GetReward m k).2 = ∅.
Proof.
  intros H. unfold GetReward. destruct (m !! k) as [r|] eqn:E; cbn.
  - split; [done|]. by apply (H k).
  - split; [|done]. by apply map_Forall_insert_2.
Qed.

Lemma total64_AddReward m k a : inS 64 a -> total64 (AddReward m k a NoGroup 0) = i64 (total64 m + a).
Proof.
  intros Ha. unfold AddReward. destruct (GetReward_total m k) as [Ht Hk]. destruct (GetReward m k) as [m' r]; cbn in *.
  unfold total64 in *. rewrite total_of_insert, CReward_plus_amount, wrapS_add_l, <-Ht, wrapS_add_l, (total_of_delete _ _ _ Hk).
  cbn. f_equal. lia.
Qed.

Lemma AddReward_tokenless m k a : map_Forall (fun _ r => rw_tokenAmounts r = ∅) m ->
  map_Forall (fun _ r => rw_tokenAmounts r = ∅) (AddReward m k a NoGroup 0).
Proof.
  intros H. unfold AddReward. destruct (GetReward_tokenless m k H) as [Hm Hr]. destruct (GetReward m k) as [m' r]; cbn in *.
  apply map_Forall_insert_2; [|done]. by apply CReward_plus_tokenless.
Qed.

Lemma SetReward_eq m k a : SetReward m k a NoGroup 0 = <[k := {| rw_type := k; rw_amount := a; rw_tokenAmounts := ∅ |}]> m.
Proof. done. Qed.

Lemma total64_MoveReward m from to :
  from <> to -> total64 (MoveReward m from to) = total64 m.
Proof.
  intros Hne. unfold MoveReward. destruct (m !! from) as [r|] eqn:E; [|done].
  set (q := {| rw_type := to; rw_amount := rw_amount r; rw_tokenAmounts := rw_tokenAmounts r |}).
  assert (AddReward_ m q !! from = Some r) as El.
  { unfold AddReward_. case_match; cbn; by rewrite lookup_insert_ne by done. }
  pose proof (total64_AddReward_ m q) as Ht. unfold total64 in *. rewrite (total_of_delete _ _ _ El) in Ht.
  subst q. cbn [rw_amount] in Ht. rewrite wrapS_add_l in Ht.
  replace (total_of (delete from (AddReward_ m _))) with
    (rw_amount r + total_of (delete from (AddReward_ m {| rw_type := to; rw_amount := rw_amount r; rw_tokenAmounts := rw_tokenAmounts r |})) + - rw_amount r) at 1 by lia.
  rewrite <-wrapS_add_l, Ht, wrapS_add_l. f_equal. lia.
Qed.

(** The order in which std::map sums its entries does not matter. *)
Lemma sum_rewards_fold (l : list (Z * CReward)) t : inS 64 (rw_amount t) ->
  rw_amount (foldl (fun t e => CReward_plus t e.2) t l) = i64 (rw_amount t + foldr (fun e acc => rw_amount e.2 + acc) 0 l).
Proof.
  revert t. induction l as [|e l IH]; intros t Ht; cbn [foldl foldr].
  - rewrite Z.add_0_r. by rewrite i64_small.
  - rewrite IH by (rewrite CReward_plus_amount; by apply wrapS_range).
    rewrite CReward_plus_amount, wrapS_add_l. f_equal. lia.
Qed.

Lemma total_of_entries m : total_of m = foldr (fun e acc => rw_amount e.2 + acc) 0 (sorted_entries m).
Proof.
  unfold total_of. rewrite map_fold_foldr.
  rewrite (foldr_permutation eq (fun (e : Z * CReward) acc => rw_amount e.2 + acc) 0 (sorted_entries m) (map_to_list m));
    [|intros; lia|apply sorted_entries_perm].
  generalize (map_to_list m). induction l as [|[k r] l IH]; cbn; [done|]. by rewrite <-IH.
Qed.

Lemma sum_rewards_amount m : rw_amount (sum_rewards m) = total64 m.
Proof.
  unfold sum_rewards, total64. rewrite sum_rewards_fold by (cbn; unfold inS; lia). by rewrite total_of_entries.
Qed.

Lemma sum_rewards_tokenless m : map_Forall (fun _ r => rw_tokenAmounts r = ∅) m -> rw_tokenAmounts (sum_rewards m) = ∅.
Proof.
  intros H. unfold sum_rewards.
  assert (Forall (fun e => rw_tokenAmounts e.2 = ∅) (sorted_entries m)) as HF.
  { apply Forall_forall. intros [k r] He. apply elem_of_sorted_entries in He. by apply (H k). }
  revert HF. generalize (sorted_entries m) as l. intros l.
  assert (rw_tokenAmounts (CReward_empty REWARD_TOTAL) = ∅) as Ht by done. revert Ht.
  generalize (CReward_empty REWARD_TOTAL). induction l as [|e l IH]; intros t Ht HF; [done|].
  apply Forall_cons in HF as [He HF]. cbn [foldl]. apply IH; [by apply CReward_plus_tokenless|done].
Qed.

(** ** The rewards of a height: together the subsidy, and the fees *)
Lemma GetBlockSubsidyWagerr_range oc net params h : 0 <= GetBlockSubsidyWagerr oc net params h <= 173360471 * COIN.
Proof.
  assert (reward_3_8 oc = 380000000) as E1 by reflexivity.
  assert (reward_pos oc = 422222222) as E2 by reflexivity.
  unfold GetBlockSubsidyWagerr. rewrite E1, E2. unfold COIN. repeat case_match; lia.
Qed.

Lemma double_to_int64_range oc x : inS 64 (double_to_int64 oc x).
Proof.
  unfold double_to_int64. destruct (dtrunc x) as [n|]; [|apply wrapS_range; lia].
  case_match; [|apply wrapS_range; lia]. unfold inS. lia.
Qed.

Definition fees_due (fLegacy fPos : bool) (nFees : Z) : Z := if fLegacy && fPos then 0 else nFees.

Lemma SetRewards_total v mn nFees fLegacy fPos : inS 64 nFees ->
  total64 (SetRewards ∅ v mn 0 nFees fLegacy fPos) = i64 (v + fees_due fLegacy fPos nFees) /\
  map_Forall (fun _ r => rw_tokenAmounts r = ∅) (SetRewards ∅ v mn 0 nFees fLegacy fPos).
Proof.
  intros Hf. unfold SetRewards, fees_due. destruct fLegacy, fPos; cbn [negb andb]; rewrite ?SetReward_eq; cbn [GetReward].
  1, 2: unfold GetReward; rewrite lookup_insert_eq; rewrite ?SetReward_eq; cbn [rw_amount];
    split; [|repeat apply map_Forall_insert_2; done];
    unfold total64; rewrite total_of_insert, delete_insert_ne, total_of_insert by done; cbn [rw_amount];
    rewrite wrapS_add_l, !delete_empty; change (total_of ∅) with 0; f_equal; lia.
  all: split; [|apply AddReward_tokenless; repeat apply map_Forall_insert_2; done];
    rewrite total64_AddReward by done; unfold total64;
    rewrite total_of_insert, !delete_insert_ne, !total_of_insert, delete_insert_ne, total_of_insert by done; cbn [rw_amount];
    rewrite wrapS_add_l, <-Z.add_assoc, wrapS_add_l, !delete_empty; change (total_of ∅) with 0; f_equal; lia.
Qed.

(** ** The rewards that a block pays *)
Lemma add_outs_total t outs m : Forall (fun o => inS 64 (nValue o)) outs ->
  total64 (add_outs t m outs) = i64 (total64 m + sum_values outs).
Proof.
  intros HF. revert m. unfold add_outs. induction HF as [|o outs Ho HF IH]; intros m; cbn [foldl sum_values foldr].
  - rewrite Z.add_0_r. unfold total64. by rewrite wrapS_idem.
  - rewrite IH, total64_AddReward_, CReward_out_amount, wrapS_add_l by done. f_equal. unfold sum_values. lia.
Qed.

Fixpoint count_flags (l : list (bool * Z)) : nat :=
  match l with [] => 0 | (f, _) :: l => (if f : bool then 1 else 0) + count_flags l end%nat.

Lemma add_flagged_total vout l n m m' : Forall (fun o => inS 64 (nValue o)) vout ->
  add_flagged vout n m l = Some m' ->
  total64 m' = i64 (total64 m + sum_values (take (count_flags l) (drop (S n) vout))).
Proof.
  intros HF. revert n m. induction l as [|[f t] l IH]; intros n m H; cbn [add_flagged count_flags] in *.
  - simplify_eq. cbn [take sum_values foldr]. rewrite Z.add_0_r. unfold total64. by rewrite wrapS_idem.
  - destruct f; [|by apply IH in H]. destruct (vout !! S n) as [out|] eqn:E; [|done]. cbn [mbind option_bind] in H.
    apply IH in H as ->. rewrite total64_AddReward_, wrapS_add_l.
    rewrite CReward_out_amount by (rewrite Forall_lookup in HF; by eapply HF).
    rewrite (drop_S _ _ _ E). cbn [Nat.add take sum_values foldr]. f_equal. unfold sum_values. lia.
Qed.

Lemma IsProofOfStake_outputs vtx : IsProofOfStake_vtx vtx = true ->
  exists cb cs rest o vout, vtx = cb :: cs :: rest /\ ctx_vout cs = o :: vout /\ nValue o = 0 /\ vout <> [].
Proof.
  unfold IsProofOfStake_vtx, IsCoinStake. destruct vtx as [|cb [|cs rest]]; [done..|]. intros H.
  destruct (ctx_vin cs); [done|]. case_match; [done|]. apply andb_prop in H as [Hl Ho].
  destruct (ctx_vout cs) as [|o vout] eqn:E; [done|]. unfold CTxOut_IsEmpty in Ho. apply andb_prop in Ho as [Hv _].
  exists cb, cs, rest, o, vout. split_and!; [done|done|lia|]. intros ->. done.
Qed.

(** The rewards read from a proof-of-stake block are all the outputs of its first
    two transactions. *)
Lemma CBlockReward_block_pos cb cs rest fLegacy b :
  IsProofOfStake_vtx (cb :: cs :: rest) = true ->
  Forall (fun o => inS 64 (nValue o)) (ctx_vout cb ++ ctx_vout cs) ->
  CBlockReward_block (cb :: cs :: rest) fLegacy = Some b ->
  total64 (br_rewards b) = i64 (sum_values (ctx_vout cb) + sum_values (ctx_vout cs)).
Proof.
  intros Hp [Hcb Hcs]%Forall_app H.
  destruct (IsProofOfStake_outputs _ Hp) as (? & ? & ? & o & vout & [= <- <- <-] & Eo & Ho & Hne).
  assert (sum_values (ctx_vout cs) = sum_values vout) as Es by (rewrite Eo; cbn [sum_values foldr]; rewrite Ho; unfold sum_values; lia).
  pose proof Hcs as Hcs'. rewrite Eo in Hcs'. apply Forall_cons in Hcs' as [_ Hv].
  assert (total64 (add_outs REWARD_COINBASE ∅ (ctx_vout cb)) = i64 (sum_values (ctx_vout cb))) as Ecb
    by (by rewrite add_outs_total).
  unfold CBlockReward_block in H. cbn [lookup list_lookup] in H. rewrite Hp in H. cbn [mbind option_bind] in H.
  destruct fLegacy.
  - injection H as <-. cbn [br_rewards]. rewrite Es, Eo. destruct vout as [|o1 vout]; [done|]. cbn [length Nat.ltb Nat.leb drop take].
    apply Forall_cons in Hv as [H1 Hv].
    rewrite add_outs_total by done.
    rewrite take_0, drop_0, add_outs_total, Ecb by (constructor; [exact H1|constructor]).
    rewrite !wrapS_add_l, <-Z.add_assoc, wrapS_add_l. f_equal. cbn [sum_values foldr]. unfold sum_values. lia.
  - destruct (GetCbTxCoinstakeFlags _) as [[[fPos fS] fM] fO]. unfold CheckCoinstakeOutputs in H. rewrite Hp in H.
    destruct fPos; cbn [eqb negb mbind option_bind] in H; [|done].
    cbn [lookup list_lookup mbind option_bind] in H. case_match eqn:El; [|done].
    destruct (add_flagged _ _ _ _) as [m'|] eqn:Ef; [|done]. cbn [mbind option_bind] in H. injection H as <-. cbn [br_rewards].
    apply add_flagged_total in Ef; [|done]. rewrite Ef, Ecb, wrapS_add_l, Es, Eo. cbn [drop]. do 2 f_equal.
    rewrite take_ge; [done|]. rewrite Eo in El. cbn [length] in El.
    rewrite drop_0 in *.
    clear -El. apply Z.eqb_eq in El. destruct fS, fM, fO; unfold Z.b2z in El; cbn [count_flags]; lia.
Qed.

(** ** Comparing totals *)
Lemma tokens_gt_empty m : tokens_gt ∅ m = false.
Proof. unfold tokens_gt. change (sorted_entries (∅ : gmap (list Z) Z)) with (@nil (list Z * Z)). by destruct (sorted_entries m) as [|[]]. Qed.

(** A reward without tokens that is not below another one has at least its
    amount; one that is not above a reward has at most its amount. *)
Lemma CompareTo_ge b rhs : map_Forall (fun _ r => rw_tokenAmounts r = ∅) (br_rewards b) ->
  0 <= CBlockReward_CompareTo b rhs -> total64 (br_rewards rhs) <= total64 (br_rewards b).
Proof.
  intros Ht. unfold CBlockReward_CompareTo, CReward_CompareTo. rewrite (sum_rewards_tokenless _ Ht), tokens_gt_empty, !sum_rewards_amount.
  repeat case_match; lia.
Qed.

Lemma CompareTo_le b rhs : CBlockReward_CompareTo b rhs <= 0 -> total64 (br_rewards b) <= total64 (br_rewards rhs).
Proof.
  unfold CBlockReward_CompareTo, CReward_CompareTo. rewrite !sum_rewards_amount. repeat case_match; lia.
Qed.

(** A height at which the governance objects have no say. *)
Definition regular_height (p : BudgetParams) (gov : Governance) (h : Z) : Prop :=
  (nBudgetPaymentsStartBlock p <= h < nSuperblockStartBlock p -> gv_IsSynced gov = true) /\
  (nSuperblockStartBlock p <= h -> IsValidBlockHeight p h = false).

Definition with_stake (b : CBlockReward) (coinstakeValueIn : Z) : CBlockReward :=
  if 0 <? coinstakeValueIn then set_rewards b (AddReward (br_rewards b) REWARD_COINSTAKE coinstakeValueIn NoGroup 0) else b.

Lemma met_or_message_true cb met : met_or_message cb met = Some true -> met = true.
Proof. unfold met_or_message. destruct met; [done|]. by destruct (GetValueOut cb). Qed.

Lemma IsOldBudget_met p gov vtx h b : gv_IsSynced gov = true ->
  IsOldBudgetBlockValueValid p gov vtx h b = Some true ->
  exists r, CBlockReward_block vtx (h <? bp_DIP0003Height p) = Some r /\ CBlockReward_CompareTo r b <= 0.
Proof.
  intros Hs. unfold IsOldBudgetBlockValueValid. destruct (vtx !! 0%nat) as [cb|]; [|done]. cbn [mbind option_bind].
  destruct (CBlockReward_block _ _) as [r|]; [|done]. cbn [mbind option_bind]. rewrite Hs. intros H. exists r. split; [done|].
  repeat case_match; try done; apply met_or_message_true in H; lia.
Qed.

Lemma IsBlockValueValid_met p gov vtx h b csIn : regular_height p gov h ->
  map_Forall (fun _ r => rw_tokenAmounts r = ∅) (br_rewards b) ->
  IsBlockValueValid p gov vtx h b csIn = Some true ->
  exists r, CBlockReward_block vtx (h <? bp_DIP0003Height p) = Some r /\
    total64 (br_rewards r) <= total64 (br_rewards (with_stake b csIn)).
Proof.
  intros [Hold Hsb] Htok. unfold IsBlockValueValid. fold (with_stake b csIn).
  destruct (vtx !! 0%nat) as [cb|]; [|done]. cbn [mbind option_bind].
  destruct (CBlockReward_block _ _) as [r|] eqn:Er; [|done]. cbn [mbind option_bind].
  assert (map_Forall (fun _ r => rw_tokenAmounts r = ∅) (br_rewards (with_stake b csIn))) as Htok'.
  { unfold with_stake. case_match; [|done]. by apply AddReward_tokenless. }
  case_match; [done|]. case_match; [done|]. intros H'. exists r. split; [done|].
  destruct (Z.ltb_spec h (nBudgetPaymentsStartBlock p)).
  { injection H' as H'. apply CompareTo_ge; [done|lia]. }
  destruct (Z.ltb_spec h (nSuperblockStartBlock p)).
  { apply IsOldBudget_met in H' as (r' & Er' & Hc); [|by apply Hold]. simplify_eq. by apply CompareTo_le. }
  destruct (GetTotalRewards _). destruct (GetValueOut cb); [|done]. cbn [mbind option_bind] in H'.
  rewrite Hsb in H' by done. cbn [negb] in H'. injection H' as H'. apply CompareTo_ge; [done|lia].
Qed.

(** ** What an accepted block pays *)

(** C12: A proof-of-stake block that IsBlockValueValid accepts at a regular height
    pays, with all the outputs of its coinbase and coinstake, at most the subsidy,
    the fees (unless the height is a legacy one) and the value of the staked
    inputs; its coinbase has no grouped output and its coinstake no authority. *)
Theorem IsBlockValueValid_bounds p gov oc net params h nFees csIn cb cs rest :
  IsProofOfStake_vtx (cb :: cs :: rest) = true ->
  regular_height p gov h ->
  Forall (fun o => 0 <= nValue o <= MAX_MONEY) (ctx_vout cb ++ ctx_vout cs) ->
  sum_values (ctx_vout cb) + sum_values (ctx_vout cs) < 2 ^ 63 ->
  0 <= csIn <= MAX_MONEY -> 0 <= nFees <= MAX_MONEY ->
  IsBlockValueValid p gov (cb :: cs :: rest) h
    (CBlockReward_at oc net params (bp_DIP0003Height p) h nFees true) csIn = Some true ->
  sum_values (ctx_vout cb) + sum_values (ctx_vout cs) <=
    GetBlockSubsidyWagerr oc net params (h - 1) + (if h <? bp_DIP0003Height p then 0 else nFees) + csIn /\
  existsb IsOutputGrouped (ctx_vout cb) = false /\ existsb IsOutputGroupedAuthority (ctx_vout cs) = false.
Proof.
  intros Hp Hreg HF Hsum Hcs Hf H. split.
  - destruct (SetRewards_total (GetBlockSubsidyWagerr oc net params (h - 1))
      (GetMasternodePayment oc net params h (GetBlockSubsidyWagerr oc net params (h - 1)) false) nFees (h <? bp_DIP0003Height p) true)
      as [Ht Htok]; [unfold MAX_MONEY, COIN in *; unfold inS; lia|].
    apply IsBlockValueValid_met in H as (r & Er & Hle); [|done|done].
    pose proof HF as [Hv1 Hv2]%Forall_app.
    apply CBlockReward_block_pos in Er;
      [|done|eapply Forall_impl; [exact HF|]; unfold MAX_MONEY, COIN, inS; cbn; lia].
    pose proof (sum_values_nonneg _ (Forall_impl _ _ _ Hv1 (fun o Ho => proj1 Ho))).
    pose proof (sum_values_nonneg _ (Forall_impl _ _ _ Hv2 (fun o Ho => proj1 Ho))).
    pose proof (GetBlockSubsidyWagerr_range oc net params (h - 1)) as Hs.
    rewrite Er, i64_small in Hle by (unfold inS; lia). etransitivity; [exact Hle|].
    assert (total64 (br_rewards (with_stake (CBlockReward_at oc net params (bp_DIP0003Height p) h nFees true) csIn)) =
      i64 (total64 (br_rewards (CBlockReward_at oc net params (bp_DIP0003Height p) h nFees true)) + csIn)) as ->.
    { unfold with_stake. destruct (Z.ltb_spec 0 csIn).
      - apply total64_AddReward. unfold MAX_MONEY, COIN in *; unfold inS; lia.
      - replace csIn with 0 by lia. rewrite Z.add_0_r. unfold total64. by rewrite wrapS_idem. }
    cbn [CBlockReward_at br_rewards]. rewrite Ht. unfold fees_due. unfold MAX_MONEY, COIN in *.
    destruct (h <? _); cbn [andb]; rewrite wrapS_add_l, i64_small; unfold inS; lia.
  - revert H. unfold IsBlockValueValid. cbn [lookup list_lookup mbind option_bind].
    destruct (CBlockReward_block _ _); [|done]. cbn [mbind option_bind]. rewrite Hp. cbn [andb].
    destruct (existsb IsOutputGrouped _); [done|]. by destruct (existsb IsOutputGroupedAuthority _).
Qed.

(** ** The flags of the coinbase payload *)
Lemma GetCbTxCoinstakeFlags_Calc fPos fSplit fMn fOp :
  GetCbTxCoinstakeFlags (CalcCbTxCoinstakeFlags fPos fSplit fMn fOp) = (fPos, fSplit, fMn, fOp) /\
  0 <= CalcCbTxCoinstakeFlags fPos fSplit fMn fOp < CSTX_MAX.
Proof. by destruct fPos, fSplit, fMn, fOp. Qed.

(** ** Outputs of a proof-of-work block that no reward counts *)
Definition pow_coinbase (hash : uint256) (nType : Z) (payload : list Z) (vout : list CTxOut) : CTx :=
  {| ctx_hash := hash; ctx_nVersion := 3; ctx_nType := nType;
     ctx_vin := [{| txin_prevout := {| op_hash := 0; op_n := NULL_INDEX |}; txin_scriptSig := []; txin_nSequence := SEQUENCE_FINAL |}];
     ctx_vout := vout; ctx_nLockTime := 0; ctx_vExtraPayload := payload |}.

(** The payload with the flag CSTX_SPLIT_COINSTAKE alone. *)
Definition split_payload : list Z := Serialize (u16c ⊗ i32c ⊗ uint256c ⊗ u8c) (2, (0, (0, CSTX_SPLIT_COINSTAKE))).

(** A proof-of-work block whose coinbase payload sets CSTX_SPLIT_COINSTAKE
    must have a second output, and that output is not counted: whatever it
    pays, the rewards read from the block are the first output alone, and the
    block passes when the first output is below the limit.  The same holds of the second
    output of a legacy coinbase with three outputs. *)
Theorem pow_output_uncounted p gov hash h out v b :
  inS 64 (nValue out) -> scriptPubKey out = [] -> 0 <= h < nBudgetPaymentsStartBlock p ->
  let extra := {| nValue := v; scriptPubKey := [] |} in
  let split := pow_coinbase hash TRANSACTION_COINBASE split_payload [out; extra] in
  let legacy := pow_coinbase hash 0 [] [out; extra; {| nValue := 0; scriptPubKey := [] |}] in
  let met := nValue out <? total64 (br_rewards b) in
  CheckCbTxCoinstakeFlags (cbtx_flags split) [split] = Some true /\
  (bp_DIP0003Height p <= h -> met = true -> IsBlockValueValid p gov [split] h b 0 = Some true) /\
  (h < bp_DIP0003Height p -> met = true -> IsBlockValueValid p gov [legacy] h b 0 = Some true).
Proof.
  intros Hout Hs Hh extra split legacy met.
  assert (cbtx_flags split = CSTX_SPLIT_COINSTAKE) as Ef.
  { unfold cbtx_flags. cbn [split pow_coinbase ctx_nType ctx_vExtraPayload]. reflexivity. }
  assert (forall r, total64 (br_rewards r) = nValue out -> met = true -> 0 <=? CBlockReward_CompareTo b r = true) as Hmet.
  { intros r Er Hm. unfold CBlockReward_CompareTo, CReward_CompareTo. rewrite !sum_rewards_amount, Er.
    assert (nValue out < total64 (br_rewards b)) as Hlt by (subst met; lia).
    rewrite (proj2 (Z.eqb_neq _ _)) by lia. cbn [andb].
    rewrite (proj2 (Z.ltb_lt (nValue out) (total64 (br_rewards b)))) by lia. done. }
  assert (CTokenGroupInfo_of [] = {| gi_associatedGroup := NoGroup; gi_quantity := 0; gi_invalid := false |}) as Eg by reflexivity.
  assert (forall o, scriptPubKey o = [] -> IsOutputGrouped o = false) as Hg.
  { intros o Ho. unfold IsOutputGrouped. by rewrite Ho, Eg. }
  assert (total64 (AddReward_ ∅ (CReward_out REWARD_COINBASE out)) = nValue out) as E1.
  { rewrite total64_AddReward_, CReward_out_amount by done. by apply i64_small. }
  assert (CBlockReward_block [split] false =
    Some {| br_rewards := AddReward_ ∅ (CReward_out REWARD_COINBASE out); br_fPos := false; br_fSplitCoinstake := true |}) as B1.
  { unfold CBlockReward_block. cbn [lookup list_lookup mbind option_bind IsProofOfStake_vtx]. by rewrite Ef. }
  assert (CBlockReward_block [legacy] true =
    Some {| br_rewards := add_outs REWARD_MASTERNODE (AddReward_ ∅ (CReward_out REWARD_COINBASE out)) [{| nValue := 0; scriptPubKey := [] |}];
            br_fPos := false; br_fSplitCoinstake := false |}) as B2 by reflexivity.
  split; [by rewrite Ef|]. split; intros Hd Hm; unfold IsBlockValueValid; cbn [lookup list_lookup mbind option_bind IsProofOfStake_vtx andb].
  - rewrite (proj2 (Z.ltb_ge h (bp_DIP0003Height p))), B1 by lia. cbn [mbind option_bind split pow_coinbase ctx_vout existsb].
    rewrite !Hg by done. cbn [orb]. rewrite (proj2 (Z.ltb_lt h (nBudgetPaymentsStartBlock p))) by lia. f_equal. by apply Hmet.
  - rewrite (proj2 (Z.ltb_lt h (bp_DIP0003Height p))), B2 by lia. cbn [mbind option_bind legacy pow_coinbase ctx_vout existsb].
    rewrite !Hg by done. cbn [orb]. rewrite (proj2 (Z.ltb_lt h (nBudgetPaymentsStartBlock p))) by lia. f_equal.
    apply Hmet; [|done]. cbn [br_rewards].
    rewrite add_outs_total, E1 by (constructor; [cbn; unfold inS; lia|constructor]). cbn. rewrite Z.add_0_r. by apply i64_small.
Qed.

(** ** The payments of a masternode *)
(** The outputs to a masternode and its operator are together the
    masternode's share, the operator getting the part its registration says;
    when there is no masternode to pay, its share goes to the staker (or the
    miner).  The total of the rewards stays the same. *)
Theorem GetBlockTxOuts_total dmn b :
  let mn := rw_amount (GetReward (br_rewards b) REWARD_MASTERNODE).2 in
  0 <= mn -> mn * 10000 < 2 ^ 63 ->
  (forall d, dmn = Some d -> br_rewards b !! REWARD_OPERATOR = Some (CReward_empty REWARD_OPERATOR) /\ 0 <= nOperatorReward d <= 10000) ->
  let '(vout, b') := GetBlockTxOuts dmn b in
  total64 (br_rewards b') = total64 (br_rewards b) /\
  match vout with
  | Some vout => sum_values vout = mn
  | None => br_rewards b' !! REWARD_MASTERNODE = None
  end.
Proof.
  intros mn H0 Hm Hop. unfold GetBlockTxOuts. destruct dmn as [d|].
  2: { cbn [br_rewards set_rewards]. destruct (br_fPos b).
    all: unfold MoveMasternodeRewardToCoinstake, MoveMasternodeRewardToCoinbase; rewrite !total64_MoveReward by done; split; [done|].
    all: unfold MoveReward; destruct (br_rewards b !! REWARD_MASTERNODE) eqn:E; repeat case_match;
      rewrite ?lookup_delete_ne by done; unfold AddReward_; cbn [rw_type]; repeat case_match;
      rewrite ?lookup_insert_ne, ?lookup_delete_eq by done; done. }
  destruct (Hop d eq_refl) as [Ho Hd]. pose proof (GetReward_total (br_rewards b) REWARD_MASTERNODE) as [Ht Hk].
  assert ((GetReward (br_rewards b) REWARD_MASTERNODE).1 !! REWARD_OPERATOR = Some (CReward_empty REWARD_OPERATOR)) as Ho'.
  { unfold GetReward. case_match; cbn; [done|]. by rewrite lookup_insert_ne. }
  destruct (GetReward (br_rewards b) REWARD_MASTERNODE) as [m r]; cbn [fst snd] in *. subst mn.
  set (paid := negb _ && negb _). set (op := if paid then _ else 0). set (mnr := if paid then _ else rw_amount r).
  assert (0 <= op <= rw_amount r /\ mnr = rw_amount r - op) as [Hr Em].
  { subst op mnr. destruct paid; [|lia]. rewrite i64_small by (unfold inS; nia).
    assert (0 <= Z.quot (rw_amount r * nOperatorReward d) 10000 <= rw_amount r).
    { split; [apply Z.quot_pos; nia|]. apply Z.quot_le_upper_bound; nia. }
    rewrite i64_small by (unfold inS; lia). lia. }
  clearbody op mnr. subst mnr. unfold RemoveMasternodeReward.
  destruct (Z.ltb_spec 0 (rw_amount r - op)), (Z.ltb_spec 0 op); cbn [br_rewards set_rewards app]; rewrite ?SetReward_eq;
    (split; [|unfold sum_values; cbn; lia]); rewrite <-Ht; unfold total64; f_equal; rewrite (total_of_delete m _ _ Hk).
  - rewrite total_of_insert, delete_insert_ne, total_of_insert by done.
    rewrite (total_of_delete (delete REWARD_MASTERNODE m) REWARD_OPERATOR (CReward_empty REWARD_OPERATOR)) by (by rewrite lookup_delete_ne).
    rewrite (total_of_fresh _ REWARD_MASTERNODE) by (by rewrite lookup_delete_ne, lookup_delete_eq).
    cbn [rw_amount CReward_empty]. lia.
  - rewrite total_of_insert, total_of_fresh by (by rewrite lookup_delete_eq). cbn [rw_amount]. lia.
  - rewrite total_of_insert. rewrite (total_of_delete (delete REWARD_MASTERNODE m) REWARD_OPERATOR (CReward_empty REWARD_OPERATOR)) by (by rewrite lookup_delete_ne).
    cbn [rw_amount CReward_empty]. lia.
  - cbn. lia.
Qed.
