(* ===== verification/TokenManager.v ===== *)
(** * Token groups of the chain
    (src/src/tokens/tokengroupconfiguration.h and .cpp,
    src/src/tokens/tokengroupmanager.h and .cpp, src/src/tokens/tokendb.cpp)

    The manager keeps the groups of the active chain in memory: a map from
    identifiers to creations, a map from betting events to groups, and the two
    management tokens.  The database holds the creations as they were in their
    blocks, before the filters, and the manager is filled from it at start.
    A creation's description is behind a shared pointer, which the filters
    write through; the copies made on the way are not read again after that,
    so that values are enough.  LevelDB is a map; its keys are compared as
    bytes of the serialized identifier. *)

From S2P Require Import Prelude Serialize Params BetTx BetDB BetKeys TokenGroups TokenDesc.

(** ** Creations (tokengroupconfiguration.h) *)
Record CTokenGroupCreation := {
  tgc_creationTransaction : CSpecialTx;
  tgc_creationBlockHash : uint256;
  tgc_tokenGroupInfo : CTokenGroupInfo;
  tgc_description : CTokenGroupDescriptionVariant;
  tgc_status : list Z;
}.

#[export] Instance CTokenGroupCreation_eta : Settable CTokenGroupCreation := fun c =>
  {| tgc_creationTransaction := tgc_creationTransaction c; tgc_creationBlockHash := tgc_creationBlockHash c;
     tgc_tokenGroupInfo := tgc_tokenGroupInfo c; tgc_description := tgc_description c;
     tgc_status := tgc_status c |}.

(** The identifier a creation is stored under. *)
Definition tgc_id (c : CTokenGroupCreation) : CTokenGroupID := gi_associatedGroup (tgc_tokenGroupInfo c).

(** A default CTransaction: no inputs and no outputs; its hash does not matter. *)
Definition CSpecialTx_init : CSpecialTx :=
  {| stx_tx := {| tx_hash := 0; tx_vin := []; tx_vout := [] |};
     tx_nVersion := 2; tx_nType := TRANSACTION_NORMAL; tx_vExtraPayload := [] |}.

(** The default constructor: the first alternative of the variant, empty
    (nDecimalPos is left open by SetNull). *)
Definition CTokenGroupCreation_init : CTokenGroupCreation :=
  {| tgc_creationTransaction := CSpecialTx_init; tgc_creationBlockHash := 0;
     tgc_tokenGroupInfo := CTokenGroupInfo_init;
     tgc_description := TGRegular {| reg_nVersion := TokenGroupDescription_CURRENT_VERSION; reg_strTicker := [];
       reg_strName := []; reg_strDocumentUrl := []; reg_documentHash := 0; reg_nDecimalPos := 0 |};
     tgc_status := [] |}.

(** operator==; transactions are compared by hash. *)
Definition CTokenGroupCreation_eqb (a c : CTokenGroupCreation) : bool :=
  if gi_invalid (tgc_tokenGroupInfo c) || gi_invalid (tgc_tokenGroupInfo a) then false
  else (tx_hash (tgc_creationTransaction a) =? tx_hash (tgc_creationTransaction c)) &&
       (tgc_creationBlockHash a =? tgc_creationBlockHash c) &&
       CTokenGroupInfo_eqb (tgc_tokenGroupInfo a) (tgc_tokenGroupInfo c).

(** ** Uniqueness of tickers and names *)

(** The test of find_if on one group. *)
Definition clashes (get : CTokenGroupDescriptionVariant -> list Z) (lower : list Z) (tgID : CTokenGroupID)
    (tokenGroup : CTokenGroupCreation) : bool :=
  negb (gi_invalid (tgc_tokenGroupInfo tokenGroup)) && negb (bool_decide (tgc_id tokenGroup = tgID)) &&
  bool_decide (lower = tolower <$> get (tgc_description tokenGroup)).

Definition TGFilterTickerUniqueness (mapTGs : list CTokenGroupCreation) (strTicker : list Z) (tgID : CTokenGroupID) :
    list Z :=
  let lower := tolower <$> strTicker in
  if negb (bool_decide (lower = [])) && existsb (clashes tgDescGetTicker lower tgID) mapTGs then [] else strTicker.

Definition TGFilterNameUniqueness (mapTGs : list CTokenGroupCreation) (strName : list Z) (tgID : CTokenGroupID) :
    list Z :=
  let lower := tolower <$> strName in
  if negb (bool_decide (lower = [])) && existsb (clashes tgDescGetName lower tgID) mapTGs then [] else strName.

(** The six filters on a ticker, on a name and on a URL. *)
Definition filter_ticker (mapTGs : list CTokenGroupCreation) (tgID : CTokenGroupID) (t : list Z) : list Z :=
  TGFilterUpperCaseTicker (TGFilterTickerUniqueness mapTGs (TGFilterTickerCharacters t) tgID).

Definition filter_name (mapTGs : list CTokenGroupCreation) (tgID : CTokenGroupID) (n : list Z) : list Z :=
  TGFilterNameUniqueness mapTGs (TGFilterNameCharacters n) tgID.

Definition filter_description (mapTGs : list CTokenGroupCreation) (tgID : CTokenGroupID)
    (d : CTokenGroupDescriptionVariant) : CTokenGroupDescriptionVariant :=
  match d with
  | TGRegular d => TGRegular (Build_CTokenGroupDescriptionRegular (reg_nVersion d)
      (filter_ticker mapTGs tgID (reg_strTicker d)) (filter_name mapTGs tgID (reg_strName d))
      (TGFilterURLCharacters (reg_strDocumentUrl d)) (reg_documentHash d) (reg_nDecimalPos d))
  | TGMGT d => TGMGT (Build_CTokenGroupDescriptionMGT (mgt_nVersion d)
      (filter_ticker mapTGs tgID (mgt_strTicker d)) (filter_name mapTGs tgID (mgt_strName d))
      (TGFilterURLCharacters (mgt_strDocumentUrl d)) (mgt_documentHash d) (mgt_nDecimalPos d) (mgt_blsPubKey d))
  | TGNFT d => TGNFT (Build_CTokenGroupDescriptionNFT (nft_nVersion d)
      (filter_name mapTGs tgID (nft_strName d)) (nft_nMintAmount d) (TGFilterURLCharacters (nft_strDocumentUrl d))
      (nft_documentHash d) (nft_vchData d) (nft_strDataFilename d))
  | TGBetting d => TGBetting d
  end.

(** ValidateDescription; it returns true always. *)
Definition ValidateDescription (mapTGs : list CTokenGroupCreation) (c : CTokenGroupCreation) : CTokenGroupCreation :=
  c <| tgc_description ::= filter_description mapTGs (tgc_id c) |>.

(** The database: creations by identifier. *)
Abbreviation CTokenDB := (gmap CTokenGroupID CTokenGroupCreation).

(** ** Creations from transactions *)
Section Configuration.
Context (bls_ok : list Z -> bool).

(** The loop of GetTokenConfigurationParameters: [None] at an invalid output,
    otherwise the first output that creates a group. *)
Fixpoint new_token_group (vout : list CTxOut) (found : option CTokenGroupInfo) : option (option CTokenGroupInfo) :=
  match vout with
  | [] => Some found
  | txout :: vout =>
      let tokenGrp := CTokenGroupInfo_of (scriptPubKey txout) in
      if gi_invalid tokenGrp then None
      else new_token_group vout
             match found with
             | Some _ => found
             | None => if negb (bool_decide (gi_associatedGroup tokenGrp = NoGroup)) &&
                          isGroupCreation tokenGrp TokenGroupIdFlags_NONE
                       then Some tokenGrp else None
             end
  end.

Definition GetTokenConfigurationParameters (tx : CSpecialTx) :
    option (CTokenGroupInfo * CTokenGroupDescriptionVariant) :=
  match new_token_group (tx_vout tx) None with
  | Some (Some tokenGroupInfo) => (fun tgDesc => (tokenGroupInfo, tgDesc)) <$> GetTxPayload bls_ok tx
  | _ => None
  end.

Definition is_group_creation_type (nType : Z) : bool :=
  (nType =? TRANSACTION_GROUP_CREATION_REGULAR) || (nType =? TRANSACTION_GROUP_CREATION_MGT) ||
  (nType =? TRANSACTION_GROUP_CREATION_NFT) || (nType =? TRANSACTION_GROUP_CREATION_BETTING).

(** A transaction of another type leaves the caller's default object. *)
Definition CreateTokenGroup (tx : CSpecialTx) (blockHash : uint256) : option CTokenGroupCreation :=
  if is_group_creation_type (tx_nType tx) then
    '(info, desc) ← GetTokenConfigurationParameters tx;
    Some {| tgc_creationTransaction := tx; tgc_creationBlockHash := blockHash; tgc_tokenGroupInfo := info;
            tgc_description := desc; tgc_status := [] |}
  else Some CTokenGroupCreation_init.

(** ** The manager *)
Record CTokenGroupManager := {
  mapTokenGroups : gmap CTokenGroupID CTokenGroupCreation;
  mapBetTokens : gmap Z CTokenGroupID;
  tgMGTCreation : option CTokenGroupCreation;
  tgORATCreation : option CTokenGroupCreation;
  newTokenGroups : list CTokenGroupCreation;
}.

#[export] Instance CTokenGroupManager_eta : Settable CTokenGroupManager := fun m =>
  {| mapTokenGroups := mapTokenGroups m; mapBetTokens := mapBetTokens m; tgMGTCreation := tgMGTCreation m;
     tgORATCreation := tgORATCreation m; newTokenGroups := newTokenGroups m |}.

Definition CTokenGroupManager_init : CTokenGroupManager :=
  {| mapTokenGroups := ∅; mapBetTokens := ∅; tgMGTCreation := None; tgORATCreation := None; newTokenGroups := [] |}.

(** The groups in the order of the map. *)
Definition groups (m : CTokenGroupManager) : list CTokenGroupCreation := (sorted_entries (mapTokenGroups m)).*2.

Definition StoreManagementTokenGroups (m : CTokenGroupManager) (c : CTokenGroupCreation) : CTokenGroupManager * bool :=
  match tgc_description c with
  | TGMGT d =>
      let ticker := mgt_strTicker d in
      if bool_decide (tgMGTCreation m = None) && bool_decide (ticker = bytes_of "MGT") then
        (m <| tgMGTCreation := Some c |>, true)
      else if bool_decide (tgORATCreation m = None) && bool_decide (ticker = bytes_of "ORAT") then
        (m <| tgORATCreation := Some c |>, true)
      else (m, false)
  | _ => (m, false)
  end.

Definition ClearManagementTokenGroups (m : CTokenGroupManager) : CTokenGroupManager :=
  m <| tgMGTCreation := None |> <| tgORATCreation := None |>.

Definition matches (creation : option CTokenGroupCreation) (tgID : CTokenGroupID) : bool :=
  match creation with Some c => bool_decide (tgID = tgc_id c) | None => false end.

Definition MatchesMGT (m : CTokenGroupManager) (tgID : CTokenGroupID) : bool := matches (tgMGTCreation m) tgID.
Definition MatchesORAT (m : CTokenGroupManager) (tgID : CTokenGroupID) : bool := matches (tgORATCreation m) tgID.

Definition MGTTokensCreated (m : CTokenGroupManager) : bool := bool_decide (is_Some (tgMGTCreation m)).
Definition ORATTokensCreated (m : CTokenGroupManager) : bool := bool_decide (is_Some (tgORATCreation m)).
Definition ManagementTokensCreated (m : CTokenGroupManager) : bool := MGTTokensCreated m && ORATTokensCreated m.

(** The loop of AddTokenGroups.  [None]: boost::get on another alternative. *)
Fixpoint AddTokenGroups (m : CTokenGroupManager) (l : list CTokenGroupCreation) : option (CTokenGroupManager * bool) :=
  match l with
  | [] => Some (m, true)
  | c :: l =>
      let c := ValidateDescription (groups m) c in
      let m := (StoreManagementTokenGroups m c).1 in
      match mapTokenGroups m !! tgc_id c with
      | Some _ => Some (m, false)
      | None =>
          let m := m <| mapTokenGroups := <[tgc_id c := c]> (mapTokenGroups m) |> in
          if tx_nType (tgc_creationTransaction c) =? TRANSACTION_GROUP_CREATION_BETTING then
            match tgc_description c with
            | TGBetting d =>
                match mapBetTokens m !! bt_nEventId d with
                | Some _ => Some (m, false)
                | None => AddTokenGroups (m <| mapBetTokens := <[bt_nEventId d := tgc_id c]> (mapBetTokens m) |>) l
                end
            | _ => None
            end
          else AddTokenGroups m l
      end
  end.

(** (CAmount)GroupAuthorityFlags::ALL *)
Definition tgCreationWAGERR : CTokenGroupCreation :=
  {| tgc_creationTransaction := CSpecialTx_init; tgc_creationBlockHash := 0;
     tgc_tokenGroupInfo := {| gi_associatedGroup := NoGroup; gi_quantity := i64 ALL; gi_invalid := false |};
     tgc_description := TGRegular {| reg_nVersion := TokenGroupDescription_CURRENT_VERSION;
       reg_strTicker := bytes_of "WAGERR"; reg_strName := bytes_of "Wagerr";
       reg_strDocumentUrl := bytes_of "https://wagerr.com"; reg_documentHash := 0; reg_nDecimalPos := 8 |};
     tgc_status := [] |}.

Definition ResetTokenGroups (m : CTokenGroupManager) : CTokenGroupManager :=
  ClearManagementTokenGroups m <| mapTokenGroups := {[ NoGroup := tgCreationWAGERR ]} |> <| mapBetTokens := ∅ |>.

(** RemoveTokenGroup: the manager and the identifier that was removed. *)
Definition RemoveTokenGroup (m : CTokenGroupManager) (tx : CSpecialTx) :
    CTokenGroupManager * option CTokenGroupID :=
  match (if is_group_creation_type (tx_nType tx) then GetTokenConfigurationParameters tx else None) with
  | None => (m, None)
  | Some (info, desc) =>
      let m := match desc with
               | TGBetting d => m <| mapBetTokens := delete (bt_nEventId d) (mapBetTokens m) |>
               | _ => m
               end in
      let tgID := gi_associatedGroup info in
      let m := if MatchesMGT m tgID then m <| tgMGTCreation := None |>
               else if MatchesORAT m tgID then m <| tgORATCreation := None |> else m in
      match mapTokenGroups m !! tgID with
      | Some _ => (m <| mapTokenGroups := delete tgID (mapTokenGroups m) |>, Some tgID)
      | None => (m, None)
      end
  end.

(** ** Lookups *)
Definition GetTokenGroupCreation (m : CTokenGroupManager) (tgID : CTokenGroupID) : option CTokenGroupCreation :=
  mapTokenGroups m !! (if isSubgroup tgID then parentGroup tgID else tgID).

Definition GetTokenGroupIdByEventID (m : CTokenGroupManager) (nEventID : Z) : option CTokenGroupID :=
  mapBetTokens m !! nEventID.

Definition GetTokenGroupNameByID (m : CTokenGroupManager) (tgID : CTokenGroupID) : list Z :=
  match GetTokenGroupCreation m tgID with Some c => tgDescGetName (tgc_description c) | None => [] end.

(** As the code has it: the name, not the ticker. *)
Definition GetTokenGroupTickerByID (m : CTokenGroupManager) (tgID : CTokenGroupID) : list Z :=
  match GetTokenGroupCreation m tgID with Some c => tgDescGetName (tgc_description c) | None => [] end.

Definition find_group (get : CTokenGroupDescriptionVariant -> list Z) (m : CTokenGroupManager) (needle : list Z) :
    option CTokenGroupID :=
  (fun e => (e.2).1) <$> list_find (fun e : CTokenGroupID * CTokenGroupCreation =>
     tolower <$> get (tgc_description (e.2)) = tolower <$> needle) (sorted_entries (mapTokenGroups m)).

Definition GetTokenGroupIdByTicker : CTokenGroupManager -> list Z -> option CTokenGroupID := find_group tgDescGetTicker.
Definition GetTokenGroupIdByName : CTokenGroupManager -> list Z -> option CTokenGroupID := find_group tgDescGetName.

(** [get] is boost::get at the type of the description. *)
Definition GetTokenGroupDescription {D} (get : CTokenGroupDescriptionVariant -> option D) (m : CTokenGroupManager)
    (tgID : CTokenGroupID) : option D :=
  tgCreation ← GetTokenGroupCreation m tgID; get (tgc_description tgCreation).

(** ** Amounts *)
Definition TokenMoneyRange (nValueOut : Z) : bool := (0 <=? nValueOut) && (nValueOut <=? 922337203685477580).

(** The digits of a number, with zeros in front up to the width: %0*d. *)
Definition zero_padded (width : Z) (n : Z) : list Z :=
  let ds := decimal n in repeat 48 (Z.to_nat width - length ds) ++ ds.

(** A group that is not known has the default description. *)
Definition TokenValueFromAmount (m : CTokenGroupManager) (amount : Z) (tgID : CTokenGroupID) : list Z :=
  let desc := tgc_description (default CTokenGroupCreation_init (GetTokenGroupCreation m tgID)) in
  let tokenCOIN := tgDescGetCoinAmount desc in
  let sign := amount <? 0 in
  let n_abs := i64 (if sign then - amount else amount) in
  let quotient := Z.quot n_abs tokenCOIN in
  let remainder := Z.rem n_abs tokenCOIN in
  let nDecimalPos := tgDescGetDecimalPos desc in
  let minus := if sign then [45] else [] in
  if nDecimalPos =? 0 then minus ++ decimal quotient
  else minus ++ decimal quotient ++ [46] ++ zero_padded nDecimalPos remainder.

(** ** Fees: the counters are computed, and not used *)
Definition fee_outputs (vout : list CTxOut) : option (Z * Z) :=
  foldl (fun acc txout =>
           '(tokensCreated, tokenOutputs) ← acc;
           let grp := CTokenGroupInfo_of (scriptPubKey txout) in
           if gi_invalid grp then None
           else Some (if isGroupCreation grp TokenGroupIdFlags_NONE && negb (hasFlag (gi_associatedGroup grp) MGT_TOKEN)
                      then u32 (tokensCreated + 1) else tokensCreated,
                      if 0 <? getAmount grp then u32 (tokenOutputs + 1) else tokenOutputs))
    (Some (0, 0)) vout.

(** Mints and melts; tokenMelts is decremented from zero. *)
Definition fee_balances (tgMintMeltBalance : gmap CTokenGroupID CTokenGroupBalance) : Z * Z :=
  foldl (fun '(tokenMints, tokenMelts) '(_, tgBalance) =>
           let d := i64 (bal_output tgBalance - bal_input tgBalance) in
           if 0 <? d then (u32 (tokenMints + 1), tokenMelts)
           else if d <? 0 then (tokenMints, u32 (tokenMelts - 1))
           else (tokenMints, tokenMelts))
    (0, 0) (map_to_list tgMintMeltBalance).

Definition CheckFees (m : CTokenGroupManager) (tx : CTransaction)
    (tgMintMeltBalance : gmap CTokenGroupID CTokenGroupBalance) : bool :=
  match tgMGTCreation m with
  | None => true
  | Some _ =>
      match fee_outputs (tx_vout tx) with
      | None => false
      | Some (tokensCreated, tokenOutputs) =>
          let '(tokenMints, tokenMelts) := fee_balances tgMintMeltBalance in true
      end
  end.

(** ** Statistics *)
Definition GetTokensInBlock (vtx : list CTransaction) (tgId : CTokenGroupID) : Z :=
  foldl (fun nTokenCount (tx : CTransaction) =>
           if existsb (fun outp => let tokenGrp := CTokenGroupInfo_of (scriptPubKey outp) in
                         negb (gi_invalid tokenGrp) && bool_decide (gi_associatedGroup tokenGrp = tgId)) (tx_vout tx)
           then u16 (nTokenCount + 1) else nTokenCount) 0 vtx.

(** The amounts of a group in scripts, summed. *)
Definition token_value (tgId : CTokenGroupID) (scripts : list (list Z)) : Z :=
  foldl (fun v script =>
           let tokenGrp := CTokenGroupInfo_of script in
           if negb (gi_invalid tokenGrp) && bool_decide (gi_associatedGroup tokenGrp = tgId) &&
              negb (isAuthority tokenGrp)
           then i64 (v + gi_quantity tokenGrp) else v) 0 scripts.

(** [spent] are the scripts and heights of the coins of the inputs,
    [generated] the test for coinbase, coinstake and zerocoin spends. *)
Definition GetTokenTxStats (ATPStartHeight : Z) (generated : bool) (tx : CTransaction) (spent : list (list Z * Z))
    (tgId : CTokenGroupID) (nTokenCount nTokenMint : Z) : Z * Z :=
  if generated then (nTokenCount, nTokenMint)
  else
    let nTxValueOut := token_value tgId (scriptPubKey <$> tx_vout tx) in
    let nTxValueIn := token_value tgId (filter (fun c => ATPStartHeight <= c.2) spent).*1 in
    (if (0 <? nTxValueIn) || (0 <? nTxValueOut) then u16 (nTokenCount + 1) else nTokenCount,
     i64 (nTokenMint + (nTxValueOut - nTxValueIn))).

(** ** The database (tokendb.cpp) *)
Definition WriteTokenGroupsBatch (db : CTokenDB) (l : list CTokenGroupCreation) : CTokenDB :=
  foldl (fun db c => <[tgc_id c := c]> db) db l.

Definition EraseTokenGroupBatch (db : CTokenDB) (ids : list CTokenGroupID) : CTokenDB :=
  foldl (fun db id => delete id db) db ids.

(** Entries in the order of the serialized keys: the size, then the bytes. *)
Definition db_key_seq : KeySeq CTokenGroupID := fun g => Serialize bytesc g.

Definition FindTokenGroups (db : CTokenDB) : list CTokenGroupCreation := (sorted_entries (H0 := db_key_seq) db).*2.

(** Every group is erased again after each entry. *)
Definition DropTokenGroups (db : CTokenDB) : CTokenDB :=
  (foldl (fun '(db, ids) c => let ids := ids ++ [tgc_id c] in (EraseTokenGroupBatch db ids, ids))
     (db, []) (FindTokenGroups db)).1.

Definition LoadTokensFromDB (m : CTokenGroupManager) (db : CTokenDB) : option (CTokenGroupManager * bool) :=
  AddTokenGroups (ResetTokenGroups m) (FindTokenGroups db).

(** ** Blocks *)
Record TokenBlock := { tb_hash : uint256; tb_vtx : list CSpecialTx }.

Fixpoint collect_groups (blockHash : uint256) (vtx : list CSpecialTx) (acc : list CTokenGroupCreation) :
    list CTokenGroupCreation * bool :=
  match vtx with
  | [] => (acc, true)
  | tx :: vtx =>
      if negb (tx_nVersion tx =? 3) || negb (is_group_creation_type (tx_nType tx)) then collect_groups blockHash vtx acc
      else match CreateTokenGroup tx blockHash with
           | None => (acc, false)
           | Some c => collect_groups blockHash vtx (acc ++ [c])
           end
  end.

Definition CollectTokensFromBlock (ATPStartHeight nHeight : Z) (m : CTokenGroupManager) (block : TokenBlock) :
    CTokenGroupManager * bool :=
  if negb (ATPStartHeight <=? nHeight) then (m, true)
  else let '(l, ok) := collect_groups (tb_hash block) (tb_vtx block) [] in (m <| newTokenGroups := l |>, ok).

Definition ApplyTokensFromBlock (m : CTokenGroupManager) (db : CTokenDB) : option (CTokenGroupManager * CTokenDB * bool) :=
  let db := WriteTokenGroupsBatch db (newTokenGroups m) in
  '(m, ok) ← AddTokenGroups m (newTokenGroups m);
  if ok : bool then Some (m <| newTokenGroups := [] |>, db, true) else Some (m, db, false).

Fixpoint remove_groups (m : CTokenGroupManager) (vtx : list CSpecialTx) : CTokenGroupManager * list CTokenGroupID :=
  match vtx with
  | [] => (m, [])
  | tx :: vtx =>
      if negb (tx_nVersion tx =? 3) then remove_groups m vtx
      else
        let '(m, removed) := RemoveTokenGroup m tx in
        let '(m, ids) := remove_groups m vtx in
        (m, match removed with Some id => id :: ids | None => ids end)
  end.

Definition UndoBlock (ATPStartHeight nHeight : Z) (m : CTokenGroupManager) (db : CTokenDB) (block : TokenBlock) :
    CTokenGroupManager * CTokenDB :=
  if negb (ATPStartHeight <=? nHeight) then (m, db)
  else let '(m, ids) := remove_groups m (tb_vtx block) in (m, EraseTokenGroupBatch db ids).

(** ReindexTokenDB: the blocks of the active chain from ATPStartHeight on,
    [None] for one that cannot be read; [skip] is the test for coinbase and
    zerocoin transactions. *)
Fixpoint reindex_groups (skip : CSpecialTx -> bool) (blockHash : uint256) (vtx : list CSpecialTx) :
    list CTokenGroupCreation :=
  match vtx with
  | [] => []
  | tx :: vtx =>
      let rest := reindex_groups skip blockHash vtx in
      if negb (skip tx) && IsAnyOutputGroupedCreation tx TokenGroupIdFlags_NONE then
        match CreateTokenGroup tx blockHash with Some c => c :: rest | None => rest end
      else rest
  end.

Fixpoint reindex_blocks (skip : CSpecialTx -> bool) (m : CTokenGroupManager) (db : CTokenDB)
    (chain : list (option TokenBlock)) : option (CTokenGroupManager * CTokenDB * bool) :=
  match chain with
  | [] => Some (m, db, true)
  | None :: _ => Some (m, db, false)
  | Some block :: chain =>
      let l := reindex_groups skip (tb_hash block) (tb_vtx block) in
      let db := WriteTokenGroupsBatch db l in
      '(m, ok) ← AddTokenGroups m l;
      if ok : bool then reindex_blocks skip m db chain else Some (m, db, false)
  end.

Definition ReindexTokenDB (skip : CSpecialTx -> bool) (m : CTokenGroupManager) (db : CTokenDB)
    (chain : list (option TokenBlock)) : option (CTokenGroupManager * CTokenDB * bool) :=
  reindex_blocks skip (ResetTokenGroups m) (DropTokenGroups db) chain.

(** VerifyTokenDB: what is known of the block of a creation. *)
Inductive block_lookup :=
  | BlockUnknown
  | BlockNotActive
  | BlockPruned
  | BlockUnreadable
  | BlockRead (block : TokenBlock).

Definition verify_creation (lookup : uint256 -> block_lookup) (tgCreation : CTokenGroupCreation) : bool :=
  match lookup (tgc_creationBlockHash tgCreation) with
  | BlockUnknown | BlockNotActive | BlockUnreadable => false
  | BlockPruned => true
  | BlockRead block =>
      forallb (fun tx : CSpecialTx =>
                 negb (tx_hash tx =? tx_hash (tgc_creationTransaction tgCreation)) ||
                 match CreateTokenGroup tx (tb_hash block) with
                 | None => false
                 | Some tgCreation2 => CTokenGroupCreation_eqb tgCreation tgCreation2
                 end) (tb_vtx block)
  end.

Definition VerifyTokenDB (lookup : uint256 -> block_lookup) (db : CTokenDB) : bool :=
  forallb (verify_creation lookup) (FindTokenGroups db).
End Configuration.
