(* ===== verification/TokenProofs.v ===== *)
(** * Properties of the token group manager (TokenManager.v) *)

From S2P Require Import Prelude Serialize Params BetTx BetDB BetKeys TokenGroups TokenDesc TokenManager.

(** ** Well-formed managers *)
Definition ticker_of (c : CTokenGroupCreation) : list Z := tolower <$> tgDescGetTicker (tgc_description c).

Definition valid_creation (c : CTokenGroupCreation) : Prop := gi_invalid (tgc_tokenGroupInfo c) = false.

(** Groups are stored under their identifiers, tickers are unique up to case,
    the management tokens are known groups and differ, and the groups of
    betting events are known. *)
Record manager_ok (m : CTokenGroupManager) : Prop := {
  mo_keys id c : mapTokenGroups m !! id = Some c -> tgc_id c = id;
  mo_tickers id1 id2 c1 c2 :
    mapTokenGroups m !! id1 = Some c1 -> mapTokenGroups m !! id2 = Some c2 -> id1 <> id2 ->
    valid_creation c1 -> valid_creation c2 -> ticker_of c1 = ticker_of c2 -> ticker_of c1 = [];
  mo_mgt c : tgMGTCreation m = Some c -> is_Some (mapTokenGroups m !! tgc_id c);
  mo_orat c : tgORATCreation m = Some c -> is_Some (mapTokenGroups m !! tgc_id c);
  mo_distinct c1 c2 : tgMGTCreation m = Some c1 -> tgORATCreation m = Some c2 -> tgc_id c1 <> tgc_id c2;
  mo_bets e id : mapBetTokens m !! e = Some id -> is_Some (mapTokenGroups m !! id);
}.

Lemma ResetTokenGroups_ok m : manager_ok (ResetTokenGroups m).
Proof.
  split; cbn; try done.
  - intros id c. by intros [<- <-]%lookup_singleton_Some.
  - intros id1 id2 c1 c2 [<- _]%lookup_singleton_Some [<- _]%lookup_singleton_Some. done.
Qed.

(** ** Filters and case *)
Lemma tolower_toupper c : tolower (toupper c) = tolower c.
Proof. unfold tolower, toupper. repeat case_match; lia. Qed.

Lemma tolower_upper_ticker t : tolower <$> TGFilterUpperCaseTicker t = tolower <$> t.
Proof.
  unfold TGFilterUpperCaseTicker. rewrite <- list_fmap_compose. apply list_fmap_ext. intros i c _.
  apply tolower_toupper.
Qed.

(** After the filters a ticker is empty or differs from that of every valid
    group with another identifier. *)
Lemma filter_ticker_unique gs tgID t c :
  c ∈ gs -> valid_creation c -> tgc_id c <> tgID ->
  tolower <$> filter_ticker gs tgID t = ticker_of c -> ticker_of c = [].
Proof.
  unfold filter_ticker. rewrite tolower_upper_ticker. unfold TGFilterTickerUniqueness.
  set (t' := TGFilterTickerCharacters t). intros Hc Hv Hid.
  destruct (negb _ && existsb _ _) eqn:E; [by intros <-|]. intros Ht.
  apply andb_false_iff in E as [E|E].
  - apply negb_false_iff, bool_decide_eq_true in E. by rewrite <- Ht.
  - exfalso. rewrite <- not_true_iff_false in E. apply E. apply existsb_exists. exists c.
    split; [by apply list_elem_of_In|]. unfold clashes. rewrite Hv. cbn [negb andb].
    rewrite bool_decide_eq_false_2 by done. by rewrite bool_decide_eq_true_2.
Qed.

Lemma elem_of_groups m c : c ∈ groups m <-> exists id, mapTokenGroups m !! id = Some c.
Proof.
  unfold groups. rewrite list_elem_of_fmap. split.
  - intros ([id c'] & -> & H). apply elem_of_sorted_entries in H. by exists id.
  - intros [id H]. exists (id, c). split; [done|]. by apply elem_of_sorted_entries.
Qed.

Lemma ValidateDescription_id gs c : tgc_id (ValidateDescription gs c) = tgc_id c.
Proof. done. Qed.

Lemma ValidateDescription_ticker gs c c' :
  c' ∈ gs -> valid_creation c' -> tgc_id c' <> tgc_id c ->
  ticker_of (ValidateDescription gs c) = ticker_of c' -> ticker_of c' = [].
Proof.
  intros Hin Hv Hid. unfold ticker_of at 1. destruct c as [tx h info d st].
  unfold ValidateDescription. cbn [tgc_description set_field]. cbn.
  destruct d; cbn; intros H; try by rewrite <- H.
  - by eapply filter_ticker_unique.
  - by eapply filter_ticker_unique.
Qed.

(** ** One step of AddTokenGroups *)
Lemma Store_maps m c :
  mapTokenGroups (StoreManagementTokenGroups m c).1 = mapTokenGroups m /\
  mapBetTokens (StoreManagementTokenGroups m c).1 = mapBetTokens m /\
  newTokenGroups (StoreManagementTokenGroups m c).1 = newTokenGroups m.
Proof. unfold StoreManagementTokenGroups. by repeat case_match. Qed.

(** The management tokens after a creation: as before, or one of them new. *)
Lemma Store_management m c :
  let m' := (StoreManagementTokenGroups m c).1 in
  (tgMGTCreation m' = tgMGTCreation m /\ tgORATCreation m' = tgORATCreation m) \/
  (tgMGTCreation m = None /\ tgMGTCreation m' = Some c /\ tgORATCreation m' = tgORATCreation m) \/
  (tgORATCreation m = None /\ tgORATCreation m' = Some c /\ tgMGTCreation m' = tgMGTCreation m).
Proof.
  unfold StoreManagementTokenGroups. destruct (tgc_description c); try by left.
  repeat case_bool_decide; cbn; naive_solver.
Qed.

Definition event_of (c : CTokenGroupCreation) : option Z :=
  match tgc_description c with TGBetting d => Some (bt_nEventId d) | _ => None end.

(** The description fits the type of the transaction. *)
Definition typed_creation (c : CTokenGroupCreation) : Prop :=
  SPECIALTX_TYPE (tgc_description c) = tx_nType (tgc_creationTransaction c).

Lemma typed_betting c : typed_creation c ->
  (tx_nType (tgc_creationTransaction c) =? TRANSACTION_GROUP_CREATION_BETTING) = bool_decide (is_Some (event_of c)).
Proof.
  unfold typed_creation, event_of. intros <-. by destruct (tgc_description c).
Qed.

Lemma ValidateDescription_typed gs c : typed_creation c -> typed_creation (ValidateDescription gs c).
Proof. unfold typed_creation. destruct c as [? ? ? d ?]. by destruct d. Qed.

Lemma ValidateDescription_event gs c : event_of (ValidateDescription gs c) = event_of c.
Proof. destruct c as [? ? ? d ?]. by destruct d. Qed.

Definition bet_insert (o : option Z) (id : CTokenGroupID) (bets : gmap Z CTokenGroupID) : gmap Z CTokenGroupID :=
  match o with Some e => <[e := id]> bets | None => bets end.

(** AddTokenGroups on a typed creation that is new, and the rest. *)
Lemma AddTokenGroups_cons m c l r :
  typed_creation c -> AddTokenGroups m (c :: l) = Some (r, true) ->
  let c' := ValidateDescription (groups m) c in
  mapTokenGroups m !! tgc_id c = None /\ (forall e, event_of c = Some e -> mapBetTokens m !! e = None) /\
  AddTokenGroups ((StoreManagementTokenGroups m c').1
      <| mapTokenGroups := <[tgc_id c := c']> (mapTokenGroups m) |>
      <| mapBetTokens := bet_insert (event_of c) (tgc_id c) (mapBetTokens m) |>) l = Some (r, true).
Proof.
  intros Hty H. cbn [AddTokenGroups] in H. set (c' := ValidateDescription (groups m) c) in *.
  pose proof (ValidateDescription_typed (groups m) c Hty) as Hty'. fold c' in Hty'.
  pose proof (ValidateDescription_event (groups m) c) as Hev. fold c' in Hev.
  change (tgc_id c') with (tgc_id c) in H.
  destruct (Store_maps m c') as (E1 & E2 & _). rewrite E1 in H.
  destruct (mapTokenGroups m !! tgc_id c) eqn:Em; [done|]. intros c''. split; [done|].
  rewrite typed_betting, Hev in H by done. unfold event_of in Hev at 1.
  destruct (event_of c) as [e|] eqn:Ee.
  - rewrite bool_decide_eq_true_2 in H by (by eexists). destruct (tgc_description c'); try done.
    injection Hev as Hev. rewrite Hev in H. cbn [mapBetTokens set_field] in H. cbn in H. rewrite E2 in H.
    destruct (mapBetTokens m !! e) eqn:Eb; [done|]. split; [by intros ? [= <-]|].
    cbn [bet_insert]. exact H.
  - rewrite bool_decide_eq_false_2 in H by (by intros []). split; [done|]. cbn [bet_insert].
    subst c''. rewrite <- E2. destruct (StoreManagementTokenGroups m c').1 eqn:Es. exact H.
Qed.

(** The manager after one creation. *)
Definition add_step (m : CTokenGroupManager) (c : CTokenGroupCreation) : CTokenGroupManager :=
  let c' := ValidateDescription (groups m) c in
  (StoreManagementTokenGroups m c').1
    <| mapTokenGroups := <[tgc_id c := c']> (mapTokenGroups m) |>
    <| mapBetTokens := bet_insert (event_of c) (tgc_id c) (mapBetTokens m) |>.

Lemma add_step_known m c id : is_Some (mapTokenGroups m !! id) -> is_Some (mapTokenGroups (add_step m c) !! id).
Proof.
  intros H. cbn. destruct (decide (id = tgc_id c)) as [->|]; [rewrite lookup_insert_eq; by eexists|].
  by rewrite lookup_insert_ne.
Qed.

Lemma add_step_self m c : mapTokenGroups (add_step m c) !! tgc_id c = Some (ValidateDescription (groups m) c).
Proof. cbn. apply lookup_insert_eq. Qed.

Lemma add_step_management m c :
  let m' := add_step m c in
  (tgMGTCreation m' = tgMGTCreation m /\ tgORATCreation m' = tgORATCreation m) \/
  (exists c', tgc_id c' = tgc_id c /\ tgMGTCreation m = None /\ tgMGTCreation m' = Some c' /\
     tgORATCreation m' = tgORATCreation m) \/
  (exists c', tgc_id c' = tgc_id c /\ tgORATCreation m = None /\ tgORATCreation m' = Some c' /\
     tgMGTCreation m' = tgMGTCreation m).
Proof.
  cbn. destruct (Store_management m (ValidateDescription (groups m) c)) as [H|[H|H]]; cbn in H; [by left|..];
    right; [left|right]; exists (ValidateDescription (groups m) c); destruct H as (? & ? & ?); by split_and!.
Qed.

Lemma add_step_ok m c : manager_ok m -> mapTokenGroups m !! tgc_id c = None -> manager_ok (add_step m c).
Proof.
  intros Hm Hnew. pose proof (add_step_self m c) as Hself.
  assert (forall c1, is_Some (mapTokenGroups m !! tgc_id c1) -> tgc_id c1 <> tgc_id c) as Hne.
  { intros c1 [x Hx] E. rewrite E in Hx. congruence. }
  split.
  - intros id x. cbn. destruct (decide (id = tgc_id c)) as [->|].
    + rewrite lookup_insert_eq. by intros [= <-].
    + rewrite lookup_insert_ne by done. apply Hm.
  - assert (forall id c1, mapTokenGroups m !! id = Some c1 -> valid_creation c1 -> id <> tgc_id c ->
      ticker_of (ValidateDescription (groups m) c) = ticker_of c1 -> ticker_of c1 = []) as Hnew_ticker.
    { intros id c1 H1 Hv Hid. apply ValidateDescription_ticker; [apply elem_of_groups; by exists id|done|].
      by rewrite (mo_keys _ Hm _ _ H1). }
    intros id1 id2 c1 c2. cbn. intros H1 H2 Hid Hv1 Hv2 Ht.
    destruct (decide (id1 = tgc_id c)) as [->|]; [|destruct (decide (id2 = tgc_id c)) as [->|]].
    + rewrite lookup_insert_eq in H1. rewrite lookup_insert_ne in H2 by done. simplify_eq.
      rewrite Ht. by eapply Hnew_ticker.
    + rewrite lookup_insert_eq in H2. rewrite lookup_insert_ne in H1 by done. simplify_eq. by eapply Hnew_ticker.
    + rewrite lookup_insert_ne in H1, H2 by done. by eapply (mo_tickers m Hm id1 id2).
  - intros x Hx. destruct (add_step_management m c) as [[E _]|[(c' & E1 & _ & E2 & _)|(c' & E1 & _ & _ & E)]].
    + rewrite E in Hx. apply add_step_known. by apply (mo_mgt m Hm).
    + rewrite E2 in Hx. simplify_eq. rewrite E1, Hself. by eexists.
    + rewrite E in Hx. apply add_step_known. by apply (mo_mgt m Hm).
  - intros x Hx. destruct (add_step_management m c) as [[_ E]|[(c' & E1 & _ & _ & E)|(c' & E1 & _ & E2 & _)]].
    + rewrite E in Hx. apply add_step_known. by apply (mo_orat m Hm).
    + rewrite E in Hx. apply add_step_known. by apply (mo_orat m Hm).
    + rewrite E2 in Hx. simplify_eq. rewrite E1, Hself. by eexists.
  - intros x y Hx Hy.
    destruct (add_step_management m c) as [[E1 E2]|[(c' & E & _ & E1 & E2)|(c' & E & _ & E2 & E1)]];
      rewrite E1 in Hx; rewrite E2 in Hy.
    + by apply (mo_distinct m Hm).
    + simplify_eq. rewrite E. intros H. apply (Hne y); [by apply (mo_orat m Hm)|done].
    + simplify_eq. rewrite E. apply Hne. by apply (mo_mgt m Hm).
  - intros e id. cbn [mapBetTokens add_step set_field]. cbn. destruct (event_of c) as [e0|]; cbn.
    + destruct (decide (e = e0)) as [->|].
      * rewrite lookup_insert_eq. intros [= <-]. rewrite lookup_insert_eq. by eexists.
      * rewrite lookup_insert_ne by done. intros H. apply (add_step_known m c). by eapply mo_bets.
    + intros H. apply (add_step_known m c). by eapply mo_bets.
Qed.

(** Every group of a list, and its event, is new when its turn comes. *)
Definition fresh_list (m : CTokenGroupManager) (l : list CTokenGroupCreation) : Prop :=
  forall l1 c l2, l = l1 ++ c :: l2 ->
    mapTokenGroups (foldl add_step m l1) !! tgc_id c = None /\
    forall e, event_of c = Some e -> mapBetTokens (foldl add_step m l1) !! e = None.

(** The groups of a list that AddTokenGroups takes in are processed one by
    one. *)
Lemma AddTokenGroups_steps m l r :
  Forall typed_creation l -> AddTokenGroups m l = Some (r, true) -> r = foldl add_step m l /\ fresh_list m l.
Proof.
  unfold fresh_list. intros Hl. revert m. induction Hl as [|c l Hc Hl IH]; intros m H.
  { cbn in H. simplify_eq. split; [done|]. intros l1 c l2 E. by destruct l1. }
  apply AddTokenGroups_cons in H as (H1 & H2 & H3); [|done]. apply (IH (add_step m c)) in H3 as [-> H3].
  split; [done|]. intros l1 x l2 E. destruct l1 as [|y l1]; simplify_eq/=; [done|]. by apply (H3 l1 x l2).
Qed.

Lemma foldl_add_ok m l : manager_ok m -> fresh_list m l -> manager_ok (foldl add_step m l).
Proof.
  revert m. induction l as [|c l IH]; intros m Hm Hnew; [done|]. cbn [foldl]. apply IH.
  - apply add_step_ok; [done|]. by apply (Hnew [] c l).
  - intros l1 x l2 ->. by apply (Hnew (c :: l1) x l2).
Qed.

(** The manager stays well-formed: whatever groups a block or the database
    brings, when AddTokenGroups accepts them, groups are stored under their
    identifiers, no two valid groups have the same ticker up to case, the
    management tokens and the groups of betting events are known, and the two
    management tokens differ. *)
Theorem AddTokenGroups_ok m l r :
  manager_ok m -> Forall typed_creation l -> AddTokenGroups m l = Some (r, true) -> manager_ok r.
Proof. intros Hm Hl H. apply AddTokenGroups_steps in H as [-> Hnew]; [|done]. by apply foldl_add_ok. Qed.

(** ** The block that was applied *)
Lemma foldl_add_other m l k :
  k ∉ tgc_id <$> l -> mapTokenGroups (foldl add_step m l) !! k = mapTokenGroups m !! k.
Proof.
  revert m. induction l as [|c l IH]; intros m Hk; [done|]. csimpl in Hk. apply not_elem_of_cons in Hk as [H1 H2].
  cbn [foldl]. rewrite IH by done. cbn. by rewrite lookup_insert_ne.
Qed.

Lemma foldl_add_known m l k :
  is_Some (mapTokenGroups m !! k) \/ k ∈ tgc_id <$> l -> is_Some (mapTokenGroups (foldl add_step m l) !! k).
Proof.
  revert m. induction l as [|c l IH]; intros m Hk; cbn [foldl].
  - destruct Hk as [?|Hk]; [done|]. by apply not_elem_of_nil in Hk.
  - apply IH. destruct Hk as [Hk|Hk]; [left; by apply add_step_known|]. csimpl in Hk.
    apply elem_of_cons in Hk as [->|Hk]; [left|by right]. rewrite add_step_self. by eexists.
Qed.

Lemma foldl_add_bets m l e :
  e ∉ omap event_of l -> mapBetTokens (foldl add_step m l) !! e = mapBetTokens m !! e.
Proof.
  revert m. induction l as [|c l IH]; intros m He; [done|]. cbn [foldl]. csimpl in He.
  destruct (event_of c) as [e'|] eqn:Ee; cbn in He.
  - apply not_elem_of_cons in He as [H1 H2]. rewrite IH by done. cbn. rewrite Ee. cbn. by rewrite lookup_insert_ne.
  - rewrite IH by done. cbn. by rewrite Ee.
Qed.

Lemma foldl_add_bets_known m l e :
  is_Some (mapBetTokens m !! e) \/ e ∈ omap event_of l -> is_Some (mapBetTokens (foldl add_step m l) !! e).
Proof.
  revert m. induction l as [|c l IH]; intros m He; cbn [foldl].
  - destruct He as [?|He]; [done|]. by apply not_elem_of_nil in He.
  - apply IH. csimpl in He. destruct (event_of c) as [e'|] eqn:Ee; cbn in He.
    + destruct (decide (e = e')) as [->|].
      * left. cbn. rewrite Ee. cbn. rewrite lookup_insert_eq. by eexists.
      * destruct He as [He|He]; [left|right; by apply elem_of_cons in He as [?|?]].
        cbn. rewrite Ee. cbn. by rewrite lookup_insert_ne.
    + destruct He as [He|He]; [left|by right]. cbn. by rewrite Ee.
Qed.

Lemma fresh_list_ids m l :
  fresh_list m l ->
  NoDup (tgc_id <$> l) /\ forall id, id ∈ tgc_id <$> l -> mapTokenGroups m !! id = None.
Proof.
  intros Hfresh.
  assert (forall i j c c', l !! i = Some c -> l !! j = Some c' -> tgc_id c = tgc_id c' -> ~ (i < j)%nat) as Hlt.
  { intros i j c c' Hi Hj Hid Hij. apply list_elem_of_split_length in Hj as (l1 & l2 & -> & ->).
    destruct (Hfresh l1 c' l2 eq_refl) as [H _]. rewrite lookup_app_l in Hi by done.
    destruct (foldl_add_known m l1 (tgc_id c)) as [x Hx].
    - right. apply list_elem_of_fmap_2. by eapply list_elem_of_lookup_2.
    - rewrite Hid in Hx. congruence. }
  split.
  - apply NoDup_alt. intros i j id Hi Hj. rewrite list_lookup_fmap, fmap_Some in Hi, Hj.
    destruct Hi as (c & Hi & ->), Hj as (c' & Hj & Hid).
    pose proof (Hlt i j c c' Hi Hj Hid). pose proof (Hlt j i c' c Hj Hi (eq_sym Hid)). lia.
  - intros id Hid. apply list_elem_of_fmap in Hid as (c & -> & Hc). apply list_elem_of_split in Hc as (l1 & l2 & ->).
    destruct (Hfresh l1 c l2 eq_refl) as [H _]. destruct (mapTokenGroups m !! tgc_id c) as [x|] eqn:Ex; [|done].
    destruct (foldl_add_known m l1 (tgc_id c)) as [y Hy]; [left; by eexists|]. congruence.
Qed.

Lemma fresh_list_events m l e : fresh_list m l -> e ∈ omap event_of l -> mapBetTokens m !! e = None.
Proof.
  intros Hfresh He. apply list_elem_of_omap in He as (c & Hc & Hce). apply list_elem_of_split in Hc as (l1 & l2 & ->).
  destruct (Hfresh l1 c l2 eq_refl) as [_ H]. specialize (H e Hce).
  destruct (mapBetTokens m !! e) as [x|] eqn:Ex; [|done].
  destruct (foldl_add_bets_known m l1 e) as [y Hy]; [left; by eexists|]. congruence.
Qed.

Lemma foldl_add_new m l : newTokenGroups (foldl add_step m l) = newTokenGroups m.
Proof.
  revert m. induction l as [|c l IH]; intros m; [done|]. cbn [foldl]. rewrite IH. cbn. apply Store_maps.
Qed.

(** A management token after the block: as before, or a group of the block. *)
Definition new_or_same (ids : list CTokenGroupID) (before after : option CTokenGroupCreation) : Prop :=
  after = before \/ before = None /\ exists c, after = Some c /\ tgc_id c ∈ ids.

Lemma foldl_add_management m l :
  new_or_same (tgc_id <$> l) (tgMGTCreation m) (tgMGTCreation (foldl add_step m l)) /\
  new_or_same (tgc_id <$> l) (tgORATCreation m) (tgORATCreation (foldl add_step m l)).
Proof.
  assert (forall id ids b b', new_or_same ids b b' -> new_or_same (id :: ids) b b') as Hweak.
  { intros id ids b b' [?|(? & c & ? & ?)]; [by left|right]. split; [done|]. exists c. split; [done|].
    apply elem_of_cons. by right. }
  assert (forall (id : CTokenGroupID) ids c b, tgc_id c = id -> new_or_same ids (Some c) b ->
    new_or_same (id :: ids) None b) as Hset.
  { intros id ids c b Hid [->|[? _]]; [|done]. right. split; [done|]. exists c. split; [done|].
    apply elem_of_cons. by left. }
  revert m. induction l as [|c l IH]; intros m; [split; by left|]. cbn [foldl]. csimpl.
  destruct (IH (add_step m c)) as [H1 H2].
  destruct (add_step_management m c) as [[E1 E2]|[(c' & E & E0 & E1 & E2)|(c' & E & E0 & E2 & E1)]];
    rewrite E1 in H1; rewrite E2 in H2; rewrite ?E0; split; eauto.
Qed.

(** ** The block that is undone *)
Definition remove_one (m : CTokenGroupManager) (g : CTokenGroupID * option Z) : CTokenGroupManager :=
  let m := match g.2 with Some e => m <| mapBetTokens := delete e (mapBetTokens m) |> | None => m end in
  let m := if MatchesMGT m (g.1) then m <| tgMGTCreation := None |>
           else if MatchesORAT m (g.1) then m <| tgORATCreation := None |> else m in
  m <| mapTokenGroups := delete (g.1) (mapTokenGroups m) |>.

Section Undo.
Context (bls_ok : list Z -> bool).

(** The group and the event of a transaction that creates a group. *)
Definition tx_group (tx : CSpecialTx) : option (CTokenGroupID * option Z) :=
  if negb (tx_nVersion tx =? 3) || negb (is_group_creation_type (tx_nType tx)) then None
  else '(info, desc) ← GetTokenConfigurationParameters bls_ok tx;
       Some (gi_associatedGroup info, match desc with TGBetting d => Some (bt_nEventId d) | _ => None end).

Lemma RemoveTokenGroup_one m tx g :
  tx_group tx = Some g -> is_Some (mapTokenGroups m !! g.1) ->
  RemoveTokenGroup bls_ok m tx = (remove_one m g, Some (g.1)).
Proof.
  unfold tx_group, RemoveTokenGroup. intros H [c Hc].
  destruct (is_group_creation_type _); [|by rewrite orb_true_r in H].
  case_match; [done|]. destruct (GetTokenConfigurationParameters bls_ok tx) as [[info desc]|]; [|done].
  cbn in H. simplify_eq. cbn [fst snd] in *. unfold remove_one. cbn [fst snd].
  set (m1 := match desc with TGBetting d => _ | _ => _ end).
  assert (mapTokenGroups m1 = mapTokenGroups m) as E1 by (unfold m1; by destruct desc).
  replace (match match desc with TGBetting d => Some (bt_nEventId d) | _ => None end with
           | Some e => m <| mapBetTokens := delete e (mapBetTokens m) |> | None => m end) with m1
    by (unfold m1; by destruct desc).
  clearbody m1. destruct (MatchesMGT m1 _); [|destruct (MatchesORAT m1 _)]; cbn; by rewrite E1, Hc.
Qed.

Lemma remove_one_other m g k : k <> g.1 -> mapTokenGroups (remove_one m g) !! k = mapTokenGroups m !! k.
Proof.
  intros Hk. unfold remove_one. destruct (g.2); repeat case_match; cbn; by rewrite lookup_delete_ne.
Qed.

(** The groups of the transactions are removed, each of them once. *)
Lemma remove_groups_fold m vtx :
  let L := omap tx_group vtx in
  NoDup L.*1 -> (forall id, id ∈ L.*1 -> is_Some (mapTokenGroups m !! id)) ->
  (forall tx, tx ∈ vtx -> tx_nVersion tx = 3 -> is_group_creation_type (tx_nType tx) = true ->
     is_Some (tx_group tx)) ->
  remove_groups bls_ok m vtx = (foldl remove_one m L, L.*1).
Proof.
  cbv zeta. revert m. induction vtx as [|tx vtx IH]; intros m Hnd Hin Hall; [done|].
  cbn [remove_groups]. csimpl in *.
  assert (forall tx', tx' ∈ vtx -> tx_nVersion tx' = 3 -> is_group_creation_type (tx_nType tx') = true ->
    is_Some (tx_group tx')) as Hall' by (intros; apply Hall; [by apply elem_of_cons; right|done..]).
  destruct (Z.eqb_spec (tx_nVersion tx) 3) as [Ev|Ev]; cbn [negb].
  - destruct (tx_group tx) as [g|] eqn:Eg.
    + csimpl in *. apply NoDup_cons in Hnd as [Hni Hnd].
      rewrite (RemoveTokenGroup_one m tx g Eg) by (apply Hin, elem_of_cons; by left).
      rewrite IH; [done|done| |done]. intros id Hid. rewrite remove_one_other by (intros ->; done).
      apply Hin, elem_of_cons. by right.
    + assert (is_group_creation_type (tx_nType tx) = false) as Et.
      { destruct (is_group_creation_type (tx_nType tx)) eqn:E; [|done].
        destruct (Hall tx) as [g Hg]; [by apply elem_of_cons; left|done..|]. congruence. }
      unfold RemoveTokenGroup. rewrite Et. rewrite IH by done. done.
  - replace (tx_group tx) with (@None (CTokenGroupID * option Z)) in *; [by apply IH|].
    unfold tx_group. apply Z.eqb_neq in Ev. by rewrite Ev.
Qed.
End Undo.

Lemma remove_one_fields m g :
  mapTokenGroups (remove_one m g) = delete (g.1) (mapTokenGroups m) /\
  mapBetTokens (remove_one m g) = match g.2 with Some e => delete e (mapBetTokens m) | None => mapBetTokens m end /\
  tgMGTCreation (remove_one m g) = (if MatchesMGT m (g.1) then None else tgMGTCreation m) /\
  tgORATCreation (remove_one m g) =
    (if MatchesMGT m (g.1) then tgORATCreation m
     else if MatchesORAT m (g.1) then None else tgORATCreation m) /\
  newTokenGroups (remove_one m g) = newTokenGroups m.
Proof.
  unfold remove_one, MatchesMGT, MatchesORAT. destruct g as [id [e|]]; cbn;
    destruct (matches (tgMGTCreation m) id) eqn:E1; cbn; rewrite ?E1; cbn; try (by split_and!);
    destruct (matches (tgORATCreation m) id) eqn:E2; cbn; rewrite ?E1, ?E2; by split_and!.
Qed.

Lemma foldl_remove_maps m L :
  (forall k, mapTokenGroups (foldl remove_one m L) !! k =
     if bool_decide (k ∈ L.*1) then None else mapTokenGroups m !! k) /\
  (forall e, mapBetTokens (foldl remove_one m L) !! e =
     if bool_decide (e ∈ omap snd L) then None else mapBetTokens m !! e) /\
  newTokenGroups (foldl remove_one m L) = newTokenGroups m.
Proof.
  revert m. induction L as [|g L IH]; intros m; [done|]. cbn [foldl].
  destruct (IH (remove_one m g)) as (H1 & H2 & H3). destruct (remove_one_fields m g) as (E1 & E2 & _ & _ & E5).
  split_and!.
  - intros k. rewrite H1, E1. csimpl. destruct (decide (k = g.1)) as [->|].
    + rewrite (bool_decide_eq_true_2 (g.1 ∈ g.1 :: L.*1)) by (apply elem_of_cons; by left).
      rewrite lookup_delete_eq. by destruct (bool_decide _).
    + rewrite lookup_delete_ne by done.
      rewrite (bool_decide_ext (k ∈ g.1 :: L.*1) (k ∈ L.*1)); [done|]. rewrite elem_of_cons. naive_solver.
  - intros e. rewrite H2, E2. csimpl. destruct (g.2) as [e'|]; [|done].
    destruct (decide (e = e')) as [->|].
    + rewrite (bool_decide_eq_true_2 (e' ∈ e' :: omap snd L)) by (apply elem_of_cons; by left).
      rewrite lookup_delete_eq. by destruct (bool_decide _).
    + rewrite lookup_delete_ne by done.
      rewrite (bool_decide_ext (e ∈ e' :: omap snd L) (e ∈ omap snd L)); [done|]. rewrite elem_of_cons. naive_solver.
  - by rewrite H3.
Qed.

(** A management token of the block is reset, another one stays. *)
Definition reset_in (ids : list CTokenGroupID) (o : option CTokenGroupCreation) : option CTokenGroupCreation :=
  match o with Some c => if bool_decide (tgc_id c ∈ ids) then None else o | None => None end.

Lemma reset_in_cons id ids o : reset_in (id :: ids) o = reset_in ids (if matches o id then None else o).
Proof.
  destruct o as [c|]; [|done]. cbn. case_bool_decide as H1; case_bool_decide as H2; cbn; try done.
  - apply elem_of_cons in H1 as [H1|H1]; [congruence|]. by rewrite bool_decide_eq_true_2.
  - destruct H1. apply elem_of_cons. by left.
  - rewrite bool_decide_eq_false_2; [done|]. intros H3. apply H1, elem_of_cons. by right.
Qed.

Lemma foldl_remove_management m L :
  (forall c1 c2, tgMGTCreation m = Some c1 -> tgORATCreation m = Some c2 -> tgc_id c1 <> tgc_id c2) ->
  tgMGTCreation (foldl remove_one m L) = reset_in L.*1 (tgMGTCreation m) /\
  tgORATCreation (foldl remove_one m L) = reset_in L.*1 (tgORATCreation m).
Proof.
  revert m. induction L as [|g L IH]; intros m Hd.
  { unfold reset_in. cbn. by repeat case_match. }
  cbn [foldl]. csimpl. destruct (remove_one_fields m g) as (_ & _ & E3 & E4 & _).
  assert (tgORATCreation (remove_one m g) = if MatchesORAT m (g.1) then None else tgORATCreation m) as E4'.
  { rewrite E4. unfold MatchesMGT, MatchesORAT, matches.
    destruct (tgMGTCreation m) as [c1|]; [|done]. case_bool_decide as H1; [|done].
    destruct (tgORATCreation m) as [c2|]; [|done]. rewrite bool_decide_eq_false_2; [done|].
    intros H2. by apply (Hd c1 c2); [done..|congruence]. }
  destruct (IH (remove_one m g)) as [H1 H2].
  { intros c1 c2. rewrite E3, E4'. repeat case_match; try done. apply Hd. }
  rewrite H1, H2, E3, E4'. unfold MatchesMGT, MatchesORAT. by rewrite !reset_in_cons.
Qed.

Lemma reset_in_new ids before after :
  new_or_same ids before after -> (forall c, before = Some c -> tgc_id c ∉ ids) -> reset_in ids after = before.
Proof.
  intros [->|(-> & c & -> & Hc)] Hb; cbn.
  - destruct before as [c|]; [|done]. cbn. by rewrite bool_decide_eq_false_2 by auto.
  - by rewrite bool_decide_eq_true_2.
Qed.

(** ** The database *)
Lemma Write_lookup db l k :
  k ∉ tgc_id <$> l -> WriteTokenGroupsBatch db l !! k = db !! k.
Proof.
  unfold WriteTokenGroupsBatch. revert db. induction l as [|c l IH]; intros db Hk; [done|]. csimpl in Hk.
  apply not_elem_of_cons in Hk as [H1 H2]. cbn [foldl]. rewrite IH by done. by rewrite lookup_insert_ne.
Qed.

Lemma Erase_lookup db ids k :
  EraseTokenGroupBatch db ids !! k = if bool_decide (k ∈ ids) then None else db !! k.
Proof.
  unfold EraseTokenGroupBatch. revert db. induction ids as [|id ids IH]; intros db; [done|]. cbn [foldl].
  rewrite IH. destruct (decide (k = id)) as [->|].
  - rewrite (bool_decide_eq_true_2 (id ∈ id :: ids)) by (apply elem_of_cons; by left).
    rewrite lookup_delete_eq. by destruct (bool_decide _).
  - rewrite lookup_delete_ne by done. rewrite (bool_decide_ext (k ∈ id :: ids) (k ∈ ids)); [done|].
    rewrite elem_of_cons. naive_solver.
Qed.

Lemma Erase_Write db l :
  (forall c, c ∈ l -> db !! tgc_id c = None) ->
  EraseTokenGroupBatch (WriteTokenGroupsBatch db l) (tgc_id <$> l) = db.
Proof.
  intros Hl. apply map_eq. intros k. rewrite Erase_lookup. case_bool_decide as Hk; [|by apply Write_lookup].
  apply list_elem_of_fmap in Hk as (c & -> & Hc). by rewrite Hl.
Qed.

(** ** What is collected from a block *)
Lemma payload_type bls_ok tx d : GetTxPayload bls_ok tx = Some d -> SPECIALTX_TYPE d = tx_nType tx.
Proof.
  unfold GetTxPayload. intros H. repeat case_match; try done; apply fmap_Some in H as (x & _ & ->); cbn; lia.
Qed.

Lemma collect_groups_spec bls_ok h vtx acc l :
  collect_groups bls_ok h vtx acc = (l, true) ->
  exists l', l = acc ++ l' /\ Forall typed_creation l' /\
    omap (tx_group bls_ok) vtx = (fun c => (tgc_id c, event_of c)) <$> l' /\
    forall tx, tx ∈ vtx -> tx_nVersion tx = 3 -> is_group_creation_type (tx_nType tx) = true ->
      is_Some (tx_group bls_ok tx).
Proof.
  revert acc. induction vtx as [|tx vtx IH]; intros acc H.
  { cbn in H. simplify_eq. exists []. rewrite app_nil_r. split_and!; [done..|]. intros tx Htx.
    by apply not_elem_of_nil in Htx. }
  cbn [collect_groups] in H. unfold tx_group at 1. csimpl. fold (tx_group bls_ok).
  destruct (negb (tx_nVersion tx =? 3) || negb (is_group_creation_type (tx_nType tx))) eqn:Eq.
  - apply IH in H as (l' & -> & H1 & H2 & H3). exists l'. split_and!; [done..|].
    intros tx' [->|Htx']%elem_of_cons Hv Ht; [|by apply H3].
    rewrite Hv, Ht in Eq. done.
  - unfold CreateTokenGroup in H. apply orb_false_iff in Eq as Eq'. destruct Eq' as [_ Et].
    apply negb_false_iff in Et. rewrite Et in H.
    destruct (GetTokenConfigurationParameters bls_ok tx) as [[info desc]|] eqn:Eg; [|done].
    cbn [mbind option_bind] in H. set (c := Build_CTokenGroupCreation tx h info desc []) in *.
    apply IH in H as (l' & -> & H1 & H2 & H3). exists (c :: l'). rewrite <- app_assoc. split_and!; [done| | |].
    + constructor; [|done]. unfold typed_creation. cbn. unfold GetTokenConfigurationParameters in Eg.
      destruct (new_token_group _ _) as [[i|]|]; try done. apply fmap_Some in Eg as (d & Ed & [= -> ->]).
      by eapply payload_type.
    + cbn. by rewrite H2.
    + intros tx' [->|Htx']%elem_of_cons Hv Ht; [|by apply H3]. unfold tx_group. rewrite Eq, Eg. by eexists.
Qed.

(** Adding the groups of a list and removing them gives back the manager. *)
Lemma remove_add m l L :
  manager_ok m -> fresh_list m l -> L = (fun c => (tgc_id c, event_of c)) <$> l ->
  foldl remove_one (foldl add_step m l) L = m.
Proof.
  intros Hm Hf HL. assert (L.*1 = tgc_id <$> l) as HL1 by (rewrite HL, <- list_fmap_compose; done).
  assert (omap snd L = omap event_of l) as HL2.
  { rewrite HL. clear. induction l as [|c l IH]; [done|]. csimpl. destruct (event_of c); [by f_equal|done]. }
  destruct (fresh_list_ids m l Hf) as [_ Hids].
  pose proof (foldl_add_ok m l Hm Hf) as Hr. set (r := foldl add_step m l) in *.
  destruct (foldl_remove_maps r L) as (R1 & R2 & R3).
  destruct (foldl_remove_management r L) as (R4 & R5); [by apply (mo_distinct _ Hr)|].
  destruct (foldl_add_management m l) as [Hg1 Hg2]. rewrite HL1 in R1, R4, R5. rewrite HL2 in R2.
  rewrite (reset_in_new _ (tgMGTCreation m)) in R4 by
    (done || (intros c Hc Hin; destruct (mo_mgt m Hm c Hc) as [x Hx]; rewrite Hids in Hx by done; done)).
  rewrite (reset_in_new _ (tgORATCreation m)) in R5 by
    (done || (intros c Hc Hin; destruct (mo_orat m Hm c Hc) as [x Hx]; rewrite Hids in Hx by done; done)).
  assert (mapTokenGroups (foldl remove_one r L) = mapTokenGroups m) as R1'.
  { apply map_eq. intros k. rewrite R1. case_bool_decide as Hk; [by rewrite Hids|]. by apply foldl_add_other. }
  assert (mapBetTokens (foldl remove_one r L) = mapBetTokens m) as R2'.
  { apply map_eq. intros e. rewrite R2. case_bool_decide as He; [by rewrite (fresh_list_events m l)|].
    by apply foldl_add_bets. }
  unfold r in R3. rewrite foldl_add_new in R3. fold r in R3.
  destruct (foldl remove_one r L), m. cbn in *. by subst.
Qed.

(** newTokenGroups plays no part in adding and removing. *)
Lemma Store_set m c l :
  (StoreManagementTokenGroups (m <| newTokenGroups := l |>) c).1 =
  (StoreManagementTokenGroups m c).1 <| newTokenGroups := l |>.
Proof.
  unfold StoreManagementTokenGroups. destruct (tgc_description c); try done.
  change (tgMGTCreation (m <| newTokenGroups := l |>)) with (tgMGTCreation m).
  change (tgORATCreation (m <| newTokenGroups := l |>)) with (tgORATCreation m). cbv zeta.
  destruct (_ && _); [done|]. by destruct (_ && _).
Qed.

Lemma add_step_set m c l : add_step (m <| newTokenGroups := l |>) c = add_step m c <| newTokenGroups := l |>.
Proof.
  unfold add_step. change (groups (m <| newTokenGroups := l |>)) with (groups m). cbv zeta.
  by rewrite Store_set.
Qed.

Lemma foldl_add_set m cs l :
  foldl add_step (m <| newTokenGroups := l |>) cs = foldl add_step m cs <| newTokenGroups := l |>.
Proof. revert m. induction cs as [|c cs IH]; intros m; [done|]. cbn [foldl]. by rewrite add_step_set, IH. Qed.

(** C10: Undoing a block of token creations restores the manager and the database.
    For a well-formed manager and a block whose groups are new to the
    database: when the groups of the block are collected and applied, undoing
    the block gives back the manager, with both maps and both management
    tokens, and the database, whatever the kinds of the groups and their order
    in the block. *)
Theorem UndoBlock_restores bls_ok ATPStartHeight nHeight m db block m1 m2 db2 :
  manager_ok m -> newTokenGroups m = [] -> ATPStartHeight <= nHeight ->
  CollectTokensFromBlock bls_ok ATPStartHeight nHeight m block = (m1, true) ->
  (forall c, c ∈ newTokenGroups m1 -> db !! tgc_id c = None) ->
  ApplyTokensFromBlock m1 db = Some (m2, db2, true) ->
  UndoBlock bls_ok ATPStartHeight nHeight m2 db2 block = (m, db).
Proof.
  intros Hm Hnew Hh Hcol Hdb Happ. unfold CollectTokensFromBlock, UndoBlock in *.
  replace (ATPStartHeight <=? nHeight) with true in * by lia. cbn [negb] in *.
  destruct (collect_groups _ _ _ _) as [l ok] eqn:Ec. injection Hcol as <- ->.
  apply collect_groups_spec in Ec as (l' & -> & Hty & HL & Hall). cbn [app] in *. cbn in Hdb.
  unfold ApplyTokensFromBlock in Happ.
  change (Build_CTokenGroupManager _ _ _ _ l') with (m <| newTokenGroups := l' |>) in Happ.
  change (newTokenGroups (m <| newTokenGroups := l' |>)) with l' in Happ.
  destruct (AddTokenGroups _ l') as [[m' [|]]|] eqn:Ea; [|done..]. cbn [mbind option_bind] in Happ.
  injection Happ as <- <-.
  apply AddTokenGroups_steps in Ea as [-> Hfresh]; [|done]. rewrite foldl_add_set.
  assert (foldl add_step m l' <| newTokenGroups := l' |> <| newTokenGroups := [] |> = foldl add_step m l') as Er.
  { rewrite <- (foldl_add_new m l') in Hnew. destruct (foldl add_step m l'). cbn in Hnew. by subst. }
  match goal with |- context [remove_groups _ ?x _] => replace x with (foldl add_step m l') by exact (eq_sym Er) end.
  assert (fresh_list m l') as Hf.
  { intros l1 c l2 E. specialize (Hfresh l1 c l2 E). by rewrite foldl_add_set in Hfresh. }
  destruct (fresh_list_ids m l' Hf) as [Hnd Hids].
  assert ((omap (tx_group bls_ok) (tb_vtx block)).*1 = tgc_id <$> l') as HL1 by (rewrite HL, <- list_fmap_compose; done).
  rewrite remove_groups_fold; [|by rewrite HL1| |done].
  2: { rewrite HL1. intros id Hid. apply foldl_add_known. by right. }
  rewrite HL1, Erase_Write by done. by rewrite (remove_add m l').
Qed.

(** ** Fees *)
Lemma fee_outputs_valid vout acc :
  is_Some (foldl (fun acc txout =>
           '(tokensCreated, tokenOutputs) ← acc;
           let grp := CTokenGroupInfo_of (scriptPubKey txout) in
           if gi_invalid grp then None
           else Some (if isGroupCreation grp TokenGroupIdFlags_NONE && negb (hasFlag (gi_associatedGroup grp) MGT_TOKEN)
                      then u32 (tokensCreated + 1) else tokensCreated,
                      if 0 <? getAmount grp then u32 (tokenOutputs + 1) else tokenOutputs))
    acc vout : option (Z * Z)) <->
  is_Some acc /\ Forall (fun txout => gi_invalid (CTokenGroupInfo_of (scriptPubKey txout)) = false) vout.
Proof.
  revert acc. induction vout as [|txout vout IH]; intros acc; cbn [foldl]; [naive_solver|].
  rewrite IH, Forall_cons. destruct acc as [[a b]|]; cbn [mbind option_bind].
  - destruct (gi_invalid _); split; try naive_solver; intros [[? [=]] _].
  - split; intros [[? [=]] _].
Qed.

(** No fee is enforced: once the management token exists, CheckFees accepts a
    transaction exactly when none of its outputs is invalid, whatever it mints,
    melts or creates; before that it accepts everything. *)
Theorem CheckFees_spec m tx bal :
  CheckFees m tx bal = true <->
  tgMGTCreation m = None \/
  Forall (fun txout => gi_invalid (CTokenGroupInfo_of (scriptPubKey txout)) = false) (tx_vout tx).
Proof.
  unfold CheckFees. destruct (tgMGTCreation m); [|naive_solver].
  assert (is_Some (fee_outputs (tx_vout tx)) <->
    Forall (fun txout => gi_invalid (CTokenGroupInfo_of (scriptPubKey txout)) = false) (tx_vout tx)) as H.
  { unfold fee_outputs. rewrite fee_outputs_valid. naive_solver. }
  destruct (fee_outputs (tx_vout tx)) as [[a b]|].
  - destruct (fee_balances bal). naive_solver.
  - split; [done|]. intros [|HF]; [done|]. apply H in HF. by destruct HF.
Qed.

(** ** Reindexing and reloading *)

(** Reindexing fails on an authority with a nonce.  A transaction of another
    type with a creation output (CheckTokenGroups lets such a nonce pass when
    an authority of the group is spent) leaves a default creation, which is
    stored under the identifier of the native token: the reindex stops. *)
Theorem ReindexTokenDB_nonce bls_ok skip m db h (tx : CSpecialTx) chain :
  is_group_creation_type (tx_nType tx) = false -> IsAnyOutputGroupedCreation tx TokenGroupIdFlags_NONE = true ->
  skip tx = false ->
  exists m' db', ReindexTokenDB bls_ok skip m db (Some {| tb_hash := h; tb_vtx := [tx] |} :: chain) =
    Some (m', db', false).
Proof.
  intros Ht Hc Hs. unfold ReindexTokenDB. cbn [reindex_blocks reindex_groups tb_vtx tb_hash].
  rewrite Hs, Hc. cbn [negb andb]. unfold CreateTokenGroup. rewrite Ht. by do 2 eexists.
Qed.

(** A management token and a regular token with the same ticker, created
    after it, with a smaller identifier. *)
Definition mgt_creation : CTokenGroupCreation :=
  {| tgc_creationTransaction := CSpecialTx_init; tgc_creationBlockHash := 1;
     tgc_tokenGroupInfo := {| gi_associatedGroup := repeat 9 31 ++ [MGT_TOKEN]; gi_quantity := i64 ALL; gi_invalid := false |};
     tgc_description := TGMGT {| mgt_nVersion := 1; mgt_strTicker := bytes_of "MGT"; mgt_strName := bytes_of "Management";
       mgt_strDocumentUrl := []; mgt_documentHash := 0; mgt_nDecimalPos := 0; mgt_blsPubKey := repeat 1 48 |};
     tgc_status := [] |}.

Definition shadow_creation : CTokenGroupCreation :=
  {| tgc_creationTransaction := CSpecialTx_init; tgc_creationBlockHash := 2;
     tgc_tokenGroupInfo := {| gi_associatedGroup := repeat 1 31 ++ [0]; gi_quantity := i64 ALL; gi_invalid := false |};
     tgc_description := TGRegular {| reg_nVersion := 1; reg_strTicker := bytes_of "mgt"; reg_strName := bytes_of "Shadow";
       reg_strDocumentUrl := []; reg_documentHash := 0; reg_nDecimalPos := 0 |};
     tgc_status := [] |}.

(** The manager and the database after the two blocks that create them. *)
Definition two_blocks : option (CTokenGroupManager * CTokenDB * bool) :=
  '(m, db, _) ← ApplyTokensFromBlock (ResetTokenGroups CTokenGroupManager_init <| newTokenGroups := [mgt_creation] |>) ∅;
  ApplyTokensFromBlock (m <| newTokenGroups := [shadow_creation] |>) db.

(** Restarting can lose the management token.  The groups of the database are
    filtered in the order of their identifiers, not in that of their creation:
    a regular token that was given no ticker because the management token had
    it takes it after a restart, and there is no management token any more. *)
Theorem LoadTokensFromDB_loses_MGT :
  exists m db m', two_blocks = Some (m, db, true) /\ MGTTokensCreated m = true /\
    LoadTokensFromDB m db = Some (m', true) /\ MGTTokensCreated m' = false.
Proof.
  assert (match two_blocks with
          | Some (m, db, true) =>
              MGTTokensCreated m &&
              match LoadTokensFromDB m db with Some (m', true) => negb (MGTTokensCreated m') | _ => false end
          | _ => false
          end = true) as H by (vm_compute; reflexivity).
  destruct two_blocks as [[[m db] [|]]|]; [|done..]. apply andb_true_iff in H as [H1 H2].
  destruct (LoadTokensFromDB m db) as [[m' [|]]|] eqn:El; [|done..]. apply negb_true_iff in H2. by exists m, db, m'.
Qed.
