(* ===== verification/TokenCheck.v ===== *)
(** * The balance rules of tokens
    (src/src/consensus/tokengroups.cpp, the checks of
    src/src/tokens/tokengroupconfiguration.cpp, src/src/evo/verifiable.cpp)

    CheckTokenGroups goes over the outputs and the inputs of a transaction and
    adds up, for every group, the amounts and the permissions; then it gives
    subgroups what their parents allow, and checks every group.  The groups are
    in an unordered map: the order in which they are visited is the parameter
    [iter], about which nothing but being an order of the keys is assumed.  A
    rejection is a value of [TokenReject], named after the reason the code
    gives. *)

From S2P Require Import Prelude Serialize Params BetTx BetDB BetKeys Coins BetCommon TokenGroups TokenDesc TokenManager.

(** ** Results *)
Inductive TokenReject :=
  | bad_OP_GROUP
  | token_overflow
  | OP_GROUP_quantity_is_zero
  | already_spent
  | grp_invalid_protx_payload
  | grp_invalid_create
  | grp_invalid_token_flag
  | grp_invalid_tx
  | grp_invalid_melt
  | grp_invalid_mint
  | grp_invalid_bet_mint
  | grp_invalid_perm
  | token_group_imbalance
  | op_group_before_mgt_tokens
  | op_group_bad_mint
  | bad_protx_inputs_spent
  | bad_protx_grouped_outputs
  | premature_op_group_tx
  | grp_bad_tx
  | grp_bad_protx_type
  | grp_bad_protx_payload
  | grp_bad_param
  | grp_bad_key
  | grp_bad_data
  | grp_bad_event
  | grp_bad_version
  | grp_bad_token_signer
  | grp_bad_token_pubkey
  | grp_bad_token_signature
  | grp_bad_token_signertype
  | grp_bad_bet_amount
  | grp_bet_bad_odds
  | grp_bet_bad_costs
  | undefined_access.

#[export] Instance TokenReject_eq_dec : EqDecision TokenReject.
Proof. solve_decision. Defined.

Inductive result (A : Type) :=
  | Accepted (a : A)
  | Rejected (r : TokenReject).
Arguments Accepted {A} _.
Arguments Rejected {A} _.

#[export] Instance result_ret : MRet result := fun A => Accepted.
#[export] Instance result_fmap : FMap result := fun A B f r =>
  match r with Accepted a => Accepted (f a) | Rejected e => Rejected e end.
#[export] Instance result_bind : MBind result := fun A B f r =>
  match r with Accepted a => f a | Rejected e => Rejected e end.

Definition accepts {A} (r : result A) : bool := match r with Accepted _ => true | Rejected _ => false end.

(** A test that rejects for a reason when it fails. *)
Definition require (b : bool) (r : TokenReject) : result unit := if b then Accepted tt else Rejected r.

(** A value that must be there; [undefined_access] stands for an access past
    the end of a vector or through a null pointer. *)
Definition expect {A} (o : option A) (r : TokenReject) : result A :=
  match o with Some a => Accepted a | None => Rejected r end.

(** ** What tokens use of the node *)
Record TokenEnv := {
  te_chain :> ChainEnv;
  ATPStartHeight : Z;
  strTokenManagementKey : list Z;
  te_AccessCoin : COutPoint -> Coin;
  HaveInputs : CTransaction -> bool;
  HasZerocoinSpendInputs : CTransaction -> bool;
  Hash : list Z -> uint256;
  bls_ok : list Z -> bool;
  VerifyInsecure : list Z -> uint256 -> list Z -> bool;
}.

Abbreviation balances := (gmap CTokenGroupID CTokenGroupBalance).

(** The order of an unordered map. *)
Class MapOrder (iter : balances -> list CTokenGroupID) :=
  map_order m : iter m ≡ₚ (map_to_list m).*1.

Section CheckTokens.
Context (env : TokenEnv) (iter : balances -> list CTokenGroupID) (mgr : CTokenGroupManager).

Definition AnyInputsGrouped (tx : CTransaction) (nHeight : Z) (tgID : CTokenGroupID) : bool :=
  if IsGenerated env tx || HasZerocoinSpendInputs env tx then false
  else if negb (HaveInputs env tx) then false
  else if negb (ATPStartHeight env <=? nHeight) then false
  else
    let fix go (vin : list COutPoint) (anyInputsGrouped : bool) : bool :=
      match vin with
      | [] => anyInputsGrouped
      | prevout :: vin =>
          let coin := te_AccessCoin env prevout in
          if IsSpent coin then false
          else if coin_nHeight coin <? ATPStartHeight env then go vin anyInputsGrouped
          else
            let tokenGrp := CTokenGroupInfo_of (scriptPubKey (coin_out coin)) in
            if gi_invalid tokenGrp then go vin anyInputsGrouped
            else go vin (bool_decide (gi_associatedGroup tokenGrp = tgID) || anyInputsGrouped)
      end in
    go (tx_vin tx) false.

Definition IsTokenManagementKey (script : list Z) : bool :=
  if negb (MGTTokensCreated mgr)
  then bool_decide (EncodeDestination env (default CNoDestination (ExtractDestination env script)) =
                    strTokenManagementKey env)
  else false.

(** GetMGTID dereferences the creation that was just tested. *)
Definition IsMGTInput (script : list Z) : bool := MatchesMGT mgr (GetTokenGroup script).

(** ** CheckTokenGroups *)

(** gBalance[group], changed by [f]. *)
Definition upd_balance (group : CTokenGroupID) (f : CTokenGroupBalance -> CTokenGroupBalance)
    (gBalance : balances) : balances :=
  <[group := f (default CTokenGroupBalance_init (gBalance !! group))]> gBalance.

Definition balance_of (gBalance : balances) (group : CTokenGroupID) : CTokenGroupBalance :=
  default CTokenGroupBalance_init (gBalance !! group).

Definition CAmount_max : Z := 2 ^ 63 - 1.

(** One output of the first loop. *)
Definition output_step (outp : CTxOut) (gBalance : balances) :
    result (balances) :=
  let tokenGrp := CTokenGroupInfo_of (scriptPubKey outp) in
  let group := gi_associatedGroup tokenGrp in
  let quantity := gi_quantity tokenGrp in
  if gi_invalid tokenGrp then Rejected bad_OP_GROUP
  else if bool_decide (group = NoGroup) then Accepted gBalance
  else
    let gBalance := upd_balance group (fun b => b <| numOutputs := u64 (numOutputs b + 1) |>) gBalance in
    if 0 <? quantity then
      if CAmount_max - bal_output (balance_of gBalance group) <? quantity then Rejected token_overflow
      else Accepted (upd_balance group (fun b => b <| bal_output := bal_output b + quantity |>) gBalance)
    else if quantity =? 0 then Rejected OP_GROUP_quantity_is_zero
    else Accepted (upd_balance group (fun b => b <| ctrlOutputPerms := Z.lor (ctrlOutputPerms b) (u64 quantity) |>) gBalance).

Fixpoint check_outputs (vout : list CTxOut) (nWagerrOut : Z) (gBalance : balances) :
    result (Z * balances) :=
  match vout with
  | [] => Accepted (nWagerrOut, gBalance)
  | outp :: vout =>
      gBalance ← output_step outp gBalance;
      check_outputs vout (i64 (nWagerrOut + nValue outp)) gBalance
  end.

(** The part of the second loop that enters a grouped coin. *)
Definition input_step (script : list Z) (gBalance : balances) :
    result (balances) :=
  let tokenGrp := CTokenGroupInfo_of script in
  let group := gi_associatedGroup tokenGrp in
  let amount := gi_quantity tokenGrp in
  if gi_invalid tokenGrp then Accepted gBalance
  else
    let temp := controllingGroupFlags tokenGrp in
    let gBalance :=
      if temp =? GroupAuthorityFlags_NONE then gBalance
      else
        let gBalance :=
          if hasCapability temp CCHILD then
            let gBalance := upd_balance group
                              (fun b => b <| allowedCtrlOutputPerms := Z.lor (allowedCtrlOutputPerms b) temp |>) gBalance in
            if hasCapability temp SUBGROUP then
              upd_balance group (fun b => b <| allowedSubgroupCtrlOutputPerms :=
                                    Z.lor (allowedSubgroupCtrlOutputPerms b) temp |>) gBalance
            else gBalance
          else gBalance in
        upd_balance group (fun b => b <| ctrlPerms := Z.lor (ctrlPerms b) temp |>) gBalance in
    if bool_decide (group = NoGroup) then Accepted gBalance
    else
      let gBalance := upd_balance group (fun b => b <| numInputs := u64 (numInputs b + 1) |>) gBalance in
      let gBalance := if hasFlag group STICKY_MELT
                      then upd_balance group (fun b => b <| ctrlPerms := Z.lor (ctrlPerms b) MELT |>) gBalance
                      else gBalance in
      if isAuthority tokenGrp then Accepted gBalance
      else if CAmount_max - bal_input (balance_of gBalance group) <? amount then Rejected token_overflow
      else Accepted (upd_balance group (fun b => b <| bal_input := bal_input b + amount |>) gBalance).

(** {nWagerrIn, anyInputsGroupManagement, gBalance} *)
Fixpoint check_inputs (vin : list COutPoint) (nWagerrIn : Z) (anyInputsGroupManagement : bool)
    (gBalance : balances) :
    result (Z * bool * balances) :=
  match vin with
  | [] => Accepted (nWagerrIn, anyInputsGroupManagement, gBalance)
  | prevout :: vin =>
      let coin := te_AccessCoin env prevout in
      if IsSpent coin then Rejected already_spent
      else
        let nWagerrIn := i64 (nWagerrIn + nValue (coin_out coin)) in
        let script := scriptPubKey (coin_out coin) in
        let anyInputsGroupManagement := anyInputsGroupManagement || IsTokenManagementKey script in
        if coin_nHeight coin <? ATPStartHeight env
        then check_inputs vin nWagerrIn anyInputsGroupManagement gBalance
        else
          let anyInputsGroupManagement := anyInputsGroupManagement || IsMGTInput script in
          gBalance ← input_step script gBalance;
          check_inputs vin nWagerrIn anyInputsGroupManagement gBalance
  end.

(** What a subgroup gets from its parent, when that is in the map. *)
Definition inherit (parentData bal : CTokenGroupBalance) : CTokenGroupBalance :=
  let bal := if hasCapability (ctrlPerms parentData) SUBGROUP
             then bal <| ctrlPerms := Z.lor (ctrlPerms bal) (Z.land (ctrlPerms parentData) (flags_not SUBGROUP)) |>
             else bal in
  bal <| allowedCtrlOutputPerms := Z.lor (allowedCtrlOutputPerms bal)
           (Z.land (allowedSubgroupCtrlOutputPerms parentData) (flags_not SUBGROUP)) |>.

Definition subgroup_step (gBalance : balances) (group : CTokenGroupID) :
    balances :=
  if isSubgroup group then
    match gBalance !! parentGroup group with
    | Some parentData => upd_balance group (inherit parentData) gBalance
    | None => gBalance
    end
  else gBalance.

(** The bytes of a description under SER_GETHASH. *)
Definition hashed_desc (d : CTokenGroupDescriptionVariant) : list Z :=
  match d with
  | TGBetting d => CTokenGroupDescriptionBetting_hashed d
  | d => desc_bytes (bls_ok env) d
  end.

(** The identifier the creation of a group must have. *)
Definition new_group_id (tx : CSpecialTx) (ctrlOut : Z) : result CTokenGroupID :=
  prevout ← expect (head (tx_vin tx)) undefined_access;
  desc ← (if is_group_creation_type (tx_nType tx)
          then hashed_desc <$> expect (GetTxPayload (bls_ok env) tx) grp_invalid_protx_payload
          else Accepted []);
  Accepted (uint256_bytes (Hash env (Serialize COutPoint_codec prevout ++ desc ++
              ser_writedata64 (Z.land ctrlOut (flags_not ALL_BITS))))).

(** The permissions of a group that is created here. *)
Definition creation_perms (tx : CSpecialTx) (anyInputsGroupManagement : bool) (g : CTokenGroupID)
    (bal : CTokenGroupBalance) : result CTokenGroupBalance :=
  let has := hasFlag g in
  let set_perms p b := b <| allowedCtrlOutputPerms := p |> <| ctrlPerms := p |> in
  _ ← require (numOutputs bal =? 1) grp_invalid_create;
  bal ← (if negb (has MGT_TOKEN) && negb (has NFT_TOKEN) && negb (has BETTING_TOKEN) then
           _ ← require (tx_nType tx =? TRANSACTION_GROUP_CREATION_REGULAR) grp_invalid_token_flag;
           Accepted (set_perms ALL bal)
         else Accepted bal);
  bal ← (if has MGT_TOKEN && negb (has NFT_TOKEN) then
           _ ← require (tx_nType tx =? TRANSACTION_GROUP_CREATION_MGT) grp_invalid_token_flag;
           _ ← require anyInputsGroupManagement grp_invalid_tx;
           Accepted (set_perms ALL bal)
         else Accepted bal);
  bal ← (if has BETTING_TOKEN || has PARLAY_TOKEN then
           _ ← require (tx_nType tx =? TRANSACTION_GROUP_CREATION_BETTING) grp_invalid_token_flag;
           Accepted (set_perms ALL_BETTING bal)
         else Accepted bal);
  bal ← (if negb (has MGT_TOKEN) && has NFT_TOKEN then
           _ ← require (tx_nType tx =? TRANSACTION_GROUP_CREATION_NFT) grp_invalid_token_flag;
           Accepted (set_perms ALL_NFT bal)
         else Accepted bal);
  _ ← require (negb (has MGT_TOKEN && has NFT_TOKEN)) grp_invalid_token_flag;
  _ ← require (negb (has BETTING_TOKEN && (has MGT_TOKEN || has NFT_TOKEN))) grp_invalid_token_flag;
  _ ← require (negb (has STICKY_MELT) || anyInputsGroupManagement) grp_invalid_tx;
  Accepted bal.

Definition creation_step (tx : CSpecialTx) (anyInputsGroupManagement : bool) (g : CTokenGroupID)
    (bal : CTokenGroupBalance) : result CTokenGroupBalance :=
  if hasCapability (ctrlOutputPerms bal) CTRL && (ctrlPerms bal =? GroupAuthorityFlags_NONE) then
    newGrpId ← new_group_id tx (ctrlOutputPerms bal);
    if bool_decide (newGrpId = g) then creation_perms tx anyInputsGroupManagement g bal
    else
      _ ← require (Z.land (ctrlOutputPerms bal) (flags_not ALL_BITS) =? 0) grp_invalid_tx;
      Accepted bal
  else Accepted bal.

(** Mint, melt and the permissions of the outputs; [size] is gBalance.size(). *)
Definition balance_rules (size : nat) (g : CTokenGroupID) (bal : CTokenGroupBalance) : result unit :=
  let is_bet := hasFlag g BETTING_TOKEN || hasFlag g PARLAY_TOKEN in
  _ ← require (negb ((bal_output bal <? bal_input bal) && negb (hasCapability (ctrlPerms bal) MELT))) grp_invalid_melt;
  _ ← (if bal_input bal <? bal_output bal then
         _ ← require (negb (negb (hasCapability (ctrlPerms bal) MINT) && negb is_bet)) grp_invalid_mint;
         _ ← (if is_bet then
                _ ← require (negb ((0 <? numInputs bal) || (1 <? numOutputs bal))) grp_invalid_bet_mint;
                require (hasFlag g PARLAY_TOKEN || negb (1 <? size)%nat) grp_invalid_bet_mint
              else Accepted tt);
         require (negb (hasFlag g NFT_TOKEN && hasCapability (allowedCtrlOutputPerms bal) MINT)) grp_invalid_mint
       else Accepted tt);
  require (Z.land (Z.land (ctrlOutputPerms bal) ALL) (flags_not (Z.land (allowedCtrlOutputPerms bal) ALL)) =? 0)
    grp_invalid_perm.

Definition final_check (tx : CSpecialTx) (anyInputsGroupManagement : bool) (size : nat) (g : CTokenGroupID)
    (bal : CTokenGroupBalance) : result CTokenGroupBalance :=
  bal ← creation_step tx anyInputsGroupManagement g bal;
  _ ← balance_rules size g bal;
  Accepted bal.

Fixpoint final_checks (tx : CSpecialTx) (anyInputsGroupManagement : bool) (keys : list CTokenGroupID)
    (gBalance : balances) : result (balances) :=
  match keys with
  | [] => Accepted gBalance
  | g :: keys =>
      bal ← final_check tx anyInputsGroupManagement (size gBalance) g (balance_of gBalance g);
      final_checks tx anyInputsGroupManagement keys (<[g := bal]> gBalance)
  end.

(** {nWagerrIn, nWagerrOut, gBalance} *)
Definition CheckTokenGroups (tx : CSpecialTx) : result (Z * Z * balances) :=
  '(nWagerrOut, gBalance) ← check_outputs (tx_vout tx) 0 ∅;
  '(nWagerrIn, anyInputsGroupManagement, gBalance) ← check_inputs (tx_vin tx) 0 false gBalance;
  let gBalance := foldl subgroup_step gBalance (iter gBalance) in
  gBalance ← final_checks tx anyInputsGroupManagement (iter gBalance) gBalance;
  Accepted (nWagerrIn, nWagerrOut, gBalance).

(** ** GetTokenBalance: the credit and debit of ORAT subgroups *)
Definition is_credit (tokenGrp : CTokenGroupInfo) : bool :=
  negb (isAuthority tokenGrp) && isSubgroup (gi_associatedGroup tokenGrp) &&
  MatchesORAT mgr (parentGroup (gi_associatedGroup tokenGrp)) &&
  bool_decide (GetSubGroupData (gi_associatedGroup tokenGrp) = bytes_of "credit").

Definition GetTokenBalance (tx : CTransaction) : result (Z * Z) :=
  nCredit ← foldl (fun acc prevout =>
      nCredit ← acc;
      let coin := te_AccessCoin env prevout in
      if IsSpent coin then Rejected bad_protx_inputs_spent
      else if coin_nHeight coin <? ATPStartHeight env then Accepted nCredit
      else
        let tokenGrp := CTokenGroupInfo_of (scriptPubKey (coin_out coin)) in
        if negb (gi_invalid tokenGrp) && is_credit tokenGrp then Accepted (i64 (nCredit + gi_quantity tokenGrp))
        else Accepted nCredit) (Accepted 0) (tx_vin tx);
  nDebit ← foldl (fun acc outp =>
      nDebit ← acc;
      let tokenGrp := CTokenGroupInfo_of (scriptPubKey outp) in
      if gi_invalid tokenGrp then Rejected bad_protx_grouped_outputs
      else if is_credit tokenGrp then Accepted (i64 (nDebit + gi_quantity tokenGrp))
      else Accepted nDebit) (Accepted 0) (tx_vout tx);
  Accepted (nCredit, nDebit).

(** ** CheckTokens *)
Definition nft_check (g : CTokenGroupID) (bal : CTokenGroupBalance) : result unit :=
  if hasFlag g NFT_TOKEN && (0 <? bal_output bal) then
    tgCreation ← expect (GetTokenGroupCreation mgr g) op_group_bad_mint;
    match tgc_description tgCreation with
    | TGNFT tgDesc => require (nft_nMintAmount tgDesc =? u64 (bal_output bal - bal_input bal)) op_group_bad_mint
    | _ => Rejected undefined_access
    end
  else Accepted tt.

Fixpoint nft_checks (keys : list CTokenGroupID) (gBalance : balances) : result unit :=
  match keys with
  | [] => Accepted tt
  | g :: keys => _ ← nft_check g (balance_of gBalance g); nft_checks keys gBalance
  end.

Definition CheckTokens (tx : CSpecialTx) (nHeight : Z) : result (Z * Z * balances) :=
  if u32 (ATPStartHeight env) <=? u32 nHeight then
    '(nWagerrIn, nWagerrOut, gBalance) ← CheckTokenGroups tx;
    _ ← (if IsAnyOutputGrouped tx then
           _ ← require (CheckFees mgr tx gBalance) token_group_imbalance;
           if negb (ManagementTokensCreated mgr) then
             require (forallb (fun txout =>
                        let grp := CTokenGroupInfo_of (scriptPubKey txout) in
                        negb ((gi_invalid grp || negb (bool_decide (gi_associatedGroup grp = NoGroup))) &&
                              negb (hasFlag (gi_associatedGroup grp) MGT_TOKEN))) (tx_vout tx))
               op_group_before_mgt_tokens
           else Accepted tt
         else Accepted tt);
    _ ← nft_checks (iter gBalance) gBalance;
    Accepted (nWagerrIn, nWagerrOut, gBalance)
  else Accepted (0, 0, ∅).
End CheckTokens.
