(* ===== verification/TokenCheckProofs.v ===== *)
(** * Properties of the balance rules of tokens (TokenCheck.v) *)

From S2P Require Import Prelude Serialize Params BetTx BetDB BetKeys Coins BetCommon TokenGroups TokenDesc TokenManager TokenCheck.

#[local] Arguments isSubgroup : simpl never.
#[local] Arguments parentGroup : simpl never.
#[local] Arguments hasFlag : simpl never.

(** ** The order of the map does not matter *)
Definition to_option {A} (r : result A) : option A := match r with Accepted a => Some a | Rejected _ => None end.

Lemma bind_Accepted {A B} (r : result A) (f : A -> result B) b :
  r ≫= f = Accepted b <-> exists a, r = Accepted a /\ f a = Accepted b.
Proof. destruct r; cbn; naive_solver. Qed.

Lemma require_Accepted b r u : require b r = Accepted u <-> b = true.
Proof. destruct u, b; cbn; naive_solver. Qed.

Lemma upd_balance_eq g f m : upd_balance g f m !! g = Some (f (balance_of m g)).
Proof. apply lookup_insert_eq. Qed.

Lemma upd_balance_ne g g' f m : g' <> g -> upd_balance g f m !! g' = m !! g'.
Proof. intros. by apply lookup_insert_ne. Qed.

(** All groups at once: every subgroup gets what its parent allows. *)
Definition inherit_all (m : balances) : balances :=
  map_imap (fun g b => Some (if isSubgroup g
                             then match m !! parentGroup g with Some p => inherit p b | None => b end else b)) m.

Lemma subgroup_step_lookup m g k :
  is_Some (m !! g) ->
  subgroup_step m g !! k = if bool_decide (k = g) then inherit_all m !! k else m !! k.
Proof.
  intros [b Hb]. unfold subgroup_step, inherit_all. case_bool_decide as Hk.
  - subst k. rewrite map_lookup_imap, Hb. cbn. destruct (isSubgroup g); [|done].
    destruct (m !! parentGroup g); [|done]. rewrite upd_balance_eq. unfold balance_of. by rewrite Hb.
  - destruct (isSubgroup g); [|done]. destruct (m !! parentGroup g); [|done]. by rewrite upd_balance_ne.
Qed.

(** A parent is never a subgroup, so that a step keeps all parents. *)
Lemma subgroup_step_parent m g k :
  is_Some (m !! g) -> isSubgroup k = false -> subgroup_step m g !! k = m !! k.
Proof.
  intros Hg Hk. rewrite subgroup_step_lookup by done. case_bool_decide; [|done]. subst k.
  unfold inherit_all. rewrite map_lookup_imap. destruct (m !! g); cbn; [|done]. by rewrite Hk.
Qed.

Lemma foldl_subgroup_lookup keys m k :
  NoDup keys -> (forall g, g ∈ keys -> is_Some (m !! g)) ->
  foldl subgroup_step m keys !! k = if bool_decide (k ∈ keys) then inherit_all m !! k else m !! k.
Proof.
  intros Hnd. revert m. induction Hnd as [|g keys Hg Hnd IH]; intros m Hin; [done|]. cbn [foldl].
  assert (is_Some (m !! g)) as Hg' by (apply Hin, elem_of_cons; by left).
  assert (forall x, is_Some (m !! x) -> is_Some (subgroup_step m g !! x)) as Hk.
  { intros x Hx. rewrite subgroup_step_lookup by done. destruct (decide (x = g)) as [->|Hne].
    - rewrite bool_decide_eq_true_2 by done. unfold inherit_all. rewrite map_lookup_imap.
      destruct Hx as [b ->]. by eexists.
    - by rewrite bool_decide_eq_false_2. }
  rewrite IH by (intros x Hx; apply Hk, Hin, elem_of_cons; by right).
  destruct (decide (k = g)) as [->|Hne].
  - rewrite bool_decide_eq_false_2 by done. rewrite bool_decide_eq_true_2 by (apply elem_of_cons; by left).
    rewrite subgroup_step_lookup by done. by rewrite bool_decide_eq_true_2.
  - rewrite (bool_decide_ext (k ∈ g :: keys) (k ∈ keys)) by (rewrite elem_of_cons; naive_solver).
    rewrite subgroup_step_lookup by done. rewrite (bool_decide_eq_false_2 (k = g)) by done.
    case_bool_decide; [|done]. unfold inherit_all. rewrite !map_lookup_imap. rewrite (subgroup_step_lookup m g k) by done.
    rewrite (bool_decide_eq_false_2 (k = g)) by done. destruct (m !! k); cbn; [|done].
    rewrite subgroup_step_parent by (done || apply parentGroup_not_subgroup). done.
Qed.

Lemma foldl_subgroup keys m : keys ≡ₚ (map_to_list m).*1 -> foldl subgroup_step m keys = inherit_all m.
Proof.
  intros Hp. assert (NoDup keys) as Hnd by (rewrite Hp; apply NoDup_fst_map_to_list).
  assert (forall g, g ∈ keys <-> is_Some (m !! g)) as Hin.
  { intros g. rewrite Hp, list_elem_of_fmap. split.
    - intros ([k b] & -> & H). apply elem_of_map_to_list in H. by eexists.
    - intros [b H]. exists (g, b). by rewrite elem_of_map_to_list. }
  apply map_eq. intros k. rewrite foldl_subgroup_lookup; [|done|by intros; apply Hin].
  case_bool_decide as Hk; [done|]. unfold inherit_all. rewrite map_lookup_imap.
  destruct (m !! k) as [b|] eqn:E; [|done]. destruct Hk. apply Hin. by rewrite E.
Qed.

Section Final.
Context (env : TokenEnv) (tx : CSpecialTx) (any : bool).

Lemma final_checks_spec keys m :
  NoDup keys -> (forall g, g ∈ keys -> is_Some (m !! g)) ->
  match final_checks env tx any keys m with
  | Accepted m' =>
      forall g, if bool_decide (g ∈ keys)
                then exists b, final_check env tx any (size m) g (balance_of m g) = Accepted b /\ m' !! g = Some b
                else m' !! g = m !! g
  | Rejected _ => exists g, g ∈ keys /\ accepts (final_check env tx any (size m) g (balance_of m g)) = false
  end.
Proof.
  intros Hnd. revert m. induction Hnd as [|g keys Hg Hnd IH]; intros m Hin; [done|]. cbn [final_checks].
  assert (is_Some (m !! g)) as Hg' by (apply Hin, elem_of_cons; by left).
  destruct (final_check env tx any (size m) g (balance_of m g)) as [b|r] eqn:E; cbn [mbind result_bind].
  2: { exists g. rewrite E. split; [apply elem_of_cons; by left|done]. }
  assert (size (<[g := b]> m) = size m) as Hsize by (apply map_size_insert_Some; done).
  assert (forall x, x ∈ keys -> balance_of (<[g := b]> m) x = balance_of m x) as Hbal.
  { intros x Hx. unfold balance_of. rewrite lookup_insert_ne; [done|]. by intros <-. }
  specialize (IH (<[g := b]> m)). rewrite Hsize in IH.
  destruct (final_checks env tx any keys (<[g := b]> m)) as [m'|r].
  - intros x. specialize (IH ltac:(intros y Hy; rewrite lookup_insert_ne by (by intros <-); apply Hin, elem_of_cons; by right) x).
    destruct (decide (x = g)) as [->|Hne].
    + rewrite bool_decide_eq_true_2 by (apply elem_of_cons; by left).
      rewrite bool_decide_eq_false_2 in IH by done. exists b. by rewrite IH, lookup_insert_eq.
    + rewrite (bool_decide_ext (x ∈ g :: keys) (x ∈ keys)) by (rewrite elem_of_cons; naive_solver).
      case_bool_decide; [by rewrite <- Hbal|]. by rewrite IH, lookup_insert_ne.
  - destruct IH as (x & Hx & Hrej).
    { intros y Hy. rewrite lookup_insert_ne by (by intros <-). apply Hin, elem_of_cons. by right. }
    exists x. rewrite <- Hbal by done. split; [apply elem_of_cons; by right|done].
Qed.

(** All groups at once: every group passes the checks. *)
Definition settle_all (m : balances) : option balances :=
  if bool_decide (map_Forall (fun g b => accepts (final_check env tx any (size m) g b) = true) m)
  then Some (map_imap (fun g b => to_option (final_check env tx any (size m) g b)) m) else None.

Lemma final_checks_settle keys m :
  keys ≡ₚ (map_to_list m).*1 -> to_option (final_checks env tx any keys m) = settle_all m.
Proof.
  intros Hp. assert (NoDup keys) as Hnd by (rewrite Hp; apply NoDup_fst_map_to_list).
  assert (forall g, g ∈ keys <-> is_Some (m !! g)) as Hin.
  { intros g. rewrite Hp, list_elem_of_fmap. split.
    - intros ([k b] & -> & H). apply elem_of_map_to_list in H. by eexists.
    - intros [b H]. exists (g, b). by rewrite elem_of_map_to_list. }
  pose proof (final_checks_spec keys m Hnd (fun g => proj1 (Hin g))) as H. unfold settle_all.
  assert (forall g b, m !! g = Some b -> balance_of m g = b) as Hb by (unfold balance_of; by intros ? ? ->).
  destruct (final_checks env tx any keys m) as [m'|r]; cbn [to_option].
  - rewrite bool_decide_eq_true_2.
    + f_equal. apply map_eq. intros g. specialize (H g). rewrite map_lookup_imap.
      destruct (m !! g) as [b|] eqn:E; cbn.
      * rewrite bool_decide_eq_true_2 in H by (apply Hin; by rewrite E).
        destruct H as (b' & Hf & ->). rewrite (Hb g b E) in Hf. by rewrite Hf.
      * rewrite bool_decide_eq_false_2 in H by (rewrite Hin, E; by intros []). by rewrite H.
    + intros g b E. specialize (H g). rewrite bool_decide_eq_true_2 in H by (apply Hin; by rewrite E).
      destruct H as (b' & Hf & _). rewrite (Hb g b E) in Hf. by rewrite Hf.
  - rewrite bool_decide_eq_false_2; [done|]. intros HF. destruct H as (g & Hg & Hrej).
    apply Hin in Hg as [b E]. specialize (HF g b E). cbn in HF. rewrite (Hb g b E) in Hrej. congruence.
Qed.
End Final.

(** CheckTokenGroups without an order: the loops over the groups are maps. *)
Definition CheckTokenGroups_ref (env : TokenEnv) (mgr : CTokenGroupManager) (tx : CSpecialTx) :
    option (Z * Z * balances) :=
  '(nWagerrOut, gBalance) ← to_option (check_outputs (tx_vout tx) 0 ∅);
  '(nWagerrIn, any, gBalance) ← to_option (check_inputs env mgr (tx_vin tx) 0 false gBalance);
  gBalance ← settle_all env tx any (inherit_all gBalance);
  Some (nWagerrIn, nWagerrOut, gBalance).

Lemma CheckTokenGroups_eq_ref env iter mgr tx `{!MapOrder iter} :
  to_option (CheckTokenGroups env iter mgr tx) = CheckTokenGroups_ref env mgr tx.
Proof.
  unfold CheckTokenGroups, CheckTokenGroups_ref.
  destruct (check_outputs _ _ _) as [[nOut m]|r]; [|done]. cbn [mbind result_bind option_bind to_option].
  destruct (check_inputs _ _ _ _ _ _) as [[[nIn any] m1]|r]; [|done]. cbn [mbind result_bind option_bind to_option].
  cbv zeta. rewrite foldl_subgroup by apply map_order.
  rewrite <- (final_checks_settle env tx any (iter (inherit_all m1))) by apply map_order.
  by destruct (final_checks _ _ _ _ _).
Qed.

(** The order of the groups does not matter.  The code walks an unordered map
    three times and stops at the first group that fails: whatever the two
    orders are, the same transactions are accepted, with the same amounts and
    the same balances. *)
Theorem CheckTokenGroups_order env iter1 iter2 mgr tx `{!MapOrder iter1, !MapOrder iter2} :
  to_option (CheckTokenGroups env iter1 mgr tx) = to_option (CheckTokenGroups env iter2 mgr tx) /\
  accepts (CheckTokenGroups env iter1 mgr tx) = accepts (CheckTokenGroups env iter2 mgr tx).
Proof.
  assert (to_option (CheckTokenGroups env iter1 mgr tx) = to_option (CheckTokenGroups env iter2 mgr tx)) as H
    by (by rewrite !CheckTokenGroups_eq_ref).
  split; [done|]. revert H. by destruct (CheckTokenGroups env iter1 mgr tx), (CheckTokenGroups env iter2 mgr tx).
Qed.

(** ** What the two loops add up *)
Lemma hasCapability_bit x k : 0 <= k -> hasCapability x (2 ^ k) = Z.testbit x k.
Proof.
  intros Hk. unfold hasCapability. rewrite land_pow2 by done. destruct (Z.testbit x k); cbn [negb].
  - by rewrite (proj2 (Z.eqb_neq _ _)) by (apply Z.pow_nonzero; lia).
  - done.
Qed.

Lemma balance_of_upd g g' f m :
  balance_of (upd_balance g f m) g' = if bool_decide (g = g') then f (balance_of m g') else balance_of m g'.
Proof.
  unfold balance_of at 1. case_bool_decide as H.
  - subst. by rewrite upd_balance_eq.
  - by rewrite upd_balance_ne by congruence.
Qed.

(** The test of an addition that would overflow, passed. *)
Ltac split_overflow H :=
  match type of H with
  | context [if ?b then Rejected token_overflow else _] => let E := fresh "Eo" in destruct b eqn:E; [done|]
  end.

(** The effect of an output on the balance of [g]. *)
Definition out_effect (g : CTokenGroupID) (b : CTokenGroupBalance) (i : CTokenGroupInfo) : CTokenGroupBalance :=
  if bool_decide (gi_associatedGroup i = g) && negb (bool_decide (g = NoGroup)) then
    let b := b <| numOutputs := u64 (numOutputs b + 1) |> in
    if 0 <? gi_quantity i then b <| bal_output := bal_output b + gi_quantity i |>
    else b <| ctrlOutputPerms := Z.lor (ctrlOutputPerms b) (u64 (gi_quantity i)) |>
  else b.

Lemma output_step_effect outp m m' g :
  output_step outp m = Accepted m' ->
  let i := CTokenGroupInfo_of (scriptPubKey outp) in
  gi_invalid i = false /\ balance_of m' g = out_effect g (balance_of m g) i /\
  (gi_associatedGroup i <> NoGroup -> gi_quantity i <> 0) /\
  bal_output (balance_of m' g) <= Z.max (bal_output (balance_of m g)) CAmount_max.
Proof.
  unfold output_step, out_effect. set (i := CTokenGroupInfo_of _). cbv zeta. intros H.
  destruct (gi_invalid i); [done|]. split; [done|].
  case_bool_decide as Hn.
  { simplify_eq. rewrite Hn. split; [|split; [done|lia]].
    destruct (decide (NoGroup = g)) as [<-|]; [|by rewrite bool_decide_eq_false_2].
    by rewrite (bool_decide_eq_true_2 (NoGroup = NoGroup)) by done. }
  set (g0 := gi_associatedGroup i) in *.
  assert (forall f, balance_of (upd_balance g0 f (upd_balance g0
      (fun b => b <| numOutputs := u64 (numOutputs b + 1) |>) m)) g =
    if bool_decide (g0 = g) && negb (bool_decide (g = NoGroup))
    then f (balance_of m g <| numOutputs := u64 (numOutputs (balance_of m g) + 1) |>) else balance_of m g) as Hu.
  { intros f. rewrite !balance_of_upd. case_bool_decide as Hg; [|done]. subst g.
    by rewrite (bool_decide_eq_false_2 (g0 = NoGroup)). }
  destruct (Z.ltb_spec 0 (gi_quantity i)).
  - split_overflow H. simplify_eq. rewrite Hu. split; [done|]. split; [lia|].
    rewrite balance_of_upd, bool_decide_eq_true_2 in Eo by done. cbn in Eo.
    case_match eqn:Eg; [|lia]. apply andb_true_iff in Eg as [Eg _]. apply bool_decide_eq_true in Eg. subst g.
    cbn. lia.
  - destruct (Z.eqb_spec (gi_quantity i) 0); [done|]. simplify_eq. rewrite Hu. split; [done|]. split; [done|].
    case_match; cbn; lia.
Qed.

(** The groups of the outputs. *)
Definition out_infos (vout : list CTxOut) : list CTokenGroupInfo :=
  (fun outp => CTokenGroupInfo_of (scriptPubKey outp)) <$> vout.

Lemma check_outputs_effect vout n m n' m' g :
  check_outputs vout n m = Accepted (n', m') ->
  balance_of m' g = foldl (out_effect g) (balance_of m g) (out_infos vout) /\
  Forall (fun i => gi_invalid i = false /\ (gi_associatedGroup i <> NoGroup -> gi_quantity i <> 0)) (out_infos vout) /\
  bal_output (balance_of m' g) <= Z.max (bal_output (balance_of m g)) CAmount_max.
Proof.
  revert n m. induction vout as [|outp vout IH]; intros n m H; cbn [check_outputs] in H.
  { simplify_eq. split_and!; [done|constructor|lia]. }
  apply bind_Accepted in H as (m1 & H1 & H2). destruct (output_step_effect _ _ _ g H1) as (Hv & He & Hz & Hm).
  apply IH in H2 as (E & HF & Hmax). unfold out_infos in *. cbn [fmap list_fmap foldl].
  rewrite E, He. split_and!; [done|by constructor|]. rewrite <- He, <- E. lia.
Qed.

#[local] Opaque upd_balance balance_of.

(** The effect of the permissions of a coin, and of its being there. *)
Definition perm_effect (temp : Z) (b : CTokenGroupBalance) : CTokenGroupBalance :=
  if temp =? GroupAuthorityFlags_NONE then b
  else
    let b :=
      if hasCapability temp CCHILD then
        let b := b <| allowedCtrlOutputPerms := Z.lor (allowedCtrlOutputPerms b) temp |> in
        if hasCapability temp SUBGROUP
        then b <| allowedSubgroupCtrlOutputPerms := Z.lor (allowedSubgroupCtrlOutputPerms b) temp |> else b
      else b in
    b <| ctrlPerms := Z.lor (ctrlPerms b) temp |>.

Definition sticky_effect (g : CTokenGroupID) (b : CTokenGroupBalance) : CTokenGroupBalance :=
  let b := b <| numInputs := u64 (numInputs b + 1) |> in
  if hasFlag g STICKY_MELT then b <| ctrlPerms := Z.lor (ctrlPerms b) MELT |> else b.

(** The effect of a spent coin on the balance of [g]. *)
Definition in_effect (g : CTokenGroupID) (b : CTokenGroupBalance) (i : CTokenGroupInfo) : CTokenGroupBalance :=
  if bool_decide (gi_associatedGroup i = g) then
    let b := perm_effect (controllingGroupFlags i) b in
    if bool_decide (g = NoGroup) then b
    else
      let b := sticky_effect g b in
      if isAuthority i then b else b <| bal_input := bal_input b + gi_quantity i |>
  else b.

Lemma perm_effect_input temp b : bal_input (perm_effect temp b) = bal_input b.
Proof. unfold perm_effect. by repeat case_match. Qed.

Lemma sticky_effect_input g b : bal_input (sticky_effect g b) = bal_input b.
Proof. unfold sticky_effect. by repeat case_match. Qed.

Lemma input_step_effect script m m' g :
  input_step script m = Accepted m' -> gi_invalid (CTokenGroupInfo_of script) = false ->
  balance_of m' g = in_effect g (balance_of m g) (CTokenGroupInfo_of script) /\
  bal_input (balance_of m' g) <= Z.max (bal_input (balance_of m g)) CAmount_max.
Proof.
  unfold input_step, in_effect. set (i := CTokenGroupInfo_of script). cbv zeta. intros H Hv. rewrite Hv in H.
  clearbody i. clear Hv. set (g0 := gi_associatedGroup i) in *. set (temp := controllingGroupFlags i) in *. clearbody g0 temp.
  match type of H with context [if temp =? GroupAuthorityFlags_NONE then ?a else ?b] =>
    set (m1 := if temp =? GroupAuthorityFlags_NONE then a else b) in * end.
  assert (forall g', balance_of m1 g' = if bool_decide (g0 = g') then perm_effect temp (balance_of m g') else balance_of m g') as H1.
  { intros g'. unfold m1, perm_effect. destruct (temp =? _), (hasCapability temp CCHILD), (hasCapability temp SUBGROUP);
      rewrite ?balance_of_upd; by repeat case_bool_decide. }
  clearbody m1. match type of H with context [if hasFlag g0 STICKY_MELT then ?a else ?b] =>
    set (m2 := if hasFlag g0 STICKY_MELT then a else b) in * end.
  assert (forall g', balance_of m2 g' = if bool_decide (g0 = g') then sticky_effect g' (balance_of m1 g') else balance_of m1 g') as H2.
  { intros g'. unfold m2, sticky_effect. destruct (decide (g0 = g')) as [<-|];
      [rewrite (bool_decide_eq_true_2 (g0 = g0))|rewrite (bool_decide_eq_false_2 (g0 = g'))]; try done;
      destruct (hasFlag g0 STICKY_MELT); rewrite ?balance_of_upd; by repeat case_bool_decide. }
  clearbody m2. destruct (decide (g0 = g)) as [<-|Hne].
  - rewrite (bool_decide_eq_true_2 (g0 = g0)) by done.
    assert (balance_of m2 g0 = sticky_effect g0 (perm_effect temp (balance_of m g0))) as E2.
    { by rewrite H2, H1, !(bool_decide_eq_true_2 (g0 = g0)). }
    assert (balance_of m1 g0 = perm_effect temp (balance_of m g0)) as E1 by (by rewrite H1, (bool_decide_eq_true_2 (g0 = g0))).
    destruct (bool_decide (g0 = NoGroup)); [|destruct (isAuthority i); [|split_overflow H]]; injection H as <-.
    + rewrite E1, perm_effect_input. split; [done|lia].
    + rewrite E2, sticky_effect_input, perm_effect_input. split; [done|lia].
    + rewrite balance_of_upd, (bool_decide_eq_true_2 (g0 = g0)), E2 by done. split; [done|].
      rewrite E2 in Eo. cbn. lia.
  - rewrite (bool_decide_eq_false_2 (g0 = g)) by done.
    assert (balance_of m2 g = balance_of m g /\ balance_of m1 g = balance_of m g) as [E2 E1].
    { by rewrite H2, H1, !(bool_decide_eq_false_2 (g0 = g)). }
    destruct (bool_decide (g0 = NoGroup)); [|destruct (isAuthority i); [|split_overflow H]]; injection H as <-;
      rewrite ?balance_of_upd, ?(bool_decide_eq_false_2 (g0 = g)), ?E2, ?E1 by done; (split; [done|lia]).
Qed.

(** * Tokens are conserved (src/src/consensus/tokengroups.cpp)

    What an accepted transaction proves about each group: the amounts that go in
    and out are the exact sums over the coins and the outputs, tokens are minted
    or melted only with the authority for it, and an authority is given only by
    one who holds it. *)

#[local] Arguments isSubgroup : simpl never.
#[local] Arguments parentGroup : simpl never.
#[local] Arguments hasFlag : simpl never.
#[local] Opaque upd_balance balance_of.

(** ** The quantity of a script of bytes is a 64-bit integer *)
Lemma read_bytes_Forall n s d rest :
  Forall byte s -> read_bytes n s = Some (d, rest) -> Forall byte d /\ Forall byte rest /\ length d = n.
Proof.
  unfold read_bytes. intros Hs H. case_decide; [|done]. simplify_eq.
  split_and!; [by apply Forall_take|by apply Forall_drop|rewrite length_take; lia].
Qed.

Lemma ser_readdata_Forall n s v rest :
  Forall byte s -> ser_readdata n s = Some (v, rest) -> inU (8 * Z.of_nat n) v /\ Forall byte rest.
Proof.
  unfold ser_readdata. intros Hs H. apply bind_Some in H as ([d r] & Hr & H). simplify_eq.
  destruct (read_bytes_Forall _ _ _ _ Hs Hr) as (Hd & Hrest & Hl). split; [|done].
  rewrite <- Hl. by apply le_value_inU.
Qed.

Lemma GetScriptOp_Forall s op d rest :
  Forall byte s -> GetScriptOp s = Some (op, d, rest) -> Forall byte d /\ Forall byte rest.
Proof.
  destruct s as [|opcode pc]; [done|]. intros Hs H. apply Forall_cons in Hs as [_ Hs]. cbn [GetScriptOp] in H.
  destruct (opcode <=? OP_PUSHDATA4); [|by simplify_eq; split].
  apply bind_Some in H as ([nSize pc'] & Hn & H). apply bind_Some in H as ([data pc''] & Hr & H). simplify_eq.
  assert (Forall byte pc') as Hpc'.
  { repeat case_match; simplify_eq; [done| | |]; by eapply ser_readdata_Forall. }
  destruct (read_bytes_Forall _ _ _ _ Hpc' Hr) as (? & ? & _). by split.
Qed.

Lemma DeserializeAmount_inS vec q : Forall byte vec -> DeserializeAmount vec = Some q -> inS 64 q.
Proof.
  unfold DeserializeAmount. intros Hv H.
  repeat (case_match; [apply fmap_Some in H as ([v r] & Hr & ->); cbn [fst]|]); [| |apply wrapS_range; lia|done].
  1, 2: destruct (ser_readdata_Forall _ _ _ _ Hv Hr) as [Hu _]; range.
Qed.

Lemma CTokenGroupInfo_of_quantity script : Forall byte script -> inS 64 (gi_quantity (CTokenGroupInfo_of script)).
Proof.
  intros Hs. unfold CTokenGroupInfo_of. assert (inS 64 0) by range.
  destruct (GetScriptOp script) as [[[op1 g] pc1]|] eqn:E1; [|done].
  destruct (GetScriptOp pc1) as [[[op2 q] pc2]|] eqn:E2; [|done].
  destruct (GetScriptOp pc2) as [[[op3 ?] pc3]|] eqn:E3; [|done].
  apply GetScriptOp_Forall in E1 as [_ Hpc1]; [|done]. apply GetScriptOp_Forall in E2 as [Hq _]; [|done].
  repeat case_match; try done. by eapply DeserializeAmount_inS.
Qed.

(** ** Coins and sums *)
Section Conserve.
Context (env : TokenEnv) (mgr : CTokenGroupManager).

(** The groups of the coins that are spent, but for coins older than tokens and
    invalid ones. *)
Definition spent_infos (vin : list COutPoint) : list CTokenGroupInfo :=
  filter (fun i => gi_invalid i = false)
    ((fun p => CTokenGroupInfo_of (scriptPubKey (coin_out (te_AccessCoin env p)))) <$>
       filter (fun p => ATPStartHeight env <= coin_nHeight (te_AccessCoin env p)) vin).

Lemma check_inputs_effect vin n any m n' any' m' g :
  check_inputs env mgr vin n any m = Accepted (n', any', m') ->
  balance_of m' g = foldl (in_effect g) (balance_of m g) (spent_infos vin) /\
  bal_input (balance_of m' g) <= Z.max (bal_input (balance_of m g)) CAmount_max.
Proof.
  unfold spent_infos. revert n any m. induction vin as [|p vin IH]; intros n any m H; cbn [check_inputs] in H.
  { simplify_eq. split; [done|lia]. }
  cbv zeta in H. set (coin := te_AccessCoin env p) in *. destruct (IsSpent coin); [done|].
  rewrite filter_cons. fold coin. case_decide as Ha; case_match eqn:Eh; try lia; [|by eapply IH].
  apply bind_Accepted in H as (m1 & H1 & H2). rewrite fmap_cons, filter_cons.
  apply IH in H2 as [E Hb]. cbv beta. fold coin. set (i := CTokenGroupInfo_of (scriptPubKey (coin_out coin))) in *.
  case_decide as Hv.
  - destruct (input_step_effect _ _ _ g H1 Hv) as [E1 Hb1]. cbn [foldl].
    rewrite E, E1. split; [done|]. rewrite <- E1, <- E. lia.
  - unfold input_step in H1. fold i in H1. apply not_false_is_true in Hv. rewrite Hv in H1.
    injection H1 as <-. by split.
Qed.

(** ** Permissions and sums of the two loops *)
End Conserve.

Lemma hasCapability_lor a b c : hasCapability (Z.lor a b) c = hasCapability a c || hasCapability b c.
Proof.
  unfold hasCapability. rewrite Z.land_lor_distr_l. apply eq_true_iff_eq.
  rewrite orb_true_iff, !negb_true_iff, !Z.eqb_neq, Z.lor_eq_0_iff. lia.
Qed.

Lemma hasCapability_0 c : hasCapability 0 c = false.
Proof. done. Qed.

(** A permission other than SUBGROUP is kept by the mask that removes it. *)
Lemma hasCapability_not_subgroup a k :
  0 <= k < 64 -> k <> 58 -> hasCapability (Z.land a (flags_not SUBGROUP)) (2 ^ k) = hasCapability a (2 ^ k).
Proof.
  intros Hk Hne. rewrite !hasCapability_bit by lia. rewrite Z.land_spec. unfold flags_not, SUBGROUP.
  rewrite Z.lxor_spec, Z.pow2_bits_eqb, Z.testbit_ones_nonneg by lia.
  destruct (Z.eqb_spec 58 k); [lia|]. cbn. by destruct (Z.ltb_spec k 64); [rewrite andb_true_r|lia].
Qed.

Lemma foldl_or {A B} (h : A -> bool) (P : B -> bool) step l b :
  (forall b i, h (step b i) = h b || P i) -> h (foldl step b l) = h b || existsb P l.
Proof.
  intros Hs. revert b. induction l as [|i l IH]; intros b; cbn; [by rewrite orb_false_r|].
  by rewrite IH, Hs, orb_assoc.
Qed.

Lemma foldl_keep {A B C} (h : A -> C) (step : A -> B -> A) l b :
  (forall b i, h (step b i) = h b) -> h (foldl step b l) = h b.
Proof. intros Hs. revert b. induction l as [|i l IH]; intros b; cbn; [done|]. by rewrite IH, Hs. Qed.

Definition sum_of (f : CTokenGroupInfo -> Z) (l : list CTokenGroupInfo) : Z := foldr (fun i acc => f i + acc) 0 l.

Lemma foldl_sum {A} (h : A -> Z) f step l b :
  (forall b i, h (step b i) = h b + f i) -> h (foldl step b l) = h b + sum_of f l.
Proof.
  intros Hs. revert b. induction l as [|i l IH]; intros b; cbn [foldl]; [cbn; lia|].
  rewrite IH, Hs. unfold sum_of. cbn [foldr]. lia.
Qed.

(** The amount of a group that is spent, and the amount that is sent. *)
Definition amount_in (g : CTokenGroupID) (l : list CTokenGroupInfo) : Z :=
  sum_of (fun i => if bool_decide (gi_associatedGroup i = g) && negb (isAuthority i) then gi_quantity i else 0) l.

Definition amount_out (g : CTokenGroupID) (l : list CTokenGroupInfo) : Z :=
  sum_of (fun i => if bool_decide (gi_associatedGroup i = g) then getAmount i else 0) l.

(** An authority of the group with the permission; with CCHILD too; with
    CCHILD and SUBGROUP too. *)
Definition auth_with (g : CTokenGroupID) (perms : list Z) (i : CTokenGroupInfo) : bool :=
  bool_decide (gi_associatedGroup i = g) && forallb (hasCapability (controllingGroupFlags i)) perms.

Definition holds (g : CTokenGroupID) (perms : list Z) (l : list CTokenGroupInfo) : bool :=
  existsb (auth_with g perms) l.

Section Group.
Context (g : CTokenGroupID) (Hg : g <> NoGroup).

Let no_group : bool_decide (g = NoGroup) = false := bool_decide_eq_false_2 _ Hg.

Lemma out_effect_output b i :
  bal_output (out_effect g b i) = bal_output b + if bool_decide (gi_associatedGroup i = g) then getAmount i else 0.
Proof.
  unfold out_effect, getAmount. rewrite no_group. destruct (bool_decide (gi_associatedGroup i = g)); cbn [andb negb]; [|lia].
  destruct (Z.ltb_spec 0 (gi_quantity i)), (Z.ltb_spec (gi_quantity i) 0); cbn; lia.
Qed.

Lemma out_effect_perms c b i :
  hasCapability (ctrlOutputPerms (out_effect g b i)) c =
  hasCapability (ctrlOutputPerms b) c || auth_with g [c] i.
Proof.
  unfold out_effect, auth_with, controllingGroupFlags. rewrite no_group. cbn [forallb].
  destruct (bool_decide (gi_associatedGroup i = g)); cbn [andb negb]; [|by rewrite orb_false_r].
  rewrite andb_true_r. destruct (Z.ltb_spec 0 (gi_quantity i)), (Z.ltb_spec (gi_quantity i) 0); cbn; try lia.
  - by rewrite hasCapability_0, orb_false_r.
  - by rewrite hasCapability_lor.
  - rewrite hasCapability_lor. by replace (gi_quantity i) with 0 by lia.
Qed.

Lemma in_effect_input b i :
  bal_input (in_effect g b i) =
  bal_input b + if bool_decide (gi_associatedGroup i = g) && negb (isAuthority i) then gi_quantity i else 0.
Proof.
  unfold in_effect. rewrite no_group. destruct (bool_decide (gi_associatedGroup i = g)); cbn [andb negb]; [|lia].
  cbv zeta. destruct (isAuthority i); cbn; rewrite ?sticky_effect_input, perm_effect_input; lia.
Qed.

Lemma in_effect_ctrlPerms c b i :
  hasCapability (ctrlPerms (in_effect g b i)) c =
  hasCapability (ctrlPerms b) c ||
    (auth_with g [c] i || bool_decide (gi_associatedGroup i = g) && (hasFlag g STICKY_MELT && hasCapability MELT c)).
Proof.
  unfold in_effect, auth_with. rewrite no_group. cbn [forallb].
  destruct (bool_decide (gi_associatedGroup i = g)); cbn [andb]; [|by rewrite orb_false_r].
  cbv zeta. rewrite andb_true_r.
  assert (forall t, hasCapability (ctrlPerms (perm_effect t b)) c = hasCapability (ctrlPerms b) c || hasCapability t c) as Hp.
  { intros t. unfold perm_effect. destruct (Z.eqb_spec t GroupAuthorityFlags_NONE) as [->|];
      [by rewrite hasCapability_0, orb_false_r|].
    destruct (hasCapability t CCHILD), (hasCapability t SUBGROUP); cbn; by rewrite hasCapability_lor. }
  assert (forall x, hasCapability (ctrlPerms (sticky_effect g x)) c =
    hasCapability (ctrlPerms x) c || hasFlag g STICKY_MELT && hasCapability MELT c) as Hs.
  { intros x. unfold sticky_effect. destruct (hasFlag g STICKY_MELT); cbn; [by rewrite hasCapability_lor|by rewrite orb_false_r]. }
  destruct (isAuthority i); cbn; by rewrite Hs, Hp, orb_assoc.
Qed.

Lemma in_effect_allowed c b i :
  hasCapability (allowedCtrlOutputPerms (in_effect g b i)) c =
    hasCapability (allowedCtrlOutputPerms b) c || auth_with g [CCHILD; c] i /\
  hasCapability (allowedSubgroupCtrlOutputPerms (in_effect g b i)) c =
    hasCapability (allowedSubgroupCtrlOutputPerms b) c || auth_with g [CCHILD; SUBGROUP; c] i.
Proof.
  unfold in_effect, auth_with. rewrite no_group. cbn [forallb].
  destruct (bool_decide (gi_associatedGroup i = g)); cbn [andb]; [|by rewrite !orb_false_r].
  cbv zeta. rewrite !andb_true_r. unfold sticky_effect, perm_effect.
  destruct (Z.eqb_spec (controllingGroupFlags i) GroupAuthorityFlags_NONE) as [->|_];
    destruct (isAuthority i), (hasFlag g STICKY_MELT); cbn;
    try destruct (hasCapability (controllingGroupFlags i) CCHILD);
    try destruct (hasCapability (controllingGroupFlags i) SUBGROUP); cbn;
    by rewrite ?hasCapability_lor, ?orb_false_r.
Qed.

Definition count_out (l : list CTokenGroupInfo) : Z :=
  sum_of (fun i => if bool_decide (gi_associatedGroup i = g) then 1 else 0) l.

Lemma foldl_numOutputs l b :
  u64 (numOutputs (foldl (out_effect g) b l)) = u64 (numOutputs b + count_out l).
Proof.
  unfold count_out. revert b. induction l as [|i l IH]; intros b; cbn [foldl]; [cbn; f_equal; lia|].
  rewrite IH. unfold sum_of. cbn [foldr]. unfold out_effect. rewrite no_group.
  destruct (bool_decide (gi_associatedGroup i = g)); cbn [andb negb]; [|f_equal; lia].
  destruct (0 <? gi_quantity i); cbn; unfold wrapU; rewrite Zplus_mod_idemp_l; f_equal; lia.
Qed.

(** What the two loops leave for the group. *)
Definition totals (outs spent : list CTokenGroupInfo) : CTokenGroupBalance :=
  foldl (in_effect g) (foldl (out_effect g) CTokenGroupBalance_init outs) spent.

(** What the inputs leave alone. *)
Definition out_part (b : CTokenGroupBalance) : Z * Z * Z := (bal_output b, ctrlOutputPerms b, numOutputs b).

Lemma in_effect_out_part b i : out_part (in_effect g b i) = out_part b.
Proof.
  assert (forall x, out_part (sticky_effect g x) = out_part x) as Hs.
  { intros x. unfold sticky_effect. by destruct (hasFlag g STICKY_MELT). }
  assert (forall t, out_part (perm_effect t b) = out_part b) as Hp.
  { intros t. unfold perm_effect. by destruct (t =? _), (hasCapability t CCHILD), (hasCapability t SUBGROUP). }
  unfold in_effect. destruct (bool_decide (gi_associatedGroup i = g)); [|done]. cbv zeta.
  rewrite no_group. destruct (isAuthority i); [by rewrite Hs|].
  by transitivity (out_part (sticky_effect g (perm_effect (controllingGroupFlags i) b))); [|rewrite Hs].
Qed.

Lemma in_effect_keep b i :
  bal_output (in_effect g b i) = bal_output b /\ ctrlOutputPerms (in_effect g b i) = ctrlOutputPerms b /\
  numOutputs (in_effect g b i) = numOutputs b.
Proof. pose proof (in_effect_out_part b i) as H. unfold out_part in H. by simplify_eq. Qed.

Lemma out_effect_keep b i :
  bal_input (out_effect g b i) = bal_input b /\ ctrlPerms (out_effect g b i) = ctrlPerms b /\
  allowedCtrlOutputPerms (out_effect g b i) = allowedCtrlOutputPerms b /\
  allowedSubgroupCtrlOutputPerms (out_effect g b i) = allowedSubgroupCtrlOutputPerms b.
Proof. unfold out_effect. cbv zeta. by destruct (_ && _), (0 <? gi_quantity i). Qed.

Lemma totals_amounts outs spent :
  bal_output (totals outs spent) = amount_out g outs /\ bal_input (totals outs spent) = amount_in g spent.
Proof.
  unfold totals. split.
  - rewrite (foldl_keep bal_output) by (intros; apply in_effect_keep).
    by rewrite (foldl_sum bal_output _ _ _ _ out_effect_output).
  - rewrite (foldl_sum bal_input _ _ _ _ in_effect_input).
    by rewrite (foldl_keep bal_input) by (intros; apply out_effect_keep).
Qed.

Lemma totals_perms c outs spent :
  hasCapability (ctrlOutputPerms (totals outs spent)) c = holds g [c] outs /\
  hasCapability (ctrlPerms (totals outs spent)) c =
    existsb (fun i => auth_with g [c] i ||
      bool_decide (gi_associatedGroup i = g) && (hasFlag g STICKY_MELT && hasCapability MELT c)) spent /\
  hasCapability (allowedCtrlOutputPerms (totals outs spent)) c = holds g [CCHILD; c] spent /\
  hasCapability (allowedSubgroupCtrlOutputPerms (totals outs spent)) c = holds g [CCHILD; SUBGROUP; c] spent.
Proof.
  unfold totals. split_and!.
  - rewrite (foldl_keep ctrlOutputPerms) by (intros; apply in_effect_keep).
    by rewrite (foldl_or (fun b => hasCapability (ctrlOutputPerms b) c) _ _ _ _ (out_effect_perms c)).
  - rewrite (foldl_or (fun b => hasCapability (ctrlPerms b) c) _ _ _ _ (in_effect_ctrlPerms c)).
    by rewrite (foldl_keep ctrlPerms) by (intros; apply out_effect_keep).
  - rewrite (foldl_or (fun b => hasCapability (allowedCtrlOutputPerms b) c) _ _ _ _ (fun b i => proj1 (in_effect_allowed c b i))).
    by rewrite (foldl_keep allowedCtrlOutputPerms) by (intros; apply out_effect_keep).
  - rewrite (foldl_or (fun b => hasCapability (allowedSubgroupCtrlOutputPerms b) c) _ _ _ _ (fun b i => proj2 (in_effect_allowed c b i))).
    by rewrite (foldl_keep allowedSubgroupCtrlOutputPerms) by (intros; apply out_effect_keep).
Qed.

Lemma totals_numOutputs outs spent : u64 (numOutputs (totals outs spent)) = u64 (count_out outs).
Proof.
  unfold totals. rewrite (foldl_keep numOutputs) by (intros; apply in_effect_keep). apply foldl_numOutputs.
Qed.
End Group.

(** ** The rest of the checks *)
Section Final.
Context (env : TokenEnv) (tx : CSpecialTx).

(** The group is created by this transaction. *)
Definition created_here (g : CTokenGroupID) (ctrlOut : Z) : Prop := new_group_id env tx ctrlOut = Accepted g.

Lemma creation_perms_keep any g b b' :
  creation_perms tx any g b = Accepted b' ->
  numOutputs b = 1 /\ bal_output b' = bal_output b /\ bal_input b' = bal_input b /\
  ctrlOutputPerms b' = ctrlOutputPerms b.
Proof.
  unfold creation_perms. cbv zeta. intros H. apply bind_Accepted in H as (u & Hn & H).
  apply require_Accepted in Hn. split; [lia|]. clear Hn u. revert H.
  generalize (hasFlag g MGT_TOKEN) (hasFlag g NFT_TOKEN) (hasFlag g BETTING_TOKEN) (hasFlag g PARLAY_TOKEN)
    (hasFlag g STICKY_MELT). intros [] [] [] [] []; cbn; unfold require;
    repeat (case_match; cbn; try done); intros; by simplify_eq.
Qed.

Lemma creation_step_cases any g b b' :
  creation_step env tx any g b = Accepted b' ->
  bal_output b' = bal_output b /\ bal_input b' = bal_input b /\ ctrlOutputPerms b' = ctrlOutputPerms b /\
  (b' = b \/ numOutputs b = 1 /\ hasCapability (ctrlOutputPerms b) CTRL = true /\ created_here g (ctrlOutputPerms b)).
Proof.
  unfold creation_step. intros H. case_match eqn:E; [|simplify_eq; auto].
  apply andb_true_iff in E as [Ec _]. apply bind_Accepted in H as (id & Hid & H). case_bool_decide as Hg.
  - subst id. destruct (creation_perms_keep _ _ _ _ H) as (? & -> & -> & ->). split_and!; auto.
  - apply bind_Accepted in H as (u & _ & H). simplify_eq. auto.
Qed.
End Final.

(** ** Accepted transactions *)
Definition inherited (m : balances) (g : CTokenGroupID) : CTokenGroupBalance :=
  if isSubgroup g then inherit (balance_of m (parentGroup g)) (balance_of m g) else balance_of m g.

Lemma inherit_init b : inherit CTokenGroupBalance_init b = b.
Proof. destruct b. unfold inherit. cbv -[Z.lor]. by rewrite Z.lor_0_r. Qed.

#[local] Transparent balance_of.
Lemma inherit_all_lookup m g : inherit_all m !! g = (fun _ => inherited m g) <$> m !! g.
Proof.
  unfold inherit_all, inherited, balance_of. rewrite map_lookup_imap. destruct (m !! g) as [b|]; [|done]. cbn.
  destruct (isSubgroup g); [|done]. destruct (m !! parentGroup g); cbn; [done|]. by rewrite inherit_init.
Qed.

Lemma balance_of_empty g : balance_of ∅ g = CTokenGroupBalance_init.
Proof. done. Qed.
#[local] Opaque balance_of.

Lemma inherit_keep p b :
  bal_output (inherit p b) = bal_output b /\ bal_input (inherit p b) = bal_input b /\
  ctrlOutputPerms (inherit p b) = ctrlOutputPerms b /\ numOutputs (inherit p b) = numOutputs b.
Proof. unfold inherit. by destruct (hasCapability (ctrlPerms p) SUBGROUP). Qed.

Lemma inherit_perms p b k :
  0 <= k < 64 -> k <> 58 ->
  hasCapability (ctrlPerms (inherit p b)) (2 ^ k) =
    hasCapability (ctrlPerms b) (2 ^ k) || hasCapability (ctrlPerms p) SUBGROUP && hasCapability (ctrlPerms p) (2 ^ k) /\
  hasCapability (allowedCtrlOutputPerms (inherit p b)) (2 ^ k) =
    hasCapability (allowedCtrlOutputPerms b) (2 ^ k) || hasCapability (allowedSubgroupCtrlOutputPerms p) (2 ^ k).
Proof.
  intros Hk Hne. unfold inherit. destruct (hasCapability (ctrlPerms p) SUBGROUP); cbn -[Z.pow hasCapability flags_not Z.lor Z.land];
    rewrite !hasCapability_lor, !hasCapability_not_subgroup by done; split; by rewrite ?orb_false_r.
Qed.

Section Accepted.
Context (env : TokenEnv) (iter : balances -> list CTokenGroupID) `{!MapOrder iter}.
Context (mgr : CTokenGroupManager) (tx : CSpecialTx).

Abbreviation outs := (out_infos (tx_vout tx)).
Abbreviation spent := (spent_infos env (tx_vin tx)).

Lemma CheckTokenGroups_inv nIn nOut m :
  CheckTokenGroups env iter mgr tx = Accepted (nIn, nOut, m) ->
  exists any m1,
    (forall g, balance_of m1 g = totals g outs spent) /\
    (forall g, g <> NoGroup -> amount_out g outs <= CAmount_max /\ amount_in g spent <= CAmount_max) /\
    (forall g, match m1 !! g with
               | None => m !! g = None
               | Some _ => exists b', final_check env tx any (size (inherit_all m1)) g (inherited m1 g) = Accepted b' /\ m !! g = Some b'
               end).
Proof.
  intros H. pose proof (CheckTokenGroups_eq_ref env iter mgr tx) as Href. rewrite H in Href. clear H.
  unfold CheckTokenGroups_ref in Href. cbn [to_option] in Href.
  destruct (check_outputs _ _ _) as [[nOut' m0]|] eqn:Eo; [|done]. cbn [to_option mbind option_bind] in Href.
  destruct (check_inputs _ _ _ _ _ _) as [[[nIn' any] m1]|] eqn:Ei; [|done]. cbn [to_option mbind option_bind] in Href.
  destruct (settle_all _ _ _ _) as [m2|] eqn:Es; [|done]. cbn in Href. simplify_eq. exists any, m1. split_and!.
  - intros g. destruct (check_inputs_effect _ _ _ _ _ _ _ _ _ g Ei) as [-> _].
    destruct (check_outputs_effect _ _ _ _ _ g Eo) as (-> & _). done.
  - intros g Hg. destruct (check_inputs_effect _ _ _ _ _ _ _ _ _ g Ei) as [E Hi].
    destruct (check_outputs_effect _ _ _ _ _ g Eo) as (E0 & _ & Ho).
    rewrite balance_of_empty in *. destruct (totals_amounts g Hg outs spent) as [H1 H2].
    rewrite E, E0 in Hi. unfold totals in *. rewrite H2 in Hi. rewrite (foldl_keep bal_input) in Hi by (intros; apply out_effect_keep; done).
    rewrite E0 in Ho. rewrite (foldl_keep bal_output) in H1 by (intros; apply in_effect_keep; done). cbn in *. unfold CAmount_max in *. lia.
  - intros g. unfold settle_all in Es. case_bool_decide as Hall; [|done]. simplify_eq.
    rewrite map_lookup_imap, inherit_all_lookup. destruct (m1 !! g) as [b|] eqn:E; [|done]. cbn.
    specialize (Hall g (inherited m1 g)). cbn in Hall. rewrite inherit_all_lookup, E in Hall. specialize (Hall eq_refl).
    destruct (final_check _ _ _ _ _ _) as [b'|]; [|done]. by exists b'.
Qed.

(** The permission is held by a coin of the group, or the group is a subgroup
    of which the parent gives it. *)
Definition may (perm : Z) (g : CTokenGroupID) : bool :=
  holds g [perm] spent ||
  isSubgroup g && (holds (parentGroup g) [SUBGROUP] spent && holds (parentGroup g) [perm] spent).

Definition may_give (perm : Z) (g : CTokenGroupID) : bool :=
  holds g [CCHILD; perm] spent ||
  isSubgroup g && (negb (perm =? SUBGROUP) && holds (parentGroup g) [CCHILD; SUBGROUP; perm] spent).

Definition is_bet_group (g : CTokenGroupID) : bool := hasFlag g BETTING_TOKEN || hasFlag g PARLAY_TOKEN.

Lemma balance_rules_inv size g b u :
  balance_rules size g b = Accepted u ->
  (bal_output b < bal_input b -> hasCapability (ctrlPerms b) MELT = true) /\
  (bal_input b < bal_output b -> hasCapability (ctrlPerms b) MINT = true \/ is_bet_group g = true) /\
  (forall k, 58 <= k <= 63 -> hasCapability (ctrlOutputPerms b) (2 ^ k) = true ->
             hasCapability (allowedCtrlOutputPerms b) (2 ^ k) = true).
Proof.
  unfold balance_rules. cbv zeta. fold (is_bet_group g). intros H.
  apply bind_Accepted in H as (? & Hmelt & H). apply bind_Accepted in H as (? & Hmint & Hperm).
  apply require_Accepted in Hmelt, Hperm. split_and!.
  - intros Hlt. apply Z.ltb_lt in Hlt. rewrite Hlt in Hmelt. by destruct (hasCapability (ctrlPerms b) MELT).
  - intros Hlt. apply Z.ltb_lt in Hlt. rewrite Hlt in Hmint. apply bind_Accepted in Hmint as (? & Hm & _).
    apply require_Accepted in Hm. destruct (hasCapability (ctrlPerms b) MINT), (is_bet_group g); auto.
  - intros k Hk. rewrite !hasCapability_bit by lia. intros Ho. apply Z.eqb_eq in Hperm.
    apply (f_equal (fun z => Z.testbit z k)) in Hperm. rewrite Z.bits_0 in Hperm. revert Hperm. unfold flags_not.
    rewrite !Z.land_spec, Z.lxor_spec, Z.land_spec, Z.testbit_ones_nonneg by lia. rewrite Ho.
    assert (Z.testbit ALL k = true) as ->.
    { assert (k = 58 \/ k = 59 \/ k = 60 \/ k = 61 \/ k = 62 \/ k = 63) as Hc by lia.
      by destruct Hc as [->|[->|[->|[->|[->| ->]]]]]. }
    rewrite (proj2 (Z.ltb_lt k 64)) by lia. by destruct (Z.testbit (allowedCtrlOutputPerms b) k).
Qed.

Lemma holds_app g perms l i : i ∈ l -> auth_with g perms i = true -> holds g perms l = true.
Proof. intros Hi Ha. apply existsb_exists. exists i. by rewrite <- list_elem_of_In. Qed.

Lemma created_alone g l : count_out g l = 1 -> holds g [CTRL] l = true -> amount_out g l = 0.
Proof.
  assert (forall l, 0 <= count_out g l) as Hc.
  { induction l0 as [|i l0 IH]; [done|]. unfold count_out, sum_of in *. cbn [foldr]. case_bool_decide; lia. }
  assert (forall l, count_out g l = 0 -> amount_out g l = 0 /\ holds g [CTRL] l = false) as H0.
  { induction l0 as [|i l0 IH]; [done|]. specialize (Hc l0). unfold count_out, amount_out, sum_of, holds in *.
    cbn [foldr existsb]. unfold auth_with at 1. case_bool_decide; cbn [andb orb]; [lia|]. intros. by apply IH; lia. }
  induction l as [|i l IH]; [done|]. intros H1 Hh. specialize (H0 l). specialize (Hc l).
  unfold count_out, amount_out, sum_of, holds in *. cbn [foldr existsb] in *. unfold auth_with at 1 in Hh.
  case_bool_decide; cbn [andb orb] in Hh; [|apply IH; [lia|done]].
  destruct H0 as [-> Hf]; [lia|]. cbn [forallb] in Hh. rewrite Hf, orb_false_r, andb_true_r in Hh. unfold controllingGroupFlags in Hh.
  unfold getAmount. destruct (gi_quantity i <? 0); [done|]. by rewrite hasCapability_0 in Hh.
Qed.

Lemma count_out_length g l : count_out g l <= Z.of_nat (length l).
Proof.
  unfold count_out, sum_of. induction l as [|i l IH]; cbn [foldr length]; [lia|]. case_bool_decide; lia.
Qed.

Lemma hasFlag_parent g f : isSubgroup g = true -> hasFlag (parentGroup g) f = hasFlag g f.
Proof.
  unfold isSubgroup, parentGroup, hasFlag, PARENT_GROUP_ID_SIZE. intros Hs. apply Nat.ltb_lt in Hs.
  rewrite (proj2 (Nat.leb_gt (length g) 32)) by done. rewrite length_take, Nat.min_l by lia.
  rewrite (proj2 (Nat.leb_le 32 (length g))) by lia. cbn [Nat.leb].
  by rewrite <- (take_drop 32 g) at 2; rewrite app_nth1 by (rewrite length_take; lia).
Qed.

Lemma parentGroup_not_NoGroup g : isSubgroup g = true -> parentGroup g <> NoGroup.
Proof.
  unfold isSubgroup, parentGroup, PARENT_GROUP_ID_SIZE. intros Hs. apply Nat.ltb_lt in Hs.
  rewrite (proj2 (Nat.leb_gt (length g) 32)) by done. intros E. apply (f_equal length) in E. rewrite length_take, Nat.min_l in E by lia. done.
Qed.

(** All coins have scripts of bytes. *)
Definition coins_ok : Prop :=
  Forall (fun p => Forall byte (scriptPubKey (coin_out (te_AccessCoin env p)))) (tx_vin tx).

Lemma amount_in_nonneg g : coins_ok -> 0 <= amount_in g spent.
Proof.
  intros Hok. assert (Forall (fun i => inS 64 (gi_quantity i)) spent) as HF.
  { unfold spent_infos. apply Forall_forall. intros i Hi. apply list_elem_of_filter in Hi as [_ Hi].
    apply list_elem_of_fmap in Hi as (p & -> & Hp). apply list_elem_of_filter in Hp as [_ Hp].
    apply CTokenGroupInfo_of_quantity. by eapply Forall_forall in Hok. }
  unfold amount_in, sum_of. induction HF as [|i l Hi HF IH]; cbn [foldr]; [lia|].
  assert (isAuthority i = false -> 0 <= gi_quantity i).
  { destruct (authority_bits i 48 Hi) as (-> & _); lia. }
  destruct (bool_decide _), (isAuthority i); cbn [andb negb]; lia.
Qed.

Lemma sticky_spent g c :
  g <> NoGroup -> hasCapability (ctrlPerms (totals g outs spent)) c = true ->
  holds g [c] spent = true \/ hasFlag g STICKY_MELT = true /\ hasCapability MELT c = true.
Proof.
  intros Hg. destruct (totals_perms g Hg c outs spent) as (_ & -> & _). intros H.
  apply existsb_exists in H as (i & Hi & H). apply orb_true_iff in H as [H|H].
  - left. apply existsb_exists. by exists i.
  - right. apply andb_true_iff in H as [_ H]. by apply andb_true_iff in H.
Qed.

(** The permissions of a group once its parent is taken into account. *)
Lemma inherited_ctrlPerms m1 g k :
  (forall g, balance_of m1 g = totals g outs spent) -> g <> NoGroup -> 59 <= k <= 63 ->
  hasCapability (ctrlPerms (inherited m1 g)) (2 ^ k) = true ->
  may (2 ^ k) g = true \/ hasFlag g STICKY_MELT = true /\ hasCapability MELT (2 ^ k) = true.
Proof.
  intros Hm Hg Hk. unfold inherited, may. rewrite !Hm. destruct (isSubgroup g) eqn:Es; cbn [andb].
  - destruct (inherit_perms (totals (parentGroup g) outs spent) (totals g outs spent) k) as [-> _]; [lia..|].
    pose proof (parentGroup_not_NoGroup g Es) as Hp. intros H. apply orb_true_iff in H as [H|H].
    + apply sticky_spent in H as [-> | ?]; auto.
    + apply andb_true_iff in H as [H1 H2]. apply sticky_spent in H1, H2; [|done..]. rewrite hasFlag_parent in * by done.
      destruct H1 as [-> |[_ H1]]; [|by cbn in H1]. destruct H2 as [-> |H2]; [|auto]. left. by rewrite orb_true_r.
  - intros H. apply sticky_spent in H as [-> |?]; auto.
Qed.

Lemma inherited_allowed m1 g k :
  (forall g, balance_of m1 g = totals g outs spent) -> g <> NoGroup -> 58 <= k <= 63 ->
  hasCapability (allowedCtrlOutputPerms (inherited m1 g)) (2 ^ k) = true -> may_give (2 ^ k) g = true.
Proof.
  intros Hm Hg Hk. unfold inherited, may_give. rewrite !Hm.
  destruct (totals_perms g Hg (2 ^ k) outs spent) as (_ & _ & Ha & _).
  destruct (isSubgroup g) eqn:Es; cbn [andb]; [|rewrite Ha; by intros ->].
  pose proof (parentGroup_not_NoGroup g Es) as Hp.
  destruct (totals_perms (parentGroup g) Hp (2 ^ k) outs spent) as (_ & _ & _ & Hs).
  destruct (decide (k = 58)) as [->|Hne].
  - unfold inherit. destruct (hasCapability (ctrlPerms _) SUBGROUP); cbn -[Z.pow hasCapability flags_not Z.lor Z.land];
      rewrite hasCapability_lor, Ha; intros H; apply orb_true_iff in H as [-> |H]; try done; exfalso; revert H;
      rewrite hasCapability_bit by lia; rewrite Z.land_spec; unfold flags_not, SUBGROUP;
      rewrite Z.lxor_spec, Z.pow2_bits_true by lia; by rewrite andb_false_r.
  - destruct (inherit_perms (totals (parentGroup g) outs spent) (totals g outs spent) k) as [_ ->]; [lia..|].
    rewrite Ha, Hs. intros H. apply orb_true_iff in H as [-> | ->]; [done|].
    replace (2 ^ k =? SUBGROUP) with false; [by rewrite orb_true_r|]. symmetry. apply Z.eqb_neq. unfold SUBGROUP.
    intros E. apply Z.pow_inj_r in E; lia.
Qed.

Lemma inherited_keep m1 g :
  (forall g, balance_of m1 g = totals g outs spent) -> g <> NoGroup ->
  bal_output (inherited m1 g) = amount_out g outs /\ bal_input (inherited m1 g) = amount_in g spent /\
  u64 (numOutputs (inherited m1 g)) = u64 (count_out g outs) /\
  forall c, hasCapability (ctrlOutputPerms (inherited m1 g)) c = holds g [c] outs.
Proof.
  intros Hm Hg. destruct (totals_amounts g Hg outs spent) as [Ho Hi].
  pose proof (totals_numOutputs g Hg outs spent) as Hn.
  assert (forall c, hasCapability (ctrlOutputPerms (totals g outs spent)) c = holds g [c] outs) as Hc
    by (intros c; apply totals_perms, Hg).
  unfold inherited. rewrite !Hm. destruct (isSubgroup g); [|done].
  destruct (inherit_keep (totals (parentGroup g) outs spent) (totals g outs spent)) as (-> & -> & -> & ->). done.
Qed.

Lemma amount_out_nonneg g l : 0 <= amount_out g l.
Proof.
  unfold amount_out, sum_of. induction l as [|i l IH]; cbn [foldr]; [lia|].
  assert (0 <= getAmount i) by (unfold getAmount; destruct (Z.ltb_spec (gi_quantity i) 0); lia).
  destruct (bool_decide _); lia.
Qed.

(** What the last check of a group says. *)
Lemma final_check_rules m1 any n g b' :
  (forall g, balance_of m1 g = totals g outs spent) -> g <> NoGroup -> coins_ok ->
  Z.of_nat (length (tx_vout tx)) < 2 ^ 64 ->
  final_check env tx any n g (inherited m1 g) = Accepted b' ->
  bal_input b' = amount_in g spent /\ bal_output b' = amount_out g outs /\
  (amount_in g spent < amount_out g outs -> is_bet_group g = true \/ may MINT g = true) /\
  (amount_out g outs < amount_in g spent ->
     may MELT g = true \/ hasFlag g STICKY_MELT = true \/ exists c, created_here env tx g c) /\
  (forall k, 58 <= k <= 63 -> holds g [2 ^ k] outs = true ->
     may_give (2 ^ k) g = true \/ exists c, created_here env tx g c).
Proof.
  intros Hm Hg Hok Hlen H. destruct (inherited_keep m1 g Hm Hg) as (Ho & Hi & Hn & Hc).
  unfold final_check in H. apply bind_Accepted in H as (b & Hcr & H). apply bind_Accepted in H as (u & Hr & H).
  injection H as <-. destruct (creation_step_cases _ _ _ _ _ _ Hcr) as (E1 & E2 & E3 & Hcase).
  rewrite Ho in E1. rewrite Hi in E2. split; [done|]. split; [done|].
  destruct (balance_rules_inv _ _ _ _ Hr) as (Rmelt & Rmint & Rperm). rewrite E1, E2 in Rmelt, Rmint.
  destruct Hcase as [-> |(Hone & Hctrl & Hnew)].
  - split_and!.
    + intros Hlt. destruct (Rmint Hlt) as [HM|]; [|by left].
      apply (inherited_ctrlPerms m1 g 62 Hm Hg) in HM as [|[_ HM]]; [by right|by cbn in HM|lia].
    + intros Hlt. specialize (Rmelt Hlt).
      apply (inherited_ctrlPerms m1 g 61 Hm Hg) in Rmelt as [|[? _]]; [by left|by right; left|lia].
    + intros k Hk Hh. left. apply (inherited_allowed m1 g k Hm Hg Hk), Rperm; [done|]. by rewrite Hc.
  - assert (exists c, created_here env tx g c) as Hnew' by (by eexists). split_and!; [|auto..].
    intros Hlt. rewrite Hc in Hctrl. assert (amount_out g outs = 0).
    { apply created_alone; [|done]. rewrite Hone in Hn. pose proof (count_out_length g outs) as Hcl.
      unfold out_infos in Hcl at 2. rewrite length_fmap in Hcl.
      assert (0 <= count_out g outs).
      { unfold count_out, sum_of. generalize outs as l. induction l as [|i l IH]; cbn [foldr]; [lia|]. case_bool_decide; lia. }
      unfold wrapU in Hn. rewrite (Z.mod_small (count_out g outs)) in Hn by lia. by rewrite <- Hn. }
    pose proof (amount_in_nonneg g Hok). lia.
Qed.

#[local] Transparent balance_of.

(** C6: Tokens are conserved.  When a transaction is accepted, then for every group
    the balance that later checks see is the exact sum of the amounts of its
    coins and of its outputs, neither over 2^63 - 1.  More is sent than is spent
    only in a betting or parlay group or when a coin of the group, or of the
    parent that also lends SUBGROUP, carries MINT; less only with MELT in the
    same way, in a group with sticky melting, or in the transaction that
    creates the group.  Every permission of an authority that is sent is one a
    coin with CCHILD has, or the group is created here. *)
Theorem CheckTokenGroups_conservation nIn nOut m g :
  CheckTokenGroups env iter mgr tx = Accepted (nIn, nOut, m) -> g <> NoGroup -> coins_ok ->
  Z.of_nat (length (tx_vout tx)) < 2 ^ 64 ->
  bal_input (balance_of m g) = amount_in g spent /\ bal_output (balance_of m g) = amount_out g outs /\
  0 <= amount_in g spent <= CAmount_max /\ 0 <= amount_out g outs <= CAmount_max /\
  (amount_in g spent < amount_out g outs -> is_bet_group g = true \/ may MINT g = true) /\
  (amount_out g outs < amount_in g spent ->
     may MELT g = true \/ hasFlag g STICKY_MELT = true \/ exists c, created_here env tx g c) /\
  (forall k, 58 <= k <= 63 -> holds g [2 ^ k] outs = true ->
     may_give (2 ^ k) g = true \/ exists c, created_here env tx g c).
Proof.
  intros H Hg Hok Hlen. destruct (CheckTokenGroups_inv _ _ _ H) as (any & m1 & Hm & Hmax & Hfin).
  destruct (Hmax g Hg). pose proof (amount_in_nonneg g Hok). pose proof (amount_out_nonneg g outs).
  specialize (Hfin g). unfold balance_of at 1 2. destruct (m1 !! g) as [b|] eqn:E.
  - destruct Hfin as (b' & Hf & ->). cbn [default].
    destruct (final_check_rules _ _ _ _ _ Hm Hg Hok Hlen Hf) as (? & ? & ?). auto 10.
  - rewrite Hfin. specialize (Hm g). unfold balance_of in Hm. rewrite E in Hm. cbn [default] in *.
    destruct (totals_amounts g Hg outs spent) as [T1 T2]. rewrite <- Hm in T1, T2. cbn in T1, T2.
    split_and!; [exact T2|exact T1|lia..|]. intros k Hk Hh. destruct (totals_perms g Hg (2 ^ k) outs spent) as (T3 & _).
    rewrite <- Hm, Hh in T3. done.
Qed.
End Accepted.

#[local] Transparent balance_of.

(** ** NFTs *)
Lemma nft_checks_all mgr keys m :
  nft_checks mgr keys m = Accepted tt -> Forall (fun g => nft_check mgr g (balance_of m g) = Accepted tt) keys.
Proof.
  induction keys as [|g keys IH]; cbn [nft_checks]; intros H; [constructor|].
  apply bind_Accepted in H as ([] & Hg & H). constructor; auto.
Qed.

(** An NFT cannot be sent on.  In an accepted transaction every NFT group with
    an amount in the outputs mints exactly the amount of its description: when
    what goes out is what comes in, the description says that nothing is ever
    minted. *)
Theorem nft_never_sent env iter mgr tx nHeight nIn nOut m g `{!MapOrder iter} :
  CheckTokens env iter mgr tx nHeight = Accepted (nIn, nOut, m) -> hasFlag g NFT_TOKEN = true ->
  0 < bal_output (balance_of m g) ->
  exists c d, GetTokenGroupCreation mgr g = Some c /\ tgc_description c = TGNFT d /\
    nft_nMintAmount d = u64 (bal_output (balance_of m g) - bal_input (balance_of m g)) /\
    (bal_output (balance_of m g) = bal_input (balance_of m g) -> nft_nMintAmount d = 0).
Proof.
  unfold CheckTokens. intros H Hf Ho. destruct (_ <=? _); [|by simplify_eq].
  apply bind_Accepted in H as ([[a b] m'] & _ & H). apply bind_Accepted in H as (u & _ & H).
  apply bind_Accepted in H as ([] & Hn & H). simplify_eq. apply nft_checks_all in Hn.
  assert (g ∈ iter m) as Hg.
  { rewrite map_order. destruct (m !! g) as [b|] eqn:E.
    - apply list_elem_of_fmap. exists (g, b). split; [done|]. by apply elem_of_map_to_list.
    - unfold balance_of in Ho. rewrite E in Ho. cbn in Ho. lia. }
  eapply Forall_forall in Hn; [|exact Hg]. unfold nft_check in Hn. rewrite Hf, (proj2 (Z.ltb_lt _ _) Ho) in Hn. cbn [andb] in Hn.
  apply bind_Accepted in Hn as (c & Hc & Hn). destruct (GetTokenGroupCreation mgr g) as [c'|]; [|done]. cbn in Hc. simplify_eq.
  destruct (tgc_description c) as [| |d|] eqn:Ed; try done. apply require_Accepted, Z.eqb_eq in Hn.
  exists c, d. split_and!; [done..|]. intros E. rewrite Hn, E, Z.sub_diag. done.
Qed.
