(* ===== verification/BetMint.v ===== *)
(** * Token descriptions, events and betting tokens
    (src/src/tokens/tokengroupconfiguration.cpp, src/src/evo/verifiable.cpp,
    src/src/betting/events.cpp, src/src/betting/mint.cpp)

    The checks of the transactions that create groups, the state of an event,
    and the requests that mint betting tokens, with the part of ConnectBlock
    that puts them together. *)

From S2P Require Import Prelude Serialize Flushable Params BetTx BetDB BetKeys BetView Coins BetCommon.
From S2P Require Import TokenGroups TokenDesc TokenManager TokenCheck TokenCheckProofs.

#[local] Arguments isSubgroup : simpl never.
#[local] Arguments hasFlag : simpl never.

(** ** Events *)
Definition BetEventType_UNKNOWN : Z := 0.
Definition BetEventType_PEERLESS : Z := 1.
Definition BetEventType_FIELD : Z := 2.

Record CBetEvent := { bev_type : Z; bev_nEventId : Z }.

Definition CreateBetEventFromDB (bettingsViewCache : CBettingsView) (nEventId : Z) : option CBetEvent :=
  if dbRead (events bettingsViewCache) nEventId then Some {| bev_type := BetEventType_PEERLESS; bev_nEventId := nEventId |}
  else if dbRead (fieldEvents bettingsViewCache) nEventId
  then Some {| bev_type := BetEventType_FIELD; bev_nEventId := nEventId |}
  else None.

Definition IsOpen (e : CBetEvent) (bettingsViewCache : CBettingsView) (nTime : Z) : bool :=
  if bev_type e =? BetEventType_PEERLESS then
    if dbExists (results bettingsViewCache) (bev_nEventId e) then false
    else
      match dbRead (events bettingsViewCache) (bev_nEventId e) with
      | None => false
      | Some eventDBItem => negb (be_nStartTime (ee_base eventDBItem) <=? nTime)
      end
  else if bev_type e =? BetEventType_FIELD then
    if dbExists (fieldResults bettingsViewCache) (bev_nEventId e) then false
    else
      match dbRead (fieldEvents bettingsViewCache) (bev_nEventId e) with
      | None => false
      | Some eventDBItem => negb (fev_nStartTime eventDBItem <=? nTime)
      end
  else false.

(** ** Signatures *)
Definition SignerType_MGT : Z := 1.

(** IsValid of a key or a signature. *)
Definition bls_valid (bytes : list Z) : bool := negb (bls_null bytes).

Definition CBLSSignature_VerifyInsecure (env : TokenEnv) (sig pubKey : list Z) (hash : uint256) : bool :=
  if negb (bls_valid sig) || negb (bls_valid pubKey) then false else VerifyInsecure env pubKey hash sig.

Definition GetSignatureHash (env : TokenEnv) (d : CTokenGroupDescriptionBetting) : uint256 :=
  Hash env (CTokenGroupDescriptionBetting_hashed d).

(** boost::get on the alternative of the description. *)
Definition get_MGT (d : CTokenGroupDescriptionVariant) : option CTokenGroupDescriptionMGT :=
  match d with TGMGT d => Some d | _ => None end.

Definition VerifyBLSSignature (env : TokenEnv) (mgr : CTokenGroupManager) (d : CTokenGroupDescriptionBetting) : result unit :=
  if bt_signerType d =? SignerType_MGT then
    tgMGT ← expect (tgMGTCreation mgr) grp_bad_token_signer;
    let tgID := gi_associatedGroup (tgc_tokenGroupInfo tgMGT) in
    mgtDesc ← expect (GetTokenGroupDescription get_MGT mgr tgID) grp_bad_token_signer;
    _ ← require (bool_decide (bt_signerHash d = Hash env (Serialize bytesc tgID))) grp_bad_token_signer;
    _ ← require (bls_valid (bt_blsPubKey d)) grp_bad_token_pubkey;
    _ ← require (bool_decide (bt_blsPubKey d = mgt_blsPubKey mgtDesc)) grp_bad_token_pubkey;
    require (CBLSSignature_VerifyInsecure env (bt_blsSig d) (bt_blsPubKey d) (GetSignatureHash env d))
      grp_bad_token_signature
  else Rejected grp_bad_token_signertype.

(** ** Transactions that create groups *)
Section Config.
Context (env : TokenEnv) (mgr : CTokenGroupManager).

Definition MAX_TX_NFT_DATA : Z := 98300.


Definition CheckGroupConfigurationTxBase (tx : CTransaction) (nHeightPrev : Z) : result unit :=
  _ ← require (negb (nHeightPrev + 1 <? ATPStartHeight env)) premature_op_group_tx;
  require (IsAnyOutputGroupedCreation tx TokenGroupIdFlags_NONE) grp_bad_tx.

Definition bad_version (nVersion : Z) : bool := (nVersion =? 0) || (TokenGroupDescription_CURRENT_VERSION <? nVersion).

Definition CheckGroupConfigurationTxRegular (tx : CSpecialTx) (nHeightPrev : Z) : result unit :=
  _ ← CheckGroupConfigurationTxBase tx nHeightPrev;
  _ ← require (tx_nType tx =? TRANSACTION_GROUP_CREATION_REGULAR) grp_bad_protx_type;
  match GetTxPayload (bls_ok env) tx with
  | Some (TGRegular tgDesc) =>
      _ ← require (negb (16 <? reg_nDecimalPos tgDesc)) grp_bad_param;
      require (negb (bad_version (reg_nVersion tgDesc))) grp_bad_version
  | _ => Rejected grp_bad_protx_payload
  end.

Definition CheckGroupConfigurationTxMGT (tx : CSpecialTx) (nHeightPrev : Z) : result unit :=
  _ ← CheckGroupConfigurationTxBase tx nHeightPrev;
  _ ← require (tx_nType tx =? TRANSACTION_GROUP_CREATION_MGT) grp_bad_protx_type;
  match GetTxPayload (bls_ok env) tx with
  | Some (TGMGT tgDesc) =>
      _ ← require (negb (16 <? mgt_nDecimalPos tgDesc)) grp_bad_param;
      _ ← require (bls_valid (mgt_blsPubKey tgDesc)) grp_bad_key;
      require (negb (bad_version (mgt_nVersion tgDesc))) grp_bad_version
  | _ => Rejected grp_bad_protx_payload
  end.

(** [!size() > MAX]: the negation is taken first. *)
Definition CheckGroupConfigurationTxNFT (tx : CSpecialTx) (nHeightPrev : Z) : result unit :=
  _ ← CheckGroupConfigurationTxBase tx nHeightPrev;
  _ ← require (tx_nType tx =? TRANSACTION_GROUP_CREATION_NFT) grp_bad_protx_type;
  match GetTxPayload (bls_ok env) tx with
  | Some (TGNFT tgDesc) =>
      let not_size := if (length (nft_vchData tgDesc) =? 0)%nat then 1 else 0 in
      _ ← require (negb (MAX_TX_NFT_DATA <? not_size)) grp_bad_data;
      require (negb (bad_version (nft_nVersion tgDesc))) grp_bad_version
  | _ => Rejected grp_bad_protx_payload
  end.

Definition CheckGroupConfigurationTxBetting (tx : CSpecialTx) (nHeightPrev nTimePrev : Z) (bettingsView : CBettingsView) :
    result unit :=
  _ ← CheckGroupConfigurationTxBase tx nHeightPrev;
  _ ← require (tx_nType tx =? TRANSACTION_GROUP_CREATION_BETTING) grp_bad_protx_type;
  match GetTxPayload (bls_ok env) tx with
  | Some (TGBetting tgDesc) =>
      event ← expect (CreateBetEventFromDB bettingsView (bt_nEventId tgDesc)) grp_bad_event;
      _ ← require (IsOpen event bettingsView nTimePrev) grp_bad_event;
      _ ← require (negb (bad_version (bt_nVersion tgDesc))) grp_bad_version;
      VerifyBLSSignature env mgr tgDesc
  | _ => Rejected grp_bad_protx_payload
  end.
End Config.

(** ** Requests to mint betting tokens *)
Record RegularBetMintRequest := {
  req_betEvent : CBetEvent;
  req_betData : list Z;
  req_nBetCosts : Z;
  req_tgID : CTokenGroupID;
  req_tgCreation : CTokenGroupCreation;
  req_balance : CTokenGroupBalance;
}.

(** The constructor initialises its event with itself: [betEvent] is whatever
    the memory holds; nEventID is not used. *)
Definition RegularBetMintRequest_of (betEvent : CBetEvent) (nEventID nWGRSpent : Z) (tgID : CTokenGroupID)
    (tgCreation : CTokenGroupCreation) (tgMintMeltBalanceItem : CTokenGroupBalance) : RegularBetMintRequest :=
  {| req_betEvent := betEvent; req_betData := GetSubGroupData tgID; req_nBetCosts := nWGRSpent; req_tgID := tgID;
     req_tgCreation := tgCreation; req_balance := tgMintMeltBalanceItem |}.

Definition get_Betting (d : CTokenGroupDescriptionVariant) : option CTokenGroupDescriptionBetting :=
  match d with TGBetting d => Some d | _ => None end.

Section Mint.
Context (env : TokenEnv) (iter : balances -> list CTokenGroupID) (mgr : CTokenGroupManager).

Definition BetTokensMinted (tgMintMeltBalance : balances) : bool :=
  existsb (fun g => hasFlag g BETTING_TOKEN &&
                    (bal_input (balance_of tgMintMeltBalance g) <? bal_output (balance_of tgMintMeltBalance g)))
    (iter tgMintMeltBalance).

Definition IsRegularBetMintRequest (nWGRSpent : Z) (tgMintMeltBalance : balances) : bool :=
  if nWGRSpent <=? 0 then false
  else if negb (size tgMintMeltBalance =? 1)%nat then false
  else forallb (fun g => let b := balance_of tgMintMeltBalance g in
                  hasFlag g BETTING_TOKEN && negb (numOutputs b <=? 0) && (numInputs b =? 0)) (iter tgMintMeltBalance).

Definition IsParlayBetMintRequest (nWGRSpent : Z) (tgMintMeltBalance : balances) : bool :=
  if nWGRSpent <=? 0 then false
  else if (size tgMintMeltBalance <=? 1)%nat then false
  else forallb (fun g => let b := balance_of tgMintMeltBalance g in
                  hasFlag g PARLAY_TOKEN && negb (numOutputs b <=? 1) && (numInputs b =? 0)) (iter tgMintMeltBalance).

(** The loop leaves the last group of the map. *)
Definition CreateRegularBetMintRequest (garbage : CBetEvent) (bettingsViewCache : CBettingsView) (nWGRSpent : Z)
    (tgMintMeltBalance : balances) : result RegularBetMintRequest :=
  let '(tgID, item) :=
    match last (iter tgMintMeltBalance) with
    | Some g => (g, balance_of tgMintMeltBalance g)
    | None => (NoGroup, CTokenGroupBalance_init)
    end in
  tgCreation ← expect (GetTokenGroupCreation mgr tgID) op_group_bad_mint;
  tgDesc ← expect (get_Betting (tgc_description tgCreation)) undefined_access;
  betEvent ← expect (CreateBetEventFromDB bettingsViewCache (bt_nEventId tgDesc)) grp_bad_event;
  Accepted (RegularBetMintRequest_of garbage (bev_nEventId betEvent) nWGRSpent tgID tgCreation item).

Definition GetBetMintRequest (garbage : CBetEvent) (bettingsViewCache : CBettingsView) (nWGRSpent : Z)
    (tgMintMeltBalance : balances) : result (option RegularBetMintRequest) :=
  if negb (BetTokensMinted tgMintMeltBalance) then Accepted None
  else if IsRegularBetMintRequest nWGRSpent tgMintMeltBalance then
    req ← CreateRegularBetMintRequest garbage bettingsViewCache nWGRSpent tgMintMeltBalance;
    Accepted (Some req)
  else if IsParlayBetMintRequest nWGRSpent tgMintMeltBalance then Rejected op_group_bad_mint
  else Rejected op_group_bad_mint.

(** The stream of the bet of the request.  Of the three arguments of the
    constructor, the first two are the type and the version of the stream, and
    the third, PROTOCOL_VERSION, is written to it. *)
Definition PROTOCOL_VERSION : Z := 70930.

Definition bet_stream (req : RegularBetMintRequest) : list Z :=
  ser_writedata32 PROTOCOL_VERSION ++ Serialize bytesc (req_betData req).

Definition GetBettingTx {A} (c : codec A) (req : RegularBetMintRequest) : option A := DeserializeBettingTx c (bet_stream req).

(** [Accepted None]: false. *)
Definition GetOdds (req : RegularBetMintRequest) (bettingsViewCache : CBettingsView) : result (option Z) :=
  let betEvent := req_betEvent req in
  if bev_type betEvent =? BetEventType_PEERLESS then
    let betTx := GetBettingTx CPeerlessBetTx_codec req in
    match dbRead (events bettingsViewCache) (bev_nEventId betEvent) with
    | None => Accepted None
    | Some plEvent =>
        betTx ← expect betTx undefined_access;
        Accepted (Some (GetBetPotentialOdds {| leg_nEventId := bev_nEventId betEvent; leg_nOutcome := pb_nOutcome betTx |}
                          (ee_base plEvent)))
    end
  else if bev_type betEvent =? BetEventType_FIELD then
    let betTx := GetBettingTx CFieldBetTx_codec req in
    match dbRead (fieldEvents bettingsViewCache) (bev_nEventId betEvent) with
    | None => Accepted None
    | Some fEvent =>
        betTx ← expect betTx undefined_access;
        Accepted (Some (GetBetPotentialOdds_field
          {| fleg_nEventId := bev_nEventId betEvent; fleg_nOutcome := fb_nOutcome betTx;
             fleg_nContenderId := fb_nContenderId betTx |} fEvent))
    end
  else Accepted None.

Definition Validate (req : RegularBetMintRequest) (bettingsViewCache : CBettingsView) (nAdjustedTime : Z) : result unit :=
  let nBetCosts := req_nBetCosts req in
  _ ← require (negb ((nBetCosts <? MinBetPayoutRange (BetCommon.Params env) * COIN) ||
                     (MaxBetPayoutRange (BetCommon.Params env) * COIN <? nBetCosts))) grp_bad_bet_amount;
  _ ← require (IsOpen (req_betEvent req) bettingsViewCache (u32 nAdjustedTime)) grp_bad_event;
  odds ← GetOdds req bettingsViewCache;
  nOdds ← expect odds grp_bad_event;
  let '(ok, nPayout, _) := CalculatePayoutBurnAmounts nBetCosts nOdds in
  _ ← require ok grp_bet_bad_odds;
  require (nPayout =? i64 (bal_output (req_balance req) - bal_input (req_balance req))) grp_bet_bad_costs.

(** The token part of the loop of ConnectBlock over the transactions: the fee
    the bet does not pay, if any. *)
Definition connect_tokens (garbage : CBetEvent) (bettingsViewCache : CBettingsView) (tx : CSpecialTx)
    (nHeight nAdjustedTime txfee : Z) : result (balances * Z) :=
  '(nWagerrIn, nWagerrOut, gBalance) ← CheckTokens env iter mgr tx nHeight;
  regularBetMintRequest ← GetBetMintRequest garbage bettingsViewCache (i64 (nWagerrIn - nWagerrOut)) gBalance;
  match regularBetMintRequest with
  | None => Accepted (gBalance, txfee)
  | Some req =>
      _ ← Validate req bettingsViewCache nAdjustedTime;
      Accepted (gBalance, i64 (txfee - req_nBetCosts req))
  end.
End Mint.

(** ** No betting token can be minted *)
Lemma WriteCompactSize_cons (data : list Z) :
  exists c tail, Serialize bytesc data = c :: tail /\ byte c /\ (c = Z.of_nat (length tail) \/ (200 < length tail)%nat).
Proof.
  cbn [Serialize bytesc]. unfold WriteCompactSize. set (n := Z.of_nat (length data)).
  assert (0 <= n) by lia. destruct (Z.ltb_spec n 253).
  - exists n, data. unfold ser_writedata8. rewrite le_bytes_1 by (unfold byte; range). split_and!; [done|unfold byte; range|by left].
  - assert (forall c k x, byte c -> exists c' tail, (ser_writedata8 c ++ le_bytes k x) ++ data = c' :: tail /\ byte c' /\
      (c' = Z.of_nat (length tail) \/ (200 < length tail)%nat)) as Hc.
    { intros c k x Hc. exists c, (le_bytes k x ++ data). unfold ser_writedata8. rewrite le_bytes_1 by done.
      split_and!; [done|done|right]. rewrite length_app. lia. }
    repeat case_match; apply Hc; unfold byte; range.
Qed.

Lemma peerless_stream c tail :
  byte c -> Unserialize CPeerlessBetTx_codec (ser_writedata32 PROTOCOL_VERSION ++ c :: tail) =
    Some (Build_CPeerlessBetTx PROTOCOL_VERSION c, tail).
Proof.
  intros Hc. change (c :: tail) with ([c] ++ tail). rewrite <- le_bytes_1 by done.
  unfold CPeerlessBetTx_codec. cbn [Unserialize isoc pairc]. unfold ser_writedata32, u32c, u8c. cbn [Unserialize uintc].
  rewrite (ser_readdata_small 4) by (unfold PROTOCOL_VERSION; range). cbn [mbind option_bind]. rewrite (ser_readdata_small 1) by (unfold byte in Hc; range). done.
Qed.

Lemma field_stream c tail t rest :
  byte c -> Unserialize CFieldBetTx_codec (ser_writedata32 PROTOCOL_VERSION ++ c :: tail) = Some (t, rest) ->
  fb_nOutcome t = c /\ length tail = (4 + length rest)%nat.
Proof.
  intros Hc. change (c :: tail) with ([c] ++ tail). rewrite <- le_bytes_1 by done.
  unfold CFieldBetTx_codec. cbn [Unserialize isoc pairc]. unfold ser_writedata32, u32c, u8c. cbn [Unserialize uintc].
  rewrite (ser_readdata_small 4) by (unfold PROTOCOL_VERSION; range). cbn [mbind option_bind]. rewrite (ser_readdata_small 1) by (unfold byte in Hc; range).
  cbn [mbind option_bind]. unfold ser_readdata, read_bytes. case_decide as Hd; [|done]. cbn. intros H. simplify_eq.
  split; [done|]. rewrite length_drop. lia.
Qed.

(** The stream of a request never holds a bet: a peerless bet is read only from
    a request without data, and then with outcome 0; a field bet only with
    outcome 4.  Neither is an outcome of a bet. *)
Lemma GetOdds_zero req v nOdds : GetOdds req v = Accepted (Some nOdds) -> nOdds = 0.
Proof.
  unfold GetOdds, GetBettingTx, DeserializeBettingTx, bet_stream. cbv zeta.
  destruct (WriteCompactSize_cons (req_betData req)) as (c & tail & -> & Hc & Hlen).
  destruct (bev_type _ =? BetEventType_PEERLESS).
  - destruct (dbRead (events v) _); [|done]. rewrite peerless_stream by done. destruct tail as [|x tail]; [|done].
    cbn [expect mbind result_bind]. intros H. simplify_eq. destruct Hlen as [->|Hlen]; [done|cbn in Hlen; lia].
  - destruct (bev_type _ =? BetEventType_FIELD); [|done]. destruct (dbRead (fieldEvents v) _); [|done].
    destruct (Unserialize CFieldBetTx_codec _) as [[t rest]|] eqn:E; [|done]. destruct rest; [|done].
    destruct (field_stream _ _ _ _ Hc E) as [Ho Hl]. cbn [expect mbind result_bind]. intros H. injection H as <-.
    unfold GetBetPotentialOdds_field. cbn [fleg_nContenderId fleg_nOutcome]. rewrite Ho.
    destruct (fev_contenders _ !! _); [|done]. destruct Hlen as [->|Hlen]; [|cbn in Hl; lia]. by rewrite Hl.
Qed.

(** No request to mint betting tokens is valid, whatever the event, the
    amounts and the bet. *)
Lemma Validate_never env req v nTime : accepts (Validate env req v nTime) = false.
Proof.
  unfold Validate. cbv zeta. destruct (require _ grp_bad_bet_amount); [|done]. cbn [mbind result_bind].
  destruct (require _ grp_bad_event); [|done]. cbn [mbind result_bind].
  destruct (GetOdds req v) as [[nOdds|]|] eqn:E; [|done..]. cbn [mbind result_bind expect].
  by rewrite (GetOdds_zero _ _ _ E).
Qed.

(** C38: No betting token is ever minted.  When a block with the transaction is
    accepted, no group with the betting flag has more going out than coming in
    (and no fee is taken for a bet): the bet of a request is read from a stream
    that starts with the protocol version, so that every request fails. *)
Theorem connect_tokens_no_bets env iter mgr garbage v tx nHeight nTime txfee m fee g `{!MapOrder iter} :
  connect_tokens env iter mgr garbage v tx nHeight nTime txfee = Accepted (m, fee) ->
  hasFlag g BETTING_TOKEN = true ->
  bal_output (balance_of m g) <= bal_input (balance_of m g) /\ fee = txfee.
Proof.
  unfold connect_tokens. intros H Hg. apply bind_Accepted in H as ([[nIn nOut] gBalance] & _ & H).
  apply bind_Accepted in H as ([req|] & Hr & H).
  { apply bind_Accepted in H as (u & Hv & _). pose proof (Validate_never env req v nTime) as Hn. by rewrite Hv in Hn. }
  simplify_eq. split; [|done]. unfold GetBetMintRequest in Hr. destruct (BetTokensMinted iter m) eqn:Em; cbn [negb] in Hr.
  { repeat case_match; try done. by apply bind_Accepted in Hr as (? & _ & ?). }
  destruct (m !! g) as [b|] eqn:E; [|by unfold balance_of; rewrite E].
  apply Z.nlt_ge. intros Hlt. apply not_true_iff_false in Em. apply Em. apply existsb_exists. exists g.
  rewrite Hg. split; [|by apply Z.ltb_lt]. apply list_elem_of_In. rewrite map_order.
  apply list_elem_of_fmap. exists (g, b). split; [done|]. by apply elem_of_map_to_list.
Qed.

(** ** Parlay groups *)

(** A coin that is there and has no group. *)
Definition plain_coin (env : TokenEnv) (p : COutPoint) : Prop :=
  IsSpent (te_AccessCoin env p) = false /\
  CTokenGroupInfo_of (scriptPubKey (coin_out (te_AccessCoin env p))) =
    {| gi_associatedGroup := NoGroup; gi_quantity := 0; gi_invalid := false |}.

Lemma check_inputs_plain env mgr vin n any m :
  Forall (plain_coin env) vin -> exists n' any', check_inputs env mgr vin n any m = Accepted (n', any', m).
Proof.
  intros HF. revert n any. induction HF as [|p vin [Hs Hi] HF IH]; intros n any; cbn [check_inputs].
  { by eexists _, _. }
  cbv zeta. rewrite Hs. case_match; [apply IH|]. unfold input_step. rewrite Hi. apply IH.
Qed.

Lemma iter_singleton (iter : balances -> list CTokenGroupID) `{!MapOrder iter} (g : CTokenGroupID) (b : CTokenGroupBalance) :
  iter {[g := b]} = [g].
Proof.
  assert (iter {[g := b]} ≡ₚ [g]) as H by (rewrite map_order, map_to_list_singleton; done).
  symmetry in H. by apply Permutation_singleton_l in H.
Qed.

(** Any number of parlay tokens can be minted by anyone.  A transaction whose
    one token output is of a group with the parlay flag and no other is
    accepted, though nothing of the group is spent and no such group was ever
    created: a parlay group may mint without an authority, and only betting
    groups are sent to the check of bets. *)
Theorem parlay_minted_freely env iter mgr garbage v (tx : CSpecialTx) nHeight nTime txfee outp g q `{!MapOrder iter} :
  u32 (ATPStartHeight env) <= u32 nHeight -> ManagementTokensCreated mgr = true ->
  tx_vout tx = [outp] -> Forall (plain_coin env) (tx_vin tx) ->
  CTokenGroupInfo_of (scriptPubKey outp) = {| gi_associatedGroup := g; gi_quantity := q; gi_invalid := false |} ->
  0 < q <= CAmount_max -> isSubgroup g = false ->
  hasFlag g PARLAY_TOKEN = true -> hasFlag g BETTING_TOKEN = false -> hasFlag g NFT_TOKEN = false ->
  exists m, connect_tokens env iter mgr garbage v tx nHeight nTime txfee = Accepted (m, txfee) /\
            bal_input (balance_of m g) = 0 /\ bal_output (balance_of m g) = q.
Proof.
  intros Hh Hmgt Hout Hin Hi Hq Hsub Hp Hb Hn.
  set (b := CTokenGroupBalance_init <| numOutputs := 1 |> <| bal_output := q |>).
  assert (g <> NoGroup) as Hg by (intros ->; by cbn in Hp).
  assert (forall n, check_outputs (tx_vout tx) n ∅ = Accepted (i64 (n + nValue outp), {[g := b]})) as Eo.
  { intros n. rewrite Hout. cbn [check_outputs]. unfold output_step. rewrite Hi. cbn [gi_invalid gi_associatedGroup gi_quantity].
    rewrite bool_decide_eq_false_2 by done. cbv zeta. rewrite (proj2 (Z.ltb_lt 0 q)) by lia.
    rewrite balance_of_upd, bool_decide_eq_true_2 by done.
    match goal with |- context [CAmount_max - ?x <? q] => change x with 0 end.
    rewrite (proj2 (Z.ltb_ge (CAmount_max - 0) q)) by lia. cbn [mbind result_bind].
    unfold upd_balance. rewrite lookup_insert_eq, lookup_empty. rewrite insert_insert_eq. done. }
  assert (forall any, final_checks env tx any [g] {[g := b]} = Accepted {[g := b]}) as Ef.
  { intros any. cbn [final_checks]. assert (balance_of {[g := b]} g = b) as -> by (unfold balance_of; by rewrite lookup_singleton_eq).
    unfold final_check, creation_step. change (ctrlOutputPerms b) with 0. change (hasCapability 0 CTRL) with false.
    cbn [andb mbind result_bind]. unfold balance_rules. rewrite Hp, Hb, Hn. cbv zeta.
    change (bal_output b) with q. change (bal_input b) with 0. rewrite (proj2 (Z.ltb_lt 0 q)) by lia.
    rewrite (proj2 (Z.ltb_ge q 0)) by lia. rewrite map_size_singleton. 
    change (ctrlPerms b) with 0. change (hasCapability 0 MINT) with false. change (numInputs b) with 0. change (numOutputs b) with 1.
    change (Z.land (Z.land (ctrlOutputPerms b) ALL) _ =? 0) with true. cbn -[insert singletonM].
    by rewrite insert_singleton_eq. }
  destruct (check_inputs_plain env mgr (tx_vin tx) 0 false {[g := b]} Hin) as (nIn & any & Ei).
  exists {[g := b]}. unfold balance_of at 1 2. rewrite lookup_singleton_eq. split; [|done].
  unfold connect_tokens, CheckTokens. rewrite (proj2 (Z.leb_le _ _) Hh). unfold CheckTokenGroups.
  rewrite Eo. cbn [mbind result_bind]. rewrite Ei. cbn [mbind result_bind]. rewrite !iter_singleton by done. cbn [foldl].
  unfold subgroup_step. rewrite Hsub, iter_singleton, Ef by done. cbn [mbind result_bind].
  unfold IsAnyOutputGrouped, IsOutputGrouped. rewrite Hout. cbn [existsb]. rewrite Hi. cbn [gi_invalid gi_associatedGroup orb].
  rewrite bool_decide_eq_false_2 by done. cbn [negb orb]. rewrite Hmgt. unfold CheckFees, fee_outputs. rewrite Hout. cbn [foldl].
  rewrite Hi. cbn [gi_invalid mbind option_bind negb]. destruct (tgMGTCreation mgr); cbn [require mbind result_bind];
    [destruct (fee_balances _); cbn [require mbind result_bind]|].
  all: rewrite iter_singleton by done; cbn [nft_checks]; unfold nft_check; rewrite Hn; cbn [andb mbind result_bind].
  all: unfold GetBetMintRequest, BetTokensMinted; rewrite iter_singleton by done; cbn [existsb]; rewrite Hb; done.
Qed.
