(* ===== verification/Witnesses.v ===== *)
(** * Instances of the theorems

    A concrete chain environment, event and views, and for every theorem with
    hypotheses an instance in which all of them hold. *)

From S2P Require Import Prelude Serialize BetTx Flushable Params BetDB BetKeys BetView BetCommon CheckTx.
From S2P Require Import ProcessTx UndoTx UndoProofs Payouts PayoutProofs Dice GamePayouts FieldPayouts.
From S2P Require Import GameProofs Block BlockProofs BlockUndo Double.

(** ** A small network: all versions active from height 10 on *)
Definition net_params : ConsensusParams := {|
  nWagerrProtocolV1StartHeight := 1; nWagerrProtocolV2StartHeight := 5;
  nWagerrProtocolV3StartHeight := 10; nWagerrProtocolV4StartHeight := 10;
  nWagerrProtocolV5StartHeight := 1000000; nQuickGamesEndHeight := 1000000;
  nBetBlocksIndexTimespanV2 := 23040; nBetBlocksIndexTimespanV3 := 90050;
  nOMNORewardPermille := 24; nDevRewardPermille := 6;
  nMinBetPayoutRange := 25; nMaxBetPayoutRange := 10000; nMaxParlayBetPayoutRange := 4000;
  nBetPlaceTimeoutBlocks := 120; nMaxParlayLegs := 5 |}.

(** Addresses and scripts: one byte for the kind and one for the key. *)
Definition encode (d : CTxDestination) : list Z :=
  match d with CNoDestination => [] | CKeyID h => [1; h] | CScriptID h => [2; h] end.

Definition decode (s : list Z) : CTxDestination :=
  match s with [1; h] => CKeyID h | [2; h] => CScriptID h | _ => CNoDestination end.

Definition net_oracle : COracle := {|
  strAddress := [1; 7]; strDevPayoutAddress := [1; 8]; strOMNOPayoutAddress := [1; 9];
  nStartHeight := 0; nEndHeight := 1000000 |}.

(** The transaction every input spends: its output 0 pays the oracle 100. *)
Definition funding_tx : CTransaction := {|
  tx_hash := 77; tx_vin := []; tx_vout := [{| nValue := 100; scriptPubKey := [1; 7] |}] |}.

Definition net : ChainEnv := {|
  BetCommon.Params := net_params;
  Oracles := [net_oracle];
  EncodeDestination := encode;
  DecodeDestination := decode;
  ExtractDestination := fun s => match decode s with CNoDestination => None | d => Some d end;
  ExtractDestinations := fun s => match decode s with CNoDestination => None | d => Some [d] end;
  GetScriptForDestination := encode;
  GetTransaction := fun h => if h =? 77 then Some funding_tx else None;
  GetTransactionInView := fun h => if h =? 77 then Some funding_tx else None;
  IsGenerated := fun _ => false;
  AccessCoin := fun _ => {| nValue := 100; scriptPubKey := [1; 7] |};
  SerializeHash := fun o => op_hash o + op_n o;
  ChainActiveHeight := 100;
  Spork20 := 1000000;
  c_pow := dmul;
  open_cast := fun _ => 0 |}.

(** ** An open event, a result and a bet on it *)
Definition ev1 : CPeerlessBaseEventDB :=
  CPeerlessBaseEventDB_init <| be_nEventId := 1 |> <| be_nStartTime := 5000 |>
    <| be_nHomeOdds := 20000 |> <| be_nAwayOdds := 30000 |> <| be_nDrawOdds := 40000 |>
    <| be_nSpreadPoints := 50 |> <| be_nSpreadHomeOdds := 19000 |> <| be_nSpreadAwayOdds := 19000 |>
    <| be_nTotalPoints := 300 |> <| be_nTotalOverOdds := 18000 |> <| be_nTotalUnderOdds := 22000 |>
    <| be_nEventCreationHeight := 50 |> <| be_fLegacyInitialHomeFavorite := true |>.

Definition xev1 : CPeerlessExtendedEventDB := CPeerlessExtendedEventDB_init <| ee_base := ev1 |>.

Definition rs1 : CPeerlessResultDB :=
  {| rs_nEventId := 1; rs_nResultType := ResultType_value standardResult; rs_nHomeScore := 200; rs_nAwayScore := 100 |}.

Definition leg1 : CPeerlessLegDB := {| leg_nEventId := 1; leg_nOutcome := 1 |}.

Definition key1 : PeerlessBetKey :=
  {| bk_blockHeight := 60; bk_outPoint := {| op_hash := 5; op_n := 0 |} |}.

Definition bet1 : CPeerlessBetDB := CPeerlessBetDB_new (100 * COIN) (CKeyID 3) [leg1] [ev1] 1000.

(** The event is open. *)
Definition view_open : CBettingsView := CBettingsView_empty <| events := {[ 1 := xev1 ]} |>.

(** The event is resulted and has the bet. *)
Definition view_resulted : CBettingsView :=
  view_open <| results := {[ 1 := rs1 ]} |> <| bets := {[ key1 := bet1 ]} |>.

Definition prev_index : CBlockIndex := {| nHeight := 99; vResultIDs := [1] |}.

Definition ctx1 : TxCtx := {|
  cx_height := 100; cx_blockTime := 1000; cx_outPoint := {| op_hash := 6; op_n := 0 |};
  cx_bettingTxId := 6; cx_betAmount := 100 * COIN; cx_address := CKeyID 3; cx_v3 := true |}.

Lemma view_open_wf : view_wf view_open.
Proof.
  split; intros id e; simpl; rewrite ?lookup_empty; [|done..].
  by intros [<- <-]%lookup_singleton_Some.
Qed.

Lemma view_open_fresh : fresh_for view_open (ux_of ctx1).
Proof. by split. Qed.

Lemma ev1_odds_ok : event_odds_ok ev1.
Proof. unfold event_odds_ok, odds_ok, asian_max, BET_ODDSDIVISOR. simpl. lia. Qed.

Lemma ev1_settled : open_and_settled ev1 rs1.
Proof. split; simpl; lia. Qed.

(** ** Instances *)
Definition pbt1 : CPeerlessBetTx := {| pb_nEventId := 1; pb_nOutcome := 1 |}.

(** The view and the payouts after settling the bet. *)
Definition settled : CBettingsView * payouts :=
  match GetPLBetPayoutsV3 net view_resulted prev_index ([], []) with
  | Some (v, p, _) => (v, p)
  | None => (view_resulted, ([], []))
  end.

Lemma settled_eq : GetPLBetPayoutsV3 net view_resulted prev_index ([], []) = Some (settled.1, settled.2, true).
Proof. vm_compute. reflexivity. Qed.

Lemma GetPLBetPayoutsV3_idempotent_witness :
  length (settled.2).1 = 3%nat /\
  GetPLBetPayoutsV3 net settled.1 prev_index settled.2 = Some (settled.1, settled.2, true).
Proof.
  split; [vm_compute; reflexivity|].
  apply (GetPLBetPayoutsV3_idempotent net view_resulted prev_index ([], [])); [done|apply settled_eq].
Defined.

Lemma UndoPLBetPayouts_restores_witness :
  let '(v2, ok2) := UndoPLBetPayouts net settled.1 prev_index in
  ok2 = true /\
  (kle (seek_height (GetBetSearchStartHeight net (nHeight prev_index + 1))) key1 ->
   match bets view_resulted !! key1, bets v2 !! key1 with
   | Some b, Some b2 => b2 = b <| bet_payoutHeight := bet_payoutHeight b2 |>
   | None, None => True
   | _, _ => False
   end) /\
  (~ kle (seek_height (GetBetSearchStartHeight net (nHeight prev_index + 1))) key1 ->
   bets v2 !! key1 = bets settled.1 !! key1).
Proof.
  apply (UndoPLBetPayouts_restores net view_resulted prev_index ([], []) settled.1 settled.2 true key1);
    [done| |apply settled_eq].
  intros k b Hb. left. simpl in Hb. apply lookup_singleton_Some in Hb as [_ <-]. done.
Defined.

(** ** The block that pays the bet *)
Definition expected1 : expected_payouts := foldl (fun m e => multimap_insert e m) [] (zip settled.2.2 settled.2.1).

Definition stakes1 : list CTxOut := [{| nValue := 0; scriptPubKey := [] |}; {| nValue := 150; scriptPubKey := [1; 7] |}].

Definition mnout1 : CTxOut := {| nValue := 10; scriptPubKey := [1; 4] |}.

Definition coinstake1 : CTransaction := {|
  tx_hash := 88; tx_vin := [{| op_hash := 77; op_n := 0 |}];
  tx_vout := stakes1 ++ vExpectedTxOuts expected1 ++ [mnout1] |}.

Definition vtx1 : list CTransaction := [funding_tx; coinstake1].

Definition vout1 : list CTxOut := stakes1 ++ vExpectedTxOuts expected1.

Lemma stake_size1 : stake_size 160 10 vout1 2.
Proof.
  split; [split; [vm_compute; lia|vm_compute; reflexivity]|]. intros [|[|j]] Hj [H1 H2]; [lia| |lia].
  vm_compute in H2. discriminate.
Qed.

Lemma IsBlockPayoutsValid_spec_witness :
  stake_size 160 10 vout1 2 /\
  exists v' l,
    IsBlockPayoutsValid net view_resulted expected1 vtx1 100 60 10 = Some (v', true) /\
    l ≡ₚ expected1 /\ vExpectedTxOuts l = filter (fun o => 0 < nValue o) (drop 2 vout1) /\
    (forall j e, l !! j = Some e -> payoutsInfo v' !! payout_key 100 88 2 (Z.of_nat j) = Some e.1).
Proof.
  split; [apply stake_size1|].
  destruct (IsBlockPayoutsValid_spec net view_resulted expected1 vtx1 coinstake1 100 60 10 160 10 vout1)
    as (v' & valid & Hv & _ & _ & Hk).
  - split; [reflexivity| |by eexists].
    exists {| op_hash := 77; op_n := 0 |}, funding_tx, {| nValue := 100; scriptPubKey := [1; 7] |}.
    split_and!; reflexivity.
  - vm_compute. reflexivity.
  - vm_compute. reflexivity.
  - intros n. apply lookup_empty.
  - destruct (Hk 2%nat stake_size1) as [Hiff Hl]. cbv zeta in *.
    assert (valid = true) as Ht by (apply Hiff; vm_compute; reflexivity).
    destruct (Hl Ht) as (l & Hp & Hf & _ & Hs & _). rewrite Ht in Hv. exists v', l. by split_and!.
Defined.

Lemma coinstake1_ok : coinstake net vtx1 100 60 coinstake1 stakes1 (vExpectedTxOuts expected1) mnout1.
Proof.
  split; [reflexivity| |by eexists|reflexivity|simpl; lia|vm_compute; reflexivity].
  exists {| op_hash := 77; op_n := 0 |}, [], funding_tx, {| nValue := 100; scriptPubKey := [1; 7] |}.
  split_and!; reflexivity.
Qed.

Lemma IsBlockPayoutsValid_miner_witness :
  exists v', IsBlockPayoutsValid net view_resulted expected1 vtx1 100 60 (nValue mnout1) = Some (v', true).
Proof.
  apply (IsBlockPayoutsValid_miner net view_resulted expected1 vtx1 100 60 coinstake1 stakes1 mnout1).
  - apply coinstake1_ok.
  - vm_compute. repeat constructor.
Defined.

(** A reward of 0, as a refunded quick game adds it. *)
Definition zero_reward : CPayoutInfoDB * CBetOut := (reward_info 100 quickGamesReward, CBetOut_new 0 [1; 9] 0).

Lemma IsBlockPayoutsValid_zero_witness :
  {| nValue := 0; scriptPubKey := [1; 9] |} ∈ vExpectedTxOuts [zero_reward] /\
  IsBlockPayoutsValid net view_resulted [zero_reward] vtx1 100 60 10 <> Some (view_resulted, true).
Proof.
  split; [apply list_elem_of_here|].
  apply (IsBlockPayoutsValid_zero net view_resulted [zero_reward] vtx1 100 60 10 {| nValue := 0; scriptPubKey := [1; 9] |}).
  - apply list_elem_of_here.
  - done.
Defined.

Definition pos1 : PoSBlock :=
  {| mapProofOfStake := 12345; IsProofOfStake := true; CheckProofOfStake := None; GetBlockHash := 1 |}.

Definition block1 : CBlock := {| block_time := 1000; block_vtx := [] |}.

Definition paid1 : CBettingsView * payouts :=
  match version_payouts net (QuickGamesArr [1; 5]) pos1 (fun _ => []) block1 prev_index view_resulted with
  | Some r => r
  | None => (view_resulted, ([], []))
  end.

Lemma GetBettingPayouts_mint_witness :
  exists m,
    GetBettingPayouts net (QuickGamesArr [1; 5]) pos1 (fun _ => []) (Some block1) (Some prev_index)
      view_resulted [] = Some (paid1.1, i64 (total_value (vExpectedTxOuts m)), m) /\
    m ≡ₚ zip paid1.2.2 paid1.2.1 /\ length m = length paid1.2.1 /\ multimap_sorted m.
Proof.
  apply (GetBettingPayouts_mint net (QuickGamesArr [1; 5]) pos1 (fun _ => []) block1 prev_index
           view_resulted [] paid1.1 paid1.2).
  vm_compute. reflexivity.
Defined.

(** ** Settlement *)
Definition st1 : Settlement := complete_bet net true 100 bet1 (win_odds 20000) no_flags.

(** The home side wins by 100: 100 coins at 2.0 are worth 194 coins. *)
Lemma settle_bet_single_witness :
  settle_bet net (results view_resulted) 99 rs1 bet1 = Some (Some st1) /\
  st_gross st1 = 200 * COIN /\ st_effective st1 = 194 * COIN /\
  st_gross st1 <= (bet_betAmount bet1 * Z.max BET_ODDSDIVISOR (GetBetPotentialOdds leg1 ev1)) `div` BET_ODDSDIVISOR /\
  (bet_resultType (st_bet st1) = betResultLose <-> st_effective st1 = 0).
Proof.
  destruct (settle_bet_single net (results view_resulted) 99 rs1 bet1 leg1 ev1 []) as
    (st & Hst & Hrules & _ & _ & _ & Hmax & Hlose & _);
    [vm_compute; congruence|reflexivity|reflexivity|apply ev1_odds_ok|vm_compute; congruence
    |vm_compute; split; congruence|].
  assert (st = st1) as -> by (vm_compute in Hst; vm_compute; congruence).
  destruct (Hrules moneyLineHomeWin eq_refl) as [Hg He]; [unfold in_range; simpl; lia|].
  split; [vm_compute; reflexivity|]. split; [exact Hg|]. split; [exact He|]. split; [exact Hmax|exact Hlose].
Defined.

Lemma GetPLRewardPayoutsV3_half_witness :
  exists rewards,
    (GetPLRewardPayoutsV3 net 100 1000 ([], [])).1 = [] ++ rewards /\
    2 * foldr (fun o acc => bo_nValue o + acc) 0 rewards <= 1000 /\
    Forall (fun o => 0 < bo_nValue o) rewards /\ (length rewards <= 2)%nat /\
    (GetFeePayoutScripts net 100 = None -> rewards = []).
Proof. apply (GetPLRewardPayoutsV3_half net 100 1000 ([], [])). vm_compute. split; congruence. Defined.

(** ** Storage *)
Definition cache1 : CFlushableStorageKV (gmap Z Z) Z Z := (fsWrite (fresh {[ 1 := 10 ]}) 2 20).1.

Lemma CFlushableStorageKV_refines_witness :
  fsRead cache1 2 = fs_view cache1 !! 2 /\
  fsExists cache1 2 = bool_decide (is_Some (fs_view cache1 !! 2)) /\
  (fsWrite cache1 2 30).2 = true /\
  fs_view (fsWrite cache1 2 30).1 = <[2 := 30]> (fs_view cache1) /\
  (fsErase cache1 2).2 = true /\
  fs_view (fsErase cache1 2).1 = delete 2 (fs_view cache1) /\
  fsIterate cache1 2 = seek_entries 2 (sorted_entries (fs_view cache1)).
Proof. apply (CFlushableStorageKV_refines cache1 2 30). Defined.

Lemma CFlushableStorageKV_Flush_witness :
  exists s', fsFlush cache1 = (s', true) /\ fs_changed s' = ∅ /\
    view (fs_db s') = fs_view cache1 /\ fs_view s' = fs_view cache1.
Proof. apply (CFlushableStorageKV_Flush cache1). Defined.

Lemma CBettingDB_ops_witness :
  dbExists (St := gmap Z Z) {[ 1 := 10 ]} 1 = true /\
  dbWrite (St := gmap Z Z) {[ 1 := 10 ]} 1 20 = ({[ 1 := 10 ]}, false).
Proof.
  destruct (CBettingDB_ops (St := gmap Z Z) {[ 1 := 10 ]} 1 20) as [_ H].
  destruct H as (H1 & H2 & _); [vm_compute; eauto|]. by split.
Defined.

Definition tx1 : CTransaction := {|
  tx_hash := 6; tx_vin := [{| op_hash := 77; op_n := 0 |}];
  tx_vout := [{| nValue := 100 * COIN; scriptPubKey := OP_RETURN :: 8 :: [66; 1; 3; 1; 0; 0; 0; 1] |}] |}.

Lemma ProcessBettingTx_wf_witness :
  exists v' ids', ProcessBettingTx net view_open view_open [] tx1 100 block1 true = Some (v', ids') /\
    bets v' <> ∅ /\ view_wf v'.
Proof.
  destruct (ProcessBettingTx net view_open view_open [] tx1 100 block1 true) as [[v' ids']|] eqn:E;
    [|by vm_compute in E].
  exists v', ids'. split_and!; [done| |].
  - intros H. apply (f_equal (option_map (fun r => bool_decide (bets r.1 = ∅)))) in E. simpl in E.
    rewrite H in E. by vm_compute in E.
  - apply (ProcessBettingTx_wf net view_open view_open [] tx1 100 block1 true v' ids'); [apply view_open_wf|exact E].
Defined.

Lemma ParseBettingTx_Encode_witness :
  ParseBettingTx (OP_RETURN :: script_push [66; 1; 3; 1; 0; 0; 0; 1]) = Some (PeerlessBetTx pbt1).
Proof.
  apply (ParseBettingTx_Encode (PeerlessBetTx pbt1)); [|done|vm_compute; reflexivity|done].
  vm_compute. repeat split; congruence.
Defined.

Lemma PeerlessBetKey_order_witness :
  (lex_le (DbTypeToBytes PeerlessBetKey_codec key1) (DbTypeToBytes PeerlessBetKey_codec (bet_key ctx1)) <->
   kle key1 (bet_key ctx1)) /\
  (DbTypeToBytes PeerlessBetKey_codec key1 = DbTypeToBytes PeerlessBetKey_codec (bet_key ctx1) -> key1 = bet_key ctx1).
Proof. apply (PeerlessBetKey_order key1 (bet_key ctx1)); vm_compute; repeat split; congruence. Defined.

Definition bets_cache : CFlushableStorageKV (gmap PeerlessBetKey Z) PeerlessBetKey Z := fresh {[ key1 := 1 ]}.

Lemma seek_height_entries_witness :
  entries_sorted (fsIterate bets_cache (seek_height 50)) /\
  forall k v, (k, v) ∈ fsIterate bets_cache (seek_height 50) <->
    fs_view bets_cache !! k = Some v /\ 50 <= bk_blockHeight k.
Proof.
  apply (seek_height_entries bets_cache 50). intros k v Hk.
  assert (fs_view bets_cache = {[ key1 := 1 ]}) as E by (vm_compute; reflexivity).
  rewrite E in Hk. apply lookup_singleton_Some in Hk as [<- _]. done.
Defined.

Definition fev1 : CFieldEventDB :=
  CFieldEventDB_init <| fev_nEventId := 4 |> <| fev_contenders := {[ 7 := ContenderInfo_new 20000 25000 15000 12000 0 ]} |>.

Definition fleg1 : CFieldLegDB := {| fleg_nEventId := 4; fleg_nOutcome := 1; fleg_nContenderId := 7 |}.

Definition fbet1 : CFieldBetDB := CFieldBetDB_new (100 * COIN) (CKeyID 3) [fleg1] [fev1] 1000.

Definition cgbet1 : CChainGamesBetDB := CChainGamesBetDB_new 2 (10 * COIN) (CKeyID 3) 1000.

Definition qgbet1 : CQuickGamesBetDB := CQuickGamesBetDB_new 0 [4] (100 * COIN) (CKeyID 3) 1000.

Definition undo1 : list CBettingUndoDB := [{| undo_variant := UndoPeerlessEvent xev1; undo_height := 100 |}].

Definition info1 : CPayoutInfoDB := {| pi_betKey := key1; pi_payoutType := bettingPayout |}.

(** The ranges of concrete fields. *)
Ltac ser_ok :=
  repeat (hnf; lazymatch goal with
  | |- _ /\ _ => split
  | |- Forall _ _ => constructor
  | |- True => exact I
  | |- _ = _ => vm_compute; reflexivity
  | |- _ -> False => vm_compute; congruence
  end).

Lemma DbTypes_roundtrip_witness :
  BytesToDbType (CPeerlessBetDB_codec net_params encode decode)
    (DbTypeToBytes (CPeerlessBetDB_codec net_params encode decode) bet1) = Some bet1 /\
  BytesToDbType (CFieldBetDB_codec encode decode) (DbTypeToBytes (CFieldBetDB_codec encode decode) fbet1) = Some fbet1 /\
  BytesToDbType (CChainGamesBetDB_codec encode decode)
    (DbTypeToBytes (CChainGamesBetDB_codec encode decode) cgbet1) = Some cgbet1 /\
  BytesToDbType (CQuickGamesBetDB_codec encode decode)
    (DbTypeToBytes (CQuickGamesBetDB_codec encode decode) qgbet1) = Some qgbet1 /\
  BytesToDbType (vecc (CBettingUndoDB_codec net_params))
    (DbTypeToBytes (vecc (CBettingUndoDB_codec net_params)) undo1) = Some undo1 /\
  BytesToDbType (CPeerlessExtendedEventDB_codec net_params)
    (DbTypeToBytes (CPeerlessExtendedEventDB_codec net_params) xev1) = Some xev1 /\
  BytesToDbType CPayoutInfoDB_codec (DbTypeToBytes CPayoutInfoDB_codec info1) = Some info1.
Proof.
  apply (DbTypes_roundtrip net_params encode decode bet1 fbet1 cgbet1 qgbet1 undo1 xev1 info1); ser_ok.
Defined.

(** ** Odds *)
Lemma GetBetOdds_complementary_witness :
  let outcome o := GetBetOdds (leg_on ev1 o) ev1 rs1 true in
  ((outcome 1, outcome 2, outcome 3) = (win_odds (be_nHomeOdds ev1), lose_odds, lose_odds) \/
   (outcome 1, outcome 2, outcome 3) = (lose_odds, win_odds (be_nAwayOdds ev1), lose_odds) \/
   (outcome 1, outcome 2, outcome 3) = (lose_odds, lose_odds, win_odds (be_nDrawOdds ev1))) /\
  ((outcome 4, outcome 5) = (refund_odds, refund_odds) \/
   (outcome 4, outcome 5) = (win_odds (be_nSpreadHomeOdds ev1), lose_odds) \/
   (outcome 4, outcome 5) = (lose_odds, win_odds (be_nSpreadAwayOdds ev1))) /\
  ((outcome 6, outcome 7) = (refund_odds, refund_odds) \/
   (outcome 6, outcome 7) = (win_odds (be_nTotalOverOdds ev1), lose_odds) \/
   (outcome 6, outcome 7) = (lose_odds, win_odds (be_nTotalUnderOdds ev1))).
Proof. apply (GetBetOdds_complementary ev1 rs1); [apply ev1_settled|reflexivity]. Defined.

Definition ev_asian : CPeerlessBaseEventDB := ev1 <| be_nSpreadPoints := -75 |>.

Lemma GetBetOdds_asian_witness :
  GetBetOdds (leg_on ev_asian 4) ev_asian rs1 true =
    half_half (GetBetOdds (leg_on ev_asian 4) (with_spread ev_asian (toward_zero (be_nSpreadPoints ev_asian))) rs1 true)
              (GetBetOdds (leg_on ev_asian 4) (with_spread ev_asian (from_zero (be_nSpreadPoints ev_asian))) rs1 true).
Proof.
  assert (open_and_settled ev_asian rs1) as Hs by (split; simpl; lia).
  assert (Z.rem (be_nSpreadPoints ev_asian) 50 <> 0) as Hr by (vm_compute; congruence).
  assert (event_odds_ok ev_asian) as Ho by (unfold event_odds_ok, odds_ok, asian_max, BET_ODDSDIVISOR; simpl; lia).
  exact (GetBetOdds_asian ev_asian rs1 Hs Ho eq_refl Hr 4 (or_introl eq_refl)).
Defined.

Definition ev_closed : CPeerlessBaseEventDB := ev1 <| be_nHomeOdds := 0 |>.

Lemma GetBetOdds_closed_market_witness : GetBetOdds leg1 ev_closed rs1 true = refund_odds.
Proof. apply (GetBetOdds_closed_market leg1 ev_closed rs1); vm_compute; congruence. Defined.

Definition frs1 : CFieldResultDB := {| frs_nEventId := 4; frs_nResultType := 1; frs_contendersResults := {[ 7 := 1 ]} |}.

Lemma GetBetOdds_field_nested_witness :
  let c := contender (fev_contenders fev1) (fleg_nContenderId fleg1) in
  let bet o := GetBetOdds_field {| fleg_nEventId := fleg_nEventId fleg1; fleg_nOutcome := o;
                                   fleg_nContenderId := fleg_nContenderId fleg1 |} fev1 frs1 in
  (bet 1, bet 2, bet 3) ∈
    [(lose_odds, lose_odds, lose_odds);
     (lose_odds, lose_odds, win_odds (ci_nShowOdds c));
     (lose_odds, win_odds (ci_nPlaceOdds c), win_odds (ci_nShowOdds c));
     (win_odds (ci_nOutrightOdds c), win_odds (ci_nPlaceOdds c), win_odds (ci_nShowOdds c))] /\
  (frs_contendersResults frs1 !! fleg_nContenderId fleg1 = None ->
   (bet 1, bet 2, bet 3) = (lose_odds, lose_odds, lose_odds)).
Proof. apply (GetBetOdds_field_nested fleg1 fev1 frs1). vm_compute. congruence. Defined.

Lemma CalculateEffectiveOdds_spec_witness :
  CalculateEffectiveOdds 20000 = BET_ODDSDIVISOR + ((20000 - BET_ODDSDIVISOR) * 94) `div` 100 /\
  BET_ODDSDIVISOR <= CalculateEffectiveOdds 20000 <= 20000 /\
  CalculateEffectiveOdds 20000 <= CalculateEffectiveOdds 30000.
Proof. apply (CalculateEffectiveOdds_spec 20000 30000); vm_compute; congruence. Defined.

Lemma CalculatePayoutBurnAmounts_conserves_witness :
  exists payout burn, CalculatePayoutBurnAmounts (100 * COIN) 20000 = (true, payout, burn) /\
    payout + burn = (100 * COIN * 20000) `div` BET_ODDSDIVISOR /\
    100 * COIN <= payout /\ 0 <= burn /\
    burn * (1000 * BET_ODDSDIVISOR) <= 100 * COIN * (20000 - BET_ODDSDIVISOR) * 60 + 1000 * BET_ODDSDIVISOR.
Proof.
  apply (CalculatePayoutBurnAmounts_conserves (100 * COIN) 20000); [reflexivity|].
  vm_compute. split; congruence.
Defined.

(** ** Checking *)
Lemma CheckBettingTx_bet_witness :
  CheckBettingTx net view_open (Some (PeerlessBetTx pbt1)) (100 * COIN) false 100 = true <->
  100 < Spork20 net /\
  MinBetPayoutRange (BetCommon.Params net) * COIN <= 100 * COIN <= MaxBetPayoutRange (BetCommon.Params net) * COIN /\
  leg_open net view_open pbt1 false.
Proof. apply (CheckBettingTx_bet net view_open pbt1 (100 * COIN) false 100). vm_compute. congruence. Defined.

Definition parlay1 : CPeerlessParlayBetTx := {| ppb_legs := [pbt1] |}.

Lemma CheckBettingTx_parlay_witness :
  CheckBettingTx net view_open (Some (PeerlessParlayBetTx parlay1)) (100 * COIN) false 100 = true <->
  100 < Spork20 net /\
  Z.of_nat (length (ppb_legs parlay1)) <= MaxParlayLegs (BetCommon.Params net) /\
  MinBetPayoutRange (BetCommon.Params net) * COIN <= 100 * COIN <= nMaxBetPayoutRange (BetCommon.Params net) * COIN /\
  NoDup (pb_nEventId <$> ppb_legs parlay1) /\
  Forall (fun leg => leg_open net view_open leg true) (ppb_legs parlay1).
Proof. apply (CheckBettingTx_parlay net view_open parlay1 (100 * COIN) false 100). vm_compute. congruence. Defined.

Definition fbt1 : CFieldBetTx := {| fb_nEventId := 4; fb_nOutcome := 1; fb_nContenderId := 7 |}.

Lemma CheckBettingTx_field_witness :
  CheckBettingTx net view_open (Some (FieldBetTx fbt1)) (100 * COIN) false 100 = true <->
  100 < Spork20 net /\ v4_active net = true /\
  MinBetPayoutRange (BetCommon.Params net) * COIN <= 100 * COIN <= MaxBetPayoutRange (BetCommon.Params net) * COIN /\
  field_leg_open view_open fbt1 false.
Proof.
  apply (CheckBettingTx_field net view_open fbt1 {| fpb_legs := [fbt1] |} (100 * COIN) false 100).
  vm_compute. congruence.
Defined.

Definition result_tx1 : CBettingTx :=
  PeerlessResultTx {| pr_nEventId := 1; pr_nResultType := 1; pr_nHomeScore := 200; pr_nAwayScore := 100 |}.

Lemma CheckBettingTx_oracle_only_witness : CheckBettingTx net view_open (Some result_tx1) 0 false 100 = false.
Proof. apply (CheckBettingTx_oracle_only net view_open result_tx1 0 100); [vm_compute; congruence|reflexivity]. Defined.

Lemma CheckBettingTx_creates_witness : is_Some (events view_open !! 1) /\ results view_open !! 1 = None.
Proof.
  apply (CheckBettingTx_creates net view_open result_tx1 0 true 100); [vm_compute; congruence|vm_compute; reflexivity].
Defined.

(** The same first betting output, and a second one in one of the two. *)
Definition out1 : CTxOut := {| nValue := 100 * COIN; scriptPubKey := OP_RETURN :: 8 :: [66; 1; 3; 1; 0; 0; 0; 1] |}.

Definition tx2 : CTransaction := {| tx_hash := 9; tx_vin := tx_vin tx1; tx_vout := [out1; out1] |}.

Lemma CheckBettingTx_first_output_witness :
  CheckBettingTx_tx net view_open tx1 100 = CheckBettingTx_tx net view_open tx2 100.
Proof.
  apply (CheckBettingTx_first_output net view_open tx1 tx2 100 [] out1 [] [out1]);
    [reflexivity|reflexivity|reflexivity|vm_compute; reflexivity|constructor|vm_compute; eauto].
Defined.




(** ** Processing *)
Lemma ProcessPeerlessBet_records_witness :
  exists e',
    ProcessPeerlessBet view_open ctx1 view_open pbt1 = Some
      (view_open <| undos := <[UndoTxKey (cx_bettingTxId ctx1) :=
              UndoVector [undo_of ctx1 (UndoPeerlessEvent xev1)]]> (undos view_open) |>
         <| events := <[pb_nEventId pbt1 := e']> (events view_open) |>
         <| bets := <[bet_key ctx1 := CPeerlessBetDB_new (cx_betAmount ctx1) (cx_address ctx1)
              [{| leg_nEventId := pb_nEventId pbt1; leg_nOutcome := pb_nOutcome pbt1 |}]
              [ee_base xev1] (cx_blockTime ctx1)]> (bets view_open) |>) /\
    ee_base e' = ee_base xev1 /\
    outcome_bets e' = outcome_bets xev1 + match OutcomeType_of (pb_nOutcome pbt1) with Some _ => 1 | None => 0 end.
Proof.
  apply (ProcessPeerlessBet_records view_open ctx1 view_open pbt1 xev1 xev1);
    [reflexivity|reflexivity|repeat constructor; simpl; lia|reflexivity|reflexivity].
Defined.

(** A parlay on the open event and on one the global view does not have. *)
Definition parlay2 : CPeerlessParlayBetTx := {| ppb_legs := [pbt1; {| pb_nEventId := 2; pb_nOutcome := 1 |}] |}.

Definition processed2 : CBettingsView :=
  match ProcessPeerlessParlayBet view_open ctx1 view_open parlay2 with Some v => v | None => view_open end.

Lemma ProcessPeerlessParlayBet_records_witness :
  exists legs locked,
    bets processed2 = <[bet_key ctx1 := CPeerlessBetDB_new (cx_betAmount ctx1) (cx_address ctx1) legs locked
                                (cx_blockTime ctx1)]> (bets view_open) /\
    length legs = length (ppb_legs parlay2) /\
    locked = omap (locked_event view_open (events view_open)) legs /\
    (length locked = length legs <->
     Forall (fun l => is_Some (events view_open !! pb_nEventId l) /\ is_Some (events view_open !! pb_nEventId l))
       (ppb_legs parlay2)).
Proof.
  apply (ProcessPeerlessParlayBet_records view_open ctx1 view_open parlay2 processed2);
    [reflexivity|done|reflexivity|vm_compute; reflexivity].
Defined.

Lemma UndoEventZeroingOdds_gaps_witness :
  (exists v1 v2,
     ProcessEventZeroingOdds net ctx1 view_open {| pez_vEventIds := [1; 1] |} = Some v1 /\
     UndoEventZeroingOdds net (ux_of ctx1) v1 {| pez_vEventIds := [1; 1] |} = (v2, true) /\
     events v2 !! 1 = Some (xev1 <| ee_base ::= zero_event_odds |>)) /\
  ProcessEventZeroingOdds net ctx1 view_open {| pez_vEventIds := [] |} = Some view_open /\
  (UndoEventZeroingOdds net (ux_of ctx1) view_open {| pez_vEventIds := [] |}).2 = false.
Proof. apply (UndoEventZeroingOdds_gaps net ctx1 view_open 1 xev1); reflexivity. Defined.

(** ** Games *)
Definition lotto_cands : list (PeerlessBetKey * CChainGamesBetDB) :=
  [(key1, cgbet1); (bet_key ctx1, cgbet1 <| cgbet_playerAddress := CKeyID 4 |>)].

Lemma settle_lotto_pays_witness :
  let n := Z.of_nat (length lotto_cands) in
  let w := Z.to_nat (hashProofOfStake pos1 `mod` n) in
  exists k b payout fee,
    lotto_cands !! w = Some (k, b) /\
    10 * payout = 8 * (n * (10 * COIN)) /\ 50 * fee = n * (10 * COIN) /\
    settle_lotto net pos1 100 2 (10 * COIN) lotto_cands ([], []) =
      Some (add_payout (add_payout ([], [])
              (lotto_out payout (GetScriptForDestination net (cgbet_playerAddress b)) (10 * COIN) 2)
              {| pi_betKey := k; pi_payoutType := chainGamesPayout |})
              (CBetOut_new fee [1; 9] 0) (reward_info (u32 100) chainGamesReward),
            <[w := (k, b <| cgbet_payout := payout |>)]> lotto_cands).
Proof.
  apply (settle_lotto_pays net pos1 100 2 10 lotto_cands ([], []) [1; 8] [1; 9]);
    [simpl; lia|vm_compute; split; congruence|lia|reflexivity|reflexivity].
Defined.

Lemma DiceHandler_fair_witness :
  DiceHandler_info {| betType := qgDiceTotalOver; betNumber := 7 |} 12345 =
    Some (if dice_wins qgDiceTotalOver 7 (firstDice 12345 + secondDice 12345)
          then (BET_ODDSDIVISOR * NUMBER_OF_OUTCOMES) `div` winning_outcomes qgDiceTotalOver 7 else 0).
Proof. apply (DiceHandler_fair qgDiceTotalOver 7 12345); [reflexivity|lia]. Defined.

Lemma qg_payout_bounds_witness :
  let fee := fee_permille (100 * COIN) 20000 10 in
  let payout := qg_payout (100 * COIN) 20000 10 in
  100 * COIN <= payout /\
  payout + qg_reward fee 100 + qg_reward fee 400 <= (100 * COIN * 20000) `div` BET_ODDSDIVISOR /\
  0 <= qg_reward fee 100 /\ 0 <= qg_reward fee 400.
Proof. apply (qg_payout_bounds (100 * COIN) 20000); vm_compute; split; congruence. Defined.

(** A field bet, completed, and no peerless bet. *)
Definition view_field : CBettingsView :=
  CBettingsView_empty <| fieldBets := {[ key1 := fbet1 <| fbet_completed := true |> ]} |>
    <| fieldResults := {[ 4 := frs1 ]} |>.

Lemma UndoFieldBetPayouts_noop_witness :
  exists v' ok, UndoFieldBetPayouts net view_field {| nHeight := 99; vResultIDs := [4] |} = Some (v', ok) /\
    v' = view_field.
Proof.
  destruct (UndoFieldBetPayouts net view_field {| nHeight := 99; vResultIDs := [4] |}) as [[v' ok]|] eqn:E;
    [|by vm_compute in E].
  exists v', ok. split; [done|].
  apply (UndoFieldBetPayouts_noop net view_field {| nHeight := 99; vResultIDs := [4] |} v' ok); [|exact E].
  intros k [b Hb]. change (bets view_field) with (∅ : gmap PeerlessBetKey CPeerlessBetDB) in Hb.
  by rewrite lookup_empty in Hb.
Defined.
