(* ===== verification/TokenWitnesses.v ===== *)
(** * Instances of the theorems about tokens

    A chain with a few coins, a block that creates a group, and transactions
    that mint: for every theorem about tokens with hypotheses an instance in
    which all of them hold. *)

From S2P Require Import Prelude Serialize BetTx Flushable Params BetDB BetKeys BetView Coins BetCommon Witnesses.
From S2P Require Import TokenGroups TokenDesc TokenManager TokenProofs TokenCheck TokenCheckProofs BetMint.

(** ** Coins and groups *)
Definition tgroup : CTokenGroupID := repeat 5 31 ++ [0].
Definition pgroup : CTokenGroupID := repeat 5 31 ++ [PARLAY_TOKEN].

Definition ngroup : CTokenGroupID := repeat 5 31 ++ [NFT_TOKEN].

Definition token_script (g : CTokenGroupID) (amount : Z) : list Z := GroupScriptForDestination (CKeyID 3) g amount.

(** Output 1 has ten tokens, output 2 the right to mint, output 3 the right to
    mint an NFT, the others nothing. *)
Definition token_coin (p : COutPoint) : Coin :=
  {| coin_out := {| nValue := 50;
       scriptPubKey := if op_n p =? 1 then token_script tgroup 10
                       else if op_n p =? 2 then token_script tgroup (i64 (Z.lor CTRL (Z.lor MINT CCHILD)))
                       else if op_n p =? 3 then token_script ngroup (i64 (Z.lor CTRL MINT))
                       else token_script NoGroup 0 |};
     coin_fCoinBase := false; coin_fCoinStake := false; coin_nHeight := 120 |}.

Definition tnet : TokenEnv := {|
  te_chain := net; ATPStartHeight := 100; strTokenManagementKey := [1; 6];
  te_AccessCoin := token_coin; HaveInputs := fun _ => true; HasZerocoinSpendInputs := fun _ => false;
  Hash := fun l => Z.of_nat (length l); bls_ok := fun _ => true; VerifyInsecure := fun _ _ _ => true |}.

Definition keys_of (m : balances) : list CTokenGroupID := (map_to_list m).*1.
Definition keys_rev (m : balances) : list CTokenGroupID := reverse (map_to_list m).*1.

#[export] Instance keys_of_order : MapOrder keys_of.
Proof. intros m. reflexivity. Defined.
#[export] Instance keys_rev_order : MapOrder keys_rev.
Proof. intros m. unfold keys_rev. apply reverse_Permutation. Defined.

Definition manager0 : CTokenGroupManager := ResetTokenGroups CTokenGroupManager_init.

(** A management token and an oracle token exist. *)
Definition manager1 : CTokenGroupManager :=
  manager0 <| tgMGTCreation := Some mgt_creation |> <| tgORATCreation := Some shadow_creation |>.

(** Ten tokens and the right to mint become fifteen tokens and that right. *)
Definition mint_tx : CSpecialTx := {|
  stx_tx := {| tx_hash := 5; tx_vin := [{| op_hash := 77; op_n := 1 |}; {| op_hash := 77; op_n := 2 |}];
               tx_vout := [{| nValue := 40; scriptPubKey := token_script tgroup 15 |};
                           {| nValue := 40; scriptPubKey := token_script tgroup (i64 (Z.lor CTRL CCHILD)) |}] |};
  tx_nVersion := 3; tx_nType := TRANSACTION_NORMAL; tx_vExtraPayload := [] |}.

Definition mint_result : Z * Z * balances :=
  match CheckTokenGroups tnet keys_of manager1 mint_tx with Accepted r => r | Rejected _ => (0, 0, ∅) end.

Lemma mint_result_eq : CheckTokenGroups tnet keys_of manager1 mint_tx = Accepted (mint_result.1.1, mint_result.1.2, mint_result.2).
Proof. vm_compute. reflexivity. Qed.

Lemma mint_coins_ok : coins_ok tnet mint_tx.
Proof. repeat constructor; done. Qed.

Lemma CheckTokenGroups_order_witness :
  to_option (CheckTokenGroups tnet keys_of manager1 mint_tx) = to_option (CheckTokenGroups tnet keys_rev manager1 mint_tx).
Proof. apply (CheckTokenGroups_order tnet keys_of keys_rev manager1 mint_tx). Defined.

Lemma CheckTokenGroups_conservation_witness :
  bal_output (balance_of mint_result.2 tgroup) = 15 /\ bal_input (balance_of mint_result.2 tgroup) = 10 /\
  (is_bet_group tgroup = true \/ may tnet mint_tx MINT tgroup = true).
Proof.
  destruct (CheckTokenGroups_conservation tnet keys_of manager1 mint_tx mint_result.1.1 mint_result.1.2 mint_result.2 tgroup
    mint_result_eq ltac:(done) mint_coins_ok ltac:(cbn; lia)) as (Hi & Ho & _ & _ & Hm & _).
  rewrite Hi, Ho. split_and!; [vm_compute; reflexivity..|]. apply Hm. vm_compute. reflexivity.
Defined.

(** ** An NFT of which one is minted *)
Definition nft_creation : CTokenGroupCreation :=
  CTokenGroupCreation_init <| tgc_tokenGroupInfo := {| gi_associatedGroup := ngroup; gi_quantity := i64 ALL_NFT; gi_invalid := false |} |>
    <| tgc_description := TGNFT {| nft_nVersion := 1; nft_strName := bytes_of "Art"; nft_nMintAmount := 1; nft_strDocumentUrl := [];
         nft_documentHash := 0; nft_vchData := []; nft_strDataFilename := [] |} |>.

Definition manager2 : CTokenGroupManager := manager1 <| mapTokenGroups := {[ ngroup := nft_creation ]} |>.

Definition nft_tx : CSpecialTx := {|
  stx_tx := {| tx_hash := 7; tx_vin := [{| op_hash := 77; op_n := 3 |}];
               tx_vout := [{| nValue := 40; scriptPubKey := token_script ngroup 1 |}] |};
  tx_nVersion := 3; tx_nType := TRANSACTION_NORMAL; tx_vExtraPayload := [] |}.

Definition nft_result : Z * Z * balances :=
  match CheckTokens tnet keys_of manager2 nft_tx 200 with Accepted r => r | Rejected _ => (0, 0, ∅) end.

Lemma nft_never_sent_witness :
  exists c d, GetTokenGroupCreation manager2 ngroup = Some c /\ tgc_description c = TGNFT d /\
    nft_nMintAmount d = u64 (bal_output (balance_of nft_result.2 ngroup) - bal_input (balance_of nft_result.2 ngroup)) /\
    (bal_output (balance_of nft_result.2 ngroup) = bal_input (balance_of nft_result.2 ngroup) -> nft_nMintAmount d = 0).
Proof.
  apply (nft_never_sent tnet keys_of manager2 nft_tx 200 nft_result.1.1 nft_result.1.2 nft_result.2 ngroup);
    vm_compute; reflexivity.
Defined.

(** ** Parlay tokens *)
Definition parlay_tx : CSpecialTx := {|
  stx_tx := {| tx_hash := 6; tx_vin := [{| op_hash := 77; op_n := 0 |}];
               tx_vout := [{| nValue := 40; scriptPubKey := token_script pgroup 1000000 |}] |};
  tx_nVersion := 3; tx_nType := TRANSACTION_NORMAL; tx_vExtraPayload := [] |}.

Definition no_event : CBetEvent := {| bev_type := 0; bev_nEventId := 0 |}.

Lemma parlay_minted_freely_witness :
  exists m, connect_tokens tnet keys_of manager1 no_event view_open parlay_tx 200 1000 10 = Accepted (m, 10) /\
            bal_input (balance_of m pgroup) = 0 /\ bal_output (balance_of m pgroup) = 1000000.
Proof.
  apply (parlay_minted_freely tnet keys_of manager1 no_event view_open parlay_tx 200 1000 10
    {| nValue := 40; scriptPubKey := token_script pgroup 1000000 |} pgroup 1000000);
    [vm_compute; congruence|vm_compute; reflexivity|reflexivity| |vm_compute; reflexivity|
     unfold CAmount_max; lia|vm_compute; reflexivity..].
  constructor; [|constructor]. split; vm_compute; reflexivity.
Defined.

Definition mint_connected : balances * Z :=
  match connect_tokens tnet keys_of manager1 no_event view_open mint_tx 200 1000 10 with
  | Accepted r => r | Rejected _ => (∅, 0) end.

Definition bgroup : CTokenGroupID := repeat 5 31 ++ [BETTING_TOKEN].

Lemma connect_tokens_no_bets_witness :
  bal_output (balance_of mint_connected.1 bgroup) <= bal_input (balance_of mint_connected.1 bgroup) /\ mint_connected.2 = 10.
Proof.
  apply (connect_tokens_no_bets tnet keys_of manager1 no_event view_open mint_tx 200 1000 10 mint_connected.1
    mint_connected.2 bgroup); vm_compute; reflexivity.
Defined.

(** ** Scripts and descriptions *)
Lemma GroupScriptForDestination_parse_witness :
  CTokenGroupInfo_of (GroupScriptForDestination (CKeyID 3) tgroup 70000) =
    {| gi_associatedGroup := tgroup; gi_quantity := 70000; gi_invalid := false |} /\
  CTokenGroupInfo_of (GroupScriptForDestination (CKeyID 3) NoGroup 70000) =
    {| gi_associatedGroup := NoGroup; gi_quantity := 0; gi_invalid := false |}.
Proof.
  apply GroupScriptForDestination_parse; [done| |cbn; lia|range].
  repeat constructor; done.
Defined.

Definition desc1 : CTokenGroupDescriptionVariant :=
  TGRegular {| reg_nVersion := 1; reg_strTicker := bytes_of "ABC"; reg_strName := bytes_of "Name";
               reg_strDocumentUrl := []; reg_documentHash := 0; reg_nDecimalPos := 8 |}.

Definition creation_tx : CSpecialTx := {|
  stx_tx := {| tx_hash := 8; tx_vin := [{| op_hash := 77; op_n := 0 |}];
               tx_vout := [{| nValue := 40; scriptPubKey := token_script tgroup (i64 (Z.lor ALL 7)) |}] |};
  tx_nVersion := 3; tx_nType := TRANSACTION_GROUP_CREATION_REGULAR;
  tx_vExtraPayload := desc_bytes (fun _ => true) desc1 |}.

Lemma GetTxPayload_SetTxPayload_witness :
  GetTxPayload (fun _ => true) (SetTxPayload (fun _ => true) creation_tx desc1) = Some desc1.
Proof.
  apply (GetTxPayload_SetTxPayload (fun _ => true) creation_tx desc1 0 []); [reflexivity|].
  repeat split; try range; try (cbn; lia); repeat constructor; done.
Defined.

(** ** A block that creates a group *)
Definition token_block : TokenBlock := {| tb_hash := 9; tb_vtx := [creation_tx] |}.

Definition collected : CTokenGroupManager * bool := CollectTokensFromBlock (fun _ => true) 100 200 manager0 token_block.

Definition applied : option (CTokenGroupManager * CTokenDB * bool) := ApplyTokensFromBlock collected.1 ∅.
Definition applied_manager : CTokenGroupManager := match applied with Some (m, _, _) => m | None => manager0 end.
Definition applied_db : CTokenDB := match applied with Some (_, db, _) => db | None => ∅ end.

Lemma UndoBlock_restores_witness :
  UndoBlock (fun _ => true) 100 200 applied_manager applied_db token_block = (manager0, ∅).
Proof.
  apply (UndoBlock_restores (fun _ => true) 100 200 manager0 ∅ token_block collected.1 applied_manager applied_db);
    [apply ResetTokenGroups_ok|reflexivity|lia|vm_compute; reflexivity|intros; apply lookup_empty|vm_compute; reflexivity].
Defined.

Lemma typed_forallb l :
  forallb (fun c => SPECIALTX_TYPE (tgc_description c) =? tx_nType (tgc_creationTransaction c)) l = true ->
  Forall typed_creation l.
Proof.
  intros H. apply Forall_forall. intros c Hc. rewrite forallb_forall in H. apply Z.eqb_eq, H. by apply list_elem_of_In.
Qed.

Lemma AddTokenGroups_ok_witness :
  manager_ok (match AddTokenGroups manager0 (newTokenGroups collected.1) with Some (m, _) => m | None => manager0 end).
Proof.
  apply (AddTokenGroups_ok manager0 (newTokenGroups collected.1));
    [apply ResetTokenGroups_ok|apply typed_forallb; vm_compute; reflexivity|vm_compute; reflexivity].
Defined.

(** A normal transaction with an authority that has a nonce. *)
Definition nonce_tx : CSpecialTx := {|
  stx_tx := stx_tx creation_tx; tx_nVersion := 3; tx_nType := TRANSACTION_NORMAL; tx_vExtraPayload := [] |}.

Lemma ReindexTokenDB_nonce_witness :
  exists m' db', ReindexTokenDB (fun _ => true) (fun _ => false) manager0 ∅
    [Some {| tb_hash := 9; tb_vtx := [nonce_tx] |}] = Some (m', db', false).
Proof. apply ReindexTokenDB_nonce; vm_compute; reflexivity. Defined.
