(* ===== verification/CoinsWitnesses.v ===== *)
(** * Instances of the theorems about coins and indices

    A database with three coins, a cache over it, and a block that spends one of
    them and an output of its own. *)

From S2P Require Import Prelude Serialize BetTx Params Transaction Coins CoinsUndo TokenGroups AddressIndex.

Definition coin_script (b : Z) : list Z := [OP_DUP; OP_HASH160; 0x14] ++ repeat b 20 ++ [OP_EQUALVERIFY; OP_CHECKSIG].
Definition key_script (b : Z) : list Z := [33; 2] ++ repeat b 32 ++ [OP_CHECKSIG].
Definition coin_at (v h : Z) (s : list Z) : Coin := Coin_of {| nValue := v; scriptPubKey := s |} h false false.
Definition at_out (h n : Z) : COutPoint := {| op_hash := h; op_n := n |}.
Definition some_hash (l : list Z) : list Z := take 20 l.

Definition coins_db : CCoinsViewDB := {|
  db_coins := <[at_out 70 0 := coin_at 50 5 (coin_script 3)]> (<[at_out 70 1 := coin_at 60 5 (key_script 4)]>
                (<[at_out 71 0 := coin_at 70 6 [81]]> ∅));
  db_best_block := Some 7; db_head_blocks := None |}.

(** A batch is full with four operations. *)
Definition full (l : list CDBBatchOp) : bool := (3 <? length l)%nat.
#[export] Instance coins_view : CCoinsView CCoinsViewDB := CCoinsViewDB_view full.
#[export] Instance coins_laws : CCoinsViewLaws CCoinsViewDB := CCoinsViewDB_laws full.

Definition coins_cache : CCoinsViewCache CCoinsViewDB := SetBestBlock (CCoinsViewCache_of coins_db) 8.

Lemma coins_cache_inv : cache_inv coins_cache.
Proof.
  split; [|apply map_Forall_empty]. split; [|done]. apply (bool_decide_unpack _). vm_compute. exact I.
Defined.

Lemma CCoinsViewCache_refines_witness : exists c',
  AddCoin coins_cache (at_out 80 0) (coin_at 9 8 [81]) false = Some c' /\ cache_view c' !! at_out 80 0 = Some (coin_at 9 8 [81]).
Proof.
  destruct (CCoinsViewCache_refines coins_cache (at_out 80 0)) as (_ & _ & _ & Hadd & _); [exact coins_cache_inv|].
  destruct (Hadd (coin_at 9 8 [81]) false) as (_ & _ & Hin & _).
  destruct Hin as (c' & E & _ & Hv); [reflexivity|reflexivity|right; vm_compute; reflexivity|].
  exists c'. split; [exact E|]. rewrite Hv. apply lookup_insert_eq.
Defined.

Definition some_entries : list (COutPoint * CCoinsCacheEntry) :=
  [(at_out 70 0, {| ce_coin := Coin_init; ce_DIRTY := true; ce_FRESH := false |});
   (at_out 80 0, {| ce_coin := coin_at 9 8 [81]; ce_DIRTY := true; ce_FRESH := true |});
   (at_out 80 1, {| ce_coin := coin_at 9 8 [81]; ce_DIRTY := true; ce_FRESH := true |})].

Lemma BatchWrite_crash_witness :
  let crashed := foldl WriteBatch coins_db (take 1 (write_batches full some_entries 8 7)) in
  GetHeadBlocks crashed = [8; 7] /\ dbBatchWrite full crashed some_entries 8 = dbBatchWrite full coins_db some_entries 8.
Proof.
  destruct (BatchWrite_crash full coins_db some_entries 8 7 1) as [H1 (d' & E1 & E2 & _)]; [discriminate|reflexivity|].
  split; [apply H1; vm_compute; lia|]. rewrite E1. exact E2.
Defined.

(** The block at height 9: it spends output 0 of 70, or the bare key of output
    1, and then its own output. *)
Definition cb_tx : CTx := {|
  ctx_hash := 90; ctx_nVersion := 1; ctx_nType := 0;
  ctx_vin := [{| txin_prevout := {| op_hash := 0; op_n := NULL_INDEX |}; txin_scriptSig := [1]; txin_nSequence := SEQUENCE_FINAL |}];
  ctx_vout := [{| nValue := 25; scriptPubKey := coin_script 6 |}]; ctx_nLockTime := 0; ctx_vExtraPayload := [] |}.
Definition spend_tx (hash : uint256) (p : COutPoint) : CTx := {|
  ctx_hash := hash; ctx_nVersion := 1; ctx_nType := 0;
  ctx_vin := [{| txin_prevout := p; txin_scriptSig := [1]; txin_nSequence := SEQUENCE_FINAL |}];
  ctx_vout := [{| nValue := 20; scriptPubKey := coin_script 7 |}; {| nValue := 0; scriptPubKey := [OP_RETURN; 1] |}];
  ctx_nLockTime := 0; ctx_vExtraPayload := [] |}.

Definition the_txs (n : Z) : list CTx := [spend_tx 91 (at_out 70 n); spend_tx 92 (at_out 91 0)].

Ltac decided := apply (bool_decide_unpack _); vm_compute; exact I.

Lemma the_block_ok n : n = 0 \/ n = 1 -> connectable coins_cache cb_tx (the_txs n) 9.
Proof.
  intros Hn. split; [exact coins_cache_inv|]. split; [decided|]. split; [lia|]. split; [reflexivity|].
  destruct Hn as [-> | ->]; (split; [decided|decided]).
Defined.

Lemma DisconnectBlock_restores_witness : exists c' vtxundo c3,
  connect_coins coins_cache (cb_tx :: the_txs 0) 9 = Some (c', vtxundo) /\
  DisconnectBlock_coins c' (cb_tx :: the_txs 0) vtxundo 9 = Some (c3, DISCONNECT_OK) /\
  cache_view c3 = cache_view coins_cache.
Proof.
  destruct (the_block_ok 0 (or_introl eq_refl)) as (H1 & H2 & H3 & H4 & H5 & H6).
  destruct (DisconnectBlock_restores coins_cache cb_tx (the_txs 0) 9 H1 H2 H3 H4 H5 H6) as (c' & u & E & Hi & Hd).
  destruct (Hd c' Hi eq_refl) as (c3 & E3 & _ & Hv). exists c', u, c3. split; [exact E|]. split; [exact E3|]. exact Hv.
Defined.

(** The indices before the block: the rows of the three coins. *)
Definition index_db : CBlockTreeDB := {|
  bt_address := ∅;
  bt_unspent := foldl (add_row some_hash) ∅ (map_to_list (db_coins coins_db));
  bt_spent := ∅ |}.

Lemma index_db_mirrors : mirrors some_hash (bt_unspent index_db) (cache_view coins_cache).
Proof.
  assert (cache_view coins_cache =
    foldl (fun w pk => <[pk.1 := pk.2]> w) ∅ (map_to_list (db_coins coins_db))) as ->.
  { apply (bool_decide_unpack _). vm_compute. exact I. }
  apply mirrors_restore.
  - intros key val. rewrite lookup_empty. split; [done|]. by intros (k & H%lookup_empty_Some & _).
  - apply NoDup_fst_map_to_list.
  - apply Forall_forall. intros pk _. apply lookup_empty.
Qed.

Lemma index_db_fresh n : not_indexed index_db (cb_tx :: the_txs n) 9.
Proof.
  split; [apply map_Forall_empty|]. apply Forall_forall. intros tx _. apply Forall_forall. intros p _. apply lookup_empty.
Qed.

Lemma disconnect_index_restores_witness : exists c' undos iv c3 iv',
  connect_index some_hash true true coins_cache (cb_tx :: the_txs 0) 0 9 = Some (c', [] :: undos, iv) /\
  disconnect_index some_hash true true c' (cb_tx :: the_txs 0) undos 9 = Some (c3, DISCONNECT_OK, iv') /\
  undo_indices true true (write_indices true true index_db iv) iv' = index_db.
Proof.
  destruct (disconnect_index_restores some_hash coins_cache cb_tx (the_txs 0) 9 index_db
    (the_block_ok 0 (or_introl eq_refl)) (index_db_fresh 0)) as (c' & undos & iv & E & Hc' & _ & Hd).
  { unfold outs_ok. decided. }
  { exact index_db_mirrors. }
  assert (exists r, connect_index some_hash true true coins_cache (cb_tx :: the_txs 0) 0 9 = Some r /\
                    Forall (Forall (fun k => bare_key (scriptPubKey (coin_out k)) = false)) (r.1.2)) as (r & Er & Hb).
  { eexists. split; [vm_compute; reflexivity|]. decided. }
  rewrite E in Er. injection Er as <-. destruct (Hd (Forall_inv_tail Hb) c' Hc' eq_refl) as (c3 & iv' & E3 & _ & Hu).
  exists c', undos, iv, c3, iv'. split; [exact E|]. split; [exact E3|]. exact Hu.
Defined.

Lemma disconnect_index_bare_key_left_witness : exists c' undos iv c3 iv',
  connect_index some_hash true true coins_cache (cb_tx :: the_txs 1) 0 9 = Some (c', [] :: undos, iv) /\
  disconnect_index some_hash true true c' (cb_tx :: the_txs 1) undos 9 = Some (c3, DISCONNECT_OK, iv') /\
  is_Some (bt_address (undo_indices true true (write_indices true true index_db iv) iv') !!
           bare_spend_key some_hash 9 1 0 (spend_tx 91 (at_out 70 1)) (coin_at 60 5 (key_script 4))).
Proof.
  destruct (disconnect_index_bare_key_left some_hash coins_cache cb_tx (the_txs 1) 9 index_db
    (the_block_ok 1 (or_intror eq_refl)) (index_db_fresh 1)) as (c' & undos & iv & E & Hc' & Hd).
  destruct (Hd c' Hc' eq_refl) as (c3 & iv' & E3 & Hk).
  assert (exists r, connect_index some_hash true true coins_cache (cb_tx :: the_txs 1) 0 9 = Some r /\
                    (r.1.2) !! 1%nat = Some [coin_at 60 5 (key_script 4)]) as (r & Er & Hu).
  { eexists. split; [vm_compute; reflexivity|]. vm_compute. reflexivity. }
  rewrite E in Er. injection Er as <-. cbn [fst snd] in Hu.
  exists c', undos, iv, c3, iv'. split; [exact E|]. split; [exact E3|].
  apply (Hk 1%nat (spend_tx 91 (at_out 70 1)) [coin_at 60 5 (key_script 4)] 0%nat (at_out 70 1) (coin_at 60 5 (key_script 4)));
    [reflexivity|exact Hu|reflexivity|reflexivity].
Defined.
