(* ===== verification/NodeWitnesses.v ===== *)
(** * Instances of the theorems about the chain, the difficulty, staking and rewards

    A network with the limits and spacings of the main one, whose rules start at
    the first blocks, a tree of four headers with a fork, and a coinstake. *)

From S2P Require Import Prelude Serialize Params BetTx BetKeys Double Transaction TokenGroups Coins CoinsUndo TxVerify TxVerifyProofs CoinsWitnesses Arith256 Chain ChainProofs Pow Kernel KernelProofs Headers Rewards.

(** ** The network *)
Definition limit_236 : uint256 := (2 ^ 232 - 1) * 2 ^ 24 + 0x0f0000.
Definition limit_232 : uint256 := (2 ^ 232 - 1) * 2 ^ 24.

Definition small_net : PosParams := {|
  powLimit := limit_236; posLimit := limit_232; posLimit_V2 := limit_236;
  fPowAllowMinDifficultyBlocks := false; fPowNoRetargeting := false;
  nPowTargetSpacing := 60; nPosTargetSpacing := 60; nPosTargetTimespan := 2400; nPosTargetTimespan_V2 := 1800;
  nPosStartHeight := 1; nBlockStakeModifierV1A := 1; nBlockStakeModifierV2 := 2; nBlockTimeProtocolV2 := 1;
  nMinimumDifficultyBlocks := 0; nTimeSlotLength := 15; nStakeMinDepth := 2; nStakeMinAge := 3600;
  nBlockZerocoinV2 := 1; nPublicZCSpends := 1 |}.

Lemma small_net_retargets : retargets small_net.
Proof. split; [split|..]; cbn; lia || done. Qed.

(** ** A tree of headers; the nonce stands for the hash *)
Definition hash_of (b : CBlockHeader) : uint256 := h_nNonce b.
Definition header (hash prev nTime : Z) : CBlockHeader :=
  {| h_nVersion := 7; h_hashPrevBlock := prev; h_hashMerkleRoot := 1; h_nTime := nTime; h_nBits := 0x1e0fffff; h_nNonce := hash;
     h_nAccumulatorCheckpoint := 0 |}.

Definition add_header (bm : BlockManager) (b : CBlockHeader) : BlockManager :=
  default bm (fst <$> AddToBlockIndex hash_of bm b BLOCK_VALID_TREE).

Definition tree1 : BlockManager := add_header empty_index (header 10 0 1500000000).
Definition tree2 : BlockManager := add_header tree1 (header 11 10 1500000060).
Definition tree3 : BlockManager := add_header tree2 (header 12 11 1500000120).
Definition tree4 : BlockManager := add_header tree3 (header 22 11 1500000135).

Ltac step_header prev b :=
  apply (rtc_r _ (prev, [])); [|eapply (step_header _ _ _ b BLOCK_VALID_TREE);
    [by vm_compute|vm_compute; split; congruence|by left|
     first [left; eexists; vm_compute; reflexivity|right; reflexivity]|vm_compute; reflexivity]].

Lemma tree1_reached : reached hash_of (tree1, []).
Proof. step_header empty_index (header 10 0 1500000000). apply rtc_refl. Qed.
Lemma tree2_reached : reached hash_of (tree2, []).
Proof. step_header tree1 (header 11 10 1500000060). exact tree1_reached. Qed.
Lemma tree3_reached : reached hash_of (tree3, []).
Proof. step_header tree2 (header 12 11 1500000120). exact tree2_reached. Qed.
Lemma tree4_reached_empty : reached hash_of (tree4, []).
Proof. step_header tree3 (header 22 11 1500000135). exact tree3_reached. Qed.

Definition chain3 : list (option uint256) := [Some 10; Some 11; Some 12].
Lemma tree4_reached : reached hash_of (tree4, chain3).
Proof.
  eapply rtc_r; [exact tree4_reached_empty|]. eapply (step_tip _ _ _ (Some 12)).
  - intros h [= <-]. eexists. vm_compute. reflexivity.
  - vm_compute. reflexivity.
Qed.

Lemma tree4_wf : tree_wf (m_block_index tree4).
Proof. exact (iw_tree _ (sw_index _ (reached_wf _ _ tree4_reached))). Qed.

(** A fact about every block of the tree, checked on its list. *)
Lemma map_all {A} (m : gmap uint256 A) (f : uint256 -> A -> bool) :
  forallb (fun e => f e.1 e.2) (map_to_list m) = true -> forall h n, m !! h = Some n -> f h n = true.
Proof.
  intros Hf h n Hn. rewrite forallb_forall in Hf. apply (Hf (h, n)). apply list_elem_of_In. apply elem_of_map_to_list. exact Hn.
Qed.

Lemma is256_by l v :
  forallb (fun x => (0 <=? x) && (x <? 2 ^ 32)) l && (length l =? WIDTH)%nat && (eval l =? v) = true -> is256 l v.
Proof.
  intros [[Hl Hn]%andb_prop Hv]%andb_prop. apply Nat.eqb_eq in Hn. apply Z.eqb_eq in Hv.
  split; [|split; [exact Hn|exact Hv]]. apply Forall_forall. intros x Hx%list_elem_of_In.
  rewrite forallb_forall in Hl. specialize (Hl x Hx). unfold inU. lia.
Qed.

Lemma is256_limit : is256 (UintToArith256 limit_236) (2 ^ 236 - 1).
Proof. apply is256_by. vm_compute. reflexivity. Qed.

Lemma arith_uint256_refines_witness :
  let a := UintToArith256 limit_236 in
  is256 (op_mul a a) (((2 ^ 236 - 1) * (2 ^ 236 - 1)) `mod` 2 ^ 256) /\ bits a = 236.
Proof.
  destruct (arith_uint256_refines (UintToArith256 limit_236) (UintToArith256 limit_236) (2 ^ 236 - 1) (2 ^ 236 - 1) 24 60
    is256_limit is256_limit ltac:(lia) ltac:(unfold inU; lia)) as (_ & _ & Hmul & _ & _ & _ & _ & _ & _ & _ & Hb & _).
  split; [exact Hmul|]. rewrite Hb. vm_compute. reflexivity.
Defined.

Lemma GetCompact_SetCompact_witness : exists c l' v',
  GetCompact (UintToArith256 limit_236) false = Some c /\ SetCompact c = (l', false, false) /\ is256 l' v' /\ v' <= 2 ^ 236 - 1 /\ c = 0x1e0fffff.
Proof.
  destruct (GetCompact_SetCompact _ _ is256_limit) as (c & l' & v' & E & E' & Hv & Hle & _).
  exists c, l', v'. split; [exact E|]. split; [exact E'|]. split; [exact Hv|]. split; [lia|].
  assert (GetCompact (UintToArith256 limit_236) false = Some 0x1e0fffff) as E2 by (vm_compute; reflexivity).
  rewrite E in E2. by injection E2.
Defined.

Lemma GetAncestor_skiplist_witness : exists n, m_block_index tree4 !! 22 = Some n /\
  GetAncestor (m_block_index tree4) 22 0 = Some (walk (m_block_index tree4) (Z.to_nat (bi_nHeight n)) 22).
Proof.
  eexists. split; [vm_compute; reflexivity|].
  destruct (GetAncestor_skiplist hash_of tree4 chain3 22 _ 0 tree4_reached ltac:(vm_compute; reflexivity)) as [H _].
  rewrite H. vm_compute. reflexivity.
Defined.

Lemma active_chain_spec_witness : exists f, FindFork (m_block_index tree4) chain3 (Some 22) = Some (Some f) /\ meets (m_block_index tree4) f 22 12.
Proof.
  destruct (active_chain_spec hash_of tree4 chain3 22 _ tree4_reached ltac:(discriminate) ltac:(vm_compute; reflexivity))
    as (t & g & Ht & _ & _ & (f & Hf & Hm) & _).
  vm_compute in Ht. injection Ht as <-. exists f. split; [exact Hf|exact Hm].
Defined.

Lemma GetNextWorkRequired_bounded_witness : exists b T,
  GetNextWorkRequired small_net (m_block_index tree4) 22 1500000195 = Some b /\ compact_for b T /\ T <= next_limit small_net 2.
Proof.
  destruct (GetNextWorkRequired_bounded hash_of small_net tree4 chain3 22 _ 1500000195 tree4_reached small_net_retargets
    ltac:(vm_compute; reflexivity)) as (b & T & Hb & Hc & Hl).
  exists b, T. split; [exact Hb|]. split; [exact Hc|exact Hl].
Defined.

Lemma GetNextWorkRequired_v2_witness : exists b,
  GetNextWorkRequired small_net (m_block_index tree4) 12 1500000195 = Some b /\ compact_for b (0x0fffff * 2 ^ 216).
Proof.
  destruct (GetNextWorkRequired_v2 small_net (m_block_index tree4) 12 _ 11 _ (0x0fffff * 2 ^ 216) 1500000195 tree4_wf small_net_retargets
    ltac:(vm_compute; reflexivity) ltac:(vm_compute; reflexivity) ltac:(vm_compute; reflexivity)
    ltac:(vm_compute; congruence) ltac:(vm_compute; congruence)
    ltac:(apply is256_by; vm_compute; reflexivity)
    ltac:(vm_compute; congruence) ltac:(vm_compute; congruence) ltac:(vm_compute; reflexivity) ltac:(vm_compute; reflexivity)) as [(b & Hb & Hc) _].
  exists b. split; [exact Hb|]. revert Hc. match goal with |- compact_for _ ?x -> compact_for _ ?y => replace x with y by (vm_compute; reflexivity) end. done.
Defined.

(** ** Stake modifiers: the first block after the genesis block generated one *)
Definition block11 : CBlockIndexNode := default (CBlockIndex_of (header 11 10 0)) (m_block_index tree4 !! 11).
Definition staked_map : BlockMap := <[11 := SetStakeModifier block11 93825017647567 true]> (m_block_index tree4).

Lemma staked_map_wf : tree_wf staked_map.
Proof.
  apply (tree_wf_ext (m_block_index tree4)); [|exact tree4_wf]. intros h. unfold staked_map. destruct (decide (h = 11)) as [->|Hne].
  - rewrite store_insert_eq. vm_compute. reflexivity.
  - by rewrite store_insert_ne.
Qed.

Definition no_hash (l : list Z) : uint256 := Z.of_nat (length l).

Lemma ComputeNextStakeModifier_total_witness : exists v b,
  ComputeNextStakeModifier small_net no_hash staked_map (Some 22) = Some (v, b) /\ inU 64 v.
Proof.
  apply (ComputeNextStakeModifier_total small_net no_hash staked_map (Some 22) staked_map_wf).
  - intros x nx Hx E. assert (negb (bi_nHeight nx =? 1) || GeneratedStakeModifier nx = true) as Hb.
    { revert x nx Hx E. assert (forall x nx, staked_map !! x = Some nx -> negb (bi_nHeight nx =? 1) || GeneratedStakeModifier nx = true) as Ha.
      { apply (map_all staked_map (fun _ nx => negb (bi_nHeight nx =? 1) || GeneratedStakeModifier nx)). vm_compute. reflexivity. }
      intros x nx Hx _. exact (Ha x nx Hx). }
    rewrite E in Hb. exact Hb.
  - intros x nx Hx. assert ((0 <=? bi_nStakeModifier nx) && (bi_nStakeModifier nx <? 2 ^ 64) = true) as Hb.
    { revert x nx Hx. apply (map_all staked_map (fun _ nx => (0 <=? bi_nStakeModifier nx) && (bi_nStakeModifier nx <? 2 ^ 64))). vm_compute. reflexivity. }
    unfold inU. lia.
  - intros h [= <-]. eexists. vm_compute. reflexivity.
Defined.

(** ** A proof of stake *)
Definition stake_out : CTxOut := {| nValue := 10000 * COIN; scriptPubKey := coin_script 3 |}.
Definition funded_tx : CTx := {|
  ctx_hash := 70; ctx_nVersion := 1; ctx_nType := 0; ctx_vin := ctx_vin cb_tx; ctx_vout := [stake_out];
  ctx_nLockTime := 0; ctx_vExtraPayload := [] |}.
Definition stake_txin : CTxIn := {| txin_prevout := at_out 70 0; txin_scriptSig := [1]; txin_nSequence := SEQUENCE_FINAL |}.
Definition stake_tx : CTx := {|
  ctx_hash := 71; ctx_nVersion := 1; ctx_nType := 0; ctx_vin := [stake_txin];
  ctx_vout := [{| nValue := 0; scriptPubKey := [] |}; {| nValue := 10000 * COIN + 95000000; scriptPubKey := coin_script 3 |};
               {| nValue := 285000000; scriptPubKey := coin_script 4 |}];
  ctx_nLockTime := 0; ctx_vExtraPayload := [] |}.
Definition find_tx (h : uint256) : option CTx := if h =? 70 then Some funded_tx else None.
Definition find_block (h : uint256) : option uint256 := if h =? 70 then Some 10 else None.

Lemma CheckProofOfStake_block_sound_witness : exists t,
  is256 (compact_target 0x1e0fffff) t /\ hash_value (no_hash (repeat 0 76)) < (t * (10000 * COIN `div` 100)) `mod` 2 ^ 256.
Proof.
  destruct (CheckProofOfStake_block_sound small_net no_hash false find_tx find_block (fun _ _ _ _ => true) (fun _ => false) [] (fun _ _ => None)
    (m_block_index tree4) chain3 [cb_tx; stake_tx] 1500000120 0x1e0fffff 12 (no_hash (repeat 0 76)) stake_tx stake_txin
    ltac:(vm_compute; reflexivity) eq_refl eq_refl eq_refl ltac:(unfold inU; lia))
    as (n & prev & nprev & txPrev & out & from & nfrom & t & _ & _ & _ & _ & E1 & E2 & _ & _ & _ & _ & _ & _ & _ & Ht & Hh).
  vm_compute in E1. injection E1 as <-. vm_compute in E2. injection E2 as <-.
  exists t. split; [exact Ht|]. apply Hh. unfold inU, COIN. cbn. lia.
Defined.

Definition big_stake : StakeInput := {| st_IndexFrom := Some 10; st_Value := 100 * 2 ^ 40; st_Modifier := Some 1; st_Uniqueness := [] |}.

Lemma CheckStakeKernelHash_wraps_witness : exists hp,
  CheckStakeKernelHash small_net no_hash (m_block_index tree4) 12 0x1e0fffff big_stake 1500000180 = Some (hp, false).
Proof.
  eexists. refine (proj1 (CheckStakeKernelHash_wraps small_net no_hash (m_block_index tree4) 12 big_stake 1500000180 _ eq_refl _)).
  vm_compute. reflexivity.
Defined.

(** ** A header *)
Definition header_net : HeaderParams := {|
  hp_pos := small_net; hashGenesisBlock := 10; hashDevnetGenesisBlock := 0; BIP34Height := 0; BIP65Height := 0; BIP66Height := 0;
  mapCheckpoints := []; fCheckpointsEnabled := true; fRegtest := false |}.
Definition no_lock (_ _ : Z) : bool := false.



Lemma AcceptBlockHeader_sound_witness : exists prev, m_block_index tree4 !! 12 = Some prev /\
  bi_nTime prev + 15 <= 1500000180 <= 1500000180 + 15 - 1.
Proof.
  destruct (AcceptBlockHeader_sound header_net hash_of no_lock tree4 (header 13 12 1500000180) false 1500000180 _ 13
    ltac:(vm_compute; reflexivity) ltac:(vm_compute; reflexivity) ltac:(vm_compute; congruence) eq_refl)
    as (_ & prev & tmin & Hp & _ & _ & _ & _ & _ & _ & _ & _ & _ & _ & Hs).
  exists prev. split; [exact Hp|]. vm_compute in Hp. injection Hp as <-.
  apply Hs; vm_compute; congruence || reflexivity.
Defined.

(** ** A transaction *)
Definition tx_params : TxParams := {| nMaturityV1 := 1; nMaturityV2 := 1; nMaturityV2StartHeight := 0; nOpGroupNewRequiredConfirmations := 1 |}.
Definition pay_tx : CTx := spend_tx 91 (at_out 70 0).

Lemma CheckTxInputs_conserves_witness : exists c1 c2 undo,
  CheckTxInputs coins_cache pay_tx 9 tx_params = Some (c1, inr 30) /\ UpdateCoins pay_tx c1 9 = Some (c2, undo) /\
  total (cache_view c2) + sum_burned (ctx_vout pay_tx) + 30 = total (cache_view coins_cache).
Proof.
  assert (exists c1, CheckTxInputs coins_cache pay_tx 9 tx_params = Some (c1, inr 30)) as [c1 E1].
  { eexists. vm_compute. reflexivity. }
  destruct (CheckTxInputs_conserves coins_cache pay_tx 9 tx_params false c1 30 coins_cache_inv eq_refl eq_refl eq_refl
    ltac:(decided) ltac:(vm_compute; reflexivity) E1) as (_ & _ & c2 & undo & E2 & Ht).
  exists c1, c2, undo. split; [exact E1|]. split; [exact E2|exact Ht].
Defined.

Lemma GetSigOpCount_terminates_witness :
  count_sigops 30 true (coin_script 3) OP_INVALIDOPCODE 0 = GetSigOpCount (coin_script 3) true /\ GetSigOpCount (coin_script 3) true <= 20 * 25.
Proof.
  destruct (GetSigOpCount_terminates (coin_script 3) true 30 ltac:(vm_compute; lia) ltac:(vm_compute; congruence)) as [E [_ H]].
  split; [exact E|exact H].
Defined.

(** ** Rewards *)
Definition budget_net : BudgetParams := {|
  bp_DIP0003Height := 100; nBudgetPaymentsStartBlock := 1000; nBudgetPaymentsCycleBlocks := 50; nBudgetPaymentsWindowBlocks := 10;
  nSuperblockStartBlock := 2000; nSuperblockCycle := 24 |}.
Definition no_governance : Governance := {|
  gv_IsSynced := true; gv_fDisableGovernance := false; gv_AreSuperblocksEnabled := false; gv_GetPaymentsLimit := fun _ => 0;
  gv_IsSuperblockTriggered := fun _ => false; gv_IsValid := fun _ _ _ => false |}.

Definition stake_cb : CTx := {|
  ctx_hash := 72; ctx_nVersion := 3; ctx_nType := TRANSACTION_COINBASE; ctx_vin := ctx_vin cb_tx; ctx_vout := [{| nValue := 0; scriptPubKey := [] |}];
  ctx_nLockTime := 0;
  ctx_vExtraPayload := Serialize (u16c ⊗ i32c ⊗ uint256c ⊗ u8c) (2, (500, (0, CalcCbTxCoinstakeFlags true false true false))) |}.

Lemma IsBlockValueValid_bounds_witness :
  sum_values (ctx_vout stake_cb) + sum_values (ctx_vout stake_tx) <= GetBlockSubsidyWagerr (fun _ => 0) NET_TESTNET small_net 499 + 1000 + 10000 * COIN.
Proof.
  destruct (IsBlockValueValid_bounds budget_net no_governance (fun _ => 0) NET_TESTNET small_net 500 1000 (10000 * COIN) stake_cb stake_tx []) as [H _].
  - vm_compute. reflexivity.
  - split; cbn; intros; lia || done.
  - apply (bool_decide_unpack _). vm_compute. exact I.
  - vm_compute. reflexivity.
  - unfold MAX_MONEY, COIN. lia.
  - unfold MAX_MONEY, COIN. lia.
  - vm_compute. reflexivity.
  - exact H.
Defined.

Lemma pow_output_uncounted_witness : exists b : CBlockReward,
  let cb := pow_coinbase 5 TRANSACTION_COINBASE split_payload [{| nValue := 100; scriptPubKey := [] |}; {| nValue := MAX_MONEY; scriptPubKey := [] |}] in
  IsBlockValueValid budget_net no_governance [cb] 500 b 0 = Some true.
Proof.
  exists (CBlockReward_at (fun _ => 0) NET_TESTNET small_net 100 500 0 false).
  refine (proj1 (proj2 (pow_output_uncounted budget_net no_governance 5 500 {| nValue := 100; scriptPubKey := [] |} MAX_MONEY
    (CBlockReward_at (fun _ => 0) NET_TESTNET small_net 100 500 0 false) _ eq_refl _)) _ _).
  - unfold inS. cbn. lia.
  - cbn. lia.
  - cbn. lia.
  - vm_compute. reflexivity.
Defined.

Definition some_payee : Payee := {| nOperatorReward := 1000; scriptPayout := coin_script 3; scriptOperatorPayout := coin_script 4 |}.

Lemma GetBlockTxOuts_total_witness :
  let b := CBlockReward_at (fun _ => 0) NET_TESTNET small_net 100 500 0 true in
  total64 (br_rewards (GetBlockTxOuts (Some some_payee) b).2) = total64 (br_rewards b).
Proof.
  cbv zeta. set (b := CBlockReward_at (fun _ => 0) NET_TESTNET small_net 100 500 0 true).
  pose proof (GetBlockTxOuts_total (Some some_payee) b ltac:(vm_compute; congruence) ltac:(vm_compute; reflexivity)) as H.
  destruct (GetBlockTxOuts (Some some_payee) b) as [vout b']. apply H. intros d [= <-]. split; [vm_compute; reflexivity|cbn; lia].
Defined.
