(* ===== verification/SelectWitnesses.v ===== *)
(** * Instances of the theorems about the choice of the chain

    A tree of five blocks with a fork after the second, each with one coinbase, all
    received; the coins are the store. *)

From S2P Require Import Prelude Serialize Params BetTx BetKeys Transaction TokenGroups Coins CoinsUndo CoinsWitnesses Arith256 Chain ChainProofs Pow Kernel ChainSelect ChainSelectProofs ActivateProofs CoinsStore NodeWitnesses.

Definition tree5 : BlockManager := add_header tree4 (header 23 22 1500000195).
Lemma tree5_reached : reached hash_of (tree5, []).
Proof. step_header tree4 (header 23 22 1500000195). exact tree4_reached_empty. Qed.

(** Blocks that were received and connected before. *)
Definition received (n : CBlockIndexNode) : CBlockIndexNode := set_status (set_counts n 1 1 1) (Z.lor BLOCK_VALID_SCRIPTS BLOCK_HAVE_DATA).
Definition index5 : BlockMap := received <$> (m_block_index tree5 : gmap uint256 CBlockIndexNode).

Lemma tree5_wf : tree_wf (m_block_index tree5).
Proof. exact (iw_tree _ (sw_index _ (reached_wf _ _ tree5_reached))). Qed.

Lemma index5_lookup h : index5 !! h = received <$> m_block_index tree5 !! h.
Proof. exact (lookup_fmap received (m_block_index tree5 : gmap uint256 CBlockIndexNode) h). Qed.

Lemma index5_wf : tree_wf index5.
Proof. apply (tree_wf_ext (m_block_index tree5)); [|exact tree5_wf]. intros h. rewrite index5_lookup. by destruct (m_block_index tree5 !! h). Qed.

Lemma index5_works : works_ok index5.
Proof.
  intros h n' Hn'. rewrite index5_lookup in Hn'. destruct (m_block_index tree5 !! h) as [n|] eqn:E; [|done]. injection Hn' as <-.
  eexists. exact (tw_work _ _ (iw_totals _ (sw_index _ (reached_wf _ _ tree5_reached)) h n E)).
Qed.

Definition prev_less (m : BlockMap) (n : CBlockIndexNode) : bool :=
  match parent_of m n with Some np => eval (bi_nChainWork np) <? eval (bi_nChainWork n) | None => true end.

Lemma index5_grows : work_grows index5.
Proof.
  intros h n p np Hn Ep Hp. assert (prev_less index5 n = true) as H.
  { revert h n Hn Ep. intros h n Hn _. revert h n Hn. apply (map_all index5 (fun _ n => prev_less index5 n)). vm_compute. reflexivity. }
  unfold prev_less, parent_of in H. rewrite Ep in H. cbn [mbind option_bind] in H. rewrite Hp in H. by apply Z.ltb_lt.
Qed.

Lemma index5_root h n : index5 !! h = Some n -> bi_pprev n = None -> h = 10.
Proof.
  intros Hn Ep. assert ((h =? 10) || bool_decide (is_Some (bi_pprev n)) = true) as H.
  { revert h n Hn Ep. intros h n Hn _. revert h n Hn. apply (map_all index5 (fun h n => (h =? 10) || bool_decide (is_Some (bi_pprev n)))). vm_compute. reflexivity. }
  rewrite Ep in H. apply orb_prop in H as [H|H]; [by apply Z.eqb_eq|]. apply bool_decide_eq_true in H. by destruct H.
Qed.

Lemma index5_flags h n : index5 !! h = Some n -> failed n = false /\ conflicting n = false /\ have_data n = true /\ bi_nChainTx n = 1.
Proof. rewrite index5_lookup. destruct (m_block_index tree5 !! h); [|done]. by intros [= <-]. Qed.

Lemma index5_clean h : clean index5 h.
Proof. intros a na _ Hna. by apply index5_flags in Hna as (_ & Hc & Hd & _). Qed.

(** ** The coins of the blocks *)
Definition block_cb (hash : uint256) : CTx := {|
  ctx_hash := hash; ctx_nVersion := 1; ctx_nType := 0;
  ctx_vin := [{| txin_prevout := {| op_hash := 0; op_n := NULL_INDEX |}; txin_scriptSig := [1]; txin_nSequence := SEQUENCE_FINAL |}];
  ctx_vout := [{| nValue := 25; scriptPubKey := coin_script 6 |}]; ctx_nLockTime := 0; ctx_vExtraPayload := [] |}.

Definition block5 (h : uint256) : list CTx * Z := ([block_cb (1000 + h)], hgt index5 h).

(** Whether block 23 fails the check of its stake. *)
Definition rules5 (bad : bool) (v : gmap COutPoint Coin) (h : uint256) : option (option InvalidReason) :=
  if bad && (h =? 23) then Some None else None.

Section five.
Context (bad : bool).
#[local] Instance store5 : BlockStore (gmap COutPoint Coin) (list (list Coin)) := coins_store full block5 (rules5 bad).
#[local] Instance laws5 : BlockStoreLaws (gmap COutPoint Coin) (list (list Coin)) coins_ok := coins_store_laws full block5 (rules5 bad).

Definition connect5 (v : gmap COutPoint Coin) (h : uint256) : gmap COutPoint Coin * list (list Coin) :=
  match ConnectTip_coins full block5 (rules5 bad) v h with Connected v u => (v, u) | _ => (v, []) end.

Definition coins11 : gmap COutPoint Coin := (connect5 ∅ 11).1.

(** The state with the tip [t]. *)
Definition state5 (t : uint256) : CChainState (S := gmap COutPoint Coin) (U := list (list Coin)) :=
  {| cs_blockman := {| m_block_index := index5; m_prev_block_index := m_prev_block_index tree5; setDirtyBlockIndex := ∅; pindexBestHeader := Some 23;
                       m_failed_blocks := [] |};
     m_blocks_unlinked := []; setBlockIndexCandidates := {[12; 22; 23]}; m_chain := [Some 10; Some 11; Some t]; pindexBestInvalid := None;
     nBlockSequenceId := 2; cs_store := (connect5 coins11 t).1; cs_undo := <[11 := (connect5 ∅ 11).2]> (<[t := (connect5 coins11 t).2]> ∅) |}.

Definition two_tips (t : uint256) : Prop := t = 12 \/ t = 22.

Lemma node5 h : bool_decide (h ∈ [10; 11; 12; 22; 23]) = true -> exists n, index5 !! h = Some n.
Proof. intros H. apply (bool_decide_unpack _). apply bool_decide_eq_true in H. apply elem_of_cons in H as [->|H]; [by vm_compute|].
  apply elem_of_cons in H as [->|H]; [by vm_compute|]. apply elem_of_cons in H as [->|H]; [by vm_compute|]. apply elem_of_cons in H as [->|H]; [by vm_compute|].
  apply list_elem_of_singleton in H as ->. by vm_compute. Qed.

Lemma connect5_spec t : bool_decide (t ∈ [12; 22]) = true ->
  ConnectBlock (S := gmap COutPoint Coin) ∅ 11 = Connected coins11 (connect5 ∅ 11).2 /\
  ConnectBlock coins11 t = Connected (connect5 coins11 t).1 (connect5 coins11 t).2.
Proof.
  intros Ht. apply bool_decide_eq_true in Ht. unfold coins11, connect5, store5.
  apply elem_of_cons in Ht as [->|Ht%list_elem_of_singleton]; [|subst t]; destruct bad; split; vm_compute; reflexivity.
Qed.

Lemma coins11_replays : replays 10 ∅ index5 11 coins11.
Proof.
  eapply (replays_step _ _ _ 11 _ 10 ∅); [vm_compute; reflexivity|reflexivity|constructor|]. exact (proj1 (connect5_spec 12 eq_refl)).
Qed.

Lemma state5_replays t : two_tips t -> replays 10 ∅ index5 t (connect5 coins11 t).1.
Proof.
  intros [->| ->]; (eapply (replays_step _ _ _ _ _ 11 coins11); [vm_compute; reflexivity|reflexivity|exact coins11_replays|]);
    [exact (proj2 (connect5_spec 12 eq_refl))|exact (proj2 (connect5_spec 22 eq_refl))].
Qed.

Lemma root5 : rooted 10 index5.
Proof. eexists. split; [vm_compute; reflexivity|reflexivity]. Qed.

Lemma state5_chain t : two_tips t -> chain_of index5 t [Some 10; Some 11; Some t].
Proof.
  intros [->| ->]; (eexists; split; [vm_compute; reflexivity|]; split; [reflexivity|]; intros [|[|[|i]]] Hi; [vm_compute; reflexivity..|cbn in Hi; lia]).
Qed.

(** The blocks that are not worse than a tip. *)
Lemma state5_complete t h : two_tips t -> is_Some (index5 !! h) -> ~ rank_lt (cand_rank (fun x => x) index5 h) (cand_rank (fun x => x) index5 t) ->
  h ∈ ({[12; 22; 23]} : gset uint256).
Proof.
  intros Ht [n Hn] Hrk. assert (bool_decide (rank_lt (cand_rank (fun x => x) index5 h) (cand_rank (fun x => x) index5 t)) || bool_decide (h ∈ ({[12; 22; 23]} : gset uint256)) = true) as H.
  { clear Hrk. revert h n Hn. apply (map_all index5 (fun h _ => bool_decide (rank_lt (cand_rank (fun x => x) index5 h) (cand_rank (fun x => x) index5 t)) || bool_decide (h ∈ ({[12; 22; 23]} : gset uint256)))).
    destruct Ht as [->| ->]; vm_compute; reflexivity. }
  rewrite bool_decide_eq_false_2 in H by done. by apply bool_decide_eq_true in H.
Qed.

Lemma state5_ok t : two_tips t -> chain_ok (fun x => x) 10 ∅ (state5 t) t t.
Proof.
  intros Ht. split; change (index_of (state5 t)) with index5.
  - exact index5_wf.
  - exact root5.
  - exact index5_root.
  - exact index5_works.
  - exact index5_grows.
  - intros h Hh. change (index_of (state5 t)) with index5. split; [|intros a na _ Hna; left; apply index5_flags in Hna as (_ & _ & _ & ->); done].
    apply node5. cbn in Hh. apply bool_decide_eq_true. rewrite !elem_of_union, !elem_of_singleton in Hh. destruct Hh as [[->| ->]| ->]; apply (bool_decide_unpack _); by vm_compute.
  - by apply state5_chain.
  - apply index5_clean.
  - by apply state5_replays.
  - intros h u Hu n p s Hn Ep Hr. change (cs_undo (state5 t)) with (<[11 := (connect5 ∅ 11).2]> (<[t := (connect5 coins11 t).2]> ∅ : gmap uint256 (list (list Coin)))) in Hu.
    apply lookup_insert_Some in Hu as [[<- <-]|[_ Hu]].
    + assert (p = 10) as -> by (vm_compute in Hn; injection Hn as <-; cbn in Ep; congruence). rewrite (replays_det 10 ∅ index5 10 ∅ root5 (replays_root _ _ _) s Hr).
      exists coins11. exact (proj1 (connect5_spec 12 eq_refl)).
    + apply lookup_insert_Some in Hu as [[<- <-]|[_ Hu]]; [|rewrite lookup_empty in Hu; discriminate Hu].
      assert (p = 11) as -> by (destruct Ht as [->| ->]; vm_compute in Hn; injection Hn as <-; cbn in Ep; congruence).
      rewrite (replays_det 10 ∅ index5 11 coins11 root5 coins11_replays s Hr).
      exists (connect5 coins11 t).1. refine (proj2 (connect5_spec t _)). destruct Ht as [->| ->]; reflexivity.
  - intros h n Ha Hn Ep. change (cs_undo (state5 t)) with (<[11 := (connect5 ∅ 11).2]> (<[t := (connect5 coins11 t).2]> ∅ : gmap uint256 (list (list Coin)))).
    assert (h = 10 \/ h = 11 \/ h = t) as [->|[->| ->]].
    { destruct Ha as [k Hk]. assert (walk index5 3 t = None) as E3 by (destruct Ht as [->| ->]; vm_compute; reflexivity).
      destruct (decide (3 <= k)%nat) as [Hle|Hlt]; [replace k with (3 + (k - 3))%nat in Hk by lia; rewrite walk_add, E3 in Hk; discriminate Hk|].
      destruct Ht as [->| ->]; (destruct k as [|[|[|k]]]; [vm_compute in Hk; injection Hk as <-; tauto..|lia]). }
    + vm_compute in Hn. injection Hn as <-. done.
    + by rewrite lookup_insert_eq.
    + rewrite lookup_insert_ne by (destruct Ht; lia). by rewrite lookup_insert_eq.
  - intros h n Hn Hf. apply index5_flags in Hn as (Hn & _). congruence.
  - intros b Hb. discriminate Hb.
  - destruct Ht as [->| ->]; by apply node5.
  - apply index5_clean.
  - eexists. by apply state5_replays.
  - intros h Hh _ Hrk. by apply (state5_complete t).
Qed.
End five.

(** ** The theorems at the five blocks *)
Lemma coins_ok_empty : coins_ok ∅.
Proof. split; apply map_Forall_empty. Qed.

Lemma FindMostWorkChain_best_witness : exists st' r,
  FindMostWorkChain (fun x => x) (state5 false 12) = Some (st', r) /\ searched (fun x => x) (state5 false 12) st' 12 r.
Proof.
  apply (FindMostWorkChain_best (fun x => x) (state5 false 12) 12). pose proof (state5_ok false 12 (or_introl eq_refl)) as Hok.
  split; [exact (ck_tree _ _ _ _ _ _ Hok)|exact (ck_works _ _ _ _ _ _ Hok)|exact (ck_chain _ _ _ _ _ _ Hok)|
    exact (tip_good _ _ _ _ _ _ Hok)|exact (ck_cands _ _ _ _ _ _ Hok)|exact (ck_invalid _ _ _ _ _ _ Hok)].
Defined.

Lemma ActivateBestChain_coins_witness : exists st' t',
  ActivateBestChain (BlockStore0 := store5 false) (fun x => x) (state5 false 12) = Some (st', true) /\ Tip (m_chain st') = Some t' /\
  ~ rank_lt (cand_rank (fun x => x) index5 t') (cand_rank (fun x => x) index5 12).
Proof.
  destruct (ActivateBestChain_coins full block5 (rules5 false) (fun x => x) 10 ∅ (state5 false 12) 12 12 coins_ok_empty
    ltac:(discriminate) (state5_ok false 12 (or_introl eq_refl))) as (st' & ok & t' & top' & E & Ht & _ & _ & _ & Hbest & Herr).
  destruct ok.
  - exists st', t'. split; [exact E|]. split; [exact Ht|].
    refine (Hbest eq_refl 12 _ (node5 12 eq_refl) (index5_clean 12) (state5_replays false 12 (or_introl eq_refl))).
  - exfalso. destruct (Herr eq_refl) as (mw & h & n & _ & _ & _ & _ & Hr). discriminate Hr.
Defined.

(** The other branch has more work and is taken. *)
Example reorganised : (fun r => Tip (m_chain r.1)) <$> ActivateBestChain (BlockStore0 := store5 false) (fun x => x) (state5 false 12) = Some (Some 23).
Proof. vm_compute. reflexivity. Qed.

Lemma stuck5 : stuck (BlockStore0 := store5 true) (fun x => x) 10 ∅ (state5 true 22) 23 22 22.
Proof.
  split; [exact (state5_ok true 22 (or_intror eq_refl))|]. split; [split|].
  - apply (bool_decide_unpack _). vm_compute. exact I.
  - split; [apply index5_clean|]. intros a na _ Hna. exact (proj1 (index5_flags a na Hna)).
  - intros x Hx. change (index_of (state5 true 22)) with index5. change (x ∈ ({[12; 22; 23]} : gset uint256)) in Hx.
    apply elem_of_union in Hx as [[Hx|Hx]%elem_of_union|Hx]; apply elem_of_singleton in Hx as ->;
      apply (bool_decide_unpack _); vm_compute; exact I.
  - split; [eexists; split; [vm_compute; reflexivity|reflexivity]|]. vm_compute. reflexivity.
Qed.

Lemma ConnectError_stuck_witness : exists st',
  ActivateBestChain (BlockStore0 := store5 true) (fun x => x) (state5 true 22) = Some (st', false) /\ m_chain st' = [Some 10; Some 11; Some 22].
Proof.
  destruct (ConnectError_stuck (BlockStoreLaws0 := laws5 true) (fun x => x) 10 ∅ coins_ok_empty (state5 true 22) 23 22 22 (fun x y E => E) stuck5) as (st' & E & _ & Hc).
  exists st'. split; [exact E|exact Hc].
Defined.

(** ** A cache miss in the middle of a reorganisation

    ConnectBlock asks for a retry on block 22: the blocks of the old chain are
    disconnected already, all candidates are forgotten, and ActivateBestChain returns
    true with block 11 as the tip, which has less work than the old tip. *)
Definition rules_miss (v : gmap COutPoint Coin) (h : uint256) : option (option InvalidReason) :=
  if h =? 22 then Some (Some BLOCK_CACHE_MISSING_PREV) else None.

Example cache_miss_loses_chain :
  (fun r => (r.2, Tip (m_chain r.1), elements (setBlockIndexCandidates r.1))) <$>
    ActivateBestChain (BlockStore0 := coins_store full block5 rules_miss) (fun x => x) (state5 false 12) = Some (true, Some 11, []) /\
  rank_lt (cand_rank (fun x => x) index5 11) (cand_rank (fun x => x) index5 12).
Proof. split; [vm_compute; reflexivity|apply (bool_decide_unpack _); vm_compute; exact I]. Qed.
