(* ===== verification/HashWitnesses.v ===== *)
(** * Instances of the theorems about hashes and Merkle trees *)

From S2P Require Import Prelude Serialize Params BetKeys HashStream Sha2 Sha512 Sha2Proofs Merkle MerkleProofs BetTx Transaction TxCodec TokenGroups TokenDesc TxVerify AddressIndex Coins CoinsUndo CoinsWitnesses Arith256 Chain ChainProofs Pow Kernel Headers ChainSelect ChainSelectProofs CoinsStore HeadersWire Standard BlockCheck BlockCheckProofs NodeWitnesses SelectWitnesses.

Lemma hashers_refine_witness :
  let buf := replicate 64 7 in let buf2 := replicate 128 9 in let l := [[97]; []; [98; 99]] in
  (CSHA256_Finalize (foldl CSHA256_Write (CSHA256_new buf) l)).2 = SHA256 (mjoin l) /\
  CHash256_Finalize (foldl CSHA256_Write (CSHA256_new buf) l) = SHA256 (SHA256 (mjoin l)) /\
  (CSHA512_Finalize (foldl CSHA512_Write (CSHA512_new buf2) l)).2 = SHA512 (mjoin l) /\
  CHMAC_SHA256_Finalize (foldl CHMAC_SHA256_Write (CHMAC_SHA256_new buf (replicate 70 3)) l) = HMAC 64 SHA256 (replicate 70 3) (mjoin l) /\
  CHMAC_SHA512_Finalize (foldl CHMAC_SHA512_Write (CHMAC_SHA512_new buf2 (replicate 70 3)) l) = HMAC 128 SHA512 (replicate 70 3) (mjoin l).
Proof. exact (hashers_refine (replicate 64 7) (replicate 128 9) (replicate 70 3) [[97]; []; [98; 99]] eq_refl eq_refl). Defined.

Lemma TransformD64_equiv_witness :
  let p1 := replicate 20 1 in let p2 := replicate 44 2 in
  sha256.TransformD64 (p1 ++ p2) = Hash2 (replicate 64 7) p1 p2 /\ sha256.TransformD64 (p1 ++ p2) = TransformD64Wrapper sha256.Transform (p1 ++ p2).
Proof. exact (TransformD64_equiv (replicate 64 7) (replicate 20 1) (replicate 44 2) eq_refl eq_refl). Defined.

Definition five_ids : list uint256 := [11; 12; 13; 14; 15].
Definition five_matches : list bool := [false; true; false; false; true].
Definition five_root : uint256 := Eval vm_compute in from_option fst 0 (ComputeMerkleRoot five_ids).

Lemma five_picked : picked 0 five_ids five_matches = [(1, 12); (4, 15)].
Proof. reflexivity. Qed.

Lemma ExtractMatches_complete_witness : exists t, CPartialMerkleTree_new five_ids five_matches = Some t /\
  ExtractMatches (sent t) false = Some (five_root, (picked 0 five_ids five_matches).*2, (picked 0 five_ids five_matches).*1).
Proof.
  apply (ExtractMatches_complete five_ids five_matches five_root); [split; vm_compute; [reflexivity|discriminate]|reflexivity|vm_compute; reflexivity].
Defined.

(** * Instances of the theorems about blocks, their signatures and their headers *)

(** ** Headers: versions that come back, a time that goes back, a new difficulty *)
Definition wire_header (nVersion prev nTime nBits hash : Z) : CBlockHeader := Build_CBlockHeader nVersion prev 5 nTime nBits hash 0.
Definition wire_headers : list CBlockHeader :=
  [wire_header 8 21 1560 3 22; wire_header 7 22 1500 3 23; wire_header 8 23 9000000 4 24; wire_header 7 24 9000060 4 25].

Lemma HEADERS2_roundtrip_witness : receive_HEADERS2 hash_of (HEADERS2_message true (wire_header 7 6 1500 3 21 :: wire_headers) ++ [1; 2]) =
  Some (inr (wire_header 7 6 1500 3 21 :: wire_headers, [1; 2])).
Proof.
  apply (HEADERS2_roundtrip hash_of true (wire_header 7 6 1500 3 21) wire_headers [1; 2]).
  - do 5 (constructor; [unfold HeaderOk, inU, inS; split_and!; vm_compute; (reflexivity || discriminate)|]). constructor.
  - cbn. tauto.
  - vm_compute. discriminate.
Defined.

(** ** The signature of a block *)
Definition stake_key : list Z := 2 :: repeat 9 32.
Definition stake_in : CTxIn := {| txin_prevout := at_out 77 0; txin_scriptSig := [1]; txin_nSequence := SEQUENCE_FINAL |}.
Definition stake_tx : CTx := {| ctx_hash := 3; ctx_nVersion := 1; ctx_nType := 0; ctx_vin := [stake_in];
  ctx_vout := [{| nValue := 0; scriptPubKey := [] |}; {| nValue := 8; scriptPubKey := p2pk stake_key |}]; ctx_nLockTime := 0; ctx_vExtraPayload := [] |}.
Definition last_byte (key : list Z) (hash : uint256) (sig : list Z) : bool := bool_decide (last key = last sig).

Lemma CheckBlockSignature_key_witness : CheckBlockSignature last_byte (fun _ => None) [stake_tx; stake_tx] [4; 9] 99 = Some true.
Proof.
  apply (CheckBlockSignature_key last_byte (fun _ => None) [stake_tx; stake_tx] [4; 9] 99 stake_tx stake_in); [reflexivity|reflexivity|reflexivity|reflexivity|].
  exists {| nValue := 8; scriptPubKey := p2pk stake_key |}, stake_key. split; [reflexivity|]. split; [reflexivity|]. split; [reflexivity|]. split; [discriminate|reflexivity].
Defined.

(** ** A block after the fifth of the tree *)
Definition cb_raw : CTx := {| ctx_hash := 0; ctx_nVersion := 1; ctx_nType := 0;
  ctx_vin := [{| txin_prevout := {| op_hash := 0; op_n := NULL_INDEX |}; txin_scriptSig := [0x54; 1]; txin_nSequence := SEQUENCE_FINAL |}];
  ctx_vout := [{| nValue := 25; scriptPubKey := coin_script 6 |}]; ctx_nLockTime := 0; ctx_vExtraPayload := [] |}.
Definition cb_hash : uint256 := Eval vm_compute in ComputeHash (Hash1 (replicate 64 0)) cb_raw.
Definition cb24 : CTx := {| ctx_hash := cb_hash; ctx_nVersion := 1; ctx_nType := 0; ctx_vin := ctx_vin cb_raw; ctx_vout := ctx_vout cb_raw; ctx_nLockTime := 0; ctx_vExtraPayload := [] |}.

Definition header24 : CBlockHeader :=
  {| h_nVersion := 7; h_hashPrevBlock := 23; h_hashMerkleRoot := cb_hash; h_nTime := 1500000210; h_nBits := 0x1e0fffff; h_nNonce := 24 * 2 ^ 248; h_nAccumulatorCheckpoint := 0 |}.
Definition block24 : CBlock := {| b_header := header24; b_vtx := [cb24]; b_vchBlockSig := []; b_fChecked := false |}.

Definition block_net : BlockParams := {|
  bk_header := header_net; CSVHeight := 2; DIP0001Height := 2; DIP0003Height := 1000; nZerocoinStartTime := 0; nMinimumChainWork := base_uint_of 1 |}.

Lemma block24_checked : exists b, CheckBlock block_net hash_of block24 true true = Some (b, None).
Proof. eexists. vm_compute. reflexivity. Qed.

Ltac ser_ok := repeat first [split | constructor | (unfold byte, inU, inS; cbn; lia) | (vm_compute; discriminate)].

Lemma cb24_made : Forall tx_made (b_vtx block24).
Proof.
  constructor; [|constructor]. split; [|vm_compute; reflexivity].
  split; [cbn; lia|]. split; [unfold inU; cbn; lia|]. split; [|split; [|split; [unfold inU; cbn; lia|reflexivity]]]; ser_ok.
Qed.

(** The same block with a signature that it should not have. *)
Definition block24s : CBlock := {| b_header := header24; b_vtx := [cb24]; b_vchBlockSig := [1]; b_fChecked := false |}.

Lemma CheckBlock_binds_witness : b_vtx block24 = b_vtx block24s \/ hash_collision (b_vtx block24) (b_vtx block24s) \/
  exists tx, tx ∈ b_vtx block24 ++ b_vtx block24s /\ length (Serialize_tx tx) = 64%nat.
Proof.
  eapply (CheckBlock_binds block_net hash_of block24 block24s); [reflexivity|reflexivity|exact cb24_made|exact cb24_made|reflexivity|vm_compute; reflexivity|vm_compute; reflexivity].
Defined.

(** It is stored when it arrives, whatever the tip is. *)
#[local] Instance store5_here : BlockStore (gmap COutPoint Coin) (list (list Coin)) := coins_store full block5 (rules5 false).

Definition accepted24 := AcceptBlock block_net hash_of no_lock (fun x => x) (state5 false 12) block24 true 1500000210 true.

Lemma AcceptBlock_sound_witness : exists st' n', accepted24 = Some (st', Accepted true) /\ index_of st' !! (24 * 2 ^ 248) = Some n' /\ have_data n' = true /\
  m_chain st' = m_chain (state5 false 12) /\ checked_as block_net hash_of no_lock (state5 false 12) block24 1500000210 (24 * 2 ^ 248) None.
Proof.
  assert (exists st', accepted24 = Some (st', Accepted true)) as [st' E] by (eexists; vm_compute; reflexivity).
  destruct (AcceptBlock_sound block_net hash_of no_lock (fun x => x) (state5 false 12) st' block24 true 1500000210 true (Accepted true) E) as ((Hc & _ & _) & Hd & _).
  assert (from_option (fun n => have_data n) false (s ← fst <$> accepted24; index_of s !! (24 * 2 ^ 248)) = true) as Hn by (vm_compute; reflexivity).
  rewrite E in Hn. cbn [fmap option_fmap option_map fst mbind option_bind] in Hn. destruct (index_of st' !! (24 * 2 ^ 248)) as [n'|] eqn:En; [|discriminate Hn].
  exists st', n'. split; [exact E|]. split; [exact En|]. split; [exact Hn|]. split; [exact Hc|].
  apply (Hd (24 * 2 ^ 248)). exists n'. split; [exact En|]. split; [exact Hn|]. intros n H. vm_compute in H. discriminate H.
Defined.
