(* ===== verification/ScriptWitnesses.v ===== *)
(** * Instances of the theorems about scripts, their checks, the caches and the files

    A transaction that spends an output to the hash of a key. *)

From stdpp Require Import relations.
From S2P Require Import Prelude Serialize Params BetTx BetKeys Transaction TxCodec Coins TokenGroups AddressIndex TxVerify Arith256 Chain Headers HashStream Sha2 Sha512 Sha2Proofs Sha1 Hash160 ScriptNum Standard Script ScriptProofs ScriptSpend SigHash HeadersWire BlockCheck BlockCheckProofs CheckQueue CuckooCache InputCheck Compress BlockFiles CoinsWitnesses HashWitnesses NodeWitnesses.

Definition a_key : list Z := 2 :: replicate 32 7.
Definition a_sig : list Z := [0x30; 6; 2; 1; 5; 2; 1; 9; 1].
Definition a_hash : list Z := Eval vm_compute in hash_value op_HASH160 a_key.
(** Signatures of one key are valid. *)
Definition verify_key (key hash sig : list Z) : bool := bool_decide (key = a_key) && bool_decide (sig = removelast a_sig).
Definition any_s (sig : list Z) : bool := true.

Definition spending : CTx := {|
  ctx_hash := 93; ctx_nVersion := 1; ctx_nType := 0;
  ctx_vin := [{| txin_prevout := at_out 75 0; txin_scriptSig := script_push a_sig ++ script_push a_key; txin_nSequence := SEQUENCE_FINAL |}];
  ctx_vout := [{| nValue := 20; scriptPubKey := coin_script 7 |}]; ctx_nLockTime := 0; ctx_vExtraPayload := [] |}.
Definition spent_out : CTxOut := {| nValue := 30; scriptPubKey := p2pkh a_hash |}.
Definition a_checker : BaseSignatureChecker := {|
  CheckSig := tx_CheckSig verify_key spending 0; CheckLockTime := fun _ => true; CheckSequence := fun _ => true |}.

Definition no_checker : BaseSignatureChecker := {| CheckSig := fun _ _ _ => false; CheckLockTime := fun _ => false; CheckSequence := fun _ => false |}.

Ltac bytes := unfold byte, inU; decided.

Lemma VerifyScript_aborts_witness :
  (Solver (open_p2sh [1; 2; 3])).1 = TX_SCRIPTHASH /\
  VerifyScript STANDARD_SCRIPT_VERIFY_FLAGS no_checker verify_key any_s [] (open_p2sh [1; 2; 3]) = None /\
  VerifyScript 0 no_checker verify_key any_s [] (open_p2sh [1; 2; 3]) = Some (inr tt).
Proof. apply (VerifyScript_aborts STANDARD_SCRIPT_VERIFY_FLAGS no_checker verify_key any_s [1; 2; 3]); [bytes|cbn; lia|reflexivity]. Defined.

Lemma VerifyScript_p2pkh_witness :
  VerifyScript STANDARD_SCRIPT_VERIFY_FLAGS a_checker verify_key any_s (script_push a_sig ++ script_push a_key) (p2pkh a_hash) = Some (inr tt).
Proof.
  apply (VerifyScript_p2pkh STANDARD_SCRIPT_VERIFY_FLAGS a_checker verify_key any_s a_hash eq_refl ltac:(bytes) a_sig a_key).
  - bytes.
  - bytes.
  - cbn; lia.
  - cbn; lia.
  - discriminate.
  - intros _. reflexivity.
  - split; [vm_compute; reflexivity|]. split; [reflexivity|]. vm_compute. reflexivity.
Defined.

Lemma VerifyScript_softfork_witness :
  VerifyScript (Z.lor SCRIPT_VERIFY_P2SH SCRIPT_ENABLE_DIP0020_OPCODES) a_checker verify_key any_s (script_push a_sig ++ script_push a_key) (p2pkh a_hash) = Some (inr tt).
Proof.
  apply (VerifyScript_softfork (Z.lor SCRIPT_VERIFY_P2SH SCRIPT_ENABLE_DIP0020_OPCODES) STANDARD_SCRIPT_VERIFY_FLAGS a_checker verify_key any_s);
    [reflexivity|intros _; reflexivity|intros _; reflexivity|vm_compute; reflexivity].
Defined.

Lemma IsValidSignatureEncoding_spec_witness : der_signature a_sig /\ (length a_sig <= 73)%nat.
Proof. apply (IsValidSignatureEncoding_spec a_sig); [bytes|reflexivity]. Defined.

Lemma EvalScript_limits_witness :
  within_limits {| sm_stack := [vchTrue; [5]]; sm_altstack := []; sm_vfExec := []; sm_pc := [OP_DUP]; sm_pbegincodehash := [0x51; OP_DUP]; sm_nOpCount := 0 |}.
Proof.
  apply (EvalScript_limits 0 no_checker verify_key any_s [[5]] [0x51; OP_DUP]).
  - constructor; [vm_compute; discriminate|constructor].
  - vm_compute. discriminate.
  - apply rtc_once. vm_compute. reflexivity.
Defined.

(** The same transaction before it is signed. *)
Definition unsigned : CTx := {|
  ctx_hash := 94; ctx_nVersion := 1; ctx_nType := 0;
  ctx_vin := [{| txin_prevout := at_out 75 0; txin_scriptSig := []; txin_nSequence := SEQUENCE_FINAL |}];
  ctx_vout := [{| nValue := 20; scriptPubKey := coin_script 7 |}]; ctx_nLockTime := 0; ctx_vExtraPayload := [] |}.

Ltac tx_ok :=
  split; [cbn; lia|]; split; [unfold inU; cbn; lia|]; split; [|split; [|split; [unfold inU; cbn; lia|reflexivity]]];
  repeat first [split | constructor | (unfold byte, inU, inS; cbn; lia) | (vm_compute; discriminate)].

Lemma SignatureHash_binds_witness :
  (signed_tx spending (p2pkh a_hash) 0 = signed_tx unsigned (p2pkh a_hash) 0 /\ SIGHASH_ALL = SIGHASH_ALL) \/
  (signed_bytes spending (p2pkh a_hash) 0 SIGHASH_ALL <> signed_bytes unsigned (p2pkh a_hash) 0 SIGHASH_ALL /\
   hash_value op_HASH256 (signed_bytes spending (p2pkh a_hash) 0 SIGHASH_ALL) = hash_value op_HASH256 (signed_bytes unsigned (p2pkh a_hash) 0 SIGHASH_ALL)).
Proof.
  eapply (SignatureHash_binds spending unsigned (p2pkh a_hash) (p2pkh a_hash) 0 0 SIGHASH_ALL SIGHASH_ALL).
  - tx_ok.
  - tx_ok.
  - bytes.
  - bytes.
  - vm_compute; discriminate.
  - vm_compute; discriminate.
  - reflexivity.
  - reflexivity.
  - unfold byte, inU, SIGHASH_ALL. lia.
  - unfold byte, inU, SIGHASH_ALL. lia.
  - repeat split.
  - repeat split.
  - vm_compute. reflexivity.
  - vm_compute. reflexivity.
Defined.

(** ** The queue of checks *)
Definition small (n : nat) : bool := (n <? 5)%nat.
(** The threads run in the order of a schedule. *)
Fixpoint drive (schedule : list nat) (c : config nat) : option (config nat) :=
  match schedule with [] => Some c | i :: schedule => c ← thread_next small 2 i c; drive schedule c end.

Lemma drive_steps schedule : forall c c', drive schedule c = Some c' -> rtc (queue_step small 2) c c'.
Proof.
  induction schedule as [|i schedule IH]; cbn; intros c c'; [by intros [= <-]|]. destruct (thread_next small 2 i c) as [c1|] eqn:E; [|done].
  intros H. eapply rtc_l; [left; by exists i|by apply IH].
Qed.

(** The worker falls asleep, three checks are added, and both threads run them. *)
Definition asleep : config nat := from_option id (started 1) (drive [1%nat] (started 1)).
Definition with_checks (checks : list nat) : config nat :=
  {| shared := push_checks checks (shared asleep); threads := wake_workers (threads asleep); added := added asleep ++ checks |}.
Definition waiting (checks : list nat) : config nat :=
  {| shared := shared (with_checks checks); threads := <[0%nat := Entering 0 true]> (threads (with_checks checks)); added := added (with_checks checks) |}.

Lemma waiting_reachable checks : length checks = 3%nat -> rtc (queue_step small 2) (started 1) (waiting checks).
Proof.
  intros Hl. etrans; [apply (drive_steps [1%nat] (started 1) asleep); reflexivity|].
  assert (checks <> []) as Hne by (by destruct checks).
  eapply rtc_l; [right|eapply rtc_once; right].
  - pose proof (Add_many asleep checks eq_refl) as H. destruct (decide (checks = [])); [done|]. apply H; [lia|rewrite Hl; reflexivity].
  - exact (Wait_call (with_checks checks) eq_refl).
Qed.

(** Both threads take turns, and the master finishes alone. *)
Definition turns : list nat := [0; 1; 0; 1; 0; 1; 0; 1; 0; 0; 0]%nat.
Definition finished (checks : list nat) : config nat := from_option id (waiting checks) (drive turns (waiting checks)).

Lemma finished_reachable checks : length checks = 3%nat -> reachable small 2 (finished checks).
Proof.
  intros Hl. exists 1%nat. etrans; [by apply (waiting_reachable checks)|]. unfold finished.
  destruct (drive turns (waiting checks)) as [c|] eqn:E; [by apply (drive_steps turns)|apply rtc_refl].
Qed.

Lemma CCheckQueue_Wait_witness :
  threads (finished [1; 2; 3]%nat) !! 0%nat = Some (Returned true) /\ Forall (fun n => small n = true) (added (finished [1; 2; 3]%nat)) /\
  threads (finished [1; 7; 3]%nat) !! 0%nat = Some (Returned false) /\
  (Exists (fun n => small n = false) (added (finished [1; 7; 3]%nat)) \/ m_request_stop (shared (finished [1; 7; 3]%nat)) = true).
Proof.
  split; [vm_compute; reflexivity|]. split; [|split; [vm_compute; reflexivity|]].
  - apply (CCheckQueue_Wait small 2 (finished [1; 2; 3]%nat) true (finished_reachable [1; 2; 3]%nat eq_refl)); [vm_compute; reflexivity|reflexivity].
  - apply (CCheckQueue_Wait small 2 (finished [1; 7; 3]%nat) false (finished_reachable [1; 7; 3]%nat eq_refl)); [vm_compute; reflexivity|reflexivity].
Defined.

Lemma CCheckQueue_terminates_witness :
  steps_left (waiting [1; 2; 3]%nat) = 14%nat /\
  (forall n c', nsteps (thread_step small 2) n (waiting [1; 2; 3]%nat) c' -> (n <= 14)%nat) /\
  (forall c', rtc (thread_step small 2) (waiting [1; 2; 3]%nat) c' -> waits c' -> exists c'', thread_step small 2 c' c'').
Proof.
  split; [reflexivity|]. apply (CCheckQueue_terminates small 2 (waiting [1; 2; 3]%nat)). exists 1%nat. apply waiting_reachable. reflexivity.
Defined.

(** ** The caches *)
Definition log2_of (n : nat) : nat := Nat.log2 n.
Definition entry_a : list Z := replicate 32 9.
Definition small_cache : cache (list Z) := setup uint256_zero log2_of 4.

Lemma CuckooCache_sound_witness : exists c c' b,
  perform_all SignatureCacheHasher small_cache [op_insert entry_a; op_contains entry_a true] = Some c /\
  contains SignatureCacheHasher c entry_a false = Some (c', b) /\ table c' = table c /\
  (b = true <-> entry_a ∈ table c) /\ (b = true -> op_insert entry_a ∈ [op_insert entry_a; op_contains entry_a true]).
Proof.
  apply (CuckooCache_sound uint256_zero SignatureCacheHasher log2_of (fun k e => wrapU_range 32 _ ltac:(done))); [reflexivity|discriminate].
Defined.

(** ** The inputs *)
Definition script_coins : CCoinsViewDB := {|
  db_coins := <[at_out 75 0 := coin_at 30 5 (p2pkh a_hash)]> ∅; db_best_block := Some 7; db_head_blocks := None |}.
Definition script_inputs : CCoinsViewCache CCoinsViewDB := SetBestBlock (CCoinsViewCache_of script_coins) 8.

Lemma script_inputs_inv : cache_inv script_inputs.
Proof. split; [|apply map_Forall_empty]. split; [|done]. apply (bool_decide_unpack _). vm_compute. exact I. Qed.

Definition the_output (p : COutPoint) : option CTxOut := if decide (p = at_out 75 0) then Some spent_out else None.

Lemma script_inputs_agree : agrees the_output script_inputs.
Proof.
  intros p coin. rewrite cache_view_lookup. change (cv_cacheCoins script_inputs !! p) with ((∅ : gmap COutPoint CCoinsCacheEntry) !! p). rewrite lookup_empty.
  change (view_of (cv_base script_inputs)) with (<[at_out 75 0 := coin_at 30 5 (p2pkh a_hash)]> (∅ : gmap COutPoint Coin)).
  intros [[<- <-]|[_ H]]%lookup_insert_Some; [reflexivity|]. by rewrite lookup_empty in H.
Qed.

Definition the_nonce : list Z := replicate 32 4.
Definition the_buf : list Z := replicate 64 0.

(** The transaction with the id of its bytes. *)
Definition spending_id : uint256 := Eval vm_compute in ComputeHash (Hash1 (replicate 64 0)) spending.
Definition spending_tx : CTx := {| ctx_hash := spending_id; ctx_nVersion := 1; ctx_nType := 0;
  ctx_vin := ctx_vin spending; ctx_vout := ctx_vout spending; ctx_nLockTime := 0; ctx_vExtraPayload := [] |}.

Lemma spending_made : tx_made spending_tx.
Proof.
  split; [|vm_compute; reflexivity]. split; [cbn; lia|]. split; [unfold inU; cbn; lia|].
  split; [|split; [|split; [unfold inU; cbn; lia|reflexivity]]]; ser_ok.
Qed.

Lemma CheckInputs_sound_witness : exists c,
  (cache_sound verify_key any_s the_nonce the_buf the_output [] c \/
   cache_sound verify_key any_s the_nonce the_buf the_output [(spending_tx, STANDARD_SCRIPT_VERIFY_FLAGS)] c) /\
  (verified verify_key any_s the_output spending_tx STANDARD_SCRIPT_VERIFY_FLAGS \/
   SHA256 (entry_bytes the_nonce spending_tx STANDARD_SCRIPT_VERIFY_FLAGS) = uint256_zero).
Proof.
  assert (exists i c, CheckInputs verify_key any_s the_nonce the_buf script_inputs small_cache spending_tx true STANDARD_SCRIPT_VERIFY_FLAGS true false = Some (i, c, inputs_ok [])) as (i & c & E)
    by (eexists _, _; vm_compute; reflexivity).
  destruct (CheckInputs_sound verify_key any_s the_nonce the_buf the_output eq_refl [] script_inputs small_cache spending_tx STANDARD_SCRIPT_VERIFY_FLAGS true false i c (inputs_ok []))
    as (_ & Hc & Hr);
    [exact spending_made|unfold inU; vm_compute; split; congruence|reflexivity|reflexivity|exact script_inputs_inv|exact script_inputs_agree| |exact E|].
  - split; [apply setup_wf; reflexivity|]. split; [constructor|]. intros e [He Hz].
    apply elem_of_replicate in He as [He _]. exfalso. exact (Hz He).
  - exists c. split; [destruct Hc as [Hc|[Hc _]]; [left; exact Hc|right; exact Hc]|].
    destruct (Hr ltac:(constructor)) as [Hv|[(p & Hp & _)|Hz]]; [left; exact Hv|apply elem_of_nil in Hp; destruct Hp|right; exact Hz].
Defined.

Definition script_net : ScriptParams := {| sp_block := block_net; BIP147Height := 2; V18DeploymentHeight := 20 |}.

Lemma CScriptCheck_policy_witness :
  CScriptCheck_run verify_key any_s {| m_tx_out := spent_out; ptxTo := spending; sc_nIn := 0; nFlags := GetBlockScriptFlags script_net 24 1500000000 |} = Some (inr tt).
Proof. apply (CScriptCheck_policy verify_key any_s script_net 24 1500000000 spent_out spending 0); [cbn; lia|vm_compute; reflexivity]. Defined.

(** Before that height a transaction that concatenates is accepted by the memory pool
    and not by a block. *)
Definition concatenating : CTx := {|
  ctx_hash := 95; ctx_nVersion := 1; ctx_nType := 0;
  ctx_vin := [{| txin_prevout := at_out 76 0; txin_scriptSig := []; txin_nSequence := SEQUENCE_FINAL |}];
  ctx_vout := [{| nValue := 20; scriptPubKey := coin_script 7 |}]; ctx_nLockTime := 0; ctx_vExtraPayload := [] |}.

Example policy_before_V18 :
  let check flags := CScriptCheck_run verify_key any_s
    {| m_tx_out := {| nValue := 30; scriptPubKey := [0x51; 0x51; 0x7e] |}; ptxTo := concatenating; sc_nIn := 0; nFlags := flags |} in
  check STANDARD_SCRIPT_VERIFY_FLAGS = Some (inr tt) /\ check (GetBlockScriptFlags script_net 19 1500000000) = Some (inl SCRIPT_ERR_DISABLED_OPCODE).
Proof. split; vm_compute; reflexivity. Qed.

(** ** Files *)
Definition disk_works : Io := {|
  io_open := true; io_seek := true; io_space := fun _ => true; io_fallback := None; io_truncate := true; io_commit := true; io_written := None |}.
Definition disk_stops : Io := {|
  io_open := true; io_seek := true; io_space := fun _ => true; io_fallback := Some 5%nat; io_truncate := false; io_commit := false; io_written := Some 50%nat |}.
Definition good_env : Env := {| e_flush_block := disk_works; e_flush_undo := disk_works; e_allocate := disk_works; e_write := disk_works |}.
Definition bad_env : Env := {| e_flush_block := disk_stops; e_flush_undo := disk_stops; e_allocate := disk_stops; e_write := disk_stops |}.
Definition zero_hash (b : CBlockHeader) : uint256 := 0.
Definition net_start : list Z := [0x84; 0x2d; 0x61; 0xfd].

Definition hashed (tx : CTx) : CTx := {|
  ctx_hash := ComputeHash Hash tx; ctx_nVersion := ctx_nVersion tx; ctx_nType := ctx_nType tx; ctx_vin := ctx_vin tx; ctx_vout := ctx_vout tx;
  ctx_nLockTime := ctx_nLockTime tx; ctx_vExtraPayload := ctx_vExtraPayload tx |}.
Definition block_of (nNonce : Z) (vtx : list CTx) : CBlock := {|
  b_header := {| h_nVersion := 2; h_hashPrevBlock := 7; h_hashMerkleRoot := 8; h_nTime := 1500000000; h_nBits := 0x1e0fffff; h_nNonce := nNonce; h_nAccumulatorCheckpoint := 0 |};
  b_vtx := vtx; b_vchBlockSig := []; b_fChecked := true |}.
Definition block_a : CBlock := block_of 5 [hashed spending].
Definition block_b : CBlock := block_of 6 [hashed unsigned; hashed spending].

Definition store_after {A} (o : option (FileStore * A)) : FileStore := match o with Some (st, _) => st | None => new_store end.
Definition store_a : FileStore := store_after (SaveBlockToDisk false net_start good_env new_store block_a 1 None (Some 0)).
(** The second block is cut off. *)
Definition store_b : FileStore := store_after (SaveBlockToDisk false net_start bad_env store_a block_b 2 None (Some 1)).

Lemma block_a_fits : block_fits block_a.
Proof. unfold block_fits. vm_compute. reflexivity. Qed.
Lemma block_b_fits : block_fits block_b.
Proof. unfold block_fits. vm_compute. reflexivity. Qed.

Lemma hashed_ok tx : TxOk tx -> SerOk tx_codec (hashed tx).
Proof. intros H. split; [exact H|]. assert (E : Serialize_tx (hashed tx) = Serialize_tx tx) by reflexivity. unfold ComputeHash. rewrite E. reflexivity. Qed.
Lemma spending_ok : TxOk spending.
Proof. tx_ok. Qed.

Lemma block_a_storable : storable small_net zero_hash block_a.
Proof.
  split_and!.
  - split.
    + split; [|split].
      * split; [repeat split; unfold inS, inU; cbn; lia|reflexivity].
      * vm_compute. discriminate.
      * constructor; [|constructor]. apply hashed_ok, spending_ok.
    + reflexivity.
  - exact block_a_fits.
  - intros _. vm_compute. reflexivity.
Qed.

Lemma SaveBlockToDisk_durable_witness :
  ReadBlockFromDisk small_net zero_hash (blk_files store_b) {| nFile := 0; nPos := 8 |} = Some (unchecked block_a).
Proof.
  apply (SaveBlockToDisk_durable false small_net zero_hash net_start (fun _ => false) (fun _ => None) eq_refl good_env new_store block_a 1 (Some 0) store_a).
  - constructor.
  - exact block_a_storable.
  - vm_compute. reflexivity.
  - reflexivity.
  - apply rtc_once. eapply (step_save false net_start _ _ _ bad_env store_a block_b 2 None (Some 1)); [exact block_b_fits|exact I|vm_compute; reflexivity].
Defined.

(** The base point of the curve, as the one key that is known. *)
Definition point_x : list Z := [0x79; 0xbe; 0x66; 0x7e; 0xf9; 0xdc; 0xbb; 0xac; 0x55; 0xa0; 0x62; 0x95; 0xce; 0x87; 0x0b; 0x07;
  0x02; 0x9b; 0xfc; 0xdb; 0x2d; 0xce; 0x28; 0xd9; 0x59; 0xf2; 0x81; 0x5b; 0x16; 0xf8; 0x17; 0x98].
Definition point_y : list Z := [0x48; 0x3a; 0xda; 0x77; 0x26; 0xa3; 0xc4; 0x65; 0x5d; 0xa4; 0xfb; 0xfc; 0x0e; 0x11; 0x08; 0xa8;
  0xfd; 0x17; 0xb4; 0x48; 0xa6; 0x85; 0x54; 0x19; 0x9c; 0x47; 0xd0; 0x8f; 0xfb; 0x10; 0xd4; 0xb8].
Definition base_key : list Z := 4 :: point_x ++ point_y.
Definition known_key (key : list Z) : bool := bool_decide (key = base_key).
Definition recover (key : list Z) : option (list Z) := if decide (key = 2 :: point_x) then Some base_key else None.

Lemma recover_known key : length key = 65%nat -> byte_at key 0 = 0x04 -> known_key key = true ->
  recover ((2 + Z.land (byte_at key 64) 1) :: take 32 (drop 1 key)) = Some key.
Proof. intros _ _ H. apply bool_decide_eq_true in H as ->. vm_compute. reflexivity. Qed.

Definition key_coin : Coin := {| coin_out := {| nValue := 1500; scriptPubKey := 65 :: base_key ++ [OP_CHECKSIG] |}; coin_fCoinBase := false; coin_fCoinStake := true; coin_nHeight := 300 |}.
Definition undo_a : list (list Coin) := [[key_coin; coin_at 30 0 (p2pkh a_hash)]; [coin_at 20 5 [0x51]]].
Definition index_a : DiskIndex := {| di_nFile := 0; di_nDataPos := 8; di_nUndoPos := 0; di_nStatus := 8; di_nHeight := 1; di_dirty := false |}.

Definition with_undo : option (FileStore * DiskIndex * Written unit) := WriteUndoDataForBlock false net_start known_key recover good_env store_b undo_a index_a 7.
Definition store_u : FileStore := match with_undo with Some (st, _, _) => st | None => new_store end.
Definition index_u : DiskIndex := match with_undo with Some (_, i, _) => i | None => index_a end.
Definition store_v : FileStore := store_after (SaveBlockToDisk false net_start good_env store_u block_b 2 None (Some 1)).

Ltac coin_ok := repeat first [split | constructor | (unfold byte, inU, inS; cbn; lia) | (vm_compute; discriminate)].

Lemma store_b_reachable : rtc (store_step false net_start known_key recover false) new_store store_b.
Proof.
  eapply rtc_l; [|apply rtc_once].
  - eapply (step_save false net_start _ _ _ good_env new_store block_a 1 None (Some 0) store_a); [exact block_a_fits|exact I|vm_compute; reflexivity].
  - eapply (step_save false net_start _ _ _ bad_env store_a block_b 2 None (Some 1)); [exact block_b_fits|exact I|vm_compute; reflexivity].
Qed.

Lemma WriteUndoDataForBlock_durable_witness :
  GetUndoPos index_u = {| nFile := 0; nPos := 8 |} /\ UndoReadFromDisk known_key recover (rev_files store_v) (GetUndoPos index_u) 7 = Some undo_a.
Proof.
  split; [vm_compute; reflexivity|].
  apply (WriteUndoDataForBlock_durable false net_start known_key recover eq_refl recover_known good_env store_b undo_a index_a 7 store_u).
  - exact store_b_reachable.
  - coin_ok.
  - cbn. lia.
  - split; [vm_compute; reflexivity|]. intros i Hi. vm_compute in Hi. injection Hi as <-. vm_compute. reflexivity.
  - reflexivity.
  - vm_compute. reflexivity.
  - apply rtc_once. eapply (step_save false net_start _ _ _ good_env store_u block_b 2 None (Some 1)); [exact block_b_fits|exact I|vm_compute; reflexivity].
Defined.
